(* ===== verification/_CoqProject ===== *)
-Q . S2P
Prelude.v
Leb128.v
Features.v
Opcodes.v
Types.v
ValStack.v
Validate.v
ValidateSafe.v
Signature.v
SignatureAgree.v
Memory.v
Waiters.v
Descriptor.v
ConstExpr.v
Execution.v
ExecGraph.v
ExecEpoch.v
ExecSafe.v
TypeIDs.v
ModuleList.v
ModuleClose.v
Binary.v
BinaryWf.v
ModuleValidate.v
ModuleValidateSafe.v
Instantiate.v
InstantiateSafe.v
InstantiateTyped.v
Operations.v
Compiler.v
Lower.v
LowerSafe.v
GoFloat.v
Numeric.v
Vector.v
Machine.v
Interp.v
InterpBase.v
Runtime.v
InterpSafe.v
InterpMem.v
InterpGuest.v
InterpStore.v
NumericSpec.v
StackEffect.v
GoPath.v
WasiSys.v
Wasi.v
WasiSafe.v
WasiGuest.v
WasiSpec.v
WasiReaddir.v
WasiDirents.v
Arm64.v
Arm64Mask.v
Arm64Spec.v
