(* ===== verification/Prelude.v ===== *)
(** * andsifr (a wazero fork): a verification library

    andsifr is a WebAssembly runtime in Go.  A module comes in as bytes, is
    decoded (src/internal/wasm/binary), validated (src/internal/wasm), compiled
    by one of two engines (src/internal/engine/interpreter, .../wazevo),
    instantiated in a store that links it to other instances, and run; host
    code calls into it and closes it, from any goroutine.  This library models
    the parts of that path that carry the runtime's own logic, as executable
    definitions, and proves what makes them correct.

    ** Conventions

    Integers are [Z] kept inside the range of their Go type; every conversion
    or operation that may leave it is followed by the wrap of the type
    ([wrap32], [sgn32], ...).  Bytes are [Z], slices are lists, maps are [gmap],
    a map that may be nil is an [option].  A call that may fail gives a [res]:
    [Ok], [Err] with the message, or [Panic] where Go would panic (an index out
    of range, a write to a nil map).  Messages keep the string arguments of
    their format and drop the numeric ones.  A [switch] is a chain of tests.
    Where the code shares objects through pointers the model has a heap, and
    where goroutines interleave it has a step function over atomic actions: the
    sections under a lock, the compare-and-swaps and single accesses.

    ** Files

    - [Prelude]: machine integers, outcomes, slices, automation.
    - [Leb128] (internal/leb128/leb128.go): the variable-length integers.
    - [Features] (api/features.go, experimental/features.go): feature sets.
    - [Opcodes] (internal/wasm/instruction.go): the instruction set.
    - [Types] (internal/wasm/module.go): packed value types, function types,
      subtyping and structural equivalence of types with rec groups.
    - [ValStack], [Validate] (internal/wasm/func_validation.go): the operand
      and control stacks of function validation in a state and error monad,
      every instruction, and the loop over the body; [ValidateSafe]: its
      invariant and its totality.
    - [Signature] (internal/engine/interpreter/signature.go and the operand
      stack of compiler.go): what the interpreter's compiler takes each opcode
      to pop and push; [SignatureAgree]: that it follows the validator.
    - [Memory], [Waiters] (internal/wasm/memory.go): linear memory, and the
      queues of atomic wait and notify.
    - [Descriptor] (internal/descriptor/table.go): the table of descriptors.
    - [ConstExpr] (internal/wasm/const_expr.go, binary/const_expr.go): constant
      expressions, decoded and evaluated.
    - [Execution] (internal/wasm/execution.go): guest executions, the graph of
      imports between instances, and the release of allocator memory;
      [ExecGraph], [ExecEpoch]: invariants; [ExecSafe]: the properties.
    - [TypeIDs] (internal/wasm/store.go, module.go): the numbers that stand
      for function types at run time.
    - [ModuleList] (internal/wasm/store_module_list.go) and [ModuleClose]
      (internal/wasm/module_instance.go, store.go): the instances of a store,
      their registration and their closing.
    - [Binary] (internal/wasm/binary): the decoder, with the data of a decoded
      module; [BinaryWf]: what it returns is well formed.
    - [ModuleValidate] (internal/wasm/module.go, table.go, counts.go): the
      validation of a decoded module; [ModuleValidateSafe]: that it returns,
      and what an accepted module satisfies.
    - [Instantiate] (internal/wasm/store.go, table.go, global.go): imports,
      tables, globals, memories and segments of a new instance;
      [InstantiateSafe]: that the objects of the store only grow;
      [InstantiateTyped]: that instances are well typed.
    - [Operations] (internal/engine/interpreter/operations.go): the operations
      of the interpreter; [Compiler] (compiler.go): control frames, labels and
      the operations of every instruction; [Lower] (interpreter.go): bodies
      with addresses, and the compiled modules of the engine; [LowerSafe].
    - [GoFloat] (internal/moremath/moremath.go and Go's floats), [Numeric],
      [Vector] (the value operations of interpreter.go).
    - [Machine], [Interp] (interpreter.go): stack, frames, exceptions, every
      operation, the loop, calls and their recovery; [InterpBase]: what holds
      of every instruction; [InterpMem]: memory and table instructions.
    - [Runtime] (runtime.go, config.go): compilation, instantiation, start
      functions and closing, composed from the files above; [InterpSafe],
      [InterpGuest]: calls, exceptions and whole guests; [InterpStore]: what a
      call does to the objects of the store; [NumericSpec]: the integer
      instructions against the specification; [StackEffect]: operations
      against their signatures.
    - [GoPath] (the path checks of imports/wasi_snapshot_preview1/fs.go and
      internal/sys/fs.go, with Go's path functions), [WasiSys]
      (internal/sys/fs.go, sys.go, internal/wasip1/errno.go): errnos, the open
      files of a module on the [Descriptor] table, the cache of directory
      entries; [Wasi] (imports/wasi_snapshot_preview1): every function of the
      module.  Files, file systems, clocks and random bytes are the class
      [Host].  [WasiSafe]: the invariant that each function keeps;
      [WasiGuest]: any sequence of calls, and a host to run them on;
      [WasiSpec], [WasiReaddir], [WasiDirents]: what single functions do.
    - [Arm64] (internal/engine/wazevo/backend/isa/arm64: lower_constant.go,
      instr_encoding.go): integer constants of compiled code, and the meaning
      of their machine words; [Arm64Mask]: bit-mask immediates; [Arm64Spec]:
      what the words compute.

    ** What is shown

    From bytes to a module: decoding and validation return on every input,
    with one panic in the decoder and one in validation that are shown to
    occur ([compile_total], [decode_end_of_input], [validate_late_check]); a
    decoded module is well formed, section by section ([decode_wf],
    [decode_sections]); in an accepted one every index is in range and every
    constant expression has a value in an instance ([accepted_indices],
    [accepted_exprs_evaluate]), though some invalid ones are accepted
    ([validate_accepts_invalid]).

    Validation: on every body that ends in the end opcode it terminates
    without panic, except with try_table in a function with non-nullable
    locals ([validateFunction_total], [try_table_nil_map]); the stack with
    limits implements the frames of the specification's algorithm
    ([valueTypeStack_refines_spec]); what is accepted is well nested.  The
    interpreter's compiler keeps its stack in step with the validator's on
    every non-control instruction ([compiler_follows_validator]), except that
    it refuses a sub-opcode that takes more than one byte
    ([misc_opcode_encoding]).

    Types: structural equivalence terminates and is equality of the infinite
    trees ([structural_equivalence_spec]), subtyping is the preorder of the
    proposal, and the run-time numbers agree with it for types outside rec
    groups ([type_ids_agree]) but not inside ([rec_group_ids_collide]).

    Memory and its release: growth and accesses keep to their bounds; memory
    that a running guest can reach is not freed, in any interleaving of calls,
    closes and instantiations ([guest_memory_not_freed]), what is released is
    exactly what no open instance reaches, and it is freed once and in the end.

    Stores: the pointer list and the name map implement a list with unique
    names ([module_list_refines]); in every interleaving registered instances
    are closed with their store, and resources are released once; with context
    watchers this can fail ([watch_races]).

    Instances: a module that the decoder and the validator accept becomes an
    instance whose globals, tables, elements and tags have their declared types
    and whose imports match ([instantiate_typed]), when it imports one memory
    at most and its tables and globals have no concrete reference types; some
    other modules make instantiation panic ([instantiate_panics]).  Data
    segments are written in order up to the first that is out of bounds, also
    when an allocator has put them in place ([data_segments_written]).

    The interpreter: every label of a compiled body is resolved to an address
    inside it, and resolving changes nothing else ([labels_resolved]); a call leaves the frames of its callers as
    they were, however it ends ([calls_restore_frames]); an exception goes to
    the innermost handler that matches ([exception_innermost_handler]); memory
    and table instructions do what the specification says, with its traps
    ([load_store_spec], [bulk_operations_spec]); at the end of a memory of
    4 GiB a load of 16 bits panics, and other accesses are refused or let
    through ([full_memory_accesses]).  Every integer instruction computes
    what the specification defines on words and bits ([integer_instructions]),
    and every operation of the numeric, memory, vector and atomic tables takes
    and leaves the slots that the compiler's signature says, or traps
    ([operations_follow_signatures]).  Whatever a guest does, instances keep
    their declared types ([guests_preserve_typing]).  A result does not depend on the fuel
    ([fuel_irrelevant]).  Two modules that are miscompiled and two that ignore
    a closed context are run from their bytes ([references_miscompiled],
    [closed_module_keeps_running]).

    WASI: whatever a guest passes to the functions, in any order, they do not
    panic, keep the table of descriptors bounded and give file systems only
    paths without [..], apart from the target that a symbolic link stores, when
    the streams are no directories and the memory is below 4 GiB
    ([guest_calls_safe]); a path is resolved as the walk it
    describes and refused exactly when it leaves its directory
    ([path_resolution]); a guest that follows cookies lists every entry of a
    directory once ([readdir_lists]), also when it parses them from its memory
    ([readdir_through_memory]), and reads back the arguments that the
    host configured ([arguments_roundtrip]).  Where the functions differ from
    WASI is evaluated on a host ([wasi_deviations]).

    Codecs: LEB128 and little-endian round trips, totality and soundness of
    the decoders, and what the signed ones accept beyond their type.

    Compiled code: the words that the arm64 back end of the optimising
    compiler emits for an integer constant leave it in the register and change
    no other, for every constant and register ([arm64_constants]).

    ** Fuel

    The loops that are not structural have a fuel that their theorems show to
    be enough: a LEB128 number has at most ten bytes; a validation or constant
    expression step consumes a byte, so the length of the body bounds the
    steps; structural equivalence adds a pair of rec groups per level, so one
    more level than there are pairs; an element of a vector or a section takes
    a byte of the reader; walks over the import graph and the
    module list visit an instance once, so the number of instances.  Running
    out of fuel is a [Panic] or an unfinished result that the totality
    theorems exclude.  Guests need not end: the fuel of a call bounds its
    operations, running out is the outcome [OutOfFuel], and more fuel never
    changes an outcome that was reached.  The loops over vectors of buffers
    and subscriptions take one fuel per element, which the memory they were
    read from bounds.

    ** Not modelled

    The optimising compiler (wazevo) but for its integer constants on arm64, a
    system of its own with three machine back ends; the files, directories and
    sockets of the operating system behind the interfaces that WASI calls, with
    the constructors of the standard streams; Go reflection for host functions, which are parameters;
    the command line.
    Of the interpreter, the stack iterator, snapshots and the text of stack
    traces; of the runtime, the compilation cache and the file system.  DWARF
    lines, which the Go library parses. *)

From Stdlib Require Export ZArith Lia.
From stdpp Require Export base list gmap strings.

(** ** Go values

    Go integers are modelled by [Z] kept inside the range of their width; every
    conversion or arithmetic operation that may leave the range is followed by
    the wrap of its type. *)

Declare Scope go_scope.
Delimit Scope go_scope with go.
#[export] Set Warnings "-notation-overridden".
Global Open Scope Z_scope.

Definition wrap8 (z : Z) : Z := z mod 2 ^ 8.
Definition wrap16 (z : Z) : Z := z mod 2 ^ 16.
Definition wrap32 (z : Z) : Z := z mod 2 ^ 32.
Definition wrap64 (z : Z) : Z := z mod 2 ^ 64.

(** Two's complement reading of the low [w] bits, e.g. the Go conversion
    [int32(x)]. *)
Definition sgn (w : Z) (z : Z) : Z := (z + 2 ^ (w - 1)) mod 2 ^ w - 2 ^ (w - 1).
Definition sgn32 (z : Z) : Z := sgn 32 z.
Definition sgn64 (z : Z) : Z := sgn 64 z.

Definition is_u8 (z : Z) : Prop := 0 <= z < 2 ^ 8.
Definition is_u32 (z : Z) : Prop := 0 <= z < 2 ^ 32.
Definition is_u64 (z : Z) : Prop := 0 <= z < 2 ^ 64.
Definition is_i32 (z : Z) : Prop := - 2 ^ 31 <= z < 2 ^ 31.
Definition is_i64 (z : Z) : Prop := - 2 ^ 63 <= z < 2 ^ 63.

(** A byte slice is a [list Z]; [bytes_ok] says that its elements are bytes. *)
Definition bytes_ok (l : list Z) : Prop := Forall is_u8 l.

(** ** Outcomes

    A Go call either returns, returns an error, or panics (index out of range,
    write to a nil map, explicit [panic]).  The message is the constant part of
    the format string. *)
Inductive res (A : Type) : Type :=
| Ok (a : A)
| Err (msg : string)
| Panic (msg : string).
Arguments Ok {A} a.
Arguments Err {A} msg.
Arguments Panic {A} msg.

Definition res_bind {A B} (m : res A) (k : A -> res B) : res B :=
  match m with
  | Ok a => k a
  | Err e => Err e
  | Panic e => Panic e
  end.

Notation "'let!' x ':=' e 'in' k" := (res_bind e (fun x => k))
  (at level 10, x pattern, e at level 100, k at level 200) : go_scope.
Global Open Scope go_scope.

(** The Go idiom [fmt.Errorf("prefix: %w", err)]. *)
Definition errorf {A} (prefix : string) (m : res A) : res A :=
  match m with
  | Err e => Err (prefix +:+ ": " +:+ e)
  | r => r
  end.

Definition no_panic {A} (m : res A) : Prop := forall e, m <> Panic e.

(** ** Slices indexed by [Z] *)

Definition zlen {A} (l : list A) : Z := Z.of_nat (length l).

(** [l[i]] as an option: [None] is the out-of-range panic of Go. *)
Definition zlookup {A} (l : list A) (i : Z) : option A :=
  if 0 <=? i then l !! Z.to_nat i else None.

(** [l[i:]]: panics when [i > len(l)]. *)
Definition zslice {A} (l : list A) (i : Z) : res (list A) :=
  if (0 <=? i) && (i <=? zlen l) then Ok (drop (Z.to_nat i) l)
  else Panic "slice bounds out of range".

(** [l[i]] with the panic. *)
Definition zindex {A} (l : list A) (i : Z) : res A :=
  match zlookup l i with
  | Some a => Ok a
  | None => Panic "index out of range"
  end.

(** A Go [switch] case with several labels. *)
Definition one_of (x : Z) (l : list Z) : bool := existsb (Z.eqb x) l.

(** Inclusive bounds test [lo <= x && x <= hi]. *)
Definition between (lo x hi : Z) : bool := (lo <=? x) && (x <=? hi).

(** ** Little-endian encoding ([encoding/binary].LittleEndian) *)

Fixpoint le_decode (l : list Z) : Z :=
  match l with
  | [] => 0
  | b :: l' => b + 256 * le_decode l'
  end.

Fixpoint le_encode (n : nat) (v : Z) : list Z :=
  match n with
  | O => []
  | S n' => v mod 256 :: le_encode n' (v / 256)
  end.

(** ** Automation *)

Create HintDb wz.

(** Case analysis on the scrutinee of a [match]/[if] in the goal or in [H]. *)
Ltac case_in H :=
  match type of H with
  | context [match ?x with _ => _ end] => destruct x eqn:?; simplify_eq/=
  end.

(** Boolean tests of the model to propositions. *)
Ltac bools :=
  repeat match goal with
  | H : context [_ && _ = true] |- _ => rewrite andb_true_iff in H
  | H : context [_ && _ = false] |- _ => rewrite andb_false_iff in H
  | H : context [_ || _ = true] |- _ => rewrite orb_true_iff in H
  | H : context [_ || _ = false] |- _ => rewrite orb_false_iff in H
  | H : negb _ = true |- _ => rewrite negb_true_iff in H
  | H : negb _ = false |- _ => rewrite negb_false_iff in H
  | H : (_ <=? _) = true |- _ => rewrite Z.leb_le in H
  | H : (_ <=? _) = false |- _ => rewrite Z.leb_gt in H
  | H : (_ <? _) = true |- _ => rewrite Z.ltb_lt in H
  | H : (_ <? _) = false |- _ => rewrite Z.ltb_ge in H
  | H : (_ =? _) = true |- _ => rewrite Z.eqb_eq in H
  | H : (_ =? _) = false |- _ => rewrite Z.eqb_neq in H
  | H : (_ >? _) = true |- _ => rewrite Z.gtb_lt in H
  | H : (_ >? _) = false |- _ => rewrite Z.gtb_ltb, Z.ltb_ge in H
  | H : (_ >=? _) = true |- _ => rewrite Z.geb_le in H
  | H : (_ >=? _) = false |- _ => rewrite Z.geb_leb, Z.leb_gt in H
  | H : _ /\ _ |- _ => destruct H
  end.

(** ** Generic lemmas *)

Lemma zlen_nonneg {A} (l : list A) : 0 <= zlen l.
Proof. unfold zlen; lia. Qed.
#[export] Hint Resolve zlen_nonneg : wz.

Lemma zlen_app {A} (l k : list A) : zlen (l ++ k) = zlen l + zlen k.
Proof. unfold zlen; rewrite length_app; lia. Qed.

Lemma zlen_cons {A} (a : A) l : zlen (a :: l) = 1 + zlen l.
Proof. unfold zlen; simpl length; lia. Qed.

Lemma zlen_drop {A} (l : list A) n : zlen (drop n l) = Z.max 0 (zlen l - Z.of_nat n).
Proof. unfold zlen; rewrite length_drop; lia. Qed.

Lemma zlen_take {A} (l : list A) n : zlen (take n l) = Z.min (Z.of_nat n) (zlen l).
Proof. unfold zlen; rewrite length_take; lia. Qed.

Lemma zlen_insert {A} (l : list A) i a : zlen (<[i := a]> l) = zlen l.
Proof. unfold zlen. by rewrite length_insert. Qed.

Lemma zlookup_Some_lt {A} (l : list A) i a :
  zlookup l i = Some a -> 0 <= i < zlen l.
Proof.
  unfold zlookup, zlen. destruct (0 <=? i) eqn:E; [|done]. bools.
  intros H%lookup_lt_Some. lia.
Qed.

Lemma zlookup_lt_is_Some {A} (l : list A) i :
  0 <= i < zlen l -> exists a, zlookup l i = Some a.
Proof.
  unfold zlookup, zlen. intros H. destruct (0 <=? i) eqn:E; bools; [|lia].
  apply lookup_lt_is_Some_2; lia.
Qed.

Lemma zlookup_neg {A} (l : list A) i : i < 0 -> zlookup l i = None.
Proof. intros H. unfold zlookup. by rewrite (proj2 (Z.leb_gt _ _)) by lia. Qed.

Lemma zlookup_ge {A} (l : list A) i : zlen l <= i -> zlookup l i = None.
Proof.
  intros H. unfold zlookup. destruct (0 <=? i) eqn:E; [|done]. apply lookup_ge_None_2. unfold zlen in H. lia.
Qed.

Lemma zlookup_app {A} (l k : list A) i :
  zlookup (l ++ k) i = if i <? zlen l then zlookup l i else zlookup k (i - zlen l).
Proof.
  unfold zlookup. destruct (Z.ltb_spec i (zlen l)) as [H|H].
  - destruct (0 <=? i) eqn:E; [|done]. bools. apply lookup_app_l. unfold zlen in H. lia.
  - pose proof (zlen_nonneg l). rewrite (proj2 (Z.leb_le 0 i)), (proj2 (Z.leb_le 0 (i - zlen l))) by lia.
    rewrite lookup_app_r by (unfold zlen in H; lia). f_equal. unfold zlen. lia.
Qed.

Lemma zlookup_ok (l : list Z) i b : bytes_ok l -> zlookup l i = Some b -> is_u8 b.
Proof.
  unfold zlookup, bytes_ok. rewrite Forall_lookup. destruct (0 <=? i); [|done]. eauto.
Qed.

Lemma zindex_in {A} (l : list A) i :
  0 <= i < zlen l -> exists a, zindex l i = Ok a /\ zlookup l i = Some a.
Proof.
  intros (a & Ha)%zlookup_lt_is_Some. exists a. unfold zindex. by rewrite Ha.
Qed.

Lemma zslice_in {A} (l : list A) i :
  0 <= i <= zlen l -> zslice l i = Ok (drop (Z.to_nat i) l).
Proof.
  intros H. unfold zslice. destruct (0 <=? i) eqn:E1, (i <=? zlen l) eqn:E2; bools; simpl; done || lia.
Qed.

Lemma bytes_ok_drop l n : bytes_ok l -> bytes_ok (drop n l).
Proof. apply Forall_drop. Qed.
#[export] Hint Resolve bytes_ok_drop : wz.

Lemma res_bind_Ok {A B} (m : res A) (k : A -> res B) b :
  res_bind m k = Ok b -> exists a, m = Ok a /\ k a = Ok b.
Proof. destruct m; simpl; [eauto | done | done]. Qed.

Lemma res_bind_no_panic {A B} (m : res A) (k : A -> res B) :
  no_panic m -> (forall a, m = Ok a -> no_panic (k a)) -> no_panic (res_bind m k).
Proof. destruct m; simpl; unfold no_panic; intros Hm Hk e; naive_solver. Qed.

(** *** Machine integers *)

Lemma wrap32_small z : is_u32 z -> wrap32 z = z.
Proof. unfold wrap32, is_u32. intros; apply Z.mod_small; lia. Qed.

Lemma wrap64_small z : is_u64 z -> wrap64 z = z.
Proof. unfold wrap64, is_u64. intros; apply Z.mod_small; lia. Qed.

Lemma wrap32_range z : is_u32 (wrap32 z).
Proof. apply Z.mod_pos_bound; lia. Qed.

Lemma wrap64_range z : is_u64 (wrap64 z).
Proof. apply Z.mod_pos_bound; lia. Qed.

Lemma sgn_range w z : 0 < w -> - 2 ^ (w - 1) <= sgn w z < 2 ^ (w - 1).
Proof.
  intros Hw. unfold sgn.
  assert (2 ^ w = 2 * 2 ^ (w - 1)) as E.
  { replace w with (1 + (w - 1)) at 1 by lia. rewrite Z.pow_add_r by lia. lia. }
  pose proof (Z.pow_pos_nonneg 2 (w - 1) ltac:(lia) ltac:(lia)).
  pose proof (Z.mod_pos_bound (z + 2 ^ (w - 1)) (2 ^ w) ltac:(lia)). lia.
Qed.

Lemma sgn_small w z : 0 < w -> - 2 ^ (w - 1) <= z < 2 ^ (w - 1) -> sgn w z = z.
Proof.
  intros Hw Hz. unfold sgn.
  assert (2 ^ w = 2 * 2 ^ (w - 1)) as E.
  { replace w with (1 + (w - 1)) at 1 by lia. rewrite Z.pow_add_r by lia. lia. }
  rewrite Z.mod_small by lia. lia.
Qed.

Lemma sgn_mod_eq w z : 0 < w -> (sgn w z) mod 2 ^ w = z mod 2 ^ w.
Proof.
  intros Hw. unfold sgn. pose proof (Z.pow_pos_nonneg 2 w ltac:(lia) ltac:(lia)).
  rewrite Zminus_mod_idemp_l. f_equal. lia.
Qed.

(** The value of [sgn] only depends on the low [w] bits. *)
Lemma sgn_mod w a b : 0 < w -> a mod 2 ^ w = b mod 2 ^ w -> sgn w a = sgn w b.
Proof.
  intros Hw E. unfold sgn. pose proof (Z.pow_pos_nonneg 2 w ltac:(lia) ltac:(lia)).
  f_equal. rewrite <- (Zplus_mod_idemp_l a), <- (Zplus_mod_idemp_l b), E. done.
Qed.

(** [sgn w] commutes with bitwise or: Go's [int32(a) | int32(b) = int32(a | b)]. *)
Lemma sgn_lor w a b : 0 < w -> Z.lor (sgn w a) (sgn w b) = sgn w (Z.lor a b).
Proof.
  intros Hw. rewrite <- (sgn_small w (Z.lor (sgn w a) (sgn w b))); [|lia|].
  - apply sgn_mod; [lia|].
    rewrite <- !Z.land_ones by lia. apply Z.bits_inj'; intros n Hn.
    rewrite !Z.land_spec, !Z.lor_spec. destruct (Z.lt_ge_cases n w).
    + f_equal.
      assert (forall z, Z.testbit (sgn w z) n = Z.testbit z n) as T.
      { intros z. rewrite <- (Z.mod_pow2_bits_low (sgn w z) w n) by lia.
        rewrite sgn_mod_eq by lia. by rewrite Z.mod_pow2_bits_low by lia. }
      by rewrite !T.
    + rewrite Z.ones_spec_high by lia. by rewrite !andb_false_r.
  - pose proof (sgn_range w a Hw). pose proof (sgn_range w b Hw).
    set (x := sgn w a) in *. set (y := sgn w b) in *.
    assert (forall z, - 2 ^ (w - 1) <= z < 2 ^ (w - 1) <-> Z.shiftr z (w - 1) = 0 \/ Z.shiftr z (w - 1) = -1) as R.
    { intros z. rewrite Z.shiftr_div_pow2 by lia.
      pose proof (Z.pow_pos_nonneg 2 (w - 1) ltac:(lia) ltac:(lia)).
      split; intros Hz.
      - destruct (Z.lt_ge_cases z 0); [right|left; apply Z.div_small; lia].
        symmetry. apply (Z.div_unique _ _ _ (z + 2 ^ (w - 1))); lia.
      - pose proof (Z.div_mod z (2 ^ (w - 1))). pose proof (Z.mod_pos_bound z (2 ^ (w - 1))).
        destruct Hz as [Hz|Hz]; rewrite Hz in *; lia. }
    rewrite R in *. rewrite Z.shiftr_lor.
    destruct H as [-> | ->], H0 as [-> | ->]; simpl; auto.
Qed.

(** [a | (b << s)] where [a] only uses the bits below [s] is an addition. *)
Lemma lor_shiftl_add a b s : 0 <= s -> 0 <= a < 2 ^ s -> Z.lor a (Z.shiftl b s) = a + b * 2 ^ s.
Proof.
  intros Hs Ha. rewrite <- Z.shiftl_mul_pow2 by lia.
  symmetry. apply Z.add_nocarry_lor.
  apply Z.bits_inj'; intros n Hn; rewrite Z.land_spec, Z.bits_0.
  destruct (Z.lt_ge_cases n s).
  - rewrite Z.shiftl_spec_low by lia. apply andb_false_r.
  - rewrite <- (Z.mod_small a (2 ^ s)) by lia. rewrite Z.mod_pow2_bits_high by lia. done.
Qed.

Lemma land_127 b : Z.land b 127 = b mod 128.
Proof. change 127 with (Z.ones 7). rewrite Z.land_ones by lia. done. Qed.

(** *** Little endian *)

Lemma length_le_encode n v : length (le_encode n v) = n.
Proof. revert v; induction n; simpl; auto. Qed.

Lemma le_encode_ok n v : bytes_ok (le_encode n v).
Proof.
  revert v; induction n as [|n IH]; intros v; cbn [le_encode]; [by constructor|].
  constructor; [|apply IH]. unfold is_u8. pose proof (Z.mod_pos_bound v 256). lia.
Qed.
#[export] Hint Resolve le_encode_ok : wz.

Lemma le_decode_encode n v : 0 <= v < 2 ^ (8 * Z.of_nat n) -> le_decode (le_encode n v) = v.
Proof.
  revert v; induction n as [|n IH]; intros v Hv; cbn [le_encode le_decode].
  { change (2 ^ (8 * Z.of_nat 0)) with 1 in Hv. lia. }
  rewrite IH.
  - pose proof (Z.div_mod v 256). lia.
  - replace (8 * Z.of_nat (S n)) with (8 + 8 * Z.of_nat n) in Hv by lia.
    rewrite Z.pow_add_r in Hv by lia. change (2 ^ 8) with 256 in Hv.
    pose proof (Z.div_mod v 256). pose proof (Z.mod_pos_bound v 256).
    split; [apply Z.div_pos; lia | apply Z.div_lt_upper_bound; lia].
Qed.

Lemma le_encode_decode l : bytes_ok l -> le_encode (length l) (le_decode l) = l.
Proof.
  induction 1 as [|b l Hb Hl IH]; [done|]. cbn [le_encode le_decode length].
  unfold is_u8 in Hb.
  replace ((b + 256 * le_decode l) mod 256) with b
    by (rewrite Z.mul_comm, Z.mod_add by lia; rewrite Z.mod_small by lia; done).
  replace ((b + 256 * le_decode l) / 256) with (le_decode l)
    by (rewrite Z.mul_comm, Z.div_add by lia; rewrite Z.div_small by lia; lia).
  by rewrite IH.
Qed.

Lemma le_decode_range l : bytes_ok l -> 0 <= le_decode l < 2 ^ (8 * zlen l).
Proof.
  induction 1 as [|b l Hb Hl IH]; [vm_compute; intuition congruence|].
  cbn [le_decode]. rewrite zlen_cons. unfold is_u8 in Hb.
  replace (8 * (1 + zlen l)) with (8 + 8 * zlen l) by lia.
  rewrite Z.pow_add_r by (pose proof (zlen_nonneg l); lia). change (2 ^ 8) with 256. lia.
Qed.
