(* ===== verification/Leb128.v ===== *)
(** * LEB128 (src/internal/leb128/leb128.go)

    The variable-length integer codec of the Wasm binary format: the four
    encoders, the five decoders in both of their forms (over an
    [io.ByteReader], and over a slice), the round trips between them, the
    denotation of what they accept, and the equivalence of the two forms.

    The decoders are written, as in the source, against a [nextByte] callback;
    the callback of the [DecodeXXX] form consumes a reader, that of the
    [LoadXXX] form indexes a slice.  The signed decoders loop until a byte
    without continuation bit: the model gives the loop one iteration more than
    there are bytes, and [leb_decoders_total] shows the bound is never reached. *)

From S2P Require Import Prelude.

Definition maxVarintLen32 : Z := 5.
Definition maxVarintLen33 : Z := maxVarintLen32.
Definition maxVarintLen64 : Z := 10.

Definition int33Mask : Z := Z.shiftl 1 7.
Definition int33Mask2 : Z := Z.lnot int33Mask.
Definition int33Mask3 : Z := Z.shiftl 1 6.
Definition int33Mask4 : Z := 8589934591.
Definition int33Mask5 : Z := Z.shiftl 1 32.
Definition int33Mask6 : Z := int33Mask4 + 1.
Definition int64Mask3 : Z := Z.shiftl 1 6.
Definition int64Mask4 : Z := Z.lnot 0.

Definition errOverflow32 : string := "overflows a 32-bit integer".
Definition errOverflow33 : string := "overflows a 33-bit integer".
Definition errOverflow64 : string := "overflows a 64-bit integer".
Definition io_EOF : string := "EOF".

(** ** Encoders *)

(** One iteration emits the low 7 bits; the loop runs until a byte without
    continuation bit was appended.  Ten iterations are enough for 64 bits. *)
Fixpoint EncodeInt64_loop (fuel : nat) (value : Z) : list Z :=
  match fuel with
  | O => []
  | S fuel' =>
      let b := Z.land value 0x7f in
      let s := Z.land value 0x40 in
      let value := Z.shiftr value 7 in
      let b := if (negb (value =? -1) || (s =? 0)) && (negb (value =? 0) || negb (s =? 0))
               then Z.lor b 0x80 else b in
      if Z.land b 0x80 =? 0 then [b] else b :: EncodeInt64_loop fuel' value
  end.

Definition EncodeInt64 (value : Z) : list Z := EncodeInt64_loop 10 value.

Definition EncodeInt32 (value : Z) : list Z := EncodeInt64 value.

Fixpoint EncodeUint64_loop (fuel : nat) (value : Z) : list Z :=
  match fuel with
  | O => []
  | S fuel' =>
      let b := Z.land value 0x7f in
      let value := Z.shiftr value 7 in
      let b := if negb (value =? 0) then Z.lor b 0x80 else b in
      if Z.land b 0x80 =? 0 then [b] else b :: EncodeUint64_loop fuel' value
  end.

Definition EncodeUint64 (value : Z) : list Z := EncodeUint64_loop 10 value.

Definition EncodeUint32 (value : Z) : list Z := EncodeUint64 value.

(** ** Byte sources *)

(** [nextByte R]: the callback, threading the state [R] of what it reads. *)
Definition nextByte (R : Type) : Type := Z -> R -> res (Z * R).

(** [r.ReadByte()] on a [bytes.Reader] whose unread bytes are the state. *)
Definition readByte : nextByte (list Z) := fun _ r =>
  match r with
  | [] => Err io_EOF
  | b :: r' => Ok (b, r')
  end.

(** The callback of the [LoadXXX] functions: [buf[i]], stateless. *)
Definition loadByte (buf : list Z) : nextByte unit := fun i _ =>
  if i >=? zlen buf then Err io_EOF
  else let! b := zindex buf i in Ok (b, tt).

(** ** Decoders *)

Section Decode.
Context {R : Type} (next : nextByte R).

(** [for i := 0; i < maxVarintLen32; i++]: [fuel] is [maxVarintLen32 - i]. *)
Fixpoint decodeUint32_loop (fuel : nat) (i s ret : Z) (r : R) : res (Z * Z * R) :=
  match fuel with
  | O => Err errOverflow32
  | S fuel' =>
      let! (b, r) := next i r in
      if b <? 0x80 then
        if (i =? maxVarintLen32 - 1) && (Z.land b 0xf0 >? 0) then Err errOverflow32
        else Ok (Z.lor ret (wrap32 (Z.shiftl b s)), i + 1, r)
      else
        decodeUint32_loop fuel' (i + 1) (wrap32 (s + 7))
          (Z.lor ret (wrap32 (Z.shiftl (Z.land b 0x7f) s))) r
  end.

Definition decodeUint32 (r : R) : res (Z * Z * R) :=
  decodeUint32_loop (Z.to_nat maxVarintLen32) 0 0 0 r.

(** The overflow checks and result of [decodeInt32] after the last byte [b]. *)
Definition decodeInt32_finish (b ret shift bytesRead : Z) : res (Z * Z) :=
  let ret := if (shift <? 32) && negb (Z.land b 0x40 =? 0)
             then Z.lor ret (sgn32 (Z.shiftl (Z.lnot 0) shift)) else ret in
  if bytesRead >? maxVarintLen32 then Err errOverflow32
  else
    let unused := Z.land b 0x30 in
    if (bytesRead =? maxVarintLen32) && (ret <? 0) && negb (unused =? 0x30) then Err errOverflow32
    else if (bytesRead =? maxVarintLen32) && (ret >=? 0) && negb (unused =? 0) then Err errOverflow32
    else Ok (ret, bytesRead).

Fixpoint decodeInt32_loop (fuel : nat) (ret shift bytesRead : Z) (r : R) : res (Z * Z * R) :=
  match fuel with
  | O => Panic "decodeInt32: loop bound"
  | S fuel' =>
      let! (b, r) := errorf "readByte failed" (next bytesRead r) in
      let ret := Z.lor ret (sgn32 (Z.shiftl (Z.land b 0x7f) shift)) in
      let shift := shift + 7 in
      let bytesRead := bytesRead + 1 in
      if Z.land b 0x80 =? 0 then
        let! (ret, bytesRead) := decodeInt32_finish b ret shift bytesRead in
        Ok (ret, bytesRead, r)
      else decodeInt32_loop fuel' ret shift bytesRead r
  end.

Definition decodeInt32 (fuel : nat) (r : R) : res (Z * Z * R) := decodeInt32_loop fuel 0 0 0 r.

(** The overflow checks and result of [decodeInt64] after the last byte [b]. *)
Definition decodeInt64_finish (b ret shift bytesRead : Z) : res (Z * Z) :=
  let ret := if (shift <? 64) && (Z.land b int64Mask3 =? int64Mask3)
             then Z.lor ret (sgn64 (Z.shiftl int64Mask4 shift)) else ret in
  if bytesRead >? maxVarintLen64 then Err errOverflow64
  else
    let unused := Z.land b 0x3e in
    if (bytesRead =? maxVarintLen64) && (ret <? 0) && negb (unused =? 0x3e) then Err errOverflow64
    else if (bytesRead =? maxVarintLen64) && (ret >=? 0) && negb (unused =? 0) then Err errOverflow64
    else Ok (ret, bytesRead).

Fixpoint decodeInt64_loop (fuel : nat) (ret shift bytesRead : Z) (r : R) : res (Z * Z * R) :=
  match fuel with
  | O => Panic "decodeInt64: loop bound"
  | S fuel' =>
      let! (b, r) := errorf "readByte failed" (next bytesRead r) in
      let ret := Z.lor ret (sgn64 (Z.shiftl (Z.land b 0x7f) shift)) in
      let shift := shift + 7 in
      let bytesRead := bytesRead + 1 in
      if Z.land b 0x80 =? 0 then
        let! (ret, bytesRead) := decodeInt64_finish b ret shift bytesRead in
        Ok (ret, bytesRead, r)
      else decodeInt64_loop fuel' ret shift bytesRead r
  end.

Definition decodeInt64 (fuel : nat) (r : R) : res (Z * Z * R) := decodeInt64_loop fuel 0 0 0 r.

End Decode.

Definition DecodeUint32 (r : list Z) : res (Z * Z * list Z) := decodeUint32 readByte r.

Definition LoadUint32 (buf : list Z) : res (Z * Z) :=
  let! (ret, bytesRead, _) := decodeUint32 (loadByte buf) tt in Ok (ret, bytesRead).

Definition DecodeInt32 (r : list Z) : res (Z * Z * list Z) :=
  decodeInt32 readByte (S (length r)) r.

Definition LoadInt32 (buf : list Z) : res (Z * Z) :=
  let! (ret, bytesRead, _) := decodeInt32 (loadByte buf) (S (length buf)) tt in Ok (ret, bytesRead).

Definition DecodeInt64 (r : list Z) : res (Z * Z * list Z) :=
  decodeInt64 readByte (S (length r)) r.

Definition LoadInt64 (buf : list Z) : res (Z * Z) :=
  let! (ret, bytesRead, _) := decodeInt64 (loadByte buf) (S (length buf)) tt in Ok (ret, bytesRead).

(** [for i := 0; i < maxVarintLen64; i++] over the slice. *)
Fixpoint LoadUint64_loop (fuel : nat) (buf : list Z) (i s ret : Z) : res (Z * Z) :=
  match fuel with
  | O => Err errOverflow64
  | S fuel' =>
      if i >=? zlen buf then Err io_EOF
      else
        let! b := zindex buf i in
        if b <? 0x80 then
          if (i =? maxVarintLen64 - 1) && (b >? 1) then Err errOverflow64
          else Ok (Z.lor ret (wrap64 (Z.shiftl b s)), i + 1)
        else
          LoadUint64_loop fuel' buf (i + 1) (wrap64 (s + 7))
            (Z.lor ret (wrap64 (Z.shiftl (Z.land b 0x7f) s)))
  end.

Definition LoadUint64 (buf : list Z) : res (Z * Z) :=
  if zlen buf =? 0 then Err io_EOF
  else LoadUint64_loop (Z.to_nat maxVarintLen64) buf 0 0 0.

(** The [for shift < 35] loop: returns the last byte, [ret] and [bytesRead];
    [shift] is [7 * bytesRead].  Five iterations reach [shift = 35]. *)
Fixpoint DecodeInt33_loop (fuel : nat) (b ret shift bytesRead : Z) (r : list Z)
  : res (Z * Z * Z * Z * list Z) :=
  match fuel with
  | O => Ok (b, ret, shift, bytesRead, r)
  | S fuel' =>
      if shift <? 35 then
        let! (b, r) := errorf "readByte failed" (readByte 0 r) in
        let ret := Z.lor ret (sgn64 (Z.shiftl (Z.land b int33Mask2) shift)) in
        let shift := shift + 7 in
        let bytesRead := bytesRead + 1 in
        if Z.land b int33Mask =? 0 then Ok (b, ret, shift, bytesRead, r)
        else DecodeInt33_loop fuel' b ret shift bytesRead r
      else Ok (b, ret, shift, bytesRead, r)
  end.

Definition DecodeInt33AsInt64 (r : list Z) : res (Z * Z * list Z) :=
  let! (b, ret, shift, bytesRead, r) := DecodeInt33_loop 5 0 0 0 0 r in
  let ret := if (shift <? 33) && (Z.land b int33Mask3 =? int33Mask3)
             then Z.lor ret (sgn64 (Z.shiftl int33Mask4 shift)) else ret in
  let ret := Z.land ret int33Mask4 in
  let ret := if Z.land ret int33Mask5 >? 0 then ret - int33Mask6 else ret in
  if bytesRead >? maxVarintLen33 then Err errOverflow33
  else
    let unused := Z.land b 0x20 in
    if (bytesRead =? maxVarintLen33) && (ret <? 0) && negb (unused =? 0x20) then Err errOverflow33
    else if (bytesRead =? maxVarintLen33) && (ret >=? 0) && negb (unused =? 0) then Err errOverflow33
    else Ok (ret, bytesRead, r).

(** ** Denotation

    [uleb l] and [sleb l] are the unsigned and signed values that the bytes [l]
    denote; [leb_terminated l] says that exactly the last byte has no
    continuation bit. *)

Fixpoint uleb (l : list Z) : Z :=
  match l with
  | [] => 0
  | b :: l' => b mod 128 + 128 * uleb l'
  end.

Definition sleb (l : list Z) : Z :=
  uleb l - (if Z.testbit (default 0 (last l)) 6 then 2 ^ (7 * zlen l) else 0).

Fixpoint leb_terminated (l : list Z) : bool :=
  match l with
  | [] => false
  | [b] => b <? 128
  | b :: l' => (128 <=? b) && leb_terminated l'
  end.

(** ** Reading a slice and reading a reader agree *)

Lemma loadByte_readByte buf i :
  0 <= i ->
  match readByte i (drop (Z.to_nat i) buf) with
  | Ok (b, r') => loadByte buf i tt = Ok (b, tt) /\ r' = drop (Z.to_nat (i + 1)) buf /\ i < zlen buf
  | Err e => loadByte buf i tt = Err e
  | Panic _ => False
  end.
Proof.
  intros Hi. unfold loadByte, zindex, zlookup. rewrite (proj2 (Z.leb_le 0 i) Hi).
  destruct (drop (Z.to_nat i) buf) as [|b r'] eqn:E; simpl.
  - assert (zlen buf <= i) as Hl.
    { apply (f_equal length) in E. rewrite length_drop in E. unfold zlen. simpl in E. lia. }
    destruct (i >=? zlen buf) eqn:G; [done|]. bools. lia.
  - assert (i < zlen buf) as Hl.
    { apply (f_equal length) in E. rewrite length_drop in E. unfold zlen. simpl in E. lia. }
    destruct (i >=? zlen buf) eqn:G; bools; [lia|].
    assert (buf !! Z.to_nat i = Some b) as ->.
    { rewrite <- (Nat.add_0_r (Z.to_nat i)), <- lookup_drop, E. done. }
    simpl. split_and!; [done| |done].
    replace (Z.to_nat (i + 1)) with (Z.to_nat i + 1)%nat by lia.
    by rewrite <- drop_drop, E.
Qed.

(** What relates a [Load] run at index [i] to a [Decode] run on the rest. *)
Definition load_matches (buf : list Z) (ld : res (Z * Z * unit)) (dc : res (Z * Z * list Z)) : Prop :=
  match dc with
  | Ok (v, n, r) => ld = Ok (v, n, tt) /\ r = drop (Z.to_nat n) buf /\ 0 <= n <= zlen buf
  | Err e => ld = Err e
  | Panic e => ld = Panic e
  end.

Ltac load_step buf i IH :=
  let H := fresh in
  pose proof (loadByte_readByte buf i ltac:(lia)) as H;
  destruct (readByte i (drop (Z.to_nat i) buf)) as [[b r']|e|e]; simpl in *;
  [ destruct H as (-> & -> & H); simpl | rewrite H; simpl; done | done ].

Lemma decodeUint32_loop_load buf fuel i s ret :
  0 <= i ->
  load_matches buf (decodeUint32_loop (loadByte buf) fuel i s ret tt)
    (decodeUint32_loop readByte fuel i s ret (drop (Z.to_nat i) buf)).
Proof.
  revert i s ret; induction fuel as [|fuel IH]; intros i s ret Hi; [done|].
  cbn [decodeUint32_loop]. load_step buf i IH.
  destruct (b <? 0x80).
  - destruct (_ && _); simpl; [done|]. split_and!; done || lia.
  - apply IH. lia.
Qed.

Lemma decodeInt32_loop_load buf fuel ret shift i :
  0 <= i ->
  load_matches buf (decodeInt32_loop (loadByte buf) fuel ret shift i tt)
    (decodeInt32_loop readByte fuel ret shift i (drop (Z.to_nat i) buf)).
Proof.
  revert i shift ret; induction fuel as [|fuel IH]; intros i shift ret Hi; [done|].
  cbn [decodeInt32_loop]. load_step buf i IH.
  destruct (_ =? 0).
  - unfold decodeInt32_finish. repeat case_match; simpl; try done; split_and!; done || lia.
  - apply IH. lia.
Qed.

Lemma decodeInt64_loop_load buf fuel ret shift i :
  0 <= i ->
  load_matches buf (decodeInt64_loop (loadByte buf) fuel ret shift i tt)
    (decodeInt64_loop readByte fuel ret shift i (drop (Z.to_nat i) buf)).
Proof.
  revert i shift ret; induction fuel as [|fuel IH]; intros i shift ret Hi; [done|].
  cbn [decodeInt64_loop]. load_step buf i IH.
  destruct (_ =? 0).
  - unfold decodeInt64_finish. repeat case_match; simpl; try done; split_and!; done || lia.
  - apply IH. lia.
Qed.

(** ** Byte-level facts *)

Lemma land_128_0 b : is_u8 b -> (Z.land b 0x80 =? 0) = (b <? 128).
Proof.
  unfold is_u8. intros Hb.
  assert (Z.land b 128 = (b / 128) * 128) as ->.
  { apply Z.bits_inj'; intros n Hn. rewrite Z.land_spec.
    change (128) with (2 ^ 7) at 1 3.
    rewrite <- Z.shiftl_mul_pow2 by lia. rewrite Z.pow2_bits_eqb by lia.
    destruct (Z.eqb_spec 7 n) as [<-|Hne].
    - rewrite Z.shiftl_spec by lia. change 128 with (2 ^ 7). rewrite Z.div_pow2_bits by lia.
      by rewrite andb_true_r.
    - rewrite andb_false_r. destruct (Z.lt_ge_cases n 7).
      + by rewrite Z.shiftl_spec_low by lia.
      + rewrite Z.shiftl_spec by lia. change 128 with (2 ^ 7). rewrite Z.div_pow2_bits by lia.
        rewrite <- (Z.mod_small b (2 ^ 8)) by lia. rewrite Z.mod_pow2_bits_high by lia. done. }
  assert (b / 128 = 0 \/ b / 128 = 1) as [E|E].
  { pose proof (Z.div_lt_upper_bound b 128 2). pose proof (Z.div_pos b 128). lia. }
  all: rewrite E; pose proof (Z.div_mod b 128); pose proof (Z.mod_pos_bound b 128);
    destruct (Z.ltb_spec b 128); simpl; done || lia.
Qed.

Lemma lor_128 b : 0 <= b < 128 -> Z.lor b 0x80 = b + 128.
Proof.
  intros Hb. change (Z.lor b 0x80) with (Z.lor b (Z.shiftl 1 7)).
  rewrite lor_shiftl_add by lia. lia.
Qed.

(** A property of all bytes, decided by enumeration. *)
Lemma byte_forall (P : Z -> bool) :
  forallb P (map Z.of_nat (seq 0 256)) = true -> forall b, is_u8 b -> P b = true.
Proof.
  intros H b Hb. rewrite forallb_forall in H. apply H.
  rewrite in_map_iff. exists (Z.to_nat b). unfold is_u8 in Hb. rewrite in_seq. lia.
Qed.

(** One iteration of each encoder, in arithmetic form. *)
Lemma EncodeUint64_loop_S fuel v :
  0 <= v ->
  EncodeUint64_loop (S fuel) v =
    if v <? 128 then [v] else (v mod 128 + 128) :: EncodeUint64_loop fuel (v / 128).
Proof.
  intros Hv. cbn [EncodeUint64_loop]. rewrite land_127, Z.shiftr_div_pow2 by lia.
  change (2 ^ 7) with 128. pose proof (Z.mod_pos_bound v 128). pose proof (Z.div_mod v 128).
  destruct (Z.ltb_spec v 128).
  - rewrite (Z.div_small v 128), Z.mod_small by lia. simpl.
    rewrite land_128_0 by (unfold is_u8; lia). by rewrite (proj2 (Z.ltb_lt _ _)) by lia.
  - assert (0 < v / 128) by (apply Z.div_str_pos; lia).
    rewrite (proj2 (Z.eqb_neq (v / 128) 0)) by lia. simpl negb. cbv iota.
    rewrite lor_128, land_128_0 by (unfold is_u8; lia).
    by rewrite (proj2 (Z.ltb_ge _ _)) by lia.
Qed.

Lemma EncodeUint64_loop_bytes fuel : forall v, 0 <= v -> bytes_ok (EncodeUint64_loop fuel v).
Proof.
  induction fuel as [|fuel IH]; intros v Hv; [by constructor|]. rewrite EncodeUint64_loop_S by done.
  pose proof (Z.mod_pos_bound v 128). pose proof (Z.div_pos v 128).
  destruct (Z.ltb_spec v 128); constructor; [unfold is_u8; lia|constructor|unfold is_u8; lia|apply IH; lia].
Qed.

Lemma EncodeUint32_bytes v : 0 <= v -> bytes_ok (EncodeUint32 v).
Proof. apply EncodeUint64_loop_bytes. Qed.

Lemma land_64_test v : (Z.land v 0x40 =? 0) = negb (Z.testbit v 6).
Proof.
  destruct (Z.eqb_spec (Z.land v 64) 0) as [E|E].
  - symmetry. rewrite negb_true_iff. rewrite <- (Z.bits_0 6), <- E, Z.land_spec. by rewrite andb_true_r.
  - destruct (Z.testbit v 6) eqn:T; [done|]. exfalso. apply E.
    apply Z.bits_inj'; intros n Hn. rewrite Z.land_spec, Z.bits_0. change 64 with (2 ^ 6).
    rewrite Z.pow2_bits_eqb by lia. destruct (Z.eqb_spec 6 n); subst; rewrite ?T; simpl; auto using andb_false_r.
Qed.

Lemma testbit_6 v : Z.testbit v 6 = (64 <=? v mod 128).
Proof.
  rewrite <- (Z.mod_pow2_bits_low v 7 6) by lia. change (2 ^ 7) with 128.
  pose proof (Z.mod_pos_bound v 128). set (x := v mod 128) in *.
  apply (Z.b2z_inj (Z.testbit x 6)). rewrite Z.testbit_spec' by lia. change (2 ^ 6) with 64.
  destruct (Z.leb_spec 64 x); simpl.
  - assert (x / 64 = 1) as ->; [|done]. symmetry. apply (Z.div_unique _ _ _ (x - 64)); lia.
  - rewrite Z.div_small by lia. done.
Qed.

Lemma EncodeInt64_loop_S fuel v :
  EncodeInt64_loop (S fuel) v =
    if (-64 <=? v) && (v <? 64) then [v mod 128]
    else (v mod 128 + 128) :: EncodeInt64_loop fuel (v / 128).
Proof.
  cbn [EncodeInt64_loop]. rewrite land_127, land_64_test, testbit_6, Z.shiftr_div_pow2 by lia.
  change (2 ^ 7) with 128. pose proof (Z.mod_pos_bound v 128). pose proof (Z.div_mod v 128).
  assert ((negb (v / 128 =? -1) || negb (64 <=? v mod 128)) &&
          (negb (v / 128 =? 0) || negb (negb (64 <=? v mod 128)))
          = negb ((-64 <=? v) && (v <? 64))) as ->.
  { destruct (Z.eqb_spec (v / 128) (-1)), (Z.eqb_spec (v / 128) 0), (Z.leb_spec 64 (v mod 128)),
      (Z.leb_spec (-64) v), (Z.ltb_spec v 64); simpl; done || lia. }
  destruct ((-64 <=? v) && (v <? 64)); simpl negb; cbv iota.
  - rewrite land_128_0 by (unfold is_u8; lia). by rewrite (proj2 (Z.ltb_lt _ _)) by lia.
  - rewrite lor_128, land_128_0 by (unfold is_u8; lia). by rewrite (proj2 (Z.ltb_ge _ _)) by lia.
Qed.

(** ** Unsigned decoders *)

Lemma pow2_7S i : 0 <= i -> 2 ^ (7 * (i + 1)) = 128 * 2 ^ (7 * i).
Proof. intros. replace (7 * (i + 1)) with (7 + 7 * i) by lia. rewrite Z.pow_add_r by lia. done. Qed.

(** Accumulating one more 7-bit group into an unsigned result of width [w]. *)
Lemma acc_group w ret x i :
  0 <= i -> 0 <= ret < 2 ^ (7 * i) -> 0 <= x -> x * 2 ^ (7 * i) < 2 ^ w -> 0 <= w ->
  Z.lor ret (Z.shiftl x (7 * i) mod 2 ^ w) = ret + x * 2 ^ (7 * i).
Proof.
  intros Hi Hr Hx Hw Hw0. rewrite Z.mod_small.
  - apply lor_shiftl_add; lia.
  - rewrite Z.shiftl_mul_pow2 by lia. pose proof (Z.pow_pos_nonneg 2 (7 * i) ltac:(lia) ltac:(lia)). nia.
Qed.

Lemma decodeUint32_loop_enc fe i ret v rest :
  0 <= i <= 4 -> 0 <= v < 128 ^ Z.of_nat fe -> (0 < fe)%nat ->
  0 <= ret < 2 ^ (7 * i) -> ret + v * 2 ^ (7 * i) < 2 ^ 32 ->
  decodeUint32_loop readByte (Z.to_nat (5 - i)) i (7 * i) ret (EncodeUint64_loop fe v ++ rest)
  = Ok (ret + v * 2 ^ (7 * i), i + zlen (EncodeUint64_loop fe v), rest).
Proof.
  revert i ret v; induction fe as [|fe IH]; intros i ret v Hi Hv Hfe Hret Hsum; [lia|].
  pose proof (Z.pow_pos_nonneg 2 (7 * i) ltac:(lia) ltac:(lia)) as Hp.
  rewrite EncodeUint64_loop_S by lia.
  replace (Z.to_nat (5 - i)) with (S (Z.to_nat (4 - i))) by lia.
  destruct (Z.ltb_spec v 128).
  - cbn [decodeUint32_loop app readByte res_bind]. rewrite (proj2 (Z.ltb_lt v 128)) by lia.
    replace ((i =? maxVarintLen32 - 1) && (Z.land v 0xf0 >? 0)) with false.
    + unfold wrap32. rewrite acc_group by nia. done.
    + destruct (Z.eqb_spec i (maxVarintLen32 - 1)) as [->|]; [|done]. symmetry.
      change (2 ^ (7 * (maxVarintLen32 - 1))) with (2 ^ 28) in Hsum.
      assert (0 <= v < 16) as Hv16 by lia. clear -Hv16. simpl.
      rewrite Z.gtb_ltb, Z.ltb_ge.
      enough (Z.land v 240 = 0) by lia.
      change 240 with (Z.shiftl 15 4). apply Z.bits_inj'; intros n Hn. rewrite Z.land_spec, Z.bits_0.
      destruct (Z.lt_ge_cases n 4).
      * rewrite Z.shiftl_spec_low by lia. apply andb_false_r.
      * rewrite <- (Z.mod_small v (2 ^ 4)) by lia. by rewrite Z.mod_pow2_bits_high by lia.
  - assert (i <= 3) by (destruct (Z.eq_dec i 4) as [->|]; [change (2 ^ (7 * 4)) with (2 ^ 28) in *|]; lia).
    pose proof (Z.mod_pos_bound v 128 ltac:(lia)). pose proof (Z.div_mod v 128 ltac:(lia)).
    cbn [decodeUint32_loop app readByte res_bind].
    rewrite (proj2 (Z.ltb_ge _ _)) by lia.
    rewrite land_127. replace ((v mod 128 + 128) mod 128) with (v mod 128)
      by (rewrite <- Z.add_mod_idemp_r, Z.mod_same, Z.add_0_r, Z.mod_mod by lia; done).
    unfold wrap32 at 2. rewrite acc_group by nia.
    unfold wrap32. rewrite Z.mod_small by lia.
    replace (7 * i + 7) with (7 * (i + 1)) by lia.
    replace (4 - i) with (5 - (i + 1)) by lia.
    assert (0 < v / 128) by (apply Z.div_str_pos; lia).
    destruct fe as [|fe].
    { simpl in Hv. lia. }
    rewrite IH; rewrite ?pow2_7S by lia; try nia.
    + rewrite zlen_cons. f_equal. f_equal. f_equal; nia.
    + replace (Z.of_nat (S (S fe))) with (1 + Z.of_nat (S fe)) in Hv by lia.
      rewrite Z.pow_add_r in Hv by lia. split; [lia|]. apply Z.div_lt_upper_bound; lia.
Qed.

Lemma DecodeUint32_Encode v rest :
  is_u32 v -> DecodeUint32 (EncodeUint32 v ++ rest) = Ok (v, zlen (EncodeUint32 v), rest).
Proof.
  unfold is_u32. intros Hv. unfold DecodeUint32, decodeUint32, EncodeUint32, EncodeUint64.
  refine (eq_trans (decodeUint32_loop_enc 10 0 0 v rest _ _ _ _ _) _); try lia;
    change (2 ^ (7 * 0)) with 1; try lia.
  do 3 f_equal; lia.
Qed.

(** [LoadUint32] is [DecodeUint32] on the same bytes. *)
Lemma LoadUint32_Decode buf :
  LoadUint32 buf = let! (v, n, _) := DecodeUint32 buf in Ok (v, n).
Proof.
  pose proof (decodeUint32_loop_load buf (Z.to_nat maxVarintLen32) 0 0 0 ltac:(lia)) as H.
  unfold LoadUint32, DecodeUint32, decodeUint32, load_matches in *. rewrite drop_0 in H.
  destruct (decodeUint32_loop readByte _ 0 0 0 buf) as [[[v n] r]|e|e];
    [destruct H as (-> & _)|rewrite H|rewrite H]; done.
Qed.

Lemma DecodeUint32_rest buf v n r :
  DecodeUint32 buf = Ok (v, n, r) -> r = drop (Z.to_nat n) buf /\ 0 <= n <= zlen buf.
Proof.
  pose proof (decodeUint32_loop_load buf (Z.to_nat maxVarintLen32) 0 0 0 ltac:(lia)) as H.
  rewrite drop_0 in H. unfold DecodeUint32, decodeUint32. intros E. rewrite E in H.
  destruct H as (_ & -> & ?). done.
Qed.

(** What a successful unsigned decode read: [n] terminated bytes denoting [v]. *)
Lemma decodeUint32_loop_sound fuel i ret r v n r' :
  bytes_ok r -> 0 <= i -> Z.of_nat fuel = 5 - i -> 0 <= ret < 2 ^ (7 * i) ->
  decodeUint32_loop readByte fuel i (7 * i) ret r = Ok (v, n, r') ->
  exists l, r = l ++ r' /\ leb_terminated l = true /\ n = i + zlen l /\ n <= 5 /\
    v = ret + uleb l * 2 ^ (7 * i) /\ v < 2 ^ 32.
Proof.
  revert i ret r; induction fuel as [|fuel IH]; intros i ret r Hok Hi Hf Hret; [done|].
  cbn [decodeUint32_loop]. destruct r as [|b r]; [done|]. cbn [readByte res_bind].
  inversion Hok as [|? ? Hb Hok']; subst. unfold is_u8 in Hb.
  pose proof (Z.pow_pos_nonneg 2 (7 * i) ltac:(lia) ltac:(lia)) as Hp.
  destruct (Z.ltb_spec b 128).
  - destruct (_ && _) eqn:E; [done|]. intros [= <- <- <-]. exists [b].
    assert (b * 2 ^ (7 * i) < 2 ^ 32) as Hsmall.
    { destruct (Z.eq_dec i 4) as [->|].
      - simpl in E. pose proof (Z.div_mod b 16 ltac:(lia)) as Hdm. pose proof (Z.mod_pos_bound b 16 ltac:(lia)).
        assert (b < 16); [|change (2 ^ (7 * 4)) with (2 ^ 28); lia].
        destruct (Z.lt_ge_cases b 16) as [?|Hge]; [done|exfalso].
        assert ((negb (Z.land b 240 >? 0) && (16 <=? b) && (b <? 128)) = false) as Hen.
        { apply negb_true_iff.
          apply (byte_forall (fun b => negb (negb (Z.land b 240 >? 0) && (16 <=? b) && (b <? 128)))); [done|].
          unfold is_u8; lia. }
        rewrite E, (proj2 (Z.leb_le 16 b)), (proj2 (Z.ltb_lt b 128)) in Hen by lia. done.
      - assert (2 ^ (7 * i) <= 2 ^ 21) by (apply Z.pow_le_mono_r; lia). nia. }
    unfold wrap32. rewrite acc_group by nia.
    simpl. rewrite Z.mod_small by lia. unfold zlen; simpl length.
    split_and!; try done; try lia.
    destruct (Z.eq_dec i 4) as [->|].
    + change (2 ^ (7 * 4)) with (2 ^ 28) in *. assert (b < 16) by lia. lia.
    + assert (2 ^ (7 * i) <= 2 ^ 21) by (apply Z.pow_le_mono_r; lia). nia.
  - intros E. pose proof (Z.mod_pos_bound b 128 ltac:(lia)).
    assert (i <= 4) by lia.
    destruct fuel as [|fuel]; [done|].
    unfold wrap32 in E. rewrite (Z.mod_small (7 * i + 7)) in E by lia.
    replace (7 * i + 7) with (7 * (i + 1)) in E by lia. rewrite land_127 in E.
    assert (2 ^ (7 * i) <= 2 ^ 21) by (apply Z.pow_le_mono_r; lia).
    rewrite acc_group in E by nia.
    apply IH in E as (l & -> & Ht & -> & Hn & -> & Hv); try done; try lia.
    + exists (b :: l). rewrite pow2_7S in * by lia. rewrite zlen_cons. cbn [uleb].
      split_and!; try done; try lia; try nia.
      destruct l; [done|]. cbn [leb_terminated]. rewrite (proj2 (Z.leb_le 128 b)) by lia. done.
    + rewrite pow2_7S by lia. nia.
Qed.

Lemma DecodeUint32_sound r v n r' :
  bytes_ok r -> DecodeUint32 r = Ok (v, n, r') ->
  exists l, r = l ++ r' /\ leb_terminated l = true /\ n = zlen l /\ 1 <= n <= 5 /\
    v = uleb l /\ is_u32 v.
Proof.
  intros Hok E. unfold DecodeUint32, decodeUint32 in E.
  apply (decodeUint32_loop_sound _ 0) in E as (l & -> & Ht & -> & Hn & -> & Hv); try done.
  change (2 ^ (7 * 0)) with 1 in *.
  exists l. assert (1 <= zlen l) by (destruct l; [done|]; rewrite zlen_cons; pose proof (zlen_nonneg l); lia).
  assert (0 <= uleb l).
  { clear. induction l as [|b l IH]; simpl; [lia|]. pose proof (Z.mod_pos_bound b 128). lia. }
  unfold is_u32. split_and!; try done; lia.
Qed.

(** ** Signed decoders

    Both signed loops are instances of one loop, generic in the width and in
    the final checks. *)

Definition sloop (w : Z) (fin : Z -> Z -> Z -> Z -> res (Z * Z)) :=
  fix go (fuel : nat) (ret shift bytesRead : Z) (r : list Z) : res (Z * Z * list Z) :=
    match fuel with
    | O => Panic (if w =? 32 then "decodeInt32: loop bound" else "decodeInt64: loop bound")
    | S fuel' =>
        let! (b, r) := errorf "readByte failed" (readByte bytesRead r) in
        let ret := Z.lor ret (sgn w (Z.shiftl (Z.land b 0x7f) shift)) in
        let shift := shift + 7 in
        let bytesRead := bytesRead + 1 in
        if Z.land b 0x80 =? 0 then
          let! (ret, bytesRead) := fin b ret shift bytesRead in
          Ok (ret, bytesRead, r)
        else go fuel' ret shift bytesRead r
    end.

Lemma decodeInt32_sloop : decodeInt32_loop readByte = sloop 32 decodeInt32_finish.
Proof. reflexivity. Qed.

Lemma decodeInt64_sloop : decodeInt64_loop readByte = sloop 64 decodeInt64_finish.
Proof. reflexivity. Qed.

Lemma uleb_range l : 0 <= uleb l < 2 ^ (7 * zlen l).
Proof.
  induction l as [|b l IH]; [vm_compute; intuition congruence|]. cbn [uleb]. rewrite zlen_cons.
  pose proof (Z.mod_pos_bound b 128 ltac:(lia)). pose proof (zlen_nonneg l).
  replace (7 * (1 + zlen l)) with (7 * (zlen l + 1)) by lia. rewrite pow2_7S by lia. lia.
Qed.

(** Running the loop over a terminated sequence. *)
Lemma sloop_run w fin l : forall fuel a k rest,
  0 < w -> bytes_ok l -> leb_terminated l = true -> (length l <= fuel)%nat ->
  0 <= k -> 0 <= a < 2 ^ (7 * k) ->
  sloop w fin fuel (sgn w a) (7 * k) k (l ++ rest) =
    let! (v, n) := fin (default 0 (last l)) (sgn w (a + uleb l * 2 ^ (7 * k)))
                       (7 * (k + zlen l)) (k + zlen l) in Ok (v, n, rest).
Proof.
  induction l as [|b l IH]; intros fuel a k rest Hw Hok Ht Hf Hk Ha; [done|].
  destruct fuel as [|fuel]; [simpl in Hf; lia|].
  inversion Hok as [|? ? Hb Hok']; subst.
  cbn [sloop app readByte errorf res_bind].
  rewrite sgn_lor by lia. rewrite land_127, lor_shiftl_add by lia.
  rewrite land_128_0 by done.
  destruct l as [|b' l].
  - cbn [leb_terminated] in Ht. rewrite Ht. cbn [last uleb default]. rewrite zlen_cons.
    change (zlen []) with 0. rewrite Z.mul_0_r, !Z.add_0_r.
    replace (7 * k + 7) with (7 * (k + 1)) by lia. done.
  - cbn [leb_terminated] in Ht. apply andb_true_iff in Ht as [Hge Ht].
    apply Z.leb_le in Hge. rewrite (proj2 (Z.ltb_ge b 128)) by lia.
    replace (7 * k + 7) with (7 * (k + 1)) by lia.
    pose proof (Z.mod_pos_bound b 128 ltac:(lia)).
    rewrite IH; try done; try lia; [|simpl in *; lia|rewrite pow2_7S by lia; nia].
    rewrite !zlen_cons. cbn [last]. rewrite pow2_7S by lia. cbn [uleb].
    f_equal. f_equal; try lia. f_equal. nia.
Qed.

(** A byte stream either starts with a terminated sequence or has no
    terminating byte at all. *)
Lemma leb_split r :
  (exists l rest, r = l ++ rest /\ leb_terminated l = true) \/ Forall (fun b => 128 <= b) r.
Proof.
  induction r as [|b r IH]; [by right|].
  destruct (Z.lt_ge_cases b 128).
  - left. exists [b], r. split; [done|]. simpl. by apply Z.ltb_lt.
  - destruct IH as [(l & rest & -> & Ht)|Ha].
    + left. exists (b :: l), rest. split; [done|]. destruct l; [done|].
      cbn [leb_terminated]. rewrite (proj2 (Z.leb_le 128 b)) by lia. done.
    + right. by constructor.
Qed.

Lemma sloop_eof w fin r : forall fuel ret shift k,
  bytes_ok r -> Forall (fun b => 128 <= b) r -> (length r < fuel)%nat ->
  sloop w fin fuel ret shift k r = Err "readByte failed: EOF".
Proof.
  induction r as [|b r IH]; intros fuel ret shift k Hok Ha Hf;
    (destruct fuel as [|fuel]; [simpl in Hf; lia|]); [done|].
  inversion Hok as [|? ? Hb Hok']; subst. inversion Ha; subst.
  cbn [sloop readByte errorf res_bind]. rewrite land_128_0 by done.
  rewrite (proj2 (Z.ltb_ge b 128)) by lia. apply IH; try done. simpl in Hf. lia.
Qed.

(** The sign extension of [decodeInt32]/[decodeInt64] computes the signed
    value of the sequence, reduced to the width. *)
Lemma sign_extend w l :
  0 < w -> leb_terminated l = true ->
  (if (7 * zlen l <? w) && Z.testbit (default 0 (last l)) 6
   then Z.lor (sgn w (uleb l)) (sgn w (Z.shiftl (-1) (7 * zlen l))) else sgn w (uleb l))
  = sgn w (sleb l).
Proof.
  intros Hw Ht. unfold sleb. pose proof (uleb_range l). pose proof (zlen_nonneg l).
  destruct (Z.testbit _ 6); [|rewrite andb_false_r, Z.sub_0_r; done].
  rewrite andb_true_r. destruct (Z.ltb_spec (7 * zlen l) w).
  - rewrite sgn_lor, lor_shiftl_add by lia. f_equal; lia.
  - apply sgn_mod; [lia|].
    replace (uleb l - 2 ^ (7 * zlen l)) with (uleb l + (- 2 ^ (7 * zlen l - w)) * 2 ^ w).
    + rewrite Z.mod_add by (pose proof (Z.pow_pos_nonneg 2 w); lia). done.
    + assert (2 ^ (7 * zlen l) = 2 ^ (7 * zlen l - w) * 2 ^ w); [|lia].
      rewrite <- Z.pow_add_r by lia. f_equal. lia.
Qed.

(** *** [decodeInt32] on a terminated sequence *)

Lemma decodeInt32_terminated l rest fuel :
  bytes_ok l -> leb_terminated l = true -> (length l <= fuel)%nat ->
  decodeInt32 readByte fuel (l ++ rest) =
    let v := sgn32 (sleb l) in
    let unused := Z.land (default 0 (last l)) 0x30 in
    if zlen l >? 5 then Err errOverflow32
    else if (zlen l =? 5) && (v <? 0) && negb (unused =? 0x30) then Err errOverflow32
    else if (zlen l =? 5) && (v >=? 0) && negb (unused =? 0) then Err errOverflow32
    else Ok (v, zlen l, rest).
Proof.
  intros Hok Ht Hf. unfold decodeInt32. rewrite decodeInt32_sloop.
  pose proof (sloop_run 32 decodeInt32_finish l fuel 0 0 rest) as E.
  change (sgn 32 0) with 0 in E. rewrite Z.mul_0_r, !Z.add_0_l in E. rewrite E by (done || lia).
  clear E. unfold decodeInt32_finish. rewrite land_64_test, negb_involutive, Z.pow_0_r, Z.mul_1_r.
  change (Z.lnot 0) with (-1). unfold sgn32. rewrite sign_extend by (done || lia).
  unfold maxVarintLen32. cbn zeta. repeat case_match; done.
Qed.

Lemma decodeInt64_terminated l rest fuel :
  bytes_ok l -> leb_terminated l = true -> (length l <= fuel)%nat ->
  decodeInt64 readByte fuel (l ++ rest) =
    let v := sgn64 (sleb l) in
    let unused := Z.land (default 0 (last l)) 0x3e in
    if zlen l >? 10 then Err errOverflow64
    else if (zlen l =? 10) && (v <? 0) && negb (unused =? 0x3e) then Err errOverflow64
    else if (zlen l =? 10) && (v >=? 0) && negb (unused =? 0) then Err errOverflow64
    else Ok (v, zlen l, rest).
Proof.
  intros Hok Ht Hf. unfold decodeInt64. rewrite decodeInt64_sloop.
  pose proof (sloop_run 64 decodeInt64_finish l fuel 0 0 rest) as E.
  change (sgn 64 0) with 0 in E. rewrite Z.mul_0_r, !Z.add_0_l in E. rewrite E by (done || lia).
  clear E. unfold decodeInt64_finish.
  assert (forall x, (Z.land x int64Mask3 =? int64Mask3) = Z.testbit x 6) as T.
  { intros x. pose proof (land_64_test x) as T. change int64Mask3 with 64.
    destruct (Z.testbit x 6) eqn:Hx; simpl in T.
    - apply Z.eqb_eq. apply Z.bits_inj'; intros n Hn. rewrite Z.land_spec. change 64 with (2 ^ 6).
      rewrite Z.pow2_bits_eqb by lia. destruct (Z.eqb_spec 6 n); subst; rewrite ?Hx; simpl; auto using andb_false_r.
    - apply Z.eqb_eq in T. by rewrite T. }
  rewrite T, Z.pow_0_r, Z.mul_1_r. change int64Mask4 with (-1). unfold sgn64.
  rewrite sign_extend by (done || lia). unfold maxVarintLen64. cbn zeta. repeat case_match; done.
Qed.

Lemma bytes_ok_app l k : bytes_ok (l ++ k) <-> bytes_ok l /\ bytes_ok k.
Proof. apply Forall_app. Qed.

(** [LoadInt32] is [DecodeInt32] on the same bytes; likewise [LoadInt64]. *)
Lemma LoadInt32_Decode buf : LoadInt32 buf = let! (v, n, _) := DecodeInt32 buf in Ok (v, n).
Proof.
  pose proof (decodeInt32_loop_load buf (S (length buf)) 0 0 0 ltac:(lia)) as H.
  unfold LoadInt32, DecodeInt32, decodeInt32, load_matches in *. rewrite drop_0 in H.
  destruct (decodeInt32_loop readByte _ 0 0 0 buf) as [[[v n] r]|e|e];
    [destruct H as (-> & _)|rewrite H|rewrite H]; done.
Qed.

Lemma LoadInt64_Decode buf : LoadInt64 buf = let! (v, n, _) := DecodeInt64 buf in Ok (v, n).
Proof.
  pose proof (decodeInt64_loop_load buf (S (length buf)) 0 0 0 ltac:(lia)) as H.
  unfold LoadInt64, DecodeInt64, decodeInt64, load_matches in *. rewrite drop_0 in H.
  destruct (decodeInt64_loop readByte _ 0 0 0 buf) as [[[v n] r]|e|e];
    [destruct H as (-> & _)|rewrite H|rewrite H]; done.
Qed.

(** The decoders by cases on the stream: no terminating byte, or a terminated
    prefix. *)
Lemma DecodeInt32_cases r :
  bytes_ok r ->
  DecodeInt32 r = Err "readByte failed: EOF" \/
  exists l rest, r = l ++ rest /\ leb_terminated l = true /\
    DecodeInt32 r = decodeInt32 readByte (length l) (l ++ rest).
Proof.
  intros Hok. destruct (leb_split r) as [(l & rest & -> & Ht)|Ha].
  - right. exists l, rest. apply bytes_ok_app in Hok as [Hok _].
    split_and!; try done. unfold DecodeInt32.
    rewrite !decodeInt32_terminated; try done. rewrite length_app. lia.
  - left. unfold DecodeInt32, decodeInt32. rewrite decodeInt32_sloop.
    apply sloop_eof; try done. lia.
Qed.

Lemma DecodeInt64_cases r :
  bytes_ok r ->
  DecodeInt64 r = Err "readByte failed: EOF" \/
  exists l rest, r = l ++ rest /\ leb_terminated l = true /\
    DecodeInt64 r = decodeInt64 readByte (length l) (l ++ rest).
Proof.
  intros Hok. destruct (leb_split r) as [(l & rest & -> & Ht)|Ha].
  - right. exists l, rest. apply bytes_ok_app in Hok as [Hok _].
    split_and!; try done. unfold DecodeInt64.
    rewrite !decodeInt64_terminated; try done. rewrite length_app. lia.
  - left. unfold DecodeInt64, decodeInt64. rewrite decodeInt64_sloop.
    apply sloop_eof; try done. lia.
Qed.

(** ** What the signed encoder produces *)

Lemma sleb_cons b l : l <> [] -> sleb (b :: l) = b mod 128 + 128 * sleb l.
Proof.
  intros Hl. unfold sleb. destruct l as [|b' l]; [done|].
  change (last (b :: b' :: l)) with (last (b' :: l)). rewrite (zlen_cons b).
  cbn [uleb]. destruct (Z.testbit _ 6); [|lia].
  replace (7 * (1 + zlen (b' :: l))) with (7 * (zlen (b' :: l) + 1)) by lia.
  rewrite pow2_7S by apply zlen_nonneg. lia.
Qed.

Lemma pow2_pred k : 0 < k -> 2 ^ (7 * (k + 1) - 1) = 128 * 2 ^ (7 * k - 1).
Proof. intros. replace (7 * (k + 1) - 1) with (7 + (7 * k - 1)) by lia. by rewrite Z.pow_add_r by lia. Qed.

Lemma EncodeInt64_loop_props fe v :
  (0 < fe)%nat -> - 2 ^ (7 * Z.of_nat fe - 1) <= v < 2 ^ (7 * Z.of_nat fe - 1) ->
  let l := EncodeInt64_loop fe v in
  bytes_ok l /\ leb_terminated l = true /\ sleb l = v /\
  default 0 (last l) = (v / 2 ^ (7 * (zlen l - 1))) mod 128 /\
  (forall k, 0 < k -> - 2 ^ (7 * k - 1) <= v < 2 ^ (7 * k - 1) -> 1 <= zlen l <= k).
Proof.
  revert v; induction fe as [|fe IH]; intros v Hfe Hv; [lia|]. cbv zeta.
  rewrite EncodeInt64_loop_S. pose proof (Z.mod_pos_bound v 128 ltac:(lia)).
  pose proof (Z.div_mod v 128 ltac:(lia)).
  destruct ((-64 <=? v) && (v <? 64)) eqn:E.
  - bools. split_and!.
    + constructor; [unfold is_u8; lia|constructor].
    + simpl. apply Z.ltb_lt. lia.
    + unfold sleb. cbn [last default uleb]. unfold id. rewrite testbit_6, !Z.mod_mod by lia. rewrite Z.mul_0_r, Z.add_0_r.
      change (zlen [v mod 128]) with 1. change (2 ^ (7 * 1)) with 128.
      destruct (Z.leb_spec 64 (v mod 128)); lia.
    + change (zlen [v mod 128]) with 1. cbn [last default]. rewrite Z.div_1_r. done.
    + intros k Hk _. change (zlen [v mod 128]) with 1. lia.
  - assert (v < -64 \/ 64 <= v) as Hbig by (apply andb_false_iff in E as [E|E]; bools; lia). clear E.
    destruct fe as [|fe]; [change (2 ^ _) with 64 in Hv; lia|].
    replace (Z.of_nat (S (S fe))) with (Z.of_nat (S fe) + 1) in Hv by lia.
    rewrite pow2_pred in Hv by lia.
    destruct (IH (v / 128)) as (I1 & I2 & I3 & I4 & I5); [lia|lia|].
    set (l := EncodeInt64_loop (S fe) (v / 128)) in *.
    assert (l <> []) as Hne by (by destruct l).
    assert (1 <= zlen l) as Hl.
    { destruct l; [done|]. rewrite zlen_cons. pose proof (zlen_nonneg l). lia. }
    split_and!.
    + constructor; [unfold is_u8; lia|done].
    + destruct l; [done|]. cbn [leb_terminated]. rewrite (proj2 (Z.leb_le 128 _)) by lia. done.
    + rewrite sleb_cons by done. rewrite I3.
      rewrite <- Z.add_mod_idemp_r, Z.mod_same, Z.add_0_r, Z.mod_mod by lia. lia.
    + destruct l as [|b l]; [done|]. change (last (_ :: b :: l)) with (last (b :: l)).
      rewrite I4, (zlen_cons (v mod 128 + 128)), Z.div_div by (try apply Z.pow_pos_nonneg; lia).
      f_equal. f_equal. change 128 with (2 ^ 7) at 1. rewrite <- Z.pow_add_r by lia. f_equal. lia.
    + intros k Hk Hvk. rewrite zlen_cons.
      destruct (Z.eq_dec k 1) as [->|]; [change (2 ^ _) with 64 in Hvk; lia|].
      specialize (I5 (k - 1)). replace k with (k - 1 + 1) in Hvk by lia.
      rewrite pow2_pred in Hvk by lia. lia.
Qed.

Lemma EncodeInt64_props v :
  is_i64 v ->
  let l := EncodeInt64 v in
  bytes_ok l /\ leb_terminated l = true /\ sleb l = v /\
  default 0 (last l) = (v / 2 ^ (7 * (zlen l - 1))) mod 128 /\
  (forall k, 0 < k -> - 2 ^ (7 * k - 1) <= v < 2 ^ (7 * k - 1) -> 1 <= zlen l <= k).
Proof.
  unfold is_i64. intros Hv. apply (EncodeInt64_loop_props 10); [lia|].
  change (7 * Z.of_nat 10 - 1) with 69. lia.
Qed.

(** An integer range, decided by enumeration. *)
Lemma range_forall (P : Z -> bool) (lo : Z) (n : nat) :
  forallb (fun i => P (lo + Z.of_nat i)) (seq 0 n) = true ->
  forall z, lo <= z < lo + Z.of_nat n -> P z = true.
Proof.
  intros H z Hz. rewrite forallb_forall in H.
  replace z with (lo + Z.of_nat (Z.to_nat (z - lo))) by lia. apply H. rewrite in_seq. lia.
Qed.

Lemma DecodeInt32_Encode v rest :
  is_i32 v -> DecodeInt32 (EncodeInt32 v ++ rest) = Ok (v, zlen (EncodeInt32 v), rest).
Proof.
  unfold is_i32. intros Hv. unfold EncodeInt32.
  destruct (EncodeInt64_props v) as (H1 & H2 & H3 & H4 & H5); [unfold is_i64; lia|].
  specialize (H5 5 ltac:(lia) ltac:(lia)). set (l := EncodeInt64 v) in *.
  unfold DecodeInt32. rewrite decodeInt32_terminated; [|done|done|rewrite length_app; lia].
  unfold sgn32. cbv zeta. rewrite H3, (sgn_small 32 v) by lia.
  rewrite Z.gtb_ltb, (proj2 (Z.ltb_ge 5 (zlen l))) by lia.
  destruct (Z.eqb_spec (zlen l) 5) as [E5|]; [|done]. rewrite E5 in H4. rewrite H4.
  change (2 ^ (7 * (5 - 1))) with (2 ^ 28). set (q := v / 2 ^ 28).
  assert (-8 <= q < 8) as Hq.
  { subst q. split; [apply Z.div_le_lower_bound; lia|apply Z.div_lt_upper_bound; lia]. }
  assert ((v <? 0) = (q <? 0)) as ->.
  { subst q. pose proof (Z.div_mod v (2 ^ 28) ltac:(lia)). pose proof (Z.mod_pos_bound v (2 ^ 28) ltac:(lia)).
    destruct (Z.ltb_spec v 0), (Z.ltb_spec (v / 2 ^ 28) 0); done || lia. }
  assert ((v >=? 0) = negb (q <? 0)) as ->.
  { subst q. pose proof (Z.div_mod v (2 ^ 28) ltac:(lia)). pose proof (Z.mod_pos_bound v (2 ^ 28) ltac:(lia)).
    rewrite Z.geb_leb.
    destruct (Z.leb_spec 0 v), (Z.ltb_spec (v / 2 ^ 28) 0); done || lia. }
  pose proof (range_forall (fun q => negb ((q <? 0) && negb (Z.land (q mod 128) 48 =? 48)) &&
    negb (negb (q <? 0) && negb (Z.land (q mod 128) 48 =? 0))) (-8) 16 eq_refl q Hq) as Hc.
  cbv beta in Hc. apply andb_true_iff in Hc as [Hc1 Hc2]. rewrite negb_true_iff in Hc1, Hc2.
  simpl andb. rewrite Hc1, Hc2, E5. done.
Qed.

Lemma DecodeInt64_Encode v rest :
  is_i64 v -> DecodeInt64 (EncodeInt64 v ++ rest) = Ok (v, zlen (EncodeInt64 v), rest).
Proof.
  intros Hv. destruct (EncodeInt64_props v) as (H1 & H2 & H3 & H4 & H5); [done|]. unfold is_i64 in Hv.
  specialize (H5 10 ltac:(lia) ltac:(change (7 * 10 - 1) with 69; lia)). set (l := EncodeInt64 v) in *.
  unfold DecodeInt64. rewrite decodeInt64_terminated; [|done|done|rewrite length_app; lia].
  unfold sgn64. cbv zeta. rewrite H3, (sgn_small 64 v) by lia.
  rewrite Z.gtb_ltb, (proj2 (Z.ltb_ge 10 (zlen l))) by lia.
  destruct (Z.eqb_spec (zlen l) 10) as [E|]; [|done]. rewrite E in H4. rewrite H4.
  change (2 ^ (7 * (10 - 1))) with (2 ^ 63).
  assert (v / 2 ^ 63 = if v <? 0 then -1 else 0) as ->.
  { destruct (Z.ltb_spec v 0); [|apply Z.div_small; lia].
    symmetry. apply (Z.div_unique _ _ _ (v + 2 ^ 63)); lia. }
  rewrite Z.geb_leb, Z.leb_antisym. destruct (v <? 0); rewrite E; done.
Qed.

(** *** Unsigned 64-bit slices *)

Lemma zindex_drop (buf : list Z) i b r :
  0 <= i -> drop (Z.to_nat i) buf = b :: r ->
  (i >=? zlen buf) = false /\ zindex buf i = Ok b /\ drop (Z.to_nat (i + 1)) buf = r.
Proof.
  intros Hi E. pose proof (loadByte_readByte buf i Hi) as H. rewrite E in H. simpl in H.
  destruct H as (H & -> & Hl). unfold loadByte in H.
  destruct (i >=? zlen buf) eqn:G; [done|]. split_and!; try done.
  destruct (zindex buf i); simpl in H; by simplify_eq.
Qed.

Lemma LoadUint64_loop_enc fe (buf : list Z) i ret v rest :
  0 <= i <= 9 -> 0 <= v < 128 ^ Z.of_nat fe -> (0 < fe)%nat ->
  drop (Z.to_nat i) buf = EncodeUint64_loop fe v ++ rest ->
  0 <= ret < 2 ^ (7 * i) -> ret + v * 2 ^ (7 * i) < 2 ^ 64 ->
  LoadUint64_loop (Z.to_nat (10 - i)) buf i (7 * i) ret
  = Ok (ret + v * 2 ^ (7 * i), i + zlen (EncodeUint64_loop fe v)).
Proof.
  revert i ret v; induction fe as [|fe IH]; intros i ret v Hi Hv Hfe Hd Hret Hsum; [lia|].
  pose proof (Z.pow_pos_nonneg 2 (7 * i) ltac:(lia) ltac:(lia)) as Hp.
  rewrite EncodeUint64_loop_S in * by lia.
  replace (Z.to_nat (10 - i)) with (S (Z.to_nat (9 - i))) by lia. cbn [LoadUint64_loop].
  destruct (Z.ltb_spec v 128).
  - destruct (zindex_drop buf i _ _ ltac:(lia) Hd) as (-> & -> & _). cbn [res_bind].
    rewrite (proj2 (Z.ltb_lt v 128)) by lia.
    replace ((i =? maxVarintLen64 - 1) && (v >? 1)) with false.
    + unfold wrap64. rewrite acc_group by nia. done.
    + destruct (Z.eqb_spec i (maxVarintLen64 - 1)) as [->|]; [|done]. symmetry.
      change (2 ^ (7 * (maxVarintLen64 - 1))) with (2 ^ 63) in Hsum.
      simpl. rewrite Z.gtb_ltb, Z.ltb_ge. lia.
  - assert (i <= 8) by (destruct (Z.eq_dec i 9) as [->|]; [change (2 ^ (7 * 9)) with (2 ^ 63) in *|]; lia).
    pose proof (Z.mod_pos_bound v 128 ltac:(lia)). pose proof (Z.div_mod v 128 ltac:(lia)).
    destruct (zindex_drop buf i _ _ ltac:(lia) Hd) as (-> & -> & Hd'). cbn [res_bind].
    rewrite (proj2 (Z.ltb_ge _ _)) by lia.
    rewrite land_127. replace ((v mod 128 + 128) mod 128) with (v mod 128)
      by (rewrite <- Z.add_mod_idemp_r, Z.mod_same, Z.add_0_r, Z.mod_mod by lia; done).
    unfold wrap64 at 2. rewrite acc_group by nia.
    unfold wrap64. rewrite Z.mod_small by lia.
    replace (7 * i + 7) with (7 * (i + 1)) by lia.
    replace (9 - i) with (10 - (i + 1)) by lia.
    assert (0 < v / 128) by (apply Z.div_str_pos; lia).
    destruct fe as [|fe]; [simpl in Hv; lia|].
    erewrite IH; [|lia| |lia|exact Hd'|rewrite ?pow2_7S by lia; nia|rewrite ?pow2_7S by lia; nia].
    + rewrite pow2_7S by lia. rewrite zlen_cons. f_equal. f_equal; nia.
    + replace (Z.of_nat (S (S fe))) with (1 + Z.of_nat (S fe)) in Hv by lia.
      rewrite Z.pow_add_r in Hv by lia. split; [lia|]. apply Z.div_lt_upper_bound; lia.
Qed.

Lemma LoadUint64_Encode v rest :
  is_u64 v -> LoadUint64 (EncodeUint64 v ++ rest) = Ok (v, zlen (EncodeUint64 v)).
Proof.
  unfold is_u64. intros Hv. unfold LoadUint64.
  assert (zlen (EncodeUint64 v ++ rest) <> 0).
  { rewrite zlen_app. unfold EncodeUint64. rewrite EncodeUint64_loop_S by lia.
    pose proof (zlen_nonneg rest).
    destruct (v <? 128); rewrite zlen_cons; pose proof (zlen_nonneg (@nil Z));
      try pose proof (zlen_nonneg (EncodeUint64_loop 9 (v / 128))); lia. }
  rewrite (proj2 (Z.eqb_neq _ 0)) by done.
  refine (eq_trans (LoadUint64_loop_enc 10 _ 0 0 v rest _ _ _ _ _ _) _); try done; try lia;
    change (2 ^ (7 * 0)) with 1; try lia.
  do 2 f_equal; lia.
Qed.

(** *** The 33-bit decoder *)

Lemma DecodeInt33_loop_run l : forall fuel a b0 k rest,
  bytes_ok l -> leb_terminated l = true -> (length l <= fuel)%nat ->
  0 <= k -> k + zlen l <= 5 -> 0 <= a < 2 ^ (7 * k) ->
  DecodeInt33_loop fuel b0 a (7 * k) k (l ++ rest) =
    Ok (default 0 (last l), a + uleb l * 2 ^ (7 * k), 7 * (k + zlen l), k + zlen l, rest).
Proof.
  induction l as [|b l IH]; intros fuel a b0 k rest Hok Ht Hf Hk Hk5 Ha; [done|].
  destruct fuel as [|fuel]; [simpl in Hf; lia|].
  inversion Hok as [|? ? Hb Hok']; subst. rewrite zlen_cons in Hk5. pose proof (zlen_nonneg l).
  cbn [DecodeInt33_loop app readByte errorf res_bind].
  rewrite (proj2 (Z.ltb_lt (7 * k) 35)) by lia.
  assert (Z.land b int33Mask2 = b mod 128) as ->.
  { change int33Mask2 with (Z.lnot 128). rewrite <- land_127.
    apply (Z.eqb_eq (Z.land b (Z.lnot 128)) (Z.land b 127)).
    apply (byte_forall (fun b => Z.land b (Z.lnot 128) =? Z.land b 127)); done. }
  pose proof (Z.mod_pos_bound b 128 ltac:(lia)).
  assert (2 ^ (7 * k) <= 2 ^ 28) by (apply Z.pow_le_mono_r; lia).
  unfold sgn64. rewrite sgn_small; [|lia|rewrite Z.shiftl_mul_pow2 by lia; nia].
  rewrite lor_shiftl_add by lia. change int33Mask with 0x80. rewrite land_128_0 by done.
  replace (7 * k + 7) with (7 * (k + 1)) by lia.
  destruct l as [|b' l].
  - cbn [leb_terminated] in Ht. rewrite Ht. cbn [last uleb default]. unfold id.
    change (zlen [b]) with 1. rewrite Z.mul_0_r, Z.add_0_r. done.
  - cbn [leb_terminated] in Ht. apply andb_true_iff in Ht as [Hge Ht].
    apply Z.leb_le in Hge. rewrite (proj2 (Z.ltb_ge b 128)) by lia.
    rewrite IH; try done; try lia; [|simpl in *; lia|rewrite pow2_7S by lia; nia].
    rewrite !zlen_cons. cbn [last]. rewrite pow2_7S by lia. cbn [uleb].
    repeat match goal with |- Ok _ = Ok _ => f_equal | |- (_, _) = (_, _) => f_equal end;
      try done; try lia; nia.
Qed.

(** The post-processing of [DecodeInt33AsInt64] is the signed 33-bit reading. *)
Lemma int33_sign l :
  leb_terminated l = true -> zlen l <= 5 ->
  let ret := if (7 * zlen l <? 33) && Z.testbit (default 0 (last l)) 6
             then Z.lor (uleb l) (sgn64 (Z.shiftl int33Mask4 (7 * zlen l))) else uleb l in
  let ret := Z.land ret int33Mask4 in
  (if Z.land ret int33Mask5 >? 0 then ret - int33Mask6 else ret) = sgn 33 (sleb l).
Proof.
  intros Ht Hn. pose proof (uleb_range l) as Hu. pose proof (zlen_nonneg l).
  assert (forall x, Z.land x int33Mask4 = x mod 2 ^ 33) as Hm.
  { intros x. change int33Mask4 with (Z.ones 33). by rewrite Z.land_ones by lia. }
  assert (forall x, 0 <= x < 2 ^ 33 -> (if Z.land x int33Mask5 >? 0 then x - int33Mask6 else x) = sgn 33 x) as Hs.
  { intros x Hx. change int33Mask5 with (2 ^ 32). change int33Mask6 with (2 ^ 33).
    assert (Z.land x (2 ^ 32) = if x <? 2 ^ 32 then 0 else 2 ^ 32) as ->.
    { apply Z.bits_inj'; intros n Hn0. rewrite Z.land_spec, Z.pow2_bits_eqb by lia.
      destruct (Z.eqb_spec 32 n) as [<-|]; rewrite ?andb_true_r, ?andb_false_r.
      - destruct (Z.ltb_spec x (2 ^ 32)).
        + rewrite <- (Z.mod_small x (2 ^ 32)) by lia. by rewrite Z.mod_pow2_bits_high by lia.
        + apply (Z.b2z_inj (Z.testbit x 32) true). rewrite Z.testbit_spec' by lia.
          assert (x / 2 ^ 32 = 1) as ->; [|done]. symmetry. apply (Z.div_unique _ _ _ (x - 2 ^ 32)); lia.
      - destruct (Z.ltb_spec x (2 ^ 32)); [by rewrite Z.bits_0|].
        by rewrite Z.pow2_bits_false by lia. }
    unfold sgn. change (2 ^ (33 - 1)) with (2 ^ 32). destruct (Z.ltb_spec x (2 ^ 32)).
    - change (0 >? 0) with false. cbv iota. rewrite Z.mod_small by lia. lia.
    - change (2 ^ 32 >? 0) with true. cbv iota.
      replace ((x + 2 ^ 32) mod 2 ^ 33) with (x - 2 ^ 32); [lia|].
      apply (Z.mod_unique _ _ 1); lia. }
  cbv zeta. rewrite Hm, Hs by (apply Z.mod_pos_bound; lia).
  apply sgn_mod; [lia|]. rewrite Z.mod_mod by lia. unfold sleb.
  destruct (Z.testbit _ 6); [|by rewrite andb_false_r, Z.sub_0_r].
  rewrite andb_true_r. destruct (Z.ltb_spec (7 * zlen l) 33).
  - assert (2 ^ (7 * zlen l) <= 2 ^ 28) by (apply Z.pow_le_mono_r; lia).
    unfold sgn64. rewrite sgn_small; [|lia|rewrite Z.shiftl_mul_pow2 by lia; change int33Mask4 with (2 ^ 33 - 1); nia].
    rewrite lor_shiftl_add by lia. change int33Mask4 with (2 ^ 33 - 1).
    replace (uleb l + (2 ^ 33 - 1) * 2 ^ (7 * zlen l)) with (uleb l - 2 ^ (7 * zlen l) + 2 ^ (7 * zlen l) * 2 ^ 33) by lia.
    apply Z.mod_add. lia.
  - assert (zlen l = 5) as -> by lia. change (2 ^ (7 * 5)) with (4 * 2 ^ 33).
    replace (uleb l - 4 * 2 ^ 33) with (uleb l + (-4) * 2 ^ 33) by lia. by rewrite Z.mod_add by lia.
Qed.

Lemma int33Mask3_test x : (Z.land x int33Mask3 =? int33Mask3) = Z.testbit x 6.
Proof.
  pose proof (land_64_test x) as T. change int33Mask3 with 64.
  destruct (Z.testbit x 6) eqn:Hx; simpl in T.
  - apply Z.eqb_eq. apply Z.bits_inj'; intros n Hn. rewrite Z.land_spec. change 64 with (2 ^ 6).
    rewrite Z.pow2_bits_eqb by lia. destruct (Z.eqb_spec 6 n); subst; rewrite ?Hx; simpl; auto using andb_false_r.
  - apply Z.eqb_eq in T. by rewrite T.
Qed.

Lemma DecodeInt33_terminated l rest :
  bytes_ok l -> leb_terminated l = true -> zlen l <= 5 ->
  DecodeInt33AsInt64 (l ++ rest) =
    let v := sgn 33 (sleb l) in
    let unused := Z.land (default 0 (last l)) 0x20 in
    if (zlen l =? 5) && (v <? 0) && negb (unused =? 0x20) then Err errOverflow33
    else if (zlen l =? 5) && (v >=? 0) && negb (unused =? 0) then Err errOverflow33
    else Ok (v, zlen l, rest).
Proof.
  intros Hok Ht Hn. unfold DecodeInt33AsInt64.
  pose proof (DecodeInt33_loop_run l 5 0 0 0 rest Hok Ht) as E.
  rewrite Z.mul_0_r, !Z.add_0_l in E.
  rewrite E; [|unfold zlen in Hn; lia|lia|lia|change (2 ^ 0) with 1; lia].
  cbn [res_bind]. rewrite Z.pow_0_r, Z.mul_1_r, int33Mask3_test.
  pose proof (int33_sign l Ht Hn) as Hs. cbv zeta in Hs |- *. rewrite Hs.
  unfold maxVarintLen33, maxVarintLen32. rewrite Z.gtb_ltb, (proj2 (Z.ltb_ge 5 (zlen l))) by lia. done.
Qed.

Lemma DecodeInt33_Encode v rest :
  - 2 ^ 32 <= v < 2 ^ 32 ->
  DecodeInt33AsInt64 (EncodeInt64 v ++ rest) = Ok (v, zlen (EncodeInt64 v), rest).
Proof.
  intros Hv. destruct (EncodeInt64_props v) as (H1 & H2 & H3 & H4 & H5); [unfold is_i64; lia|].
  specialize (H5 5 ltac:(lia) ltac:(change (7 * 5 - 1) with 34; lia)). set (l := EncodeInt64 v) in *.
  rewrite DecodeInt33_terminated by (done || lia). cbv zeta. rewrite H3, (sgn_small 33 v) by lia.
  destruct (Z.eqb_spec (zlen l) 5) as [E5|]; [|done]. rewrite E5 in H4. rewrite H4.
  change (2 ^ (7 * (5 - 1))) with (2 ^ 28). set (q := v / 2 ^ 28).
  assert (-16 <= q < 16) as Hq.
  { subst q. split; [apply Z.div_le_lower_bound; lia|apply Z.div_lt_upper_bound; lia]. }
  pose proof (Z.div_mod v (2 ^ 28) ltac:(lia)). pose proof (Z.mod_pos_bound v (2 ^ 28) ltac:(lia)).
  assert ((v <? 0) = (q <? 0)) as ->.
  { subst q. destruct (Z.ltb_spec v 0), (Z.ltb_spec (v / 2 ^ 28) 0); done || lia. }
  assert ((v >=? 0) = negb (q <? 0)) as ->.
  { subst q. rewrite Z.geb_leb. destruct (Z.leb_spec 0 v), (Z.ltb_spec (v / 2 ^ 28) 0); done || lia. }
  pose proof (range_forall (fun q => negb ((q <? 0) && negb (Z.land (q mod 128) 32 =? 32)) &&
    negb (negb (q <? 0) && negb (Z.land (q mod 128) 32 =? 0))) (-16) 32 eq_refl q Hq) as Hc.
  cbv beta in Hc. apply andb_true_iff in Hc as [Hc1 Hc2]. rewrite negb_true_iff in Hc1, Hc2.
  simpl andb. rewrite Hc1, Hc2, E5. done.
Qed.

(** ** Bounds of what a decoder consumes

    What the clients of the codec rely on: a decoder never panics, and a
    successful one has consumed at least one byte and at most the buffer. *)

Definition reads_within {A} (buf : list Z) (m : res (A * Z)) : Prop :=
  no_panic m /\ forall v n, m = Ok (v, n) -> 1 <= n <= zlen buf.

Lemma leb_terminated_pos l : leb_terminated l = true -> 1 <= zlen l.
Proof. destruct l; [done|]. rewrite zlen_cons. pose proof (zlen_nonneg l). lia. Qed.

Lemma decodeUint32_loop_no_panic fuel i s ret r :
  no_panic (decodeUint32_loop readByte fuel i s ret r).
Proof.
  revert i s ret r; induction fuel as [|fuel IH]; intros; [done|].
  cbn [decodeUint32_loop]. destruct r; [done|]. cbn [readByte res_bind].
  repeat case_match; try done; apply IH.
Qed.

Lemma LoadUint32_within buf : bytes_ok buf -> reads_within buf (LoadUint32 buf).
Proof.
  intros Hok. rewrite LoadUint32_Decode. split.
  - apply res_bind_no_panic; [apply decodeUint32_loop_no_panic|]. intros [[v n] r] _; done.
  - intros v n. destruct (DecodeUint32 buf) as [[[v' n'] r]| |] eqn:E; try done.
    intros [= <- <-]. apply DecodeUint32_sound in E as (l & -> & ? & -> & ? & _); [|done].
    rewrite zlen_app. pose proof (zlen_nonneg r). lia.
Qed.

Lemma LoadUint32_u32 buf v n : bytes_ok buf -> LoadUint32 buf = Ok (v, n) -> is_u32 v.
Proof.
  intros Hok. rewrite LoadUint32_Decode.
  destruct (DecodeUint32 buf) as [[[v' n'] r]| |] eqn:E; try done. intros [= <- <-].
  by apply DecodeUint32_sound in E as (l & -> & ? & -> & ? & ? & ?).
Qed.

Lemma LoadInt32_within buf : bytes_ok buf -> reads_within buf (LoadInt32 buf).
Proof.
  intros Hok. rewrite LoadInt32_Decode.
  destruct (DecodeInt32_cases buf Hok) as [->|(l & rest & -> & Ht & ->)]; [done|].
  apply bytes_ok_app in Hok as [Hok _]. rewrite decodeInt32_terminated by done.
  pose proof (leb_terminated_pos l Ht). pose proof (zlen_nonneg rest).
  cbv zeta. split; [repeat case_match; done|]. intros v n E.
  repeat case_in E. rewrite zlen_app. lia.
Qed.

Lemma LoadInt64_within buf : bytes_ok buf -> reads_within buf (LoadInt64 buf).
Proof.
  intros Hok. rewrite LoadInt64_Decode.
  destruct (DecodeInt64_cases buf Hok) as [->|(l & rest & -> & Ht & ->)]; [done|].
  apply bytes_ok_app in Hok as [Hok _]. rewrite decodeInt64_terminated by done.
  pose proof (leb_terminated_pos l Ht). pose proof (zlen_nonneg rest).
  cbv zeta. split; [repeat case_match; done|]. intros v n E.
  repeat case_in E. rewrite zlen_app. lia.
Qed.

Lemma LoadUint64_within buf : reads_within buf (LoadUint64 buf).
Proof.
  unfold LoadUint64. case_match; [done|].
  assert (forall fuel i s ret, 0 <= i ->
    no_panic (LoadUint64_loop fuel buf i s ret) /\
    forall v n, LoadUint64_loop fuel buf i s ret = Ok (v, n) -> 1 <= n <= zlen buf) as L;
    [|apply L; lia].
  intros fuel; induction fuel as [|fuel IH]; intros i s ret Hi; [done|].
  cbn [LoadUint64_loop]. destruct (Z.geb_spec i (zlen buf)); [done|].
  destruct (zindex_in buf i) as (b & -> & _); [lia|]. cbn [res_bind].
  repeat case_match; try done; [|apply IH; lia].
  split; [done|]. intros v n [= <- <-]. lia.
Qed.

Lemma DecodeInt33_loop_within (buf : list Z) fuel : forall b0 ret k l0 r,
  buf = l0 ++ r -> zlen l0 = k -> (0 < fuel)%nat -> k < 5 ->
  no_panic (DecodeInt33_loop fuel b0 ret (7 * k) k r) /\
  forall b v s n r', DecodeInt33_loop fuel b0 ret (7 * k) k r = Ok (b, v, s, n, r') ->
    exists l, buf = l ++ r' /\ zlen l = n /\ 1 <= n.
Proof.
  induction fuel as [|fuel IH]; intros b0 ret k l0 r Hb Hk Hf Hk5; [lia|].
  cbn [DecodeInt33_loop]. rewrite (proj2 (Z.ltb_lt (7 * k) 35)) by lia.
  destruct r as [|b r]; [done|]. cbn [readByte errorf res_bind].
  assert (buf = (l0 ++ [b]) ++ r) as Hb' by (by rewrite <- app_assoc).
  assert (zlen (l0 ++ [b]) = k + 1) as Hk' by (rewrite zlen_app; change (zlen [b]) with 1; lia).
  pose proof (zlen_nonneg l0).
  case_match; [split; [done|]; intros ????? [= <- <- <- <- <-]; exists (l0 ++ [b]); split_and!; done || lia|].
  replace (7 * k + 7) with (7 * (k + 1)) by lia.
  destruct fuel as [|fuel]; [split; [done|]; intros ????? [= <- <- <- <- <-]; exists (l0 ++ [b]); split_and!; done || lia|].
  destruct (Z.eq_dec k 4) as [->|]; [|apply (IH _ _ _ (l0 ++ [b])); done || lia].
  cbn [DecodeInt33_loop]. split; [done|]. intros ????? [= <- <- <- <- <-]. exists (l0 ++ [b]). split_and!; done || lia.
Qed.

Lemma DecodeInt33_within buf :
  no_panic (DecodeInt33AsInt64 buf) /\
  forall v n r, DecodeInt33AsInt64 buf = Ok (v, n, r) -> exists l, buf = l ++ r /\ zlen l = n /\ 1 <= n.
Proof.
  unfold DecodeInt33AsInt64.
  destruct (DecodeInt33_loop_within buf 5 0 0 0 [] buf) as [L1 L2]; [done|done|lia|lia|].
  change (7 * 0) with 0 in *.
  destruct (DecodeInt33_loop 5 0 0 0 0 buf) as [[[[[b v] s] n] r]|e|e];
    cbn [res_bind]; [|done|exfalso; by apply (L1 e)].
  split; [repeat case_match; done|]. intros v' n' r' E. specialize (L2 b v s n r eq_refl).
  repeat case_in E; done.
Qed.

(** ** Properties *)

(** Round trip of the unsigned codec. Every 32-bit value encoded by
    [EncodeUint32], followed by anything, is decoded back by both forms of the
    decoder, which consume exactly the encoding; likewise for 64 bits. *)
Theorem uleb_roundtrip (rest : list Z) :
  (forall v, is_u32 v ->
     DecodeUint32 (EncodeUint32 v ++ rest) = Ok (v, zlen (EncodeUint32 v), rest) /\
     LoadUint32 (EncodeUint32 v ++ rest) = Ok (v, zlen (EncodeUint32 v))) /\
  (forall v, is_u64 v -> LoadUint64 (EncodeUint64 v ++ rest) = Ok (v, zlen (EncodeUint64 v))).
Proof.
  split; intros v Hv; [|by apply LoadUint64_Encode].
  rewrite LoadUint32_Decode, DecodeUint32_Encode by done. done.
Qed.

(** C32: Round trip of the signed codec for 32-, 64- and 33-bit values. *)
Theorem sleb_roundtrip (rest : list Z) :
  (forall v, is_i32 v ->
     DecodeInt32 (EncodeInt32 v ++ rest) = Ok (v, zlen (EncodeInt32 v), rest) /\
     LoadInt32 (EncodeInt32 v ++ rest) = Ok (v, zlen (EncodeInt32 v))) /\
  (forall v, is_i64 v ->
     DecodeInt64 (EncodeInt64 v ++ rest) = Ok (v, zlen (EncodeInt64 v), rest) /\
     LoadInt64 (EncodeInt64 v ++ rest) = Ok (v, zlen (EncodeInt64 v))) /\
  (forall v, - 2 ^ 32 <= v < 2 ^ 32 ->
     DecodeInt33AsInt64 (EncodeInt64 v ++ rest) = Ok (v, zlen (EncodeInt64 v), rest)).
Proof.
  split_and!; intros v Hv.
  - rewrite LoadInt32_Decode, DecodeInt32_Encode by done. done.
  - rewrite LoadInt64_Decode, DecodeInt64_Encode by done. done.
  - by apply DecodeInt33_Encode.
Qed.

(** What the 32-bit decoders accept. A successful decode consumed a
    terminated sequence of at most five bytes; the unsigned value is the value
    the bytes denote and fits 32 bits, the signed value is the denoted value
    reduced to 32 bits, and is the denoted value itself when the sequence is
    shorter than five bytes. *)
Theorem leb32_sound (r r' : list Z) (v n : Z) :
  bytes_ok r ->
  (DecodeUint32 r = Ok (v, n, r') ->
     exists l, r = l ++ r' /\ leb_terminated l = true /\ n = zlen l /\ 1 <= n <= 5 /\
       v = uleb l /\ is_u32 v) /\
  (DecodeInt32 r = Ok (v, n, r') ->
     exists l, r = l ++ r' /\ leb_terminated l = true /\ n = zlen l /\ 1 <= n <= 5 /\
       v = sgn32 (sleb l) /\ is_i32 v /\ (n < 5 -> v = sleb l)).
Proof.
  intros Hok. split; [by apply DecodeUint32_sound|]. intros E.
  destruct (DecodeInt32_cases r Hok) as [E'|(l & rest & -> & Ht & E')]; rewrite E' in E; [done|].
  apply bytes_ok_app in Hok as [Hok _]. rewrite decodeInt32_terminated in E by done.
  cbv zeta in E. destruct (zlen l >? 5) eqn:E5; [done|]. bools.
  repeat case_in E. exists l.
  assert (1 <= zlen l) by (destruct l; [done|]; rewrite zlen_cons; pose proof (zlen_nonneg l); lia).
  split_and!; try done.
  - apply (sgn_range 32). lia.
  - intros Hn. apply sgn_small; [lia|]. unfold sleb. pose proof (uleb_range l).
    assert (2 ^ (7 * zlen l) <= 2 ^ 28) by (apply Z.pow_le_mono_r; lia).
    destruct (Z.testbit _ 6) eqn:T; [|lia].
    lia.
Qed.

Lemma leb32_sound_witness :
  exists l, [0xe5; 0x8e; 0x26; 7] = l ++ [7] /\ leb_terminated l = true /\ 3 = zlen l /\ 1 <= 3 <= 5 /\
       624485 = uleb l /\ is_u32 624485.
Proof.
  assert (bytes_ok [0xe5; 0x8e; 0x26; 7]) as Hok by (repeat constructor; done).
  apply (leb32_sound [0xe5; 0x8e; 0x26; 7] [7] 624485 3 Hok). reflexivity.
Defined.

(** The two forms of each decoder agree on every input: [LoadXXX] returns
    what [DecodeXXX] returns on a reader over the same bytes, error for error. *)
Theorem load_decode_agree (buf : list Z) :
  LoadUint32 buf = (let! (v, n, _) := DecodeUint32 buf in Ok (v, n)) /\
  LoadInt32 buf = (let! (v, n, _) := DecodeInt32 buf in Ok (v, n)) /\
  LoadInt64 buf = (let! (v, n, _) := DecodeInt64 buf in Ok (v, n)).
Proof. eauto using LoadUint32_Decode, LoadInt32_Decode, LoadInt64_Decode. Qed.

(** Termination and panic freedom of the decoders on arbitrary bytes: each
    returns a value or an error, and a successful one consumed between one byte
    and the whole buffer. *)
Theorem leb_decoders_total (buf : list Z) :
  bytes_ok buf ->
  reads_within buf (LoadUint32 buf) /\ reads_within buf (LoadUint64 buf) /\
  reads_within buf (LoadInt32 buf) /\ reads_within buf (LoadInt64 buf) /\
  no_panic (DecodeInt33AsInt64 buf).
Proof.
  intros Hok. split_and!.
  - by apply LoadUint32_within.
  - apply LoadUint64_within.
  - by apply LoadInt32_within.
  - by apply LoadInt64_within.
  - apply DecodeInt33_within.
Qed.

Lemma leb_decoders_total_witness : reads_within [0x80; 0x7f] (LoadInt64 [0x80; 0x7f]).
Proof.
  assert (bytes_ok [0x80; 0x7f]) as Hok by (repeat constructor; done).
  apply (leb_decoders_total [0x80; 0x7f] Hok).
Defined.

(** The overflow checks of the signed decoders look at bits 4 and 5 of the
    last byte only (bits 1 to 5 for 64 bits, bit 5 for 33 bits), not at its
    sign bit: five (ten) bytes that denote a value far outside the type are
    accepted and yield 0.  The 33-bit decoder also accepts a fifth byte with the
    continuation bit set, that is a sequence that does not end. *)
Theorem sleb_overflow_accepted :
  (let l := [0x80; 0x80; 0x80; 0x80; 0x40] in
   leb_terminated l = true /\ sleb l = - 2 ^ 34 /\ LoadInt32 l = Ok (0, 5)) /\
  (let l := [0x80; 0x80; 0x80; 0x80; 0x80; 0x80; 0x80; 0x80; 0x80; 0x40] in
   leb_terminated l = true /\ sleb l = - 2 ^ 69 /\ LoadInt64 l = Ok (0, 10)) /\
  (let l := [0x80; 0x80; 0x80; 0x80; 0x40] in
   sleb l = - 2 ^ 34 /\ DecodeInt33AsInt64 l = Ok (0, 5, [])) /\
  (let l := [0x80; 0x80; 0x80; 0x80; 0x80] in
   leb_terminated l = false /\ DecodeInt33AsInt64 l = Ok (0, 5, [])).
Proof. vm_compute. repeat split. Qed.
