(* ===== verification/Features.v ===== *)
(** * Core features (src/api/features.go, src/experimental/features.go)

    The bit set that selects the Wasm proposals a runtime accepts, with its
    update and query operations and its printed form.  A [CoreFeatures] is a
    [uint64], a [Z] below [2^64]. *)

From S2P Require Import Prelude.

Definition CoreFeatures : Type := Z.

Definition CoreFeatureBulkMemoryOperations : CoreFeatures := Z.shiftl 1 0.
Definition CoreFeatureMultiValue : CoreFeatures := Z.shiftl 1 1.
Definition CoreFeatureMutableGlobal : CoreFeatures := Z.shiftl 1 2.
Definition CoreFeatureNonTrappingFloatToIntConversion : CoreFeatures := Z.shiftl 1 3.
Definition CoreFeatureReferenceTypes : CoreFeatures := Z.shiftl 1 4.
Definition CoreFeatureSignExtensionOps : CoreFeatures := Z.shiftl 1 5.
Definition CoreFeatureSIMD : CoreFeatures := Z.shiftl 1 6.

Definition CoreFeaturesThreads : CoreFeatures := Z.shiftl CoreFeatureSIMD 1.
Definition CoreFeaturesTailCall : CoreFeatures := Z.shiftl CoreFeatureSIMD 2.
Definition CoreFeaturesExtendedConst : CoreFeatures := Z.shiftl CoreFeatureSIMD 3.
Definition CoreFeaturesExceptionHandling : CoreFeatures := Z.shiftl CoreFeatureSIMD 4.
Definition CoreFeaturesTypedFunctionReferences : CoreFeatures := Z.shiftl CoreFeatureSIMD 5.

Definition CoreFeaturesV1 : CoreFeatures := CoreFeatureMutableGlobal.
Definition CoreFeaturesV2 : CoreFeatures :=
  Z.lor CoreFeaturesV1
  (Z.lor CoreFeatureBulkMemoryOperations
  (Z.lor CoreFeatureMultiValue
  (Z.lor CoreFeatureNonTrappingFloatToIntConversion
  (Z.lor CoreFeatureReferenceTypes
  (Z.lor CoreFeatureSignExtensionOps CoreFeatureSIMD))))).

(** Go's [f &^ feature] is [Z.ldiff]. *)
Definition SetEnabled (f feature : CoreFeatures) (val : bool) : CoreFeatures :=
  if val then Z.lor f feature else Z.ldiff f feature.

Definition IsEnabled (f feature : CoreFeatures) : bool := negb (Z.land f feature =? 0).

Definition featureName (f : CoreFeatures) : string :=
  if f =? CoreFeatureMutableGlobal then "mutable-global"
  else if f =? CoreFeatureSignExtensionOps then "sign-extension-ops"
  else if f =? CoreFeatureMultiValue then "multi-value"
  else if f =? CoreFeatureNonTrappingFloatToIntConversion then "nontrapping-float-to-int-conversion"
  else if f =? CoreFeatureBulkMemoryOperations then "bulk-memory-operations"
  else if f =? CoreFeatureReferenceTypes then "reference-types"
  else if f =? CoreFeatureSIMD then "simd"
  else if f =? Z.shiftl CoreFeatureSIMD 1 then "threads"
  else if f =? Z.shiftl CoreFeatureSIMD 2 then "tail-call"
  else if f =? Z.shiftl CoreFeatureSIMD 3 then "extended-const"
  else if f =? Z.shiftl CoreFeatureSIMD 4 then "exception-handling"
  else if f =? Z.shiftl CoreFeatureSIMD 5 then "typed-function-references"
  else "".

(** The loop of [String] from bit [i] on, [n] bits left; [acc] is the builder. *)
Fixpoint String_loop (n : nat) (i : Z) (f : CoreFeatures) (acc : string) : string :=
  match n with
  | O => acc
  | S n' =>
      let target := wrap64 (Z.shiftl 1 i) in
      let acc :=
        if IsEnabled f target then
          let name := featureName target in
          if String.eqb name "" then acc
          else (if String.eqb acc "" then acc else acc +:+ "|") +:+ name
        else acc in
      String_loop n' (i + 1) f acc
  end.

Definition String (f : CoreFeatures) : string := String_loop 64 0 f "".

(** The message quotes the feature: [fmt.Errorf("feature %q is disabled", feature)]. *)
Definition quoted (s : string) : string :=
  let q := String.String (Ascii.ascii_of_nat 34) EmptyString in q +:+ s +:+ q.

Definition RequireEnabled (f feature : CoreFeatures) : res unit :=
  if Z.land f feature =? 0 then Err ("feature " +:+ quoted (String feature) +:+ " is disabled")
  else Ok tt.

(** ** Lemmas *)

Lemma land_pow2_eqb f i : 0 <= i -> (Z.land f (2 ^ i) =? 0) = negb (Z.testbit f i).
Proof.
  intros Hi. destruct (Z.testbit f i) eqn:E; simpl.
  - apply Z.eqb_neq. intros H. apply (f_equal (fun x => Z.testbit x i)) in H.
    rewrite Z.land_spec, Z.pow2_bits_true, E, Z.bits_0 in H by lia. done.
  - apply Z.eqb_eq. apply Z.bits_inj'. intros n Hn. rewrite Z.land_spec, Z.bits_0.
    rewrite Z.pow2_bits_eqb by lia. destruct (Z.eqb_spec i n); subst; rewrite ?E; auto using andb_false_r.
Qed.

Lemma IsEnabled_bit f i : 0 <= i -> IsEnabled f (2 ^ i) = Z.testbit f i.
Proof. intros Hi. unfold IsEnabled. rewrite land_pow2_eqb, negb_involutive by lia. done. Qed.

Lemma featureName_high z : 2 ^ 12 <= z -> featureName z = "".
Proof.
  intros Hz. unfold featureName.
  repeat match goal with |- context [z =? ?c] =>
    let v := eval vm_compute in c in
    change (z =? c) with (z =? v); rewrite (proj2 (Z.eqb_neq z v)) by lia
  end. done.
Qed.

(** [String] only looks at the bits that have a name, the low twelve. *)
Lemma String_loop_unnamed n i f acc :
  12 <= i -> i + Z.of_nat n <= 64 -> String_loop n i f acc = acc.
Proof.
  revert i; induction n as [|n IH]; intros i Hi Hn; [done|]. cbn [String_loop].
  rewrite featureName_high by
    (rewrite Z.shiftl_1_l, wrap64_small; unfold is_u64;
      [apply Z.pow_le_mono_r | split; [apply Z.pow_nonneg|apply Z.pow_lt_mono_r]]; lia).
  destruct (IsEnabled f _); apply IH; lia.
Qed.

Lemma String_loop_add n m i f acc :
  String_loop (n + m) i f acc = String_loop m (i + Z.of_nat n) f (String_loop n i f acc).
Proof.
  revert i acc; induction n as [|n IH]; intros i acc; [by rewrite Z.add_0_r|].
  cbn [Nat.add String_loop]. rewrite IH. f_equal. lia.
Qed.

Lemma String_loop_ext n i f g acc :
  0 <= i -> i + Z.of_nat n <= 64 ->
  (forall k, i <= k < i + Z.of_nat n -> Z.testbit f k = Z.testbit g k) ->
  String_loop n i f acc = String_loop n i g acc.
Proof.
  revert i acc; induction n as [|n IH]; intros i acc Hi Hn Hfg; [done|]. cbn [String_loop].
  assert (IsEnabled f (wrap64 (Z.shiftl 1 i)) = IsEnabled g (wrap64 (Z.shiftl 1 i))) as ->.
  { rewrite Z.shiftl_1_l, wrap64_small, !IsEnabled_bit; [apply Hfg; lia|lia|lia|].
    unfold is_u64. split; [apply Z.pow_nonneg; lia|apply Z.pow_lt_mono_r; lia]. }
  apply IH; [lia|lia|]. intros k Hk. apply Hfg. lia.
Qed.

Lemma String_12 g : String g = String_loop 12 0 g "".
Proof.
  unfold String. change 64%nat with (12 + 52)%nat. rewrite String_loop_add.
  apply String_loop_unnamed; lia.
Qed.

Lemma String_low f : String f = String (f mod 2 ^ 12).
Proof.
  rewrite !String_12. apply String_loop_ext; [lia|lia|].
  intros k Hk. rewrite Z.mod_pow2_bits_low by lia. done.
Qed.

Lemma testbit_u64 z : 0 <= z -> (forall n, 64 <= n -> Z.testbit z n = false) -> 0 <= z < 2 ^ 64.
Proof.
  intros Hz H. split; [done|]. destruct (Z.eq_dec z 0) as [->|]; [lia|].
  apply Z.log2_lt_pow2; [lia|]. destruct (Z.lt_ge_cases (Z.log2 z) 64) as [|Hge]; [done|].
  specialize (H _ Hge). rewrite Z.bit_log2 in H by lia. done.
Qed.

(** *** Reading a printed set back: the names between the bars. *)

Definition namedFeatures : list (string * Z) :=
  map (fun i => (featureName (Z.shiftl 1 (Z.of_nat i)), Z.shiftl 1 (Z.of_nat i))) (seq 0 12).

Definition nameBit (s : string) : Z :=
  match List.find (fun p => String.eqb (fst p) s) namedFeatures with
  | Some (_, b) => b
  | None => 0
  end.

Fixpoint parseNames (s cur : string) : Z :=
  match s with
  | EmptyString => nameBit cur
  | String.String c s' =>
      if Nat.eqb (Ascii.nat_of_ascii c) 124 then Z.lor (nameBit cur) (parseNames s' "")
      else parseNames s' (cur +:+ String.String c EmptyString)
  end.

Lemma parseNames_String_all :
  forallb (fun n => parseNames (String_loop 12 0 (Z.of_nat n) "") "" =? Z.of_nat n) (seq 0 4096) = true.
Proof. vm_compute. reflexivity. Qed.

Lemma parseNames_String f : parseNames (String f) "" = f mod 2 ^ 12.
Proof.
  rewrite String_low. pose proof (Z.mod_pos_bound f (2 ^ 12) ltac:(lia)) as Hb.
  pose proof (proj1 (forallb_forall _ _) parseNames_String_all (Z.to_nat (f mod 2 ^ 12))) as H.
  cbv beta in H. rewrite Z2Nat.id, <- String_12 in H by lia. apply Z.eqb_eq, H, in_seq. lia.
Qed.

(** ** Properties *)

(** Setting and querying features. After [SetEnabled] of one feature (a
    single bit) that feature reads as set, every other one is unchanged, the
    result is still a 64-bit set, and [RequireEnabled] succeeds exactly when
    [IsEnabled] holds. *)
Theorem features_set_get (f : CoreFeatures) (i j : Z) (val : bool) :
  is_u64 f -> 0 <= i < 64 -> 0 <= j < 64 ->
  IsEnabled (SetEnabled f (2 ^ i) val) (2 ^ j) = (if i =? j then val else IsEnabled f (2 ^ j)) /\
  is_u64 (SetEnabled f (2 ^ i) val) /\
  (RequireEnabled f (2 ^ j) = Ok tt <-> IsEnabled f (2 ^ j) = true).
Proof.
  intros Hf Hi Hj. rewrite !IsEnabled_bit by lia. split_and!.
  - unfold SetEnabled. destruct val; rewrite ?Z.lor_spec, ?Z.ldiff_spec, Z.pow2_bits_eqb by lia;
      destruct (Z.eqb_spec i j); subst; simpl;
      rewrite ?orb_true_r, ?orb_false_r, ?andb_true_r, ?andb_false_r; done.
  - unfold SetEnabled, is_u64 in *. apply testbit_u64.
    + destruct val; [apply Z.lor_nonneg | apply Z.ldiff_nonneg]; pose proof (Z.pow_pos_nonneg 2 i); lia.
    + intros n Hn. assert (Z.testbit f n = false).
      { destruct Hf. rewrite <- (Z.mod_small f (2 ^ 64)) by lia. apply Z.mod_pow2_bits_high. lia. }
      destruct val; rewrite ?Z.lor_spec, ?Z.ldiff_spec, Z.pow2_bits_eqb by lia;
        rewrite H; simpl; [apply Z.eqb_neq; lia|done].
  - unfold RequireEnabled. rewrite land_pow2_eqb by lia. by destruct (Z.testbit f j).
Qed.

Lemma features_set_get_witness :
  IsEnabled (SetEnabled CoreFeaturesV1 (2 ^ 6) true) (2 ^ 2) = IsEnabled CoreFeaturesV1 (2 ^ 2).
Proof.
  apply (features_set_get CoreFeaturesV1 6 2 true); unfold is_u64; vm_compute; intuition congruence.
Defined.

(** The printed form of a feature set determines it on the features that
    have a name: reading the names between the bars gives the low twelve bits
    back, so two sets print alike exactly when those bits agree. *)
Theorem features_string_roundtrip (f g : CoreFeatures) :
  parseNames (String f) "" = f mod 2 ^ 12 /\
  (String f = String g <-> f mod 2 ^ 12 = g mod 2 ^ 12).
Proof.
  split; [apply parseNames_String|]. split; intros E.
  - by rewrite <- !parseNames_String, E.
  - by rewrite String_low, (String_low g), E.
Qed.

(** On a group of features, [IsEnabled] asks for one of them, not for all:
    a set with multi-value only answers [true] for the group of version 2. *)
Theorem features_group_any :
  (forall f g, IsEnabled f g = true <-> exists i, 0 <= i /\ Z.testbit f i = true /\ Z.testbit g i = true) /\
  IsEnabled CoreFeatureMultiValue CoreFeaturesV2 = true.
Proof.
  split; [|done]. intros f g. unfold IsEnabled. rewrite negb_true_iff, Z.eqb_neq. split.
  - intros H. destruct (Z.eq_dec (Z.land f g) 0) as [|Hne]; [done|].
    destruct (Z.lt_ge_cases (Z.land f g) 0) as [Hlt|Hge].
    + pose proof (Z.log2_nonneg (Z.land f g)).
      exists (Z.succ (Z.log2 (Z.pred (- Z.land f g)))).
      pose proof (Z.bits_above_log2_neg (Z.land f g) (Z.succ (Z.log2 (Z.pred (- Z.land f g)))) ltac:(lia) ltac:(lia)) as B.
      rewrite Z.land_spec, andb_true_iff in B. pose proof (Z.log2_nonneg (Z.pred (- Z.land f g))).
      split; [lia|done].
    + pose proof (Z.bit_log2 (Z.land f g) ltac:(lia)) as B. rewrite Z.land_spec, andb_true_iff in B.
      exists (Z.log2 (Z.land f g)). split; [apply Z.log2_nonneg|done].
  - intros (i & Hi & Hf & Hg) E. apply (f_equal (fun x => Z.testbit x i)) in E.
    rewrite Z.land_spec, Hf, Hg, Z.bits_0 in E. done.
Qed.
