(* ===== verification/Opcodes.v ===== *)
(** * Opcodes (src/internal/wasm/instruction.go)

    The opcode constants of the binary format under their names in the source,
    by prefix page, and the name tables that error messages print from.  The
    string constants [OpcodeXName] of the source are inlined in the tables.  A
    [byte] is a [Z] below 256. *)

From S2P Require Import Prelude.


(** ** Single-byte opcodes *)

Definition OpcodeUnreachable : Z := 0x00.
Definition OpcodeNop : Z := 0x01.
Definition OpcodeBlock : Z := 0x02.
Definition OpcodeLoop : Z := 0x03.
Definition OpcodeIf : Z := 0x04.
Definition OpcodeElse : Z := 0x05.
Definition OpcodeThrow : Z := 0x08.
Definition OpcodeThrowRef : Z := 0x0a.
Definition OpcodeLegacyTry : Z := 0x06.
Definition OpcodeLegacyCatch : Z := 0x07.
Definition OpcodeLegacyRethrow : Z := 0x09.
Definition OpcodeEnd : Z := 0x0b.
Definition OpcodeBr : Z := 0x0c.
Definition OpcodeBrIf : Z := 0x0d.
Definition OpcodeBrTable : Z := 0x0e.
Definition OpcodeReturn : Z := 0x0f.
Definition OpcodeCall : Z := 0x10.
Definition OpcodeCallIndirect : Z := 0x11.
Definition OpcodeDrop : Z := 0x1a.
Definition OpcodeSelect : Z := 0x1b.
Definition OpcodeTypedSelect : Z := 0x1c.
Definition OpcodeLegacyDelegate : Z := 0x18.
Definition OpcodeLegacyCatchAll : Z := 0x19.
Definition OpcodeTryTable : Z := 0x1f.
Definition OpcodeLocalGet : Z := 0x20.
Definition OpcodeLocalSet : Z := 0x21.
Definition OpcodeLocalTee : Z := 0x22.
Definition OpcodeGlobalGet : Z := 0x23.
Definition OpcodeGlobalSet : Z := 0x24.
Definition OpcodeTableGet : Z := 0x25.
Definition OpcodeTableSet : Z := 0x26.
Definition OpcodeI32Load : Z := 0x28.
Definition OpcodeI64Load : Z := 0x29.
Definition OpcodeF32Load : Z := 0x2a.
Definition OpcodeF64Load : Z := 0x2b.
Definition OpcodeI32Load8S : Z := 0x2c.
Definition OpcodeI32Load8U : Z := 0x2d.
Definition OpcodeI32Load16S : Z := 0x2e.
Definition OpcodeI32Load16U : Z := 0x2f.
Definition OpcodeI64Load8S : Z := 0x30.
Definition OpcodeI64Load8U : Z := 0x31.
Definition OpcodeI64Load16S : Z := 0x32.
Definition OpcodeI64Load16U : Z := 0x33.
Definition OpcodeI64Load32S : Z := 0x34.
Definition OpcodeI64Load32U : Z := 0x35.
Definition OpcodeI32Store : Z := 0x36.
Definition OpcodeI64Store : Z := 0x37.
Definition OpcodeF32Store : Z := 0x38.
Definition OpcodeF64Store : Z := 0x39.
Definition OpcodeI32Store8 : Z := 0x3a.
Definition OpcodeI32Store16 : Z := 0x3b.
Definition OpcodeI64Store8 : Z := 0x3c.
Definition OpcodeI64Store16 : Z := 0x3d.
Definition OpcodeI64Store32 : Z := 0x3e.
Definition OpcodeMemorySize : Z := 0x3f.
Definition OpcodeMemoryGrow : Z := 0x40.
Definition OpcodeI32Const : Z := 0x41.
Definition OpcodeI64Const : Z := 0x42.
Definition OpcodeF32Const : Z := 0x43.
Definition OpcodeF64Const : Z := 0x44.
Definition OpcodeI32Eqz : Z := 0x45.
Definition OpcodeI32Eq : Z := 0x46.
Definition OpcodeI32Ne : Z := 0x47.
Definition OpcodeI32LtS : Z := 0x48.
Definition OpcodeI32LtU : Z := 0x49.
Definition OpcodeI32GtS : Z := 0x4a.
Definition OpcodeI32GtU : Z := 0x4b.
Definition OpcodeI32LeS : Z := 0x4c.
Definition OpcodeI32LeU : Z := 0x4d.
Definition OpcodeI32GeS : Z := 0x4e.
Definition OpcodeI32GeU : Z := 0x4f.
Definition OpcodeI64Eqz : Z := 0x50.
Definition OpcodeI64Eq : Z := 0x51.
Definition OpcodeI64Ne : Z := 0x52.
Definition OpcodeI64LtS : Z := 0x53.
Definition OpcodeI64LtU : Z := 0x54.
Definition OpcodeI64GtS : Z := 0x55.
Definition OpcodeI64GtU : Z := 0x56.
Definition OpcodeI64LeS : Z := 0x57.
Definition OpcodeI64LeU : Z := 0x58.
Definition OpcodeI64GeS : Z := 0x59.
Definition OpcodeI64GeU : Z := 0x5a.
Definition OpcodeF32Eq : Z := 0x5b.
Definition OpcodeF32Ne : Z := 0x5c.
Definition OpcodeF32Lt : Z := 0x5d.
Definition OpcodeF32Gt : Z := 0x5e.
Definition OpcodeF32Le : Z := 0x5f.
Definition OpcodeF32Ge : Z := 0x60.
Definition OpcodeF64Eq : Z := 0x61.
Definition OpcodeF64Ne : Z := 0x62.
Definition OpcodeF64Lt : Z := 0x63.
Definition OpcodeF64Gt : Z := 0x64.
Definition OpcodeF64Le : Z := 0x65.
Definition OpcodeF64Ge : Z := 0x66.
Definition OpcodeI32Clz : Z := 0x67.
Definition OpcodeI32Ctz : Z := 0x68.
Definition OpcodeI32Popcnt : Z := 0x69.
Definition OpcodeI32Add : Z := 0x6a.
Definition OpcodeI32Sub : Z := 0x6b.
Definition OpcodeI32Mul : Z := 0x6c.
Definition OpcodeI32DivS : Z := 0x6d.
Definition OpcodeI32DivU : Z := 0x6e.
Definition OpcodeI32RemS : Z := 0x6f.
Definition OpcodeI32RemU : Z := 0x70.
Definition OpcodeI32And : Z := 0x71.
Definition OpcodeI32Or : Z := 0x72.
Definition OpcodeI32Xor : Z := 0x73.
Definition OpcodeI32Shl : Z := 0x74.
Definition OpcodeI32ShrS : Z := 0x75.
Definition OpcodeI32ShrU : Z := 0x76.
Definition OpcodeI32Rotl : Z := 0x77.
Definition OpcodeI32Rotr : Z := 0x78.
Definition OpcodeI64Clz : Z := 0x79.
Definition OpcodeI64Ctz : Z := 0x7a.
Definition OpcodeI64Popcnt : Z := 0x7b.
Definition OpcodeI64Add : Z := 0x7c.
Definition OpcodeI64Sub : Z := 0x7d.
Definition OpcodeI64Mul : Z := 0x7e.
Definition OpcodeI64DivS : Z := 0x7f.
Definition OpcodeI64DivU : Z := 0x80.
Definition OpcodeI64RemS : Z := 0x81.
Definition OpcodeI64RemU : Z := 0x82.
Definition OpcodeI64And : Z := 0x83.
Definition OpcodeI64Or : Z := 0x84.
Definition OpcodeI64Xor : Z := 0x85.
Definition OpcodeI64Shl : Z := 0x86.
Definition OpcodeI64ShrS : Z := 0x87.
Definition OpcodeI64ShrU : Z := 0x88.
Definition OpcodeI64Rotl : Z := 0x89.
Definition OpcodeI64Rotr : Z := 0x8a.
Definition OpcodeF32Abs : Z := 0x8b.
Definition OpcodeF32Neg : Z := 0x8c.
Definition OpcodeF32Ceil : Z := 0x8d.
Definition OpcodeF32Floor : Z := 0x8e.
Definition OpcodeF32Trunc : Z := 0x8f.
Definition OpcodeF32Nearest : Z := 0x90.
Definition OpcodeF32Sqrt : Z := 0x91.
Definition OpcodeF32Add : Z := 0x92.
Definition OpcodeF32Sub : Z := 0x93.
Definition OpcodeF32Mul : Z := 0x94.
Definition OpcodeF32Div : Z := 0x95.
Definition OpcodeF32Min : Z := 0x96.
Definition OpcodeF32Max : Z := 0x97.
Definition OpcodeF32Copysign : Z := 0x98.
Definition OpcodeF64Abs : Z := 0x99.
Definition OpcodeF64Neg : Z := 0x9a.
Definition OpcodeF64Ceil : Z := 0x9b.
Definition OpcodeF64Floor : Z := 0x9c.
Definition OpcodeF64Trunc : Z := 0x9d.
Definition OpcodeF64Nearest : Z := 0x9e.
Definition OpcodeF64Sqrt : Z := 0x9f.
Definition OpcodeF64Add : Z := 0xa0.
Definition OpcodeF64Sub : Z := 0xa1.
Definition OpcodeF64Mul : Z := 0xa2.
Definition OpcodeF64Div : Z := 0xa3.
Definition OpcodeF64Min : Z := 0xa4.
Definition OpcodeF64Max : Z := 0xa5.
Definition OpcodeF64Copysign : Z := 0xa6.
Definition OpcodeI32WrapI64 : Z := 0xa7.
Definition OpcodeI32TruncF32S : Z := 0xa8.
Definition OpcodeI32TruncF32U : Z := 0xa9.
Definition OpcodeI32TruncF64S : Z := 0xaa.
Definition OpcodeI32TruncF64U : Z := 0xab.
Definition OpcodeI64ExtendI32S : Z := 0xac.
Definition OpcodeI64ExtendI32U : Z := 0xad.
Definition OpcodeI64TruncF32S : Z := 0xae.
Definition OpcodeI64TruncF32U : Z := 0xaf.
Definition OpcodeI64TruncF64S : Z := 0xb0.
Definition OpcodeI64TruncF64U : Z := 0xb1.
Definition OpcodeF32ConvertI32S : Z := 0xb2.
Definition OpcodeF32ConvertI32U : Z := 0xb3.
Definition OpcodeF32ConvertI64S : Z := 0xb4.
Definition OpcodeF32ConvertI64U : Z := 0xb5.
Definition OpcodeF32DemoteF64 : Z := 0xb6.
Definition OpcodeF64ConvertI32S : Z := 0xb7.
Definition OpcodeF64ConvertI32U : Z := 0xb8.
Definition OpcodeF64ConvertI64S : Z := 0xb9.
Definition OpcodeF64ConvertI64U : Z := 0xba.
Definition OpcodeF64PromoteF32 : Z := 0xbb.
Definition OpcodeI32ReinterpretF32 : Z := 0xbc.
Definition OpcodeI64ReinterpretF64 : Z := 0xbd.
Definition OpcodeF32ReinterpretI32 : Z := 0xbe.
Definition OpcodeF64ReinterpretI64 : Z := 0xbf.
Definition OpcodeRefNull : Z := 0xd0.
Definition OpcodeRefIsNull : Z := 0xd1.
Definition OpcodeRefFunc : Z := 0xd2.
Definition OpcodeRefAsNonNull : Z := 0xd4.
Definition OpcodeBrOnNull : Z := 0xd5.
Definition OpcodeBrOnNonNull : Z := 0xd6.
Definition OpcodeI32Extend8S : Z := 0xc0.
Definition OpcodeI32Extend16S : Z := 0xc1.
Definition OpcodeI64Extend8S : Z := 0xc2.
Definition OpcodeI64Extend16S : Z := 0xc3.
Definition OpcodeI64Extend32S : Z := 0xc4.
Definition OpcodeMiscPrefix : Z := 0xfc.
Definition OpcodeVecPrefix : Z := 0xfd.
Definition OpcodeAtomicPrefix : Z := 0xfe.

(** ** Miscellaneous opcodes, after the prefix 0xfc *)

Definition OpcodeMiscI32TruncSatF32S : Z := 0x00.
Definition OpcodeMiscI32TruncSatF32U : Z := 0x01.
Definition OpcodeMiscI32TruncSatF64S : Z := 0x02.
Definition OpcodeMiscI32TruncSatF64U : Z := 0x03.
Definition OpcodeMiscI64TruncSatF32S : Z := 0x04.
Definition OpcodeMiscI64TruncSatF32U : Z := 0x05.
Definition OpcodeMiscI64TruncSatF64S : Z := 0x06.
Definition OpcodeMiscI64TruncSatF64U : Z := 0x07.
Definition OpcodeMiscMemoryInit : Z := 0x08.
Definition OpcodeMiscDataDrop : Z := 0x09.
Definition OpcodeMiscMemoryCopy : Z := 0x0a.
Definition OpcodeMiscMemoryFill : Z := 0x0b.
Definition OpcodeMiscTableInit : Z := 0x0c.
Definition OpcodeMiscElemDrop : Z := 0x0d.
Definition OpcodeMiscTableCopy : Z := 0x0e.
Definition OpcodeMiscTableGrow : Z := 0x0f.
Definition OpcodeMiscTableSize : Z := 0x10.
Definition OpcodeMiscTableFill : Z := 0x11.

(** ** Vector opcodes, after the prefix 0xfd *)

Definition OpcodeVecV128Load : Z := 0x00.
Definition OpcodeVecV128Load8x8s : Z := 0x01.
Definition OpcodeVecV128Load8x8u : Z := 0x02.
Definition OpcodeVecV128Load16x4s : Z := 0x03.
Definition OpcodeVecV128Load16x4u : Z := 0x04.
Definition OpcodeVecV128Load32x2s : Z := 0x05.
Definition OpcodeVecV128Load32x2u : Z := 0x06.
Definition OpcodeVecV128Load8Splat : Z := 0x07.
Definition OpcodeVecV128Load16Splat : Z := 0x08.
Definition OpcodeVecV128Load32Splat : Z := 0x09.
Definition OpcodeVecV128Load64Splat : Z := 0x0a.
Definition OpcodeVecV128Load32zero : Z := 0x5c.
Definition OpcodeVecV128Load64zero : Z := 0x5d.
Definition OpcodeVecV128Store : Z := 0x0b.
Definition OpcodeVecV128Load8Lane : Z := 0x54.
Definition OpcodeVecV128Load16Lane : Z := 0x55.
Definition OpcodeVecV128Load32Lane : Z := 0x56.
Definition OpcodeVecV128Load64Lane : Z := 0x57.
Definition OpcodeVecV128Store8Lane : Z := 0x58.
Definition OpcodeVecV128Store16Lane : Z := 0x59.
Definition OpcodeVecV128Store32Lane : Z := 0x5a.
Definition OpcodeVecV128Store64Lane : Z := 0x5b.
Definition OpcodeVecV128Const : Z := 0x0c.
Definition OpcodeVecV128i8x16Shuffle : Z := 0x0d.
Definition OpcodeVecI8x16ExtractLaneS : Z := 0x15.
Definition OpcodeVecI8x16ExtractLaneU : Z := 0x16.
Definition OpcodeVecI8x16ReplaceLane : Z := 0x17.
Definition OpcodeVecI16x8ExtractLaneS : Z := 0x18.
Definition OpcodeVecI16x8ExtractLaneU : Z := 0x19.
Definition OpcodeVecI16x8ReplaceLane : Z := 0x1a.
Definition OpcodeVecI32x4ExtractLane : Z := 0x1b.
Definition OpcodeVecI32x4ReplaceLane : Z := 0x1c.
Definition OpcodeVecI64x2ExtractLane : Z := 0x1d.
Definition OpcodeVecI64x2ReplaceLane : Z := 0x1e.
Definition OpcodeVecF32x4ExtractLane : Z := 0x1f.
Definition OpcodeVecF32x4ReplaceLane : Z := 0x20.
Definition OpcodeVecF64x2ExtractLane : Z := 0x21.
Definition OpcodeVecF64x2ReplaceLane : Z := 0x22.
Definition OpcodeVecI8x16Swizzle : Z := 0x0e.
Definition OpcodeVecI8x16Splat : Z := 0x0f.
Definition OpcodeVecI16x8Splat : Z := 0x10.
Definition OpcodeVecI32x4Splat : Z := 0x11.
Definition OpcodeVecI64x2Splat : Z := 0x12.
Definition OpcodeVecF32x4Splat : Z := 0x13.
Definition OpcodeVecF64x2Splat : Z := 0x14.
Definition OpcodeVecI8x16Eq : Z := 0x23.
Definition OpcodeVecI8x16Ne : Z := 0x24.
Definition OpcodeVecI8x16LtS : Z := 0x25.
Definition OpcodeVecI8x16LtU : Z := 0x26.
Definition OpcodeVecI8x16GtS : Z := 0x27.
Definition OpcodeVecI8x16GtU : Z := 0x28.
Definition OpcodeVecI8x16LeS : Z := 0x29.
Definition OpcodeVecI8x16LeU : Z := 0x2a.
Definition OpcodeVecI8x16GeS : Z := 0x2b.
Definition OpcodeVecI8x16GeU : Z := 0x2c.
Definition OpcodeVecI16x8Eq : Z := 0x2d.
Definition OpcodeVecI16x8Ne : Z := 0x2e.
Definition OpcodeVecI16x8LtS : Z := 0x2f.
Definition OpcodeVecI16x8LtU : Z := 0x30.
Definition OpcodeVecI16x8GtS : Z := 0x31.
Definition OpcodeVecI16x8GtU : Z := 0x32.
Definition OpcodeVecI16x8LeS : Z := 0x33.
Definition OpcodeVecI16x8LeU : Z := 0x34.
Definition OpcodeVecI16x8GeS : Z := 0x35.
Definition OpcodeVecI16x8GeU : Z := 0x36.
Definition OpcodeVecI32x4Eq : Z := 0x37.
Definition OpcodeVecI32x4Ne : Z := 0x38.
Definition OpcodeVecI32x4LtS : Z := 0x39.
Definition OpcodeVecI32x4LtU : Z := 0x3a.
Definition OpcodeVecI32x4GtS : Z := 0x3b.
Definition OpcodeVecI32x4GtU : Z := 0x3c.
Definition OpcodeVecI32x4LeS : Z := 0x3d.
Definition OpcodeVecI32x4LeU : Z := 0x3e.
Definition OpcodeVecI32x4GeS : Z := 0x3f.
Definition OpcodeVecI32x4GeU : Z := 0x40.
Definition OpcodeVecI64x2Eq : Z := 0xd6.
Definition OpcodeVecI64x2Ne : Z := 0xd7.
Definition OpcodeVecI64x2LtS : Z := 0xd8.
Definition OpcodeVecI64x2GtS : Z := 0xd9.
Definition OpcodeVecI64x2LeS : Z := 0xda.
Definition OpcodeVecI64x2GeS : Z := 0xdb.
Definition OpcodeVecF32x4Eq : Z := 0x41.
Definition OpcodeVecF32x4Ne : Z := 0x42.
Definition OpcodeVecF32x4Lt : Z := 0x43.
Definition OpcodeVecF32x4Gt : Z := 0x44.
Definition OpcodeVecF32x4Le : Z := 0x45.
Definition OpcodeVecF32x4Ge : Z := 0x46.
Definition OpcodeVecF64x2Eq : Z := 0x47.
Definition OpcodeVecF64x2Ne : Z := 0x48.
Definition OpcodeVecF64x2Lt : Z := 0x49.
Definition OpcodeVecF64x2Gt : Z := 0x4a.
Definition OpcodeVecF64x2Le : Z := 0x4b.
Definition OpcodeVecF64x2Ge : Z := 0x4c.
Definition OpcodeVecV128Not : Z := 0x4d.
Definition OpcodeVecV128And : Z := 0x4e.
Definition OpcodeVecV128AndNot : Z := 0x4f.
Definition OpcodeVecV128Or : Z := 0x50.
Definition OpcodeVecV128Xor : Z := 0x51.
Definition OpcodeVecV128Bitselect : Z := 0x52.
Definition OpcodeVecV128AnyTrue : Z := 0x53.
Definition OpcodeVecI8x16Abs : Z := 0x60.
Definition OpcodeVecI8x16Neg : Z := 0x61.
Definition OpcodeVecI8x16Popcnt : Z := 0x62.
Definition OpcodeVecI8x16AllTrue : Z := 0x63.
Definition OpcodeVecI8x16BitMask : Z := 0x64.
Definition OpcodeVecI8x16NarrowI16x8S : Z := 0x65.
Definition OpcodeVecI8x16NarrowI16x8U : Z := 0x66.
Definition OpcodeVecI8x16Shl : Z := 0x6b.
Definition OpcodeVecI8x16ShrS : Z := 0x6c.
Definition OpcodeVecI8x16ShrU : Z := 0x6d.
Definition OpcodeVecI8x16Add : Z := 0x6e.
Definition OpcodeVecI8x16AddSatS : Z := 0x6f.
Definition OpcodeVecI8x16AddSatU : Z := 0x70.
Definition OpcodeVecI8x16Sub : Z := 0x71.
Definition OpcodeVecI8x16SubSatS : Z := 0x72.
Definition OpcodeVecI8x16SubSatU : Z := 0x73.
Definition OpcodeVecI8x16MinS : Z := 0x76.
Definition OpcodeVecI8x16MinU : Z := 0x77.
Definition OpcodeVecI8x16MaxS : Z := 0x78.
Definition OpcodeVecI8x16MaxU : Z := 0x79.
Definition OpcodeVecI8x16AvgrU : Z := 0x7b.
Definition OpcodeVecI16x8ExtaddPairwiseI8x16S : Z := 0x7c.
Definition OpcodeVecI16x8ExtaddPairwiseI8x16U : Z := 0x7d.
Definition OpcodeVecI16x8Abs : Z := 0x80.
Definition OpcodeVecI16x8Neg : Z := 0x81.
Definition OpcodeVecI16x8Q15mulrSatS : Z := 0x82.
Definition OpcodeVecI16x8AllTrue : Z := 0x83.
Definition OpcodeVecI16x8BitMask : Z := 0x84.
Definition OpcodeVecI16x8NarrowI32x4S : Z := 0x85.
Definition OpcodeVecI16x8NarrowI32x4U : Z := 0x86.
Definition OpcodeVecI16x8ExtendLowI8x16S : Z := 0x87.
Definition OpcodeVecI16x8ExtendHighI8x16S : Z := 0x88.
Definition OpcodeVecI16x8ExtendLowI8x16U : Z := 0x89.
Definition OpcodeVecI16x8ExtendHighI8x16U : Z := 0x8a.
Definition OpcodeVecI16x8Shl : Z := 0x8b.
Definition OpcodeVecI16x8ShrS : Z := 0x8c.
Definition OpcodeVecI16x8ShrU : Z := 0x8d.
Definition OpcodeVecI16x8Add : Z := 0x8e.
Definition OpcodeVecI16x8AddSatS : Z := 0x8f.
Definition OpcodeVecI16x8AddSatU : Z := 0x90.
Definition OpcodeVecI16x8Sub : Z := 0x91.
Definition OpcodeVecI16x8SubSatS : Z := 0x92.
Definition OpcodeVecI16x8SubSatU : Z := 0x93.
Definition OpcodeVecI16x8Mul : Z := 0x95.
Definition OpcodeVecI16x8MinS : Z := 0x96.
Definition OpcodeVecI16x8MinU : Z := 0x97.
Definition OpcodeVecI16x8MaxS : Z := 0x98.
Definition OpcodeVecI16x8MaxU : Z := 0x99.
Definition OpcodeVecI16x8AvgrU : Z := 0x9b.
Definition OpcodeVecI16x8ExtMulLowI8x16S : Z := 0x9c.
Definition OpcodeVecI16x8ExtMulHighI8x16S : Z := 0x9d.
Definition OpcodeVecI16x8ExtMulLowI8x16U : Z := 0x9e.
Definition OpcodeVecI16x8ExtMulHighI8x16U : Z := 0x9f.
Definition OpcodeVecI32x4ExtaddPairwiseI16x8S : Z := 0x7e.
Definition OpcodeVecI32x4ExtaddPairwiseI16x8U : Z := 0x7f.
Definition OpcodeVecI32x4Abs : Z := 0xa0.
Definition OpcodeVecI32x4Neg : Z := 0xa1.
Definition OpcodeVecI32x4AllTrue : Z := 0xa3.
Definition OpcodeVecI32x4BitMask : Z := 0xa4.
Definition OpcodeVecI32x4ExtendLowI16x8S : Z := 0xa7.
Definition OpcodeVecI32x4ExtendHighI16x8S : Z := 0xa8.
Definition OpcodeVecI32x4ExtendLowI16x8U : Z := 0xa9.
Definition OpcodeVecI32x4ExtendHighI16x8U : Z := 0xaa.
Definition OpcodeVecI32x4Shl : Z := 0xab.
Definition OpcodeVecI32x4ShrS : Z := 0xac.
Definition OpcodeVecI32x4ShrU : Z := 0xad.
Definition OpcodeVecI32x4Add : Z := 0xae.
Definition OpcodeVecI32x4Sub : Z := 0xb1.
Definition OpcodeVecI32x4Mul : Z := 0xb5.
Definition OpcodeVecI32x4MinS : Z := 0xb6.
Definition OpcodeVecI32x4MinU : Z := 0xb7.
Definition OpcodeVecI32x4MaxS : Z := 0xb8.
Definition OpcodeVecI32x4MaxU : Z := 0xb9.
Definition OpcodeVecI32x4DotI16x8S : Z := 0xba.
Definition OpcodeVecI32x4ExtMulLowI16x8S : Z := 0xbc.
Definition OpcodeVecI32x4ExtMulHighI16x8S : Z := 0xbd.
Definition OpcodeVecI32x4ExtMulLowI16x8U : Z := 0xbe.
Definition OpcodeVecI32x4ExtMulHighI16x8U : Z := 0xbf.
Definition OpcodeVecI64x2Abs : Z := 0xc0.
Definition OpcodeVecI64x2Neg : Z := 0xc1.
Definition OpcodeVecI64x2AllTrue : Z := 0xc3.
Definition OpcodeVecI64x2BitMask : Z := 0xc4.
Definition OpcodeVecI64x2ExtendLowI32x4S : Z := 0xc7.
Definition OpcodeVecI64x2ExtendHighI32x4S : Z := 0xc8.
Definition OpcodeVecI64x2ExtendLowI32x4U : Z := 0xc9.
Definition OpcodeVecI64x2ExtendHighI32x4U : Z := 0xca.
Definition OpcodeVecI64x2Shl : Z := 0xcb.
Definition OpcodeVecI64x2ShrS : Z := 0xcc.
Definition OpcodeVecI64x2ShrU : Z := 0xcd.
Definition OpcodeVecI64x2Add : Z := 0xce.
Definition OpcodeVecI64x2Sub : Z := 0xd1.
Definition OpcodeVecI64x2Mul : Z := 0xd5.
Definition OpcodeVecI64x2ExtMulLowI32x4S : Z := 0xdc.
Definition OpcodeVecI64x2ExtMulHighI32x4S : Z := 0xdd.
Definition OpcodeVecI64x2ExtMulLowI32x4U : Z := 0xde.
Definition OpcodeVecI64x2ExtMulHighI32x4U : Z := 0xdf.
Definition OpcodeVecF32x4Ceil : Z := 0x67.
Definition OpcodeVecF32x4Floor : Z := 0x68.
Definition OpcodeVecF32x4Trunc : Z := 0x69.
Definition OpcodeVecF32x4Nearest : Z := 0x6a.
Definition OpcodeVecF32x4Abs : Z := 0xe0.
Definition OpcodeVecF32x4Neg : Z := 0xe1.
Definition OpcodeVecF32x4Sqrt : Z := 0xe3.
Definition OpcodeVecF32x4Add : Z := 0xe4.
Definition OpcodeVecF32x4Sub : Z := 0xe5.
Definition OpcodeVecF32x4Mul : Z := 0xe6.
Definition OpcodeVecF32x4Div : Z := 0xe7.
Definition OpcodeVecF32x4Min : Z := 0xe8.
Definition OpcodeVecF32x4Max : Z := 0xe9.
Definition OpcodeVecF32x4Pmin : Z := 0xea.
Definition OpcodeVecF32x4Pmax : Z := 0xeb.
Definition OpcodeVecF64x2Ceil : Z := 0x74.
Definition OpcodeVecF64x2Floor : Z := 0x75.
Definition OpcodeVecF64x2Trunc : Z := 0x7a.
Definition OpcodeVecF64x2Nearest : Z := 0x94.
Definition OpcodeVecF64x2Abs : Z := 0xec.
Definition OpcodeVecF64x2Neg : Z := 0xed.
Definition OpcodeVecF64x2Sqrt : Z := 0xef.
Definition OpcodeVecF64x2Add : Z := 0xf0.
Definition OpcodeVecF64x2Sub : Z := 0xf1.
Definition OpcodeVecF64x2Mul : Z := 0xf2.
Definition OpcodeVecF64x2Div : Z := 0xf3.
Definition OpcodeVecF64x2Min : Z := 0xf4.
Definition OpcodeVecF64x2Max : Z := 0xf5.
Definition OpcodeVecF64x2Pmin : Z := 0xf6.
Definition OpcodeVecF64x2Pmax : Z := 0xf7.
Definition OpcodeVecI32x4TruncSatF32x4S : Z := 0xf8.
Definition OpcodeVecI32x4TruncSatF32x4U : Z := 0xf9.
Definition OpcodeVecF32x4ConvertI32x4S : Z := 0xfa.
Definition OpcodeVecF32x4ConvertI32x4U : Z := 0xfb.
Definition OpcodeVecI32x4TruncSatF64x2SZero : Z := 0xfc.
Definition OpcodeVecI32x4TruncSatF64x2UZero : Z := 0xfd.
Definition OpcodeVecF64x2ConvertLowI32x4S : Z := 0xfe.
Definition OpcodeVecF64x2ConvertLowI32x4U : Z := 0xff.
Definition OpcodeVecF32x4DemoteF64x2Zero : Z := 0x5e.
Definition OpcodeVecF64x2PromoteLowF32x4Zero : Z := 0x5f.

(** ** Atomic opcodes, after the prefix 0xfe *)

Definition OpcodeAtomicMemoryNotify : Z := 0x00.
Definition OpcodeAtomicMemoryWait32 : Z := 0x01.
Definition OpcodeAtomicMemoryWait64 : Z := 0x02.
Definition OpcodeAtomicFence : Z := 0x03.
Definition OpcodeAtomicI32Load : Z := 0x10.
Definition OpcodeAtomicI64Load : Z := 0x11.
Definition OpcodeAtomicI32Load8U : Z := 0x12.
Definition OpcodeAtomicI32Load16U : Z := 0x13.
Definition OpcodeAtomicI64Load8U : Z := 0x14.
Definition OpcodeAtomicI64Load16U : Z := 0x15.
Definition OpcodeAtomicI64Load32U : Z := 0x16.
Definition OpcodeAtomicI32Store : Z := 0x17.
Definition OpcodeAtomicI64Store : Z := 0x18.
Definition OpcodeAtomicI32Store8 : Z := 0x19.
Definition OpcodeAtomicI32Store16 : Z := 0x1a.
Definition OpcodeAtomicI64Store8 : Z := 0x1b.
Definition OpcodeAtomicI64Store16 : Z := 0x1c.
Definition OpcodeAtomicI64Store32 : Z := 0x1d.
Definition OpcodeAtomicI32RmwAdd : Z := 0x1e.
Definition OpcodeAtomicI64RmwAdd : Z := 0x1f.
Definition OpcodeAtomicI32Rmw8AddU : Z := 0x20.
Definition OpcodeAtomicI32Rmw16AddU : Z := 0x21.
Definition OpcodeAtomicI64Rmw8AddU : Z := 0x22.
Definition OpcodeAtomicI64Rmw16AddU : Z := 0x23.
Definition OpcodeAtomicI64Rmw32AddU : Z := 0x24.
Definition OpcodeAtomicI32RmwSub : Z := 0x25.
Definition OpcodeAtomicI64RmwSub : Z := 0x26.
Definition OpcodeAtomicI32Rmw8SubU : Z := 0x27.
Definition OpcodeAtomicI32Rmw16SubU : Z := 0x28.
Definition OpcodeAtomicI64Rmw8SubU : Z := 0x29.
Definition OpcodeAtomicI64Rmw16SubU : Z := 0x2a.
Definition OpcodeAtomicI64Rmw32SubU : Z := 0x2b.
Definition OpcodeAtomicI32RmwAnd : Z := 0x2c.
Definition OpcodeAtomicI64RmwAnd : Z := 0x2d.
Definition OpcodeAtomicI32Rmw8AndU : Z := 0x2e.
Definition OpcodeAtomicI32Rmw16AndU : Z := 0x2f.
Definition OpcodeAtomicI64Rmw8AndU : Z := 0x30.
Definition OpcodeAtomicI64Rmw16AndU : Z := 0x31.
Definition OpcodeAtomicI64Rmw32AndU : Z := 0x32.
Definition OpcodeAtomicI32RmwOr : Z := 0x33.
Definition OpcodeAtomicI64RmwOr : Z := 0x34.
Definition OpcodeAtomicI32Rmw8OrU : Z := 0x35.
Definition OpcodeAtomicI32Rmw16OrU : Z := 0x36.
Definition OpcodeAtomicI64Rmw8OrU : Z := 0x37.
Definition OpcodeAtomicI64Rmw16OrU : Z := 0x38.
Definition OpcodeAtomicI64Rmw32OrU : Z := 0x39.
Definition OpcodeAtomicI32RmwXor : Z := 0x3a.
Definition OpcodeAtomicI64RmwXor : Z := 0x3b.
Definition OpcodeAtomicI32Rmw8XorU : Z := 0x3c.
Definition OpcodeAtomicI32Rmw16XorU : Z := 0x3d.
Definition OpcodeAtomicI64Rmw8XorU : Z := 0x3e.
Definition OpcodeAtomicI64Rmw16XorU : Z := 0x3f.
Definition OpcodeAtomicI64Rmw32XorU : Z := 0x40.
Definition OpcodeAtomicI32RmwXchg : Z := 0x41.
Definition OpcodeAtomicI64RmwXchg : Z := 0x42.
Definition OpcodeAtomicI32Rmw8XchgU : Z := 0x43.
Definition OpcodeAtomicI32Rmw16XchgU : Z := 0x44.
Definition OpcodeAtomicI64Rmw8XchgU : Z := 0x45.
Definition OpcodeAtomicI64Rmw16XchgU : Z := 0x46.
Definition OpcodeAtomicI64Rmw32XchgU : Z := 0x47.
Definition OpcodeAtomicI32RmwCmpxchg : Z := 0x48.
Definition OpcodeAtomicI64RmwCmpxchg : Z := 0x49.
Definition OpcodeAtomicI32Rmw8CmpxchgU : Z := 0x4a.
Definition OpcodeAtomicI32Rmw16CmpxchgU : Z := 0x4b.
Definition OpcodeAtomicI64Rmw8CmpxchgU : Z := 0x4c.
Definition OpcodeAtomicI64Rmw16CmpxchgU : Z := 0x4d.
Definition OpcodeAtomicI64Rmw32CmpxchgU : Z := 0x4e.

(** ** Tail calls *)

Definition OpcodeTailCallReturnCall : Z := 0x12.
Definition OpcodeTailCallReturnCallIndirect : Z := 0x13.

(** ** Typed function references *)

Definition OpcodeCallRef : Z := 0x14.
Definition OpcodeReturnCallRef : Z := 0x15.

(** ** Catch clause kinds of try_table *)

Definition CatchKindCatch : Z := 0x00.
Definition CatchKindCatchRef : Z := 0x01.
Definition CatchKindCatchAll : Z := 0x02.
Definition CatchKindCatchAllRef : Z := 0x03.

(** ** Instruction names

    A table is an array or a map from opcode to name; an opcode without entry
    reads as the empty string. *)

Definition instructionNames : list (Z * string) := [
  (OpcodeUnreachable, "unreachable");
  (OpcodeNop, "nop");
  (OpcodeBlock, "block");
  (OpcodeLoop, "loop");
  (OpcodeIf, "if");
  (OpcodeElse, "else");
  (OpcodeThrow, "throw");
  (OpcodeThrowRef, "throw_ref");
  (OpcodeEnd, "end");
  (OpcodeBr, "br");
  (OpcodeBrIf, "br_if");
  (OpcodeBrTable, "br_table");
  (OpcodeReturn, "return");
  (OpcodeCall, "call");
  (OpcodeCallIndirect, "call_indirect");
  (OpcodeTryTable, "try_table");
  (OpcodeDrop, "drop");
  (OpcodeSelect, "select");
  (OpcodeTypedSelect, "typed_select");
  (OpcodeLocalGet, "local.get");
  (OpcodeLocalSet, "local.set");
  (OpcodeLocalTee, "local.tee");
  (OpcodeGlobalGet, "global.get");
  (OpcodeGlobalSet, "global.set");
  (OpcodeI32Load, "i32.load");
  (OpcodeI64Load, "i64.load");
  (OpcodeF32Load, "f32.load");
  (OpcodeF64Load, "f64.load");
  (OpcodeI32Load8S, "i32.load8_s");
  (OpcodeI32Load8U, "i32.load8_u");
  (OpcodeI32Load16S, "i32.load16_s");
  (OpcodeI32Load16U, "i32.load16_u");
  (OpcodeI64Load8S, "i64.load8_s");
  (OpcodeI64Load8U, "i64.load8_u");
  (OpcodeI64Load16S, "i64.load16_s");
  (OpcodeI64Load16U, "i64.load16_u");
  (OpcodeI64Load32S, "i64.load32_s");
  (OpcodeI64Load32U, "i64.load32_u");
  (OpcodeI32Store, "i32.store");
  (OpcodeI64Store, "i64.store");
  (OpcodeF32Store, "f32.store");
  (OpcodeF64Store, "f64.store");
  (OpcodeI32Store8, "i32.store8");
  (OpcodeI32Store16, "i32.store16");
  (OpcodeI64Store8, "i64.store8");
  (OpcodeI64Store16, "i64.store16");
  (OpcodeI64Store32, "i64.store32");
  (OpcodeMemorySize, "memory.size");
  (OpcodeMemoryGrow, "memory.grow");
  (OpcodeI32Const, "i32.const");
  (OpcodeI64Const, "i64.const");
  (OpcodeF32Const, "f32.const");
  (OpcodeF64Const, "f64.const");
  (OpcodeI32Eqz, "i32.eqz");
  (OpcodeI32Eq, "i32.eq");
  (OpcodeI32Ne, "i32.ne");
  (OpcodeI32LtS, "i32.lt_s");
  (OpcodeI32LtU, "i32.lt_u");
  (OpcodeI32GtS, "i32.gt_s");
  (OpcodeI32GtU, "i32.gt_u");
  (OpcodeI32LeS, "i32.le_s");
  (OpcodeI32LeU, "i32.le_u");
  (OpcodeI32GeS, "i32.ge_s");
  (OpcodeI32GeU, "i32.ge_u");
  (OpcodeI64Eqz, "i64.eqz");
  (OpcodeI64Eq, "i64.eq");
  (OpcodeI64Ne, "i64.ne");
  (OpcodeI64LtS, "i64.lt_s");
  (OpcodeI64LtU, "i64.lt_u");
  (OpcodeI64GtS, "i64.gt_s");
  (OpcodeI64GtU, "i64.gt_u");
  (OpcodeI64LeS, "i64.le_s");
  (OpcodeI64LeU, "i64.le_u");
  (OpcodeI64GeS, "i64.ge_s");
  (OpcodeI64GeU, "i64.ge_u");
  (OpcodeF32Eq, "f32.eq");
  (OpcodeF32Ne, "f32.ne");
  (OpcodeF32Lt, "f32.lt");
  (OpcodeF32Gt, "f32.gt");
  (OpcodeF32Le, "f32.le");
  (OpcodeF32Ge, "f32.ge");
  (OpcodeF64Eq, "f64.eq");
  (OpcodeF64Ne, "f64.ne");
  (OpcodeF64Lt, "f64.lt");
  (OpcodeF64Gt, "f64.gt");
  (OpcodeF64Le, "f64.le");
  (OpcodeF64Ge, "f64.ge");
  (OpcodeI32Clz, "i32.clz");
  (OpcodeI32Ctz, "i32.ctz");
  (OpcodeI32Popcnt, "i32.popcnt");
  (OpcodeI32Add, "i32.add");
  (OpcodeI32Sub, "i32.sub");
  (OpcodeI32Mul, "i32.mul");
  (OpcodeI32DivS, "i32.div_s");
  (OpcodeI32DivU, "i32.div_u");
  (OpcodeI32RemS, "i32.rem_s");
  (OpcodeI32RemU, "i32.rem_u");
  (OpcodeI32And, "i32.and");
  (OpcodeI32Or, "i32.or");
  (OpcodeI32Xor, "i32.xor");
  (OpcodeI32Shl, "i32.shl");
  (OpcodeI32ShrS, "i32.shr_s");
  (OpcodeI32ShrU, "i32.shr_u");
  (OpcodeI32Rotl, "i32.rotl");
  (OpcodeI32Rotr, "i32.rotr");
  (OpcodeI64Clz, "i64.clz");
  (OpcodeI64Ctz, "i64.ctz");
  (OpcodeI64Popcnt, "i64.popcnt");
  (OpcodeI64Add, "i64.add");
  (OpcodeI64Sub, "i64.sub");
  (OpcodeI64Mul, "i64.mul");
  (OpcodeI64DivS, "i64.div_s");
  (OpcodeI64DivU, "i64.div_u");
  (OpcodeI64RemS, "i64.rem_s");
  (OpcodeI64RemU, "i64.rem_u");
  (OpcodeI64And, "i64.and");
  (OpcodeI64Or, "i64.or");
  (OpcodeI64Xor, "i64.xor");
  (OpcodeI64Shl, "i64.shl");
  (OpcodeI64ShrS, "i64.shr_s");
  (OpcodeI64ShrU, "i64.shr_u");
  (OpcodeI64Rotl, "i64.rotl");
  (OpcodeI64Rotr, "i64.rotr");
  (OpcodeF32Abs, "f32.abs");
  (OpcodeF32Neg, "f32.neg");
  (OpcodeF32Ceil, "f32.ceil");
  (OpcodeF32Floor, "f32.floor");
  (OpcodeF32Trunc, "f32.trunc");
  (OpcodeF32Nearest, "f32.nearest");
  (OpcodeF32Sqrt, "f32.sqrt");
  (OpcodeF32Add, "f32.add");
  (OpcodeF32Sub, "f32.sub");
  (OpcodeF32Mul, "f32.mul");
  (OpcodeF32Div, "f32.div");
  (OpcodeF32Min, "f32.min");
  (OpcodeF32Max, "f32.max");
  (OpcodeF32Copysign, "f32.copysign");
  (OpcodeF64Abs, "f64.abs");
  (OpcodeF64Neg, "f64.neg");
  (OpcodeF64Ceil, "f64.ceil");
  (OpcodeF64Floor, "f64.floor");
  (OpcodeF64Trunc, "f64.trunc");
  (OpcodeF64Nearest, "f64.nearest");
  (OpcodeF64Sqrt, "f64.sqrt");
  (OpcodeF64Add, "f64.add");
  (OpcodeF64Sub, "f64.sub");
  (OpcodeF64Mul, "f64.mul");
  (OpcodeF64Div, "f64.div");
  (OpcodeF64Min, "f64.min");
  (OpcodeF64Max, "f64.max");
  (OpcodeF64Copysign, "f64.copysign");
  (OpcodeI32WrapI64, "i32.wrap_i64");
  (OpcodeI32TruncF32S, "i32.trunc_f32_s");
  (OpcodeI32TruncF32U, "i32.trunc_f32_u");
  (OpcodeI32TruncF64S, "i32.trunc_f64_s");
  (OpcodeI32TruncF64U, "i32.trunc_f64_u");
  (OpcodeI64ExtendI32S, "i64.extend_i32_s");
  (OpcodeI64ExtendI32U, "i64.extend_i32_u");
  (OpcodeI64TruncF32S, "i64.trunc_f32_s");
  (OpcodeI64TruncF32U, "i64.trunc_f32_u");
  (OpcodeI64TruncF64S, "i64.trunc_f64_s");
  (OpcodeI64TruncF64U, "i64.trunc_f64_u");
  (OpcodeF32ConvertI32S, "f32.convert_i32_s");
  (OpcodeF32ConvertI32U, "f32.convert_i32_u");
  (OpcodeF32ConvertI64S, "f32.convert_i64_s");
  (OpcodeF32ConvertI64U, "f32.convert_i64u");
  (OpcodeF32DemoteF64, "f32.demote_f64");
  (OpcodeF64ConvertI32S, "f64.convert_i32_s");
  (OpcodeF64ConvertI32U, "f64.convert_i32_u");
  (OpcodeF64ConvertI64S, "f64.convert_i64_s");
  (OpcodeF64ConvertI64U, "f64.convert_i64_u");
  (OpcodeF64PromoteF32, "f64.promote_f32");
  (OpcodeI32ReinterpretF32, "i32.reinterpret_f32");
  (OpcodeI64ReinterpretF64, "i64.reinterpret_f64");
  (OpcodeF32ReinterpretI32, "f32.reinterpret_i32");
  (OpcodeF64ReinterpretI64, "f64.reinterpret_i64");
  (OpcodeRefNull, "ref.null");
  (OpcodeRefIsNull, "ref.is_null");
  (OpcodeRefFunc, "ref.func");
  (OpcodeRefAsNonNull, "ref.as_non_null");
  (OpcodeBrOnNull, "br_on_null");
  (OpcodeBrOnNonNull, "br_on_non_null");
  (OpcodeCallRef, "call_ref");
  (OpcodeReturnCallRef, "return_call_ref");
  (OpcodeTableGet, "table.get");
  (OpcodeTableSet, "table.set");
  (OpcodeI32Extend8S, "i32.extend8_s");
  (OpcodeI32Extend16S, "i32.extend16_s");
  (OpcodeI64Extend8S, "i64.extend8_s");
  (OpcodeI64Extend16S, "i64.extend16_s");
  (OpcodeI64Extend32S, "i64.extend32_s");
  (OpcodeMiscPrefix, "misc_prefix");
  (OpcodeVecPrefix, "vector_prefix")
].

Definition miscInstructionNames : list (Z * string) := [
  (OpcodeMiscI32TruncSatF32S, "i32.trunc_sat_f32_s");
  (OpcodeMiscI32TruncSatF32U, "i32.trunc_sat_f32_u");
  (OpcodeMiscI32TruncSatF64S, "i32.trunc_sat_f64_s");
  (OpcodeMiscI32TruncSatF64U, "i32.trunc_sat_f64_u");
  (OpcodeMiscI64TruncSatF32S, "i64.trunc_sat_f32_s");
  (OpcodeMiscI64TruncSatF32U, "i64.trunc_sat_f32_u");
  (OpcodeMiscI64TruncSatF64S, "i64.trunc_sat_f64_s");
  (OpcodeMiscI64TruncSatF64U, "i64.trunc_sat_f64_u");
  (OpcodeMiscMemoryInit, "memory.init");
  (OpcodeMiscDataDrop, "data.drop");
  (OpcodeMiscMemoryCopy, "memory.copy");
  (OpcodeMiscMemoryFill, "memory.fill");
  (OpcodeMiscTableInit, "table.init");
  (OpcodeMiscElemDrop, "elem.drop");
  (OpcodeMiscTableCopy, "table.copy");
  (OpcodeMiscTableGrow, "table.grow");
  (OpcodeMiscTableSize, "table.size");
  (OpcodeMiscTableFill, "table.fill")
].

Definition vectorInstructionName : list (Z * string) := [
  (OpcodeVecV128Load, "v128.load");
  (OpcodeVecV128Load8x8s, "v128.load8x8_s");
  (OpcodeVecV128Load8x8u, "v128.load8x8_u");
  (OpcodeVecV128Load16x4s, "v128.load16x4_s");
  (OpcodeVecV128Load16x4u, "v128.load16x4_u");
  (OpcodeVecV128Load32x2s, "v128.load32x2_s");
  (OpcodeVecV128Load32x2u, "v128.load32x2_u");
  (OpcodeVecV128Load8Splat, "v128.load8_splat");
  (OpcodeVecV128Load16Splat, "v128.load16_splat");
  (OpcodeVecV128Load32Splat, "v128.load32_splat");
  (OpcodeVecV128Load64Splat, "v128.load64_splat");
  (OpcodeVecV128Load32zero, "v128.load32_zero");
  (OpcodeVecV128Load64zero, "v128.load64_zero");
  (OpcodeVecV128Store, "v128.store");
  (OpcodeVecV128Load8Lane, "v128.load8_lane");
  (OpcodeVecV128Load16Lane, "v128.load16_lane");
  (OpcodeVecV128Load32Lane, "v128.load32_lane");
  (OpcodeVecV128Load64Lane, "v128.load64_lane");
  (OpcodeVecV128Store8Lane, "v128.store8_lane");
  (OpcodeVecV128Store16Lane, "v128.store16_lane");
  (OpcodeVecV128Store32Lane, "v128.store32_lane");
  (OpcodeVecV128Store64Lane, "v128.store64_lane");
  (OpcodeVecV128Const, "v128.const");
  (OpcodeVecV128i8x16Shuffle, "v128.shuffle");
  (OpcodeVecI8x16ExtractLaneS, "i8x16.extract_lane_s");
  (OpcodeVecI8x16ExtractLaneU, "i8x16.extract_lane_u");
  (OpcodeVecI8x16ReplaceLane, "i8x16.replace_lane");
  (OpcodeVecI16x8ExtractLaneS, "i16x8.extract_lane_s");
  (OpcodeVecI16x8ExtractLaneU, "i16x8.extract_lane_u");
  (OpcodeVecI16x8ReplaceLane, "i16x8.replace_lane");
  (OpcodeVecI32x4ExtractLane, "i32x4.extract_lane");
  (OpcodeVecI32x4ReplaceLane, "i32x4.replace_lane");
  (OpcodeVecI64x2ExtractLane, "i64x2.extract_lane");
  (OpcodeVecI64x2ReplaceLane, "i64x2.replace_lane");
  (OpcodeVecF32x4ExtractLane, "f32x4.extract_lane");
  (OpcodeVecF32x4ReplaceLane, "f32x4.replace_lane");
  (OpcodeVecF64x2ExtractLane, "f64x2.extract_lane");
  (OpcodeVecF64x2ReplaceLane, "f64x2.replace_lane");
  (OpcodeVecI8x16Swizzle, "i8x16.swizzle");
  (OpcodeVecI8x16Splat, "i8x16.splat");
  (OpcodeVecI16x8Splat, "i16x8.splat");
  (OpcodeVecI32x4Splat, "i32x4.splat");
  (OpcodeVecI64x2Splat, "i64x2.splat");
  (OpcodeVecF32x4Splat, "f32x4.splat");
  (OpcodeVecF64x2Splat, "f64x2.splat");
  (OpcodeVecI8x16Eq, "i8x16.eq");
  (OpcodeVecI8x16Ne, "i8x16.ne");
  (OpcodeVecI8x16LtS, "i8x16.lt_s");
  (OpcodeVecI8x16LtU, "i8x16.lt_u");
  (OpcodeVecI8x16GtS, "i8x16.gt_s");
  (OpcodeVecI8x16GtU, "i8x16.gt_u");
  (OpcodeVecI8x16LeS, "i8x16.le_s");
  (OpcodeVecI8x16LeU, "i8x16.le_u");
  (OpcodeVecI8x16GeS, "i8x16.ge_s");
  (OpcodeVecI8x16GeU, "i8x16.ge_u");
  (OpcodeVecI16x8Eq, "i16x8.eq");
  (OpcodeVecI16x8Ne, "i16x8.ne");
  (OpcodeVecI16x8LtS, "i16x8.lt_s");
  (OpcodeVecI16x8LtU, "i16x8.lt_u");
  (OpcodeVecI16x8GtS, "i16x8.gt_s");
  (OpcodeVecI16x8GtU, "i16x8.gt_u");
  (OpcodeVecI16x8LeS, "i16x8.le_s");
  (OpcodeVecI16x8LeU, "i16x8.le_u");
  (OpcodeVecI16x8GeS, "i16x8.ge_s");
  (OpcodeVecI16x8GeU, "i16x8.ge_u");
  (OpcodeVecI32x4Eq, "i32x4.eq");
  (OpcodeVecI32x4Ne, "i32x4.ne");
  (OpcodeVecI32x4LtS, "i32x4.lt_s");
  (OpcodeVecI32x4LtU, "i32x4.lt_u");
  (OpcodeVecI32x4GtS, "i32x4.gt_s");
  (OpcodeVecI32x4GtU, "i32x4.gt_u");
  (OpcodeVecI32x4LeS, "i32x4.le_s");
  (OpcodeVecI32x4LeU, "i32x4.le_u");
  (OpcodeVecI32x4GeS, "i32x4.ge_s");
  (OpcodeVecI32x4GeU, "i32x4.ge_u");
  (OpcodeVecI64x2Eq, "i64x2.eq");
  (OpcodeVecI64x2Ne, "i64x2.ne");
  (OpcodeVecI64x2LtS, "i64x2.lt");
  (OpcodeVecI64x2GtS, "i64x2.gt");
  (OpcodeVecI64x2LeS, "i64x2.le");
  (OpcodeVecI64x2GeS, "i64x2.ge");
  (OpcodeVecF32x4Eq, "f32x4.eq");
  (OpcodeVecF32x4Ne, "f32x4.ne");
  (OpcodeVecF32x4Lt, "f32x4.lt");
  (OpcodeVecF32x4Gt, "f32x4.gt");
  (OpcodeVecF32x4Le, "f32x4.le");
  (OpcodeVecF32x4Ge, "f32x4.ge");
  (OpcodeVecF64x2Eq, "f64x2.eq");
  (OpcodeVecF64x2Ne, "f64x2.ne");
  (OpcodeVecF64x2Lt, "f64x2.lt");
  (OpcodeVecF64x2Gt, "f64x2.gt");
  (OpcodeVecF64x2Le, "f64x2.le");
  (OpcodeVecF64x2Ge, "f64x2.ge");
  (OpcodeVecV128Not, "v128.not");
  (OpcodeVecV128And, "v128.and");
  (OpcodeVecV128AndNot, "v128.andnot");
  (OpcodeVecV128Or, "v128.or");
  (OpcodeVecV128Xor, "v128.xor");
  (OpcodeVecV128Bitselect, "v128.bitselect");
  (OpcodeVecV128AnyTrue, "v128.any_true");
  (OpcodeVecI8x16Abs, "i8x16.abs");
  (OpcodeVecI8x16Neg, "i8x16.neg");
  (OpcodeVecI8x16Popcnt, "i8x16.popcnt");
  (OpcodeVecI8x16AllTrue, "i8x16.all_true");
  (OpcodeVecI8x16BitMask, "i8x16.bitmask");
  (OpcodeVecI8x16NarrowI16x8S, "i8x16.narrow_i16x8_s");
  (OpcodeVecI8x16NarrowI16x8U, "i8x16.narrow_i16x8_u");
  (OpcodeVecI8x16Shl, "i8x16.shl");
  (OpcodeVecI8x16ShrS, "i8x16.shr_s");
  (OpcodeVecI8x16ShrU, "i8x16.shr_u");
  (OpcodeVecI8x16Add, "i8x16.add");
  (OpcodeVecI8x16AddSatS, "i8x16.add_sat_s");
  (OpcodeVecI8x16AddSatU, "i8x16.add_sat_u");
  (OpcodeVecI8x16Sub, "i8x16.sub");
  (OpcodeVecI8x16SubSatS, "i8x16.sub_s");
  (OpcodeVecI8x16SubSatU, "i8x16.sub_u");
  (OpcodeVecI8x16MinS, "i8x16.min_s");
  (OpcodeVecI8x16MinU, "i8x16.min_u");
  (OpcodeVecI8x16MaxS, "i8x16.max_s");
  (OpcodeVecI8x16MaxU, "i8x16.max_u");
  (OpcodeVecI8x16AvgrU, "i8x16.avgr_u");
  (OpcodeVecI16x8ExtaddPairwiseI8x16S, "i16x8.extadd_pairwise_i8x16_s");
  (OpcodeVecI16x8ExtaddPairwiseI8x16U, "i16x8.extadd_pairwise_i8x16_u");
  (OpcodeVecI16x8Abs, "i16x8.abs");
  (OpcodeVecI16x8Neg, "i16x8.neg");
  (OpcodeVecI16x8Q15mulrSatS, "i16x8.q15mulr_sat_s");
  (OpcodeVecI16x8AllTrue, "i16x8.all_true");
  (OpcodeVecI16x8BitMask, "i16x8.bitmask");
  (OpcodeVecI16x8NarrowI32x4S, "i16x8.narrow_i32x4_s");
  (OpcodeVecI16x8NarrowI32x4U, "i16x8.narrow_i32x4_u");
  (OpcodeVecI16x8ExtendLowI8x16S, "i16x8.extend_low_i8x16_s");
  (OpcodeVecI16x8ExtendHighI8x16S, "i16x8.extend_high_i8x16_s");
  (OpcodeVecI16x8ExtendLowI8x16U, "i16x8.extend_low_i8x16_u");
  (OpcodeVecI16x8ExtendHighI8x16U, "i16x8.extend_high_i8x16_u");
  (OpcodeVecI16x8Shl, "i16x8.shl");
  (OpcodeVecI16x8ShrS, "i16x8.shr_s");
  (OpcodeVecI16x8ShrU, "i16x8.shr_u");
  (OpcodeVecI16x8Add, "i16x8.add");
  (OpcodeVecI16x8AddSatS, "i16x8.add_sat_s");
  (OpcodeVecI16x8AddSatU, "i16x8.add_sat_u");
  (OpcodeVecI16x8Sub, "i16x8.sub");
  (OpcodeVecI16x8SubSatS, "i16x8.sub_sat_s");
  (OpcodeVecI16x8SubSatU, "i16x8.sub_sat_u");
  (OpcodeVecI16x8Mul, "i16x8.mul");
  (OpcodeVecI16x8MinS, "i16x8.min_s");
  (OpcodeVecI16x8MinU, "i16x8.min_u");
  (OpcodeVecI16x8MaxS, "i16x8.max_s");
  (OpcodeVecI16x8MaxU, "i16x8.max_u");
  (OpcodeVecI16x8AvgrU, "i16x8.avgr_u");
  (OpcodeVecI16x8ExtMulLowI8x16S, "i16x8.extmul_low_i8x16_s");
  (OpcodeVecI16x8ExtMulHighI8x16S, "i16x8.extmul_high_i8x16_s");
  (OpcodeVecI16x8ExtMulLowI8x16U, "i16x8.extmul_low_i8x16_u");
  (OpcodeVecI16x8ExtMulHighI8x16U, "i16x8.extmul_high_i8x16_u");
  (OpcodeVecI32x4ExtaddPairwiseI16x8S, "i32x4.extadd_pairwise_i16x8_s");
  (OpcodeVecI32x4ExtaddPairwiseI16x8U, "i32x4.extadd_pairwise_i16x8_u");
  (OpcodeVecI32x4Abs, "i32x4.abs");
  (OpcodeVecI32x4Neg, "i32x4.neg");
  (OpcodeVecI32x4AllTrue, "i32x4.all_true");
  (OpcodeVecI32x4BitMask, "i32x4.bitmask");
  (OpcodeVecI32x4ExtendLowI16x8S, "i32x4.extend_low_i16x8_s");
  (OpcodeVecI32x4ExtendHighI16x8S, "i32x4.extend_high_i16x8_s");
  (OpcodeVecI32x4ExtendLowI16x8U, "i32x4.extend_low_i16x8_u");
  (OpcodeVecI32x4ExtendHighI16x8U, "i32x4.extend_high_i16x8_u");
  (OpcodeVecI32x4Shl, "i32x4.shl");
  (OpcodeVecI32x4ShrS, "i32x4.shr_s");
  (OpcodeVecI32x4ShrU, "i32x4.shr_u");
  (OpcodeVecI32x4Add, "i32x4.add");
  (OpcodeVecI32x4Sub, "i32x4.sub");
  (OpcodeVecI32x4Mul, "i32x4.mul");
  (OpcodeVecI32x4MinS, "i32x4.min_s");
  (OpcodeVecI32x4MinU, "i32x4.min_u");
  (OpcodeVecI32x4MaxS, "i32x4.max_s");
  (OpcodeVecI32x4MaxU, "i32x4.max_u");
  (OpcodeVecI32x4DotI16x8S, "i32x4.dot_i16x8_s");
  (OpcodeVecI32x4ExtMulLowI16x8S, "i32x4.extmul_low_i16x8_s");
  (OpcodeVecI32x4ExtMulHighI16x8S, "i32x4.extmul_high_i16x8_s");
  (OpcodeVecI32x4ExtMulLowI16x8U, "i32x4.extmul_low_i16x8_u");
  (OpcodeVecI32x4ExtMulHighI16x8U, "i32x4.extmul_high_i16x8_u");
  (OpcodeVecI64x2Abs, "i64x2.abs");
  (OpcodeVecI64x2Neg, "i64x2.neg");
  (OpcodeVecI64x2AllTrue, "i64x2.all_true");
  (OpcodeVecI64x2BitMask, "i64x2.bitmask");
  (OpcodeVecI64x2ExtendLowI32x4S, "i64x2.extend_low_i32x4_s");
  (OpcodeVecI64x2ExtendHighI32x4S, "i64x2.extend_high_i32x4_s");
  (OpcodeVecI64x2ExtendLowI32x4U, "i64x2.extend_low_i32x4_u");
  (OpcodeVecI64x2ExtendHighI32x4U, "i64x2.extend_high_i32x4_u");
  (OpcodeVecI64x2Shl, "i64x2.shl");
  (OpcodeVecI64x2ShrS, "i64x2.shr_s");
  (OpcodeVecI64x2ShrU, "i64x2.shr_u");
  (OpcodeVecI64x2Add, "i64x2.add");
  (OpcodeVecI64x2Sub, "i64x2.sub");
  (OpcodeVecI64x2Mul, "i64x2.mul");
  (OpcodeVecI64x2ExtMulLowI32x4S, "i64x2.extmul_low_i32x4_s");
  (OpcodeVecI64x2ExtMulHighI32x4S, "i64x2.extmul_high_i32x4_s");
  (OpcodeVecI64x2ExtMulLowI32x4U, "i64x2.extmul_low_i32x4_u");
  (OpcodeVecI64x2ExtMulHighI32x4U, "i64x2.extmul_high_i32x4_u");
  (OpcodeVecF32x4Ceil, "f32x4.ceil");
  (OpcodeVecF32x4Floor, "f32x4.floor");
  (OpcodeVecF32x4Trunc, "f32x4.trunc");
  (OpcodeVecF32x4Nearest, "f32x4.nearest");
  (OpcodeVecF32x4Abs, "f32x4.abs");
  (OpcodeVecF32x4Neg, "f32x4.neg");
  (OpcodeVecF32x4Sqrt, "f32x4.sqrt");
  (OpcodeVecF32x4Add, "f32x4.add");
  (OpcodeVecF32x4Sub, "f32x4.sub");
  (OpcodeVecF32x4Mul, "f32x4.mul");
  (OpcodeVecF32x4Div, "f32x4.div");
  (OpcodeVecF32x4Min, "f32x4.min");
  (OpcodeVecF32x4Max, "f32x4.max");
  (OpcodeVecF32x4Pmin, "f32x4.pmin");
  (OpcodeVecF32x4Pmax, "f32x4.pmax");
  (OpcodeVecF64x2Ceil, "f64x2.ceil");
  (OpcodeVecF64x2Floor, "f64x2.floor");
  (OpcodeVecF64x2Trunc, "f64x2.trunc");
  (OpcodeVecF64x2Nearest, "f64x2.nearest");
  (OpcodeVecF64x2Abs, "f64x2.abs");
  (OpcodeVecF64x2Neg, "f64x2.neg");
  (OpcodeVecF64x2Sqrt, "f64x2.sqrt");
  (OpcodeVecF64x2Add, "f64x2.add");
  (OpcodeVecF64x2Sub, "f64x2.sub");
  (OpcodeVecF64x2Mul, "f64x2.mul");
  (OpcodeVecF64x2Div, "f64x2.div");
  (OpcodeVecF64x2Min, "f64x2.min");
  (OpcodeVecF64x2Max, "f64x2.max");
  (OpcodeVecF64x2Pmin, "f64x2.pmin");
  (OpcodeVecF64x2Pmax, "f64x2.pmax");
  (OpcodeVecI32x4TruncSatF32x4S, "i32x4.trunc_sat_f32x4_s");
  (OpcodeVecI32x4TruncSatF32x4U, "i32x4.trunc_sat_f32x4_u");
  (OpcodeVecF32x4ConvertI32x4S, "f32x4.convert_i32x4_s");
  (OpcodeVecF32x4ConvertI32x4U, "f32x4.convert_i32x4_u");
  (OpcodeVecI32x4TruncSatF64x2SZero, "i32x4.trunc_sat_f64x2_s_zero");
  (OpcodeVecI32x4TruncSatF64x2UZero, "i32x4.trunc_sat_f64x2_u_zero");
  (OpcodeVecF64x2ConvertLowI32x4S, "f64x2.convert_low_i32x4_s");
  (OpcodeVecF64x2ConvertLowI32x4U, "f64x2.convert_low_i32x4_u");
  (OpcodeVecF32x4DemoteF64x2Zero, "f32x4.demote_f64x2_zero");
  (OpcodeVecF64x2PromoteLowF32x4Zero, "f64x2.promote_low_f32x4")
].

Definition atomicInstructionName : list (Z * string) := [
  (OpcodeAtomicMemoryNotify, "memory.atomic.notify");
  (OpcodeAtomicMemoryWait32, "memory.atomic.wait32");
  (OpcodeAtomicMemoryWait64, "memory.atomic.wait64");
  (OpcodeAtomicFence, "atomic.fence");
  (OpcodeAtomicI32Load, "i32.atomic.load");
  (OpcodeAtomicI64Load, "i64.atomic.load");
  (OpcodeAtomicI32Load8U, "i32.atomic.load8_u");
  (OpcodeAtomicI32Load16U, "i32.atomic.load16_u");
  (OpcodeAtomicI64Load8U, "i64.atomic.load8_u");
  (OpcodeAtomicI64Load16U, "i64.atomic.load16_u");
  (OpcodeAtomicI64Load32U, "i64.atomic.load32_u");
  (OpcodeAtomicI32Store, "i32.atomic.store");
  (OpcodeAtomicI64Store, "i64.atomic.store");
  (OpcodeAtomicI32Store8, "i32.atomic.store8");
  (OpcodeAtomicI32Store16, "i32.atomic.store16");
  (OpcodeAtomicI64Store8, "i64.atomic.store8");
  (OpcodeAtomicI64Store16, "i64.atomic.store16");
  (OpcodeAtomicI64Store32, "i64.atomic.store32");
  (OpcodeAtomicI32RmwAdd, "i32.atomic.rmw.add");
  (OpcodeAtomicI64RmwAdd, "i64.atomic.rmw.add");
  (OpcodeAtomicI32Rmw8AddU, "i32.atomic.rmw8.add_u");
  (OpcodeAtomicI32Rmw16AddU, "i32.atomic.rmw16.add_u");
  (OpcodeAtomicI64Rmw8AddU, "i64.atomic.rmw8.add_u");
  (OpcodeAtomicI64Rmw16AddU, "i64.atomic.rmw16.add_u");
  (OpcodeAtomicI64Rmw32AddU, "i64.atomic.rmw32.add_u");
  (OpcodeAtomicI32RmwSub, "i32.atomic.rmw.sub");
  (OpcodeAtomicI64RmwSub, "i64.atomic.rmw.sub");
  (OpcodeAtomicI32Rmw8SubU, "i32.atomic.rmw8.sub_u");
  (OpcodeAtomicI32Rmw16SubU, "i32.atomic.rmw16.sub_u");
  (OpcodeAtomicI64Rmw8SubU, "i64.atomic.rmw8.sub_u");
  (OpcodeAtomicI64Rmw16SubU, "i64.atomic.rmw16.sub_u");
  (OpcodeAtomicI64Rmw32SubU, "i64.atomic.rmw32.sub_u");
  (OpcodeAtomicI32RmwAnd, "i32.atomic.rmw.and");
  (OpcodeAtomicI64RmwAnd, "i64.atomic.rmw.and");
  (OpcodeAtomicI32Rmw8AndU, "i32.atomic.rmw8.and_u");
  (OpcodeAtomicI32Rmw16AndU, "i32.atomic.rmw16.and_u");
  (OpcodeAtomicI64Rmw8AndU, "i64.atomic.rmw8.and_u");
  (OpcodeAtomicI64Rmw16AndU, "i64.atomic.rmw16.and_u");
  (OpcodeAtomicI64Rmw32AndU, "i64.atomic.rmw32.and_u");
  (OpcodeAtomicI32RmwOr, "i32.atomic.rmw.or");
  (OpcodeAtomicI64RmwOr, "i64.atomic.rmw.or");
  (OpcodeAtomicI32Rmw8OrU, "i32.atomic.rmw8.or_u");
  (OpcodeAtomicI32Rmw16OrU, "i32.atomic.rmw16.or_u");
  (OpcodeAtomicI64Rmw8OrU, "i64.atomic.rmw8.or_u");
  (OpcodeAtomicI64Rmw16OrU, "i64.atomic.rmw16.or_u");
  (OpcodeAtomicI64Rmw32OrU, "i64.atomic.rmw32.or_u");
  (OpcodeAtomicI32RmwXor, "i32.atomic.rmw.xor");
  (OpcodeAtomicI64RmwXor, "i64.atomic.rmw.xor");
  (OpcodeAtomicI32Rmw8XorU, "i32.atomic.rmw8.xor_u");
  (OpcodeAtomicI32Rmw16XorU, "i32.atomic.rmw16.xor_u");
  (OpcodeAtomicI64Rmw8XorU, "i64.atomic.rmw8.xor_u");
  (OpcodeAtomicI64Rmw16XorU, "i64.atomic.rmw16.xor_u");
  (OpcodeAtomicI64Rmw32XorU, "i64.atomic.rmw32.xor_u");
  (OpcodeAtomicI32RmwXchg, "i32.atomic.rmw.xchg");
  (OpcodeAtomicI64RmwXchg, "i64.atomic.rmw.xchg");
  (OpcodeAtomicI32Rmw8XchgU, "i32.atomic.rmw8.xchg_u");
  (OpcodeAtomicI32Rmw16XchgU, "i32.atomic.rmw16.xchg_u");
  (OpcodeAtomicI64Rmw8XchgU, "i64.atomic.rmw8.xchg_u");
  (OpcodeAtomicI64Rmw16XchgU, "i64.atomic.rmw16.xchg_u");
  (OpcodeAtomicI64Rmw32XchgU, "i64.atomic.rmw32.xchg_u");
  (OpcodeAtomicI32RmwCmpxchg, "i32.atomic.rmw.cmpxchg");
  (OpcodeAtomicI64RmwCmpxchg, "i64.atomic.rmw.cmpxchg");
  (OpcodeAtomicI32Rmw8CmpxchgU, "i32.atomic.rmw8.cmpxchg_u");
  (OpcodeAtomicI32Rmw16CmpxchgU, "i32.atomic.rmw16.cmpxchg_u");
  (OpcodeAtomicI64Rmw8CmpxchgU, "i64.atomic.rmw8.cmpxchg_u");
  (OpcodeAtomicI64Rmw16CmpxchgU, "i64.atomic.rmw16.cmpxchg_u");
  (OpcodeAtomicI64Rmw32CmpxchgU, "i64.atomic.rmw32.cmpxchg_u")
].

Definition tailCallInstructionName : list (Z * string) := [
  (OpcodeTailCallReturnCall, "return_call");
  (OpcodeTailCallReturnCallIndirect, "return_call_indirect")
].

Definition name_of (table : list (Z * string)) (oc : Z) : string :=
  match List.find (fun p => fst p =? oc) table with
  | Some (_, n) => n
  | None => ""
  end.

Definition InstructionName (oc : Z) : string := name_of instructionNames oc.
Definition MiscInstructionName (oc : Z) : string := name_of miscInstructionNames oc.
Definition VectorInstructionName (oc : Z) : string := name_of vectorInstructionName oc.
Definition AtomicInstructionName (oc : Z) : string := name_of atomicInstructionName oc.
Definition TailCallInstructionName (oc : Z) : string := name_of tailCallInstructionName oc.

(** ** Properties *)

Lemma name_of_inj table oc oc' :
  forallb (fun p => Nat.eqb (length (List.filter (fun q => String.eqb (snd p) (snd q)) table)) 1) table = true ->
  name_of table oc <> "" -> name_of table oc = name_of table oc' -> oc = oc'.
Proof.
  intros Hd Hne E. unfold name_of in *.
  destruct (List.find _ table) as [[k n]|] eqn:F; [|done].
  destruct (List.find (fun p => fst p =? oc') table) as [[k' n']|] eqn:F'; [|by subst].
  subst n'. apply find_some in F as [F Hk], F' as [F' Hk']. simpl in *. bools. subst k k'.
  pose proof (proj1 (forallb_forall _ _) Hd _ F) as Hl. cbn [snd] in Hl. apply Nat.eqb_eq in Hl.
  assert (In (oc, n) (List.filter (fun q => String.eqb n (snd q)) table)) as I1
    by (apply filter_In; split; [done|apply String.eqb_refl]).
  assert (In (oc', n) (List.filter (fun q => String.eqb n (snd q)) table)) as I2
    by (apply filter_In; split; [done|apply String.eqb_refl]).
  destruct (List.filter _ table) as [|p [|]]; try done.
  destruct I1 as [->|[]], I2 as [[=]|[]]. done.
Qed.

(** Instruction names are unambiguous: on each opcode page, two opcodes that
    print under the same non-empty name are the same opcode. *)
Theorem instruction_names_unambiguous (oc oc' : Z) :
  (InstructionName oc <> "" -> InstructionName oc = InstructionName oc' -> oc = oc') /\
  (MiscInstructionName oc <> "" -> MiscInstructionName oc = MiscInstructionName oc' -> oc = oc') /\
  (VectorInstructionName oc <> "" -> VectorInstructionName oc = VectorInstructionName oc' -> oc = oc') /\
  (AtomicInstructionName oc <> "" -> AtomicInstructionName oc = AtomicInstructionName oc' -> oc = oc').
Proof. split_and!; apply name_of_inj; vm_compute; reflexivity. Qed.
