(* ===== verification/Types.v ===== *)
(** * Value types, function types and their equivalence (src/internal/wasm/module.go)

    The packed representation of value types and its accessors, function types,
    the parts of [Module] that validation reads, structural equivalence of
    function types ([typeEquivalenceCtx]) and the reference subtyping built on
    it.

    [typeEquivalenceCtx.visited] is threaded through the recursion as a [gset];
    a pointer comparison [c.mx == c.my] is the boolean [same].  The recursion
    adds one pair of rec groups to [visited] per level, so that one more level
    than there are pairs is never needed; running out is a [Panic], which
    [structural_equivalence_spec] excludes. *)

From S2P Require Import Prelude.

(** ** Packed value types *)

Definition ValueType : Type := Z.
Definition Index : Type := Z.

Definition flagNonNullable : ValueType := Z.shiftl 1 8.
Definition flagConcreteRef : ValueType := Z.shiftl 1 9.

Definition ValueTypeI32 : ValueType := 0x7f.
Definition ValueTypeI64 : ValueType := 0x7e.
Definition ValueTypeF32 : ValueType := 0x7d.
Definition ValueTypeF64 : ValueType := 0x7c.
Definition ValueTypeV128 : ValueType := 0x7b.
Definition ValueTypeFuncref : ValueType := 0x70.
Definition ValueTypeExternref : ValueType := 0x6f.
Definition ValueTypeExnref : ValueType := 0x69.

Definition RefPrefixNullable : Z := 0x63.
Definition RefPrefixNonNullable : Z := 0x64.
Definition HeapTypeFunc : Z := -16.
Definition HeapTypeExtern : Z := -17.
Definition HeapTypeExn : Z := -23.

Definition Kind (v : ValueType) : Z := wrap8 v.
Definition IsConcreteRef (v : ValueType) : bool := negb (Z.land v flagConcreteRef =? 0).
Definition IsRef (v : ValueType) : bool :=
  let k := Kind v in
  (k =? Kind ValueTypeFuncref) || (k =? Kind ValueTypeExternref) || (k =? Kind ValueTypeExnref)
  || negb (Z.land v flagConcreteRef =? 0).
Definition IsNullable (v : ValueType) : bool := IsRef v && (Z.land v flagNonNullable =? 0).
Definition TypeIndex (v : ValueType) : Z := wrap32 (Z.shiftr v 32).
Definition AsNonNullable (v : ValueType) : ValueType := Z.lor v flagNonNullable.
Definition AsNullable (v : ValueType) : ValueType := Z.ldiff v flagNonNullable.
Definition ValueTypeConcreteRef (typeIndex : Z) (nullable : bool) : ValueType :=
  let v := Z.lor (Z.lor ValueTypeFuncref flagConcreteRef) (wrap64 (Z.shiftl typeIndex 32)) in
  if negb nullable then Z.lor v flagNonNullable else v.
Definition isReferenceValueType (vt : ValueType) : bool := IsRef vt.

(** ** Function types and modules *)

(** The [string] field, a cache of [key], is added by [cachedType] in [TypeIDs]. *)
Record FunctionType := mkFunctionType {
  Params : list ValueType;
  Results : list ValueType;
  ParamNumInUint64 : Z;
  ResultNumInUint64 : Z;
  RecGroupSize : Z;
  RecGroupPosition : Z;
}.

#[global] Instance FunctionType_eq_dec : EqDecision FunctionType.
Proof. solve_decision. Defined.

(** The loop that counts the 64-bit slots of a list of types. *)
Definition countUint64 (n : Z) (l : list ValueType) : Z :=
  fold_left (fun n tp => if tp =? ValueTypeV128 then n + 1 + 1 else n + 1) l n.

Definition CacheNumInUint64 (f : FunctionType) : FunctionType :=
  let p := if ParamNumInUint64 f =? 0 then countUint64 0 (Params f) else ParamNumInUint64 f in
  let r := if ResultNumInUint64 f =? 0 then countUint64 0 (Results f) else ResultNumInUint64 f in
  mkFunctionType (Params f) (Results f) p r (RecGroupSize f) (RecGroupPosition f).

Definition EqualsSignature (f : FunctionType) (params results : list ValueType) : bool :=
  bool_decide (Params f = params) && bool_decide (Results f = results).

Definition EqualsType (f other : FunctionType) : bool :=
  if negb (EqualsSignature f (Params other) (Results other)) then false
  else (RecGroupSize f =? RecGroupSize other) && (RecGroupPosition f =? RecGroupPosition other).

Record Memory := mkMemory {
  MemMin : Z; MemCap : Z; MemMax : Z; IsMaxEncoded : bool; IsShared : bool;
}.

Record GlobalType := mkGlobalType { ValType : ValueType; Mutable : bool }.

(** A table is seen by validation through its element type only. *)
Record Table := mkTable { TableType : ValueType }.

Record Code := mkCode { LocalTypes : list ValueType; Body : list Z }.

(** The fields of [Module] that function validation reads: of the element and
    data sections, the type of each element segment and the number of data
    segments. *)
Record Module := mkModule {
  TypeSection : list FunctionType;
  FunctionSection : list Index;
  CodeSection : list Code;
  ElementSection : list ValueType;
  DataSectionLen : Z;
  DataCountSection : option Z;
}.

(** ** Structural equivalence of function types *)

Abbreviation visited := (gset (Z * Z)).

Definition groupOf (ts : list FunctionType) (t : Z) : res (Z * Z) :=
  let! ft := zindex ts t in
  let size := wrap32 (RecGroupSize ft) in
  if size <=? 1 then Ok (t, 1)
  else Ok (wrap32 (t - wrap32 (RecGroupPosition ft)), size).

Definition valueTypesEquivalent (fte : visited -> Z -> Z -> res (bool * visited))
    (vis : visited) (x y : ValueType) : res (bool * visited) :=
  if IsConcreteRef x && IsConcreteRef y then
    if negb (Bool.eqb (IsNullable x) (IsNullable y)) then Ok (false, vis)
    else fte vis (TypeIndex x) (TypeIndex y)
  else Ok (x =? y, vis).

(** [for j := range xs { if !c.valueTypesEquivalent(xs[j], ys[j]) { return false } }] *)
Fixpoint listEquivalent (vte : visited -> Z -> Z -> res (bool * visited))
    (vis : visited) (xs ys : list ValueType) : res (bool * visited) :=
  match xs, ys with
  | [], _ => Ok (true, vis)
  | _ :: _, [] => Panic "index out of range"
  | x :: xs', y :: ys' =>
      let! (b, vis) := vte vis x y in
      if b then listEquivalent vte vis xs' ys' else Ok (false, vis)
  end.

Section Equivalence.
Context (tx ty : list FunctionType) (same : bool).

(** The loop over the members of two rec groups, [n] of them left from offset [i]. *)
Fixpoint membersEquivalent (fte : visited -> Z -> Z -> res (bool * visited))
    (n : nat) (i : Z) (vis : visited) (gxs gys : Z) : res (bool * visited) :=
  match n with
  | O => Ok (true, vis)
  | S n' =>
      let! ftx := zindex tx (wrap32 (gxs + i)) in
      let! fty := zindex ty (wrap32 (gys + i)) in
      if negb (zlen (Params ftx) =? zlen (Params fty))
         || negb (zlen (Results ftx) =? zlen (Results fty)) then Ok (false, vis)
      else
        let! (b, vis) := listEquivalent (valueTypesEquivalent fte) vis (Params ftx) (Params fty) in
        if negb b then Ok (false, vis)
        else
          let! (b, vis) := listEquivalent (valueTypesEquivalent fte) vis (Results ftx) (Results fty) in
          if negb b then Ok (false, vis)
          else membersEquivalent fte n' (i + 1) vis gxs gys
  end.

Fixpoint functionTypesEquivalent (fuel : nat) (vis : visited) (x y : Z) : res (bool * visited) :=
  match fuel with
  | O => Panic "functionTypesEquivalent: recursion bound"
  | S fuel' =>
      if (x =? y) && same then Ok (true, vis)
      else
        let! (gxs, gxsSize) := groupOf tx x in
        let! (gys, gysSize) := groupOf ty y in
        if negb (gxsSize =? gysSize) then Ok (false, vis)
        else if negb (wrap32 (x - gxs) =? wrap32 (y - gys)) then Ok (false, vis)
        else if bool_decide ((gxs, gys) ∈ vis) then Ok (true, vis)
        else membersEquivalent (functionTypesEquivalent fuel') (Z.to_nat gxsSize) 0
               ({[(gxs, gys)]} ∪ vis) gxs gys
  end.

(** One more than the number of pairs of type indexes. *)
Definition equivFuel : nat := S (length tx * length ty).

Definition structurallyEquivalentTypesAcrossModules (x y : Z) : res bool :=
  if (x >=? zlen tx) || (y >=? zlen ty) then Ok false
  else let! (b, _) := functionTypesEquivalent equivFuel ∅ x y in Ok b.

End Equivalence.

Definition structurallyEquivalentTypes (m : Module) (x y : Z) : res bool :=
  structurallyEquivalentTypesAcrossModules (TypeSection m) (TypeSection m) true x y.

(** ** Reference subtyping *)

Definition isRefSubtypeOf (m : Module) (actual expected : ValueType) : res bool :=
  if actual =? expected then Ok true
  else if (AsNullable actual =? AsNullable expected) && IsNullable expected then Ok true
  else if IsConcreteRef actual && IsConcreteRef expected then
    if IsNullable actual && negb (IsNullable expected) then Ok false
    else structurallyEquivalentTypes m (TypeIndex actual) (TypeIndex expected)
  else if IsConcreteRef actual && negb (IsConcreteRef expected)
          && (Kind expected =? Kind ValueTypeFuncref) then
    if negb (IsNullable actual) || IsNullable expected then Ok true else Ok false
  else Ok false.

Definition areRefTypesCompatible (m : Module) (a b : ValueType) : res bool :=
  let! r := isRefSubtypeOf m a b in
  if r then Ok true else isRefSubtypeOf m b a.

Definition isRefSubtypeOfAcrossModules (ma me : Module) (same : bool) (actual expected : ValueType) : res bool :=
  if IsConcreteRef actual || IsConcreteRef expected then
    if IsConcreteRef actual && IsConcreteRef expected then
      if IsNullable actual && negb (IsNullable expected) then Ok false
      else structurallyEquivalentTypesAcrossModules (TypeSection ma) (TypeSection me) same
             (TypeIndex actual) (TypeIndex expected)
    else if IsConcreteRef actual && (Kind expected =? Kind ValueTypeFuncref) then
      if negb (IsNullable actual) || IsNullable expected then Ok true else Ok false
    else Ok false
  else isRefSubtypeOf ma actual expected.

Definition valueTypesEquivalentAcrossModules (mx my : Module) (same : bool) (x y : ValueType) : res bool :=
  if IsConcreteRef x || IsConcreteRef y then
    let! (b, _) := valueTypesEquivalent
                     (functionTypesEquivalent (TypeSection mx) (TypeSection my) same
                        (equivFuel (TypeSection mx) (TypeSection my))) ∅ x y in
    Ok b
  else Ok (x =? y).

(** ** Specification of equivalence: equal unfoldings

    [unfold_eq n x y]: the type trees below the indexes [x] and [y], with
    concrete references replaced by the rec group member they denote, agree to
    depth [n].  Two types are equivalent when they agree to every depth. *)

Definition groupStart (ts : list FunctionType) (t : Z) : Z :=
  match zlookup ts t with
  | Some ft => if RecGroupSize ft <=? 1 then t else t - RecGroupPosition ft
  | None => t
  end.

Definition groupSize (ts : list FunctionType) (t : Z) : Z :=
  match zlookup ts t with
  | Some ft => if RecGroupSize ft <=? 1 then 1 else RecGroupSize ft
  | None => 1
  end.

Definition vt_rel (R : Z -> Z -> Prop) (x y : ValueType) : Prop :=
  if IsConcreteRef x && IsConcreteRef y
  then IsNullable x = IsNullable y /\ R (TypeIndex x) (TypeIndex y)
  else x = y.

Definition members_rel (tx ty : list FunctionType) (R : Z -> Z -> Prop) (gx gy size : Z) : Prop :=
  forall i ftx fty, 0 <= i < size ->
    zlookup tx (gx + i) = Some ftx -> zlookup ty (gy + i) = Some fty ->
    Forall2 (vt_rel R) (Params ftx) (Params fty) /\ Forall2 (vt_rel R) (Results ftx) (Results fty).

Definition same_position (tx ty : list FunctionType) (x y : Z) : Prop :=
  groupSize tx x = groupSize ty y /\ x - groupStart tx x = y - groupStart ty y.

Fixpoint unfold_eq (tx ty : list FunctionType) (n : nat) (x y : Z) : Prop :=
  match n with
  | O => True
  | S n' =>
      same_position tx ty x y /\
      members_rel tx ty (unfold_eq tx ty n') (groupStart tx x) (groupStart ty y) (groupSize tx x)
  end.

(** ** Well-formed type sections

    Rec groups are contiguous and every concrete reference of a type is in
    range: what decoding and the validation of the type section establish. *)

Definition refs_in_range (len : Z) (l : list ValueType) : Prop :=
  Forall (fun v => IsConcreteRef v = true -> TypeIndex v < len) l.

Record wf_types (ts : list FunctionType) : Prop := {
  wf_len : zlen ts < 2 ^ 32;
  wf_refs : forall t ft, zlookup ts t = Some ft ->
    refs_in_range (zlen ts) (Params ft) /\ refs_in_range (zlen ts) (Results ft);
  wf_size : forall t ft, zlookup ts t = Some ft -> 0 <= RecGroupSize ft;
  wf_group : forall t ft, zlookup ts t = Some ft -> 1 < RecGroupSize ft ->
    0 <= RecGroupPosition ft < RecGroupSize ft /\
    0 <= t - RecGroupPosition ft /\ t - RecGroupPosition ft + RecGroupSize ft <= zlen ts;
  wf_group_members : forall t ft i, zlookup ts t = Some ft -> 1 < RecGroupSize ft ->
    0 <= i < RecGroupSize ft ->
    exists ft', zlookup ts (t - RecGroupPosition ft + i) = Some ft' /\
      RecGroupSize ft' = RecGroupSize ft /\ RecGroupPosition ft' = i;
}.

(** ** Groups *)

Lemma group_spec ts t :
  wf_types ts -> 0 <= t < zlen ts ->
  groupOf ts t = Ok (groupStart ts t, groupSize ts t) /\
  0 <= groupStart ts t <= t /\ t < groupStart ts t + groupSize ts t /\
  groupStart ts t + groupSize ts t <= zlen ts.
Proof.
  intros Hwf Ht. destruct (zindex_in ts t Ht) as (ft & Hi & Hl).
  unfold groupOf, groupStart, groupSize. rewrite Hi, Hl. cbn [res_bind].
  pose proof (wf_len ts Hwf). pose proof (wf_size ts Hwf t ft Hl).
  destruct (Z.leb_spec (RecGroupSize ft) 1) as [Hs|Hs].
  - rewrite wrap32_small by (unfold is_u32; lia). rewrite (proj2 (Z.leb_le _ _)) by lia.
    split_and!; done || lia.
  - destruct (wf_group ts Hwf t ft Hl Hs) as (? & ? & ?).
    rewrite !wrap32_small by (unfold is_u32; lia || (rewrite wrap32_small; unfold is_u32; lia)).
    rewrite (proj2 (Z.leb_gt _ _)) by lia. split_and!; done || lia.
Qed.

Lemma group_member ts t i :
  wf_types ts -> 0 <= t < zlen ts -> 0 <= i < groupSize ts t ->
  groupStart ts (groupStart ts t + i) = groupStart ts t /\
  groupSize ts (groupStart ts t + i) = groupSize ts t.
Proof.
  intros Hwf Ht Hi. destruct (zindex_in ts t Ht) as (ft & _ & Hl).
  pose proof (wf_size ts Hwf t ft Hl). unfold groupStart, groupSize in *. rewrite Hl in *.
  destruct (Z.leb_spec (RecGroupSize ft) 1) as [Hs|Hs].
  - replace (t + i) with t by lia. rewrite Hl. rewrite (proj2 (Z.leb_le _ _)) by lia. split; lia.
  - destruct (wf_group_members ts Hwf t ft i Hl Hs Hi) as (ft' & -> & -> & ->).
    rewrite (proj2 (Z.leb_gt _ _)) by lia. split; lia.
Qed.

Lemma groupSize_pos ts t : 1 <= groupSize ts t.
Proof. unfold groupSize. case_match; [case_match|]; bools; lia. Qed.

Lemma TypeIndex_nonneg v : 0 <= TypeIndex v.
Proof. apply wrap32_range. Qed.

Lemma vt_rel_mono (R R' : Z -> Z -> Prop) x y :
  (forall a b, R a b -> R' a b) -> vt_rel R x y -> vt_rel R' x y.
Proof. unfold vt_rel. intros HR. destruct (_ && _); [intros []; auto|done]. Qed.

Lemma Forall2_vt_mono (R R' : Z -> Z -> Prop) xs ys :
  (forall a b, R a b -> R' a b) -> Forall2 (vt_rel R) xs ys -> Forall2 (vt_rel R') xs ys.
Proof. intros HR HF. eapply Forall2_impl; [done|]. intros x y. by apply vt_rel_mono. Qed.

Lemma members_rel_mono tx ty (R R' : Z -> Z -> Prop) gx gy s :
  (forall a b, R a b -> R' a b) -> members_rel tx ty R gx gy s -> members_rel tx ty R' gx gy s.
Proof.
  intros HR HM i ftx fty Hi Hx Hy. destruct (HM i ftx fty Hi Hx Hy).
  split; eapply Forall2_vt_mono; eauto.
Qed.

Lemma unfold_eq_refl ts n x : unfold_eq ts ts n x x.
Proof.
  revert x; induction n as [|n IH]; intros x; simpl; [done|]. split; [done|].
  intros i ftx fty Hi Hx Hy. rewrite Hx in Hy. simplify_eq.
  split; apply Forall2_same_length_lookup; (split; [done|]); intros j a b Ha Hb;
    rewrite Ha in Hb; simplify_eq; unfold vt_rel; destruct (_ && _); auto.
Qed.

(** ** The algorithm decides equality of unfoldings *)

Section EquivalenceCorrect.
Context (tx ty : list FunctionType) (same : bool).
Context (Hx : wf_types tx) (Hy : wf_types ty) (Hsame : same = true -> tx = ty).

Definition in_range (x y : Z) : Prop := 0 <= x < zlen tx /\ 0 <= y < zlen ty.

Definition pairs : gset (Z * Z) :=
  list_to_set (list_prod (seqZ 0 (zlen tx)) (seqZ 0 (zlen ty))).

Lemma elem_of_pairs x y : (x, y) ∈ pairs <-> in_range x y.
Proof.
  unfold pairs, in_range. rewrite elem_of_list_to_set, list_elem_of_In, in_prod_iff.
  rewrite <- !list_elem_of_In, !elem_of_seqZ. lia.
Qed.

Lemma pairs_size : (size pairs <= length tx * length ty)%nat.
Proof.
  assert (forall l : list (Z * Z), (size (list_to_set l : gset (Z * Z)) <= length l)%nat) as L.
  { induction l as [|p l IH]; [done|]. rewrite list_to_set_cons. simpl length.
    rewrite size_union_alt, size_singleton.
    pose proof (subseteq_size (list_to_set l ∖ {[p]} : gset (Z * Z)) (list_to_set l) ltac:(set_solver)). lia. }
  unfold pairs. etrans; [apply L|]. rewrite length_prod, !length_seqZ. unfold zlen. lia.
Qed.

(** Related given the assumptions [vis]. *)
Definition Rv (vis : visited) (x y : Z) : Prop :=
  in_range x y /\
  ((same = true /\ x = y) \/ (same_position tx ty x y /\ (groupStart tx x, groupStart ty y) ∈ vis)).

Definition processed (vis vis' : visited) : Prop :=
  forall gx gy, (gx, gy) ∈ vis' -> (gx, gy) ∉ vis ->
    members_rel tx ty (Rv vis') gx gy (groupSize tx gx).

Lemma Rv_mono vis vis' x y : vis ⊆ vis' -> Rv vis x y -> Rv vis' x y.
Proof. intros Hs [Hr [?|[? ?]]]; (split; [done|]); [by left|right; split; [done|by apply Hs]]. Qed.

Lemma processed_trans vis vis1 vis2 :
  vis1 ⊆ vis2 -> processed vis vis1 -> processed vis1 vis2 -> processed vis vis2.
Proof.
  intros Hsub H1 H2 gx gy Hin Hni. destruct (decide ((gx, gy) ∈ vis1)).
  - eapply members_rel_mono; [|by apply H1]. intros a b. by apply Rv_mono.
  - by apply H2.
Qed.

(** The result of a comparison started with [vis]: it returns, enlarges the
    assumptions within the finitely many pairs, answers [true] only when [P]
    holds under the final assumptions, and does when [C] holds. *)
Definition outcome (vis : visited) (m : res (bool * visited)) (P : visited -> Prop) (C : Prop) : Prop :=
  exists b vis', m = Ok (b, vis') /\ vis ⊆ vis' /\ vis' ⊆ pairs /\
    (b = true -> P vis' /\ processed vis vis') /\ (C -> b = true).

Definition all_depths (x y : Z) : Prop := forall n, unfold_eq tx ty n x y.

Definition good (fuel : nat) (fte : visited -> Z -> Z -> res (bool * visited)) : Prop :=
  forall vis x y, in_range x y -> vis ⊆ pairs -> (size pairs < fuel + size vis)%nat ->
    outcome vis (fte vis x y) (fun v => Rv v x y) (all_depths x y).

Lemma processed_refl vis : processed vis vis.
Proof. intros gx gy ? ?. done. Qed.

Lemma vte_outcome fuel fte vis x y :
  good fuel fte -> vis ⊆ pairs -> (size pairs < fuel + size vis)%nat ->
  (IsConcreteRef x = true -> TypeIndex x < zlen tx) ->
  (IsConcreteRef y = true -> TypeIndex y < zlen ty) ->
  outcome vis (valueTypesEquivalent fte vis x y) (fun v => vt_rel (Rv v) x y) (vt_rel all_depths x y).
Proof.
  intros Hg Hv Hf Hrx Hry. unfold valueTypesEquivalent, vt_rel.
  destruct (IsConcreteRef x) eqn:Ex, (IsConcreteRef y) eqn:Ey; cbn [andb];
    try (exists (x =? y), vis; split_and!; [done|done|done| |];
         [intros ->%Z.eqb_eq; split; [done|apply processed_refl] | intros ->; apply Z.eqb_refl]).
  destruct (Bool.eqb _ _) eqn:En; cbn [negb].
  - apply eqb_prop in En.
    destruct (Hg vis (TypeIndex x) (TypeIndex y)) as (b & vis' & E & ? & ? & HP & HC); try done.
    { unfold in_range. pose proof (TypeIndex_nonneg x). pose proof (TypeIndex_nonneg y).
      specialize (Hrx eq_refl). specialize (Hry eq_refl). lia. }
    exists b, vis'. split_and!; try done; [intros Hb; destruct (HP Hb); done|]. intros [_ ?]. auto.
  - apply eqb_false_iff in En. exists false, vis. split_and!; try done. intros []; done.
Qed.

Lemma size_sub (v v' : visited) : v ⊆ v' -> (size v <= size v')%nat.
Proof. apply subseteq_size. Qed.

Lemma list_outcome fuel fte xs : forall vis ys,
  good fuel fte -> vis ⊆ pairs -> (size pairs < fuel + size vis)%nat ->
  refs_in_range (zlen tx) xs -> refs_in_range (zlen ty) ys -> length xs = length ys ->
  outcome vis (listEquivalent (valueTypesEquivalent fte) vis xs ys)
    (fun v => Forall2 (vt_rel (Rv v)) xs ys) (Forall2 (vt_rel all_depths) xs ys).
Proof.
  induction xs as [|x xs IH]; intros vis ys Hg Hv Hf Hrx Hry Hlen; destruct ys as [|y ys]; try done.
  { exists true, vis. split_and!; done. }
  inversion Hrx as [|? ? Hx1 Hx2]; inversion Hry as [|? ? Hy1 Hy2]; subst. cbn [listEquivalent].
  destruct (vte_outcome fuel fte vis x y) as (b & v1 & -> & Hs1 & Hp1 & HP & HC); try done.
  cbn [res_bind]. destruct b; [|exists false, v1; split_and!; try done; inversion 1; subst; auto].
  destruct (HP eq_refl) as [HP1 HP2]. pose proof (size_sub _ _ Hs1).
  destruct (IH v1 ys) as (b & v2 & -> & Hs2 & Hp2 & HP' & HC');
    [done|done|lia|done|done|simpl in Hlen; lia|].
  exists b, v2. split_and!; try done; [by etrans| |].
  - intros ->. destruct (HP' eq_refl) as [HF Hpr]. split; [|by eapply processed_trans].
    constructor; [|done]. eapply vt_rel_mono; [|done]. intros a c. by apply Rv_mono.
  - inversion 1; subst. auto.
Qed.

Lemma zlookup_wrap (ts : list FunctionType) i : 0 <= i < zlen ts -> wf_types ts -> wrap32 i = i.
Proof. intros Hi Hwf. apply wrap32_small. pose proof (wf_len ts Hwf). unfold is_u32. lia. Qed.

Lemma zlen_eqb {A B} (xs : list A) (ys : list B) : (zlen xs =? zlen ys) = true <-> length xs = length ys.
Proof. rewrite Z.eqb_eq. unfold zlen. lia. Qed.

Lemma members_outcome fuel fte gx gy size0 n : forall vis i,
  good fuel fte -> vis ⊆ pairs -> (size pairs < fuel + size vis)%nat ->
  0 <= i -> i + Z.of_nat n = size0 -> 0 <= gx -> 0 <= gy ->
  gx + size0 <= zlen tx -> gy + size0 <= zlen ty ->
  outcome vis (membersEquivalent tx ty fte n i vis gx gy)
    (fun v => forall j ftx fty, i <= j < size0 ->
       zlookup tx (gx + j) = Some ftx -> zlookup ty (gy + j) = Some fty ->
       Forall2 (vt_rel (Rv v)) (Params ftx) (Params fty) /\ Forall2 (vt_rel (Rv v)) (Results ftx) (Results fty))
    (members_rel tx ty all_depths gx gy size0).
Proof.
  induction n as [|n IH]; intros vis i Hg Hv Hf Hi Hn Hgx Hgy Hbx Hby; cbn [membersEquivalent].
  { exists true, vis. split_and!; try done. intros _. split; [intros; lia|done]. }
  rewrite (zlookup_wrap tx), (zlookup_wrap ty) by (done || lia).
  destruct (zindex_in tx (gx + i)) as (ftx & -> & Lx); [lia|].
  destruct (zindex_in ty (gy + i)) as (fty & -> & Ly); [lia|]. cbn [res_bind].
  destruct (wf_refs tx Hx _ _ Lx) as [Rxp Rxr]. destruct (wf_refs ty Hy _ _ Ly) as [Ryp Ryr].
  destruct (_ || _) eqn:Elen.
  { exists false, vis. split_and!; try done. intros HM. destruct (HM i ftx fty) as [F1 F2]; try done; [lia|].
    apply orb_true_iff in Elen as [E|E]; apply negb_true_iff in E.
    - rewrite (proj2 (zlen_eqb _ _)) in E; [done|by eapply Forall2_length].
    - rewrite (proj2 (zlen_eqb _ _)) in E; [done|by eapply Forall2_length]. }
  apply orb_false_iff in Elen as [E1 E2]. rewrite negb_false_iff, zlen_eqb in E1, E2.
  destruct (list_outcome fuel fte (Params ftx) vis (Params fty)) as (b & v1 & -> & Hs1 & Hp1 & HP1 & HC1); try done.
  cbn [res_bind]. destruct b; cbn [negb].
  2:{ exists false, v1. split_and!; try done. intros HM. apply HC1. apply (HM i); try done. lia. }
  destruct (HP1 eq_refl) as [F1 Pr1]. pose proof (size_sub _ _ Hs1).
  destruct (list_outcome fuel fte (Results ftx) v1 (Results fty)) as (b & v2 & -> & Hs2 & Hp2 & HP2 & HC2);
    try done; [lia|].
  cbn [res_bind]. destruct b; cbn [negb].
  2:{ exists false, v2. split_and!; try done; [by etrans|]. intros HM. apply HC2. apply (HM i); try done. lia. }
  destruct (HP2 eq_refl) as [F2 Pr2]. pose proof (size_sub _ _ Hs2).
  destruct (IH v2 (i + 1)) as (b & v3 & -> & Hs3 & Hp3 & HP3 & HC3); try done; try lia.
  exists b, v3. split_and!; try done; [by etrans; [etrans|]|].
  intros Hb. destruct (HP3 Hb) as [HM Pr3]. split.
  - intros j ftx' fty' Hj Lx' Ly'. destruct (decide (j = i)) as [->|]; [|apply HM with j; done || lia].
    rewrite Lx in Lx'. rewrite Ly in Ly'. simplify_eq.
    split; (eapply Forall2_vt_mono; [|done]); intros a c; apply Rv_mono; [by etrans|done].
  - eapply processed_trans; [| |done]; [done|]. eapply processed_trans; [| |done]; done.
Qed.

Lemma all_depths_unfold x y :
  all_depths x y ->
  same_position tx ty x y /\ members_rel tx ty all_depths (groupStart tx x) (groupStart ty y) (groupSize tx x).
Proof.
  intros H. split; [apply (H 1%nat)|]. intros i ftx fty Hi Lx Ly.
  assert (forall n, Forall2 (vt_rel (unfold_eq tx ty n)) (Params ftx) (Params fty) /\
                    Forall2 (vt_rel (unfold_eq tx ty n)) (Results ftx) (Results fty)) as HF.
  { intros n. by apply (proj2 (H (S n)) i). }
  assert (forall xs ys, (forall n, Forall2 (vt_rel (unfold_eq tx ty n)) xs ys) -> Forall2 (vt_rel all_depths) xs ys) as L.
  { intros xs ys HA. apply Forall2_same_length_lookup. split; [by eapply Forall2_length, (HA 0%nat)|].
    intros j a b Ha Hb. assert (forall n, vt_rel (unfold_eq tx ty n) a b) as V.
    { intros n. by eapply Forall2_lookup_lr; [apply (HA n)| |]. }
    unfold vt_rel in *. destruct (_ && _); [|apply (V 0%nat)].
    split; [apply (V 0%nat)|]. intros n. apply V. }
  split; apply L; intros n; apply HF.
Qed.

Lemma functionTypesEquivalent_good fuel : good fuel (functionTypesEquivalent tx ty same fuel).
Proof.
  induction fuel as [|fuel IH]; intros vis x y Hr Hv Hf.
  { pose proof (size_sub _ _ Hv). lia. }
  cbn [functionTypesEquivalent]. destruct (_ && same) eqn:Es.
  { apply andb_true_iff in Es as [->%Z.eqb_eq ->]. exists true, vis. split_and!; try done.
    intros _. split; [split; [done|by left]|done]. }
  destruct Hr as [Hrx Hry].
  destruct (group_spec tx x Hx Hrx) as (-> & Gx1 & Gx2 & Gx3).
  destruct (group_spec ty y Hy Hry) as (-> & Gy1 & Gy2 & Gy3). cbn [res_bind].
  pose proof (wf_len tx Hx). pose proof (wf_len ty Hy).
  rewrite !wrap32_small by (unfold is_u32; lia).
  destruct (Z.eqb_spec (groupSize tx x) (groupSize ty y)) as [Esz|Esz]; cbn [negb].
  2:{ exists false, vis. split_and!; try done. intros [[? ?] _]%all_depths_unfold. done. }
  destruct (Z.eqb_spec (x - groupStart tx x) (y - groupStart ty y)) as [Eo|Eo]; cbn [negb].
  2:{ exists false, vis. split_and!; try done. intros [[? ?] _]%all_depths_unfold. done. }
  case_bool_decide as Hin.
  { exists true, vis. split_and!; try done. intros _. split; [|done]. split; [done|]. by right. }
  assert ((groupStart tx x, groupStart ty y) ∈ pairs) as Hpair
    by (apply elem_of_pairs; unfold in_range; pose proof (groupSize_pos tx x); lia).
  destruct (members_outcome fuel (functionTypesEquivalent tx ty same fuel) (groupStart tx x) (groupStart ty y)
    (groupSize tx x) (Z.to_nat (groupSize tx x)) ({[(groupStart tx x, groupStart ty y)]} ∪ vis) 0)
    as (b & v1 & -> & Hs1 & Hp1 & HP1 & HC1); try done; try lia.
  { set_solver. }
  { rewrite size_union, size_singleton by set_solver. lia. }
  exists b, v1. split_and!; try done; [set_solver| |intros [_ ?]%all_depths_unfold; auto].
  intros Hb. destruct (HP1 Hb) as [HM Pr]. split.
  { split; [done|]. right. split; [done|]. apply Hs1. set_solver. }
  intros gx gy H1 H2. destruct (decide ((gx, gy) = (groupStart tx x, groupStart ty y))) as [[= -> ->]|].
  - destruct (group_member tx x 0 Hx Hrx) as [_ E]; [pose proof (groupSize_pos tx x); lia|].
    rewrite Z.add_0_r in E. rewrite E. intros i ftx fty Hi. by apply HM.
  - apply Pr; [done|]. set_solver.
Qed.

(** A closed set of assumptions is a bisimulation. *)
Lemma Rv_all_depths vis x y : processed ∅ vis -> Rv vis x y -> all_depths x y.
Proof.
  intros Hp HR n. revert x y HR. induction n as [|n IH]; intros x y HR; [done|].
  destruct HR as [[Hrx Hry] [[-> ->]|[Hpos Hin]]].
  { rewrite (Hsame eq_refl). apply unfold_eq_refl. }
  split; [done|]. destruct (group_member tx x 0 Hx Hrx) as [_ E]; [pose proof (groupSize_pos tx x); lia|].
  rewrite Z.add_0_r in E. rewrite <- E. eapply members_rel_mono; [exact IH|]. apply Hp; [done|set_solver].
Qed.

Lemma structural_equivalence_correct x y :
  is_u32 x -> is_u32 y ->
  exists b, structurallyEquivalentTypesAcrossModules tx ty same x y = Ok b /\
    (b = true <-> in_range x y /\ all_depths x y).
Proof.
  intros Ux Uy. unfold structurallyEquivalentTypesAcrossModules, is_u32 in *.
  destruct (_ || _) eqn:Er.
  { exists false. split; [done|]. split; [done|]. intros [[? ?] _].
    apply orb_true_iff in Er as [E|E]; bools; lia. }
  apply orb_false_iff in Er as [E1 E2]. bools.
  destruct (functionTypesEquivalent_good (equivFuel tx ty) ∅ x y) as (b & v & -> & _ & _ & HP & HC).
  { unfold in_range. lia. }
  { set_solver. }
  { pose proof pairs_size. unfold equivFuel. lia. }
  exists b. split; [done|]. split.
  - intros ->. destruct (HP eq_refl) as [HR Hpr]. split; [unfold in_range; lia|].
    by eapply Rv_all_depths.
  - intros [_ ?]. auto.
Qed.

End EquivalenceCorrect.

Lemma unfold_eq_sym ts n x y : unfold_eq ts ts n x y -> unfold_eq ts ts n y x.
Proof.
  revert x y; induction n as [|n IH]; intros x y; [done|]. simpl.
  intros [[Hs Ho] HM]. split; [split; congruence|]. rewrite <- Hs.
  intros i ftx fty Hi Lx Ly. destruct (HM i fty ftx Hi Ly Lx) as [F1 F2].
  split; apply Forall2_flip; (eapply Forall2_impl; [done|]);
    intros a b; simpl; unfold vt_rel; rewrite (andb_comm (IsConcreteRef b)); destruct (_ && _); naive_solver.
Qed.

Lemma vt_rel_trans (R : Z -> Z -> Prop) a b c :
  (forall x y z, R x y -> R y z -> R x z) -> vt_rel R a b -> vt_rel R b c -> vt_rel R a c.
Proof.
  unfold vt_rel. intros HR. destruct (IsConcreteRef a) eqn:Ea, (IsConcreteRef b) eqn:Eb, (IsConcreteRef c) eqn:Ec;
    cbn [andb]; intros; destruct_and?; subst; try congruence. split; [congruence|eauto].
Qed.

Lemma unfold_eq_trans ts n x y z :
  wf_types ts -> 0 <= x < zlen ts -> 0 <= y < zlen ts ->
  unfold_eq ts ts n x y -> unfold_eq ts ts n y z -> unfold_eq ts ts n x z.
Proof.
  intros Hwf Hx Hy.
  revert x y z Hx Hy; induction n as [|n IH]; intros x y z Hx Hy; [done|]. simpl.
  intros [[Hs1 Ho1] HM1] [[Hs2 Ho2] HM2]. split; [split; congruence|].
  intros i ftx ftz Hi Lx Lz. rewrite <- Hs1 in HM2.
  destruct (group_spec ts y Hwf Hy) as (_ & ? & ? & ?).
  destruct (zindex_in ts (groupStart ts y + i)) as (fty & _ & Ly); [lia|].
  destruct (HM1 i ftx fty Hi Lx Ly) as [P1 R1]. destruct (HM2 i fty ftz Hi Ly Lz) as [P2 R2].
  destruct (wf_refs ts Hwf _ _ Lx) as [Wxp Wxr]. destruct (wf_refs ts Hwf _ _ Ly) as [Wyp Wyr].
  assert (forall a b c, refs_in_range (zlen ts) a -> refs_in_range (zlen ts) b ->
    Forall2 (vt_rel (unfold_eq ts ts n)) a b -> Forall2 (vt_rel (unfold_eq ts ts n)) b c ->
    Forall2 (vt_rel (unfold_eq ts ts n)) a c) as L; [|split; eauto].
  clear -IH Hwf. intros a b c Wa Wb F1. revert c. induction F1 as [|u v a b Huv F IHF]; intros c F2;
    inversion F2 as [|? w ? ? Hvw F2']; subst; [done|].
  inversion Wa; inversion Wb; subst. constructor; [|auto].
  unfold vt_rel in *. destruct (IsConcreteRef u) eqn:Eu, (IsConcreteRef v) eqn:Ev, (IsConcreteRef w) eqn:Ew;
    cbn [andb] in *; destruct_and?; subst; try congruence.
  split; [congruence|]. eapply IH; [| |done|done]; pose proof (TypeIndex_nonneg u); pose proof (TypeIndex_nonneg v); split; auto.
Qed.

(** ** The packed representation and its abstract types *)

Inductive heaptype :=
| HFunc
| HExtern
| HExn
| HIdx (i : Z).

Inductive valtype :=
| TI32
| TI64
| TF32
| TF64
| TV128
| TRef (nullable : bool) (h : heaptype).

#[global] Instance heaptype_eq_dec : EqDecision heaptype.
Proof. solve_decision. Defined.
#[global] Instance valtype_eq_dec : EqDecision valtype.
Proof. solve_decision. Defined.

Definition pack (t : valtype) : ValueType :=
  match t with
  | TI32 => ValueTypeI32
  | TI64 => ValueTypeI64
  | TF32 => ValueTypeF32
  | TF64 => ValueTypeF64
  | TV128 => ValueTypeV128
  | TRef n HFunc => if n then ValueTypeFuncref else AsNonNullable ValueTypeFuncref
  | TRef n HExtern => if n then ValueTypeExternref else AsNonNullable ValueTypeExternref
  | TRef n HExn => if n then ValueTypeExnref else AsNonNullable ValueTypeExnref
  | TRef n (HIdx i) => ValueTypeConcreteRef i n
  end.

Definition valid_vt (t : valtype) : Prop :=
  match t with
  | TRef _ (HIdx i) => is_u32 i
  | _ => True
  end.

Definition heap_sub (ts : list FunctionType) (h h' : heaptype) : Prop :=
  h = h' \/
  match h, h' with
  | HIdx _, HFunc => True
  | HIdx i, HIdx j => in_range ts ts i j /\ all_depths ts ts i j
  | _, _ => False
  end.

(** Subtyping of the typed function references proposal: nullability is
    covariant, a concrete function type is below [func], and concrete types
    are compared by their unfoldings. *)
Definition subtype (ts : list FunctionType) (a e : valtype) : Prop :=
  match a, e with
  | TRef n h, TRef n' h' => (n = true -> n' = true) /\ heap_sub ts h h'
  | _, _ => a = e
  end.

(** Low bits of [lo + i * 2^32]. *)
Lemma land_low lo i m : 0 <= lo < 2 ^ 32 -> 0 <= m < 2 ^ 32 -> Z.land (lo + i * 2 ^ 32) m = Z.land lo m.
Proof.
  intros Hlo Hm. rewrite <- lor_shiftl_add by lia.
  apply Z.bits_inj'; intros n Hn. rewrite !Z.land_spec, Z.lor_spec.
  destruct (Z.lt_ge_cases n 32).
  - rewrite Z.shiftl_spec_low by lia. by rewrite orb_false_r.
  - assert (Z.testbit m n = false) as ->; [|by rewrite !andb_false_r].
    rewrite <- (Z.mod_small m (2 ^ 32)) by lia. apply Z.mod_pow2_bits_high. lia.
Qed.

Lemma lor_low lo i m : 0 <= lo < 2 ^ 32 -> 0 <= Z.lor lo m < 2 ^ 32 ->
  Z.lor (lo + i * 2 ^ 32) m = Z.lor lo m + i * 2 ^ 32.
Proof.
  intros Hlo Hm. rewrite <- !lor_shiftl_add by lia.
  rewrite <- !Z.lor_assoc. f_equal. apply Z.lor_comm.
Qed.

Lemma ldiff_low lo i m : 0 <= lo < 2 ^ 32 -> 0 <= m < 2 ^ 32 -> 0 <= Z.ldiff lo m < 2 ^ 32 ->
  Z.ldiff (lo + i * 2 ^ 32) m = Z.ldiff lo m + i * 2 ^ 32.
Proof.
  intros Hlo Hm Hd. rewrite <- !lor_shiftl_add by lia.
  apply Z.bits_inj'; intros n Hn. rewrite Z.ldiff_spec, !Z.lor_spec, Z.ldiff_spec.
  destruct (Z.lt_ge_cases n 32).
  - rewrite Z.shiftl_spec_low by lia. by rewrite !orb_false_r.
  - assert (Z.testbit m n = false) as ->; [|by rewrite !andb_true_r].
    rewrite <- (Z.mod_small m (2 ^ 32)) by lia. apply Z.mod_pow2_bits_high. lia.
Qed.

Lemma concrete_value i n : is_u32 i ->
  ValueTypeConcreteRef i n = (if n then 0x270 else 0x370) + i * 2 ^ 32.
Proof.
  intros Hi. unfold ValueTypeConcreteRef.
  assert (is_u64 (i * 2 ^ 32)) by (unfold is_u64, is_u32 in *; lia).
  rewrite wrap64_small by (by rewrite Z.shiftl_mul_pow2 by lia).
  change (Z.lor ValueTypeFuncref flagConcreteRef) with 0x270.
  rewrite lor_shiftl_add by lia. destruct n; [done|]. cbn [negb].
  change flagNonNullable with 0x100. by rewrite lor_low by (vm_compute; intuition congruence).
Qed.

(** The accessors on [lo + i * 2^32], by computation on [lo]. *)
Lemma accessors_low lo i : 0 <= lo < 2 ^ 32 -> is_u32 i ->
  let v := lo + i * 2 ^ 32 in
  Kind v = Kind lo /\ IsConcreteRef v = IsConcreteRef lo /\ IsRef v = IsRef lo /\
  IsNullable v = IsNullable lo /\ TypeIndex v = i.
Proof.
  intros Hlo Hi v.
  assert (Kind v = Kind lo) as Hk.
  { unfold Kind, wrap8, v. replace (i * 2 ^ 32) with ((i * 2 ^ 24) * 2 ^ 8) by lia.
    rewrite Z.mod_add by lia. done. }
  assert (Z.land v flagConcreteRef = Z.land lo flagConcreteRef) as Hc by (apply land_low; [done|vm_compute; intuition congruence]).
  assert (Z.land v flagNonNullable = Z.land lo flagNonNullable) as Hn by (apply land_low; [done|vm_compute; intuition congruence]).
  unfold IsNullable, IsRef, IsConcreteRef. rewrite Hk, Hc, Hn. split_and!; try done.
  unfold TypeIndex, v. rewrite Z.shiftr_div_pow2, Z.div_add, Z.div_small by lia.
  by apply wrap32_small.
Qed.

(** What each accessor answers on a packed type. *)
Definition vt_nullable (t : valtype) : bool := match t with TRef n _ => n | _ => false end.
Definition vt_isref (t : valtype) : bool := match t with TRef _ _ => true | _ => false end.
Definition vt_index (t : valtype) : option Z := match t with TRef _ (HIdx i) => Some i | _ => None end.
Definition vt_with (n : bool) (t : valtype) : valtype := match t with TRef _ h => TRef n h | t => t end.

Lemma pack_cases t : valid_vt t ->
  (exists n i, t = TRef n (HIdx i) /\ is_u32 i /\ pack t = (if n then 0x270 else 0x370) + i * 2 ^ 32) \/
  (vt_index t = None /\ 0 <= pack t < 2 ^ 32).
Proof.
  intros Hv. destruct t as [| | | | |n [| | |i]];
    try (right; split; [done|]; destruct n || idtac; vm_compute; intuition congruence).
  left. exists n, i. split_and!; try done. by apply concrete_value.
Qed.

Lemma pack_accessors t : valid_vt t ->
  IsRef (pack t) = vt_isref t /\ IsNullable (pack t) = vt_nullable t /\
  IsConcreteRef (pack t) = bool_decide (is_Some (vt_index t)) /\
  (forall i, vt_index t = Some i -> TypeIndex (pack t) = i) /\
  (forall n h, t = TRef n h ->
     AsNullable (pack t) = pack (TRef true h) /\ AsNonNullable (pack t) = pack (TRef false h)).
Proof.
  intros Hv. destruct (pack_cases t Hv) as [(n & i & -> & Hi & E)|[Hn _]].
  - rewrite E. destruct (accessors_low (if n then 0x270 else 0x370) i) as (_ & Hc & Hr & Hnl & Ht);
      [destruct n; lia|done|]. rewrite Hc, Hr, Hnl, Ht. split_and!; try (by destruct n).
    + simpl. intros ? [= ->]. done.
    + intros n' h [= <- <-]. unfold AsNullable, AsNonNullable, pack.
      rewrite !(concrete_value i) by done. change flagNonNullable with 0x100. destruct n;
        rewrite ldiff_low, lor_low by (vm_compute; intuition congruence); done.
  - destruct t as [| | | | |n [| | |i]]; try done; (split_and!; [..|intros n' h; (discriminate || intros [= <- <-])]);
      try done; destruct n; done.
Qed.

Lemma pack_inj a b : valid_vt a -> valid_vt b -> pack a = pack b -> a = b.
Proof.
  intros Ha Hb E.
  destruct (pack_accessors a Ha) as (R1 & N1 & _ & I1 & _), (pack_accessors b Hb) as (R2 & N2 & _ & I2 & _).
  destruct (pack_cases a Ha) as [(n & i & -> & Hi & E1)|[Hn1 B1]], (pack_cases b Hb) as [(n' & j & -> & Hj & E2)|[Hn2 B2]].
  - rewrite E in N1, I1. rewrite N2 in N1. simpl in N1. specialize (I1 i eq_refl). specialize (I2 j eq_refl). congruence.
  - rewrite <- E in B2. rewrite E1 in B2, E. unfold is_u32 in Hi. destruct (decide (i = 0)) as [->|]; [|destruct n; lia].
    exfalso. destruct b as [| | | | |n'' [| | |]]; try done; destruct n; try destruct n''; vm_compute in E; discriminate.
  - rewrite E, E2 in B1. rewrite E2 in E. unfold is_u32 in Hj. destruct (decide (j = 0)) as [->|]; [|destruct n'; lia].
    exfalso. destruct a as [| | | | |n'' [| | |]]; try done; destruct n'; try destruct n''; vm_compute in E; discriminate.
  - destruct a as [| | | | |n [| | |]]; try done; destruct b as [| | | | |n' [| | |]]; try done;
      try destruct n; try destruct n'; try done; vm_compute in E; discriminate.
Qed.

Lemma pack_eqb a b : valid_vt a -> valid_vt b -> (pack a =? pack b) = bool_decide (a = b).
Proof.
  intros Ha Hb. case_bool_decide as E; [subst; apply Z.eqb_refl|].
  apply Z.eqb_neq. intros E'. by apply E, pack_inj.
Qed.

Lemma pack_AsNullable t : valid_vt t -> AsNullable (pack t) = pack (vt_with true t).
Proof.
  intros Hv. destruct t as [| | | | |n h]; try reflexivity.
  destruct (pack_accessors (TRef n h) Hv) as (_ & _ & _ & _ & H). apply (H n h eq_refl).
Qed.

Lemma pack_kind_func t : valid_vt t ->
  (Kind (pack t) =? Kind ValueTypeFuncref) =
  match t with TRef _ HFunc | TRef _ (HIdx _) => true | _ => false end.
Proof.
  intros Hv. destruct (pack_cases t Hv) as [(n & i & -> & Hi & E)|[Hn _]].
  - rewrite E. destruct (accessors_low (if n then 0x270 else 0x370) i) as (-> & _);
      [destruct n; lia|done|]. by destruct n.
  - destruct t as [| | | | |n [| | |i]]; try reflexivity; destruct n; reflexivity || done.
Qed.

Lemma valid_vt_with n t : valid_vt t -> valid_vt (vt_with n t).
Proof. by destruct t as [| | | | |? []]. Qed.

Lemma isRefSubtypeOf_correct m a e :
  wf_types (TypeSection m) -> valid_vt a -> valid_vt e ->
  exists b, isRefSubtypeOf m (pack a) (pack e) = Ok b /\ (b = true <-> subtype (TypeSection m) a e).
Proof.
  intros Hwf Ha He. unfold isRefSubtypeOf.
  rewrite pack_eqb, !pack_AsNullable, pack_eqb, pack_kind_func by auto using valid_vt_with.
  destruct (pack_accessors a Ha) as (_ & -> & -> & Ia & _), (pack_accessors e He) as (_ & -> & -> & Ie & _).
  case_bool_decide as E1.
  { exists true. split; [done|]. subst e. destruct a as [| | | | |n h]; simpl; try done.
    split; [|done]. intros _. split; [done|by left]. }
  destruct a as [| | | | |n h], e as [| | | | |n' h'];
    try (exists false; split; [|split; done];
         cbn [vt_with vt_index vt_nullable]; rewrite ?andb_false_r, ?bool_decide_eq_false_2 by (done || by intros []);
         rewrite ?andb_false_r; done).
  cbn [vt_with vt_index vt_nullable]. case_bool_decide as E2.
  { injection E2 as <-. exists (n' || negb n). destruct n, n'; try done; simpl.
    - split; [by destruct h; rewrite ?bool_decide_eq_false_2 by (by intros []); rewrite ?bool_decide_eq_true_2 by done|].
      naive_solver.
    - split; [done|]. split; [|done]. intros _. split; [done|by left]. }
  cbn [andb]. destruct h as [| | |i], h' as [| | |j];
    rewrite ?(bool_decide_eq_false_2 (is_Some None)) by (by intros []);
    rewrite ?bool_decide_eq_true_2 by done; cbn [andb negb]; try done;
    try (exists false; split; [by destruct n, n'|]; split; [done|]; intros [_ [[=]|[]]]).
  - exists (negb n || n'). split; [by destruct n, n'|]. split.
    + intros Hb. split; [by destruct n, n'|by right].
    + intros [Hn _]. destruct n; [by rewrite Hn|done].
  - destruct n, n'; cbn [andb negb];
      try (exists false; split; [done|]; split; [done|]; intros [Hn _]; specialize (Hn eq_refl); done).
    all: rewrite (Ia i eq_refl), (Ie j eq_refl);
      destruct (structural_equivalence_correct (TypeSection m) (TypeSection m) true Hwf Hwf (fun _ => eq_refl) i j Ha He)
        as (b & Eb & Hb); exists b; (split; [exact Eb|]); rewrite Hb; unfold subtype, heap_sub;
      (split; [intros ?; split; [done|by right]|intros [_ [[=]|?]]; [congruence|done]]).
Qed.

(** Whatever the packed types are, the comparison returns: well-formedness of
    the type section is all it relies on. *)
Lemma isRefSubtypeOf_total m a e :
  wf_types (TypeSection m) -> exists b, isRefSubtypeOf m a e = Ok b.
Proof.
  intros Hwf. unfold isRefSubtypeOf.
  destruct (structural_equivalence_correct (TypeSection m) (TypeSection m) true Hwf Hwf (fun _ => eq_refl)
    (TypeIndex a) (TypeIndex e)) as (b & Eb & _); [apply wrap32_range|apply wrap32_range|].
  unfold structurallyEquivalentTypes. rewrite Eb. repeat case_match; eauto.
Qed.

Lemma areRefTypesCompatible_total m a e :
  wf_types (TypeSection m) -> exists b, areRefTypesCompatible m a e = Ok b.
Proof.
  intros Hwf. unfold areRefTypesCompatible.
  destruct (isRefSubtypeOf_total m a e Hwf) as [[] ->]; [by eexists|].
  by apply isRefSubtypeOf_total.
Qed.

Lemma subtype_trans ts a b c :
  wf_types ts -> subtype ts a b -> subtype ts b c -> subtype ts a c.
Proof.
  intros Hwf. destruct a as [| | | | |n h], b as [| | | | |n' h'], c as [| | | | |n'' h'']; simpl; try congruence.
  intros [N1 H1] [N2 H2]. split; [auto|].
  destruct H1 as [->|H1]; [done|]. destruct H2 as [<-|H2]; [by right|]. right.
  destruct h, h', h''; try done. destruct H1 as [[R1 R2] A1], H2 as [[R3 R4] A2]. split; [by split|].
  intros k. eapply unfold_eq_trans; [exact Hwf|exact R1|exact R2|apply A1|apply A2].
Qed.

(** ** Properties *)

(** C23: Structural equivalence of function types, across two type sections or
    within one: on well-formed sections the comparison terminates without
    panic, and answers [true] exactly when both indexes are in range and the
    two types unfold to the same tree at every depth, rec group member by rec
    group member.  In particular assuming the pairs under comparison equal
    neither accepts different types nor rejects equal ones. *)
Theorem structural_equivalence_spec (tx ty : list FunctionType) (same : bool) (x y : Z) :
  wf_types tx -> wf_types ty -> (same = true -> tx = ty) -> is_u32 x -> is_u32 y ->
  exists b, structurallyEquivalentTypesAcrossModules tx ty same x y = Ok b /\
    (b = true <-> (0 <= x < zlen tx /\ 0 <= y < zlen ty) /\ forall n, unfold_eq tx ty n x y).
Proof. intros. by apply structural_equivalence_correct. Qed.

(** Two mutually recursive pairs of types: [f : (ref 1) -> ()], [g : (ref 0) -> i32]. *)
Definition example_types (at0 : Z) : list FunctionType := [
  mkFunctionType [ValueTypeConcreteRef (at0 + 1) false] [] 1 0 2 0;
  mkFunctionType [ValueTypeConcreteRef at0 false] [ValueTypeI32] 1 1 2 1
].

Lemma wf_example_types : wf_types (example_types 0 ++ example_types 2).
Proof.
  assert (forall t ft, zlookup (example_types 0 ++ example_types 2) t = Some ft ->
    t = 0 \/ t = 1 \/ t = 2 \/ t = 3) as H.
  { intros t ft E. apply zlookup_Some_lt in E. change (zlen _) with 4 in E. lia. }
  split; [vm_compute; done|..].
  - intros t ft E. destruct (H t ft E) as [->|[->|[->| ->]]]; vm_compute in E; injection E as <-;
      (split; repeat constructor; vm_compute; done).
  - intros t ft E. destruct (H t ft E) as [->|[->|[->| ->]]]; vm_compute in E; injection E as <-; vm_compute; done.
  - intros t ft E. destruct (H t ft E) as [->|[->|[->| ->]]]; vm_compute in E; injection E as <-; vm_compute; intuition congruence.
  - intros t ft i E Hs Hi. assert (i = 0 \/ i = 1) as Hi2.
    { destruct (H t ft E) as [->|[->|[->| ->]]]; vm_compute in E; injection E as <-; simpl in Hi; lia. }
    destruct (H t ft E) as [->|[->|[->| ->]]]; vm_compute in E; injection E as <-;
      destruct Hi2 as [-> | ->]; eexists; (split; [reflexivity|]); vm_compute; done.
Qed.

Lemma structural_equivalence_spec_witness :
  exists b, structurallyEquivalentTypesAcrossModules (example_types 0 ++ example_types 2)
      (example_types 0 ++ example_types 2) true 1 3 = Ok b /\
    (b = true <-> (0 <= 1 < 4 /\ 0 <= 3 < 4) /\
      forall n, unfold_eq (example_types 0 ++ example_types 2) (example_types 0 ++ example_types 2) n 1 3).
Proof.
  apply (structural_equivalence_spec (example_types 0 ++ example_types 2) (example_types 0 ++ example_types 2) true 1 3
    wf_example_types wf_example_types (fun _ => eq_refl)); unfold is_u32; lia.
Defined.

(** The packed [ValueType] represents the value types of the proposals: the
    accessors answer what they should on every packed type, the conversions
    between the nullable and the non-nullable form are exact, and different
    types have different representations. *)
Theorem valuetype_representation (a b : valtype) :
  valid_vt a -> valid_vt b ->
  (IsRef (pack a) = vt_isref a /\ IsNullable (pack a) = vt_nullable a /\
   IsConcreteRef (pack a) = bool_decide (is_Some (vt_index a)) /\
   (forall i, vt_index a = Some i -> TypeIndex (pack a) = i) /\
   (forall n h, a = TRef n h ->
     AsNullable (pack a) = pack (TRef true h) /\ AsNonNullable (pack a) = pack (TRef false h))) /\
  (pack a = pack b <-> a = b).
Proof.
  intros Ha Hb. split; [by apply pack_accessors|]. split; [by apply pack_inj|by intros ->].
Qed.

Lemma valuetype_representation_witness :
  pack (TRef false (HIdx 7)) = pack (TRef true (HIdx 7)) <-> TRef false (HIdx 7) = TRef true (HIdx 7).
Proof. apply (valuetype_representation (TRef false (HIdx 7)) (TRef true (HIdx 7))); simpl; unfold is_u32; lia. Defined.

(** C35: [isRefSubtypeOf] always returns and decides the subtyping of the typed function
    references proposal on packed value types: a reference is a subtype when it is not
    nullable where the other is not, and its heap type is the same, or a concrete type
    below [func], or a concrete type whose definition unfolds to the same tree at every
    depth.  That subtyping is a preorder.  The types of the module are well formed, as
    the decoder makes them: references are in range and rec groups are contiguous. *)
Theorem subtyping_spec (m : Module) (a b c : valtype) :
  wf_types (TypeSection m) -> valid_vt a -> valid_vt b ->
  (exists r, isRefSubtypeOf m (pack a) (pack b) = Ok r /\ (r = true <-> subtype (TypeSection m) a b)) /\
  subtype (TypeSection m) a a /\
  (subtype (TypeSection m) a b -> subtype (TypeSection m) b c -> subtype (TypeSection m) a c).
Proof.
  intros Hwf Ha Hb. split_and!.
  - by apply isRefSubtypeOf_correct.
  - destruct a; simpl; try done. split; [done|by left].
  - by apply subtype_trans.
Qed.

Lemma subtyping_spec_witness :
  exists r, isRefSubtypeOf (mkModule (example_types 0 ++ example_types 2) [] [] [] 0 None)
    (pack (TRef false (HIdx 1))) (pack (TRef true (HIdx 3))) = Ok r /\
    (r = true <-> subtype (example_types 0 ++ example_types 2) (TRef false (HIdx 1)) (TRef true (HIdx 3))).
Proof.
  apply (subtyping_spec (mkModule (example_types 0 ++ example_types 2) [] [] [] 0 None)
    (TRef false (HIdx 1)) (TRef true (HIdx 3)) TI32); [exact wf_example_types|simpl; unfold is_u32; lia..].
Defined.
