(* ===== verification/ValStack.v ===== *)
(** * The operand and control stacks of validation (src/internal/wasm/func_validation.go)

    [valueTypeStack], [controlBlockStack] and [stacks] with their operations,
    as a state and error monad [M], and the invariant the operations keep.

    The stacks are lists whose head is the top, [stackLimits] a list whose head
    is the innermost limit.  The position [pc] of the validation loop is a field
    of the state.  A Go map that may be nil is an [option (gset Z)].  Error
    messages keep the string arguments of the format and drop the numeric ones. *)

From stdpp Require Import pretty.
From S2P Require Import Prelude Leb128 Features Opcodes Types.

(** ** Names and error messages *)

Definition ValueTypeName (t : ValueType) : string :=
  if IsConcreteRef t then
    if IsNullable t then "(ref null " +:+ pretty (TypeIndex t) +:+ ")"
    else "(ref " +:+ pretty (TypeIndex t) +:+ ")"
  else
    let u := AsNullable t in
    if u =? ValueTypeI32 then "i32"
    else if u =? ValueTypeI64 then "i64"
    else if u =? ValueTypeF32 then "f32"
    else if u =? ValueTypeF64 then "f64"
    else if u =? ValueTypeV128 then "v128"
    else if u =? ValueTypeFuncref then if negb (IsNullable t) then "(ref func)" else "funcref"
    else if u =? ValueTypeExternref then if negb (IsNullable t) then "(ref extern)" else "externref"
    else if u =? ValueTypeExnref then if negb (IsNullable t) then "(ref exn)" else "exnref"
    else "unknown".

Definition newline_tab : string :=
  String.String (Ascii.ascii_of_nat 10) (String.String (Ascii.ascii_of_nat 9) EmptyString).

Fixpoint writeValueTypes (vts : list ValueType) : string :=
  match vts with
  | [] => ""
  | [v] => ValueTypeName v
  | v :: vts' => ValueTypeName v +:+ ", " +:+ writeValueTypes vts'
  end.

Definition typeMismatchError (isParam : bool) (context : string) (have want : ValueType) (i : Z) : string :=
  "cannot use " +:+ ValueTypeName have
  +:+ (if String.eqb context "" then "" else " in " +:+ context +:+ " block")
  +:+ (if isParam then " as param" else " as result")
  +:+ "[" +:+ pretty i +:+ "] type " +:+ ValueTypeName want.

Definition typeCountError (isParam : bool) (context : string) (have want : list ValueType) : string :=
  (if zlen have >? zlen want then "too many " else "not enough ")
  +:+ (if isParam then "params" else "results")
  +:+ (if String.eqb context "" then ""
       else (if isParam then " for " else " in ") +:+ context +:+ " block")
  +:+ newline_tab +:+ "have (" +:+ writeValueTypes have +:+ ")"
  +:+ newline_tab +:+ "want (" +:+ writeValueTypes want +:+ ")".

(** ** State *)

Record controlBlock := mkControlBlock {
  startAt : Z;
  elseAt : Z;
  endAt : Z;
  blockType : FunctionType;
  blockTypeBytes : Z;
  cbOp : Z;
  savedInitLocals : option (gset Z);
}.

Record stacks := mkStacks {
  pc : Z;
  stack : list ValueType;
  stackLimits : list Z;
  maximumStackPointer : Z;
  cs : list controlBlock;
  initLocals : option (gset Z);
}.

Definition set_pc (p : Z) (s : stacks) : stacks :=
  mkStacks p (stack s) (stackLimits s) (maximumStackPointer s) (cs s) (initLocals s).
Definition set_stack (st : list ValueType) (s : stacks) : stacks :=
  mkStacks (pc s) st (stackLimits s) (maximumStackPointer s) (cs s) (initLocals s).
Definition set_limits (ls : list Z) (s : stacks) : stacks :=
  mkStacks (pc s) (stack s) ls (maximumStackPointer s) (cs s) (initLocals s).
Definition set_max (n : Z) (s : stacks) : stacks :=
  mkStacks (pc s) (stack s) (stackLimits s) n (cs s) (initLocals s).
Definition set_cs (c : list controlBlock) (s : stacks) : stacks :=
  mkStacks (pc s) (stack s) (stackLimits s) (maximumStackPointer s) c (initLocals s).
Definition set_initLocals (i : option (gset Z)) (s : stacks) : stacks :=
  mkStacks (pc s) (stack s) (stackLimits s) (maximumStackPointer s) (cs s) i.

(** ** The monad *)

Definition M (A : Type) : Type := stacks -> res (A * stacks).

#[global] Instance M_ret : MRet M := fun A a s => Ok (a, s).
#[global] Instance M_bind : MBind M := fun A B k m s => let! (a, s) := m s in k a s.

Definition gets {A} (f : stacks -> A) : M A := fun s => Ok (f s, s).
Definition modify (f : stacks -> stacks) : M unit := fun s => Ok (tt, f s).
Definition lift {A} (r : res A) : M A := fun s => let! a := r in Ok (a, s).
Definition fail {A} (msg : string) : M A := fun _ => Err msg.
(** [fmt.Errorf("...%v", err)]: [prefix] is the text before the wrapped error. *)
Definition wrap {A} (prefix : string) (m : M A) : M A := fun s =>
  match m s with Err e => Err (prefix +:+ e) | r => r end.
(** A Go error that replaces the one of the call. *)
Definition failAs {A} (msg : string) (m : M A) : M A := fun s =>
  match m s with Err _ => Err msg | r => r end.
Definition guard_ (b : bool) (msg : string) : M unit := if b then mret tt else fail msg.
Definition advance (n : Z) : M unit := modify (fun s => set_pc (pc s + n) s).

(** ** valueTypeStack *)

Definition valueTypeUnknown : ValueType := 0xff.

(** [s.stack[limit]], read when [len(s.stack) == limit+1], is the top. *)
Definition tryPop : M (ValueType * Z * bool) := fun s =>
  let limit := match stackLimits s with [] => 0 | l :: _ => l end in
  let stackLen := zlen (stack s) in
  if stackLen <=? limit then Ok ((0, limit, false), s)
  else
    match stack s with
    | [] => Panic "index out of range"
    | v :: st =>
        if (stackLen =? limit + 1) && (v =? valueTypeUnknown) then Ok ((valueTypeUnknown, limit, true), s)
        else Ok ((v, limit, true), set_stack st s)
    end.

Definition pop : M ValueType :=
  '(vt, limit, ok) ← tryPop;
  if ok : bool then mret vt else fail "invalid operation: trying to pop".

Definition popAndVerifyType (m : Module) (expected : ValueType) : M unit :=
  '(have, _, ok) ← tryPop;
  if negb ok then fail (ValueTypeName expected +:+ " missing")
  else if negb (have =? valueTypeUnknown) && negb (expected =? valueTypeUnknown) then
    b ← lift (isRefSubtypeOf m have expected);
    if b : bool then mret tt
    else fail ("type mismatch: expected " +:+ ValueTypeName expected +:+ ", but was " +:+ ValueTypeName have)
  else mret tt.

Definition push (v : ValueType) : M unit := fun s =>
  let s := set_stack (v :: stack s) s in
  let sp := zlen (stack s) in
  Ok (tt, if sp >? maximumStackPointer s then set_max sp s else s).

(** [s.stack[:limit]]: with a limit above the length Go would expose stale
    elements of the backing array or panic; the invariant [vs_wf] excludes it. *)
Definition resetAtStackLimit : M unit := fun s =>
  match stackLimits s with
  | limit :: _ =>
      if (0 <=? limit) && (limit <=? zlen (stack s))
      then Ok (tt, set_stack (drop (Z.to_nat (zlen (stack s) - limit)) (stack s)) s)
      else Panic "slice bounds out of range"
  | [] => Ok (tt, set_stack [] s)
  end.

Definition unreachable : M unit :=
  resetAtStackLimit;; modify (fun s => set_stack (valueTypeUnknown :: stack s) s).

Definition popStackLimit : M unit := modify (fun s => set_limits (tail (stackLimits s)) s).

Definition pushStackLimit (params : Z) : M unit :=
  modify (fun s => set_limits ((zlen (stack s) - params) :: stackLimits s) s).

(** The popping loop of [requireStackValues]: [n] values left to pop, [tmp] those
    popped, latest first. *)
Fixpoint popWanted (n : nat) (isParam : bool) (context : string) (want tmp : list ValueType)
    : M (list ValueType) :=
  match n with
  | O => mret (reverse tmp)
  | S n' =>
      '(popped, _, ok) ← tryPop;
      if negb ok then fail (typeCountError isParam context (reverse tmp) want)
      else popWanted n' isParam context want (popped :: tmp)
  end.

(** The final loop, over the popped values and the wanted types from the last on. *)
Fixpoint checkWanted (m : Module) (isParam : bool) (context : string) (i : Z) (tmp rwant : list ValueType)
    : M unit :=
  match tmp, rwant with
  | [], _ => mret tt
  | _ :: _, [] => lift (Panic "index out of range")
  | v :: tmp', nextWant :: rwant' =>
      if negb (v =? valueTypeUnknown) && negb (nextWant =? valueTypeUnknown) then
        b ← lift (isRefSubtypeOf m v nextWant);
        if b : bool then checkWanted m isParam context (i + 1) tmp' rwant'
        else fail (typeMismatchError isParam context v nextWant i)
      else checkWanted m isParam context (i + 1) tmp' rwant'
  end.

Definition requireStackValues (m : Module) (isParam : bool) (context : string) (want : list ValueType)
    (checkAboveLimit : bool) : M unit :=
  limit ← gets (fun s => match stackLimits s with [] => 0 | l :: _ => l end);
  tmp ← popWanted (length want) isParam context want [];
  st ← gets stack;
  if checkAboveLimit
     && negb ((limit =? zlen st)
              || ((limit + 1 =? zlen st) && bool_decide (head st = Some valueTypeUnknown)))
  then fail (typeCountError isParam context (reverse st ++ want) want)
  else checkWanted m isParam context 0 tmp (reverse want).

Definition popParams (m : Module) (oc : Z) (want : list ValueType) (checkAboveLimit : bool) : M unit :=
  requireStackValues m true (InstructionName oc) want checkAboveLimit.

Definition popResults (m : Module) (oc : Z) (want : list ValueType) (checkAboveLimit : bool) : M unit :=
  requireStackValues m false (InstructionName oc) want checkAboveLimit.

(** [for _, t := range l { push(t) }] *)
Fixpoint pushAll (l : list ValueType) : M unit :=
  match l with
  | [] => mret tt
  | v :: l' => push v;; pushAll l'
  end.

(** A loop of [popAndVerifyType] over [l] whose error is wrapped by [f]. *)
Fixpoint popAll (m : Module) (f : M unit -> M unit) (l : list ValueType) : M unit :=
  match l with
  | [] => mret tt
  | v :: l' => f (popAndVerifyType m v);; popAll m f l'
  end.

(** ** controlBlockStack and stacks *)

Definition csPop : M controlBlock := fun s =>
  match cs s with
  | [] => Panic "index out of range"
  | b :: c => Ok (b, set_cs c s)
  end.

(** [push] followed by the assignment of [savedInitLocals] that the callers
    other than try_table make; [saved] is that value, or [None] (nil) without
    the assignment. *)
Definition csPush (startAt elseAt endAt : Z) (bt : FunctionType) (blockTypeBytes op : Z)
    (saved : option (gset Z)) : M unit :=
  modify (fun s => set_cs (mkControlBlock startAt elseAt endAt bt blockTypeBytes op saved :: cs s) s).

(** [&controlBlockStack.stack[len-index-1]] *)
Definition csTarget (index : Z) : M controlBlock :=
  c ← gets cs; lift (zindex c index).

(** The state [reset] leaves: the outermost block is the function itself. *)
Definition reset (functionType : FunctionType) : stacks :=
  mkStacks 0 [] [] 0 [mkControlBlock 0 0 0 functionType 0 0 None]
    (Some ∅).

Definition validateCallSignature (m : Module) (opName : string) (funcType : FunctionType) : M unit :=
  popAll m (wrap ("type mismatch on " +:+ opName +:+ " operation param type: ")) (reverse (Params funcType));;
  pushAll (Results funcType).

Definition requireEnabled (f feature : CoreFeatures) : M unit := lift (RequireEnabled f feature).

Definition validateReturnCall (m : Module) (opName : string) (enabledFeatures : CoreFeatures)
    (calleeFuncType callerFuncType : FunctionType) : M unit :=
  wrap (opName +:+ " invalid as ") (requireEnabled enabledFeatures CoreFeaturesTailCall);;
  if negb (zlen (Results calleeFuncType) =? zlen (Results callerFuncType)) then
    fail ("type mismatch on " +:+ opName)
  else requireStackValues m false "" (Results callerFuncType) false.

Definition requireLocalInit (index inputLen : Z) (localTypes : list ValueType) : M unit :=
  if index >=? inputLen then
    lt ← lift (zindex localTypes (index - inputLen));
    if IsRef lt && negb (IsNullable lt) then
      il ← gets initLocals;
      if bool_decide (index ∈ default ∅ il) then mret tt else fail "uninitialized local"
    else mret tt
  else mret tt.

Definition markLocalInit (index inputLen : Z) (localTypes : list ValueType) : M unit :=
  if index >=? inputLen then
    lt ← lift (zindex localTypes (index - inputLen));
    if IsRef lt && negb (IsNullable lt) then
      il ← gets initLocals;
      match il with
      | None => lift (Panic "assignment to entry in nil map")
      | Some l => modify (set_initLocals (Some ({[index]} ∪ l)))
      end
    else mret tt
  else mret tt.

(** ** A program logic for [M]

    [triple P m Q]: from a state in [P], [m] does not panic, and ends in [Q] when
    it returns without error. *)

Definition triple {A} (P : stacks -> Prop) (m : M A) (Q : A -> stacks -> Prop) : Prop :=
  forall s, P s ->
    match m s with
    | Ok (a, s') => Q a s'
    | Err _ => True
    | Panic _ => False
    end.

Lemma triple_ret {A} (a : A) P (Q : A -> stacks -> Prop) :
  (forall s, P s -> Q a s) -> triple P (mret a) Q.
Proof. intros H s Hs. apply H, Hs. Qed.

Lemma triple_bind {A B} (m : M A) (k : A -> M B) P Q R :
  triple P m Q -> (forall a, triple (Q a) (k a) R) -> triple P (m ≫= k) R.
Proof.
  intros Hm Hk s Hs. specialize (Hm s Hs). unfold mbind, M_bind.
  destruct (m s) as [[a s']|e|e]; simpl; [|done|done]. by apply Hk.
Qed.

Lemma triple_conseq {A} (m : M A) (P P' : stacks -> Prop) (Q Q' : A -> stacks -> Prop) :
  (forall s, P s -> P' s) -> triple P' m Q' -> (forall a s, Q' a s -> Q a s) -> triple P m Q.
Proof.
  intros HP Hm HQ s Hs. specialize (Hm s (HP s Hs)). destruct (m s) as [[a s']|e|e]; auto.
Qed.

Lemma triple_pure {A} (m : M A) (P : stacks -> Prop) (F : Prop) Q :
  (F -> triple P m Q) -> triple (fun s => F /\ P s) m Q.
Proof. intros H s [HF Hs]. by apply H. Qed.

Lemma triple_fail {A} msg P (Q : A -> stacks -> Prop) : triple P (fail msg) Q.
Proof. by intros s _. Qed.

Lemma triple_wrap {A} p (m : M A) P Q : triple P m Q -> triple P (wrap p m) Q.
Proof. intros Hm s Hs. specialize (Hm s Hs). unfold wrap. by destruct (m s) as [[a s']|e|e]. Qed.

Lemma triple_failAs {A} p (m : M A) P Q : triple P m Q -> triple P (failAs p m) Q.
Proof. intros Hm s Hs. specialize (Hm s Hs). unfold failAs. by destruct (m s) as [[a s']|e|e]. Qed.

Lemma triple_gets {A} (f : stacks -> A) P Q : (forall s, P s -> Q (f s) s) -> triple P (gets f) Q.
Proof. intros H s Hs. apply H, Hs. Qed.

Lemma triple_modify f P Q : (forall s, P s -> Q tt (f s)) -> triple P (modify f) Q.
Proof. intros H s Hs. apply H, Hs. Qed.

Lemma triple_lift {A} (r : res A) P (Q : A -> stacks -> Prop) :
  no_panic r -> (forall a s, r = Ok a -> P s -> Q a s) -> triple P (lift r) Q.
Proof.
  intros Hn H s Hs. unfold lift. destruct r as [a|e|e]; simpl; [by apply H|done|]. by apply (Hn e).
Qed.

Lemma triple_if {A} (b : bool) (m1 m2 : M A) P Q :
  (b = true -> triple P m1 Q) -> (b = false -> triple P m2 Q) -> triple P (if b then m1 else m2) Q.
Proof. destruct b; auto. Qed.

(** ** The invariant

    The limits are nested heights of the stack. *)

Fixpoint limits_ok (h : Z) (ls : list Z) : Prop :=
  match ls with
  | [] => 0 <= h
  | l :: ls' => 0 <= l <= h /\ limits_ok l ls'
  end.

Definition vs_wf (s : stacks) : Prop := limits_ok (zlen (stack s)) (stackLimits s).

(** Everything but the operand stack is as given, and the stack is well formed. *)
Definition inv (p : Z) (c : list controlBlock) (l : list Z) (il : option (gset Z)) (s : stacks) : Prop :=
  pc s = p /\ cs s = c /\ stackLimits s = l /\ initLocals s = il /\ vs_wf s.

(** [m] works on the operand stack only and keeps it well formed. *)
Definition stack_op {A} (m : M A) : Prop :=
  forall p c l il, triple (inv p c l il) m (fun _ => inv p c l il).

Lemma limits_ok_mono h h' ls : h <= h' -> limits_ok h ls -> limits_ok h' ls.
Proof. destruct ls; simpl; intros; [lia|]. intuition lia. Qed.

Lemma limits_ok_nonneg h ls : limits_ok h ls -> 0 <= h.
Proof. destruct ls; simpl; lia. Qed.

Create HintDb vstack.

Lemma stack_op_ret {A} (a : A) : stack_op (mret a).
Proof. intros p c l il. by apply triple_ret. Qed.

Lemma stack_op_bind {A B} (m : M A) (k : A -> M B) :
  stack_op m -> (forall a, stack_op (k a)) -> stack_op (m ≫= k).
Proof. intros Hm Hk p c l il. eapply triple_bind; [apply Hm|]. intros a. apply Hk. Qed.

Lemma stack_op_fail {A} msg : stack_op (@fail A msg).
Proof. intros p c l il. apply triple_fail. Qed.

Lemma stack_op_wrap {A} p (m : M A) : stack_op m -> stack_op (wrap p m).
Proof. intros Hm p' c l il. apply triple_wrap, Hm. Qed.

Lemma stack_op_failAs {A} p (m : M A) : stack_op m -> stack_op (failAs p m).
Proof. intros Hm p' c l il. apply triple_failAs, Hm. Qed.

Lemma stack_op_gets {A} (f : stacks -> A) : stack_op (gets f).
Proof. intros p c l il. by apply triple_gets. Qed.

Lemma stack_op_lift {A} (r : res A) : no_panic r -> stack_op (lift r).
Proof. intros Hr p c l il. by apply triple_lift. Qed.

Lemma stack_op_if {A} (b : bool) (m1 m2 : M A) : stack_op m1 -> stack_op m2 -> stack_op (if b then m1 else m2).
Proof. by destruct b. Qed.

#[export] Hint Resolve stack_op_ret stack_op_bind stack_op_fail stack_op_wrap stack_op_failAs stack_op_gets
  stack_op_lift stack_op_if : vstack.

(** Splits [stack_op] of a composition into [stack_op] of its parts. *)
Ltac stack_ops :=
  repeat (intros; match goal with
  | |- stack_op (if _ then _ else _) => apply stack_op_if
  | |- stack_op (mbind _ _) => apply stack_op_bind
  | |- stack_op (let '(_, _) := ?x in _) => destruct x
  | |- stack_op (match ?x with _ => _ end) => destruct x
  | |- stack_op _ => solve [eauto with vstack]
  end).

Lemma tryPop_stack_op : stack_op tryPop.
Proof.
  intros p c l il s (<- & <- & <- & <- & Hw). unfold tryPop, vs_wf in *.
  set (limit := match stackLimits s with [] => 0 | l :: _ => l end).
  assert (0 <= limit) as Hl by (subst limit; destruct (stackLimits s); simpl in Hw; lia).
  destruct (Z.leb_spec (zlen (stack s)) limit) as [|Hgt]; [done|].
  destruct (stack s) as [|v st] eqn:E; [change (zlen []) with 0 in Hgt; lia|].
  destruct (_ && _); [repeat split; unfold vs_wf; rewrite E; exact Hw|]. repeat split. unfold vs_wf. cbn.
  rewrite zlen_cons in *. subst limit. destruct (stackLimits s) as [|l' ls]; simpl in *; lia || (split; [lia|tauto]).
Qed.

Lemma push_stack_op v : stack_op (push v).
Proof.
  intros p c l il s (<- & <- & <- & <- & Hw). unfold push, vs_wf in *.
  destruct (_ >? _); repeat split; unfold vs_wf; cbn;
    (eapply limits_ok_mono; [|exact Hw]; rewrite zlen_cons; lia).
Qed.

Lemma resetAtStackLimit_stack_op : stack_op resetAtStackLimit.
Proof.
  intros p c l il s (<- & <- & <- & <- & Hw). unfold resetAtStackLimit, vs_wf in *.
  destruct (stackLimits s) as [|limit ls] eqn:E; cbn in Hw.
  - repeat split; unfold vs_wf; cbn; rewrite ?E; done.
  - rewrite (proj2 (andb_true_iff _ _)) by (rewrite !Z.leb_le; lia).
    repeat split; unfold vs_wf; cbn; rewrite ?E; try done. rewrite zlen_drop. split; [lia|tauto].
Qed.
#[export] Hint Resolve tryPop_stack_op push_stack_op resetAtStackLimit_stack_op : vstack.

Lemma pop_stack_op : stack_op pop.
Proof. unfold pop. stack_ops. Qed.

Lemma unreachable_stack_op : stack_op unreachable.
Proof.
  unfold unreachable. apply stack_op_bind; [eauto with vstack|]. intros _ p c l il.
  apply triple_modify. intros s (? & ? & <- & ? & Hw). repeat split; try done. unfold vs_wf in *. cbn.
  eapply limits_ok_mono; [|exact Hw]. rewrite zlen_cons; lia.
Qed.

(** What [pushAll] does to the state. *)
Lemma pushAll_eq vs : forall s, exists s',
  pushAll vs s = Ok (tt, s') /\ stack s' = reverse vs ++ stack s /\ pc s' = pc s /\
  stackLimits s' = stackLimits s /\ cs s' = cs s /\ initLocals s' = initLocals s.
Proof.
  induction vs as [|v vs IH]; intros s; cbn [pushAll]; [by exists s|].
  unfold mbind, M_bind, push. cbn [res_bind].
  match goal with |- context [pushAll vs ?t] => destruct (IH t) as (s' & E & H1 & H2 & H3 & H4 & H5) end.
  exists s'. split; [exact E|]. rewrite H1, H2, H3, H4, H5, reverse_cons, <- app_assoc. by destruct (_ >? _).
Qed.

Lemma pushAll_stack_op l : stack_op (pushAll l).
Proof. induction l as [|v l IH]; simpl; stack_ops. Qed.
#[export] Hint Resolve pop_stack_op unreachable_stack_op pushAll_stack_op : vstack.

Lemma popWanted_stack_op n isParam ctx want tmp : stack_op (popWanted n isParam ctx want tmp).
Proof. revert tmp; induction n as [|n IH]; intros tmp; simpl; stack_ops. Qed.

Lemma RequireEnabled_no_panic f g : no_panic (RequireEnabled f g).
Proof. unfold RequireEnabled. by case_match. Qed.

Lemma requireEnabled_stack_op f g : stack_op (requireEnabled f g).
Proof. apply stack_op_lift, RequireEnabled_no_panic. Qed.
#[export] Hint Resolve popWanted_stack_op requireEnabled_stack_op RequireEnabled_no_panic : vstack.

Section WfModule.
Context (m : Module) (Hwf : wf_types (TypeSection m)).

Lemma isRefSubtypeOf_no_panic a e : no_panic (isRefSubtypeOf m a e).
Proof. destruct (isRefSubtypeOf_total m a e Hwf) as [b ->]. done. Qed.

Lemma areRefTypesCompatible_no_panic a e : no_panic (areRefTypesCompatible m a e).
Proof. destruct (areRefTypesCompatible_total m a e Hwf) as [b ->]. done. Qed.
#[local] Hint Resolve isRefSubtypeOf_no_panic areRefTypesCompatible_no_panic : vstack.

Lemma popAndVerifyType_stack_op t : stack_op (popAndVerifyType m t).
Proof. unfold popAndVerifyType. stack_ops. Qed.
#[local] Hint Resolve popAndVerifyType_stack_op : vstack.

Lemma popAll_stack_op f l : (forall k, stack_op k -> stack_op (f k)) -> stack_op (popAll m f l).
Proof. intros Hf. induction l as [|v l IH]; simpl; stack_ops. Qed.
#[local] Hint Resolve popAll_stack_op : vstack.

Lemma checkWanted_stack_op isParam ctx i tmp rwant :
  length tmp = length rwant -> stack_op (checkWanted m isParam ctx i tmp rwant).
Proof.
  revert i rwant; induction tmp as [|v tmp IH]; intros i rwant Hl; destruct rwant as [|w rwant]; try done;
    simpl in *; stack_ops; apply IH; lia.
Qed.

Lemma popWanted_length n isParam ctx want tmp s r s' :
  popWanted n isParam ctx want tmp s = Ok (r, s') -> length r = (n + length tmp)%nat.
Proof.
  revert tmp s; induction n as [|n IH]; intros tmp s; simpl.
  - unfold mret, M_ret. intros [= <- <-]. by rewrite length_reverse.
  - unfold mbind, M_bind. destruct (tryPop s) as [[[[? ?] ok] s1]| |]; simpl; try done.
    destruct ok; simpl; [|done]. intros H%IH. simpl in H. lia.
Qed.

Lemma requireStackValues_stack_op isParam ctx want above :
  stack_op (requireStackValues m isParam ctx want above).
Proof.
  unfold requireStackValues. apply stack_op_bind; [eauto with vstack|]. intros limit p c l il s Hs.
  unfold mbind at 1, M_bind at 1. pose proof (popWanted_stack_op (length want) isParam ctx want [] p c l il s Hs) as H.
  destruct (popWanted _ _ _ _ _ s) as [[tmp s1]| |] eqn:E; simpl; try done.
  apply popWanted_length in E. simpl in E.
  match goal with |- match ?k s1 with _ => _ end => assert (stack_op k) as Hk; [|by apply Hk] end.
  stack_ops. apply checkWanted_stack_op. rewrite length_reverse. lia.
Qed.
#[local] Hint Resolve requireStackValues_stack_op : vstack.

Lemma popParams_stack_op oc want above : stack_op (popParams m oc want above).
Proof. unfold popParams. stack_ops. Qed.

Lemma popResults_stack_op oc want above : stack_op (popResults m oc want above).
Proof. unfold popResults. stack_ops. Qed.

Lemma validateCallSignature_stack_op name ft : stack_op (validateCallSignature m name ft).
Proof. unfold validateCallSignature. stack_ops. Qed.

Lemma validateReturnCall_stack_op name f callee caller : stack_op (validateReturnCall m name f callee caller).
Proof. unfold validateReturnCall. stack_ops. Qed.

End WfModule.

#[export] Hint Resolve isRefSubtypeOf_no_panic areRefTypesCompatible_no_panic popAndVerifyType_stack_op
  popAll_stack_op requireStackValues_stack_op popParams_stack_op popResults_stack_op
  validateCallSignature_stack_op validateReturnCall_stack_op : vstack.

Lemma requireLocalInit_stack_op index inputLen localTypes :
  inputLen + zlen localTypes > index -> stack_op (requireLocalInit index inputLen localTypes).
Proof.
  intros Hi. unfold requireLocalInit. destruct (Z.geb_spec index inputLen); [|stack_ops].
  destruct (zindex_in localTypes (index - inputLen)) as (lt & -> & _); [lia|].
  apply stack_op_bind; [by apply stack_op_lift|]. intros lt'. stack_ops.
Qed.

(** ** Refinement of the validation algorithm of the Wasm specification

    The algorithm of the specification's appendix keeps, per control frame, the
    operands pushed in the frame and whether the frame is unreachable.  The code
    keeps one stack with limits and marks an unreachable frame by the type
    [valueTypeUnknown] at its bottom. *)

Definition frame : Type := list ValueType * bool.

Definition flat (f : frame) : list ValueType :=
  fst f ++ (if snd f then [valueTypeUnknown] else []).

Fixpoint limits_of (fs : list frame) : list Z :=
  match fs with
  | [] | [_] => []
  | _ :: fs' => zlen (concat (map flat fs')) :: limits_of fs'
  end.

Definition frame_ok (f : frame) : Prop := snd f = false -> last (fst f) <> Some valueTypeUnknown.

Definition rep (fs : list frame) (s : stacks) : Prop :=
  fs <> [] /\ stack s = concat (map flat fs) /\ stackLimits s = limits_of fs /\ Forall frame_ok fs.

(** The operations of the specification. *)
Definition spec_pop (fs : list frame) : option (ValueType * list frame) :=
  match fs with
  | (v :: vs, u) :: fs' => Some (v, (vs, u) :: fs')
  | ([], true) :: _ => Some (valueTypeUnknown, fs)
  | _ => None
  end.

Definition spec_push (v : ValueType) (fs : list frame) : list frame :=
  match fs with
  | (vs, u) :: fs' => (v :: vs, u) :: fs'
  | [] => []
  end.

Definition spec_unreachable (fs : list frame) : list frame :=
  match fs with
  | _ :: fs' => ([], true) :: fs'
  | [] => []
  end.

Lemma frame_ok_tail v vs u : frame_ok (v :: vs, u) -> frame_ok (vs, u).
Proof. unfold frame_ok. simpl. intros H Hu. specialize (H Hu). destruct vs; [done|]. done. Qed.

Lemma rep_limit fs f s :
  rep (f :: fs) s -> match stackLimits s with [] => 0 | l :: _ => l end = zlen (concat (map flat fs)).
Proof. intros (_ & _ & -> & _). by destruct fs. Qed.

Lemma tryPop_refines fs s :
  rep fs s ->
  match spec_pop fs with
  | Some (v, fs') => exists limit s', tryPop s = Ok ((v, limit, true), s') /\ rep fs' s'
  | None => exists limit, tryPop s = Ok ((0, limit, false), s)
  end.
Proof.
  intros Hr. destruct fs as [|[vs u] fs]; [by destruct Hr|].
  pose proof (rep_limit fs (vs, u) s Hr) as Hl. destruct Hr as (_ & Hs & Hls & Hok).
  inversion Hok as [|? ? Hf Hok']; subst. unfold tryPop. rewrite Hl, Hs. cbn [map concat].
  change (flat (vs, u)) with (vs ++ if u then [valueTypeUnknown] else []).
  set (rest := concat (map flat fs)) in *. pose proof (zlen_nonneg rest).
  destruct vs as [|v vs]; cbn [spec_pop app].
  - destruct u; cbn [app]; [|].
    + rewrite zlen_cons, (proj2 (Z.leb_gt _ _)), (proj2 (Z.eqb_eq _ _)) by lia. 
      eexists _, _. split; [done|]. split_and!; done.
    + rewrite (proj2 (Z.leb_le _ _)) by lia. eauto.
  - rewrite zlen_cons, (proj2 (Z.leb_gt _ _)) by (rewrite zlen_app; pose proof (zlen_nonneg vs);
      pose proof (zlen_nonneg (if u then [valueTypeUnknown] else [])); rewrite ?zlen_app; lia).
    destruct (_ && _) eqn:E.
    + exfalso. apply andb_true_iff in E as [E1 E2]. bools. subst v. rewrite !zlen_app in E1.
      pose proof (zlen_nonneg vs). destruct u; [change (zlen [valueTypeUnknown]) with 1 in E1; lia|].
      change (zlen (@nil ValueType)) with 0 in E1. destruct vs; [|rewrite zlen_cons in *; pose proof (zlen_nonneg vs); lia].
      by apply Hf.
    + eexists _, _. split; [done|]. split_and!; try done. simpl. constructor; [|done].
      by apply (frame_ok_tail v).
Qed.

Lemma push_refines v f fs s :
  rep (f :: fs) s -> v <> valueTypeUnknown \/ snd f = true ->
  exists s', push v s = Ok (tt, s') /\ rep (spec_push v (f :: fs)) s'.
Proof.
  intros (_ & Hs & Hls & Hok) Hv. destruct f as [vs u]. eexists. split; [done|].
  inversion Hok as [|? ? Hf Hok']; subst.
  assert (frame_ok (v :: vs, u)) as Hf'.
  { unfold frame_ok in *. simpl in *. intros ->. specialize (Hf eq_refl).
    destruct vs as [|w vs]; [simpl; intros [= ->]; by destruct Hv|done]. }
  destruct (_ >? _); (split_and!; [done|by cbn; rewrite Hs|by destruct fs|by constructor]).
Qed.

Lemma concat_drop (a b : list ValueType) : drop (Z.to_nat (zlen (a ++ b) - zlen b)) (a ++ b) = b.
Proof. rewrite zlen_app. replace (Z.to_nat _) with (length a) by (unfold zlen; lia). by rewrite drop_app_length. Qed.

Lemma resetAtStackLimit_refines f fs s :
  rep (f :: fs) s ->
  exists s', resetAtStackLimit s = Ok (tt, s') /\
    stack s' = concat (map flat fs) /\ stackLimits s' = stackLimits s.
Proof.
  intros Hr. pose proof (rep_limit fs f s Hr) as Hl. destruct Hr as (_ & Hs & Hls & Hok).
  unfold resetAtStackLimit. destruct fs as [|g fs].
  - simpl in Hls. rewrite Hls. eauto.
  - rewrite Hls in Hl |- *. cbn [limits_of] in Hl |- *. rewrite Hs.
    change (concat (map flat (f :: g :: fs))) with (flat f ++ concat (map flat (g :: fs))).
    pose proof (zlen_nonneg (flat f)). pose proof (zlen_nonneg (concat (map flat (g :: fs)))).
    rewrite (proj2 (andb_true_iff _ _)) by (rewrite zlen_app, !Z.leb_le; lia).
    eexists. split; [done|]. cbn. rewrite concat_drop. split; done.
Qed.

Lemma unreachable_refines fs s :
  rep fs s -> exists s', unreachable s = Ok (tt, s') /\ rep (spec_unreachable fs) s'.
Proof.
  intros Hr. destruct fs as [|f fs]; [by destruct Hr|].
  destruct (resetAtStackLimit_refines f fs s Hr) as (s1 & E & H1 & H2).
  unfold unreachable, mbind, M_bind. rewrite E. cbn. eexists. split; [done|].
  destruct Hr as (_ & _ & Hls & Hok). inversion Hok; subst.
  split_and!; [done|by cbn; rewrite H1|cbn; rewrite H2, Hls; by destruct fs|].
  constructor; [done|]. done.
Qed.

Lemma pushAll_refines l : forall f fs s,
  rep (f :: fs) s -> Forall (fun v => v <> valueTypeUnknown) l ->
  exists s', pushAll l s = Ok (tt, s') /\ rep ((reverse l ++ fst f, snd f) :: fs) s'.
Proof.
  induction l as [|v l IH]; intros [vs u] fs s Hr Hl; cbn [pushAll].
  { eexists. split; [done|]. done. }
  inversion Hl; subst. destruct (push_refines v (vs, u) fs s Hr) as (s1 & E & Hr1); [by left|].
  unfold mbind, M_bind. rewrite E. cbn [res_bind].
  destruct (IH (v :: vs, u) fs s1 Hr1) as (s2 & E2 & Hr2); [done|]. exists s2. split; [done|].
  cbn [fst snd] in *. rewrite reverse_cons, <- app_assoc. done.
Qed.

(** C22: The operand stack refines the validation algorithm of the Wasm
    specification: popping, pushing, marking unreachable, entering a block whose
    [length ps] parameters are on top, and leaving a block with its results all
    act on the single limited stack as the specification's operations act on the
    stack of frames, including the polymorphic pops of unreachable code. *)
Theorem valueTypeStack_refines_spec (fs : list frame) (f : frame) (ps : list ValueType) (s : stacks) :
  rep (f :: fs) s ->
  (match spec_pop (f :: fs) with
   | Some (v, fs') => exists limit s', tryPop s = Ok ((v, limit, true), s') /\ rep fs' s'
   | None => exists limit, tryPop s = Ok ((0, limit, false), s)
   end) /\
  (forall v, v <> valueTypeUnknown \/ snd f = true ->
     exists s', push v s = Ok (tt, s') /\ rep (spec_push v (f :: fs)) s') /\
  (exists s', unreachable s = Ok (tt, s') /\ rep (([], true) :: fs) s') /\
  (forall vs, fst f = ps ++ vs -> Forall (fun v => v <> valueTypeUnknown) ps ->
     exists s', pushStackLimit (zlen ps) s = Ok (tt, s') /\ rep ((ps, false) :: (vs, snd f) :: fs) s') /\
  (forall g fs' results, fs = g :: fs' -> Forall (fun v => v <> valueTypeUnknown) results ->
     exists s', (resetAtStackLimit;; pushAll results;; popStackLimit) s = Ok (tt, s') /\
       rep ((reverse results ++ fst g, snd g) :: fs') s').
Proof.
  intros Hr. split_and!.
  - by apply tryPop_refines.
  - intros v Hv. by apply push_refines.
  - by apply (unreachable_refines (f :: fs)).
  - intros vs Hf Hps. destruct f as [fv u]. simpl in Hf. subst fv. destruct Hr as (_ & Hs & Hls & Hok).
    inversion Hok as [|? ? Hf Hok']; subst. eexists. split; [done|]. split_and!; [done|..].
    + cbn. rewrite Hs. cbn. by rewrite app_nil_r, <- !app_assoc.
    + cbn. rewrite Hs, Hls. destruct fs; cbn; f_equal; rewrite !zlen_app; lia.
    + constructor; [|constructor; [|done]].
      * intros _ E. cbn [fst] in E. apply last_Some in E as (l' & ->). apply Forall_app in Hps as [_ Hps]. by inversion Hps.
      * intros Hu E. apply Hf; [done|]. simpl in *. rewrite last_app, E. done.
  - intros g fs' results -> Hres.
    destruct (resetAtStackLimit_refines f (g :: fs') s Hr) as (s1 & E & H1 & H2).
    unfold mbind, M_bind. rewrite E. cbn [res_bind]. destruct Hr as (_ & Hs & Hls & Hok).
    assert (rep (([], false) :: g :: fs') s1) as Hr1.
    { split_and!; [done|by rewrite H1|by rewrite H2|]. inversion Hok; subst. by constructor. }
    destruct (pushAll_refines results ([], false) (g :: fs') s1 Hr1 Hres) as (s2 & -> & Hr2). cbn [res_bind].
    eexists. split; [done|]. destruct Hr2 as (_ & Hs2 & Hls2 & Hok2). destruct g as [gv gu].
    split_and!; [done|..].
    + cbn in *. rewrite Hs2. by rewrite !app_nil_r, <- !app_assoc.
    + cbn in *. rewrite Hls2. by destruct fs'.
    + inversion Hok2 as [|? ? Ha Hb]; inversion Hb as [|? ? Hc Hd]; subst. constructor; [|done].
      intros Hu E2. destruct gv as [|w gv].
      * simpl in *. rewrite !app_nil_r in *. by apply Ha.
      * apply Hc; [done|]. simpl fst in *. rewrite last_app in E2. destruct (last (w :: gv)) eqn:El; [by simplify_eq|].
        by apply last_None in El.
Qed.

Lemma valueTypeStack_refines_spec_witness :
  exists limit s', tryPop (mkStacks 0 [ValueTypeI64; valueTypeUnknown; ValueTypeI32] [1] 3 [] None)
    = Ok ((ValueTypeI64, limit, true), s') /\ rep [([], true); ([ValueTypeI32], false)] s'.
Proof.
  apply (valueTypeStack_refines_spec [([ValueTypeI32], false)] ([ValueTypeI64], true) []).
  split_and!; [done|reflexivity|reflexivity|]. repeat constructor; intros H; vm_compute in H |- *; congruence.
Defined.
