(* ===== verification/Validate.v ===== *)
(** * Validation of function bodies (src/internal/wasm/func_validation.go)

    The whole of [validateFunctionWithMaxStackValues]: one definition per branch
    of its instruction switch, composed by [validateInstruction] in the order of
    the source, the loop over the body and the final checks.

    The parameters of the Go function are the variables of the section: the
    module, the enabled features, the index spaces, the memory (nil is [None])
    and the declared functions.  [pc] is a [uint64] that never exceeds the
    length of the body by more than the size of one immediate, far below [2^64],
    and is a [Z].  The loop, and the loops whose bound is an immediate of the
    body (br_table, try_table), get a number of iterations that
    ValidateSafe.v shows is enough. *)

From S2P Require Import Prelude Leb128 Features Opcodes Types ValStack.

Definition maximumValuesOnStack : Z := Z.shiftl 1 27.

(** [readMemArg(pc, body)]: align, offset and the number of bytes read. *)
Definition readMemArg (pc : Z) (body : list Z) : res (Z * Z * Z) :=
  let! b := zslice body pc in
  let! (align, num) := errorf "read memory align" (LoadUint32 b) in
  if align >=? 32 then Err "invalid memory alignment"
  else
    let! b := zslice body (pc + num) in
    let! (offset, num') := errorf "read memory offset" (LoadUint32 b) in
    Ok (align, offset, num + num').

(** ** Block types *)

Definition resultType (t : ValueType) (n : Z) : FunctionType := mkFunctionType [] [t] 0 n 0 0.

Definition blockType_v_v : FunctionType := mkFunctionType [] [] 0 0 0 0.
Definition blockType_v_i32 : FunctionType := resultType ValueTypeI32 1.
Definition blockType_v_i64 : FunctionType := resultType ValueTypeI64 1.
Definition blockType_v_f32 : FunctionType := resultType ValueTypeF32 1.
Definition blockType_v_f64 : FunctionType := resultType ValueTypeF64 1.
Definition blockType_v_v128 : FunctionType := resultType ValueTypeV128 2.
Definition blockType_v_funcref : FunctionType := resultType ValueTypeFuncref 1.
Definition blockType_v_externref : FunctionType := resultType ValueTypeExternref 1.
Definition blockType_v_exnref : FunctionType := resultType ValueTypeExnref 1.

(** The heap type after the prefix of a nullable or non-nullable reference. *)
Definition decodeRefBlockType (types : list FunctionType) (nullable : bool) (num : Z) (r : list Z)
    : res (FunctionType * Z) :=
  let! (ht, htNum, _) := errorf "read ref heap type in block" (DecodeInt33AsInt64 r) in
  let num := num + htNum in
  let t v := resultType (if nullable then v else AsNonNullable v) 1 in
  if ht =? HeapTypeExn then Ok (t ValueTypeExnref, num)
  else if ht =? HeapTypeFunc then Ok (t ValueTypeFuncref, num)
  else if ht =? HeapTypeExtern then Ok (t ValueTypeExternref, num)
  else if ht <? 0 then Err "unknown abstract heap type in block"
  else if zlen types <=? ht then Err "unknown type"
  else Ok (resultType (ValueTypeConcreteRef ht nullable) 1, num).

Definition DecodeBlockType (types : list FunctionType) (r : list Z) (enabledFeatures : CoreFeatures)
    : res (FunctionType * Z) :=
  let! (raw, num, r) := errorf "decode int33" (DecodeInt33AsInt64 r) in
  if raw =? -64 then Ok (blockType_v_v, num)
  else if raw =? -1 then Ok (blockType_v_i32, num)
  else if raw =? -2 then Ok (blockType_v_i64, num)
  else if raw =? -3 then Ok (blockType_v_f32, num)
  else if raw =? -4 then Ok (blockType_v_f64, num)
  else if raw =? -5 then Ok (blockType_v_v128, num)
  else if raw =? -16 then Ok (blockType_v_funcref, num)
  else if raw =? -17 then Ok (blockType_v_externref, num)
  else if raw =? -23 then Ok (blockType_v_exnref, num)
  else if raw =? -29 then decodeRefBlockType types true num r
  else if raw =? -28 then decodeRefBlockType types false num r
  else
    let! _ := match RequireEnabled enabledFeatures CoreFeatureMultiValue with
              | Err e => Err ("block with function type return invalid as " +:+ e)
              | r => r
              end in
    if (raw <? 0) || (raw >=? zlen types) then Err "type index out of range"
    else let! t := zindex types raw in Ok (t, num).

(** ** Lane tables of the vector instructions: (laneCeil, type) and (alignMax, laneCeil) *)

Definition vecExtractLanes (op : Z) : Z * ValueType :=
  if op =? OpcodeVecI8x16ExtractLaneS then (16, ValueTypeI32)
  else if op =? OpcodeVecI8x16ExtractLaneU then (16, ValueTypeI32)
  else if op =? OpcodeVecI16x8ExtractLaneS then (8, ValueTypeI32)
  else if op =? OpcodeVecI16x8ExtractLaneU then (8, ValueTypeI32)
  else if op =? OpcodeVecI32x4ExtractLane then (4, ValueTypeI32)
  else if op =? OpcodeVecI64x2ExtractLane then (2, ValueTypeI64)
  else if op =? OpcodeVecF32x4ExtractLane then (4, ValueTypeF32)
  else if op =? OpcodeVecF64x2ExtractLane then (2, ValueTypeF64)
  else (0, 0).

Definition vecReplaceLanes (op : Z) : Z * ValueType :=
  if op =? OpcodeVecI8x16ReplaceLane then (16, ValueTypeI32)
  else if op =? OpcodeVecI16x8ReplaceLane then (8, ValueTypeI32)
  else if op =? OpcodeVecI32x4ReplaceLane then (4, ValueTypeI32)
  else if op =? OpcodeVecI64x2ReplaceLane then (2, ValueTypeI64)
  else if op =? OpcodeVecF32x4ReplaceLane then (4, ValueTypeF32)
  else if op =? OpcodeVecF64x2ReplaceLane then (2, ValueTypeF64)
  else (0, 0).

Definition vecStoreLanes (op : Z) : Z * Z :=
  if op =? OpcodeVecV128Store64Lane then (64 / 8, 128 / 64)
  else if op =? OpcodeVecV128Store32Lane then (32 / 8, 128 / 32)
  else if op =? OpcodeVecV128Store16Lane then (16 / 8, 128 / 16)
  else if op =? OpcodeVecV128Store8Lane then (1, 128 / 8)
  else (0, 0).

Definition vecLoadLanes (op : Z) : Z * Z :=
  if op =? OpcodeVecV128Load64Lane then (64 / 8, 128 / 64)
  else if op =? OpcodeVecV128Load32Lane then (32 / 8, 128 / 32)
  else if op =? OpcodeVecV128Load16Lane then (16 / 8, 128 / 16)
  else if op =? OpcodeVecV128Load8Lane then (1, 128 / 8)
  else (0, 0).

Definition vecSplatValueTypes (op : Z) : ValueType :=
  if op =? OpcodeVecI8x16Splat then ValueTypeI32
  else if op =? OpcodeVecI16x8Splat then ValueTypeI32
  else if op =? OpcodeVecI32x4Splat then ValueTypeI32
  else if op =? OpcodeVecI64x2Splat then ValueTypeI64
  else if op =? OpcodeVecF32x4Splat then ValueTypeF32
  else if op =? OpcodeVecF64x2Splat then ValueTypeF64
  else 0.

(** The types a branch to a block carries. *)
Definition labelTypes (b : controlBlock) : list ValueType :=
  if cbOp b =? OpcodeLoop then Params (blockType b) else Results (blockType b).

Section Validate.
Context (m : Module) (enabledFeatures : CoreFeatures) (functions : list Index) (globals : list GlobalType)
  (memory : option Memory) (tables : list Table) (tags : list Index) (declaredFunctionIndexes : gset Z)
  (functionType : FunctionType) (localTypes : list ValueType) (body : list Z).

(** ** Reading the body *)

(** [body[pc+d:]] *)
Definition bodyFrom (d : Z) : M (list Z) := p ← gets pc; lift (zslice body (p + d)).
(** [body[pc]] *)
Definition bodyAt : M Z := p ← gets pc; lift (zindex body p).
(** [leb128.LoadUint32(body[pc:])] *)
Definition loadU32 (msg : string) : M (Z * Z) :=
  b ← bodyFrom 0; wrap (msg +:+ ": ") (lift (LoadUint32 b)).
(** [leb128.LoadUint32(body[pc:])] followed by [pc += num - 1] *)
Definition readU32 (msg : string) : M Z :=
  '(v, num) ← loadU32 msg; advance (num - 1);; mret v.
Definition memArg : M (Z * Z) :=
  p ← gets pc; '(align, _, read) ← lift (readMemArg p body); mret (align, read).

Abbreviation popT := (popAndVerifyType m).
Definition invalidAs (name : string) (feature : CoreFeatures) : M unit :=
  wrap (name +:+ " invalid as ") (requireEnabled enabledFeatures feature).
Definition memoryMustExist (name : string) : M unit :=
  match memory with None => fail ("memory must exist for " +:+ name) | Some _ => mret tt end.

(** ** Memory access *)

Definition checkAlign (align max : Z) : M unit :=
  guard_ (negb (Z.shiftl 1 align >? max)) "invalid memory alignment".

Definition memLoad (align max : Z) (t : ValueType) : M unit :=
  checkAlign align max;; popT ValueTypeI32;; push t.

Definition memStore (align max : Z) (t : ValueType) : M unit :=
  checkAlign align max;; popT t;; popT ValueTypeI32.

(** The switch over the memory instructions. *)
Definition memoryAccess (op align : Z) : M unit :=
  if op =? OpcodeI32Load then memLoad align (32 / 8) ValueTypeI32
  else if op =? OpcodeF32Load then memLoad align (32 / 8) ValueTypeF32
  else if op =? OpcodeI32Store then memStore align (32 / 8) ValueTypeI32
  else if op =? OpcodeF32Store then memStore align (32 / 8) ValueTypeF32
  else if op =? OpcodeI64Load then memLoad align (64 / 8) ValueTypeI64
  else if op =? OpcodeF64Load then memLoad align (64 / 8) ValueTypeF64
  else if op =? OpcodeI64Store then memStore align (64 / 8) ValueTypeI64
  else if op =? OpcodeF64Store then memStore align (64 / 8) ValueTypeF64
  else if op =? OpcodeI32Load8S then memLoad align 1 ValueTypeI32
  else if op =? OpcodeI32Load8U then memLoad align 1 ValueTypeI32
  else if one_of op [OpcodeI64Load8S; OpcodeI64Load8U] then memLoad align 1 ValueTypeI64
  else if op =? OpcodeI32Store8 then memStore align 1 ValueTypeI32
  else if op =? OpcodeI64Store8 then memStore align 1 ValueTypeI64
  else if one_of op [OpcodeI32Load16S; OpcodeI32Load16U] then memLoad align (16 / 8) ValueTypeI32
  else if one_of op [OpcodeI64Load16S; OpcodeI64Load16U] then memLoad align (16 / 8) ValueTypeI64
  else if op =? OpcodeI32Store16 then memStore align (16 / 8) ValueTypeI32
  else if op =? OpcodeI64Store16 then memStore align (16 / 8) ValueTypeI64
  else if one_of op [OpcodeI64Load32S; OpcodeI64Load32U] then memLoad align (32 / 8) ValueTypeI64
  else if op =? OpcodeI64Store32 then memStore align (32 / 8) ValueTypeI64
  else mret tt.

Definition validateMemoryInstr (op : Z) : M unit :=
  memoryMustExist (InstructionName op);;
  advance 1;;
  '(align, read) ← memArg;
  advance (read - 1);;
  memoryAccess op align.

Definition validateMemorySizeGrow (op : Z) : M unit :=
  memoryMustExist (InstructionName op);;
  advance 1;;
  '(val, num) ← loadU32 "read immediate";
  guard_ ((val =? 0) && (num =? 1)) "memory instruction reserved bytes not zero with 1 byte";;
  (if op =? OpcodeMemoryGrow then popT ValueTypeI32;; push ValueTypeI32
   else if op =? OpcodeMemorySize then push ValueTypeI32
   else mret tt);;
  advance (num - 1).

(** ** Constants, locals and globals *)

Definition validateConst (op : Z) : M unit :=
  advance 1;;
  if op =? OpcodeI32Const then
    b ← bodyFrom 0;
    '(_, num) ← wrap "read i32 immediate: " (lift (LoadInt32 b));
    advance (num - 1);; push ValueTypeI32
  else if op =? OpcodeI64Const then
    b ← bodyFrom 0;
    '(_, num) ← wrap "read i64 immediate: " (lift (LoadInt64 b));
    push ValueTypeI64;; advance (num - 1)
  else if op =? OpcodeF32Const then push ValueTypeF32;; advance 3
  else if op =? OpcodeF64Const then push ValueTypeF64;; advance 7
  else mret tt.

Definition inputLen : Z := zlen (Params functionType).

Definition localType (index : Z) : M ValueType :=
  if index <? inputLen then lift (zindex (Params functionType) index)
  else lift (zindex localTypes (index - inputLen)).

Definition localInRange (name : string) (index : Z) : M unit :=
  guard_ (negb (index >=? wrap32 (zlen localTypes + inputLen))) ("invalid local index for " +:+ name).

Definition validateLocalGlobal (op : Z) : M unit :=
  advance 1;;
  index ← readU32 "read immediate";
  if op =? OpcodeLocalGet then
    localInRange "local.get" index;;
    requireLocalInit index inputLen localTypes;;
    t ← localType index; push t
  else if op =? OpcodeLocalSet then
    localInRange "local.set" index;;
    expType ← localType index;
    popT expType;;
    markLocalInit index inputLen localTypes
  else if op =? OpcodeLocalTee then
    localInRange "local.tee" index;;
    expType ← localType index;
    popT expType;;
    push expType;;
    markLocalInit index inputLen localTypes
  else if op =? OpcodeGlobalGet then
    guard_ (negb (index >=? zlen globals)) "invalid index for global.get";;
    g ← lift (zindex globals index); push (ValType g)
  else if op =? OpcodeGlobalSet then
    guard_ (negb (index >=? zlen globals)) "invalid global index";;
    g ← lift (zindex globals index);
    guard_ (Mutable g) "global.set when not mutable";;
    popT (ValType g)
  else mret tt.

(** ** Branches *)

Definition labelInRange (index : Z) (msg : string) : M unit :=
  c ← gets cs; guard_ (negb (index >=? zlen c)) msg.

Definition validateBr : M unit :=
  advance 1;;
  '(index, num) ← loadU32 "read immediate";
  labelInRange index "invalid br operation: index out of range";;
  advance (num - 1);;
  target ← csTarget index;
  popResults m OpcodeBr (labelTypes target) false;;
  unreachable.

Definition validateBrIf : M unit :=
  advance 1;;
  '(index, num) ← loadU32 "read immediate";
  labelInRange index "invalid ln param given for br_if";;
  advance (num - 1);;
  failAs "cannot pop the required operand for br_if" (popT ValueTypeI32);;
  target ← csTarget index;
  popResults m OpcodeBrIf (labelTypes target) false;;
  pushAll (labelTypes target).

(** [for i := 0; i < nl; i++]: the labels, the bytes they took and the rest. *)
Fixpoint readLabels (fuel : nat) (nl num : Z) (ls br : list Z) : res (list Z * Z * list Z) :=
  if nl <=? 0 then Ok (reverse ls, num, br)
  else
    match fuel with
    | O => Panic "readLabels: loop bound"
    | S fuel' =>
        let! (l, n, br) := errorf "read immediate" (DecodeUint32 br) in
        readLabels fuel' (nl - 1) (num + n) (l :: ls) br
    end.

(** The loop over [defaultLabelType] from its last element; returns the list,
    in reverse, with the types of unknown operands replaced. *)
Fixpoint popDefaultLabel (i : Z) (rtypes : list ValueType) : M (list ValueType) :=
  match rtypes with
  | [] => mret []
  | exp :: rtypes' =>
      actual ← pop;
      if actual =? valueTypeUnknown then
        r ← popDefaultLabel (i + 1) rtypes'; mret (valueTypeUnknown :: r)
      else
        b ← lift (isRefSubtypeOf m actual exp);
        if b : bool then r ← popDefaultLabel (i + 1) rtypes'; mret (exp :: r)
        else fail (typeMismatchError true "br_table" actual exp i)
  end.

Fixpoint sameLabelTypes (ds ts : list ValueType) : M unit :=
  match ds, ts with
  | d :: ds', t :: ts' =>
      if negb (d =? valueTypeUnknown) then
        b ← lift (areRefTypesCompatible m d t);
        if b : bool then sameLabelTypes ds' ts' else fail "inconsistent block type for br_table"
      else sameLabelTypes ds' ts'
  | [], _ => mret tt
  | _ :: _, [] => lift (Panic "index out of range")
  end.

Fixpoint checkTableLabels (defaultLabelType : list ValueType) (ls : list Z) : M unit :=
  match ls with
  | [] => mret tt
  | l :: ls' =>
      labelInRange l "invalid l param given for br_table";;
      label ← csTarget l;
      guard_ (zlen defaultLabelType =? zlen (labelTypes label)) "inconsistent block type length for br_table";;
      sameLabelTypes defaultLabelType (labelTypes label);;
      checkTableLabels defaultLabelType ls'
  end.

Definition validateBrTable : M unit :=
  advance 1;;
  br ← bodyFrom 0;
  '(nl, num, br) ← wrap "read immediate: " (lift (DecodeUint32 br));
  '(ls, num, br) ← lift (readLabels (S (length br)) nl num [] br);
  '(ln, n, _) ← wrap "read immediate: " (lift (DecodeUint32 br));
  labelInRange ln "invalid ln param given for br_table";;
  advance (n + num - 1);;
  failAs "cannot pop the required operand for br_table" (popT ValueTypeI32);;
  lnLabel ← csTarget ln;
  defaultLabelType ←
    (if IsEnabled enabledFeatures CoreFeatureReferenceTypes then
       r ← popDefaultLabel 0 (reverse (labelTypes lnLabel)); mret (reverse r)
     else popResults m OpcodeBrTable (labelTypes lnLabel) false;; mret (labelTypes lnLabel));
  checkTableLabels defaultLabelType ls;;
  unreachable.

(** ** Exceptions *)

Definition validateThrow : M unit :=
  invalidAs "throw" CoreFeaturesExceptionHandling;;
  advance 1;;
  tagIndex ← readU32 "read immediate";
  guard_ (negb (tagIndex >=? zlen tags)) "invalid tag index for throw";;
  tag ← lift (zindex tags tagIndex);
  tagType ← lift (zindex (TypeSection m) tag);
  popAll m (wrap "type mismatch on throw operation: ") (reverse (Params tagType));;
  unreachable.

Definition validateThrowRef : M unit :=
  invalidAs "throw_ref" CoreFeaturesExceptionHandling;;
  wrap "type mismatch on throw_ref: " (popT ValueTypeExnref);;
  unreachable.

(** [for j := range catchTypes]: both lists have the same length. *)
Fixpoint catchTypesMatch (msg : string) (catchTypes expectedTypes : list ValueType) : M unit :=
  match catchTypes, expectedTypes with
  | c :: cs', e :: es' =>
      b ← lift (isRefSubtypeOf m c e);
      if b : bool then catchTypesMatch msg cs' es' else fail msg
  | [], _ => mret tt
  | _ :: _, [] => lift (Panic "index out of range")
  end.

Definition checkCatchTarget (name : string) (labelIdx : Z) (catchTypes : list ValueType) : M unit :=
  labelInRange labelIdx ("invalid label index in " +:+ name +:+ " clause");;
  target ← csTarget labelIdx;
  guard_ (zlen catchTypes =? zlen (labelTypes target)) (name +:+ " clause type mismatch: catch delivers values but label expects");;
  catchTypesMatch (name +:+ " clause type mismatch at index") catchTypes (labelTypes target).

Definition validateCatchClause : M unit :=
  advance 1;;
  p ← gets pc;
  guard_ (negb (p >=? zlen body)) "unexpected end of function reading catch clause";;
  catchKind ← bodyAt;
  if one_of catchKind [CatchKindCatch; CatchKindCatchRef] then
    advance 1;;
    tagIdx ← readU32 "read catch tag index";
    guard_ (negb (tagIdx >=? zlen tags)) "invalid tag index in catch clause";;
    tag ← lift (zindex tags tagIdx);
    tagType ← lift (zindex (TypeSection m) tag);
    advance 1;;
    labelIdx ← readU32 "read catch label index";
    checkCatchTarget "catch" labelIdx
      (Params tagType ++ if catchKind =? CatchKindCatchRef then [AsNonNullable ValueTypeExnref] else [])
  else if one_of catchKind [CatchKindCatchAll; CatchKindCatchAllRef] then
    advance 1;;
    labelIdx ← readU32 "read catch_all label index";
    checkCatchTarget "catch_all" labelIdx
      (if catchKind =? CatchKindCatchAllRef then [AsNonNullable ValueTypeExnref] else [])
  else fail "invalid catch kind".

(** [for i := 0; i < catchCount; i++] *)
Fixpoint validateCatchClauses (fuel : nat) (catchCount : Z) : M unit :=
  if catchCount <=? 0 then mret tt
  else
    match fuel with
    | O => lift (Panic "validateCatchClauses: loop bound")
    | S fuel' => validateCatchClause;; validateCatchClauses fuel' (catchCount - 1)
    end.

Definition readBlockType : M (FunctionType * Z) :=
  br ← bodyFrom 1;
  wrap "read block: " (lift (DecodeBlockType (TypeSection m) br enabledFeatures)).

(** The operands of a block move to its own frame. *)
Definition enterBlock (op : Z) (bt : FunctionType) : M unit :=
  popParams m op (Params bt) false;;
  pushAll (Params bt);;
  pushStackLimit (zlen (Params bt)).

(** The catch count is read at [body[pc+1:]] after the block type; the control
    block is pushed without [savedInitLocals]. *)
Definition validateTryTable : M unit :=
  invalidAs "try_table" CoreFeaturesExceptionHandling;;
  '(bt, num) ← readBlockType;
  advance num;;
  b ← bodyFrom 1;
  '(catchCount, catchNum) ← wrap "read catch count: " (lift (LoadUint32 b));
  advance catchNum;;
  validateCatchClauses (S (length body)) catchCount;;
  p ← gets pc;
  csPush p 0 0 bt 0 OpcodeTryTable None;;
  enterBlock OpcodeTryTable bt.

(** ** Calls *)

Definition validateCall (op : Z) : M unit :=
  advance 1;;
  index ← readU32 "read immediate";
  guard_ (negb (index >=? zlen functions)) "invalid function index";;
  typ ← lift (zindex functions index);
  funcType ← lift (zindex (TypeSection m) typ);
  validateCallSignature m (if op =? OpcodeCall then "call" else "return_call") funcType;;
  if op =? OpcodeTailCallReturnCall then
    validateReturnCall m "return_call" enabledFeatures funcType functionType;;
    unreachable
  else mret tt.

Definition validateCallIndirect (op : Z) : M unit :=
  let opcodeName := if op =? OpcodeCallIndirect then "call_indirect" else "return_call_indirect" in
  advance 1;;
  '(typeIndex, num) ← loadU32 "read immediate";
  advance num;;
  guard_ (negb (typeIndex >=? zlen (TypeSection m))) ("invalid type index at " +:+ opcodeName);;
  tableIndex ← readU32 "read table index";
  (if negb (tableIndex =? 0) then
     wrap "table index must be zero: " (requireEnabled enabledFeatures CoreFeatureReferenceTypes)
   else mret tt);;
  guard_ (negb (tableIndex >=? zlen tables)) "unknown table index";;
  table ← lift (zindex tables tableIndex);
  guard_ (negb (negb (TableType table =? ValueTypeFuncref)
                && negb (IsConcreteRef (TableType table)
                         && IsEnabled enabledFeatures CoreFeaturesTypedFunctionReferences)))
    ("table is not funcref type for " +:+ opcodeName);;
  failAs ("cannot pop the offset in table for " +:+ opcodeName) (popT ValueTypeI32);;
  funcType ← lift (zindex (TypeSection m) typeIndex);
  validateCallSignature m opcodeName funcType;;
  if op =? OpcodeTailCallReturnCallIndirect then
    validateReturnCall m "return_call_indirect" enabledFeatures funcType functionType;;
    unreachable
  else mret tt.

Definition validateCallRef (op : Z) : M unit :=
  invalidAs (InstructionName op) CoreFeaturesTypedFunctionReferences;;
  advance 1;;
  typeIndex ← readU32 "read immediate";
  guard_ (negb (typeIndex >=? zlen (TypeSection m))) ("invalid type index at " +:+ InstructionName op);;
  wrap ("type mismatch on " +:+ InstructionName op +:+ " operation: ") (popT (ValueTypeConcreteRef typeIndex true));;
  funcType ← lift (zindex (TypeSection m) typeIndex);
  validateCallSignature m (InstructionName op) funcType;;
  if op =? OpcodeReturnCallRef then
    validateReturnCall m "return_call_ref" enabledFeatures funcType functionType;;
    unreachable
  else mret tt.

(** ** Numeric instructions *)

Definition popFor (msg : string) (op : Z) (t : ValueType) : M unit :=
  wrap (msg +:+ " for " +:+ InstructionName op +:+ ": ") (popT t).

Definition unop (msg : string) (op : Z) (t r : ValueType) : M unit :=
  popFor msg op t;; push r.

Definition binop (kind : string) (op : Z) (t r : ValueType) : M unit :=
  popFor ("cannot pop the 1st " +:+ kind +:+ "operand") op t;;
  popFor ("cannot pop the 2nd " +:+ kind +:+ "operand") op t;;
  push r.

(** The rest of the same switch: conversions and sign extensions. *)
Definition validateConversion (op : Z) : M unit :=
  if op =? OpcodeI32WrapI64 then unop "cannot pop the operand" op ValueTypeI64 ValueTypeI32
  else if one_of op [OpcodeI32TruncF32S; OpcodeI32TruncF32U] then unop "cannot pop the f32 operand" op ValueTypeF32 ValueTypeI32
  else if one_of op [OpcodeI32TruncF64S; OpcodeI32TruncF64U] then unop "cannot pop the f64 operand" op ValueTypeF64 ValueTypeI32
  else if one_of op [OpcodeI64ExtendI32S; OpcodeI64ExtendI32U] then unop "cannot pop the i32 operand" op ValueTypeI32 ValueTypeI64
  else if one_of op [OpcodeI64TruncF32S; OpcodeI64TruncF32U] then unop "cannot pop the f32 operand" op ValueTypeF32 ValueTypeI64
  else if one_of op [OpcodeI64TruncF64S; OpcodeI64TruncF64U] then unop "cannot pop the f64 operand" op ValueTypeF64 ValueTypeI64
  else if one_of op [OpcodeF32ConvertI32S; OpcodeF32ConvertI32U] then unop "cannot pop the i32 operand" op ValueTypeI32 ValueTypeF32
  else if one_of op [OpcodeF32ConvertI64S; OpcodeF32ConvertI64U] then unop "cannot pop the i64 operand" op ValueTypeI64 ValueTypeF32
  else if op =? OpcodeF32DemoteF64 then unop "cannot pop the operand" op ValueTypeF64 ValueTypeF32
  else if one_of op [OpcodeF64ConvertI32S; OpcodeF64ConvertI32U] then unop "cannot pop the i32 operand" op ValueTypeI32 ValueTypeF64
  else if one_of op [OpcodeF64ConvertI64S; OpcodeF64ConvertI64U] then unop "cannot pop the i64 operand" op ValueTypeI64 ValueTypeF64
  else if op =? OpcodeF64PromoteF32 then unop "cannot pop the operand" op ValueTypeF32 ValueTypeF64
  else if op =? OpcodeI32ReinterpretF32 then unop "cannot pop the operand" op ValueTypeF32 ValueTypeI32
  else if op =? OpcodeI64ReinterpretF64 then unop "cannot pop the operand" op ValueTypeF64 ValueTypeI64
  else if op =? OpcodeF32ReinterpretI32 then unop "cannot pop the operand" op ValueTypeI32 ValueTypeF32
  else if op =? OpcodeF64ReinterpretI64 then unop "cannot pop the operand" op ValueTypeI64 ValueTypeF64
  else if one_of op [OpcodeI32Extend8S; OpcodeI32Extend16S] then
    invalidAs (InstructionName op) CoreFeatureSignExtensionOps;; unop "cannot pop the operand" op ValueTypeI32 ValueTypeI32
  else if one_of op [OpcodeI64Extend8S; OpcodeI64Extend16S; OpcodeI64Extend32S] then
    invalidAs (InstructionName op) CoreFeatureSignExtensionOps;; unop "cannot pop the operand" op ValueTypeI64 ValueTypeI64
  else fail "invalid numeric instruction".

Definition validateNumeric (op : Z) : M unit :=
  if op =? OpcodeI32Eqz then unop "cannot pop the operand" op ValueTypeI32 ValueTypeI32
  else if one_of op [OpcodeI32Eq; OpcodeI32Ne; OpcodeI32LtS; OpcodeI32LtU; OpcodeI32GtS; OpcodeI32GtU; OpcodeI32LeS;
                     OpcodeI32LeU; OpcodeI32GeS; OpcodeI32GeU] then binop "i32 " op ValueTypeI32 ValueTypeI32
  else if op =? OpcodeI64Eqz then unop "cannot pop the operand" op ValueTypeI64 ValueTypeI32
  else if one_of op [OpcodeI64Eq; OpcodeI64Ne; OpcodeI64LtS; OpcodeI64LtU; OpcodeI64GtS; OpcodeI64GtU;
                     OpcodeI64LeS; OpcodeI64LeU; OpcodeI64GeS; OpcodeI64GeU] then binop "i64 " op ValueTypeI64 ValueTypeI32
  else if one_of op [OpcodeF32Eq; OpcodeF32Ne; OpcodeF32Lt; OpcodeF32Gt; OpcodeF32Le; OpcodeF32Ge]
       then binop "f32 " op ValueTypeF32 ValueTypeI32
  else if one_of op [OpcodeF64Eq; OpcodeF64Ne; OpcodeF64Lt; OpcodeF64Gt; OpcodeF64Le; OpcodeF64Ge]
       then binop "f64 " op ValueTypeF64 ValueTypeI32
  else if one_of op [OpcodeI32Clz; OpcodeI32Ctz; OpcodeI32Popcnt]
       then unop "cannot pop the i32 operand" op ValueTypeI32 ValueTypeI32
  else if one_of op [OpcodeI32Add; OpcodeI32Sub; OpcodeI32Mul; OpcodeI32DivS; OpcodeI32DivU; OpcodeI32RemS; OpcodeI32RemU;
                     OpcodeI32And; OpcodeI32Or; OpcodeI32Xor; OpcodeI32Shl; OpcodeI32ShrS; OpcodeI32ShrU; OpcodeI32Rotl;
                     OpcodeI32Rotr] then binop "" op ValueTypeI32 ValueTypeI32
  else if one_of op [OpcodeI64Clz; OpcodeI64Ctz; OpcodeI64Popcnt]
       then unop "cannot pop the i64 operand" op ValueTypeI64 ValueTypeI64
  else if one_of op [OpcodeI64Add; OpcodeI64Sub; OpcodeI64Mul; OpcodeI64DivS; OpcodeI64DivU; OpcodeI64RemS; OpcodeI64RemU;
                     OpcodeI64And; OpcodeI64Or; OpcodeI64Xor; OpcodeI64Shl; OpcodeI64ShrS; OpcodeI64ShrU; OpcodeI64Rotl;
                     OpcodeI64Rotr] then binop "i64 " op ValueTypeI64 ValueTypeI64
  else if one_of op [OpcodeF32Abs; OpcodeF32Neg; OpcodeF32Ceil; OpcodeF32Floor; OpcodeF32Trunc; OpcodeF32Nearest; OpcodeF32Sqrt]
       then unop "cannot pop the 1st f32 operand" op ValueTypeF32 ValueTypeF32
  else if one_of op [OpcodeF32Add; OpcodeF32Sub; OpcodeF32Mul; OpcodeF32Div; OpcodeF32Min; OpcodeF32Max; OpcodeF32Copysign]
       then binop "f32 " op ValueTypeF32 ValueTypeF32
  else if one_of op [OpcodeF64Abs; OpcodeF64Neg; OpcodeF64Ceil; OpcodeF64Floor; OpcodeF64Trunc; OpcodeF64Nearest; OpcodeF64Sqrt]
       then unop "cannot pop the 1st f64 operand" op ValueTypeF64 ValueTypeF64
  else if one_of op [OpcodeF64Add; OpcodeF64Sub; OpcodeF64Mul; OpcodeF64Div; OpcodeF64Min; OpcodeF64Max; OpcodeF64Copysign]
       then binop "f64 " op ValueTypeF64 ValueTypeF64
  else validateConversion op.

(** ** References *)

Definition validateRefNull : M unit :=
  advance 1;;
  reftype ← bodyAt;
  if reftype =? ValueTypeExternref then push ValueTypeExternref
  else if reftype =? ValueTypeFuncref then push ValueTypeFuncref
  else if reftype =? ValueTypeExnref then push ValueTypeExnref
  else
    wrap "ref.null with concrete type invalid as "
      (requireEnabled enabledFeatures CoreFeaturesTypedFunctionReferences);;
    br ← bodyFrom 0;
    '(typeIdx, num, _) ← failAs "unknown type for ref.null" (lift (DecodeUint32 br));
    guard_ (negb (typeIdx >=? zlen (TypeSection m))) "unknown type for ref.null: type index out of range";;
    advance (num - 1);;
    push (ValueTypeConcreteRef typeIdx true).

Definition popRef (name : string) : M ValueType :=
  tp ← wrap ("cannot pop the operand for " +:+ name +:+ ": ") pop;
  guard_ (isReferenceValueType tp || (tp =? valueTypeUnknown))
    ("type mismatch: expected reference type but was " +:+ ValueTypeName tp);;
  mret tp.

Definition validateRefFunc : M unit :=
  advance 1;;
  '(index, num) ← loadU32 "failed to read function index for ref.func";
  guard_ (negb (index >=? zlen functions)) "unknown function index for ref.func";;
  guard_ (bool_decide (index ∈ declaredFunctionIndexes)) "undeclared function index for ref.func";;
  advance (num - 1);;
  if IsEnabled enabledFeatures CoreFeaturesTypedFunctionReferences then
    t ← lift (zindex functions index); push (ValueTypeConcreteRef t false)
  else push ValueTypeFuncref.

Definition validateRef (op : Z) : M unit :=
  invalidAs (InstructionName op) CoreFeatureReferenceTypes;;
  if op =? OpcodeRefNull then validateRefNull
  else if op =? OpcodeRefIsNull then popRef "ref.is_null";; push ValueTypeI32
  else if op =? OpcodeRefFunc then validateRefFunc
  else mret tt.

Definition asNonNull (tp : ValueType) : ValueType :=
  if tp =? valueTypeUnknown then tp else AsNonNullable tp.

Definition validateRefAsNonNull : M unit :=
  invalidAs "ref.as_non_null" CoreFeaturesTypedFunctionReferences;;
  tp ← popRef "ref.as_non_null";
  push (asNonNull tp).

Definition validateBrOnNull : M unit :=
  invalidAs "br_on_null" CoreFeaturesTypedFunctionReferences;;
  advance 1;;
  '(index, num) ← loadU32 "read immediate";
  labelInRange index "invalid br_on_null operation: index out of range";;
  advance (num - 1);;
  tp ← popRef "br_on_null";
  target ← csTarget index;
  popResults m OpcodeBrOnNull (labelTypes target) false;;
  pushAll (labelTypes target);;
  push (asNonNull tp).

Definition validateBrOnNonNull : M unit :=
  invalidAs "br_on_non_null" CoreFeaturesTypedFunctionReferences;;
  advance 1;;
  '(index, num) ← loadU32 "read immediate";
  labelInRange index "invalid br_on_non_null operation: index out of range";;
  advance (num - 1);;
  tp ← popRef "br_on_non_null";
  target ← csTarget index;
  match reverse (labelTypes target) with
  | [] => fail "type mismatch on br_on_non_null: label has no results but needs a ref type"
  | lastTarget :: rremaining =>
      let nonNullTp := asNonNull tp in
      b ← (if negb (nonNullTp =? valueTypeUnknown) then lift (isRefSubtypeOf m nonNullTp lastTarget) else mret true);
      guard_ b "type mismatch on br_on_non_null: ref type is not a subtype of label's last result";;
      let remaining := reverse rremaining in
      popResults m OpcodeBrOnNonNull remaining false;;
      pushAll remaining
  end.

Definition validateTableGetSet (op : Z) : M unit :=
  wrap (InstructionName op +:+ " is invalid as ") (requireEnabled enabledFeatures CoreFeatureReferenceTypes);;
  advance 1;;
  '(tableIndex, num) ← loadU32 "read immediate";
  guard_ (negb (tableIndex >=? zlen tables)) "table of index not found";;
  table ← lift (zindex tables tableIndex);
  (if op =? OpcodeTableGet then
     wrap "cannot pop the operand for table.get: " (popT ValueTypeI32);;
     push (TableType table)
   else
     wrap "cannot pop the operand for table.set: " (popT (TableType table));;
     wrap "cannot pop the operand for table.set: " (popT ValueTypeI32));;
  advance (num - 1).

(** ** Miscellaneous instructions *)

Definition miscPops (miscOpcode : Z) (params : list ValueType) : M unit :=
  popAll m (wrap ("cannot pop the operand for " +:+ MiscInstructionName miscOpcode +:+ ": ")) params.

Definition validateTruncSat (miscOpcode : Z) : M unit :=
  invalidAs (MiscInstructionName miscOpcode) CoreFeatureNonTrappingFloatToIntConversion;;
  let '(inType, outType) :=
    if one_of miscOpcode [OpcodeMiscI32TruncSatF32S; OpcodeMiscI32TruncSatF32U] then (ValueTypeF32, ValueTypeI32)
    else if one_of miscOpcode [OpcodeMiscI32TruncSatF64S; OpcodeMiscI32TruncSatF64U] then (ValueTypeF64, ValueTypeI32)
    else if one_of miscOpcode [OpcodeMiscI64TruncSatF32S; OpcodeMiscI64TruncSatF32U] then (ValueTypeF32, ValueTypeI64)
    else if one_of miscOpcode [OpcodeMiscI64TruncSatF64S; OpcodeMiscI64TruncSatF64U] then (ValueTypeF64, ValueTypeI64)
    else (0, 0) in
  miscPops miscOpcode [inType];;
  push outType.

Definition requiresDataCount (miscOpcode : Z) : M unit :=
  match DataCountSection m with
  | None => fail (MiscInstructionName miscOpcode +:+ " requires data count section")
  | Some _ => mret tt
  end.

Definition readDataIndex (miscOpcode : Z) : M unit :=
  advance 1;;
  '(index, num) ← loadU32 ("failed to read data segment index for " +:+ MiscInstructionName miscOpcode);
  guard_ (negb (index >=? DataSectionLen m)) "index out of range of data section";;
  advance (num - 1).

Definition readZeroMemoryIndex (miscOpcode : Z) : M unit :=
  advance 1;;
  '(val, num) ← loadU32 ("failed to read memory index for " +:+ MiscInstructionName miscOpcode);
  guard_ ((val =? 0) && (num =? 1)) (MiscInstructionName miscOpcode +:+ " reserved byte must be zero encoded with 1 byte").

Definition readElementIndex (miscOpcode : Z) : M (Z * Z) :=
  '(elementIndex, num) ← loadU32 ("failed to read element segment index for " +:+ MiscInstructionName miscOpcode);
  guard_ (negb (elementIndex >=? zlen (ElementSection m))) "index out of range of element section";;
  mret (elementIndex, num).

(** A table index: zero unless reference types are enabled, and in range. *)
Definition readTableIndex (what : string) (miscOpcode : Z) : M (Table * Z) :=
  '(tableIndex, num) ← loadU32 ("failed to read " +:+ what +:+ " table index for " +:+ MiscInstructionName miscOpcode);
  (if negb (tableIndex =? 0) then
     wrap (what +:+ " table index must be zero for " +:+ MiscInstructionName miscOpcode +:+ " as ")
       (requireEnabled enabledFeatures CoreFeatureReferenceTypes)
   else mret tt);;
  guard_ (negb (tableIndex >=? zlen tables)) "table of index not found";;
  table ← lift (zindex tables tableIndex);
  mret (table, num).

Definition i32x3 : list ValueType := [ValueTypeI32; ValueTypeI32; ValueTypeI32].

(** The switch of the bulk memory instructions: reads the immediates and returns
    the operands to pop. *)
Definition bulkImmediates (miscOpcode : Z) : M (list ValueType) :=
  if miscOpcode =? OpcodeMiscDataDrop then
    requiresDataCount miscOpcode;; readDataIndex miscOpcode;; mret []
  else if one_of miscOpcode [OpcodeMiscMemoryInit; OpcodeMiscMemoryCopy; OpcodeMiscMemoryFill] then
    memoryMustExist (MiscInstructionName miscOpcode);;
    (if miscOpcode =? OpcodeMiscMemoryInit then
       requiresDataCount miscOpcode;; readDataIndex miscOpcode
     else mret tt);;
    readZeroMemoryIndex miscOpcode;;
    (if miscOpcode =? OpcodeMiscMemoryCopy then readZeroMemoryIndex miscOpcode else mret tt);;
    mret i32x3
  else if miscOpcode =? OpcodeMiscTableInit then
    advance 1;;
    '(elementIndex, num) ← readElementIndex miscOpcode;
    advance num;;
    '(table, num) ← readTableIndex "source" miscOpcode;
    elemType ← lift (zindex (ElementSection m) elementIndex);
    b ← lift (isRefSubtypeOf m elemType (TableType table));
    guard_ b "type mismatch for table.init: element type does not match table type";;
    advance (num - 1);;
    mret i32x3
  else if miscOpcode =? OpcodeMiscElemDrop then
    advance 1;;
    '(_, num) ← readElementIndex miscOpcode;
    advance (num - 1);;
    mret []
  else if miscOpcode =? OpcodeMiscTableCopy then
    advance 1;;
    '(dst, num) ← readTableIndex "destination" miscOpcode;
    advance num;;
    '(src, num) ← readTableIndex "source" miscOpcode;
    b ← lift (isRefSubtypeOf m (TableType src) (TableType dst));
    guard_ b "table type mismatch for table.copy";;
    advance (num - 1);;
    mret i32x3
  else mret [].

Definition validateBulk (miscOpcode : Z) : M unit :=
  invalidAs (MiscInstructionName miscOpcode) CoreFeatureBulkMemoryOperations;;
  params ← bulkImmediates miscOpcode;
  miscPops miscOpcode params.

Definition validateTableOp (miscOpcode : Z) : M unit :=
  invalidAs (MiscInstructionName miscOpcode) CoreFeatureReferenceTypes;;
  advance 1;;
  '(tableIndex, num) ← loadU32 ("failed to read table index for " +:+ MiscInstructionName miscOpcode);
  guard_ (negb (tableIndex >=? zlen tables)) "table of index not found";;
  advance (num - 1);;
  table ← lift (zindex tables tableIndex);
  let reftype := TableType table in
  let '(params, results) :=
    if miscOpcode =? OpcodeMiscTableGrow then ([ValueTypeI32; reftype], [ValueTypeI32])
    else if miscOpcode =? OpcodeMiscTableSize then ([], [ValueTypeI32])
    else if miscOpcode =? OpcodeMiscTableFill then ([ValueTypeI32; reftype; ValueTypeI32], [])
    else ([], []) in
  miscPops miscOpcode params;;
  pushAll results.

Definition miscInstruction (miscOpcode : Z) : M unit :=
  if between OpcodeMiscI32TruncSatF32S miscOpcode OpcodeMiscI64TruncSatF64U then validateTruncSat miscOpcode
  else if between OpcodeMiscMemoryInit miscOpcode OpcodeMiscTableCopy then validateBulk miscOpcode
  else if between OpcodeMiscTableGrow miscOpcode OpcodeMiscTableFill then validateTableOp miscOpcode
  else fail "unknown misc opcode".

Definition validateMisc : M unit :=
  advance 1;;
  miscOp32 ← readU32 "failed to read misc opcode";
  let miscOpcode := wrap8 miscOp32 in
  if negb (miscOpcode =? miscOp32) then fail "invalid misc opcode"
  else miscInstruction miscOpcode.

(** ** Vector instructions *)

Definition popVec (vecOpcode : Z) (t : ValueType) : M unit :=
  wrap ("cannot pop the operand for " +:+ VectorInstructionName vecOpcode +:+ ": ") (popT t).

Definition vecMemArg (vecOpcode : Z) : M (Z * Z) :=
  memoryMustExist (VectorInstructionName vecOpcode);; advance 1;; memArg.

Definition vecMaxAlign (vecOpcode : Z) : Z :=
  if vecOpcode =? OpcodeVecV128Load then 128 / 8
  else if one_of vecOpcode [OpcodeVecV128Load8x8s; OpcodeVecV128Load8x8u; OpcodeVecV128Load16x4s; OpcodeVecV128Load16x4u;
                            OpcodeVecV128Load32x2s; OpcodeVecV128Load32x2u] then 64 / 8
  else if vecOpcode =? OpcodeVecV128Load8Splat then 1
  else if vecOpcode =? OpcodeVecV128Load16Splat then 16 / 8
  else if vecOpcode =? OpcodeVecV128Load32Splat then 32 / 8
  else if vecOpcode =? OpcodeVecV128Load64Splat then 64 / 8
  else if vecOpcode =? OpcodeVecV128Load32zero then 32 / 8
  else if vecOpcode =? OpcodeVecV128Load64zero then 64 / 8
  else 0.

Definition vecCheckAlign (vecOpcode align max : Z) : M unit :=
  guard_ (negb (Z.shiftl 1 align >? max)) ("invalid memory alignment for " +:+ VectorInstructionName vecOpcode).

(** [pc >= len(body)] is checked, then the lane is [body[pc]]. *)
Definition readLane (name : string) (vecOpcode laneCeil : Z) : M unit :=
  p ← gets pc;
  guard_ (negb (p >=? zlen body)) ("lane for " +:+ name +:+ " not found");;
  lane ← bodyAt;
  guard_ (negb (lane >=? laneCeil)) ("invalid lane index for " +:+ VectorInstructionName vecOpcode).

Definition vecLoad (vecOpcode : Z) : M unit :=
  '(align, read) ← vecMemArg vecOpcode;
  advance (read - 1);;
  vecCheckAlign vecOpcode align (vecMaxAlign vecOpcode);;
  popVec vecOpcode ValueTypeI32;; push ValueTypeV128.

Definition vecStore (vecOpcode : Z) : M unit :=
  '(align, read) ← vecMemArg vecOpcode;
  advance (read - 1);;
  vecCheckAlign vecOpcode align (128 / 8);;
  popVec vecOpcode ValueTypeV128;; popVec vecOpcode ValueTypeI32.

Definition vecLoadLane (vecOpcode : Z) : M unit :=
  let '(alignMax, laneCeil) := vecLoadLanes vecOpcode in
  '(align, read) ← vecMemArg vecOpcode;
  vecCheckAlign vecOpcode align alignMax;;
  advance read;;
  readLane (VectorInstructionName OpcodeVecV128Load64Lane) vecOpcode laneCeil;;
  popVec vecOpcode ValueTypeV128;; popVec vecOpcode ValueTypeI32;; push ValueTypeV128.

Definition vecStoreLane (vecOpcode : Z) : M unit :=
  let '(alignMax, laneCeil) := vecStoreLanes vecOpcode in
  '(align, read) ← vecMemArg vecOpcode;
  vecCheckAlign vecOpcode align alignMax;;
  advance read;;
  readLane (VectorInstructionName vecOpcode) vecOpcode laneCeil;;
  popVec vecOpcode ValueTypeV128;; popVec vecOpcode ValueTypeI32.

Definition vecExtractLane (vecOpcode : Z) : M unit :=
  let '(laneCeil, resultType) := vecExtractLanes vecOpcode in
  advance 1;;
  readLane (VectorInstructionName vecOpcode) vecOpcode laneCeil;;
  popVec vecOpcode ValueTypeV128;; push resultType.

Definition vecReplaceLane (vecOpcode : Z) : M unit :=
  let '(laneCeil, paramType) := vecReplaceLanes vecOpcode in
  advance 1;;
  readLane (VectorInstructionName vecOpcode) vecOpcode laneCeil;;
  popVec vecOpcode paramType;; popVec vecOpcode ValueTypeV128;; push ValueTypeV128.

Definition vecConst (vecOpcode : Z) : M unit :=
  p ← gets pc;
  guard_ (negb (p + 16 >=? zlen body)) ("cannot read constant vector value for " +:+ VectorInstructionName vecOpcode);;
  advance 16;;
  push ValueTypeV128.

Definition vecShuffle (vecOpcode : Z) : M unit :=
  advance 1;;
  p ← gets pc;
  guard_ (negb (p + 15 >=? zlen body)) ("16 lane indexes for " +:+ VectorInstructionName vecOpcode +:+ " not found");;
  lanes ← bodyFrom 0;
  guard_ (forallb (fun l => negb (l >=? 32)) (take 16 lanes)) ("invalid lane index for " +:+ VectorInstructionName vecOpcode);;
  popVec vecOpcode ValueTypeV128;; popVec vecOpcode ValueTypeV128;; push ValueTypeV128;;
  advance 15.

(** Instructions whose operands are all vectors, [n] of them. *)
Definition vecOperands (vecOpcode : Z) (n : nat) : M unit :=
  popAll m (wrap ("cannot pop the operand for " +:+ VectorInstructionName vecOpcode +:+ ": ")) (replicate n ValueTypeV128);;
  push ValueTypeV128.

Definition vecTests : list Z := [
  OpcodeVecV128AnyTrue; OpcodeVecI8x16AllTrue; OpcodeVecI16x8AllTrue; OpcodeVecI32x4AllTrue; OpcodeVecI64x2AllTrue;
  OpcodeVecI8x16BitMask; OpcodeVecI16x8BitMask; OpcodeVecI32x4BitMask; OpcodeVecI64x2BitMask].

Definition vecLoads : list Z := [
  OpcodeVecV128Load; OpcodeVecV128Load8x8s; OpcodeVecV128Load8x8u; OpcodeVecV128Load16x4s; OpcodeVecV128Load16x4u;
  OpcodeVecV128Load32x2s; OpcodeVecV128Load32x2u; OpcodeVecV128Load8Splat; OpcodeVecV128Load16Splat;
  OpcodeVecV128Load32Splat; OpcodeVecV128Load64Splat; OpcodeVecV128Load32zero; OpcodeVecV128Load64zero].

Definition vecShifts : list Z := [
  OpcodeVecI8x16Shl; OpcodeVecI8x16ShrS; OpcodeVecI8x16ShrU; OpcodeVecI16x8Shl; OpcodeVecI16x8ShrS;
  OpcodeVecI16x8ShrU; OpcodeVecI32x4Shl; OpcodeVecI32x4ShrS; OpcodeVecI32x4ShrU; OpcodeVecI64x2Shl;
  OpcodeVecI64x2ShrS; OpcodeVecI64x2ShrU].

Definition vecCompares : list Z := [
  OpcodeVecI8x16Eq; OpcodeVecI8x16Ne; OpcodeVecI8x16LtS; OpcodeVecI8x16LtU; OpcodeVecI8x16GtS; OpcodeVecI8x16GtU;
  OpcodeVecI8x16LeS; OpcodeVecI8x16LeU; OpcodeVecI8x16GeS; OpcodeVecI8x16GeU; OpcodeVecI16x8Eq; OpcodeVecI16x8Ne;
  OpcodeVecI16x8LtS; OpcodeVecI16x8LtU; OpcodeVecI16x8GtS; OpcodeVecI16x8GtU; OpcodeVecI16x8LeS; OpcodeVecI16x8LeU;
  OpcodeVecI16x8GeS; OpcodeVecI16x8GeU; OpcodeVecI32x4Eq; OpcodeVecI32x4Ne; OpcodeVecI32x4LtS; OpcodeVecI32x4LtU;
  OpcodeVecI32x4GtS; OpcodeVecI32x4GtU; OpcodeVecI32x4LeS; OpcodeVecI32x4LeU; OpcodeVecI32x4GeS; OpcodeVecI32x4GeU;
  OpcodeVecI64x2Eq; OpcodeVecI64x2Ne; OpcodeVecI64x2LtS; OpcodeVecI64x2GtS; OpcodeVecI64x2LeS; OpcodeVecI64x2GeS;
  OpcodeVecF32x4Eq; OpcodeVecF32x4Ne; OpcodeVecF32x4Lt; OpcodeVecF32x4Gt; OpcodeVecF32x4Le; OpcodeVecF32x4Ge;
  OpcodeVecF64x2Eq; OpcodeVecF64x2Ne; OpcodeVecF64x2Lt; OpcodeVecF64x2Gt; OpcodeVecF64x2Le; OpcodeVecF64x2Ge;
  OpcodeVecI32x4DotI16x8S; OpcodeVecI8x16NarrowI16x8S; OpcodeVecI8x16NarrowI16x8U; OpcodeVecI16x8NarrowI32x4S;
  OpcodeVecI16x8NarrowI32x4U].

Definition vecUnary : list Z := [
  OpcodeVecI8x16Neg; OpcodeVecI16x8Neg; OpcodeVecI32x4Neg; OpcodeVecI64x2Neg; OpcodeVecF32x4Neg; OpcodeVecF64x2Neg;
  OpcodeVecF32x4Sqrt; OpcodeVecF64x2Sqrt; OpcodeVecI8x16Abs; OpcodeVecI8x16Popcnt; OpcodeVecI16x8Abs;
  OpcodeVecI32x4Abs; OpcodeVecI64x2Abs; OpcodeVecF32x4Abs; OpcodeVecF64x2Abs; OpcodeVecF32x4Ceil;
  OpcodeVecF32x4Floor; OpcodeVecF32x4Trunc; OpcodeVecF32x4Nearest; OpcodeVecF64x2Ceil; OpcodeVecF64x2Floor;
  OpcodeVecF64x2Trunc; OpcodeVecF64x2Nearest; OpcodeVecI16x8ExtendLowI8x16S; OpcodeVecI16x8ExtendHighI8x16S;
  OpcodeVecI16x8ExtendLowI8x16U; OpcodeVecI16x8ExtendHighI8x16U; OpcodeVecI32x4ExtendLowI16x8S;
  OpcodeVecI32x4ExtendHighI16x8S; OpcodeVecI32x4ExtendLowI16x8U; OpcodeVecI32x4ExtendHighI16x8U;
  OpcodeVecI64x2ExtendLowI32x4S; OpcodeVecI64x2ExtendHighI32x4S; OpcodeVecI64x2ExtendLowI32x4U;
  OpcodeVecI64x2ExtendHighI32x4U; OpcodeVecI16x8ExtaddPairwiseI8x16S; OpcodeVecI16x8ExtaddPairwiseI8x16U;
  OpcodeVecI32x4ExtaddPairwiseI16x8S; OpcodeVecI32x4ExtaddPairwiseI16x8U; OpcodeVecF64x2PromoteLowF32x4Zero;
  OpcodeVecF32x4DemoteF64x2Zero; OpcodeVecF32x4ConvertI32x4S; OpcodeVecF32x4ConvertI32x4U;
  OpcodeVecF64x2ConvertLowI32x4S; OpcodeVecF64x2ConvertLowI32x4U; OpcodeVecI32x4TruncSatF32x4S;
  OpcodeVecI32x4TruncSatF32x4U; OpcodeVecI32x4TruncSatF64x2SZero; OpcodeVecI32x4TruncSatF64x2UZero].

Definition vecBinary : list Z := [
  OpcodeVecI8x16Add; OpcodeVecI8x16AddSatS; OpcodeVecI8x16AddSatU; OpcodeVecI8x16Sub; OpcodeVecI8x16SubSatS;
  OpcodeVecI8x16SubSatU; OpcodeVecI16x8Add; OpcodeVecI16x8AddSatS; OpcodeVecI16x8AddSatU; OpcodeVecI16x8Sub;
  OpcodeVecI16x8SubSatS; OpcodeVecI16x8SubSatU; OpcodeVecI16x8Mul; OpcodeVecI32x4Add; OpcodeVecI32x4Sub;
  OpcodeVecI32x4Mul; OpcodeVecI64x2Add; OpcodeVecI64x2Sub; OpcodeVecI64x2Mul; OpcodeVecF32x4Add; OpcodeVecF32x4Sub;
  OpcodeVecF32x4Mul; OpcodeVecF32x4Div; OpcodeVecF64x2Add; OpcodeVecF64x2Sub; OpcodeVecF64x2Mul; OpcodeVecF64x2Div;
  OpcodeVecI8x16MinS; OpcodeVecI8x16MinU; OpcodeVecI8x16MaxS; OpcodeVecI8x16MaxU; OpcodeVecI8x16AvgrU;
  OpcodeVecI16x8MinS; OpcodeVecI16x8MinU; OpcodeVecI16x8MaxS; OpcodeVecI16x8MaxU; OpcodeVecI16x8AvgrU;
  OpcodeVecI32x4MinS; OpcodeVecI32x4MinU; OpcodeVecI32x4MaxS; OpcodeVecI32x4MaxU; OpcodeVecF32x4Min;
  OpcodeVecF32x4Max; OpcodeVecF64x2Min; OpcodeVecF64x2Max; OpcodeVecF32x4Pmin; OpcodeVecF32x4Pmax;
  OpcodeVecF64x2Pmin; OpcodeVecF64x2Pmax; OpcodeVecI16x8Q15mulrSatS; OpcodeVecI16x8ExtMulLowI8x16S;
  OpcodeVecI16x8ExtMulHighI8x16S; OpcodeVecI16x8ExtMulLowI8x16U; OpcodeVecI16x8ExtMulHighI8x16U;
  OpcodeVecI32x4ExtMulLowI16x8S; OpcodeVecI32x4ExtMulHighI16x8S; OpcodeVecI32x4ExtMulLowI16x8U;
  OpcodeVecI32x4ExtMulHighI16x8U; OpcodeVecI64x2ExtMulLowI32x4S; OpcodeVecI64x2ExtMulHighI32x4S;
  OpcodeVecI64x2ExtMulLowI32x4U; OpcodeVecI64x2ExtMulHighI32x4U].

Definition vecInstruction (vecOpcode : Z) : M unit :=
  invalidAs (VectorInstructionName vecOpcode) CoreFeatureSIMD;;
  if vecOpcode =? OpcodeVecV128Const then vecConst vecOpcode
  else if one_of vecOpcode vecTests then popVec vecOpcode ValueTypeV128;; push ValueTypeI32
  else if one_of vecOpcode vecLoads then vecLoad vecOpcode
  else if vecOpcode =? OpcodeVecV128Store then vecStore vecOpcode
  else if one_of vecOpcode [OpcodeVecV128Load8Lane; OpcodeVecV128Load16Lane; OpcodeVecV128Load32Lane; OpcodeVecV128Load64Lane]
       then vecLoadLane vecOpcode
  else if one_of vecOpcode [OpcodeVecV128Store8Lane; OpcodeVecV128Store16Lane; OpcodeVecV128Store32Lane; OpcodeVecV128Store64Lane]
       then vecStoreLane vecOpcode
  else if one_of vecOpcode [OpcodeVecI8x16ExtractLaneS; OpcodeVecI8x16ExtractLaneU; OpcodeVecI16x8ExtractLaneS;
                            OpcodeVecI16x8ExtractLaneU; OpcodeVecI32x4ExtractLane; OpcodeVecI64x2ExtractLane;
                            OpcodeVecF32x4ExtractLane; OpcodeVecF64x2ExtractLane] then vecExtractLane vecOpcode
  else if one_of vecOpcode [OpcodeVecI8x16ReplaceLane; OpcodeVecI16x8ReplaceLane; OpcodeVecI32x4ReplaceLane;
                            OpcodeVecI64x2ReplaceLane; OpcodeVecF32x4ReplaceLane; OpcodeVecF64x2ReplaceLane]
       then vecReplaceLane vecOpcode
  else if one_of vecOpcode [OpcodeVecI8x16Splat; OpcodeVecI16x8Splat; OpcodeVecI32x4Splat;
                            OpcodeVecI64x2Splat; OpcodeVecF32x4Splat; OpcodeVecF64x2Splat]
       then popVec vecOpcode (vecSplatValueTypes vecOpcode);; push ValueTypeV128
  else if one_of vecOpcode [OpcodeVecI8x16Swizzle; OpcodeVecV128And; OpcodeVecV128Or; OpcodeVecV128Xor; OpcodeVecV128AndNot]
       then vecOperands vecOpcode 2
  else if vecOpcode =? OpcodeVecV128Bitselect then vecOperands vecOpcode 3
  else if vecOpcode =? OpcodeVecV128Not then vecOperands vecOpcode 1
  else if vecOpcode =? OpcodeVecV128i8x16Shuffle then vecShuffle vecOpcode
  else if one_of vecOpcode vecShifts then popVec vecOpcode ValueTypeI32;; popVec vecOpcode ValueTypeV128;; push ValueTypeV128
  else if one_of vecOpcode vecCompares then vecOperands vecOpcode 2
  else if one_of vecOpcode vecUnary then vecOperands vecOpcode 1
  else if one_of vecOpcode vecBinary then vecOperands vecOpcode 2
  else fail ("unknown SIMD instruction " +:+ VectorInstructionName vecOpcode).

Definition validateVec : M unit :=
  advance 1;;
  vecOpcode ← bodyAt;
  vecInstruction vecOpcode.

(** ** Atomic instructions *)

(** Alignment check, operands popped from the last to the first, result. *)
Definition atomicOp (align max : Z) (pops pushes : list ValueType) : M unit :=
  checkAlign align max;; popAll m id pops;; pushAll pushes.

(** The rest of the same switch: compare and exchange. *)
Definition atomicCmpxchg (op align : Z) : M unit :=
  if op =? OpcodeAtomicI32RmwCmpxchg then atomicOp align (32 / 8) [ValueTypeI32; ValueTypeI32; ValueTypeI32] [ValueTypeI32]
  else if op =? OpcodeAtomicI32Rmw8CmpxchgU then atomicOp align 1 [ValueTypeI32; ValueTypeI32; ValueTypeI32] [ValueTypeI32]
  else if op =? OpcodeAtomicI32Rmw16CmpxchgU then atomicOp align (16 / 8) [ValueTypeI32; ValueTypeI32; ValueTypeI32] [ValueTypeI32]
  else if op =? OpcodeAtomicI64RmwCmpxchg then atomicOp align (64 / 8) [ValueTypeI64; ValueTypeI64; ValueTypeI32] [ValueTypeI64]
  else if op =? OpcodeAtomicI64Rmw8CmpxchgU then atomicOp align 1 [ValueTypeI64; ValueTypeI64; ValueTypeI32] [ValueTypeI64]
  else if op =? OpcodeAtomicI64Rmw16CmpxchgU then atomicOp align (16 / 8) [ValueTypeI64; ValueTypeI64; ValueTypeI32] [ValueTypeI64]
  else if op =? OpcodeAtomicI64Rmw32CmpxchgU then atomicOp align (32 / 8) [ValueTypeI64; ValueTypeI64; ValueTypeI32] [ValueTypeI64]
  else fail "invalid atomic opcode".

(** The rest of the same switch: read-modify-write. *)
Definition atomicRmw (op align : Z) : M unit :=
  if one_of op [OpcodeAtomicI32RmwAdd; OpcodeAtomicI32RmwSub; OpcodeAtomicI32RmwAnd; OpcodeAtomicI32RmwOr;
                     OpcodeAtomicI32RmwXor; OpcodeAtomicI32RmwXchg]
       then atomicOp align (32 / 8) [ValueTypeI32; ValueTypeI32] [ValueTypeI32]
  else if one_of op [OpcodeAtomicI32Rmw8AddU; OpcodeAtomicI32Rmw8SubU; OpcodeAtomicI32Rmw8AndU; OpcodeAtomicI32Rmw8OrU;
                     OpcodeAtomicI32Rmw8XorU; OpcodeAtomicI32Rmw8XchgU]
       then atomicOp align 1 [ValueTypeI32; ValueTypeI32] [ValueTypeI32]
  else if one_of op [OpcodeAtomicI32Rmw16AddU; OpcodeAtomicI32Rmw16SubU; OpcodeAtomicI32Rmw16AndU; OpcodeAtomicI32Rmw16OrU;
                     OpcodeAtomicI32Rmw16XorU; OpcodeAtomicI32Rmw16XchgU]
       then atomicOp align (16 / 8) [ValueTypeI32; ValueTypeI32] [ValueTypeI32]
  else if one_of op [OpcodeAtomicI64RmwAdd; OpcodeAtomicI64RmwSub; OpcodeAtomicI64RmwAnd; OpcodeAtomicI64RmwOr;
                     OpcodeAtomicI64RmwXor; OpcodeAtomicI64RmwXchg]
       then atomicOp align (64 / 8) [ValueTypeI64; ValueTypeI32] [ValueTypeI64]
  else if one_of op [OpcodeAtomicI64Rmw8AddU; OpcodeAtomicI64Rmw8SubU; OpcodeAtomicI64Rmw8AndU; OpcodeAtomicI64Rmw8OrU;
                     OpcodeAtomicI64Rmw8XorU; OpcodeAtomicI64Rmw8XchgU]
       then atomicOp align 1 [ValueTypeI64; ValueTypeI32] [ValueTypeI64]
  else if one_of op [OpcodeAtomicI64Rmw16AddU; OpcodeAtomicI64Rmw16SubU; OpcodeAtomicI64Rmw16AndU; OpcodeAtomicI64Rmw16OrU;
                     OpcodeAtomicI64Rmw16XorU; OpcodeAtomicI64Rmw16XchgU]
       then atomicOp align (16 / 8) [ValueTypeI64; ValueTypeI32] [ValueTypeI64]
  else if one_of op [OpcodeAtomicI64Rmw32AddU; OpcodeAtomicI64Rmw32SubU; OpcodeAtomicI64Rmw32AndU; OpcodeAtomicI64Rmw32OrU;
                     OpcodeAtomicI64Rmw32XorU; OpcodeAtomicI64Rmw32XchgU]
       then atomicOp align (32 / 8) [ValueTypeI64; ValueTypeI32] [ValueTypeI64]
  else atomicCmpxchg op align.

Definition atomicAccess (op align : Z) : M unit :=
  if op =? OpcodeAtomicMemoryNotify then atomicOp align (32 / 8) [ValueTypeI32; ValueTypeI32] [ValueTypeI32]
  else if op =? OpcodeAtomicMemoryWait32 then atomicOp align (32 / 8) [ValueTypeI64; ValueTypeI32; ValueTypeI32] [ValueTypeI32]
  else if op =? OpcodeAtomicMemoryWait64 then atomicOp align (64 / 8) [ValueTypeI64; ValueTypeI64; ValueTypeI32] [ValueTypeI32]
  else if op =? OpcodeAtomicI32Load then atomicOp align (32 / 8) [ValueTypeI32] [ValueTypeI32]
  else if op =? OpcodeAtomicI64Load then atomicOp align (64 / 8) [ValueTypeI32] [ValueTypeI64]
  else if op =? OpcodeAtomicI32Load8U then atomicOp align 1 [ValueTypeI32] [ValueTypeI32]
  else if op =? OpcodeAtomicI32Load16U then atomicOp align (16 / 8) [ValueTypeI32] [ValueTypeI32]
  else if op =? OpcodeAtomicI64Load8U then atomicOp align 1 [ValueTypeI32] [ValueTypeI64]
  else if op =? OpcodeAtomicI64Load16U then atomicOp align (16 / 8) [ValueTypeI32] [ValueTypeI64]
  else if op =? OpcodeAtomicI64Load32U then atomicOp align (32 / 8) [ValueTypeI32] [ValueTypeI64]
  else if op =? OpcodeAtomicI32Store then atomicOp align (32 / 8) [ValueTypeI32; ValueTypeI32] []
  else if op =? OpcodeAtomicI64Store then atomicOp align (64 / 8) [ValueTypeI64; ValueTypeI32] []
  else if op =? OpcodeAtomicI32Store8 then atomicOp align 1 [ValueTypeI32; ValueTypeI32] []
  else if op =? OpcodeAtomicI32Store16 then atomicOp align (16 / 8) [ValueTypeI32; ValueTypeI32] []
  else if op =? OpcodeAtomicI64Store8 then atomicOp align 1 [ValueTypeI64; ValueTypeI32] []
  else if op =? OpcodeAtomicI64Store16 then atomicOp align (16 / 8) [ValueTypeI64; ValueTypeI32] []
  else if op =? OpcodeAtomicI64Store32 then atomicOp align (32 / 8) [ValueTypeI64; ValueTypeI32] []
  else atomicRmw op align.

Definition atomicInstruction (atomicOpcode : Z) : M unit :=
  invalidAs (AtomicInstructionName atomicOpcode) CoreFeaturesThreads;;
  advance 1;;
  if atomicOpcode =? OpcodeAtomicFence then
    imm ← bodyAt;
    guard_ (imm =? 0) ("invalid immediate value for " +:+ AtomicInstructionName atomicOpcode)
  else
    memoryMustExist (AtomicInstructionName atomicOpcode);;
    '(align, read) ← memArg;
    advance (read - 1);;
    atomicAccess atomicOpcode align.

Definition validateAtomic : M unit :=
  advance 1;;
  atomicOpcode ← bodyAt;
  atomicInstruction atomicOpcode.

(** ** Structured control *)

Definition validateBlock : M unit :=
  '(bt, num) ← readBlockType;
  p ← gets pc; il ← gets initLocals;
  csPush p 0 0 bt num 0 il;;
  enterBlock OpcodeBlock bt;;
  advance num.

Definition validateLoop : M unit :=
  '(bt, num) ← readBlockType;
  p ← gets pc; il ← gets initLocals;
  csPush p 0 0 bt num OpcodeLoop il;;
  enterBlock OpcodeLoop bt;;
  advance num.

Definition validateIf : M unit :=
  '(bt, num) ← readBlockType;
  p ← gets pc; il ← gets initLocals;
  csPush p 0 0 bt num OpcodeIf il;;
  wrap "cannot pop the operand for 'if': " (popT ValueTypeI32);;
  enterBlock OpcodeIf bt;;
  advance num.

(** The block on top of the control stack becomes the else block in place. *)
Definition validateElse : M unit :=
  bl ← csPop;
  guard_ (cbOp bl =? OpcodeIf) "else instruction must be used in if block";;
  p ← gets pc;
  csPush (startAt bl) p (endAt bl) (blockType bl) (blockTypeBytes bl) OpcodeElse (savedInitLocals bl);;
  popResults m OpcodeIf (Results (blockType bl)) true;;
  modify (set_initLocals (savedInitLocals bl));;
  resetAtStackLimit;;
  pushAll (Params (blockType bl)).

Definition validateEnd : M unit :=
  bl ← csPop;
  endAt ← gets pc;
  c ← gets cs;
  (if zlen c >? 0 then modify (set_initLocals (savedInitLocals bl)) else mret tt);;
  let ifMissingElse := (cbOp bl =? OpcodeIf) && (elseAt bl <=? startAt bl) in
  (if ifMissingElse && negb (bool_decide (Results (blockType bl) = Params (blockType bl)))
   then fail (typeCountError false "else" (Params (blockType bl)) (Results (blockType bl)))
   else mret tt);;
  let elseAt := if ifMissingElse then endAt - 1 else elseAt bl in
  let ctx := if (cbOp bl =? OpcodeIf) && negb ifMissingElse && (elseAt >? 0) then "else"
             else if negb (cbOp bl =? 0) then InstructionName (cbOp bl)
             else "" in
  requireStackValues m false ctx (Results (blockType bl)) true;;
  resetAtStackLimit;;
  pushAll (Results (blockType bl));;
  popStackLimit.

Definition validateReturn : M unit :=
  requireStackValues m false "" (Results functionType) false;;
  unreachable.

(** ** Parametric instructions *)

Definition validateDrop : M unit := wrap "invalid drop: " pop;; mret tt.

(** The type immediate of a typed select is read and checked for being a type. *)
Definition selectType : M unit :=
  wrap (InstructionName OpcodeTypedSelect +:+ " is invalid as ") (requireEnabled enabledFeatures CoreFeatureReferenceTypes);;
  advance 1;;
  n ← bodyAt;
  guard_ (n =? 1) ("too many type immediates for " +:+ InstructionName OpcodeTypedSelect);;
  advance 1;;
  b ← bodyAt;
  if one_of b [RefPrefixNullable; RefPrefixNonNullable] then
    br ← bodyFrom 1;
    '(ht, num, _) ← wrap "read heap type for select: " (lift (DecodeInt33AsInt64 br));
    advance num;;
    if one_of ht [HeapTypeFunc; HeapTypeExtern; HeapTypeExn] then mret tt
    else if ht <? 0 then fail "invalid heap type for select"
    else if ht >=? zlen (TypeSection m) then fail "unknown type for select: type index out of range"
    else mret tt
  else
    guard_ (one_of b [ValueTypeI32; ValueTypeI64; ValueTypeF32; ValueTypeF64; ValueTypeExternref; ValueTypeFuncref; ValueTypeV128])
      "invalid type for select".

Definition validateSelect (op : Z) : M unit :=
  wrap "type mismatch on 3rd select operand: " (popT ValueTypeI32);;
  v1 ← wrap "invalid select: " pop;
  v2 ← wrap "invalid select: " pop;
  (if op =? OpcodeTypedSelect then selectType
   else if isReferenceValueType v1 || isReferenceValueType v2
        then fail "reference types cannot be used for non typed select instruction" else mret tt);;
  (if negb (v1 =? valueTypeUnknown) && negb (v2 =? valueTypeUnknown) then
     b ← lift (areRefTypesCompatible m v1 v2);
     guard_ b "type mismatch on 1st and 2nd select operands"
   else mret tt);;
  if v1 =? valueTypeUnknown then push v2
  else if v2 =? valueTypeUnknown then push v1
  else
    b ← lift (isRefSubtypeOf m v1 v2);
    if b : bool then push v2 else push v1.

(** ** One instruction, the loop, the function *)

Definition validateInstruction (op : Z) : M unit :=
  if between OpcodeI32Load op OpcodeI64Store32 then validateMemoryInstr op
  else if between OpcodeMemorySize op OpcodeMemoryGrow then validateMemorySizeGrow op
  else if between OpcodeI32Const op OpcodeF64Const then validateConst op
  else if between OpcodeLocalGet op OpcodeGlobalSet then validateLocalGlobal op
  else if op =? OpcodeBr then validateBr
  else if op =? OpcodeBrIf then validateBrIf
  else if op =? OpcodeBrTable then validateBrTable
  else if op =? OpcodeThrow then validateThrow
  else if op =? OpcodeThrowRef then validateThrowRef
  else if op =? OpcodeTryTable then validateTryTable
  else if one_of op [OpcodeCall; OpcodeTailCallReturnCall] then validateCall op
  else if one_of op [OpcodeCallIndirect; OpcodeTailCallReturnCallIndirect] then validateCallIndirect op
  else if one_of op [OpcodeCallRef; OpcodeReturnCallRef] then validateCallRef op
  else if between OpcodeI32Eqz op OpcodeI64Extend32S then validateNumeric op
  else if between OpcodeRefNull op OpcodeRefFunc then validateRef op
  else if op =? OpcodeRefAsNonNull then validateRefAsNonNull
  else if op =? OpcodeBrOnNull then validateBrOnNull
  else if op =? OpcodeBrOnNonNull then validateBrOnNonNull
  else if one_of op [OpcodeTableGet; OpcodeTableSet] then validateTableGetSet op
  else if op =? OpcodeMiscPrefix then validateMisc
  else if op =? OpcodeVecPrefix then validateVec
  else if op =? OpcodeBlock then validateBlock
  else if op =? OpcodeAtomicPrefix then validateAtomic
  else if op =? OpcodeLoop then validateLoop
  else if op =? OpcodeIf then validateIf
  else if op =? OpcodeElse then validateElse
  else if op =? OpcodeEnd then validateEnd
  else if op =? OpcodeReturn then validateReturn
  else if op =? OpcodeDrop then validateDrop
  else if one_of op [OpcodeSelect; OpcodeTypedSelect] then validateSelect op
  else if op =? OpcodeUnreachable then unreachable
  else if op =? OpcodeNop then mret tt
  else if IsEnabled enabledFeatures CoreFeaturesExceptionHandling
          && one_of op [OpcodeLegacyTry; OpcodeLegacyCatch; OpcodeLegacyRethrow; OpcodeLegacyDelegate; OpcodeLegacyCatchAll]
       then fail "legacy exception handling instruction not supported; recompile with wasm-opt --translate-to-exnref"
  else fail "invalid instruction".

(** One iteration of the loop at [pc < len(body)]. *)
Definition validateStep : M unit :=
  op ← bodyAt;
  c ← gets cs;
  if zlen c =? 0 then fail "unexpected end of function"
  else validateInstruction op;; advance 1.

Fixpoint validateBody (fuel : nat) : M unit :=
  p ← gets pc;
  if p <? zlen body then
    match fuel with
    | O => lift (Panic "validateBody: loop bound")
    | S fuel' => validateStep;; validateBody fuel'
    end
  else mret tt.

End Validate.

(** [sts] only carries buffers over from the previous function: [reset]
    overwrites every field. *)
Definition validateFunctionWithMaxStackValues (m : Module) (enabledFeatures : CoreFeatures) (idx : Index)
    (functions : list Index) (globals : list GlobalType) (memory : option Memory) (tables : list Table)
    (tags : list Index) (maxStackValues : Z) (declaredFunctionIndexes : gset Z) : res unit :=
  let! t := zindex (FunctionSection m) idx in
  let! functionType := zindex (TypeSection m) t in
  let! code := zindex (CodeSection m) idx in
  let! (_, s) := validateBody m enabledFeatures functions globals memory tables tags declaredFunctionIndexes
                   functionType (LocalTypes code) (Body code) (length (Body code)) (reset functionType) in
  if zlen (cs s) >? 0 then Err "ill-nested block exists"
  else if maximumStackPointer s >? maxStackValues then Err "function may have stack values, which exceeds limit"
  else Ok tt.

Definition validateFunction (m : Module) (enabledFeatures : CoreFeatures) (idx : Index)
    (functions : list Index) (globals : list GlobalType) (memory : option Memory) (tables : list Table)
    (tags : list Index) (declaredFunctionIndexes : gset Z) : res unit :=
  validateFunctionWithMaxStackValues m enabledFeatures idx functions globals memory tables tags
    maximumValuesOnStack declaredFunctionIndexes.
