(* ===== verification/ValidateSafe.v ===== *)
(** * Safety of validation

    Validation of a function body terminates without panicking, whatever the
    bytes of the body, and a control stack invariant holds throughout.  The body
    is only known to end in the end opcode, which the decoder of the code section
    checks; the context is a module whose index spaces are in range.

    The proof is a symbolic execution of each handler in the logic of
    ValStack.v: [inv p c l il] describes the state between two monadic steps,
    one lemma per primitive moves it, and the tactic [vc] applies them. *)

From S2P Require Import Prelude Leb128 Features Opcodes Types ValStack Validate.

(** ** More rules *)

Lemma triple_exists {A X} (P : X -> stacks -> Prop) (m : M A) Q :
  (forall x, triple (P x) m Q) -> triple (fun s => exists x, P x s) m Q.
Proof. intros H s [x Hx]. by apply (H x). Qed.

Lemma bind_stack_op {A B} (m : M A) (k : A -> M B) p c l il R :
  stack_op m -> (forall a, triple (inv p c l il) (k a) R) -> triple (inv p c l il) (m ≫= k) R.
Proof. intros Hm Hk. eapply triple_bind; [apply Hm|exact Hk]. Qed.

Lemma bind_advance {B} n (k : unit -> M B) p c l il R :
  triple (inv (p + n) c l il) (k tt) R -> triple (inv p c l il) (advance n ≫= k) R.
Proof.
  intros Hk. apply (triple_bind _ _ _ (fun _ => inv (p + n) c l il)); [|by intros []]. apply triple_modify.
  intros s (<- & <- & <- & <- & Hw). repeat (split; [done|]). exact Hw.
Qed.

Lemma bind_guard {B} b msg (k : unit -> M B) P R :
  (b = true -> triple P (k tt) R) -> triple P (guard_ b msg ≫= k) R.
Proof.
  intros Hk. destruct b; unfold guard_.
  - intros s Hs. by apply (Hk eq_refl).
  - by intros s _.
Qed.

Lemma bind_gets {A B} (f : stacks -> A) (k : A -> M B) p c l il R :
  (forall s, inv p c l il s -> triple (inv p c l il) (k (f s)) R) -> triple (inv p c l il) (gets f ≫= k) R.
Proof. intros Hk s Hs. unfold mbind, M_bind, gets. simpl. by apply (Hk s Hs). Qed.

Lemma bind_gets_pc {B} (k : Z -> M B) p c l il R :
  triple (inv p c l il) (k p) R -> triple (inv p c l il) (gets pc ≫= k) R.
Proof. intros Hk. apply bind_gets. intros s (-> & _). done. Qed.

Lemma bind_gets_cs {B} (k : list controlBlock -> M B) p c l il R :
  triple (inv p c l il) (k c) R -> triple (inv p c l il) (gets cs ≫= k) R.
Proof. intros Hk. apply bind_gets. intros s (_ & -> & _). done. Qed.

Lemma bind_gets_il {B} (k : option (gset Z) -> M B) p c l il R :
  triple (inv p c l il) (k il) R -> triple (inv p c l il) (gets initLocals ≫= k) R.
Proof. intros Hk. apply bind_gets. intros s (_ & _ & _ & -> & _). done. Qed.

Lemma bind_lift {A B} (r : res A) (k : A -> M B) P R :
  no_panic r -> (forall a, r = Ok a -> triple P (k a) R) -> triple P (lift r ≫= k) R.
Proof.
  intros Hr Hk. eapply triple_bind; [apply (triple_lift r P (fun a s => r = Ok a /\ P s))|].
  - done.
  - done.
  - intros a. apply triple_pure. auto.
Qed.

Lemma wrap_lift_no_panic {A} p (r : res A) s :
  wrap p (lift r) s = match r with Ok a => Ok (a, s) | Err e => Err (p +:+ e) | Panic e => Panic e end.
Proof. unfold wrap, lift. by destruct r. Qed.

Lemma bind_wrap_lift {A B} w (r : res A) (k : A -> M B) P R :
  no_panic r -> (forall a, r = Ok a -> triple P (k a) R) -> triple P (wrap w (lift r) ≫= k) R.
Proof.
  intros Hr Hk s Hs. unfold mbind, M_bind. rewrite wrap_lift_no_panic.
  destruct r as [a|e|e]; simpl; [by apply Hk|done|by apply (Hr e)].
Qed.

Lemma bind_failAs_lift {A B} w (r : res A) (k : A -> M B) P R :
  no_panic r -> (forall a, r = Ok a -> triple P (k a) R) -> triple P (failAs w (lift r) ≫= k) R.
Proof.
  intros Hr Hk s Hs. unfold mbind, M_bind, failAs, lift.
  destruct r as [a|e|e]; simpl; [by apply Hk|done|by apply (Hr e)].
Qed.

Lemma bind_zindex {A B} (xs : list A) i (k : A -> M B) P R :
  0 <= i < zlen xs -> (forall a, zlookup xs i = Some a -> triple P (k a) R) ->
  triple P (lift (zindex xs i) ≫= k) R.
Proof. intros Hi Hk. destruct (zindex_in xs i Hi) as (a & -> & Ha). apply bind_lift; [done|]. intros a' [= <-]. auto. Qed.

(** Reassociation, to run a definition inside a bind. *)
Lemma bind_assoc {A B C} (m : M A) (f : A -> M B) (g : B -> M C) P R :
  triple P (m ≫= fun a => f a ≫= g) R -> triple P ((m ≫= f) ≫= g) R.
Proof.
  intros H s Hs. specialize (H s Hs). unfold mbind, M_bind in *.
  destruct (m s) as [[a s']|e|e]; simpl in *; auto.
Qed.

Lemma bind_ret {A B} (a : A) (k : A -> M B) P R : triple P (k a) R -> triple P (mret a ≫= k) R.
Proof. intros H s Hs. apply (H s Hs). Qed.

Lemma bind_if {A B} (b : bool) (m1 m2 : M A) (k : A -> M B) P R :
  (b = true -> triple P (m1 ≫= k) R) -> (b = false -> triple P (m2 ≫= k) R) ->
  triple P ((if b then m1 else m2) ≫= k) R.
Proof. destruct b; auto. Qed.

Lemma bind_fail {A B} msg (k : A -> M B) P R : triple P (fail msg ≫= k) R.
Proof. by intros s _. Qed.

(** ** Handlers *)

(** The state after a handler that only moves [pc] and the operand stack. *)
Definition moved (p : Z) (c : list controlBlock) (l : list Z) (il : option (gset Z)) (s : stacks) : Prop :=
  exists p', p <= p' /\ inv p' c l il s.

Lemma tail_stack_op {A} (m : M A) p p0 c l il :
  stack_op m -> p0 <= p -> triple (inv p c l il) m (fun _ => moved p0 c l il).
Proof. intros Hm Hp s Hs. specialize (Hm p c l il s Hs). destruct (m s) as [[a s']|e|e]; [by exists p|done|done]. Qed.

Lemma tail_advance n p p0 c l il :
  p0 <= p + n -> triple (inv p c l il) (advance n) (fun _ => moved p0 c l il).
Proof.
  intros Hp. apply triple_modify. intros s (<- & <- & <- & <- & Hw). exists (pc s + n). repeat (split; [done|]). exact Hw.
Qed.

Lemma moved_from {A} (m : M A) P p0 p1 c l il :
  p0 <= p1 -> triple P m (fun _ => moved p1 c l il) -> triple P m (fun _ => moved p0 c l il).
Proof.
  intros Hp Hm s Hs. specialize (Hm s Hs). destruct (m s) as [[a s']|e|e]; [|done|done].
  destruct Hm as (p' & ? & ?). exists p'. split; [lia|done].
Qed.

(** [moved] composes. *)
Lemma bind_moved {A B} (m : M A) (k : A -> M B) p c l il R :
  triple (inv p c l il) m (fun _ => moved p c l il) ->
  (forall a p', p <= p' -> triple (inv p' c l il) (k a) R) -> triple (inv p c l il) (m ≫= k) R.
Proof.
  intros Hm Hk. eapply triple_bind; [exact Hm|]. intros a s (p' & Hp & Hs). by apply (Hk a p' Hp).
Qed.

Section Safe.
Context (m : Module) (enabledFeatures : CoreFeatures) (functions : list Index) (globals : list GlobalType)
  (memory : option Memory) (tables : list Table) (tags : list Index) (declaredFunctionIndexes : gset Z)
  (functionType : FunctionType) (localTypes : list ValueType) (body : list Z).

(** What the module's index spaces and the code section guarantee. *)
Record context_ok : Prop := {
  ctx_types : wf_types (TypeSection m);
  ctx_functions : Forall (fun t => 0 <= t < zlen (TypeSection m)) functions;
  ctx_tags : Forall (fun t => 0 <= t < zlen (TypeSection m)) tags;
  ctx_bytes : bytes_ok body;
  ctx_end : last body = Some OpcodeEnd;
}.

Context (Hctx : context_ok).

Abbreviation len := (zlen body).

Lemma bodyFrom_eq d p c l il s :
  inv p c l il s -> 0 <= p + d <= len -> bodyFrom body d s = Ok (drop (Z.to_nat (p + d)) body, s).
Proof.
  intros (<- & _) Hd. unfold bodyFrom, mbind, M_bind, gets, lift. simpl. by rewrite zslice_in.
Qed.

Lemma bind_bodyFrom {B} d (k : list Z -> M B) p c l il R :
  0 <= p + d <= len ->
  triple (inv p c l il) (k (drop (Z.to_nat (p + d)) body)) R -> triple (inv p c l il) (bodyFrom body d ≫= k) R.
Proof.
  intros Hd Hk s Hs. unfold mbind at 1, M_bind at 1. rewrite (bodyFrom_eq d p c l il s) by done.
  simpl. by apply Hk.
Qed.

Lemma bind_bodyAt {B} (k : Z -> M B) p c l il R :
  0 <= p < len -> (forall b, zlookup body p = Some b -> is_u8 b -> triple (inv p c l il) (k b) R) ->
  triple (inv p c l il) (bodyAt body ≫= k) R.
Proof.
  intros Hp Hk. unfold bodyAt. apply bind_assoc, bind_gets_pc, bind_zindex; [done|].
  intros b Hb. apply Hk; [done|]. by eapply zlookup_ok; [apply (ctx_bytes Hctx)|].
Qed.

Lemma drop_ok n : bytes_ok (drop n body).
Proof. apply Forall_drop, (ctx_bytes Hctx). Qed.

Lemma drop_len p : 0 <= p <= len -> zlen (drop (Z.to_nat p) body) = len - p.
Proof. intros Hp. rewrite zlen_drop. lia. Qed.

Lemma bind_loadU32 {B} msg (k : Z * Z -> M B) p c l il R :
  0 <= p <= len ->
  (forall v n, is_u32 v -> 1 <= n -> p + n <= len -> triple (inv p c l il) (k (v, n)) R) ->
  triple (inv p c l il) (loadU32 body msg ≫= k) R.
Proof.
  intros Hp Hk. unfold loadU32. apply bind_assoc, bind_bodyFrom; [lia|]. rewrite Z.add_0_r.
  destruct (LoadUint32_within (drop (Z.to_nat p) body) (drop_ok _)) as [Hn Hr].
  apply bind_wrap_lift; [done|]. intros [v n] E. apply Hk.
  - by eapply LoadUint32_u32; [apply drop_ok|].
  - apply Hr in E. lia.
  - apply Hr in E. rewrite drop_len in E by lia. lia.
Qed.

Lemma bind_readU32 {B} msg (k : Z -> M B) p c l il R :
  0 <= p <= len ->
  (forall v n, is_u32 v -> 0 <= n -> p + n < len -> triple (inv (p + n) c l il) (k v) R) ->
  triple (inv p c l il) (readU32 body msg ≫= k) R.
Proof.
  intros Hp Hk. unfold readU32. apply bind_assoc, bind_loadU32; [done|]. intros v n Hv Hn1 Hn2.
  cbv beta iota. apply bind_assoc, bind_advance, bind_ret, Hk; (done || lia).
Qed.

Lemma readMemArg_within p :
  0 <= p <= len ->
  no_panic (readMemArg p body) /\
  forall a o r, readMemArg p body = Ok (a, o, r) -> 1 <= r /\ p + r <= len /\ 0 <= a < 32.
Proof.
  intros Hp. unfold readMemArg. rewrite zslice_in by done. cbn [res_bind].
  destruct (LoadUint32_within (drop (Z.to_nat p) body) (drop_ok _)) as [Hn Hr].
  destruct (LoadUint32 (drop (Z.to_nat p) body)) as [[a n]|e|e] eqn:E; cbn [errorf res_bind]; [|done|by destruct (Hn e)].
  specialize (Hr a n eq_refl). rewrite drop_len in Hr by lia.
  pose proof (LoadUint32_u32 _ _ _ (drop_ok (Z.to_nat p)) E) as Ha. unfold is_u32 in Ha.
  destruct (Z.geb_spec a 32); [done|]. rewrite zslice_in by lia. cbn [res_bind].
  destruct (LoadUint32_within (drop (Z.to_nat (p + n)) body) (drop_ok _)) as [Hn' Hr'].
  destruct (LoadUint32 (drop (Z.to_nat (p + n)) body)) as [[o n']|e|e]; cbn [errorf res_bind]; [|done|by destruct (Hn' e)].
  split; [done|]. intros a' o' r [= <- <- <-]. specialize (Hr' o n' eq_refl). rewrite drop_len in Hr' by lia. lia.
Qed.

Lemma bind_memArg {B} (k : Z * Z -> M B) p c l il R :
  0 <= p <= len ->
  (forall a r, 1 <= r -> p + r <= len -> triple (inv p c l il) (k (a, r)) R) ->
  triple (inv p c l il) (memArg body ≫= k) R.
Proof.
  intros Hp Hk. unfold memArg. apply bind_assoc, bind_gets_pc, bind_assoc.
  destruct (readMemArg_within p Hp) as [Hn Hr]. apply bind_lift; [done|]. intros [[a o] r] E.
  cbv beta iota. apply bind_ret. destruct (Hr a o r E) as (? & ? & _). by apply Hk.
Qed.

Lemma bind_labelInRange {B} index msg (k : unit -> M B) p c l il R :
  (index < zlen c -> triple (inv p c l il) (k tt) R) ->
  triple (inv p c l il) (labelInRange index msg ≫= k) R.
Proof.
  intros Hk. unfold labelInRange. apply bind_assoc, bind_gets_cs, bind_guard. intros H. apply Hk. bools. lia.
Qed.

Lemma bind_csTarget {B} index (k : controlBlock -> M B) p c l il R :
  0 <= index < zlen c -> (forall b, triple (inv p c l il) (k b) R) ->
  triple (inv p c l il) (csTarget index ≫= k) R.
Proof. intros Hi Hk. unfold csTarget. apply bind_assoc, bind_gets_cs, bind_zindex; auto. Qed.

(** Anything but the end opcode is followed by another byte. *)
Lemma not_last p b : zlookup body p = Some b -> b <> OpcodeEnd -> 0 <= p /\ p + 1 < len.
Proof.
  intros Hb Hne. pose proof (zlookup_Some_lt _ _ _ Hb). split; [lia|].
  destruct (Z.eq_dec (p + 1) len) as [E|]; [|lia]. destruct Hne.
  pose proof (ctx_end Hctx) as Hl. rewrite last_lookup in Hl. unfold zlookup, zlen in *.
  rewrite (proj2 (Z.leb_le 0 p)) in Hb by lia.
  replace (Z.to_nat p) with (pred (length body)) in Hb by lia. rewrite Hb in Hl. by injection Hl.
Qed.
(** *** Handlers that only use the operand stack *)

Lemma Hwf : wf_types (TypeSection m).
Proof. apply (ctx_types Hctx). Qed.
#[local] Hint Resolve Hwf : vstack.

Lemma guard_stack_op b msg : stack_op (guard_ b msg).
Proof. unfold guard_. stack_ops. Qed.
#[local] Hint Resolve guard_stack_op : vstack.

Lemma invalidAs_stack_op name f : stack_op (invalidAs enabledFeatures name f).
Proof. unfold invalidAs. stack_ops. Qed.

Lemma memoryMustExist_stack_op name : stack_op (memoryMustExist memory name).
Proof. unfold memoryMustExist. stack_ops. Qed.

Lemma popFor_stack_op msg op t : stack_op (popFor m msg op t).
Proof. unfold popFor. stack_ops. Qed.

Lemma popVec_stack_op op t : stack_op (popVec m op t).
Proof. unfold popVec. stack_ops. Qed.

Lemma popRef_stack_op name : stack_op (popRef name).
Proof. unfold popRef. stack_ops. Qed.
#[local] Hint Resolve invalidAs_stack_op memoryMustExist_stack_op popFor_stack_op popVec_stack_op popRef_stack_op : vstack.

Lemma checkAlign_stack_op a b : stack_op (checkAlign a b).
Proof. unfold checkAlign. stack_ops. Qed.

Lemma vecCheckAlign_stack_op o a b : stack_op (vecCheckAlign o a b).
Proof. unfold vecCheckAlign. stack_ops. Qed.
#[local] Hint Resolve checkAlign_stack_op vecCheckAlign_stack_op : vstack.

Lemma memLoad_stack_op a b t : stack_op (memLoad m a b t).
Proof. unfold memLoad. stack_ops. Qed.

Lemma memStore_stack_op a b t : stack_op (memStore m a b t).
Proof. unfold memStore. stack_ops. Qed.

Lemma unop_stack_op msg op t r : stack_op (unop m msg op t r).
Proof. unfold unop. stack_ops. Qed.

Lemma binop_stack_op k op t r : stack_op (binop m k op t r).
Proof. unfold binop. stack_ops. Qed.

Lemma atomicOp_stack_op a b xs ys : stack_op (atomicOp m a b xs ys).
Proof. unfold atomicOp. stack_ops. Qed.

Lemma miscPops_stack_op op l : stack_op (miscPops m op l).
Proof. unfold miscPops. stack_ops. Qed.

Lemma vecOperands_stack_op op n : stack_op (vecOperands m op n).
Proof. unfold vecOperands. stack_ops. Qed.
#[local] Hint Resolve memLoad_stack_op memStore_stack_op unop_stack_op binop_stack_op atomicOp_stack_op
  miscPops_stack_op vecOperands_stack_op : vstack.

Lemma memoryAccess_stack_op op a : stack_op (memoryAccess m op a).
Proof. unfold memoryAccess. stack_ops. Qed.

Lemma validateConversion_stack_op op : stack_op (validateConversion m enabledFeatures op).
Proof. unfold validateConversion. stack_ops. Qed.
#[local] Hint Resolve validateConversion_stack_op : vstack.

Lemma validateNumeric_stack_op op : stack_op (validateNumeric m enabledFeatures op).
Proof. unfold validateNumeric. stack_ops. Qed.

Lemma atomicCmpxchg_stack_op op a : stack_op (atomicCmpxchg m op a).
Proof. unfold atomicCmpxchg. stack_ops. Qed.
#[local] Hint Resolve atomicCmpxchg_stack_op : vstack.

Lemma atomicRmw_stack_op op a : stack_op (atomicRmw m op a).
Proof. unfold atomicRmw. stack_ops. Qed.
#[local] Hint Resolve atomicRmw_stack_op : vstack.

Lemma atomicAccess_stack_op op a : stack_op (atomicAccess m op a).
Proof. unfold atomicAccess. stack_ops. Qed.

Lemma validateTruncSat_stack_op op : stack_op (validateTruncSat m enabledFeatures op).
Proof. unfold validateTruncSat. stack_ops. Qed.

Lemma validateThrowRef_stack_op : stack_op (validateThrowRef m enabledFeatures).
Proof. unfold validateThrowRef. stack_ops. Qed.

Lemma validateRefAsNonNull_stack_op : stack_op (validateRefAsNonNull enabledFeatures).
Proof. unfold validateRefAsNonNull. stack_ops. Qed.

Lemma validateReturn_stack_op : stack_op (validateReturn m functionType).
Proof. unfold validateReturn. stack_ops. Qed.

Lemma validateDrop_stack_op : stack_op validateDrop.
Proof. unfold validateDrop. stack_ops. Qed.

Lemma requiresDataCount_stack_op op : stack_op (requiresDataCount m op).
Proof. unfold requiresDataCount. stack_ops. Qed.

Lemma popDefaultLabel_stack_op i ts : stack_op (popDefaultLabel m i ts).
Proof. revert i; induction ts as [|t ts IH]; intros i; simpl; stack_ops. Qed.

Lemma sameLabelTypes_stack_op ds ts : length ds = length ts -> stack_op (sameLabelTypes m ds ts).
Proof.
  revert ts; induction ds as [|d ds IH]; intros [|t ts] Hl; try done; simpl in *; stack_ops; apply IH; lia.
Qed.

Lemma catchTypesMatch_stack_op msg ds ts : length ds = length ts -> stack_op (catchTypesMatch m msg ds ts).
Proof.
  revert ts; induction ds as [|d ds IH]; intros [|t ts] Hl; try done; simpl in *; stack_ops; apply IH; lia.
Qed.
#[local] Hint Resolve memoryAccess_stack_op validateNumeric_stack_op atomicAccess_stack_op validateTruncSat_stack_op
  validateThrowRef_stack_op validateRefAsNonNull_stack_op validateReturn_stack_op validateDrop_stack_op
  requiresDataCount_stack_op popDefaultLabel_stack_op : vstack.

(** *** Handlers that move [pc] *)

(** Arithmetic side conditions, from the tests of the handler. *)
Ltac bnd := unfold is_u32, is_u8, Index, ValueType in *; bools; lia.

Lemma bind_function {B} i (k : Z -> M B) P R :
  0 <= i < zlen functions -> (forall t, 0 <= t < zlen (TypeSection m) -> triple P (k t) R) ->
  triple P (lift (zindex functions i) ≫= k) R.
Proof.
  intros Hi Hk. apply bind_zindex; [done|]. intros t Ht. apply Hk.
  unfold zlookup in Ht. destruct (0 <=? i); [|done].
  by eapply (Forall_lookup_1 _ _ _ _ (ctx_functions Hctx)).
Qed.

Lemma bind_tag {B} i (k : Z -> M B) P R :
  0 <= i < zlen tags -> (forall t, 0 <= t < zlen (TypeSection m) -> triple P (k t) R) ->
  triple P (lift (zindex tags i) ≫= k) R.
Proof.
  intros Hi Hk. apply bind_zindex; [done|]. intros t Ht. apply Hk.
  unfold zlookup in Ht. destruct (0 <=? i); [|done].
  by eapply (Forall_lookup_1 _ _ _ _ (ctx_tags Hctx)).
Qed.

Abbreviation nlocals := (zlen (Params functionType) + zlen localTypes).

Lemma bind_localInRange {B} name i (k : unit -> M B) P R :
  (i < nlocals -> triple P (k tt) R) -> triple P (localInRange functionType localTypes name i ≫= k) R.
Proof.
  intros Hk. unfold localInRange. apply bind_guard. intros H. apply Hk. bools.
  unfold inputLen, wrap32 in H.
  pose proof (zlen_nonneg (Params functionType)). pose proof (zlen_nonneg localTypes).
  pose proof (Z.mod_le (zlen localTypes + zlen (Params functionType)) (2 ^ 32)). lia.
Qed.

Lemma bind_localType {B} i (k : Z -> M B) P R :
  0 <= i < nlocals -> (forall t, triple P (k t) R) -> triple P (localType functionType localTypes i ≫= k) R.
Proof.
  intros Hi Hk. unfold localType, inputLen. apply bind_if; intros H; (apply bind_zindex; [bnd|auto]).
Qed.

Lemma bind_requireLocalInit {B} i (k : unit -> M B) p c l il R :
  0 <= i < nlocals -> triple (inv p c l il) (k tt) R ->
  triple (inv p c l il) (requireLocalInit i (inputLen functionType) localTypes ≫= k) R.
Proof.
  intros Hi Hk. apply bind_stack_op; [|by intros []]. apply requireLocalInit_stack_op. unfold inputLen. lia.
Qed.

(** One step of symbolic execution. *)
Ltac vc_step :=
  cbv beta iota zeta;
  match goal with
  | |- triple _ (fail _) _ => apply triple_fail
  | |- triple _ (mbind _ (fail _)) _ => apply bind_fail
  | |- triple _ (mbind _ (mret _)) _ => apply bind_ret
  | |- triple _ (mbind _ (advance _)) _ => apply bind_advance
  | |- triple _ (mbind _ (guard_ _ _)) _ => apply bind_guard; intros ?
  | |- triple _ (mbind _ (gets pc)) _ => apply bind_gets_pc
  | |- triple _ (mbind _ (loadU32 _ _)) _ => apply bind_loadU32; [bnd|intros ? ? ? ? ?]
  | |- triple _ (mbind _ (readU32 _ _)) _ => apply bind_readU32; [bnd|intros ? ? ? ? ?]
  | |- triple _ (mbind _ (memArg _)) _ => apply bind_memArg; [bnd|intros ? ? ? ?]
  | |- triple _ (mbind _ (bodyFrom _ _)) _ => apply bind_bodyFrom; [bnd|]
  | |- triple _ (mbind _ (bodyAt _)) _ => apply bind_bodyAt; [bnd|intros ? ? ?]
  | |- triple _ (mbind _ (labelInRange _ _)) _ => apply bind_labelInRange; intros ?
  | |- triple _ (mbind _ (csTarget _)) _ => apply bind_csTarget; [bnd|intros ?]
  | |- triple _ (mbind _ (lift (zindex functions _))) _ => apply bind_function; [bnd|intros ? ?]
  | |- triple _ (mbind _ (lift (zindex tags _))) _ => apply bind_tag; [bnd|intros ? ?]
  | |- triple _ (mbind _ (localInRange _ _ _ _)) _ => apply bind_localInRange; intros ?
  | |- triple _ (mbind _ (localType _ _ _)) _ => apply bind_localType; [bnd|intros ?]
  | |- triple _ (mbind _ (requireLocalInit _ _ _)) _ => apply bind_requireLocalInit; [bnd|]
  | |- triple _ (mbind _ (lift (zindex _ _))) _ => apply bind_zindex; [bnd|intros ? ?]
  | |- triple _ (mbind _ (if _ then _ else _)) _ => apply bind_if; intros ?
  | |- triple _ (if _ then _ else _) _ => apply triple_if; intros ?
  | |- triple _ (advance _) _ => apply tail_advance; bnd
  | |- triple _ (match ?x with (_, _) => _ end) _ => destruct x
  | |- triple _ (mbind _ (mbind _ _)) _ => apply bind_assoc
  | |- triple _ (mbind _ _) _ => apply bind_stack_op; [solve [stack_ops]|intros ?]
  | |- triple _ _ (fun _ => moved _ _ _ _) => apply tail_stack_op; [solve [stack_ops]|bnd]
  end.
Ltac vc := repeat vc_step.

(** [handler h p]: started at [p], [h] does not panic and leaves the control
    stack, the limits and the initialized locals alone. *)
Definition handler (h : M unit) (p : Z) : Prop :=
  forall c l il, triple (inv p c l il) h (fun _ => moved p c l il).

Section Instruction.
Context (p : Z) (op : Z) (Hop : zlookup body p = Some op) (Hne : op <> OpcodeEnd).

Lemma op_room : 0 <= p /\ p + 1 < len.
Proof. by apply (not_last p op). Qed.

Lemma op_byte : is_u8 op.
Proof. by eapply zlookup_ok; [apply (ctx_bytes Hctx)|]. Qed.

Ltac start := intros c l il; destruct op_room as [Hp0 Hp1].

Lemma validateMemoryInstr_ok : handler (validateMemoryInstr m memory body op) p.
Proof. start. unfold validateMemoryInstr. vc. Qed.

Lemma validateMemorySizeGrow_ok : handler (validateMemorySizeGrow m memory body op) p.
Proof. start. unfold validateMemorySizeGrow. vc. Qed.

Lemma validateBr_ok : handler (validateBr m body) p.
Proof. start. unfold validateBr. vc. Qed.

Lemma validateBrIf_ok : handler (validateBrIf m body) p.
Proof. start. unfold validateBrIf. vc. Qed.

Lemma validateTableGetSet_ok : handler (validateTableGetSet m enabledFeatures tables body op) p.
Proof. start. unfold validateTableGetSet. vc. Qed.

Lemma validateBrOnNull_ok : handler (validateBrOnNull m enabledFeatures body) p.
Proof. start. unfold validateBrOnNull. vc. Qed.

Lemma validateRefFunc_ok : handler (validateRefFunc enabledFeatures functions declaredFunctionIndexes body) p.
Proof. start. unfold validateRefFunc. vc. Qed.

Lemma validateAtomic_ok : handler (validateAtomic m enabledFeatures memory body) p.
Proof.
  start. unfold validateAtomic, atomicInstruction. vc.
  match goal with H : zlookup body (p + 1) = Some _, F : (_ =? OpcodeAtomicFence) = true |- _ =>
    apply Z.eqb_eq in F; subst; destruct (not_last _ _ H) as [_ Hroom]; [done|] end.
  vc.
Qed.

Lemma selectType_ok p0 c l il : 0 <= p0 -> p0 + 1 < len ->
  triple (inv p0 c l il) (selectType m enabledFeatures body) (fun _ => moved p0 c l il).
Proof.
  intros Hp0 Hp1. unfold selectType. vc.
  match goal with H : zlookup body (p0 + 1) = Some _, F : (_ =? 1) = true |- _ =>
    apply Z.eqb_eq in F; subst; destruct (not_last _ _ H) as [_ Hroom]; [done|] end.
  vc.
  all: destruct (DecodeInt33_within (drop (Z.to_nat (p0 + 1 + 1 + 1)) body)) as [Hn Hr].
  apply bind_wrap_lift; [done|]. intros [[ht num] r] E. apply Hr in E as (? & _ & _ & ?). vc.
Qed.

Lemma validateSelect_ok : handler (validateSelect m enabledFeatures body op) p.
Proof.
  start. unfold validateSelect. do 3 (vc_step).
  apply bind_moved.
  { vc; [|apply tail_stack_op; [stack_ops|lia]..]. by apply selectType_ok. }
  intros _ p' Hp'. vc.
Qed.

Lemma validateConst_ok : handler (validateConst body op) p.
Proof.
  start. unfold validateConst. vc.
  - destruct (LoadInt32_within (drop (Z.to_nat (p + 1 + 0)) body) (drop_ok _)) as [Hn Hr].
    apply bind_wrap_lift; [done|]. intros [v n] E. apply Hr in E. vc.
  - destruct (LoadInt64_within (drop (Z.to_nat (p + 1 + 0)) body) (drop_ok _)) as [Hn Hr].
    apply bind_wrap_lift; [done|]. intros [v n] E. apply Hr in E. vc.
Qed.

Lemma validateThrow_ok : handler (validateThrow m enabledFeatures tags body) p.
Proof. start. unfold validateThrow. vc. Qed.

Lemma validateCall_ok : handler (validateCall m enabledFeatures functions functionType body op) p.
Proof. start. unfold validateCall. vc. Qed.

Lemma validateCallIndirect_ok : handler (validateCallIndirect m enabledFeatures tables functionType body op) p.
Proof. start. unfold validateCallIndirect. vc. Qed.

Lemma validateCallRef_ok : handler (validateCallRef m enabledFeatures functionType body op) p.
Proof. start. unfold validateCallRef. vc. Qed.

Lemma validateRefNull_ok : handler (validateRefNull m enabledFeatures body) p.
Proof.
  start. unfold validateRefNull. vc.
  destruct (DecodeUint32 (drop (Z.to_nat (p + 1 + 0)) body)) as [[[v n] r]|e|e] eqn:E.
  - apply bind_failAs_lift; [done|]. intros ? [= <-]. cbv beta iota.
    apply DecodeUint32_sound in E as (? & ? & ? & ? & ? & ? & ?); [|apply drop_ok]. vc.
  - by intros s _.
  - exfalso. by eapply decodeUint32_loop_no_panic.
Qed.

Lemma validateRef_ok :
  handler (validateRef m enabledFeatures functions declaredFunctionIndexes body op) p.
Proof.
  start. unfold validateRef. vc; [apply validateRefNull_ok|apply validateRefFunc_ok].
Qed.

Lemma validateBrOnNonNull_ok : handler (validateBrOnNonNull m enabledFeatures body) p.
Proof.
  start. unfold validateBrOnNonNull. vc.
Qed.

Lemma validateTableOp_ok p0 mop c l il : 0 <= p0 -> p0 + 1 <= len ->
  triple (inv p0 c l il) (validateTableOp m enabledFeatures tables body mop) (fun _ => moved p0 c l il).
Proof. intros Hp0 Hp1. unfold validateTableOp. vc. Qed.

Lemma validateBulk_ok p0 mop c l il : 0 <= p0 -> p0 + 1 <= len ->
  triple (inv p0 c l il) (validateBulk m enabledFeatures memory tables body mop) (fun _ => moved p0 c l il).
Proof.
  intros Hp0 Hp1. unfold validateBulk, bulkImmediates, readDataIndex, readZeroMemoryIndex, readElementIndex, readTableIndex.
  vc.
Qed.

Lemma validateMisc_ok : handler (validateMisc m enabledFeatures memory tables body) p.
Proof.
  start. unfold validateMisc, miscInstruction. vc;
    (eapply (moved_from _ _ p); [|apply validateBulk_ok || apply validateTableOp_ok]; bnd).
Qed.

Lemma vec_lane_ok name vop ceil p0 c l il : 0 <= p0 ->
  triple (inv p0 c l il) (readLane body name vop ceil) (fun _ => inv p0 c l il).
Proof.
  intros Hp0. unfold readLane. apply bind_gets_pc. vc_step. vc_step.
  intros. cbv beta. apply guard_stack_op.
Qed.

Lemma bind_readLane {B} name vop ceil (k : unit -> M B) p0 c l il R :
  0 <= p0 -> triple (inv p0 c l il) (k tt) R -> triple (inv p0 c l il) (readLane body name vop ceil ≫= k) R.
Proof. intros Hp0 Hk. eapply triple_bind; [by apply vec_lane_ok|by intros []]. Qed.

Ltac vcv := repeat (first [vc_step | apply bind_readLane; [bnd|]]).

Lemma validateVec_ok : handler (validateVec m enabledFeatures memory body) p.
Proof.
  start. unfold validateVec, vecInstruction. do 2 vc_step.
  unfold vecConst, vecLoad, vecStore, vecLoadLane, vecStoreLane, vecExtractLane, vecReplaceLane, vecShuffle, vecMemArg.
  vcv.
Qed.

(** *** br_table *)

Lemma DecodeUint32_no_panic r : no_panic (DecodeUint32 r).
Proof. apply decodeUint32_loop_no_panic. Qed.

Lemma readLabels_ok fuel : forall nl num ls br,
  bytes_ok br -> (length br < fuel)%nat -> Forall is_u32 ls ->
  no_panic (readLabels fuel nl num ls br) /\
  forall ls' num' br', readLabels fuel nl num ls br = Ok (ls', num', br') ->
    Forall is_u32 ls' /\ bytes_ok br' /\ num <= num' /\ num' + zlen br' = num + zlen br.
Proof.
  induction fuel as [|fuel IH]; intros nl num ls br Hok Hf Hls; [lia|]. cbn [readLabels].
  destruct (nl <=? 0).
  { split; [done|]. intros ls' num' br' [= <- <- <-]. split_and!; try done; try lia. by apply Forall_reverse. }
  destruct (DecodeUint32 br) as [[[v n] r]|e|e] eqn:E; cbn [errorf res_bind];
    [|done|by destruct (DecodeUint32_no_panic br e)].
  apply DecodeUint32_sound in E as (l & -> & _ & -> & Hn & _ & Hv); [|done].
  apply bytes_ok_app in Hok as [_ Hok].
  rewrite length_app in Hf. rewrite zlen_app.
  destruct (IH (nl - 1) (num + zlen l) (v :: ls) r) as [Hp Hr]; [done|unfold zlen in *; lia|by constructor|].
  split; [done|]. intros ls' num' br' H. apply Hr in H as (? & ? & ? & ?). split_and!; try done; lia.
Qed.

Lemma checkTableLabels_ok d ls p0 c l il :
  Forall is_u32 ls ->
  triple (inv p0 c l il) (checkTableLabels m d ls) (fun _ => inv p0 c l il).
Proof.
  induction ls as [|lb ls IH]; intros Hls; cbn [checkTableLabels]; [by apply triple_ret|].
  inversion Hls; subst. do 3 vc_step. apply bind_stack_op; [|auto].
  apply sameLabelTypes_stack_op. match goal with H : (zlen _ =? zlen _) = true |- _ => by apply zlen_eqb in H end.
Qed.

Lemma bind_decodeU32 {B} w br (k : Z * Z * list Z -> M B) P R :
  bytes_ok br ->
  (forall v n r, is_u32 v -> 1 <= n -> n + zlen r = zlen br -> bytes_ok r -> triple P (k (v, n, r)) R) ->
  triple P (wrap w (lift (DecodeUint32 br)) ≫= k) R.
Proof.
  intros Hok Hk. apply bind_wrap_lift; [apply DecodeUint32_no_panic|]. intros [[v n] r] E.
  apply DecodeUint32_sound in E as (l & -> & _ & -> & Hn & _ & Hv); [|done].
  apply bytes_ok_app in Hok as [_ Hok]. apply Hk; try done; [lia|by rewrite zlen_app].
Qed.

Lemma validateBrTable_ok : handler (validateBrTable m enabledFeatures body) p.
Proof.
  start. unfold validateBrTable. do 2 vc_step. apply bind_decodeU32; [apply drop_ok|].
  intros nl num br Hnl Hnum Hlen Hbr. cbv beta iota.
  destruct (readLabels_ok (S (length br)) nl num [] br) as [Hn Hr]; [done|lia|done|].
  apply bind_lift; [done|]. intros [[ls num'] br'] E. apply Hr in E as (Hls & Hbr' & Hnn & Hll). cbv beta iota.
  apply bind_decodeU32; [done|]. intros ln n r Hln Hn1 _ _. do 4 vc_step.
  apply bind_if; intros _; repeat (vc_step);
    (eapply triple_bind; [by apply checkTableLabels_ok|]; intros []; vc).
Qed.

(** *** Locals *)

Definition no_nonnull_locals : Prop :=
  Forall (fun t => IsRef t && negb (IsNullable t) = false) localTypes.

(** What keeps the map of initialized locals from being nil where it is written:
    either no local needs it, or every enclosing block has saved one. *)
Fixpoint cs_ok (c : list controlBlock) : Prop :=
  match c with
  | [] => True
  | [b] => cbOp b = 0
  | b :: c' => savedInitLocals b <> None /\ cs_ok c'
  end.

Definition locals_ok (c : list controlBlock) (il : option (gset Z)) : Prop :=
  no_nonnull_locals \/
  (IsEnabled enabledFeatures CoreFeaturesExceptionHandling = false /\ il <> None /\ cs_ok c).

(** One limit per open block; the function itself has none. *)
Definition ctl_ok (c : list controlBlock) (l : list Z) (il : option (gset Z)) : Prop :=
  locals_ok c il /\ length l = pred (length c).

(** The state after any handler. *)
Definition after (p0 : Z) (s : stacks) : Prop :=
  p0 <= pc s /\ vs_wf s /\ ctl_ok (cs s) (stackLimits s) (initLocals s).

Lemma moved_after (h : M unit) P p0 c l il :
  ctl_ok c l il -> triple P h (fun _ => moved p0 c l il) -> triple P h (fun _ => after p0).
Proof.
  intros Hl Hh s Hs. specialize (Hh s Hs). destruct (h s) as [[a s']|e|e]; [|done|done].
  destruct Hh as (p' & Hp & <- & <- & <- & <- & Hw). done.
Qed.

Lemma markLocalInit_ok i p0 p1 c l il :
  0 <= i < nlocals -> ctl_ok c l il -> p1 <= p0 ->
  triple (inv p0 c l il) (markLocalInit i (inputLen functionType) localTypes) (fun _ => after p1).
Proof.
  intros Hi Hl Hp. unfold markLocalInit, inputLen.
  assert (triple (inv p0 c l il) (mret tt) (fun _ => after p1)) as Hret.
  { apply triple_ret. intros s (<- & <- & <- & <- & Hw). done. }
  apply triple_if; intros H; [|done]. bools. apply bind_zindex; [bnd|]. intros t Ht.
  apply triple_if; intros Hr; [|done]. apply bind_gets_il.
  destruct Hl as [[Hnn|(HE & Hil & Hcs)] Hd].
  { exfalso. unfold zlookup in Ht. destruct (0 <=? _); [|done].
    pose proof (Forall_lookup_1 _ _ _ _ Hnn Ht) as E. cbv beta in E. congruence. }
  destruct il as [il|]; [|done]. apply triple_modify. intros s (<- & <- & <- & _ & Hw).
  split; [done|]. split; [exact Hw|]. split; [by right|done].
Qed.

Lemma validateLocalGlobal_ok c l il : ctl_ok c l il ->
  triple (inv p c l il) (validateLocalGlobal m globals functionType localTypes body op) (fun _ => after p).
Proof.
  intros Hl. destruct op_room as [Hp0 Hp1]. unfold validateLocalGlobal. do 2 vc_step.
  apply triple_if; intros _; [apply (moved_after _ _ p c l il); [done|]; vc|].
  apply triple_if; intros _; [vc; apply markLocalInit_ok; (done || bnd)|].
  apply triple_if; intros _; [vc; apply markLocalInit_ok; (done || bnd)|].
  apply (moved_after _ _ p c l il); [done|]. vc.
Qed.

(** *** try_table and structured control *)

Lemma DecodeBlockType_ok br :
  bytes_ok br ->
  no_panic (DecodeBlockType (TypeSection m) br enabledFeatures) /\
  forall bt num, DecodeBlockType (TypeSection m) br enabledFeatures = Ok (bt, num) -> 1 <= num <= zlen br.
Proof.
  intros Hok. unfold DecodeBlockType.
  destruct (DecodeInt33_within br) as [Hn Hr].
  destruct (DecodeInt33AsInt64 br) as [[[raw num] r]|e|e]; cbn [errorf res_bind]; [|done|by destruct (Hn e)].
  destruct (Hr raw num r eq_refl) as (l & -> & <- & Hn1). rewrite zlen_app. pose proof (zlen_nonneg r).
  assert (forall nullable, no_panic (decodeRefBlockType (TypeSection m) nullable (zlen l) r) /\
    forall bt num, decodeRefBlockType (TypeSection m) nullable (zlen l) r = Ok (bt, num) ->
      1 <= num <= zlen l + zlen r) as Href.
  { intros nullable. unfold decodeRefBlockType. destruct (DecodeInt33_within r) as [Hn' Hr'].
    destruct (DecodeInt33AsInt64 r) as [[[ht num'] r']|e|e]; cbn [errorf res_bind]; [|done|by destruct (Hn' e)].
    destruct (Hr' ht num' r' eq_refl) as (l' & -> & <- & ?). rewrite zlen_app. pose proof (zlen_nonneg r').
    split; [repeat case_match; done|]. intros bt num E. repeat case_in E; lia. }
  repeat match goal with
  | |- no_panic (if ?b then Ok (?t, _) else _) /\ _ =>
      destruct b; [split; [done|]; intros ? ? [= <- <-]; lia|]
  | |- no_panic (if ?b then decodeRefBlockType _ _ _ _ else _) /\ _ => destruct b; [apply Href|]
  end.
  unfold RequireEnabled. destruct (_ =? _); cbn [res_bind]; [done|].
  destruct (_ || _) eqn:Eb; [done|]. apply orb_false_iff in Eb as [? ?]. bools.
  destruct (zindex_in (TypeSection m) raw) as (t & -> & _); [lia|]. split; [done|]. intros ? ? [= <- <-]. lia.
Qed.

Lemma bind_readBlockType {B} (k : FunctionType * Z -> M B) p0 c l il R :
  0 <= p0 -> p0 + 1 <= len ->
  (forall bt num, 1 <= num -> p0 + 1 + num <= len -> triple (inv p0 c l il) (k (bt, num)) R) ->
  triple (inv p0 c l il) (readBlockType m enabledFeatures body ≫= k) R.
Proof.
  intros Hp0 Hp1 Hk. unfold readBlockType. vc_step. vc_step.
  destruct (DecodeBlockType_ok (drop (Z.to_nat (p0 + 1)) body) (drop_ok _)) as [Hn Hr].
  apply bind_wrap_lift; [done|]. intros [bt num] E. apply Hr in E. rewrite drop_len in E by lia. apply Hk; lia.
Qed.

(** Entering a block: one more limit. *)
Lemma enterBlock_ok o bt p0 c l il :
  triple (inv p0 c l il) (enterBlock m o bt)
    (fun _ s => pc s = p0 /\ cs s = c /\ initLocals s = il /\ length (stackLimits s) = S (length l) /\ vs_wf s).
Proof.
  unfold enterBlock. apply bind_stack_op; [stack_ops|]. intros _ s (<- & <- & <- & <- & Hw).
  unfold mbind, M_bind. destruct (pushAll_eq (Params bt) s) as (s1 & -> & Hst & Hpc & Hls & Hcs & Hil). cbn.
  rewrite Hpc, Hcs, Hil, Hls. repeat (split; [done|]). unfold vs_wf in *. cbn. rewrite Hst, zlen_app.
  assert (zlen (reverse (Params bt)) = zlen (Params bt)) as -> by (unfold zlen; by rewrite length_reverse).
  replace (_ + _ - _) with (zlen (stack s)) by lia. pose proof (zlen_nonneg (Params bt)). pose proof (zlen_nonneg (stack s)).
  split; [lia|done].
Qed.

(** The tail of a handler that entered a block: the new control stack is [c]. *)
Lemma entered_after o bt n p0 p1 c l il :
  p1 <= p0 + n -> locals_ok c il -> S (length l) = pred (length c) ->
  triple (inv p0 c l il) (enterBlock m o bt;; advance n) (fun _ => after p1).
Proof.
  intros Hp Hl Hd. eapply triple_bind; [apply enterBlock_ok|]. intros a. apply triple_modify.
  intros s (<- & <- & <- & Hls & Hw). unfold after, ctl_ok. cbn. split; [lia|]. split; [exact Hw|]. split; [done|congruence].
Qed.

Lemma bind_csPush {B} a b e bt n o saved (k : unit -> M B) p0 c l il R :
  triple (inv p0 (mkControlBlock a b e bt n o saved :: c) l il) (k tt) R ->
  triple (inv p0 c l il) (csPush a b e bt n o saved ≫= k) R.
Proof.
  intros Hk s (<- & <- & <- & <- & Hw). unfold mbind, M_bind. apply Hk. repeat (split; [done|]). exact Hw.
Qed.

Lemma locals_ok_push c il b : c <> [] -> locals_ok c il -> savedInitLocals b = il -> locals_ok (b :: c) il.
Proof.
  intros Hc [Hn|(HE & Hil & Hcs)] Hs; [by left|right]. split_and!; try done.
  destruct c; [done|]. split; [by rewrite Hs|done].
Qed.

Ltac block_handler :=
  intros Hc [Hl Hd]; destruct op_room as [Hp0 Hp1];
  apply bind_readBlockType; [lia|lia|]; intros bt num Hn1 Hn2; cbv beta iota;
  apply bind_gets_pc, bind_gets_il, bind_csPush;
  repeat (apply bind_stack_op; [solve [stack_ops]|intros _]);
  (apply entered_after; [lia|by apply locals_ok_push|match goal with Hc : ?x <> [] |- _ => destruct x; [done|cbn in *; congruence] end]).

Lemma validateBlock_ok c l il : c <> [] -> ctl_ok c l il ->
  triple (inv p c l il) (validateBlock m enabledFeatures body) (fun _ => after p).
Proof. unfold validateBlock. block_handler. Qed.

Lemma validateLoop_ok c l il : c <> [] -> ctl_ok c l il ->
  triple (inv p c l il) (validateLoop m enabledFeatures body) (fun _ => after p).
Proof. unfold validateLoop. block_handler. Qed.

Lemma validateIf_ok c l il : c <> [] -> ctl_ok c l il ->
  triple (inv p c l il) (validateIf m enabledFeatures body) (fun _ => after p).
Proof. unfold validateIf. block_handler. Qed.

Lemma checkCatchTarget_ok name i ts p0 c l il : is_u32 i ->
  triple (inv p0 c l il) (checkCatchTarget m name i ts) (fun _ => inv p0 c l il).
Proof.
  intros Hi. unfold checkCatchTarget. do 3 vc_step. apply catchTypesMatch_stack_op.
  match goal with H : (zlen _ =? zlen _) = true |- _ => by apply zlen_eqb in H end.
Qed.

(** A catch clause ends before the end of the body. *)
Lemma validateCatchClause_ok p0 c l il : 0 <= p0 < len ->
  triple (inv p0 c l il) (validateCatchClause m tags body)
    (fun _ s => exists p', (p0 < p' < len) /\ inv p' c l il s).
Proof.
  intros Hp0. unfold validateCatchClause. do 3 vc_step.
  apply bind_bodyAt; [bnd|intros ck Hck _].
  apply triple_if; intros Hk.
  - destruct (not_last _ _ Hck) as [_ Hroom].
    { intros ->. done. }
    do 7 vc_step. eapply triple_conseq; [|apply checkCatchTarget_ok; done|]; [done|].
    intros ? s Hs. eexists. split; [|exact Hs]. bnd.
  - apply triple_if; intros Hk'; [|vc].
    destruct (not_last _ _ Hck) as [_ Hroom].
    { intros ->. done. }
    do 2 vc_step. eapply triple_conseq; [|apply checkCatchTarget_ok; done|]; [done|].
    intros ? s Hs. eexists. split; [|exact Hs]. bnd.
Qed.

Lemma validateCatchClauses_ok fuel : forall n p0 c l il, 0 <= p0 < len -> len - p0 < Z.of_nat fuel ->
  triple (inv p0 c l il) (validateCatchClauses m tags body fuel n)
    (fun _ s => exists p', (p0 <= p' < len) /\ inv p' c l il s).
Proof.
  induction fuel as [|fuel IH]; intros n p0 c l il Hp0 Hf; [lia|]. cbn [validateCatchClauses].
  apply triple_if; intros _; [apply triple_ret; intros s Hs; exists p0; split; [lia|done]|].
  eapply triple_bind; [by apply validateCatchClause_ok|]. intros a. apply triple_exists. intros p1.
  apply triple_pure. intros Hp1. eapply triple_conseq; [|apply (IH (n - 1) p1); lia|]; [done|].
  intros a' s (p2 & ? & Hs). exists p2. split; [lia|done].
Qed.

Lemma validateTryTable_ok c l il : c <> [] -> ctl_ok c l il ->
  triple (inv p c l il) (validateTryTable m enabledFeatures tags body) (fun _ => after p).
Proof.
  intros Hc [Hl Hd]. destruct op_room as [Hp0 Hp1]. unfold validateTryTable, invalidAs, requireEnabled.
  apply bind_wrap_lift; [apply RequireEnabled_no_panic|]. intros [] HE.
  assert (no_nonnull_locals) as Hnn.
  { destruct Hl as [?|(HE' & _)]; [done|exfalso]. unfold IsEnabled in HE'. unfold RequireEnabled in HE.
    destruct (_ =? 0); done. }
  apply bind_readBlockType; [lia|lia|]. intros bt num Hn1 Hn2. do 2 vc_step.
  destruct (LoadUint32_within (drop (Z.to_nat (p + num + 1)) body) (drop_ok _)) as [Hn Hr].
  apply bind_wrap_lift; [done|]. intros [catchCount catchNum] E. apply Hr in E. rewrite drop_len in E by lia. vc_step.
  eapply triple_bind; [apply validateCatchClauses_ok; [lia|unfold zlen in *; lia]|].
  intros a. apply triple_exists. intros p1. apply triple_pure. intros Hp'.
  apply bind_gets_pc, bind_csPush. eapply triple_conseq; [|apply enterBlock_ok|]; [done|].
  intros ? s (Hpc & Hcs & _ & Hls & Hw). split; [lia|]. split; [done|]. split; [by left|].
  rewrite Hcs, Hls, Hd. by destruct c.
Qed.

Lemma bind_csPop {B} (k : controlBlock -> M B) p0 b c l il R :
  triple (inv p0 c l il) (k b) R -> triple (inv p0 (b :: c) l il) (csPop ≫= k) R.
Proof.
  intros Hk s (<- & Hc & <- & <- & Hw). unfold mbind, M_bind, csPop. rewrite Hc. cbn [res_bind].
  apply Hk. repeat (split; [done|]). exact Hw.
Qed.

Lemma bind_set_initLocals {B} il' (k : unit -> M B) p0 c l il R :
  triple (inv p0 c l il') (k tt) R -> triple (inv p0 c l il) (modify (set_initLocals il') ≫= k) R.
Proof.
  intros Hk s (<- & <- & <- & <- & Hw). unfold mbind, M_bind. apply Hk. repeat (split; [done|]). exact Hw.
Qed.

Lemma cs_ok_tail b c : cs_ok (b :: c) -> cs_ok c.
Proof. destruct c; [done|]. by intros []. Qed.

Lemma validateElse_ok c l il : c <> [] -> ctl_ok c l il ->
  triple (inv p c l il) (validateElse m) (fun _ => after p).
Proof.
  intros Hc Hl. unfold validateElse. destruct c as [|b c]; [done|]. apply bind_csPop.
  vc_step. apply bind_gets_pc, bind_csPush. apply bind_stack_op; [stack_ops|]. intros _.
  apply bind_set_initLocals. apply (moved_after _ _ p (mkControlBlock (startAt b) p (endAt b) (blockType b) (blockTypeBytes b) OpcodeElse (savedInitLocals b) :: c) l (savedInitLocals b)).
  - destruct Hl as [Hl Hd]. split; [|done]. destruct Hl as [?|(HE & Hil & Hcs)]; [by left|right]. destruct c as [|b' c].
    + cbn in Hcs. rewrite Hcs in H. done.
    + destruct Hcs. split_and!; done.
  - vc.
Qed.

Lemma limits_ok_tail h x ls : limits_ok h (x :: ls) -> limits_ok h ls.
Proof. intros [Hx Hl]. by apply (limits_ok_mono x); [lia|]. Qed.

(** The part of [validateEnd] after the control block was popped. *)
Lemma end_tail_ok results ctx p0 c l il :
  locals_ok c il -> length l = length c ->
  triple (inv p0 c l il)
    (requireStackValues m false ctx results true;; resetAtStackLimit;; pushAll results;; popStackLimit)
    (fun _ => after p0).
Proof.
  intros Hl Hd. do 3 (apply bind_stack_op; [stack_ops|]; intros _). apply triple_modify.
  intros s (<- & <- & <- & <- & Hw). split; [done|]. split; [|split; [done|]].
  - unfold vs_wf in *. cbn. destruct (stackLimits s); [done|]. by eapply limits_ok_tail.
  - cbn. rewrite <- Hd. by destruct (stackLimits s).
Qed.

Lemma locals_ok_pop b c il : locals_ok (b :: c) il -> locals_ok c (if zlen c >? 0 then savedInitLocals b else il).
Proof.
  intros [Hn|(HE & Hil & Hcs)]; [by left|right]. destruct c as [|b' c]; [by cbn|].
  rewrite zlen_cons. pose proof (zlen_nonneg c). rewrite (proj2 (Z.gtb_lt _ _)) by lia.
  destruct Hcs. split_and!; done.
Qed.

Lemma validateEnd_ok p0 c l il : c <> [] -> ctl_ok c l il ->
  triple (inv p0 c l il) (validateEnd m) (fun _ => after p0).
Proof.
  intros Hc [Hl Hd]. unfold validateEnd. destruct c as [|b c]; [done|]. apply bind_csPop, bind_gets_pc, bind_gets_cs.
  apply locals_ok_pop in Hl. cbv zeta. apply bind_if; intros Hz; rewrite Hz in Hl.
  - apply bind_set_initLocals. apply bind_if; intros _; [apply bind_fail|apply bind_ret]. by apply end_tail_ok.
  - apply bind_ret. apply bind_if; intros _; [apply bind_fail|apply bind_ret]. by apply end_tail_ok.
Qed.

(** *** One instruction *)

Abbreviation instruction := (validateInstruction m enabledFeatures functions globals memory tables tags
  declaredFunctionIndexes functionType localTypes body).

Lemma handler_after h c l il : handler h p -> ctl_ok c l il -> triple (inv p c l il) h (fun _ => after p).
Proof. intros Hh Hl. apply (moved_after _ _ p c l il); [done|]. apply Hh. Qed.

Lemma stack_op_handler h : stack_op h -> handler h p.
Proof. intros Hh c l il. by apply tail_stack_op. Qed.

(** The next branch of the instruction switch, closed by [t]. *)
Ltac branch t := apply triple_if; intros _; [t|].

Lemma validateInstruction_ok c l il : c <> [] -> ctl_ok c l il ->
  triple (inv p c l il) (instruction op) (fun _ => after p).
Proof.
  intros Hc Hl. unfold validateInstruction.
  branch ltac:(by apply handler_after; [apply validateMemoryInstr_ok|]).
  branch ltac:(by apply handler_after; [apply validateMemorySizeGrow_ok|]).
  branch ltac:(by apply handler_after; [apply validateConst_ok|]).
  branch ltac:(by apply validateLocalGlobal_ok).
  branch ltac:(by apply handler_after; [apply validateBr_ok|]).
  branch ltac:(by apply handler_after; [apply validateBrIf_ok|]).
  branch ltac:(by apply handler_after; [apply validateBrTable_ok|]).
  branch ltac:(by apply handler_after; [apply validateThrow_ok|]).
  branch ltac:(by apply handler_after; [apply stack_op_handler; stack_ops|]).
  branch ltac:(by apply validateTryTable_ok).
  branch ltac:(by apply handler_after; [apply validateCall_ok|]).
  branch ltac:(by apply handler_after; [apply validateCallIndirect_ok|]).
  branch ltac:(by apply handler_after; [apply validateCallRef_ok|]).
  branch ltac:(by apply handler_after; [apply stack_op_handler; stack_ops|]).
  branch ltac:(by apply handler_after; [apply validateRef_ok|]).
  branch ltac:(by apply handler_after; [apply stack_op_handler; stack_ops|]).
  branch ltac:(by apply handler_after; [apply validateBrOnNull_ok|]).
  branch ltac:(by apply handler_after; [apply validateBrOnNonNull_ok|]).
  branch ltac:(by apply handler_after; [apply validateTableGetSet_ok|]).
  branch ltac:(by apply handler_after; [apply validateMisc_ok|]).
  branch ltac:(by apply handler_after; [apply validateVec_ok|]).
  branch ltac:(by apply validateBlock_ok).
  branch ltac:(by apply handler_after; [apply validateAtomic_ok|]).
  branch ltac:(by apply validateLoop_ok).
  branch ltac:(by apply validateIf_ok).
  branch ltac:(by apply validateElse_ok).
  branch ltac:(by apply validateEnd_ok).
  branch ltac:(by apply handler_after; [apply stack_op_handler; stack_ops|]).
  branch ltac:(by apply handler_after; [apply stack_op_handler; stack_ops|]).
  branch ltac:(by apply handler_after; [apply validateSelect_ok|]).
  branch ltac:(by apply handler_after; [apply stack_op_handler; stack_ops|]).
  branch ltac:(by apply handler_after; [apply stack_op_handler; stack_ops|]).
  branch ltac:(apply triple_fail).
  apply triple_fail.
Qed.

End Instruction.

(** *** The loop *)

Abbreviation step := (validateStep m enabledFeatures functions globals memory tables tags
  declaredFunctionIndexes functionType localTypes body).
Abbreviation loop := (validateBody m enabledFeatures functions globals memory tables tags
  declaredFunctionIndexes functionType localTypes body).

Lemma validateStep_ok p c l il : 0 <= p < len -> ctl_ok c l il ->
  triple (inv p c l il) step (fun _ => after (p + 1)).
Proof.
  intros Hp Hl. unfold validateStep. apply bind_bodyAt; [done|]. intros op Hop _. apply bind_gets_cs.
  apply triple_if; intros Hc; [apply triple_fail|].
  assert (c <> []) as Hne by (by intros ->).
  eapply (triple_bind _ _ _ (fun _ => after p)).
  - destruct (decide (op = OpcodeEnd)) as [->|Ho].
    + change (validateInstruction m enabledFeatures functions globals memory tables tags
        declaredFunctionIndexes functionType localTypes body OpcodeEnd) with (validateEnd m).
      by apply validateEnd_ok.
    + by apply validateInstruction_ok.
  - intros a. apply triple_modify. intros s (H1 & H2 & H3). split; [cbn; lia|]. split; [exact H2|exact H3].
Qed.

Lemma validateBody_ok fuel : forall p c l il, 0 <= p -> ctl_ok c l il -> len - p <= Z.of_nat fuel ->
  triple (inv p c l il) (loop fuel) (fun _ => after p).
Proof.
  induction fuel as [|fuel IH]; intros p c l il Hp Hl Hf; cbn [validateBody]; apply bind_gets_pc;
    (apply triple_if; intros Hlt; bools;
      [|apply triple_ret; intros s (<- & <- & <- & <- & Hw); split; [lia|]; split; done]); [lia|].
  eapply triple_bind; [apply validateStep_ok; [lia|done]|]. intros a s (H1 & H2 & H3).
  specialize (IH (pc s) (cs s) (stackLimits s) (initLocals s) ltac:(lia) H3 ltac:(lia) s).
  destruct (loop fuel s) as [[? s']|e|e]; try (by apply IH; repeat (split; [done|])).
  destruct IH as (G1 & G2 & G3); [by repeat (split; [done|])|]. split; [lia|]. split; done.
Qed.

Lemma reset_ok : IsEnabled enabledFeatures CoreFeaturesExceptionHandling = false \/ no_nonnull_locals ->
  ctl_ok [mkControlBlock 0 0 0 functionType 0 0 None] [] (Some ∅).
Proof. intros [HE|Hn]; (split; [|done]); [right|by left]. done. Qed.

(** The states of the validation loop, as a transition system. *)
Inductive reaches : stacks -> Prop :=
| reach_start : reaches (reset functionType)
| reach_step s s' : reaches s -> pc s < len -> step s = Ok (tt, s') -> reaches s'.

Lemma reaches_after s :
  IsEnabled enabledFeatures CoreFeaturesExceptionHandling = false \/ no_nonnull_locals ->
  reaches s -> after 0 s.
Proof.
  intros Hen. induction 1 as [|s s' Hs IH Hp E].
  - split; [done|]. split; [done|]. by apply reset_ok.
  - destruct IH as (H1 & H2 & H3).
    pose proof (validateStep_ok (pc s) (cs s) (stackLimits s) (initLocals s) ltac:(lia) H3 s) as Hst.
    rewrite E in Hst. destruct Hst as (G1 & G2 & G3); [by repeat (split; [done|])|]. split; [lia|done].
Qed.

Lemma loop_reaches fuel : forall s s', reaches s -> loop fuel s = Ok (tt, s') -> reaches s' /\ len <= pc s'.
Proof.
  induction fuel as [|fuel IH]; intros s s' Hs; cbn [validateBody]; unfold mbind, M_bind, gets; cbn [res_bind];
    (destruct (Z.ltb_spec (pc s) len); [|intros [= <-]; done]); [done|].
  destruct (step s) as [[[] s1]|e|e] eqn:E; cbn [res_bind]; try done.
  intros Hl. apply (IH s1); [|done]. by apply (reach_step s).
Qed.

(** A successful run passes through every reachable state. *)
Lemma loop_through fuel s s' :
  reaches s -> loop fuel (reset functionType) = Ok (tt, s') -> exists k, loop k s = Ok (tt, s').
Proof.
  intros Hs E. induction Hs as [|s s1 Hs IH Hp Est]; [by exists fuel|].
  destruct IH as [[|k] Hk]; cbn [validateBody] in Hk; unfold mbind, M_bind, gets in Hk; cbn [res_bind] in Hk;
    rewrite (proj2 (Z.ltb_lt _ _)) in Hk by lia; [done|].
  rewrite Est in Hk. cbn [res_bind] in Hk. by exists k.
Qed.

End Safe.

Lemma validateFunction_no_panic (m : Module) (enabledFeatures : CoreFeatures) (idx t : Index) (functions : list Index)
    (globals : list GlobalType) (memory : option Memory) (tables : list Table) (tags : list Index)
    (maxStackValues : Z) (declaredFunctionIndexes : gset Z) (functionType : FunctionType) (code : Code) :
  zlookup (FunctionSection m) idx = Some t ->
  zlookup (TypeSection m) t = Some functionType ->
  zlookup (CodeSection m) idx = Some code ->
  context_ok m functions tags (Body code) ->
  IsEnabled enabledFeatures CoreFeaturesExceptionHandling = false \/ no_nonnull_locals (LocalTypes code) ->
  no_panic (validateFunctionWithMaxStackValues m enabledFeatures idx functions globals memory tables tags
              maxStackValues declaredFunctionIndexes).
Proof.
  intros Hf Ht Hc Hctx Hen. unfold validateFunctionWithMaxStackValues, zindex. rewrite Hf. cbn [res_bind].
  rewrite Ht. cbn [res_bind]. rewrite Hc. cbn [res_bind].
  pose proof (validateBody_ok m enabledFeatures functions globals memory tables tags declaredFunctionIndexes
    functionType (LocalTypes code) (Body code) Hctx (length (Body code)) 0
    [mkControlBlock 0 0 0 functionType 0 0 None] [] (Some ∅) ltac:(done) (reset_ok _ _ _ Hen)
    ltac:(unfold zlen; lia) (reset functionType)) as H.
  destruct (validateBody _ _ _ _ _ _ _ _ _ _ _ _ _) as [[? s]|e|e]; cbn [res_bind].
  - intros e. repeat case_match; done.
  - done.
  - destruct H. by repeat (split; [done|]).
Qed.

(** ** Properties *)

(** C2: Validation is total and does not panic. For a module with well-formed
    types and index spaces in range, and any body of bytes that ends in the end
    opcode, [validateFunctionWithMaxStackValues] returns or reports an error,
    provided that exception handling is disabled or no local has a non-nullable
    reference type.  Running out of iterations is a panic of the model, so this
    is also termination of the loop over the body. *)
Theorem validateFunction_total (m : Module) (enabledFeatures : CoreFeatures) (idx t : Index) (functions : list Index)
    (globals : list GlobalType) (memory : option Memory) (tables : list Table) (tags : list Index)
    (maxStackValues : Z) (declaredFunctionIndexes : gset Z) (functionType : FunctionType) (code : Code) :
  zlookup (FunctionSection m) idx = Some t ->
  zlookup (TypeSection m) t = Some functionType ->
  zlookup (CodeSection m) idx = Some code ->
  context_ok m functions tags (Body code) ->
  IsEnabled enabledFeatures CoreFeaturesExceptionHandling = false \/ no_nonnull_locals (LocalTypes code) ->
  no_panic (validateFunctionWithMaxStackValues m enabledFeatures idx functions globals memory tables tags
              maxStackValues declaredFunctionIndexes).
Proof. apply validateFunction_no_panic. Qed.

(** A module with one function of type [() -> ()] and the given locals and body. *)
Definition single (locals : list ValueType) (body : list Z) : Module :=
  mkModule [mkFunctionType [] [] 0 0 1 0] [0] [mkCode locals body] [] 0 None.

Definition validateSingle (enabledFeatures : CoreFeatures) (locals : list ValueType) (body : list Z) : res unit :=
  validateFunction (single locals body) enabledFeatures 0 [0] [] None [] [] ∅.

Lemma single_ok locals body :
  bytes_ok body -> last body = Some OpcodeEnd -> context_ok (single locals body) [0] [] body.
Proof.
  intros Hb Hl. split; try done; [|by repeat constructor].
  assert (forall t ft, zlookup (TypeSection (single locals body)) t = Some ft -> t = 0 /\ ft = mkFunctionType [] [] 0 0 1 0) as H.
  { intros t ft E. pose proof (zlookup_Some_lt _ _ _ E) as Hr. change (zlen _) with 1 in Hr.
    assert (t = 0) as -> by lia. by injection E. }
  split; [done|..]; intros t ft; [intros E|intros E|intros E|intros i E]; destruct (H t ft E) as [-> ->]; cbn; intros;
    (done || lia || (split; by constructor)).
Qed.

Definition example_body : list Z :=
  [OpcodeBlock; 0x40; OpcodeUnreachable; OpcodeI32Add; OpcodeDrop; OpcodeEnd; OpcodeEnd].

Lemma validateFunction_total_witness : no_panic (validateSingle CoreFeaturesV2 [ValueTypeI32] example_body).
Proof.
  apply (validateFunction_total (single [ValueTypeI32] example_body) CoreFeaturesV2 0 0 [0] [] None [] []
    maximumValuesOnStack ∅ (mkFunctionType [] [] 0 0 1 0) (mkCode [ValueTypeI32] example_body) eq_refl eq_refl eq_refl).
  - apply single_ok; [repeat constructor; done|reflexivity].
  - left. reflexivity.
Defined.

(** The invariant of the validation loop, as a transition system. In every
    reachable state the stack limits are nested heights of the operand stack,
    one per open block; and from a state that has not reached the end of the
    body, the next instruction does not panic and moves forward. *)
Theorem validation_invariant (m : Module) (enabledFeatures : CoreFeatures) (functions : list Index)
    (globals : list GlobalType) (memory : option Memory) (tables : list Table) (tags : list Index)
    (declaredFunctionIndexes : gset Z) (functionType : FunctionType) (localTypes : list ValueType) (body : list Z) (s : stacks) :
  context_ok m functions tags body ->
  IsEnabled enabledFeatures CoreFeaturesExceptionHandling = false \/ no_nonnull_locals localTypes ->
  reaches m enabledFeatures functions globals memory tables tags declaredFunctionIndexes functionType localTypes body s ->
  limits_ok (zlen (stack s)) (stackLimits s) /\
  length (stackLimits s) = pred (length (cs s)) /\
  (pc s < zlen body ->
     match validateStep m enabledFeatures functions globals memory tables tags declaredFunctionIndexes functionType
             localTypes body s with
     | Ok (_, s') => pc s < pc s'
     | Err _ => True
     | Panic _ => False
     end).
Proof.
  intros Hctx Hen Hr.
  destruct (reaches_after m enabledFeatures functions globals memory tables tags declaredFunctionIndexes functionType
    localTypes body Hctx s Hen Hr) as (H1 & H2 & H3 & H4).
  split; [done|]. split; [done|]. intros Hp.
  pose proof (validateStep_ok m enabledFeatures functions globals memory tables tags declaredFunctionIndexes functionType
    localTypes body Hctx (pc s) (cs s) (stackLimits s) (initLocals s) ltac:(lia) (conj H3 H4) s) as Hst.
  destruct (validateStep _ _ _ _ _ _ _ _ _ _ _ s) as [[? s']|e|e]; [|done|].
  - destruct Hst as (G & _); [by repeat (split; [done|])|]. lia.
  - destruct Hst. by repeat (split; [done|]).
Qed.

Lemma validation_invariant_witness :
  let s := reset (mkFunctionType [] [] 0 0 1 0) in
  limits_ok (zlen (stack s)) (stackLimits s).
Proof.
  apply (validation_invariant (single [] [OpcodeNop; OpcodeEnd]) CoreFeaturesV2 [0] [] None [] [] ∅
    (mkFunctionType [] [] 0 0 1 0) [] [OpcodeNop; OpcodeEnd]).
  - apply single_ok; [repeat constructor; done|reflexivity].
  - left. reflexivity.
  - apply reach_start.
Defined.

(** An accepted body is well nested: validation ends past the last byte with
    no open block and within the stack bound, and every state before the end of
    the body has an open block, so that no code follows the end of the function. *)
Theorem accepted_well_nested (m : Module) (enabledFeatures : CoreFeatures) (idx t : Index) (functions : list Index)
    (globals : list GlobalType) (memory : option Memory) (tables : list Table) (tags : list Index)
    (maxStackValues : Z) (declaredFunctionIndexes : gset Z) (functionType : FunctionType) (code : Code) :
  zlookup (FunctionSection m) idx = Some t ->
  zlookup (TypeSection m) t = Some functionType ->
  zlookup (CodeSection m) idx = Some code ->
  validateFunctionWithMaxStackValues m enabledFeatures idx functions globals memory tables tags
    maxStackValues declaredFunctionIndexes = Ok tt ->
  let R := reaches m enabledFeatures functions globals memory tables tags declaredFunctionIndexes functionType
             (LocalTypes code) (Body code) in
  (exists s, R s /\ zlen (Body code) <= pc s /\ cs s = [] /\ maximumStackPointer s <= maxStackValues) /\
  (forall s, R s -> pc s < zlen (Body code) -> cs s <> []).
Proof.
  intros Hf Ht Hc. unfold validateFunctionWithMaxStackValues, zindex. rewrite Hf. cbn [res_bind].
  rewrite Ht. cbn [res_bind]. rewrite Hc. cbn [res_bind].
  destruct (validateBody _ _ _ _ _ _ _ _ _ _ _ _ _) as [[[] s]|e|e] eqn:E; cbn [res_bind]; try done.
  intros Hacc. split.
  - exists s. destruct (loop_reaches _ _ _ _ _ _ _ _ _ _ _ _ _ _ (reach_start _ _ _ _ _ _ _ _ _ _ _) E) as [Hr Hp].
    split; [done|]. split; [done|]. repeat case_in Hacc. bools.
    destruct (cs s) as [|b c]; [split; [done|lia]|]. rewrite zlen_cons in *. pose proof (zlen_nonneg c). lia.
  - intros s1 Hr Hp Hcs. destruct (loop_through _ _ _ _ _ _ _ _ _ _ _ _ _ _ Hr E) as [[|k] Hk];
      cbn [validateBody] in Hk; unfold mbind, M_bind, gets in Hk; cbn [res_bind] in Hk;
      rewrite (proj2 (Z.ltb_lt _ _)) in Hk by lia; [done|].
    unfold validateStep, mbind, M_bind, bodyAt, gets, lift in Hk. cbn [res_bind] in Hk.
    unfold mbind, M_bind in Hk. cbn [res_bind] in Hk.
    destruct (zindex (Body code) (pc s1)); cbn [res_bind] in Hk; try done. rewrite Hcs in Hk. done.
Qed.

Lemma accepted_well_nested_witness :
  exists s, reaches (single [] [OpcodeNop; OpcodeEnd]) CoreFeaturesV2 [0] [] None [] [] ∅ (mkFunctionType [] [] 0 0 1 0)
    [] [OpcodeNop; OpcodeEnd] s /\ 2 <= pc s /\ cs s = [] /\ maximumStackPointer s <= maximumValuesOnStack.
Proof.
  apply (accepted_well_nested (single [] [OpcodeNop; OpcodeEnd]) CoreFeaturesV2 0 0 [0] [] None [] []
    maximumValuesOnStack ∅ (mkFunctionType [] [] 0 0 1 0) (mkCode [] [OpcodeNop; OpcodeEnd]) eq_refl eq_refl eq_refl).
  vm_compute. reflexivity.
Defined.

(** Where the hypothesis of totality comes from: try_table pushes its control
    block without saving the initialized locals, so that its end leaves a nil
    map, and a later local.set of a non-nullable local writes to it.  The same
    body with a block instead of the try_table is accepted. *)
Theorem try_table_nil_map :
  let all := 2 ^ 12 - 1 in
  let rest := [OpcodeEnd; OpcodeUnreachable; OpcodeLocalSet; 0; OpcodeEnd] in
  validateSingle all [AsNonNullable ValueTypeFuncref] (OpcodeTryTable :: 0x40 :: 0 :: rest)
    = Panic "assignment to entry in nil map" /\
  validateSingle all [AsNonNullable ValueTypeFuncref] (OpcodeBlock :: 0x40 :: rest) = Ok tt.
Proof. vm_compute. split; reflexivity. Qed.
