(* ===== verification/Signature.v ===== *)
(** * Operand signatures of the interpreter's compiler

    src/internal/engine/interpreter/signature.go and the operand stack of
    src/internal/engine/interpreter/compiler.go: how every instruction changes
    the compiler's stack of [unsignedType]s, the cache of call signatures
    ([funcTypeToIRSignatures]) and [applyToStack].

    A stack is a list whose head is the top; [in] and [out] of a [signature]
    are in source order, their last element being the top.  A Go pointer that
    may be nil is an [option].  The switch of [wasmOpcodeSignature] is split
    into the cases that depend on the compiler and the fixed ones. *)

From S2P Require Import Prelude Leb128 Opcodes Types ValStack.

(** ** Types of operands (operations.go) *)

Definition unsignedType : Type := Z.

Definition unsignedTypeI32 : unsignedType := 0.
Definition unsignedTypeI64 : unsignedType := 1.
Definition unsignedTypeF32 : unsignedType := 2.
Definition unsignedTypeF64 : unsignedType := 3.
Definition unsignedTypeV128 : unsignedType := 4.
Definition unsignedTypeUnknown : unsignedType := 5.

Definition unsignedTypeString (s : unsignedType) : string :=
  if s =? unsignedTypeI32 then "i32"
  else if s =? unsignedTypeI64 then "i64"
  else if s =? unsignedTypeF32 then "f32"
  else if s =? unsignedTypeF64 then "f64"
  else if s =? unsignedTypeV128 then "v128"
  else if s =? unsignedTypeUnknown then "unknown"
  else "".

Record signature := mkSignature {
  sig_in : list unsignedType;
  sig_out : list unsignedType;
}.

(** ** The signatures *)

Definition signature_None_None : signature := mkSignature [] [].
Definition signature_Unknown_None : signature := mkSignature [unsignedTypeUnknown] [].
Definition signature_None_I32 : signature := mkSignature [] [unsignedTypeI32].
Definition signature_None_I64 : signature := mkSignature [] [unsignedTypeI64].
Definition signature_None_V128 : signature := mkSignature [] [unsignedTypeV128].
Definition signature_None_F32 : signature := mkSignature [] [unsignedTypeF32].
Definition signature_None_F64 : signature := mkSignature [] [unsignedTypeF64].
Definition signature_I32_None : signature := mkSignature [unsignedTypeI32] [].
Definition signature_I64_None : signature := mkSignature [unsignedTypeI64] [].
Definition signature_F32_None : signature := mkSignature [unsignedTypeF32] [].
Definition signature_F64_None : signature := mkSignature [unsignedTypeF64] [].
Definition signature_V128_None : signature := mkSignature [unsignedTypeV128] [].
Definition signature_I32_I32 : signature := mkSignature [unsignedTypeI32] [unsignedTypeI32].
Definition signature_I32_I64 : signature := mkSignature [unsignedTypeI32] [unsignedTypeI64].
Definition signature_I64_I64 : signature := mkSignature [unsignedTypeI64] [unsignedTypeI64].
Definition signature_I32_F32 : signature := mkSignature [unsignedTypeI32] [unsignedTypeF32].
Definition signature_I32_F64 : signature := mkSignature [unsignedTypeI32] [unsignedTypeF64].
Definition signature_I64_I32 : signature := mkSignature [unsignedTypeI64] [unsignedTypeI32].
Definition signature_I64_F32 : signature := mkSignature [unsignedTypeI64] [unsignedTypeF32].
Definition signature_I64_F64 : signature := mkSignature [unsignedTypeI64] [unsignedTypeF64].
Definition signature_F32_I32 : signature := mkSignature [unsignedTypeF32] [unsignedTypeI32].
Definition signature_F32_I64 : signature := mkSignature [unsignedTypeF32] [unsignedTypeI64].
Definition signature_F32_F64 : signature := mkSignature [unsignedTypeF32] [unsignedTypeF64].
Definition signature_F32_F32 : signature := mkSignature [unsignedTypeF32] [unsignedTypeF32].
Definition signature_F64_I32 : signature := mkSignature [unsignedTypeF64] [unsignedTypeI32].
Definition signature_F64_F32 : signature := mkSignature [unsignedTypeF64] [unsignedTypeF32].
Definition signature_F64_I64 : signature := mkSignature [unsignedTypeF64] [unsignedTypeI64].
Definition signature_F64_F64 : signature := mkSignature [unsignedTypeF64] [unsignedTypeF64].
Definition signature_I32I32_None : signature := mkSignature [unsignedTypeI32; unsignedTypeI32] [].
Definition signature_I32I32_I32 : signature := mkSignature [unsignedTypeI32; unsignedTypeI32] [unsignedTypeI32].
Definition signature_I32I64_None : signature := mkSignature [unsignedTypeI32; unsignedTypeI64] [].
Definition signature_I32F32_None : signature := mkSignature [unsignedTypeI32; unsignedTypeF32] [].
Definition signature_I32F64_None : signature := mkSignature [unsignedTypeI32; unsignedTypeF64] [].
Definition signature_I64I32_I32 : signature := mkSignature [unsignedTypeI64; unsignedTypeI32] [unsignedTypeI32].
Definition signature_I64I64_I32 : signature := mkSignature [unsignedTypeI64; unsignedTypeI64] [unsignedTypeI32].
Definition signature_I64I64_I64 : signature := mkSignature [unsignedTypeI64; unsignedTypeI64] [unsignedTypeI64].
Definition signature_F32F32_I32 : signature := mkSignature [unsignedTypeF32; unsignedTypeF32] [unsignedTypeI32].
Definition signature_F32F32_F32 : signature := mkSignature [unsignedTypeF32; unsignedTypeF32] [unsignedTypeF32].
Definition signature_F64F64_I32 : signature := mkSignature [unsignedTypeF64; unsignedTypeF64] [unsignedTypeI32].
Definition signature_F64F64_F64 : signature := mkSignature [unsignedTypeF64; unsignedTypeF64] [unsignedTypeF64].
Definition signature_I32I32I32_None : signature := mkSignature [unsignedTypeI32; unsignedTypeI32; unsignedTypeI32] [].
Definition signature_I32I64I32_None : signature := mkSignature [unsignedTypeI32; unsignedTypeI64; unsignedTypeI32] [].
Definition signature_UnknownUnknownI32_Unknown : signature := mkSignature [unsignedTypeUnknown; unsignedTypeUnknown; unsignedTypeI32] [unsignedTypeUnknown].
Definition signature_V128V128_V128 : signature := mkSignature [unsignedTypeV128; unsignedTypeV128] [unsignedTypeV128].
Definition signature_V128V128V128_V32 : signature := mkSignature [unsignedTypeV128; unsignedTypeV128; unsignedTypeV128] [unsignedTypeV128].
Definition signature_I32_V128 : signature := mkSignature [unsignedTypeI32] [unsignedTypeV128].
Definition signature_I32V128_None : signature := mkSignature [unsignedTypeI32; unsignedTypeV128] [].
Definition signature_I32V128_V128 : signature := mkSignature [unsignedTypeI32; unsignedTypeV128] [unsignedTypeV128].
Definition signature_V128I32_V128 : signature := mkSignature [unsignedTypeV128; unsignedTypeI32] [unsignedTypeV128].
Definition signature_V128I64_V128 : signature := mkSignature [unsignedTypeV128; unsignedTypeI64] [unsignedTypeV128].
Definition signature_V128F32_V128 : signature := mkSignature [unsignedTypeV128; unsignedTypeF32] [unsignedTypeV128].
Definition signature_V128F64_V128 : signature := mkSignature [unsignedTypeV128; unsignedTypeF64] [unsignedTypeV128].
Definition signature_V128_I32 : signature := mkSignature [unsignedTypeV128] [unsignedTypeI32].
Definition signature_V128_I64 : signature := mkSignature [unsignedTypeV128] [unsignedTypeI64].
Definition signature_V128_F32 : signature := mkSignature [unsignedTypeV128] [unsignedTypeF32].
Definition signature_V128_F64 : signature := mkSignature [unsignedTypeV128] [unsignedTypeF64].
Definition signature_V128_V128 : signature := mkSignature [unsignedTypeV128] [unsignedTypeV128].
Definition signature_I64_V128 : signature := mkSignature [unsignedTypeI64] [unsignedTypeV128].
Definition signature_F32_V128 : signature := mkSignature [unsignedTypeF32] [unsignedTypeV128].
Definition signature_F64_V128 : signature := mkSignature [unsignedTypeF64] [unsignedTypeV128].
Definition signature_I32I64_I64 : signature := mkSignature [unsignedTypeI32; unsignedTypeI64] [unsignedTypeI64].
Definition signature_I32I32I64_I32 : signature := mkSignature [unsignedTypeI32; unsignedTypeI32; unsignedTypeI64] [unsignedTypeI32].
Definition signature_I32I64I64_I32 : signature := mkSignature [unsignedTypeI32; unsignedTypeI64; unsignedTypeI64] [unsignedTypeI32].
Definition signature_I32I32I32_I32 : signature := mkSignature [unsignedTypeI32; unsignedTypeI32; unsignedTypeI32] [unsignedTypeI32].
Definition signature_I32I64I64_I64 : signature := mkSignature [unsignedTypeI32; unsignedTypeI64; unsignedTypeI64] [unsignedTypeI64].

(** ** From Wasm value types *)

Definition wasmValueTypeTounsignedType (vt : ValueType) : res unsignedType :=
  if vt =? ValueTypeI32 then Ok unsignedTypeI32
  else if one_of vt [ValueTypeI64; ValueTypeExternref; ValueTypeFuncref; ValueTypeExnref] then Ok unsignedTypeI64
  else if vt =? ValueTypeF32 then Ok unsignedTypeF32
  else if vt =? ValueTypeF64 then Ok unsignedTypeF64
  else if vt =? ValueTypeV128 then Ok unsignedTypeV128
  else if IsRef vt then Ok unsignedTypeI64
  else Panic "unreachable".

Definition wasmValueTypeToUnsignedOutSignature (vt : ValueType) : res signature :=
  if vt =? ValueTypeI32 then Ok signature_None_I32
  else if one_of vt [ValueTypeI64; ValueTypeExternref; ValueTypeFuncref; ValueTypeExnref] then Ok signature_None_I64
  else if vt =? ValueTypeF32 then Ok signature_None_F32
  else if vt =? ValueTypeF64 then Ok signature_None_F64
  else if vt =? ValueTypeV128 then Ok signature_None_V128
  else if IsRef vt then Ok signature_None_I64
  else Panic "unreachable".

Definition wasmValueTypeToUnsignedInSignature (vt : ValueType) : res signature :=
  if vt =? ValueTypeI32 then Ok signature_I32_None
  else if one_of vt [ValueTypeI64; ValueTypeExternref; ValueTypeFuncref; ValueTypeExnref] then Ok signature_I64_None
  else if vt =? ValueTypeF32 then Ok signature_F32_None
  else if vt =? ValueTypeF64 then Ok signature_F64_None
  else if vt =? ValueTypeV128 then Ok signature_V128_None
  else if IsRef vt then Ok signature_I64_None
  else Panic "unreachable".

Definition wasmValueTypeToUnsignedInOutSignature (vt : ValueType) : res signature :=
  if vt =? ValueTypeI32 then Ok signature_I32_I32
  else if one_of vt [ValueTypeI64; ValueTypeExternref; ValueTypeFuncref; ValueTypeExnref] then Ok signature_I64_I64
  else if vt =? ValueTypeF32 then Ok signature_F32_F32
  else if vt =? ValueTypeF64 then Ok signature_F64_F64
  else if vt =? ValueTypeV128 then Ok signature_V128_V128
  else if IsRef vt then Ok signature_I64_I64
  else Panic "unreachable".

(** [for _, vt := range l { acc = append(acc, wasmValueTypeTounsignedType(vt)) }] *)
Fixpoint appendTypes (acc : list unsignedType) (l : list ValueType) : res (list unsignedType) :=
  match l with
  | [] => Ok acc
  | vt :: l' => let! u := wasmValueTypeTounsignedType vt in appendTypes (acc ++ [u]) l'
  end.

(** ** The cache of call signatures *)

Record funcTypeToIRSignatures := mkSigCache {
  directCalls : list (option signature);
  indirectCalls : list (option signature);
  callRefCalls : list (option signature);
  wasmTypes : list FunctionType;
}.

(** [get] and [getCallRef] return the signature and the updated cache. *)
Definition get (f : funcTypeToIRSignatures) (typeIndex : Index) (indirect : bool)
    : res (signature * funcTypeToIRSignatures) :=
  let! sig := zindex (if indirect then indirectCalls f else directCalls f) typeIndex in
  match sig with
  | Some sig => Ok (sig, f)
  | None =>
      let! tp := zindex (wasmTypes f) typeIndex in
      let! ins := appendTypes [] (Params tp) in
      let! outs := appendTypes [] (Results tp) in
      if indirect then
        let sig := mkSignature (ins ++ [unsignedTypeI32]) outs in
        Ok (sig, mkSigCache (directCalls f) (<[Z.to_nat typeIndex := Some sig]> (indirectCalls f))
                   (callRefCalls f) (wasmTypes f))
      else
        let sig := mkSignature ins outs in
        Ok (sig, mkSigCache (<[Z.to_nat typeIndex := Some sig]> (directCalls f)) (indirectCalls f)
                   (callRefCalls f) (wasmTypes f))
  end.

Definition getCallRef (f : funcTypeToIRSignatures) (typeIndex : Index)
    : res (signature * funcTypeToIRSignatures) :=
  let! sig := zindex (callRefCalls f) typeIndex in
  match sig with
  | Some sig => Ok (sig, f)
  | None =>
      let! tp := zindex (wasmTypes f) typeIndex in
      let! ins := appendTypes [] (Params tp) in
      let! outs := appendTypes [] (Results tp) in
      let sig := mkSignature (ins ++ [unsignedTypeI64]) outs in
      Ok (sig, mkSigCache (directCalls f) (indirectCalls f)
                 (<[Z.to_nat typeIndex := Some sig]> (callRefCalls f)) (wasmTypes f))
  end.

(** ** The compiler's state

    The fields that the operand stack depends on. *)
Record compiler := mkCompiler {
  c_stack : list unsignedType;
  c_stackLenInUint64 : Z;
  c_unreachable : bool;
  c_pc : Z;
  c_body : list Z;
  c_sig : FunctionType;
  c_localTypes : list ValueType;
  c_funcs : list Index;
  c_globals : list GlobalType;
  c_funcTypeToSigs : funcTypeToIRSignatures;
}.

Definition set_c_stack (st : list unsignedType) (n : Z) (c : compiler) : compiler :=
  mkCompiler st n (c_unreachable c) (c_pc c) (c_body c) (c_sig c) (c_localTypes c) (c_funcs c) (c_globals c)
    (c_funcTypeToSigs c).
Definition set_c_pc (p : Z) (c : compiler) : compiler :=
  mkCompiler (c_stack c) (c_stackLenInUint64 c) (c_unreachable c) p (c_body c) (c_sig c) (c_localTypes c)
    (c_funcs c) (c_globals c) (c_funcTypeToSigs c).
Definition set_c_sigs (f : funcTypeToIRSignatures) (c : compiler) : compiler :=
  mkCompiler (c_stack c) (c_stackLenInUint64 c) (c_unreachable c) (c_pc c) (c_body c) (c_sig c) (c_localTypes c)
    (c_funcs c) (c_globals c) f.

(** The 64-bit slots of one operand: [1 + int(unsignedTypeV128&ts>>2)]. *)
Definition slots (ts : unsignedType) : Z := 1 + Z.shiftr (Z.land unsignedTypeV128 ts) 2.

Definition stackPop (c : compiler) : res (unsignedType * compiler) :=
  match c_stack c with
  | [] => Panic "index out of range"
  | ret :: st => Ok (ret, set_c_stack st (c_stackLenInUint64 c - slots ret) c)
  end.

Definition stackPush (ts : unsignedType) (c : compiler) : compiler :=
  set_c_stack (ts :: c_stack c) (c_stackLenInUint64 c + slots ts) c.

(** ** wasmOpcodeSignature *)

(** The sub-switches over the second byte of a prefixed instruction. *)
Definition miscSignature (miscOp : Z) : res signature :=
  if one_of miscOp [OpcodeMiscI32TruncSatF32S; OpcodeMiscI32TruncSatF32U]
       then Ok signature_F32_I32
  else if one_of miscOp [OpcodeMiscI32TruncSatF64S; OpcodeMiscI32TruncSatF64U]
       then Ok signature_F64_I32
  else if one_of miscOp [OpcodeMiscI64TruncSatF32S; OpcodeMiscI64TruncSatF32U]
       then Ok signature_F32_I64
  else if one_of miscOp [OpcodeMiscI64TruncSatF64S; OpcodeMiscI64TruncSatF64U]
       then Ok signature_F64_I64
  else if one_of miscOp [OpcodeMiscMemoryInit; OpcodeMiscMemoryCopy; OpcodeMiscMemoryFill; OpcodeMiscTableInit;
    OpcodeMiscTableCopy]
       then Ok signature_I32I32I32_None
  else if one_of miscOp [OpcodeMiscDataDrop; OpcodeMiscElemDrop]
       then Ok signature_None_None
  else if miscOp =? OpcodeMiscTableGrow then Ok signature_I64I32_I32
  else if miscOp =? OpcodeMiscTableSize then Ok signature_None_I32
  else if miscOp =? OpcodeMiscTableFill then Ok signature_I32I64I32_None
  else Err "unsupported misc instruction in interpreterir".

Definition vecSignature (vecOp : Z) : res signature :=
  if vecOp =? OpcodeVecV128Const then Ok signature_None_V128
  else if one_of vecOp [OpcodeVecV128Load; OpcodeVecV128Load8x8s; OpcodeVecV128Load8x8u;
    OpcodeVecV128Load16x4s; OpcodeVecV128Load16x4u; OpcodeVecV128Load32x2s; OpcodeVecV128Load32x2u;
    OpcodeVecV128Load8Splat; OpcodeVecV128Load16Splat; OpcodeVecV128Load32Splat; OpcodeVecV128Load64Splat;
    OpcodeVecV128Load32zero; OpcodeVecV128Load64zero]
       then Ok signature_I32_V128
  else if one_of vecOp [OpcodeVecV128Load8Lane; OpcodeVecV128Load16Lane; OpcodeVecV128Load32Lane;
    OpcodeVecV128Load64Lane]
       then Ok signature_I32V128_V128
  else if one_of vecOp [OpcodeVecV128Store; OpcodeVecV128Store8Lane; OpcodeVecV128Store16Lane;
    OpcodeVecV128Store32Lane; OpcodeVecV128Store64Lane]
       then Ok signature_I32V128_None
  else if one_of vecOp [OpcodeVecI8x16ExtractLaneS; OpcodeVecI8x16ExtractLaneU; OpcodeVecI16x8ExtractLaneS;
    OpcodeVecI16x8ExtractLaneU; OpcodeVecI32x4ExtractLane]
       then Ok signature_V128_I32
  else if vecOp =? OpcodeVecI64x2ExtractLane then Ok signature_V128_I64
  else if vecOp =? OpcodeVecF32x4ExtractLane then Ok signature_V128_F32
  else if vecOp =? OpcodeVecF64x2ExtractLane then Ok signature_V128_F64
  else if one_of vecOp [OpcodeVecI8x16ReplaceLane; OpcodeVecI16x8ReplaceLane; OpcodeVecI32x4ReplaceLane;
    OpcodeVecI8x16Shl; OpcodeVecI8x16ShrS; OpcodeVecI8x16ShrU; OpcodeVecI16x8Shl; OpcodeVecI16x8ShrS;
    OpcodeVecI16x8ShrU; OpcodeVecI32x4Shl; OpcodeVecI32x4ShrS; OpcodeVecI32x4ShrU; OpcodeVecI64x2Shl;
    OpcodeVecI64x2ShrS; OpcodeVecI64x2ShrU]
       then Ok signature_V128I32_V128
  else if vecOp =? OpcodeVecI64x2ReplaceLane then Ok signature_V128I64_V128
  else if vecOp =? OpcodeVecF32x4ReplaceLane then Ok signature_V128F32_V128
  else if vecOp =? OpcodeVecF64x2ReplaceLane then Ok signature_V128F64_V128
  else if one_of vecOp [OpcodeVecI8x16Splat; OpcodeVecI16x8Splat; OpcodeVecI32x4Splat]
       then Ok signature_I32_V128
  else if vecOp =? OpcodeVecI64x2Splat then Ok signature_I64_V128
  else if vecOp =? OpcodeVecF32x4Splat then Ok signature_F32_V128
  else if vecOp =? OpcodeVecF64x2Splat then Ok signature_F64_V128
  else if one_of vecOp [OpcodeVecV128i8x16Shuffle; OpcodeVecI8x16Swizzle; OpcodeVecV128And; OpcodeVecV128Or;
    OpcodeVecV128Xor; OpcodeVecV128AndNot]
       then Ok signature_V128V128_V128
  else if one_of vecOp [OpcodeVecI8x16AllTrue; OpcodeVecI16x8AllTrue; OpcodeVecI32x4AllTrue;
    OpcodeVecI64x2AllTrue; OpcodeVecV128AnyTrue; OpcodeVecI8x16BitMask; OpcodeVecI16x8BitMask;
    OpcodeVecI32x4BitMask; OpcodeVecI64x2BitMask]
       then Ok signature_V128_I32
  else if one_of vecOp [OpcodeVecV128Not; OpcodeVecI8x16Neg; OpcodeVecI16x8Neg; OpcodeVecI32x4Neg;
    OpcodeVecI64x2Neg; OpcodeVecF32x4Neg; OpcodeVecF64x2Neg; OpcodeVecF32x4Sqrt; OpcodeVecF64x2Sqrt;
    OpcodeVecI8x16Abs; OpcodeVecI8x16Popcnt; OpcodeVecI16x8Abs; OpcodeVecI32x4Abs; OpcodeVecI64x2Abs;
    OpcodeVecF32x4Abs; OpcodeVecF64x2Abs; OpcodeVecF32x4Ceil; OpcodeVecF32x4Floor; OpcodeVecF32x4Trunc;
    OpcodeVecF32x4Nearest; OpcodeVecF64x2Ceil; OpcodeVecF64x2Floor; OpcodeVecF64x2Trunc; OpcodeVecF64x2Nearest;
    OpcodeVecI16x8ExtendLowI8x16S; OpcodeVecI16x8ExtendHighI8x16S; OpcodeVecI16x8ExtendLowI8x16U;
    OpcodeVecI16x8ExtendHighI8x16U; OpcodeVecI32x4ExtendLowI16x8S; OpcodeVecI32x4ExtendHighI16x8S;
    OpcodeVecI32x4ExtendLowI16x8U; OpcodeVecI32x4ExtendHighI16x8U; OpcodeVecI64x2ExtendLowI32x4S;
    OpcodeVecI64x2ExtendHighI32x4S; OpcodeVecI64x2ExtendLowI32x4U; OpcodeVecI64x2ExtendHighI32x4U;
    OpcodeVecI16x8ExtaddPairwiseI8x16S; OpcodeVecI16x8ExtaddPairwiseI8x16U; OpcodeVecI32x4ExtaddPairwiseI16x8S;
    OpcodeVecI32x4ExtaddPairwiseI16x8U; OpcodeVecF64x2PromoteLowF32x4Zero; OpcodeVecF32x4DemoteF64x2Zero;
    OpcodeVecF32x4ConvertI32x4S; OpcodeVecF32x4ConvertI32x4U; OpcodeVecF64x2ConvertLowI32x4S;
    OpcodeVecF64x2ConvertLowI32x4U; OpcodeVecI32x4TruncSatF32x4S; OpcodeVecI32x4TruncSatF32x4U;
    OpcodeVecI32x4TruncSatF64x2SZero; OpcodeVecI32x4TruncSatF64x2UZero]
       then Ok signature_V128_V128
  else if vecOp =? OpcodeVecV128Bitselect then Ok signature_V128V128V128_V32
  else if one_of vecOp [OpcodeVecI8x16Eq; OpcodeVecI8x16Ne; OpcodeVecI8x16LtS; OpcodeVecI8x16LtU;
    OpcodeVecI8x16GtS; OpcodeVecI8x16GtU; OpcodeVecI8x16LeS; OpcodeVecI8x16LeU; OpcodeVecI8x16GeS;
    OpcodeVecI8x16GeU; OpcodeVecI16x8Eq; OpcodeVecI16x8Ne; OpcodeVecI16x8LtS; OpcodeVecI16x8LtU;
    OpcodeVecI16x8GtS; OpcodeVecI16x8GtU; OpcodeVecI16x8LeS; OpcodeVecI16x8LeU; OpcodeVecI16x8GeS;
    OpcodeVecI16x8GeU; OpcodeVecI32x4Eq; OpcodeVecI32x4Ne; OpcodeVecI32x4LtS; OpcodeVecI32x4LtU;
    OpcodeVecI32x4GtS; OpcodeVecI32x4GtU; OpcodeVecI32x4LeS; OpcodeVecI32x4LeU; OpcodeVecI32x4GeS;
    OpcodeVecI32x4GeU; OpcodeVecI64x2Eq; OpcodeVecI64x2Ne; OpcodeVecI64x2LtS; OpcodeVecI64x2GtS;
    OpcodeVecI64x2LeS; OpcodeVecI64x2GeS; OpcodeVecF32x4Eq; OpcodeVecF32x4Ne; OpcodeVecF32x4Lt;
    OpcodeVecF32x4Gt; OpcodeVecF32x4Le; OpcodeVecF32x4Ge; OpcodeVecF64x2Eq; OpcodeVecF64x2Ne; OpcodeVecF64x2Lt;
    OpcodeVecF64x2Gt; OpcodeVecF64x2Le; OpcodeVecF64x2Ge; OpcodeVecI8x16Add; OpcodeVecI8x16AddSatS;
    OpcodeVecI8x16AddSatU; OpcodeVecI8x16Sub; OpcodeVecI8x16SubSatS; OpcodeVecI8x16SubSatU; OpcodeVecI16x8Add;
    OpcodeVecI16x8AddSatS; OpcodeVecI16x8AddSatU; OpcodeVecI16x8Sub; OpcodeVecI16x8SubSatS;
    OpcodeVecI16x8SubSatU; OpcodeVecI16x8Mul; OpcodeVecI32x4Add; OpcodeVecI32x4Sub; OpcodeVecI32x4Mul;
    OpcodeVecI64x2Add; OpcodeVecI64x2Sub; OpcodeVecI64x2Mul; OpcodeVecF32x4Add; OpcodeVecF32x4Sub;
    OpcodeVecF32x4Mul; OpcodeVecF32x4Div; OpcodeVecF64x2Add; OpcodeVecF64x2Sub; OpcodeVecF64x2Mul;
    OpcodeVecF64x2Div; OpcodeVecI8x16MinS; OpcodeVecI8x16MinU; OpcodeVecI8x16MaxS; OpcodeVecI8x16MaxU;
    OpcodeVecI8x16AvgrU; OpcodeVecI16x8MinS; OpcodeVecI16x8MinU; OpcodeVecI16x8MaxS; OpcodeVecI16x8MaxU;
    OpcodeVecI16x8AvgrU; OpcodeVecI32x4MinS; OpcodeVecI32x4MinU; OpcodeVecI32x4MaxS; OpcodeVecI32x4MaxU;
    OpcodeVecF32x4Min; OpcodeVecF32x4Max; OpcodeVecF64x2Min; OpcodeVecF64x2Max; OpcodeVecF32x4Pmin;
    OpcodeVecF32x4Pmax; OpcodeVecF64x2Pmin; OpcodeVecF64x2Pmax; OpcodeVecI16x8Q15mulrSatS;
    OpcodeVecI16x8ExtMulLowI8x16S; OpcodeVecI16x8ExtMulHighI8x16S; OpcodeVecI16x8ExtMulLowI8x16U;
    OpcodeVecI16x8ExtMulHighI8x16U; OpcodeVecI32x4ExtMulLowI16x8S; OpcodeVecI32x4ExtMulHighI16x8S;
    OpcodeVecI32x4ExtMulLowI16x8U; OpcodeVecI32x4ExtMulHighI16x8U; OpcodeVecI64x2ExtMulLowI32x4S;
    OpcodeVecI64x2ExtMulHighI32x4S; OpcodeVecI64x2ExtMulLowI32x4U; OpcodeVecI64x2ExtMulHighI32x4U;
    OpcodeVecI32x4DotI16x8S; OpcodeVecI8x16NarrowI16x8S; OpcodeVecI8x16NarrowI16x8U;
    OpcodeVecI16x8NarrowI32x4S; OpcodeVecI16x8NarrowI32x4U]
       then Ok signature_V128V128_V128
  else Err ("unsupported vector instruction in interpreterir: " +:+ VectorInstructionName vecOp).

Definition atomicSignature (atomicOp : Z) : res signature :=
  if atomicOp =? OpcodeAtomicMemoryNotify then Ok signature_I32I32_I32
  else if atomicOp =? OpcodeAtomicMemoryWait32 then Ok signature_I32I32I64_I32
  else if atomicOp =? OpcodeAtomicMemoryWait64 then Ok signature_I32I64I64_I32
  else if atomicOp =? OpcodeAtomicFence then Ok signature_None_None
  else if one_of atomicOp [OpcodeAtomicI32Load; OpcodeAtomicI32Load8U; OpcodeAtomicI32Load16U]
       then Ok signature_I32_I32
  else if one_of atomicOp [OpcodeAtomicI64Load; OpcodeAtomicI64Load8U; OpcodeAtomicI64Load16U;
    OpcodeAtomicI64Load32U]
       then Ok signature_I32_I64
  else if one_of atomicOp [OpcodeAtomicI32Store; OpcodeAtomicI32Store8; OpcodeAtomicI32Store16]
       then Ok signature_I32I32_None
  else if one_of atomicOp [OpcodeAtomicI64Store; OpcodeAtomicI64Store8; OpcodeAtomicI64Store16;
    OpcodeAtomicI64Store32]
       then Ok signature_I32I64_None
  else if one_of atomicOp [OpcodeAtomicI32RmwAdd; OpcodeAtomicI32RmwSub; OpcodeAtomicI32RmwAnd;
    OpcodeAtomicI32RmwOr; OpcodeAtomicI32RmwXor; OpcodeAtomicI32RmwXchg; OpcodeAtomicI32Rmw8AddU;
    OpcodeAtomicI32Rmw8SubU; OpcodeAtomicI32Rmw8AndU; OpcodeAtomicI32Rmw8OrU; OpcodeAtomicI32Rmw8XorU;
    OpcodeAtomicI32Rmw8XchgU; OpcodeAtomicI32Rmw16AddU; OpcodeAtomicI32Rmw16SubU; OpcodeAtomicI32Rmw16AndU;
    OpcodeAtomicI32Rmw16OrU; OpcodeAtomicI32Rmw16XorU; OpcodeAtomicI32Rmw16XchgU]
       then Ok signature_I32I32_I32
  else if one_of atomicOp [OpcodeAtomicI64RmwAdd; OpcodeAtomicI64RmwSub; OpcodeAtomicI64RmwAnd;
    OpcodeAtomicI64RmwOr; OpcodeAtomicI64RmwXor; OpcodeAtomicI64RmwXchg; OpcodeAtomicI64Rmw8AddU;
    OpcodeAtomicI64Rmw8SubU; OpcodeAtomicI64Rmw8AndU; OpcodeAtomicI64Rmw8OrU; OpcodeAtomicI64Rmw8XorU;
    OpcodeAtomicI64Rmw8XchgU; OpcodeAtomicI64Rmw16AddU; OpcodeAtomicI64Rmw16SubU; OpcodeAtomicI64Rmw16AndU;
    OpcodeAtomicI64Rmw16OrU; OpcodeAtomicI64Rmw16XorU; OpcodeAtomicI64Rmw16XchgU; OpcodeAtomicI64Rmw32AddU;
    OpcodeAtomicI64Rmw32SubU; OpcodeAtomicI64Rmw32AndU; OpcodeAtomicI64Rmw32OrU; OpcodeAtomicI64Rmw32XorU;
    OpcodeAtomicI64Rmw32XchgU]
       then Ok signature_I32I64_I64
  else if one_of atomicOp [OpcodeAtomicI32RmwCmpxchg; OpcodeAtomicI32Rmw8CmpxchgU; OpcodeAtomicI32Rmw16CmpxchgU]
       then Ok signature_I32I32I32_I32
  else if one_of atomicOp [OpcodeAtomicI64RmwCmpxchg; OpcodeAtomicI64Rmw8CmpxchgU;
    OpcodeAtomicI64Rmw16CmpxchgU; OpcodeAtomicI64Rmw32CmpxchgU]
       then Ok signature_I32I64I64_I64
  else Err ("unsupported atomic instruction in interpreterir: " +:+ AtomicInstructionName atomicOp).

(** The cases from [OpcodeI32Load] to [OpcodeRefNull], whose signature is fixed. *)
Definition fixedSignature (op : Z) : res signature :=
  if op =? OpcodeI32Load then Ok signature_I32_I32
  else if op =? OpcodeI64Load then Ok signature_I32_I64
  else if op =? OpcodeF32Load then Ok signature_I32_F32
  else if op =? OpcodeF64Load then Ok signature_I32_F64
  else if one_of op [OpcodeI32Load8S; OpcodeI32Load8U; OpcodeI32Load16S; OpcodeI32Load16U]
       then Ok signature_I32_I32
  else if one_of op [OpcodeI64Load8S; OpcodeI64Load8U; OpcodeI64Load16S; OpcodeI64Load16U; OpcodeI64Load32S;
    OpcodeI64Load32U]
       then Ok signature_I32_I64
  else if op =? OpcodeI32Store then Ok signature_I32I32_None
  else if op =? OpcodeI64Store then Ok signature_I32I64_None
  else if op =? OpcodeF32Store then Ok signature_I32F32_None
  else if op =? OpcodeF64Store then Ok signature_I32F64_None
  else if op =? OpcodeI32Store8 then Ok signature_I32I32_None
  else if op =? OpcodeI32Store16 then Ok signature_I32I32_None
  else if op =? OpcodeI64Store8 then Ok signature_I32I64_None
  else if op =? OpcodeI64Store16 then Ok signature_I32I64_None
  else if op =? OpcodeI64Store32 then Ok signature_I32I64_None
  else if op =? OpcodeMemorySize then Ok signature_None_I32
  else if op =? OpcodeMemoryGrow then Ok signature_I32_I32
  else if op =? OpcodeI32Const then Ok signature_None_I32
  else if op =? OpcodeI64Const then Ok signature_None_I64
  else if op =? OpcodeF32Const then Ok signature_None_F32
  else if op =? OpcodeF64Const then Ok signature_None_F64
  else if op =? OpcodeI32Eqz then Ok signature_I32_I32
  else if one_of op [OpcodeI32Eq; OpcodeI32Ne; OpcodeI32LtS; OpcodeI32LtU; OpcodeI32GtS; OpcodeI32GtU;
    OpcodeI32LeS; OpcodeI32LeU; OpcodeI32GeS; OpcodeI32GeU]
       then Ok signature_I32I32_I32
  else if op =? OpcodeI64Eqz then Ok signature_I64_I32
  else if one_of op [OpcodeI64Eq; OpcodeI64Ne; OpcodeI64LtS; OpcodeI64LtU; OpcodeI64GtS; OpcodeI64GtU;
    OpcodeI64LeS; OpcodeI64LeU; OpcodeI64GeS; OpcodeI64GeU]
       then Ok signature_I64I64_I32
  else if one_of op [OpcodeF32Eq; OpcodeF32Ne; OpcodeF32Lt; OpcodeF32Gt; OpcodeF32Le; OpcodeF32Ge]
       then Ok signature_F32F32_I32
  else if one_of op [OpcodeF64Eq; OpcodeF64Ne; OpcodeF64Lt; OpcodeF64Gt; OpcodeF64Le; OpcodeF64Ge]
       then Ok signature_F64F64_I32
  else if one_of op [OpcodeI32Clz; OpcodeI32Ctz; OpcodeI32Popcnt]
       then Ok signature_I32_I32
  else if one_of op [OpcodeI32Add; OpcodeI32Sub; OpcodeI32Mul; OpcodeI32DivS; OpcodeI32DivU; OpcodeI32RemS;
    OpcodeI32RemU; OpcodeI32And; OpcodeI32Or; OpcodeI32Xor; OpcodeI32Shl; OpcodeI32ShrS; OpcodeI32ShrU;
    OpcodeI32Rotl; OpcodeI32Rotr]
       then Ok signature_I32I32_I32
  else if one_of op [OpcodeI64Clz; OpcodeI64Ctz; OpcodeI64Popcnt]
       then Ok signature_I64_I64
  else if one_of op [OpcodeI64Add; OpcodeI64Sub; OpcodeI64Mul; OpcodeI64DivS; OpcodeI64DivU; OpcodeI64RemS;
    OpcodeI64RemU; OpcodeI64And; OpcodeI64Or; OpcodeI64Xor; OpcodeI64Shl; OpcodeI64ShrS; OpcodeI64ShrU;
    OpcodeI64Rotl; OpcodeI64Rotr]
       then Ok signature_I64I64_I64
  else if one_of op [OpcodeF32Abs; OpcodeF32Neg; OpcodeF32Ceil; OpcodeF32Floor; OpcodeF32Trunc;
    OpcodeF32Nearest; OpcodeF32Sqrt]
       then Ok signature_F32_F32
  else if one_of op [OpcodeF32Add; OpcodeF32Sub; OpcodeF32Mul; OpcodeF32Div; OpcodeF32Min; OpcodeF32Max;
    OpcodeF32Copysign]
       then Ok signature_F32F32_F32
  else if one_of op [OpcodeF64Abs; OpcodeF64Neg; OpcodeF64Ceil; OpcodeF64Floor; OpcodeF64Trunc;
    OpcodeF64Nearest; OpcodeF64Sqrt]
       then Ok signature_F64_F64
  else if one_of op [OpcodeF64Add; OpcodeF64Sub; OpcodeF64Mul; OpcodeF64Div; OpcodeF64Min; OpcodeF64Max;
    OpcodeF64Copysign]
       then Ok signature_F64F64_F64
  else if op =? OpcodeI32WrapI64 then Ok signature_I64_I32
  else if one_of op [OpcodeI32TruncF32S; OpcodeI32TruncF32U]
       then Ok signature_F32_I32
  else if one_of op [OpcodeI32TruncF64S; OpcodeI32TruncF64U]
       then Ok signature_F64_I32
  else if one_of op [OpcodeI64ExtendI32S; OpcodeI64ExtendI32U]
       then Ok signature_I32_I64
  else if one_of op [OpcodeI64TruncF32S; OpcodeI64TruncF32U]
       then Ok signature_F32_I64
  else if one_of op [OpcodeI64TruncF64S; OpcodeI64TruncF64U]
       then Ok signature_F64_I64
  else if one_of op [OpcodeF32ConvertI32S; OpcodeF32ConvertI32U]
       then Ok signature_I32_F32
  else if one_of op [OpcodeF32ConvertI64S; OpcodeF32ConvertI64U]
       then Ok signature_I64_F32
  else if op =? OpcodeF32DemoteF64 then Ok signature_F64_F32
  else if one_of op [OpcodeF64ConvertI32S; OpcodeF64ConvertI32U]
       then Ok signature_I32_F64
  else if one_of op [OpcodeF64ConvertI64S; OpcodeF64ConvertI64U]
       then Ok signature_I64_F64
  else if op =? OpcodeF64PromoteF32 then Ok signature_F32_F64
  else if op =? OpcodeI32ReinterpretF32 then Ok signature_F32_I32
  else if op =? OpcodeI64ReinterpretF64 then Ok signature_F64_I64
  else if op =? OpcodeF32ReinterpretI32 then Ok signature_I32_F32
  else if op =? OpcodeF64ReinterpretI64 then Ok signature_I64_F64
  else if one_of op [OpcodeI32Extend8S; OpcodeI32Extend16S]
       then Ok signature_I32_I32
  else if one_of op [OpcodeI64Extend8S; OpcodeI64Extend16S; OpcodeI64Extend32S]
       then Ok signature_I64_I64
  else if op =? OpcodeTableGet then Ok signature_I32_I64
  else if op =? OpcodeTableSet then Ok signature_I32I64_None
  else if op =? OpcodeRefFunc then Ok signature_None_I64
  else if op =? OpcodeRefIsNull then Ok signature_I64_I32
  else if op =? OpcodeRefNull then Ok signature_None_I64
  else Err "unsupported instruction in interpreterir".

(** The type of a local, after the range check. *)
Definition signatureLocalType (c : compiler) (index : Z) : res ValueType :=
  let inputLen := wrap32 (zlen (Params (c_sig c))) in
  if index >=? wrap32 (wrap32 (zlen (c_localTypes c)) + inputLen) then Err "invalid local index for local.get"
  else if index <? inputLen then zindex (Params (c_sig c)) index
  else zindex (c_localTypes c) (wrap32 (index - inputLen)).

Definition signatureGlobalType (c : compiler) (index : Z) : res ValueType :=
  if zlen (c_globals c) <=? index then Err "invalid global index for global.get"
  else let! g := zindex (c_globals c) index in Ok (ValType g).

(** A signature that leaves the compiler as it is. *)
Definition pureSig (c : compiler) (r : res signature) : res (signature * compiler) :=
  let! s := r in Ok (s, c).

Definition cachedSig (c : compiler) (r : res (signature * funcTypeToIRSignatures)) : res (signature * compiler) :=
  let! (s, f) := r in Ok (s, set_c_sigs f c).

Definition wasmOpcodeSignature (c : compiler) (op : Z) (index : Z) : res (signature * compiler) :=
  if one_of op [OpcodeUnreachable; OpcodeNop; OpcodeBlock; OpcodeLoop] then Ok (signature_None_None, c)
  else if op =? OpcodeIf then Ok (signature_I32_None, c)
  else if one_of op [OpcodeElse; OpcodeEnd; OpcodeBr] then Ok (signature_None_None, c)
  else if one_of op [OpcodeThrow; OpcodeThrowRef; OpcodeTryTable] then Ok (signature_None_None, c)
  else if one_of op [OpcodeBrIf; OpcodeBrTable] then Ok (signature_I32_None, c)
  else if op =? OpcodeReturn then Ok (signature_None_None, c)
  else if one_of op [OpcodeCall; OpcodeTailCallReturnCall] then
    let! t := zindex (c_funcs c) index in cachedSig c (get (c_funcTypeToSigs c) t false)
  else if one_of op [OpcodeCallIndirect; OpcodeTailCallReturnCallIndirect] then
    cachedSig c (get (c_funcTypeToSigs c) index true)
  else if one_of op [OpcodeCallRef; OpcodeReturnCallRef] then cachedSig c (getCallRef (c_funcTypeToSigs c) index)
  else if op =? OpcodeRefAsNonNull then Ok (signature_I64_I64, c)
  else if op =? OpcodeBrOnNull then Ok (signature_I64_None, c)
  else if op =? OpcodeBrOnNonNull then Ok (signature_I64_None, c)
  else if op =? OpcodeDrop then Ok (signature_Unknown_None, c)
  else if one_of op [OpcodeSelect; OpcodeTypedSelect] then Ok (signature_UnknownUnknownI32_Unknown, c)
  else if op =? OpcodeLocalGet then
    pureSig c (let! t := signatureLocalType c index in wasmValueTypeToUnsignedOutSignature t)
  else if op =? OpcodeLocalSet then
    pureSig c (let! t := signatureLocalType c index in wasmValueTypeToUnsignedInSignature t)
  else if op =? OpcodeLocalTee then
    pureSig c (let! t := signatureLocalType c index in wasmValueTypeToUnsignedInOutSignature t)
  else if op =? OpcodeGlobalGet then
    pureSig c (let! t := signatureGlobalType c index in wasmValueTypeToUnsignedOutSignature t)
  else if op =? OpcodeGlobalSet then
    pureSig c (let! t := signatureGlobalType c index in wasmValueTypeToUnsignedInSignature t)
  else if op =? OpcodeMiscPrefix then
    let! miscOp := zindex (c_body c) (c_pc c + 1) in pureSig c (miscSignature miscOp)
  else if op =? OpcodeVecPrefix then
    let! vecOp := zindex (c_body c) (c_pc c + 1) in pureSig c (vecSignature vecOp)
  else if op =? OpcodeAtomicPrefix then
    let! atomicOp := zindex (c_body c) (c_pc c + 1) in pureSig c (atomicSignature atomicOp)
  else pureSig c (fixedSignature op).

(** ** applyToStack *)

(** The loop over [s.in] from its last element: [rin] is the rest of it,
    [typeParam] the type found for [unsignedTypeUnknown]. *)
Fixpoint popInputs (rin : list unsignedType) (typeParam : option unsignedType) (c : compiler)
    : res (option unsignedType * compiler) :=
  match rin with
  | [] => Ok (typeParam, c)
  | want :: rin' =>
      let! (actual, c) := stackPop c in
      let '(want, typeParam) :=
        if want =? unsignedTypeUnknown then
          match typeParam with
          | Some t => (t, typeParam)
          | None => (actual, Some actual)
          end
        else (want, typeParam) in
      if negb (want =? actual) then
        Err ("input signature mismatch: want " +:+ unsignedTypeString want +:+ " but have "
             +:+ unsignedTypeString actual)
      else popInputs rin' typeParam c
  end.

Fixpoint pushOutputs (outs : list unsignedType) (typeParam : option unsignedType) (c : compiler) : res compiler :=
  match outs with
  | [] => Ok c
  | target :: outs' =>
      if target =? unsignedTypeUnknown then
        match typeParam with
        | None => Err "cannot determine type of unknown result"
        | Some t => pushOutputs outs' typeParam (stackPush t c)
        end
      else pushOutputs outs' typeParam (stackPush target c)
  end.

Definition applySignature (s : signature) (c : compiler) : res compiler :=
  let! (typeParam, c) := popInputs (reverse (sig_in s)) None c in
  pushOutputs (sig_out s) typeParam c.

(** The opcodes whose immediate index affects the signature. *)
Definition indexedOpcode (opcode : Z) : bool :=
  one_of opcode [OpcodeCall; OpcodeCallIndirect; OpcodeLocalGet; OpcodeLocalSet; OpcodeLocalTee; OpcodeGlobalGet;
    OpcodeGlobalSet; OpcodeTailCallReturnCall; OpcodeTailCallReturnCallIndirect; OpcodeThrow; OpcodeCallRef;
    OpcodeReturnCallRef].

(** Returns the index, zero when there is none, and the compiler. *)
Definition applyToStack (c : compiler) (opcode : Z) : res (Z * compiler) :=
  let! (index, c) :=
    if indexedOpcode opcode then
      let! b := zslice (c_body c) (c_pc c + 1) in
      let! (v, num) := errorf "reading immediates" (LoadUint32 b) in
      Ok (v, set_c_pc (c_pc c + num) c)
    else Ok (0, c) in
  if c_unreachable c then Ok (0, c)
  else
    let! (s, c) := wasmOpcodeSignature c opcode index in
    let! c := applySignature s c in
    Ok (index, c).
