(* ===== verification/SignatureAgree.v ===== *)
(** * The compiler's operand stack follows the validator's

    [validateInstruction] (func_validation.go) and [applyToStack]
    (interpreter/compiler.go) each simulate the operand stack, the first with
    value types, the second with the coarser [unsignedType]s and without bound
    checks.  This file relates the two: on every instruction that is not
    structured control, in reachable code, when the validator accepts then the
    compiler's step succeeds and its stack is again the image of the
    validator's.

    [effect m ins outs Q] is the part of a validator operation that matters:
    it replaces operands [ins] (top first) by [outs] and returns a value in [Q]. *)

From S2P Require Import Prelude Leb128 Features Opcodes Types ValStack Validate ValidateSafe Signature.

(** ** Images of value types *)

Definition image (v : ValueType) (u : unsignedType) : Prop := wasmValueTypeTounsignedType v = Ok u.
Definition mirrors : list ValueType -> list unsignedType -> Prop := Forall2 image.

(** The signature cases of the four translations of a value type agree. *)
Lemma image_cases v u :
  image v u ->
  wasmValueTypeToUnsignedOutSignature v = Ok (mkSignature [] [u]) /\
  wasmValueTypeToUnsignedInSignature v = Ok (mkSignature [u] []) /\
  wasmValueTypeToUnsignedInOutSignature v = Ok (mkSignature [u] [u]) /\
  u <> unsignedTypeUnknown.
Proof.
  unfold image, wasmValueTypeTounsignedType, wasmValueTypeToUnsignedOutSignature,
    wasmValueTypeToUnsignedInSignature, wasmValueTypeToUnsignedInOutSignature.
  repeat (case_match; [intros [= <-]; done|]). done.
Qed.

Lemma image_not_unknown v u : image v u -> (v =? valueTypeUnknown) = false.
Proof. intros H. apply Z.eqb_neq. intros ->. discriminate H. Qed.

Lemma image_inj v u u' : image v u -> image v u' -> u = u'.
Proof. unfold image. congruence. Qed.

Lemma IsRef_image v : IsRef v = true -> image v unsignedTypeI64.
Proof.
  intros H. unfold image, wasmValueTypeTounsignedType. rewrite H.
  assert (forall t, IsRef t = false -> (v =? t) = false) as N.
  { intros t Ht. apply Z.eqb_neq. intros ->. congruence. }
  rewrite !(N ValueTypeI32), !(N ValueTypeF32), !(N ValueTypeF64), !(N ValueTypeV128) by reflexivity.
  by destruct (one_of _ _).
Qed.

Lemma IsConcreteRef_IsRef v : IsConcreteRef v = true -> IsRef v = true.
Proof. unfold IsConcreteRef, IsRef. intros ->. apply orb_true_r. Qed.

Lemma Kind_AsNullable v : Kind (AsNullable v) = Kind v.
Proof.
  unfold Kind, AsNullable, wrap8, flagNonNullable. rewrite <- !Z.land_ones by lia.
  apply Z.bits_inj'; intros n Hn. rewrite !Z.land_spec, Z.ldiff_spec.
  destruct (Z.lt_ge_cases n 8).
  - rewrite Z.shiftl_spec_low by lia. by rewrite andb_true_r.
  - rewrite Z.ones_spec_high by lia. by rewrite !andb_false_r.
Qed.

Lemma concrete_AsNullable v : Z.land (AsNullable v) flagConcreteRef = Z.land v flagConcreteRef.
Proof.
  unfold AsNullable. apply Z.bits_inj'; intros n Hn. rewrite !Z.land_spec, Z.ldiff_spec.
  destruct (decide (n = 9)) as [->|].
  - change (Z.testbit flagNonNullable 9) with false. by rewrite andb_true_r.
  - replace (Z.testbit flagConcreteRef n) with false; [by rewrite !andb_false_r|].
    unfold flagConcreteRef. rewrite Z.shiftl_spec by lia. symmetry.
    destruct (Z.lt_ge_cases (n - 9) 0); [by apply Z.testbit_neg_r|].
    change 1 with (2 ^ 0). rewrite Z.pow2_bits_false by lia. done.
Qed.

Lemma IsRef_AsNullable v : IsRef (AsNullable v) = IsRef v.
Proof. unfold IsRef. by rewrite Kind_AsNullable, concrete_AsNullable. Qed.

Lemma IsNullable_IsRef v : IsNullable v = true -> IsRef v = true.
Proof. unfold IsNullable. by intros [??]%andb_true_iff. Qed.

Lemma subtype_refs m a e : isRefSubtypeOf m a e = Ok true -> a = e \/ (IsRef a = true /\ IsRef e = true).
Proof.
  unfold isRefSubtypeOf. destruct (a =? e) eqn:E; [bools; by left|].
  destruct (_ && IsNullable e) eqn:E1.
  { intros _. right. bools. apply IsNullable_IsRef in H0. split; [|done].
    by rewrite <- IsRef_AsNullable, H, IsRef_AsNullable. }
  destruct (IsConcreteRef a && IsConcreteRef e) eqn:E2.
  { intros _. right. bools. auto using IsConcreteRef_IsRef. }
  destruct (IsConcreteRef a && _ && _) eqn:E3; [|done].
  intros _. right. bools. split; [by apply IsConcreteRef_IsRef|].
  unfold IsRef. rewrite H0. by rewrite Z.eqb_refl.
Qed.

Lemma subtype_image m a e u : isRefSubtypeOf m a e = Ok true -> image a u <-> image e u.
Proof.
  intros [->|[Ha He]]%subtype_refs; [done|].
  apply IsRef_image in Ha, He. unfold image in *. rewrite Ha, He. done.
Qed.

Lemma compatible_image m a e u : areRefTypesCompatible m a e = Ok true -> image a u <-> image e u.
Proof.
  unfold areRefTypesCompatible. destruct (isRefSubtypeOf m a e) as [[]|?|?] eqn:E; simpl; try done.
  - intros _. by eapply subtype_image.
  - intros H. symmetry. by eapply subtype_image.
Qed.

(** ** Effects of validator operations *)

Definition effect {A} (m : M A) (ins outs : list unsignedType) (Q : A -> Prop) : Prop :=
  forall s a s' us, mirrors (stack s) us -> m s = Ok (a, s') ->
    exists us0, us = ins ++ us0 /\ mirrors (stack s') (outs ++ us0) /\ Q a.

(** Operations that leave the stack as it is. *)
Definition neutral {A} (m : M A) (Q : A -> Prop) : Prop :=
  forall s a s', m s = Ok (a, s') -> stack s' = stack s /\ Q a.

Abbreviation any := (fun _ => True).

Lemma bind_Ok {A B} (m : M A) (k : A -> M B) s b s' :
  (m ≫= k) s = Ok (b, s') -> exists a s1, m s = Ok (a, s1) /\ k a s1 = Ok (b, s').
Proof.
  unfold mbind, M_bind. intros ([a s1] & H1 & H2)%res_bind_Ok. eauto.
Qed.

Lemma wrap_Ok {A} p (m : M A) s r : wrap p m s = Ok r -> m s = Ok r.
Proof. unfold wrap. by destruct (m s). Qed.

Lemma failAs_Ok {A} p (m : M A) s r : failAs p m s = Ok r -> m s = Ok r.
Proof. unfold failAs. by destruct (m s). Qed.

Lemma neutral_bind {A B} (m : M A) (k : A -> M B) (Q : A -> Prop) (R : B -> Prop) :
  neutral m Q -> (forall a, Q a -> neutral (k a) R) -> neutral (m ≫= k) R.
Proof.
  intros Hm Hk s b s' (a & s1 & H1 & H2)%bind_Ok. destruct (Hm _ _ _ H1) as [<- Ha].
  by apply (Hk a Ha).
Qed.

Lemma neutral_run {A B} (m : M A) (k : A -> M B) s b s' Q :
  (m ≫= k) s = Ok (b, s') -> neutral m Q -> exists a s1, Q a /\ stack s1 = stack s /\ k a s1 = Ok (b, s').
Proof. intros (a & s1 & H1 & H2)%bind_Ok Hm. destruct (Hm _ _ _ H1). eauto. Qed.

Lemma neutral_ret {A} (a : A) (Q : A -> Prop) : Q a -> neutral (mret a) Q.
Proof. by intros H s b s' [= <- <-]. Qed.

Lemma neutral_fail {A} msg (Q : A -> Prop) : neutral (fail msg) Q.
Proof. done. Qed.

Lemma neutral_wrap {A} p (m : M A) Q : neutral m Q -> neutral (wrap p m) Q.
Proof. intros Hm s a s' H%wrap_Ok. eauto. Qed.

Lemma neutral_failAs {A} p (m : M A) Q : neutral m Q -> neutral (failAs p m) Q.
Proof. intros Hm s a s' H%failAs_Ok. eauto. Qed.

Lemma neutral_gets {A} (f : stacks -> A) : neutral (gets f) any.
Proof. by intros s a s' [= _ <-]. Qed.

Lemma neutral_lift {A} (r : res A) (Q : A -> Prop) : (forall a, r = Ok a -> Q a) -> neutral (lift r) Q.
Proof. intros H s a s'. unfold lift. destruct r; simpl; [|done|done]. intros [= -> ->]. auto. Qed.

Lemma neutral_advance n : neutral (advance n) any.
Proof. by intros s a s' [= _ <-]. Qed.

Lemma neutral_guard b msg : neutral (guard_ b msg) (fun _ => b = true).
Proof. destruct b; [by apply neutral_ret|done]. Qed.

Lemma neutral_weaken {A} (m : M A) (Q R : A -> Prop) : neutral m Q -> (forall a, Q a -> R a) -> neutral m R.
Proof. intros Hm HQ s a s' H. destruct (Hm _ _ _ H). auto. Qed.

Lemma neutral_any {A} (m : M A) Q : neutral m Q -> neutral m any.
Proof. intros Hm. eapply neutral_weaken; [done|done]. Qed.

Lemma neutral_effect {A} (m : M A) Q : neutral m Q -> effect m [] [] Q.
Proof. intros Hm s a s' us Hu H. destruct (Hm _ _ _ H) as [-> ?]. by exists us. Qed.

Lemma effect_neutral_bind {A B} (m : M A) (k : A -> M B) (Q : A -> Prop) ins outs R :
  neutral m Q -> (forall a, Q a -> effect (k a) ins outs R) -> effect (m ≫= k) ins outs R.
Proof.
  intros Hm Hk s b s' us Hu (a & s1 & H1 & H2)%bind_Ok. destruct (Hm _ _ _ H1) as [E Ha].
  rewrite <- E in Hu. by eapply Hk.
Qed.

(** Operands are popped first ... *)
Lemma effect_pop_bind {A B} (m : M A) (k : A -> M B) (Q : A -> Prop) i1 i2 outs R :
  effect m i1 [] Q -> (forall a, Q a -> effect (k a) i2 outs R) -> effect (m ≫= k) (i1 ++ i2) outs R.
Proof.
  intros Hm Hk s b s' us Hu (a & s1 & H1 & H2)%bind_Ok.
  destruct (Hm _ _ _ _ Hu H1) as (us1 & -> & Hu1 & Ha). simpl in Hu1.
  destruct (Hk a Ha _ _ _ _ Hu1 H2) as (us2 & -> & Hu2 & Hb).
  exists us2. by rewrite <- app_assoc.
Qed.

(** ... then the results are pushed. *)
Lemma effect_push_bind {A B} (m : M A) (k : A -> M B) (Q : A -> Prop) ins o1 o2 R :
  effect m ins o1 Q -> (forall a, Q a -> effect (k a) [] o2 R) -> effect (m ≫= k) ins (o2 ++ o1) R.
Proof.
  intros Hm Hk s b s' us Hu (a & s1 & H1 & H2)%bind_Ok.
  destruct (Hm _ _ _ _ Hu H1) as (us1 & -> & Hu1 & Ha).
  destruct (Hk a Ha _ _ _ _ Hu1 H2) as (us2 & E & Hu2 & Hb). simpl in E. subst us2.
  exists us1. by rewrite <- app_assoc.
Qed.

Lemma effect_bind_neutral {A B} (m : M A) (k : A -> M B) ins outs :
  effect m ins outs any -> (forall a, neutral (k a) any) -> effect (m ≫= k) ins outs any.
Proof.
  intros Hm Hk. apply (effect_push_bind _ _ any ins outs []); [done|]. intros a _. apply neutral_effect, Hk.
Qed.

Lemma effect_wrap {A} p (m : M A) ins outs Q : effect m ins outs Q -> effect (wrap p m) ins outs Q.
Proof. intros Hm s a s' us Hu H%wrap_Ok. eauto. Qed.

Lemma effect_failAs {A} p (m : M A) ins outs Q : effect m ins outs Q -> effect (failAs p m) ins outs Q.
Proof. intros Hm s a s' us Hu H%failAs_Ok. eauto. Qed.

Lemma effect_fail {A} msg ins outs (Q : A -> Prop) : effect (fail msg) ins outs Q.
Proof. done. Qed.

Lemma effect_weaken {A} (m : M A) ins outs (Q R : A -> Prop) :
  effect m ins outs Q -> (forall a, Q a -> R a) -> effect m ins outs R.
Proof. intros Hm HQ s a s' us Hu H. destruct (Hm _ _ _ _ Hu H) as (us0 & ? & ? & ?). eauto. Qed.

(** *** The primitives *)

Lemma tryPop_mirror s v limit s' us :
  mirrors (stack s) us -> tryPop s = Ok ((v, limit, true), s') ->
  exists u us0, us = u :: us0 /\ image v u /\ mirrors (stack s') us0.
Proof.
  unfold tryPop. intros Hu. destruct (_ <=? _); [done|].
  destruct (stack s) as [|w st] eqn:E; [done|]. apply Forall2_cons_inv_l in Hu as (u & us0 & Hw & Hst & ->).
  rewrite (image_not_unknown _ _ Hw), andb_false_r. intros [= <- _ <-]. simpl. eauto.
Qed.

Lemma popT_effect m e u : image e u -> effect (popAndVerifyType m e) [u] [] any.
Proof.
  intros He s [] s' us Hu ([[have limit] ok] & s1 & H1 & H2)%bind_Ok.
  destruct ok; [|done]. destruct (tryPop_mirror _ _ _ _ _ Hu H1) as (w & us0 & -> & Hw & Hs1).
  simpl in H2. rewrite (image_not_unknown _ _ He), (image_not_unknown _ _ Hw) in H2. simpl in H2.
  apply bind_Ok in H2 as (b & s2 & Hb & H2). unfold lift in Hb.
  destruct (isRefSubtypeOf m have e) as [b'|?|?] eqn:Es; simpl in Hb; try done. injection Hb as -> ->.
  destruct b; [|done]. injection H2 as <-. exists us0. split_and!; [|done|done].
  rewrite (subtype_image _ _ _ _ Es) in Hw. by rewrite (image_inj _ _ _ Hw He).
Qed.

Lemma push_effect v u : image v u -> effect (push v) [] [u] any.
Proof.
  intros Hv s [] s' us Hu H. exists us. split_and!; [done| |done].
  unfold push in H. destruct (_ >? _); injection H as <-; by constructor.
Qed.

(** What an untyped [pop] finds. *)
Lemma pop_mirror s v s' us :
  mirrors (stack s) us -> pop s = Ok (v, s') ->
  exists u us0, us = u :: us0 /\ image v u /\ mirrors (stack s') us0.
Proof.
  intros Hu ([[have limit] ok] & s1 & H1 & H2)%bind_Ok. destruct ok; [|done]. injection H2 as <- <-.
  by eapply tryPop_mirror.
Qed.

Lemma popAll_effect m f l us :
  (forall (n : M unit) i, effect n i [] any -> effect (f n) i [] any) ->
  mirrors l us -> effect (popAll m f l) us [] any.
Proof.
  intros Hf. induction 1 as [|v u l us Hv Hl IH]; simpl; [by apply neutral_effect, neutral_ret|].
  apply (effect_pop_bind _ _ any [u] us); [by apply Hf, popT_effect|done].
Qed.

Lemma pushAll_effect l us : mirrors l us -> effect (pushAll l) [] (reverse us) any.
Proof.
  induction 1 as [|v u l us Hv Hl IH]; simpl; [by apply neutral_effect, neutral_ret|].
  rewrite reverse_cons. apply (effect_push_bind _ _ any [] [u]); [by apply push_effect|done].
Qed.

(** *** Automation

    [neut] proves that a reader of immediates does not touch the stack; [eff]
    runs an effect with known operands and results. *)

Create HintDb neutral.
#[export] Hint Resolve neutral_gets neutral_advance : neutral.

Ltac neut1 :=
  match goal with
  | |- neutral (mbind _ _) _ => apply (neutral_bind _ _ any)
  | |- neutral (mret _) _ => by apply neutral_ret
  | |- neutral (fail _) _ => apply neutral_fail
  | |- neutral (wrap _ _) _ => apply neutral_wrap
  | |- neutral (failAs _ _) _ => apply neutral_failAs
  | |- neutral (guard_ _ _) _ => by eapply neutral_any, neutral_guard
  | |- neutral (lift _) _ => by apply neutral_lift
  | |- neutral (if ?b then _ else _) _ => destruct b
  | |- neutral (match ?x with _ => _ end) _ => destruct x
  | |- neutral _ _ => solve [eauto with neutral]
  end.
Ltac neut := repeat (intros; neut1).

Ltac eff1 :=
  match goal with
  | |- effect (match ?x with pair _ _ => _ end) _ _ _ => destruct x
  | |- effect (if ?b then ?x else ?y) ?i ?o ?q =>
      let b' := eval vm_compute in b in
      lazymatch b' with
      | true => change (effect x i o q)
      | false => change (effect y i o q)
      end
  | |- effect (mbind _ (popAll _ _ [])) _ _ _ => apply (effect_pop_bind _ _ any [])
  | |- effect (mbind _ (popAll _ _ [_; _])) _ _ _ => eapply (effect_pop_bind _ _ any [_; _])
  | |- effect (mbind _ (popAll _ _ [_; _; _])) _ _ _ => eapply (effect_pop_bind _ _ any [_; _; _])
  | |- effect (mbind _ _) _ _ _ =>
      first [ apply (effect_neutral_bind _ _ any); [solve [neut]|]
            | apply effect_bind_neutral; [|solve [neut]]
            | eapply (effect_pop_bind _ _ any [_]) ]
  | |- effect (wrap _ _) _ _ _ => apply effect_wrap
  | |- effect (failAs _ _) _ _ _ => apply effect_failAs
  | |- effect (fail _) _ _ _ => apply effect_fail
  | |- effect (popAndVerifyType _ _) _ _ _ => apply popT_effect
  | |- effect (push _) _ _ _ => apply push_effect
  | |- effect (popAll _ _ _) _ _ _ => apply popAll_effect; [by auto using effect_wrap|]
  | |- effect (pushAll [_]) _ _ _ => apply (pushAll_effect _ [_])
  | |- effect (pushAll []) _ _ _ => apply (pushAll_effect _ [])
  | |- effect _ [] [] _ => solve [apply neutral_effect; neut]
  | |- mirrors _ _ => repeat constructor
  | |- image _ _ => done
  end.
Ltac eff := repeat (intros; eff1).

(** *** Case analysis on opcodes *)

Lemma one_of_elim (P : Z -> Prop) x l : one_of x l = true -> Forall P l -> P x.
Proof.
  unfold one_of. rewrite existsb_exists. intros (y & Hy & ->%Z.eqb_eq) HP.
  rewrite Forall_forall in HP. apply HP, list_elem_of_In, Hy.
Qed.

Lemma one_of_cons x y l : one_of x (y :: l) = true -> x = y \/ one_of x l = true.
Proof. unfold one_of. simpl. intros [?%Z.eqb_eq|?]%orb_true_iff; auto. Qed.

(** An opcode range, element by element. *)
Lemma between_one_of lo x hi :
  between lo x hi = true -> one_of x (map (fun i => lo + Z.of_nat i) (seq 0 (Z.to_nat (hi - lo + 1)))) = true.
Proof.
  unfold between. intros H. bools. unfold one_of. apply existsb_exists. exists x. split; [|apply Z.eqb_refl].
  apply in_map_iff. exists (Z.to_nat (x - lo)). rewrite in_seq. lia.
Qed.

Ltac split_one_of H :=
  lazymatch type of H with
  | one_of ?x ?l = true => let l' := eval vm_compute in l in change (one_of x l' = true) in H
  end;
  repeat (apply one_of_cons in H as [->|H]); [..|discriminate H].

Section Handlers.
Context (m : Module) (enabledFeatures : CoreFeatures) (functions : list Index) (globals : list GlobalType)
  (memory : option Memory) (tables : list Table) (declaredFunctionIndexes : gset Z)
  (functionType : FunctionType) (localTypes : list ValueType) (body : list Z).
Context (tables_ref : Forall (fun t => IsRef (TableType t) = true) tables).

Lemma loadU32_neutral msg : neutral (loadU32 body msg) any.
Proof. unfold loadU32, bodyFrom. neut. Qed.
Lemma bodyFrom_neutral d : neutral (bodyFrom body d) any.
Proof. unfold bodyFrom. neut. Qed.
Lemma bodyAt_neutral : neutral (bodyAt body) any.
Proof. unfold bodyAt. neut. Qed.
Lemma memArg_neutral : neutral (memArg body) any.
Proof. unfold memArg. neut. Qed.
Lemma invalidAs_neutral n f : neutral (invalidAs enabledFeatures n f) any.
Proof. unfold invalidAs, requireEnabled. neut. Qed.
Lemma requireEnabled_neutral f : neutral (requireEnabled enabledFeatures f) any.
Proof. unfold requireEnabled. neut. Qed.
Lemma memoryMustExist_neutral n : neutral (memoryMustExist memory n) any.
Proof. unfold memoryMustExist. neut. Qed.
Lemma checkAlign_neutral a b : neutral (checkAlign a b) any.
Proof. unfold checkAlign. neut. Qed.
Hint Resolve loadU32_neutral bodyFrom_neutral bodyAt_neutral memArg_neutral invalidAs_neutral
  requireEnabled_neutral memoryMustExist_neutral checkAlign_neutral : neutral.

Lemma readU32_neutral msg : neutral (readU32 body msg) any.
Proof. unfold readU32. neut. Qed.
Hint Resolve readU32_neutral : neutral.

(** *** Memory, constants, numeric instructions *)

Lemma memLoad_effect align max t u : image t u -> effect (memLoad m align max t) [unsignedTypeI32] [u] any.
Proof. intros Ht. unfold memLoad. eff. Qed.
Lemma memStore_effect align max t u :
  image t u -> effect (memStore m align max t) [u; unsignedTypeI32] [] any.
Proof. intros Ht. unfold memStore. eff. Qed.
Lemma unop_effect msg op t r ut ur :
  image t ut -> image r ur -> effect (unop m msg op t r) [ut] [ur] any.
Proof. intros Ht Hr. unfold unop, popFor. eff. Qed.
Lemma binop_effect kind op t r ut ur :
  image t ut -> image r ur -> effect (binop m kind op t r) [ut; ut] [ur] any.
Proof. intros Ht Hr. unfold binop, popFor. eff. Qed.
Lemma popVec_effect op t u : image t u -> effect (popVec m op t) [u] [] any.
Proof. intros Ht. unfold popVec. eff. Qed.
Lemma vecOperands_effect op n :
  effect (vecOperands m op n) (replicate n unsignedTypeV128) [unsignedTypeV128] any.
Proof.
  unfold vecOperands. rewrite <- (app_nil_r (replicate n unsignedTypeV128)).
  apply (effect_pop_bind _ _ any); [|eff]. apply popAll_effect; [by auto using effect_wrap|].
  induction n; simpl; by constructor.
Qed.
Lemma atomicOp_effect align max pops pushes ips ops :
  mirrors pops ips -> mirrors pushes ops -> effect (atomicOp m align max pops pushes) ips (reverse ops) any.
Proof.
  intros Hi Ho. unfold atomicOp. apply (effect_neutral_bind _ _ any); [neut|]. intros _ _.
  rewrite <- (app_nil_r ips). apply (effect_pop_bind _ _ any); [by apply popAll_effect|].
  intros _ _. by apply pushAll_effect.
Qed.

(** *** Agreement with a fixed signature

    [agrees r m]: unless the validator always rejects, the compiler has a
    signature and the validator's effect is that signature. *)

Definition sig_effect (o : M unit) (sg : signature) : Prop :=
  effect o (reverse (sig_in sg)) (reverse (sig_out sg)) any.
Definition agrees (r : res signature) (o : M unit) : Prop :=
  (forall s a s', o s <> Ok (a, s')) \/ exists sg, r = Ok sg /\ sig_effect o sg.

(** The signature of every opcode of a switch case, computed. *)
Ltac case_signature H :=
  lazymatch type of H with
  | one_of ?x _ = true => pattern x; refine (one_of_elim _ _ _ H _); repeat constructor
  | (_ =? _) = true => apply Z.eqb_eq in H; rewrite H; reflexivity
  end.
Ltac compute_effect :=
  unfold sig_effect;
  lazymatch goal with
  | |- effect ?o ?i ?u ?q =>
      let i' := eval vm_compute in i in let u' := eval vm_compute in u in change (effect o i' u' q)
  end.
Ltac case_agrees H := right; eexists; split; [case_signature H|compute_effect].
(** Walks down the switch: [tac] proves the effect of one case. *)
Ltac switch tac :=
  lazymatch goal with
  | |- agrees _ (fail _) => by left
  | |- agrees _ (if ?b then _ else _) =>
      let H := fresh "Hcase" in
      destruct b eqn:H; [case_agrees H; tac|switch tac]
  | |- _ => idtac
  end.

Lemma conversion_agrees op : agrees (fixedSignature op) (validateConversion m enabledFeatures op).
Proof.
  unfold validateConversion.
  switch ltac:(first [by apply unop_effect
    | apply (effect_neutral_bind _ _ any); [solve [neut]|intros _ _; by apply unop_effect]]).
Qed.

Lemma numeric_agrees op : agrees (fixedSignature op) (validateNumeric m enabledFeatures op).
Proof.
  unfold validateNumeric.
  switch ltac:(first [by apply unop_effect | by apply binop_effect]). apply conversion_agrees.
Qed.

(** Reading immediates first does not change the agreement. *)
Lemma agrees_neutral_bind {A} r (o : M A) (k : A -> M unit) :
  neutral o any -> (forall a, agrees r (k a)) -> agrees r (o ≫= k).
Proof.
  intros Ho Hk. destruct r as [sg|e|e].
  - right. exists sg. split; [done|]. apply (effect_neutral_bind _ _ any); [done|]. intros a _.
    destruct (Hk a) as [Hr|(sg' & [= <-] & Hs)]; [|done]. intros s b s' us _ H. by destruct (Hr s b s').
  - left. intros s b s' (a & s1 & _ & H)%bind_Ok. destruct (Hk a) as [Hr|(sg' & ? & _)]; [by apply (Hr s1 b s')|done].
  - left. intros s b s' (a & s1 & _ & H)%bind_Ok. destruct (Hk a) as [Hr|(sg' & ? & _)]; [by apply (Hr s1 b s')|done].
Qed.

(** Skips the readers at the front of a handler. *)
Ltac skip_readers :=
  repeat (lazymatch goal with
  | |- agrees _ (mbind _ _) => apply agrees_neutral_bind; [solve [neut]|intros ?]
  | |- agrees _ (match ?x with pair _ _ => _ end) => destruct x
  end).

Lemma memoryAccess_agrees op align :
  between OpcodeI32Load op OpcodeI64Store32 = true -> agrees (fixedSignature op) (memoryAccess m op align).
Proof.
  intros Hb. unfold memoryAccess.
  switch ltac:(first [by apply memLoad_effect | by apply memStore_effect]).
  exfalso. apply between_one_of in Hb. split_one_of Hb; discriminate.
Qed.

Lemma memory_agrees op :
  between OpcodeI32Load op OpcodeI64Store32 = true -> agrees (fixedSignature op) (validateMemoryInstr m memory body op).
Proof. intros Hb. unfold validateMemoryInstr. skip_readers. by apply memoryAccess_agrees. Qed.

Lemma memorySizeGrow_agrees op :
  between OpcodeMemorySize op OpcodeMemoryGrow = true ->
  agrees (fixedSignature op) (validateMemorySizeGrow m memory body op).
Proof.
  intros H%between_one_of. unfold validateMemorySizeGrow. skip_readers. split_one_of H;
    right; eexists; (split; [reflexivity|compute_effect; simpl; eff]).
Qed.

Lemma const_agrees op :
  between OpcodeI32Const op OpcodeF64Const = true -> agrees (fixedSignature op) (validateConst body op).
Proof.
  intros H%between_one_of. unfold validateConst. skip_readers. split_one_of H;
    right; eexists; (split; [reflexivity|compute_effect; simpl; eff]).
Qed.

(** *** Vector instructions *)

Lemma vecMemArg_neutral op : neutral (vecMemArg memory body op) any.
Proof. unfold vecMemArg. neut. Qed.
Lemma vecCheckAlign_neutral op a b : neutral (vecCheckAlign op a b) any.
Proof. unfold vecCheckAlign. neut. Qed.
Lemma readLane_neutral n op c : neutral (readLane body n op c) any.
Proof. unfold readLane. neut. Qed.
Hint Resolve vecMemArg_neutral vecCheckAlign_neutral readLane_neutral : neutral.

Lemma vecLoad_effect op : effect (vecLoad m memory body op) [unsignedTypeI32] [unsignedTypeV128] any.
Proof. unfold vecLoad, popVec. eff. Qed.
Lemma vecStore_effect op : effect (vecStore m memory body op) [unsignedTypeV128; unsignedTypeI32] [] any.
Proof. unfold vecStore, popVec. eff. Qed.
Lemma vecLoadLane_effect op :
  effect (vecLoadLane m memory body op) [unsignedTypeV128; unsignedTypeI32] [unsignedTypeV128] any.
Proof. unfold vecLoadLane, popVec. eff. Qed.
Lemma vecStoreLane_effect op : effect (vecStoreLane m memory body op) [unsignedTypeV128; unsignedTypeI32] [] any.
Proof. unfold vecStoreLane, popVec. eff. Qed.
Lemma vecExtractLane_effect op u :
  image (vecExtractLanes op).2 u -> effect (vecExtractLane m body op) [unsignedTypeV128] [u] any.
Proof. unfold vecExtractLane, popVec. destruct (vecExtractLanes op). simpl. eff. Qed.
Lemma vecReplaceLane_effect op u :
  image (vecReplaceLanes op).2 u -> effect (vecReplaceLane m body op) [u; unsignedTypeV128] [unsignedTypeV128] any.
Proof. unfold vecReplaceLane, popVec. destruct (vecReplaceLanes op). simpl. eff. Qed.
Lemma vecConst_effect op : effect (vecConst body op) [] [unsignedTypeV128] any.
Proof. unfold vecConst. eff. Qed.
Lemma vecShuffle_effect op :
  effect (vecShuffle m body op) [unsignedTypeV128; unsignedTypeV128] [unsignedTypeV128] any.
Proof. unfold vecShuffle, popVec. eff. Qed.

(** Cases whose type depends on the opcode are split. *)
Lemma vecExtractLane_agrees op :
  one_of op [OpcodeVecI8x16ExtractLaneS; OpcodeVecI8x16ExtractLaneU; OpcodeVecI16x8ExtractLaneS;
             OpcodeVecI16x8ExtractLaneU; OpcodeVecI32x4ExtractLane; OpcodeVecI64x2ExtractLane;
             OpcodeVecF32x4ExtractLane; OpcodeVecF64x2ExtractLane] = true ->
  agrees (vecSignature op) (vecExtractLane m body op).
Proof.
  intros H. split_one_of H; right; eexists; (split; [reflexivity|compute_effect; by apply vecExtractLane_effect]).
Qed.

Lemma vecReplaceLane_agrees op :
  one_of op [OpcodeVecI8x16ReplaceLane; OpcodeVecI16x8ReplaceLane; OpcodeVecI32x4ReplaceLane;
             OpcodeVecI64x2ReplaceLane; OpcodeVecF32x4ReplaceLane; OpcodeVecF64x2ReplaceLane] = true ->
  agrees (vecSignature op) (vecReplaceLane m body op).
Proof.
  intros H. split_one_of H; right; eexists; (split; [reflexivity|compute_effect; by apply vecReplaceLane_effect]).
Qed.

Lemma vecSplat_agrees op :
  one_of op [OpcodeVecI8x16Splat; OpcodeVecI16x8Splat; OpcodeVecI32x4Splat;
             OpcodeVecI64x2Splat; OpcodeVecF32x4Splat; OpcodeVecF64x2Splat] = true ->
  agrees (vecSignature op) (popVec m op (vecSplatValueTypes op);; push ValueTypeV128).
Proof.
  intros H. split_one_of H; right; eexists; (split; [reflexivity|compute_effect; unfold popVec; eff]).
Qed.

Lemma vec_agrees op : agrees (vecSignature op) (vecInstruction m enabledFeatures memory body op).
Proof.
  unfold vecInstruction. skip_readers.
  repeat match goal with
  | |- agrees _ (if ?b then _ else _) =>
      let H := fresh "Hcase" in
      destruct b eqn:H;
      [ first [ by apply vecExtractLane_agrees | by apply vecReplaceLane_agrees | by apply vecSplat_agrees
              | case_agrees H; first [ apply vecConst_effect | apply vecLoad_effect | apply vecStore_effect
                  | apply vecLoadLane_effect | apply vecStoreLane_effect | apply vecShuffle_effect
                  | apply (vecOperands_effect _ 1) | apply (vecOperands_effect _ 2) | apply (vecOperands_effect _ 3)
                  | by (unfold popVec; eff) ] ] |]
  end.
  by left.
Qed.

(** *** Atomic instructions *)

Lemma atomicCmpxchg_agrees op align : agrees (atomicSignature op) (atomicCmpxchg m op align).
Proof.
  unfold atomicCmpxchg. switch ltac:(apply (atomicOp_effect _ _ _ _ _ [_]); by repeat constructor).
Qed.

Lemma atomicRmw_agrees op align : agrees (atomicSignature op) (atomicRmw m op align).
Proof.
  unfold atomicRmw. switch ltac:(apply (atomicOp_effect _ _ _ _ _ [_]); by repeat constructor).
  apply atomicCmpxchg_agrees.
Qed.

Lemma atomic_agrees op : agrees (atomicSignature op) (atomicInstruction m enabledFeatures memory body op).
Proof.
  unfold atomicInstruction. skip_readers. destruct (op =? OpcodeAtomicFence) eqn:F.
  { case_agrees F. eff. }
  skip_readers. unfold atomicAccess.
  switch ltac:(first [apply (atomicOp_effect _ _ _ _ _ [_]); by repeat constructor
                     | apply (atomicOp_effect _ _ _ _ _ []); by repeat constructor]).
  apply atomicRmw_agrees.
Qed.

(** *** Tables and miscellaneous instructions *)

Lemma table_image i t : zindex tables i = Ok t -> image (TableType t) unsignedTypeI64.
Proof.
  unfold zindex, zlookup. destruct (0 <=? i); [|done]. intros H. apply IsRef_image.
  destruct (tables !! Z.to_nat i) as [t'|] eqn:E; [|done]. injection H as <-.
  rewrite Forall_lookup in tables_ref. by apply tables_ref in E.
Qed.

Lemma lookup_table_neutral i : neutral (lift (zindex tables i)) (fun t => image (TableType t) unsignedTypeI64).
Proof. apply neutral_lift. apply table_image. Qed.

Ltac efft :=
  repeat (intros; first [eapply effect_neutral_bind; [apply lookup_table_neutral|] | eff1]).

Lemma tableGet_effect : effect (validateTableGetSet m enabledFeatures tables body OpcodeTableGet)
  [unsignedTypeI32] [unsignedTypeI64] any.
Proof. unfold validateTableGetSet. efft. Qed.

Lemma tableSet_effect : effect (validateTableGetSet m enabledFeatures tables body OpcodeTableSet)
  [unsignedTypeI64; unsignedTypeI32] [] any.
Proof. unfold validateTableGetSet. efft. Qed.

Lemma truncSat_agrees op :
  between OpcodeMiscI32TruncSatF32S op OpcodeMiscI64TruncSatF64U = true ->
  agrees (miscSignature op) (validateTruncSat m enabledFeatures op).
Proof.
  intros H%between_one_of. unfold validateTruncSat. split_one_of H;
    right; eexists; (split; [reflexivity|compute_effect; simpl; unfold miscPops; eff]).
Qed.

Lemma tableOp_agrees op :
  between OpcodeMiscTableGrow op OpcodeMiscTableFill = true ->
  agrees (miscSignature op) (validateTableOp m enabledFeatures tables body op).
Proof.
  intros H%between_one_of. unfold validateTableOp. split_one_of H;
    right; eexists; (split; [reflexivity|compute_effect; simpl; unfold miscPops; efft]).
Qed.

Lemma requiresDataCount_neutral op : neutral (requiresDataCount m op) any.
Proof. unfold requiresDataCount. neut. Qed.
Lemma readDataIndex_neutral op : neutral (readDataIndex m body op) any.
Proof. unfold readDataIndex. neut. Qed.
Lemma readZeroMemoryIndex_neutral op : neutral (readZeroMemoryIndex body op) any.
Proof. unfold readZeroMemoryIndex. neut. Qed.
Lemma readElementIndex_neutral op : neutral (readElementIndex m body op) any.
Proof. unfold readElementIndex. neut. Qed.
Lemma readTableIndex_neutral w op : neutral (readTableIndex enabledFeatures tables body w op) any.
Proof. unfold readTableIndex. neut. Qed.
Hint Resolve requiresDataCount_neutral readDataIndex_neutral readZeroMemoryIndex_neutral
  readElementIndex_neutral readTableIndex_neutral : neutral.

Lemma bulk_agrees op :
  between OpcodeMiscMemoryInit op OpcodeMiscTableCopy = true ->
  agrees (miscSignature op) (validateBulk m enabledFeatures memory tables body op).
Proof.
  intros H%between_one_of. unfold validateBulk. skip_readers.
  split_one_of H; right; eexists; (split; [reflexivity|compute_effect; unfold bulkImmediates; simpl]);
    first [ apply (effect_neutral_bind _ _ (fun l => l = [])); [solve [neut]|]
          | apply (effect_neutral_bind _ _ (fun l => l = i32x3)); [solve [neut]|] ];
    intros ? ->; unfold miscPops; eff.
Qed.

Lemma misc_agrees op : agrees (miscSignature op) (miscInstruction m enabledFeatures memory tables body op).
Proof.
  unfold miscInstruction. destruct (between _ op OpcodeMiscI64TruncSatF64U) eqn:H1; [by apply truncSat_agrees|].
  destruct (between _ op OpcodeMiscTableCopy) eqn:H2; [by apply bulk_agrees|].
  destruct (between _ op OpcodeMiscTableFill) eqn:H3; [by apply tableOp_agrees|]. by left.
Qed.

(** *** References *)

Lemma popRef_effect name : effect (popRef name) [unsignedTypeI64] [] (fun t => IsRef t = true).
Proof.
  intros s t s' us Hu (v & s1 & H1%wrap_Ok & H2)%bind_Ok.
  destruct (pop_mirror _ _ _ _ Hu H1) as (u & us0 & -> & Hv & Hs1).
  apply bind_Ok in H2 as ([] & s2 & Hg & [= <- <-]).
  apply neutral_guard in Hg as [E Hg]. rewrite (image_not_unknown _ _ Hv), orb_false_r in Hg.
  rewrite (image_inj _ _ _ Hv (IsRef_image _ Hg)). exists us0. by rewrite E.
Qed.

Lemma IsRef_AsNonNullable t : IsRef t = true -> IsRef (asNonNull t) = true.
Proof.
  intros Ht. unfold asNonNull. destruct (t =? valueTypeUnknown); [done|].
  rewrite <- (IsRef_AsNullable (AsNonNullable t)), <- (IsRef_AsNullable t) in *.
  replace (AsNullable (AsNonNullable t)) with (AsNullable t); [done|].
  unfold AsNullable, AsNonNullable. apply Z.bits_inj'; intros n Hn.
  rewrite !Z.ldiff_spec, Z.lor_spec. by destruct (Z.testbit t n), (Z.testbit flagNonNullable n).
Qed.

Lemma concrete_image i b : image (ValueTypeConcreteRef i b) unsignedTypeI64.
Proof.
  apply IsRef_image, IsConcreteRef_IsRef. unfold IsConcreteRef, ValueTypeConcreteRef.
  apply negb_true_iff, Z.eqb_neq. intros H. apply (f_equal (fun z => Z.testbit z 9)) in H.
  rewrite Z.bits_0, Z.land_spec in H. change (Z.testbit flagConcreteRef 9) with true in H.
  rewrite andb_true_r in H. destruct (negb b); rewrite !Z.lor_spec in H;
    change (Z.testbit flagConcreteRef 9) with true in H; rewrite orb_true_r in H; discriminate H.
Qed.

Lemma refAsNonNull_effect :
  effect (validateRefAsNonNull enabledFeatures) [unsignedTypeI64] [unsignedTypeI64] any.
Proof.
  unfold validateRefAsNonNull. eff1. intros.
  apply (effect_pop_bind _ _ _ [unsignedTypeI64] [] _ _ (popRef_effect _)).
  intros t Ht. apply push_effect, IsRef_image. by apply IsRef_AsNonNullable.
Qed.

Lemma refNull_effect : effect (validateRefNull m enabledFeatures body) [] [unsignedTypeI64] any.
Proof.
  unfold validateRefNull. do 2 (eff1; intros).
  destruct (_ =? ValueTypeExternref); [by apply push_effect|].
  destruct (_ =? ValueTypeFuncref); [by apply push_effect|].
  destruct (_ =? ValueTypeExnref); [by apply push_effect|]. eff. apply concrete_image.
Qed.

Lemma refFunc_effect :
  effect (validateRefFunc enabledFeatures functions declaredFunctionIndexes body) [] [unsignedTypeI64] any.
Proof.
  unfold validateRefFunc. eff. intros _ _.
  destruct (IsEnabled _ _); [|by apply push_effect]. eff. apply concrete_image.
Qed.

Lemma ref_agrees op :
  between OpcodeRefNull op OpcodeRefFunc = true ->
  agrees (fixedSignature op) (validateRef m enabledFeatures functions declaredFunctionIndexes body op).
Proof.
  intros H%between_one_of. unfold validateRef. skip_readers.
  split_one_of H; right; eexists; (split; [reflexivity|compute_effect; simpl]).
  - apply refNull_effect.
  - apply (effect_pop_bind _ _ _ [unsignedTypeI64] [] _ _ (popRef_effect _)). eff.
  - apply refFunc_effect.
Qed.

End Handlers.

#[export] Hint Resolve loadU32_neutral bodyFrom_neutral bodyAt_neutral memArg_neutral invalidAs_neutral
  requireEnabled_neutral memoryMustExist_neutral checkAlign_neutral readU32_neutral : neutral.

(** ** The compiler's side *)

(** Height of a stack of operands in 64-bit slots. *)
Definition height (us : list unsignedType) : Z := foldr (fun u n => slots u + n) 0 us.

Lemma height_app us vs : height (us ++ vs) = height us + height vs.
Proof. induction us as [|u us IH]; simpl; [done|]. rewrite IH. lia. Qed.

Lemma height_reverse us : height (reverse us) = height us.
Proof. induction us as [|u us IH]; [done|]. rewrite reverse_cons, height_app, IH. simpl. lia. Qed.

Definition known : list unsignedType -> Prop := Forall (fun u => u <> unsignedTypeUnknown).

Lemma mirrors_known vs us : mirrors vs us -> known us.
Proof. induction 1 as [|v u vs us Hv _ IH]; constructor; [by apply image_cases in Hv as (_ & _ & _ & ?)|done]. Qed.

Lemma popInputs_ok ins tp rest c :
  c_stack c = ins ++ rest -> known ins ->
  popInputs ins tp c = Ok (tp, set_c_stack rest (c_stackLenInUint64 c - height ins) c).
Proof.
  intros Hc Hk. revert c Hc. induction Hk as [|u ins Hu Hk IH]; intros c Hc; simpl.
  { rewrite Z.sub_0_r. simpl in Hc. rewrite <- Hc. by destruct c. }
  unfold stackPop. rewrite Hc. simpl. rewrite (proj2 (Z.eqb_neq _ _) Hu). simpl. rewrite Z.eqb_refl. simpl.
  rewrite IH by done. unfold set_c_stack. simpl. do 3 f_equal; lia.
Qed.

Lemma pushOutputs_ok outs tp c :
  known outs ->
  pushOutputs outs tp c = Ok (set_c_stack (reverse outs ++ c_stack c) (c_stackLenInUint64 c + height outs) c).
Proof.
  intros Hk. revert c. induction Hk as [|u outs Hu Hk IH]; intros c; simpl.
  { rewrite Z.add_0_r. by destruct c. }
  rewrite (proj2 (Z.eqb_neq _ _) Hu), IH, reverse_cons, <- app_assoc. unfold stackPush, set_c_stack. simpl.
  do 2 f_equal; lia.
Qed.

Lemma applySignature_ok sg c rest :
  c_stack c = reverse (sig_in sg) ++ rest -> known (sig_in sg) -> known (sig_out sg) ->
  applySignature sg c
  = Ok (set_c_stack (reverse (sig_out sg) ++ rest)
          (c_stackLenInUint64 c - height (sig_in sg) + height (sig_out sg)) c).
Proof.
  intros Hc Hi Ho. unfold applySignature. rewrite (popInputs_ok _ _ rest) by (done || by apply Forall_reverse).
  simpl. rewrite pushOutputs_ok by done. simpl. by rewrite height_reverse.
Qed.

(** ** The cache of call signatures *)

(** [sg] is the signature of a call of type [tp] with operands [extra] on top
    of the parameters. *)
Definition call_sig (tp : FunctionType) (extra : list unsignedType) (sg : signature) : Prop :=
  exists ins outs, mirrors (Params tp) ins /\ mirrors (Results tp) outs /\ sg = mkSignature (ins ++ extra) outs.

Definition cache_ok (types : list FunctionType) (extra : list unsignedType) (l : list (option signature)) : Prop :=
  length l = length types /\
  forall i tp sg, types !! i = Some tp -> l !! i = Some (Some sg) -> call_sig tp extra sg.

Definition sigs_wf (f : funcTypeToIRSignatures) : Prop :=
  cache_ok (wasmTypes f) [] (directCalls f) /\
  cache_ok (wasmTypes f) [unsignedTypeI32] (indirectCalls f) /\
  cache_ok (wasmTypes f) [unsignedTypeI64] (callRefCalls f).

Definition types_known (types : list FunctionType) : Prop :=
  Forall (fun tp => (exists ins, mirrors (Params tp) ins) /\ exists outs, mirrors (Results tp) outs) types.

Lemma appendTypes_mirrors l us acc : mirrors l us -> appendTypes acc l = Ok (acc ++ us).
Proof.
  intros H. revert acc. induction H as [|v u l us Hv _ IH]; intros acc; simpl; [by rewrite app_nil_r|].
  rewrite Hv. simpl. by rewrite IH, <- app_assoc.
Qed.

Lemma cache_insert types extra l i tp sg :
  cache_ok types extra l -> types !! i = Some tp -> call_sig tp extra sg -> cache_ok types extra (<[i := Some sg]> l).
Proof.
  intros [Hl Hc] Htp Hsg. split; [by rewrite length_insert|]. intros j tp' sg' Hj.
  destruct (decide (i = j)) as [->|]; [|rewrite list_lookup_insert_ne by done; by apply Hc].
  rewrite list_lookup_insert_eq by (rewrite Hl; by eapply lookup_lt_Some). intros [= <-]. congruence.
Qed.

(** The pattern [get] and [getCallRef] share: the entry, computed when missing. *)
Lemma cached_call types extra l t tp :
  types_known types -> cache_ok types extra l -> zlookup types t = Some tp ->
  exists e, zindex l t = Ok e /\ (forall sg, e = Some sg -> call_sig tp extra sg) /\
  exists ins outs, appendTypes [] (Params tp) = Ok ins /\ appendTypes [] (Results tp) = Ok outs /\
    call_sig tp extra (mkSignature (ins ++ extra) outs).
Proof.
  intros Hk [Hl Hc] Htp. pose proof (zlookup_Some_lt _ _ _ Htp) as Hr.
  destruct (zindex_in l t) as (e & -> & He); [unfold zlen in *; lia|].
  unfold zlookup in Htp, He. destruct (0 <=? t); [|done]. exists e. split; [done|]. split.
  { intros sg ->. by eapply Hc. }
  unfold types_known in Hk. rewrite Forall_lookup in Hk. destruct (Hk _ _ Htp) as [[ins Hi] [outs Ho]].
  exists ins, outs. rewrite !(appendTypes_mirrors _ _ []) by eassumption. split_and!; try done. by exists ins, outs.
Qed.

Lemma get_spec f t indirect tp :
  sigs_wf f -> types_known (wasmTypes f) -> zlookup (wasmTypes f) t = Some tp ->
  exists sg f', get f t indirect = Ok (sg, f') /\ sigs_wf f' /\ wasmTypes f' = wasmTypes f /\
    call_sig tp (if indirect then [unsignedTypeI32] else []) sg.
Proof.
  intros (Hd & Hi & Hr) Hk Htp. pose proof Htp as Hn. unfold zlookup in Hn. destruct (0 <=? t); [|done].
  unfold get. destruct indirect.
  - destruct (cached_call _ _ _ _ _ Hk Hi Htp) as (e & -> & He & ins & outs & Ei & Eo & Hs). simpl.
    destruct e as [sg|]; [exists sg, f; split_and!; try done; by apply He|].
    unfold zindex. rewrite Htp. simpl. rewrite Ei, Eo. simpl. do 2 eexists. split; [done|]. split; [|done]. unfold sigs_wf. simpl. eauto using cache_insert.
  - destruct (cached_call _ _ _ _ _ Hk Hd Htp) as (e & -> & He & ins & outs & Ei & Eo & Hs). simpl.
    destruct e as [sg|]; [exists sg, f; split_and!; try done; by apply He|].
    unfold zindex. rewrite Htp. simpl. rewrite Ei, Eo. simpl. do 2 eexists. rewrite app_nil_r in Hs.
    split; [done|]. split; [|done]. unfold sigs_wf. simpl. eauto using cache_insert.
Qed.

Lemma getCallRef_spec f t tp :
  sigs_wf f -> types_known (wasmTypes f) -> zlookup (wasmTypes f) t = Some tp ->
  exists sg f', getCallRef f t = Ok (sg, f') /\ sigs_wf f' /\ wasmTypes f' = wasmTypes f /\
    call_sig tp [unsignedTypeI64] sg.
Proof.
  intros (Hd & Hi & Hr) Hk Htp. pose proof Htp as Hn. unfold zlookup in Hn. destruct (0 <=? t); [|done].
  unfold getCallRef.
  destruct (cached_call _ _ _ _ _ Hk Hr Htp) as (e & -> & He & ins & outs & Ei & Eo & Hs). simpl.
  destruct e as [sg|]; [exists sg, f; split_and!; try done; by apply He|].
  unfold zindex. rewrite Htp. simpl. rewrite Ei, Eo. simpl. do 2 eexists. split; [done|]. split; [|done]. unfold sigs_wf. simpl. eauto using cache_insert.
Qed.

(** ** Simulation *)

(** What the two passes share: the compiler works on the function and module
    the validator checks. *)
Record linked (m : Module) (functions : list Index) (globals : list GlobalType) (functionType : FunctionType)
    (localTypes : list ValueType) (body : list Z) (c : compiler) : Prop := {
  l_reachable : c_unreachable c = false;
  l_body : c_body c = body;
  l_sig : c_sig c = functionType;
  l_locals : c_localTypes c = localTypes;
  l_funcs : c_funcs c = functions;
  l_globals : c_globals c = globals;
  l_types : wasmTypes (c_funcTypeToSigs c) = TypeSection m;
  l_sigs : sigs_wf (c_funcTypeToSigs c);
}.

(** Every type that occurs is a value type, tables hold references, and the
    local index space fits in 32 bits. *)
Record known_types (m : Module) (globals : list GlobalType) (tables : list Table) (functionType : FunctionType)
    (localTypes : list ValueType) : Prop := {
  k_types : types_known (TypeSection m);
  k_params : exists us, mirrors (Params functionType) us;
  k_locals : exists us, mirrors localTypes us;
  k_globals : Forall (fun g => exists u, image (ValType g) u) globals;
  k_tables : Forall (fun t => IsRef (TableType t) = true) tables;
  k_size : zlen (Params functionType) + zlen localTypes < 2 ^ 32;
}.

(** The compiler's stack is the image of the validator's on top of [base] (the
    parameters and locals), and its height in slots is right. *)
Definition stacks_match (s : stacks) (c : compiler) (base : list unsignedType) : Prop :=
  (exists us, mirrors (stack s) us /\ c_stack c = us ++ base) /\ c_stackLenInUint64 c = height (c_stack c).

Section Simulation.
Context (m : Module) (enabledFeatures : CoreFeatures) (functions : list Index) (globals : list GlobalType)
  (memory : option Memory) (tables : list Table) (tags : list Index) (declaredFunctionIndexes : gset Z)
  (functionType : FunctionType) (localTypes : list ValueType) (body : list Z).
Context (Hknown : known_types m globals tables functionType localTypes).

Abbreviation linked' := (linked m functions globals functionType localTypes body).

(** The compiler's step on [op] succeeds and matches the validator's. *)
Definition follows (s' : stacks) (c : compiler) (base : list unsignedType) (op : Z) : Prop :=
  exists idx c', applyToStack c op = Ok (idx, c') /\ stacks_match s' c' base /\ linked' c'.

Definition moves (s s' : stacks) (ins outs : list unsignedType) : Prop :=
  forall us, mirrors (stack s) us -> exists us0, us = ins ++ us0 /\ mirrors (stack s') (outs ++ us0).

Lemma effect_moves {A} (o : M A) ins outs Q s a s' : effect o ins outs Q -> o s = Ok (a, s') -> moves s s' ins outs.
Proof. intros He H us Hu. destruct (He _ _ _ _ Hu H) as (us0 & ? & ? & _). eauto. Qed.

(** One signature applied on both sides. *)
Lemma apply_moves s s' c base sg :
  stacks_match s c base -> moves s s' (reverse (sig_in sg)) (reverse (sig_out sg)) ->
  exists c', applySignature sg c = Ok c' /\ stacks_match s' c' base /\
    c' = set_c_stack (c_stack c') (c_stackLenInUint64 c') c.
Proof.
  intros [(us & Hu & Hc) Hh] Hm. destruct (Hm us Hu) as (us0 & -> & Hu').
  assert (known (sig_in sg) /\ known (sig_out sg)) as [Ki Ko].
  { apply mirrors_known in Hu as [Hi _]%Forall_app, Hu' as [Ho _]%Forall_app.
    rewrite Forall_reverse in Hi, Ho. done. }
  rewrite <- app_assoc in Hc. rewrite (applySignature_ok _ _ _ Hc) by done.
  eexists. split; [done|]. split; [|done]. split.
  - eexists. split; [done|]. simpl. by rewrite app_assoc.
  - simpl. rewrite Hh, Hc, !height_app, !height_reverse. lia.
Qed.

Lemma linked_stack c st n : linked' c -> linked' (set_c_stack st n c).
Proof. by intros []; split. Qed.
Lemma linked_pc c p : linked' c -> linked' (set_c_pc p c).
Proof. by intros []; split. Qed.
Lemma linked_sigs c f :
  linked' c -> sigs_wf f -> wasmTypes f = wasmTypes (c_funcTypeToSigs c) -> linked' (set_c_sigs f c).
Proof. intros [] Hw Ht; split; simpl; congruence. Qed.

(** An instruction without index. *)
Lemma follows_plain s s' c base op sg :
  linked' c -> stacks_match s c base -> indexedOpcode op = false ->
  wasmOpcodeSignature c op 0 = Ok (sg, c) ->
  moves s s' (reverse (sig_in sg)) (reverse (sig_out sg)) -> follows s' c base op.
Proof.
  intros Hl Hs Hi Hsig Hm. destruct (apply_moves _ _ _ _ _ Hs Hm) as (c' & Ha & Hs' & Ec).
  exists 0, c'. split; [|split; [done|]].
  - unfold applyToStack. rewrite Hi. simpl. rewrite (l_reachable _ _ _ _ _ _ _ Hl), Hsig. simpl. by rewrite Ha.
  - rewrite Ec. by apply linked_stack.
Qed.

(** An instruction with an index, which the compiler reads like the validator. *)
Lemma follows_indexed s s' c base op b v num sg c2 :
  linked' c -> stacks_match s c base -> indexedOpcode op = true ->
  zslice body (c_pc c + 1) = Ok b -> LoadUint32 b = Ok (v, num) ->
  wasmOpcodeSignature (set_c_pc (c_pc c + num) c) op v = Ok (sg, c2) ->
  linked' c2 -> c_stack c2 = c_stack c -> c_stackLenInUint64 c2 = c_stackLenInUint64 c ->
  moves s s' (reverse (sig_in sg)) (reverse (sig_out sg)) -> follows s' c base op.
Proof.
  intros Hl Hs Hi Hb Hv Hsig Hl2 E1 E2 Hm.
  assert (stacks_match s c2 base) as Hs2 by (unfold stacks_match; by rewrite E1, E2).
  destruct (apply_moves _ _ _ _ _ Hs2 Hm) as (c' & Ha & Hs' & Ec).
  exists v, c'. split; [|split; [done|]].
  - unfold applyToStack. rewrite Hi, (l_body _ _ _ _ _ _ _ Hl), Hb. simpl. rewrite Hv. simpl.
    rewrite (l_reachable _ _ _ _ _ _ _ Hl), Hsig. simpl. by rewrite Ha.
  - rewrite Ec. by apply linked_stack.
Qed.

(** The instructions of [fixedSignature]. *)
Lemma follows_fixed s s' c base op (o : M unit) :
  linked' c -> stacks_match s c base -> indexedOpcode op = false ->
  wasmOpcodeSignature c op 0 = pureSig c (fixedSignature op) ->
  agrees (fixedSignature op) o -> o s = Ok (tt, s') -> follows s' c base op.
Proof.
  intros Hl Hs Hi Hsig [Hr|(sg & Es & He)] Ho; [by destruct (Hr _ _ _ Ho)|].
  eapply follows_plain; [done..| |by eapply effect_moves]. by rewrite Hsig, Es.
Qed.

(** Opcodes with a fixed signature and no index. *)
Definition plain (c : compiler) (op : Z) : Prop :=
  indexedOpcode op = false /\ wasmOpcodeSignature c op 0 = pureSig c (fixedSignature op).

Lemma plain_range lo hi c op :
  between lo op hi = true ->
  Forall (plain c) (map (fun i => lo + Z.of_nat i) (seq 0 (Z.to_nat (hi - lo + 1)))) -> plain c op.
Proof. intros H%between_one_of. by apply one_of_elim. Qed.

Ltac plains := intros H; apply (plain_range _ _ _ _ H); repeat constructor.

Lemma plain_memory c op : between OpcodeI32Load op OpcodeI64Store32 = true -> plain c op.
Proof. plains. Qed.
Lemma plain_memorySize c op : between OpcodeMemorySize op OpcodeMemoryGrow = true -> plain c op.
Proof. plains. Qed.
Lemma plain_const c op : between OpcodeI32Const op OpcodeF64Const = true -> plain c op.
Proof. plains. Qed.
Lemma plain_numeric c op : between OpcodeI32Eqz op OpcodeI64Extend32S = true -> plain c op.
Proof. plains. Qed.
Lemma plain_ref c op : between OpcodeRefNull op OpcodeRefFunc = true -> plain c op.
Proof. plains. Qed.

(** *** Instructions whose signature depends on an index *)

Lemma readU32_Ok msg s v s' :
  readU32 body msg s = Ok (v, s') ->
  exists b num, zslice body (pc s) = Ok b /\ LoadUint32 b = Ok (v, num) /\ s' = set_pc (pc s + (num - 1)) s.
Proof.
  unfold readU32, loadU32, bodyFrom. intros ([v' num] & s1 & H1 & H2)%bind_Ok.
  apply bind_Ok in H1 as (b & s2 & Hb & Hl%wrap_Ok). apply bind_Ok in Hb as (p & s3 & [= <- <-] & Hb).
  unfold lift in Hb, Hl. rewrite Z.add_0_r in Hb.
  destruct (zslice body (pc s)) as [b'|?|?] eqn:E; simpl in Hb; try done. injection Hb as -> ->.
  destruct (LoadUint32 b) as [[v0 n0]|?|?] eqn:El; simpl in Hl; try done. injection Hl as -> -> ->.
  apply bind_Ok in H2 as ([] & s4 & [= <-] & [= -> <-]). eauto 10.
Qed.

Lemma mirrors_zindex vs us i v : mirrors vs us -> zindex vs i = Ok v -> exists u, image v u.
Proof.
  unfold zindex, zlookup. intros Hm. destruct (0 <=? i); [|done].
  destruct (vs !! Z.to_nat i) as [w|] eqn:E; [|done]. intros [= <-].
  destruct (Forall2_lookup_l _ _ _ _ _ Hm E) as (u & _ & Hu). eauto.
Qed.

Lemma localType_neutral index :
  neutral (localType functionType localTypes index) (fun t => exists u, image t u).
Proof.
  unfold localType. destruct (k_params _ _ _ _ _ Hknown) as [ps Hp]. destruct (k_locals _ _ _ _ _ Hknown) as [ls Hl].
  destruct (_ <? _); apply neutral_lift; intros t Ht.
  - exact (mirrors_zindex _ _ _ _ Hp Ht).
  - exact (mirrors_zindex _ _ _ _ Hl Ht).
Qed.

(** The compiler finds the type of a local where the validator does. *)
Lemma signatureLocalType_ok c name index s u s' s1 t s2 :
  linked' c -> localInRange functionType localTypes name index s = Ok (u, s') ->
  localType functionType localTypes index s1 = Ok (t, s2) -> signatureLocalType c index = Ok t.
Proof.
  intros Hl Hg%neutral_guard Ht. destruct Hg as [_ Hg]. pose proof (k_size _ _ _ _ _ Hknown) as Hz.
  unfold signatureLocalType. rewrite (l_sig _ _ _ _ _ _ _ Hl), (l_locals _ _ _ _ _ _ _ Hl).
  pose proof (zlen_nonneg (Params functionType)). pose proof (zlen_nonneg localTypes). unfold inputLen, ValueType in *.
  rewrite !wrap32_small in * by (unfold is_u32; lia || (rewrite !wrap32_small; unfold is_u32; lia)).
  apply negb_true_iff in Hg. rewrite Hg. unfold localType, lift, inputLen, ValueType in Ht.
  change (@zlen ValueType) with (@zlen Z) in *. change (@zindex ValueType) with (@zindex Z) in *.
  destruct (Z.ltb_spec index (@zlen Z (Params functionType))).
  - by destruct (zindex _ _); simpl in *; simplify_eq.
  - rewrite wrap32_small by (bools; unfold is_u32; lia). by destruct (zindex _ _); simpl in *; simplify_eq.
Qed.

Lemma requireLocalInit_neutral i n : neutral (requireLocalInit i n localTypes) any.
Proof. unfold requireLocalInit. neut. Qed.
Lemma markLocalInit_neutral i n : neutral (markLocalInit i n localTypes) any.
Proof. unfold markLocalInit. neut. by intros s0 [] s1 [= <-]. Qed.
Lemma localInRange_neutral n i : neutral (localInRange functionType localTypes n i) any.
Proof. unfold localInRange. neut. Qed.

Lemma moves_from s s0 s' ins outs : moves s s' ins outs -> stack s = stack s0 -> moves s0 s' ins outs.
Proof. unfold moves. by intros H <-. Qed.

(** Runs the monadic hypothesis [H] one step. *)
Ltac run H a s H1 := apply bind_Ok in H as (a & s & H1 & H).

(** The index immediate, read by both sides. *)
Lemma run_index msg (k : Z -> M unit) s s' c :
  c_pc c = pc s -> (advance 1;; v ← readU32 body msg; k v) s = Ok (tt, s') ->
  exists b index num s1, zslice body (c_pc c + 1) = Ok b /\ LoadUint32 b = Ok (index, num) /\
    stack s1 = stack s /\ k index s1 = Ok (tt, s').
Proof.
  intros -> H. run H a s1 H1. injection H1 as _ <-. run H index s2 H2.
  apply readU32_Ok in H2 as (b & num & Hb & Hv & ->). do 4 eexists. split_and!; [exact Hb|exact Hv| |exact H]. done.
Qed.

(** A local or global instruction; [r] is the signature the compiler computes. *)
Lemma follows_typed s s' s1 c base op b index num r ins outs :
  linked' c -> stacks_match s c base -> indexedOpcode op = true ->
  zslice body (c_pc c + 1) = Ok b -> LoadUint32 b = Ok (index, num) ->
  wasmOpcodeSignature (set_c_pc (c_pc c + num) c) op index = pureSig (set_c_pc (c_pc c + num) c) r ->
  r = Ok (mkSignature ins outs) ->
  moves s1 s' (reverse ins) (reverse outs) -> stack s1 = stack s -> follows s' c base op.
Proof.
  intros Hl Hs Hi Hb Hv Hsig -> Hm E.
  eapply (follows_indexed s s' c base op); try done; [by apply linked_pc|]. by eapply moves_from.
Qed.

Section LocalGlobal.
Context (s s' : stacks) (c : compiler) (base : list unsignedType).
Context (Hl : linked' c) (Hs : stacks_match s c base) (Hpc : c_pc c = pc s).

Abbreviation runs op := (validateLocalGlobal m globals functionType localTypes body op s = Ok (tt, s')).

Lemma localGet_follows : runs OpcodeLocalGet -> follows s' c base OpcodeLocalGet.
Proof.
  intros H. apply (run_index _ _ _ _ _ Hpc) in H as (b & index & num & s1 & Hb & Hv & E1 & H). simpl in H.
  run H u s2 H2. run H v s3 H3. run H t s4 H4.
  destruct (localType_neutral _ _ _ _ H4) as [E4 (w & Hw)].
  destruct (requireLocalInit_neutral _ _ _ _ _ H3) as [E3 _]. destruct (localInRange_neutral _ _ _ _ _ H2) as [E2 _].
  eapply (follows_typed s s' s4 _ _ _ b index num (wasmValueTypeToUnsignedOutSignature t));
    [done..| |by apply image_cases| |congruence].
  - cbn. by rewrite (signatureLocalType_ok _ _ _ _ _ _ _ _ _ (linked_pc _ _ Hl) H2 H4).
  - by eapply effect_moves; [apply push_effect|].
Qed.

Lemma localSet_follows : runs OpcodeLocalSet -> follows s' c base OpcodeLocalSet.
Proof.
  intros H. apply (run_index _ _ _ _ _ Hpc) in H as (b & index & num & s1 & Hb & Hv & E1 & H). simpl in H.
  run H u s2 H2. run H t s3 H3.
  destruct (localType_neutral _ _ _ _ H3) as [E3 (w & Hw)]. destruct (localInRange_neutral _ _ _ _ _ H2) as [E2 _].
  eapply (follows_typed s s' s3 _ _ _ b index num (wasmValueTypeToUnsignedInSignature t));
    [done..| |by apply image_cases| |congruence].
  - cbn. by rewrite (signatureLocalType_ok _ _ _ _ _ _ _ _ _ (linked_pc _ _ Hl) H2 H3).
  - eapply effect_moves; [|exact H].
    apply effect_bind_neutral; [by apply popT_effect|intros; apply markLocalInit_neutral].
Qed.

Lemma localTee_follows : runs OpcodeLocalTee -> follows s' c base OpcodeLocalTee.
Proof.
  intros H. apply (run_index _ _ _ _ _ Hpc) in H as (b & index & num & s1 & Hb & Hv & E1 & H). simpl in H.
  run H u s2 H2. run H t s3 H3.
  destruct (localType_neutral _ _ _ _ H3) as [E3 (w & Hw)]. destruct (localInRange_neutral _ _ _ _ _ H2) as [E2 _].
  eapply (follows_typed s s' s3 _ _ _ b index num (wasmValueTypeToUnsignedInOutSignature t));
    [done..| |by apply image_cases| |congruence].
  - cbn. by rewrite (signatureLocalType_ok _ _ _ _ _ _ _ _ _ (linked_pc _ _ Hl) H2 H3).
  - eapply effect_moves; [|exact H].
    apply (effect_pop_bind _ _ any [w] []); [by apply popT_effect|]. intros.
    apply effect_bind_neutral; [by apply push_effect|intros; apply markLocalInit_neutral].
Qed.

Lemma global_image i g : zindex globals i = Ok g -> exists u, image (ValType g) u.
Proof.
  pose proof (k_globals _ _ _ _ _ Hknown) as Hg. rewrite Forall_lookup in Hg.
  unfold zindex, zlookup. destruct (0 <=? i); [|done].
  destruct (globals !! Z.to_nat i) as [g'|] eqn:E; [|done]. intros [= <-]. eauto.
Qed.

Lemma signatureGlobalType_ok p i g :
  negb (i >=? zlen globals) = true -> zindex globals i = Ok g ->
  signatureGlobalType (set_c_pc p c) i = Ok (ValType g).
Proof.
  intros Hi Hg. unfold signatureGlobalType. simpl. rewrite (l_globals _ _ _ _ _ _ _ Hl), Hg. bools.
  destruct (Z.leb_spec (zlen globals) i); [lia|done].
Qed.

Lemma globalGet_follows : runs OpcodeGlobalGet -> follows s' c base OpcodeGlobalGet.
Proof.
  intros H. apply (run_index _ _ _ _ _ Hpc) in H as (b & index & num & s1 & Hb & Hv & E1 & H). simpl in H.
  run H u s2 H2. run H g s3 H3. apply neutral_guard in H2 as [E2 H2].
  apply (neutral_lift _ (fun g => zindex globals index = Ok g)) in H3 as [E3 H3]; [|done].
  destruct (global_image _ _ H3) as [w Hw].
  eapply (follows_typed s s' s3 _ _ _ b index num (wasmValueTypeToUnsignedOutSignature (ValType g)));
    [done..| |by apply image_cases| |congruence].
  - cbn. by rewrite (signatureGlobalType_ok _ _ _ H2 H3).
  - by eapply effect_moves; [apply push_effect|].
Qed.

Lemma globalSet_follows : runs OpcodeGlobalSet -> follows s' c base OpcodeGlobalSet.
Proof.
  intros H. apply (run_index _ _ _ _ _ Hpc) in H as (b & index & num & s1 & Hb & Hv & E1 & H). simpl in H.
  run H u s2 H2. run H g s3 H3. run H v s4 H4. apply neutral_guard in H2 as [E2 H2], H4 as [E4 H4].
  apply (neutral_lift _ (fun g => zindex globals index = Ok g)) in H3 as [E3 H3]; [|done].
  destruct (global_image _ _ H3) as [w Hw].
  eapply (follows_typed s s' s4 _ _ _ b index num (wasmValueTypeToUnsignedInSignature (ValType g)));
    [done..| |by apply image_cases| |congruence].
  - cbn. by rewrite (signatureGlobalType_ok _ _ _ H2 H3).
  - by eapply effect_moves; [apply popT_effect|].
Qed.

Lemma localGlobal_follows op : between OpcodeLocalGet op OpcodeGlobalSet = true -> runs op -> follows s' c base op.
Proof.
  intros Hb%between_one_of H. split_one_of Hb;
    auto using localGet_follows, localSet_follows, localTee_follows, globalGet_follows, globalSet_follows.
Qed.

End LocalGlobal.

(** *** Calls *)

Section Calls.
Context (s s' : stacks) (c : compiler) (base : list unsignedType).
Context (Hl : linked' c) (Hs : stacks_match s c base) (Hpc : c_pc c = pc s).

Lemma callSignature_effect name tp extra sg :
  call_sig tp extra sg ->
  exists ins, sig_in sg = ins ++ extra /\
    effect (validateCallSignature m name tp) (reverse ins) (reverse (sig_out sg)) any.
Proof.
  intros (ins & outs & Hi & Ho & ->). exists ins. split; [done|]. unfold validateCallSignature.
  rewrite <- (app_nil_r (reverse ins)). apply (effect_pop_bind _ _ any).
  - apply popAll_effect; [by auto using effect_wrap|]. by apply Forall2_reverse.
  - intros _ _. by apply pushAll_effect.
Qed.

Lemma type_lookup t tp : zindex (TypeSection m) t = Ok tp -> zlookup (TypeSection m) t = Some tp.
Proof. unfold zindex. destruct (zlookup _ _); [by intros [= ->]|done]. Qed.

Lemma cache_types : types_known (wasmTypes (c_funcTypeToSigs c)).
Proof. rewrite (l_types _ _ _ _ _ _ _ Hl). apply (k_types _ _ _ _ _ Hknown). Qed.

(** A call through the cache: the signature, and the compiler with the new cache. *)
Lemma follows_call op b index num sg f s1 :
  indexedOpcode op = true -> zslice body (c_pc c + 1) = Ok b -> LoadUint32 b = Ok (index, num) ->
  wasmOpcodeSignature (set_c_pc (c_pc c + num) c) op index
  = Ok (sg, set_c_sigs f (set_c_pc (c_pc c + num) c)) ->
  sigs_wf f -> wasmTypes f = wasmTypes (c_funcTypeToSigs c) ->
  moves s1 s' (reverse (sig_in sg)) (reverse (sig_out sg)) -> stack s1 = stack s -> follows s' c base op.
Proof.
  intros Hi Hb Hv Hsig Hf Ht Hm E. eapply (follows_indexed s s' c base op); try done.
  - apply linked_sigs; [by apply linked_pc|done|done].
  - by eapply moves_from.
Qed.

Lemma call_follows :
  validateCall m enabledFeatures functions functionType body OpcodeCall s = Ok (tt, s') ->
  follows s' c base OpcodeCall.
Proof.
  intros H. apply (run_index _ _ _ _ _ Hpc) in H as (b & index & num & s1 & Hb & Hv & E1 & H). simpl in H.
  run H u s2 H2. run H t s3 H3. run H tp s4 H4. apply neutral_guard in H2 as [E2 _].
  apply (neutral_lift _ (fun t => zindex functions index = Ok t)) in H3 as [E3 H3]; [|done].
  apply (neutral_lift _ (fun tp => zindex (TypeSection m) t = Ok tp)) in H4 as [E4 H4%type_lookup]; [|done].
  rewrite <- (l_types _ _ _ _ _ _ _ Hl) in H4.
  destruct (get_spec _ _ false _ (l_sigs _ _ _ _ _ _ _ Hl) cache_types H4) as (sg & f & Hg & Hf & Ht & Hc).
  eapply (follows_call _ b index num sg f s4); try done; [| |congruence].
  - cbn. rewrite (l_funcs _ _ _ _ _ _ _ Hl), H3. cbn. by rewrite Hg.
  - destruct (callSignature_effect "call" _ _ _ Hc) as (ins & -> & He). rewrite app_nil_r.
    eapply effect_moves; [|exact H]. apply effect_bind_neutral; [exact He|intros; neut].
Qed.

(** Skips the neutral operation at the front of [H]; [E : stack _ = stack s]. *)
Ltac skip H E :=
  let a := fresh "a" in let s1 := fresh "s" in let E' := fresh "E" in
  eapply (neutral_run _ _ _ _ _ any) in H as (a & s1 & _ & E' & H);
    [rewrite <- E' in E; clear E'|solve [neut]].

(** The end of an indirect call: one more operand, then the callee's. *)
Lemma call_tail_moves extra t name index tp sg (f : M unit -> M unit) s1 :
  (forall o i, effect o i [] any -> effect (f o) i [] any) ->
  image t extra -> call_sig tp [extra] sg -> zindex (TypeSection m) index = Ok tp ->
  (f (popAndVerifyType m t);; ft ← lift (zindex (TypeSection m) index);
   validateCallSignature m name ft;; mret tt) s1 = Ok (tt, s') ->
  moves s1 s' (reverse (sig_in sg)) (reverse (sig_out sg)).
Proof.
  intros Hf Ht Hc Htp H. destruct (callSignature_effect name _ _ _ Hc) as (ins & -> & He).
  rewrite reverse_app. eapply effect_moves; [|exact H].
  apply (effect_pop_bind _ _ any [extra]); [by apply Hf, popT_effect|]. intros _ _.
  apply (effect_neutral_bind _ _ (fun ft => ft = tp)); [apply neutral_lift; congruence|]. intros ft ->.
  apply effect_bind_neutral; [exact He|intros; neut].
Qed.

(** The callee's type, when the run succeeded. *)
Lemma call_tail_type index (o : M unit) (k : FunctionType -> M unit) s1 :
  (o;; ft ← lift (zindex (TypeSection m) index); k ft) s1 = Ok (tt, s') ->
  exists tp, zindex (TypeSection m) index = Ok tp.
Proof.
  intros H. run H u s2 H2. run H tp s3 H3. exists tp.
  by apply (neutral_lift _ (fun tp => zindex (TypeSection m) index = Ok tp)) in H3 as [_ ?].
Qed.

Lemma callIndirect_follows :
  validateCallIndirect m enabledFeatures tables functionType body OpcodeCallIndirect s = Ok (tt, s') ->
  follows s' c base OpcodeCallIndirect.
Proof.
  intros H. unfold validateCallIndirect in H. run H a s1 H1. injection H1 as _ <-. run H p s2 H2.
  destruct p as [index num]. unfold loadU32, bodyFrom in H2.
  run H2 b s3 H3. run H3 q s4 H4. injection H4 as <- <-. apply wrap_Ok in H2.
  apply (neutral_lift _ (fun b => zslice body (pc s + 1 + 0) = Ok b)) in H3 as [E3 H3]; [|done].
  apply (neutral_lift _ (fun p => LoadUint32 b = Ok p)) in H2 as [E2 H2]; [|done].
  rewrite Z.add_0_r, <- Hpc in H3. rewrite E3 in E2. simpl in E2. clear E3 s3.
  do 7 skip H E2. destruct (call_tail_type _ _ _ _ H) as [tp Htp].
  pose proof (type_lookup _ _ Htp) as Hz. rewrite <- (l_types _ _ _ _ _ _ _ Hl) in Hz.
  destruct (get_spec _ _ true _ (l_sigs _ _ _ _ _ _ _ Hl) cache_types Hz) as (sg & f & Hg & Hf & Ht & Hc).
  match type of E2 with stack ?x = _ => eapply (follows_call _ b index num sg f x) end; try done;
    [|by eapply (call_tail_moves _ ValueTypeI32); eauto using effect_failAs].
  cbn. by rewrite Hg.
Qed.

Lemma callRef_follows :
  validateCallRef m enabledFeatures functionType body OpcodeCallRef s = Ok (tt, s') ->
  follows s' c base OpcodeCallRef.
Proof.
  intros H. unfold validateCallRef in H.
  run H a s0 H0. unfold invalidAs, requireEnabled in H0. apply wrap_Ok in H0.
  assert (s0 = s) as -> by (unfold lift in H0; destruct (RequireEnabled _ _); simpl in H0; congruence).
  apply (run_index _ _ _ _ _ Hpc) in H as (b & index & num & s1 & Hb & Hv & E1 & H).
  skip H E1. destruct (call_tail_type _ _ _ _ H) as [tp Htp].
  pose proof (type_lookup _ _ Htp) as Hz. rewrite <- (l_types _ _ _ _ _ _ _ Hl) in Hz.
  destruct (getCallRef_spec _ _ _ (l_sigs _ _ _ _ _ _ _ Hl) cache_types Hz) as (sg & f & Hg & Hf & Ht & Hc).
  match type of E1 with stack ?x = _ => eapply (follows_call _ b index num sg f x) end; try done;
    [|by eapply call_tail_moves; eauto using effect_wrap, concrete_image].
  cbn. by rewrite Hg.
Qed.

End Calls.

(** *** Parametric instructions, whose operand type the compiler infers *)

Lemma drop_follows s s' c base :
  linked' c -> stacks_match s c base -> validateDrop s = Ok (tt, s') -> follows s' c base OpcodeDrop.
Proof.
  intros Hl [(us & Hu & Hc) Hh] H. unfold validateDrop in H. run H v s1 H1. apply wrap_Ok in H1. injection H as <-.
  destruct (pop_mirror _ _ _ _ Hu H1) as (u & us0 & -> & Hv & Hs1).
  exists 0, (set_c_stack (us0 ++ base) (c_stackLenInUint64 c - slots u) c). split; [|split; [split|]].
  - unfold applyToStack. simpl. rewrite (l_reachable _ _ _ _ _ _ _ Hl). cbn.
    unfold applySignature. cbn. unfold stackPop. rewrite Hc. cbn. by rewrite Z.eqb_refl.
  - eauto.
  - simpl. rewrite Hh, Hc. simpl. lia.
  - by apply linked_stack.
Qed.

Lemma selectType_neutral : neutral (selectType m enabledFeatures body) any.
Proof. unfold selectType. neut. Qed.

(** Both operands have the same image, which the result keeps. *)
Lemma select_moves op s s' us :
  one_of op [OpcodeSelect; OpcodeTypedSelect] = true -> mirrors (stack s) us ->
  validateSelect m enabledFeatures body op s = Ok (tt, s') ->
  exists u us0, us = unsignedTypeI32 :: u :: u :: us0 /\ mirrors (stack s') (u :: us0).
Proof.
  intros _ Hu H. unfold validateSelect in H. run H a s1 H1.
  destruct (effect_wrap _ _ _ _ _ (popT_effect m ValueTypeI32 unsignedTypeI32 eq_refl) _ _ _ _ Hu H1)
    as (us1 & -> & Hu1 & _). simpl in Hu1.
  run H v1 s2 H2. apply wrap_Ok in H2. destruct (pop_mirror _ _ _ _ Hu1 H2) as (u1 & us2 & -> & Hv1 & Hu2).
  run H v2 s3 H3. apply wrap_Ok in H3. destruct (pop_mirror _ _ _ _ Hu2 H3) as (u2 & us3 & -> & Hv2 & Hu3).
  eapply neutral_run in H as (b & s4 & _ & E4 & H); [|destruct (op =? _); [apply selectType_neutral|neut]].
  rewrite (image_not_unknown _ _ Hv1), (image_not_unknown _ _ Hv2) in H. simpl in H.
  run H x s5 H5. run H5 y s6 H6. apply neutral_guard in H5 as [E5 ->].
  apply (neutral_lift _ (fun b => areRefTypesCompatible m v1 v2 = Ok b)) in H6 as [E6 H6]; [|done].
  assert (u1 = u2) as -> by exact (image_inj v2 _ _ (proj1 (compatible_image _ _ _ u1 H6) Hv1) Hv2).
  run H z s7 H7. apply (neutral_lift _ any) in H7 as [E7 _]; [|done].
  rewrite <- E4, <- E6, <- E5, <- E7 in Hu3.
  exists u2, us3. split; [done|]. destruct z.
  - by destruct (push_effect v2 u2 Hv2 _ _ _ _ Hu3 H) as (us4 & -> & ? & _).
  - by destruct (push_effect v1 u2 Hv1 _ _ _ _ Hu3 H) as (us4 & -> & ? & _).
Qed.

Lemma select_follows op s s' c base :
  linked' c -> stacks_match s c base -> one_of op [OpcodeSelect; OpcodeTypedSelect] = true ->
  validateSelect m enabledFeatures body op s = Ok (tt, s') -> follows s' c base op.
Proof.
  intros Hl [(us & Hu & Hc) Hh] Hop H. destruct (select_moves _ _ _ _ Hop Hu H) as (u & us0 & -> & Hu').
  exists 0, (set_c_stack (u :: us0 ++ base) (c_stackLenInUint64 c - 1 - slots u) c). split; [|split; [split|]].
  - assert (indexedOpcode op = false /\ wasmOpcodeSignature c op 0 = Ok (signature_UnknownUnknownI32_Unknown, c))
      as [Ei Es] by (pattern op; refine (one_of_elim _ _ _ Hop _); repeat constructor).
    unfold applyToStack. rewrite Ei. simpl. rewrite (l_reachable _ _ _ _ _ _ _ Hl), Es. cbn.
    unfold applySignature. cbn. unfold stackPop. rewrite Hc. cbn. repeat (rewrite Z.eqb_refl; cbn).
    unfold stackPush, set_c_stack. simpl. change (slots unsignedTypeI32) with 1. do 3 f_equal. lia.
  - by exists (u :: us0).
  - simpl. rewrite Hh, Hc. simpl. change (slots unsignedTypeI32) with 1. lia.
  - by apply linked_stack.
Qed.

(** *** Prefixed instructions *)

Lemma follows_prefixed op (sig : Z -> res signature) (o : Z -> M unit) s s' s1 c base b :
  linked' c -> stacks_match s c base -> indexedOpcode op = false ->
  wasmOpcodeSignature c op 0 = (let! x := zindex (c_body c) (c_pc c + 1) in pureSig c (sig x)) ->
  zindex body (c_pc c + 1) = Ok b -> agrees (sig b) (o b) -> o b s1 = Ok (tt, s') -> stack s1 = stack s ->
  follows s' c base op.
Proof.
  intros Hl Hs Hi Hsig Hb [Hr|(sg & Es & He)] Ho E; [by destruct (Hr _ _ _ Ho)|].
  eapply follows_plain; [done..| |].
  - rewrite Hsig, (l_body _ _ _ _ _ _ _ Hl), Hb. simpl. by rewrite Es.
  - eapply moves_from; [by eapply effect_moves|done].
Qed.

(** [advance 1;; b ← bodyAt; o b] *)
Lemma run_byte (o : Z -> M unit) s s' :
  (advance 1;; b ← bodyAt body; o b) s = Ok (tt, s') ->
  exists b s1, zindex body (pc s + 1) = Ok b /\ stack s1 = stack s /\ o b s1 = Ok (tt, s').
Proof.
  intros H. run H a s1 H1. injection H1 as _ <-. run H b s2 H2. run H2 p s3 H3. injection H3 as <- <-.
  apply (neutral_lift _ (fun b => zindex body (pc s + 1) = Ok b)) in H2 as [E H2]; [|done].
  exists b, s2. by rewrite E.
Qed.

Lemma LoadUint32_small b l : 0 <= b < 128 -> LoadUint32 (b :: l) = Ok (b, 1).
Proof.
  intros Hb. unfold LoadUint32, decodeUint32.
  change (Z.to_nat maxVarintLen32) with 5%nat. cbn [decodeUint32_loop].
  change (loadByte (b :: l) 0 tt) with (Ok (b, tt)). cbn [res_bind].
  rewrite (proj2 (Z.ltb_lt b 128)) by lia. cbn [andb Z.eqb maxVarintLen32 Z.sub res_bind].
  rewrite Z.shiftl_0_r, Z.lor_0_l, wrap32_small by (unfold is_u32; lia). done.
Qed.

(** The validator reads the opcode after the prefix 0xfc as a LEB128 number;
    encoded in one byte, it is the byte the compiler reads. *)
Lemma run_misc s s' b :
  zindex body (pc s + 1) = Ok b -> 0 <= b < 128 ->
  validateMisc m enabledFeatures memory tables body s = Ok (tt, s') ->
  exists s1, stack s1 = stack s /\ miscInstruction m enabledFeatures memory tables body b s1 = Ok (tt, s').
Proof.
  intros Hb Hr H. run H a s1 H1. injection H1 as _ <-. run H v s2 H2.
  apply readU32_Ok in H2 as (bs & num & Hs & Hv & ->). simpl in Hs.
  assert (exists l, bs = b :: l) as [l ->].
  { unfold zslice in Hs. destruct (_ && _); [|done]. injection Hs as <-. unfold zindex, zlookup in Hb.
    destruct (0 <=? pc s + 1); [|done]. destruct (body !! _) as [b'|] eqn:E; [|done]. injection Hb as ->.
    rewrite (drop_S _ _ _ E). eauto. }
  rewrite (LoadUint32_small b l Hr) in Hv. injection Hv as <- <-.
  unfold wrap8 in H. rewrite Z.mod_small in H by lia. rewrite Z.eqb_refl in H. simpl in H. eexists. split; [|exact H]. done.
Qed.

(** The opcode after the prefix is there. *)
Lemma misc_byte s s' : validateMisc m enabledFeatures memory tables body s = Ok (tt, s') -> exists b, zindex body (pc s + 1) = Ok b.
Proof.
  intros H. run H a s1 H1. injection H1 as _ <-. run H v s2 H2.
  apply readU32_Ok in H2 as (bs & num & Hs & Hv & _). simpl in Hs. unfold zslice in Hs.
  destruct (0 <=? pc s + 1) eqn:E0; [|done]. cbn [andb] in Hs. destruct (_ <=? zlen body); [|done]. injection Hs as Hs. unfold zindex, zlookup. rewrite E0.
  destruct (body !! Z.to_nat (pc s + 1)) as [b|] eqn:E; [by exists b|]. exfalso. apply lookup_ge_None_1 in E. rewrite drop_ge in Hs by done.
  rewrite <- Hs in Hv. done.
Qed.
(** The compiler refuses an opcode that is not one byte. *)
Lemma misc_refused c b : c_unreachable c = false -> zindex (c_body c) (c_pc c + 1) = Ok b -> ~ 0 <= b < 128 ->
  applyToStack c OpcodeMiscPrefix = Err "unsupported misc instruction in interpreterir".
Proof.
  intros Hu Hb Hr. unfold applyToStack. change (indexedOpcode OpcodeMiscPrefix) with false. cbn iota. cbn [res_bind]. rewrite Hu.
  change (wasmOpcodeSignature c OpcodeMiscPrefix 0) with (let! miscOp := zindex (c_body c) (c_pc c + 1) in pureSig c (miscSignature miscOp)).
  rewrite Hb. cbn [res_bind]. assert (miscSignature b = Err "unsupported misc instruction in interpreterir") as E; [|unfold pureSig; by rewrite E].
  assert (Hne : forall k, 0 <= k < 128 -> (b =? k) = false) by (intros k Hk; apply Z.eqb_neq; lia).
  unfold miscSignature, one_of. cbn [existsb]. rewrite !Hne by (vm_compute; split; congruence). done.
Qed.

(** *** One instruction *)

(** Structured control, branches, throws and tail calls: the compiler treats
    their operands outside [applyToStack]. *)
Definition controlOpcode (op : Z) : bool :=
  one_of op [OpcodeUnreachable; OpcodeBlock; OpcodeLoop; OpcodeIf; OpcodeElse; OpcodeEnd; OpcodeBr; OpcodeBrIf;
    OpcodeBrTable; OpcodeReturn; OpcodeThrow; OpcodeThrowRef; OpcodeTryTable; OpcodeTailCallReturnCall;
    OpcodeTailCallReturnCallIndirect; OpcodeReturnCallRef; OpcodeBrOnNull; OpcodeBrOnNonNull].

(** The next test of the dispatch in [H]. *)
Ltac next_test H E := match type of H with (if ?b then _ else _) _ = _ => destruct b eqn:E end.
(** A test that only control opcodes pass. *)
Ltac control_test H :=
  let E := fresh "E" in
  next_test H E; [apply Z.eqb_eq in E; subst; discriminate|clear E].

Lemma instruction_follows op s s' c base :
  linked' c -> stacks_match s c base -> c_pc c = pc s -> controlOpcode op = false ->
  (op = OpcodeMiscPrefix -> exists b, zindex body (pc s + 1) = Ok b /\ 0 <= b < 128) ->
  validateInstruction m enabledFeatures functions globals memory tables tags declaredFunctionIndexes functionType
    localTypes body op s = Ok (tt, s') ->
  follows s' c base op.
Proof.
  intros Hl Hs Hpc Hctl Hmisc H. unfold validateInstruction in H.
  pose proof (k_tables _ _ _ _ _ Hknown) as Htab.
  next_test H E; [destruct (plain_memory c op E); by eapply follows_fixed, H; [..|apply memory_agrees]|clear E].
  next_test H E; [destruct (plain_memorySize c op E); by eapply follows_fixed, H; [..|apply memorySizeGrow_agrees]|clear E].
  next_test H E; [destruct (plain_const c op E); by eapply follows_fixed, H; [..|apply const_agrees]|clear E].
  next_test H E; [by eapply localGlobal_follows|clear E].
  do 6 control_test H.
  next_test H E; [apply one_of_cons in E as [->|[->|E]%one_of_cons]; [by eapply call_follows|done|done]|clear E].
  next_test H E; [apply one_of_cons in E as [->|[->|E]%one_of_cons]; [by eapply callIndirect_follows|done|done]|clear E].
  next_test H E; [apply one_of_cons in E as [->|[->|E]%one_of_cons]; [by eapply callRef_follows|done|done]|clear E].
  next_test H E; [destruct (plain_numeric c op E); by eapply follows_fixed, H; [..|apply numeric_agrees]|clear E].
  next_test H E; [destruct (plain_ref c op E); by eapply follows_fixed, H; [..|apply ref_agrees]|clear E].
  next_test H E; [apply Z.eqb_eq in E; subst; eapply follows_plain; [done..|]; by eapply effect_moves, H; apply refAsNonNull_effect|clear E].
  do 2 control_test H.
  next_test H E.
  { apply one_of_cons in E as [->|[->|E]%one_of_cons]; [| |done]; (eapply follows_plain; [done..|]).
    - by eapply effect_moves, H; apply tableGet_effect.
    - by eapply effect_moves, H; apply tableSet_effect. }
  clear E.
  next_test H E1; [|next_test H E2; [|control_test H; next_test H E3; [|do 5 control_test H]]].
  - apply Z.eqb_eq in E1. subst op. destruct (Hmisc eq_refl) as (b & Hb & Hr).
    destruct (run_misc _ _ _ Hb Hr H) as (s1 & Es & Hi). rewrite <- Hpc in Hb.
    eapply (follows_prefixed _ miscSignature); eauto. by apply misc_agrees.
  - apply Z.eqb_eq in E2. subst op. apply run_byte in H as (b & s1 & Hb & Es & H). rewrite <- Hpc in Hb.
    eapply (follows_prefixed _ vecSignature); eauto. apply vec_agrees.
  - apply Z.eqb_eq in E3. subst op. apply run_byte in H as (b & s1 & Hb & Es & H). rewrite <- Hpc in Hb.
    eapply (follows_prefixed _ atomicSignature); eauto. apply atomic_agrees.
  - next_test H E; [apply Z.eqb_eq in E; subst; by eapply drop_follows|clear E].
    next_test H E; [by eapply select_follows|clear E]. control_test H.
    next_test H E; [|by destruct (_ && _)].
    apply Z.eqb_eq in E. subst op. injection H as <-. eapply follows_plain; [done..|].
    intros us Hu. by exists us.
Qed.

End Simulation.

(** A vector takes two 64-bit slots on the validator's side, any other value one. *)
Definition valueSlots (vs : list ValueType) : Z :=
  foldr (fun v n => (if v =? ValueTypeV128 then 2 else 1) + n) 0 vs.

Lemma image_slots v u : image v u -> slots u = if v =? ValueTypeV128 then 2 else 1.
Proof.
  unfold image, wasmValueTypeTounsignedType. intros H.
  repeat (destruct (_ =? _) eqn:? in H; bools; [subst; injection H as <-; reflexivity|]).
  destruct (v =? ValueTypeV128) eqn:E; bools; [by subst|]. repeat case_match; simplify_eq; reflexivity.
Qed.

Lemma mirrors_slots vs us : mirrors vs us -> height us = valueSlots vs.
Proof. induction 1 as [|v u vs us Hv _ IH]; simpl; [done|]. by rewrite IH, (image_slots v u). Qed.

Lemma stacks_match_slots s c base : stacks_match s c base ->
  c_stackLenInUint64 c = valueSlots (stack s) + height base.
Proof. intros [(us & Hm & Hc) ->]. by rewrite Hc, height_app, (mirrors_slots (stack s)). Qed.

(** ** Properties *)

(** C3: The interpreter's compiler follows the validator.  On every instruction
    but structured control, branches, throws and tail calls, in reachable code:
    when the validator accepts the instruction, [applyToStack] succeeds (the
    comment of [stackPop] relies on this, having no bound check), its stack is
    again the image of the validator's above the locals, it counts two 64-bit
    slots for each vector of the validator's stack and one for each other value,
    and the cache of call signatures stays coherent.  The one exception is an
    instruction with the prefix 0xfc whose opcode is encoded in more than one byte:
    the validator reads a LEB128 number and accepts it, the compiler reads one byte
    and refuses the function with an error.  All types of the module are value
    types, its tables hold references and the function has fewer than 2^32 locals, as
    decoding ensures; the compiler works on the same module and body. *)
Theorem compiler_follows_validator (m : Module) (enabledFeatures : CoreFeatures) (functions : list Index)
    (globals : list GlobalType) (memory : option Memory) (tables : list Table) (tags : list Index)
    (declaredFunctionIndexes : gset Z) (functionType : FunctionType) (localTypes : list ValueType) (body : list Z)
    (op : Z) (s s' : stacks) (c : compiler) (base : list unsignedType) :
  known_types m globals tables functionType localTypes ->
  linked m functions globals functionType localTypes body c -> stacks_match s c base -> c_pc c = pc s ->
  controlOpcode op = false ->
  validateInstruction m enabledFeatures functions globals memory tables tags declaredFunctionIndexes functionType
    localTypes body op s = Ok (tt, s') ->
  (exists index c', applyToStack c op = Ok (index, c') /\ stacks_match s' c' base /\
    c_stackLenInUint64 c' = valueSlots (stack s') + height base /\
    linked m functions globals functionType localTypes body c') \/
  (op = OpcodeMiscPrefix /\ (exists b, zindex body (pc s + 1) = Ok b /\ ~ 0 <= b < 128) /\
   applyToStack c op = Err "unsupported misc instruction in interpreterir").
Proof.
  intros H1 H2 H3 H4 H5 H7.
  assert (Hm : (op = OpcodeMiscPrefix -> exists b, zindex body (pc s + 1) = Ok b /\ 0 <= b < 128) \/
    (op = OpcodeMiscPrefix /\ exists b, zindex body (pc s + 1) = Ok b /\ ~ 0 <= b < 128)).
  { destruct (Z.eq_dec op OpcodeMiscPrefix) as [->|]; [|by left]. destruct (misc_byte m enabledFeatures memory tables body s s' H7) as [b Hb].
    destruct (decide (0 <= b < 128)); [left|right]; eauto. }
  destruct Hm as [H6|[-> (b & Hb & Hr)]].
  - left. destruct (instruction_follows _ _ _ _ _ _ _ _ _ _ _ H1 _ _ _ _ _ H2 H3 H4 H5 H6 H7) as (index & c' & E & Hm & Hl).
    exists index, c'. split_and!; [done|done|by apply stacks_match_slots|done].
  - right. split; [done|]. split; [by exists b|]. apply (misc_refused c b); [apply (l_reachable _ _ _ _ _ _ _ H2)| |done].
    by rewrite (l_body _ _ _ _ _ _ _ H2), H4.
Qed.

Definition example_fn : FunctionType := mkFunctionType [ValueTypeI32] [ValueTypeI64] 1 1 1 0.
Definition example_module : Module := mkModule [example_fn] [0] [] [] 0 None.
Definition example_compiler (st : list unsignedType) (n p : Z) (body : list Z) : compiler :=
  mkCompiler st n false p body example_fn [] [0] [] (mkSigCache [None] [None] [None] [example_fn]).

(** call 0 with an i32 above the function's own parameter. *)
Lemma compiler_follows_validator_witness :
  exists index c', applyToStack (example_compiler [0; 0] 2 0 [OpcodeCall; 0; OpcodeEnd]) OpcodeCall = Ok (index, c') /\
    stacks_match (mkStacks 1 [ValueTypeI64] [] 1 [] (Some ∅)) c' [0] /\ c_stackLenInUint64 c' = 1 + 1 /\
    linked example_module [0] [] example_fn [] [OpcodeCall; 0; OpcodeEnd] c'.
Proof.
  destruct (compiler_follows_validator example_module CoreFeaturesV2 [0] [] None [] [] ∅ example_fn []
    [OpcodeCall; 0; OpcodeEnd] OpcodeCall (mkStacks 0 [ValueTypeI32] [] 1 [] (Some ∅)) (mkStacks 1 [ValueTypeI64] [] 1 [] (Some ∅))
    (example_compiler [0; 0] 2 0 [OpcodeCall; 0; OpcodeEnd]) [0]) as [H|[H _]]; [..|exact H|discriminate H].
  - split; [|by exists [0]; repeat constructor|by exists []; repeat constructor|done|done|vm_compute; done].
    repeat constructor; [by exists [0]; repeat constructor|by exists [1]; repeat constructor].
  - split; try done. by repeat split; intros [|i].
  - split; [|done]. exists [0]. by repeat constructor.
  - done.
  - done.
  - vm_compute. reflexivity.
Defined.

(** The cache of call signatures is transparent.  On a coherent cache, such
    as an empty one, [get] and [getCallRef] return the signature of the callee's
    type (its parameters with the table index or the reference on top), whether
    it was cached or not, and leave a coherent cache for the same types. *)
Theorem call_signature_cache (f : funcTypeToIRSignatures) (t : Index) (tp : FunctionType) :
  sigs_wf f -> types_known (wasmTypes f) -> zlookup (wasmTypes f) t = Some tp ->
  (forall indirect, exists sg f', get f t indirect = Ok (sg, f') /\ sigs_wf f' /\ wasmTypes f' = wasmTypes f /\
     call_sig tp (if indirect then [unsignedTypeI32] else []) sg) /\
  (exists sg f', getCallRef f t = Ok (sg, f') /\ sigs_wf f' /\ wasmTypes f' = wasmTypes f /\
     call_sig tp [unsignedTypeI64] sg) /\
  sigs_wf (mkSigCache (replicate (length (wasmTypes f)) None) (replicate (length (wasmTypes f)) None)
             (replicate (length (wasmTypes f)) None) (wasmTypes f)).
Proof.
  intros Hf Hk Ht. split_and!.
  - intros indirect. by apply get_spec.
  - by apply getCallRef_spec.
  - repeat split; simpl; try apply length_replicate; intros i tp' sg _ [? _]%lookup_replicate; done.
Qed.

Lemma call_signature_cache_witness :
  exists sg f', get (mkSigCache [None] [None] [None] [example_fn]) 0 true = Ok (sg, f') /\ sigs_wf f' /\
    wasmTypes f' = [example_fn] /\ call_sig example_fn [unsignedTypeI32] sg.
Proof.
  refine (proj1 (call_signature_cache (mkSigCache [None] [None] [None] [example_fn]) 0 example_fn _ _ eq_refl) true).
  - by repeat split; intros [|i].
  - repeat constructor; [by exists [0]; repeat constructor|by exists [1]; repeat constructor].
Defined.

(** The exception for the encoding occurs: the validator reads the opcode
    of a 0xfc instruction as a LEB128 number, [wasmOpcodeSignature] as one byte.
    A body that writes i32.trunc_sat_f32_s as 0xfc 0x80 0x00 is accepted by the
    validator and refused by the compiler, while with 0xfc 0x00 both accept it. *)
Theorem misc_opcode_encoding :
  let body misc := [OpcodeF32Const; 0; 0; 0; 0; OpcodeMiscPrefix] ++ misc ++ [OpcodeDrop; OpcodeEnd] in
  let compile misc := applyToStack (example_compiler [unsignedTypeF32] 1 5 (body misc)) OpcodeMiscPrefix in
  validateSingle CoreFeaturesV2 [] (body [0x80; 0x00]) = Ok tt /\
  compile [0x80; 0x00] = Err "unsupported misc instruction in interpreterir" /\
  validateSingle CoreFeaturesV2 [] (body [0x00]) = Ok tt /\
  compile [0x00] = Ok (0, example_compiler [unsignedTypeI32] 1 5 (body [0x00])).
Proof. vm_compute. split_and!; reflexivity. Qed.
