(* ===== verification/Memory.v ===== *)
(** * Linear memory (src/internal/wasm/memory.go)

    [MemoryInstance] with the accessors of [api.Memory], [NewMemoryInstance],
    [Grow], and the wait queues of the threads proposal.

    [Buffer] is the visible part of the Go slice and [bufferCap] its capacity:
    the bytes between the two are zero, since memory never shrinks.  After an
    [append] Go may leave more capacity than the length; the model keeps the
    length, the least it guarantees.  The custom allocator of
    experimental/memory.go is a record of functions, a parameter. *)

From S2P Require Import Prelude Types.

Definition MemoryPageSize : Z := 65536.
Definition MemoryLimitPages : Z := 65536.
Definition MemoryPageSizeInBits : Z := 16.

(** [experimental.LinearMemory]: from the current contents and a size, the new
    contents, their capacity and whether the address is unchanged; [None] is a
    nil buffer. *)
Record LinearMemory := mkLinearMemory {
  Reallocate : list Z -> Z -> option (list Z * Z * bool);
}.

Record MemoryInstance := mkMemoryInstance {
  Buffer : list Z;
  bufferCap : Z;
  Min : Z;
  Cap : Z;
  Max : Z;
  Shared : bool;
  expBuffer : option LinearMemory;
}.

Definition set_Buffer (b : list Z) (m : MemoryInstance) : MemoryInstance :=
  mkMemoryInstance b (bufferCap m) (Min m) (Cap m) (Max m) (Shared m) (expBuffer m).

(** ** Sizes *)

Definition MemoryPagesToBytesNum (pages : Z) : Z := wrap64 (Z.shiftl pages MemoryPageSizeInBits).
Definition memoryBytesNumToPages (bytesNum : Z) : Z := wrap32 (Z.shiftr bytesNum MemoryPageSizeInBits).
Definition Pages (m : MemoryInstance) : Z := memoryBytesNumToPages (zlen (Buffer m)).
Definition Size (m : MemoryInstance) : Z := wrap32 (zlen (Buffer m)).

Definition hasSize (m : MemoryInstance) (offset byteCount : Z) : bool :=
  wrap64 (offset + byteCount) <=? zlen (Buffer m).

Definition zeros (n : Z) : list Z := replicate (Z.to_nat n) 0.

(** [make([]byte, len, cap)] *)
Definition makeSlice (len cap : Z) : res (list Z * Z) :=
  if len <=? cap then Ok (zeros len, cap) else Panic "makeslice: cap out of range".

Definition NewMemoryInstance (memSec : Memory) (allocator : option (Z -> Z -> LinearMemory)) : res MemoryInstance :=
  let minBytes := MemoryPagesToBytesNum (MemMin memSec) in
  let capBytes := MemoryPagesToBytesNum (MemCap memSec) in
  let maxBytes := MemoryPagesToBytesNum (MemMax memSec) in
  let! (buffer, cap, exp) :=
    match allocator with
    | Some Allocate =>
        let exp := Allocate capBytes maxBytes in
        let '(buffer, cap) := match Reallocate exp [] minBytes with
                              | Some (b, c, _) => (b, c)
                              | None => ([], 0)
                              end in
        if minBytes <=? cap then Ok (buffer, cap, Some exp) else Panic "slice bounds out of range"
    | None =>
        let! (buffer, cap) := makeSlice minBytes (if IsShared memSec then maxBytes else capBytes) in
        Ok (buffer, cap, None)
    end in
  Ok (mkMemoryInstance buffer cap (MemMin memSec) (memoryBytesNumToPages cap) (MemMax memSec) (IsShared memSec) exp).

(** ** Accessors

    Reads return a value and whether the access was in bounds; [offset+2] and
    [offset+byteCount] are 32-bit additions. *)

(** [m.Buffer[lo:hi]] *)
Definition slice2 (l : list Z) (lo hi : Z) : res (list Z) :=
  if (0 <=? lo) && (lo <=? hi) && (hi <=? zlen l)
  then Ok (take (Z.to_nat (hi - lo)) (drop (Z.to_nat lo) l))
  else Panic "slice bounds out of range".

(** [binary.LittleEndian.UintN(b)] reads the first [n] bytes of [b]. *)
Definition leUint (n : nat) (b : list Z) : res Z :=
  if Z.of_nat n <=? zlen b then Ok (le_decode (take n b)) else Panic "index out of range".

Definition ReadByte (m : MemoryInstance) (offset : Z) : res (Z * bool) :=
  if negb (hasSize m offset 1) then Ok (0, false)
  else let! b := zindex (Buffer m) offset in Ok (b, true).

Definition ReadUint16Le (m : MemoryInstance) (offset : Z) : res (Z * bool) :=
  if negb (hasSize m offset 2) then Ok (0, false)
  else
    let! b := slice2 (Buffer m) offset (wrap32 (offset + 2)) in
    let! v := leUint 2 b in Ok (v, true).

Definition readUint32Le (m : MemoryInstance) (offset : Z) : res (Z * bool) :=
  if negb (hasSize m offset 4) then Ok (0, false)
  else let! b := zslice (Buffer m) offset in let! v := leUint 4 b in Ok (v, true).

Definition readUint64Le (m : MemoryInstance) (offset : Z) : res (Z * bool) :=
  if negb (hasSize m offset 8) then Ok (0, false)
  else let! b := zslice (Buffer m) offset in let! v := leUint 8 b in Ok (v, true).

Definition ReadUint32Le := readUint32Le.
Definition ReadUint64Le := readUint64Le.

Definition Read (m : MemoryInstance) (offset byteCount : Z) : res (list Z * bool) :=
  if negb (hasSize m offset byteCount) then Ok ([], false)
  else let! b := slice2 (Buffer m) offset (wrap32 (offset + byteCount)) in Ok (b, true).

(** [copy(l[offset:], val)] *)
Definition copyAt (l : list Z) (offset : Z) (val : list Z) : res (list Z) :=
  let! tl := zslice l offset in
  let n := Nat.min (length val) (length tl) in
  Ok (take (Z.to_nat offset) l ++ take n val ++ drop n tl).

(** [binary.LittleEndian.PutUintN(l[offset:], v)] *)
Definition putUint (n : nat) (l : list Z) (offset v : Z) : res (list Z) :=
  let! tl := zslice l offset in
  if Z.of_nat n <=? zlen tl then copyAt l offset (le_encode n v) else Panic "index out of range".

(** The guard and the store that every write shares: the result and the memory. *)
Definition writeWith (m : MemoryInstance) (offset n : Z) (store : list Z -> res (list Z)) : res (bool * MemoryInstance) :=
  if negb (hasSize m offset n) then Ok (false, m)
  else let! b := store (Buffer m) in Ok (true, set_Buffer b m).

Definition WriteByte (m : MemoryInstance) (offset v : Z) : res (bool * MemoryInstance) :=
  writeWith m offset 1 (fun l =>
    if offset <? zlen l then Ok (<[Z.to_nat offset := v]> l) else Panic "index out of range").
Definition WriteUint16Le (m : MemoryInstance) (offset v : Z) : res (bool * MemoryInstance) :=
  writeWith m offset 2 (fun l => putUint 2 l offset v).
Definition writeUint32Le (m : MemoryInstance) (offset v : Z) : res (bool * MemoryInstance) :=
  writeWith m offset 4 (fun l => putUint 4 l offset v).
Definition writeUint64Le (m : MemoryInstance) (offset v : Z) : res (bool * MemoryInstance) :=
  writeWith m offset 8 (fun l => putUint 8 l offset v).
Definition WriteUint32Le := writeUint32Le.
Definition WriteUint64Le := writeUint64Le.
Definition Write (m : MemoryInstance) (offset : Z) (val : list Z) : res (bool * MemoryInstance) :=
  writeWith m offset (zlen val) (fun l => copyAt l offset val).
(** The bytes of the string. *)
Definition WriteString := Write.

(** ** Grow *)

(** Returns the previous size in pages and whether the memory has grown.  The
    length of a shared memory is stored without the bound check of a slice
    expression.  The notification of the engine ([MemoryGrown]) is not part of
    the memory. *)
Definition Grow (m : MemoryInstance) (delta : Z) : res (Z * bool * MemoryInstance) :=
  let currentPages := Pages m in
  if delta =? 0 then Ok (currentPages, true, m)
  else
    let newPages := wrap32 (currentPages + delta) in
    if (newPages >? Max m) || (sgn32 delta <? 0) then Ok (0, false, m)
    else
      match expBuffer m with
      | Some e =>
          match Reallocate e (Buffer m) (MemoryPagesToBytesNum newPages) with
          | None => Ok (0, false, m)
          | Some (buffer, cap, sameAddress) =>
              if Shared m then
                if negb sameAddress then Panic "shared memory cannot move, this is a bug in the memory allocator"
                else Ok (currentPages, true,
                         mkMemoryInstance buffer cap (Min m) (memoryBytesNumToPages cap) (Max m) (Shared m) (expBuffer m))
              else Ok (currentPages, true,
                       mkMemoryInstance buffer cap (Min m) newPages (Max m) (Shared m) (expBuffer m))
          end
      | None =>
          if newPages >? Cap m then
            if Shared m then Panic "shared memory cannot be grown, this is a bug in wazero"
            else
              let buffer := Buffer m ++ zeros (MemoryPagesToBytesNum delta) in
              Ok (currentPages, true,
                  mkMemoryInstance buffer (zlen buffer) (Min m) newPages (Max m) (Shared m) (expBuffer m))
          else if Shared m || (MemoryPagesToBytesNum newPages <=? bufferCap m) then
            Ok (currentPages, true,
                set_Buffer (Buffer m ++ zeros (MemoryPagesToBytesNum newPages - zlen (Buffer m))) m)
          else Panic "slice bounds out of range"
      end.

(** ** Invariant *)

(** A memory of [n] pages without a custom allocator. *)
Record mem_wf (n : Z) (m : MemoryInstance) : Prop := {
  wf_bytes : bytes_ok (Buffer m);
  wf_pages : zlen (Buffer m) = n * MemoryPageSize;
  wf_max : n <= Max m <= MemoryLimitPages;
  wf_capPages : n <= Cap m;
  wf_cap : Cap m * MemoryPageSize <= bufferCap m;
  wf_shared : Shared m = true -> Max m <= Cap m;
  wf_alloc : expBuffer m = None;
}.

Lemma mem_wf_nonneg n m : mem_wf n m -> 0 <= n.
Proof. intros H. pose proof (wf_pages _ _ H). pose proof (zlen_nonneg (Buffer m)). unfold MemoryPageSize in *. lia. Qed.

Lemma pages_bytes n : 0 <= n <= MemoryLimitPages -> MemoryPagesToBytesNum n = n * MemoryPageSize.
Proof.
  intros H. unfold MemoryPagesToBytesNum, MemoryPageSizeInBits, MemoryLimitPages, MemoryPageSize in *.
  rewrite Z.shiftl_mul_pow2 by lia. apply wrap64_small. unfold is_u64. lia.
Qed.

Lemma bytes_pages n : 0 <= n < 2 ^ 32 -> memoryBytesNumToPages (n * MemoryPageSize) = n.
Proof.
  intros H. unfold memoryBytesNumToPages, MemoryPageSizeInBits, MemoryPageSize.
  rewrite Z.shiftr_div_pow2 by lia. change (2 ^ 16) with 65536. rewrite Z.div_mul by lia. by apply wrap32_small.
Qed.

Lemma Pages_wf n m : mem_wf n m -> Pages m = n.
Proof.
  intros H. pose proof (mem_wf_nonneg _ _ H). pose proof (wf_max _ _ H). unfold MemoryLimitPages in *.
  unfold Pages. rewrite (wf_pages _ _ H). apply bytes_pages. lia.
Qed.

Lemma zlen_zeros n : 0 <= n -> zlen (zeros n) = n.
Proof. intros H. unfold zlen, zeros. rewrite length_replicate. lia. Qed.

Lemma zeros_ok n : bytes_ok (zeros n).
Proof. apply Forall_replicate. unfold is_u8. lia. Qed.
#[export] Hint Resolve zeros_ok : wz.

Lemma Grow_fail n m delta :
  mem_wf n m -> 0 <= delta < 2 ^ 32 -> Max m < n + delta -> Grow m delta = Ok (0, false, m).
Proof.
  intros Hw Hd Hm. pose proof (mem_wf_nonneg _ _ Hw). pose proof (wf_max _ _ Hw) as Hmax.
  unfold MemoryLimitPages in *. unfold Grow. rewrite (Pages_wf _ _ Hw).
  rewrite (proj2 (Z.eqb_neq delta 0)) by lia.
  destruct (Z.ltb_spec (sgn32 delta) 0) as [|Hs]; [by rewrite orb_true_r|].
  assert (delta < 2 ^ 31) as Hd31.
  { destruct (Z.lt_ge_cases delta (2 ^ 31)); [done|]. exfalso.
    unfold sgn32, sgn in Hs. change (2 ^ (32 - 1)) with (2 ^ 31) in Hs.
    replace ((delta + 2 ^ 31) mod 2 ^ 32) with (delta - 2 ^ 31) in Hs; [lia|].
    apply (Z.mod_unique_pos _ _ 1); lia. }
  rewrite wrap32_small by (unfold is_u32; lia). rewrite (proj2 (Z.gtb_lt _ _)) by lia. done.
Qed.

Lemma Grow_ok n m delta :
  mem_wf n m -> 0 <= delta -> n + delta <= Max m ->
  exists m', Grow m delta = Ok (n, true, m') /\ mem_wf (n + delta) m' /\
    Buffer m' = Buffer m ++ zeros (delta * MemoryPageSize).
Proof.
  intros Hw Hd Hm. pose proof (mem_wf_nonneg _ _ Hw). pose proof (wf_max _ _ Hw) as Hmax.
  pose proof (wf_pages _ _ Hw) as Hp. pose proof (wf_capPages _ _ Hw). pose proof (wf_cap _ _ Hw).
  unfold MemoryLimitPages, MemoryPageSize in *. unfold Grow. rewrite (Pages_wf _ _ Hw).
  destruct (Z.eqb_spec delta 0) as [->|Hnz].
  { exists m. rewrite Z.add_0_r. split_and!; [done|done|]. symmetry. apply app_nil_r. }
  rewrite wrap32_small by (unfold is_u32; lia). unfold sgn32. rewrite (sgn_small 32) by lia.
  rewrite (wf_alloc _ _ Hw).
  destruct (Z.gtb_spec (n + delta) (Max m)); [lia|]. rewrite (proj2 (Z.ltb_ge delta 0)) by lia. cbn [orb].
  destruct (Z.gtb_spec (n + delta) (Cap m)) as [Hc|Hc].
  - destruct (Shared m) eqn:Es; [pose proof (wf_shared _ _ Hw Es); lia|].
    rewrite pages_bytes by (unfold MemoryLimitPages; lia). unfold MemoryPageSize.
    eexists. split_and!; [done| |done]. pose proof (zlen_zeros (delta * 65536)).
    split; cbn; rewrite ?zlen_app, ?Es; unfold MemoryLimitPages, MemoryPageSize; try done; try lia.
    apply Forall_app. split; [apply (wf_bytes _ _ Hw)|apply zeros_ok].
  - rewrite !pages_bytes by (unfold MemoryLimitPages; lia). unfold MemoryPageSize.
    rewrite (proj2 (Z.leb_le _ _)) by lia. rewrite orb_true_r. rewrite Hp.
    replace ((n + delta) * 65536 - n * 65536) with (delta * 65536) by lia.
    eexists. split_and!; [done| |done]. pose proof (zlen_zeros (delta * 65536)).
    split; cbn; rewrite ?zlen_app; unfold MemoryLimitPages, MemoryPageSize; try lia.
    + apply Forall_app. split; [apply (wf_bytes _ _ Hw)|apply zeros_ok].
    + apply (wf_shared _ _ Hw).
    + apply (wf_alloc _ _ Hw).
Qed.

Lemma NewMemoryInstance_ok memSec :
  0 <= MemMin memSec <= MemCap memSec -> MemCap memSec <= MemMax memSec <= MemoryLimitPages ->
  exists m, NewMemoryInstance memSec None = Ok m /\ mem_wf (MemMin memSec) m /\
    Buffer m = zeros (MemMin memSec * MemoryPageSize) /\ Max m = MemMax memSec.
Proof.
  intros H1 H2. unfold NewMemoryInstance, makeSlice. rewrite !pages_bytes by lia.
  unfold MemoryLimitPages in *. set (cap := if IsShared memSec then MemMax memSec else MemCap memSec).
  replace (if IsShared memSec then MemMax memSec * MemoryPageSize else MemCap memSec * MemoryPageSize)
    with (cap * MemoryPageSize) by (subst cap; by destruct (IsShared memSec)).
  assert (MemMin memSec <= cap <= 65536 /\ (IsShared memSec = true -> MemMax memSec <= cap)) as [Hc Hs]
    by (subst cap; destruct (IsShared memSec); split; (lia || done)).
  rewrite (proj2 (Z.leb_le _ _)) by (unfold MemoryPageSize; lia). cbn [res_bind].
  rewrite bytes_pages by lia. eexists. split; [done|]. split; [|done].
  split; cbn; unfold MemoryLimitPages; try done; try lia; [apply zeros_ok|].
  apply zlen_zeros. unfold MemoryPageSize. lia.
Qed.

(** ** Reading and writing *)

Lemma hasSize_spec m offset n :
  is_u32 offset -> 0 <= n < 2 ^ 63 -> hasSize m offset n = (offset + n <=? zlen (Buffer m)).
Proof. intros Ho Hn. unfold hasSize. by rewrite wrap64_small by (unfold is_u64, is_u32 in *; lia). Qed.

Lemma copyAt_in l o val :
  0 <= o -> o + zlen val <= zlen l ->
  copyAt l o val = Ok (take (Z.to_nat o) l ++ val ++ drop (Z.to_nat (o + zlen val)) l).
Proof.
  intros Ho Hl. pose proof (zlen_nonneg val). unfold copyAt. rewrite zslice_in by lia. cbn [res_bind].
  rewrite Nat.min_l by (rewrite length_drop; unfold zlen in *; lia).
  rewrite firstn_all, drop_drop. do 4 f_equal. unfold zlen. lia.
Qed.

(** The bytes at [o], [n] of them. *)
Definition bytesAt (l : list Z) (o n : Z) : list Z := take (Z.to_nat n) (drop (Z.to_nat o) l).

(** What a store of [val] at [o] leaves. *)
Definition stored (l : list Z) (o : Z) (val : list Z) : list Z :=
  take (Z.to_nat o) l ++ val ++ drop (Z.to_nat (o + zlen val)) l.

Lemma zlen_stored l o val : 0 <= o -> o + zlen val <= zlen l -> zlen (stored l o val) = zlen l.
Proof. intros. unfold stored. rewrite !zlen_app, zlen_take, zlen_drop. pose proof (zlen_nonneg val). lia. Qed.

Lemma stored_same l o val : 0 <= o -> o + zlen val <= zlen l -> bytesAt (stored l o val) o (zlen val) = val.
Proof.
  intros Ho Hl. unfold bytesAt, stored. rewrite drop_app_length'.
  - unfold zlen. rewrite Nat2Z.id. by rewrite take_app_length.
  - rewrite length_take. unfold zlen in *. lia.
Qed.

Lemma stored_nil l o : stored l o [] = l.
Proof. unfold stored. change (zlen []) with 0. rewrite Z.add_0_r. apply take_drop. Qed.

Lemma stored_other l o val o' n :
  0 <= o -> o + zlen val <= zlen l -> 0 <= o' -> 0 <= n -> o' + n <= o \/ o + zlen val <= o' ->
  bytesAt (stored l o val) o' n = bytesAt l o' n.
Proof.
  intros Ho Hl Ho' Hn Hd. pose proof (zlen_nonneg val). unfold bytesAt, stored.
  apply list_eq. intros i. destruct (decide (i < Z.to_nat n)%nat) as [Hi|Hi];
    [rewrite !lookup_take_lt by lia|by rewrite !lookup_take_ge by lia].
  rewrite !lookup_drop. destruct Hd.
  - rewrite lookup_app_l by (rewrite length_take; unfold zlen in *; lia). rewrite lookup_take_lt by lia. done.
  - rewrite lookup_app_r by (rewrite length_take; lia).
    rewrite lookup_app_r by (rewrite length_take; unfold zlen in *; lia).
    rewrite lookup_drop. f_equal. rewrite length_take. unfold zlen in *. lia.
Qed.

Lemma Write_spec m o val :
  is_u32 o -> zlen val < 2 ^ 63 ->
  Write m o val = if o + zlen val <=? zlen (Buffer m)
                  then Ok (true, set_Buffer (stored (Buffer m) o val) m) else Ok (false, m).
Proof.
  intros Ho Hv. pose proof (zlen_nonneg val). unfold Write, writeWith. rewrite hasSize_spec by (done || lia).
  destruct (Z.leb_spec (o + zlen val) (zlen (Buffer m))); [|done]. cbn [negb].
  rewrite copyAt_in by (unfold is_u32 in *; lia). done.
Qed.

Lemma Read_spec m o n :
  is_u32 o -> is_u32 n ->
  Read m o n = if negb (o + n <=? zlen (Buffer m)) then Ok ([], false)
               else if o + n <? 2 ^ 32 then Ok (bytesAt (Buffer m) o n, true)
               else Panic "slice bounds out of range".
Proof.
  intros Ho Hn. unfold Read. unfold is_u32 in *. rewrite hasSize_spec by (unfold is_u32; lia).
  destruct (Z.leb_spec (o + n) (zlen (Buffer m))) as [Hl|]; [|done]. cbn [negb].
  destruct (Z.ltb_spec (o + n) (2 ^ 32)) as [H32|H32].
  - rewrite wrap32_small by (unfold is_u32; lia). unfold slice2.
    rewrite !(proj2 (Z.leb_le _ _)) by lia. cbn. unfold bytesAt. by replace (o + n - o) with n by lia.
  - replace (wrap32 (o + n)) with (o + n - 2 ^ 32)
      by (symmetry; unfold wrap32; symmetry; apply (Z.mod_unique_pos _ _ 1); lia).
    unfold slice2. rewrite (proj2 (Z.leb_gt o _)) by lia. by rewrite andb_false_r.
Qed.

Lemma putUint_Write n m o v :
  is_u32 o -> (n <= 8)%nat ->
  writeWith m o (Z.of_nat n) (fun l => putUint n l o v) = Write m o (le_encode n v).
Proof.
  intros Ho Hn. assert (zlen (le_encode n v) = Z.of_nat n) as El by (unfold zlen; by rewrite length_le_encode).
  unfold Write, writeWith, putUint. rewrite El. rewrite hasSize_spec by (done || lia).
  destruct (Z.leb_spec (o + Z.of_nat n) (zlen (Buffer m))); [|done]. cbn [negb].
  rewrite zslice_in by (unfold is_u32 in *; lia). cbn [res_bind].
  rewrite (proj2 (Z.leb_le _ _)); [done|]. rewrite zlen_drop. unfold is_u32 in *. lia.
Qed.

(** Reading [n] bytes as a little-endian number. *)
Definition leRead (m : MemoryInstance) (o : Z) (n : nat) : Z * bool :=
  if o + Z.of_nat n <=? zlen (Buffer m) then (le_decode (bytesAt (Buffer m) o (Z.of_nat n)), true) else (0, false).

Lemma readUint_spec n m o :
  is_u32 o -> (n <= 8)%nat ->
  (if negb (hasSize m o (Z.of_nat n)) then Ok (0, false)
   else let! b := zslice (Buffer m) o in let! v := leUint n b in Ok (v, true)) = Ok (leRead m o n).
Proof.
  intros Ho Hn. unfold leRead. rewrite hasSize_spec by (done || lia).
  destruct (Z.leb_spec (o + Z.of_nat n) (zlen (Buffer m))); [|done]. cbn [negb].
  rewrite zslice_in by (unfold is_u32 in *; lia). cbn [res_bind]. unfold leUint.
  rewrite (proj2 (Z.leb_le _ _)) by (rewrite zlen_drop; unfold is_u32 in *; lia). cbn [res_bind].
  unfold bytesAt. by rewrite Nat2Z.id.
Qed.

Lemma ReadUint16Le_spec m o :
  is_u32 o -> zlen (Buffer m) < 2 ^ 32 -> ReadUint16Le m o = Ok (leRead m o 2).
Proof.
  intros Ho Hl. rewrite <- readUint_spec by (done || lia). unfold ReadUint16Le. change (Z.of_nat 2) with 2.
  unfold is_u32 in *. rewrite hasSize_spec by (unfold is_u32; lia).
  destruct (Z.leb_spec (o + 2) (zlen (Buffer m))); [|done]. cbn [negb].
  rewrite wrap32_small by (unfold is_u32; lia). unfold slice2. rewrite !(proj2 (Z.leb_le _ _)) by lia.
  rewrite zslice_in by lia. cbn [res_bind andb]. unfold leUint.
  rewrite !(proj2 (Z.leb_le _ _)) by (rewrite ?zlen_take, zlen_drop; lia).
  replace (Z.to_nat (o + 2 - o)) with 2%nat by lia. by rewrite take_take.
Qed.

(** ** Properties *)

(** [Grow] never panics on a well-formed memory without custom allocator,
    fails exactly when the new size would exceed the maximum and then changes
    nothing, and otherwise returns the previous size in pages, keeps the
    contents, appends zeroed pages and keeps the memory well formed. *)
Theorem memory_grow_spec (n : Z) (m : MemoryInstance) (delta : Z) :
  mem_wf n m -> is_u32 delta ->
  if n + delta <=? Max m then
    exists m', Grow m delta = Ok (n, true, m') /\ mem_wf (n + delta) m' /\
      Buffer m' = Buffer m ++ zeros (delta * MemoryPageSize)
  else Grow m delta = Ok (0, false, m).
Proof.
  intros Hw [Hd1 Hd2]. destruct (Z.leb_spec (n + delta) (Max m)); [by apply Grow_ok|by apply (Grow_fail n)].
Qed.

Lemma memory_grow_spec_witness :
  exists m', Grow (mkMemoryInstance [] 0 0 0 2 false None) 1 = Ok (0, true, m') /\ mem_wf (0 + 1) m' /\
    Buffer m' = [] ++ zeros (1 * MemoryPageSize).
Proof.
  refine (memory_grow_spec 0 (mkMemoryInstance [] 0 0 0 2 false None) 1 _ _); [|done].
  by split; try constructor.
Defined.

(** [NewMemoryInstance] gives a zeroed memory of the declared minimum that
    satisfies the invariant of [Grow]. *)
Theorem new_memory_wf (memSec : Memory) :
  0 <= MemMin memSec <= MemCap memSec -> MemCap memSec <= MemMax memSec <= MemoryLimitPages ->
  exists m, NewMemoryInstance memSec None = Ok m /\ mem_wf (MemMin memSec) m /\
    Buffer m = zeros (MemMin memSec * MemoryPageSize) /\ Max m = MemMax memSec.
Proof. apply NewMemoryInstance_ok. Qed.

Lemma new_memory_wf_witness :
  exists m, NewMemoryInstance (mkMemory 0 1 2 true false) None = Ok m /\ mem_wf 0 m /\
    Buffer m = zeros (0 * MemoryPageSize) /\ Max m = 2.
Proof. apply (new_memory_wf (mkMemory 0 1 2 true false)); by cbn. Defined.

(** Writes and reads of a memory below 4 GiB.  A write succeeds exactly when
    it is in bounds; it then changes exactly the bytes it covers, and reading
    them back gives the value, as bytes or as a little-endian integer; out of
    bounds it changes nothing. *)
Theorem memory_write_read (m : MemoryInstance) (o : Z) (val : list Z) :
  is_u32 o -> zlen (Buffer m) < 2 ^ 32 -> zlen val < 2 ^ 63 ->
  if o + zlen val <=? zlen (Buffer m) then
    exists m', Write m o val = Ok (true, m') /\ zlen (Buffer m') = zlen (Buffer m) /\
      Read m' o (zlen val) = Ok (val, true) /\
      (forall o' n, is_u32 o' -> is_u32 n -> o' + n <= o \/ o + zlen val <= o' -> Read m' o' n = Read m o' n)
  else Write m o val = Ok (false, m) /\ (is_u32 (zlen val) -> Read m o (zlen val) = Ok ([], false)).
Proof.
  intros Ho Hb Hv. pose proof (zlen_nonneg val). rewrite Write_spec by done.
  destruct (Z.leb_spec (o + zlen val) (zlen (Buffer m))) as [Hl|Hl].
  - assert (zlen (stored (Buffer m) o val) = zlen (Buffer m)) as El by (apply zlen_stored; unfold is_u32 in *; lia).
    eexists. split; [done|]. split; [done|]. split.
    + rewrite Read_spec by (done || unfold is_u32 in *; lia). cbn [Buffer set_Buffer]. rewrite El.
      rewrite (proj2 (Z.leb_le _ _)), (proj2 (Z.ltb_lt _ _)) by lia. cbn [negb].
      by rewrite stored_same by (unfold is_u32 in *; lia).
    + intros o' n Ho' Hn Hd. rewrite !Read_spec by done. cbn [Buffer set_Buffer]. rewrite El.
      destruct (_ <=? _); [|done]. cbn [negb]. by rewrite stored_other by (unfold is_u32 in *; lia || done).
  - split; [done|]. intros Hu. rewrite Read_spec by done. by rewrite (proj2 (Z.leb_gt _ _)) by lia.
Qed.

Lemma memory_write_read_witness :
  exists m', Write (mkMemoryInstance [1; 2; 3; 4] 4 0 0 0 false None) 1 [7; 8] = Ok (true, m') /\
    zlen (Buffer m') = 4 /\ Read m' 1 2 = Ok ([7; 8], true) /\
    (forall o' n, is_u32 o' -> is_u32 n -> o' + n <= 1 \/ 1 + 2 <= o' ->
       Read m' o' n = Read (mkMemoryInstance [1; 2; 3; 4] 4 0 0 0 false None) o' n).
Proof. apply (memory_write_read (mkMemoryInstance [1; 2; 3; 4] 4 0 0 0 false None) 1 [7; 8]); by vm_compute. Defined.

(** The typed accessors are the byte accessors at little endian: writing an
    integer is writing its bytes, and reading back the integer gives it. *)
Theorem memory_little_endian (m : MemoryInstance) (o v : Z) :
  is_u32 o -> zlen (Buffer m) < 2 ^ 32 -> 0 <= v ->
  WriteUint16Le m o v = Write m o (le_encode 2 v) /\
  WriteUint32Le m o v = Write m o (le_encode 4 v) /\
  WriteUint64Le m o v = Write m o (le_encode 8 v) /\
  (v < 2 ^ 16 -> forall m', WriteUint16Le m o v = Ok (true, m') -> ReadUint16Le m' o = Ok (v, true)) /\
  (v < 2 ^ 32 -> forall m', WriteUint32Le m o v = Ok (true, m') -> ReadUint32Le m' o = Ok (v, true)) /\
  (v < 2 ^ 64 -> forall m', WriteUint64Le m o v = Ok (true, m') -> ReadUint64Le m' o = Ok (v, true)).
Proof.
  intros Ho Hb Hv.
  assert (forall n m', 0 <= v < 2 ^ (8 * Z.of_nat n) -> (n <= 8)%nat -> Write m o (le_encode n v) = Ok (true, m') ->
            zlen (Buffer m') = zlen (Buffer m) /\ leRead m' o n = (v, true)) as R.
  { intros n m' Hn H8. assert (zlen (le_encode n v) = Z.of_nat n) as El by (unfold zlen; by rewrite length_le_encode).
    rewrite Write_spec by (done || lia). destruct (Z.leb_spec (o + zlen (le_encode n v)) (zlen (Buffer m))); [|done].
    intros [= <-]. assert (0 <= o) by (unfold is_u32 in *; lia).
    unfold leRead. cbn [Buffer set_Buffer]. rewrite zlen_stored by done. split; [done|].
    rewrite El in *. rewrite (proj2 (Z.leb_le _ _)) by lia. rewrite <- El, stored_same by lia.
    by rewrite le_decode_encode. }
  unfold WriteUint16Le, WriteUint32Le, WriteUint64Le, writeUint32Le, writeUint64Le.
  rewrite (putUint_Write 2), (putUint_Write 4), (putUint_Write 8) by (done || lia).
  split_and!; try done; intros Hlt m' H; eapply R in H as [E H]; try lia.
  - rewrite ReadUint16Le_spec by (done || lia). by rewrite H.
  - unfold ReadUint32Le, readUint32Le. rewrite (readUint_spec 4) by (done || lia). by rewrite H.
  - unfold ReadUint64Le, readUint64Le. rewrite (readUint_spec 8) by (done || lia). by rewrite H.
Qed.

Lemma memory_little_endian_witness :
  WriteUint32Le (mkMemoryInstance [0; 0; 0; 0] 4 0 0 0 false None) 0 0x01020304
  = Write (mkMemoryInstance [0; 0; 0; 0] 4 0 0 0 false None) 0 [4; 3; 2; 1].
Proof. apply (memory_little_endian (mkMemoryInstance [0; 0; 0; 0] 4 0 0 0 false None) 0 0x01020304); by vm_compute. Defined.

(** A memory of the maximum size, 65536 pages, is not covered: an access
    that ends at the last byte is in bounds, but its end wraps to zero as a
    32-bit number and the slice expressions of [Read] and [ReadUint16Le] panic;
    [ReadUint32Le], which does not compute the end, reads the same bytes. *)
Theorem memory_full_read_panics (m : MemoryInstance) (n : Z) :
  zlen (Buffer m) = 2 ^ 32 -> 1 <= n < 2 ^ 32 ->
  Read m (2 ^ 32 - n) n = Panic "slice bounds out of range" /\
  ReadUint16Le m (2 ^ 32 - 2) = Panic "slice bounds out of range" /\
  ReadUint32Le m (2 ^ 32 - 4) = Ok (le_decode (bytesAt (Buffer m) (2 ^ 32 - 4) 4), true) /\
  Size m = 0.
Proof.
  intros Hl Hn. split_and!.
  - rewrite Read_spec by (unfold is_u32; lia). rewrite Hl, (proj2 (Z.leb_le _ _)), (proj2 (Z.ltb_ge _ _)) by lia. done.
  - unfold ReadUint16Le. rewrite hasSize_spec by (unfold is_u32; lia). rewrite Hl. done.
  - unfold ReadUint32Le, readUint32Le. rewrite (readUint_spec 4) by (unfold is_u32; lia). unfold leRead. by rewrite Hl.
  - unfold Size. by rewrite Hl.
Qed.

Lemma memory_full_read_panics_witness :
  Read (mkMemoryInstance (zeros (2 ^ 32)) (2 ^ 32) 0 65536 65536 false None) (2 ^ 32 - 1) 1
  = Panic "slice bounds out of range".
Proof.
  refine (proj1 (memory_full_read_panics (mkMemoryInstance (zeros (2 ^ 32)) (2 ^ 32) 0 65536 65536 false None) 1 _ _)).
  - cbn [Buffer]. apply zlen_zeros. lia.
  - lia.
Defined.
