(* ===== verification/Waiters.v ===== *)
(** * Wait and notify (src/internal/wasm/memory.go)

    The wait queues of a shared memory: [Wait32], [Wait64], [wait] and
    [Notify].  Each runs under the mutex of the queue of its offset, so that it
    is one step of a transition system over the threads: a thread that waits is
    parked until its channel is closed or, with a timeout, until the timer
    fires; when both have happened Go's [select] takes either.

    A thread is identified by the channel it waits on.  The [sync.Map] of queues
    is a map from offsets to lists, oldest waiter first; a missing queue and an
    empty one behave alike.  The value the [reader] callback reads under the
    mutex is an argument. *)

From S2P Require Import Prelude.

Record waitState := mkWaitState {
  queues : gmap Z (list Z);
  closed : gset Z;
  (** offset waited on, and whether there is a timer *)
  parked : gmap Z (Z * bool);
  returned : gmap Z Z;
}.

Definition queue (st : waitState) (offset : Z) : list Z := default [] (queues st !! offset).

Definition set_queue (offset : Z) (l : list Z) (st : waitState) : waitState :=
  mkWaitState (<[offset := l]> (queues st)) (closed st) (parked st) (returned st).

(** A thread returns [r] from its wait. *)
Definition finish (id r : Z) (st : waitState) : waitState :=
  mkWaitState (queues st) (closed st) (delete id (parked st)) (<[id := r]> (returned st)).

(** [wait]: parks the thread. *)
Definition wait (offset timeout id : Z) (st : waitState) : res waitState :=
  let l := queue st offset in
  if wrap64 (zlen l + 1) =? Z.shiftl 1 32 then Panic "too many waiters"
  else Ok (mkWaitState (<[offset := l ++ [id]]> (queues st)) (closed st)
             (<[id := (offset, negb (timeout <? 0))]> (parked st)) (returned st)).

(** [Wait32] and [Wait64] with the value [cur] of the reader. *)
Definition Wait (offset exp cur timeout id : Z) (st : waitState) : res waitState :=
  let st := set_queue offset (queue st offset) st in
  if negb (cur =? exp) then Ok (finish id 1 st) else wait offset timeout id st.

(** The timer of a parked thread fires: its element leaves the list if it is
    still there. *)
Definition timeoutFires (offset id : Z) (st : waitState) : waitState :=
  finish id 2 (set_queue offset (filter (fun i => i <> id) (queue st offset)) st).

(** The loop of [Notify]: the remaining queue, the number woken, the closed channels. *)
Fixpoint notifyLoop (l : list Z) (count n : Z) (cl : gset Z) : list Z * Z * gset Z :=
  match l with
  | [] => ([], n, cl)
  | w :: l' => if n <? count then notifyLoop l' count (wrap32 (n + 1)) ({[w]} ∪ cl) else (l, n, cl)
  end.

Definition Notify (offset count : Z) (st : waitState) : Z * waitState :=
  match queues st !! offset with
  | None => (0, st)
  | Some l =>
      let '(l', n, cl) := notifyLoop l count 0 (closed st) in
      (n, mkWaitState (<[offset := l']> (queues st)) cl (parked st) (returned st))
  end.

(** ** Interleavings *)

Inductive wstep : waitState -> waitState -> Prop :=
| step_wait offset exp cur timeout id st st' :
    parked st !! id = None -> returned st !! id = None -> id ∉ closed st ->
    Wait offset exp cur timeout id st = Ok st' -> wstep st st'
| step_wake id p st :
    parked st !! id = Some p -> id ∈ closed st -> wstep st (finish id 0 st)
| step_timeout id offset st :
    parked st !! id = Some (offset, true) -> wstep st (timeoutFires offset id st)
| step_notify offset count st :
    is_u32 count -> wstep st (snd (Notify offset count st)).

Definition initial : waitState := mkWaitState ∅ ∅ ∅ ∅.

(** A queue holds exactly the parked threads of its offset that were not
    notified, once each and fewer than 2^32; a thread that returned 0 was notified; no
    thread is both parked and back. *)
Record wait_inv (st : waitState) : Prop := {
  inv_queue : forall offset id,
    id ∈ queue st offset <-> (exists timed, parked st !! id = Some (offset, timed)) /\ id ∉ closed st;
  inv_nodup : forall offset, NoDup (queue st offset);
  inv_woken : forall id, returned st !! id = Some 0 -> id ∈ closed st;
  inv_back : forall id p r, parked st !! id = Some p -> returned st !! id = Some r -> False;
  inv_len : forall offset, zlen (queue st offset) < 2 ^ 32;
}.

Lemma queue_insert st offset l offset' :
  queue (set_queue offset l st) offset' = if decide (offset = offset') then l else queue st offset'.
Proof.
  unfold queue, set_queue. simpl. case_decide as E; [subst; by rewrite lookup_insert_eq|].
  by rewrite lookup_insert_ne by done.
Qed.

Lemma set_queue_id st offset : forall offset', queue (set_queue offset (queue st offset) st) offset' = queue st offset'.
Proof. intros offset'. rewrite queue_insert. by case_decide; subst. Qed.

(** [Notify] closes the first [min count (length)] waiters of the queue. *)
Lemma notifyLoop_spec l count n cl :
  0 <= n -> zlen l + n < 2 ^ 32 -> 0 <= count ->
  let k := Z.min (zlen l) (Z.max 0 (count - n)) in
  notifyLoop l count n cl = (drop (Z.to_nat k) l, n + k, list_to_set (take (Z.to_nat k) l) ∪ cl).
Proof.
  revert n cl. induction l as [|w l IH]; intros n cl Hn Hl Hc k; cbn [notifyLoop].
  { assert (k = 0) as -> by (subst k; unfold zlen; simpl length; lia). simpl. f_equal; [f_equal; lia|set_solver]. }
  rewrite zlen_cons in *. pose proof (zlen_nonneg l). destruct (Z.ltb_spec n count).
  - rewrite wrap32_small by (unfold is_u32; lia). rewrite IH by lia.
    set (k' := Z.min (zlen l) (Z.max 0 (count - (n + 1)))).
    assert (k = 1 + k') as -> by (subst k k'; rewrite zlen_cons; lia). replace (Z.to_nat (1 + k')) with (S (Z.to_nat k')) by lia.
    simpl. f_equal; [f_equal; lia|set_solver].
  - assert (k = 0) as -> by (subst k; rewrite zlen_cons; lia). simpl. f_equal; [f_equal; lia|set_solver].
Qed.

Lemma Notify_spec st offset count :
  is_u32 count -> zlen (queue st offset) < 2 ^ 32 ->
  let k := Z.min (zlen (queue st offset)) count in
  let '(n, st') := Notify offset count st in
  n = k /\ queue st' offset = drop (Z.to_nat k) (queue st offset) /\
  closed st' = list_to_set (take (Z.to_nat k) (queue st offset)) ∪ closed st /\
  parked st' = parked st /\ returned st' = returned st /\
  (forall offset', offset' <> offset -> queue st' offset' = queue st offset').
Proof.
  intros Hc Hq k. unfold is_u32 in *. unfold Notify, queue in *. destruct (queues st !! offset) as [l|] eqn:E; simpl in *.
  - rewrite notifyLoop_spec by lia. replace (Z.max 0 (count - 0)) with count by lia. fold k.
    split_and!; try done; simpl; [by rewrite lookup_insert_eq|]. intros o Ho. by rewrite lookup_insert_ne.
  - rewrite E. assert (k = 0) as -> by (subst k; unfold zlen; simpl length; lia). split_and!; try done. set_solver.
Qed.

(** ** The invariant holds in every interleaving *)

Lemma wait_inv_initial : wait_inv initial.
Proof.
  split; unfold queue; simpl.
  - intros offset id. rewrite lookup_empty. simpl. split; [by intros ?%elem_of_nil|]. intros [(t & H) _]. by rewrite lookup_empty in H.
  - intros offset. rewrite lookup_empty. constructor.
  - intros id H. by rewrite lookup_empty in H.
  - intros id p r H. by rewrite lookup_empty in H.
  - intros offset. by rewrite lookup_empty.
Qed.

Lemma finish_inv st id p r :
  wait_inv st -> parked st !! id = Some p -> (r = 0 -> id ∈ closed st) -> (forall offset, id ∉ queue st offset) ->
  wait_inv (finish id r st).
Proof.
  intros [Hq Hn Hw Hb Hlen] Hp Hr Hnq. split; simpl.
  - intros offset i. change (queue (finish id r st) offset) with (queue st offset). rewrite Hq.
    destruct (decide (i = id)) as [->|]; [|by rewrite lookup_delete_ne].
    rewrite lookup_delete_eq. split; [|by intros [[? ?] ?]]. intros H. exfalso. apply (Hnq offset). by apply Hq.
  - exact Hn.
  - intros i. destruct (decide (i = id)) as [->|]; [rewrite lookup_insert_eq; naive_solver|].
    rewrite lookup_insert_ne by done. apply Hw.
  - intros i q r'. destruct (decide (i = id)) as [->|]; [by rewrite lookup_delete_eq|].
    rewrite lookup_delete_ne, lookup_insert_ne by done. apply Hb.
  - exact Hlen.
Qed.

Lemma set_queue_id_inv st offset : wait_inv st -> wait_inv (set_queue offset (queue st offset) st).
Proof.
  intros [Hq Hn Hw Hb Hlen]. split; simpl; try done; intros; rewrite set_queue_id; auto.
Qed.

(** A new thread that finds another value returns at once. *)
Lemma refuse_inv st id :
  wait_inv st -> parked st !! id = None -> wait_inv (finish id 1 st).
Proof.
  intros [Hq Hn Hw Hb Hlen] Hp. split; simpl.
  - intros offset i. change (queue (finish id 1 st) offset) with (queue st offset). rewrite Hq.
    destruct (decide (i = id)) as [->|]; [|by rewrite lookup_delete_ne]. by rewrite lookup_delete_eq, Hp.
  - exact Hn.
  - intros i. destruct (decide (i = id)) as [->|]; [by rewrite lookup_insert_eq|].
    rewrite lookup_insert_ne by done. apply Hw.
  - intros i q r'. destruct (decide (i = id)) as [->|]; [by rewrite lookup_delete_eq|].
    rewrite lookup_delete_ne, lookup_insert_ne by done. apply Hb.
  - exact Hlen.
Qed.

Lemma wait_parks_inv st offset timeout id st' :
  wait_inv st -> parked st !! id = None -> returned st !! id = None -> id ∉ closed st ->
  wait offset timeout id st = Ok st' -> wait_inv st'.
Proof.
  intros [Hq Hn Hw Hb Hlen] Hp Hr Hc H. unfold wait in H. destruct (_ =? _) eqn:Hfull; [done|]. injection H as <-.
  assert (forall o, id ∉ queue st o) as Hnew.
  { intros o Hin%Hq. destruct Hin as [[t Ht] _]. congruence. }
  split; simpl.
  - intros o i. unfold queue at 1. simpl. destruct (decide (o = offset)) as [->|].
    + rewrite lookup_insert_eq. simpl. rewrite elem_of_app, list_elem_of_singleton, Hq.
      destruct (decide (i = id)) as [->|]; [rewrite lookup_insert_eq; naive_solver|].
      rewrite lookup_insert_ne by done. naive_solver.
    + rewrite lookup_insert_ne by done. fold (queue st o). rewrite Hq.
      destruct (decide (i = id)) as [->|]; [|by rewrite lookup_insert_ne]. rewrite lookup_insert_eq, Hp. naive_solver.
  - intros o. unfold queue at 1. simpl. destruct (decide (o = offset)) as [->|].
    + rewrite lookup_insert_eq. simpl. apply NoDup_app. split_and!; [apply Hn| |apply NoDup_singleton].
      intros i Hi ->%list_elem_of_singleton. by apply (Hnew offset).
    + rewrite lookup_insert_ne by done. apply Hn.
  - apply Hw.
  - intros i p r. destruct (decide (i = id)) as [->|]; [by rewrite Hr|]. rewrite lookup_insert_ne by done. apply Hb.
  - intros o. unfold queue at 1. simpl. destruct (decide (o = offset)) as [->|]; [|rewrite lookup_insert_ne by done; apply Hlen].
    rewrite lookup_insert_eq. simpl. rewrite zlen_app. change (zlen [id]) with 1. pose proof (Hlen offset).
    pose proof (zlen_nonneg (queue st offset)). rewrite wrap64_small in Hfull by (unfold is_u64; lia).
    apply Z.eqb_neq in Hfull. change (Z.shiftl 1 32) with (2 ^ 32) in Hfull. lia.
Qed.

Lemma timeout_inv st offset id :
  wait_inv st -> parked st !! id = Some (offset, true) -> wait_inv (timeoutFires offset id st).
Proof.
  intros [Hq Hn Hw Hb Hlen] Hp. unfold timeoutFires. split; simpl.
  - intros o i. change (queue (finish id 2 ?s) o) with (queue s o). rewrite queue_insert.
    destruct (decide (i = id)) as [->|Hne].
    + rewrite lookup_delete_eq. split; [|naive_solver]. case_decide as Eo.
      * by intros [? _]%list_elem_of_filter.
      * intros [[t Ht] _]%Hq. congruence.
    + rewrite lookup_delete_ne by done. rewrite <- Hq. case_decide as Eo; [subst|done].
      rewrite list_elem_of_filter. naive_solver.
  - intros o. change (queue (finish id 2 ?s) o) with (queue s o). rewrite queue_insert.
    case_decide; [apply NoDup_filter|]; apply Hn.
  - intros i. destruct (decide (i = id)) as [->|]; [by rewrite lookup_insert_eq|].
    rewrite lookup_insert_ne by done. apply Hw.
  - intros i q r'. destruct (decide (i = id)) as [->|]; [by rewrite lookup_delete_eq|].
    rewrite lookup_delete_ne, lookup_insert_ne by done. apply Hb.
  - intros o. change (queue (finish id 2 ?s) o) with (queue s o). rewrite queue_insert. case_decide; [|apply Hlen].
    pose proof (Hlen offset). pose proof (length_filter (fun i => i <> id) (queue st offset)). unfold zlen in *. lia.
Qed.

Lemma notify_inv st offset count : wait_inv st -> is_u32 count -> wait_inv (Notify offset count st).2.
Proof.
  intros [Hq Hn Hw Hb Hlen] Hc. pose proof (Notify_spec st offset count Hc (Hlen offset)) as H. cbn zeta in H.
  set (k := Z.to_nat (Z.min (zlen (queue st offset)) count)) in *.
  destruct (Notify offset count st) as [n st']. destruct H as (_ & Hd & Hcl & Hp & Hr & Ho). simpl.
  pose proof (Hn offset) as Hnd. rewrite <- (take_drop k (queue st offset)) in Hnd. apply NoDup_app in Hnd as (_ & Hdis & Hnd).
  split.
  - intros o i. rewrite Hp, Hcl. rewrite not_elem_of_union, elem_of_list_to_set.
    destruct (decide (o = offset)) as [->|Hne].
    + rewrite Hd. split.
      * intros Hi. assert (i ∈ queue st offset) as Hi'
          by (rewrite <- (take_drop k (queue st offset)); apply elem_of_app; by right).
        apply Hq in Hi' as [Hpk Hcd]. split_and!; try done. intros Ht. by apply (Hdis i).
      * intros (Hpk & Ht & Hcd). assert (i ∈ queue st offset) as Hi by (by apply Hq).
        rewrite <- (take_drop k (queue st offset)) in Hi. apply elem_of_app in Hi as [?|?]; done.
    + rewrite Ho by done. rewrite Hq. split; [|naive_solver]. intros [Hpk Hcd]. split_and!; try done.
      intros Ht. apply elem_of_take in Ht as (j & Hj & _). apply list_elem_of_lookup_2, Hq in Hj as [[t' Ht'] _].
      destruct Hpk as [t Ht]. congruence.
  - intros o. destruct (decide (o = offset)) as [->|Hne]; [by rewrite Hd|rewrite Ho by done; apply Hn].
  - intros i. rewrite Hr, Hcl. intros ?%Hw. set_solver.
  - intros i. rewrite Hp, Hr. apply Hb.
  - intros o. destruct (decide (o = offset)) as [->|Hne]; [|rewrite Ho by done; apply Hlen].
    rewrite Hd, zlen_drop. pose proof (Hlen offset). lia.
Qed.

Lemma wstep_inv st st' : wait_inv st -> wstep st st' -> wait_inv st'.
Proof.
  intros Hi Hs. destruct Hs as [offset exp cur timeout id st st' Hp Hr Hc H|id p st Hp Hc|id offset st Hp|offset count st Hc].
  - unfold Wait in H. destruct (negb _).
    + injection H as <-. apply refuse_inv; [by apply set_queue_id_inv|done].
    + eapply wait_parks_inv, H; try done. by apply set_queue_id_inv.
  - eapply finish_inv; try done. intros o [_ ?]%(inv_queue _ Hi). done.
  - by apply timeout_inv.
  - by apply notify_inv.
Qed.

(** ** Properties *)

(** C37: In every interleaving of waits, notifications, wake-ups and timeouts, a
    queue holds exactly the parked threads of its offset that were not
    notified, once each and fewer than 2^32, so that no parked thread is missed
    by a notification and none is counted twice.  A thread returns 0 only after
    a notification, and none is parked and has returned. *)
Theorem waiters_invariant (st : waitState) : rtc wstep initial st -> wait_inv st.
Proof.
  intros H. assert (wait_inv initial) as Hi by apply wait_inv_initial. revert Hi.
  induction H as [|x y z Hs _ IH]; [done|]. intros Hi. by eapply IH, wstep_inv.
Qed.

Lemma waiters_invariant_witness :
  wait_inv (snd (Notify 8 1 (mkWaitState {[8 := [1]]} ∅ {[1 := (8, false)]} ∅))).
Proof.
  apply (waiters_invariant _). eapply rtc_l; [|apply rtc_once; apply (step_notify 8 1); by vm_compute].
  by apply (step_wait 8 5 5 (-1) 1).
Defined.

(** [Notify] wakes the oldest waiters of its offset, as many as there are up
    to [count], returns their number, and leaves the rest of the queue and the
    other queues as they are. *)
Theorem notify_wakes_oldest (st : waitState) (offset count : Z) :
  is_u32 count -> zlen (queue st offset) < 2 ^ 32 ->
  let k := Z.min (zlen (queue st offset)) count in
  let '(n, st') := Notify offset count st in
  n = k /\ queue st' offset = drop (Z.to_nat k) (queue st offset) /\
  closed st' = list_to_set (take (Z.to_nat k) (queue st offset)) ∪ closed st /\
  parked st' = parked st /\ returned st' = returned st /\
  (forall offset', offset' <> offset -> queue st' offset' = queue st offset').
Proof. apply Notify_spec. Qed.

Lemma notify_wakes_oldest_witness :
  let '(n, st') := Notify 8 2 (mkWaitState {[8 := [1; 2; 3]]} ∅ ∅ ∅) in n = 2 /\ queue st' 8 = [3].
Proof.
  pose proof (notify_wakes_oldest (mkWaitState {[8 := [1; 2; 3]]} ∅ ∅ ∅) 8 2 ltac:(by vm_compute) ltac:(by vm_compute)) as H.
  cbn zeta in H. destruct (Notify 8 2 _) as [n st']. destruct H as (Hn & Hq & _). split; [exact Hn|exact Hq].
Defined.
