(* ===== verification/Descriptor.v ===== *)
(** * The descriptor table (src/internal/descriptor/table.go)

    [Table] maps 32-bit descriptors (file descriptors of WASI) to items with a
    bit mask of the used slots.  Its operations are translated over lists of
    64-bit masks and items, and shown to implement a finite map whose [Insert]
    takes the least free key.  Keys are [int32]: the arithmetic on them wraps,
    and an index that wrapped is a negative one, which panics. *)

From stdpp Require Import sorting.
From S2P Require Import Prelude.

(** ** math/bits and uint64 operations *)

Definition bitIndexes : list Z := map Z.of_nat (seq 0 64).
Definition OnesCount64 (x : Z) : Z := zlen (filter (fun i => Z.testbit x i = true) bitIndexes).
(** Index of the lowest set bit, 64 for zero. *)
Definition TrailingZeros64 (x : Z) : Z :=
  match filter (fun i => Z.testbit x i = true) bitIndexes with [] => 64 | i :: _ => i end.
Definition not64 (x : Z) : Z := Z.lxor x (Z.ones 64).
(** [mask & (1 << shift) != 0] *)
Definition isSet (mask shift : Z) : bool := negb (Z.land mask (Z.shiftl 1 shift) =? 0).

Section Table.
Context {Item : Type} (zero : Item).

Record Table := mkTable { masks : list Z; items : list Item }.

Definition Len (t : Table) : Z := fold_left (fun n mask => n + OnesCount64 mask) (masks t) 0.

(** [slices.Grow(s, n)[:total]]: the new elements are zero values, as the table never shrinks. *)
Definition grow (n : Z) (t : Table) : Table :=
  mkTable (masks t ++ replicate (Z.to_nat n) 0) (items t ++ replicate (Z.to_nat (n * 64)) zero).

(** The first mask from index [i] on that is not full. *)
Fixpoint findFree (i : Z) (ms : list Z) : option (Z * Z) :=
  match ms with
  | [] => None
  | mask :: ms' => if negb (not64 mask =? 0) then Some (i, mask) else findFree (i + 1) ms'
  end.

(** [t.items[key] = item; t.masks[index] = mask] *)
Definition store (index mask key : Z) (item : Item) (t : Table) : res Table :=
  if (0 <=? key) && (key <? zlen (items t)) then
    Ok (mkTable (<[Z.to_nat index := mask]> (masks t)) (<[Z.to_nat key := item]> (items t)))
  else Panic "index out of range".

(** The body of the loop of [Insert] at a mask that is not full. *)
Definition insertIn (index mask : Z) (item : Item) (t : Table) : res (Z * bool * Table) :=
  let shift := TrailingZeros64 (not64 mask) in
  let key := sgn32 (sgn32 (sgn32 index * 64) + shift) in
  let! t := store index (Z.lor mask (Z.shiftl 1 shift)) key item t in
  Ok (key, 0 <=? key, t).

(** After a full pass the table grows by one mask, at index [offset], which is
    not full: the second pass ends there. *)
Definition Insert (item : Item) (t : Table) : res (Z * bool * Table) :=
  match findFree 0 (masks t) with
  | Some (index, mask) => insertIn index mask item t
  | None =>
      let offset := zlen (masks t) in
      let t := grow 1 t in
      match findFree offset (drop (Z.to_nat offset) (masks t)) with
      | Some (index, mask) => insertIn index mask item t
      | None => Panic "Insert: no free mask"
      end
  end.

Definition Lookup (t : Table) (key : Z) : res (option Item) :=
  if key <? 0 then Ok None
  else if key <? zlen (items t) then
    let! mask := zindex (masks t) (key / 64) in
    if isSet mask (key mod 64) then let! item := zindex (items t) key in Ok (Some item) else Ok None
  else Ok None.

Definition InsertAt (item : Item) (key : Z) (t : Table) : res (bool * Table) :=
  if key <? 0 then Ok (false, t)
  else
    let index := key / 64 in
    let diff := index - zlen (masks t) + 1 in
    let t := if diff >? 0 then grow diff t else t in
    let! mask := zindex (masks t) index in
    let! t := store index (Z.lor mask (Z.shiftl 1 (key mod 64))) key item t in
    Ok (true, t).

Definition Delete (key : Z) (t : Table) : res Table :=
  if key <? 0 then Ok t
  else
    let index := key / 64 in
    if index <? zlen (masks t) then
      let shift := key mod 64 in
      let! mask := zindex (masks t) index in
      if isSet mask shift then store index (Z.land mask (not64 (Z.shiftl 1 shift))) key zero t else Ok t
    else Ok t.

(** The loops of [Range]; the boolean result says whether to go on.  [f] is a
    callback with a state. *)
Fixpoint rangeMask {S : Type} (f : Z -> Item -> S -> bool * S) (t : Table) (i mask : Z) (js : list Z) (s : S)
    : res (bool * S) :=
  match js with
  | [] => Ok (true, s)
  | j :: js' =>
      if negb (isSet mask j) then rangeMask f t i mask js' s
      else
        let key := sgn32 (sgn32 (sgn32 i * 64) + j) in
        let! item := zindex (items t) key in
        let '(b, s) := f key item s in
        if b then rangeMask f t i mask js' s else Ok (false, s)
  end.

Fixpoint rangeMasks {S : Type} (f : Z -> Item -> S -> bool * S) (t : Table) (i : Z) (ms : list Z) (s : S) : res S :=
  match ms with
  | [] => Ok s
  | mask :: ms' =>
      if mask =? 0 then rangeMasks f t (i + 1) ms' s
      else
        let! (b, s) := rangeMask f t i mask bitIndexes s in
        if b : bool then rangeMasks f t (i + 1) ms' s else Ok s
  end.

Definition Range {S : Type} (f : Z -> Item -> S -> bool * S) (t : Table) (s : S) : res S :=
  rangeMasks f t 0 (masks t) s.

Definition Reset (t : Table) : Table :=
  mkTable (replicate (length (masks t)) 0) (replicate (length (items t)) zero).

(** ** The table as a finite map *)

(** Keys fit in an [int32]: at most [2^25] masks. *)
Record wf (t : Table) : Prop := {
  wf_masks : Forall is_u64 (masks t);
  wf_items : zlen (items t) = zlen (masks t) * 64;
  wf_size : zlen (masks t) <= 2 ^ 25;
}.

(** The item at a key. *)
Definition at_key (t : Table) (key : Z) : option Item :=
  mask ← zlookup (masks t) (key / 64);
  if Z.testbit mask (key mod 64) then zlookup (items t) key else None.

Lemma isSet_testbit mask shift : 0 <= shift -> isSet mask shift = Z.testbit mask shift.
Proof.
  intros Hs. unfold isSet. destruct (Z.testbit mask shift) eqn:E.
  - apply negb_true_iff, Z.eqb_neq. intros H. apply (f_equal (fun z => Z.testbit z shift)) in H.
    rewrite Z.land_spec, E, Z.shiftl_1_l, Z.pow2_bits_true, Z.bits_0 in H by lia. done.
  - apply negb_false_iff, Z.eqb_eq. apply Z.bits_inj'. intros n Hn. rewrite Z.land_spec, Z.bits_0.
    destruct (decide (n = shift)) as [->|]; [by rewrite E|].
    rewrite Z.shiftl_1_l, Z.pow2_bits_false by lia. apply andb_false_r.
Qed.

Lemma Lookup_spec t key : wf t -> Lookup t key = Ok (at_key t key).
Proof.
  intros [_ Hi _]. unfold Lookup, at_key.
  destruct (Z.ltb_spec key 0) as [Hk|Hk].
  { rewrite (zlookup_neg _ (key / 64)) by (apply Z.div_lt_upper_bound; lia). done. }
  pose proof (Z.mod_pos_bound key 64 ltac:(lia)). pose proof (Z.div_mod key 64 ltac:(lia)).
  destruct (Z.ltb_spec key (zlen (items t))) as [Hl|Hl].
  - destruct (zindex_in (masks t) (key / 64)) as (mask & -> & ->); [split; [apply Z.div_pos|]; lia|].
    simpl. rewrite isSet_testbit by lia. destruct (Z.testbit mask _); [|done].
    destruct (zindex_in (items t) key) as (it & -> & ->); [lia|done].
  - rewrite (zlookup_ge _ (key / 64)) by (apply Z.div_le_lower_bound; lia). done.
Qed.
(** *** Bits of 64-bit words *)

Lemma u64_bits x : 0 <= x -> (forall n, 64 <= n -> Z.testbit x n = false) -> is_u64 x.
Proof.
  intros Hx Hb. assert (x = x mod 2 ^ 64) as E.
  { apply Z.bits_inj'. intros n Hn. destruct (Z.lt_ge_cases n 64).
    - by rewrite Z.mod_pow2_bits_low by lia.
    - rewrite Z.mod_pow2_bits_high by lia. by apply Hb. }
  unfold is_u64. pose proof (Z.mod_pos_bound x (2 ^ 64)). lia.
Qed.

Lemma bits_u64 x n : is_u64 x -> 64 <= n -> Z.testbit x n = false.
Proof.
  intros Hx Hn. unfold is_u64 in Hx. rewrite <- (Z.mod_small x (2 ^ 64)) by lia.
  by rewrite Z.mod_pow2_bits_high by lia.
Qed.

Lemma not64_spec x n : 0 <= n < 64 -> Z.testbit (not64 x) n = negb (Z.testbit x n).
Proof. intros Hn. unfold not64. rewrite Z.lxor_spec, Z.ones_spec_low by lia. by destruct (Z.testbit x n). Qed.

Lemma not64_full x : is_u64 x -> not64 x = 0 <-> forall n, 0 <= n < 64 -> Z.testbit x n = true.
Proof.
  intros Hx. split.
  - intros H n Hn. apply (f_equal (fun z => Z.testbit z n)) in H. rewrite not64_spec, Z.bits_0 in H by done.
    by destruct (Z.testbit x n).
  - intros H. apply Z.bits_inj'. intros n Hn. rewrite Z.bits_0. destruct (Z.lt_ge_cases n 64).
    + rewrite not64_spec by lia. by rewrite H by lia.
    + unfold not64. rewrite Z.lxor_spec, (bits_u64 x), Z.ones_spec_high by (done || lia). done.
Qed.

Lemma set_bit mask shift n :
  0 <= shift < 64 -> 0 <= n -> Z.testbit (Z.lor mask (Z.shiftl 1 shift)) n = (n =? shift) || Z.testbit mask n.
Proof.
  intros Hs Hn. rewrite Z.lor_spec, Z.shiftl_1_l, orb_comm. f_equal.
  destruct (Z.eqb_spec n shift) as [->|]; [apply Z.pow2_bits_true; lia|apply Z.pow2_bits_false; lia].
Qed.

Lemma clear_bit mask shift n :
  is_u64 mask -> 0 <= shift < 64 -> 0 <= n ->
  Z.testbit (Z.land mask (not64 (Z.shiftl 1 shift))) n = negb (n =? shift) && Z.testbit mask n.
Proof.
  intros Hm Hs Hn. rewrite Z.land_spec, andb_comm. destruct (Z.lt_ge_cases n 64).
  - rewrite not64_spec, Z.shiftl_1_l by lia. f_equal. f_equal.
    destruct (Z.eqb_spec n shift) as [->|]; [apply Z.pow2_bits_true; lia|apply Z.pow2_bits_false; lia].
  - rewrite (bits_u64 mask n) by done. by rewrite !andb_false_r.
Qed.

Lemma set_u64 mask shift : is_u64 mask -> 0 <= shift < 64 -> is_u64 (Z.lor mask (Z.shiftl 1 shift)).
Proof.
  intros Hm Hs. apply u64_bits.
  - apply Z.lor_nonneg. split; [unfold is_u64 in Hm; lia|apply Z.shiftl_nonneg; lia].
  - intros n Hn. rewrite set_bit by lia. rewrite (bits_u64 mask n) by done.
    by rewrite (proj2 (Z.eqb_neq n shift)) by lia.
Qed.

Lemma clear_u64 mask shift : is_u64 mask -> 0 <= shift < 64 -> is_u64 (Z.land mask (not64 (Z.shiftl 1 shift))).
Proof.
  intros Hm Hs. apply u64_bits.
  - apply Z.land_nonneg. left. unfold is_u64 in Hm. lia.
  - intros n Hn. rewrite clear_bit by (done || lia). rewrite (bits_u64 mask n) by done. apply andb_false_r.
Qed.

(** *** Updating one slot *)

Lemma zlookup_insert {A} (l : list A) i j x :
  0 <= i < zlen l -> zlookup (<[Z.to_nat i := x]> l) j = if decide (i = j) then Some x else zlookup l j.
Proof.
  intros Hi. unfold zlookup. unfold zlen in Hi. case_decide as E.
  - subst j. rewrite (proj2 (Z.leb_le 0 i)) by lia. apply list_lookup_insert_eq. lia.
  - destruct (0 <=? j) eqn:Ej; [|done]. bools. apply list_lookup_insert_ne. lia.
Qed.

(** A store at [key] that changes only its own bit. *)
Lemma store_spec t key mask mask' (b : bool) item :
  wf t -> 0 <= key < zlen (items t) -> zlookup (masks t) (key / 64) = Some mask -> is_u64 mask' ->
  (forall n, 0 <= n < 64 -> Z.testbit mask' n = if n =? key mod 64 then b else Z.testbit mask n) ->
  exists t', store (key / 64) mask' key item t = Ok t' /\ wf t' /\ zlen (masks t') = zlen (masks t) /\
    forall k, at_key t' k = if decide (k = key) then (if b then Some item else None) else at_key t k.
Proof.
  intros [Hm Hi Hs] Hk Hmask Hu Hbits. unfold store.
  rewrite (proj2 (Z.leb_le 0 key)), (proj2 (Z.ltb_lt key _)) by lia. cbn [andb].
  pose proof (zlookup_Some_lt _ _ _ Hmask) as Hr.
  eexists. split; [done|]. split; [split; simpl|split; [simpl; by rewrite zlen_insert|]].
  - apply Forall_insert; [done|done].
  - by rewrite !zlen_insert.
  - by rewrite zlen_insert.
  - intros k. unfold at_key. simpl. rewrite !zlookup_insert by done.
    pose proof (Z.mod_pos_bound k 64 ltac:(lia)). pose proof (Z.div_mod k 64 ltac:(lia)).
    pose proof (Z.div_mod key 64 ltac:(lia)).
    destruct (decide (key / 64 = k / 64)) as [Eq|Eq].
    + simpl. rewrite Hbits by lia. rewrite <- Eq, Hmask. simpl.
      destruct (Z.eqb_spec (k mod 64) (key mod 64)) as [Em|Em].
      * assert (k = key) as -> by lia. by rewrite !decide_True by done.
      * by rewrite !decide_False by (intros ->; lia).
    + by rewrite !decide_False by (intros ->; lia).
Qed.

(** *** Growth *)

Lemma grow_spec t n :
  wf t -> 0 <= n -> zlen (masks t) + n <= 2 ^ 25 ->
  wf (grow n t) /\ zlen (masks (grow n t)) = zlen (masks t) + n /\ forall k, at_key (grow n t) k = at_key t k.
Proof.
  intros [Hm Hi Hs] Hn Hlt.
  assert (zlen (masks (grow n t)) = zlen (masks t) + n) as El.
  { unfold grow, zlen. simpl. rewrite length_app, length_replicate. lia. }
  split; [split|split; [done|]].
  - apply Forall_app. split; [done|]. apply Forall_replicate. unfold is_u64. lia.
  - rewrite El. unfold grow, zlen in *. simpl. rewrite length_app, length_replicate. lia.
  - lia.
  - intros k. unfold at_key, grow. simpl. rewrite !zlookup_app.
    pose proof (Z.mod_pos_bound k 64 ltac:(lia)). pose proof (Z.div_mod k 64 ltac:(lia)).
    destruct (Z.ltb_spec (k / 64) (zlen (masks t))).
    + destruct (zlookup (masks t) (k / 64)) as [mask|] eqn:E; [|done]. simpl. destruct (Z.testbit mask _); [|done].
      by rewrite (proj2 (Z.ltb_lt _ _)) by lia.
    + rewrite (zlookup_ge (masks t)) by done. simpl.
      destruct (zlookup (replicate _ 0) _) as [mask|] eqn:E; [|done]. simpl.
      assert (mask = 0) as -> by (unfold zlookup in E; destruct (0 <=? _); [|done]; by apply lookup_replicate in E as [-> _]).
      by rewrite Z.bits_0.
Qed.

(** *** The operations *)

Lemma InsertAt_spec t item key :
  wf t -> 0 <= key < 2 ^ 31 ->
  exists t', InsertAt item key t = Ok (true, t') /\ wf t' /\
    forall k, at_key t' k = if decide (k = key) then Some item else at_key t k.
Proof.
  intros Hw Hk. unfold InsertAt. rewrite (proj2 (Z.ltb_ge key 0)) by lia.
  pose proof (Z.mod_pos_bound key 64 ltac:(lia)). pose proof (Z.div_mod key 64 ltac:(lia)).
  assert (0 <= key / 64 < 2 ^ 25) as Hd by (split; [apply Z.div_pos|apply Z.div_lt_upper_bound]; lia).
  set (diff := key / 64 - zlen (masks t) + 1).
  assert (exists t1, (if diff >? 0 then grow diff t else t) = t1 /\ wf t1 /\ key / 64 < zlen (masks t1) /\
            forall k, at_key t1 k = at_key t k) as (t1 & -> & Hw1 & Hl1 & Ha1).
  { eexists. split; [done|]. destruct (Z.gtb_spec diff 0); subst diff; [|split_and!; (done || lia)].
    destruct (grow_spec t (key / 64 - zlen (masks t) + 1) Hw) as (? & ? & ?); [lia|lia|]. split_and!; (done || lia). }
  destruct (zindex_in (masks t1) (key / 64)) as (mask & -> & Hmask); [lia|]. cbn [res_bind].
  assert (is_u64 mask) as Hu.
  { pose proof (wf_masks _ Hw1) as Hf. rewrite Forall_lookup in Hf. unfold zlookup in Hmask.
    destruct (0 <=? key / 64); [|done]. by eapply Hf. }
  destruct (store_spec t1 key mask (Z.lor mask (Z.shiftl 1 (key mod 64))) true item) as (t' & -> & Hw' & _ & Ha');
    try done.
  - rewrite (wf_items _ Hw1). lia.
  - by apply set_u64.
  - intros n Hn. rewrite set_bit by lia. by destruct (n =? key mod 64).
  - exists t'. split_and!; [done..|]. intros k. rewrite Ha'. by case_decide; [|apply Ha1].
Qed.

Lemma Delete_spec t key :
  wf t ->
  exists t', Delete key t = Ok t' /\ wf t' /\
    forall k, at_key t' k = if decide (k = key) then None else at_key t k.
Proof.
  intros Hw. unfold Delete. destruct (Z.ltb_spec key 0) as [Hk|Hk].
  { exists t. split_and!; [done..|]. intros k. case_decide; [|done]. subst k. unfold at_key.
    by rewrite (zlookup_neg _ (key / 64)) by (apply Z.div_lt_upper_bound; lia). }
  pose proof (Z.mod_pos_bound key 64 ltac:(lia)). pose proof (Z.div_mod key 64 ltac:(lia)).
  destruct (Z.ltb_spec (key / 64) (zlen (masks t))) as [Hl|Hl].
  - destruct (zindex_in (masks t) (key / 64)) as (mask & -> & Hmask); [split; [apply Z.div_pos|]; lia|]. cbn [res_bind].
    assert (is_u64 mask) as Hu.
    { pose proof (wf_masks _ Hw) as Hf. rewrite Forall_lookup in Hf. unfold zlookup in Hmask.
      destruct (0 <=? key / 64); [|done]. by eapply Hf. }
    rewrite isSet_testbit by lia. destruct (Z.testbit mask (key mod 64)) eqn:E.
    + destruct (store_spec t key mask (Z.land mask (not64 (Z.shiftl 1 (key mod 64)))) false zero) as (t' & -> & Hw' & _ & Ha');
        try done.
      * rewrite (wf_items _ Hw). lia.
      * by apply clear_u64.
      * intros n Hn. rewrite clear_bit by (done || lia). by destruct (n =? key mod 64).
      * by exists t'.
    + exists t. split_and!; [done..|]. intros k. case_decide; [|done]. subst k. unfold at_key. rewrite Hmask. simpl. by rewrite E.
  - exists t. split_and!; [done..|]. intros k. case_decide; [|done]. subst k. unfold at_key. by rewrite (zlookup_ge (masks t)).
Qed.

Lemma findFree_Some i ms j mask :
  findFree i ms = Some (j, mask) ->
  i <= j /\ zlookup ms (j - i) = Some mask /\ not64 mask <> 0 /\
  forall n x, i <= n < j -> zlookup ms (n - i) = Some x -> not64 x = 0.
Proof.
  revert i. induction ms as [|x ms IH]; intros i; simpl; [done|].
  destruct (Z.eqb_spec (not64 x) 0) as [E|E]; simpl.
  - intros (Hij & Hl & Hne & Hf)%IH. split; [lia|]. split; [|split; [done|]].
    + change (x :: ms) with ([x] ++ ms). rewrite zlookup_app. change (zlen [x]) with 1.
      rewrite (proj2 (Z.ltb_ge _ _)) by lia. by replace (j - i - 1) with (j - (i + 1)) by lia.
    + intros n y Hn. change (x :: ms) with ([x] ++ ms). rewrite zlookup_app. change (zlen [x]) with 1.
      destruct (Z.ltb_spec (n - i) 1) as [Hlt|Hge].
      * replace (n - i) with 0 by lia. by intros [= <-].
      * intros Hy. apply (Hf n); [lia|]. by replace (n - (i + 1)) with (n - i - 1) by lia.
  - intros [= <- <-]. split; [lia|]. rewrite Z.sub_diag. split_and!; [done..|]. lia.
Qed.

Lemma findFree_None i ms x n : findFree i ms = None -> zlookup ms n = Some x -> not64 x = 0.
Proof.
  intros H Hn. assert (x ∈ ms) as Hx.
  { unfold zlookup in Hn. destruct (0 <=? n); [|done]. by eapply list_elem_of_lookup_2. }
  clear Hn. revert i H. induction ms as [|y ms IH]; intros i; simpl; [by apply elem_of_nil in Hx|].
  destruct (Z.eqb_spec (not64 y) 0); simpl; [|done]. apply elem_of_cons in Hx as [->|Hx]; eauto.
Qed.

Lemma TrailingZeros64_spec x :
  is_u64 x -> x <> 0 ->
  0 <= TrailingZeros64 x < 64 /\ Z.testbit x (TrailingZeros64 x) = true /\
  forall n, 0 <= n < TrailingZeros64 x -> Z.testbit x n = false.
Proof.
  intros Hx Hne. unfold TrailingZeros64, bitIndexes.
  assert (forall m k, filter (fun i => Z.testbit x i = true) (map Z.of_nat (seq k m)) = [] \/
    exists i r, filter (fun i => Z.testbit x i = true) (map Z.of_nat (seq k m)) = i :: r /\
      Z.of_nat k <= i < Z.of_nat (k + m) /\ Z.testbit x i = true /\
      forall n, Z.of_nat k <= n < i -> Z.testbit x n = false) as P.
  { induction m as [|m IH]; intros k; [by left|]. cbn [seq map]. rewrite filter_cons.
    case_decide as Hb.
    - right. exists (Z.of_nat k). eexists. split; [done|]. split_and!; (done || lia).
    - destruct (IH (S k)) as [->|(i & r & -> & Hr & Hi & Hf)]; [by left|]. right. exists i, r. split_and!; try done; try lia.
      intros n Hn. destruct (decide (n = Z.of_nat k)) as [->|]; [by destruct (Z.testbit x (Z.of_nat k))|]. apply Hf. lia. }
  destruct (P 64%nat 0%nat) as [E|(i & r & -> & Hr & Hi & Hf)]; [|split_and!; try done; try lia; intros n Hn; apply Hf; lia].
  exfalso. apply Hne. apply Z.bits_inj'. intros n Hn. rewrite Z.bits_0. destruct (Z.lt_ge_cases n 64); [|by apply bits_u64].
  destruct (Z.testbit x n) eqn:Eb; [|done]. exfalso.
  assert (n ∈ filter (fun i => Z.testbit x i = true) (map Z.of_nat (seq 0 64))) as Hin.
  { apply list_elem_of_filter. split; [done|]. apply list_elem_of_fmap. exists (Z.to_nat n). split; [lia|]. apply elem_of_seq. lia. }
  rewrite E in Hin. by apply elem_of_nil in Hin.
Qed.

Lemma mask_u64 t i mask : wf t -> zlookup (masks t) i = Some mask -> is_u64 mask.
Proof.
  intros Hw. pose proof (wf_masks _ Hw) as Hf. rewrite Forall_lookup in Hf. unfold zlookup.
  destruct (0 <=? i); [|done]. apply Hf.
Qed.

Lemma not64_u64 x : is_u64 x -> is_u64 (not64 x).
Proof.
  intros Hx. apply u64_bits.
  - unfold not64. apply Z.lxor_nonneg. unfold is_u64 in Hx. change (Z.ones 64) with (2 ^ 64 - 1). lia.
  - intros n Hn. unfold not64. rewrite Z.lxor_spec, (bits_u64 x), Z.ones_spec_high by (done || lia). done.
Qed.

Lemma int32_key i j : 0 <= i < 2 ^ 25 -> 0 <= j < 64 -> sgn32 (sgn32 (sgn32 i * 64) + j) = i * 64 + j.
Proof. intros Hi Hj. unfold sgn32. rewrite (sgn_small 32 i), (sgn_small 32 (i * 64)), sgn_small by lia. done. Qed.

(** The slot of a set bit is occupied. *)
Lemma at_key_Some t i j mask :
  wf t -> zlookup (masks t) i = Some mask -> 0 <= j < 64 -> Z.testbit mask j = true ->
  at_key t (i * 64 + j) = zlookup (items t) (i * 64 + j) /\ is_Some (at_key t (i * 64 + j)).
Proof.
  intros Hw Hm Hj Hb. pose proof (zlookup_Some_lt _ _ _ Hm). unfold at_key.
  replace ((i * 64 + j) / 64) with i by (apply (Z.div_unique _ _ _ j); lia).
  replace ((i * 64 + j) mod 64) with j by (apply (Z.mod_unique_pos _ _ i); lia).
  rewrite Hm. simpl. rewrite Hb. split; [done|]. rewrite <- (Z2Nat.id (i * 64 + j)) by lia.
  destruct (zlookup_lt_is_Some (items t) (i * 64 + j)) as [it Hit]; [rewrite (wf_items _ Hw); lia|].
  rewrite Z2Nat.id by lia. by rewrite Hit.
Qed.

Lemma insertIn_spec t index mask item :
  wf t -> zlookup (masks t) index = Some mask -> not64 mask <> 0 -> index < 2 ^ 25 ->
  (forall n x, 0 <= n < index -> zlookup (masks t) n = Some x -> not64 x = 0) ->
  exists key t', insertIn index mask item t = Ok (key, true, t') /\ 0 <= key /\ at_key t key = None /\
    (forall k, 0 <= k < key -> is_Some (at_key t k)) /\ wf t' /\
    forall k, at_key t' k = if decide (k = key) then Some item else at_key t k.
Proof.
  intros Hw Hm Hne Hi Hfull. pose proof (mask_u64 _ _ _ Hw Hm) as Hu. pose proof (zlookup_Some_lt _ _ _ Hm) as Hr.
  destruct (TrailingZeros64_spec (not64 mask)) as (Hs & Hbit & Hlow); [by apply not64_u64|done|].
  unfold insertIn. set (shift := TrailingZeros64 (not64 mask)) in *.
  rewrite int32_key by lia. set (key := index * 64 + shift).
  assert (key / 64 = index /\ key mod 64 = shift) as [Ed Em]
    by (subst key; split; symmetry; [apply (Z.div_unique _ _ _ shift)|apply (Z.mod_unique_pos _ _ index)]; lia).
  rewrite not64_spec in Hbit by done. apply negb_true_iff in Hbit.
  destruct (store_spec t key mask (Z.lor mask (Z.shiftl 1 shift)) true item) as (t' & Hst & Hw' & _ & Ha); try done.
  - rewrite (wf_items _ Hw). subst key. lia.
  - by rewrite Ed.
  - by apply set_u64.
  - intros n Hn. rewrite Em, set_bit by lia. by destruct (n =? shift).
  - rewrite Ed in Hst. rewrite Hst. cbn [res_bind]. exists key, t'.
    rewrite (proj2 (Z.leb_le 0 key)) by (subst key; lia). split_and!; try done; [subst key; lia| |].
    + unfold at_key. rewrite Ed, Em, Hm. simpl. by rewrite Hbit.
    + intros k Hk. pose proof (Z.mod_pos_bound k 64 ltac:(lia)). pose proof (Z.div_mod k 64 ltac:(lia)) as Hdk.
      assert (k = k / 64 * 64 + k mod 64) as -> by lia.
      destruct (decide (k / 64 = index)) as [E|E].
      * rewrite E. eapply at_key_Some; try done. assert (k mod 64 < shift) by (subst key; lia).
        specialize (Hlow (k mod 64)). rewrite not64_spec in Hlow by lia. apply negb_false_iff, Hlow. lia.
      * assert (0 <= k / 64 < index) as Hlt by (split; [apply Z.div_pos|]; subst key; lia).
        destruct (zlookup_lt_is_Some (masks t) (k / 64)) as [x Hx]; [lia|].
        eapply at_key_Some; try done. exact (proj1 (not64_full x (mask_u64 _ _ _ Hw Hx)) (Hfull _ _ Hlt Hx) _ H).
Qed.

Lemma Insert_spec t item :
  wf t -> zlen (masks t) < 2 ^ 25 ->
  exists key t', Insert item t = Ok (key, true, t') /\ 0 <= key /\ at_key t key = None /\
    (forall k, 0 <= k < key -> is_Some (at_key t k)) /\ wf t' /\
    forall k, at_key t' k = if decide (k = key) then Some item else at_key t k.
Proof.
  intros Hw Hlt. unfold Insert. destruct (findFree 0 (masks t)) as [[index mask]|] eqn:E.
  - apply findFree_Some in E as (Hi & Hm & Hne & Hf). rewrite Z.sub_0_r in Hm.
    apply insertIn_spec; try done; [apply zlookup_Some_lt in Hm; lia|].
    intros n x Hn Hx. apply (Hf n); [lia|]. by rewrite Z.sub_0_r.
  - destruct (grow_spec t 1 Hw) as (Hw' & El & Ha); [lia|lia|].
    assert (drop (Z.to_nat (zlen (masks t))) (masks (grow 1 t)) = [0]) as ->.
    { unfold grow. simpl. unfold zlen. rewrite Nat2Z.id. by rewrite drop_app_length. }
    cbn [findFree]. change (negb (not64 0 =? 0)) with true. cbv iota.
    destruct (insertIn_spec (grow 1 t) (zlen (masks t)) 0 item) as (key & t' & -> & Hk & Hn & Hall & Hw2 & Ha'); try done.
    + unfold grow. simpl. rewrite zlookup_app, Z.ltb_irrefl, Z.sub_diag. done.
    + intros n x Hn. unfold grow. simpl. rewrite zlookup_app, (proj2 (Z.ltb_lt _ _)) by lia. by apply findFree_None with 0.
    + exists key, t'. split_and!; try done; [by rewrite <- Ha|intros k Hk'; rewrite <- Ha; by apply Hall|].
      intros k. by rewrite Ha', Ha.
Qed.

Lemma Reset_spec t : wf t -> wf (Reset t) /\ forall k, at_key (Reset t) k = None.
Proof.
  intros [Hm Hi Hs]. split.
  - split; unfold Reset, zlen in *; simpl; rewrite ?length_replicate; try lia.
    apply Forall_replicate. unfold is_u64. lia.
  - intros k. unfold at_key, Reset. simpl. destruct (zlookup _ (k / 64)) as [mask|] eqn:E; [|done]. simpl.
    assert (mask = 0) as -> by (unfold zlookup in E; destruct (0 <=? _); [|done]; by apply lookup_replicate in E as [-> _]).
    by rewrite Z.bits_0.
Qed.

(** *** Counting and iterating *)

(** The occupied keys in ascending order. *)
Definition maskKeys (i mask : Z) (js : list Z) : list Z :=
  map (fun j => i * 64 + j) (filter (fun j => Z.testbit mask j = true) js).
Fixpoint keysFrom (i : Z) (ms : list Z) : list Z :=
  match ms with
  | [] => []
  | mask :: ms' => maskKeys i mask bitIndexes ++ keysFrom (i + 1) ms'
  end.
Definition keys (t : Table) : list Z := keysFrom 0 (masks t).

Lemma Len_keys t : Len t = zlen (keys t).
Proof.
  unfold Len, keys. assert (forall ms n i, fold_left (fun n mask => n + OnesCount64 mask) ms n = n + zlen (keysFrom i ms)) as H.
  { induction ms as [|mask ms IH]; intros n i; simpl; [change (zlen []) with 0; lia|].
    rewrite (IH _ (i + 1)), zlen_app. unfold OnesCount64, maskKeys, zlen. rewrite length_map. lia. }
  by rewrite (H _ 0 0).
Qed.

Lemma elem_of_bitIndexes j : j ∈ bitIndexes <-> 0 <= j < 64.
Proof.
  unfold bitIndexes. rewrite list_elem_of_fmap. split.
  - intros (n & -> & Hn%elem_of_seq). lia.
  - intros Hj. exists (Z.to_nat j). rewrite elem_of_seq. lia.
Qed.

Lemma elem_of_maskKeys i mask k :
  k ∈ maskKeys i mask bitIndexes <-> k / 64 = i /\ Z.testbit mask (k mod 64) = true.
Proof.
  unfold maskKeys. rewrite list_elem_of_fmap. setoid_rewrite list_elem_of_filter. setoid_rewrite elem_of_bitIndexes. split.
  - intros (j & -> & Hb & Hj). rewrite <- (Z.mod_unique_pos (i * 64 + j) 64 i j), <- (Z.div_unique (i * 64 + j) 64 i j) by lia. done.
  - intros [<- Hb]. exists (k mod 64). pose proof (Z.mod_pos_bound k 64 ltac:(lia)). pose proof (Z.div_mod k 64 ltac:(lia)).
    split_and!; (done || lia).
Qed.

Lemma elem_of_keysFrom i ms k :
  k ∈ keysFrom i ms <-> exists mask, zlookup ms (k / 64 - i) = Some mask /\ Z.testbit mask (k mod 64) = true.
Proof.
  revert i. induction ms as [|mask ms IH]; intros i; cbn [keysFrom].
  { rewrite elem_of_nil. split; [done|]. intros (mask & H & _). unfold zlookup in H. by destruct (0 <=? _). }
  rewrite elem_of_app, elem_of_maskKeys, IH. change (mask :: ms) with ([mask] ++ ms). rewrite zlookup_app.
  change (zlen [mask]) with 1. replace (k / 64 - (i + 1)) with (k / 64 - i - 1) by lia.
  destruct (Z.ltb_spec (k / 64 - i) 1) as [H|H].
  - rewrite (zlookup_neg ms) by lia. destruct (decide (k / 64 = i)) as [->|Hne].
    + rewrite Z.sub_diag. split; [intros [[_ ?]|(? & ? & _)]; [by exists mask|done]|].
      intros (m' & [= <-] & ?). by left.
    + rewrite (zlookup_neg [mask]) by lia. naive_solver.
  - split; [intros [[? _]|?]; [lia|done]|by right].
Qed.

Lemma elem_of_keys t k : wf t -> k ∈ keys t <-> is_Some (at_key t k).
Proof.
  intros Hw. unfold keys. rewrite elem_of_keysFrom, Z.sub_0_r. unfold at_key. split.
  - intros (mask & Hm & Hb). pose proof (Z.mod_pos_bound k 64 ltac:(lia)). pose proof (Z.div_mod k 64 ltac:(lia)).
    destruct (at_key_Some t (k / 64) (k mod 64) mask) as [E [x Hx]]; [done..|].
    replace (k / 64 * 64 + k mod 64) with k in * by lia. unfold at_key in Hx. by rewrite Hx.
  - intros [x Hx]. destruct (zlookup (masks t) (k / 64)) as [mask|] eqn:E; [|done]. simpl in Hx. exists mask.
    split; [done|]. by destruct (Z.testbit mask _).
Qed.

(** What iterating over a list of keys does with the callback. *)
Fixpoint rangeList {S : Type} (f : Z -> Item -> S -> bool * S) (t : Table) (ks : list Z) (s : S) : bool * S :=
  match ks with
  | [] => (true, s)
  | k :: ks' =>
      match at_key t k with
      | None => rangeList f t ks' s
      | Some item => let '(b, s) := f k item s in if b then rangeList f t ks' s else (false, s)
      end
  end.

Lemma rangeList_app {S} (f : Z -> Item -> S -> bool * S) t ks ks' s :
  rangeList f t (ks ++ ks') s = let '(b, s') := rangeList f t ks s in if b then rangeList f t ks' s' else (false, s').
Proof.
  revert s. induction ks as [|k ks IH]; intros s; simpl; [by destruct (rangeList f t ks' s) as [[]]|].
  destruct (at_key t k); [|done]. destruct (f k i s) as [[] s']; [apply IH|done].
Qed.

Lemma rangeMask_spec {S} (f : Z -> Item -> S -> bool * S) t i mask js s :
  wf t -> zlookup (masks t) i = Some mask -> Forall (fun j => 0 <= j < 64) js ->
  rangeMask f t i mask js s = Ok (rangeList f t (maskKeys i mask js) s).
Proof.
  intros Hw Hm Hjs. pose proof (zlookup_Some_lt _ _ _ Hm). pose proof (wf_size _ Hw).
  revert s. induction Hjs as [|j js Hj Hjs IH]; intros s; [done|]. cbn [rangeMask]. rewrite isSet_testbit by lia.
  unfold maskKeys. rewrite filter_cons. destruct (Z.testbit mask j) eqn:Hb; simpl; [|apply IH].
  rewrite int32_key by lia. destruct (at_key_Some t i j mask) as [E [item Hit]]; [done..|].
  rewrite Hit in E. unfold zindex. rewrite <- E. simpl. rewrite Hit.
  destruct (f (i * 64 + j) item s) as [[] s']; [apply IH|done].
Qed.

Lemma Range_spec {S} (f : Z -> Item -> S -> bool * S) t s :
  wf t -> Range f t s = Ok (rangeList f t (keys t) s).2.
Proof.
  intros Hw. unfold Range, keys.
  assert (forall ms i s, 0 <= i -> (forall n, zlookup ms n = zlookup (drop (Z.to_nat i) (masks t)) n) ->
    rangeMasks f t i ms s = Ok (rangeList f t (keysFrom i ms) s).2) as H; [|by apply H].
  induction ms as [|mask ms IH]; intros i s' Hi Heq; [done|]. cbn [rangeMasks keysFrom].
  assert (zlookup (masks t) i = Some mask) as Hm.
  { specialize (Heq 0). unfold zlookup in *. simpl in Heq. rewrite (proj2 (Z.leb_le 0 i)) by lia.
    rewrite lookup_drop, Nat.add_0_r in Heq. done. }
  assert (forall n, zlookup ms n = zlookup (drop (Z.to_nat (i + 1)) (masks t)) n) as Heq'.
  { intros n. specialize (Heq (n + 1)). unfold zlookup in *. destruct (0 <=? n) eqn:En; [|done]. bools.
    rewrite (proj2 (Z.leb_le 0 (n + 1))) in Heq by lia. rewrite lookup_drop in *.
    replace (Z.to_nat (n + 1)) with (Datatypes.S (Z.to_nat n)) in Heq by lia. simpl in Heq. rewrite Heq. f_equal. lia. }
  rewrite rangeList_app. destruct (Z.eqb_spec mask 0) as [->|].
  - replace (maskKeys i 0 bitIndexes) with (@nil Z).
    + simpl. by apply IH; [lia|].
    + symmetry. apply elem_of_nil_inv. intros k [_ Hb]%elem_of_maskKeys. by rewrite Z.bits_0 in Hb.
  - rewrite (rangeMask_spec _ _ _ _ _ _ Hw Hm) by (apply Forall_forall; by intros j ?%elem_of_bitIndexes).
    cbn [res_bind]. destruct (rangeList f t (maskKeys i mask bitIndexes) s') as [[] s'']; [by apply IH; [lia|]|done].
Qed.

Lemma maskKeys_sorted i mask n k :
  StronglySorted Z.lt (maskKeys i mask (map Z.of_nat (seq k n))) /\
  Forall (fun x => i * 64 + Z.of_nat k <= x < i * 64 + Z.of_nat (k + n)) (maskKeys i mask (map Z.of_nat (seq k n))).
Proof.
  revert k. induction n as [|n IH]; intros k; [by split; constructor|].
  destruct (IH (S k)) as [Hs Hf]. cbn [seq map]. unfold maskKeys. rewrite filter_cons.
  fold (maskKeys i mask (map Z.of_nat (seq (S k) n))). case_decide; simpl.
  - fold (maskKeys i mask (map Z.of_nat (seq (S k) n))). split; constructor; try done; try lia.
    + eapply Forall_impl; [exact Hf|]. intros x Hx. simpl in Hx. lia.
    + eapply Forall_impl; [exact Hf|]. intros x Hx. simpl in Hx. lia.
  - split; [done|]. eapply Forall_impl; [exact Hf|]. intros x Hx. simpl in Hx. lia.
Qed.

Lemma keysFrom_sorted i ms : StronglySorted Z.lt (keysFrom i ms) /\ Forall (fun x => i * 64 <= x) (keysFrom i ms).
Proof.
  revert i. induction ms as [|mask ms IH]; intros i; cbn [keysFrom]; [by split; constructor|].
  destruct (IH (i + 1)) as [Hs Hf]. destruct (maskKeys_sorted i mask 64 0) as [Hs' Hf'].
  fold bitIndexes in Hs', Hf'. rewrite Forall_forall in Hf, Hf'. split.
  - apply StronglySorted_app_2; [|done|done]. intros x y Hx Hy. specialize (Hf' x Hx). specialize (Hf y Hy). simpl in *. lia.
  - apply Forall_forall. intros x [Hx|Hx]%elem_of_app; [specialize (Hf' x Hx)|specialize (Hf x Hx)]; simpl in *; lia.
Qed.

(** ** Properties *)

(** [Insert] returns the least free key and maps the item there, leaving
    every other key as it was, as long as the table has fewer than 2^31 slots. *)
Theorem descriptor_insert_least (t : Table) (item : Item) :
  wf t -> zlen (masks t) < 2 ^ 25 ->
  exists key t', Insert item t = Ok (key, true, t') /\ 0 <= key /\ Lookup t key = Ok None /\
    (forall k, 0 <= k < key -> exists x, Lookup t k = Ok (Some x)) /\ wf t' /\
    forall k, Lookup t' k = if decide (k = key) then Ok (Some item) else Lookup t k.
Proof.
  intros Hw Hl. destruct (Insert_spec t item Hw Hl) as (key & t' & -> & Hk & Hn & Hall & Hw' & Ha).
  exists key, t'. split_and!; try done.
  - by rewrite Lookup_spec, Hn.
  - intros k Hk'. destruct (Hall k Hk') as [x Hx]. exists x. by rewrite Lookup_spec, Hx.
  - intros k. rewrite !Lookup_spec, Ha by done. by case_decide.
Qed.

(** C38: On a well-formed table, [Lookup], [InsertAt], [Delete] and [Reset] are the
    operations of a finite map from the non-negative keys of an [int32]; negative keys are
    never found, inserting at one fails and deleting one does nothing.  The table stays well
    formed: a mask of 64 bits for every 64 items, at most 2^25 masks. *)
Theorem descriptor_is_map (t : Table) (item : Item) (key : Z) :
  wf t ->
  (key < 0 -> Lookup t key = Ok None /\ InsertAt item key t = Ok (false, t) /\ Delete key t = Ok t) /\
  (0 <= key < 2 ^ 31 -> exists t', InsertAt item key t = Ok (true, t') /\ wf t' /\
     forall k, Lookup t' k = if decide (k = key) then Ok (Some item) else Lookup t k) /\
  (exists t', Delete key t = Ok t' /\ wf t' /\
     forall k, Lookup t' k = if decide (k = key) then Ok None else Lookup t k) /\
  (wf (Reset t) /\ forall k, Lookup (Reset t) k = Ok None).
Proof.
  intros Hw. split_and!.
  - intros Hk. unfold Lookup, InsertAt, Delete. by rewrite (proj2 (Z.ltb_lt _ _)) by lia.
  - intros Hk. destruct (InsertAt_spec t item key Hw Hk) as (t' & -> & Hw' & Ha). exists t'. split_and!; try done.
    intros k. rewrite !Lookup_spec, Ha by done. by case_decide.
  - destruct (Delete_spec t key Hw) as (t' & -> & Hw' & Ha). exists t'. split_and!; try done.
    intros k. rewrite !Lookup_spec, Ha by done. by case_decide.
  - by apply Reset_spec.
  - intros k. destruct (Reset_spec t Hw) as [Hw' Ha]. by rewrite Lookup_spec, Ha.
Qed.

(** [Range] visits exactly the occupied keys, in ascending order, with their
    items, until the callback returns false, and [Len] is their number. *)
Theorem descriptor_range {S : Type} (f : Z -> Item -> S -> bool * S) (t : Table) (s : S) :
  wf t ->
  Range f t s = Ok (rangeList f t (keys t) s).2 /\ Len t = zlen (keys t) /\ StronglySorted Z.lt (keys t) /\
  forall k, k ∈ keys t <-> exists item, Lookup t k = Ok (Some item).
Proof.
  intros Hw. split_and!.
  - by apply Range_spec.
  - apply Len_keys.
  - apply keysFrom_sorted.
  - intros k. rewrite elem_of_keys by done. rewrite Lookup_spec by done.
    split; [intros [x ->]; eauto|intros [x [= ->]]; eauto].
Qed.

(** A full table: the comment of [Insert] promises false, but the key of the
    next slot wraps to a negative number and indexing the items with it panics
    before the result is returned. *)
Theorem descriptor_full_panics (t : Table) (item : Item) :
  wf t -> zlen (masks t) = 2 ^ 25 -> Forall (fun mask => not64 mask = 0) (masks t) ->
  Insert item t = Panic "index out of range".
Proof.
  intros Hw Hl Hf. unfold Insert.
  assert (forall ms i, Forall (fun mask => not64 mask = 0) ms -> findFree i ms = None) as F.
  { intros ms i Hms. revert i. induction Hms as [|mask ms Hm _ IH]; intros i; [done|]. cbn [findFree]. rewrite Hm. apply IH. }
  rewrite (F _ _ Hf).
  assert (drop (Z.to_nat (zlen (masks t))) (masks (grow 1 t)) = [0]) as ->.
  { unfold grow. simpl. unfold zlen. rewrite Nat2Z.id. by rewrite drop_app_length. }
  cbn [findFree]. change (negb (not64 0 =? 0)) with true. cbv iota. rewrite Hl. unfold insertIn.
  replace (sgn32 (sgn32 (sgn32 (2 ^ 25) * 64) + TrailingZeros64 (not64 0))) with (- 2 ^ 31) by (by vm_compute).
  done.
Qed.

End Table.

Lemma descriptor_insert_least_witness :
  exists key t', Insert 0 9 (mkTable [5] (replicate 64 7)) = Ok (key, true, t') /\ 0 <= key /\
    Lookup (mkTable [5] (replicate 64 7)) key = Ok None /\
    (forall k, 0 <= k < key -> exists x, Lookup (mkTable [5] (replicate 64 7)) k = Ok (Some x)) /\ wf t' /\
    forall k, Lookup t' k = if decide (k = key) then Ok (Some 9) else Lookup (mkTable [5] (replicate 64 7)) k.
Proof.
  apply (descriptor_insert_least 0 (mkTable [5] (replicate 64 7)) 9); [|by vm_compute].
  split; [repeat constructor|..]; by vm_compute.
Defined.

Lemma descriptor_is_map_witness :
  exists t', Delete 0 2 (mkTable [5] (replicate 64 7)) = Ok t' /\ wf t' /\
    forall k, Lookup t' k = if decide (k = 2) then Ok None else Lookup (mkTable [5] (replicate 64 7)) k.
Proof.
  apply (descriptor_is_map 0 (mkTable [5] (replicate 64 7)) 9 2).
  split; [repeat constructor|..]; by vm_compute.
Defined.

Lemma descriptor_range_witness :
  Range (fun k _ (acc : list Z) => (true, acc ++ [k])) (mkTable [5] (replicate 64 7)) [] = Ok [0; 2].
Proof.
  refine (proj1 (descriptor_range (fun k _ acc => (true, acc ++ [k])) (mkTable [5] (replicate 64 7)) [] _)).
  split; [repeat constructor|..]; by vm_compute.
Defined.

Lemma descriptor_full_panics_witness :
  Insert 0 9 (mkTable (replicate (Z.to_nat (2 ^ 25)) (2 ^ 64 - 1)) (replicate (Z.to_nat (2 ^ 31)) 0))
  = Panic "index out of range".
Proof.
  apply (descriptor_full_panics 0 (mkTable (replicate (Z.to_nat (2 ^ 25)) (2 ^ 64 - 1)) (replicate (Z.to_nat (2 ^ 31)) 0))).
  - split; cbn [masks items].
    + apply Forall_replicate. unfold is_u64. lia.
    + unfold zlen. rewrite !length_replicate, !Z2Nat.id by lia. lia.
    + unfold zlen. rewrite length_replicate, Z2Nat.id by lia. lia.
  - cbn [masks]. unfold zlen. rewrite length_replicate, Z2Nat.id by lia. lia.
  - cbn [masks]. apply Forall_replicate. by vm_compute.
Defined.
