(* ===== verification/ConstExpr.v ===== *)
(** * Constant expressions (src/internal/wasm/const_expr.go, binary/const_expr.go)

    The decoder of constant expressions, their evaluation, and the check that
    an expression does not depend on globals.

    The value and type stacks are lists whose head is the top; the stack that is
    returned has the bottom first, as in Go.  The resolvers of globals and of
    function references are parameters.  Every instruction takes at least one
    byte, so that [length data] iterations are enough; running out is a
    [Panic]. *)

From S2P Require Import Prelude Leb128 Features Opcodes Types ValStack.

(** ** Evaluation *)

Section Evaluate.
Context (globalResolver : Z -> res (ValueType * Z * Z)) (funcRefResolver : Z -> res Z) (data : list Z).

(** The values (top first) and the types (top first). *)
Record estate := mkEstate { e_pc : Z; e_stack : list Z; e_types : list ValueType }.

Definition push1 (v : Z) (t : ValueType) (pc : Z) (s : estate) : estate :=
  mkEstate pc (v :: e_stack s) (t :: e_types s).
Definition push2 (lo hi : Z) (t : ValueType) (pc : Z) (s : estate) : estate :=
  mkEstate pc (hi :: lo :: e_stack s) (t :: e_types s).

(** i32.add and the like: [f] on the two topmost values, both of type [t]. *)
Definition arith (name : string) (t : ValueType) (f : Z -> Z -> Z) (s : estate) : res estate :=
  match e_types s with
  | v1 :: v2 :: ts =>
      if negb (v1 =? t) || negb (v2 =? t) then
        Err ("type mismatch on " +:+ name +:+ ": " +:+ ValueTypeName v2 +:+ ", " +:+ ValueTypeName v1)
      else
        match e_stack s with
        | b :: a :: st => Ok (mkEstate (e_pc s) (f a b :: st) (t :: ts))
        | _ => Panic "index out of range"
        end
  | _ => Err ("stack underflow on " +:+ name)
  end.

Definition uint32 (x : Z) : Z := wrap32 x.

(** [binary.LittleEndian.UintN(data[pc:])] *)
Definition leAt (n : nat) (pc : Z) : res Z :=
  let! b := zslice data pc in
  if Z.of_nat n <=? zlen b then Ok (le_decode (take n b)) else Panic "index out of range".

(** The reference type of ref.null at [pc]: the type and the next position. *)
Definition refNullType (pc : Z) : res (ValueType * Z) :=
  if pc >=? zlen data then Err "read reference type for ref.null: short buffer"
  else
    let! b := zindex data pc in
    if b =? Kind ValueTypeFuncref then Ok (ValueTypeFuncref, pc + 1)
    else if b =? Kind ValueTypeExternref then Ok (ValueTypeExternref, pc + 1)
    else if b =? Kind ValueTypeExnref then Ok (ValueTypeExnref, pc + 1)
    else
      let! buf := zslice data pc in
      match LoadUint32 buf with
      | Ok (typeIdx, n) => Ok (ValueTypeConcreteRef typeIdx true, pc + n)
      | Err _ => Err "invalid type for ref.null"
      | Panic e => Panic e
      end.

(** [v128.const] after the prefix. *)
Definition vecConst (pc : Z) (s : estate) : res estate :=
  let! b := zindex data pc in
  if negb (b =? OpcodeVecV128Const) then Err "invalid vector opcode for const expression"
  else
    let pc := pc + 1 in
    let! buf := zslice data pc in
    if zlen buf <? 16 then Err "v128.const needs 16 bytes"
    else
      let! lo := leAt 8 pc in
      let! hi := leAt 8 (pc + 8) in
      Ok (push2 lo hi ValueTypeV128 (pc + 16) s).

(** One instruction, at its first byte past the opcode; [inl] ends the loop. *)
Definition constInstruction (opCode : Z) (s : estate) : res (list Z * ValueType + estate) :=
  let pc := e_pc s in
  let go (r : res estate) : res (list Z * ValueType + estate) := let! s := r in Ok (inr s) in
  if opCode =? OpcodeI32Const then
    go (let! buf := zslice data pc in
        let! (v, n) := errorf "read i32" (LoadInt32 buf) in
        Ok (push1 (uint32 v) ValueTypeI32 (pc + n) s))
  else if opCode =? OpcodeI64Const then
    go (let! buf := zslice data pc in
        let! (v, n) := errorf "read i64" (LoadInt64 buf) in
        Ok (push1 (wrap64 v) ValueTypeI64 (pc + n) s))
  else if opCode =? OpcodeF32Const then
    go (let! buf := zslice data pc in
        if zlen buf <? 4 then Err "unexpected EOF"
        else let! v := leAt 4 pc in Ok (push1 v ValueTypeF32 (pc + 4) s))
  else if opCode =? OpcodeF64Const then
    go (let! buf := zslice data pc in
        if zlen buf <? 8 then Err "unexpected EOF"
        else let! v := leAt 8 pc in Ok (push1 v ValueTypeF64 (pc + 8) s))
  else if opCode =? OpcodeGlobalGet then
    go (let! buf := zslice data pc in
        let! (v, n) := errorf "read index of global" (LoadUint32 buf) in
        let! (typ, lo, hi) := globalResolver v in
        Ok ((if typ =? ValueTypeV128 then push2 lo hi else push1 lo) typ (pc + n) s))
  else if opCode =? OpcodeRefNull then
    go (let! (valType, pc) := refNullType pc in Ok (push1 0 valType pc s))
  else if opCode =? OpcodeRefFunc then
    go (let! buf := zslice data pc in
        let! (v, n) := errorf "read i32" (LoadUint32 buf) in
        let! ref := funcRefResolver v in
        Ok (push1 ref ValueTypeFuncref (pc + n) s))
  else if opCode =? OpcodeVecPrefix then go (vecConst pc s)
  else if opCode =? OpcodeI32Add then go (arith "i32.add" ValueTypeI32 (fun a b => uint32 (uint32 a + uint32 b)) s)
  else if opCode =? OpcodeI32Sub then go (arith "i32.sub" ValueTypeI32 (fun a b => uint32 (uint32 a - uint32 b)) s)
  else if opCode =? OpcodeI32Mul then go (arith "i32.mul" ValueTypeI32 (fun a b => uint32 (uint32 a * uint32 b)) s)
  else if opCode =? OpcodeI64Add then go (arith "i64.add" ValueTypeI64 (fun a b => wrap64 (a + b)) s)
  else if opCode =? OpcodeI64Sub then go (arith "i64.sub" ValueTypeI64 (fun a b => wrap64 (a - b)) s)
  else if opCode =? OpcodeI64Mul then go (arith "i64.mul" ValueTypeI64 (fun a b => wrap64 (a * b)) s)
  else if opCode =? OpcodeEnd then
    match e_types s with
    | [t] => Ok (inl (reverse (e_stack s), t))
    | _ => Err "stack has more than one value at end of constant expression"
    end
  else Err "invalid opcode for const expression".

Fixpoint evaluateLoop (fuel : nat) (s : estate) : res (list Z * ValueType) :=
  if e_pc s >=? zlen data then Err "unexpected EOF"
  else
    match fuel with
    | O => Panic "evaluateConstExpr: loop bound"
    | S fuel' =>
        let! opCode := zindex data (e_pc s) in
        let! r := constInstruction opCode (mkEstate (e_pc s + 1) (e_stack s) (e_types s)) in
        match r with
        | inl v => Ok v
        | inr s => evaluateLoop fuel' s
        end
    end.

Definition evaluateConstExpr : res (list Z * ValueType) := evaluateLoop (length data) (mkEstate 0 [] []).

End Evaluate.

(** ** Dependence on globals *)

Fixpoint referencesLoop (fuel : nat) (data : list Z) (pc : Z) : res bool :=
  if negb (pc <? zlen data) then Ok true
  else
    match fuel with
    | O => Panic "constExprReferencesGlobal: loop bound"
    | S fuel' =>
        let! op := zindex data pc in
        let pc := pc + 1 in
        if op =? OpcodeGlobalGet then Ok true
        else if op =? OpcodeEnd then Ok false
        else if op =? OpcodeI32Const then
          let! buf := zslice data pc in
          match LoadInt32 buf with
          | Ok (_, n) => referencesLoop fuel' data (pc + n)
          | Err _ => Ok true
          | Panic e => Panic e
          end
        else if op =? OpcodeI64Const then
          let! buf := zslice data pc in
          match LoadInt64 buf with
          | Ok (_, n) => referencesLoop fuel' data (pc + n)
          | Err _ => Ok true
          | Panic e => Panic e
          end
        else if one_of op [OpcodeI32Add; OpcodeI32Sub; OpcodeI32Mul; OpcodeI64Add; OpcodeI64Sub; OpcodeI64Mul]
             then referencesLoop fuel' data pc
        else Ok true
    end.

Definition constExprReferencesGlobal (data : list Z) : res bool := referencesLoop (length data) data 0.

(** ** Construction *)

Definition NewConstantExpressionFromOpcode (opcode : Z) (opData : list Z) : list Z :=
  (if opcode =? OpcodeVecV128Const then [OpcodeVecPrefix] else []) ++ [opcode] ++ opData ++ [OpcodeEnd].
Definition NewConstantExpressionFromI32 (val : Z) : list Z :=
  NewConstantExpressionFromOpcode OpcodeI32Const (EncodeInt32 val).
Definition NewConstantExpressionFromI64 (val : Z) : list Z :=
  NewConstantExpressionFromOpcode OpcodeI64Const (EncodeInt64 val).

(** ** Decoding *)

(** [io.ReadFull] of [n] bytes, and [r.Read] with the check of the count: the
    error when some bytes but not all are there is [short]. *)
Definition readFull (short : string) (n : nat) (r : list Z) : res (list Z) :=
  if Z.of_nat n <=? zlen r then Ok (drop n r) else Err (if zlen r =? 0 then "EOF" else short).

(** What follows an opcode, without its result: the rest of the reader. *)
Definition skipImmediate (enabledFeatures : CoreFeatures) (opcode : Z) (r : list Z) : res (list Z) :=
  let extended :=
    if negb (IsEnabled enabledFeatures CoreFeaturesExtendedConst) then
      Err (InstructionName opcode +:+ " is not supported in a constant expression as feature extended-const is disabled")
    else Ok r in
  if opcode =? OpcodeI32Const then errorf "read value" (let! (_, _, r) := DecodeInt32 r in Ok r)
  else if one_of opcode [OpcodeI32Add; OpcodeI32Sub; OpcodeI32Mul] then extended
  else if opcode =? OpcodeI64Const then errorf "read value" (let! (_, _, r) := DecodeInt64 r in Ok r)
  else if one_of opcode [OpcodeI64Add; OpcodeI64Sub; OpcodeI64Mul] then extended
  else if opcode =? OpcodeF32Const then errorf "read f32 constant" (readFull "unexpected EOF" 4 r)
  else if opcode =? OpcodeF64Const then errorf "read f64 constant" (readFull "unexpected EOF" 8 r)
  else if opcode =? OpcodeGlobalGet then errorf "read value" (let! (_, _, r) := DecodeUint32 r in Ok r)
  else if opcode =? OpcodeRefNull then
    let! _ := errorf "ref.null is not supported as" (RequireEnabled enabledFeatures CoreFeatureBulkMemoryOperations) in
    match r with
    | [] => Err "read reference type for ref.null: EOF"
    | b :: r' =>
        if one_of b [ValueTypeFuncref; ValueTypeExternref; ValueTypeExnref] then Ok r'
        else
          match DecodeUint32 r with
          | Ok (_, _, r) => Ok r
          | Err _ => Err "invalid type for ref.null"
          | Panic e => Panic e
          end
    end
  else if opcode =? OpcodeRefFunc then
    let! _ := errorf "ref.func is not supported as" (RequireEnabled enabledFeatures CoreFeatureBulkMemoryOperations) in
    errorf "read value" (let! (_, _, r) := DecodeUint32 r in Ok r)
  else if opcode =? OpcodeVecPrefix then
    let! _ := errorf "vector instructions are not supported as" (RequireEnabled enabledFeatures CoreFeatureSIMD) in
    match r with
    | [] => Err "read vector instruction opcode suffix: EOF"
    | b :: r =>
        if negb (b =? OpcodeVecV128Const) then Err "invalid vector opcode for const expression"
        else errorf "read vector const instruction immediates" (readFull "needs 16 bytes" 16 r)
    end
  else Err "invalid byte for const expression op code".

(** [data] is the reader at the start; returns the expression and the rest. *)
Fixpoint decodeLoop (fuel : nat) (enabledFeatures : CoreFeatures) (start r : list Z) : res (list Z * list Z) :=
  match fuel with
  | O => Panic "decodeConstantExpression: loop bound"
  | S fuel' =>
      match r with
      | [] => Err "read const expression opcode: EOF"
      | opcode :: r =>
          if opcode =? OpcodeEnd then Ok (take (length start - length r) start, r)
          else let! r := skipImmediate enabledFeatures opcode r in decodeLoop fuel' enabledFeatures start r
      end
  end.

Definition decodeConstantExpression (r : list Z) (enabledFeatures : CoreFeatures) : res (list Z * list Z) :=
  decodeLoop (S (length r)) enabledFeatures r r.

(** ** Safety of evaluation *)

(** 64-bit slots of a type stack. *)
Definition typeSlots (ts : list ValueType) : nat :=
  foldr (fun t n => (if (t =? ValueTypeV128)%Z then 2 else 1) + n)%nat 0%nat ts.

Definition balanced (s : estate) : Prop := length (e_stack s) = typeSlots (e_types s).

Lemma push1_balanced v t pc s : t <> ValueTypeV128 -> balanced s -> balanced (push1 v t pc s).
Proof. intros Ht Hs. unfold balanced, push1 in *. simpl. rewrite (proj2 (Z.eqb_neq _ _) Ht), Hs. done. Qed.

Lemma push2_balanced lo hi pc s : balanced s -> balanced (push2 lo hi ValueTypeV128 pc s).
Proof. intros Hs. unfold balanced, push2 in *. simpl. by rewrite Hs. Qed.

Lemma arith_safe name t f s :
  t <> ValueTypeV128 -> balanced s ->
  match arith name t f s with
  | Ok s' => e_pc s' = e_pc s /\ balanced s'
  | Err _ => True
  | Panic _ => False
  end.
Proof.
  intros Ht Hs. unfold arith, balanced in *. destruct (e_types s) as [|v1 [|v2 ts]]; try done.
  destruct (negb (v1 =? t) || negb (v2 =? t)) eqn:E; [done|]. bools. subst. simpl in Hs.
  rewrite (proj2 (Z.eqb_neq _ _) Ht) in Hs. destruct (e_stack s) as [|b [|a st]]; [done|done|].
  simpl in *. rewrite (proj2 (Z.eqb_neq _ _) Ht). split; [done|lia].
Qed.

Section Safe.
Context (globalResolver : Z -> res (ValueType * Z * Z)) (funcRefResolver : Z -> res Z) (data : list Z).
Context (Hglobal : forall i, no_panic (globalResolver i)) (Hfunc : forall i, no_panic (funcRefResolver i)).
Context (Hbytes : bytes_ok data) (Hlast : last data = Some OpcodeEnd).

(** What one instruction at [p] may do. *)
Definition safeStep (p : Z) (r : res (list Z * ValueType + estate)) : Prop :=
  match r with
  | Ok (inl _) => True
  | Ok (inr s) => p < e_pc s <= zlen data /\ balanced s
  | Err _ => True
  | Panic _ => False
  end.

Lemma go_safe p (r : res estate) :
  match r with Ok s => p + 1 - 1 < e_pc s <= zlen data /\ balanced s | Err _ => True | Panic _ => False end ->
  safeStep p (let! s := r in Ok (inr s)).
Proof. rewrite Z.add_simpl_r. by destruct r. Qed.

(** The suffix at a position in range. *)
Lemma suffix_ok p : 0 <= p <= zlen data ->
  zslice data p = Ok (drop (Z.to_nat p) data) /\ bytes_ok (drop (Z.to_nat p) data) /\
  zlen (drop (Z.to_nat p) data) = zlen data - p.
Proof.
  intros Hp. split; [by apply zslice_in|]. split; [by apply bytes_ok_drop|]. rewrite zlen_drop. lia.
Qed.

(** An immediate read by one of the LEB128 loaders. *)
Lemma leb_step {A} p (load : list Z -> res (A * Z)) msg (k : A -> Z -> res estate) :
  0 <= p <= zlen data -> (forall b, bytes_ok b -> reads_within b (load b)) ->
  (forall v n, 1 <= n <= zlen data - p ->
     match k v n with Ok s => p - 1 < e_pc s <= zlen data /\ balanced s | Err _ => True | Panic _ => False end) ->
  match (let! buf := zslice data p in let! (v, n) := errorf msg (load buf) in k v n) with
  | Ok s => p - 1 < e_pc s <= zlen data /\ balanced s | Err _ => True | Panic _ => False end.
Proof.
  intros Hp Hl Hk. destruct (suffix_ok p Hp) as (-> & Hb & Hz). cbn [res_bind].
  destruct (Hl _ Hb) as [Hn Hr]. destruct (load (drop (Z.to_nat p) data)) as [[v n]|e|e]; cbn [errorf res_bind];
    [|done|by destruct (Hn e)]. apply Hk. rewrite <- Hz. by eapply Hr.
Qed.

Lemma leAt_ok n p : 0 <= p -> p + Z.of_nat n <= zlen data -> exists v, leAt data n p = Ok v.
Proof.
  intros Hp Hn. unfold leAt. destruct (suffix_ok p) as (-> & _ & Hz); [lia|]. cbn [res_bind]. rewrite Hz.
  rewrite (proj2 (Z.leb_le _ _)) by lia. eauto.
Qed.

Lemma float_step n p t (Ht : t <> ValueTypeV128) s :
  0 <= p <= zlen data -> balanced s -> (1 <= n)%nat ->
  match (let! buf := zslice data p in
         if zlen buf <? Z.of_nat n then Err "unexpected EOF"
         else let! v := leAt data n p in Ok (push1 v t (p + Z.of_nat n) s)) with
  | Ok s => p - 1 < e_pc s <= zlen data /\ balanced s | Err _ => True | Panic _ => False end.
Proof.
  intros Hp Hs Hn. destruct (suffix_ok p Hp) as (-> & _ & Hz). cbn [res_bind]. rewrite Hz.
  destruct (Z.ltb_spec (zlen data - p) (Z.of_nat n)); [done|]. destruct (leAt_ok n p) as [v ->]; [lia|lia|]. cbn.
  split; [lia|by apply push1_balanced].
Qed.

Lemma vec_step p s :
  0 <= p < zlen data -> balanced s ->
  match vecConst data p s with
  | Ok s => p - 1 < e_pc s <= zlen data /\ balanced s | Err _ => True | Panic _ => False end.
Proof.
  intros Hp Hs. unfold vecConst. destruct (zindex_in data p Hp) as (b & -> & _). cbn [res_bind].
  destruct (negb _); [done|]. destruct (suffix_ok (p + 1)) as (-> & _ & Hz); [lia|]. cbn [res_bind]. rewrite Hz.
  destruct (Z.ltb_spec (zlen data - (p + 1)) 16); [done|].
  destruct (leAt_ok 8 (p + 1)) as [lo ->]; [lia|lia|]. destruct (leAt_ok 8 (p + 1 + 8)) as [hi ->]; [lia|lia|]. cbn.
  split; [lia|by apply push2_balanced].
Qed.

Lemma ConcreteRef_not_V128 typeIdx nullable : ValueTypeConcreteRef typeIdx nullable <> ValueTypeV128.
Proof.
  intros E. apply (f_equal (fun z => Z.testbit z 9)) in E. unfold ValueTypeConcreteRef in E. cbv zeta in E.
  destruct (negb nullable); rewrite !Z.lor_spec in E; change (Z.testbit flagConcreteRef 9) with true in E;
    rewrite orb_true_r in E; discriminate E.
Qed.

Lemma refNull_step p s :
  0 <= p -> balanced s ->
  match (let! (t, pc) := refNullType data p in Ok (push1 0 t pc s)) with
  | Ok s => p - 1 < e_pc s <= zlen data /\ balanced s | Err _ => True | Panic _ => False end.
Proof.
  intros Hp Hs. unfold refNullType. destruct (Z.geb_spec p (zlen data)); [done|].
  destruct (zindex_in data p) as (b & -> & _); [lia|]. cbn [res_bind].
  do 3 (match goal with |- context [if ?b then _ else _] => destruct b end; [cbn; split; [lia|by apply push1_balanced]|]).
  destruct (suffix_ok p) as (-> & Hb & Hz); [lia|]. cbn [res_bind].
  destruct (LoadUint32_within _ Hb) as [Hn Hr]. destruct (LoadUint32 _) as [[v n]|e|e]; [|done|by destruct (Hn e)].
  specialize (Hr v n eq_refl). rewrite Hz in Hr. cbn. split; [lia|]. apply push1_balanced; [|done].
  apply (ConcreteRef_not_V128 v true).
Qed.

(** The byte past the prefix 0xfd exists: the last byte is the end opcode. *)
Lemma vec_byte p : zlookup data p = Some OpcodeVecPrefix -> p + 1 < zlen data.
Proof.
  intros Hp. pose proof (zlookup_Some_lt _ _ _ Hp) as Hr. destruct (Z.lt_ge_cases (p + 1) (zlen data)); [done|].
  exfalso. rewrite last_lookup in Hlast. unfold zlookup in Hp. destruct (0 <=? p); [|done].
  replace (Z.to_nat p) with (pred (length data)) in Hp by (unfold zlen in *; lia). rewrite Hlast in Hp. discriminate Hp.
Qed.

Lemma instruction_safe p op s :
  zlookup data p = Some op -> e_pc s = p + 1 -> balanced s ->
  safeStep p (constInstruction globalResolver funcRefResolver data op s).
Proof.
  intros Hop Hpc Hs. pose proof (zlookup_Some_lt _ _ _ Hop) as Hr. unfold constInstruction. rewrite Hpc.
  assert (0 <= p + 1 <= zlen data) as Hp by lia. cbv zeta.
  assert (forall name t f, t <> ValueTypeV128 -> safeStep p (let! s := arith name t f s in Ok (inr s))) as Harith.
  { intros name t f Ht. apply go_safe. pose proof (arith_safe name t f s Ht Hs) as Ha.
    destruct (arith name t f s) as [s'|e|e]; [|done|done]. destruct Ha as [-> ?]. split; [lia|done]. }
  destruct (op =? OpcodeI32Const); [apply go_safe, leb_step; auto using LoadInt32_within|].
  { intros v n Hn. split; [simpl; lia|by apply push1_balanced]. }
  destruct (op =? OpcodeI64Const); [apply go_safe, leb_step; auto using LoadInt64_within|].
  { intros v n Hn. split; [simpl; lia|by apply push1_balanced]. }
  destruct (op =? OpcodeF32Const); [apply go_safe; apply (float_step 4); (done || lia)|].
  destruct (op =? OpcodeF64Const); [apply go_safe; apply (float_step 8); (done || lia)|].
  destruct (op =? OpcodeGlobalGet); [apply go_safe, leb_step; auto using LoadUint32_within|].
  { intros v n Hn. destruct (globalResolver v) as [[[typ lo] hi]|e|e] eqn:E; [|done|by destruct (Hglobal v e)].
    cbn [res_bind]. destruct (Z.eqb_spec typ ValueTypeV128) as [->|]; (split; [simpl; lia|]).
    - by apply push2_balanced.
    - by apply push1_balanced. }
  destruct (op =? OpcodeRefNull); [apply go_safe; apply refNull_step; [lia|done]|].
  destruct (op =? OpcodeRefFunc); [apply go_safe, leb_step; auto using LoadUint32_within|].
  { intros v n Hn. destruct (funcRefResolver v) as [ref|e|e] eqn:E; [|done|by destruct (Hfunc v e)].
    split; [simpl; lia|by apply push1_balanced]. }
  destruct (Z.eqb_spec op OpcodeVecPrefix) as [->|].
  { apply go_safe, vec_step; [|done]. apply vec_byte in Hop. lia. }
  do 6 (match goal with |- context [if ?b then _ else _] => destruct b end; [by apply Harith|]).
  destruct (op =? OpcodeEnd); [|done]. by destruct (e_types s) as [|t [|]].
Qed.

Lemma evaluateLoop_safe fuel s :
  0 <= e_pc s -> zlen data <= e_pc s + Z.of_nat fuel -> balanced s ->
  no_panic (evaluateLoop globalResolver funcRefResolver data fuel s).
Proof.
  revert s. induction fuel as [|fuel IH]; intros s Hp Hf Hs; cbn [evaluateLoop];
    (destruct (Z.geb_spec (e_pc s) (zlen data)); [done|]); [lia|].
  destruct (zindex_in data (e_pc s)) as (op & -> & Hop); [lia|]. cbn [res_bind].
  pose proof (instruction_safe (e_pc s) op (mkEstate (e_pc s + 1) (e_stack s) (e_types s)) Hop eq_refl Hs) as Hi.
  destruct (constInstruction _ _ _ _ _) as [[v|s']|e|e]; cbn [res_bind]; [done| |done|done].
  destruct Hi as [Hr Hs']. apply IH; [lia|lia|done].
Qed.

End Safe.

(** ** Independence of the resolvers *)

Lemma evaluate_independent g1 g2 f1 f2 data fuel : forall s,
  referencesLoop fuel data (e_pc s) = Ok false ->
  evaluateLoop g1 f1 data fuel s = evaluateLoop g2 f2 data fuel s.
Proof.
  induction fuel as [|fuel IH]; intros s H; [done|]. cbn [referencesLoop evaluateLoop] in *.
  rewrite Z.geb_leb. destruct (Z.leb_spec (zlen data) (e_pc s)); [done|].
  destruct (negb (e_pc s <? zlen data)); [done|].
  destruct (zindex data (e_pc s)) as [op|e|e]; [|done|done]. cbn [res_bind] in *.
  set (s1 := mkEstate (e_pc s + 1) (e_stack s) (e_types s)).
  assert (forall s', e_pc s' = e_pc s + 1 -> referencesLoop fuel data (e_pc s + 1) = Ok false ->
    evaluateLoop g1 f1 data fuel s' = evaluateLoop g2 f2 data fuel s') as Hnext by (intros s' <-; apply IH).
  assert (forall name t f, referencesLoop fuel data (e_pc s + 1) = Ok false ->
    (let! r := let! s := arith name t f s1 in Ok (inr s) in
     match r with inl v => Ok v | inr s => evaluateLoop g1 f1 data fuel s end)
    = (let! r := let! s := arith name t f s1 in Ok (inr s) in
       match r with inl v => Ok v | inr s => evaluateLoop g2 f2 data fuel s end)) as Harith.
  { intros name t f Hr. unfold arith. destruct (e_types s1) as [|v1 [|v2 ts]]; [done|done|].
    destruct (_ || _); [done|]. destruct (e_stack s1) as [|b [|a st]]; [done|done|]. cbn. by apply Hnext. }
  destruct (op =? OpcodeGlobalGet) eqn:E1; [done|].
  destruct (Z.eqb_spec op OpcodeEnd) as [->|]; [by cbn; destruct (e_types s) as [|t [|]]|].
  destruct (Z.eqb_spec op OpcodeI32Const) as [->|?].
  { cbn. destruct (zslice data (e_pc s + 1)) as [buf|?|?]; [|done|done]. cbn in *.
    destruct (LoadInt32 buf) as [[v num]|?|?]; [|done|done]. cbn. by apply IH. }
  destruct (Z.eqb_spec op OpcodeI64Const) as [->|?].
  { cbn. destruct (zslice data (e_pc s + 1)) as [buf|?|?]; [|done|done]. cbn in *.
    destruct (LoadInt64 buf) as [[v num]|?|?]; [|done|done]. cbn. by apply IH. }
  destruct (one_of op _) eqn:E; [|done]. unfold one_of, existsb in E. bools.
  repeat (destruct E as [E|E]; [apply Z.eqb_eq in E; subst op; by apply Harith|]). done.
Qed.

(** The conditions between known opcodes, evaluated. *)
Ltac eval_opcodes :=
  unfold constInstruction; cbv zeta;
  repeat match goal with
  | |- context [if ?a =? ?b then _ else _] =>
      let c := eval vm_compute in (a =? b) in
      match c with true => idtac | false => idtac end; change (a =? b) with c; cbv iota
  end.

(** ** What the decoder accepts *)

(** A decoder of a stream whose result depends only on the bytes it consumed,
    and which [load] repeats on a slice that starts with them. *)
Definition local_reader {A} (decode : list Z -> res (A * Z * list Z)) (load : list Z -> res (A * Z)) : Prop :=
  forall r v n r', bytes_ok r -> decode r = Ok (v, n, r') ->
    exists l, r = l ++ r' /\ n = zlen l /\ forall x, load (l ++ x) = Ok (v, n).

Lemma decodeUint32_loop_local fuel : forall i sh ret r v n r',
  decodeUint32_loop readByte fuel i sh ret r = Ok (v, n, r') ->
  exists l, r = l ++ r' /\ forall x, decodeUint32_loop readByte fuel i sh ret (l ++ x) = Ok (v, n, x).
Proof.
  induction fuel as [|fuel IH]; intros i sh ret r v n r' H; [done|].
  destruct r as [|b r]; [done|]. cbn [decodeUint32_loop readByte res_bind app] in *.
  destruct (b <? 128) eqn:Eb.
  - destruct (_ && _) eqn:E; [done|]. injection H as <- <- <-. exists [b]. split; [done|]. intros x.
    cbn [decodeUint32_loop readByte res_bind app]. by rewrite Eb, E.
  - apply IH in H as (l & -> & Hl). exists (b :: l). split; [done|]. intros x.
    cbn [decodeUint32_loop readByte res_bind app]. by rewrite Eb, Hl.
Qed.

Lemma Uint32_local : local_reader DecodeUint32 LoadUint32.
Proof.
  intros r v n r' Hb H. pose proof (DecodeUint32_sound _ _ _ _ Hb H) as (l & -> & _ & -> & _ & _).
  apply decodeUint32_loop_local in H as (l' & El & Hl). apply app_inv_tail in El as <-. exists l.
  split_and!; try done. intros x. rewrite LoadUint32_Decode. unfold DecodeUint32, decodeUint32. by rewrite Hl.
Qed.

Lemma Int32_local : local_reader DecodeInt32 LoadInt32.
Proof.
  intros r v n r' Hb. destruct (DecodeInt32_cases r Hb) as [->|(l & rest & -> & Ht & ->)]; [done|].
  apply bytes_ok_app in Hb as [Hb _]. rewrite decodeInt32_terminated by done. cbv zeta. intros H.
  exists l. assert (rest = r' /\ n = zlen l) as [-> ->] by (repeat case_in H; by simplify_eq).
  split_and!; [done|done|]. intros x. rewrite LoadInt32_Decode. unfold DecodeInt32.
  rewrite decodeInt32_terminated by (done || rewrite length_app; lia). cbv zeta.
  repeat case_in H. by simplify_eq.
Qed.

Lemma Int64_local : local_reader DecodeInt64 LoadInt64.
Proof.
  intros r v n r' Hb. destruct (DecodeInt64_cases r Hb) as [->|(l & rest & -> & Ht & ->)]; [done|].
  apply bytes_ok_app in Hb as [Hb _]. rewrite decodeInt64_terminated by done. cbv zeta. intros H.
  exists l. assert (rest = r' /\ n = zlen l) as [-> ->] by (repeat case_in H; by simplify_eq).
  split_and!; [done|done|]. intros x. rewrite LoadInt64_Decode. unfold DecodeInt64.
  rewrite decodeInt64_terminated by (done || rewrite length_app; lia). cbv zeta.
  repeat case_in H. by simplify_eq.
Qed.

Lemma readFull_split msg n r r' : readFull msg n r = Ok r' -> exists imm, r = imm ++ r' /\ zlen imm = Z.of_nat n.
Proof.
  unfold readFull. destruct (Z.leb_spec (Z.of_nat n) (zlen r)) as [Hn|]; [|done]. intros [= <-].
  exists (take n r). split; [by rewrite take_drop|]. unfold zlen in *. rewrite length_take. lia.
Qed.

(** ** Evaluation of what the decoder accepts *)

Section Decoded.
Context (globalResolver : Z -> res (ValueType * Z * Z)) (funcRefResolver : Z -> res Z) (data : list Z).
Context (Hglobal : forall i, no_panic (globalResolver i)) (Hfunc : forall i, no_panic (funcRefResolver i)).
Context (Hbytes : bytes_ok data).

(** The errors that are left: the types on the stack, and the resolvers. *)
Definition evalError (e : string) : Prop :=
  e = "stack has more than one value at end of constant expression" \/
  (exists name, e = "stack underflow on " +:+ name) \/
  (exists name a b, e = "type mismatch on " +:+ name +:+ ": " +:+ ValueTypeName a +:+ ", " +:+ ValueTypeName b) \/
  (exists i, globalResolver i = Err e) \/ (exists i, funcRefResolver i = Err e).

(** The instruction at [p] used exactly [n] bytes of immediates. *)
Definition advances (p n : Z) (r : res estate) : Prop :=
  match r with
  | Ok s => e_pc s = p + n /\ balanced s
  | Err e => evalError e
  | Panic _ => False
  end.

Definition steps (p n : Z) (r : res (list Z * ValueType + estate)) : Prop :=
  exists r', r = (let! s := r' in Ok (inr s)) /\ advances p n r'.

Lemma steps_go p n r : advances p n r -> steps p n (let! s := r in Ok (inr s)).
Proof. by exists r. Qed.

Lemma zslice_at p l : zslice data p = Ok l -> 0 <= p <= zlen data /\ zlen l = zlen data - p.
Proof.
  unfold zslice. destruct (_ && _) eqn:E; [|done]. bools. intros [= <-]. rewrite zlen_drop. lia.
Qed.

Lemma arith_advances name t f s : t <> ValueTypeV128 -> balanced s -> advances (e_pc s) 0 (arith name t f s).
Proof.
  intros Ht Hs. pose proof (arith_safe name t f s Ht Hs) as Ha. unfold advances. rewrite Z.add_0_r.
  destruct (arith name t f s) as [s'|e|e] eqn:E; [done| |done]. unfold arith in E. unfold evalError.
  destruct (e_types s) as [|v1 [|v2 ts]]; [simplify_eq; eauto|simplify_eq; eauto|].
  destruct (_ || _); [simplify_eq; eauto 7|]. by destruct (e_stack s) as [|? [|]].
Qed.

Lemma leAt_within n p l x :
  zslice data p = Ok (l ++ x) -> (zlen (l ++ x) <? Z.of_nat n) = false -> exists v, leAt data n p = Ok v.
Proof. intros Hz Hn. apply zslice_at in Hz. bools. apply leAt_ok; [done|lia|lia]. Qed.

(** An instruction reads the immediates that the decoder skipped. *)
Lemma leb_advances {A} load msg (v : A) l x p (k : A -> Z -> res estate) :
  zslice data p = Ok (l ++ x) -> (forall x, load (l ++ x) = Ok (v, zlen l)) -> advances p (zlen l) (k v (zlen l)) ->
  advances p (zlen l) (let! buf := zslice data p in let! (v, n) := errorf msg (load buf) in k v n).
Proof. intros -> Hl Hk. cbn [res_bind]. by rewrite Hl. Qed.

Lemma float_advances n p t l x s :
  zslice data p = Ok (l ++ x) -> zlen l = Z.of_nat n -> t <> ValueTypeV128 -> balanced s ->
  advances p (zlen l) (let! buf := zslice data p in
    if zlen buf <? Z.of_nat n then Err "unexpected EOF"
    else let! v := leAt data n p in Ok (push1 v t (p + Z.of_nat n) s)).
Proof.
  intros Hz Hn Ht Hs. rewrite Hz. cbn [res_bind].
  assert ((zlen (l ++ x) <? Z.of_nat n) = false) as Hl
    by (rewrite zlen_app; apply Z.ltb_ge; pose proof (zlen_nonneg x); lia).
  rewrite Hl. destruct (leAt_within _ _ _ _ Hz Hl) as [v ->]. rewrite Hn. split; [done|by apply push1_balanced].
Qed.

Lemma vec_advances p l x s :
  zslice data p = Ok ((OpcodeVecV128Const :: l) ++ x) -> zlen l = 16 -> balanced s ->
  advances p (zlen (OpcodeVecV128Const :: l)) (vecConst data p s).
Proof.
  intros Hz Hn Hs. pose proof (zslice_at _ _ Hz) as [Hp Hlen]. unfold vecConst.
  rewrite zlen_app, zlen_cons in Hlen. pose proof (zlen_nonneg x).
  pose proof Hz as Hd. rewrite zslice_in in Hd by done. injection Hd as Hd.
  destruct (zindex_drop data p OpcodeVecV128Const (l ++ x) (proj1 Hp) Hd) as (_ & -> & Hd').
  cbn [res_bind negb]. rewrite Z.eqb_refl. cbn [negb]. rewrite zslice_in, Hd' by lia. cbn [res_bind]. rewrite zlen_app.
  rewrite (proj2 (Z.ltb_ge _ _)) by lia.
  destruct (leAt_ok data Hbytes 8 (p + 1)) as [lo ->]; [lia|lia|].
  destruct (leAt_ok data Hbytes 8 (p + 1 + 8)) as [hi ->]; [lia|lia|].
  cbn [res_bind advances]. rewrite zlen_cons. split; [cbn; lia|by apply push2_balanced].
Qed.

Lemma refNull_advances (b : Z) imm x p s :
  zslice data p = Ok (imm ++ x) -> head imm = Some b ->
  (imm = [b] /\ one_of b [ValueTypeFuncref; ValueTypeExternref; ValueTypeExnref] = true \/
   one_of b [ValueTypeFuncref; ValueTypeExternref; ValueTypeExnref] = false /\
     exists v, forall x, LoadUint32 (imm ++ x) = Ok (v, zlen imm)) ->
  balanced s -> advances p (zlen imm) (let! (t, pc) := refNullType data p in Ok (push1 0 t pc s)).
Proof.
  intros Hz Hb Hcase Hs. pose proof (zslice_at _ _ Hz) as [Hp Hlen]. unfold refNullType.
  destruct imm as [|b' imm]; [done|]. injection Hb as ->. rewrite zlen_app, zlen_cons in Hlen.
  pose proof (zlen_nonneg x). pose proof (zlen_nonneg imm).
  pose proof Hz as Hd. rewrite zslice_in in Hd by done. injection Hd as Hd.
  destruct (zindex_drop data p b (imm ++ x) (proj1 Hp) Hd) as (-> & -> & _). cbn [res_bind].
  rewrite Hz. cbn [res_bind]. change (Kind ValueTypeFuncref) with ValueTypeFuncref.
  change (Kind ValueTypeExternref) with ValueTypeExternref. change (Kind ValueTypeExnref) with ValueTypeExnref.
  destruct Hcase as [[[= ->] Hone]|[Hone [v Hv]]]; unfold one_of, existsb in Hone.
  - destruct (b =? ValueTypeFuncref); [|destruct (b =? ValueTypeExternref); [|destruct (b =? ValueTypeExnref); [|done]]];
      (split; [done|by apply push1_balanced]).
  - destruct (b =? ValueTypeFuncref); [done|]. destruct (b =? ValueTypeExternref); [done|].
    destruct (b =? ValueTypeExnref); [done|]. rewrite Hv. split; [done|]. apply push1_balanced; [|done].
    apply (ConcreteRef_not_V128 v true).
Qed.

Lemma zslice_shift p l l' : zslice data p = Ok (l ++ l') -> zslice data (p + zlen l) = Ok l'.
Proof.
  intros Hz. pose proof (zslice_at _ _ Hz) as [Hp Hlen]. rewrite zlen_app in Hlen.
  pose proof (zlen_nonneg l). pose proof (zlen_nonneg l'). rewrite zslice_in in * by lia. injection Hz as Hd. f_equal.
  rewrite Z2Nat.inj_add, <- drop_drop, Hd by lia. unfold zlen. by rewrite Nat2Z.id, drop_app_length.
Qed.

Lemma refNull_skip r r' :
  bytes_ok r ->
  match r with
  | [] => Err "read reference type for ref.null: EOF"
  | b :: r1 =>
      if one_of b [ValueTypeFuncref; ValueTypeExternref; ValueTypeExnref] then Ok r1
      else match DecodeUint32 r with
           | Ok (_, _, r) => Ok r
           | Err _ => Err "invalid type for ref.null"
           | Panic e => Panic e
           end
  end = Ok r' ->
  exists imm b, r = imm ++ r' /\ head imm = Some b /\
    (imm = [b] /\ one_of b [ValueTypeFuncref; ValueTypeExternref; ValueTypeExnref] = true \/
     one_of b [ValueTypeFuncref; ValueTypeExternref; ValueTypeExnref] = false /\
       exists v, forall x, LoadUint32 (imm ++ x) = Ok (v, zlen imm)).
Proof.
  intros Hb. destruct r as [|b r]; [done|]. destruct (one_of _ _) eqn:E.
  - intros [= ->]. exists [b], b. auto.
  - destruct (DecodeUint32 (b :: r)) as [[[v n] r1]|?|?] eqn:Ed; [|done|done]. intros [= ->].
    apply Uint32_local in Ed as (l & El & -> & Hl); [|done]. exists l, b. rewrite <- El. split; [done|].
    destruct l as [|b' l]; [discriminate (Hl [])|]. injection El as -> _. split; [done|]. eauto.
Qed.

Lemma global_advances v p n s :
  balanced s ->
  advances p n (let! (typ, lo, hi) := globalResolver v in
    Ok ((if typ =? ValueTypeV128 then push2 lo hi else push1 lo) typ (p + n) s)).
Proof.
  intros Hs. destruct (globalResolver v) as [[[typ lo] hi]|e|e] eqn:E; cbn [res_bind advances].
  - destruct (Z.eqb_spec typ ValueTypeV128) as [->|]; (split; [done|]);
      [by apply push2_balanced|by apply push1_balanced].
  - do 3 right. left. by exists v.
  - by destruct (Hglobal v e).
Qed.

Lemma func_advances v p n s :
  balanced s ->
  advances p n (let! ref := funcRefResolver v in Ok (push1 ref ValueTypeFuncref (p + n) s)).
Proof.
  intros Hs. destruct (funcRefResolver v) as [ref|e|e] eqn:E; cbn [res_bind advances].
  - split; [done|by apply push1_balanced].
  - do 4 right. by exists v.
  - by destruct (Hfunc v e).
Qed.

Lemma skip_steps enabledFeatures op r r' :
  bytes_ok r -> skipImmediate enabledFeatures op r = Ok r' ->
  exists imm, r = imm ++ r' /\ forall x s, zslice data (e_pc s) = Ok (imm ++ x) -> balanced s ->
    steps (e_pc s) (zlen imm) (constInstruction globalResolver funcRefResolver data op s).
Proof.
  intros Hb H. unfold skipImmediate in H.
  destruct (Z.eqb_spec op OpcodeI32Const) as [->|_].
  { destruct (DecodeInt32 r) as [[[v n] r1]|?|?] eqn:E; [|done|done]. injection H as <-.
    apply Int32_local in E as (l & -> & -> & Hl); [|done]. exists l. split; [done|]. intros x s Hz Hs.
    eval_opcodes. eapply steps_go, leb_advances; [done|done|]. split; [done|by apply push1_balanced]. }
  destruct (one_of op [OpcodeI32Add; OpcodeI32Sub; OpcodeI32Mul]) eqn:Eop.
  { destruct (negb _); [done|]. injection H as <-. exists []. split; [done|]. intros x s Hz Hs.
    unfold one_of, existsb in Eop. bools. repeat destruct Eop as [Eop|Eop]; try done; apply Z.eqb_eq in Eop; subst;
      eval_opcodes; by apply steps_go, arith_advances. }
  clear Eop. destruct (Z.eqb_spec op OpcodeI64Const) as [->|_].
  { destruct (DecodeInt64 r) as [[[v n] r1]|?|?] eqn:E; [|done|done]. injection H as <-.
    apply Int64_local in E as (l & -> & -> & Hl); [|done]. exists l. split; [done|]. intros x s Hz Hs.
    eval_opcodes. eapply steps_go, leb_advances; [done|done|]. split; [done|by apply push1_balanced]. }
  destruct (one_of op [OpcodeI64Add; OpcodeI64Sub; OpcodeI64Mul]) eqn:Eop.
  { destruct (negb _); [done|]. injection H as <-. exists []. split; [done|]. intros x s Hz Hs.
    unfold one_of, existsb in Eop. bools. repeat destruct Eop as [Eop|Eop]; try done; apply Z.eqb_eq in Eop; subst;
      eval_opcodes; by apply steps_go, arith_advances. }
  clear Eop. destruct (Z.eqb_spec op OpcodeF32Const) as [->|_].
  { destruct (readFull _ 4 r) as [r1|?|?] eqn:E; [|done|done]. injection H as <-.
    apply readFull_split in E as (l & -> & Hl). exists l. split; [done|]. intros x s Hz Hs.
    eval_opcodes. by eapply steps_go, (float_advances 4). }
  destruct (Z.eqb_spec op OpcodeF64Const) as [->|_].
  { destruct (readFull _ 8 r) as [r1|?|?] eqn:E; [|done|done]. injection H as <-.
    apply readFull_split in E as (l & -> & Hl). exists l. split; [done|]. intros x s Hz Hs.
    eval_opcodes. by eapply steps_go, (float_advances 8). }
  destruct (Z.eqb_spec op OpcodeGlobalGet) as [->|_].
  { destruct (DecodeUint32 r) as [[[v n] r1]|?|?] eqn:E; [|done|done]. injection H as <-.
    apply Uint32_local in E as (l & -> & -> & Hl); [|done]. exists l. split; [done|]. intros x s Hz Hs.
    eval_opcodes. eapply steps_go, leb_advances; [done|done|]. by apply global_advances. }
  destruct (Z.eqb_spec op OpcodeRefNull) as [->|_].
  { destruct (RequireEnabled _ _) as [?|?|?]; [|done|done]. cbn [errorf res_bind] in H.
    apply refNull_skip in H as (imm & b & -> & Hh & Hc); [|done]. exists imm. split; [done|]. intros x s Hz Hs.
    eval_opcodes. by eapply steps_go, refNull_advances. }
  destruct (Z.eqb_spec op OpcodeRefFunc) as [->|_].
  { destruct (RequireEnabled _ _) as [?|?|?]; [|done|done]. cbn [errorf res_bind] in H.
    destruct (DecodeUint32 r) as [[[v n] r1]|?|?] eqn:E; [|done|done]. injection H as <-.
    apply Uint32_local in E as (l & -> & -> & Hl); [|done]. exists l. split; [done|]. intros x s Hz Hs.
    eval_opcodes. eapply steps_go, leb_advances; [done|done|]. by apply func_advances. }
  destruct (Z.eqb_spec op OpcodeVecPrefix) as [->|_]; [|done].
  destruct (RequireEnabled _ _) as [?|?|?]; [|done|done]. cbn [errorf res_bind] in H.
  destruct r as [|b r]; [done|]. destruct (Z.eqb_spec b OpcodeVecV128Const) as [->|]; [|done]. cbn [negb] in H.
  destruct (readFull _ 16 r) as [r1|?|?] eqn:E; [|done|done]. injection H as <-.
  apply readFull_split in E as (l & -> & Hl). exists (OpcodeVecV128Const :: l). split; [done|]. intros x s Hz Hs.
  eval_opcodes. by eapply steps_go, vec_advances.
Qed.

(** The outcomes of an evaluation that reads its expression to the end. *)
Definition outcome (r : res (list Z * ValueType)) : Prop :=
  match r with
  | Ok (vs, t) => length vs = typeSlots [t]
  | Err e => evalError e
  | Panic _ => False
  end.

Lemma decodeLoop_outcome enabledFeatures start fuel : forall r d rest,
  decodeLoop fuel enabledFeatures start r = Ok (d, rest) -> bytes_ok r ->
  exists body, r = body ++ rest /\ d = take (length start - length rest) start /\ last body = Some OpcodeEnd /\
    forall s fuel', zslice data (e_pc s) = Ok body -> balanced s -> (length body <= fuel')%nat ->
      outcome (evaluateLoop globalResolver funcRefResolver data fuel' s).
Proof.
  induction fuel as [|fuel IH]; intros r d rest H Hb; [done|]. cbn [decodeLoop] in H.
  destruct r as [|op r]; [done|]. inversion Hb as [|? ? _ Hb1]. subst. clear Hb. rename Hb1 into Hb.
  assert (forall body s fuel', zslice data (e_pc s) = Ok (op :: body) -> (length (op :: body) <= S fuel')%nat ->
    evaluateLoop globalResolver funcRefResolver data (S fuel') s =
      (let! r := constInstruction globalResolver funcRefResolver data op (mkEstate (e_pc s + 1) (e_stack s) (e_types s)) in
       match r with inl v => Ok v | inr s => evaluateLoop globalResolver funcRefResolver data fuel' s end) /\
    zslice data (e_pc s + 1) = Ok body) as Hunfold.
  { intros body s fuel' Hz _. pose proof (zslice_at _ _ Hz) as [Hp Hlen]. rewrite zlen_cons in Hlen.
    pose proof (zlen_nonneg body). rewrite zslice_in in Hz by done. injection Hz as Hd.
    destruct (zindex_drop data (e_pc s) op body (proj1 Hp) Hd) as (Hge & Hi & Hd').
    cbn [evaluateLoop]. rewrite Hge, Hi, zslice_in, Hd' by lia. done. }
  destruct (Z.eqb_spec op OpcodeEnd) as [->|_].
  - injection H as <- <-. exists [OpcodeEnd]. split_and!; try done. intros s [|fuel'] Hz Hs Hf; [simpl in Hf; lia|].
    destruct (Hunfold _ _ fuel' Hz Hf) as [-> _]. eval_opcodes. cbn [e_types e_stack].
    unfold balanced in Hs. destruct (e_types s) as [|t [|]]; [by left| |by left]. cbn. by rewrite length_reverse.
  - destruct (skipImmediate enabledFeatures op r) as [r1|?|?] eqn:E; [|done|done]. cbn [res_bind] in H.
    apply skip_steps in E as (imm & -> & Hstep); [|done]. apply bytes_ok_app in Hb as [_ Hb].
    apply IH in H as (body & -> & -> & Hlast & Hev); [|done]. exists (op :: imm ++ body).
    split_and!; [by rewrite app_comm_cons, app_assoc|done|by rewrite app_comm_cons, last_app, Hlast|].
    intros s [|fuel'] Hz Hs Hf; [simpl in Hf; lia|]. destruct (Hunfold _ _ fuel' Hz Hf) as [-> Hz'].
    destruct (Hstep body (mkEstate (e_pc s + 1) (e_stack s) (e_types s)) Hz' Hs) as (res & -> & Hadv).
    destruct res as [s'|e|e]; [|done|done]. destruct Hadv as [Hpc Hs']. cbn [res_bind]. cbn [e_pc] in Hpc.
    apply Hev; [|done|simpl in Hf; rewrite length_app in Hf; lia]. rewrite Hpc. by apply zslice_shift.
Qed.

End Decoded.

(** ** Properties *)

Lemma leb_no_panic r :
  bytes_ok r -> no_panic (DecodeUint32 r) /\ no_panic (DecodeInt32 r) /\ no_panic (DecodeInt64 r).
Proof.
  intros Hb. split_and!.
  - apply decodeUint32_loop_no_panic.
  - destruct (DecodeInt32_cases r Hb) as [->|(l & rest & -> & Ht & ->)]; [done|].
    apply bytes_ok_app in Hb as [Hb _]. rewrite decodeInt32_terminated by done. cbv zeta. repeat case_match; done.
  - destruct (DecodeInt64_cases r Hb) as [->|(l & rest & -> & Ht & ->)]; [done|].
    apply bytes_ok_app in Hb as [Hb _]. rewrite decodeInt64_terminated by done. cbv zeta. repeat case_match; done.
Qed.

Lemma skipImmediate_no_panic enabledFeatures op r : bytes_ok r -> no_panic (skipImmediate enabledFeatures op r).
Proof.
  intros Hb. unfold skipImmediate, readFull, RequireEnabled.
  pose proof (leb_no_panic r Hb) as (H1 & H2 & H3).
  assert (forall msg (m : res (Z * Z * list Z)), no_panic m -> no_panic (errorf msg (let! (_, _, r) := m in Ok r))) as Hm
    by (intros msg [[[? ?] ?]|?|e] Hn; [done|done|by destruct (Hn e)]).
  repeat (match goal with |- no_panic (if ?b then _ else _) => destruct b end; auto).
  all: repeat case_match; try done; try (by apply Hm); by destruct (H1 msg).
Qed.

Lemma decodeLoop_no_panic enabledFeatures start fuel : forall r,
  bytes_ok r -> (length r < fuel)%nat -> no_panic (decodeLoop fuel enabledFeatures start r).
Proof.
  induction fuel as [|fuel IH]; intros r Hb Hf; [lia|]. cbn [decodeLoop]. destruct r as [|op r]; [done|].
  inversion Hb as [|? ? _ Hb']; subst. destruct (op =? OpcodeEnd); [done|].
  apply res_bind_no_panic; [by apply skipImmediate_no_panic|]. intros r1 E.
  apply (skip_steps (fun _ => Err "") (fun _ => Err "") []) in E as (imm & -> & _); try done; [|by constructor].
  apply bytes_ok_app in Hb' as [_ Hb']. apply IH; [done|]. simpl in Hf. rewrite length_app in Hf. lia.
Qed.

Lemma decodeLoop_body enabledFeatures start fuel r d rest :
  decodeLoop fuel enabledFeatures start r = Ok (d, rest) -> bytes_ok r -> start = r ->
  r = d ++ rest /\ last d = Some OpcodeEnd.
Proof.
  intros H Hb ->.
  apply (decodeLoop_outcome (fun _ => Err "") (fun _ => Err "") []) in H as (body & Hbody & -> & Hlast & _);
    try done; [|by constructor].
  rewrite Hbody, length_app, Nat.add_sub, take_app_length. done.
Qed.

Lemma referencesLoop_no_panic fuel data : forall pc,
  bytes_ok data -> 0 <= pc -> zlen data <= pc + Z.of_nat fuel -> no_panic (referencesLoop fuel data pc).
Proof.
  induction fuel as [|fuel IH]; intros pc Hb Hp Hf; cbn [referencesLoop];
    (destruct (Z.ltb_spec pc (zlen data)); cbn [negb]; [|done]); [lia|].
  destruct (zindex_in data pc) as (op & -> & _); [lia|]. cbn [res_bind].
  destruct (op =? OpcodeGlobalGet); [done|]. destruct (op =? OpcodeEnd); [done|].
  destruct (suffix_ok data Hb (pc + 1)) as (-> & Hs & Hz); [lia|]. cbn [res_bind].
  destruct (op =? OpcodeI32Const).
  { destruct (LoadInt32_within _ Hs) as [Hn Hr]. destruct (LoadInt32 _) as [[v n]|?|e]; [|done|by destruct (Hn e)].
    specialize (Hr v n eq_refl). apply IH; [done|lia|lia]. }
  destruct (op =? OpcodeI64Const).
  { destruct (LoadInt64_within _ Hs) as [Hn Hr]. destruct (LoadInt64 _) as [[v n]|?|e]; [|done|by destruct (Hn e)].
    specialize (Hr v n eq_refl). apply IH; [done|lia|lia]. }
  destruct (one_of _ _); [|done]. apply IH; [done|lia|lia].
Qed.

(** An opcode, its immediate and the end opcode. *)
Lemma decode_const enabledFeatures op imm rest :
  (forall r, skipImmediate enabledFeatures op (imm ++ r) = Ok r) -> op <> OpcodeEnd -> op <> OpcodeVecV128Const ->
  decodeConstantExpression (NewConstantExpressionFromOpcode op imm ++ rest) enabledFeatures
    = Ok (NewConstantExpressionFromOpcode op imm, rest).
Proof.
  intros Hs He Hv. unfold decodeConstantExpression, NewConstantExpressionFromOpcode.
  rewrite (proj2 (Z.eqb_neq _ _) Hv). cbn [app length decodeLoop]. rewrite (proj2 (Z.eqb_neq _ _) He).
  rewrite <- app_assoc, Hs. cbn [res_bind]. rewrite !length_app. cbn [app length Nat.add].
  rewrite Nat.add_succ_r. cbn [decodeLoop]. rewrite Z.eqb_refl.
  replace (S (S (length imm + length rest)) - length rest)%nat with (length (op :: imm ++ [OpcodeEnd]))
    by (cbn; rewrite length_app; cbn; lia).
  change (op :: imm ++ OpcodeEnd :: rest) with ((op :: imm) ++ [OpcodeEnd] ++ rest).
  rewrite (app_assoc (op :: imm)). by rewrite take_app_length.
Qed.

Lemma evaluate_const g f op imm v t :
  (forall s, zslice (NewConstantExpressionFromOpcode op imm) (e_pc s) = Ok (imm ++ [OpcodeEnd]) ->
     constInstruction g f (NewConstantExpressionFromOpcode op imm) op s = Ok (inr (push1 v t (e_pc s + zlen imm) s))) ->
  op <> OpcodeVecV128Const ->
  evaluateConstExpr g f (NewConstantExpressionFromOpcode op imm) = Ok ([v], t).
Proof.
  intros Hc Hv. unfold evaluateConstExpr. set (data := NewConstantExpressionFromOpcode op imm) in *.
  assert (data = op :: imm ++ [OpcodeEnd]) as Ed
    by (unfold data, NewConstantExpressionFromOpcode; by rewrite (proj2 (Z.eqb_neq _ _) Hv)).
  assert (length data = S (S (length imm))) as -> by (rewrite Ed; cbn; rewrite length_app; cbn; lia).
  assert (zlen data = zlen imm + 2) as Hlen by (rewrite Ed, zlen_cons, zlen_app; change (zlen [OpcodeEnd]) with 1; lia).
  pose proof (zlen_nonneg imm). cbn [evaluateLoop e_pc e_stack e_types].
  rewrite Z.geb_leb, (proj2 (Z.leb_gt _ _)) by lia.
  assert (zindex data 0 = Ok op) as -> by (by rewrite Ed). cbn [res_bind]. rewrite Hc.
  2: { cbn [e_pc]. rewrite zslice_in by lia. by rewrite Ed. }
  cbn [res_bind push1 e_pc e_stack e_types]. rewrite Z.geb_leb, (proj2 (Z.leb_gt _ _)) by lia.
  change (0 + 1) with 1. destruct (zindex_drop data (1 + zlen imm) OpcodeEnd []) as (_ & -> & _); [lia| |done].
  rewrite Ed. replace (Z.to_nat (1 + zlen imm)) with (S (length imm)) by (unfold zlen; lia).
  cbn [drop]. apply drop_app_length.
Qed.

(** C36: A constant expression that the decoder accepts is a prefix of its
    input ending in the end opcode, and evaluating it reads the very
    instructions the decoder saw: it neither panics nor runs off the end nor
    meets an opcode or an immediate it cannot read; it fails only on the types
    of the operands or because a resolver fails, and a result has one 64-bit
    slot, or two for a v128.  The decoder itself always returns.  The resolvers
    for globals and functions do not panic. *)
Theorem const_expr_decoded globalResolver funcRefResolver enabledFeatures r :
  (forall i, no_panic (globalResolver i)) -> (forall i, no_panic (funcRefResolver i)) -> bytes_ok r ->
  no_panic (decodeConstantExpression r enabledFeatures) /\
  forall data rest, decodeConstantExpression r enabledFeatures = Ok (data, rest) ->
    r = data ++ rest /\ last data = Some OpcodeEnd /\
    outcome globalResolver funcRefResolver (evaluateConstExpr globalResolver funcRefResolver data).
Proof.
  intros Hg Hf Hb. split.
  - apply decodeLoop_no_panic; [done|lia].
  - intros data rest H. destruct (decodeLoop_body enabledFeatures r _ r data rest H Hb eq_refl) as (Hr & Hlast).
    split_and!; [done|done|].
    assert (bytes_ok data) as Hd by (rewrite Hr in Hb; by apply bytes_ok_app in Hb as [? _]).
    destruct (decodeLoop_outcome globalResolver funcRefResolver data Hg Hf Hd _ _ _ _ _ _ H Hb) as (body & Hbody & _ & _ & Hev).
    rewrite Hr in Hbody. apply app_inv_tail in Hbody as <-. apply Hev; [|done|done].
    rewrite zslice_in; [done|]. cbn. pose proof (zlen_nonneg data). lia.
Qed.

Lemma const_expr_decoded_witness :
  outcome (fun _ => Err "unused") (fun _ => Err "unused")
    (evaluateConstExpr (fun _ => Err "unused") (fun _ => Err "unused") [0x41; 0x2a; 0x0b]) /\
  evaluateConstExpr (fun _ => Err "unused") (fun _ => Err "unused") [0x41; 0x2a; 0x0b] = Ok ([42], ValueTypeI32).
Proof.
  split; [|vm_compute; done].
  refine (proj2 (proj2 (proj2 (const_expr_decoded (fun _ => Err "unused") (fun _ => Err "unused") CoreFeaturesV2
    [0x41; 0x2a; 0x0b; 0x07] _ _ _) [0x41; 0x2a; 0x0b] [0x07] _))); [done|done|repeat constructor; done|vm_compute; done].
Defined.

(** evaluation never panics on bytes whose last one is the end opcode,
    decoded or not; without it the vector prefix as the last byte makes
    [evaluateConstExpr] index past the slice. *)
Theorem const_expr_safe globalResolver funcRefResolver data :
  (forall i, no_panic (globalResolver i)) -> (forall i, no_panic (funcRefResolver i)) -> bytes_ok data ->
  (last data = Some OpcodeEnd -> no_panic (evaluateConstExpr globalResolver funcRefResolver data)) /\
  evaluateConstExpr globalResolver funcRefResolver [OpcodeVecPrefix] = Panic "index out of range".
Proof.
  intros Hg Hf Hb. split; [|done]. intros Hl.
  by apply evaluateLoop_safe.
Qed.

Lemma const_expr_safe_witness :
  no_panic (evaluateConstExpr (fun _ => Err "no global") (fun i => Ok i) [0xfd; 0x0b]).
Proof.
  refine (proj1 (const_expr_safe (fun _ => Err "no global") (fun i => Ok i) [0xfd; 0x0b] _ _ _) _);
    [done|done|repeat constructor; done|done].
Defined.

(** when [constExprReferencesGlobal] says no, the value of the expression
    is the same whatever the globals and the functions are, so that it may be
    computed before instantiation; and the check itself always returns. *)
Theorem const_expr_independent data :
  bytes_ok data ->
  no_panic (constExprReferencesGlobal data) /\
  forall g1 g2 f1 f2, constExprReferencesGlobal data = Ok false ->
    evaluateConstExpr g1 f1 data = evaluateConstExpr g2 f2 data.
Proof.
  intros Hb. split.
  - apply referencesLoop_no_panic; [done|lia|unfold zlen; lia].
  - intros g1 g2 f1 f2 H. by apply evaluate_independent.
Qed.

Lemma const_expr_independent_witness :
  evaluateConstExpr (fun _ => Ok (ValueTypeI32, 1, 0)) (fun _ => Ok 1) [0x41; 0x05; 0x41; 0x07; 0x6c; 0x0b] =
  evaluateConstExpr (fun _ => Err "no global") (fun _ => Err "no function") [0x41; 0x05; 0x41; 0x07; 0x6c; 0x0b].
Proof.
  refine (proj2 (const_expr_independent [0x41; 0x05; 0x41; 0x07; 0x6c; 0x0b] _) _ _ _ _ _);
    [repeat constructor; done|vm_compute; done].
Defined.

(** the constant expressions the host builds for an i32 and an i64 are
    decoded back byte for byte and evaluate to the value, as an unsigned
    64-bit slot, whatever the resolvers. *)
Theorem const_expr_roundtrip globalResolver funcRefResolver enabledFeatures rest :
  (forall v, is_i32 v ->
     decodeConstantExpression (NewConstantExpressionFromI32 v ++ rest) enabledFeatures
       = Ok (NewConstantExpressionFromI32 v, rest) /\
     evaluateConstExpr globalResolver funcRefResolver (NewConstantExpressionFromI32 v) = Ok ([v mod 2 ^ 32], ValueTypeI32)) /\
  (forall v, is_i64 v ->
     decodeConstantExpression (NewConstantExpressionFromI64 v ++ rest) enabledFeatures
       = Ok (NewConstantExpressionFromI64 v, rest) /\
     evaluateConstExpr globalResolver funcRefResolver (NewConstantExpressionFromI64 v) = Ok ([v mod 2 ^ 64], ValueTypeI64)).
Proof.
  split; intros v Hv; (split; [apply decode_const; [|done|done]|apply evaluate_const; [|done]]).
  - intros r. unfold skipImmediate. cbn [Z.eqb Pos.eqb OpcodeI32Const]. by rewrite DecodeInt32_Encode.
  - intros s Hz. eval_opcodes. rewrite Hz. cbn [res_bind]. by rewrite LoadInt32_Decode, DecodeInt32_Encode.
  - intros r. unfold skipImmediate. cbn [Z.eqb Pos.eqb OpcodeI64Const OpcodeI32Const]. by rewrite DecodeInt64_Encode.
  - intros s Hz. eval_opcodes. rewrite Hz. cbn [res_bind]. by rewrite LoadInt64_Decode, DecodeInt64_Encode.
Qed.

Lemma const_expr_roundtrip_witness :
  evaluateConstExpr (fun _ => Err "none") (fun _ => Err "none") (NewConstantExpressionFromI32 (-1))
    = Ok ([2 ^ 32 - 1], ValueTypeI32).
Proof.
  refine (proj2 (proj1 (const_expr_roundtrip (fun _ => Err "none") (fun _ => Err "none") 0 []) (-1) _)).
  unfold is_i32; lia.
Defined.
