(* ===== verification/Execution.v ===== *)
(** * Guest executions and the release of memory (src/internal/wasm/execution.go)

    Closing a module must not free the allocation of its memory while guest
    code that may touch it is running, nor while a module that imports it is
    alive.  Two mechanisms share one lock, [guestExecutions.Mutex]:
    reference counts between instances ([retainImport], [retireMemory]), and
    epochs ([BeginExecution], [EndExecution], [collectRetiredMemory]).

    Objects are named by [positive] pointers into heaps.  The code under the
    lock touches only fields that the lock guards, so that it is one step up to
    the points where it reads or writes an atomic: [current] and [active].
    Those are steps of their own, and the threads interleave there in any
    order.  [Free] is logged in [frees]; a callback that re-enters the runtime
    is one more thread.  The engine of an instance is named by the instance.
    Go iterates over a map in any order: [keys] stands for one iteration. *)

From S2P Require Import Prelude.

(** ** State *)

(** The fields of [ModuleInstance] that this file uses; [Closed] tells whether
    the atomic is non-zero. *)
Record Instance := mkInstance {
  Closed : bool;
  memoryClosed : bool;
  memoryReleased : bool;
  importers : gmap positive Z;
  importedModules : list positive;
  instanceMemory : option positive;
}.

Record MemoryObject := mkMemoryObject { ownerModuleEngine : positive; expBuffer : option positive }.

Record retiredMemory := mkRetired { memory : positive; allocation : positive }.

Record executionEpoch := mkEpoch { active : Z; next : option positive; retired : list retiredMemory }.

Abbreviation Heap := (gmap positive Instance).
Abbreviation Memories := (gmap positive MemoryObject).
Abbreviation Epochs := (gmap positive executionEpoch).

Definition deref {A} (h : gmap positive A) (p : positive) : res A :=
  match h !! p with
  | Some a => Ok a
  | None => Panic "nil pointer dereference"
  end.

Definition set_Closed (b : bool) (i : Instance) : Instance :=
  mkInstance b (memoryClosed i) (memoryReleased i) (importers i) (importedModules i) (instanceMemory i).
Definition set_memoryClosed (b : bool) (i : Instance) : Instance :=
  mkInstance (Closed i) b (memoryReleased i) (importers i) (importedModules i) (instanceMemory i).
Definition set_memoryReleased (b : bool) (i : Instance) : Instance :=
  mkInstance (Closed i) (memoryClosed i) b (importers i) (importedModules i) (instanceMemory i).
Definition set_importers (m : gmap positive Z) (i : Instance) : Instance :=
  mkInstance (Closed i) (memoryClosed i) (memoryReleased i) m (importedModules i) (instanceMemory i).
Definition set_importedModules (l : list positive) (i : Instance) : Instance :=
  mkInstance (Closed i) (memoryClosed i) (memoryReleased i) (importers i) l (instanceMemory i).
Definition set_instanceMemory (m : option positive) (i : Instance) : Instance :=
  mkInstance (Closed i) (memoryClosed i) (memoryReleased i) (importers i) (importedModules i) m.

(** ** References between instances *)

(** [m.retainImport(imported)], with what it returns. *)
Definition retainImport (h : Heap) (m imported : positive) : res (Heap * bool) :=
  let! i := deref h imported in
  if Closed i || memoryClosed i then Ok (h, false)
  else
    let h := <[imported := set_importers (<[m := wrap32 (default 0 (importers i !! m) + 1)]> (importers i)) i]> h in
    let! j := deref h m in
    Ok (<[m := set_importedModules (importedModules j ++ [imported]) j]> h, true).

Section Keys.
Context (keys : gmap positive Z -> list positive).

(** The inner loop over [modules[i].importers]; [None] is the early [return nil]. *)
Fixpoint visitImporters (h : Heap) (ks : list positive) (seen : gset positive) (modules : list positive)
    : res (option (gset positive * list positive)) :=
  match ks with
  | [] => Ok (Some (seen, modules))
  | importer :: ks =>
      let! i := deref h importer in
      if negb (memoryClosed i) then Ok None
      else if bool_decide (importer ∈ seen) then visitImporters h ks seen modules
      else visitImporters h ks ({[importer]} ∪ seen) (modules ++ [importer])
  end.

Fixpoint unreferencedLoop (fuel : nat) (h : Heap) (i : nat) (seen : gset positive) (modules : list positive)
    : res (list positive) :=
  match modules !! i with
  | None => Ok modules
  | Some x =>
      match fuel with
      | O => Panic "unreferencedClosedModules: loop bound"
      | S fuel =>
          let! inst := deref h x in
          let! r := visitImporters h (keys (importers inst)) seen modules in
          match r with
          | None => Ok []
          | Some (seen, modules) => unreferencedLoop fuel h (S i) seen modules
          end
      end
  end.

(** [nil] is the empty list: a result that is not [nil] contains [m]. *)
Definition unreferencedClosedModules (h : Heap) (m : positive) : res (list positive) :=
  let! inst := deref h m in
  if bool_decide (importers inst = ∅) then Ok [m]
  else unreferencedLoop (size h) h 0 {[m]} [m].

(** [ready] has its last element first. *)
Fixpoint dropImports (h : Heap) (closed : positive) (imported : list positive) (ready : list positive)
    : res (Heap * list positive) :=
  match imported with
  | [] => Ok (h, ready)
  | y :: imported =>
      let! i := deref h y in
      let c := wrap32 (default 0 (importers i !! closed) - 1) in
      let importers' := if c =? 0 then delete closed (importers i) else <[closed := c]> (importers i) in
      dropImports (<[y := set_importers importers' i]> h) closed imported (y :: ready)
  end.

(** The allocation that [closed] owns, if any. *)
Definition ownAllocation (ms : Memories) (closed : positive) (i : Instance) : res (list retiredMemory) :=
  match instanceMemory i with
  | None => Ok []
  | Some mem =>
      let! o := deref ms mem in
      match expBuffer o with
      | Some a => if bool_decide (ownerModuleEngine o = closed) then Ok [mkRetired mem a] else Ok []
      | None => Ok []
      end
  end.

Fixpoint releaseModules (h : Heap) (ms : Memories) (modules ready : list positive) (ret : list retiredMemory)
    : res (Heap * list positive * list retiredMemory) :=
  match modules with
  | [] => Ok (h, ready, ret)
  | closed :: modules =>
      let! i := deref h closed in
      let! (h, ready) := dropImports h closed (importedModules i) ready in
      let! i := deref h closed in
      let h := <[closed := set_importedModules [] i]> h in
      let! own := ownAllocation ms closed i in
      releaseModules h ms modules ready (ret ++ own)
  end.

Fixpoint markReleased (h : Heap) (modules : list positive) : res Heap :=
  match modules with
  | [] => Ok h
  | closed :: modules =>
      let! i := deref h closed in
      markReleased (<[closed := set_memoryReleased true i]> h) modules
  end.

Fixpoint retireLoop (fuel : nat) (h : Heap) (ms : Memories) (ready : list positive) (ret : list retiredMemory)
    : res (Heap * list retiredMemory) :=
  match ready with
  | [] => Ok (h, ret)
  | module :: ready =>
      match fuel with
      | O => Panic "retireMemory: loop bound"
      | S fuel =>
          let! i := deref h module in
          if negb (memoryClosed i) || memoryReleased i then retireLoop fuel h ms ready ret
          else
            let! modules := unreferencedClosedModules h module in
            let! h := markReleased h modules in
            let! (h, ready, ret) := releaseModules h ms modules ready ret in
            retireLoop fuel h ms ready ret
      end
  end.

(** Imports that are still recorded, which bounds the iterations. *)
Definition importCount (h : Heap) : nat := map_fold (fun _ i n => (length (importedModules i) + n)%nat) 0%nat h.

(** The part of [retireMemory] before the epochs are touched. *)
Definition retireInstances (h : Heap) (ms : Memories) (m : positive) : res (Heap * list retiredMemory) :=
  let! i := deref h m in
  if memoryClosed i then Ok (h, [])
  else
    let h := <[m := set_memoryClosed true i]> h in
    retireLoop (S (importCount h)) h ms [m] [].

End Keys.

(** ** Epochs *)

Record shared := mkShared {
  current : option positive;
  head : option positive;
  tail : option positive;
  mutex : option positive;
  epochs : Epochs;
  instances : Heap;
  memories : Memories;
  frees : list retiredMemory;
}.

Definition set_current (c : option positive) (g : shared) : shared :=
  mkShared c (head g) (tail g) (mutex g) (epochs g) (instances g) (memories g) (frees g).
Definition set_queue (hd tl : option positive) (es : Epochs) (g : shared) : shared :=
  mkShared (current g) hd tl (mutex g) es (instances g) (memories g) (frees g).
Definition set_mutex (m : option positive) (g : shared) : shared :=
  mkShared (current g) (head g) (tail g) m (epochs g) (instances g) (memories g) (frees g).
Definition set_epochs (es : Epochs) (g : shared) : shared := set_queue (head g) (tail g) es g.
Definition set_instances (h : Heap) (g : shared) : shared :=
  mkShared (current g) (head g) (tail g) (mutex g) (epochs g) h (memories g) (frees g).
Definition set_memories (ms : Memories) (g : shared) : shared :=
  mkShared (current g) (head g) (tail g) (mutex g) (epochs g) (instances g) ms (frees g).
Definition set_frees (l : list retiredMemory) (g : shared) : shared :=
  mkShared (current g) (head g) (tail g) (mutex g) (epochs g) (instances g) (memories g) l.

Definition newEpoch : executionEpoch := mkEpoch 0 None [].

(** [e.active.Add(d)], with the new value. *)
Definition addActive (g : shared) (e : positive) (d : Z) : res (shared * Z) :=
  let! ep := deref (epochs g) e in
  let n := active ep + d in
  Ok (set_epochs (<[e := mkEpoch n (next ep) (retired ep)]> (epochs g)) g, n).

(** One iteration of the loop of [collectRetiredMemory]: [None] when the loop
    ends. *)
Definition collectHead (g : shared) : res (option (shared * list retiredMemory)) :=
  match head g with
  | None => Ok None
  | Some e =>
      let! ep := deref (epochs g) e in
      if active ep =? 0 then
        Ok (Some (set_queue (next ep) (tail g) (<[e := mkEpoch (active ep) None []]> (epochs g)) g, retired ep))
      else Ok None
  end.

(** [entry.memory.expBuffer = nil] *)
Definition clearBuffer (ms : Memories) (entry : retiredMemory) : Memories :=
  alter (fun o => mkMemoryObject (ownerModuleEngine o) None) (memory entry) ms.

(** What [collectRetiredMemory] does after the loop. *)
Definition collectDone (g : shared) (ret : list retiredMemory) : shared :=
  let g := match head g with None => set_queue None None (epochs g) g | Some _ => g end in
  set_memories (foldl clearBuffer (memories g) ret) g.

(** The end of [retireMemory] under the lock, up to the call of
    [collectRetiredMemory]: [fresh] is the new epoch, and [fresh'] the one made
    when there was none. *)
Definition sealEpoch (g : shared) (ret : list retiredMemory) (fresh fresh' : positive) : res shared :=
  let epoch := default fresh' (current g) in
  let g := set_epochs (<[fresh := newEpoch]> (epochs g)) (set_current (Some fresh) g) in
  let ep := match epochs g !! epoch with Some ep => ep | None => newEpoch end in
  let es := <[epoch := mkEpoch (active ep) (next ep) ret]> (epochs g) in
  match tail g with
  | None => Ok (set_queue (Some epoch) (Some epoch) es g)
  | Some t =>
      let! tp := deref es t in
      Ok (set_queue (head g) (Some epoch) (<[t := mkEpoch (active tp) (Some epoch) (retired tp)]> es) g)
  end.

(** ** Threads *)

(** What follows a call of [EndExecution]: the loop of [BeginExecution], or the
    return to the caller. *)
Inductive cont :=
| KRetry (m : positive)
| KReturn.

(** Where a thread is, between two steps. *)
Inductive pc :=
| PIdle
| PBegin (m : positive)                     (* the top of the loop of BeginExecution *)
| PInit (m : positive)                      (* current was nil *)
| PLoaded (m e : positive)                  (* current was e *)
| PAdded (m e : positive)                   (* after e.active.Add(1) *)
| PConfirmed (m e : positive)               (* e was still current *)
| PGuest (m e : positive)                   (* BeginExecution returned e *)
| PEnd (k : cont) (e : positive)            (* calls e.EndExecution *)
| PEndCheck (k : cont) (e : positive)       (* e.active.Add(-1) gave 0 *)
| PLock (k : cont)                          (* before guestExecutions.Lock() *)
| PCollect (k : cont) (ret : list retiredMemory)   (* in the loop of collectRetiredMemory *)
| PFree (k : cont) (ret : list retiredMemory)      (* unlocked, entries to free *)
| PRetire (m : positive)                    (* calls m.retireMemory *)
| PSwap (ret : list retiredMemory).         (* locked, before current.Swap *)

Definition resume (k : cont) : pc :=
  match k with
  | KRetry m => PBegin m
  | KReturn => PIdle
  end.

Record state := mkState { sh : shared; threads : gmap positive pc }.

Definition go (s : state) (t : positive) (g : shared) (p : pc) : state := mkState g (<[t := p]> (threads s)).

(** An iteration order visits every key once. *)
Definition range_order (keys : gmap positive Z -> list positive) : Prop :=
  forall m, keys m ≡ₚ (map_to_list m).*1.

(** The steps of a thread of execution.go, from its program point. *)
Inductive execStep (t : positive) (s : state) : pc -> state -> Prop :=
| B_load_nil m : current (sh s) = None -> execStep t s (PBegin m) (go s t (sh s) (PInit m))
| B_init m e : current (sh s) = None -> epochs (sh s) !! e = None ->
    execStep t s (PInit m) (go s t (set_epochs (<[e := newEpoch]> (epochs (sh s))) (set_current (Some e) (sh s))) (PBegin m))
| B_init_lost m e : current (sh s) = Some e -> execStep t s (PInit m) (go s t (sh s) (PBegin m))
| B_load m e : current (sh s) = Some e -> execStep t s (PBegin m) (go s t (sh s) (PLoaded m e))
| B_add m e g n : addActive (sh s) e 1 = Ok (g, n) -> execStep t s (PLoaded m e) (go s t g (PAdded m e))
| B_confirm m e :
    execStep t s (PAdded m e)
      (go s t (sh s) (if bool_decide (current (sh s) = Some e) then PConfirmed m e else PEnd (KRetry m) e))
| B_closed m e i : instances (sh s) !! m = Some i ->
    execStep t s (PConfirmed m e) (go s t (sh s) (if Closed i then PEnd KReturn e else PGuest m e))
| G_end m e : execStep t s (PGuest m e) (go s t (sh s) (PEnd KReturn e))
| E_dec k e g n : addActive (sh s) e (-1) = Ok (g, n) ->
    execStep t s (PEnd k e) (go s t g (if n =? 0 then PEndCheck k e else resume k))
| E_check k e :
    execStep t s (PEndCheck k e)
      (go s t (sh s) (if bool_decide (current (sh s) = Some e) then resume k else PLock k))
| E_lock k : mutex (sh s) = None -> execStep t s (PLock k) (go s t (set_mutex (Some t) (sh s)) (PCollect k []))
| C_iter k ret g l : collectHead (sh s) = Ok (Some (g, l)) ->
    execStep t s (PCollect k ret) (go s t g (PCollect k (ret ++ l)))
| C_done k ret : collectHead (sh s) = Ok None ->
    execStep t s (PCollect k ret) (go s t (set_mutex None (collectDone (sh s) ret)) (PFree k ret))
| F_free k entry ret :
    execStep t s (PFree k (entry :: ret)) (go s t (set_frees (frees (sh s) ++ [entry]) (sh s)) (PFree k ret))
| F_done k : execStep t s (PFree k []) (go s t (sh s) (resume k))
| R_lock m keys h ret : mutex (sh s) = None -> range_order keys ->
    retireInstances keys (instances (sh s)) (memories (sh s)) m = Ok (h, ret) ->
    execStep t s (PRetire m)
      (match ret with
       | [] => go s t (set_instances h (sh s)) PIdle
       | _ => go s t (set_mutex (Some t) (set_instances h (sh s))) (PSwap ret)
       end)
| R_swap ret e e' g : epochs (sh s) !! e = None -> epochs (sh s) !! e' = None -> e <> e' ->
    sealEpoch (sh s) ret e e' = Ok g ->
    execStep t s (PSwap ret) (go s t g (PCollect KReturn [])).

(** What an idle thread may start, and the operations of other files on the
    same state: [setExitCode], and the parts of [Store.instantiate] that create
    an instance, resolve its imports and build its memory.  The instance that
    is being instantiated is open: nobody else can close it yet. *)
Inductive envStep (t : positive) (s : state) : state -> Prop :=
| S_begin m i : instances (sh s) !! m = Some i -> envStep t s (go s t (sh s) (PBegin m))
| S_close m i : instances (sh s) !! m = Some i ->
    envStep t s (go s t (set_instances (<[m := set_Closed true i]> (instances (sh s))) (sh s)) PIdle)
| S_retire m i : instances (sh s) !! m = Some i -> Closed i = true -> envStep t s (go s t (sh s) (PRetire m))
| S_new m : instances (sh s) !! m = None ->
    envStep t s (go s t (set_instances (<[m := mkInstance false false false ∅ [] None]> (instances (sh s))) (sh s)) PIdle)
| S_import m i imported h b : mutex (sh s) = None ->
    instances (sh s) !! m = Some i -> Closed i = false -> zlen (importedModules i) < 2 ^ 32 - 1 ->
    retainImport (instances (sh s)) m imported = Ok (h, b) ->
    envStep t s (go s t (set_instances h (sh s)) PIdle)
| S_import_table m i exporter j h b : mutex (sh s) = None ->
    instances (sh s) !! m = Some i -> Closed i = false -> exporter ∈ importedModules i ->
    instances (sh s) !! exporter = Some j -> zlen (importedModules j) < 2 ^ 32 - 1 ->
    retainImport (instances (sh s)) exporter m = Ok (h, b) ->
    envStep t s (go s t (set_instances h (sh s)) PIdle)
| S_memory m i mem a : instances (sh s) !! m = Some i -> Closed i = false -> instanceMemory i = None ->
    memories (sh s) !! mem = None ->
    envStep t s (go s t (set_memories (<[mem := mkMemoryObject m a]> (memories (sh s)))
                        (set_instances (<[m := set_instanceMemory (Some mem) i]> (instances (sh s))) (sh s))) PIdle)
| S_memory_import m i exporter j mem : instances (sh s) !! m = Some i -> Closed i = false -> instanceMemory i = None ->
    exporter ∈ importedModules i -> instances (sh s) !! exporter = Some j -> instanceMemory j = Some mem ->
    envStep t s (go s t (set_instances (<[m := set_instanceMemory (Some mem) i]> (instances (sh s))) (sh s)) PIdle).

Inductive step (s : state) : state -> Prop :=
| step_exec t p s' : threads s !! t = Some p -> execStep t s p s' -> step s s'
| step_env t s' : threads s !! t = Some PIdle -> envStep t s s' -> step s s'.

(** Any number of threads, all idle; nothing is instantiated. *)
Definition initial (s : state) : Prop :=
  sh s = mkShared None None None None ∅ ∅ ∅ [] /\ map_Forall (fun _ p => p = PIdle) (threads s).

Definition reachable (s : state) : Prop := exists s0, initial s0 /\ rtc step s0 s.
