(* ===== verification/ExecGraph.v ===== *)
(** * The import graph of execution.go: when an instance is released

    [retainImport] records an edge at both ends, [retireMemory] releases the
    closed instances that no live instance can reach.  The theorems: the counts
    agree with the edges, the loops terminate within their bounds, and an
    instance is released exactly when it is closed and every instance that
    reaches it by imports is closed too. *)

From S2P Require Import Prelude Execution.

(** ** The graph *)

Definition occ (y : positive) (l : list positive) : nat := count_occ Pos.eq_dec l y.

(** A count as a map entry: no entry stands for zero. *)
Definition posopt (n : nat) : option Z := if Nat.eqb n 0 then None else Some (Z.of_nat n).

(** [y] imports [x]. *)
Definition imports (h : Heap) (y x : positive) : Prop := exists i, h !! y = Some i /\ x ∈ importedModules i.

(** [y] is [x], or reaches it by imports. *)
Definition ancestor (h : Heap) (x y : positive) : Prop := rtc (fun a b => imports h b a) x y.

Record graph_ok (h : Heap) : Prop := {
  g_closed x i y : h !! x = Some i -> y ∈ importedModules i -> is_Some (h !! y);
  g_count x y j : h !! y = Some j ->
    importers j !! x = match h !! x with Some i => posopt (occ y (importedModules i)) | None => None end;
  g_bound x i : h !! x = Some i -> zlen (importedModules i) < 2 ^ 32;
}.

Record released_ok (h : Heap) : Prop := {
  r_closed x i : h !! x = Some i -> memoryReleased i = true -> memoryClosed i = true;
  r_imported x i : h !! x = Some i -> memoryReleased i = true -> importedModules i = [];
  r_importers x i : h !! x = Some i -> memoryReleased i = true -> importers i = ∅;
}.

(** A live ancestor keeps an instance from being released. *)
Definition live_ancestor (h : Heap) (x : positive) : Prop :=
  exists y j, ancestor h x y /\ h !! y = Some j /\ memoryClosed j = false.

(** ** Counts *)

Lemma occ_cons y z l : occ y (z :: l) = ((if decide (z = y) then 1 else 0) + occ y l)%nat.
Proof.
  unfold occ. cbn [count_occ].
  destruct (Pos.eq_dec z y), (decide (z = y)); try done; lia.
Qed.

Lemma occ_app y l l' : occ y (l ++ l') = (occ y l + occ y l')%nat.
Proof. apply count_occ_app. Qed.

Lemma occ_pos y l : (0 < occ y l)%nat <-> y ∈ l.
Proof. unfold occ. rewrite list_elem_of_In, (count_occ_In Pos.eq_dec). lia. Qed.

Lemma occ_le y l : (occ y l <= length l)%nat.
Proof. apply count_occ_bound. Qed.

Lemma posopt_pos n : (0 < n)%nat -> posopt n = Some (Z.of_nat n).
Proof. intros Hn. unfold posopt. destruct (Nat.eqb_spec n 0); [lia|done]. Qed.

Lemma posopt_Some n : is_Some (posopt n) <-> (0 < n)%nat.
Proof. unfold posopt. destruct (Nat.eqb_spec n 0); [split; [by intros [? ?]|lia]|split; [lia|eauto]]. Qed.

Lemma importer_edge h x j y :
  graph_ok h -> h !! x = Some j -> (is_Some (importers j !! y) <-> imports h y x).
Proof.
  intros Hg Hx. rewrite (g_count h Hg y x j Hx). unfold imports. destruct (h !! y) as [i|].
  - rewrite posopt_Some, occ_pos. naive_solver.
  - split; [by intros [? ?]|naive_solver].
Qed.

(** ** The search for live importers *)

Lemma deref_Some {A} (h : gmap positive A) p a : h !! p = Some a -> deref h p = Ok a.
Proof. unfold deref. by intros ->. Qed.

Lemma visitImporters_spec h ks : forall modules,
  (forall k, k ∈ ks -> is_Some (h !! k)) -> NoDup modules ->
  visitImporters h ks (list_to_set modules) modules = Ok None /\
    (exists k j, k ∈ ks /\ h !! k = Some j /\ memoryClosed j = false) \/
  exists new, visitImporters h ks (list_to_set modules) modules
      = Ok (Some (list_to_set (modules ++ new), modules ++ new)) /\
    NoDup (modules ++ new) /\ (forall k, k ∈ ks -> k ∈ modules ++ new) /\
    (forall k, k ∈ new -> k ∈ ks /\ exists j, h !! k = Some j /\ memoryClosed j = true).
Proof.
  induction ks as [|k ks IH]; intros modules Hks Hnd.
  { right. exists []. rewrite app_nil_r. set_solver. }
  destruct (Hks k) as [j Hj]; [left|]. cbn [visitImporters]. rewrite (deref_Some _ _ _ Hj). cbn [res_bind].
  destruct (memoryClosed j) eqn:Ej; cbn [negb]; [|left; split; [done|exists k, j; set_solver]].
  assert (forall k', k' ∈ ks -> is_Some (h !! k')) as Hks' by set_solver.
  case_bool_decide as Hin; rewrite elem_of_list_to_set in Hin.
  - destruct (IH modules Hks' Hnd) as [(-> & k' & j' & ? & ?)|(new & -> & Hnd' & Hin' & Hnew)];
      [left; split; [done|exists k', j'; set_solver]|].
    right. exists new. split_and!; [done|done|set_solver|]. intros k' Hk'. destruct (Hnew k' Hk'). set_solver.
  - replace ({[k]} ∪ list_to_set modules) with (list_to_set (modules ++ [k]) : gset positive) by set_solver.
    destruct (IH (modules ++ [k]) Hks') as [(-> & k' & j' & ? & ?)|(new & -> & Hnd' & Hin' & Hnew)];
      [apply NoDup_app; set_solver by eauto using NoDup_singleton|left; split; [done|exists k', j'; set_solver]|].
    right. exists (k :: new). rewrite <- app_assoc in *. cbn [app] in *. split_and!; [done|done|set_solver|].
    intros k' [->|Hk']%elem_of_cons; [split; [left|eauto]|]. destruct (Hnew k' Hk'). set_solver.
Qed.

(** Closed instances found from [m] so far. *)
Record found (h : Heap) (m : positive) (ms : list positive) : Prop := {
  f_root : m ∈ ms;
  f_nodup : NoDup ms;
  f_closed y : y ∈ ms -> exists j, h !! y = Some j /\ memoryClosed j = true;
  f_ancestor y : y ∈ ms -> ancestor h m y;
}.

(** A set of closed instances that contains every importer of its members. *)
Definition batch (h : Heap) (m : positive) (ms : list positive) : Prop :=
  found h m ms /\ forall x y, x ∈ ms -> imports h y x -> y ∈ ms.

Lemma found_size h m ms : found h m ms -> (length ms <= size h)%nat.
Proof.
  intros Hf. rewrite <- (size_dom h), <- (size_list_to_set (C := gset positive) ms) by apply Hf.
  apply subseteq_size. intros x Hx%elem_of_list_to_set. destruct (f_closed _ _ _ Hf x Hx) as (j & Hj & _).
  by apply elem_of_dom_2 in Hj.
Qed.

Lemma ancestor_step h x y z : ancestor h x y -> imports h z y -> ancestor h x z.
Proof. intros Ha Hz. eapply rtc_r; [exact Ha|exact Hz]. Qed.

Section Search.
Context (keys : gmap positive Z -> list positive) (Hkeys : range_order keys) (h : Heap) (Hg : graph_ok h).

Lemma keys_importers x j k : h !! x = Some j -> k ∈ keys (importers j) <-> imports h k x.
Proof.
  intros Hx. rewrite (Hkeys (importers j)), list_elem_of_fmap, <- (importer_edge h x j k Hg Hx). split.
  - intros ([k' v] & -> & Hin). apply elem_of_map_to_list in Hin. eauto.
  - intros [v Hv]. exists (k, v). split; [done|by apply elem_of_map_to_list].
Qed.

Lemma imports_Some y x : imports h y x -> is_Some (h !! y).
Proof. intros (i & -> & _). eauto. Qed.

Lemma unreferencedLoop_spec m fuel : forall i modules,
  found h m modules -> (forall n x y, (n < i)%nat -> modules !! n = Some x -> imports h y x -> y ∈ modules) ->
  (i <= length modules)%nat -> (size h <= i + fuel)%nat ->
  exists ms, unreferencedLoop keys fuel h i (list_to_set modules) modules = Ok ms /\
    (ms = [] /\ live_ancestor h m \/ batch h m ms).
Proof.
  induction fuel as [|fuel IH]; intros i modules Hf Hdone Hi Hsize.
  all: pose proof (found_size _ _ _ Hf) as Hle; cbn [unreferencedLoop]; destruct (modules !! i) as [x|] eqn:Ex.
  1: { apply lookup_lt_Some in Ex. lia. }
  1,3: exists modules; split; [done|right; split; [done|]]; intros x y [n Hn]%list_elem_of_lookup Hy;
    apply (Hdone n x y); [|done|done]; apply lookup_lt_Some in Hn; apply lookup_ge_None in Ex; lia.
  pose proof (list_elem_of_lookup_2 _ _ _ Ex) as Hx. destruct (f_closed _ _ _ Hf x Hx) as (j & Hj & _).
  rewrite (deref_Some _ _ _ Hj). cbn [res_bind].
  destruct (visitImporters_spec h (keys (importers j)) modules)
    as [(-> & k & jk & Hk & Hjk & Hl)|(new & -> & Hnd & Hin & Hnew)]; cbn [res_bind].
  - intros k Hk%(keys_importers x j k Hj). by eapply imports_Some.
  - apply Hf.
  - exists []. split; [done|left; split; [done|]]. exists k, jk. apply (keys_importers x j k Hj) in Hk.
    split_and!; [|done|done]. eapply ancestor_step; [by apply (f_ancestor _ _ _ Hf)|done].
  - apply IH.
    + split; [apply elem_of_app; left; apply Hf|done| |]; intros y [Hy|Hy]%elem_of_app.
      * by apply (f_closed _ _ _ Hf).
      * by apply Hnew.
      * by apply (f_ancestor _ _ _ Hf).
      * apply Hnew in Hy as [Hy%(keys_importers x j y Hj) _]. eapply ancestor_step; [by apply (f_ancestor _ _ _ Hf)|done].
    + intros n z y Hn Hz Hy. apply lookup_lt_Some in Ex as Hlt.
      rewrite lookup_app_l in Hz by lia. destruct (decide (n = i)) as [->|].
      * simplify_eq. by apply Hin, (keys_importers x j y Hj).
      * apply elem_of_app. left. apply (Hdone n z y); [lia|done|done].
    + apply lookup_lt_Some in Ex. rewrite length_app. lia.
    + lia.
Qed.

Lemma unreferenced_spec m i :
  h !! m = Some i -> memoryClosed i = true ->
  exists ms, unreferencedClosedModules keys h m = Ok ms /\ (ms = [] /\ live_ancestor h m \/ batch h m ms).
Proof.
  intros Hm Hc. assert (found h m [m]) as Hf.
  { split; [set_solver|apply NoDup_singleton| |]; intros y ->%list_elem_of_singleton; [eauto|apply rtc_refl]. }
  unfold unreferencedClosedModules. rewrite (deref_Some _ _ _ Hm). cbn [res_bind]. case_bool_decide as He.
  - exists [m]. split; [done|right; split; [done|]]. intros x y ->%list_elem_of_singleton Hy.
    apply (importer_edge h m i y Hg Hm) in Hy. rewrite He in Hy. destruct Hy as [? Hy]. done.
  - replace ({[m]} : gset positive) with (list_to_set [m] : gset positive) by set_solver.
    apply unreferencedLoop_spec; [done|lia|simpl; lia|lia].
Qed.

End Search.

(** ** Dropping the references of an instance *)

Definition drop_importer (closed : positive) (j : Instance) : Instance :=
  set_importers (delete closed (importers j)) j.

Lemma posopt_dec y z l :
  let c := wrap32 (default 0 (posopt (occ y (z :: l))) - 1) in
  y = z -> zlen (z :: l) < 2 ^ 32 -> (if c =? 0 then None else Some c) = posopt (occ y l).
Proof.
  cbv zeta. intros <- Hlen. rewrite occ_cons, decide_True by done. rewrite posopt_pos by lia.
  change (default 0 (Some (Z.of_nat (1 + occ y l)))) with (Z.of_nat (1 + occ y l)).
  pose proof (occ_le y l) as Hle. rewrite zlen_cons in Hlen. unfold zlen in Hlen. unfold wrap32.
  replace (Z.of_nat (1 + occ y l) - 1) with (Z.of_nat (occ y l)) by lia. rewrite Z.mod_small by lia.
  unfold posopt. destruct (Z.eqb_spec (Z.of_nat (occ y l)) 0), (Nat.eqb_spec (occ y l) 0); (done || lia).
Qed.

Lemma dropImports_spec closed imps : forall h ready,
  (forall y, y ∈ imps -> is_Some (h !! y)) -> zlen imps < 2 ^ 32 ->
  (forall y j, h !! y = Some j -> importers j !! closed = posopt (occ y imps)) ->
  dropImports h closed imps ready = Ok (drop_importer closed <$> h, rev imps ++ ready).
Proof.
  induction imps as [|z imps IH]; intros h ready Hin Hlen Hc; cbn [dropImports rev app].
  - f_equal. f_equal. apply map_eq. intros y. rewrite lookup_fmap. destruct (h !! y) as [j|] eqn:Hy; [|done].
    cbn. f_equal. unfold drop_importer. rewrite delete_id by (by rewrite (Hc y j Hy)). by destruct j.
  - destruct (Hin z) as [j Hj]; [left|]. rewrite (deref_Some _ _ _ Hj). cbn [res_bind].
    set (c := wrap32 _). set (im := if c =? 0 then _ else _).
    assert (im !! closed = posopt (occ z imps)) as Him.
    { rewrite <- (posopt_dec z z imps eq_refl Hlen), <- (Hc z j Hj). fold c. unfold im.
      destruct (c =? 0); [apply lookup_delete_eq|apply lookup_insert_eq]. }
    rewrite IH.
    + rewrite <- app_assoc. cbn [app]. f_equal. f_equal. rewrite fmap_insert. apply insert_id.
      rewrite lookup_fmap, Hj. cbn. f_equal. unfold drop_importer, im. cbn.
      destruct (c =? 0); [by rewrite delete_delete_eq|by rewrite delete_insert_eq].
    + intros y Hy. destruct (decide (y = z)) as [->|]; [rewrite lookup_insert_eq; eauto|].
      rewrite lookup_insert_ne by done. apply Hin. by right.
    + rewrite zlen_cons in Hlen. lia.
    + intros y jy. destruct (decide (y = z)) as [->|Hne].
      * rewrite lookup_insert_eq. intros [= <-]. done.
      * rewrite lookup_insert_ne by done. intros Hy. rewrite (Hc y jy Hy), occ_cons, decide_False by done. done.
Qed.

(** ** Steps of the heap *)

(** [h'] is [h] where the instances of [R] are marked released and those of [I]
    no longer record imports; the counts of importers may change. *)
Definition evolve (h h' : Heap) (R I : list positive) : Prop :=
  forall x,
    match h !! x, h' !! x with
    | Some i, Some i' =>
        Closed i' = Closed i /\ memoryClosed i' = memoryClosed i /\ instanceMemory i' = instanceMemory i /\
        memoryReleased i' = memoryReleased i || bool_decide (x ∈ R) /\
        importedModules i' = if bool_decide (x ∈ I) then [] else importedModules i
    | None, None => True
    | _, _ => False
    end.

Lemma evolve_refl h : evolve h h [] [].
Proof. intros x. destruct (h !! x); [|done]. by rewrite orb_false_r. Qed.

Lemma evolve_trans h h1 h2 R1 R2 I1 I2 :
  evolve h h1 R1 I1 -> evolve h1 h2 R2 I2 -> evolve h h2 (R1 ++ R2) (I1 ++ I2).
Proof.
  intros H1 H2 x. specialize (H1 x). specialize (H2 x).
  destruct (h !! x) as [i|], (h1 !! x) as [i1|], (h2 !! x) as [i2|]; try done.
  destruct H1 as (? & ? & ? & E1 & E2). destruct H2 as (? & ? & ? & -> & ->). rewrite E1, E2.
  split_and!; try congruence.
  - rewrite (bool_decide_ext (x ∈ R1 ++ R2) (x ∈ R1 \/ x ∈ R2)) by apply elem_of_app.
    rewrite bool_decide_or. by destruct (memoryReleased i), (bool_decide (x ∈ R1)).
  - rewrite (bool_decide_ext (x ∈ I1 ++ I2) (x ∈ I1 \/ x ∈ I2)) by apply elem_of_app.
    rewrite bool_decide_or. by destruct (bool_decide (x ∈ I1)), (bool_decide (x ∈ I2)).
Qed.

Lemma evolve_Some h h' R I x i' : evolve h h' R I -> h' !! x = Some i' -> exists i, h !! x = Some i.
Proof. intros H Hx. specialize (H x). rewrite Hx in H. destruct (h !! x); [eauto|done]. Qed.

Lemma evolve_Some' h h' R I x i : evolve h h' R I -> h !! x = Some i -> exists i', h' !! x = Some i'.
Proof. intros H Hx. specialize (H x). rewrite Hx in H. destruct (h' !! x); [eauto|done]. Qed.

Lemma evolve_imports h h' R I y x : evolve h h' R I -> imports h' y x <-> imports h y x /\ y ∉ I.
Proof.
  intros H. specialize (H y). unfold imports.
  destruct (h !! y) as [i|], (h' !! y) as [i'|]; try done; [|naive_solver].
  destruct H as (_ & _ & _ & _ & E). split.
  - intros (? & [= <-] & Hx). rewrite E in Hx. case_bool_decide; [by apply not_elem_of_nil in Hx|eauto].
  - intros [(? & [= <-] & Hx) Hy]. exists i'. split; [done|]. rewrite E. by case_bool_decide.
Qed.

(** Updates that leave the edges as they are. *)
Lemma graph_ok_insert h x i i' :
  graph_ok h -> h !! x = Some i -> importers i' = importers i -> importedModules i' = importedModules i ->
  graph_ok (<[x := i']> h).
Proof.
  intros Hg Hi E1 E2.
  assert (forall y j', <[x := i']> h !! y = Some j' ->
    exists j, h !! y = Some j /\ importers j' = importers j /\ importedModules j' = importedModules j) as Hback.
  { intros y j'. destruct (decide (y = x)) as [->|Hne]; [rewrite lookup_insert_eq; intros [= <-]; eauto|].
    rewrite lookup_insert_ne by done. eauto. }
  split.
  - intros y j' z Hy Hz. apply Hback in Hy as (j & Hy & _ & E). rewrite E in Hz.
    destruct (decide (z = x)) as [->|]; [rewrite lookup_insert_eq; eauto|rewrite lookup_insert_ne by done].
    by eapply g_closed.
  - intros y z j' Hz. apply Hback in Hz as (j & Hz & -> & _). rewrite (g_count h Hg y z j Hz).
    destruct (decide (y = x)) as [->|]; [by rewrite lookup_insert_eq, Hi, E2|by rewrite lookup_insert_ne by done].
  - intros y j' Hy. apply Hback in Hy as (j & Hy & _ & ->). by eapply g_bound.
Qed.

Lemma importCount_insert h x i i' :
  h !! x = Some i ->
  (importCount (<[x := i']> h) + length (importedModules i) = importCount h + length (importedModules i'))%nat.
Proof.
  intros Hi. unfold importCount. rewrite <- (insert_delete_id h x i Hi) at 2.
  rewrite <- insert_delete_eq. rewrite !map_fold_insert_L; try apply lookup_delete_eq; try (intros; lia).
Qed.

Lemma importCount_drop h closed : importCount (drop_importer closed <$> h) = importCount h.
Proof. unfold importCount. by rewrite map_fold_fmap. Qed.

Lemma markReleased_spec ms : forall h,
  (forall x, x ∈ ms -> is_Some (h !! x)) -> graph_ok h ->
  exists h', markReleased h ms = Ok h' /\ evolve h h' ms [] /\ graph_ok h' /\
    importCount h' = importCount h.
Proof.
  induction ms as [|x ms IH]; intros h Hin Hg; cbn [markReleased]; [eauto using evolve_refl|].
  destruct (Hin x) as [i Hi]; [left|]. rewrite (deref_Some _ _ _ Hi). cbn [res_bind].
  set (h1 := <[x := _]> h).
  assert (evolve h h1 [x] []) as He.
  { intros y. unfold h1. destruct (decide (y = x)) as [->|Hne].
    - rewrite lookup_insert_eq, Hi. rewrite (bool_decide_true (x ∈ [x])) by set_solver. cbn. by rewrite orb_true_r.
    - rewrite lookup_insert_ne by done. destruct (h !! y); [|done].
      rewrite (bool_decide_false (y ∈ [x])) by set_solver. by rewrite orb_false_r. }
  destruct (IH h1) as (h' & -> & He' & Hg' & Hc').
  - intros y Hy. destruct (Hin y) as [j Hj]; [by right|]. by destruct (evolve_Some' _ _ _ _ _ _ He Hj) as [j' ->].
  - by eapply graph_ok_insert.
  - exists h'. split_and!; [done|by apply (evolve_trans h h1 h' [x] ms [] [])|done|].
    rewrite Hc'. pose proof (importCount_insert h x i (set_memoryReleased true i) Hi). unfold h1. cbn in *. lia.
Qed.

(** ** Releasing a batch *)

(** The heap after [closed] has dropped its imports. *)
Definition release1 (closed : positive) (i : Instance) (h : Heap) : Heap :=
  <[closed := set_importedModules [] (drop_importer closed i)]> (drop_importer closed <$> h).

Lemma release1_lookup h x i y :
  h !! x = Some i ->
  release1 x i h !! y = (fun j => if bool_decide (y = x) then set_importedModules [] (drop_importer x j)
                                  else drop_importer x j) <$> h !! y.
Proof.
  intros Hi. unfold release1. case_bool_decide as Hy; [subst|].
  - by rewrite lookup_insert_eq, Hi.
  - by rewrite lookup_insert_ne, lookup_fmap.
Qed.

Lemma release1_evolve h x i : h !! x = Some i -> evolve h (release1 x i h) [] [x].
Proof.
  intros Hi y. rewrite (release1_lookup h x i y Hi). destruct (h !! y) as [j|]; [|done]. cbn.
  rewrite orb_false_r, (bool_decide_ext (y ∈ [x]) (y = x)) by set_solver. by case_bool_decide.
Qed.

Lemma release1_graph h x i : graph_ok h -> h !! x = Some i -> graph_ok (release1 x i h).
Proof.
  intros Hg Hi. pose proof (release1_evolve h x i Hi) as He. split.
  - intros y j z Hy Hz. assert (imports (release1 x i h) y z) as [(j' & Hj' & Hz') _]%(evolve_imports _ _ _ _ y z He)
      by (by exists j). destruct (g_closed h Hg y j' z Hj' Hz') as [k Hk].
    by destruct (evolve_Some' _ _ _ _ _ _ He Hk) as [? ->].
  - intros y z j. rewrite !(release1_lookup h x i) by done.
    destruct (h !! z) as [jz|] eqn:Hz; [|done]. cbn. intros [= <-].
    assert (importers (if bool_decide (z = x) then set_importedModules [] (drop_importer x jz) else drop_importer x jz)
      = delete x (importers jz)) as -> by (by case_bool_decide).
    destruct (decide (y = x)) as [->|Hne].
    + rewrite lookup_delete_eq, Hi. cbn. by rewrite bool_decide_true.
    + rewrite lookup_delete_ne, (g_count h Hg y z jz Hz) by done. destruct (h !! y); [|done]. cbn.
      by rewrite bool_decide_false.
  - intros y j. rewrite (release1_lookup h x i) by done. destruct (h !! y) as [jy|] eqn:Hy; [|done].
    cbn. intros [= <-]. case_bool_decide; [done|]. by apply (g_bound h Hg y jy).
Qed.

Lemma release1_count h x i :
  h !! x = Some i -> (importCount (release1 x i h) + length (importedModules i) = importCount h)%nat.
Proof.
  intros Hi. unfold release1.
  pose proof (importCount_insert (drop_importer x <$> h) x (drop_importer x i) (set_importedModules [] (drop_importer x i))) as H.
  rewrite lookup_fmap, Hi in H. specialize (H eq_refl). rewrite importCount_drop in H. cbn in H. lia.
Qed.

(** The memory of every instance exists. *)
Definition memory_ok (h : Heap) (ms : Memories) : Prop :=
  forall x i mem, h !! x = Some i -> instanceMemory i = Some mem -> is_Some (ms !! mem).

(** What [ownAllocation] returns. *)
Definition owned (h : Heap) (ms : Memories) (x : positive) : list retiredMemory :=
  match h !! x with
  | Some i =>
      match instanceMemory i ≫= fun mem => o ← ms !! mem; a ← expBuffer o; Some (mem, ownerModuleEngine o, a) with
      | Some (mem, owner, a) => if bool_decide (owner = x) then [mkRetired mem a] else []
      | None => []
      end
  | None => []
  end.

Lemma ownAllocation_owned h ms x i : memory_ok h ms -> h !! x = Some i -> ownAllocation ms x i = Ok (owned h ms x).
Proof.
  intros Hm Hi. unfold ownAllocation, owned. rewrite Hi. destruct (instanceMemory i) as [mem|] eqn:Em; [|done].
  destruct (Hm x i mem Hi Em) as [o Ho]. unfold deref. cbn. rewrite Ho. cbn. destruct (expBuffer o); [|done]. cbn.
  by case_bool_decide.
Qed.

Lemma evolve_memory h h' R I ms : evolve h h' R I -> memory_ok h ms -> memory_ok h' ms.
Proof.
  intros He Hm x i' mem Hx Hmem. specialize (He x). rewrite Hx in He. destruct (h !! x) as [i|] eqn:Hi; [|done].
  destruct He as (_ & _ & E & _). rewrite E in Hmem. by eapply Hm.
Qed.

Lemma evolve_owned h h' R I ms x : evolve h h' R I -> owned h' ms x = owned h ms x.
Proof.
  intros He. specialize (He x). unfold owned. destruct (h !! x), (h' !! x); try done. by destruct He as (_ & _ & -> & _).
Qed.

Lemma releaseModules_spec ms B : forall h ready ret,
  graph_ok h -> memory_ok h ms -> NoDup B -> (forall x, x ∈ B -> is_Some (h !! x)) ->
  exists h' ready', releaseModules h ms B ready ret = Ok (h', ready', ret ++ concat (owned h ms <$> B)) /\
    graph_ok h' /\ evolve h h' [] B /\ (length ready' + importCount h' = length ready + importCount h)%nat /\
    (forall y, y ∈ ready' <-> y ∈ ready \/ exists b, b ∈ B /\ imports h b y).
Proof.
  induction B as [|x B IH]; intros h ready ret Hg Hm Hnd Hin; cbn [releaseModules].
  { exists h, ready. cbn. rewrite app_nil_r. split_and!; [done|done|apply evolve_refl|done|]. set_solver. }
  destruct (Hin x) as [i Hi]; [left|]. rewrite (deref_Some _ _ _ Hi). cbn [res_bind].
  rewrite dropImports_spec; [|intros y Hy; by eapply (g_closed h Hg)|by eapply (g_bound h Hg)|].
  2: { intros y j Hj. by rewrite (g_count h Hg x y j Hj), Hi. }
  cbn [res_bind]. unfold deref at 1. rewrite lookup_fmap, Hi. cbn [fmap option_fmap option_map res_bind].
  fold (release1 x i h). pose proof (release1_evolve h x i Hi) as He1.
  assert (ownAllocation ms x (drop_importer x i) = ownAllocation ms x i) as -> by done.
  rewrite (ownAllocation_owned h ms x i Hm Hi). cbn [res_bind]. apply NoDup_cons in Hnd as [Hx Hnd].
  destruct (IH (release1 x i h) (rev (importedModules i) ++ ready) (ret ++ owned h ms x))
    as (h' & ready' & -> & Hg' & He' & Hc & Hr).
  - by apply release1_graph.
  - by eapply evolve_memory.
  - done.
  - intros y Hy. destruct (Hin y) as [j Hj]; [by right|]. by destruct (evolve_Some' _ _ _ _ _ _ He1 Hj) as [? ->].
  - exists h', ready'. split_and!; [| |by apply (evolve_trans _ _ _ [] [] [x] B He1)| |]; [|done| |].
    + rewrite fmap_cons. cbn [concat]. rewrite <- app_assoc.
      rewrite (list_fmap_ext (owned (release1 x i h) ms) (owned h ms) B); [done|].
      intros ? y _. by eapply evolve_owned.
    + rewrite Hc, length_app, length_rev. pose proof (release1_count h x i Hi). lia.
    + intros y. rewrite Hr, elem_of_app. split.
      * intros [[Hy|Hy]|(b & Hb & Hy)]; [right|by left|right].
        -- exists x. split; [left|]. exists i. split; [done|]. by rewrite list_elem_of_In, <- in_rev, <- list_elem_of_In in Hy.
        -- apply (evolve_imports _ _ _ _ _ _ He1) in Hy as [Hy _]. exists b. split; [by right|done].
      * intros [Hy|(b & Hb & Hy)]; [by left; right|]. destruct (decide (b = x)) as [->|Hne].
        -- left. left. destruct Hy as (i' & Hi' & Hy). simplify_eq. by rewrite list_elem_of_In, <- in_rev, <- list_elem_of_In.
        -- right. exists b. split; [set_solver|]. apply (evolve_imports _ _ _ _ _ _ He1). split; [done|set_solver].
Qed.

(** ** One round of [retireMemory] *)

Definition unreleased (h : Heap) (x : positive) : Prop :=
  exists i, h !! x = Some i /\ memoryClosed i = true /\ memoryReleased i = false.

(** What is left to do: a closed instance that should be released has an
    ancestor in [ready]. *)
Definition pending (h : Heap) (ready : list positive) : Prop :=
  forall x, unreleased h x -> live_ancestor h x \/ exists r, r ∈ ready /\ ancestor h x r.

(** An instance that records an import is not released. *)
Lemma importer_unreleased h y x i : released_ok h -> imports h y x -> h !! y = Some i -> memoryReleased i = false.
Proof.
  intros Hr (i' & Hi' & Hx) Hi. rewrite Hi in Hi'. injection Hi' as <-. destruct (memoryReleased i) eqn:E; [|done].
  rewrite (r_imported h Hr y i Hi E) in Hx. by apply not_elem_of_nil in Hx.
Qed.

Lemma ancestor_importer h x y : ancestor h x y -> y = x \/ exists z, imports h y z.
Proof. intros H. apply rtc_inv_r in H as [->|(z & _ & Hz)]; eauto. Qed.

Section Round.
Context (h h' : Heap) (m : positive) (B : list positive).
Context (Hg : graph_ok h) (Hr : released_ok h) (Hm : unreleased h m) (Hb : batch h m B).
Context (He : evolve h h' B B) (Hg' : graph_ok h').

Lemma batch_unreleased x : x ∈ B -> unreleased h x.
Proof.
  intros Hx. destruct Hb as [Hf _]. destruct (f_closed _ _ _ Hf x Hx) as (j & Hj & Hc). exists j. split_and!; [done|done|].
  destruct (ancestor_importer h m x) as [->|[z Hz]]; [by apply (f_ancestor _ _ _ Hf)| |].
  - destruct Hm as (j' & ? & _ & ?). by simplify_eq.
  - by eapply importer_unreleased.
Qed.

Lemma batch_released_ok : released_ok h'.
Proof.
  assert (forall x i', h' !! x = Some i' -> memoryReleased i' = true ->
    exists i, h !! x = Some i /\ memoryClosed i' = memoryClosed i /\
      importedModules i' = (if bool_decide (x ∈ B) then [] else importedModules i) /\
      (x ∈ B \/ memoryReleased i = true)) as Hback.
  { intros x i' Hx Hrel. specialize (He x). rewrite Hx in He. destruct (h !! x) as [i|]; [|done].
    destruct He as (_ & ? & _ & E & ?). exists i. split_and!; try done. rewrite Hrel in E. symmetry in E.
    apply orb_true_iff in E as [E|E]; [by right|left; by apply bool_decide_eq_true in E]. }
  split; intros x i' Hx Hrel; destruct (Hback x i' Hx Hrel) as (i & Hi & Hc & Himp & Hcase).
  - rewrite Hc. destruct Hcase as [HB|Hrel']; [|by eapply (r_closed h Hr)].
    apply batch_unreleased in HB as (j & Hj & ? & _). by simplify_eq.
  - rewrite Himp. case_bool_decide; [done|]. destruct Hcase as [|Hrel']; [done|by eapply (r_imported h Hr)].
  - apply map_empty. intros y. apply eq_None_not_Some. intros Hy.
    apply (importer_edge h' x i' y Hg' Hx), (evolve_imports _ _ _ _ _ _ He) in Hy as [Hy Hny].
    destruct Hcase as [HB|Hrel']; [by apply Hny, (proj2 Hb x y HB)|].
    apply (importer_edge h x i y Hg Hi) in Hy. rewrite (r_importers h Hr x i Hi Hrel') in Hy. by destruct Hy.
Qed.

(** Going up from an instance outside of the batch, either one never meets the
    batch, or one meets an instance that the batch imports. *)
Lemma ancestor_outside x r :
  ancestor h x r -> x ∉ B ->
  (ancestor h' x r /\ r ∉ B) \/ exists y b, ancestor h' x y /\ b ∈ B /\ imports h b y.
Proof.
  intros Ha. induction Ha as [x|x z r Hz _ IH]; intros Hx; [left; split; [apply rtc_refl|done]|].
  destruct (decide (z ∈ B)) as [HzB|HzB]; [right; exists x, z; split_and!; [apply rtc_refl|done|done]|].
  assert (imports h' z x) as Hz' by (by apply (evolve_imports _ _ _ _ _ _ He)).
  destruct (IH HzB) as [[Ha Hn]|(y & b & Ha & ? & ?)]; [left|right; exists y, b; split_and!; [|done|done]].
  - split; [by eapply rtc_l|done].
  - by eapply rtc_l.
Qed.

Lemma batch_pending ready ready' :
  pending h (m :: ready) -> (forall y, y ∈ ready' <-> y ∈ ready \/ exists b, b ∈ B /\ imports h b y) ->
  pending h' ready'.
Proof.
  intros Hp Hready x (i' & Hx & Hc & Hu). destruct (evolve_Some _ _ _ _ _ _ He Hx) as [i Hi].
  pose proof (He x) as Ex. rewrite Hi, Hx in Ex. destruct Ex as (_ & Ec & _ & Er & _). rewrite Hu in Er. symmetry in Er.
  apply orb_false_iff in Er as [Er Hn%bool_decide_eq_false].
  destruct (Hp x) as [(y & j & Ha & Hy & Hl)|(r & Hrd & Ha)]; [exists i; split_and!; congruence| |].
  - destruct (ancestor_outside x y Ha Hn) as [[Ha' _]|(z & b & ? & ? & ?)].
    + left. pose proof (He y) as Ey. rewrite Hy in Ey. destruct (h' !! y) as [j'|] eqn:Hy'; [|done].
      destruct Ey as (_ & Ey & _). exists y, j'. split_and!; [done|done|congruence].
    + right. exists z. split; [apply Hready; eauto|done].
  - right. destruct (ancestor_outside x r Ha Hn) as [[Ha' HrB]|(z & b & ? & ? & ?)].
    + exists r. split; [|done]. apply Hready. left. apply elem_of_cons in Hrd as [->|]; [|done].
      destruct HrB. apply Hb.
    + exists z. split; [apply Hready; eauto|done].
Qed.

End Round.

(** An entry of [ready] that has nothing to release. *)
Lemma pending_skip h m ready :
  released_ok h -> pending h (m :: ready) ->
  (live_ancestor h m \/ exists i, h !! m = Some i /\ memoryReleased i = true) -> pending h ready.
Proof.
  intros Hr Hp Hcase x Hx. destruct (Hp x Hx) as [?|(r & [->|Hrd]%elem_of_cons & Ha)]; [by left| |eauto].
  destruct Hcase as [(y & j & Hy & ?)|(i & Hi & Hrel)].
  - left. exists y, j. split; [unfold ancestor in *; by etrans|done].
  - exfalso. destruct (ancestor_importer h x m Ha) as [->|[z Hz]].
    + destruct Hx as (i' & ? & _ & ?). congruence.
    + pose proof (importer_unreleased h m z i Hr Hz Hi). congruence.
Qed.

Section Retire.
Context (keys : gmap positive Z -> list positive) (Hkeys : range_order keys) (ms : Memories).

Record heap_ok (h : Heap) : Prop := {
  h_graph : graph_ok h;
  h_released : released_ok h;
  h_memory : memory_ok h ms;
}.

(** [R] was released on the way from [h] to [h']. *)
Record released_by (h h' : Heap) (R : list positive) : Prop := {
  rb_evolve : evolve h h' R R;
  rb_nodup : NoDup R;
  rb_unreleased x : x ∈ R -> unreleased h x;
}.

Lemma released_by_trans h h1 h2 R1 R2 :
  released_by h h1 R1 -> released_by h1 h2 R2 -> released_by h h2 (R1 ++ R2).
Proof.
  intros [He1 Hn1 Hu1] [He2 Hn2 Hu2].
  assert (forall x, x ∈ R2 -> unreleased h x /\ x ∉ R1) as Hback.
  { intros x Hx. apply Hu2 in Hx as (i1 & Hi1 & Hc & Hr). specialize (He1 x). rewrite Hi1 in He1.
    destruct (h !! x) as [i|] eqn:Hi; [|done]. destruct He1 as (_ & Ec & _ & Er & _). rewrite Hr in Er. symmetry in Er.
    apply orb_false_iff in Er as [Er Hn%bool_decide_eq_false]. split; [exists i; split_and!; congruence|done]. }
  split; [by eapply evolve_trans|apply NoDup_app; naive_solver|].
  intros x [Hx|Hx]%elem_of_app; [by apply Hu1|by apply Hback].
Qed.

Lemma retireLoop_spec fuel : forall h ready ret,
  heap_ok h -> (forall x, x ∈ ready -> is_Some (h !! x)) -> pending h ready ->
  (length ready + importCount h <= fuel)%nat ->
  exists h' R, retireLoop keys fuel h ms ready ret = Ok (h', ret ++ concat (owned h ms <$> R)) /\
    released_by h h' R /\ heap_ok h' /\ pending h' [].
Proof.
  induction fuel as [|fuel IH]; intros h ready ret Hh Hin Hp Hf; cbn [retireLoop].
  all: destruct ready as [|m ready]; [exists h, []; rewrite app_nil_r; split_and!; [done| |done|done]; split;
    [apply evolve_refl|apply NoDup_nil_2|set_solver]|].
  1: cbn in Hf; lia.
  destruct (Hin m) as [i Hi]; [left|]. rewrite (deref_Some _ _ _ Hi). cbn [res_bind].
  assert (forall x, x ∈ ready -> is_Some (h !! x)) as Hin' by set_solver.
  destruct Hh as [Hg Hr Hmem].
  destruct (negb (memoryClosed i) || memoryReleased i) eqn:E.
  { apply IH; [done|done| |cbn in Hf; lia]. apply (pending_skip h m ready Hr Hp).
    apply orb_true_iff in E as [E|E]; [left|right; eauto]. exists m, i. split_and!; [apply rtc_refl|done|].
    by apply negb_true_iff. }
  apply orb_false_iff in E as [Hc%negb_false_iff Hrel]. assert (unreleased h m) as Hu by (exists i; done).
  destruct (unreferenced_spec keys Hkeys h Hg m i Hi Hc) as (B & -> & [[-> Hl]|Hb]); cbn [res_bind].
  { cbn [markReleased releaseModules res_bind]. apply IH; [done|done| |cbn in Hf; lia].
    apply (pending_skip h m ready Hr Hp). by left. }
  assert (forall x, x ∈ B -> is_Some (h !! x)) as HB
    by (intros x Hx; destruct (f_closed _ _ _ (proj1 Hb) x Hx) as (? & -> & _); eauto).
  destruct (markReleased_spec B h HB Hg) as (h1 & -> & He1 & Hg1 & Hc1). cbn [res_bind].
  destruct (releaseModules_spec ms B h1 ready ret Hg1) as (h2 & ready' & -> & Hg2 & He2 & Hc2 & Hready);
    [by eapply evolve_memory|apply Hb| |].
  { intros x Hx. destruct (HB x Hx) as [j Hj]. by destruct (evolve_Some' _ _ _ _ _ _ He1 Hj) as [? ->]. }
  cbn [res_bind]. pose proof (evolve_trans _ _ _ _ _ _ _ He1 He2) as He. rewrite app_nil_r in He. cbn [app] in He.
  rewrite (list_fmap_ext (owned h1 ms) (owned h ms) B) by (intros ? y _; by eapply evolve_owned).
  assert (forall y, y ∈ ready' <-> y ∈ ready \/ exists b, b ∈ B /\ imports h b y) as Hready'.
  { intros y. rewrite Hready. assert (forall b, imports h1 b y <-> imports h b y) as Hi1
      by (intros b; rewrite (evolve_imports _ _ _ _ _ _ He1); set_solver). setoid_rewrite Hi1. done. }
  assert (released_by h h2 B) as Hrb.
  { split; [done|apply Hb|]. by apply (batch_unreleased h m B). }
  destruct (IH h2 ready' (ret ++ concat (owned h ms <$> B))) as (h' & R & -> & Hrb' & Hok & Hpend).
  - split; [done|by eapply (batch_released_ok h h2 m B)|by eapply evolve_memory].
  - intros y [Hy|(b & Hb' & (ib & Hib & Hy))]%Hready'.
    + destruct (Hin' y Hy) as [j Hj]. by destruct (evolve_Some' _ _ _ _ _ _ He Hj) as [? ->].
    + destruct (g_closed h Hg b ib y Hib Hy) as [j Hj]. by destruct (evolve_Some' _ _ _ _ _ _ He Hj) as [? ->].
  - by eapply (batch_pending h h2 m B).
  - cbn in Hf. lia.
  - exists h', (B ++ R). split_and!; [|by eapply released_by_trans|done|done].
    rewrite fmap_app, concat_app, app_assoc.
    by rewrite (list_fmap_ext (owned h2 ms) (owned h ms) R) by (intros ? y _; by eapply evolve_owned).
Qed.

End Retire.

(** ** The invariant of the instances *)

(** Every closed instance that is not released is kept by a live one. *)
Definition complete (h : Heap) : Prop := forall x, unreleased h x -> live_ancestor h x.

Record heap_inv (ms : Memories) (h : Heap) : Prop := {
  hi_ok : heap_ok ms h;
  hi_complete : complete h;
  hi_closed x i : h !! x = Some i -> memoryClosed i = true -> Closed i = true;
}.

(** How the edges change under an update of one instance. *)
Lemma imports_insert h m i i' y x :
  h !! m = Some i -> importedModules i' = importedModules i -> imports (<[m := i']> h) y x <-> imports h y x.
Proof.
  intros Hi E. unfold imports. destruct (decide (y = m)) as [->|Hne].
  - rewrite lookup_insert_eq, Hi. split; intros (? & [= <-] & Hx); eexists; (split; [done|]); congruence.
  - by rewrite lookup_insert_ne.
Qed.

Lemma ancestor_mono h h' x y :
  (forall a b, imports h a b -> imports h' a b) -> ancestor h x y -> ancestor h' x y.
Proof. intros H. apply rtc_subrel. intros a b. apply H. Qed.

(** The instance [m], updated in a way that does not matter to the graph. *)
Lemma heap_inv_insert ms h m i i' :
  heap_inv ms h -> h !! m = Some i ->
  importers i' = importers i -> importedModules i' = importedModules i -> memoryClosed i' = memoryClosed i ->
  memoryReleased i' = memoryReleased i -> (Closed i = true -> Closed i' = true) ->
  (forall mem, instanceMemory i' = Some mem -> is_Some (ms !! mem)) ->
  heap_inv ms (<[m := i']> h).
Proof.
  intros [[Hg Hr Hm] Hc Hcl] Hi E1 E2 E3 E4 E5 E6.
  assert (forall y j', <[m := i']> h !! y = Some j' ->
    exists j, h !! y = Some j /\ importers j' = importers j /\ importedModules j' = importedModules j /\
      memoryClosed j' = memoryClosed j /\ memoryReleased j' = memoryReleased j /\ (Closed j = true -> Closed j' = true)) as Hback.
  { intros y j'. destruct (decide (y = m)) as [->|Hne]; [rewrite lookup_insert_eq; intros [= <-]; eauto 9|].
    rewrite lookup_insert_ne by done. eauto 9. }
  split; [split| |].
  - by eapply graph_ok_insert.
  - split; intros y j' Hy Hrel; apply Hback in Hy as (j & Hy & F1 & F2 & F3 & F4 & _); rewrite F4 in Hrel.
    + rewrite F3. by eapply (r_closed h Hr).
    + rewrite F2. by eapply (r_imported h Hr).
    + rewrite F1. by eapply (r_importers h Hr).
  - intros y j' mem. destruct (decide (y = m)) as [->|Hne];
      [rewrite lookup_insert_eq; intros [= <-]; apply E6|rewrite lookup_insert_ne by done; apply Hm].
  - intros x (j' & Hx & Hx1 & Hx2). apply Hback in Hx as (j & Hx & _ & _ & F3 & F4 & _).
    destruct (Hc x) as (y & k & Ha & Hy & Hl); [exists j; split_and!; congruence|].
    assert (exists k', <[m := i']> h !! y = Some k' /\ memoryClosed k' = false) as (k' & ? & ?).
    { destruct (decide (y = m)) as [->|]; [|rewrite lookup_insert_ne by done; eauto].
      rewrite lookup_insert_eq. exists i'. split; congruence. }
    exists y, k'. split_and!; [|done|done]. eapply ancestor_mono; [|done]. intros a b. by apply (imports_insert h m i i').
  - intros y j' Hy Hyc. apply Hback in Hy as (j & Hy & _ & _ & F3 & _ & F5). apply F5. eapply Hcl; [done|congruence].
Qed.

(** ** [retireMemory] *)

Definition releases (h h' : Heap) (R : list positive) : Prop :=
  NoDup R /\ (forall x, x ∈ R -> exists i, h !! x = Some i /\ memoryReleased i = false) /\
  forall x,
    match h !! x, h' !! x with
    | Some i, Some i' =>
        Closed i' = Closed i /\ instanceMemory i' = instanceMemory i /\
        memoryReleased i' = memoryReleased i || bool_decide (x ∈ R)
    | None, None => True
    | _, _ => False
    end.

Lemma releases_refl h : releases h h [].
Proof.
  split_and!; [apply NoDup_nil_2|set_solver|]. intros x. destruct (h !! x); [|done]. by rewrite orb_false_r.
Qed.

Lemma retireInstances_spec keys ms h m i :
  range_order keys -> heap_inv ms h -> h !! m = Some i -> Closed i = true ->
  exists h' R, retireInstances keys h ms m = Ok (h', concat (owned h ms <$> R)) /\ heap_inv ms h' /\ releases h h' R.
Proof.
  intros Hkeys Hinv Hi Hcl. unfold retireInstances. rewrite (deref_Some _ _ _ Hi). cbn [res_bind].
  destruct (memoryClosed i) eqn:Hmc; [exists h, []; eauto using releases_refl|].
  set (i1 := set_memoryClosed true i). set (h1 := <[m := i1]> h). destruct Hinv as [[Hg Hr Hm] Hc Hcl'].
  assert (memoryReleased i = false) as Hrel.
  { destruct (memoryReleased i) eqn:E; [|done]. pose proof (r_closed h Hr m i Hi E). congruence. }
  assert (forall y j, <[m := i1]> h !! y = Some j -> y = m /\ j = i1 \/ y <> m /\ h !! y = Some j) as Hback.
  { intros y j. destruct (decide (y = m)) as [->|]; [rewrite lookup_insert_eq|rewrite lookup_insert_ne by done]; naive_solver. }
  assert (heap_ok ms h1) as Hok1.
  { split; [by apply (graph_ok_insert h m i)| |].
    - split; intros y j [[-> ->]|[_ Hy]]%Hback Hj; [done| | | | |]; try (unfold i1 in Hj; cbn in Hj; congruence).
      + by eapply (r_closed h Hr). + by eapply (r_imported h Hr). + by eapply (r_importers h Hr).
    - intros y j mem [[-> ->]|[_ Hy]]%Hback Hj; [by eapply (Hm m i)|by eapply Hm]. }
  assert (forall x y, ancestor h x y -> ancestor h1 x y) as Hanc.
  { intros x y. apply ancestor_mono. intros a b. by apply (imports_insert h m i i1). }
  destruct (retireLoop_spec keys Hkeys ms (S (importCount h1)) h1 [m] []) as (h' & R & -> & [He Hnd Hu] & Hok & Hp).
  - done.
  - intros x ->%list_elem_of_singleton. unfold h1. rewrite lookup_insert_eq. eauto.
  - intros x (j & [[-> ->]|[Hne Hx]]%Hback & Hx1 & Hx2); [right; exists m; split; [left|apply rtc_refl]|].
    destruct (Hc x) as (y & k & Ha & Hy & Hl); [exists j; done|]. destruct (decide (y = m)) as [->|Hym].
    + right. exists m. split; [left|by apply Hanc].
    + left. exists y, k. split_and!; [by apply Hanc|unfold h1; by rewrite lookup_insert_ne|done].
  - cbn. lia.
  - exists h', R. cbn [app]. split_and!.
    + do 2 f_equal. f_equal. apply list_fmap_ext. intros _ x _. unfold owned, h1.
      destruct (decide (x = m)) as [->|]; [by rewrite lookup_insert_eq, Hi|by rewrite lookup_insert_ne].
    + split; [done| |].
      * intros x Hx. destruct (Hp x Hx) as [?|(r & Hn & _)]; [done|set_solver].
      * intros x j Hx Hj. specialize (He x). rewrite Hx in He. destruct (h1 !! x) as [j1|] eqn:Hx1; [|done].
        destruct He as (-> & E & _). rewrite E in Hj. apply Hback in Hx1 as [[-> ->]|[_ Hx1]]; [done|by eapply Hcl'].
    + split_and!; [done| |].
      * intros x Hx. destruct (Hu x Hx) as (j & [[-> ->]|[_ Hj]]%Hback & _ & Hj'); eauto.
      * intros x. specialize (He x). unfold h1 in He. destruct (decide (x = m)) as [->|].
        -- rewrite lookup_insert_eq in He. rewrite Hi. destruct (h' !! m); [|done]. destruct He as (? & _ & ? & ? & _). done.
        -- rewrite lookup_insert_ne in He by done. destruct (h !! x), (h' !! x); try done. destruct He as (? & _ & ? & ? & _). done.
Qed.

(** ** [retainImport] and new instances *)

(** The heap after [m.retainImport(imported)] recorded the import. *)
Definition retained (m imported x : positive) (k : Instance) : Instance :=
  let k := if bool_decide (x = imported)
           then set_importers (<[m := wrap32 (default 0 (importers k !! m) + 1)]> (importers k)) k else k in
  if bool_decide (x = m) then set_importedModules (importedModules k ++ [imported]) k else k.

Lemma retainImport_lookup h m imported i j :
  h !! imported = Some i -> h !! m = Some j -> Closed i = false -> memoryClosed i = false ->
  exists h', retainImport h m imported = Ok (h', true) /\ forall x, h' !! x = retained m imported x <$> h !! x.
Proof.
  intros Hi Hj H1 H2. unfold retainImport. rewrite (deref_Some _ _ _ Hi). cbn [res_bind]. rewrite H1, H2. cbn [orb].
  unfold deref, retained. destruct (decide (m = imported)) as [->|Hne].
  - rewrite lookup_insert_eq. cbn [res_bind]. eexists. split; [done|]. intros x.
    destruct (decide (x = imported)) as [->|].
    + rewrite lookup_insert_eq, Hi. cbn. by rewrite !bool_decide_true by done.
    + rewrite !lookup_insert_ne by done. rewrite !bool_decide_false by done. by destruct (h !! x).
  - rewrite lookup_insert_ne, Hj by done. cbn [res_bind]. eexists. split; [done|]. intros x.
    destruct (decide (x = m)) as [->|].
    + rewrite lookup_insert_eq, Hj. cbn. rewrite (bool_decide_false (m = imported)) by done. by rewrite bool_decide_true.
    + rewrite lookup_insert_ne by done. rewrite (bool_decide_false (x = m)) by done.
      destruct (decide (x = imported)) as [->|].
      * rewrite lookup_insert_eq, Hi. cbn. by rewrite bool_decide_true.
      * rewrite lookup_insert_ne by done. rewrite bool_decide_false by done. by destruct (h !! x).
Qed.

Lemma retained_fields m imported x k :
  Closed (retained m imported x k) = Closed k /\ memoryClosed (retained m imported x k) = memoryClosed k /\
  memoryReleased (retained m imported x k) = memoryReleased k /\ instanceMemory (retained m imported x k) = instanceMemory k /\
  importedModules (retained m imported x k) = importedModules k ++ (if bool_decide (x = m) then [imported] else []) /\
  importers (retained m imported x k) =
    if bool_decide (x = imported) then <[m := wrap32 (default 0 (importers k !! m) + 1)]> (importers k) else importers k.
Proof. unfold retained. repeat case_bool_decide; cbn; rewrite ?app_nil_r; done. Qed.

Lemma retainImport_inv ms h m imported i j :
  heap_inv ms h -> h !! imported = Some i -> h !! m = Some j ->
  memoryReleased j = false -> zlen (importedModules j) < 2 ^ 32 - 1 ->
  exists h' b, retainImport h m imported = Ok (h', b) /\ heap_inv ms h' /\ releases h h' [].
Proof.
  intros Hinv Hi Hj Hrel Hlen. destruct (Closed i || memoryClosed i) eqn:E.
  { exists h, false. unfold retainImport. rewrite (deref_Some _ _ _ Hi). cbn [res_bind]. rewrite E.
    eauto using releases_refl. }
  apply orb_false_iff in E as [E1 E2].
  destruct (retainImport_lookup h m imported i j Hi Hj E1 E2) as (h' & -> & Hl). exists h', true. split; [done|].
  destruct Hinv as [[Hg Hr Hm] Hc Hcl].
  assert (forall x k', h' !! x = Some k' -> exists k, h !! x = Some k /\ k' = retained m imported x k) as Hback.
  { intros x k'. rewrite Hl. intros (k & -> & ->)%fmap_Some. eauto. }
  assert (forall a b, imports h a b -> imports h' a b) as Himp.
  { intros a b (k & Hk & Hb). exists (retained m imported a k). rewrite Hl, Hk. split; [done|].
    destruct (retained_fields m imported a k) as (_ & _ & _ & _ & -> & _). apply elem_of_app. by left. }
  assert (memoryReleased i = false) as Hireleased.
  { destruct (memoryReleased i) eqn:E; [|done]. pose proof (r_closed h Hr imported i Hi E). congruence. }
  split; [split; [split| |]|].
  - split.
    + intros x k' y (k & Hx & ->)%Hback Hy. destruct (retained_fields m imported x k) as (_ & _ & _ & _ & E & _).
      rewrite E in Hy. rewrite Hl. assert (is_Some (h !! y)) as [? ->]; [|eauto].
      apply elem_of_app in Hy as [Hy|Hy]; [by eapply (g_closed h Hg)|]. case_bool_decide; set_solver.
    + intros x y k' (k & Hy & ->)%Hback. rewrite Hl.
      destruct (retained_fields m imported y k) as (_ & _ & _ & _ & _ & ->).
      pose proof (g_count h Hg x y k Hy) as Hcount. destruct (decide (x = m)) as [->|Hxm].
      * rewrite Hj in Hcount |- *. cbn [fmap option_fmap option_map].
        destruct (retained_fields m imported m j) as (_ & _ & _ & _ & -> & _).
        rewrite (bool_decide_true (m = m)) by done. rewrite occ_app, occ_cons. cbn [occ count_occ].
        case_bool_decide as Hyi.
        -- rewrite lookup_insert_eq, Hcount, decide_True by done.
           pose proof (occ_le y (importedModules j)). unfold zlen in Hlen.
           rewrite (posopt_pos (_ + _)) by lia. f_equal. unfold wrap32.
           assert (default 0 (posopt (occ y (importedModules j))) = Z.of_nat (occ y (importedModules j))) as ->
             by (unfold posopt; destruct (Nat.eqb_spec (occ y (importedModules j)) 0) as [->|]; done).
           rewrite Z.mod_small by lia. change (occ y []) with 0%nat. lia.
        -- rewrite decide_False by done. rewrite Hcount. f_equal. change (occ y []) with 0%nat. lia.
      * assert ((if bool_decide (y = imported) then <[m:=wrap32 (default 0 (importers k !! m) + 1)]> (importers k)
          else importers k) !! x = importers k !! x) as -> by (case_bool_decide; [by rewrite lookup_insert_ne|done]).
        rewrite Hcount. destruct (h !! x) as [kx|]; [|done]. cbn.
        destruct (retained_fields m imported x kx) as (_ & _ & _ & _ & -> & _).
        rewrite bool_decide_false by done. by rewrite app_nil_r.
    + intros x k' (k & Hx & ->)%Hback. destruct (retained_fields m imported x k) as (_ & _ & _ & _ & -> & _).
      case_bool_decide as Hxm; [|rewrite app_nil_r; by eapply (g_bound h Hg)].
      subst. simplify_eq. rewrite zlen_app. change (zlen [imported]) with 1. lia.
  - split; intros x k' (k & Hx & ->)%Hback; destruct (retained_fields m imported x k) as (_ & Ec & Er & _ & Eim & Eip); rewrite Er; intros Hk.
    + rewrite Ec. by eapply (r_closed h Hr).
    + rewrite Eim, bool_decide_false, app_nil_r by (intros ->; congruence). by eapply (r_imported h Hr).
    + rewrite Eip, bool_decide_false by (intros ->; congruence). by eapply (r_importers h Hr).
  - intros x k' mem (k & Hx & ->)%Hback. destruct (retained_fields m imported x k) as (_ & _ & _ & -> & _). by eapply Hm.
  - intros x (k' & (k & Hx & ->)%Hback & Hk). destruct (retained_fields m imported x k) as (_ & E3 & E4 & _).
    rewrite E3, E4 in Hk. destruct (Hc x) as (y & ky & Ha & Hy & Hlive); [by exists k|].
    exists y, (retained m imported y ky). rewrite Hl, Hy. split_and!; [by eapply ancestor_mono|done|].
    by destruct (retained_fields m imported y ky) as (_ & -> & _).
  - intros x k' (k & Hx & ->)%Hback. destruct (retained_fields m imported x k) as (-> & -> & _). intros Hk. by apply (Hcl x k).
  - split_and!; [apply NoDup_nil_2|set_solver|]. intros x. rewrite Hl. destruct (h !! x) as [k|]; [|done]. cbn.
    destruct (retained_fields m imported x k) as (-> & _ & -> & -> & _). by rewrite orb_false_r.
Qed.

(** What [m] imports is not released while [m] is open. *)
Lemma imported_unreleased ms h m i y j :
  heap_inv ms h -> h !! m = Some i -> memoryReleased i = false -> y ∈ importedModules i -> h !! y = Some j ->
  memoryReleased j = false.
Proof.
  intros [[Hg Hr _] _ _] Hi Hrel Hy Hj. destruct (memoryReleased j) eqn:E; [|done].
  assert (is_Some (importers j !! m)) as Hs by (apply (importer_edge h y j m Hg Hj); by exists i).
  rewrite (r_importers h Hr y j Hj E) in Hs. by destruct Hs.
Qed.

Lemma new_instance_inv ms h m :
  heap_inv ms h -> h !! m = None -> heap_inv ms (<[m := mkInstance false false false ∅ [] None]> h).
Proof.
  intros [[Hg Hr Hm] Hc Hcl] Hnew. set (i := mkInstance _ _ _ _ _ _).
  assert (forall y j, <[m := i]> h !! y = Some j -> y = m /\ j = i \/ y <> m /\ h !! y = Some j) as Hback.
  { intros y j. destruct (decide (y = m)) as [->|]; [rewrite lookup_insert_eq|rewrite lookup_insert_ne by done]; naive_solver. }
  split; [split| |].
  - split.
    + intros x k y [[-> ->]|[_ Hx]]%Hback Hy; [by apply not_elem_of_nil in Hy|].
      apply lookup_insert_is_Some'. right. by eapply (g_closed h Hg).
    + intros x y k [[-> ->]|[Hne Hy]]%Hback.
      * cbn. destruct (decide (x = m)) as [->|]; [by rewrite lookup_insert_eq|].
        rewrite lookup_insert_ne by done. destruct (h !! x) as [kx|] eqn:Hx; [|done].
        unfold posopt. destruct (Nat.eqb_spec (occ m (importedModules kx)) 0); [done|].
        destruct (g_closed h Hg x kx m Hx) as [? ?]; [apply occ_pos; lia|congruence].
      * rewrite (g_count h Hg x y k Hy). destruct (decide (x = m)) as [->|]; [by rewrite lookup_insert_eq, Hnew|].
        by rewrite lookup_insert_ne.
    + intros x k [[-> ->]|[_ Hx]]%Hback; [done|by eapply (g_bound h Hg)].
  - split; intros x k [[-> ->]|[_ Hx]]%Hback; try done; intros Hk.
    + by eapply (r_closed h Hr). + by eapply (r_imported h Hr). + by eapply (r_importers h Hr).
  - intros x k mem [[-> ->]|[_ Hx]]%Hback; [done|by eapply Hm].
  - intros x (k & [[-> ->]|[_ Hx]]%Hback & Hk); [by destruct Hk|].
    destruct (Hc x) as (y & ky & Ha & Hy & Hl); [by exists k|]. exists y, ky.
    split_and!; [|rewrite lookup_insert_ne; congruence|done]. eapply ancestor_mono; [|done].
    intros a b (ka & Ha' & Hb). exists ka. split; [rewrite lookup_insert_ne; congruence|done].
  - intros x k [[-> ->]|[_ Hx]]%Hback; [done|by eapply Hcl].
Qed.
