(* ===== verification/ExecEpoch.v ===== *)
(** * The epochs of execution.go: when an allocation is freed

    An invariant of every interleaving of [BeginExecution], [EndExecution],
    [retireMemory] and the operations that create, link and close instances.
    From it: memory that guest code can reach is not freed while it runs, no
    allocation is freed twice, and when no call is in progress everything that
    was retired has been freed. *)

From S2P Require Import Prelude Execution ExecGraph.

(** ** Sums over the threads *)

Definition tsum (f : pc -> nat) (ts : gmap positive pc) : nat := map_fold (fun _ p n => f p + n)%nat 0%nat ts.

Lemma tsum_insert f ts t p p' :
  ts !! t = Some p -> (tsum f (<[t := p']> ts) + f p = tsum f ts + f p')%nat.
Proof.
  intros Ht. unfold tsum. rewrite <- (insert_delete_id ts t p Ht) at 2. rewrite <- insert_delete_eq.
  rewrite !map_fold_insert_L; try apply lookup_delete_eq; try (intros; lia).
Qed.

Lemma tsum_ge f ts t p : ts !! t = Some p -> (f p <= tsum f ts)%nat.
Proof.
  intros Ht. unfold tsum. rewrite (map_fold_delete_L _ _ t p ts); [|intros; lia|done]. lia.
Qed.

Lemma tsum_zero f ts : (forall t p, ts !! t = Some p -> f p = 0%nat) -> tsum f ts = 0%nat.
Proof.
  unfold tsum. induction ts as [|t p ts Ht IH] using map_ind; [intros; apply map_fold_empty|].
  intros H. rewrite map_fold_insert_L; [|intros; lia|done].
  rewrite (H t p) by apply lookup_insert_eq. cbn. apply IH. intros t' p' Ht'. apply (H t' p').
  rewrite lookup_insert_ne; congruence.
Qed.

(** ** The queue of sealed epochs *)

Fixpoint qseg (es : Epochs) (hd : option positive) (q : list positive) : Prop :=
  match q with
  | [] => hd = None
  | e :: q => hd = Some e /\ exists ep, es !! e = Some ep /\ qseg es (next ep) q
  end.

(** The update of an epoch outside of the queue, or of fields other than [next]. *)
Lemma qseg_insert es hd q e ep' :
  qseg es hd q -> (forall ep, e ∈ q -> es !! e = Some ep -> next ep' = next ep) -> qseg (<[e := ep']> es) hd q.
Proof.
  revert hd. induction q as [|e0 q IH]; intros hd H He; [done|]. destruct H as (-> & ep & Hep & H).
  split; [done|]. destruct (decide (e0 = e)) as [->|Hne].
  - exists ep'. rewrite lookup_insert_eq. split; [done|]. rewrite (He ep) by (left || done).
    apply IH; [done|]. intros ep0 Hin. apply He. by right.
  - exists ep. rewrite lookup_insert_ne by done. split; [done|]. apply IH; [done|]. intros ep0 Hin. apply He. by right.
Qed.

(** Appending an epoch at the tail. *)
Lemma qseg_snoc es hd q t tp e ep :
  qseg es hd (q ++ [t]) -> NoDup (q ++ [t]) -> es !! t = Some tp -> es !! e = Some ep -> next ep = None -> e ∉ q ++ [t] ->
  qseg (<[t := mkEpoch (active tp) (Some e) (retired tp)]> es) hd (q ++ [t; e]).
Proof.
  revert hd. induction q as [|e0 q IH]; intros hd H Hnd Ht He Hn Hin; cbn [app qseg] in *.
  - destruct H as (-> & ? & ? & _). split; [done|]. eexists. rewrite lookup_insert_eq. split; [done|]. cbn. split; [done|].
    exists ep. rewrite lookup_insert_ne by set_solver. done.
  - destruct H as (-> & ep0 & Hep0 & H). split; [done|]. apply NoDup_cons in Hnd as [Hnin Hnd].
    exists ep0. rewrite lookup_insert_ne by set_solver. split; [done|]. apply IH; set_solver.
Qed.

Lemma qseg_in es hd q e : qseg es hd q -> e ∈ q -> is_Some (es !! e).
Proof.
  revert hd. induction q as [|e0 q IH]; intros hd H Hin; [by apply not_elem_of_nil in Hin|].
  destruct H as (_ & ep & Hep & H). apply elem_of_cons in Hin as [->|Hin]; eauto.
Qed.

(** ** The invariant of the epochs *)

(** The threads counted in [active] of [e]. *)
Definition pins (e : positive) (p : pc) : nat :=
  match p with
  | PAdded _ e' | PConfirmed _ e' | PGuest _ e' | PEnd _ e' => if bool_decide (e' = e) then 1 else 0
  | _ => 0
  end.

(** The thread will call [collectRetiredMemory], or is in it. *)
Definition collector (g : shared) (p : pc) : Prop :=
  match p with
  | PEndCheck _ e => current g <> Some e
  | PLock _ | PCollect _ _ => True
  | _ => False
  end.

Definition holds_lock (p : pc) : bool :=
  match p with
  | PCollect _ _ | PSwap _ => true
  | _ => false
  end.

Definition thread_ok (g : shared) (q : list positive) (t : positive) (p : pc) : Prop :=
  (holds_lock p = true <-> mutex g = Some t) /\
  (match p with
  | PLoaded _ e | PAdded _ e | PEnd _ e | PEndCheck _ e => is_Some (epochs g !! e)
  | PConfirmed _ e | PGuest _ e => is_Some (epochs g !! e) /\ (current g = Some e \/ e ∈ q)
  | PRetire m => exists i, instances g !! m = Some i /\ Closed i = true
  | _ => True
  end).

(** Sealed epochs wait for somebody: a call that pins the first of them, or a
    thread that is going to collect. *)
Definition awaited (g : shared) (ts : gmap positive pc) (q : list positive) : Prop :=
  match q with
  | [] => True
  | e :: _ => (exists ep, epochs g !! e = Some ep /\ active ep <> 0) \/ exists t p, ts !! t = Some p /\ collector g p
  end.

Record queue_ok (g : shared) (q : list positive) : Prop := {
  q_seg : qseg (epochs g) (head g) q;
  q_nodup : NoDup q;
  q_tail : q <> [] -> tail g = last q;
  q_current e : current g = Some e ->
    (e ∉ q) /\ exists ep, epochs g !! e = Some ep /\ next ep = None /\ retired ep = [];
}.

Record epoch_inv (g : shared) (ts : gmap positive pc) (q : list positive) : Prop := {
  e_queue : queue_ok g q;
  e_tail_nil : q = [] -> tail g = None \/ exists t k ret, ts !! t = Some (PCollect k ret);
  e_active e ep : epochs g !! e = Some ep -> active ep = Z.of_nat (tsum (pins e) ts);
  e_threads t p : ts !! t = Some p -> thread_ok g q t p;
  e_awaited : awaited g ts q;
}.

(** A thread moves from [p] to [p']; what must be checked. *)
Lemma epoch_inv_step g ts q t p p' g' q' :
  epoch_inv g ts q -> ts !! t = Some p ->
  queue_ok g' q' ->
  (q' = [] -> tail g' = None \/ (exists k ret, p' = PCollect k ret) \/
     (q = [] /\ tail g' = tail g /\ forall k ret, p <> PCollect k ret)) ->
  (forall e ep', epochs g' !! e = Some ep' ->
     match epochs g !! e with
     | Some ep => active ep' + Z.of_nat (pins e p) = active ep + Z.of_nat (pins e p')
     | None => active ep' = 0 /\ pins e p' = 0%nat
     end) ->
  (forall t' p0, t' <> t -> ts !! t' = Some p0 -> thread_ok g q t' p0 -> thread_ok g' q' t' p0) ->
  thread_ok g' q' t p' ->
  awaited g' (<[t := p']> ts) q' ->
  epoch_inv g' (<[t := p']> ts) q'.
Proof.
  intros [Hq Htn Hact Hth Haw] Ht Hq' Htn' Hact' Hothers Hp' Haw'. split; [done| | | |done].
  - intros E. destruct (Htn' E) as [?|[(k & ret & ->)|(E' & -> & Hp)]]; [by left| |].
    + right. exists t, k, ret. by rewrite lookup_insert_eq.
    + destruct (Htn E') as [?|(t0 & k & ret & Ht0)]; [by left|]. right. exists t0, k, ret.
      rewrite lookup_insert_ne; [done|]. intros ->. rewrite Ht in Ht0. injection Ht0 as ->. by apply (Hp k ret).
  - intros e ep' He. specialize (Hact' e ep' He). pose proof (tsum_insert (pins e) ts t p p' Ht) as Hs.
    destruct (epochs g !! e) as [ep|] eqn:Hep; [rewrite (Hact e ep Hep) in Hact'; lia|].
    destruct Hact' as [-> E]. rewrite E in Hs.
    assert (tsum (pins e) ts = 0%nat); [|lia]. apply tsum_zero. intros t0 p0 Ht0.
    destruct (Hth t0 p0 Ht0) as [_ Hok].
    destruct p0; cbn in *; try done; case_bool_decide; try done; subst; rewrite Hep in Hok; by destruct Hok as [[? ?] ?] || destruct Hok.
  - intros t0 p0. destruct (decide (t0 = t)) as [->|Hne]; [rewrite lookup_insert_eq; by intros [= <-]|].
    rewrite lookup_insert_ne by done. intros Ht0. by apply (Hothers t0 p0 Hne Ht0), Hth.
Qed.

(** What one step of a thread leaves as it is for the others. *)
Record frame (g g' : shared) (q q' : list positive) : Prop := {
  fr_epochs e : is_Some (epochs g !! e) -> is_Some (epochs g' !! e);
  fr_pinned e : current g = Some e \/ e ∈ q -> current g' = Some e \/ e ∈ q';
  fr_closed m i : instances g !! m = Some i -> Closed i = true -> exists i', instances g' !! m = Some i' /\ Closed i' = true;
}.

Lemma frame_refl g q : frame g g q q.
Proof. split; eauto. Qed.

Lemma thread_ok_frame g g' q q' t p :
  frame g g' q q' -> (mutex g' = Some t <-> mutex g = Some t) -> thread_ok g q t p -> thread_ok g' q' t p.
Proof.
  intros [H1 H2 H3] Hm [Hl Hp]. split; [by rewrite Hl|].
  destruct p; try done; try (by apply H1); try (destruct Hp as [? ?]; split; [by apply H1|by apply H2]).
  destruct Hp as (i & Hi & Hc). by eapply H3.
Qed.

Lemma awaited_frame g g' ts t p p' q :
  awaited g ts q -> ts !! t = Some p ->
  (forall e ep, e ∈ q -> epochs g !! e = Some ep -> active ep <> 0 ->
     (exists ep', epochs g' !! e = Some ep' /\ active ep' <> 0) \/ collector g' p') ->
  (collector g p -> collector g' p') ->
  (forall t0 p0, ts !! t0 = Some p0 -> collector g p0 -> collector g' p0) ->
  awaited g' (<[t := p']> ts) q.
Proof.
  destruct q as [|e q]; [done|]. intros Haw Ht Hact Hp Hothers.
  assert (collector g' p' -> awaited g' (<[t := p']> ts) (e :: q)) as Hself
    by (intros Hc; right; exists t, p'; by rewrite lookup_insert_eq).
  destruct Haw as [(ep & He & Ha)|(t0 & p0 & Ht0 & Hc)].
  - destruct (Hact e ep (ltac:(left)) He Ha); [by left|by apply Hself].
  - destruct (decide (t0 = t)) as [->|Hne]; [apply Hself; simplify_eq; auto|].
    right. exists t0, p0. rewrite lookup_insert_ne by done. eauto.
Qed.

Lemma queue_ok_eq g g' q :
  epochs g' = epochs g -> head g' = head g -> tail g' = tail g -> current g' = current g -> queue_ok g q -> queue_ok g' q.
Proof. intros E1 E2 E3 E4 [H1 H2 H3 H4]. split; rewrite ?E1, ?E2, ?E3, ?E4; done. Qed.

(** A step that changes only the program point, the instances, the memories and
    the log. *)
Record same_epochs (g g' : shared) : Prop := {
  se_epochs : epochs g' = epochs g;
  se_head : head g' = head g;
  se_tail : tail g' = tail g;
  se_current : current g' = current g;
  se_mutex : mutex g' = mutex g;
  se_closed m i : instances g !! m = Some i -> Closed i = true -> exists i', instances g' !! m = Some i' /\ Closed i' = true;
}.

Lemma same_epochs_refl g : same_epochs g g.
Proof. split; eauto. Qed.

Lemma same_frame g g' q : same_epochs g g' -> frame g g' q q.
Proof. intros [E1 E2 E3 E4 E5 Hc]. split; [by rewrite E1|by rewrite E4|done]. Qed.

Lemma collector_same g g' p : current g' = current g -> collector g p -> collector g' p.
Proof. intros E. destruct p; cbn; rewrite ?E; done. Qed.

Lemma epoch_inv_pc g g' ts q t p p' :
  epoch_inv g ts q -> ts !! t = Some p -> same_epochs g g' ->
  (forall e, pins e p' = pins e p) -> holds_lock p' = holds_lock p -> (forall k ret, p <> PCollect k ret) ->
  (collector g p -> collector g' p') -> (thread_ok g' q t p -> holds_lock p = holds_lock p' -> thread_ok g' q t p') ->
  epoch_inv g' (<[t := p']> ts) q.
Proof.
  intros Hinv Ht Hsame Hpins Hl Hc Hcol Hok. pose proof (same_frame g g' q Hsame) as Hfr.
  destruct Hsame as [E1 E2 E3 E4 E5 _].
  eapply (epoch_inv_step g ts q t p p' g' q); try done.
  - apply (queue_ok_eq g); try done. apply Hinv.
  - intros ->. right. right. done.
  - intros e ep'. rewrite E1. intros ->. rewrite Hpins. done.
  - intros t' p0 _ _. apply thread_ok_frame; [done|]. by rewrite E5.
  - apply Hok; [|done]. apply (thread_ok_frame g g' q q); [done|by rewrite E5|]. by apply (e_threads g ts q Hinv).
  - apply (awaited_frame g g' ts t p p' q); try done; [apply Hinv| |].
    + intros e ep _ He Ha. left. rewrite E1. eauto.
    + intros t0 p0 _. by apply collector_same.
Qed.

(** [active] of one epoch changes with the pins of the thread. *)
Lemma queue_ok_active g q e ep n :
  queue_ok g q -> epochs g !! e = Some ep ->
  queue_ok (set_epochs (<[e := mkEpoch n (next ep) (retired ep)]> (epochs g)) g) q.
Proof.
  intros [Hs Hn Ht Hc] He. split; cbn; try done.
  - apply qseg_insert; [done|]. intros ep0 _ He0. cbn. congruence.
  - intros e0 He0. destruct (Hc e0 He0) as (Hni & ep0 & Hep0 & ? & ?). split; [done|].
    destruct (decide (e0 = e)) as [->|Hne].
    + rewrite lookup_insert_eq. eexists. split; [done|]. simplify_eq. done.
    + rewrite lookup_insert_ne by done. eauto.
Qed.

Lemma epoch_inv_active g ts q t p p' e d g' n :
  epoch_inv g ts q -> ts !! t = Some p -> addActive g e d = Ok (g', n) ->
  d + Z.of_nat (pins e p) = Z.of_nat (pins e p') -> (forall e', e' <> e -> pins e' p' = pins e' p) ->
  holds_lock p = false -> holds_lock p' = false ->
  (n = 0 -> e ∈ q -> collector g' p') -> ~ collector g p ->
  (thread_ok g' q t p -> thread_ok g' q t p') ->
  epoch_inv g' (<[t := p']> ts) q.
Proof.
  intros Hinv Ht Hadd Hpe Hpne Hl Hl' Hz Hnc Hok. unfold addActive, deref in Hadd.
  destruct (epochs g !! e) as [ep|] eqn:He; [|done]. cbn [res_bind] in Hadd. injection Hadd as <- <-.
  set (g' := set_epochs _ g) in *.
  assert (frame g g' q q) as Hfr.
  { split; cbn; [|done|eauto]. intros e0 H0. apply lookup_insert_is_Some'. by right. }
  assert (forall t0 p0, thread_ok g q t0 p0 -> thread_ok g' q t0 p0) as Hthreads
    by (intros t0 p0; by apply thread_ok_frame).
  eapply (epoch_inv_step g ts q t p p' g' q); try done.
  - apply queue_ok_active; [apply Hinv|done].
  - intros ->. right. right. split_and!; [done|done|]. by intros k ret ->.
  - intros e0 ep'. cbn. destruct (decide (e0 = e)) as [->|Hne].
    + rewrite lookup_insert_eq, He. intros [= <-]. cbn. lia.
    + rewrite lookup_insert_ne by done. intros ->. rewrite Hpne by done. done.
  - auto.
  - apply Hok, Hthreads. by apply (e_threads g ts q Hinv).
  - apply (awaited_frame g g' ts t p p' q); try done; [apply Hinv|].
    intros e0 ep0 Hin He0 Ha. cbn. destruct (decide (e0 = e)) as [->|Hne].
    + destruct (Z.eq_dec (active ep + d) 0) as [E|E]; [right; by apply Hz|].
      left. rewrite lookup_insert_eq. eexists. split; [done|]. done.
    + left. rewrite lookup_insert_ne by done. eauto.
Qed.

(** ** The steps *)

(** The first epoch: [current] was nil. *)
Lemma epoch_inv_init g ts q t m e :
  epoch_inv g ts q -> ts !! t = Some (PInit m) -> current g = None -> epochs g !! e = None ->
  epoch_inv (set_epochs (<[e := newEpoch]> (epochs g)) (set_current (Some e) g)) (<[t := PBegin m]> ts) q.
Proof.
  intros Hinv Ht Hc He. set (g' := set_epochs _ _). pose proof (e_queue g ts q Hinv) as [Hs Hn Htl _].
  assert (e ∉ q) as Heq by (intros Hin; destruct (qseg_in _ _ _ _ Hs Hin); congruence).
  assert (frame g g' q q) as Hfr.
  { split; cbn; [|intros e0 [?|?]; [congruence|by right]|eauto]. intros e0 H0. apply lookup_insert_is_Some'. by right. }
  eapply (epoch_inv_step g ts q t (PInit m) (PBegin m) g' q); try done.
  - split; cbn; [|done|done|].
    + apply qseg_insert; [done|]. done.
    + intros e0 [= <-]. split; [done|]. rewrite lookup_insert_eq. eexists. done.
  - intros ->. right. right. done.
  - intros e0 ep'. cbn. destruct (decide (e0 = e)) as [->|]; [rewrite lookup_insert_eq, He; by intros [= <-]|].
    rewrite lookup_insert_ne by done. intros ->. done.
  - intros t' p0 _ _. by apply thread_ok_frame.
  - destruct (e_threads g ts q Hinv t _ Ht) as [Hl _]. split; [exact Hl|done].
  - apply (awaited_frame g g' ts t (PInit m) (PBegin m) q); try done; [apply Hinv| |].
    + intros e0 ep _ He0 Ha. left. cbn. rewrite lookup_insert_ne by congruence. eauto.
    + intros t0 p0 Ht0 Hcol. destruct p0; try done. cbn. intros [= ->].
      destruct (e_threads g ts q Hinv t0 _ Ht0) as [_ Hok]. cbn in Hok. rewrite He in Hok. by destruct Hok.
Qed.

(** The lock is taken by a thread that does not hold it. *)
Lemma thread_ok_lock g q t t' p o :
  mutex g = None -> t' <> t -> thread_ok g q t' p -> o = None \/ o = Some t -> thread_ok (set_mutex o g) q t' p.
Proof.
  intros Hm Hne Hok Ho. apply (thread_ok_frame g (set_mutex o g) q q t' p); [split; eauto| |done]. cbn. rewrite Hm.
  destruct Ho as [->| ->]; split; congruence.
Qed.

Lemma epoch_inv_lock g ts q t p p' :
  epoch_inv g ts q -> ts !! t = Some p -> mutex g = None -> (forall e, pins e p' = pins e p) ->
  (exists k, p = PLock k /\ p' = PCollect k []) \/ (exists m ret, p = PRetire m /\ p' = PSwap ret) ->
  epoch_inv (set_mutex (Some t) g) (<[t := p']> ts) q.
Proof.
  intros Hinv Ht Hm Hpins Hp. set (g' := set_mutex _ _).
  eapply (epoch_inv_step g ts q t p p' g' q); try done.
  - apply (queue_ok_eq g); try done. apply Hinv.
  - intros ->. right. right. split_and!; [done|done|]. destruct Hp as [(k & -> & ->)|(m & ret & -> & ->)]; done.
  - intros e ep'. cbn. intros ->. rewrite Hpins. done.
  - intros t' p0 Hne _ Hok. apply (thread_ok_lock g q t); [done|done|done|by right].
  - destruct Hp as [(k & -> & ->)|(m & ret & -> & ->)]; split; done.
  - apply (awaited_frame g g' ts t p p' q); try done; [apply Hinv| | ].
    + intros e ep _ He Ha. left. eauto.
    + destruct Hp as [(k & -> & ->)|(m & ret & -> & ->)]; done.
Qed.

(** One iteration of [collectRetiredMemory]. *)
Lemma collectHead_queue g q g' l :
  queue_ok g q -> collectHead g = Ok (Some (g', l)) ->
  exists e ep q', q = e :: q' /\ epochs g !! e = Some ep /\ active ep = 0 /\ l = retired ep /\ queue_ok g' q' /\
    g' = set_queue (next ep) (tail g) (<[e := mkEpoch (active ep) None []]> (epochs g)) g.
Proof.
  intros [Hs Hn Ht Hc] H. unfold collectHead, deref in H. destruct (head g) as [e|] eqn:Hh; [|done].
  destruct (epochs g !! e) as [ep|] eqn:He; [|done]. cbn [res_bind] in H.
  destruct (Z.eqb_spec (active ep) 0) as [Ha|]; [|done]. injection H as <- <-.
  destruct q as [|e0 q]; [done|]. cbn in Hs. destruct Hs as ([= <-] & ep0 & ? & Hs). simplify_eq.
  apply NoDup_cons in Hn as [Hnin Hn]. exists e, ep0, q. split_and!; try done. split; cbn; [|done| |].
  - apply qseg_insert; [done|]. done.
  - intros Hq. rewrite Ht by done. by destruct q.
  - intros e1 He1. destruct (Hc e1 He1) as (Hni & ep1 & ? & ? & ?). split; [set_solver|].
    exists ep1. rewrite lookup_insert_ne by set_solver. done.
Qed.

Lemma epoch_inv_iter g ts q t k ret g' l :
  epoch_inv g ts q -> ts !! t = Some (PCollect k ret) -> collectHead g = Ok (Some (g', l)) ->
  exists e q', q = e :: q' /\ epoch_inv g' (<[t := PCollect k (ret ++ l)]> ts) q'.
Proof.
  intros Hinv Ht Hcol. destruct (collectHead_queue g q g' l (e_queue g ts q Hinv) Hcol)
    as (e & ep & q' & -> & He & Ha & -> & Hq' & ->). exists e, q'. split; [done|]. set (g' := set_queue _ _ _ _) in *.
  assert (tsum (pins e) ts = 0%nat) as Hzero by (pose proof (e_active _ _ _ Hinv e ep He); lia).
  eapply (epoch_inv_step g ts (e :: q') t _ _ g' q'); try done.
  - intros _. right. left. eauto.
  - intros e0 ep'. cbn. destruct (decide (e0 = e)) as [->|]; [rewrite lookup_insert_eq, He; by intros [= <-]|].
    rewrite lookup_insert_ne by done. intros ->. done.
  - intros t' p0 Hne Ht' [Hl Hok]. split; [done|]. pose proof (tsum_ge (pins e) ts t' p0 Ht') as Hge.
    assert (forall e0, is_Some (epochs g !! e0) -> is_Some (epochs g' !! e0)) as Hs
      by (intros e0 H0; cbn; apply lookup_insert_is_Some'; by right).
    assert (forall m e0, p0 = PConfirmed m e0 \/ p0 = PGuest m e0 -> e0 <> e) as Hne0
      by (intros m e0 Hp0 ->; rewrite Hzero in Hge; destruct Hp0 as [->| ->]; cbn in Hge; rewrite bool_decide_true in Hge; (done || lia)).
    destruct p0; try done; try (by apply Hs);
      (destruct Hok as [Hok [?|Hin]]; (split; [by apply Hs|]); [by left|]; right;
       apply elem_of_cons in Hin as [->|]; [exfalso; by eapply Hne0; eauto|done]).
  - apply (e_threads g ts _ Hinv t _ Ht).
  - destruct q' as [|e' q']; [done|]. right. exists t, (PCollect k (ret ++ retired ep)). by rewrite lookup_insert_eq.
Qed.

(** The loop of [collectRetiredMemory] ends. *)
Lemma epoch_inv_done g ts q t k ret :
  epoch_inv g ts q -> ts !! t = Some (PCollect k ret) -> collectHead g = Ok None ->
  epoch_inv (set_mutex None (collectDone g ret)) (<[t := PFree k ret]> ts) q.
Proof.
  intros Hinv Ht Hcol. set (g' := set_mutex _ _).
  pose proof (e_queue g ts q Hinv) as [Hs Hn Htl Hc].
  assert (epochs g' = epochs g /\ head g' = head g /\ current g' = current g /\ instances g' = instances g /\
    (q <> [] -> tail g' = tail g) /\ (q = [] -> tail g' = None)) as (E1 & E2 & E3 & E4 & E5 & E6).
  { unfold g', collectDone. destruct q as [|e q]; cbn in Hs.
    - rewrite Hs. split_and!; (done || by intros []).
    - destruct Hs as (Hh & _). rewrite Hh. done. }
  assert (frame g g' q q) as Hfr by (split; [by rewrite E1|by rewrite E3|rewrite E4; eauto]).
  assert (mutex g = Some t) as Hm by (by apply (e_threads g ts q Hinv t _ Ht)).
  eapply (epoch_inv_step g ts q t _ _ g' q); try done.
  - split; [by rewrite E1, E2|done| |by rewrite E1, E3]. intros Hq. rewrite E5 by done. by apply Htl.
  - intros Hq. left. by apply E6.
  - intros e ep'. rewrite E1. intros ->. done.
  - intros t' p0 Hne _. apply thread_ok_frame; [done|]. rewrite Hm. cbn. split; [done|congruence].
  - destruct q as [|e q]; [done|]. left. cbn in Hs. destruct Hs as (Hh & ep & He & _). exists ep. rewrite E1. split; [done|].
    unfold collectHead, deref in Hcol. rewrite Hh, He in Hcol. cbn in Hcol.
    destruct (Z.eqb_spec (active ep) 0); [done|done].
Qed.

(** ** [retireMemory] seals the current epoch *)

Record sealed (g g' : shared) (ret : list retiredMemory) (e : positive) (q : list positive) : Prop := {
  s_queue : queue_ok g' (q ++ [e]);
  s_new : (e ∉ q) /\ (current g = Some e \/ current g = None /\ epochs g !! e = None);
  s_fresh c : current g' = Some c -> epochs g !! c = None /\ exists ep, epochs g' !! c = Some ep /\ active ep = 0;
  s_sealed : exists ep, epochs g' !! e = Some ep /\ retired ep = ret /\
    active ep = match epochs g !! e with Some ep0 => active ep0 | None => 0 end;
  s_current : exists c, current g' = Some c /\ c <> e;
  s_others x : x <> e -> current g' <> Some x ->
    match epochs g !! x, epochs g' !! x with
    | Some ep, Some ep' => active ep' = active ep /\ retired ep' = retired ep
    | None, None => True
    | _, _ => False
    end;
  s_mutex : mutex g' = mutex g;
  s_rest : instances g' = instances g /\ memories g' = memories g /\ frees g' = frees g;
}.

Lemma sealEpoch_spec g q ret fresh fresh' g' :
  queue_ok g q -> (q = [] -> tail g = None) ->
  epochs g !! fresh = None -> epochs g !! fresh' = None -> fresh <> fresh' ->
  sealEpoch g ret fresh fresh' = Ok g' -> sealed g g' ret (default fresh' (current g)) q.
Proof.
  intros [Hs Hn Htl Hc] Htn Hf Hf' Hne H. set (e := default fresh' (current g)) in *.
  assert ((e ∉ q) /\ e <> fresh /\ (current g = Some e \/ current g = None /\ epochs g !! e = None)) as (Heq & Hef & Hcur).
  { unfold e. destruct (current g) as [c|] eqn:Ec; cbn.
    - destruct (Hc c eq_refl) as (? & ep & ? & _). split_and!; [done|congruence|by left].
    - split_and!; [|done|by right]. intros Hin. destruct (qseg_in _ _ _ _ Hs Hin). congruence. }
  assert (fresh ∉ q) as Hfq by (intros Hin; destruct (qseg_in _ _ _ _ Hs Hin); congruence).
  unfold sealEpoch in H. fold e in H. cbn [epochs set_epochs set_queue tail set_current head] in H.
  set (ep0 := match epochs g !! e with Some ep => ep | None => newEpoch end).
  assert (match <[fresh := newEpoch]> (epochs g) !! e with Some ep => ep | None => newEpoch end = ep0) as E0
    by (unfold ep0; by rewrite lookup_insert_ne).
  assert (next ep0 = None /\ active ep0 = match epochs g !! e with Some ep0 => active ep0 | None => 0 end) as [Hnx Hac].
  { unfold ep0. destruct Hcur as [Hcur|[_ ->]]; [|done]. by destruct (Hc e Hcur) as (_ & ep & -> & ? & _). }
  rewrite E0 in H. clear E0. set (ep1 := mkEpoch (active ep0) (next ep0) ret) in H.
  set (es := <[e := ep1]> (<[fresh := newEpoch]> (epochs g))) in H.
  assert (es !! e = Some ep1) as Ee by apply lookup_insert_eq.
  assert (es !! fresh = Some newEpoch) as Efr
    by (unfold es; rewrite lookup_insert_ne by done; apply lookup_insert_eq).
  assert (forall x, x <> e -> x <> fresh -> es !! x = epochs g !! x) as Eo
    by (intros x ? ?; unfold es; by rewrite !lookup_insert_ne by done).
  assert (qseg es (head g) q) as Hseg.
  { unfold es. apply qseg_insert; [|by intros]. apply qseg_insert; [done|by intros]. }
  destruct (decide (q = [])) as [->|Hqne].
  - rewrite (Htn eq_refl) in H. injection H as <-. split; cbn; try done.
    + split; cbn; [split; [done|eauto]|apply NoDup_singleton|done|].
      intros c [= <-]. split; [set_solver|]. exists newEpoch. done.
    + intros c [= <-]. split; [done|eauto].
    + exists ep1. split_and!; done.
    + eauto.
    + intros x Hx Hxf. rewrite Eo by congruence. by destruct (epochs g !! x).
  - rewrite (Htl Hqne) in H. destruct (exists_last Hqne) as (q0 & t & ->). rewrite last_snoc in H.
    destruct (qseg_in _ _ _ t Hs) as [tp Htp]; [set_solver|].
    assert (t <> e /\ t <> fresh) as [Hte Htf] by set_solver.
    rewrite (deref_Some es t tp) in H by (by rewrite Eo). cbn [res_bind] in H. injection H as <-.
    split; cbn; try done.
    + split; cbn.
      * rewrite <- app_assoc. apply (qseg_snoc es (head g) q0 t tp e ep1); try done. by rewrite Eo.
      * apply NoDup_app. split_and!; [done|set_solver|apply NoDup_singleton].
      * intros _. by rewrite last_snoc.
      * intros c [= <-]. split; [set_solver|]. exists newEpoch. rewrite lookup_insert_ne by done. done.
    + intros c [= <-]. split; [done|]. exists newEpoch. by rewrite lookup_insert_ne by done.
    + exists ep1. rewrite lookup_insert_ne by done. split_and!; done.
    + eauto.
    + intros x Hx Hxf. destruct (decide (x = t)) as [->|].
      * by rewrite lookup_insert_eq, Htp.
      * rewrite lookup_insert_ne, Eo by congruence. by destruct (epochs g !! x).
Qed.

Lemma epoch_inv_seal g ts q t ret g' fresh fresh' :
  epoch_inv g ts q -> ts !! t = Some (PSwap ret) ->
  epochs g !! fresh = None -> epochs g !! fresh' = None -> fresh <> fresh' ->
  sealEpoch g ret fresh fresh' = Ok g' ->
  sealed g g' ret (default fresh' (current g)) q /\
  epoch_inv g' (<[t := PCollect KReturn []]> ts) (q ++ [default fresh' (current g)]).
Proof.
  intros Hinv Ht Hf Hf' Hne H.
  assert (mutex g = Some t) as Hm by (by apply (e_threads g ts q Hinv t _ Ht)).
  assert (q = [] -> tail g = None) as Htn.
  { intros Hq. destruct (e_tail_nil g ts q Hinv Hq) as [?|(t0 & k & r & Ht0)]; [done|].
    pose proof (proj1 (e_threads g ts q Hinv t0 _ Ht0)) as Hl. cbn in Hl. rewrite Hm in Hl.
    assert (t0 = t) as -> by (destruct Hl as [Hl _]; specialize (Hl eq_refl); congruence). congruence. }
  pose proof (sealEpoch_spec g q ret fresh fresh' g' (e_queue g ts q Hinv) Htn Hf Hf' Hne H) as Hsl.
  split; [done|]. set (e := default fresh' (current g)) in *. destruct Hsl as [Hq' [Henq Hnew] Hfr Hsealed Hcur Hoth Hmut [Hin _]].
  assert (frame g g' q (q ++ [e])) as Hframe.
  { split; [|intros x [Hx|Hx]; right; set_solver by (destruct Hnew as [|[]]; congruence)|rewrite Hin; eauto].
    intros x [ep Hx]. destruct (decide (x = e)) as [->|]; [by destruct Hsealed as (? & -> & _)|].
    destruct Hcur as (c & Hc & _). destruct (decide (current g' = Some x)) as [Hcx|Hcx];
      [destruct (Hfr x Hcx); congruence|]. specialize (Hoth x n Hcx). rewrite Hx in Hoth. by destruct (epochs g' !! x). }
  eapply (epoch_inv_step g ts q t _ _ g' (q ++ [e])); try done.
  - intros Hnil. by destruct q.
  - intros x ep' Hx. cbn. destruct (decide (x = e)) as [->|Hxe].
    + destruct Hsealed as (ep1 & Hep1 & _ & Ha). rewrite Hx in Hep1. injection Hep1 as <-.
      destruct (epochs g !! e); [lia|done].
    + destruct (decide (current g' = Some x)) as [Hcx|Hcx].
      * destruct (Hfr x Hcx) as (-> & ep1 & ? & ?). split; [congruence|done].
      * specialize (Hoth x Hxe Hcx). rewrite Hx in Hoth. destruct (epochs g !! x); [|done]. destruct Hoth as [-> _]. done.
  - intros t' p0 Hne' _. apply thread_ok_frame; [done|]. by rewrite Hmut.
  - split; [|done]. by rewrite Hmut.
  - destruct (q ++ [e]); [done|]. right. exists t, (PCollect KReturn []). by rewrite lookup_insert_eq.
Qed.

(** ** The invariant of the allocations *)

Definition occM (mem : positive) (l : list retiredMemory) : nat := occ mem (memory <$> l).

Lemma occM_app mem l l' : occM mem (l ++ l') = (occM mem l + occM mem l')%nat.
Proof. unfold occM. by rewrite fmap_app, occ_app. Qed.

(** The entries a thread has in hand, and those of them that are not collected. *)
Definition entries (p : pc) : list retiredMemory :=
  match p with
  | PCollect _ l | PFree _ l | PSwap l => l
  | _ => []
  end.
Definition uncollected (p : pc) : list retiredMemory :=
  match p with
  | PCollect _ l | PSwap l => l
  | _ => []
  end.

Definition retired_of (es : Epochs) (e : positive) : list retiredMemory :=
  match es !! e with
  | Some ep => retired ep
  | None => []
  end.
Definition qentries (es : Epochs) (q : list positive) : list retiredMemory := concat (retired_of es <$> q).

Definition total (mem : positive) (g : shared) (ts : gmap positive pc) (q : list positive) : nat :=
  (occM mem (frees g) + occM mem (qentries (epochs g) q) + tsum (fun p => occM mem (entries p)) ts)%nat.
Definition waiting (mem : positive) (g : shared) (ts : gmap positive pc) (q : list positive) : nat :=
  (occM mem (qentries (epochs g) q) + tsum (fun p => occM mem (uncollected p)) ts)%nat.

Record mem_inv (g : shared) (ts : gmap positive pc) (q : list positive) : Prop := {
  m_heap : heap_inv (memories g) (instances g);
  m_owner mem o : memories g !! mem = Some o ->
    exists i, instances g !! ownerModuleEngine o = Some i /\ instanceMemory i = Some mem;
  m_once mem : (total mem g ts q <= 1)%nat;
  m_released mem : (0 < total mem g ts q)%nat -> exists o i,
    memories g !! mem = Some o /\ instances g !! ownerModuleEngine o = Some i /\ memoryReleased i = true;
  m_waiting mem o i a : memories g !! mem = Some o -> expBuffer o = Some a ->
    instances g !! ownerModuleEngine o = Some i -> memoryReleased i = true -> (0 < waiting mem g ts q)%nat;
}.

(** The instances keep their memory and their state of release. *)
Definition extends (h h' : Heap) : Prop :=
  forall x i, h !! x = Some i -> exists i', h' !! x = Some i' /\ memoryReleased i' = memoryReleased i /\
    forall mem, instanceMemory i = Some mem -> instanceMemory i' = Some mem.

Lemma extends_refl h : extends h h.
Proof. intros x i Hi. eauto. Qed.

Lemma releases_extends h h' : releases h h' [] -> extends h h'.
Proof.
  intros (_ & _ & H) x i Hi. specialize (H x). rewrite Hi in H. destruct (h' !! x) as [i'|]; [|done].
  destruct H as (_ & E1 & E2). exists i'. rewrite E1, E2, orb_false_r. eauto.
Qed.

Lemma extends_insert h x i i' :
  h !! x = Some i -> memoryReleased i' = memoryReleased i ->
  (forall mem, instanceMemory i = Some mem -> instanceMemory i' = Some mem) -> extends h (<[x := i']> h).
Proof.
  intros Hi E1 E2 y j Hj. destruct (decide (y = x)) as [->|]; [rewrite lookup_insert_eq; naive_solver|].
  rewrite lookup_insert_ne by done. eauto.
Qed.

(** The accounts are the same, and the instances may have grown. *)
Lemma mem_inv_frame g ts q g' ts' q' :
  mem_inv g ts q -> heap_inv (memories g) (instances g') -> memories g' = memories g -> extends (instances g) (instances g') ->
  (forall mem, total mem g' ts' q' = total mem g ts q) ->
  (forall mem, (waiting mem g ts q <= waiting mem g' ts' q')%nat) ->
  mem_inv g' ts' q'.
Proof.
  intros [Hh Ho H1 H2 H3] Hh' Em Hext Ht Hw. split; rewrite ?Em; [done| | | |].
  - intros mem o Hmem. destruct (Ho mem o Hmem) as (i & Hi & Hi'). destruct (Hext _ _ Hi) as (i' & ? & _ & Hm). eauto.
  - intros mem. by rewrite Ht.
  - intros mem. rewrite Ht. intros (o & i & ? & Hi & Hr)%H2. destruct (Hext _ _ Hi) as (i' & ? & E & _).
    exists o, i'. split_and!; congruence.
  - intros mem o i' a Hmem Ha Hi' Hr. destruct (Ho mem o Hmem) as (i & Hi & _).
    destruct (Hext _ _ Hi) as (i'' & Hi'' & E & _). simplify_eq. specialize (Hw mem).
    assert (0 < waiting mem g ts q)%nat by (eapply H3; [done|done|done|congruence]). lia.
Qed.

(** A step that moves no entry. *)
Lemma mem_inv_pc g ts q t p p' g' :
  mem_inv g ts q -> ts !! t = Some p -> entries p' = entries p -> uncollected p' = uncollected p ->
  heap_inv (memories g) (instances g') -> memories g' = memories g -> extends (instances g) (instances g') ->
  frees g' = frees g -> (forall e, e ∈ q -> retired_of (epochs g') e = retired_of (epochs g) e) ->
  mem_inv g' (<[t := p']> ts) q.
Proof.
  intros Hinv Ht E1 E2 Hh Hm Hext Hf Hr.
  assert (qentries (epochs g') q = qentries (epochs g) q) as Eq.
  { unfold qentries. f_equal. apply list_fmap_ext. intros k e He. apply Hr. by eapply list_elem_of_lookup_2. }
  apply (mem_inv_frame g ts q); try done; intros mem.
  - unfold total. rewrite Hf, Eq. pose proof (tsum_insert (fun p => occM mem (entries p)) ts t p p' Ht) as Hs.
    cbn in Hs. rewrite E1 in Hs. lia.
  - unfold waiting. rewrite Eq. pose proof (tsum_insert (fun p => occM mem (uncollected p)) ts t p p' Ht) as Hs.
    cbn in Hs. rewrite E2 in Hs. lia.
Qed.

(** Moving entries: the queue, the log and the hand of the thread. *)
Lemma mem_inv_move g ts q t p p' g' q' :
  mem_inv g ts q -> ts !! t = Some p -> instances g' = instances g -> memories g' = memories g ->
  (forall mem, occM mem (frees g') + occM mem (qentries (epochs g') q') + occM mem (entries p') =
               occM mem (frees g) + occM mem (qentries (epochs g) q) + occM mem (entries p))%nat ->
  (forall mem, occM mem (qentries (epochs g) q) + occM mem (uncollected p) <=
               occM mem (qentries (epochs g') q') + occM mem (uncollected p'))%nat ->
  mem_inv g' (<[t := p']> ts) q'.
Proof.
  intros Hinv Ht Ei Em Htot Hwait.
  apply (mem_inv_frame g ts q); try done; [rewrite Ei; apply Hinv|rewrite Ei; apply extends_refl| |]; intros mem.
  - unfold total. pose proof (tsum_insert (fun p => occM mem (entries p)) ts t p p' Ht) as Hs. specialize (Htot mem).
    cbn in Hs. lia.
  - unfold waiting. pose proof (tsum_insert (fun p => occM mem (uncollected p)) ts t p p' Ht) as Hs. specialize (Hwait mem).
    cbn in Hs. lia.
Qed.

Lemma qentries_insert es e ep q : e ∉ q -> qentries (<[e := ep]> es) q = qentries es q.
Proof.
  intros He. unfold qentries. f_equal. apply list_fmap_ext. intros k x Hx. unfold retired_of.
  rewrite lookup_insert_ne; [done|]. intros ->. apply He. by eapply list_elem_of_lookup_2.
Qed.

Lemma mem_inv_iter g ts q t k ret g' l e q' :
  mem_inv g ts q -> ts !! t = Some (PCollect k ret) -> queue_ok g q -> collectHead g = Ok (Some (g', l)) -> q = e :: q' ->
  mem_inv g' (<[t := PCollect k (ret ++ l)]> ts) q'.
Proof.
  intros Hinv Ht Hq Hcol ->. destruct (collectHead_queue _ _ _ _ Hq Hcol) as (e0 & ep & q0 & [= <- <-] & He & _ & -> & _ & ->).
  pose proof (NoDup_cons_1_1 _ _ (q_nodup _ _ Hq)) as Hnin.
  assert (forall mem, occM mem (qentries (epochs g) (e :: q')) = occM mem (retired ep) + occM mem (qentries (epochs g) q'))%nat as Eq.
  { intros mem. unfold qentries at 1. rewrite fmap_cons. cbn [concat]. unfold retired_of at 1. rewrite He. by rewrite occM_app. }
  apply (mem_inv_move g ts (e :: q') t (PCollect k ret)); try done; intros mem; cbn [entries uncollected frees epochs set_queue];
    rewrite Eq, qentries_insert, occM_app by done; lia.
Qed.

(** Sealing leaves the entries of the queue as they are. *)
Lemma sealed_retired g g' ret e q x :
  sealed g g' ret e q -> queue_ok g q -> x ∈ q -> retired_of (epochs g') x = retired_of (epochs g) x.
Proof.
  intros [Hq' [Henq Hnew] Hfr Hsl Hcur Hoth Hmut _] Hq Hx. unfold retired_of.
  assert (x <> e) as Hxe by set_solver. destruct (qseg_in _ _ _ x (q_seg _ _ Hq) Hx) as [ep Hep].
  assert (current g' <> Some x) as Hcx by (intros Hcx; destruct (Hfr x Hcx); congruence).
  specialize (Hoth x Hxe Hcx). rewrite Hep in Hoth |- *. destruct (epochs g' !! x); [|done]. by destruct Hoth as [_ ->].
Qed.

Lemma mem_inv_seal g ts q t ret g' e :
  mem_inv g ts q -> ts !! t = Some (PSwap ret) -> sealed g g' ret e q -> queue_ok g q ->
  mem_inv g' (<[t := PCollect KReturn []]> ts) (q ++ [e]).
Proof.
  intros Hinv Ht Hsealed Hq. pose proof Hsealed as [_ _ _ Hsl _ _ _ (Ei & Em & Ef)].
  assert (qentries (epochs g') (q ++ [e]) = qentries (epochs g) q ++ ret) as Eq.
  { unfold qentries. rewrite fmap_app, concat_app. f_equal.
    - f_equal. apply list_fmap_ext. intros k x Hx. apply list_elem_of_lookup_2 in Hx. by eapply sealed_retired.
    - cbn. unfold retired_of. destruct Hsl as (ep & -> & -> & _). by rewrite app_nil_r. }
  apply (mem_inv_move g ts q t (PSwap ret)); try done; intros mem; cbn [entries uncollected];
    rewrite Eq, occM_app, ?Ef; change (occM mem []) with 0%nat; lia.
Qed.

(** The end of a collection. *)
Lemma clearBuffer_lookup ret : forall ms mem,
  foldl clearBuffer ms ret !! mem =
    (fun o => if bool_decide (mem ∈ memory <$> ret) then mkMemoryObject (ownerModuleEngine o) None else o) <$> ms !! mem.
Proof.
  induction ret as [|r ret IH]; intros ms mem; cbn [foldl].
  { destruct (ms !! mem); [|done]. cbn. rewrite bool_decide_false; [done|]. apply not_elem_of_nil. }
  rewrite IH. unfold clearBuffer at 1. rewrite fmap_cons. destruct (decide (mem = memory r)) as [->|Hne].
  - rewrite lookup_alter_eq. destruct (ms !! memory r) as [o|]; [|done]. cbn.
    rewrite (bool_decide_true (memory r ∈ memory r :: _)) by set_solver. by case_bool_decide.
  - rewrite lookup_alter_ne by done. destruct (ms !! mem) as [o|]; [|done]. cbn.
    rewrite (bool_decide_ext (mem ∈ memory r :: _) (mem ∈ memory <$> ret)) by set_solver. done.
Qed.

Lemma heap_inv_memories ms ms' h :
  heap_inv ms h -> (forall mem, is_Some (ms !! mem) -> is_Some (ms' !! mem)) -> heap_inv ms' h.
Proof.
  intros [[Hg Hr Hm] Hc Hcl] H. split; [split|done|done]; [done|done|]. intros x i mem Hx Hmem. apply H. by eapply Hm.
Qed.

Lemma mem_inv_done g ts q t k ret :
  mem_inv g ts q -> ts !! t = Some (PCollect k ret) ->
  mem_inv (set_mutex None (collectDone g ret)) (<[t := PFree k ret]> ts) q.
Proof.
  intros [Hh Ho H1 H2 H3] Ht. set (g' := set_mutex _ _).
  assert (epochs g' = epochs g /\ instances g' = instances g /\ frees g' = frees g /\
    memories g' = foldl clearBuffer (memories g) ret) as (Ee & Ei & Ef & Em)
    by (unfold g', collectDone; destruct (head g); done).
  assert (forall mem o', memories g' !! mem = Some o' -> exists o, memories g !! mem = Some o /\
    ownerModuleEngine o' = ownerModuleEngine o /\ (expBuffer o' <> None -> expBuffer o' = expBuffer o /\ mem ∉ memory <$> ret)) as Hback.
  { intros mem o'. rewrite Em, clearBuffer_lookup. intros (o & Ho' & ->)%fmap_Some. exists o. split; [done|].
    case_bool_decide; done. }
  assert (forall mem, total mem g' (<[t := PFree k ret]> ts) q = total mem g ts q) as Htot.
  { intros mem. unfold total. rewrite Ee, Ef.
    pose proof (tsum_insert (fun p => occM mem (entries p)) ts t _ (PFree k ret) Ht) as Hs. cbn in Hs. lia. }
  split.
  - rewrite Ei. apply (heap_inv_memories (memories g)); [done|]. intros mem [o Hm]. rewrite Em, clearBuffer_lookup, Hm. eauto.
  - intros mem o' (o & Hm & -> & _)%Hback. rewrite Ei. by apply Ho.
  - intros mem. by rewrite Htot.
  - intros mem. rewrite Htot, Ei. intros (o & i & Hm & Hi)%H2. rewrite Em, clearBuffer_lookup, Hm. cbn.
    eexists _, i. split; [done|]. by case_bool_decide.
  - intros mem o' i a Hm' Ha. rewrite Ei. destruct (Hback mem o' Hm') as (o & Hm & -> & He).
    destruct He as [E Hnin]; [congruence|]. intros Hi Hr.
    assert (0 < waiting mem g ts q)%nat as Hw by (apply (H3 mem o i a); congruence).
    unfold waiting in *. rewrite Ee.
    pose proof (tsum_insert (fun p => occM mem (uncollected p)) ts t _ (PFree k ret) Ht) as Hs. cbn [uncollected] in Hs.
    assert (occM mem ret = 0%nat) as Hz; [|change (occM mem []) with 0%nat in Hs; lia].
    destruct (Nat.eq_0_gt_0_cases (occM mem ret)) as [?|Hgt]; [done|]. by apply occ_pos in Hgt.
Qed.

(** What [retireMemory] retires. *)
Lemma owned_elem h ms x r :
  r ∈ owned h ms x -> exists i o, h !! x = Some i /\ instanceMemory i = Some (memory r) /\ ms !! memory r = Some o /\
    ownerModuleEngine o = x /\ expBuffer o = Some (allocation r).
Proof.
  unfold owned. destruct (h !! x) as [i|]; [|by intros ?%not_elem_of_nil].
  destruct (instanceMemory i) as [mem|] eqn:Ei; [|by intros ?%not_elem_of_nil]. cbn.
  destruct (ms !! mem) as [o|] eqn:Eo; [|by intros ?%not_elem_of_nil]. cbn.
  destruct (expBuffer o) as [a|] eqn:Ea; [|by intros ?%not_elem_of_nil]. cbn.
  case_bool_decide; [|by intros ?%not_elem_of_nil]. intros ->%list_elem_of_singleton. exists i, o. done.
Qed.

Lemma owned_length h ms x mem : (occM mem (owned h ms x) <= 1)%nat.
Proof.
  etrans; [apply occ_le|]. rewrite length_fmap. unfold owned. repeat case_match; cbn; lia.
Qed.

Lemma occM_owned h ms R mem :
  NoDup R ->
  (occM mem (concat (owned h ms <$> R)) <= 1)%nat /\
  ((0 < occM mem (concat (owned h ms <$> R)))%nat -> exists o, ms !! mem = Some o /\ ownerModuleEngine o ∈ R).
Proof.
  induction R as [|x R IH]; intros Hnd; [split; [cbn; lia|intros H; cbn in H; lia]|].
  apply NoDup_cons in Hnd as [Hx Hnd]. destruct (IH Hnd) as [H1 H2]. rewrite fmap_cons. cbn [concat]. rewrite occM_app.
  pose proof (owned_length h ms x mem) as Hl.
  assert ((0 < occM mem (owned h ms x))%nat -> exists o, ms !! mem = Some o /\ ownerModuleEngine o = x) as Hown.
  { intros Hpos. apply occ_pos, list_elem_of_fmap in Hpos as (r & -> & Hr).
    apply owned_elem in Hr as (i & o & _ & _ & ? & ? & _). eauto. }
  split.
  - destruct (Nat.eq_0_gt_0_cases (occM mem (owned h ms x))) as [->|Hpos]; [lia|].
    destruct (Nat.eq_0_gt_0_cases (occM mem (concat (owned h ms <$> R)))) as [->|Hpos']; [lia|]. exfalso.
    destruct (Hown Hpos) as (o & Ho & <-). destruct (H2 Hpos') as (o' & Ho' & Hin). simplify_eq. done.
  - intros Hpos. destruct (Nat.eq_0_gt_0_cases (occM mem (owned h ms x))) as [E|Hpos'].
    + destruct H2 as (o & ? & ?); [lia|]. exists o. set_solver.
    + destruct (Hown Hpos') as (o & ? & <-). exists o. split; [done|left].
Qed.

Lemma occM_owned_pos h ms R mem o i a :
  ms !! mem = Some o -> expBuffer o = Some a -> ownerModuleEngine o ∈ R -> h !! ownerModuleEngine o = Some i ->
  instanceMemory i = Some mem -> (0 < occM mem (concat (owned h ms <$> R)))%nat.
Proof.
  intros Hm Ha HR Hi Hmem. apply occ_pos, list_elem_of_fmap. exists (mkRetired mem a). split; [done|].
  apply list_elem_of_In, in_concat. exists (owned h ms (ownerModuleEngine o)). split.
  - apply list_elem_of_In, list_elem_of_fmap. eauto.
  - apply list_elem_of_In. unfold owned. rewrite Hi, Hmem. cbn. rewrite Hm. cbn. rewrite Ha. cbn.
    rewrite bool_decide_true by done. left.
Qed.

Lemma mem_inv_retire g ts q t m h' R p' g' :
  mem_inv g ts q -> ts !! t = Some (PRetire m) -> heap_inv (memories g) h' -> releases (instances g) h' R ->
  entries p' = concat (owned (instances g) (memories g) <$> R) -> uncollected p' = entries p' ->
  instances g' = h' -> memories g' = memories g -> frees g' = frees g -> epochs g' = epochs g ->
  mem_inv g' (<[t := p']> ts) q.
Proof.
  intros [Hh Ho H1 H2 H3] Ht Hh' (Hnd & Hun & Hrel) Een Eun Ei Em Ef Ee.
  set (ret := concat _) in Een.
  assert (forall mem, total mem g' (<[t := p']> ts) q = total mem g ts q + occM mem ret)%nat as Htot.
  { intros mem. unfold total. rewrite Ee, Ef.
    pose proof (tsum_insert (fun p => occM mem (entries p)) ts t _ p' Ht) as Hs. cbn in Hs. rewrite Een in Hs.
    change (occM mem []) with 0%nat in Hs. lia. }
  assert (forall mem, waiting mem g' (<[t := p']> ts) q = waiting mem g ts q + occM mem ret)%nat as Hwait.
  { intros mem. unfold waiting. rewrite Ee.
    pose proof (tsum_insert (fun p => occM mem (uncollected p)) ts t _ p' Ht) as Hs. cbn in Hs. rewrite Eun, Een in Hs.
    change (occM mem []) with 0%nat in Hs. lia. }
  assert (forall x i, instances g !! x = Some i -> exists i', h' !! x = Some i' /\ instanceMemory i' = instanceMemory i /\
    memoryReleased i' = memoryReleased i || bool_decide (x ∈ R)) as Hfwd.
  { intros x i Hx. specialize (Hrel x). rewrite Hx in Hrel. destruct (h' !! x); [|done]. destruct Hrel as (_ & ? & ?). eauto. }
  assert (forall mem, (0 < occM mem ret)%nat -> exists o, memories g !! mem = Some o /\ ownerModuleEngine o ∈ R) as Hret
    by (intros mem; by apply occM_owned).
  split; rewrite ?Ei, ?Em; [done| | | |].
  - intros mem o Hm. destruct (Ho mem o Hm) as (i & Hi & Hi'). destruct (Hfwd _ _ Hi) as (i' & ? & E & _).
    exists i'. split; congruence.
  - intros mem. rewrite Htot. pose proof (proj1 (occM_owned (instances g) (memories g) R mem Hnd)) as Hle. fold ret in Hle.
    destruct (Nat.eq_0_gt_0_cases (occM mem ret)) as [->|Hpos]; [rewrite Nat.add_0_r; done|].
    destruct (Nat.eq_0_gt_0_cases (total mem g ts q)) as [->|Hpos']; [done|]. exfalso.
    destruct (Hret mem Hpos) as (o & Hm & HR). destruct (H2 mem Hpos') as (o' & i & Hm' & Hi & Hr). simplify_eq.
    destruct (Hun _ HR) as (i' & ? & ?). simplify_eq. congruence.
  - intros mem. rewrite Htot. intros Hpos. destruct (Nat.eq_0_gt_0_cases (occM mem ret)) as [E|Hpos'].
    + destruct (H2 mem) as (o & i & Hm & Hi & Hr); [lia|]. destruct (Hfwd _ _ Hi) as (i' & ? & _ & E').
      exists o, i'. rewrite E', Hr. done.
    + destruct (Hret mem Hpos') as (o & Hm & HR). destruct (Hun _ HR) as (i & Hi & _).
      destruct (Hfwd _ _ Hi) as (i' & ? & _ & E'). exists o, i'. rewrite E', bool_decide_true, orb_true_r by done. done.
  - intros mem o i' a Hm Ha Hi' Hr. rewrite Hwait. destruct (Ho mem o Hm) as (i & Hi & Hi2).
    destruct (Hfwd _ _ Hi) as (i'' & Hi'' & _ & E'). rewrite Hi' in Hi''. injection Hi'' as <-. rewrite Hr in E'.
    symmetry in E'. apply orb_true_iff in E' as [E'|E'%bool_decide_eq_true].
    + pose proof (H3 mem o i a Hm Ha Hi E'). lia.
    + pose proof (occM_owned_pos (instances g) (memories g) R mem o i a Hm Ha E' Hi Hi2) as Hp. fold ret in Hp. lia.
Qed.

(** ** Every step preserves the invariants *)

Definition exec_inv (s : state) (q : list positive) : Prop :=
  epoch_inv (sh s) (threads s) q /\ mem_inv (sh s) (threads s) q.

(** A step of the program point alone. *)
Lemma exec_inv_pc s q t p p' :
  exec_inv s q -> threads s !! t = Some p ->
  (forall e, pins e p' = pins e p) -> holds_lock p = false -> holds_lock p' = false -> entries p' = entries p ->
  (collector (sh s) p -> collector (sh s) p') ->
  (thread_ok (sh s) q t p -> thread_ok (sh s) q t p') ->
  exec_inv (go s t (sh s) p') q.
Proof.
  intros [He Hm] Ht Hpins Hl Hl' Hen Hcol Hok. split; cbn.
  - apply (epoch_inv_pc (sh s) (sh s) _ q t p p'); try done; [apply same_epochs_refl|congruence|by intros k ret ->|auto].
  - apply (mem_inv_pc (sh s) _ q t p p'); try done; [|apply Hm|apply extends_refl].
    destruct p, p'; cbn in *; try done.
Qed.

(** A step that also changes instances or memories. *)
Lemma exec_inv_env s q t g' :
  exec_inv s q -> threads s !! t = Some PIdle -> same_epochs (sh s) g' ->
  mem_inv g' (<[t := PIdle]> (threads s)) q -> exec_inv (go s t g' PIdle) q.
Proof.
  intros [He Hm] Ht Hs Hm'. split; cbn; [|done].
  by apply (epoch_inv_pc (sh s) g' _ q t PIdle PIdle).
Qed.

Lemma addActive_retired g e d g' n (q : list positive) :
  addActive g e d = Ok (g', n) ->
  instances g' = instances g /\ memories g' = memories g /\ frees g' = frees g /\
  forall x, x ∈ q -> retired_of (epochs g') x = retired_of (epochs g) x.
Proof.
  unfold addActive, deref. destruct (epochs g !! e) as [ep|] eqn:He; [|done]. cbn. intros [= <- <-].
  split_and!; try done. intros x _. unfold retired_of. cbn. destruct (decide (x = e)) as [->|].
  - by rewrite lookup_insert_eq, He.
  - by rewrite lookup_insert_ne.
Qed.

Lemma exec_inv_active s q t p p' e d g' n :
  exec_inv s q -> threads s !! t = Some p -> addActive (sh s) e d = Ok (g', n) ->
  d + Z.of_nat (pins e p) = Z.of_nat (pins e p') -> (forall e', e' <> e -> pins e' p' = pins e' p) ->
  entries p = [] -> entries p' = [] -> holds_lock p = false -> holds_lock p' = false ->
  (n = 0 -> e ∈ q -> collector g' p') -> ~ collector (sh s) p ->
  (thread_ok g' q t p -> thread_ok g' q t p') ->
  exec_inv (go s t g' p') q.
Proof.
  intros [He Hm] Ht Hadd. intros. destruct (addActive_retired _ _ _ _ _ q Hadd) as (Ei & Em & Ef & Er).
  split; cbn; [by eapply epoch_inv_active|].
  apply (mem_inv_pc (sh s) _ q t p p'); try done; [congruence| | |]; rewrite ?Ei.
  - destruct p, p'; cbn in *; try done; congruence.
  - apply Hm.
  - apply extends_refl.
Qed.

Lemma pins_resume e k : pins e (resume k) = 0%nat.
Proof. by destruct k. Qed.

Lemma thread_ok_plain g q t p p' :
  holds_lock p' = holds_lock p ->
  match p' with PIdle | PBegin _ | PInit _ | PLock _ | PFree _ _ => True | _ => False end ->
  thread_ok g q t p -> thread_ok g q t p'.
Proof. intros E Hp' [Hl _]. split; [by rewrite E|]. by destruct p'. Qed.

Lemma thread_ok_resume g q t p k : holds_lock p = false -> thread_ok g q t p -> thread_ok g q t (resume k).
Proof. intros E. apply thread_ok_plain; destruct k; done. Qed.

(** ** What a step does to the queue and to the collected entries *)

Definition collected (p : pc) : list retiredMemory :=
  match p with
  | PCollect _ l | PFree _ l => l
  | _ => []
  end.

(** The memory [mem] was taken out of the queue: it is about to be freed, or was. *)
Definition taken (s : state) (mem : positive) : Prop :=
  (exists t p, threads s !! t = Some p /\ mem ∈ memory <$> collected p) \/ mem ∈ memory <$> frees (sh s).

Definition keeps (s s' : state) (q : list positive) : Prop :=
  forall x, x ∈ q -> retired_of (epochs (sh s')) x = retired_of (epochs (sh s)) x.

Inductive moves (s s' : state) (q : list positive) : list positive -> Prop :=
| moves_same : keeps s s' q -> (forall mem, taken s' mem -> taken s mem) -> moves s s' q q
| moves_collect x q' : q = x :: q' -> tsum (pins x) (threads s) = 0%nat -> keeps s s' q' ->
    (forall mem, taken s' mem -> taken s mem \/ mem ∈ memory <$> retired_of (epochs (sh s)) x) -> moves s s' q q'
| moves_seal x : current (sh s) = Some x \/ current (sh s) = None -> keeps s s' q ->
    (forall mem, taken s' mem -> taken s mem) -> moves s s' q (q ++ [x]).

(** The thread [t] is the only one whose entries change. *)
Lemma taken_go s t g p p' (P : positive -> Prop) :
  threads s !! t = Some p ->
  (forall mem, mem ∈ memory <$> collected p' -> taken s mem \/ P mem) ->
  (forall mem, mem ∈ memory <$> frees g -> taken s mem \/ P mem) ->
  forall mem, taken (go s t g p') mem -> taken s mem \/ P mem.
Proof.
  intros Ht H1 H2 mem [(t0 & p0 & Ht0 & Hin)|Hin]; [|by apply H2]. cbn in Ht0.
  destruct (decide (t0 = t)) as [->|Hne]; [rewrite lookup_insert_eq in Ht0; injection Ht0 as <-; by apply H1|].
  rewrite lookup_insert_ne in Ht0 by done. left. left. eauto.
Qed.

Lemma moves_go s t g p p' q :
  threads s !! t = Some p -> (forall mem, mem ∈ memory <$> collected p' -> mem ∈ memory <$> collected p) ->
  frees g = frees (sh s) -> (forall x, x ∈ q -> retired_of (epochs g) x = retired_of (epochs (sh s)) x) ->
  moves s (go s t g p') q q.
Proof.
  intros Ht Hc Hf Hr. apply moves_same; [done|]. intros mem Hm.
  destruct (taken_go s t g p p' (fun _ => False) Ht) with (mem := mem) as [?|[]]; try done.
  - intros mem' Hm'. left. left. exists t, p. eauto.
  - intros mem' Hm'. left. right. by rewrite <- Hf.
Qed.

Lemma exec_step_inv t s p s' q :
  threads s !! t = Some p -> execStep t s p s' -> exec_inv s q -> exists q', exec_inv s' q' /\ moves s s' q q'.
Proof.
  intros Ht Hstep Hinv. destruct Hstep as [m Hc|m e Hc Hnew|m e Hc|m e Hc|m e g n Hadd|m e|m e i Hi|m e|k e g n Hadd|k e
    |k Hmu|k ret g l Hcol|k ret Hcol|k entry ret|k|m keys h ret Hmu Hkeys Hret|ret e e' g Hn1 Hn2 Hne Hseal].
  - exists q. split; [|by eapply moves_go]. apply (exec_inv_pc s q t (PBegin m)); try done; by apply thread_ok_plain.
  - exists q. destruct Hinv as [He Hm].
    assert (forall x, x ∈ q -> retired_of (<[e := newEpoch]> (epochs (sh s))) x = retired_of (epochs (sh s)) x) as Hr.
    { intros x Hx. unfold retired_of. rewrite lookup_insert_ne; [done|]. intros ->.
      destruct (qseg_in _ _ _ _ (q_seg _ _ (e_queue _ _ _ He)) Hx). congruence. }
    split; [split; cbn|by eapply moves_go].
    + by apply epoch_inv_init.
    + apply (mem_inv_pc (sh s) _ q t (PInit m)); try done; [apply Hm|apply extends_refl].
  - exists q. split; [|by eapply moves_go]. apply (exec_inv_pc s q t (PInit m)); try done; by apply thread_ok_plain.
  - exists q. split; [|by eapply moves_go]. apply (exec_inv_pc s q t (PBegin m)); try done. intros [Hl _]. split; [done|]. cbn.
    destruct Hinv as [He _]. destruct (q_current _ _ (e_queue _ _ _ He) e Hc) as (_ & ep & -> & _). eauto.
  - exists q. destruct (addActive_retired _ _ _ _ _ q Hadd) as (_ & _ & Ef & Er). split; [|by eapply moves_go].
    apply (exec_inv_active s q t (PLoaded m e) (PAdded m e) e 1 g n); try done; try (by intros []).
    + cbn. by rewrite bool_decide_true.
    + intros e' Hne. cbn. by rewrite bool_decide_false.
    + intros Hz _. exfalso. unfold addActive, deref in Hadd. destruct (epochs (sh s) !! e) as [ep|] eqn:He; [|done].
      cbn in Hadd. injection Hadd as <- <-. pose proof (e_active _ _ _ (proj1 Hinv) e ep He). lia.
  - exists q. case_bool_decide as Hc; (split; [|by eapply moves_go]).
    + apply (exec_inv_pc s q t (PAdded m e)); try done. intros [Hl Hok]. split; [done|]. split; [done|by left].
    + by apply (exec_inv_pc s q t (PAdded m e)).
  - exists q. destruct (Closed i); (split; [|by eapply moves_go]).
    + apply (exec_inv_pc s q t (PConfirmed m e)); try done. intros [Hl Hok]. split; [done|]. apply Hok.
    + by apply (exec_inv_pc s q t (PConfirmed m e)).
  - exists q. split; [|by eapply moves_go].
    apply (exec_inv_pc s q t (PGuest m e)); try done. intros [Hl Hok]. split; [done|]. apply Hok.
  - exists q. destruct (addActive_retired _ _ _ _ _ q Hadd) as (_ & _ & Ef & Er).
    assert (forall e', e' <> e -> pins e' (PEnd k e) = 0%nat) as Hp0
      by (intros e' Hne; cbn; by rewrite bool_decide_false).
    assert (pins e (PEnd k e) = 1%nat) as Hp1 by (cbn; by rewrite bool_decide_true).
    destruct (Z.eqb_spec n 0) as [Hz|Hz]; (split; [|by eapply moves_go; destruct k]).
    + apply (exec_inv_active s q t (PEnd k e) (PEndCheck k e) e (-1) g n); try done; try (by intros []).
      * by rewrite Hp1.
      * intros e' Hne. by rewrite Hp0.
      * intros _ Hin. cbn. destruct Hinv as [He _]. intros Hcur.
        unfold addActive, deref in Hadd. destruct (epochs (sh s) !! e); [|done]. injection Hadd as <- <-. cbn in Hcur.
        by apply (q_current _ _ (e_queue _ _ _ He) e Hcur).
    + apply (exec_inv_active s q t (PEnd k e) (resume k) e (-1) g n); try done; try (by intros []); try (by destruct k).
      * by rewrite Hp1, pins_resume.
      * intros e' Hne. by rewrite Hp0, pins_resume.
      * by apply thread_ok_resume.
  - exists q. case_bool_decide as Hc; (split; [|by eapply moves_go; destruct k]).
    + apply (exec_inv_pc s q t (PEndCheck k e)); try done; try (by destruct k); by apply thread_ok_resume.
    + apply (exec_inv_pc s q t (PEndCheck k e)); try done; by apply thread_ok_plain.
  - exists q. destruct Hinv as [He Hm]. split; [split; cbn|by eapply moves_go].
    + apply (epoch_inv_lock (sh s) _ q t (PLock k)); try done. left. eauto.
    + by apply (mem_inv_pc (sh s) _ q t (PLock k)); try done; [apply Hm|apply extends_refl].
  - destruct Hinv as [He Hm]. destruct (epoch_inv_iter _ _ _ _ _ _ _ _ He Ht Hcol) as (e & q' & Eq & He').
    destruct (collectHead_queue _ _ _ _ (e_queue _ _ _ He) Hcol) as (e0 & ep & q0 & Eq0 & Hep & Ha & -> & _ & ->).
    rewrite Eq in Eq0. injection Eq0 as <- <-. exists q'.
    split; [split; cbn; [done|eapply mem_inv_iter; [done|done|apply He|done|done]]|].
    apply (moves_collect s _ q e q' Eq).
    + pose proof (e_active _ _ _ He e ep Hep). lia.
    + intros x Hx. unfold retired_of. cbn. rewrite lookup_insert_ne; [done|]. intros ->.
      pose proof (q_nodup _ _ (e_queue _ _ _ He)) as Hnd. rewrite Eq in Hnd. by apply NoDup_cons in Hnd as [? _].
    + apply (taken_go s t _ (PCollect k ret)); [done| |intros mem Hm'; left; by right].
      intros mem. cbn [collected]. rewrite fmap_app, elem_of_app. unfold retired_of. rewrite Hep.
      intros [Hin|Hin]; [left; left; exists t, (PCollect k ret); done|by right].
  - exists q. destruct Hinv as [He Hm]. split; [split; cbn; [by apply epoch_inv_done|by apply mem_inv_done]|].
    apply (moves_go s t _ (PCollect k ret)); try done; unfold collectDone; by destruct (head (sh s)).
  - exists q. destruct Hinv as [He Hm]. split; [split; cbn|].
    + apply (epoch_inv_pc (sh s) _ _ q t (PFree k (entry :: ret))); try done. split; eauto.
    + apply (mem_inv_move (sh s) _ q t (PFree k (entry :: ret))); try done. intros mem. cbn [frees set_frees epochs entries].
      change (entry :: ret) with ([entry] ++ ret). rewrite !occM_app. lia.
    + apply moves_same; [done|]. intros mem Hm'.
      assert (forall x, x ∈ memory <$> entry :: ret -> taken s x) as Hsub by (intros x Hx; left; exists t, (PFree k (entry :: ret)); done).
      destruct (taken_go s t (set_frees (frees (sh s) ++ [entry]) (sh s)) (PFree k (entry :: ret)) (PFree k ret) (fun _ => False) Ht)
        with (mem := mem) as [?|[]]; [| |done|done].
      * intros x Hx. left. apply Hsub. cbn in Hx. rewrite fmap_cons. by right.
      * intros x. cbn. rewrite fmap_app, elem_of_app. intros [Hx|Hx]; left; [by right|]. apply Hsub. rewrite fmap_cons. set_solver.
  - exists q. split; [|by eapply moves_go; destruct k].
    apply (exec_inv_pc s q t (PFree k [])); try done; try (by destruct k); by apply thread_ok_resume.
  - exists q. destruct Hinv as [He Hm]. destruct (e_threads _ _ _ He t _ Ht) as [_ (i & Hi & Hcl)].
    destruct (retireInstances_spec keys (memories (sh s)) (instances (sh s)) m i Hkeys (m_heap _ _ _ Hm) Hi Hcl)
      as (h' & R & E & Hh' & Hrel). rewrite Hret in E. injection E as -> ->.
    assert (same_epochs (sh s) (set_instances h' (sh s))) as Hsame.
    { split; try done. cbn. intros x j Hx Hj. destruct Hrel as (_ & _ & Hrel). specialize (Hrel x). rewrite Hx in Hrel.
      destruct (h' !! x) as [j'|]; [|done]. destruct Hrel as (E & _). exists j'. split; congruence. }
    destruct (concat (owned (instances (sh s)) (memories (sh s)) <$> R)) as [|r ret] eqn:Er;
      (split; [split; cbn|by eapply moves_go]).
    + apply (epoch_inv_pc (sh s) _ _ q t (PRetire m)); try done. intros Hok _. by apply (thread_ok_plain _ _ _ (PRetire m)).
    + apply (mem_inv_retire (sh s) _ q t m h' R); try done.
    + apply (epoch_inv_lock (set_instances h' (sh s)) _ q t (PRetire m)); try done; [|right; eauto].
      rewrite <- (insert_id _ _ _ Ht). by apply (epoch_inv_pc (sh s) _ _ q t (PRetire m)).
    + apply (mem_inv_retire (sh s) _ q t m h' R); try done.
  - destruct Hinv as [He Hm]. destruct (epoch_inv_seal _ _ _ _ _ _ _ _ He Ht Hn1 Hn2 Hne Hseal) as [Hsl He'].
    eexists. split; [split; cbn; [exact He'|eapply mem_inv_seal; [done|done|done|apply He]]|].
    apply moves_seal.
    + destruct (s_new _ _ _ _ _ Hsl) as (_ & [?|[? _]]); auto.
    + intros x Hx. cbn. by apply (sealed_retired (sh s) g ret _ q x Hsl (e_queue _ _ _ He)).
    + intros mem Hm'. destruct (taken_go s t g (PSwap ret) (PCollect KReturn []) (fun _ => False) Ht) with (mem := mem) as [?|[]]; try done.
      * intros x Hx. by apply not_elem_of_nil in Hx.
      * intros x Hx. left. right. by rewrite <- (proj2 (proj2 (s_rest _ _ _ _ _ Hsl))).
Qed.

(** An open instance is not released. *)
Lemma open_unreleased ms h m i : heap_inv ms h -> h !! m = Some i -> Closed i = false -> memoryReleased i = false.
Proof.
  intros [[_ Hr _] _ Hcl] Hi Hc. destruct (memoryReleased i) eqn:E; [|done].
  pose proof (Hcl m i Hi (r_closed h Hr m i Hi E)). congruence.
Qed.

(** The instances change, without a change of what is closed or released. *)
Lemma exec_inv_instances s q t h :
  exec_inv s q -> threads s !! t = Some PIdle -> heap_inv (memories (sh s)) h -> extends (instances (sh s)) h ->
  (forall m i, instances (sh s) !! m = Some i -> Closed i = true -> exists i', h !! m = Some i' /\ Closed i' = true) ->
  exec_inv (go s t (set_instances h (sh s)) PIdle) q.
Proof.
  intros Hinv Ht Hh Hext Hcl. apply exec_inv_env; [done|done|by split|].
  by apply (mem_inv_pc (sh s) _ q t PIdle); try apply Hinv.
Qed.

Lemma closed_insert (h : Heap) m i i' :
  h !! m = Some i -> (Closed i = true -> Closed i' = true) ->
  forall x j, h !! x = Some j -> Closed j = true -> exists j', <[m := i']> h !! x = Some j' /\ Closed j' = true.
Proof.
  intros Hi Hc x j Hx Hj. destruct (decide (x = m)) as [->|]; [rewrite lookup_insert_eq|rewrite lookup_insert_ne by done; eauto].
  simplify_eq. eauto.
Qed.

Lemma exec_inv_new_memory s q t m i mem a :
  exec_inv s q -> threads s !! t = Some PIdle -> instances (sh s) !! m = Some i -> Closed i = false ->
  instanceMemory i = None -> memories (sh s) !! mem = None ->
  exec_inv (go s t (set_memories (<[mem := mkMemoryObject m a]> (memories (sh s)))
     (set_instances (<[m := set_instanceMemory (Some mem) i]> (instances (sh s))) (sh s))) PIdle) q.
Proof.
  intros Hinv Ht Hi Hcl Hnone Hnew. set (i' := set_instanceMemory (Some mem) i). set (g := sh s) in *.
  set (ms' := <[mem := _]> (memories g)). set (h' := <[m := i']> (instances g)).
  assert (heap_inv ms' (instances g)) as Hh.
  { apply (heap_inv_memories (memories g)); [apply Hinv|]. intros x Hx. apply lookup_insert_is_Some'. by right. }
  apply exec_inv_env; [done|done| |].
  { split; try done. cbn. by apply (closed_insert (instances g) m i i'). }
  destruct Hinv as [_ [Hheap Ho H1 H2 H3]]. fold g in Hheap, Ho, H1, H2, H3.
  assert (forall x o, ms' !! x = Some o -> x = mem /\ o = mkMemoryObject m a \/ x <> mem /\ memories g !! x = Some o) as Hms.
  { intros x o. unfold ms'. destruct (decide (x = mem)) as [->|]; [rewrite lookup_insert_eq|rewrite lookup_insert_ne by done]; naive_solver. }
  assert (forall x o, memories g !! x = Some o -> ownerModuleEngine o <> m) as Hown.
  { intros x o Hx E. destruct (Ho x o Hx) as (j & Hj & Hj'). rewrite E in Hj. congruence. }
  assert (forall mem0, total mem0 (set_memories ms' (set_instances h' g)) (<[t:=PIdle]> (threads s)) q = total mem0 g (threads s) q) as Htot
    by (intros mem0; unfold total; by rewrite (insert_id _ _ _ Ht)).
  split.
  - apply (heap_inv_insert ms' (instances g) m i); try done. intros x [= <-]. unfold ms'. rewrite lookup_insert_eq. eauto.
  - intros x o [[-> ->]|[Hne Hx]]%Hms; unfold h'; cbn.
    + rewrite lookup_insert_eq. eauto.
    + rewrite lookup_insert_ne by (by apply not_eq_sym, (Hown x)). by apply Ho.
  - intros x. rewrite Htot. apply H1.
  - intros x. rewrite Htot. intros (o & j & Hx & Hj)%H2. exists o, j. cbn. unfold ms', h'.
    rewrite lookup_insert_ne by congruence. rewrite lookup_insert_ne by (by apply not_eq_sym, (Hown x)). done.
  - intros x o j b Hx Hb Hj Hr. unfold waiting. rewrite (insert_id _ _ _ Ht). cbn in Hx, Hj. unfold h' in Hj.
    apply Hms in Hx as [[-> ->]|[Hne Hx]].
    + cbn in Hj. rewrite lookup_insert_eq in Hj. injection Hj as <-. cbn in Hr.
      pose proof (open_unreleased _ _ m i Hheap Hi Hcl). congruence.
    + rewrite lookup_insert_ne in Hj by (by apply not_eq_sym, (Hown x)). by eapply (H3 x o j b).
Qed.

Lemma env_step_inv t s s' q :
  threads s !! t = Some PIdle -> envStep t s s' -> exec_inv s q -> exec_inv s' q.
Proof.
  intros Ht Hstep Hinv. pose proof (m_heap _ _ _ (proj2 Hinv)) as Hh.
  destruct Hstep as [m i Hi|m i Hi|m i Hi Hcl|m Hnew|m i y h b Hmu Hi Hcl Hlen Hret|m i y j h b Hmu Hi Hcl Hy Hj Hlen Hret
    |m i mem a Hi Hcl Hnone Hnew|m i y j mem Hi Hcl Hnone Hy Hj Hmem].
  - by apply (exec_inv_pc s q t PIdle).
  - apply exec_inv_instances; try done.
    + apply (heap_inv_insert _ _ m i); try done. intros mem Hmem. by eapply (h_memory _ _ (hi_ok _ _ Hh)).
    + by apply (extends_insert _ _ i).
    + by apply (closed_insert _ m i).
  - apply (exec_inv_pc s q t PIdle); try done. intros [Hl _]. split; [done|]. cbn. eauto.
  - apply exec_inv_instances; try done.
    + by apply new_instance_inv.
    + intros x j Hx. exists j. rewrite lookup_insert_ne by congruence. done.
    + intros x j Hx Hj. exists j. rewrite lookup_insert_ne by congruence. done.
  - pose proof (open_unreleased _ _ m i Hh Hi Hcl) as Hrel.
    destruct (instances (sh s) !! y) as [iy|] eqn:Ey; [|unfold retainImport, deref in Hret; by rewrite Ey in Hret].
    destruct (retainImport_inv _ _ m y iy i Hh Ey Hi Hrel Hlen) as (h' & b' & E & Hh' & Hr). rewrite Hret in E. injection E as <- <-.
    apply exec_inv_instances; [done|done|done|by apply releases_extends|].
    intros x k Hx Hk. destruct Hr as (_ & _ & Hr). specialize (Hr x). rewrite Hx in Hr.
    destruct (h !! x) as [k'|]; [|done]. exists k'. destruct Hr as (-> & _). done.
  - pose proof (open_unreleased _ _ m i Hh Hi Hcl) as Hrel.
    pose proof (imported_unreleased _ _ m i y j Hh Hi Hrel Hy Hj) as Hrelj.
    destruct (retainImport_inv _ _ y m i j Hh Hi Hj Hrelj Hlen) as (h' & b' & E & Hh' & Hr). rewrite Hret in E. injection E as <- <-.
    apply exec_inv_instances; [done|done|done|by apply releases_extends|].
    intros x k Hx Hk. destruct Hr as (_ & _ & Hr). specialize (Hr x). rewrite Hx in Hr.
    destruct (h !! x) as [k'|]; [|done]. exists k'. destruct Hr as (-> & _). done.
  - by apply exec_inv_new_memory.
  - apply exec_inv_instances; try done.
    + apply (heap_inv_insert _ _ m i); try done. cbn. intros ? [= <-]. by eapply (h_memory _ _ (hi_ok _ _ Hh)).
    + apply (extends_insert _ _ i); try done. intros mem'. congruence.
    + by apply (closed_insert _ m i).
Qed.

Lemma initial_inv s : initial s -> exec_inv s [].
Proof.
  intros [Hs Ht]. assert (forall f : pc -> nat, f PIdle = 0%nat -> tsum f (threads s) = 0%nat) as Hz
    by (intros f Hf; apply tsum_zero; intros t p Htp; by rewrite (Ht t p Htp)).
  unfold exec_inv. rewrite Hs. split; split; cbn; try done.
  - split; cbn; [done|apply NoDup_nil_2|done|done].
  - by left.
  - intros t p Htp. rewrite (Ht t p Htp). split; done.
  - split; [split; [split|split|]|intros x (i & Hi & _)|]; repeat intro; simplify_map_eq.
  - intros mem. unfold total. rewrite Hz by done. cbn. lia.
  - intros mem. unfold total. rewrite Hz by done. cbn. lia.
Qed.

Lemma reachable_inv s : reachable s -> exists q, exec_inv s q.
Proof.
  intros (s0 & H0 & Hr). apply initial_inv in H0. assert (exists q, exec_inv s0 q) as Hinv by eauto. clear H0.
  induction Hr as [|s0 s1 s Hst _ IH]; [done|]. apply IH. destruct Hinv as [q Hq].
  destruct Hst as [t p s' Ht Hs|t s' Ht Hs]; [destruct (exec_step_inv _ _ _ _ _ Ht Hs Hq) as (q' & ? & _); eauto|].
  exists q. by eapply env_step_inv.
Qed.
