(* ===== verification/ExecSafe.v ===== *)
(** * What execution.go guarantees

    The properties of guest executions and of the release of memory, for every
    interleaving of the threads: nothing that running guest code can reach is
    freed, an instance is released exactly when nothing alive can reach it,
    nothing is freed twice, and nothing that was retired is forgotten. *)

From S2P Require Import Prelude Execution ExecGraph ExecEpoch.

(** ** A call shields what was not retired when it was pinned *)

(** The thread has confirmed its pin on [e]. *)
Definition pinned (e : positive) (p : pc) : Prop :=
  match p with
  | PConfirmed _ e' | PGuest _ e' => e' = e
  | _ => False
  end.

(** Only memories of [A] have been taken, or are ahead of [e] in the queue. *)
Record shield (A : positive -> Prop) (t e : positive) (s : state) (q : list positive) : Prop := {
  sd_inv : exec_inv s q;
  sd_pinned : exists p, threads s !! t = Some p /\ pinned e p;
  sd_taken mem : taken s mem -> A mem;
  sd_ahead q1 q2 x r : q = q1 ++ q2 -> e ∉ q1 -> x ∈ q1 -> r ∈ retired_of (epochs (sh s)) x -> A (memory r);
}.

Lemma env_step_moves t s s' q : threads s !! t = Some PIdle -> envStep t s s' -> moves s s' q q.
Proof. intros Ht Hstep. destruct Hstep; by eapply moves_go. Qed.

Lemma step_inv s s' q : step s s' -> exec_inv s q -> exists q', exec_inv s' q' /\ moves s s' q q'.
Proof.
  intros Hst Hinv. destruct Hst as [t p s' Ht Hs|t s' Ht Hs]; [by eapply exec_step_inv|].
  exists q. split; [by eapply env_step_inv|by eapply env_step_moves].
Qed.

(** A pinned epoch is counted. *)
Lemma pinned_active s q t e p : exec_inv s q -> threads s !! t = Some p -> pinned e p -> tsum (pins e) (threads s) <> 0%nat.
Proof.
  intros Hinv Ht Hp. pose proof (tsum_ge (pins e) (threads s) t p Ht) as Hge.
  destruct p; cbn in *; try done; subst; rewrite bool_decide_true in Hge by done; lia.
Qed.

Lemma shield_step A t e s s' q p' :
  shield A t e s q -> step s s' -> threads s' !! t = Some p' -> pinned e p' -> exists q', shield A t e s' q'.
Proof.
  intros [Hinv (p & Ht & Hp) Htk Hah] Hst Ht' Hp'. destruct (step_inv s s' q Hst Hinv) as (q' & Hinv' & Hmv).
  exists q'. destruct Hmv as [Hk Hm|x q' Eq Hz Hk Hm|x Hcur Hk Hm]; (split; [done|eauto| |]).
  - intros mem Hmem. by apply Htk, Hm.
  - intros q1 q2 x r Eq He Hx. rewrite Hk by set_solver. by eapply Hah.
  - intros mem [Hmem|(r & -> & Hr)%list_elem_of_fmap]%Hm; [by apply Htk|].
    apply (Hah [x] q' x r Eq); [|set_solver|done]. intros ->%list_elem_of_singleton.
    by apply (pinned_active s q t x p).
  - intros q1 q2 y r -> He Hy. rewrite Hk by set_solver. apply (Hah (x :: q1) q2 y r Eq); [|set_solver].
    intros [->|Hin]%elem_of_cons; [|done]. by apply (pinned_active s q t x p).
  - intros mem Hmem. by apply Htk, Hm.
  - intros q1 q2 y r Eq He Hy. destruct q2 as [|z q2 _] using rev_ind.
    + exfalso. apply He. rewrite app_nil_r in Eq. rewrite <- Eq.
      destruct Hinv as [Hei _]. destruct (e_threads _ _ _ Hei t p Ht) as [_ Hok].
      assert (current (sh s) = Some e \/ e ∈ q) as [Hc|Hin] by (destruct p; try done; cbn in Hp; subst; apply Hok);
        [|set_solver]. destruct Hcur as [Hcur|Hcur]; [|congruence]. assert (x = e) as -> by congruence. set_solver.
    + rewrite app_assoc in Eq. apply app_inj_tail in Eq as [-> _]. rewrite Hk by set_solver. by eapply Hah.
Qed.

(** From the moment of the pin. *)
Lemma shield_start s q t e p :
  exec_inv s q -> threads s !! t = Some p -> pinned e p ->
  shield (fun mem => (0 < total mem (sh s) (threads s) q)%nat) t e s q.
Proof.
  intros Hinv Ht Hp. split; [done|eauto| |].
  - intros mem [(t0 & p0 & Ht0 & Hin)|Hin]; unfold total.
    + pose proof (tsum_ge (fun p => occM mem (entries p)) (threads s) t0 p0 Ht0) as Hge. cbn in Hge.
      assert (0 < occM mem (entries p0))%nat; [|lia]. apply occ_pos. destruct p0; try done; by apply not_elem_of_nil in Hin.
    + apply occ_pos in Hin. unfold occM. lia.
  - intros q1 q2 x r -> _ Hx Hr. unfold total. assert (0 < occM (memory r) (qentries (epochs (sh s)) (q1 ++ q2)))%nat; [|lia].
    apply occ_pos, list_elem_of_fmap. exists r. split; [done|]. unfold qentries.
    apply list_elem_of_In, in_concat. exists (retired_of (epochs (sh s)) x). split; [|by apply list_elem_of_In].
    apply list_elem_of_In, list_elem_of_fmap. exists x. set_solver.
Qed.

(** ** What an open instance can reach is not retired *)

(** [m] reaches [x] by imports. *)
Definition reaches (h : Heap) (m x : positive) : Prop := ancestor h x m.

Lemma reaches_unreleased ms h m i x :
  heap_inv ms h -> h !! m = Some i -> memoryReleased i = false -> reaches h m x ->
  exists j, h !! x = Some j /\ memoryReleased j = false.
Proof.
  intros Hh Hi Hrel Ha. unfold reaches, ancestor in Ha. induction Ha as [|x y m (iy & Hiy & Hx) _ IH]; [eauto|].
  destruct (IH Hi) as (j & Hj & Hjr). rewrite Hiy in Hj. injection Hj as <-.
  destruct (g_closed h (h_graph _ _ (hi_ok _ _ Hh)) y iy x Hiy Hx) as [jx Hjx]. exists jx. split; [done|].
  apply (imported_unreleased ms h y iy x jx); done.
Qed.

(** The guest keeps running from [s] to [s']. *)
Inductive during (t m e : positive) : state -> state -> Prop :=
| during_refl s : during t m e s s
| during_step s s1 s' : step s s1 -> threads s1 !! t = Some (PGuest m e) -> during t m e s1 s' -> during t m e s s'.

Lemma during_shield A t m e s s' q : shield A t e s q -> during t m e s s' -> exists q', shield A t e s' q'.
Proof.
  intros Hsd Hd. revert q Hsd. induction Hd as [|s s1 s' Hst Ht _ IH]; intros q Hsd; [eauto|].
  destruct (shield_step A t e s s1 q (PGuest m e) Hsd Hst Ht eq_refl) as [q1 Hsd1]. by apply (IH q1).
Qed.

(** ** An allocation is freed once its memory has given it up *)

Definition going (s : state) (mem : positive) : Prop :=
  (exists o a, memories (sh s) !! mem = Some o /\ expBuffer o = Some a) \/
  (exists t k l, threads s !! t = Some (PFree k l) /\ mem ∈ memory <$> l) \/ mem ∈ memory <$> frees (sh s).

Lemma going_go s t g p p' mem :
  threads s !! t = Some p -> (forall k l, p = PFree k l -> l = []) ->
  (forall o a, memories (sh s) !! mem = Some o -> expBuffer o = Some a -> memories g !! mem = Some o) ->
  frees g = frees (sh s) -> going s mem -> going (go s t g p') mem.
Proof.
  intros Ht Hp Hm Hf [(o & a & Ho & Ha)|[(t0 & k & l & Ht0 & Hin)|Hin]].
  - left. exists o, a. split; [by eapply Hm|done].
  - right. left. exists t0, k, l. cbn. rewrite lookup_insert_ne; [done|]. intros <-. rewrite Ht in Ht0. injection Ht0 as ->.
    rewrite (Hp k l eq_refl) in Hin. by apply not_elem_of_nil in Hin.
  - right. right. cbn. by rewrite Hf.
Qed.

Lemma going_step s s' mem : step s s' -> going s mem -> going s' mem.
Proof.
  intros Hst Hg. destruct Hst as [t p s' Ht Hs|t s' Ht Hs].
  - destruct Hs as [| | | |m e g n Hadd| | | |k e g n Hadd| | |k ret g l Hcol|k ret Hcol|k entry ret|k|m keys h ret|ret e e' g Hn1 Hn2 Hne Hseal];
      try (by eapply going_go).
    + destruct (addActive_retired _ _ _ _ _ [] Hadd) as (_ & Em & Ef & _). eapply going_go; try done. by rewrite Em.
    + destruct (addActive_retired _ _ _ _ _ [] Hadd) as (_ & Em & Ef & _). eapply going_go; try done. by rewrite Em.
    + assert (memories g = memories (sh s) /\ frees g = frees (sh s)) as [Em Ef].
      { unfold collectHead, deref in Hcol. repeat case_match; try done. cbn in Hcol. case_match; [|done]. by simplify_eq. }
      eapply going_go; try done. by rewrite Em.
    + destruct (decide (mem ∈ memory <$> ret)) as [Hin|Hnin].
      * right. left. exists t, k, ret. cbn. by rewrite lookup_insert_eq.
      * apply (going_go s t _ (PCollect k ret)); try done; unfold collectDone; [|by destruct (head (sh s))].
        intros o a Ho Ha. destruct (head (sh s)); cbn; rewrite clearBuffer_lookup, Ho; cbn; by rewrite bool_decide_false.
    + destruct Hg as [Hg|[(t0 & k0 & l & Ht0 & Hin)|Hin]]; [by left| |].
      * destruct (decide (t0 = t)) as [->|Hne]; [|right; left; exists t0, k0, l; cbn; by rewrite lookup_insert_ne].
        rewrite Ht in Ht0. injection Ht0 as <- <-. rewrite fmap_cons in Hin. apply elem_of_cons in Hin as [->|Hin].
        -- right. right. cbn. rewrite fmap_app. set_solver.
        -- right. left. exists t, k, ret. cbn. by rewrite lookup_insert_eq.
      * right. right. cbn. rewrite fmap_app. set_solver.
    + eapply going_go; try done. by intros k' l [= _ <-].
    + destruct ret; by eapply going_go.
    + unfold sealEpoch in Hseal. eapply going_go; try done;
        (destruct (tail _); [destruct (deref _ _); cbn in Hseal|]; by simplify_eq).
  - destruct Hs as [| | | | | |m i mem' a Hi Hcl Hnone Hnew|]; try (by eapply going_go).
    eapply going_go; try done. cbn. intros o b Ho _. rewrite lookup_insert_ne by congruence. done.
Qed.

(** ** A run

    One module with a memory.  Thread 1 enters it; thread 2 closes and retires
    it; thread 1 leaves, and frees the memory. *)

Tactic Notation "env" constr(t) uconstr(c) :=
  eapply rtc_l; [eapply (step_env _ t); [reflexivity|eapply c; reflexivity]|].
Tactic Notation "exec" constr(t) uconstr(c) :=
  eapply rtc_l; [eapply (step_exec _ t); [reflexivity|eapply c; reflexivity]|].
Tactic Notation "meanwhile" tactic3(tac) := eapply during_step; [tac; vm_compute; reflexivity|vm_compute; reflexivity|].

Section Run.
Local Open Scope positive_scope.

Definition run_keys (m : gmap positive Z) : list positive := (map_to_list m).*1.

Lemma run_keys_order : range_order run_keys.
Proof. intros m. reflexivity. Qed.

Definition run_start : state := mkState (mkShared None None None None ∅ ∅ ∅ []) {[1 := PIdle; 2 := PIdle]}.
Definition run_open (p : pc) : state :=
  mkState (mkShared (Some 1) None None None {[1 := mkEpoch 1 None []]} {[1 := mkInstance false false false ∅ [] (Some 1)]}
    {[1 := mkMemoryObject 1 (Some 7)]} []) {[1 := p; 2 := PIdle]}.
Definition run_retired : state :=
  mkState (mkShared (Some 2) (Some 1) (Some 1) None {[1 := mkEpoch 1 None [mkRetired 1 7]; 2 := newEpoch]}
    {[1 := mkInstance true true true ∅ [] (Some 1)]} {[1 := mkMemoryObject 1 (Some 7)]} [])
    {[1 := PGuest 1 1; 2 := PFree KReturn []]}.
Definition run_end : state :=
  mkState (mkShared (Some 2) None None None {[1 := newEpoch; 2 := newEpoch]}
    {[1 := mkInstance true true true ∅ [] (Some 1)]} {[1 := mkMemoryObject 1 None]} [mkRetired 1 7])
    {[1 := PIdle; 2 := PIdle]}.

Lemma run_initial : initial run_start.
Proof. split; [done|]. by apply map_Forall_insert_2; [|apply map_Forall_singleton]. Qed.

Lemma run_to_open : rtc step run_start (run_open (PConfirmed 1 1)).
Proof.
  env 1 (S_new 1 run_start 1). env 1 (S_memory 1 _ 1 _ 1 (Some 7)). env 1 (S_begin 1 _ 1).
  exec 1 (B_load_nil 1 _ 1). exec 1 (B_init 1 _ 1 1). exec 1 (B_load 1 _ 1 1). exec 1 (B_add 1 _ 1 1).
  exec 1 (B_confirm 1 _ 1 1).
  match goal with |- rtc step ?a ?b => replace b with a; [apply rtc_refl|vm_compute; reflexivity] end.
Qed.

Lemma run_enters : step (run_open (PConfirmed 1 1)) (run_open (PGuest 1 1)).
Proof.
  replace (run_open (PGuest 1 1)) with (go (run_open (PConfirmed 1 1)) 1 (sh (run_open (PConfirmed 1 1))) (PGuest 1 1))
    by (vm_compute; reflexivity).
  eapply (step_exec _ 1); [reflexivity|]. apply (B_closed 1 _ 1 1 (mkInstance false false false ∅ [] (Some 1))). reflexivity.
Qed.

Lemma run_closes : during 1 1 1 (run_open (PGuest 1 1)) run_retired.
Proof.
  meanwhile (eapply (step_env _ 2); [reflexivity|eapply (S_close 2 _ 1)]).
  meanwhile (eapply (step_env _ 2); [reflexivity|eapply (S_retire 2 _ 1)]).
  meanwhile (eapply (step_exec _ 2); [reflexivity|eapply (R_lock 2 _ 1 run_keys); [|apply run_keys_order|]]).
  meanwhile (eapply (step_exec _ 2); [reflexivity|eapply (R_swap 2 _ _ 2 3); [| |done|]]).
  meanwhile (eapply (step_exec _ 2); [reflexivity|eapply (C_done 2)]).
  match goal with |- during _ _ _ ?a ?b => replace b with a; [apply during_refl|vm_compute; reflexivity] end.
Qed.

Lemma during_rtc t m e s s' : during t m e s s' -> rtc step s s'.
Proof. induction 1; [apply rtc_refl|by eapply rtc_l]. Qed.

Lemma run_finishes : rtc step run_retired run_end.
Proof.
  exec 2 (F_done 2 _ KReturn). exec 1 (G_end 1 _ 1 1). exec 1 (E_dec 1 _ KReturn 1). exec 1 (E_check 1 _ KReturn 1).
  exec 1 (E_lock 1 _ KReturn). exec 1 (C_iter 1 _ KReturn). exec 1 (C_done 1 _ KReturn). exec 1 (F_free 1 _ KReturn).
  exec 1 (F_done 1 _ KReturn).
  match goal with |- rtc step ?a ?b => replace b with a; [apply rtc_refl|vm_compute; reflexivity] end.
Qed.

Lemma run_open_reachable : reachable (run_open (PConfirmed 1 1)).
Proof. exists run_start. split; [apply run_initial|apply run_to_open]. Qed.

Lemma run_end_reachable : reachable run_end.
Proof.
  exists run_start. split; [apply run_initial|]. etrans; [apply run_to_open|]. eapply rtc_l; [apply run_enters|].
  etrans; [eapply during_rtc, run_closes|apply run_finishes].
Qed.

End Run.

(** ** Properties *)

(** C1: from the step in which [BeginExecution] finds the module open and
    returns its epoch until the call ends, in every interleaving with other
    calls, with modules being closed, instantiated and linked, the memory of
    the module and of every module it reaches by imports is not freed. *)
Theorem guest_memory_not_freed s s1 s2 t m e x mem o :
  reachable s -> threads s !! t = Some (PConfirmed m e) ->
  step s s1 -> threads s1 !! t = Some (PGuest m e) -> during t m e s1 s2 ->
  reaches (instances (sh s)) m x -> memories (sh s) !! mem = Some o -> ownerModuleEngine o = x ->
  mem ∉ memory <$> frees (sh s2).
Proof.
  intros Hr Ht Hst Ht1 Hd Hx Hmem Hown. destruct (reachable_inv s Hr) as [q Hinv].
  assert (exists i, instances (sh s) !! m = Some i /\ Closed i = false) as (i & Hi & Hopen).
  { destruct Hst as [t0 p s1 Ht0 Hs|t0 s1 Ht0 Hs].
    - destruct (decide (t0 = t)) as [->|Hne].
      + assert (p = PConfirmed m e) as -> by congruence. inversion Hs as [| | | | | |m' e' i Hi| | | | | | | | | |]; subst.
        cbn in Ht1. rewrite lookup_insert_eq in Ht1. exists i. destruct (Closed i); done.
      + exfalso. assert (threads s1 !! t = threads s !! t) as E; [|congruence].
        destruct Hs; try (cbn; by rewrite lookup_insert_ne). destruct ret; cbn; by rewrite lookup_insert_ne.
    - exfalso. assert (t0 <> t) as Hne by congruence. assert (threads s1 !! t = threads s !! t) as E; [|congruence].
      destruct Hs; cbn; by rewrite lookup_insert_ne. }
  pose proof (shield_start s q t e (PConfirmed m e) Hinv Ht eq_refl) as Hsd.
  destruct (shield_step _ t e s s1 q (PGuest m e) Hsd Hst Ht1 eq_refl) as [q1 Hsd1].
  destruct (during_shield _ t m e s1 s2 q1 Hsd1 Hd) as [q2 Hsd2].
  intros Hin. assert (taken s2 mem) as Htk%(sd_taken _ _ _ _ _ Hsd2) by (by right). cbn in Htk.
  destruct Hinv as [_ Hm]. apply (m_released _ _ _ Hm) in Htk as (o' & j & Ho' & Hj & Hrel).
  rewrite Hmem in Ho'. injection Ho' as <-. rewrite Hown in Hj.
  destruct (reaches_unreleased _ _ m i x (m_heap _ _ _ Hm) Hi (open_unreleased _ _ m i (m_heap _ _ _ Hm) Hi Hopen) Hx)
    as (j' & Hj' & Hrel'). congruence.
Qed.

Lemma guest_memory_not_freed_witness :
  (exists i, instances (sh run_retired) !! 1%positive = Some i /\ memoryReleased i = true) /\
  1%positive ∉ memory <$> frees (sh run_retired).
Proof.
  split; [eexists; split; reflexivity|].
  apply (guest_memory_not_freed (run_open (PConfirmed 1 1)) (run_open (PGuest 1 1)) run_retired 1 1 1 1 1
    (mkMemoryObject 1 (Some 7%positive))).
  - apply run_open_reachable.
  - reflexivity.
  - apply run_enters.
  - reflexivity.
  - apply run_closes.
  - apply rtc_refl.
  - reflexivity.
  - reflexivity.
Defined.

(** C28: an instance is released exactly when it is closed and every instance
    that reaches it by imports is closed. *)
Theorem released_exactly s x i :
  reachable s -> instances (sh s) !! x = Some i ->
  memoryReleased i = true <->
    memoryClosed i = true /\
    forall y j, reaches (instances (sh s)) y x -> instances (sh s) !! y = Some j -> memoryClosed j = true.
Proof.
  intros [q [_ Hm]]%reachable_inv Hi. destruct (m_heap _ _ _ Hm) as [[Hg Hr _] Hc _]. split.
  - intros Hrel. pose proof (r_closed _ Hr x i Hi Hrel) as Hcl. split; [done|]. intros y j Hy Hj.
    unfold reaches, ancestor in Hy. inversion Hy as [|? z ? Hz]; subst; [congruence|].
    apply (importer_edge _ x i z Hg Hi) in Hz. rewrite (r_importers _ Hr x i Hi Hrel) in Hz. by destruct Hz.
  - intros [Hcl Hall]. destruct (memoryReleased i) eqn:E; [done|].
    destruct (Hc x) as (y & j & Ha & Hj & Hlive); [by exists i|]. pose proof (Hall y j Ha Hj). congruence.
Qed.

Lemma released_exactly_witness :
  memoryClosed (mkInstance true true true ∅ [] (Some 1%positive)) = true /\
  forall y j, reaches (instances (sh run_end)) y 1 -> instances (sh run_end) !! y = Some j -> memoryClosed j = true.
Proof.
  apply (released_exactly run_end 1 (mkInstance true true true ∅ [] (Some 1%positive)) run_end_reachable); reflexivity.
Defined.

(** no allocation is freed twice, whatever the order in which modules are
    closed and calls end. *)
Theorem freed_at_most_once s : reachable s -> NoDup (memory <$> frees (sh s)).
Proof.
  intros [q [_ Hm]]%reachable_inv. apply NoDup_ListNoDup, (NoDup_count_occ Pos.eq_dec). intros mem.
  pose proof (m_once _ _ _ Hm mem) as H. unfold total, occM, occ in H. lia.
Qed.

Lemma freed_at_most_once_witness : NoDup (memory <$> frees (sh run_end)) /\ frees (sh run_end) = [mkRetired 1 7].
Proof. split; [apply (freed_at_most_once run_end run_end_reachable)|reflexivity]. Defined.

(** C29: when no call is in progress, every epoch that was sealed has been
    collected, and the memory of every released instance has given up its
    allocation, which has been freed if there ever was one: no collection is
    lost in a race between the end of a call and a close. *)
Theorem quiescent_all_freed s :
  reachable s -> map_Forall (fun _ p => p = PIdle) (threads s) ->
  head (sh s) = None /\ tail (sh s) = None /\
  forall mem o i, memories (sh s) !! mem = Some o -> instances (sh s) !! ownerModuleEngine o = Some i ->
    memoryReleased i = true -> expBuffer o = None /\
    forall s0 o0 a, rtc step s0 s -> memories (sh s0) !! mem = Some o0 -> expBuffer o0 = Some a ->
      mem ∈ memory <$> frees (sh s).
Proof.
  intros [q [He Hm]]%reachable_inv Hidle.
  assert (forall f : pc -> nat, f PIdle = 0%nat -> tsum f (threads s) = 0%nat) as Hz
    by (intros f Hf; apply tsum_zero; intros t p Htp; by rewrite (Hidle t p Htp)).
  destruct q as [|e q].
  - pose proof (q_seg _ _ (e_queue _ _ _ He)) as Hs. cbn in Hs. split_and!; [done| |].
    + destruct (e_tail_nil _ _ _ He eq_refl) as [?|(t & k & ret & Ht)]; [done|]. by apply Hidle in Ht.
    + intros mem o i Hmem Hi Hr. assert (expBuffer o = None) as Hnone.
      { destruct (expBuffer o) as [a|] eqn:Ha; [|done]. exfalso.
        pose proof (m_waiting _ _ _ Hm mem o i a Hmem Ha Hi Hr) as Hw. unfold waiting in Hw. rewrite Hz in Hw by done.
        cbn in Hw. lia. }
      split; [done|]. intros s0 o0 a Hrun Hmem0 Ha0. assert (going s0 mem) as Hg by (left; eauto).
      assert (going s mem) as [(o' & a' & Ho' & Ha')|[(t & k & l & Ht & _)|Hin]]; [|congruence| |done].
      * clear -Hrun Hg. induction Hrun as [|s0 s1 s Hst _ IH]; [done|]. by apply IH, (going_step s0).
      * by apply Hidle in Ht.
  - exfalso. destruct (e_awaited _ _ _ He) as [(ep & Hep & Ha)|(t & p & Ht & Hc)].
    + pose proof (e_active _ _ _ He e ep Hep) as E. rewrite Hz in E by done. cbn in E. lia.
    + apply Hidle in Ht. by subst.
Qed.

Lemma quiescent_all_freed_witness : 1%positive ∈ memory <$> frees (sh run_end).
Proof.
  refine (proj2 (proj2 (proj2 (quiescent_all_freed run_end run_end_reachable _)) 1%positive (mkMemoryObject 1 None)
    (mkInstance true true true ∅ [] (Some 1%positive)) _ _ _) run_retired (mkMemoryObject 1 (Some 7%positive)) 7%positive _ _ _);
    [|reflexivity|reflexivity|reflexivity|apply run_finishes|reflexivity|reflexivity].
  by apply map_Forall_insert_2; [|apply map_Forall_singleton].
Defined.
