(* ===== verification/TypeIDs.v ===== *)
(** * Function type identifiers (src/internal/wasm/store.go, module.go)

    A store numbers function types: [call_indirect] and the table lookups of
    the host compare numbers instead of types, so that two types must have the
    same number exactly when they are the same type.  The number is found in a
    map under a string key, built from the signature with each concrete
    reference replaced by the number of the type it refers to.

    [FunctionType.key] keeps its result in the [string] field of the type; the
    types of a module are therefore [cachedType]s here, and the operations give
    them back with the field filled in.  [getFunctionTypeIDByKey] has two
    critical sections, [readSection] and [writeSection], which other
    goroutines may come between: [istep] is the interleaving. *)

From Stdlib Require Import Ascii.
From stdpp Require Import pretty.
From S2P Require Import Prelude Leb128 Features Opcodes Types ValStack.

(** ** Keys *)

Record cachedType := mkCachedType { theType : FunctionType; keyString : string }.

(** The text of a list of types, and of a signature, with [name] for a value type. *)
Definition names (name : ValueType -> string) (l : list ValueType) : string :=
  foldr (fun v r => name v +:+ r) "" l.

Definition recSuffix (ft : FunctionType) : string :=
  if RecGroupSize ft >? 1
  then "|rec" +:+ pretty (RecGroupPosition ft) +:+ "/" +:+ pretty (RecGroupSize ft) else "".

Definition signatureText (name : ValueType -> string) (ft : FunctionType) : string :=
  names name (Params ft) +:+ (if zlen (Params ft) =? 0 then "v_" else "_")
  +:+ names name (Results ft) +:+ (if zlen (Results ft) =? 0 then "v" else "")
  +:+ recSuffix ft.

Definition key (c : cachedType) : string * cachedType :=
  if negb (String.eqb (keyString c) "") then (keyString c, c)
  else let ret := signatureText ValueTypeName (theType c) in
       (ret, mkCachedType (theType c) ret).

Definition structuralValueTypeName (typeIDs : list Z) (vt : ValueType) : string :=
  match (if IsConcreteRef vt then zlookup typeIDs (TypeIndex vt) else None) with
  | Some id =>
      if IsNullable vt then "(ref null tid=" +:+ pretty id +:+ ")"
      else "(ref tid=" +:+ pretty id +:+ ")"
  | None => ValueTypeName vt
  end.

Definition structuralTypeKey (c : cachedType) (typeIDs : list Z) : string * cachedType :=
  let ft := theType c in
  if negb (existsb IsConcreteRef (Params ft)) && negb (existsb IsConcreteRef (Results ft)) then key c
  else (signatureText (structuralValueTypeName typeIDs) ft, c).

(** ** The map of a store *)

Record typeStore := mkTypeStore { typeIDs : option (gmap string Z); functionMaxTypes : Z }.

Definition maximumFunctionTypes : Z := Z.shiftl 1 27.
Definition newTypeStore : typeStore := mkTypeStore (Some ∅) maximumFunctionTypes.
Definition closeTypes (s : typeStore) : typeStore := mkTypeStore None (functionMaxTypes s).

(** The section under the read lock: the number of the key, if it has one. *)
Definition readSection (s : typeStore) (k : string) : res (option Z) :=
  match typeIDs s with
  | None => Err "store closed"
  | Some m => Ok (m !! k)
  end.

(** The section under the write lock. *)
Definition writeSection (s : typeStore) (k : string) : typeStore * res Z :=
  match typeIDs s with
  | None => (s, Err "store closed")
  | Some m =>
      match m !! k with
      | Some id => (s, Ok id)
      | None =>
          let l := Z.of_nat (size m) in
          if wrap32 l >=? functionMaxTypes s then (s, Err "too many function types in a store")
          else let id := wrap32 l in
               (mkTypeStore (Some (<[k := id]> m)) (functionMaxTypes s), Ok id)
      end
  end.

Definition getFunctionTypeIDByKey (s : typeStore) (k : string) : typeStore * res Z :=
  match readSection s k with
  | Ok (Some id) => (s, Ok id)
  | Ok None => writeSection s k
  | Err e => (s, Err e)
  | Panic e => (s, Panic e)
  end.

Definition GetFunctionTypeID (s : typeStore) (c : cachedType) : typeStore * cachedType * res Z :=
  let (k, c') := key c in
  let (s', r) := getFunctionTypeIDByKey s k in (s', c', r).

(** The loop of [GetFunctionTypeIDs]: [ts] is what is left from index [i] on. *)
Fixpoint typeIDsLoop (s : typeStore) (ts : list cachedType) (ret : list Z) (i : nat)
    : typeStore * list cachedType * res (list Z) :=
  match ts with
  | [] => (s, [], Ok ret)
  | c :: ts' =>
      let (k, c') := structuralTypeKey c ret in
      let (s1, r) := getFunctionTypeIDByKey s k in
      match r with
      | Ok id =>
          let '(s2, ts2, r2) := typeIDsLoop s1 ts' (<[i := id]> ret) (S i) in
          (s2, c' :: ts2, r2)
      | Err e => (s1, c' :: ts', Err e)
      | Panic e => (s1, c' :: ts', Panic e)
      end
  end.

Definition GetFunctionTypeIDs (s : typeStore) (ts : list cachedType)
    : typeStore * list cachedType * res (list Z) :=
  typeIDsLoop s ts (replicate (length ts) 0) 0.

(** [decodeFunctionType] calls [key] when the parameters and results are
    known; [decodeTypeSection] sets the position in the rec group afterwards. *)
Definition decodedType (ft : FunctionType) : cachedType :=
  mkCachedType ft (fst (key (mkCachedType
    (mkFunctionType (Params ft) (Results ft) 0 0 0 0) ""))).

(** ** Keys are injective *)

Lemma string_app_cons c (a b : string) : String.String c a +:+ b = String.String c (a +:+ b).
Proof. reflexivity. Qed.

Lemma string_app_assoc (a b c : string) : (a +:+ b) +:+ c = a +:+ (b +:+ c).
Proof. induction a as [|x a IH]; [done|]. rewrite !string_app_cons. by rewrite IH. Qed.

Lemma string_app_nil (a : string) : a +:+ "" = a.
Proof. induction a as [|x a IH]; [done|]. rewrite !string_app_cons. by rewrite IH. Qed.

Definition is_digit (c : Ascii.ascii) : bool :=
  existsb (Ascii.eqb c) ["0"; "1"; "2"; "3"; "4"; "5"; "6"; "7"; "8"; "9"]%char.

Fixpoint digits (s : string) : bool :=
  match s with
  | String.EmptyString => true
  | String.String c s' => is_digit c && digits s'
  end.

Lemma pretty_N_go_digits x s : digits s = true -> digits (pretty_N_go x s) = true.
Proof.
  revert s. induction (N.lt_wf_0 x) as [x _ IH]; intros s Hs.
  destruct (decide (x = 0)%N) as [->|Hx]; [by rewrite pretty_N_go_0|].
  rewrite pretty_N_go_step by lia. apply IH; [apply N.div_lt; lia|]. cbn [digits]. rewrite Hs, andb_true_r.
  assert (forall c, c ∈ ["0"; "1"; "2"; "3"; "4"; "5"; "6"; "7"; "8"; "9"]%char -> is_digit c = true) as D.
  { intros c Hc. apply existsb_exists. exists c. split; [by apply list_elem_of_In|apply Ascii.eqb_refl]. }
  apply D. unfold pretty_N_char. repeat case_match; set_solver.
Qed.

Lemma pretty_digits z : 0 <= z -> digits (pretty z) = true.
Proof.
  destruct z as [|p|p]; intros H; [done| |lia].
  change (digits (pretty_N_go (N.pos p) "") = true). by apply pretty_N_go_digits.
Qed.

Lemma digits_app_inj a : forall b c r r', is_digit c = false -> digits a = true -> digits b = true ->
  a +:+ String.String c r = b +:+ String.String c r' -> a = b /\ r = r'.
Proof.
  assert (forall x, "" +:+ x = x) as N by done.
  induction a as [|x a IH]; intros [|y b] c r r' Hc Ha Hb E; rewrite ?string_app_cons, ?N in E;
    cbn [digits] in *; bools; simplify_eq; try congruence.
  - done.
  - destruct (IH b c r r') as [-> ->]; done.
Qed.

(** A value type with the index of a concrete reference replaced by the number
    of its type, and its text. *)
Definition substID (ids : list Z) (t : valtype) : valtype :=
  match t with
  | TRef n (HIdx i) => TRef n (HIdx (default 0 (zlookup ids i)))
  | t => t
  end.

Definition tokenText (t : valtype) : string :=
  match t with
  | TRef n (HIdx id) => (if n then "(ref null tid=" else "(ref tid=") +:+ pretty id +:+ ")"
  | t => ValueTypeName (pack t)
  end.

Definition token_ok (t : valtype) : Prop := forall i, vt_index t = Some i -> 0 <= i.

Lemma token_app_inj a b r r' : token_ok a -> token_ok b ->
  tokenText a +:+ r = tokenText b +:+ r' -> a = b /\ r = r'.
Proof.
  intros Ha Hb. destruct a as [| | | | |n [| | |i]], b as [| | | | |n' [| | |j]]; try destruct n; try destruct n';
    intros E; try (lazy in E; simplify_eq; done).
  all: unfold tokenText in E; rewrite !string_app_assoc in E; apply (inj (String.append _)) in E;
    apply digits_app_inj in E as [E ->];
    [|done|apply pretty_digits, Ha; done|apply pretty_digits, Hb; done]; by apply (inj pretty) in E as ->.
Qed.

(** A text after a list of tokens starts with none of their first letters. *)
Lemma token_not_sep t c r r' : token_ok t -> c = "_"%char -> tokenText t +:+ r <> String.String c r'.
Proof.
  intros _ ->. destruct t as [| | | | |n [| | |i]]; try destruct n; vm_compute; congruence.
Qed.

Lemma token_not_v t c r r' : token_ok t -> c = "_"%char \/ c = "|"%char ->
  tokenText t +:+ r <> String.String "v" (String.String c r').
Proof.
  intros _ [-> | ->]; destruct t as [| | | | |n [| | |i]]; try destruct n; vm_compute; congruence.
Qed.

Lemma params_app_inj l : forall l' r r', Forall token_ok l -> Forall token_ok l' ->
  foldr (fun t s => tokenText t +:+ s) (String.String "_" r) l =
  foldr (fun t s => tokenText t +:+ s) (String.String "_" r') l' -> l = l' /\ r = r'.
Proof.
  induction l as [|t l IH]; intros [|t' l'] r r' Hl Hl' E; simpl in E;
    try inversion Hl; try inversion Hl'; subst.
  - by simplify_eq.
  - by apply symmetry, token_not_sep in E.
  - by apply token_not_sep in E.
  - apply token_app_inj in E as [-> E]; try done. destruct (IH l' r r') as [-> ->]; done.
Qed.

Lemma results_inj l : forall l', Forall token_ok l -> Forall token_ok l' ->
  foldr (fun t s => tokenText t +:+ s) "" l = foldr (fun t s => tokenText t +:+ s) "" l' -> l = l'.
Proof.
  assert (forall t r, tokenText t +:+ r <> "") as N.
  { intros t r. destruct t as [| | | | |n [| | |i]]; try destruct n; vm_compute; congruence. }
  induction l as [|t l IH]; intros [|t' l'] Hl Hl' E; simpl in E;
    try inversion Hl; try inversion Hl'; subst.
  - done.
  - by apply symmetry, N in E.
  - by apply N in E.
  - apply token_app_inj in E as [-> E]; try done. by rewrite (IH l').
Qed.

(** The text of a standalone signature determines its lists of tokens. *)
Definition tokensText (ps rs : list valtype) : string :=
  foldr (fun t s => tokenText t +:+ s) "" ps +:+ (if zlen ps =? 0 then "v_" else "_")
  +:+ foldr (fun t s => tokenText t +:+ s) "" rs +:+ (if zlen rs =? 0 then "v" else "").

Lemma foldr_text_app l r :
  foldr (fun t s => tokenText t +:+ s) "" l +:+ r = foldr (fun t s => tokenText t +:+ s) r l.
Proof. induction l as [|t l IH]; [done|]. simpl. by rewrite string_app_assoc, IH. Qed.

Lemma results_end_inj rs rs' : Forall token_ok rs -> Forall token_ok rs' ->
  foldr (fun t s => tokenText t +:+ s) "" rs +:+ (if zlen rs =? 0 then "v" else "") =
  foldr (fun t s => tokenText t +:+ s) "" rs' +:+ (if zlen rs' =? 0 then "v" else "") -> rs = rs'.
Proof.
  assert (forall t r, tokenText t +:+ r <> "v") as N.
  { intros t r. destruct t as [| | | | |n [| | |i]]; try destruct n; vm_compute; congruence. }
  intros Hr Hr'. destruct rs as [|t rs], rs' as [|t' rs']; try done;
    change (zlen (@nil valtype) =? 0) with true; rewrite ?zlen_cons.
  - rewrite (proj2 (Z.eqb_neq _ 0)) by (pose proof (zlen_nonneg rs'); lia). rewrite string_app_nil.
    intros E%symmetry%N. done.
  - rewrite (proj2 (Z.eqb_neq _ 0)) by (pose proof (zlen_nonneg rs); lia). rewrite string_app_nil.
    intros E%N. done.
  - rewrite !(proj2 (Z.eqb_neq _ 0)) by (pose proof (zlen_nonneg rs); pose proof (zlen_nonneg rs'); lia).
    rewrite !string_app_nil. by apply results_inj.
Qed.

Lemma tokensText_inj ps rs ps' rs' :
  Forall token_ok ps -> Forall token_ok rs -> Forall token_ok ps' -> Forall token_ok rs' ->
  tokensText ps rs = tokensText ps' rs' -> ps = ps' /\ rs = rs'.
Proof.
  intros Hp Hr Hp' Hr'. unfold tokensText. rewrite !(foldr_text_app ps), !(foldr_text_app ps').
  set (R := foldr _ "" rs +:+ _). set (R' := foldr _ "" rs' +:+ _). intros E.
  assert (ps = ps' /\ R = R') as [-> ER]; [|split; [done|by apply results_end_inj]].
  destruct ps as [|t ps], ps' as [|t' ps']; change (zlen (@nil valtype) =? 0) with true in E; rewrite ?zlen_cons in E;
    rewrite ?(proj2 (Z.eqb_neq (1 + zlen ps) 0)) in E by (pose proof (zlen_nonneg ps); lia);
    rewrite ?(proj2 (Z.eqb_neq (1 + zlen ps') 0)) in E by (pose proof (zlen_nonneg ps'); lia).
  - cbn [foldr] in E. by apply (inj (String.append _)) in E.
  - cbn [foldr] in E. inversion Hp'; subst. apply symmetry, token_not_v in E; [done|done|by left].
  - cbn [foldr] in E. inversion Hp; subst. apply token_not_v in E; [done|done|by left].
  - by apply (params_app_inj (t :: ps) (t' :: ps')).
Qed.

(** ** Types without rec groups

    [backward t v]: [v] is a value type whose concrete reference, if it is one,
    is to an index below [t]; [decodeTypeSection] refuses other references
    outside rec groups. *)

Definition backward (t : Z) (v : ValueType) : Prop :=
  exists a, v = pack a /\ valid_vt a /\ forall i, vt_index a = Some i -> i < t.

Record standalone (ts : list FunctionType) : Prop := {
  sa_len : zlen ts < 2 ^ 32;
  sa_rec : forall t ft, zlookup ts t = Some ft -> 0 <= RecGroupSize ft <= 1;
  sa_refs : forall t ft, zlookup ts t = Some ft ->
    Forall (backward t) (Params ft) /\ Forall (backward t) (Results ft);
}.

Definition back_tok (t : Z) (a : valtype) : Prop := valid_vt a /\ forall i, vt_index a = Some i -> i < t.

Lemma backward_tokens t l : Forall (backward t) l -> exists l', l = map pack l' /\ Forall (back_tok t) l'.
Proof.
  induction 1 as [|v l (a & -> & Ha & Hi) Hl (l' & -> & IH)]; [by exists []|].
  exists (a :: l'). split; [done|]. by constructor.
Qed.

Lemma concrete_pack a : valid_vt a -> IsConcreteRef (pack a) = bool_decide (is_Some (vt_index a)).
Proof. intros Ha. by destruct (pack_accessors a Ha) as (_ & _ & ? & _). Qed.

Lemma back_tok_refs t a : back_tok t a -> IsConcreteRef (pack a) = true -> TypeIndex (pack a) < t.
Proof.
  intros [Hv Hb] Hc. rewrite concrete_pack in Hc by done. apply bool_decide_eq_true in Hc as [i Hi].
  destruct (pack_accessors a Hv) as (_ & _ & _ & Ht & _). rewrite (Ht i Hi). auto.
Qed.

Lemma refs_of_backward t l : Forall (backward t) l -> refs_in_range t l.
Proof.
  intros H. unfold refs_in_range. eapply Forall_impl; [exact H|]. intros v (a & -> & Hv & Hb) Hc.
  by apply back_tok_refs.
Qed.

Lemma standalone_wf ts : standalone ts -> wf_types ts.
Proof.
  intros Hs. split.
  - apply Hs.
  - intros t ft L. destruct (sa_refs ts Hs t ft L) as [Hp Hr]. pose proof (zlookup_Some_lt _ _ _ L).
    split; eapply Forall_impl; try (apply refs_of_backward; done); simpl; intros v Hv Hc; specialize (Hv Hc); lia.
  - intros t ft L. pose proof (sa_rec ts Hs t ft L). lia.
  - intros t ft L. pose proof (sa_rec ts Hs t ft L). lia.
  - intros t ft i L. pose proof (sa_rec ts Hs t ft L). lia.
Qed.

Lemma zlookup_nonneg_Some {A} (l : list A) i : 0 <= i -> zlookup l i = l !! Z.to_nat i.
Proof. intros H. unfold zlookup. by rewrite (proj2 (Z.leb_le _ _)). Qed.

Lemma structuralName_token ids t a : t <= zlen ids -> back_tok t a ->
  structuralValueTypeName ids (pack a) = tokenText (substID ids a).
Proof.
  intros Hl [Hv Hb]. unfold structuralValueTypeName. rewrite concrete_pack by done.
  destruct (pack_accessors a Hv) as (_ & Hn & _ & Ht & _).
  destruct a as [| | | | |n [| | |i]]; try done.
  cbn [vt_index] in *. rewrite bool_decide_eq_true_2 by eauto. rewrite (Ht i eq_refl), Hn. cbn [vt_nullable].
  unfold valid_vt, is_u32 in Hv. destruct (zlookup_lt_is_Some ids i) as [id E]; [specialize (Hb i eq_refl); lia|].
  unfold substID, tokenText. rewrite E. by destruct n.
Qed.

Lemma names_tokens ids t l : t <= zlen ids -> Forall (back_tok t) l ->
  names (structuralValueTypeName ids) (map pack l) =
  foldr (fun t s => tokenText t +:+ s) "" (map (substID ids) l).
Proof.
  intros Hl. induction 1 as [|a l Ha Hf IH]; [done|].
  unfold names in *. simpl. rewrite IH. by rewrite (structuralName_token ids t).
Qed.

Lemma zlen_map {A B} (f : A -> B) l : zlen (map f l) = zlen l.
Proof. unfold zlen. by rewrite length_map. Qed.

Lemma signature_tokens ids t ft ps rs : t <= zlen ids -> RecGroupSize ft <= 1 ->
  Params ft = map pack ps -> Results ft = map pack rs ->
  Forall (back_tok t) ps -> Forall (back_tok t) rs ->
  signatureText (structuralValueTypeName ids) ft = tokensText (map (substID ids) ps) (map (substID ids) rs).
Proof.
  intros Hl Hrec Ep Er Hp Hr. unfold signatureText, recSuffix, tokensText. rewrite Ep, Er.
  rewrite !(names_tokens ids t) by done. rewrite !zlen_map.
  replace (RecGroupSize ft >? 1) with false by (symmetry; rewrite Z.gtb_ltb; apply Z.ltb_ge; lia).
  by rewrite string_app_nil.
Qed.

(** ** The store map *)

Record ids_ok (m : gmap string Z) : Prop := {
  id_range : forall k id, m !! k = Some id -> 0 <= id < Z.of_nat (size m);
  id_inj : forall k k' id, m !! k = Some id -> m !! k' = Some id -> k = k';
}.

Definition store_ok (s : typeStore) : Prop :=
  is_u32 (functionMaxTypes s) /\
  forall m, typeIDs s = Some m -> ids_ok m /\ Z.of_nat (size m) <= functionMaxTypes s.

Lemma newTypeStore_ok : store_ok newTypeStore.
Proof.
  split; [vm_compute; intuition congruence|]. intros m [= <-]. split; [|vm_compute; congruence].
  split; intros; by rewrite lookup_empty in *.
Qed.

Lemma ids_ok_insert m k : ids_ok m -> m !! k = None -> ids_ok (<[k := Z.of_nat (size m)]> m).
Proof.
  intros [Hr Hi] Hk. split.
  - intros k' id. rewrite map_size_insert_None by done. destruct (decide (k = k')) as [<-|].
    + rewrite lookup_insert_eq. intros [= <-]. lia.
    + rewrite lookup_insert_ne by done. intros H%Hr. lia.
  - intros k1 k2 id. destruct (decide (k = k1)) as [<-|], (decide (k = k2)) as [<-|]; try done;
      rewrite ?lookup_insert_eq, ?lookup_insert_ne by done.
    + intros [= <-] H%Hr. lia.
    + intros H%Hr [= <-]. lia.
    + apply Hi.
Qed.

(** What a critical section that returns a number has done. *)
Lemma writeSection_ok s k s' r : store_ok s -> writeSection s k = (s', r) ->
  store_ok s' /\ functionMaxTypes s' = functionMaxTypes s /\
  match r with
  | Ok id => exists m m', typeIDs s = Some m /\ typeIDs s' = Some m' /\ m ⊆ m' /\ m' !! k = Some id
  | Err e => s' = s /\ (typeIDs s = None \/
      exists m, typeIDs s = Some m /\ m !! k = None /\ Z.of_nat (size m) = functionMaxTypes s)
  | Panic _ => False
  end.
Proof.
  intros Hs. unfold writeSection. destruct (typeIDs s) as [m|] eqn:Em; [|intros [= <- <-]; auto].
  destruct Hs as [Hu Hm]. destruct (Hm m Em) as [Hok Hsz]. unfold is_u32 in Hu.
  destruct (m !! k) as [id|] eqn:Ek; [intros [= <- <-]; split_and!; try done; by exists m, m|].
  rewrite wrap32_small by (unfold is_u32; lia). destruct (_ >=? _) eqn:Eg; bools.
  { intros [= <- <-]. split_and!; try done. right. exists m. split_and!; try done. lia. }
  intros [= <- <-]. split; [split; [done|]|split; [done|]].
  - intros ? [= <-]. split; [by apply ids_ok_insert|]. rewrite map_size_insert_None by done. simpl. lia.
  - exists m. eexists. split_and!; try done; [by apply insert_subseteq|apply lookup_insert_eq].
Qed.

Lemma getByKey_ok s k s' r : store_ok s -> getFunctionTypeIDByKey s k = (s', r) ->
  store_ok s' /\ functionMaxTypes s' = functionMaxTypes s /\
  match r with
  | Ok id => exists m m', typeIDs s = Some m /\ typeIDs s' = Some m' /\ m ⊆ m' /\ m' !! k = Some id
  | Err e => s' = s /\ (typeIDs s = None \/
      exists m, typeIDs s = Some m /\ m !! k = None /\ Z.of_nat (size m) = functionMaxTypes s)
  | Panic _ => False
  end.
Proof.
  intros Hs. unfold getFunctionTypeIDByKey, readSection.
  destruct (typeIDs s) as [m|] eqn:Em; [|intros [= <- <-]; split_and!; auto].
  destruct (m !! k) as [id|] eqn:Ek.
  - intros [= <- <-]. split_and!; try done. by exists m, m.
  - rewrite <- Em. by apply writeSection_ok.
Qed.

(** ** Numbering the types of a module *)

(** The cache of a type holds its own key: what [key] establishes. *)
Definition coherent (c : cachedType) : Prop :=
  keyString c = "" \/ keyString c = signatureText ValueTypeName (theType c).

Lemma key_coherent c : coherent c ->
  fst (key c) = signatureText ValueTypeName (theType c) /\
  coherent (snd (key c)) /\ theType (snd (key c)) = theType c.
Proof.
  intros Hc. unfold key. destruct (String.eqb_spec (keyString c) ""); cbn [negb fst snd].
  - split_and!; try done. by right.
  - destruct Hc as [?|E]; [done|]. split_and!; try done. by right.
Qed.

Lemma names_no_ref ids l : existsb IsConcreteRef l = false ->
  names (structuralValueTypeName ids) l = names ValueTypeName l.
Proof.
  unfold names. induction l as [|v l IH]; [done|]. simpl. intros [E1 E2]%orb_false_iff.
  rewrite IH by done. unfold structuralValueTypeName. by rewrite E1.
Qed.

Lemma structuralTypeKey_text c ids : coherent c ->
  fst (structuralTypeKey c ids) = signatureText (structuralValueTypeName ids) (theType c) /\
  coherent (snd (structuralTypeKey c ids)) /\ theType (snd (structuralTypeKey c ids)) = theType c.
Proof.
  intros Hc. unfold structuralTypeKey. destruct (_ && _) eqn:E; [|done].
  destruct (key_coherent c Hc) as (-> & ? & ?). split_and!; try done.
  apply andb_true_iff in E as [Ep Er]. rewrite negb_true_iff in Ep, Er.
  unfold signatureText. by rewrite !names_no_ref.
Qed.

(** The text of type [t] only depends on the numbers below [t]. *)
Lemma names_prefix ids ids' t l : Forall (backward t) l -> t <= zlen ids -> t <= zlen ids' ->
  (forall j, (Z.of_nat j < t) -> ids !! j = ids' !! j) ->
  names (structuralValueTypeName ids) l = names (structuralValueTypeName ids') l.
Proof.
  intros Hl H1 H2 He. unfold names. induction Hl as [|v l (a & -> & Hv & Hb) Hl IH]; [done|].
  simpl. rewrite IH. rewrite !(structuralName_token _ t) by done. f_equal. f_equal.
  destruct a as [| | | | |n [| | |i]]; try done. cbn [substID]. do 3 f_equal.
  specialize (Hb i eq_refl). unfold valid_vt, is_u32 in Hv.
  rewrite !zlookup_nonneg_Some by lia. apply He. lia.
Qed.

Definition registered (m : gmap string Z) (ts : list FunctionType) (ids : list Z) : Prop :=
  length ids = length ts /\
  forall t ft, ts !! t = Some ft -> exists id, ids !! t = Some id /\
    m !! signatureText (structuralValueTypeName ids) ft = Some id.

Lemma typeIDsLoop_spec ts : forall s ret i s' ts' ids,
  store_ok s -> Forall coherent ts -> (length ret = i + length ts)%nat ->
  (forall j c, ts !! j = Some c ->
     Forall (backward (Z.of_nat (i + j))) (Params (theType c)) /\
     Forall (backward (Z.of_nat (i + j))) (Results (theType c))) ->
  typeIDsLoop s ts ret i = (s', ts', Ok ids) -> is_Some (typeIDs s) ->
  store_ok s' /\ Forall coherent ts' /\ map theType ts' = map theType ts /\
  length ids = length ret /\ (forall j, (j < i)%nat -> ids !! j = ret !! j) /\
  exists m m', typeIDs s = Some m /\ typeIDs s' = Some m' /\ m ⊆ m' /\
  forall j c, ts !! j = Some c -> exists id, ids !! (i + j)%nat = Some id /\
    m' !! signatureText (structuralValueTypeName ids) (theType c) = Some id.
Proof.
  induction ts as [|c ts IH]; intros s ret i s' ts' ids Hs Hc Hlen Hb E Ho; cbn [typeIDsLoop] in E.
  { simplify_eq. destruct Ho as [m Em]. split_and!; try done. exists m, m. by split_and!. }
  inversion Hc as [|? ? Hc1 Hc2]; subst.
  destruct (structuralTypeKey_text c ret Hc1) as (K1 & K2 & K3).
  destruct (structuralTypeKey c ret) as [k c'] eqn:Ek. cbn [fst snd] in *.
  destruct (getFunctionTypeIDByKey s k) as [s1 r] eqn:Eg.
  destruct (getByKey_ok s k s1 r Hs Eg) as (Hs1 & Hmax & Hr). destruct r as [id|e|e]; [|done|done].
  destruct Hr as (m & m1 & Em & Em1 & Hsub & Hk).
  destruct (typeIDsLoop s1 ts (<[i:=id]> ret) (S i)) as [[s2 ts2] r2] eqn:El. simplify_eq.
  destruct (IH s1 (<[i:=id]> ret) (S i) s' ts2 ids) as (Hs2 & Hc' & Ht & Hl & Hpre & m1' & m' & Em1' & Em' & Hsub' & Hreg);
    try done.
  { rewrite length_insert. simpl in Hlen. lia. }
  { intros j c0 Hj. replace (S i + j)%nat with (i + S j)%nat by lia. by apply (Hb (S j)). }
  rewrite Em1 in Em1'. injection Em1' as <-. rewrite length_insert in Hl.
  assert (ids !! i = Some id) as Hid.
  { rewrite Hpre by lia. apply list_lookup_insert_eq. simpl in Hlen. lia. }
  assert (forall j, (j < i)%nat -> ids !! j = ret !! j) as Hpre'.
  { intros j Hj. rewrite Hpre by lia. by rewrite list_lookup_insert_ne by lia. }
  split_and!; try done; [by constructor|simpl; congruence|].
  exists m, m'. split_and!; try done; [by etrans|]. intros [|j] c0 Hj; simpl in Hj.
  - injection Hj as <-. rewrite Nat.add_0_r. exists id. split; [done|].
    destruct (Hb 0%nat c eq_refl) as [Hbp Hbr]. rewrite Nat.add_0_r in *.
    assert (m' !! signatureText (structuralValueTypeName ret) (theType c) = Some id) as H by by eapply lookup_weaken.
    unfold signatureText in *. simpl in Hlen.
    rewrite !(names_prefix ids ret (Z.of_nat i)); try done; unfold zlen; try lia; intros; apply Hpre'; lia.
  - replace (i + S j)%nat with (S i + j)%nat by lia. by apply Hreg.
Qed.

Lemma GetFunctionTypeIDs_registered s ts s' ts' ids :
  store_ok s -> Forall coherent ts -> standalone (map theType ts) ->
  GetFunctionTypeIDs s ts = (s', ts', Ok ids) -> is_Some (typeIDs s) ->
  store_ok s' /\ Forall coherent ts' /\ map theType ts' = map theType ts /\
  exists m m', typeIDs s = Some m /\ typeIDs s' = Some m' /\ m ⊆ m' /\ registered m' (map theType ts) ids.
Proof.
  intros Hs Hc Hst E Ho. unfold GetFunctionTypeIDs in E.
  apply typeIDsLoop_spec in E as (H1 & H2 & H3 & H4 & _ & m & m' & Hm & Hm' & Hsub & Hreg); try done.
  - split_and!; try done. exists m, m'. split_and!; try done. split.
    + rewrite length_map. by rewrite H4, length_replicate.
    + intros t ft Ht. rewrite list_lookup_fmap in Ht. apply fmap_Some in Ht as (c & Hc' & ->). by apply (Hreg t).
  - by rewrite length_replicate.
  - intros j c Hj. simpl. apply (sa_refs _ Hst). rewrite zlookup_nonneg_Some by lia.
    rewrite Nat2Z.id, list_lookup_fmap, Hj. done.
Qed.

(** ** Numbers are structural types *)

Lemma all_depths_fold tx ty x y :
  same_position tx ty x y ->
  members_rel tx ty (all_depths tx ty) (groupStart tx x) (groupStart ty y) (groupSize tx x) ->
  all_depths tx ty x y.
Proof.
  intros Hp Hm [|n]; [done|]. split; [done|]. eapply members_rel_mono; [|exact Hm]. intros a b H. apply H.
Qed.

Lemma standalone_all_depths tx ty x y ftx fty : standalone tx -> standalone ty ->
  zlookup tx x = Some ftx -> zlookup ty y = Some fty ->
  all_depths tx ty x y <->
  Forall2 (vt_rel (all_depths tx ty)) (Params ftx) (Params fty) /\
  Forall2 (vt_rel (all_depths tx ty)) (Results ftx) (Results fty).
Proof.
  intros Hx Hy Lx Ly.
  assert (groupSize tx x = 1 /\ groupStart tx x = x) as [S1 P1].
  { unfold groupSize, groupStart. rewrite Lx, (proj2 (Z.leb_le _ _)); [done|]. apply (sa_rec tx Hx x ftx Lx). }
  assert (groupSize ty y = 1 /\ groupStart ty y = y) as [S2 P2].
  { unfold groupSize, groupStart. rewrite Ly, (proj2 (Z.leb_le _ _)); [done|]. apply (sa_rec ty Hy y fty Ly). }
  split.
  - intros [_ Hm]%all_depths_unfold. rewrite S1, P1, P2 in Hm. apply (Hm 0); [lia| |]; by rewrite Z.add_0_r.
  - intros HF. apply all_depths_fold; [unfold same_position; lia|]. rewrite S1, P1, P2.
    intros i f1 f2 Hi. replace i with 0 by lia. rewrite !Z.add_0_r, Lx, Ly. intros [= <-] [= <-]. done.
Qed.

Section Agree.
Context (tx ty : list FunctionType) (idx idy : list Z) (m : gmap string Z).
Context (Hx : standalone tx) (Hy : standalone ty) (Hm : ids_ok m).
Context (Rx : registered m tx idx) (Ry : registered m ty idy).

Definition same_id (x y : Z) : Prop := zlookup idx x = zlookup idy y.

(** Below [x] numbers already agree with structural equivalence. *)
Definition agree_below (x : Z) : Prop :=
  forall i j, 0 <= i < x -> 0 <= j < zlen ty -> same_id i j <-> all_depths tx ty i j.

Lemma zlen_registered ts ids : registered m ts ids -> zlen ids = zlen ts.
Proof. intros [E _]. unfold zlen. by rewrite E. Qed.

Lemma lookup_registered ts ids t : registered m ts ids -> 0 <= t < zlen ts ->
  exists ft id, zlookup ts t = Some ft /\ zlookup ids t = Some id /\ 0 <= id /\
    m !! signatureText (structuralValueTypeName ids) ft = Some id.
Proof.
  intros [_ Hr] Ht. destruct (zlookup_lt_is_Some ts t Ht) as [ft L].
  pose proof L as L'. rewrite zlookup_nonneg_Some in L' by lia.
  destruct (Hr _ _ L') as (id & Hi & Hk). exists ft, id. rewrite (zlookup_nonneg_Some ids) by lia.
  split_and!; try done. destruct (id_range m Hm _ _ Hk). done.
Qed.

Lemma subst_rel x y a b : agree_below x -> x <= zlen tx -> y <= zlen ty -> back_tok x a -> back_tok y b ->
  substID idx a = substID idy b <-> vt_rel (all_depths tx ty) (pack a) (pack b).
Proof.
  intros Hag Hlx Hly Ha Hb. destruct Ha as [Va Ba], Hb as [Vb Bb]. unfold vt_rel.
  rewrite !concrete_pack by done.
  destruct (pack_accessors a Va) as (_ & Na & _ & Ia & _), (pack_accessors b Vb) as (_ & Nb & _ & Ib & _).
  destruct (vt_index a) as [i|] eqn:Ea, (vt_index b) as [j|] eqn:Eb;
    repeat (rewrite bool_decide_eq_true_2 by eauto); repeat (rewrite bool_decide_eq_false_2 by (by intros []));
    cbn [andb].
  - rewrite Na, Nb, (Ia i eq_refl), (Ib j eq_refl).
    destruct a as [| | | | |n [| | |i']]; try done. destruct b as [| | | | |n' [| | |j']]; try done.
    simpl in Ea, Eb. simplify_eq. cbn [substID vt_nullable] in *. unfold valid_vt, is_u32 in *.
    specialize (Ba i eq_refl). specialize (Bb j eq_refl).
    rewrite <- (Hag i j) by lia. unfold same_id.
    destruct (lookup_registered tx idx i Rx) as (? & id & _ & -> & _); [lia|].
    destruct (lookup_registered ty idy j Ry) as (? & id' & _ & -> & _); [lia|]. simpl.
    split; [intros [= -> ->]; done|intros [-> [= ->]]; done].
  - split; [|intros ->%pack_inj; congruence].
    destruct a as [| | | | |n [| | |i']], b as [| | | | |n' [| | |j']]; try done.
  - split; [|intros ->%pack_inj; congruence].
    destruct a as [| | | | |n [| | |i']], b as [| | | | |n' [| | |j']]; try done.
  - assert (forall ids c, vt_index c = None -> substID ids c = c) as S by (by intros ids [| | | | |n [| | |]]).
    rewrite !S by done. split; [by intros ->|apply pack_inj; done].
Qed.

Lemma subst_rel_list x y ps ps' : agree_below x -> x <= zlen tx -> y <= zlen ty ->
  Forall (back_tok x) ps -> Forall (back_tok y) ps' ->
  map (substID idx) ps = map (substID idy) ps' <->
  Forall2 (vt_rel (all_depths tx ty)) (map pack ps) (map pack ps').
Proof.
  intros Hag Hlx Hly Hp. revert ps'. induction Hp as [|a ps Ha Hp IH]; intros [|b ps'] Hp'; simpl;
    try (split; [done|by inversion 1]).
  inversion Hp' as [|? ? Hb Hp'']; subst. rewrite Forall2_cons, <- (subst_rel x y), <- IH by done.
  split; [intros E; injection E as E1 E2; auto|intros [E1 E2]; by rewrite E1, E2].
Qed.

Lemma substID_ok ts ids t ps : registered m ts ids -> t <= zlen ts -> Forall (back_tok t) ps ->
  Forall token_ok (map (substID ids) ps).
Proof.
  intros Hr Ht Hp. rewrite Forall_map. eapply Forall_impl; [exact Hp|]. intros a [Hv Hb] i.
  destruct a as [| | | | |n [| | |j]]; try done. simpl. intros [= <-].
  specialize (Hb j eq_refl). unfold valid_vt, is_u32 in Hv.
  destruct (lookup_registered ts ids j Hr) as (? & id & _ & -> & ? & _); [lia|done].
Qed.

Lemma ids_agree n : forall x y, 0 <= x < Z.of_nat n -> 0 <= x < zlen tx -> 0 <= y < zlen ty ->
  same_id x y <-> all_depths tx ty x y.
Proof.
  induction n as [|n IH]; intros x y Hn Hlx Hly; [lia|].
  assert (agree_below x) as Hag by (intros i j ? ?; apply IH; lia).
  destruct (lookup_registered tx idx x Rx Hlx) as (fx & ix & Lx & Ex & Nx & Kx).
  destruct (lookup_registered ty idy y Ry Hly) as (fy & iy & Ly & Ey & Ny & Ky).
  rewrite (standalone_all_depths tx ty x y fx fy) by done.
  destruct (sa_refs tx Hx x fx Lx) as [Bpx Brx], (sa_refs ty Hy y fy Ly) as [Bpy Bry].
  destruct (backward_tokens _ _ Bpx) as (px & Epx & Tpx), (backward_tokens _ _ Brx) as (rx & Erx & Trx).
  destruct (backward_tokens _ _ Bpy) as (py & Epy & Tpy), (backward_tokens _ _ Bry) as (ry & Ery & Try).
  rewrite (signature_tokens idx x fx px rx) in Kx; try done;
    [|rewrite (zlen_registered tx); [lia|done]|apply (sa_rec tx Hx x fx Lx)].
  rewrite (signature_tokens idy y fy py ry) in Ky; try done;
    [|rewrite (zlen_registered ty); [lia|done]|apply (sa_rec ty Hy y fy Ly)].
  rewrite Epx, Epy, Erx, Ery, <- !(subst_rel_list x y) by (done || lia).
  unfold same_id. rewrite Ex, Ey. split.
  - intros [= ->]. apply tokensText_inj; try (eapply substID_ok; [done| |done]; lia). by eapply (id_inj m Hm).
  - intros [E1 E2]. rewrite E1, E2, Ky in Kx. congruence.
Qed.

End Agree.

(** ** Calls in sequence *)

Inductive types_step (s : typeStore) : typeStore -> Prop :=
| step_module ts s' ts' r : GetFunctionTypeIDs s ts = (s', ts', r) -> types_step s s'
| step_host c s' c' r : GetFunctionTypeID s c = (s', c', r) -> types_step s s'
| step_close : types_step s (closeTypes s).

(** Between two states of a store the map only grows, until it is closed. *)
Definition extends (s s' : typeStore) : Prop :=
  store_ok s' /\ forall m', typeIDs s' = Some m' -> exists m, typeIDs s = Some m /\ m ⊆ m'.

Lemma grows_refl s : store_ok s -> extends s s.
Proof. intros H. split; [done|]. intros m' E. by exists m'. Qed.

Lemma grows_trans s s1 s2 : extends s s1 -> extends s1 s2 -> extends s s2.
Proof.
  intros [_ H1] [Hok H2]. split; [done|]. intros m2 E2. destruct (H2 m2 E2) as (m1 & E1 & ?).
  destruct (H1 m1 E1) as (m & E & ?). exists m. split; [done|by etrans].
Qed.

Lemma extends_key s k s' r : store_ok s -> getFunctionTypeIDByKey s k = (s', r) -> extends s s'.
Proof.
  intros Hs (Hs' & _ & Hr)%getByKey_ok; [|done]. destruct r as [id|e|e]; [|destruct Hr as [-> _]; by apply grows_refl|done].
  destruct Hr as (m & m' & Em & Em' & Hsub & _). split; [done|]. rewrite Em'. intros ? [= <-]. by exists m.
Qed.

Lemma extends_loop ts : forall s ret i s' ts' r, store_ok s -> typeIDsLoop s ts ret i = (s', ts', r) -> extends s s'.
Proof.
  induction ts as [|c ts IH]; intros s ret i s' ts' r Hs E; cbn [typeIDsLoop] in E.
  { simplify_eq. by apply grows_refl. }
  destruct (structuralTypeKey c ret) as [k c'], (getFunctionTypeIDByKey s k) as [s1 r1] eqn:Eg.
  pose proof (extends_key s k s1 r1 Hs Eg) as H1. destruct r1 as [id|e|e]; [|by simplify_eq..].
  destruct (typeIDsLoop s1 ts (<[i:=id]> ret) (S i)) as [[s2 ts2] r2] eqn:El. simplify_eq.
  eapply grows_trans; [exact H1|]. eapply IH; [apply H1|exact El].
Qed.

Lemma extends_step s s' : store_ok s -> types_step s s' -> extends s s'.
Proof.
  intros Hs [ts ? ts' r E|c ? c' r E|].
  - by eapply extends_loop.
  - unfold GetFunctionTypeID in E. destruct (key c) as [k c1], (getFunctionTypeIDByKey s k) as [s1 r1] eqn:Eg.
    simplify_eq. by eapply extends_key.
  - split; [|done]. destruct Hs as [? _]. split; [done|]. intros m E. done.
Qed.

Lemma extends_rtc s s' : store_ok s -> rtc types_step s s' -> extends s s'.
Proof.
  intros Hs H. revert Hs. induction H as [s|s s1 s' H1 _ IH]; intros Hs; [by apply grows_refl|].
  pose proof (extends_step s s1 Hs H1) as E. eapply grows_trans; [exact E|apply IH, E].
Qed.

Lemma registered_mono m m' ts ids : m ⊆ m' -> registered m ts ids -> registered m' ts ids.
Proof.
  intros Hs [Hl Hr]. split; [done|]. intros t ft Ht. destruct (Hr t ft Ht) as (id & ? & ?).
  exists id. split; [done|]. by eapply lookup_weaken.
Qed.

Lemma decodedType_coherent ft : RecGroupSize ft <= 1 -> coherent (decodedType ft).
Proof.
  intros H. right. unfold decodedType, key, signatureText, recSuffix. cbn [theType keyString Params Results fst RecGroupSize].
  simpl. by rewrite Z.gtb_ltb, (proj2 (Z.ltb_ge 1 _)).
Qed.

Lemma loop_open ts : forall s ret i s' ts' ids, ts <> [] -> typeIDsLoop s ts ret i = (s', ts', Ok ids) -> is_Some (typeIDs s).
Proof.
  intros s ret i s' ts' ids Hne E. destruct ts as [|c ts]; [done|]. cbn [typeIDsLoop] in E.
  destruct (structuralTypeKey c ret) as [k c']. unfold getFunctionTypeIDByKey, readSection in E.
  destruct (typeIDs s); [done|]. simplify_eq.
Qed.

(** ** Goroutines

    A goroutine calls [getFunctionTypeIDByKey]: it enters the read section, and
    when the key has no number the write section later.  [calls] holds the
    goroutines between the two, [returned] what the calls have returned. *)

Record istate := mkIstate {
  istore : typeStore;
  calls : gmap nat string;
  returned : list (string * res Z);
}.

Inductive ievent := IRead (g : nat) (k : string) | IWrite (g : nat) | IClose.

Definition istep (st : istate) (e : ievent) : option istate :=
  match e with
  | IRead g k =>
      match calls st !! g with
      | Some _ => None
      | None =>
          match readSection (istore st) k with
          | Ok (Some id) => Some (mkIstate (istore st) (calls st) ((k, Ok id) :: returned st))
          | Ok None => Some (mkIstate (istore st) (<[g := k]> (calls st)) (returned st))
          | Err e => Some (mkIstate (istore st) (calls st) ((k, Err e) :: returned st))
          | Panic e => Some (mkIstate (istore st) (calls st) ((k, Panic e) :: returned st))
          end
      end
  | IWrite g =>
      match calls st !! g with
      | None => None
      | Some k =>
          let (s', r) := writeSection (istore st) k in
          Some (mkIstate s' (delete g (calls st)) ((k, r) :: returned st))
      end
  | IClose => Some (mkIstate (closeTypes (istore st)) (calls st) (returned st))
  end.

Fixpoint irun (st : istate) (es : list ievent) : option istate :=
  match es with
  | [] => Some st
  | e :: es' => match istep st e with Some st' => irun st' es' | None => None end
  end.

Definition istart : istate := mkIstate newTypeStore ∅ [].

(** What has been returned is in one injective map, a part of the store's map while it is open. *)
Definition returned_ok (st : istate) : Prop :=
  store_ok (istore st) /\
  exists m, ids_ok m /\ (forall m', typeIDs (istore st) = Some m' -> m' = m) /\
    Forall (fun p => match snd p with Ok id => m !! fst p = Some id | Err _ => True | Panic _ => False end) (returned st).

Lemma istep_ok st e st' : returned_ok st -> istep st e = Some st' -> returned_ok st'.
Proof.
  intros (Hs & m & Hm & He & HF). destruct e as [g k|g|]; cbn [istep].
  - destruct (calls st !! g); [done|]. unfold readSection. destruct (typeIDs (istore st)) as [m'|] eqn:Em.
    + rewrite (He m' eq_refl). destruct (m !! k) as [id|] eqn:Ek; intros [= <-]; (split; [done|]);
        exists m; split_and!; try done; simpl; rewrite ?Em; [intros ? [= <-]; by apply He| |intros ? [= <-]; by apply He].
      by constructor.
    + intros [= <-]. split; [done|]. exists m. split_and!; try done; simpl; [by rewrite Em|by constructor].
  - destruct (calls st !! g) as [k|]; [|done].
    destruct (writeSection (istore st) k) as [s' r] eqn:Ew. intros [= <-].
    destruct (writeSection_ok _ _ _ _ Hs Ew) as (Hs' & _ & Hr). split; [done|]. cbn [istore returned].
    destruct r as [id|e|e]; [| |done].
    + destruct Hr as (m0 & m' & Em0 & Em' & Hsub & Hk). rewrite (He m0 Em0) in Hsub.
      exists m'. split_and!; [by apply (proj2 Hs' m')|rewrite Em'; by intros ? [= <-]|].
      constructor; [done|]. eapply Forall_impl; [exact HF|]. intros [k' [id'| |]]; simpl; [|done|done].
      intros ?. by eapply lookup_weaken.
    + destruct Hr as [-> _]. exists m. split_and!; try done. by constructor.
  - intros [= <-]. split; [split; [apply Hs|done]|]. by exists m.
Qed.

Lemma irun_ok es : forall st st', returned_ok st -> irun st es = Some st' -> returned_ok st'.
Proof.
  induction es as [|e es IH]; intros st st' Hok E; cbn [irun] in E; [by simplify_eq|].
  destruct (istep st e) as [st1|] eqn:E1; [|done]. by eapply IH; [eapply istep_ok|].
Qed.

Lemma istart_ok : returned_ok istart.
Proof.
  split; [apply newTypeStore_ok|]. exists ∅. split_and!; [|by intros ? [= <-]|by constructor].
  by apply (proj2 newTypeStore_ok ∅).
Qed.

(** ** Properties *)

(** C24: In a store that has seen any sequence of registrations, the types of
    two modules without rec groups get the same number exactly when the type
    checks of the validator and of the linker call them equivalent.  Further
    modules may be registered between the two. *)
Theorem type_ids_agree (s s1 s1' s2 : typeStore) (cx cx' cy cy' : list cachedType) (idx idy : list Z) (x y : Z) :
  rtc types_step newTypeStore s ->
  Forall coherent cx -> standalone (map theType cx) -> GetFunctionTypeIDs s cx = (s1, cx', Ok idx) ->
  rtc types_step s1 s1' ->
  Forall coherent cy -> standalone (map theType cy) -> GetFunctionTypeIDs s1' cy = (s2, cy', Ok idy) ->
  0 <= x < zlen cx -> 0 <= y < zlen cy ->
  zlookup idx x = zlookup idy y <->
  structurallyEquivalentTypesAcrossModules (map theType cx) (map theType cy) false x y = Ok true.
Proof.
  intros R0 Cx Sx Ex R1 Cy Sy Ey Hx Hy.
  destruct (extends_rtc _ _ newTypeStore_ok R0) as [Ok0 _].
  assert (is_Some (typeIDs s)) as O0 by (eapply loop_open, Ex; intros ->; unfold zlen in Hx; simpl in Hx; lia).
  assert (is_Some (typeIDs s1')) as O1 by (eapply loop_open, Ey; intros ->; unfold zlen in Hy; simpl in Hy; lia).
  destruct (GetFunctionTypeIDs_registered _ _ _ _ _ Ok0 Cx Sx Ex O0) as (Ok1 & _ & _ & m & m1 & _ & Em1 & _ & Rx).
  destruct (extends_rtc _ _ Ok1 R1) as [Ok1' Ext].
  destruct (GetFunctionTypeIDs_registered _ _ _ _ _ Ok1' Cy Sy Ey O1) as (Ok2 & _ & _ & m1' & m2 & Em1' & Em2 & Sub2 & Ry).
  destruct (Ext m1' Em1') as (m1'' & Em1'' & Sub1). rewrite Em1 in Em1''. injection Em1'' as <-.
  assert (registered m2 (map theType cx) idx) as Rx2 by (eapply registered_mono; [by etrans|done]).
  rewrite <- (zlen_map theType cx) in Hx. rewrite <- (zlen_map theType cy) in Hy.
  pose proof (sa_len _ Sx) as Lx. pose proof (sa_len _ Sy) as Ly.
  destruct (structural_equivalence_correct _ _ false (standalone_wf _ Sx) (standalone_wf _ Sy) ltac:(done)
    x y ltac:(unfold is_u32; lia) ltac:(unfold is_u32; lia)) as (b & -> & Hb).
  etrans; [apply (ids_agree _ _ _ _ m2 Sx Sy (proj1 (proj2 Ok2 m2 Em2)) Rx2 Ry (Z.to_nat (x + 1))); lia|].
  split.
  - intros H. f_equal. apply Hb. split; [|done]. by split.
  - intros [= ->]. by apply Hb.
Qed.

(** Two modules that define [(i32) -> ()] and a function that takes a reference
    to it, at different indexes. *)
Definition sigOf (ps rs : list valtype) : FunctionType := mkFunctionType (map pack ps) (map pack rs) 0 0 0 0.
Definition modA : list cachedType :=
  map decodedType [sigOf [TI32] []; sigOf [TRef true (HIdx 0)] [TI64]].
Definition modB : list cachedType :=
  map decodedType [sigOf [] []; sigOf [TI32] []; sigOf [TRef true (HIdx 1)] [TI64]].

Lemma standalone_modA : standalone (map theType modA).
Proof.
  split; [done| |]; intros t ft L; pose proof (zlookup_Some_lt _ _ _ L) as Ht; unfold zlen in Ht; simpl in Ht;
    assert (t = 0 \/ t = 1) as [-> | ->] by lia; vm_compute in L; injection L as <-; simpl; try lia;
    split; repeat constructor.
  - by exists TI32.
  - exists (TRef true (HIdx 0)). split_and!; [done|done|intros i [= <-]; lia].
  - by exists TI64.
Qed.

Lemma standalone_modB : standalone (map theType modB).
Proof.
  split; [done| |]; intros t ft L; pose proof (zlookup_Some_lt _ _ _ L) as Ht; unfold zlen in Ht; simpl in Ht;
    assert (t = 0 \/ t = 1 \/ t = 2) as [-> | [-> | ->]] by lia; vm_compute in L; injection L as <-; simpl; try lia;
    split; repeat constructor.
  - by exists TI32.
  - exists (TRef true (HIdx 1)). split_and!; [done|done|intros i [= <-]; lia].
  - by exists TI64.
Qed.

Definition storeA : typeStore := fst (fst (GetFunctionTypeIDs newTypeStore modA)).
Definition storeB : typeStore := fst (fst (GetFunctionTypeIDs storeA modB)).

Lemma type_ids_agree_witness :
  zlookup [0; 1] 1 = zlookup [2; 0; 1] 2 <->
  structurallyEquivalentTypesAcrossModules (map theType modA) (map theType modB) false 1 2 = Ok true.
Proof.
  apply (type_ids_agree newTypeStore storeA storeA storeB modA modA modB modB [0; 1] [2; 0; 1] 1 2).
  - apply rtc_refl.
  - unfold modA. repeat constructor; apply decodedType_coherent; simpl; lia.
  - apply standalone_modA.
  - vm_compute. reflexivity.
  - apply rtc_refl.
  - unfold modB. repeat constructor; apply decodedType_coherent; simpl; lia.
  - apply standalone_modB.
  - vm_compute. reflexivity.
  - unfold zlen. simpl. lia.
  - unfold zlen. simpl. lia.
Defined.

(** In every interleaving of the critical sections of concurrent calls
    and of the closing of the store, two calls that return a number return the
    same number exactly when they were made with the same key; no call panics. *)
Theorem type_ids_race (es : list ievent) (st : istate) :
  irun istart es = Some st ->
  (forall k e, (k, Panic e) ∉ returned st) /\
  forall k k' id id', (k, Ok id) ∈ returned st -> (k', Ok id') ∈ returned st -> k = k' <-> id = id'.
Proof.
  intros H. destruct (irun_ok _ _ _ istart_ok H) as (_ & m & Hm & _ & HF). rewrite Forall_forall in HF. split.
  - intros k e Hin. apply (HF _ Hin).
  - intros k k' id id' H1%HF H2%HF. simpl in *. split; [intros ->; congruence|]. intros ->. by eapply (id_inj m Hm).
Qed.

(** Two goroutines that miss the same key: the second finds the number of the first. *)
Lemma type_ids_race_witness :
  let es := [IRead 0 "i32_v"; IRead 1 "i32_v"; IWrite 1; IRead 2 "v_v"; IWrite 2; IWrite 0; IClose; IRead 1 "v_v"] in
  exists st, irun istart es = Some st /\
  returned st = [("v_v", Err "store closed"); ("i32_v", Ok 0); ("v_v", Ok 1); ("i32_v", Ok 0)] /\
  ((forall k e, (k, Panic e) ∉ returned st) /\
   forall k k' id id', (k, Ok id) ∈ returned st -> (k', Ok id') ∈ returned st -> k = k' <-> id = id').
Proof.
  intros es. destruct (irun istart es) as [st|] eqn:E; [|by vm_compute in E].
  exists st. split; [done|]. split; [vm_compute in E; by simplify_eq|]. exact (type_ids_race es st E).
Defined.

(** In rec groups the numbers do not follow the types.  A reference to the
    type itself is read before its number is assigned, as number 0, so that
    [(rec (func (param (ref 2))))] gets the number of
    [(func (param (ref 0)))]; and the members of a group without concrete
    references keep the key that [decodeFunctionType] computed before their
    position was known, so that they share one number. *)
Theorem rec_group_ids_collide :
  let self := mkFunctionType [pack (TRef true (HIdx 2))] [] 0 0 1 0 in
  let ts := [sigOf [] []; sigOf [TRef true (HIdx 0)] []; self] in
  let pair := [mkFunctionType [] [] 0 0 2 0; mkFunctionType [] [] 0 0 2 1] in
  snd (GetFunctionTypeIDs newTypeStore (map decodedType ts)) = Ok [0; 1; 1] /\
  structurallyEquivalentTypesAcrossModules ts ts true 1 2 = Ok false /\
  snd (GetFunctionTypeIDs newTypeStore (map decodedType pair)) = Ok [0; 0] /\
  structurallyEquivalentTypesAcrossModules pair pair true 0 1 = Ok false.
Proof. vm_compute. done. Qed.
