(* ===== verification/ModuleList.v ===== *)
(** * The modules of a store (src/internal/wasm/store_module_list.go)

    A store keeps its module instances in a doubly linked list, newest first,
    through the [prev] and [next] pointers of the instances, and the named ones
    in a map.  The instances are nodes of a [heap]; a pointer is a [positive].
    A nil map is [None]: reading and deleting are then without effect, and
    [registerModule] returns an error.

    [listed st L] relates the pointer structure to the list [L] of registered
    instances; the operations are shown to be those of a list with unique
    names.  The fields of [node] beyond the links are those the closing of an
    instance reads and writes (see [ModuleClose]). *)

From S2P Require Import Prelude.

Record node := mkNode {
  ModuleName : string;
  prev : option positive;
  next : option positive;
  Closed : Z;
  CloseNotifier : bool;
  (** What closing the file system and the code closer returns: an error or nil. *)
  Sys : option (option string);
  CodeCloser : option (option string);
}.

Abbreviation heap := (gmap positive node).

Record mstore := mkStore {
  nodes : heap;
  moduleList : option positive;
  nameToModule : option (gmap string positive);
  nameToModuleCap : Z;
}.

Definition set_prev (p : option positive) (n : node) : node :=
  mkNode (ModuleName n) p (next n) (Closed n) (CloseNotifier n) (Sys n) (CodeCloser n).
Definition set_next (p : option positive) (n : node) : node :=
  mkNode (ModuleName n) (prev n) p (Closed n) (CloseNotifier n) (Sys n) (CodeCloser n).

Definition nameToModuleShrinkThreshold : Z := 100.

Definition NewStore : mstore := mkStore ∅ None (Some ∅) nameToModuleShrinkThreshold.

(** Reads through a pointer and of a map that may be nil. *)
Definition prevOf (h : heap) (m : positive) : option positive := h !! m ≫= prev.
Definition nextOf (h : heap) (m : positive) : option positive := h !! m ≫= next.
Definition nameOf (h : heap) (m : positive) : string := from_option ModuleName "" (h !! m).
Definition named (st : mstore) (name : string) : option positive := nameToModule st ≫= (.!! name).

(** [if p != nil { p.f = ... }] *)
Definition alterIf (f : node -> node) (p : option positive) (h : heap) : heap :=
  match p with Some p => alter f p h | None => h end.

(** The pointer updates of [deleteModule], in order. *)
Definition unlink (h : heap) (l : option positive) (m : positive) : heap * option positive :=
  let h1 := alterIf (set_next (nextOf h m)) (prevOf h m) h in
  let h2 := alterIf (set_prev (prevOf h1 m)) (nextOf h1 m) h1 in
  let l' := if bool_decide (l = Some m) then nextOf h2 m else l in
  (alter (set_next None) m (alter (set_prev None) m h2), l').

(** The removal of the name and the shrinking of the map. *)
Definition deleteName (nm : option (gmap string positive)) (cap : Z) (name : string) (m : positive)
    : option (gmap string positive) * Z :=
  let nm1 := if bool_decide (nm ≫= (.!! name) = Some m) then delete name <$> nm else nm in
  let len := Z.of_nat (from_option size O nm1) in
  let newCap := if len <? nameToModuleShrinkThreshold then nameToModuleShrinkThreshold else len in
  if newCap * 2 <=? cap then (Some (default ∅ nm1), newCap) else (nm1, cap).

Definition deleteModule (st : mstore) (m : positive) : mstore :=
  let (h, l) := unlink (nodes st) (moduleList st) m in
  if negb (String.eqb (nameOf h m) "") then
    let (nm, cap) := deleteName (nameToModule st) (nameToModuleCap st) (nameOf h m) m in
    mkStore h l nm cap
  else mkStore h l (nameToModule st) (nameToModuleCap st).

Definition module (st : mstore) (name : string) : res positive :=
  match named st name with
  | Some m => Ok m
  | None => Err ("module[" +:+ name +:+ "] not instantiated")
  end.

Definition Module (st : mstore) (name : string) : option positive :=
  match module st name with Ok m => Some m | _ => None end.

(** The insertion at the head of the list. *)
Definition link (h : heap) (l : option positive) (m : positive) : heap * option positive :=
  let h1 := alter (set_next l) m h in
  (alterIf (set_prev (Some m)) (nextOf h1 m) h1, Some m).

Definition registerModule (st : mstore) (m : positive) : mstore * res unit :=
  match nameToModule st with
  | None => (st, Err "already closed")
  | Some nm =>
      let name := nameOf (nodes st) m in
      let (h, l) := link (nodes st) (moduleList st) m in
      if negb (String.eqb name "") then
        match nm !! name with
        | Some _ => (st, Err ("module[" +:+ name +:+ "] has already been instantiated"))
        | None =>
            let nm' := <[name := m]> nm in
            let len := Z.of_nat (size nm') in
            (mkStore h l (Some nm') (if len >? nameToModuleCap st then len else nameToModuleCap st), Ok tt)
        end
      else (mkStore h l (Some nm) (nameToModuleCap st), Ok tt)
  end.

(** [CloseWithExitCode], the section under the lock: the snapshot of the list,
    found by following [next] at most as often as there are instances. *)
Fixpoint snapshot (fuel : nat) (h : heap) (l : option positive) : list positive :=
  match fuel, l with
  | S fuel', Some m => m :: snapshot fuel' h (nextOf h m)
  | _, _ => []
  end.

Definition closeStore (st : mstore) : mstore * list positive :=
  (mkStore (nodes st) None None 0, snapshot (size (nodes st)) (nodes st) (moduleList st)).

(** ** The abstract list *)

(** The nodes of [L] are linked in order, [p] before the first and [q] after the last. *)
Fixpoint chain (h : heap) (p : option positive) (L : list positive) (q : option positive) : Prop :=
  match L with
  | [] => True
  | m :: L' =>
      (exists n, h !! m = Some n /\ prev n = p /\ next n = (match L' with [] => q | m' :: _ => Some m' end)) /\
      chain h (Some m) L' q
  end.

Definition names_of (h : heap) (L : list positive) (nm : gmap string positive) : Prop :=
  forall name m, nm !! name = Some m <-> m ∈ L /\ nameOf h m = name /\ name <> "".

Record listed (st : mstore) (L : list positive) : Prop := {
  l_head : moduleList st = head L;
  l_chain : chain (nodes st) None L None;
  l_nodup : NoDup L;
  l_out : forall m n, nodes st !! m = Some n -> m ∉ L -> prev n = None /\ next n = None;
  l_names : exists nm, nameToModule st = Some nm /\ names_of (nodes st) L nm /\
    Z.of_nat (size nm) <= nameToModuleCap st;
  l_cap : nameToModuleShrinkThreshold <= nameToModuleCap st;
}.

Definition closed (st : mstore) : Prop :=
  moduleList st = None /\ nameToModule st = None /\ nameToModuleCap st = 0.

(** ** Chains *)

Definition headOr (L : list positive) (q : option positive) : option positive :=
  match L with [] => q | m :: _ => Some m end.
Definition lastOr (p : option positive) (L : list positive) : option positive :=
  match last L with None => p | Some m => Some m end.

Lemma chain_cons h p m L q :
  chain h p (m :: L) q <->
  (exists n, h !! m = Some n /\ prev n = p /\ next n = headOr L q) /\ chain h (Some m) L q.
Proof. done. Qed.

Lemma lastOr_cons p m L : lastOr p (m :: L) = lastOr (Some m) L.
Proof. unfold lastOr. rewrite last_cons. by destruct (last L). Qed.

Lemma chain_app h L1 : forall p L2 q,
  chain h p (L1 ++ L2) q <-> chain h p L1 (headOr L2 q) /\ chain h (lastOr p L1) L2 q.
Proof.
  induction L1 as [|m L1 IH]; intros p L2 q; [simpl; tauto|].
  change ((m :: L1) ++ L2) with (m :: (L1 ++ L2)). rewrite !chain_cons, IH, lastOr_cons.
  replace (headOr (L1 ++ L2) q) with (headOr L1 (headOr L2 q)) by by destruct L1. tauto.
Qed.

Lemma chain_frame h h' L : forall p q, (forall m, m ∈ L -> h' !! m = h !! m) -> chain h p L q -> chain h' p L q.
Proof.
  induction L as [|m L IH]; intros p q Hf; [done|]. rewrite !chain_cons. intros [(n & Hn & ?) HC]. split.
  - exists n. rewrite Hf by set_solver. done.
  - apply IH; [|done]. intros m' Hm'. apply Hf. set_solver.
Qed.

Lemma chain_alter_out h f m L p q : m ∉ L -> chain h p L q -> chain (alter f m h) p L q.
Proof. intros Hm. apply chain_frame. intros m' ?. apply lookup_alter_ne. set_solver. Qed.

(** Redirecting the pointer into the chain and the one out of it. *)
Lemma chain_set_prev h L p p' q : NoDup L -> chain h p L q ->
  chain (alterIf (set_prev p') (head L) h) p' L q.
Proof.
  destruct L as [|m L]; [done|]. rewrite !chain_cons. intros [Hm _]%NoDup_cons [(n & Hn & Hp & Hx) HC].
  cbn [head alterIf]. split; [|by apply chain_alter_out].
  exists (set_prev p' n). by rewrite lookup_alter_eq, Hn.
Qed.

Lemma chain_set_next h L : forall p q q', NoDup L -> chain h p L q ->
  chain (alterIf (set_next q') (last L) h) p L q'.
Proof.
  induction L as [|m L IH]; intros p q q' HN HC; [done|].
  apply NoDup_cons in HN as [Hm HN]. rewrite chain_cons in *. destruct HC as [(n & Hn & Hp & Hx) HC].
  rewrite last_cons. destruct L as [|m' L].
  - cbn [last alterIf headOr]. split; [|done]. exists (set_next q' n). by rewrite lookup_alter_eq, Hn.
  - destruct (last (m' :: L)) as [z|] eqn:El; [|by apply last_None in El].
    split; [|by apply (IH (Some m) q)].
    assert (z ∈ m' :: L) by (by apply last_Some_elem_of). cbn [alterIf headOr] in *.
    exists n. rewrite lookup_alter_ne by set_solver. done.
Qed.

Lemma chain_in_heap h L : forall p q m, chain h p L q -> m ∈ L -> is_Some (h !! m).
Proof.
  induction L as [|x L IH]; intros p q m; [set_solver|]. rewrite chain_cons.
  intros [(n & Hn & _) HC] [->|Hm]%elem_of_cons; [eauto|by eapply IH].
Qed.

(** The snapshot of a linked list is the list. *)
Lemma snapshot_chain h L : forall p fuel, chain h p L None -> (length L <= fuel)%nat -> snapshot fuel h (head L) = L.
Proof.
  induction L as [|m L IH]; intros p fuel HC Hf; [by destruct fuel|].
  destruct fuel as [|fuel]; simpl in Hf; [lia|]. rewrite chain_cons in HC. destruct HC as [(n & Hn & _ & Hx) HC].
  cbn [head snapshot]. f_equal. unfold nextOf. rewrite Hn. cbn. rewrite Hx.
  replace (headOr L None) with (head L) by by destruct L. apply (IH (Some m)); [done|lia].
Qed.

(** ** Names are not touched by pointer updates *)

Definition same_but_links (h h' : heap) : Prop :=
  forall m, (fun n => (ModuleName n, Closed n, CloseNotifier n, Sys n, CodeCloser n)) <$> h' !! m =
            (fun n => (ModuleName n, Closed n, CloseNotifier n, Sys n, CodeCloser n)) <$> h !! m.

Lemma same_links_refl h : same_but_links h h.
Proof. by intros m. Qed.

Lemma same_links_trans h1 h2 h3 : same_but_links h1 h2 -> same_but_links h2 h3 -> same_but_links h1 h3.
Proof. intros H1 H2 m. by rewrite H2. Qed.

Lemma same_links_prev p m h : same_but_links h (alter (set_prev p) m h).
Proof.
  intros m'. destruct (decide (m = m')) as [<-|]; [|by rewrite lookup_alter_ne].
  rewrite lookup_alter_eq. by destruct (h !! m).
Qed.

Lemma same_links_next p m h : same_but_links h (alter (set_next p) m h).
Proof.
  intros m'. destruct (decide (m = m')) as [<-|]; [|by rewrite lookup_alter_ne].
  rewrite lookup_alter_eq. by destruct (h !! m).
Qed.

Lemma same_links_name h h' m : same_but_links h h' -> nameOf h' m = nameOf h m.
Proof.
  intros H. specialize (H m). unfold nameOf. destruct (h !! m), (h' !! m); simpl in *; try done. by injection H.
Qed.

Lemma same_links_prevIf p o h : same_but_links h (alterIf (set_prev p) o h).
Proof. destruct o; [apply same_links_prev|apply same_links_refl]. Qed.

Lemma same_links_nextIf p o h : same_but_links h (alterIf (set_next p) o h).
Proof. destruct o; [apply same_links_next|apply same_links_refl]. Qed.

Lemma unlink_same h l m : same_but_links h (fst (unlink h l m)).
Proof.
  unfold unlink. cbn [fst]. eapply same_links_trans; [|eapply same_links_trans; [apply same_links_prev|apply same_links_next]].
  eapply same_links_trans; [apply same_links_nextIf|apply same_links_prevIf].
Qed.

Lemma link_same h l m : same_but_links h (fst (link h l m)).
Proof. unfold link. cbn [fst]. eapply same_links_trans; [apply same_links_next|apply same_links_prevIf]. Qed.

(** ** The operations on the list *)

Lemma alter_id_None {f : node -> node} (h : heap) m : h !! m = None -> alter f m h = h.
Proof. intros H. apply map_eq. intros i. destruct (decide (m = i)) as [<-|]; [by rewrite lookup_alter_eq, H|by rewrite lookup_alter_ne]. Qed.

Lemma elem_of_last (L : list positive) z : last L = Some z -> z ∈ L.
Proof. apply last_Some_elem_of. Qed.

Lemma elem_of_head (L : list positive) z : head L = Some z -> z ∈ L.
Proof. destruct L; simpl; [done|]. intros [= ->]. set_solver. Qed.

(** Unlinking an element of the list. *)
Lemma unlink_in h L1 m L2 : NoDup (L1 ++ m :: L2) -> chain h None (L1 ++ m :: L2) None ->
  let (h', l') := unlink h (head (L1 ++ m :: L2)) m in
  chain h' None (L1 ++ L2) None /\ l' = head (L1 ++ L2) /\
  (exists n, h' !! m = Some n /\ prev n = None /\ next n = None) /\
  forall m', m' ∉ L1 ++ m :: L2 -> h' !! m' = h !! m'.
Proof.
  intros HN HC. pose proof HN as (N1 & Nd & N2)%NoDup_app. apply NoDup_cons in N2 as [Nm N2].
  rewrite chain_app, chain_cons in HC. cbn [headOr] in HC. destruct HC as (C1 & (n & Hn & Hp & Hx) & C2).
  assert (lastOr None L1 = last L1) as EL by (unfold lastOr; by destruct (last L1)).
  assert (headOr L2 None = head L2) as EH by by destruct L2.
  rewrite EL in Hp. rewrite EH in Hx.
  assert (m ∉ L1) as Nm1 by set_solver.
  assert (last L1 <> Some m) as Na by (intros ?%elem_of_last; done).
  assert (head L2 <> Some m) as Nb by (intros ?%elem_of_head; done).
  unfold unlink, prevOf, nextOf. rewrite Hn. cbn [mbind option_bind]. rewrite Hp, Hx.
  set (h1 := alterIf (set_next (head L2)) (last L1) h).
  assert (h1 !! m = Some n) as Hn1 by (unfold h1; destruct (last L1); simpl; [rewrite lookup_alter_ne by congruence|]; done).
  rewrite Hn1. cbn [mbind option_bind]. rewrite Hp, Hx.
  set (h2 := alterIf (set_prev (last L1)) (head L2) h1).
  assert (h2 !! m = Some n) as Hn2 by (unfold h2; destruct (head L2); simpl; [rewrite lookup_alter_ne by congruence|]; done).
  rewrite Hn2. cbn [mbind option_bind]. rewrite Hx.
  assert (forall m', m' ∉ L1 -> h1 !! m' = h !! m') as F1.
  { intros m' ?. unfold h1. destruct (last L1) eqn:E; [|done]. simpl. rewrite lookup_alter_ne; [done|].
    intros ->. by apply elem_of_last in E. }
  assert (forall m', m' ∉ L2 -> h2 !! m' = h1 !! m') as F2.
  { intros m' ?. unfold h2. destruct (head L2) eqn:E; [|done]. simpl. rewrite lookup_alter_ne; [done|].
    intros ->. by apply elem_of_head in E. }
  split_and!.
  - do 2 (apply chain_alter_out; [set_solver|]). rewrite chain_app, EL, EH. split.
    + apply (chain_frame h1); [intros m' ?; apply F2; set_solver|]. by apply (chain_set_next h L1 None (Some m)).
    + unfold h2. apply (chain_set_prev h1 L2 (Some m)); [done|]. apply (chain_frame h); [|done].
      intros m' ?. apply F1. set_solver.
  - destruct L1 as [|a L1]; simpl; [by rewrite bool_decide_eq_true_2|]. rewrite bool_decide_eq_false_2; [done|]. set_solver.
  - exists (set_next None (set_prev None n)). rewrite lookup_alter_eq, lookup_alter_eq, Hn2. done.
  - intros m' ?. rewrite !lookup_alter_ne by set_solver. rewrite F2, F1 by set_solver. done.
Qed.

(** Unlinking what is not in the list changes nothing. *)
Lemma unlink_out h l m : prevOf h m = None -> nextOf h m = None -> l <> Some m -> unlink h l m = (h, l).
Proof.
  intros Hp Hx Hl. unfold unlink. rewrite Hp. cbn [alterIf]. rewrite Hx. cbn [alterIf].
  rewrite bool_decide_eq_false_2 by done. f_equal. destruct (h !! m) as [n|] eqn:E.
  - unfold prevOf, nextOf in *. rewrite E in Hp, Hx. simpl in *. apply map_eq. intros i.
    destruct (decide (m = i)) as [<-|]; [|by rewrite !lookup_alter_ne].
    rewrite !lookup_alter_eq, E. simpl. destruct n; simpl in *; by subst.
  - rewrite (alter_id_None (f := set_prev None) h m E). by apply alter_id_None.
Qed.

Lemma link_spec h L m n : NoDup L -> chain h None L None -> h !! m = Some n -> prev n = None -> m ∉ L ->
  let (h', l') := link h (head L) m in
  chain h' None (m :: L) None /\ l' = Some m /\ forall m', m' ∉ m :: L -> h' !! m' = h !! m'.
Proof.
  intros HN HC Hn Hp Hm. unfold link, nextOf. rewrite lookup_alter_eq, Hn. cbn.
  split; [|split; [done|]].
  - split.
    + exists (set_next (head L) n). split; [|by destruct L].
      destruct (head L) as [z|] eqn:E; simpl; [|by rewrite lookup_alter_eq, Hn].
      rewrite lookup_alter_ne by (intros ->; by apply elem_of_head in E). by rewrite lookup_alter_eq, Hn.
    + apply (chain_set_prev _ L None); [done|]. by apply chain_alter_out.
  - intros m' ?. destruct (head L) as [z|] eqn:E; simpl; rewrite ?lookup_alter_ne; try done; try set_solver.
    intros ->. apply elem_of_head in E. set_solver.
Qed.

Definition removed (m : positive) (L : list positive) : list positive := filter (fun x => x <> m) L.

Lemma elem_of_removed m x L : x ∈ removed m L <-> x <> m /\ x ∈ L.
Proof. unfold removed. by rewrite list_elem_of_filter. Qed.

Lemma removed_out m L : m ∉ L -> removed m L = L.
Proof.
  unfold removed. induction L as [|x L IH]; intros H; [done|]. rewrite filter_cons_True by set_solver.
  f_equal. apply IH. set_solver.
Qed.

Lemma removed_in L1 m L2 : NoDup (L1 ++ m :: L2) -> removed m (L1 ++ m :: L2) = L1 ++ L2.
Proof.
  intros (_ & Hd & [Hm _]%NoDup_cons)%NoDup_app. unfold removed.
  rewrite filter_app, filter_cons_False by (intros H; by apply H).
  f_equal; apply removed_out; set_solver.
Qed.

Lemma deleteName_spec h L nm cap m :
  names_of h L nm -> Z.of_nat (size nm) <= cap -> nameToModuleShrinkThreshold <= cap -> nameOf h m <> "" ->
  let (nm', cap') := deleteName (Some nm) cap (nameOf h m) m in
  exists nm1, nm' = Some nm1 /\ names_of h (removed m L) nm1 /\
    Z.of_nat (size nm1) <= cap' /\ nameToModuleShrinkThreshold <= cap'.
Proof.
  intros HN Hs Hc Hne. unfold deleteName. cbn [mbind option_bind].
  set (nm1 := if bool_decide (nm !! nameOf h m = Some m) then delete (nameOf h m) nm else nm).
  replace (if bool_decide (nm !! nameOf h m = Some m) then delete (nameOf h m) <$> Some nm else Some nm)
    with (Some nm1) by (unfold nm1; by case_bool_decide).
  assert (names_of h (removed m L) nm1) as H1.
  { unfold nm1. intros name x. rewrite elem_of_removed. case_bool_decide as E.
    - destruct (decide (nameOf h m = name)) as [<-|Hn].
      + rewrite lookup_delete_eq. split; [done|]. intros ([Hx HL] & Hnm & _).
        assert (nm !! nameOf h m = Some x) as E' by by apply HN. congruence.
      + rewrite lookup_delete_ne by done. rewrite (HN name x). split; [|tauto].
        intros (? & ? & ?). split_and!; try done. by intros ->.
    - rewrite (HN name x). split; [|tauto]. intros (HL & Hx & ?). split_and!; try done. intros ->.
      apply E. by apply HN. }
  assert (Z.of_nat (size nm1) <= Z.of_nat (size nm)) as H2.
  { unfold nm1. case_bool_decide as E; [rewrite map_size_delete, E; cbn; lia|lia]. }
  cbn [from_option default id]. unfold nameToModuleShrinkThreshold in *. destruct (_ <? _) eqn:El; bools; (destruct (_ <=? cap) eqn:Ec; bools);
    exists nm1; split_and!; try done; lia.
Qed.

Lemma names_of_frame h h' L nm : same_but_links h h' -> names_of h L nm -> names_of h' L nm.
Proof. intros Hs HN name m. rewrite (same_links_name h h') by done. apply HN. Qed.

Lemma listed_out st L m : listed st L -> m ∉ L -> prevOf (nodes st) m = None /\ nextOf (nodes st) m = None /\ moduleList st <> Some m.
Proof.
  intros HL Hm. unfold prevOf, nextOf. rewrite (l_head _ _ HL). split_and!.
  - destruct (nodes st !! m) as [n|] eqn:E; [|done]. by apply (l_out _ _ HL m n).
  - destruct (nodes st !! m) as [n|] eqn:E; [|done]. by apply (l_out _ _ HL m n).
  - intros ?%elem_of_head. done.
Qed.

(** The pointers after [deleteModule]. *)
Lemma unlink_listed st L m : listed st L ->
  let (h, l) := unlink (nodes st) (moduleList st) m in
  l = head (removed m L) /\ chain h None (removed m L) None /\
  (forall x n, h !! x = Some n -> x ∉ removed m L -> prev n = None /\ next n = None).
Proof.
  intros HL. destruct (decide (m ∈ L)) as [Hin|Hout].
  - apply list_elem_of_split in Hin as (L1 & L2 & ->).
    pose proof (unlink_in (nodes st) L1 m L2 (l_nodup _ _ HL) (l_chain _ _ HL)) as H.
    rewrite <- (l_head _ _ HL) in H. destruct (unlink _ _ m) as [h l].
    destruct H as (HC & -> & (n & Hn & Hp & Hx) & HF). rewrite removed_in by apply HL. split_and!; try done.
    intros x n' Hx' Hxo. destruct (decide (x = m)) as [->|]; [by simplify_eq|].
    rewrite HF in Hx' by set_solver. eapply (l_out _ _ HL); [done|set_solver].
  - destruct (listed_out st L m HL Hout) as (Hp & Hx & Hl). rewrite unlink_out by done.
    rewrite removed_out by done. split_and!; apply HL.
Qed.

Lemma deleteModule_listed st L m : listed st L -> listed (deleteModule st m) (removed m L).
Proof.
  intros HL. unfold deleteModule. pose proof (unlink_listed st L m HL) as H.
  pose proof (unlink_same (nodes st) (moduleList st) m) as Hs. destruct (unlink _ _ m) as [h l]. cbn [fst] in Hs.
  destruct H as (-> & HC & HO). destruct (l_names _ _ HL) as (nm & En & HN & Hsz).
  apply (names_of_frame _ _ _ _ Hs) in HN. assert (NoDup (removed m L)) as Nd by apply NoDup_filter, HL.
  destruct (String.eqb_spec (nameOf h m) "") as [E|E]; cbn [negb].
  - split; try done; [|apply HL]. exists nm. split_and!; try done. intros name x. rewrite (HN name x), elem_of_removed.
    split; [|tauto]. intros (? & Hx & ?). split_and!; try done. intros ->. congruence.
  - pose proof (deleteName_spec h L nm (nameToModuleCap st) m HN Hsz (l_cap _ _ HL) E) as D. rewrite En.
    destruct (deleteName _ _ _ m) as [nm' cap']. destruct D as (nm1 & -> & HN1 & Hs1 & Hc1).
    split; try done. by exists nm1.
Qed.

Lemma registerModule_listed st L m n : listed st L -> nodes st !! m = Some n -> m ∉ L ->
  let (st', r) := registerModule st m in
  match r with
  | Ok _ => listed st' (m :: L) /\ forall x, x ∈ L -> nameOf (nodes st) x = ModuleName n -> ModuleName n = ""
  | Err _ => st' = st /\ ModuleName n <> "" /\ exists x, x ∈ L /\ nameOf (nodes st) x = ModuleName n
  | Panic _ => False
  end.
Proof.
  intros HL Hn Hm. unfold registerModule. destruct (l_names _ _ HL) as (nm & -> & HN & Hsz).
  replace (nameOf (nodes st) m) with (ModuleName n) by (unfold nameOf; by rewrite Hn).
  pose proof (link_spec (nodes st) L m n (l_nodup _ _ HL) (l_chain _ _ HL) Hn) as H.
  pose proof (link_same (nodes st) (moduleList st) m) as Hs.
  rewrite <- (l_head _ _ HL) in H. destruct (link _ _ m) as [h l]. cbn [fst] in Hs.
  destruct H as (HC & -> & HF); [by apply (l_out _ _ HL m n)|done|].
  assert (NoDup (m :: L)) as Nd by (apply NoDup_cons; split; [done|apply HL]).
  assert (nameOf (nodes st) m = ModuleName n) as Enm by (unfold nameOf; by rewrite Hn).
  assert (forall x n', h !! x = Some n' -> x ∉ m :: L -> prev n' = None /\ next n' = None) as HO.
  { intros x n' Hx Hxo. rewrite HF in Hx by done. eapply (l_out _ _ HL); [done|set_solver]. }
  destruct (String.eqb_spec (ModuleName n) "") as [E|E]; cbn [negb].
  - split; [|by intros]. split; try done; [|apply HL]. exists nm. split_and!; try done.
    apply (names_of_frame _ _ _ _ Hs). intros name x. rewrite (HN name x), elem_of_cons. split; [tauto|].
    intros ([->|?] & Hx & ?); [congruence|done].
  - destruct (nm !! ModuleName n) as [x|] eqn:Ex.
    { split; [done|]. split; [done|]. exists x. apply HN in Ex as (? & ? & _). done. }
    split.
    + split; try done; cbn [moduleList nodes nameToModule nameToModuleCap].
      * eexists. split; [done|]. split; [|destruct (_ >? _) eqn:Eg; bools; lia].
        apply (names_of_frame _ _ _ _ Hs). intros name x. rewrite elem_of_cons.
        destruct (decide (ModuleName n = name)) as [<-|Hne].
        -- rewrite lookup_insert_eq. split; [intros [= <-]; auto|]. intros ([->|Hx] & Hnm & _); [done|].
           assert (nm !! ModuleName n = Some x) by by apply HN. congruence.
        -- rewrite lookup_insert_ne by done. rewrite (HN name x). split; [tauto|]. intros ([->|?] & ? & ?); [congruence|done].
      * destruct (_ >? _) eqn:Eg; bools; pose proof (l_cap _ _ HL); lia.
    + intros x Hx Hnm. exfalso. assert (nm !! ModuleName n = Some x) by by apply HN. congruence.
Qed.

Lemma module_listed st L name m : listed st L ->
  module st name = Ok m <-> m ∈ L /\ nameOf (nodes st) m = name /\ name <> "".
Proof.
  intros HL. unfold module, named. destruct (l_names _ _ HL) as (nm & -> & HN & _). cbn.
  rewrite <- (HN name m). destruct (nm !! name); naive_solver.
Qed.

Lemma length_listed st L : listed st L -> (length L <= size (nodes st))%nat.
Proof.
  intros HL. assert (list_to_set L ⊆ dom (nodes st)) as H.
  { intros x Hx%elem_of_list_to_set. apply elem_of_dom. eapply chain_in_heap; [apply HL|done]. }
  apply subseteq_size in H. rewrite size_dom, size_list_to_set in H by apply HL. done.
Qed.

Lemma closeStore_listed st L : listed st L ->
  closed (fst (closeStore st)) /\ snd (closeStore st) = L /\ nodes (fst (closeStore st)) = nodes st.
Proof.
  intros HL. split_and!; try done. unfold closeStore. cbn [snd]. rewrite (l_head _ _ HL).
  eapply snapshot_chain; [apply HL|by apply length_listed].
Qed.

Lemma unlink_nil h m : snd (unlink h None m) = None.
Proof. unfold unlink. cbn [snd]. by rewrite bool_decide_eq_false_2. Qed.

(** A closed store stays closed: deleting a module does not make a new map. *)
Lemma deleteModule_closed st m : closed st -> closed (deleteModule st m).
Proof.
  intros (El & En & Ec). unfold deleteModule. pose proof (unlink_nil (nodes st) m) as Hl. rewrite El, En, Ec.
  destruct (unlink _ None m) as [h l]. cbn [snd] in Hl. subst l.
  destruct (negb _); [|done]. unfold deleteName. cbn. by rewrite bool_decide_eq_false_2.
Qed.

Lemma registerModule_closed st m : closed st -> registerModule st m = (st, Err "already closed").
Proof. intros (_ & En & _). unfold registerModule. by rewrite En. Qed.

Lemma closeStore_closed st : closed st -> closeStore st = (st, []).
Proof.
  intros (El & En & Ec). unfold closeStore. rewrite El. destruct st; simpl in *; subst.
  by destruct (size nodes0).
Qed.

(** ** Property *)

(** C30: The pointer list and the name map of an open store implement a list of
    instances with unique names: looking up a name finds the listed instance
    of that name, [deleteModule] removes the instance and nothing else whether
    or not it is listed, [registerModule] of an unlisted instance puts it in
    front or refuses exactly when its name is taken, leaving the store as it
    was, and the snapshot that closing takes is the list, newest first. *)
Theorem module_list_refines (st : mstore) (L : list positive) (m : positive) (n : node) :
  listed st L -> nodes st !! m = Some n ->
  (forall name x, module st name = Ok x <-> x ∈ L /\ nameOf (nodes st) x = name /\ name <> "") /\
  listed (deleteModule st m) (removed m L) /\
  (m ∉ L ->
     let taken := exists x, x ∈ L /\ nameOf (nodes st) x = ModuleName n /\ ModuleName n <> "" in
     (taken -> fst (registerModule st m) = st /\ exists e, snd (registerModule st m) = Err e) /\
     (~ taken -> listed (fst (registerModule st m)) (m :: L) /\ snd (registerModule st m) = Ok tt)) /\
  snd (closeStore st) = L.
Proof.
  intros HL Hn. split; [intros; by apply module_listed|]. split; [by apply deleteModule_listed|].
  split; [|by apply closeStore_listed]. intros Hm taken.
  pose proof (registerModule_listed st L m n HL Hn Hm) as H.
  destruct (registerModule st m) as [st' [[]|e|e]]; cbn [fst snd]; [| |done].
  - destruct H as [H1 H2]. split; [intros (x & Hx & Ex & Hne); by specialize (H2 x Hx Ex)|done].
  - destruct H as (-> & Hne & x & Hx & Ex). split; [eauto|]. intros []. by exists x.
Qed.

(** Two registered instances and a third that is not. *)
Definition freshNode (name : string) : node := mkNode name None None 0 false None None.
Definition twoModules : mstore :=
  fst (registerModule (fst (registerModule
    (mkStore {[1%positive := freshNode "a"; 2%positive := freshNode ""; 3%positive := freshNode "a"]} None (Some ∅) 100)
    1)) 2).

Lemma listed_new h : (forall m n, h !! m = Some n -> prev n = None /\ next n = None) ->
  listed (mkStore h None (Some ∅) 100) [].
Proof.
  intros Hh. split; try done; [constructor|intros m n H _; by apply (Hh m)|].
  exists ∅. split_and!; [done| |done]. intros name m. rewrite lookup_empty. set_solver.
Qed.

Lemma twoModules_listed : listed twoModules [2; 1]%positive.
Proof.
  set (st0 := mkStore {[1%positive := freshNode "a"; 2%positive := freshNode ""; 3%positive := freshNode "a"]} None (Some ∅) 100).
  assert (listed st0 []) as H0.
  { apply listed_new. intros m n. rewrite !lookup_insert_Some, lookup_singleton_Some. naive_solver. }
  pose proof (registerModule_listed st0 [] 1 (freshNode "a") H0 eq_refl ltac:(set_solver)) as H1.
  destruct (registerModule st0 1) as [st1 r1] eqn:E1. assert (r1 = Ok tt) as -> by (vm_compute in E1; by simplify_eq).
  destruct H1 as [H1 _].
  assert (exists n, nodes st1 !! 2%positive = Some n) as [n Hn] by (vm_compute in E1; simplify_eq; vm_compute; eauto).
  pose proof (registerModule_listed st1 [1%positive] 2 n H1 Hn ltac:(set_solver)) as H2.
  destruct (registerModule st1 2) as [st2 r2] eqn:E2.
  assert (r2 = Ok tt) as -> by (vm_compute in E1; simplify_eq; vm_compute in E2; by simplify_eq).
  replace twoModules with st2; [apply H2|]. unfold twoModules. fold st0. rewrite E1. cbn [fst]. by rewrite E2.
Qed.

Lemma module_list_refines_witness :
  fst (registerModule twoModules 3) = twoModules /\ listed (deleteModule twoModules 1) [2%positive] /\
  snd (closeStore twoModules) = [2; 1]%positive.
Proof.
  destruct (module_list_refines twoModules [2; 1]%positive 3 (freshNode "a") twoModules_listed eq_refl) as (_ & _ & H3 & H4).
  destruct (module_list_refines twoModules [2; 1]%positive 1
    (mkNode "a" (Some 2%positive) None 0 false None None) twoModules_listed eq_refl) as (_ & H2 & _).
  split_and!; [|exact H2|exact H4]. destruct (H3 ltac:(set_solver)) as [H _]. apply H.
  exists 1%positive. split_and!; [set_solver|reflexivity|done].
Defined.
