(* ===== verification/ModuleClose.v ===== *)
(** * Closing modules and stores (src/internal/wasm/module_instance.go, store.go)

    An instance is closed by a compare-and-swap of its [Closed] word, which
    holds a flag and the exit code.  The goroutine that wins removes the
    instance from the store and releases its resources.  Three others may
    compete with it: the goroutine that watches a context, which closes the
    instance but leaves the resources to the next [FailIfClosed]; the closing
    of the store; and the instantiation itself, which registers the instance
    after its start function has run.

    A goroutine is a [pc] between two atomic actions: a locked section of the
    store, the compare-and-swap, or a read or write of a field of the instance.
    [tstep] is one action, [gstep] one action of one goroutine, and [runs] the
    interleavings.  The calls of user code (the close notifier, the file
    system, the code closer) and the retiring of the memory are [effect]s. *)

From S2P Require Import Prelude ModuleList.

(** ** The close word *)

Definition exitCodeFlagMask : Z := 0xff.
Definition exitCodeFlagResourceClosed : Z := Z.shiftl 1 0.
Definition exitCodeFlagResourceNotClosed : Z := Z.shiftl 1 1.

Definition set_Closed (v : Z) (n : node) : node :=
  mkNode (ModuleName n) (prev n) (next n) v (CloseNotifier n) (Sys n) (CodeCloser n).
Definition set_CloseNotifier (v : bool) (n : node) : node :=
  mkNode (ModuleName n) (prev n) (next n) (Closed n) v (Sys n) (CodeCloser n).
Definition set_Sys (v : option (option string)) (n : node) : node :=
  mkNode (ModuleName n) (prev n) (next n) (Closed n) (CloseNotifier n) v (CodeCloser n).
Definition set_CodeCloser (v : option (option string)) (n : node) : node :=
  mkNode (ModuleName n) (prev n) (next n) (Closed n) (CloseNotifier n) (Sys n) v.

Definition set_nodes (h : heap) (st : mstore) : mstore :=
  mkStore h (moduleList st) (nameToModule st) (nameToModuleCap st).
Definition update (f : node -> node) (m : positive) (st : mstore) : mstore :=
  set_nodes (alter f m (nodes st)) st.

Definition closedWord (exitCode flag : Z) : Z := Z.lor flag (wrap64 (Z.shiftl exitCode 32)).
Definition exitCodeOf (word : Z) : Z := wrap32 (Z.shiftr word 32).

Definition IsClosed (n : node) : bool := negb (Closed n =? 0).

(** [None] when the compare-and-swap fails. *)
Definition setExitCode (st : mstore) (m : positive) (exitCode flag : Z) : option mstore :=
  match nodes st !! m with
  | Some n => if Closed n =? 0 then Some (update (set_Closed (closedWord exitCode flag)) m st) else None
  | None => None
  end.

(** ** Goroutines *)

Inductive effect :=
| EvNotify (m : positive) (exitCode : Z)
| EvFS (m : positive)
| EvRetire (m : positive)
| EvCode (m : positive)
| EvRegister (m : positive) (alreadyClosed : bool)
| EvPanic (m : positive).

Inductive result :=
| RNil
| RErr (e : string)
| RExit (exitCode : Z)
| RJoined (errs : list string)
| RModule (m : positive).

Inductive stage :=
| SNotify | SNotified
| SFS | SFSClosed (e : option string)
| SRetire
| SCode | SCodeCall | SCodeClosed (e : option string).

(** What happens when [ensureResourcesClosed] returns. *)
Inductive kont :=
| KReturn
| KDiscard (r : result)
| KStore (rest : list positive) (exitCode : Z) (errs : list string).

Inductive pc :=
| PCheck (name : string) (notifier : bool) (sys code : option (option string)) (failure : option string)
| PInst (m : positive) (notifier : bool) (code : option (option string)) (failure : option string)
| PRegister (m : positive)
| PCas (m : positive) (exitCode flag : Z) (k : kont)
| PDelete (m : positive) (flag : Z) (k : kont)
| PEnsure (m : positive) (s : stage) (err : option string) (k : kont)
| PFail (m : positive)
| PStoreLock (exitCode : Z)
| PStore (rest : list positive) (exitCode : Z) (errs : list string).

(** A goroutine goes on or returns. *)
Definition next_pc : Type := (pc + result)%type.

Definition errorResult (err : option string) : result :=
  match err with None => RNil | Some e => RErr e end.

Definition finish (k : kont) (err : option string) : next_pc :=
  match k with
  | KReturn => inr (errorResult err)
  | KDiscard r => inr r
  | KStore rest code errs => inl (PStore rest code (errs ++ option_list err))
  end.

(** One action of [ensureResourcesClosed]. *)
Definition stepEnsure (st : mstore) (n : node) (m : positive) (s : stage) (err : option string) (k : kont)
    : mstore * list effect * next_pc :=
  match s with
  | SNotify =>
      if CloseNotifier n then (st, [EvNotify m (exitCodeOf (Closed n))], inl (PEnsure m SNotified err k))
      else (st, [], inl (PEnsure m SFS err k))
  | SNotified => (update (set_CloseNotifier false) m st, [], inl (PEnsure m SFS err k))
  | SFS =>
      match Sys n with
      | Some e => (st, [EvFS m], inl (PEnsure m (SFSClosed e) err k))
      | None => (st, [], inl (PEnsure m SRetire err k))
      end
  | SFSClosed e => (update (set_Sys None) m st, [], inl (PEnsure m SRetire e k))
  | SRetire => (st, [EvRetire m], inl (PEnsure m SCode err k))
  | SCode =>
      match CodeCloser n with
      | Some _ => (st, [], inl (PEnsure m SCodeCall err k))
      | None => (st, [], finish k err)
      end
  | SCodeCall =>
      match CodeCloser n with
      | Some e => (st, [EvCode m], inl (PEnsure m (SCodeClosed e) err k))
      | None => (st, [EvPanic m], inr RNil)
      end
  | SCodeClosed e =>
      (update (set_CodeCloser None) m st, [], finish k (match err with None => e | Some _ => err end))
  end.

(** [Instantiate] up to the allocation of the instance, the attaching of the
    hooks, and the registration.  [failure] is the error [instantiate] returns,
    if it does; the instance is then closed by its deferred function. *)
Definition stepCheck (st : mstore) (name : string) (notifier : bool) (sys code : option (option string))
    (failure : option string) : mstore * list effect * next_pc :=
  if negb (String.eqb name "") && bool_decide (is_Some (named st name)) then
    (st, [], inr (RErr ("module[" +:+ name +:+ "] has already been instantiated")))
  else
    let m := fresh (dom (nodes st)) in
    (set_nodes (<[m := mkNode name None None 0 false sys None]> (nodes st)) st, [],
     inl (PInst m notifier code failure)).

Definition stepInst (st : mstore) (m : positive) (notifier : bool) (code : option (option string))
    (failure : option string) : mstore * list effect * next_pc :=
  match failure with
  | Some e => (st, [], inl (PCas m 0 exitCodeFlagResourceClosed (KDiscard (RErr e))))
  | None => (update (fun n => set_CodeCloser code (set_CloseNotifier notifier n)) m st, [], inl (PRegister m))
  end.

Definition stepRegister (st : mstore) (n : node) (m : positive) : mstore * list effect * next_pc :=
  match registerModule st m with
  | (st', Ok _) => (st', [EvRegister m (IsClosed n)], inr (RModule m))
  | (st', Err e) => (st', [], inl (PCas m 0 exitCodeFlagResourceClosed (KDiscard (RErr e))))
  | (st', Panic e) => (st', [EvPanic m], inr RNil)
  end.

(** [CloseWithExitCode] and [closeWithExitCodeWithoutClosingResource], by their flag. *)
Definition stepCas (st : mstore) (m : positive) (exitCode flag : Z) (k : kont) : mstore * list effect * next_pc :=
  match setExitCode st m exitCode flag with
  | Some st' => (st', [], inl (PDelete m flag k))
  | None => (st, [], finish k None)
  end.

Definition stepDelete (st : mstore) (m : positive) (flag : Z) (k : kont) : mstore * list effect * next_pc :=
  (deleteModule st m, [],
   if flag =? exitCodeFlagResourceClosed then inl (PEnsure m SNotify None k) else finish k None).

Definition stepFail (st : mstore) (n : node) (m : positive) : mstore * list effect * next_pc :=
  if Closed n =? 0 then (st, [], inr RNil)
  else
    let exit := RExit (exitCodeOf (Closed n)) in
    if Z.land (Closed n) exitCodeFlagMask =? exitCodeFlagResourceNotClosed
    then (st, [], inl (PEnsure m SNotify None (KDiscard exit)))
    else (st, [], inr exit).

(** The loop of [Store.CloseWithExitCode] over the snapshot, with [closeWithExitCode]. *)
Definition stepStore (st : mstore) (rest : list positive) (exitCode : Z) (errs : list string)
    : mstore * list effect * next_pc :=
  match rest with
  | [] => (st, [], inr (RJoined errs))
  | m :: rest' =>
      match setExitCode st m exitCode exitCodeFlagResourceClosed with
      | Some st' => (st', [], inl (PEnsure m SNotify None (KStore rest' exitCode errs)))
      | None => (st, [], inl (PStore rest' exitCode errs))
      end
  end.

Definition tstep (st : mstore) (p : pc) : option (mstore * list effect * next_pc) :=
  match p with
  | PCheck name notifier sys code failure => Some (stepCheck st name notifier sys code failure)
  | PInst m notifier code failure => Some (stepInst st m notifier code failure)
  | PRegister m => (fun n => stepRegister st n m) <$> nodes st !! m
  | PCas m exitCode flag k => Some (stepCas st m exitCode flag k)
  | PDelete m flag k => Some (stepDelete st m flag k)
  | PEnsure m s err k => (fun n => stepEnsure st n m s err k) <$> nodes st !! m
  | PFail m => (fun n => stepFail st n m) <$> nodes st !! m
  | PStoreLock exitCode => let (st', l) := closeStore st in Some (st', [], inl (PStore l exitCode []))
  | PStore rest exitCode errs => Some (stepStore st rest exitCode errs)
  end.

(** ** Calls and interleavings *)

Inductive ctxErr := Canceled | DeadlineExceeded | OtherErr.
Definition ExitCodeContextCanceled : Z := 0xffffffff.
Definition ExitCodeDeadlineExceeded : Z := 0xefffffff.

Inductive call :=
| CInstantiate (name : string) (notifier : bool) (sys code : option (option string)) (failure : option string)
| CClose (m : positive) (exitCode : Z)
| CCtx (m : positive) (err : ctxErr)
| CWatch (m : positive) (err : ctxErr)
| CFail (m : positive)
| CStoreClose (exitCode : Z).

Definition ctxExitCode (err : ctxErr) : option Z :=
  match err with
  | Canceled => Some ExitCodeContextCanceled
  | DeadlineExceeded => Some ExitCodeDeadlineExceeded
  | OtherErr => None
  end.

(** The first state of a call; [CCtx] is [CloseWithCtxErr] and [CWatch] the
    goroutine [closeModuleOnCanceledOrTimeout] once its context is done and
    its cancel channel is seen open. *)
Definition begin (c : call) : option pc :=
  match c with
  | CInstantiate name notifier sys code failure => Some (PCheck name notifier sys code failure)
  | CClose m exitCode => Some (PCas m exitCode exitCodeFlagResourceClosed KReturn)
  | CCtx m err =>
      (fun c => PCas m c exitCodeFlagResourceClosed (KDiscard RNil)) <$> ctxExitCode err
  | CWatch m err =>
      (fun c => PCas m c exitCodeFlagResourceNotClosed (KDiscard RNil)) <$> ctxExitCode err
  | CFail m => Some (PFail m)
  | CStoreClose exitCode => Some (PStoreLock exitCode)
  end.

Record gstate := mkGstate {
  gstore : mstore;
  threads : gmap nat pc;
  effects : list effect;
  results : list (nat * result);
}.

Inductive event := Call (g : nat) (c : call) | Act (g : nat).

(** The pointers a call is made with must be those of instances. *)
Definition call_target (c : call) : option positive :=
  match c with
  | CClose m _ | CCtx m _ | CWatch m _ | CFail m => Some m
  | _ => None
  end.

Definition target_exists (st : mstore) (c : call) : bool :=
  match call_target c with
  | Some m => bool_decide (is_Some (nodes st !! m))
  | None => true
  end.

Definition gstep (st : gstate) (e : event) : option gstate :=
  match e with
  | Call g c =>
      match threads st !! g, target_exists (gstore st) c, begin c with
      | None, true, Some p => Some (mkGstate (gstore st) (<[g := p]> (threads st)) (effects st) (results st))
      | _, _, _ => None
      end
  | Act g =>
      match threads st !! g with
      | None => None
      | Some p =>
          match tstep (gstore st) p with
          | None => None
          | Some (s', ev, inl p') => Some (mkGstate s' (<[g := p']> (threads st)) (effects st ++ ev) (results st))
          | Some (s', ev, inr r) => Some (mkGstate s' (delete g (threads st)) (effects st ++ ev) ((g, r) :: results st))
          end
      end
  end.

Fixpoint runs (st : gstate) (es : list event) : option gstate :=
  match es with
  | [] => Some st
  | e :: es' => match gstep st e with Some st' => runs st' es' | None => None end
  end.

Definition gstart : gstate := mkGstate NewStore ∅ [] [].

(** ** The instances a goroutine deals with *)

Definition kont_rest (k : kont) : list positive :=
  match k with KStore rest _ _ => rest | _ => [] end.

(** Instances of a snapshot that are still to be closed. *)
Definition pc_rest (p : pc) : list positive :=
  match p with
  | PCas _ _ _ k | PDelete _ _ k | PEnsure _ _ _ k => kont_rest k
  | PStore rest _ _ => rest
  | _ => []
  end.

Definition pc_mods (p : pc) : list positive :=
  match p with
  | PInst m _ _ _ | PRegister m | PCas m _ _ _ | PDelete m _ _ | PEnsure m _ _ _ | PFail m => [m]
  | _ => []
  end ++ pc_rest p.

(** An instance that its goroutine has not registered yet. *)
Definition pending (p : pc) : option positive :=
  match p with PInst m _ _ _ | PRegister m => Some m | _ => None end.

Definition deleting (p : pc) : option positive :=
  match p with PDelete m _ _ => Some m | _ => None end.

(** A goroutine inside the loop that closes the modules of a store. *)
Definition kont_storing (k : kont) : bool := match k with KStore _ _ _ => true | _ => false end.
Definition storing (p : pc) : bool :=
  match p with
  | PCas _ _ _ k | PDelete _ _ k | PEnsure _ _ _ k => kont_storing k
  | PStore _ _ _ => true
  | _ => false
  end.

Definition np_pc (np : next_pc) : option pc := match np with inl p => Some p | inr _ => None end.
Definition np_rest (np : next_pc) : list positive := match np with inl p => pc_rest p | inr _ => [] end.

Definition put (g : nat) (np : next_pc) (t : gmap nat pc) : gmap nat pc :=
  match np with inl p => <[g := p]> t | inr _ => delete g t end.

Lemma lookup_put g np t g' : put g np t !! g' = if decide (g' = g) then np_pc np else t !! g'.
Proof.
  destruct np; simpl; case_decide; subst;
    rewrite ?lookup_insert_eq, ?lookup_insert_ne, ?lookup_delete_eq, ?lookup_delete_ne by congruence; done.
Qed.

Lemma gstep_act st g st' : gstep st (Act g) = Some st' ->
  exists p s' ev np, threads st !! g = Some p /\ tstep (gstore st) p = Some (s', ev, np) /\
    gstore st' = s' /\ threads st' = put g np (threads st) /\ effects st' = effects st ++ ev.
Proof.
  cbn [gstep]. destruct (threads st !! g) as [p|]; [|done].
  destruct (tstep (gstore st) p) as [[[s' ev] np]|] eqn:E; [|done].
  destruct np; intros [= <-]; exists p, s', ev; eexists; done.
Qed.

(** ** Fields of the instances *)

Definition is_closed (st : mstore) (m : positive) : Prop :=
  exists n, nodes st !! m = Some n /\ Closed n <> 0.

(** Instances stay, with their name, and a close word that is set is not changed. *)
Definition heap_le (h h' : heap) : Prop :=
  forall m n, h !! m = Some n -> exists n', h' !! m = Some n' /\ ModuleName n' = ModuleName n /\
    (Closed n <> 0 -> Closed n' = Closed n).

Lemma heap_le_refl h : heap_le h h.
Proof. intros m n H. by exists n. Qed.

Lemma heap_le_alter h f m :
  (forall n, h !! m = Some n -> ModuleName (f n) = ModuleName n /\ (Closed n <> 0 -> Closed (f n) = Closed n)) ->
  heap_le h (alter f m h).
Proof.
  intros Hf x n Hx. destruct (decide (m = x)) as [<-|].
  - exists (f n). rewrite lookup_alter_eq, Hx. split; [done|]. by apply Hf.
  - exists n. by rewrite lookup_alter_ne.
Qed.

Lemma heap_le_links h h' : same_but_links h h' -> heap_le h h'.
Proof.
  intros Hs m n Hn. specialize (Hs m). rewrite Hn in Hs. destruct (h' !! m) as [n'|]; simpl in Hs; [|done].
  injection Hs as ? ? ? ? ?. by exists n'.
Qed.

Lemma heap_le_closed st st' m : heap_le (nodes st) (nodes st') -> is_closed st m -> is_closed st' m.
Proof. intros Hle (n & Hn & Hc). destruct (Hle m n Hn) as (n' & Hn' & _ & E). exists n'. split; [done|]. by rewrite E. Qed.

Lemma heap_le_some h h' m : heap_le h h' -> is_Some (h !! m) -> is_Some (h' !! m).
Proof. intros Hle [n Hn]. destruct (Hle m n Hn) as (n' & -> & _). eauto. Qed.

(** Updates that keep the name and the links keep the list. *)
Definition keeps_links (f : node -> node) : Prop :=
  forall n, ModuleName (f n) = ModuleName n /\ prev (f n) = prev n /\ next (f n) = next n.

Lemma chain_update h f m L : keeps_links f -> forall p q, chain h p L q -> chain (alter f m h) p L q.
Proof.
  intros Hf. induction L as [|x L IH]; intros p q; [done|]. rewrite !chain_cons.
  intros [(n & Hn & Hp & Hx) HC]. split; [|by apply IH].
  destruct (decide (m = x)) as [<-|]; [|exists n; by rewrite lookup_alter_ne].
  exists (f n). rewrite lookup_alter_eq, Hn. destruct (Hf n) as (_ & -> & ->). done.
Qed.

Lemma nameOf_update h f m x : keeps_links f -> nameOf (alter f m h) x = nameOf h x.
Proof.
  intros Hf. unfold nameOf. destruct (decide (m = x)) as [<-|]; [|by rewrite lookup_alter_ne].
  rewrite lookup_alter_eq. destruct (h !! m) as [n|]; [|done]. simpl. apply Hf.
Qed.

Definition list_inv (st : mstore) (L : list positive) : Prop := listed st L \/ (closed st /\ L = []).

Lemma list_inv_update st L f m : keeps_links f -> list_inv st L -> list_inv (update f m st) L.
Proof.
  intros Hf [HL|HC]; [left|right; done]. split; try apply HL.
  - apply chain_update; [done|apply HL].
  - cbn [nodes update set_nodes]. intros x n Hx Ho. destruct (decide (m = x)) as [<-|].
    + rewrite lookup_alter_eq in Hx. destruct (nodes st !! m) as [n0|] eqn:E; simplify_eq/=.
      destruct (Hf n0) as (_ & -> & ->). by apply (l_out _ _ HL m n0).
    + rewrite lookup_alter_ne in Hx by done. by apply (l_out _ _ HL x n).
  - destruct (l_names _ _ HL) as (nm & En & HN & Hs). exists nm. split_and!; try done.
    intros name x. cbn [nodes update set_nodes]. rewrite nameOf_update by done. apply HN.
Qed.

Lemma keeps_set_Closed v : keeps_links (set_Closed v). Proof. done. Qed.
Lemma keeps_set_CloseNotifier v : keeps_links (set_CloseNotifier v). Proof. done. Qed.
Lemma keeps_set_Sys v : keeps_links (set_Sys v). Proof. done. Qed.
Lemma keeps_set_CodeCloser v : keeps_links (set_CodeCloser v). Proof. done. Qed.
Lemma keeps_hooks c v : keeps_links (fun n => set_CodeCloser c (set_CloseNotifier v n)). Proof. done. Qed.
#[export] Hint Resolve keeps_set_Closed keeps_set_CloseNotifier keeps_set_Sys keeps_set_CodeCloser keeps_hooks : wz.

Lemma list_inv_in_heap st L m : list_inv st L -> m ∈ L -> is_Some (nodes st !! m).
Proof.
  intros [HL|[_ ->]] Hm; [|set_solver]. eapply chain_in_heap; [apply HL|done].
Qed.

Lemma list_inv_new st L name sys : list_inv st L ->
  list_inv (set_nodes (<[fresh (dom (nodes st)) := mkNode name None None 0 false sys None]> (nodes st)) st) L.
Proof.
  intros HL. pose proof (is_fresh (dom (nodes st))) as Hf. set (m := fresh (dom (nodes st))) in *.
  assert (nodes st !! m = None) as Hm by by apply not_elem_of_dom.
  assert (m ∉ L) as Hn. { intros Hin. destruct (list_inv_in_heap st L m HL Hin). congruence. }
  destruct HL as [HL|HC]; [left|right; done].
  split; try apply HL; cbn [nodes set_nodes].
  - apply (chain_frame (nodes st)); [|apply HL]. intros x Hx. apply lookup_insert_ne. set_solver.
  - intros x n. destruct (decide (m = x)) as [<-|]; [rewrite lookup_insert_eq; by intros [= <-]|].
    rewrite lookup_insert_ne by done. apply HL.
  - destruct (l_names _ _ HL) as (nm & En & HN & Hs). exists nm. split_and!; try done.
    intros nm' x. rewrite (HN nm' x). split; intros (Hx & Hn' & Hne); (split_and!; [done| |done]); revert Hn';
      unfold nameOf; rewrite lookup_insert_ne by set_solver; done.
Qed.

Lemma heap_le_new h m n : h !! m = None -> heap_le h (<[m := n]> h).
Proof. intros Hm x nx Hx. exists nx. rewrite lookup_insert_ne by congruence. done. Qed.

Lemma closedWord_nonzero code flag : flag = 1 \/ flag = 2 -> closedWord code flag <> 0.
Proof. intros Hf H. unfold closedWord in H. apply Z.lor_eq_0_iff in H as [H _]. lia. Qed.

Lemma setExitCode_spec st m code flag st' : setExitCode st m code flag = Some st' -> flag = 1 \/ flag = 2 ->
  exists n, nodes st !! m = Some n /\ Closed n = 0 /\
  st' = update (set_Closed (closedWord code flag)) m st /\
  heap_le (nodes st) (nodes st') /\ is_closed st' m /\
  (forall x, x <> m -> is_closed st' x -> is_closed st x) /\
  (forall L, list_inv st L -> list_inv st' L).
Proof.
  unfold setExitCode. intros H Hf. destruct (nodes st !! m) as [n|] eqn:E; [|done].
  destruct (Z.eqb_spec (Closed n) 0) as [Ec|]; [|done]. injection H as <-. exists n. split_and!; try done.
  - apply heap_le_alter. intros n' Hn'. split; [done|]. intros. congruence.
  - exists (set_Closed (closedWord code flag) n). cbn [update set_nodes nodes]. rewrite lookup_alter_eq, E.
    split; [done|]. by apply closedWord_nonzero.
  - intros x Hx (n' & Hn' & Hc). cbn [update set_nodes nodes] in Hn'. rewrite lookup_alter_ne in Hn' by done. by exists n'.
  - intros L. apply list_inv_update. auto with wz.
Qed.

Lemma setExitCode_fail st m code flag : setExitCode st m code flag = None -> is_Some (nodes st !! m) -> is_closed st m.
Proof.
  unfold setExitCode. intros H [n E]. rewrite E in H. destruct (Z.eqb_spec (Closed n) 0); [done|]. by exists n.
Qed.

(** ** The invariant of the list *)

Definition flag_ok (p : pc) : Prop :=
  match p with PCas _ _ flag _ => flag = 1 \/ flag = 2 | _ => True end.

Definition panicked (ev : list effect) : Prop := exists m, EvPanic m ∈ ev.
Definition registered_in (ev : list effect) (m : positive) : Prop := exists b, EvRegister m b ∈ ev.

Record inv (st : gstate) (L : list positive) : Prop := {
  i_list : list_inv (gstore st) L;
  i_mods : forall g p m, threads st !! g = Some p -> m ∈ pc_mods p -> is_Some (nodes (gstore st) !! m);
  i_flags : forall g p, threads st !! g = Some p -> flag_ok p;
  i_ev : forall m, registered_in (effects st) m -> is_Some (nodes (gstore st) !! m);
  i_new : forall g p m, threads st !! g = Some p -> pending p = Some m ->
    (m ∉ L) /\ ~ registered_in (effects st) m /\
    forall g' p', threads st !! g' = Some p' -> pending p' = Some m -> g' = g;
  i_del : forall g p m, threads st !! g = Some p -> deleting p = Some m -> is_closed (gstore st) m;
  i_reg : forall m, registered_in (effects st) m ->
    m ∈ L \/ is_closed (gstore st) m \/ panicked (effects st) \/
    exists g p, threads st !! g = Some p /\ m ∈ pc_rest p;
  i_storing : forall g p, threads st !! g = Some p -> storing p = true -> closed (gstore st);
  i_in : forall m, m ∈ L -> registered_in (effects st) m;
  i_stale : forall m, m ∈ L -> is_closed (gstore st) m ->
    EvRegister m true ∈ effects st \/ exists g p, threads st !! g = Some p /\ deleting p = Some m;
}.

(** What one action of a goroutine at [p] must do to keep the invariant. *)
Record act_ok (st : mstore) (L : list positive) (p : pc) (s' : mstore) (L' : list positive)
    (ev : list effect) (np : next_pc) : Prop := {
  a_list : list_inv s' L';
  a_heap : heap_le (nodes st) (nodes s');
  a_np : forall p', np = inl p' -> flag_ok p' /\
    (forall m, m ∈ pc_mods p' -> is_Some (nodes s' !! m)) /\
    (forall m, pending p' = Some m -> (pending p = Some m /\ (m ∉ L')) \/ nodes st !! m = None) /\
    (forall m, deleting p' = Some m -> is_closed s' m);
  a_closed : closed st -> closed s';
  a_storing : forall p', np = inl p' -> storing p' = true -> storing p = true \/ closed s';
  a_ev : forall m b, EvRegister m b ∈ ev -> pending p = Some m /\ m ∈ L';
  a_ev_np : forall m b p', EvRegister m b ∈ ev -> np <> inl p';
  a_grow : forall m, m ∈ L' -> m ∈ L \/ registered_in ev m;
  a_leave : forall m, m ∈ L -> m ∈ L' \/ is_closed s' m \/ m ∈ np_rest np;
  a_rest : forall m, m ∈ pc_rest p -> is_closed s' m \/ m ∈ np_rest np \/ panicked ev;
  a_stale : forall m, m ∈ L' -> is_closed s' m ->
    (m ∈ L /\ is_closed st m /\ deleting p <> Some m) \/ EvRegister m true ∈ ev \/
    exists p', np = inl p' /\ deleting p' = Some m;
}.

Lemma registered_app ev ev' m : registered_in (ev ++ ev') m <-> registered_in ev m \/ registered_in ev' m.
Proof. unfold registered_in. setoid_rewrite elem_of_app. naive_solver. Qed.

Lemma panicked_app ev ev' : panicked (ev ++ ev') <-> panicked ev \/ panicked ev'.
Proof. unfold panicked. setoid_rewrite elem_of_app. naive_solver. Qed.

Lemma elem_of_np_rest m np : m ∈ np_rest np -> exists q, np = inl q /\ m ∈ pc_rest q.
Proof. destruct np as [q|]; simpl; [eauto|set_solver]. Qed.

(** The goroutines after an action of [g]. *)
Lemma act_lookup st st' g np g' q : threads st' = put g np (threads st) -> threads st' !! g' = Some q ->
  (g' = g /\ np = inl q) \/ (g' <> g /\ threads st !! g' = Some q).
Proof.
  intros Et. rewrite Et, lookup_put. case_decide; [|by right]. destruct np; [|done]. intros [= <-]. by left.
Qed.

Lemma act_put st st' g np q : threads st' = put g np (threads st) -> np = inl q -> threads st' !! g = Some q.
Proof. intros Et E. rewrite Et, lookup_put, decide_True by done. by rewrite E. Qed.

Lemma act_keep st st' g np g' q : threads st' = put g np (threads st) ->
  g' <> g -> threads st !! g' = Some q -> threads st' !! g' = Some q.
Proof. intros Et Hne H. by rewrite Et, lookup_put, decide_False. Qed.

Section Act.
Context (st st' : gstate) (L L' : list positive) (g : nat) (p : pc) (ev : list effect) (np : next_pc).
Context (HI : inv st L) (Hg : threads st !! g = Some p).
Context (HA : act_ok (gstore st) L p (gstore st') L' ev np).
Context (Et : threads st' = put g np (threads st)) (Ee : effects st' = effects st ++ ev).

Let Hnp := a_np _ _ _ _ _ _ _ HA.
Let Hev := a_ev _ _ _ _ _ _ _ HA.
Let Hle := a_heap _ _ _ _ _ _ _ HA.

Lemma pending_mods q m : pending q = Some m -> m ∈ pc_mods q.
Proof. unfold pc_mods. destruct q; simpl; intros; simplify_eq; set_solver. Qed.

(** A pending instance of another goroutine is not touched. *)
Lemma act_other_new g' q m : g' <> g -> threads st !! g' = Some q -> pending q = Some m ->
  (m ∉ L') /\ ~ registered_in (effects st') m /\ forall q', np = inl q' -> pending q' <> Some m.
Proof.
  intros Hne H1 H2. destruct (i_new _ _ HI g' q m H1 H2) as (A & B & C).
  assert (pending p <> Some m) as N by (intros E; by apply Hne; rewrite (C g p)).
  assert (~ registered_in ev m) as N2 by (intros [b Hb]; by apply Hev in Hb as [? _]).
  split_and!.
  - intros [?|?]%(a_grow _ _ _ _ _ _ _ HA); done.
  - rewrite Ee, registered_app. tauto.
  - intros q' E Hp. destruct (proj1 (proj2 (proj2 (Hnp q' E))) m Hp) as [[? _]|Hnew]; [done|].
    destruct (i_mods _ _ HI g' q m H1); [by apply pending_mods|congruence].
Qed.

Lemma act_own_new q m : np = inl q -> pending q = Some m -> (m ∉ L') /\ ~ registered_in (effects st') m.
Proof.
  intros E Hp. assert (~ registered_in ev m) as N by (intros [b Hb]; by apply (a_ev_np _ _ _ _ _ _ _ HA m b q Hb)).
  rewrite Ee, registered_app. destruct (proj1 (proj2 (proj2 (Hnp q E))) m Hp) as [[Hp' HL']|Hnew].
  - destruct (i_new _ _ HI g p m Hg Hp') as (_ & ? & _). split; [done|tauto].
  - split.
    + intros [Hin|?]%(a_grow _ _ _ _ _ _ _ HA); [|done].
      destruct (list_inv_in_heap _ _ _ (i_list _ _ HI) Hin). congruence.
    + intros [H|?]; [|done]. destruct (i_ev _ _ HI m H). congruence.
Qed.

Lemma act_new g' q m : threads st' !! g' = Some q -> pending q = Some m ->
  (m ∉ L') /\ ~ registered_in (effects st') m /\
  forall g1 q1, threads st' !! g1 = Some q1 -> pending q1 = Some m -> g1 = g'.
Proof.
  intros [[-> E]|[Hne H]]%(act_lookup _ _ _ _ _ _ Et) Hp.
  - destruct (act_own_new q m E Hp) as [N1 N2]. split_and!; try done.
    intros g1 q1 [[-> _]|[Hne H1]]%(act_lookup _ _ _ _ _ _ Et) H2; [done|].
    destruct (act_other_new g1 q1 m Hne H1 H2) as (_ & _ & N). by destruct (N q E).
  - destruct (act_other_new g' q m Hne H Hp) as (N1 & N2 & N). split_and!; try done.
    intros g1 q1 [[-> E]|[_ H1]]%(act_lookup _ _ _ _ _ _ Et) H2; [by destruct (N q1 E)|].
    by apply (proj2 (proj2 (i_new _ _ HI g' q m H Hp)) g1 q1).
Qed.

Lemma act_reg m : registered_in (effects st') m ->
  m ∈ L' \/ is_closed (gstore st') m \/ panicked (effects st') \/
  exists g p, threads st' !! g = Some p /\ m ∈ pc_rest p.
Proof.
  rewrite Ee, registered_app, panicked_app. intros [Hr|[b Hr]]; [|apply Hev in Hr as [_ ?]; by left].
  assert (m ∈ np_rest np -> exists g p, threads st' !! g = Some p /\ m ∈ pc_rest p) as R.
  { intros (q & E & Hm)%elem_of_np_rest. exists g, q. split; [by apply (act_put _ _ _ _ _ Et)|done]. }
  destruct (i_reg _ _ HI m Hr) as [Hin|[Hc|[?|(g1 & p1 & H1 & H2)]]]; [| |tauto|].
  - destruct (a_leave _ _ _ _ _ _ _ HA m Hin) as [?|[?|?]]; auto.
  - right. left. by eapply heap_le_closed.
  - destruct (decide (g1 = g)) as [->|Hne].
    + rewrite Hg in H1. injection H1 as <-. destruct (a_rest _ _ _ _ _ _ _ HA m H2) as [?|[?|?]]; auto 6.
    + right. right. right. exists g1, p1. split; [by apply (act_keep _ _ _ _ _ _ Et)|done].
Qed.

Lemma inv_act : inv st' L'.
Proof.
  split; [apply HA| | | |apply act_new| |apply act_reg| | |].
  - intros g' q m [[-> E]|[_ H]]%(act_lookup _ _ _ _ _ _ Et) Hm; [by apply (Hnp q E)|].
    eapply heap_le_some; [done|]. by eapply (i_mods _ _ HI).
  - intros g' q [[-> E]|[_ H]]%(act_lookup _ _ _ _ _ _ Et); [by apply (Hnp q E)|by apply (i_flags _ _ HI g')].
  - intros m. rewrite Ee, registered_app. intros [Hr|[b Hr]]; eapply heap_le_some; try done.
    + by apply (i_ev _ _ HI).
    + apply Hev in Hr as [Hp _]. eapply (i_mods _ _ HI); [exact Hg|by apply pending_mods].
  - intros g' q m [[-> E]|[_ H]]%(act_lookup _ _ _ _ _ _ Et) Hm; [by apply (Hnp q E)|].
    eapply heap_le_closed; [done|]. by eapply (i_del _ _ HI).
  - intros g' q [[-> E]|[_ H]]%(act_lookup _ _ _ _ _ _ Et) Hs; [destruct (a_storing _ _ _ _ _ _ _ HA q E Hs) as [Hp|?]; [|done]|];
      apply (a_closed _ _ _ _ _ _ _ HA); by eapply (i_storing _ _ HI).
  - intros m Hm. rewrite Ee, registered_app. destruct (a_grow _ _ _ _ _ _ _ HA m Hm); [|auto].
    left. by apply (i_in _ _ HI).
  - intros m Hm Hc. rewrite Ee. destruct (a_stale _ _ _ _ _ _ _ HA m Hm Hc) as [(H1 & H2 & H3)|[H|(q & E & H)]].
    + destruct (i_stale _ _ HI m H1 H2) as [?|(g1 & p1 & E1 & E2)]; [left; set_solver|].
      right. exists g1, p1. split; [|done]. apply (act_keep _ _ _ _ _ _ Et); [|done]. intros ->.
      rewrite Hg in E1. by injection E1 as ->.
    + left. set_solver.
    + right. exists g, q. split; [by apply (act_put _ _ _ _ _ Et)|done].
Qed.
End Act.

(** ** Every action keeps the invariant *)

Lemma finish_np k e p' : finish k e = inl p' ->
  flag_ok p' /\ pc_mods p' = kont_rest k /\ pending p' = None /\ deleting p' = None /\ kont_storing k = true.
Proof. destruct k; simpl; intros; simplify_eq; done. Qed.

Lemma finish_rest k e : np_rest (finish k e) = kont_rest k.
Proof. by destruct k. Qed.

(** An action that leaves the list alone. *)
Lemma act_quiet st L p s' ev np :
  list_inv s' L -> heap_le (nodes st) (nodes s') ->
  (forall p', np = inl p' -> flag_ok p' /\ (forall m, m ∈ pc_mods p' -> is_Some (nodes s' !! m)) /\
    (forall m, pending p' = Some m -> (pending p = Some m /\ (m ∉ L)) \/ nodes st !! m = None) /\
    (forall m, deleting p' = Some m -> is_closed s' m)) ->
  (forall m b, EvRegister m b ∉ ev) ->
  (forall m, m ∈ pc_rest p -> is_closed s' m \/ m ∈ np_rest np \/ panicked ev) ->
  (forall m, m ∈ L -> is_closed s' m -> is_closed st m \/ exists p', np = inl p' /\ deleting p' = Some m) ->
  deleting p = None -> (closed st -> closed s') ->
  (forall p', np = inl p' -> storing p' = true -> storing p = true \/ closed s') -> act_ok st L p s' L ev np.
Proof.
  intros H1 H2 H3 H4 H5 H6 H7 H8 H9. split; try done; try (by intros; exfalso; eapply H4); auto.
  intros m Hm Hc. rewrite H7. destruct (H6 m Hm Hc) as [?|?]; [left; split_and!; try done; by apply H6|auto].
Qed.

Lemma update_quiet st f m :
  (forall n, Closed (f n) = Closed n) -> keeps_links f ->
  heap_le (nodes st) (nodes (update f m st)) /\
  forall x, is_closed (update f m st) x -> is_closed st x.
Proof.
  intros Hc Hk. split.
  - apply heap_le_alter. intros n _. split; [apply Hk|]. intros. apply Hc.
  - intros x (n & Hn & Hne). cbn [update set_nodes nodes] in Hn. destruct (decide (m = x)) as [<-|].
    + rewrite lookup_alter_eq in Hn. destruct (nodes st !! m) as [n0|] eqn:E; [|done]. simpl in Hn.
      injection Hn as <-. exists n0. split; [done|]. by rewrite <- Hc.
    + rewrite lookup_alter_ne in Hn by done. by exists n.
Qed.

(** Goroutines that neither register nor delete. *)
Definition plain_next (p : pc) (np : next_pc) : Prop :=
  np_rest np = pc_rest p /\ forall p', np = inl p' ->
    flag_ok p' /\ (forall m, m ∈ pc_mods p' -> m ∈ pc_mods p) /\ pending p' = None /\ deleting p' = None /\
    (storing p' = true -> storing p = true).

Lemma act_plain st L p s' ev np :
  list_inv s' L -> heap_le (nodes st) (nodes s') ->
  (forall m, m ∈ pc_mods p -> is_Some (nodes st !! m)) ->
  plain_next p np ->
  (forall m b, EvRegister m b ∉ ev) -> (forall m, is_closed s' m -> is_closed st m) ->
  deleting p = None -> (closed st -> closed s') -> act_ok st L p s' L ev np.
Proof.
  intros H1 H2 H3 [H4 H5] H6 H7 H8 H9. apply act_quiet; try done; [| |by auto|].
  3:{ intros p' E Hs. left. by apply (H5 p' E). }
  - intros p' E. destruct (H5 p' E) as (? & A & B & C & _). split_and!; [done| |congruence|congruence].
    intros m Hm. eapply heap_le_some; [done|]. by apply H3, A.
  - intros m Hm. rewrite H4. auto.
Qed.

Lemma act_update st L p f x np :
  list_inv st L -> (forall m, m ∈ pc_mods p -> is_Some (nodes st !! m)) ->
  plain_next p np -> deleting p = None ->
  (forall n, Closed (f n) = Closed n) -> keeps_links f -> act_ok st L p (update f x st) L [] np.
Proof.
  intros HL Hm Hnp Hd Hc Hk. destruct (update_quiet st f x Hc Hk) as [U1 U2].
  apply act_plain; try done; [by apply list_inv_update|]. intros ? ? H. by apply elem_of_nil in H.
Qed.

Definition kont_of (p : pc) : option kont :=
  match p with PCas _ _ _ k | PDelete _ _ k | PEnsure _ _ _ k => Some k | _ => None end.

Lemma plain_finish p k e : kont_of p = Some k -> plain_next p (finish k e).
Proof.
  intros Hk. assert (pc_rest p = kont_rest k /\ storing p = kont_storing k) as [Hr Hs] by (by destruct p; simplify_eq/=).
  split; [by rewrite finish_rest, Hr|]. intros p' (? & -> & ? & ? & ?)%finish_np. split_and!; try done; [|by rewrite Hs].
  intros m. unfold pc_mods. rewrite Hr, elem_of_app. by right.
Qed.

Lemma plain_ensure m s s' e e' k : plain_next (PEnsure m s e k) (inl (PEnsure m s' e' k)).
Proof. split; [done|]. intros p' [= <-]. by split_and!. Qed.

(** Discharges [EvRegister m b ∉ ev] for a list of other effects. *)
Ltac no_register := let H := fresh in intros ? ? H; apply list_elem_of_In in H; simpl in H; intuition discriminate.

Lemma ensure_act st L n m s err k s' ev np :
  list_inv st L -> (forall x, x ∈ pc_mods (PEnsure m s err k) -> is_Some (nodes st !! x)) ->
  nodes st !! m = Some n -> stepEnsure st n m s err k = (s', ev, np) ->
  act_ok st L (PEnsure m s err k) s' L ev np.
Proof.
  intros HL Hm Hn E. pose proof (fun e => plain_finish (PEnsure m s err k) k e eq_refl) as Hfin.
  destruct s as [| | |e| | | |e]; cbn [stepEnsure] in E.
  7:{ destruct (CodeCloser n) as [e|]; injection E as <- <- <-.
      { apply act_plain; try done; [apply heap_le_refl|apply plain_ensure|no_register]. }
      apply act_quiet; try done; [apply heap_le_refl|no_register| |auto].
      intros x _. right. right. exists m. set_solver. }
  1: destruct (CloseNotifier n). 4: destruct (Sys n) as [e|]. 8: destruct (CodeCloser n) as [e|].
  all: injection E as <- <- <-.
  all: try (apply act_plain; try done; first [apply heap_le_refl | apply plain_ensure | apply Hfin | no_register]).
  all: apply act_update; try done; apply plain_ensure || apply Hfin.
Qed.

Lemma check_act st L name notifier sys code failure s' ev np :
  list_inv st L -> stepCheck st name notifier sys code failure = (s', ev, np) ->
  act_ok st L (PCheck name notifier sys code failure) s' L ev np.
Proof.
  intros HL E. unfold stepCheck in E. destruct (_ && _); injection E as <- <- <-.
  { apply act_quiet; try done; [apply heap_le_refl|no_register|set_solver|auto]. }
  set (m := fresh (dom (nodes st))). assert (nodes st !! m = None) as Hm by (apply not_elem_of_dom, is_fresh).
  apply act_quiet; try done.
  - by apply list_inv_new.
  - by apply heap_le_new.
  - intros p' [= <-]. split_and!; try done.
    + intros x. unfold pc_mods. simpl. rewrite list_elem_of_singleton. intros ->. rewrite lookup_insert_eq. eauto.
    + intros x [= <-]. by right.
  - set_solver.
  - set_solver.
  - intros x Hx (n & Hn & Hc). cbn [set_nodes nodes] in Hn. left. destruct (decide (m = x)) as [<-|].
    + rewrite lookup_insert_eq in Hn. by injection Hn as <-.
    + rewrite lookup_insert_ne in Hn by done. by exists n.
  - by intros p' [= <-].
Qed.

Lemma inst_act st L m notifier code failure s' ev np :
  list_inv st L -> is_Some (nodes st !! m) -> (m ∉ L) -> stepInst st m notifier code failure = (s', ev, np) ->
  act_ok st L (PInst m notifier code failure) s' L ev np.
Proof.
  intros HL Hm HmL E. unfold stepInst in E. destruct failure as [e|]; injection E as <- <- <-.
  - apply act_plain; try done; [apply heap_le_refl|unfold pc_mods; simpl; set_solver| |set_solver].
    split; [done|]. intros p' [= <-]. split_and!; try done. by left.
  - destruct (update_quiet st (fun n => set_CodeCloser code (set_CloseNotifier notifier n)) m) as [U1 U2]; [done|auto with wz|].
    apply act_quiet; try done; [apply list_inv_update; [auto with wz|done]| |set_solver|set_solver|auto|by intros p' [= <-]].
    intros p' [= <-]. split_and!; try done.
    + intros x. unfold pc_mods. simpl. rewrite list_elem_of_singleton. intros ->. by eapply heap_le_some.
    + intros x [= <-]. by left.
Qed.

Lemma cas_act st L m code flag k s' ev np :
  list_inv st L -> flag = 1 \/ flag = 2 ->
  (forall x, x ∈ pc_mods (PCas m code flag k) -> is_Some (nodes st !! x)) ->
  stepCas st m code flag k = (s', ev, np) -> act_ok st L (PCas m code flag k) s' L ev np.
Proof.
  intros HL Hf Hm E. unfold stepCas in E. destruct (setExitCode st m code flag) as [st'|] eqn:Ec; injection E as <- <- <-.
  - destruct (setExitCode_spec _ _ _ _ _ Ec Hf) as (n & Hn & _ & Est & Hle & Hc & Hother & Hlist).
    apply act_quiet; try done; [by apply Hlist| |set_solver|by auto| |by subst|by intros p' [= <-]; left].
    + intros p' [= <-]. split_and!; try done; [|by intros x [= <-]].
      intros x Hx. eapply heap_le_some; [done|]. by apply Hm.
    + intros x Hx Hc'. destruct (decide (x = m)) as [->|]; [right; eauto|left; by apply Hother].
  - apply act_plain; try done; [apply heap_le_refl|by apply plain_finish|set_solver].
Qed.

Lemma same_links_closed h h' m n : same_but_links h h' -> h' !! m = Some n -> exists n', h !! m = Some n' /\ Closed n' = Closed n.
Proof.
  intros Hs Hn. specialize (Hs m). rewrite Hn in Hs. destruct (h !! m) as [n'|]; simpl in Hs; [|done].
  injection Hs as ? ? ? ? ?. by exists n'.
Qed.

Lemma deleteModule_same st m : same_but_links (nodes st) (nodes (deleteModule st m)).
Proof.
  unfold deleteModule. pose proof (unlink_same (nodes st) (moduleList st) m) as H.
  destruct (unlink _ _ m) as [h l]. destruct (negb _); [|done]. by destruct (deleteName _ _ _ m).
Qed.

Lemma registerModule_same st m : same_but_links (nodes st) (nodes (fst (registerModule st m))).
Proof.
  unfold registerModule. pose proof (link_same (nodes st) (moduleList st) m) as H.
  destruct (nameToModule st) as [nm|]; [|done]. destruct (link _ _ m) as [h l].
  destruct (negb _); [|done]. by destruct (nm !! _).
Qed.

Lemma delete_act st L m flag k s' ev np :
  list_inv st L -> is_closed st m -> (forall x, x ∈ pc_mods (PDelete m flag k) -> is_Some (nodes st !! x)) ->
  stepDelete st m flag k = (s', ev, np) -> act_ok st L (PDelete m flag k) s' (removed m L) ev np.
Proof.
  intros HL Hc Hm E. injection E as <- <- <-. pose proof (deleteModule_same st m) as Hs.
  pose proof (heap_le_links _ _ Hs) as Hle.
  assert (plain_next (PDelete m flag k)
    (if flag =? exitCodeFlagResourceClosed then inl (PEnsure m SNotify None k) else finish k None)) as [Hrest Hnp].
  { destruct (_ =? _); [split; [done|]; intros p' [= <-]; by split_and!|by apply plain_finish]. }
  split; try done; try (by intros ? ? ?%elem_of_nil); try (by intros ? ? ? ?%elem_of_nil).
  - destruct HL as [HL|[HC ->]]; [left; by apply deleteModule_listed|right; split; [by apply deleteModule_closed|done]].
  - intros p' E. destruct (Hnp p' E) as (? & A & B & C & _). split_and!; [done| |congruence|congruence].
    intros x Hx. eapply heap_le_some; [done|]. by apply Hm, A.
  - apply deleteModule_closed.
  - intros p' E Hst. left. by apply (Hnp p' E).
  - intros x [_ Hx]%elem_of_removed. by left.
  - intros x Hx. destruct (decide (x = m)) as [->|]; [right; left; by eapply heap_le_closed|].
    left. by apply elem_of_removed.
  - intros x Hx. right. left. exact (eq_ind_r (fun l => x ∈ l) Hx Hrest).
  - intros x [Hne Hx]%elem_of_removed (n & Hn & Hcn). left. destruct (same_links_closed _ _ _ _ Hs Hn) as (n' & Hn' & E').
    split_and!; [done| |simpl; congruence]. exists n'. split; [done|congruence].
Qed.

Lemma listed_not_closed st L : listed st L -> ~ closed st.
Proof. intros HL (_ & E & _). destruct (l_names _ _ HL) as (nm & E' & _). congruence. Qed.

Lemma register_act st L n m s' ev np :
  list_inv st L -> nodes st !! m = Some n -> (m ∉ L) -> stepRegister st n m = (s', ev, np) ->
  exists L', act_ok st L (PRegister m) s' L' ev np.
Proof.
  intros HL Hn Hm E. unfold stepRegister in E. pose proof (registerModule_same st m) as Hs.
  destruct (registerModule st m) as [st' r] eqn:Er. cbn [fst] in Hs.
  assert (forall e, r = Err e -> st' = st -> exists L', act_ok st L (PRegister m) s' L' ev np) as Refused.
  { intros e -> ->. exists L. injection E as <- <- <-.
    apply act_quiet; try done; [apply heap_le_refl| |set_solver|set_solver|auto|by intros p' [= <-]].
    intros p' [= <-]. split_and!; try done; [by left|]. intros x. unfold pc_mods. simpl. rewrite list_elem_of_singleton.
    intros ->. eauto. }
  destruct HL as [HL|[HC ->]].
  2:{ rewrite (registerModule_closed st m HC) in Er. injection Er as <- <-. by eapply Refused. }
  pose proof (registerModule_listed st L m n HL Hn Hm) as H. rewrite Er in H.
  destruct r as [u|e|e]; [|destruct H as (-> & _); by eapply Refused|done].
  injection E as <- <- <-. destruct H as [H _]. exists (m :: L).
  assert (forall x b, EvRegister x b ∈ [EvRegister m (IsClosed n)] -> x = m /\ b = IsClosed n) as Hev.
  { intros x b. rewrite list_elem_of_singleton. by intros [= -> ->]. }
  split; try done.
  - by left.
  - by apply heap_le_links.
  - intros HC. by destruct (listed_not_closed _ _ HL).
  - intros x b [-> _]%Hev. split; [done|]. set_solver.
  - intros x [->|?]%elem_of_cons; [right|by left]. exists (IsClosed n). by apply list_elem_of_singleton.
  - intros x Hx. left. set_solver.
  - intros x Hx. set_solver.
  - intros x [->|Hx]%elem_of_cons (n' & Hn' & Hc); destruct (same_links_closed _ _ _ _ Hs Hn') as (n0 & Hn0 & E0).
    + right. left. apply list_elem_of_singleton. simplify_eq. unfold IsClosed. rewrite E0.
      by rewrite (proj2 (Z.eqb_neq _ _)).
    + left. split_and!; [done| |done]. exists n0. split; [done|congruence].
Qed.

Lemma lock_act st L code : list_inv st L ->
  act_ok st L (PStoreLock code) (fst (closeStore st)) [] [] (inl (PStore (snd (closeStore st)) code [])).
Proof.
  intros HL. assert (closed (fst (closeStore st)) /\ snd (closeStore st) = L /\ nodes (fst (closeStore st)) = nodes st) as (Hc & Hs & Hn).
  { destruct HL as [HL|[HC ->]]; [by apply closeStore_listed|]. rewrite closeStore_closed by done. by split_and!. }
  destruct (closeStore st) as [s1 l1]. cbn [fst snd] in *. subst l1.
  split; try done; try (by intros ? ? ?%elem_of_nil); try (by intros ? ? ? ?%elem_of_nil); try (by intros ? ?%elem_of_nil).
  - by right.
  - rewrite Hn. apply heap_le_refl.
  - intros p' [= <-]. split_and!; try done. intros m. unfold pc_mods. cbn [app pc_rest]. rewrite Hn.
    by apply list_inv_in_heap.
  - by right.
  - intros m Hm. right. right. done.
Qed.

Lemma store_act st L rest code errs s' ev np :
  list_inv st L -> (forall x, x ∈ rest -> is_Some (nodes st !! x)) -> (closed st) ->
  stepStore st rest code errs = (s', ev, np) -> act_ok st L (PStore rest code errs) s' L ev np.
Proof.
  intros HL Hm HC E. assert (L = []) as ->.
  { destruct HL as [HL|[_ ->]]; [|done]. by destruct (listed_not_closed _ _ HL). }
  unfold stepStore in E. destruct rest as [|m rest].
  { injection E as <- <- <-. apply act_quiet; try done; [apply heap_le_refl|set_solver|set_solver|set_solver]. }
  destruct (setExitCode st m code exitCodeFlagResourceClosed) as [st'|] eqn:Ec; injection E as <- <- <-.
  - destruct (setExitCode_spec _ _ _ _ _ Ec) as (n & Hn & _ & Est & Hle & Hc & _ & Hlist); [by left|].
    apply act_quiet; try done; [by apply Hlist| |set_solver| |set_solver|by subst|by left].
    + intros p' [= <-]. split_and!; try done. intros x Hx. eapply heap_le_some; [done|]. by apply Hm.
    + intros x [->|Hx]%elem_of_cons; auto.
  - apply act_quiet; try done; [apply heap_le_refl| |set_solver| |set_solver|by left].
    + intros p' [= <-]. split_and!; try done. intros x Hx. apply Hm. set_solver.
    + intros x [->|Hx]%elem_of_cons; [left|by auto]. eapply setExitCode_fail; [done|]. apply Hm. set_solver.
Qed.

Lemma fail_act st L n m s' ev np :
  list_inv st L -> nodes st !! m = Some n -> stepFail st n m = (s', ev, np) -> act_ok st L (PFail m) s' L ev np.
Proof.
  intros HL Hn E. unfold stepFail in E. assert (s' = st /\ ev = [] /\ plain_next (PFail m) np) as (-> & -> & Hnp).
  { destruct (_ =? 0); [by injection E as <- <- <-|]. destruct (_ =? _); injection E as <- <- <-; split_and!; try done.
    split; [done|]. intros p' [= <-]. by split_and!. }
  apply act_plain; try done; [apply heap_le_refl| |intros ? ? H; by apply elem_of_nil in H].
  intros x. unfold pc_mods. simpl. rewrite list_elem_of_singleton. intros ->. eauto.
Qed.

Lemma tstep_act st L g p s' ev np : inv st L -> threads st !! g = Some p ->
  tstep (gstore st) p = Some (s', ev, np) -> exists L', act_ok (gstore st) L p s' L' ev np.
Proof.
  intros HI Hg E. pose proof (i_list _ _ HI) as HL.
  assert (forall m, m ∈ pc_mods p -> is_Some (nodes (gstore st) !! m)) as Hm by (intros m; by apply (i_mods _ _ HI g p)).
  pose proof (fun m => i_new _ _ HI g p m Hg) as Hnew. pose proof (i_flags _ _ HI g p Hg) as Hf.
  pose proof (fun m => i_del _ _ HI g p m Hg) as Hd. pose proof (i_storing _ _ HI g p Hg) as Hs.
  destruct p as [name notifier sys code failure|m notifier code failure|m|m code flag k|m flag k|m s err k|m|code|rest code errs];
    cbn [tstep] in E.
  - injection E as E. exists L. by apply check_act.
  - injection E as E. exists L. apply inst_act; try done; [apply Hm; unfold pc_mods; set_solver|by apply Hnew].
  - apply fmap_Some in E as (n & Hn & E). eapply register_act; [done|done|by apply Hnew|done].
  - injection E as E. exists L. by apply cas_act.
  - apply (inj Some) in E. exists (removed m L). apply delete_act; try done. by apply Hd.
  - apply fmap_Some in E as (n & Hn & E). exists L. by eapply ensure_act.
  - apply fmap_Some in E as (n & Hn & E). exists L. by eapply fail_act.
  - exists []. pose proof (lock_act (gstore st) L code HL) as H. destruct (closeStore (gstore st)) as [s1 l].
    by injection E as <- <- <-.
  - injection E as E. exists L. apply store_act; try done. by apply Hs.
Qed.

Lemma begin_new c p : begin c = Some p ->
  flag_ok p /\ pending p = None /\ deleting p = None /\ storing p = false /\ pc_rest p = [] /\
  pc_mods p = option_list (call_target c).
Proof.
  destruct c as [| |m err|m err| |]; simpl; intros E; simplify_eq; try (split_and!; simpl; auto; fail);
    destruct err; simplify_eq/=; split_and!; simpl; auto.
Qed.

Lemma call_inv st L g c st' : inv st L -> gstep st (Call g c) = Some st' -> inv st' L.
Proof.
  intros HI E. cbn [gstep] in E. destruct (threads st !! g) eqn:Eg; [done|].
  destruct (target_exists (gstore st) c) eqn:Et; [|done]. destruct (begin c) as [p|] eqn:Eb; [|done]. injection E as <-.
  destruct (begin_new c p Eb) as (B1 & B2 & B3 & B4 & B5 & B6).
  assert (forall g' q, <[g := p]> (threads st) !! g' = Some q -> (g' = g /\ q = p) \/ (g' <> g /\ threads st !! g' = Some q)) as Lk.
  { intros g' q. rewrite lookup_insert_Some. naive_solver. }
  assert (forall g' q, threads st !! g' = Some q -> <[g := p]> (threads st) !! g' = Some q) as Kp.
  { intros g' q Hq. rewrite lookup_insert_ne; [done|congruence]. }
  split; cbn [gstore threads effects]; try apply HI.
  - intros g' q m [[-> ->]|[_ Hq]]%Lk Hm; [|by eapply (i_mods _ _ HI)].
    rewrite B6 in Hm. unfold target_exists in Et. destruct (call_target c) as [m'|]; simpl in Hm; [|set_solver].
    apply list_elem_of_singleton in Hm as ->. by apply bool_decide_eq_true in Et.
  - intros g' q [[-> ->]|[_ Hq]]%Lk; [done|by apply (i_flags _ _ HI g')].
  - intros g' q m [[-> ->]|[_ Hq]]%Lk Hm; [congruence|].
    destruct (i_new _ _ HI g' q m Hq Hm) as (? & ? & C). split_and!; try done.
    intros g1 q1 [[-> ->]|[_ H1]]%Lk H2; [congruence|]. by eapply C.
  - intros g' q m [[-> ->]|[_ Hq]]%Lk Hm; [congruence|by eapply (i_del _ _ HI)].
  - intros m Hm. destruct (i_reg _ _ HI m Hm) as [?|[?|[?|(g' & q & ? & ?)]]]; auto.
    right. right. right. exists g', q. split; [by apply Kp|done].
  - intros g' q [[-> ->]|[_ Hq]]%Lk Hs; [congruence|by eapply (i_storing _ _ HI)].
  - intros m Hm Hc. destruct (i_stale _ _ HI m Hm Hc) as [?|(g' & q & ? & ?)]; [by left|].
    right. exists g', q. split; [by apply Kp|done].
Qed.

Lemma gstep_inv st L e st' : inv st L -> gstep st e = Some st' -> exists L', inv st' L'.
Proof.
  intros HI E. destruct e as [g c|g]; [exists L; by eapply call_inv|].
  apply gstep_act in E as (p & s' & ev & np & Hg & Ht & <- & Et & Ee).
  destruct (tstep_act st L g p (gstore st') ev np HI Hg Ht) as [L' HA]. exists L'. by eapply inv_act.
Qed.

Lemma runs_inv es : forall st L st', inv st L -> runs st es = Some st' -> exists L', inv st' L'.
Proof.
  induction es as [|e es IH]; intros st L st' HI E; cbn [runs] in E; [injection E as <-; eauto|].
  destruct (gstep st e) as [st1|] eqn:E1; [|done]. destruct (gstep_inv st L e st1 HI E1) as [L1 H1]. by eapply IH.
Qed.

Lemma inv_start : inv gstart [].
Proof.
  assert (forall m, ~ registered_in [] m) as N by (intros m [b ?%elem_of_nil]; done).
  split; cbn; try (by intros; rewrite lookup_empty in *); try (by intros ? ?%N); try (by intros ? ?%elem_of_nil).
  left. apply listed_new. intros m n H. by rewrite lookup_empty in H.
Qed.

(** ** Close words are written once *)

Lemma tstep_heap st L g p s' ev np : inv st L -> threads st !! g = Some p ->
  tstep (gstore st) p = Some (s', ev, np) -> heap_le (nodes (gstore st)) (nodes s').
Proof. intros HI Hg E. destruct (tstep_act st L g p s' ev np HI Hg E) as [L' HA]. apply HA. Qed.

Lemma runs_heap es : forall st L st', inv st L -> runs st es = Some st' ->
  heap_le (nodes (gstore st)) (nodes (gstore st')).
Proof.
  induction es as [|e es IH]; intros st L st' HI E; cbn [runs] in E; [injection E as <-; apply heap_le_refl|].
  destruct (gstep st e) as [st1|] eqn:E1; [|done]. destruct (gstep_inv st L e st1 HI E1) as [L1 H1].
  assert (heap_le (nodes (gstore st)) (nodes (gstore st1))) as Hle.
  { destruct e as [g c|g].
    - cbn [gstep] in E1. destruct (threads st !! g), (target_exists (gstore st) c), (begin c); try done.
      injection E1 as <-. apply heap_le_refl.
    - apply gstep_act in E1 as (p & s' & ev & np & Hg & Ht & <- & _). by eapply tstep_heap. }
  intros m n Hn. destruct (Hle m n Hn) as (n1 & Hn1 & N1 & C1).
  destruct (IH st1 L1 st' H1 E m n1 Hn1) as (n2 & Hn2 & N2 & C2). exists n2. split_and!; [done|congruence|].
  intros Hc. rewrite C2; [by apply C1|]. by rewrite C1.
Qed.

(** ** Resources are released once

    Without the goroutines that watch a context, the goroutine that wins the
    compare-and-swap is the only one to release the resources: it holds them
    from then on until [ensureResourcesClosed] has returned. *)

Definition held (p : pc) : option (positive * stage) :=
  match p with
  | PDelete m _ _ => Some (m, SNotify)
  | PEnsure m s _ _ => Some (m, s)
  | _ => None
  end.
Definition np_held (np : next_pc) : option (positive * stage) :=
  match np with inl p => held p | inr _ => None end.

Definition cnt (f : effect -> bool) (ev : list effect) : nat := length (List.filter f ev).
Definition isNotify (m : positive) (e : effect) : bool := match e with EvNotify x _ => bool_decide (x = m) | _ => false end.
Definition isFS (m : positive) (e : effect) : bool := match e with EvFS x => bool_decide (x = m) | _ => false end.
Definition isRetire (m : positive) (e : effect) : bool := match e with EvRetire x => bool_decide (x = m) | _ => false end.
Definition isCode (m : positive) (e : effect) : bool := match e with EvCode x => bool_decide (x = m) | _ => false end.

(** At most so many notifications, file system closes and code closes, and
    exactly so many retirements. *)
Record tally := mkTally { tNotify : nat; tFS : nat; tRetire : nat; tCode : nat }.
Definition tally_ok (ev : list effect) (m : positive) (t : tally) : Prop :=
  (cnt (isNotify m) ev <= tNotify t)%nat /\ (cnt (isFS m) ev <= tFS t)%nat /\
  cnt (isRetire m) ev = tRetire t /\ (cnt (isCode m) ev <= tCode t)%nat.

Definition stage_tally (s : stage) : tally :=
  match s with
  | SNotify => mkTally 0 0 0 0
  | SNotified | SFS => mkTally 1 0 0 0
  | SFSClosed _ | SRetire => mkTally 1 1 0 0
  | SCode | SCodeCall => mkTally 1 1 1 0
  | SCodeClosed _ => mkTally 1 1 1 1
  end.
Definition full_tally : tally := mkTally 1 1 1 1.
Definition np_tally (np : next_pc) : tally :=
  match np_held np with Some (_, s) => stage_tally s | None => full_tally end.

Definition cc (st : mstore) (m : positive) : option (option string) := nodes st !! m ≫= CodeCloser.

Definition closing_flag (p : pc) : Prop :=
  match p with
  | PCas _ _ flag _ | PDelete _ flag _ => flag = exitCodeFlagResourceClosed
  | _ => True
  end.
Definition inst_of (p : pc) : option positive := match p with PInst m _ _ _ => Some m | _ => None end.

Definition words_ok (st : mstore) : Prop := forall m n, nodes st !! m = Some n -> Closed n <> 0 ->
  Z.land (Closed n) exitCodeFlagMask <> exitCodeFlagResourceNotClosed.

Record tok (st : gstate) : Prop := {
  t_unique : forall g g' p p' m s s', threads st !! g = Some p -> threads st !! g' = Some p' ->
    held p = Some (m, s) -> held p' = Some (m, s') -> g = g';
  t_held : forall g p m s, threads st !! g = Some p -> held p = Some (m, s) ->
    is_closed (gstore st) m /\ tally_ok (effects st) m (stage_tally s);
  t_open : forall m, ~ is_closed (gstore st) m -> tally_ok (effects st) m (stage_tally SNotify);
  t_done : forall m, is_closed (gstore st) m ->
    (forall g p s, threads st !! g = Some p -> held p <> Some (m, s)) -> tally_ok (effects st) m full_tally;
  t_code : forall g p m, threads st !! g = Some p -> held p = Some (m, SCodeCall) -> cc (gstore st) m <> None;
  t_inst : forall g p m, threads st !! g = Some p -> inst_of p = Some m -> cc (gstore st) m = None;
  t_flag : forall g p, threads st !! g = Some p -> closing_flag p;
  t_words : words_ok (gstore st);
  t_panic : ~ panicked (effects st);
}.

(** The three ways an action moves the resources: not at all, taking those of
    an open instance, and going on with those that are held. *)
Inductive moves (st : mstore) (p : pc) (s' : mstore) (ev : list effect) (np : next_pc) : Prop :=
| moves_none : held p = None -> np_held np = None ->
    (forall x, is_closed s' x <-> is_closed st x) -> (forall x t base, tally_ok base x t -> tally_ok (base ++ ev) x t) ->
    moves st p s' ev np
| moves_take m : held p = None -> np_held np = Some (m, SNotify) -> ~ is_closed st m ->
    (forall x, is_closed s' x <-> is_closed st x \/ x = m) -> ev = [] -> moves st p s' ev np
| moves_on m s : held p = Some (m, s) -> (forall x s2, np_held np = Some (x, s2) -> x = m) ->
    (forall x, is_closed s' x <-> is_closed st x) ->
    (forall x t base, x <> m -> tally_ok base x t -> tally_ok (base ++ ev) x t) ->
    (forall base, tally_ok base m (stage_tally s) -> tally_ok (base ++ ev) m (np_tally np)) ->
    moves st p s' ev np.

Record tok_act (st : mstore) (p : pc) (s' : mstore) (ev : list effect) (np : next_pc) : Prop := {
  k_moves : moves st p s' ev np;
  k_code : forall x, cc s' x = cc st x \/ (cc s' x = None /\ exists e, held p = Some (x, SCodeClosed e)) \/ inst_of p = Some x;
  k_call : forall m, np_held np = Some (m, SCodeCall) -> cc s' m <> None;
  k_inst : forall p' m, np = inl p' -> inst_of p' = Some m -> cc s' m = None;
  k_flag : forall p', np = inl p' -> closing_flag p';
  k_words : words_ok s';
  k_panic : ~ panicked ev;
}.

Section Tok.
Context (st st' : gstate) (L : list positive) (g : nat) (p : pc) (ev : list effect) (np : next_pc).
Context (HI : inv st L) (HT : tok st) (Hg : threads st !! g = Some p).
Context (HK : tok_act (gstore st) p (gstore st') ev np).
Context (Et : threads st' = put g np (threads st)) (Ee : effects st' = effects st ++ ev).

Lemma np_held_inl x s : np_held np = Some (x, s) -> exists q, np = inl q /\ held q = Some (x, s).
Proof. destruct np as [q|]; simpl; [eauto|done]. Qed.

(** What a goroutine holds after the action. *)
Lemma tok_lookup g' q m s : threads st' !! g' = Some q -> held q = Some (m, s) ->
  (g' = g /\ np_held np = Some (m, s)) \/ (g' <> g /\ threads st !! g' = Some q).
Proof.
  intros H Hh. destruct (act_lookup st st' g np g' q Et H) as [[-> E]|?]; [left|by right].
  split; [done|]. by rewrite E.
Qed.

(** An instance held by another goroutine is held by that goroutine only. *)
Lemma tok_other g' q m s : g' <> g -> threads st !! g' = Some q -> held q = Some (m, s) ->
  (forall s2, held p <> Some (m, s2)) /\ (forall s2, np_held np <> Some (m, s2)) /\ is_closed (gstore st') m /\
  forall t, tally_ok (effects st) m t -> tally_ok (effects st ++ ev) m t.
Proof.
  intros Hne Hq Hh. destruct (t_held _ HT g' q m s Hq Hh) as [Hc _].
  assert (forall s2, held p <> Some (m, s2)) as Hp by (intros s2 E; by apply Hne, (t_unique _ HT g' g q p m s s2)).
  split; [done|]. destruct (k_moves _ _ _ _ _ HK) as [Hp0 Hn Hcl Hev|m0 Hp0 Hn Ho Hcl Hev|m0 s0 Hp0 Hn Hcl Hev _].
  - split_and!; [by rewrite Hn|by apply Hcl|auto].
  - split_and!; [rewrite Hn; intros s2 [= -> _]; done|apply Hcl; auto|rewrite Hev, app_nil_r; auto].
  - assert (m <> m0) as Hne' by (intros ->; by apply (Hp s0)).
    split_and!; [intros s2 E; by apply Hne', (Hn m s2)|by apply Hcl|auto].
Qed.

Lemma tok_own m s : np_held np = Some (m, s) ->
  is_closed (gstore st') m /\ tally_ok (effects st') m (stage_tally s).
Proof.
  intros E. rewrite Ee. destruct (k_moves _ _ _ _ _ HK) as [Hp0 Hn Hcl Hev|m0 Hp0 Hn Ho Hcl Hev|m0 s0 Hp0 Hn Hcl Hev Hm].
  - congruence.
  - rewrite Hn in E. injection E as <- <-. split; [apply Hcl; auto|]. rewrite Hev, app_nil_r. by apply (t_open _ HT).
  - destruct (t_held _ HT g p m0 s0 Hg Hp0) as [Hc Ht]. rewrite (Hn m s E). split; [by apply Hcl|].
    apply Hm in Ht. unfold np_tally in Ht. by rewrite E in Ht.
Qed.

Lemma tok_open m : ~ is_closed (gstore st') m -> tally_ok (effects st') m (stage_tally SNotify).
Proof.
  intros Hc. rewrite Ee. destruct (k_moves _ _ _ _ _ HK) as [Hp0 Hn Hcl Hev|m0 Hp0 Hn Ho Hcl Hev|m0 s0 Hp0 Hn Hcl Hev Hm];
    rewrite Hcl in Hc.
  - by apply Hev, (t_open _ HT).
  - rewrite Hev, app_nil_r. apply (t_open _ HT). tauto.
  - assert (m <> m0). { intros ->. apply Hc. by apply (t_held _ HT g p m0 s0). } by apply Hev, (t_open _ HT).
Qed.

Lemma tok_done m : is_closed (gstore st') m ->
  (forall g p s, threads st' !! g = Some p -> held p <> Some (m, s)) -> tally_ok (effects st') m full_tally.
Proof.
  intros Hc Hno. rewrite Ee.
  assert (forall s, np_held np <> Some (m, s)) as Hnp.
  { intros s (q & E & Hq)%np_held_inl. apply (Hno g q s); [|done]. by apply (act_put st st' g np q Et). }
  assert ((forall s, held p <> Some (m, s)) -> is_closed (gstore st) m -> tally_ok (effects st) m full_tally) as Hold.
  { intros Hp Hc0. apply (t_done _ HT); [done|]. intros g' q s Hq Hh. destruct (decide (g' = g)) as [->|Hne].
    - rewrite Hg in Hq. injection Hq as <-. by apply (Hp s).
    - apply (Hno g' q s); [|done]. by apply (act_keep st st' g np g' q Et). }
  destruct (k_moves _ _ _ _ _ HK) as [Hp0 Hn Hcl Hev|m0 Hp0 Hn Ho Hcl Hev|m0 s0 Hp0 Hn Hcl Hev Hm]; rewrite Hcl in Hc.
  - apply Hev, Hold; [by rewrite Hp0|done].
  - destruct Hc as [Hc| ->]; [|by destruct (Hnp SNotify)]. rewrite Hev, app_nil_r. apply Hold; [by rewrite Hp0|done].
  - destruct (decide (m = m0)) as [->|Hne].
    + destruct (t_held _ HT g p m0 s0 Hg Hp0) as [_ Ht]. apply Hm in Ht. unfold np_tally in Ht.
      destruct (np_held np) as [[x s2]|] eqn:E; [|done]. destruct (Hnp s2). by rewrite (Hn x s2 eq_refl).
    + apply Hev; [done|]. apply Hold; [|done]. intros s E. congruence.
Qed.

Lemma tok_step : tok st'.
Proof.
  split; [| |apply tok_open|apply tok_done| | | |apply HK|].
  - intros g1 g2 p1 p2 m s1 s2 H1 H2 E1 E2.
    destruct (tok_lookup g1 p1 m s1 H1 E1) as [[-> A1]|[N1 A1]], (tok_lookup g2 p2 m s2 H2 E2) as [[-> A2]|[N2 A2]]; try done.
    + destruct (tok_other g2 p2 m s2 N2 A2 E2) as (_ & N & _). by destruct (N s1).
    + destruct (tok_other g1 p1 m s1 N1 A1 E1) as (_ & N & _). by destruct (N s2).
    + by eapply (t_unique _ HT g1 g2).
  - intros g1 p1 m s H1 E1. destruct (tok_lookup g1 p1 m s H1 E1) as [[-> A1]|[N1 A1]]; [by apply tok_own|].
    destruct (tok_other g1 p1 m s N1 A1 E1) as (_ & _ & Hc & Ht). split; [done|]. rewrite Ee.
    by apply Ht, (t_held _ HT g1 p1 m s).
  - intros g1 p1 m H1 E1. destruct (tok_lookup g1 p1 m _ H1 E1) as [[-> A1]|[N1 A1]]; [by apply (k_call _ _ _ _ _ HK)|].
    pose proof (t_code _ HT g1 p1 m A1 E1) as Hc. destruct (k_code _ _ _ _ _ HK m) as [->|[[_ [e He]]|Hi]]; [done| |].
    + destruct (tok_other g1 p1 m _ N1 A1 E1) as (N & _). by destruct (N (SCodeClosed e)).
    + by destruct (Hc (t_inst _ HT g p m Hg Hi)).
  - intros g1 p1 m H1 E1. destruct (act_lookup st st' g np g1 p1 Et H1) as [[-> E]|[N1 A1]]; [by eapply (k_inst _ _ _ _ _ HK)|].
    pose proof (t_inst _ HT g1 p1 m A1 E1) as Hc. destruct (k_code _ _ _ _ _ HK m) as [->|[[? _]|Hi]]; [done|done|].
    destruct N1. eapply (i_new _ _ HI g p m Hg); [|exact A1|]; [by destruct p; simplify_eq/=|by destruct p1; simplify_eq/=].
  - intros g1 p1 H1. destruct (act_lookup st st' g np g1 p1 Et H1) as [[-> E]|[_ A1]]; [by apply (k_flag _ _ _ _ _ HK)|].
    by apply (t_flag _ HT g1).
  - rewrite Ee, panicked_app. intros [?|?]; [by apply (t_panic _ HT)|by apply (k_panic _ _ _ _ _ HK)].
Qed.
End Tok.

Definition same_words (st s' : mstore) : Prop := forall x, Closed <$> nodes s' !! x = Closed <$> nodes st !! x.

Lemma same_words_closed st s' : same_words st s' -> forall x, is_closed s' x <-> is_closed st x.
Proof.
  assert (forall a b, same_words a b -> forall x, is_closed b x -> is_closed a x) as H.
  { intros a b Hs x (n & Hn & Hc). specialize (Hs x). rewrite Hn in Hs. destruct (nodes a !! x) as [n'|] eqn:E; [|done].
    simpl in Hs. injection Hs as Hs. exists n'. split; [done|congruence]. }
  intros Hs x. split; [by apply H|]. apply H. intros y. by rewrite Hs.
Qed.

Lemma same_words_ok st s' : same_words st s' -> words_ok st -> words_ok s'.
Proof.
  intros Hs Hw m n Hn. specialize (Hs m). rewrite Hn in Hs. destruct (nodes st !! m) as [n'|] eqn:E; [|done].
  simpl in Hs. injection Hs as ->. by apply (Hw m n').
Qed.

Lemma same_words_update st f m : (forall n, Closed (f n) = Closed n) -> same_words st (update f m st).
Proof.
  intros Hf x. cbn [update set_nodes nodes]. destruct (decide (m = x)) as [<-|]; [|by rewrite lookup_alter_ne].
  rewrite lookup_alter_eq. destruct (nodes st !! m); simpl; [by rewrite Hf|done].
Qed.

Lemma cc_update st f m x : (forall n, CodeCloser (f n) = CodeCloser n) -> cc (update f m st) x = cc st x.
Proof.
  intros Hf. unfold cc. cbn [update set_nodes nodes]. destruct (decide (m = x)) as [<-|]; [|by rewrite lookup_alter_ne].
  rewrite lookup_alter_eq. destruct (nodes st !! m); simpl; [by rewrite Hf|done].
Qed.

Lemma cc_update_ne st f m x : x <> m -> cc (update f m st) x = cc st x.
Proof. intros Hne. unfold cc. cbn [update set_nodes nodes]. by rewrite lookup_alter_ne. Qed.

Lemma same_links_words st s' : same_but_links (nodes st) (nodes s') -> same_words st s' /\ forall x, cc s' x = cc st x.
Proof.
  intros Hs. split; intros x; specialize (Hs x); unfold cc; destruct (nodes st !! x), (nodes s' !! x); simpl in *; try done;
    injection Hs; congruence.
Qed.

Lemma cnt_app f a b : cnt f (a ++ b) = (cnt f a + cnt f b)%nat.
Proof. unfold cnt. by rewrite List.filter_app, length_app. Qed.

Lemma tally_app ev base m a b c d t :
  cnt (isNotify m) ev = a -> cnt (isFS m) ev = b -> cnt (isRetire m) ev = c -> cnt (isCode m) ev = d ->
  tally_ok base m t -> tally_ok (base ++ ev) m (mkTally (tNotify t + a) (tFS t + b) (tRetire t + c) (tCode t + d)).
Proof. unfold tally_ok. intros <- <- <- <-. rewrite !cnt_app. simpl. lia. Qed.

Lemma tally_mono ev m t t' : tRetire t = tRetire t' -> (tNotify t <= tNotify t')%nat -> (tFS t <= tFS t')%nat ->
  (tCode t <= tCode t')%nat -> tally_ok ev m t -> tally_ok ev m t'.
Proof. unfold tally_ok. lia. Qed.

(** Effects that are not about the resources of [x]. *)
Lemma tally_same ev base x t : (forall e, e ∈ ev -> isNotify x e || isFS x e || isRetire x e || isCode x e = false) ->
  tally_ok base x t -> tally_ok (base ++ ev) x t.
Proof.
  intros Hev. assert (forall f : effect -> bool, (forall e, e ∈ ev -> f e = false) -> cnt f ev = 0%nat) as Z.
  { intros f Hf. unfold cnt. clear Hev. induction ev as [|e ev IH]; [done|]. simpl. rewrite Hf by set_solver.
    apply IH. intros. apply Hf. set_solver. }
  intros Ht. pose proof (tally_app ev base x 0 0 0 0 t) as H. rewrite !Nat.add_0_r in H. destruct t. apply H; [..|done];
    apply Z; intros e He; specialize (Hev e He); rewrite !orb_false_iff in Hev; tauto.
Qed.

Lemma tally_nil base x t : tally_ok base x t -> tally_ok (base ++ []) x t.
Proof. by rewrite app_nil_r. Qed.

(** Actions that hold nothing before and after. *)
Lemma tok_quiet st p s' ev np :
  words_ok st -> held p = None -> np_held np = None -> same_words st s' ->
  (forall x, cc s' x = cc st x \/ inst_of p = Some x) ->
  (ev = [] \/ exists m b, ev = [EvRegister m b]) ->
  (forall p', np = inl p' -> closing_flag p' /\ inst_of p' = None) ->
  tok_act st p s' ev np.
Proof.
  intros Hw Hp Hn Hs Hcc Hev Hnp.
  assert (forall e, e ∈ ev -> exists m b, e = EvRegister m b) as He.
  { intros e He. destruct Hev as [->|(m & b & ->)]; [by apply elem_of_nil in He|]. apply list_elem_of_singleton in He. eauto. }
  split.
  - apply moves_none; try done; [by apply same_words_closed|]. intros x t base. apply tally_same.
    intros e (m & b & ->)%He. done.
  - intros x. destruct (Hcc x); auto.
  - rewrite Hn. done.
  - intros p' m E H. destruct (Hnp p' E) as [_ ?]. congruence.
  - intros p' E. by apply Hnp.
  - by eapply same_words_ok.
  - intros [m H]. apply He in H as (? & ? & ?). done.
Qed.

Lemma finish_quiet k e : np_held (finish k e) = None /\ forall p', finish k e = inl p' -> closing_flag p' /\ inst_of p' = None.
Proof. destruct k; simpl; split; try done. by intros p' [= <-]. Qed.

Lemma same_words_refl st : same_words st st.
Proof. by intros x. Qed.

Lemma closedWord_land code : Z.land (closedWord code exitCodeFlagResourceClosed) exitCodeFlagMask = 1.
Proof.
  unfold closedWord. rewrite Z.land_lor_distr_l. change (Z.land exitCodeFlagResourceClosed exitCodeFlagMask) with 1.
  replace (Z.land (wrap64 (Z.shiftl code 32)) exitCodeFlagMask) with 0; [done|].
  change exitCodeFlagMask with (Z.ones 8). rewrite Z.land_ones by lia. unfold wrap64. rewrite Z.shiftl_mul_pow2 by lia.
  change (2 ^ 64) with (2 ^ 32 * 2 ^ 32). rewrite Z.mul_mod_distr_r by lia.
  change (2 ^ 32) with (2 ^ 24 * 2 ^ 8) at 2. rewrite Z.mul_assoc, Z.mod_mul by lia. done.
Qed.

(** Winning the compare-and-swap with the flag of closed resources. *)
Lemma tok_take st p s' code m q :
  words_ok st -> held p = None -> inst_of p = None -> setExitCode st m code exitCodeFlagResourceClosed = Some s' ->
  held q = Some (m, SNotify) -> inst_of q = None -> closing_flag q -> tok_act st p s' [] (inl q).
Proof.
  intros Hw Hp Hi Es Hq Hqi Hqf.
  destruct (setExitCode_spec _ _ _ _ _ Es) as (n & Hn & Hc0 & -> & Hle & Hc & Hother & _); [by left|].
  split; cbn [np_held].
  - apply (moves_take _ _ _ _ _ m); try done.
    + intros (n' & Hn' & ?). congruence.
    + intros x. split; [|intros [?| ->]; [by eapply heap_le_closed|done]].
      intros Hx. destruct (decide (x = m)) as [->|]; [by right|left; by apply Hother].
  - intros x. left. by apply cc_update.
  - intros x E. congruence.
  - intros p' x [= <-]. congruence.
  - by intros p' [= <-].
  - intros x nx Hx Hne. cbn [update set_nodes nodes] in Hx. destruct (decide (m = x)) as [<-|].
    + rewrite lookup_alter_eq, Hn in Hx. injection Hx as <-. cbn [Closed set_Closed]. by rewrite closedWord_land.
    + rewrite lookup_alter_ne in Hx by done. by apply (Hw x nx).
  - by intros [x ?%elem_of_nil].
Qed.

(** Going on with the resources of [m]. *)
Lemma tok_on st p s' ev np m s :
  words_ok st -> held p = Some (m, s) -> same_words st s' ->
  (forall x s2, np_held np = Some (x, s2) -> x = m /\ (s2 = SCodeCall -> cc s' m <> None)) ->
  (forall x, x <> m -> cc s' x = cc st x) -> (cc s' m = cc st m \/ (cc s' m = None /\ exists e, s = SCodeClosed e)) ->
  (forall x t base, x <> m -> tally_ok base x t -> tally_ok (base ++ ev) x t) ->
  (forall base, tally_ok base m (stage_tally s) -> tally_ok (base ++ ev) m (np_tally np)) ->
  (forall p', np = inl p' -> closing_flag p' /\ inst_of p' = None) -> ~ panicked ev ->
  tok_act st p s' ev np.
Proof.
  intros Hw Hp Hs Hn Hcc Hcm Hx Hm Hnp Hpan. split; try done.
  - apply (moves_on _ _ _ _ _ m s); try done; [intros x s2 E; by apply (Hn x s2)|by apply same_words_closed].
  - intros x. destruct (decide (x = m)) as [->|]; [|left; by apply Hcc].
    destruct Hcm as [?|[? [e ->]]]; [by left|]. right. left. eauto.
  - intros x E. destruct (Hn x _ E) as [-> H]. by apply H.
  - intros p' x E H. destruct (Hnp p' E). congruence.
  - intros p' E. by apply Hnp.
  - by eapply same_words_ok.
Qed.

Lemma not_panicked ev : (forall m, EvPanic m ∉ ev) -> ~ panicked ev.
Proof. intros H [m Hm]. by apply (H m). Qed.

Lemma tally_one (e : effect) base m t t' :
  (cnt (isNotify m) [e] + tNotify t <= tNotify t')%nat -> (cnt (isFS m) [e] + tFS t <= tFS t')%nat ->
  (cnt (isRetire m) [e] + tRetire t = tRetire t')%nat -> (cnt (isCode m) [e] + tCode t <= tCode t')%nat ->
  tally_ok base m t -> tally_ok (base ++ [e]) m t'.
Proof. unfold tally_ok. rewrite !cnt_app. lia. Qed.

(** The actions of [ensureResourcesClosed] by the shape of the step: an effect
    on [m], nothing, a write to [m], the last one. *)
Lemma tok_ensure_event st m s s2 err err2 k e :
  words_ok st -> s2 <> SCodeCall -> (forall x, e <> EvPanic x) ->
  (forall x, x <> m -> isNotify x e || isFS x e || isRetire x e || isCode x e = false) ->
  (forall base, tally_ok base m (stage_tally s) -> tally_ok (base ++ [e]) m (stage_tally s2)) ->
  tok_act st (PEnsure m s err k) st [e] (inl (PEnsure m s2 err2 k)).
Proof.
  intros Hw Hc Hp Hx Hm. apply (tok_on _ _ _ _ _ m s); try done.
  - by intros x s3 [= <- <-].
  - by left.
  - intros x t base Hne. apply tally_same. intros e' ->%list_elem_of_singleton. auto.
  - by intros p' [= <-].
  - apply not_panicked. intros x E%list_elem_of_singleton. by apply (Hp x).
Qed.

Lemma tok_ensure_skip st m s s2 err err2 k :
  words_ok st -> (s2 = SCodeCall -> cc st m <> None) ->
  (forall base, tally_ok base m (stage_tally s) -> tally_ok base m (stage_tally s2)) ->
  tok_act st (PEnsure m s err k) st [] (inl (PEnsure m s2 err2 k)).
Proof.
  intros Hw Hc Hm. apply (tok_on _ _ _ _ _ m s); try done.
  - by intros x s3 [= <- <-].
  - by left.
  - intros x t base _. apply tally_nil.
  - intros base H. by apply tally_nil, Hm.
  - by intros p' [= <-].
  - by intros [x ?%elem_of_nil].
Qed.

Lemma tok_ensure_write st f m s s2 err err2 k :
  words_ok st -> (forall n, Closed (f n) = Closed n) -> (forall n, CodeCloser (f n) = CodeCloser n) ->
  s2 <> SCodeCall -> stage_tally s = stage_tally s2 ->
  tok_act st (PEnsure m s err k) (update f m st) [] (inl (PEnsure m s2 err2 k)).
Proof.
  intros Hw H1 H2 H3 H4. apply (tok_on _ _ _ _ _ m s); try done.
  - by apply same_words_update.
  - by intros x s3 [= <- <-].
  - intros x _. by apply cc_update.
  - left. by apply cc_update.
  - intros x t base _. apply tally_nil.
  - intros base. unfold np_tally. cbn [np_held held]. rewrite <- H4. apply tally_nil.
  - by intros p' [= <-].
  - by intros [x ?%elem_of_nil].
Qed.

Lemma tok_ensure_finish st s' m s err k e :
  words_ok st -> same_words st s' -> (forall x, x <> m -> cc s' x = cc st x) ->
  (cc s' m = cc st m \/ (cc s' m = None /\ exists e, s = SCodeClosed e)) -> tRetire (stage_tally s) = 1%nat ->
  tok_act st (PEnsure m s err k) s' [] (finish k e).
Proof.
  intros Hw H1 H2 H3 H4. destruct (finish_quiet k e) as [F1 F2]. apply (tok_on _ _ _ _ _ m s); try done.
  - by rewrite F1.
  - intros x t base _. apply tally_nil.
  - intros base H. apply tally_nil. unfold np_tally. rewrite F1. revert H. apply tally_mono; [done|..]; destruct s; simpl; lia.
  - by intros [x ?%elem_of_nil].
Qed.

Lemma ensure_tok st n m s err k s' ev np :
  words_ok st -> nodes st !! m = Some n -> (s = SCodeCall -> cc st m <> None) ->
  stepEnsure st n m s err k = (s', ev, np) -> tok_act st (PEnsure m s err k) s' ev np.
Proof.
  intros Hw Hn Hc E.
  assert (cc st m = CodeCloser n) as Ecc by (unfold cc; by rewrite Hn).
  assert (forall x, x <> m -> bool_decide (m = x) = false) as Hne by (intros; by apply bool_decide_eq_false_2).
  assert (bool_decide (m = m) = true) as Heq by by apply bool_decide_eq_true_2.
  destruct s as [| | |e| | | |e]; cbn [stepEnsure] in E.
  - destruct (CloseNotifier n); injection E as <- <- <-.
    + apply tok_ensure_event; try done; try (intros x Hx; simpl; by rewrite Hne).
      intros base. apply tally_one; unfold cnt; simpl; rewrite ?Heq; simpl; lia.
    + apply tok_ensure_skip; try done. intros base. apply tally_mono; simpl; lia.
  - injection E as <- <- <-. by apply tok_ensure_write.
  - destruct (Sys n) as [e|]; injection E as <- <- <-.
    + apply tok_ensure_event; try done; try (intros x Hx; simpl; by rewrite Hne).
      intros base. apply tally_one; unfold cnt; simpl; rewrite ?Heq; simpl; lia.
    + apply tok_ensure_skip; try done. intros base. apply tally_mono; simpl; lia.
  - injection E as <- <- <-. by apply tok_ensure_write.
  - injection E as <- <- <-. apply tok_ensure_event; try done; try (intros x Hx; simpl; by rewrite Hne).
    intros base. apply tally_one; unfold cnt; simpl; rewrite ?Heq; simpl; lia.
  - destruct (CodeCloser n) as [e|] eqn:Ec; injection E as <- <- <-.
    + apply tok_ensure_skip; try done. congruence.
    + apply tok_ensure_finish; try done. by left.
  - rewrite <- Ecc in E. destruct (cc st m) as [e|] eqn:Ec; [|by destruct (Hc eq_refl)]. injection E as <- <- <-.
    apply tok_ensure_event; try done; try (intros x Hx; simpl; by rewrite Hne).
    intros base. apply tally_one; unfold cnt; simpl; rewrite ?Heq; simpl; lia.
  - injection E as <- <- <-. apply tok_ensure_finish; try done.
    + by apply same_words_update.
    + intros x Hx. by apply cc_update_ne.
    + right. split; [|eauto]. unfold cc. cbn [update set_nodes nodes]. by rewrite lookup_alter_eq, Hn.
Qed.

(** Closes the side conditions of [tok_quiet] for an action without effects. *)
Ltac quiet :=
  apply tok_quiet; try done; try (by left); try (let p' := fresh "p'" in by intros p' [= <-]).

Lemma cas_tok st p m code flag k s' ev np :
  words_ok st -> p = PCas m code flag k -> closing_flag p -> stepCas st m code flag k = (s', ev, np) ->
  tok_act st p s' ev np.
Proof.
  intros Hw -> Hf E. simpl in Hf. subst flag. unfold stepCas in E.
  destruct (setExitCode st m code exitCodeFlagResourceClosed) as [st'|] eqn:Ec; injection E as <- <- <-.
  - by eapply tok_take.
  - destruct (finish_quiet k None). quiet.
Qed.

Lemma register_tok st n m s' ev np : words_ok st -> stepRegister st n m = (s', ev, np) ->
  (forall e, snd (registerModule st m) <> Panic e) -> tok_act st (PRegister m) s' ev np.
Proof.
  intros Hw E Hp. unfold stepRegister in E. destruct (same_links_words st (fst (registerModule st m))) as [S1 S2];
    [apply registerModule_same|]. destruct (registerModule st m) as [st' r]. cbn [fst snd] in *.
  destruct r as [u|e|e]; [| |by destruct (Hp e)]; injection E as <- <- <-; quiet;
    try (intros x; left; apply S2). right. eauto.
Qed.

Lemma store_tok st rest code errs s' ev np : words_ok st -> stepStore st rest code errs = (s', ev, np) ->
  tok_act st (PStore rest code errs) s' ev np.
Proof.
  intros Hw E. unfold stepStore in E. destruct rest as [|m rest].
  { injection E as <- <- <-. quiet. }
  destruct (setExitCode st m code exitCodeFlagResourceClosed) as [st'|] eqn:Ec; injection E as <- <- <-.
  - by eapply tok_take.
  - quiet.
Qed.

Lemma check_tok st name notifier sys code failure s' ev np : words_ok st ->
  stepCheck st name notifier sys code failure = (s', ev, np) ->
  tok_act st (PCheck name notifier sys code failure) s' ev np.
Proof.
  intros Hw E. unfold stepCheck in E. destruct (_ && _); injection E as <- <- <-.
  { quiet. }
  set (m := fresh (dom (nodes st))). assert (nodes st !! m = None) as Hm by (apply not_elem_of_dom, is_fresh).
  set (s' := set_nodes _ st).
  assert (forall x, x <> m -> nodes s' !! x = nodes st !! x) as Hx by (intros; by apply lookup_insert_ne).
  assert (nodes s' !! m = Some (mkNode name None None 0 false sys None)) as Hs by apply lookup_insert_eq.
  assert (forall x, is_closed s' x <-> is_closed st x) as Hcl.
  { intros x. unfold is_closed. destruct (decide (x = m)) as [->|]; [|by rewrite Hx].
    rewrite Hs, Hm. split; intros (n & ? & ?); simplify_eq/=. }
  assert (forall x, cc s' x = cc st x) as Hcc.
  { intros x. unfold cc. destruct (decide (x = m)) as [->|]; [by rewrite Hs, Hm|by rewrite Hx]. }
  split; cbn [np_held held]; try done.
  - apply moves_none; try done. intros x t base. apply tally_nil.
  - intros x. by left.
  - intros p' x [= <-] [= <-]. by rewrite Hcc; unfold cc; rewrite Hm.
  - by intros p' [= <-].
  - intros x n. destruct (decide (x = m)) as [->|]; [rewrite Hs; by intros [= <-]|]. rewrite Hx by done. apply Hw.
  - by intros [x ?%elem_of_nil].
Qed.

Lemma tstep_tok st L g p s' ev np : inv st L -> tok st -> threads st !! g = Some p ->
  tstep (gstore st) p = Some (s', ev, np) -> tok_act (gstore st) p s' ev np.
Proof.
  intros HI HT Hg E. pose proof (t_words _ HT) as Hw. pose proof (t_flag _ HT g p Hg) as Hf.
  destruct p as [name notifier sys code failure|m notifier code failure|m|m code flag k|m flag k|m s err k|m|code|rest code errs];
    cbn [tstep] in E.
  - apply (inj Some) in E. by apply check_tok.
  - apply (inj Some) in E. unfold stepInst in E. destruct failure as [e|]; injection E as <- <- <-.
    + quiet.
    + quiet; [by apply same_words_update|].
      intros x. destruct (decide (x = m)) as [->|]; [by right|left; by apply cc_update_ne].
  - apply fmap_Some in E as (n & Hn & E). eapply register_tok; [done|done|]. intros e He.
    destruct (i_new _ _ HI g _ m Hg eq_refl) as [Hm _]. destruct (i_list _ _ HI) as [HL|[HC _]].
    + pose proof (registerModule_listed _ L m n HL Hn Hm) as H. destruct (registerModule (gstore st) m) as [? []]; by simplify_eq/=.
    + by rewrite registerModule_closed in He.
  - apply (inj Some) in E. by eapply cas_tok.
  - apply (inj Some) in E. simpl in Hf. subst flag. injection E as <- <- <-.
    destruct (same_links_words _ _ (deleteModule_same (gstore st) m)) as [S1 S2].
    apply (tok_on _ _ _ _ _ m SNotify); try done; [by intros x s2 [= <- <-]|by left| | |by intros p' [= <-]|by intros [x ?%elem_of_nil]].
    + intros x t base _. apply tally_nil.
    + intros base. apply tally_nil.
  - apply fmap_Some in E as (n & Hn & E). eapply ensure_tok; try done. intros ->. by apply (t_code _ HT g _ m Hg).
  - apply fmap_Some in E as (n & Hn & E). symmetry in E. unfold stepFail in E.
    destruct (Z.eqb_spec (Closed n) 0); [|rewrite (proj2 (Z.eqb_neq _ _)) in E by by apply (Hw m n)];
      injection E as <- <- <-; quiet.
  - destruct (closeStore (gstore st)) as [s1 l] eqn:Ec. injection E as <- <- <-. injection Ec as <- _.
    quiet.
  - apply (inj Some) in E. by eapply store_tok.
Qed.

Definition no_watch (es : list event) : Prop := forall g m err, Call g (CWatch m err) ∉ es.

Lemma call_tok st L g c st' : inv st L -> tok st -> (forall m err, c <> CWatch m err) ->
  gstep st (Call g c) = Some st' -> tok st'.
Proof.
  intros HI HT Hc E. cbn [gstep] in E. destruct (threads st !! g) eqn:Eg; [done|].
  destruct (target_exists (gstore st) c); [|done]. destruct (begin c) as [p|] eqn:Eb; [|done]. injection E as <-.
  assert (held p = None /\ inst_of p = None /\ closing_flag p) as (B1 & B2 & B3).
  { destruct c as [| |m err|m err| |]; simpl in Eb; simplify_eq; try done; [destruct err; by simplify_eq/=|by destruct (Hc m err)]. }
  assert (forall g' q, <[g := p]> (threads st) !! g' = Some q -> (g' = g /\ q = p) \/ (threads st !! g' = Some q)) as Lk.
  { intros g' q. rewrite lookup_insert_Some. naive_solver. }
  split; cbn [gstore threads effects]; try apply HT.
  - intros g1 g2 p1 p2 m s1 s2 [[-> ->]|H1]%Lk [[-> ->]|H2]%Lk E1 E2; try congruence. by eapply (t_unique _ HT g1 g2).
  - intros g1 p1 m s [[-> ->]|H1]%Lk E1; [congruence|]. by apply (t_held _ HT g1 p1).
  - intros m Hm Hno. apply (t_done _ HT); [done|]. intros g1 p1 s H1. apply (Hno g1).
    rewrite lookup_insert_ne; [done|congruence].
  - intros g1 p1 m [[-> ->]|H1]%Lk E1; [congruence|]. by apply (t_code _ HT g1 p1).
  - intros g1 p1 m [[-> ->]|H1]%Lk E1; [congruence|]. by apply (t_inst _ HT g1 p1).
  - intros g1 p1 [[-> ->]|H1]%Lk; [done|]. by apply (t_flag _ HT g1).
Qed.

Lemma runs_tok es : forall st L st', inv st L -> tok st -> no_watch es -> runs st es = Some st' -> tok st'.
Proof.
  induction es as [|e es IH]; intros st L st' HI HT Hn E; cbn [runs] in E; [by injection E as <-|].
  destruct (gstep st e) as [st1|] eqn:E1; [|done]. destruct (gstep_inv st L e st1 HI E1) as [L1 H1].
  eapply (IH st1 L1); [done| |intros g m err H; apply (Hn g m err); set_solver|done].
  destruct e as [g c|g].
  - apply (call_tok st L g c st1 HI HT); [|done]. intros m err ->. apply (Hn g m err). set_solver.
  - apply gstep_act in E1 as (p & s' & ev & np & Hg & Ht & <- & Et & Ee).
    apply (tok_step st st1 L g p ev np HI HT Hg); [|done|done]. by eapply tstep_tok.
Qed.

Lemma tok_start : tok gstart.
Proof.
  assert (forall m n, nodes NewStore !! m = Some n -> False) as N by exact (lookup_empty_Some (M := gmap positive) (A := node)).
  assert (forall g p, threads gstart !! g = Some p -> False) as T by exact (lookup_empty_Some (M := gmap nat) (A := pc)).
  split; try (by intros ? ? ? ? ? ? ? []%T); try (by intros ? ? ? ? []%T); try (by intros ? ? ? []%T); try (by intros ? ? []%T).
  - done.
  - intros m (n & []%N & _).
  - intros m n []%N.
  - by intros [x ?%elem_of_nil].
Qed.

Lemma exitCodeOf_closedWord code flag : is_u32 code -> flag = 1 \/ flag = 2 -> exitCodeOf (closedWord code flag) = code.
Proof.
  intros Hc Hf. unfold exitCodeOf, closedWord. rewrite Z.shiftr_lor. unfold is_u32 in Hc.
  replace (Z.shiftr flag 32) with 0 by by destruct Hf as [-> | ->]. rewrite Z.lor_0_l.
  rewrite wrap64_small by (unfold is_u64; rewrite Z.shiftl_mul_pow2 by lia; lia).
  rewrite Z.shiftr_shiftl_l, Z.sub_diag, Z.shiftl_0_r by lia. by apply wrap32_small.
Qed.

(** ** Properties *)

(** C27: In every interleaving of instantiations, closes, context
    cancellations and the closing of the store, the pointers and the name map
    of the store represent a list of registered instances, or the store is
    closed and empty; an instance in it that is closed is about to be removed
    by the goroutine that closed it, or was already closed when it was
    registered; and a close word, once set, is never written again. *)
Theorem modules_registry (es es' : list event) (st st' : gstate) :
  runs gstart es = Some st -> runs st es' = Some st' ->
  (exists L, list_inv (gstore st) L /\
     (forall m, m ∈ L -> registered_in (effects st) m) /\
     (forall m, m ∈ L -> is_closed (gstore st) m ->
        EvRegister m true ∈ effects st \/ exists g flag k, threads st !! g = Some (PDelete m flag k))) /\
  (forall m n, nodes (gstore st) !! m = Some n -> Closed n <> 0 ->
     exists n', nodes (gstore st') !! m = Some n' /\ Closed n' = Closed n).
Proof.
  intros H H'. destruct (runs_inv _ _ _ _ inv_start H) as [L HI]. split.
  - exists L. split; [apply HI|]. split; [apply HI|]. intros m Hm Hc.
    destruct (i_stale _ _ HI m Hm Hc) as [?|(g & p & Hg & Hd)]; [by left|right].
    destruct p; simplify_eq/=. eauto.
  - intros m n Hn Hc. destruct (runs_heap _ _ _ _ HI H' m n Hn) as (n' & ? & _ & E). eauto.
Qed.

(** C26: When a store has been closed, no call is in progress and no call has
    panicked, every instance that was ever registered in it is closed, however
    the closing was interleaved with instantiations and other closes. *)
Theorem store_close_complete (es : list event) (st : gstate) (m : positive) :
  runs gstart es = Some st -> closed (gstore st) -> threads st = ∅ -> ~ panicked (effects st) ->
  registered_in (effects st) m -> is_closed (gstore st) m.
Proof.
  intros H Hc Ht Hp Hr. destruct (runs_inv _ _ _ _ inv_start H) as [L HI].
  destruct (i_reg _ _ HI m Hr) as [Hin|[?|[?|(g & p & Hg & _)]]]; [|done|done|].
  - destruct (i_list _ _ HI) as [HL|[_ ->]]; [by destruct (listed_not_closed _ _ HL)|by apply elem_of_nil in Hin].
  - by rewrite Ht, lookup_empty in Hg.
Qed.

(** C25: Without goroutines that watch a context, the resources of an instance
    are released by one goroutine: the notifier, the file system and the code
    closer are called at most once, nothing is called for an open instance, no
    call panics on a nil code closer, and when no call is in progress the
    memory of every closed instance has been retired exactly once. *)
Theorem resources_released_once (es : list event) (st : gstate) (m : positive) :
  runs gstart es = Some st -> no_watch es ->
  (cnt (isNotify m) (effects st) <= 1)%nat /\ (cnt (isFS m) (effects st) <= 1)%nat /\
  (cnt (isCode m) (effects st) <= 1)%nat /\ (cnt (isRetire m) (effects st) <= 1)%nat /\ ~ panicked (effects st) /\
  (~ is_closed (gstore st) m -> tally_ok (effects st) m (mkTally 0 0 0 0)) /\
  (threads st = ∅ -> is_closed (gstore st) m -> cnt (isRetire m) (effects st) = 1%nat).
Proof.
  intros H Hn. pose proof (runs_tok _ _ _ _ inv_start tok_start Hn H) as HT.
  assert (exists t, tally_ok (effects st) m t /\ (tNotify t <= 1 /\ tFS t <= 1 /\ tRetire t <= 1 /\ tCode t <= 1)%nat) as (t & Ht & Hb).
  { destruct (decide (Exists (fun gp => fst <$> held (snd gp) = Some m) (map_to_list (threads st)))) as [Hex|Hno].
    - apply Exists_exists in Hex as ([g p] & Hin & Hh). apply elem_of_map_to_list in Hin.
      apply fmap_Some in Hh as ([x s] & Hh & ->).
      exists (stage_tally s). split; [by apply (t_held _ HT g p x s)|]. destruct s; simpl; lia.
    - destruct (nodes (gstore st) !! m) as [n|] eqn:E; [destruct (decide (Closed n = 0))|].
      + exists (stage_tally SNotify). split; [|simpl; lia]. apply (t_open _ HT). intros (n' & ? & ?). congruence.
      + exists full_tally. split; [|simpl; lia]. apply (t_done _ HT); [by exists n|]. intros g p s Hg Hh. apply Hno.
        apply Exists_exists. exists (g, p). split; [by apply elem_of_map_to_list|]. cbn [snd]. by rewrite Hh.
      + exists (stage_tally SNotify). split; [|simpl; lia]. apply (t_open _ HT). intros (n' & ? & ?). congruence. }
  unfold tally_ok in Ht. split_and!; try lia; [apply HT|apply HT|].
  intros Hempty Hc. apply (t_done _ HT m Hc). intros g p s Hg. by rewrite Hempty, lookup_empty in Hg.
Qed.

(** A store with a named instance that has all resources, closed with its
    store while it is being closed by itself. *)
Definition inst1 : call := CInstantiate "a" true (Some None) (Some (Some "busy")) None.
Definition closing_run : list event :=
  [Call 0 inst1; Act 0; Act 0; Act 0; Call 1 (CClose 1 7); Act 1; Call 2 (CStoreClose 3); Act 2]%nat.
Definition closed_run : list event :=
  closing_run ++ [Act 2; Act 2] ++ replicate 9 (Act 1%nat).

Definition state_of (es : list event) : gstate := default gstart (runs gstart es).

Lemma modules_registry_witness :
  let st := state_of closing_run in
  threads st !! 1%nat = Some (PDelete 1 1 KReturn) /\
  (exists L, list_inv (gstore st) L /\
     (forall m, m ∈ L -> registered_in (effects st) m) /\
     (forall m, m ∈ L -> is_closed (gstore st) m ->
        EvRegister m true ∈ effects st \/ exists g flag k, threads st !! g = Some (PDelete m flag k))) /\
  (forall m n, nodes (gstore st) !! m = Some n -> Closed n <> 0 ->
     exists n', nodes (gstore (state_of closed_run)) !! m = Some n' /\ Closed n' = Closed n).
Proof.
  intros st. split; [reflexivity|].
  apply (modules_registry closing_run ([Act 2; Act 2] ++ replicate 9 (Act 1))%nat st (state_of closed_run));
    vm_compute; reflexivity.
Defined.

Lemma store_close_complete_witness : is_closed (gstore (state_of closed_run)) 1.
Proof.
  apply (store_close_complete closed_run).
  - vm_compute. reflexivity.
  - vm_compute. done.
  - vm_compute. reflexivity.
  - apply not_panicked. intros m. vm_compute (effects _). rewrite list_elem_of_In. simpl. intuition discriminate.
  - exists false. vm_compute (effects _). rewrite list_elem_of_In. simpl. auto.
Defined.

Lemma resources_released_once_witness :
  effects (state_of closed_run) = [EvRegister 1 false; EvNotify 1 7; EvFS 1; EvRetire 1; EvCode 1] /\
  cnt (isRetire 1) (effects (state_of closed_run)) = 1%nat.
Proof.
  split; [vm_compute; reflexivity|].
  destruct (resources_released_once closed_run (state_of closed_run) 1) as (_ & _ & _ & _ & _ & _ & H).
  - vm_compute. reflexivity.
  - intros g m err. rewrite list_elem_of_In. vm_compute. intuition discriminate.
  - apply H; [vm_compute; reflexivity|]. eexists. split; [vm_compute; reflexivity|vm_compute; discriminate].
Defined.

(** An instance whose context is canceled when its start function has returned
    and before it is registered; afterwards it is closed, and instantiated
    again under its name. *)
Definition stale_run : list event :=
  [Call 0 inst1; Act 0; Act 0; Call 1 (CWatch 1 Canceled); Act 1; Act 1; Act 0;
   Call 2 (CClose 1 0); Act 2; Call 3 inst1; Act 3]%nat.

(** A registered instance whose context is canceled, and two calls into it that
    notice at the same time. *)
Definition race_run : list event :=
  [Call 0 inst1; Act 0; Act 0; Act 0; Call 1 (CWatch 1 DeadlineExceeded); Act 1; Act 1;
   Call 2 (CFail 1); Call 3 (CFail 1); Act 2; Act 3; Act 2; Act 3]%nat
  ++ replicate 5 (Act 2%nat) ++ replicate 4 (Act 3%nat) ++ [Act 2; Act 2; Act 3]%nat.

(** With a goroutine that watches a context both guarantees fail.  An
    instance that is canceled between the return of its start function and its
    registration is registered all the same: it stays in the store, closed and
    with its resources in place, closing it again does nothing, and its name
    cannot be used again.  And two calls that find the instance canceled both
    release its resources: the notifier is called twice, and a call panics on
    the code closer that the other has set to nil. *)
Theorem watch_races :
  (exists st n, runs gstart stale_run = Some st /\ threads st = ∅ /\
     module (gstore st) "a" = Ok 1%positive /\ nodes (gstore st) !! 1%positive = Some n /\ IsClosed n = true /\
     CloseNotifier n = true /\ effects st = [EvRegister 1 true] /\
     results st = [(3%nat, RErr "module[a] has already been instantiated"); (2%nat, RNil);
                   (0%nat, RModule 1); (1%nat, RNil)]) /\
  (exists st, runs gstart race_run = Some st /\ cnt (isNotify 1) (effects st) = 2%nat /\ EvPanic 1 ∈ effects st).
Proof.
  split.
  - eexists. eexists. split; [vm_compute; reflexivity|]. split_and!; try (vm_compute; reflexivity).
  - eexists. split; [vm_compute; reflexivity|]. split; [vm_compute; reflexivity|].
    rewrite list_elem_of_In. simpl. tauto.
Qed.
