(* ===== verification/Binary.v ===== *)
(** * The binary decoder (src/internal/wasm/binary)

    [DecodeModule] and the decoders of the sections, over a reader: the list of
    the bytes that are left, the state of the monad [R].  A Go string is a
    sequence of bytes and a Rocq [string] here.  The pointers that the maps of
    imports and exports hold into their sections are the positions there.

    A vector of [n] elements is read by [vector], whose fuel is the length of
    the reader: every element takes at least a byte.  The size of an
    allocation is not modelled, except that [make] panics on a negative one.
    DWARF data, which is optional and only used in traces, is left out; the
    custom sections it comes from are read. *)

From Stdlib Require Import Ascii.
From S2P Require Import Prelude Leb128 Features Opcodes Types ValStack ConstExpr TypeIDs.

(** ** Decoded modules *)

Record Table := mkTable {
  TableMin : Z; TableMax : option Z; TableRefType : ValueType; TableInitExpr : option (list Z);
}.
Record Import := mkImport {
  ImportType : Z; ImportModule : string; ImportName : string;
  DescFunc : Z; DescTable : Table; DescMem : option Memory; DescGlobal : GlobalType; DescTag : Z;
  IndexPerType : Z;
}.
Record Global := mkGlobal { GlobalTypeOf : GlobalType; GlobalInit : list Z }.
Record Export := mkExport { ExportType : Z; ExportName : string; ExportIndex : Z }.
Inductive ElementMode := ElementModeActive | ElementModePassive | ElementModeDeclarative.
Record ElementSegment := mkElementSegment {
  OffsetExpr : list Z; ElementTableIndex : Z; ElementInit : list (list Z);
  ElementType : ValueType; Mode : ElementMode;
}.
Record Code := mkCode { LocalTypes : list ValueType; Body : list Z; BodyOffsetInCodeSection : Z }.
Record DataSegment := mkDataSegment { OffsetExpression : list Z; DataInit : list Z; Passive : bool }.
Record NameAssoc := mkNameAssoc { NameIndex : Z; AssocName : string }.
Record NameMapAssoc := mkNameMapAssoc { NameMapIndex : Z; NameMap : list NameAssoc }.
Record NameSection := mkNameSection {
  NameModule : string; FunctionNames : list NameAssoc; LocalNames : list NameMapAssoc;
}.
Record CustomSection := mkCustomSection { CustomName : string; CustomData : list Z }.

Record Module := mkModule {
  TypeSection : list cachedType;
  ImportSection : list Import;
  ImportPerModule : gmap string (list nat);
  ImportFunctionCount : Z; ImportGlobalCount : Z; ImportMemoryCount : Z; ImportTableCount : Z; ImportTagCount : Z;
  FunctionSection : list Z;
  TableSection : list Table;
  MemorySection : option Memory;
  TagSection : list Z;
  GlobalSection : list Global;
  ExportSection : list Export;
  Exports : gmap string nat;
  StartSection : option Z;
  ElementSection : list ElementSegment;
  CodeSection : list Code;
  DataSection : list DataSegment;
  NameSec : option NameSection;
  CustomSections : list CustomSection;
  DataCountSection : option Z;
  (** whether the slice [CodeSection] is not nil *)
  CodeSectionSet : bool;
}.

Definition emptyModule : Module :=
  mkModule [] [] ∅ 0 0 0 0 0 [] [] None [] [] [] ∅ None [] [] [] None [] None false.

(** ** The reader *)

Definition R (A : Type) : Type := list Z -> res (A * list Z).

#[global] Instance R_ret : MRet R := fun A a r => Ok (a, r).
#[global] Instance R_bind : MBind R := fun A B k m r => let! (a, r) := m r in k a r.

Definition failR {A} (msg : string) : R A := fun _ => Err msg.
Definition panicR {A} (msg : string) : R A := fun _ => Panic msg.
(** [fmt.Errorf("prefix%w", err)] *)
Definition wrapR {A} (prefix : string) (m : R A) : R A := fun r =>
  match m r with Err e => Err (prefix +:+ e) | x => x end.
Definition replaceR {A} (msg : string) (m : R A) : R A := fun r =>
  match m r with Err _ => Err msg | x => x end.
(** A call that does not read. *)
Definition liftR {A} (m : res A) : R A := fun r => let! a := m in Ok (a, r).
Definition guardR (b : bool) (msg : string) : R unit := if b then mret tt else failR msg.

Definition lenR : R Z := fun r => Ok (zlen r, r).
Definition ReadByte : R Z := fun r => readByte 0 r.
Definition u32n : R (Z * Z) := fun r => let! (v, n, r) := DecodeUint32 r in Ok ((v, n), r).
Definition u32 : R Z := '(v, _) ← u32n; mret v.
Definition int33n : R (Z * Z) := fun r => let! (v, n, r) := DecodeInt33AsInt64 r in Ok ((v, n), r).
(** [io.ReadFull] into a new slice of length [n]. *)
Definition readN (n : Z) : R (list Z) := fun r =>
  if n <? 0 then Panic "makeslice: len out of range"
  else if n <=? zlen r then Ok (take (Z.to_nat n) r, drop (Z.to_nat n) r)
  else Err (if zlen r =? 0 then "EOF" else "unexpected EOF").
(** [io.CopyN(io.Discard, r, n)] *)
Definition discard (n : Z) : R unit := fun r =>
  if n <=? zlen r then Ok (tt, drop (Z.to_nat n) r) else Err "EOF".
Definition requireR (enabledFeatures feature : CoreFeatures) : R unit :=
  liftR (let! _ := RequireEnabled enabledFeatures feature in Ok tt).
Definition constExpr (enabledFeatures : CoreFeatures) : R (list Z) := fun r => decodeConstantExpression r enabledFeatures.

(** [for i := 0; i < n; i++ { v[i] = ... }] *)
Fixpoint vectorLoop {A} (p : R A) (fuel : nat) (n : Z) : R (list A) :=
  if n =? 0 then mret []
  else match fuel with
  | O => panicR "vector: loop bound"
  | S fuel' => a ← p; l ← vectorLoop p fuel' (n - 1); mret (a :: l)
  end.
Definition vector {A} (n : Z) (p : R A) : R (list A) := fun r => vectorLoop p (S (length r)) n r.

Definition ensureVectorCountFits (vs : Z) (what : string) : R unit :=
  len ← lenR; guardR (negb (vs >? len)) (what +:+ " vector count exceeds remaining bytes").

(** ** value.go *)

Definition decodeRefType (nullable : bool) : R ValueType :=
  '(ht, _) ← wrapR "read ref heap type: " int33n;
  vt ← (if ht =? HeapTypeFunc then mret ValueTypeFuncref
        else if ht =? HeapTypeExtern then mret ValueTypeExternref
        else if ht =? HeapTypeExn then mret ValueTypeExnref
        else if ht <? 0 then failR "unknown abstract heap type"
        else mret (ValueTypeConcreteRef (wrap32 ht) nullable));
  mret (if negb nullable then AsNonNullable vt else vt).

Definition decodeValueType (enabledFeatures : CoreFeatures) : R ValueType :=
  b ← ReadByte;
  if one_of b [Kind ValueTypeI32; Kind ValueTypeF32; Kind ValueTypeI64; Kind ValueTypeF64; Kind ValueTypeExternref;
               Kind ValueTypeFuncref; Kind ValueTypeV128; Kind ValueTypeExnref] then mret b
  else if one_of b [RefPrefixNullable; RefPrefixNonNullable] then
    _ ← wrapR "concrete reference type invalid as " (requireR enabledFeatures CoreFeaturesTypedFunctionReferences);
    decodeRefType (b =? RefPrefixNullable)
  else failR "invalid value type".

Definition decodeValueTypes (num : Z) (enabledFeatures : CoreFeatures) : R (list ValueType) :=
  if num =? 0 then mret [] else vector num (decodeValueType enabledFeatures).

(** [utf8.Valid] *)
Definition cont (b : Z) : bool := between 0x80 b 0xbf.
Fixpoint validUTF8 (l : list Z) : bool :=
  match l with
  | [] => true
  | b0 :: l1 =>
      if b0 <? 0x80 then validUTF8 l1
      else match l1 with
      | [] => false
      | b1 :: l2 =>
          if between 0xc2 b0 0xdf then cont b1 && validUTF8 l2
          else match l2 with
          | [] => false
          | b2 :: l3 =>
              if between 0xe0 b0 0xef then
                between (if b0 =? 0xe0 then 0xa0 else 0x80) b1 (if b0 =? 0xed then 0x9f else 0xbf) && cont b2 && validUTF8 l3
              else match l3 with
              | [] => false
              | b3 :: l4 =>
                  if between 0xf0 b0 0xf4 then
                    between (if b0 =? 0xf0 then 0x90 else 0x80) b1 (if b0 =? 0xf4 then 0x8f else 0xbf)
                    && cont b2 && cont b3 && validUTF8 l4
                  else false
              end
          end
      end
  end.

Definition bytesToString (l : list Z) : string :=
  foldr (fun b s => String.String (ascii_of_nat (Z.to_nat b)) s) "" l.

(** The string and the number of bytes read. *)
Definition decodeUTF8 (context : string) : R (string * Z) :=
  '(size, sizeOfSize) ← wrapR ("failed to read " +:+ context +:+ " size: ") u32n;
  if size =? 0 then mret ("", wrap32 sizeOfSize)
  else
    buf ← wrapR ("failed to read " +:+ context +:+ ": ") (readN size);
    _ ← guardR (validUTF8 buf) (context +:+ " is not valid UTF-8");
    mret (bytesToString buf, wrap32 (size + wrap32 sizeOfSize)).

(** ** function.go, and the type section *)

Definition decodeFunctionType (enabledFeatures : CoreFeatures) : R cachedType :=
  b ← wrapR "read leading byte: " ReadByte;
  _ ← guardR (b =? 0x60) "invalid byte: != 0x60";
  paramCount ← wrapR "could not read parameter count: " u32;
  paramTypes ← wrapR "could not read parameter types: " (decodeValueTypes paramCount enabledFeatures);
  resultCount ← wrapR "could not read result count: " u32;
  _ ← (if resultCount >? 1
       then wrapR "multiple result types invalid as " (requireR enabledFeatures CoreFeatureMultiValue) else mret tt);
  resultTypes ← wrapR "could not read result types: " (decodeValueTypes resultCount enabledFeatures);
  mret (snd (key (mkCachedType (mkFunctionType paramTypes resultTypes 0 0 0 0) ""))).

Definition validateTypeForwardRefs (ft : FunctionType) (maxTypeIndex : Z) : R unit :=
  _ ← guardR (negb (existsb (fun vt => IsConcreteRef vt && (TypeIndex vt >=? maxTypeIndex)) (Params ft)))
        "unknown type index in param";
  guardR (negb (existsb (fun vt => IsConcreteRef vt && (TypeIndex vt >=? maxTypeIndex)) (Results ft)))
        "unknown type index in result".

Definition setRecGroup (size position : Z) (c : cachedType) : cachedType :=
  let ft := theType c in
  mkCachedType (mkFunctionType (Params ft) (Results ft) (ParamNumInUint64 ft) (ResultNumInUint64 ft) size position)
    (keyString c).

(** The members of a rec group from position [j] on. *)
Fixpoint recGroupLoop (enabledFeatures : CoreFeatures) (recCount : Z) (fuel : nat) (j : Z) : R (list cachedType) :=
  if j >=? recCount then mret []
  else match fuel with
  | O => panicR "rec group: loop bound"
  | S fuel' =>
      ft ← wrapR "read type in rec group: " (decodeFunctionType enabledFeatures);
      l ← recGroupLoop enabledFeatures recCount fuel' (j + 1);
      mret (setRecGroup recCount j ft :: l)
  end.

Fixpoint checkForwardRefs (ts : list cachedType) (maxTypeIndex : Z) : R unit :=
  match ts with
  | [] => mret tt
  | t :: ts' => _ ← validateTypeForwardRefs (theType t) maxTypeIndex; checkForwardRefs ts' maxTypeIndex
  end.

(** A rec group, after its leading byte; [n] types are decoded already. *)
Definition decodeRecGroup (enabledFeatures : CoreFeatures) (n : Z) : R (list cachedType) :=
  recCount ← wrapR "read rec group count: " u32;
  fuel ← lenR;
  group ← recGroupLoop enabledFeatures recCount (S (Z.to_nat fuel)) 0;
  _ ← checkForwardRefs group (wrap32 (n + recCount));
  mret group.

(** One entry of the type section, a rec group or a function type; [n] types are decoded already. *)
Definition decodeTypeEntry (enabledFeatures : CoreFeatures) (n : Z) : R (list cachedType) := fun r =>
  match r with
  | [] => Err "read type: EOF"
  | b :: r1 =>
      if b =? 0x4e then decodeRecGroup enabledFeatures n r1
      else
        (ft ← wrapR "read type: " (decodeFunctionType enabledFeatures);
         _ ← validateTypeForwardRefs (theType ft) n;
         mret [ft]) r
  end.

Fixpoint typeSectionLoop (enabledFeatures : CoreFeatures) (fuel : nat) (vs : Z) (result : list cachedType)
    : R (list cachedType) :=
  if vs =? 0 then mret result
  else match fuel with
  | O => panicR "type section: loop bound"
  | S fuel' =>
      group ← decodeTypeEntry enabledFeatures (wrap32 (zlen result));
      typeSectionLoop enabledFeatures fuel' (vs - 1) (result ++ group)
  end.

Definition decodeTypeSection (enabledFeatures : CoreFeatures) : R (list cachedType) :=
  vs ← wrapR "get size of vector: " u32;
  fuel ← lenR;
  typeSectionLoop enabledFeatures (S (Z.to_nat fuel)) vs [].

(** ** limits.go, memory.go, table.go, global.go *)

Definition decodeLimitsType : R (Z * option Z * bool) :=
  flag ← wrapR "read leading byte: " ReadByte;
  '(mn, mx) ← (if one_of flag [0x00; 0x02] then
      mn ← wrapR "read min of limit: " u32; mret (mn, None)
    else if one_of flag [0x01; 0x03] then
      mn ← wrapR "read min of limit: " u32;
      m ← wrapR "read max of limit: " u32;
      mret (mn, Some m)
    else failR "invalid byte for limits: not in (0x00, 0x01, 0x02, 0x03)");
  mret (mn, mx, (flag =? 0x02) || (flag =? 0x03)).

(** The closure that [newMemorySizer] returns. *)
Definition memorySizer (memoryLimitPages : Z) (memoryCapacityFromMax : bool) (minPages : Z) (maxPages : option Z)
    : Z * Z * Z :=
  match maxPages with
  | Some mx =>
      if memoryCapacityFromMax then (minPages, mx, mx)
      else if mx >? 65536 then (minPages, minPages, mx)
      else if mx >? memoryLimitPages then (minPages, minPages, memoryLimitPages)
      else (minPages, minPages, mx)
  | None =>
      if memoryCapacityFromMax then (minPages, memoryLimitPages, memoryLimitPages)
      else (minPages, minPages, memoryLimitPages)
  end.

(** [Memory.Validate]; the units of its messages are left out. *)
Definition validateMemory (m : Memory) (memoryLimitPages : Z) : res unit :=
  if MemMax m >? memoryLimitPages then Err "max over limit"
  else if MemMin m >? memoryLimitPages then Err "min over limit"
  else if MemMin m >? MemMax m then Err "min > max"
  else if MemCap m <? MemMin m then Err "capacity less than minimum"
  else if MemCap m >? memoryLimitPages then Err "capacity over limit"
  else Ok tt.

Section Decoders.
Context (enabledFeatures : CoreFeatures) (memoryLimitPages : Z) (memoryCapacityFromMax : bool).

Definition decodeMemory : R Memory :=
  '(mn, maxP, shared) ← decodeLimitsType;
  _ ← (if (shared : bool) then
         (_ ← guardR (IsEnabled enabledFeatures CoreFeaturesThreads) "shared memory requested but threads feature not enabled";
          guardR (bool_decide (is_Some maxP)) "shared memory requires a maximum size to be specified")
       else mret tt);
  let '(mn, capacity, mx) := memorySizer memoryLimitPages memoryCapacityFromMax mn maxP in
  let mem := mkMemory mn capacity mx (bool_decide (is_Some maxP)) shared in
  _ ← liftR (validateMemory mem memoryLimitPages);
  mret mem.

Definition MaximumFunctionIndex : Z := Z.shiftl 1 27.

(** The first byte of a table and whether an initialiser follows the limits. *)
Definition decodeTablePrefix : R (Z * bool) :=
  b ← wrapR "read leading byte: " ReadByte;
  if b =? 0x40 then
    reserved ← wrapR "read reserved byte after 0x40: " ReadByte;
    _ ← guardR (reserved =? 0x00) "expected 0x00 after 0x40 table prefix";
    b ← wrapR "read table ref type: " ReadByte;
    mret (b, true)
  else mret (b, false).

Definition decodeTable : R Table :=
  '(b, hasInitExpr) ← decodeTablePrefix;
  tp ← (if one_of b [RefPrefixNullable; RefPrefixNonNullable] then decodeRefType (b =? RefPrefixNullable) else mret b);
  _ ← guardR (IsRef tp) ("invalid table element type: " +:+ ValueTypeName tp);
  _ ← (if negb (tp =? ValueTypeFuncref)
       then wrapR "table type funcref is invalid: " (requireR enabledFeatures CoreFeatureReferenceTypes) else mret tt);
  '(mn, mx, shared) ← wrapR "read limits: " decodeLimitsType;
  _ ← guardR (negb (mn >? MaximumFunctionIndex)) "table min must be at most";
  _ ← (match mx with
       | Some m => guardR (negb (m <? mn)) "table size minimum must not be greater than maximum"
       | None => mret tt
       end);
  _ ← guardR (negb shared) "tables cannot be marked as shared";
  init ← (if (hasInitExpr : bool)
          then (e ← wrapR "read table init expr: " (constExpr enabledFeatures); mret (Some e))
          else mret None);
  mret (mkTable mn mx tp init).

Definition decodeGlobalType : R GlobalType :=
  vts ← wrapR "read value type: " (decodeValueTypes 1 enabledFeatures);
  match vts with
  | [] => panicR "index out of range"
  | vt :: _ =>
      b ← wrapR "read mutablity: " ReadByte;
      if b =? 0x00 then mret (mkGlobalType vt false)
      else if b =? 0x01 then mret (mkGlobalType vt true)
      else failR "invalid byte for mutability: != 0x00 or 0x01"
  end.

Definition decodeGlobal : R Global :=
  tp ← decodeGlobalType; init ← constExpr enabledFeatures; mret (mkGlobal tp init).

(** ** import.go and export.go *)

Definition ExternTypeFunc : Z := 0.
Definition ExternTypeTable : Z := 1.
Definition ExternTypeMemory : Z := 2.
Definition ExternTypeGlobal : Z := 3.
Definition ExternTypeTag : Z := 4.

Definition ExternTypeName (t : Z) : string :=
  if t =? ExternTypeTag then "tag"
  else if t =? ExternTypeFunc then "func"
  else if t =? ExternTypeTable then "table"
  else if t =? ExternTypeMemory then "memory"
  else if t =? ExternTypeGlobal then "global"
  else "".

Definition noTable : Table := mkTable 0 None 0 None.
Definition newImport (tp : Z) (m name : string) : Import :=
  mkImport tp m name 0 noTable None (mkGlobalType 0 false) 0 0.
Definition set_DescFunc (v : Z) (i : Import) : Import :=
  mkImport (ImportType i) (ImportModule i) (ImportName i) v (DescTable i) (DescMem i) (DescGlobal i) (DescTag i) (IndexPerType i).
Definition set_DescTable (v : Table) (i : Import) : Import :=
  mkImport (ImportType i) (ImportModule i) (ImportName i) (DescFunc i) v (DescMem i) (DescGlobal i) (DescTag i) (IndexPerType i).
Definition set_DescMem (v : option Memory) (i : Import) : Import :=
  mkImport (ImportType i) (ImportModule i) (ImportName i) (DescFunc i) (DescTable i) v (DescGlobal i) (DescTag i) (IndexPerType i).
Definition set_DescGlobal (v : GlobalType) (i : Import) : Import :=
  mkImport (ImportType i) (ImportModule i) (ImportName i) (DescFunc i) (DescTable i) (DescMem i) v (DescTag i) (IndexPerType i).
Definition set_DescTag (v : Z) (i : Import) : Import :=
  mkImport (ImportType i) (ImportModule i) (ImportName i) (DescFunc i) (DescTable i) (DescMem i) (DescGlobal i) v (IndexPerType i).
Definition set_IndexPerType (v : Z) (i : Import) : Import :=
  mkImport (ImportType i) (ImportModule i) (ImportName i) (DescFunc i) (DescTable i) (DescMem i) (DescGlobal i) (DescTag i) v.

Definition decodeImportDesc (i : Import) : R Import :=
  let b := ImportType i in
  if b =? ExternTypeFunc then v ← u32; mret (set_DescFunc v i)
  else if b =? ExternTypeTable then v ← decodeTable; mret (set_DescTable v i)
  else if b =? ExternTypeMemory then v ← decodeMemory; mret (set_DescMem (Some v) i)
  else if b =? ExternTypeGlobal then v ← decodeGlobalType; mret (set_DescGlobal v i)
  else if b =? ExternTypeTag then
    _ ← wrapR "tag imports require exception handling feature: " (requireR enabledFeatures (wrap64 (Z.shiftl CoreFeatureSIMD 4)));
    attr ← ReadByte;
    _ ← guardR (attr =? 0x00) "invalid tag attribute";
    v ← u32; mret (set_DescTag v i)
  else failR "invalid byte: invalid byte for importdesc".

Definition decodeImport : R Import :=
  '(m, _) ← wrapR "import error decoding module: " (decodeUTF8 "import module");
  '(name, _) ← wrapR "import error decoding name: " (decodeUTF8 "import name");
  b ← wrapR "import error decoding type: " ReadByte;
  wrapR ("import " +:+ ExternTypeName b +:+ "[" +:+ m +:+ "." +:+ name +:+ "]: ") (decodeImportDesc (newImport b m name)).

Definition decodeExport : R Export :=
  '(name, _) ← decodeUTF8 "export name";
  b ← wrapR "error decoding export kind: " ReadByte;
  if one_of b [ExternTypeFunc; ExternTypeTable; ExternTypeMemory; ExternTypeGlobal; ExternTypeTag] then
    index ← wrapR "error decoding export index: " u32; mret (mkExport b name index)
  else failR "invalid byte: invalid byte for exportdesc".

(** ** element.go *)

Definition ensureElementKindFuncRef : R unit :=
  elemKind ← wrapR "read element prefix: " ReadByte;
  guardR (elemKind =? 0x0) "element kind must be zero".

Definition decodeElementInitValue : R (list Z) :=
  v ← wrapR "read function index: " u32;
  _ ← guardR (negb (v >=? MaximumFunctionIndex)) "too large function index in Element init";
  mret (NewConstantExpressionFromOpcode OpcodeRefFunc (EncodeUint32 v)).

Definition decodeElementInitValueVector : R (list (list Z)) :=
  vs ← wrapR "get size of vector: " u32;
  vector vs decodeElementInitValue.

Definition decodeElementConstExprVector : R (list (list Z)) :=
  vs ← wrapR "failed to get the size of constexpr vector: " u32;
  vector vs (constExpr enabledFeatures).

Definition decodeElementRefType : R ValueType :=
  b ← wrapR "read element ref type: " ReadByte;
  if one_of b [RefPrefixNullable; RefPrefixNonNullable] then decodeRefType (b =? RefPrefixNullable)
  else
    _ ← guardR (negb (negb (b =? ValueTypeFuncref) && negb (b =? ValueTypeExternref))) "invalid ref type for element";
    mret b.

(** The index of the table of an active segment with prefix 2 or 6. *)
Definition decodeElementTableIndex : R Z :=
  v ← wrapR "get size of vector: " u32;
  _ ← (if negb (v =? 0)
       then wrapR "table index must be zero: " (requireR enabledFeatures CoreFeatureReferenceTypes) else mret tt);
  mret v.

Definition elementSegmentPrefixLegacy : Z := 0.
Definition elementSegmentPrefixPassiveFuncrefValueVector : Z := 1.
Definition elementSegmentPrefixActiveFuncrefValueVectorWithTableIndex : Z := 2.
Definition elementSegmentPrefixDeclarativeFuncrefValueVector : Z := 3.
Definition elementSegmentPrefixActiveFuncrefConstExprVector : Z := 4.
Definition elementSegmentPrefixPassiveConstExprVector : Z := 5.
Definition elementSegmentPrefixActiveConstExprVector : Z := 6.
Definition elementSegmentPrefixDeclarativeConstExprVector : Z := 7.

(** The fields that a branch leaves alone are those of the zero segment. *)
Definition decodeElementSegment : R ElementSegment :=
  prefix ← wrapR "read element prefix: " u32;
  _ ← (if negb (prefix =? elementSegmentPrefixLegacy)
       then wrapR "non-zero prefix for element segment is invalid as "
              (requireR enabledFeatures CoreFeatureBulkMemoryOperations)
       else mret tt);
  let offset := wrapR "read expr for offset: " (constExpr enabledFeatures) in
  if prefix =? elementSegmentPrefixLegacy then
    e ← offset;
    init ← decodeElementInitValueVector;
    mret (mkElementSegment e 0 init (AsNonNullable ValueTypeFuncref) ElementModeActive)
  else if prefix =? elementSegmentPrefixPassiveFuncrefValueVector then
    _ ← ensureElementKindFuncRef;
    init ← decodeElementInitValueVector;
    mret (mkElementSegment [] 0 init (AsNonNullable ValueTypeFuncref) ElementModePassive)
  else if prefix =? elementSegmentPrefixActiveFuncrefValueVectorWithTableIndex then
    table ← decodeElementTableIndex;
    e ← offset;
    _ ← ensureElementKindFuncRef;
    init ← decodeElementInitValueVector;
    mret (mkElementSegment e table init (AsNonNullable ValueTypeFuncref) ElementModeActive)
  else if prefix =? elementSegmentPrefixDeclarativeFuncrefValueVector then
    _ ← ensureElementKindFuncRef;
    init ← decodeElementInitValueVector;
    mret (mkElementSegment [] 0 init (AsNonNullable ValueTypeFuncref) ElementModeDeclarative)
  else if prefix =? elementSegmentPrefixActiveFuncrefConstExprVector then
    e ← offset;
    init ← decodeElementConstExprVector;
    mret (mkElementSegment e 0 init ValueTypeFuncref ElementModeActive)
  else if prefix =? elementSegmentPrefixPassiveConstExprVector then
    tp ← decodeElementRefType;
    init ← decodeElementConstExprVector;
    mret (mkElementSegment [] 0 init tp ElementModePassive)
  else if prefix =? elementSegmentPrefixActiveConstExprVector then
    table ← decodeElementTableIndex;
    e ← offset;
    tp ← decodeElementRefType;
    init ← decodeElementConstExprVector;
    mret (mkElementSegment e table init tp ElementModeActive)
  else if prefix =? elementSegmentPrefixDeclarativeConstExprVector then
    tp ← decodeElementRefType;
    init ← decodeElementConstExprVector;
    mret (mkElementSegment [] 0 init tp ElementModeDeclarative)
  else failR "invalid element segment prefix".

(** ** data.go *)

Definition dataSegmentPrefixActive : Z := 0x0.
Definition dataSegmentPrefixPassive : Z := 0x1.
Definition dataSegmentPrefixActiveWithMemoryIndex : Z := 0x2.

Definition decodeDataSegment : R DataSegment :=
  prefix ← wrapR "read data segment prefix: " u32;
  _ ← (if negb (prefix =? dataSegmentPrefixActive)
       then wrapR "non-zero prefix for data segment is invalid as "
              (requireR enabledFeatures CoreFeatureBulkMemoryOperations)
       else mret tt);
  '(offset, passive) ←
    (if one_of prefix [dataSegmentPrefixActive; dataSegmentPrefixActiveWithMemoryIndex] then
       _ ← (if prefix =? 0x2
            then (d ← wrapR "read memory index: " u32; guardR (d =? 0) "memory index must be zero") else mret tt);
       e ← wrapR "read offset expression: " (constExpr enabledFeatures);
       mret (e, false)
     else if prefix =? dataSegmentPrefixPassive then mret ([], true)
     else failR "invalid data segment prefix");
  vs ← wrapR "get the size of vector: " u32;
  init ← wrapR "read bytes for init: " (readN vs);
  mret (mkDataSegment offset init passive).

(** ** code.go *)

Definition maxFunctionLocals : Z := 1000000.

(** The first pass over a local group: the sums of the local counts and of the
    bytes read. *)
Definition checkLocalGroup (remaining sum bytesRead : Z) : R (Z * Z) :=
  '(num, n) ← wrapR "read n of locals: " u32n;
  _ ← guardR (negb (remaining <? 0)) "EOF";
  let sum := wrap64 (sum + num) in
  b ← wrapR "read type of local: " ReadByte;
  let bytesRead := wrap64 (bytesRead + (n + 1)) in
  if one_of b [ValueTypeI32; ValueTypeF32; ValueTypeI64; ValueTypeF64; ValueTypeFuncref; ValueTypeExternref;
               ValueTypeV128; ValueTypeExnref] then mret (sum, bytesRead)
  else if one_of b [RefPrefixNullable; RefPrefixNonNullable] then
    '(_, htNum) ← wrapR "read local ref heap type: " int33n; mret (sum, wrap64 (bytesRead + htNum))
  else failR "invalid local type".

Fixpoint checkLocals (remaining ls : Z) (fuel : nat) (i sum bytesRead : Z) : R (Z * Z) :=
  if i >=? ls then mret (sum, bytesRead)
  else match fuel with
  | O => panicR "decodeCode: loop bound"
  | S fuel' =>
      '(sum, bytesRead) ← checkLocalGroup remaining sum bytesRead;
      checkLocals remaining ls fuel' (i + 1) sum bytesRead
  end.

(** The second pass: the types of the locals, and what remains of the size. *)
Definition decodeLocalGroup (remaining : Z) (localTypes : list ValueType) : R (list ValueType * Z) :=
  '(num, n) ← wrapR "read n of locals: " u32n;
  let remaining := remaining - (n + 1) in
  _ ← guardR (negb (remaining <? 0)) "EOF";
  b ← wrapR "read type of local: " ReadByte;
  '(vt, remaining) ←
    (if one_of b [RefPrefixNullable; RefPrefixNonNullable] then
       before ← lenR;
       vt ← decodeRefType (b =? RefPrefixNullable);
       after ← lenR;
       mret (vt, remaining - (before - after))
     else mret (b, remaining));
  mret (localTypes ++ replicate (Z.to_nat num) vt, remaining).

Fixpoint decodeLocals (ls : Z) (fuel : nat) (i remaining : Z) (localTypes : list ValueType) : R (list ValueType * Z) :=
  if i >=? ls then mret (localTypes, remaining)
  else match fuel with
  | O => panicR "decodeCode: loop bound"
  | S fuel' =>
      '(localTypes, remaining) ← decodeLocalGroup remaining localTypes;
      decodeLocals ls fuel' (i + 1) remaining localTypes
  end.

(** [r.Seek(-n, io.SeekCurrent)], where [r0] is an earlier position. *)
Definition rewind (r0 : list Z) (n : Z) : R unit := fun r =>
  Ok (tt, drop (Z.to_nat (zlen r0 - zlen r - n)) r0).

Definition getR : R (list Z) := fun r => Ok (r, r).

(** Both passes. *)
Definition decodeLocalTypes (ls remaining : Z) : R (list ValueType * Z) :=
  r0 ← getR;
  '(sum, bytesRead) ← checkLocals remaining ls (S (length r0)) 0 0 0;
  _ ← guardR (negb (sum >? 2 ^ 32 - 1)) "too many locals";
  _ ← guardR (negb (sum >? maxFunctionLocals)) "too many locals: exceeds the limit";
  _ ← rewind r0 bytesRead;
  decodeLocals ls (S (length r0)) 0 remaining [].

Definition decodeCode (codeSectionStart : Z) : R Code :=
  ss ← wrapR "get the size of code: " u32;
  '(ls, n) ← wrapR "get the size locals: " u32n;
  let remaining := ss - n in
  _ ← guardR (negb (remaining <? 0)) "EOF";
  '(localTypes, remaining) ← decodeLocalTypes ls remaining;
  len ← lenR;
  body ← wrapR "read body: " (readN remaining);
  _ ← guardR (match last body with Some b => b =? OpcodeEnd | None => false end) "expr not end with OpcodeEnd";
  mret (mkCode localTypes body (wrap64 (codeSectionStart - len))).

(** ** names.go and custom.go *)

Definition subsectionIDModuleName : Z := 0.
Definition subsectionIDFunctionNames : Z := 1.
Definition subsectionIDLocalNames : Z := 2.

Definition decodeFunctionIndex : R Z := wrapR "failed to read a function index in subsection: " u32.
Definition decodeFunctionCount : R Z := wrapR "failed to read the function count of subsection: " u32.

Definition decodeFunctionNames : R (list NameAssoc) :=
  functionCount ← decodeFunctionCount;
  vector functionCount
    (functionIndex ← decodeFunctionIndex;
     '(name, _) ← decodeUTF8 "function[] name";
     mret (mkNameAssoc functionIndex name)).

Definition decodeLocalNames : R (list NameMapAssoc) :=
  functionCount ← decodeFunctionCount;
  vector functionCount
    (functionIndex ← decodeFunctionIndex;
     localCount ← wrapR "failed to read the local count for function: " u32;
     locals ← vector localCount
       (localIndex ← wrapR "failed to read a local index of function: " u32;
        '(name, _) ← decodeUTF8 "function[] local[] name";
        mret (mkNameAssoc localIndex name));
     mret (mkNameMapAssoc functionIndex locals)).

Definition decodeNameSubsection (subsectionID subsectionSize : Z) (result : NameSection) : R NameSection :=
  if subsectionID =? subsectionIDModuleName then
    '(name, _) ← decodeUTF8 "module name";
    mret (mkNameSection name (FunctionNames result) (LocalNames result))
  else if subsectionID =? subsectionIDFunctionNames then
    names ← decodeFunctionNames; mret (mkNameSection (NameModule result) names (LocalNames result))
  else if subsectionID =? subsectionIDLocalNames then
    names ← decodeLocalNames; mret (mkNameSection (NameModule result) (FunctionNames result) names)
  else _ ← wrapR "failed to skip subsection: " (discard subsectionSize); mret result.

(** [for limit > 0]; the limit is unsigned and wraps. *)
Fixpoint nameSectionLoop (fuel : nat) (limit : Z) (result : NameSection) : R NameSection := fun r =>
  if limit =? 0 then Ok (result, r)
  else match fuel with
  | O => Panic "decodeNameSection: loop bound"
  | S fuel' =>
      match r with
      | [] => Ok (result, r)
      | subsectionID :: r =>
          ('(subsectionSize, bytesRead) ← wrapR "failed to read the size of subsection: " u32n;
           result ← decodeNameSubsection subsectionID subsectionSize result;
           nameSectionLoop fuel' (wrap64 (limit - 1 - bytesRead - subsectionSize)) result) r
      end
  end.

Definition decodeNameSection (limit : Z) : R NameSection := fun r =>
  nameSectionLoop (S (length r)) limit (mkNameSection "" [] []) r.

(** [bytes.Reader.Read] fails at the end of the input only, and otherwise
    reads what is there: the rest of the buffer stays zero. *)
Definition decodeCustomSection (name : string) (limit : Z) : R CustomSection := fun r =>
  match r with
  | [] => Err "EOF"
  | _ => Ok (mkCustomSection name (take (Z.to_nat limit) r ++ replicate (Z.to_nat limit - length r) 0),
             drop (Z.to_nat limit) r)
  end.

(** ** section.go *)

(** What [decodeImportSection] builds. *)
Record importState := mkImportState {
  is_result : list Import; is_perModule : gmap string (list nat);
  is_funcCount : Z; is_globalCount : Z; is_memoryCount : Z; is_tableCount : Z; is_tagCount : Z;
}.

Definition countImport (imp : Import) (s : importState) : Import * importState :=
  let '(mkImportState res per f g m t e) := s in
  if ImportType imp =? ExternTypeFunc then (set_IndexPerType f imp, mkImportState res per (wrap32 (f + 1)) g m t e)
  else if ImportType imp =? ExternTypeGlobal then (set_IndexPerType g imp, mkImportState res per f (wrap32 (g + 1)) m t e)
  else if ImportType imp =? ExternTypeMemory then (set_IndexPerType m imp, mkImportState res per f g (wrap32 (m + 1)) t e)
  else if ImportType imp =? ExternTypeTable then (set_IndexPerType t imp, mkImportState res per f g m (wrap32 (t + 1)) e)
  else if ImportType imp =? ExternTypeTag then (set_IndexPerType e imp, mkImportState res per f g m t (wrap32 (e + 1)))
  else (imp, s).

Definition addImport (imp : Import) (s : importState) : importState :=
  let '(imp, s) := countImport imp s in
  let perModule := is_perModule s in
  mkImportState (is_result s ++ [imp])
    (<[ImportModule imp := default [] (perModule !! ImportModule imp) ++ [length (is_result s)]]> perModule)
    (is_funcCount s) (is_globalCount s) (is_memoryCount s) (is_tableCount s) (is_tagCount s).

Fixpoint importLoop (fuel : nat) (n : Z) (s : importState) : R importState :=
  if n =? 0 then mret s
  else match fuel with
  | O => panicR "import section: loop bound"
  | S fuel' => imp ← decodeImport; importLoop fuel' (n - 1) (addImport imp s)
  end.

Definition decodeImportSection : R importState :=
  vs ← wrapR "get size of vector: " u32;
  _ ← ensureVectorCountFits vs "import";
  len ← lenR;
  importLoop (S (Z.to_nat len)) vs (mkImportState [] ∅ 0 0 0 0 0).

Definition decodeFunctionSection : R (list Z) :=
  vs ← wrapR "get size of vector: " u32;
  _ ← ensureVectorCountFits vs "function";
  vector vs (wrapR "get type index: " u32).

Definition decodeTableSection : R (list Table) :=
  vs ← replaceR "error reading size" u32;
  _ ← (if vs >? 1
       then wrapR "at most one table allowed in module as " (requireR enabledFeatures CoreFeatureReferenceTypes)
       else mret tt);
  _ ← ensureVectorCountFits vs "table";
  vector vs decodeTable.

Definition decodeMemorySection : R (option Memory) :=
  vs ← replaceR "error reading size" u32;
  if vs >? 1 then failR "at most one memory allowed in module"
  else if vs =? 0 then mret None
  else m ← decodeMemory; mret (Some m).

Definition decodeGlobalSection : R (list Global) :=
  vs ← wrapR "get size of vector: " u32;
  _ ← ensureVectorCountFits vs "global";
  vector vs (wrapR "global: " decodeGlobal).

Fixpoint exportLoop (fuel : nat) (n : Z) (exportSection : list Export) (exportMap : gmap string nat)
    : R (list Export * gmap string nat) :=
  if n =? 0 then mret (exportSection, exportMap)
  else match fuel with
  | O => panicR "export section: loop bound"
  | S fuel' =>
      export ← wrapR "read export: " decodeExport;
      _ ← guardR (bool_decide (exportMap !! ExportName export = None)) ("export duplicates name " +:+ ExportName export);
      exportLoop fuel' (n - 1) (exportSection ++ [export]) (<[ExportName export := length exportSection]> exportMap)
  end.

Definition decodeExportSection : R (list Export * gmap string nat) :=
  vs ← wrapR "get size of vector: " u32;
  _ ← ensureVectorCountFits vs "export";
  len ← lenR;
  exportLoop (S (Z.to_nat len)) vs [] ∅.

Definition decodeStartSection : R (option Z) :=
  vs ← wrapR "get function index: " u32; mret (Some vs).

Definition decodeElementSection : R (list ElementSegment) :=
  vs ← wrapR "get size of vector: " u32;
  _ ← ensureVectorCountFits vs "element";
  vector vs (wrapR "read element: " decodeElementSegment).

Definition decodeCodeSection : R (list Code) :=
  codeSectionStart ← lenR;
  vs ← wrapR "get size of vector: " u32;
  _ ← ensureVectorCountFits vs "code";
  vector vs (wrapR "read code segment: " (decodeCode codeSectionStart)).

Definition decodeDataSection : R (list DataSegment) :=
  vs ← wrapR "get size of vector: " u32;
  _ ← ensureVectorCountFits vs "data";
  vector vs (wrapR "read data segment: " decodeDataSegment).

Definition decodeTag : R Z :=
  attr ← wrapR "read tag attribute: " ReadByte;
  _ ← guardR (attr =? 0x00) "tag has invalid attribute";
  wrapR "read tag type index: " u32.

Definition decodeTagSection : R (list Z) :=
  vs ← wrapR "get size of vector: " u32;
  _ ← ensureVectorCountFits vs "tag";
  vector vs decodeTag.

(** The end of the input is not an error here; it has been reached then. *)
Definition decodeDataCountSection : R (option Z) := fun r =>
  match u32 r with
  | Ok (v, r) => Ok (Some v, r)
  | Err e => if String.eqb e io_EOF then Ok (Some 0, []) else Err e
  | Panic e => Panic e
  end.

(** ** decoder.go *)

Definition SectionIDCustom : Z := 0.
Definition SectionIDType : Z := 1.
Definition SectionIDImport : Z := 2.
Definition SectionIDFunction : Z := 3.
Definition SectionIDTable : Z := 4.
Definition SectionIDMemory : Z := 5.
Definition SectionIDGlobal : Z := 6.
Definition SectionIDExport : Z := 7.
Definition SectionIDStart : Z := 8.
Definition SectionIDElement : Z := 9.
Definition SectionIDCode : Z := 10.
Definition SectionIDData : Z := 11.
Definition SectionIDDataCount : Z := 12.
Definition SectionIDTag : Z := 13.

Definition SectionIDName (sectionID : Z) : string :=
  if sectionID =? SectionIDCustom then "custom"
  else if sectionID =? SectionIDType then "type"
  else if sectionID =? SectionIDImport then "import"
  else if sectionID =? SectionIDFunction then "function"
  else if sectionID =? SectionIDTable then "table"
  else if sectionID =? SectionIDMemory then "memory"
  else if sectionID =? SectionIDGlobal then "global"
  else if sectionID =? SectionIDExport then "export"
  else if sectionID =? SectionIDStart then "start"
  else if sectionID =? SectionIDElement then "element"
  else if sectionID =? SectionIDCode then "code"
  else if sectionID =? SectionIDData then "data"
  else if sectionID =? SectionIDDataCount then "data_count"
  else if sectionID =? SectionIDTag then "tag"
  else "unknown".

Definition checkSectionOrder (current previous : Z) : Z * bool :=
  if current =? SectionIDCustom then (previous, true)
  else if current =? SectionIDTag then (current, previous <=? SectionIDMemory)
  else if previous =? SectionIDTag then (current, current >=? SectionIDGlobal)
  else if current >? SectionIDDataCount then (current, false)
  else if current =? SectionIDDataCount then (current, previous <=? SectionIDElement)
  else if previous =? SectionIDDataCount then (current, current >=? SectionIDCode)
  else (current, current >? previous).

(** Assignments to the fields of the module. *)
Definition set_TypeSection (v0 : list cachedType) (m : Module) : Module :=
  mkModule v0 (ImportSection m) (ImportPerModule m) (ImportFunctionCount m) (ImportGlobalCount m)
    (ImportMemoryCount m) (ImportTableCount m) (ImportTagCount m) (FunctionSection m) (TableSection m)
    (MemorySection m) (TagSection m) (GlobalSection m) (ExportSection m) (Exports m) (StartSection m)
    (ElementSection m) (CodeSection m) (DataSection m) (NameSec m) (CustomSections m) (DataCountSection m) (CodeSectionSet m).
Definition set_FunctionSection (v0 : list Z) (m : Module) : Module :=
  mkModule (TypeSection m) (ImportSection m) (ImportPerModule m) (ImportFunctionCount m) (ImportGlobalCount m)
    (ImportMemoryCount m) (ImportTableCount m) (ImportTagCount m) v0 (TableSection m) (MemorySection m)
    (TagSection m) (GlobalSection m) (ExportSection m) (Exports m) (StartSection m) (ElementSection m)
    (CodeSection m) (DataSection m) (NameSec m) (CustomSections m) (DataCountSection m) (CodeSectionSet m).
Definition set_TableSection (v0 : list Table) (m : Module) : Module :=
  mkModule (TypeSection m) (ImportSection m) (ImportPerModule m) (ImportFunctionCount m) (ImportGlobalCount m)
    (ImportMemoryCount m) (ImportTableCount m) (ImportTagCount m) (FunctionSection m) v0 (MemorySection m)
    (TagSection m) (GlobalSection m) (ExportSection m) (Exports m) (StartSection m) (ElementSection m)
    (CodeSection m) (DataSection m) (NameSec m) (CustomSections m) (DataCountSection m) (CodeSectionSet m).
Definition set_MemorySection (v0 : option Memory) (m : Module) : Module :=
  mkModule (TypeSection m) (ImportSection m) (ImportPerModule m) (ImportFunctionCount m) (ImportGlobalCount m)
    (ImportMemoryCount m) (ImportTableCount m) (ImportTagCount m) (FunctionSection m) (TableSection m) v0
    (TagSection m) (GlobalSection m) (ExportSection m) (Exports m) (StartSection m) (ElementSection m)
    (CodeSection m) (DataSection m) (NameSec m) (CustomSections m) (DataCountSection m) (CodeSectionSet m).
Definition set_TagSection (v0 : list Z) (m : Module) : Module :=
  mkModule (TypeSection m) (ImportSection m) (ImportPerModule m) (ImportFunctionCount m) (ImportGlobalCount m)
    (ImportMemoryCount m) (ImportTableCount m) (ImportTagCount m) (FunctionSection m) (TableSection m)
    (MemorySection m) v0 (GlobalSection m) (ExportSection m) (Exports m) (StartSection m) (ElementSection m)
    (CodeSection m) (DataSection m) (NameSec m) (CustomSections m) (DataCountSection m) (CodeSectionSet m).
Definition set_GlobalSection (v0 : list Global) (m : Module) : Module :=
  mkModule (TypeSection m) (ImportSection m) (ImportPerModule m) (ImportFunctionCount m) (ImportGlobalCount m)
    (ImportMemoryCount m) (ImportTableCount m) (ImportTagCount m) (FunctionSection m) (TableSection m)
    (MemorySection m) (TagSection m) v0 (ExportSection m) (Exports m) (StartSection m) (ElementSection m)
    (CodeSection m) (DataSection m) (NameSec m) (CustomSections m) (DataCountSection m) (CodeSectionSet m).
Definition set_Exports (v0 : list Export) (v1 : gmap string nat) (m : Module) : Module :=
  mkModule (TypeSection m) (ImportSection m) (ImportPerModule m) (ImportFunctionCount m) (ImportGlobalCount m)
    (ImportMemoryCount m) (ImportTableCount m) (ImportTagCount m) (FunctionSection m) (TableSection m)
    (MemorySection m) (TagSection m) (GlobalSection m) v0 v1 (StartSection m) (ElementSection m) (CodeSection m)
    (DataSection m) (NameSec m) (CustomSections m) (DataCountSection m) (CodeSectionSet m).
Definition set_StartSection (v0 : option Z) (m : Module) : Module :=
  mkModule (TypeSection m) (ImportSection m) (ImportPerModule m) (ImportFunctionCount m) (ImportGlobalCount m)
    (ImportMemoryCount m) (ImportTableCount m) (ImportTagCount m) (FunctionSection m) (TableSection m)
    (MemorySection m) (TagSection m) (GlobalSection m) (ExportSection m) (Exports m) v0 (ElementSection m)
    (CodeSection m) (DataSection m) (NameSec m) (CustomSections m) (DataCountSection m) (CodeSectionSet m).
Definition set_ElementSection (v0 : list ElementSegment) (m : Module) : Module :=
  mkModule (TypeSection m) (ImportSection m) (ImportPerModule m) (ImportFunctionCount m) (ImportGlobalCount m)
    (ImportMemoryCount m) (ImportTableCount m) (ImportTagCount m) (FunctionSection m) (TableSection m)
    (MemorySection m) (TagSection m) (GlobalSection m) (ExportSection m) (Exports m) (StartSection m) v0
    (CodeSection m) (DataSection m) (NameSec m) (CustomSections m) (DataCountSection m) (CodeSectionSet m).
Definition set_CodeSection (v0 : list Code) (m : Module) : Module :=
  mkModule (TypeSection m) (ImportSection m) (ImportPerModule m) (ImportFunctionCount m) (ImportGlobalCount m)
    (ImportMemoryCount m) (ImportTableCount m) (ImportTagCount m) (FunctionSection m) (TableSection m)
    (MemorySection m) (TagSection m) (GlobalSection m) (ExportSection m) (Exports m) (StartSection m)
    (ElementSection m) v0 (DataSection m) (NameSec m) (CustomSections m) (DataCountSection m) true.
Definition set_DataSection (v0 : list DataSegment) (m : Module) : Module :=
  mkModule (TypeSection m) (ImportSection m) (ImportPerModule m) (ImportFunctionCount m) (ImportGlobalCount m)
    (ImportMemoryCount m) (ImportTableCount m) (ImportTagCount m) (FunctionSection m) (TableSection m)
    (MemorySection m) (TagSection m) (GlobalSection m) (ExportSection m) (Exports m) (StartSection m)
    (ElementSection m) (CodeSection m) v0 (NameSec m) (CustomSections m) (DataCountSection m) (CodeSectionSet m).
Definition set_NameSec (v0 : option NameSection) (m : Module) : Module :=
  mkModule (TypeSection m) (ImportSection m) (ImportPerModule m) (ImportFunctionCount m) (ImportGlobalCount m)
    (ImportMemoryCount m) (ImportTableCount m) (ImportTagCount m) (FunctionSection m) (TableSection m)
    (MemorySection m) (TagSection m) (GlobalSection m) (ExportSection m) (Exports m) (StartSection m)
    (ElementSection m) (CodeSection m) (DataSection m) v0 (CustomSections m) (DataCountSection m) (CodeSectionSet m).
Definition set_CustomSections (v0 : list CustomSection) (m : Module) : Module :=
  mkModule (TypeSection m) (ImportSection m) (ImportPerModule m) (ImportFunctionCount m) (ImportGlobalCount m)
    (ImportMemoryCount m) (ImportTableCount m) (ImportTagCount m) (FunctionSection m) (TableSection m)
    (MemorySection m) (TagSection m) (GlobalSection m) (ExportSection m) (Exports m) (StartSection m)
    (ElementSection m) (CodeSection m) (DataSection m) (NameSec m) v0 (DataCountSection m) (CodeSectionSet m).
Definition set_DataCountSection (v0 : option Z) (m : Module) : Module :=
  mkModule (TypeSection m) (ImportSection m) (ImportPerModule m) (ImportFunctionCount m) (ImportGlobalCount m)
    (ImportMemoryCount m) (ImportTableCount m) (ImportTagCount m) (FunctionSection m) (TableSection m)
    (MemorySection m) (TagSection m) (GlobalSection m) (ExportSection m) (Exports m) (StartSection m)
    (ElementSection m) (CodeSection m) (DataSection m) (NameSec m) (CustomSections m) v0 (CodeSectionSet m).
Definition set_Imports (s : importState) (m : Module) : Module :=
    mkModule (TypeSection m) (is_result s) (is_perModule s) (is_funcCount s) (is_globalCount s)
    (is_memoryCount s) (is_tableCount s) (is_tagCount s) (FunctionSection m) (TableSection m) (MemorySection m)
    (TagSection m) (GlobalSection m) (ExportSection m) (Exports m) (StartSection m) (ElementSection m)
    (CodeSection m) (DataSection m) (NameSec m) (CustomSections m) (DataCountSection m) (CodeSectionSet m).

Definition decodeCustom (dwarfEnabled storeCustomSections : bool) (sectionSize : Z) (m : Module) : R Module :=
  let section {A} : R A -> R A := wrapR "section custom: " in
  '(name, nameSize) ← section (decodeUTF8 "custom section name");
  _ ← section (guardR (negb (sectionSize <? nameSize)) ("malformed custom section " +:+ name));
  _ ← section (guardR (negb (String.eqb name "name" && bool_decide (is_Some (NameSec m))))
                 ("redundant custom section " +:+ name));
  let limit := sectionSize - nameSize in
  if negb (String.eqb name "name") then
    if storeCustomSections || dwarfEnabled then
      c ← wrapR ("failed to read custom section name[" +:+ name +:+ "]: ") (decodeCustomSection name limit);
      mret (set_CustomSections (CustomSections m ++ [c]) m)
    else
      _ ← wrapR ("failed to skip name[" +:+ name +:+ "]: ") (discard limit);
      mret m
  else
    n ← section (decodeNameSection limit);
    mret (set_NameSec (Some n) m).

(** The [switch] over the section; errors that do not mention it are returned unwrapped. *)
Definition decodeSection (dwarfEnabled storeCustomSections : bool) (sectionID sectionSize : Z) (m : Module) : R Module :=
  let section {A} : R A -> R A := wrapR ("section " +:+ SectionIDName sectionID +:+ ": ") in
  if sectionID =? SectionIDCustom then decodeCustom dwarfEnabled storeCustomSections sectionSize m
  else if sectionID =? SectionIDType then v ← section (decodeTypeSection enabledFeatures); mret (set_TypeSection v m)
  else if sectionID =? SectionIDImport then s ← decodeImportSection; mret (set_Imports s m)
  else if sectionID =? SectionIDFunction then v ← section decodeFunctionSection; mret (set_FunctionSection v m)
  else if sectionID =? SectionIDTable then v ← section decodeTableSection; mret (set_TableSection v m)
  else if sectionID =? SectionIDMemory then v ← section decodeMemorySection; mret (set_MemorySection v m)
  else if sectionID =? SectionIDTag then
    _ ← wrapR "tag section not supported as " (requireR enabledFeatures CoreFeaturesExceptionHandling);
    v ← section decodeTagSection; mret (set_TagSection v m)
  else if sectionID =? SectionIDGlobal then v ← decodeGlobalSection; mret (set_GlobalSection v m)
  else if sectionID =? SectionIDExport then '(v, names) ← section decodeExportSection; mret (set_Exports v names m)
  else if sectionID =? SectionIDStart then v ← section decodeStartSection; mret (set_StartSection v m)
  else if sectionID =? SectionIDElement then v ← section decodeElementSection; mret (set_ElementSection v m)
  else if sectionID =? SectionIDCode then v ← section decodeCodeSection; mret (set_CodeSection v m)
  else if sectionID =? SectionIDData then v ← section decodeDataSection; mret (set_DataSection v m)
  else if sectionID =? SectionIDDataCount then
    _ ← wrapR "data count section not supported as " (requireR enabledFeatures CoreFeatureBulkMemoryOperations);
    v ← section decodeDataCountSection; mret (set_DataCountSection v m)
  else section (failR "invalid section id").

(** One turn of the loop over the sections, after the section's identifier. *)
Definition sectionStep (dwarfEnabled storeCustomSections : bool) (sectionID lastSectionID : Z) (m : Module) : R (Z * Module) :=
  sectionSize ← wrapR ("get size of section " +:+ SectionIDName sectionID +:+ ": ") u32;
  let '(lastSectionID, ok) := checkSectionOrder sectionID lastSectionID in
  _ ← guardR ok "invalid section order";
  sectionContentStart ← lenR;
  m ← decodeSection dwarfEnabled storeCustomSections sectionID sectionSize m;
  len ← lenR;
  _ ← guardR (sectionSize =? sectionContentStart - len)
        ("section " +:+ SectionIDName sectionID +:+ ": invalid section length");
  mret (lastSectionID, m).

Fixpoint sectionsLoop (dwarfEnabled storeCustomSections : bool) (fuel : nat) (lastSectionID : Z) (m : Module) : R Module := fun r =>
  match fuel with
  | O => Panic "DecodeModule: loop bound"
  | S fuel' =>
      match r with
      | [] => Ok (m, [])
      | sectionID :: r =>
          ('(lastSectionID, m) ← sectionStep dwarfEnabled storeCustomSections sectionID lastSectionID m;
           sectionsLoop dwarfEnabled storeCustomSections fuel' lastSectionID m) r
      end
  end.

Definition Magic : list Z := [0x00; 0x61; 0x73; 0x6D].
Definition version : list Z := [0x01; 0x00; 0x00; 0x00].

Definition expect (bytes : list Z) (msg : string) : R unit :=
  buf ← replaceR msg (readN 4); guardR (bool_decide (buf = bytes)) msg.

(** counts.go *)
Definition SectionElementCount (m : Module) (sectionID : Z) : res Z :=
  if sectionID =? SectionIDCustom then
    let numCustomSections := wrap32 (zlen (CustomSections m)) in
    Ok (if NameSec m is Some _ then wrap32 (numCustomSections + 1) else numCustomSections)
  else if sectionID =? SectionIDType then Ok (wrap32 (zlen (TypeSection m)))
  else if sectionID =? SectionIDImport then Ok (wrap32 (zlen (ImportSection m)))
  else if sectionID =? SectionIDFunction then Ok (wrap32 (zlen (FunctionSection m)))
  else if sectionID =? SectionIDTable then Ok (wrap32 (zlen (TableSection m)))
  else if sectionID =? SectionIDMemory then Ok (if MemorySection m is Some _ then 1 else 0)
  else if sectionID =? SectionIDGlobal then Ok (wrap32 (zlen (GlobalSection m)))
  else if sectionID =? SectionIDExport then Ok (wrap32 (zlen (ExportSection m)))
  else if sectionID =? SectionIDStart then Ok (if StartSection m is Some _ then 1 else 0)
  else if sectionID =? SectionIDElement then Ok (wrap32 (zlen (ElementSection m)))
  else if sectionID =? SectionIDCode then Ok (wrap32 (zlen (CodeSection m)))
  else if sectionID =? SectionIDData then Ok (wrap32 (zlen (DataSection m)))
  else if sectionID =? SectionIDTag then Ok (wrap32 (zlen (TagSection m)))
  else Panic "BUG: unknown section".

Definition DecodeModule (binary : list Z) (dwarfEnabled storeCustomSections : bool) : res Module :=
  let! (_, r) := expect Magic "invalid magic number" binary in
  let! (_, r) := expect version "invalid version header" r in
  let! (m, _) := sectionsLoop dwarfEnabled storeCustomSections (S (length r)) 0 emptyModule r in
  let! functionCount := SectionElementCount m SectionIDFunction in
  let! codeCount := SectionElementCount m SectionIDCode in
  if negb (functionCount =? codeCount)
  then Err "function and code section have inconsistent lengths"
  else Ok m.

End Decoders.
