(* ===== verification/BinaryWf.v ===== *)
(** * What the decoder of modules accepts

    [spec] is a triple for the readers of [Binary]: no panic other than the
    ones it allows, and a postcondition on the number of bytes read and the
    result.  Every decoder has its triple; together they give the
    well-formedness of a decoded module, and that [DecodeModule] returns. *)

From Stdlib Require Import Sorted.
From S2P Require Import Prelude Leb128 Features Opcodes Types ValStack ConstExpr TypeIDs Binary.

(** A byte slice: its length is an [int]. *)
Definition reader_ok (r : list Z) : Prop := bytes_ok r /\ zlen r < 2 ^ 63.

Definition spec {A} (pan : string -> Prop) (Q : nat -> A -> Prop) (p : R A) : Prop :=
  forall r, reader_ok r ->
  match p r with
  | Ok (a, r') => exists l, r = l ++ r' /\ Q (length l) a
  | Err _ => True
  | Panic e => pan e
  end.

Definition never : string -> Prop := fun _ => False.

Lemma reader_ok_app l r : reader_ok (l ++ r) -> reader_ok r.
Proof.
  intros [H1 H2]. apply bytes_ok_app in H1 as [_ H1]. rewrite zlen_app in H2. pose proof (zlen_nonneg l).
  split; [done|lia].
Qed.

(** ** Rules *)

Lemma spec_mono {A} (pan pan' : string -> Prop) (Q Q' : nat -> A -> Prop) (p : R A) :
  spec pan Q p -> (forall e, pan e -> pan' e) -> (forall n a, Q n a -> Q' n a) -> spec pan' Q' p.
Proof.
  intros H Hp HQ r Hr. specialize (H r Hr). destruct (p r) as [[a r']|e|e]; [|done|by apply Hp].
  destruct H as (l & -> & Ha). eauto.
Qed.

Lemma spec_weaken {A} pan (Q Q' : nat -> A -> Prop) (p : R A) :
  spec pan Q p -> (forall n a, Q n a -> Q' n a) -> spec pan Q' p.
Proof. intros H HQ. by eapply spec_mono. Qed.

Lemma spec_ret {A} pan (Q : nat -> A -> Prop) (a : A) : Q 0%nat a -> spec pan Q (mret a).
Proof. intros HQ r Hr. by exists []. Qed.

Lemma spec_bind {A B} pan (Q1 : nat -> A -> Prop) (Q : nat -> B -> Prop) (m : R A) (k : A -> R B) :
  spec pan Q1 m -> (forall n a, Q1 n a -> spec pan (fun n' b => Q (n + n')%nat b) (k a)) -> spec pan Q (m ≫= k).
Proof.
  intros Hm Hk r Hr. unfold mbind, R_bind. specialize (Hm r Hr). destruct (m r) as [[a r']|e|e]; [|done|done].
  destruct Hm as (l & -> & Ha). cbn [res_bind]. specialize (Hk _ _ Ha r' (reader_ok_app _ _ Hr)).
  destruct (k a r') as [[b r2]|e|e]; [|done|done]. destruct Hk as (l' & -> & Hb).
  exists (l ++ l'). rewrite app_assoc, length_app. done.
Qed.

Lemma spec_fail {A} pan (Q : nat -> A -> Prop) msg : spec pan Q (failR msg).
Proof. by intros r Hr. Qed.

Lemma spec_guard pan b msg : spec pan (fun n _ => n = 0%nat /\ b = true) (guardR b msg).
Proof. intros r Hr. unfold guardR. destruct b; [by exists []|done]. Qed.

Lemma spec_wrap {A} pan (Q : nat -> A -> Prop) msg (p : R A) : spec pan Q p -> spec pan Q (wrapR msg p).
Proof. intros H r Hr. specialize (H r Hr). unfold wrapR. by destruct (p r) as [[]| |]. Qed.

Lemma spec_replace {A} pan (Q : nat -> A -> Prop) msg (p : R A) : spec pan Q p -> spec pan Q (replaceR msg p).
Proof. intros H r Hr. specialize (H r Hr). unfold replaceR. by destruct (p r) as [[]| |]. Qed.

Lemma spec_lift {A} pan (m : res A) : no_panic m -> spec pan (fun n a => n = 0%nat /\ m = Ok a) (liftR m).
Proof. intros H r Hr. unfold liftR. destruct m as [a|e|e]; [by exists []|done|by destruct (H e)]. Qed.

Lemma spec_if {A} pan (Q : nat -> A -> Prop) (b : bool) (p q : R A) :
  (b = true -> spec pan Q p) -> (b = false -> spec pan Q q) -> spec pan Q (if b then p else q).
Proof. destruct b; auto. Qed.

(** ** The primitive readers *)

Lemma spec_len pan : spec pan (fun n _ => n = 0%nat) lenR.
Proof. intros r Hr. by exists []. Qed.

Lemma spec_ReadByte pan : spec pan (fun n b => n = 1%nat /\ is_u8 b) ReadByte.
Proof.
  intros [|b r] [Hr _]; [done|]. cbn. exists [b]. inversion Hr; subst. done.
Qed.

Lemma spec_u32n pan : spec pan (fun n v => 1 <= v.2 /\ v.2 = Z.of_nat n /\ is_u32 v.1) u32n.
Proof.
  intros r [Hr _]. unfold u32n. pose proof (leb_no_panic r Hr) as [Hp _].
  destruct (DecodeUint32 r) as [[[v n] r']|e|e] eqn:E; [|done|by destruct (Hp e)]. cbn [res_bind].
  apply DecodeUint32_sound in E as (l & -> & _ & -> & ? & _ & ?); [|done]. exists l. unfold zlen in *. cbn. split_and!; done || lia.
Qed.

Lemma spec_u32 pan : spec pan (fun n v => (1 <= n)%nat /\ is_u32 v) u32.
Proof.
  unfold u32. eapply spec_bind; [apply spec_u32n|]. intros n [v k] (? & ? & ?). simpl in *. apply spec_ret.
  split; [lia|done].
Qed.

Lemma spec_int33n pan : spec pan (fun n v => 1 <= v.2 /\ v.2 = Z.of_nat n) int33n.
Proof.
  intros r [Hr _]. unfold int33n. destruct (DecodeInt33_within r) as [Hp Hw].
  destruct (DecodeInt33AsInt64 r) as [[[v n] r']|e|e]; [|done|by destruct (Hp e)]. cbn [res_bind].
  destruct (Hw _ _ _ eq_refl) as (l & -> & ? & ?). exists l. unfold zlen in *. cbn. split_and!; done || lia.
Qed.

Lemma spec_readN_gen (pan : string -> Prop) n :
  (n < 0 -> pan "makeslice: len out of range") ->
  spec pan (fun k l => Z.of_nat k = n /\ zlen l = n /\ bytes_ok l) (readN n).
Proof.
  intros Hp r [Hr _]. unfold readN. destruct (Z.ltb_spec n 0); [auto|]. destruct (Z.leb_spec n (zlen r)); [|done].
  exists (take (Z.to_nat n) r). rewrite take_drop, length_take, Nat.min_l by (unfold zlen in *; lia).
  unfold zlen in *. rewrite length_take. split_and!; [done|lia|lia|by apply Forall_take].
Qed.

Lemma spec_readN pan n : 0 <= n -> spec pan (fun k l => Z.of_nat k = n /\ zlen l = n /\ bytes_ok l) (readN n).
Proof. intros. apply spec_readN_gen. lia. Qed.

Lemma spec_discard pan n : spec pan (fun k _ => True) (discard n).
Proof.
  intros r Hr. unfold discard. destruct (n <=? zlen r); [|done]. exists (take (Z.to_nat n) r). by rewrite take_drop.
Qed.

Lemma spec_requireEnabled pan f g : spec pan (fun n _ => n = 0%nat /\ IsEnabled f g = true) (requireR f g).
Proof.
  unfold requireR, RequireEnabled, IsEnabled. eapply spec_weaken; [apply spec_lift|]; destruct (Z.land f g =? 0); try done.
  all: by intros ? ? [].
Qed.

Lemma spec_require pan f g : spec pan (fun n _ => n = 0%nat) (requireR f g).
Proof. eapply spec_weaken; [apply spec_requireEnabled|]. by intros ? ? []. Qed.

(** A constant expression as the decoder leaves it. *)
Definition decodedExpr (enabledFeatures : CoreFeatures) (d : list Z) : Prop :=
  exists r rest, reader_ok r /\ decodeConstantExpression r enabledFeatures = Ok (d, rest).

Lemma spec_constExpr pan f : spec pan (fun n d => (1 <= n)%nat /\ decodedExpr f d) (constExpr f).
Proof.
  intros r Hr. unfold constExpr. pose proof (decodeLoop_no_panic f r (S (length r)) r (proj1 Hr) ltac:(lia)) as Hp.
  destruct (decodeConstantExpression r f) as [[d r']|e|e] eqn:E; [|done|by destruct (Hp e)].
  pose proof E as E'. apply decodeLoop_body in E' as [Eq Hl]; [|apply Hr|done]. exists d. split; [done|].
  split; [destruct d; [done|simpl; lia]|]. unfold decodedExpr. eauto.
Qed.

Lemma spec_when pan (b : bool) (p : R unit) :
  spec pan (fun n _ => n = 0%nat) p -> spec pan (fun n _ => n = 0%nat) (if b then p else mret tt).
Proof. intros. apply spec_if; intros; [done|]. by apply spec_ret. Qed.

Lemma spec_vector {A} pan (P : A -> Prop) (p : R A) c :
  0 <= c -> spec pan (fun n a => (1 <= n)%nat /\ P a) p ->
  spec pan (fun n l => (length l <= n)%nat /\ zlen l = c /\ Forall P l) (vector c p).
Proof.
  intros Hc Hp r Hr. unfold vector. assert (length r < S (length r))%nat as Hf by lia.
  revert Hf. generalize (S (length r)). intros fuel Hf. revert c Hc r Hr Hf.
  induction fuel as [|fuel IH]; intros c Hc r Hr Hf; [lia|]. cbn [vectorLoop].
  destruct (Z.eqb_spec c 0) as [->|]; [by exists []|]. unfold mbind, R_bind.
  specialize (Hp r Hr). destruct (p r) as [[a r']|e|e]; [|done|done]. destruct Hp as (l & -> & Hl & Ha). cbn [res_bind].
  rewrite length_app in Hf. specialize (IH (c - 1) ltac:(lia) r' (reader_ok_app _ _ Hr) ltac:(lia)).
  destruct (vectorLoop p fuel (c - 1) r') as [[v r2]|e|e]; [|done|done]. cbn [res_bind].
  destruct IH as (l' & -> & H1 & H2 & H3). exists (l ++ l'). rewrite app_assoc, length_app, zlen_cons. cbn [length].
  split_and!; [done|lia|lia|by constructor].
Qed.

Lemma spec_vector_all {A} pan (P : A -> Prop) (p : R A) c :
  0 <= c -> spec pan (fun n a => (1 <= n)%nat /\ P a) p -> spec pan (fun _ l => Forall P l) (vector c p).
Proof. intros Hc Hp. eapply spec_weaken; [by eapply spec_vector|]. by intros ? ? (? & ? & ?). Qed.

Create HintDb readers.

Ltac reader :=
  lazymatch goal with
  | |- spec _ _ (wrapR _ _) => apply spec_wrap; reader
  | |- spec _ _ (replaceR _ _) => apply spec_replace; reader
  | |- spec _ _ (if _ then _ else mret tt) => apply spec_when; reader
  | |- spec _ _ (guardR _ _) => apply spec_guard
  | |- spec _ _ ReadByte => apply spec_ReadByte
  | |- spec _ _ u32n => apply spec_u32n
  | |- spec _ _ u32 => apply spec_u32
  | |- spec _ _ int33n => apply spec_int33n
  | |- spec _ _ lenR => apply spec_len
  | |- spec _ _ (requireR _ _) => apply spec_require
  | |- spec _ _ (constExpr _) => apply spec_constExpr
  | |- spec _ _ (readN _) => apply spec_readN; unfold is_u32 in *; lia
  | |- spec _ _ (discard _) => apply spec_discard
  | |- spec _ _ (vector _ _) => eapply spec_vector; [unfold is_u32 in *; lia|reader]
  | |- spec _ _ _ => solve [eauto with readers]
  end.

(** Steps through a sequence of readers with the triples above. *)
Ltac next :=
  lazymatch goal with
  | |- spec _ _ (mbind _ _) => eapply spec_bind; [reader|intros ? ? ?; cbn beta in *]
  end.
Ltac pairs :=
  repeat match goal with
  | x : _ * _ |- _ => destruct x
  | H : _ /\ _ |- _ => destruct H
  end; cbn [fst snd] in *; subst.
Ltac steps := repeat (next; pairs).
Ltac done_ret := apply spec_ret; pairs; split_and!; try done; try lia.

Lemma spec_ensureVectorCountFits pan vs what : spec pan (fun n _ => n = 0%nat) (ensureVectorCountFits vs what).
Proof.
  unfold ensureVectorCountFits. next. subst. eapply spec_weaken; [reader|]. by intros ? ? [-> _].
Qed.
#[export] Hint Resolve spec_ensureVectorCountFits : readers.

Section Wf.
Context (enabledFeatures : CoreFeatures) (memoryLimitPages : Z) (memoryCapacityFromMax : bool).

(** ** value.go *)

Definition value_type (v : ValueType) : Prop := exists t, valid_vt t /\ v = pack t.
Definition ref_type (v : ValueType) : Prop := exists n h, valid_vt (TRef n h) /\ v = pack (TRef n h).

Lemma ref_value_type v : ref_type v -> value_type v.
Proof. intros (n & h & Hv & ->). by eexists. Qed.

Lemma pack_AsNonNullable n h : valid_vt (TRef n h) -> AsNonNullable (pack (TRef n h)) = pack (TRef false h).
Proof. intros Hv. destruct (pack_accessors _ Hv) as (_ & _ & _ & _ & H). apply (H n h eq_refl). Qed.

Lemma one_of_In x l : one_of x l = true -> In x l.
Proof. unfold one_of. intros (y & Hy & ->%Z.eqb_eq)%existsb_exists. done. Qed.

(** The value types of one byte. *)
Lemma plain_value_type b :
  In b [ValueTypeI32; ValueTypeF32; ValueTypeI64; ValueTypeF64; ValueTypeFuncref; ValueTypeExternref;
        ValueTypeV128; ValueTypeExnref] -> value_type b.
Proof.
  assert (forall t, valid_vt t -> value_type (pack t)) as H by (by intros t Ht; exists t).
  intros Hb. cbn [In] in Hb. destruct_or! Hb; subst b;
    [apply (H TI32)|apply (H TF32)|apply (H TI64)|apply (H TF64)|apply (H (TRef true HFunc))|
     apply (H (TRef true HExtern))|apply (H TV128)|apply (H (TRef true HExn))]; done.
Qed.

Lemma spec_decodeRefType pan nullable : spec pan (fun n v => (1 <= n)%nat /\ ref_type v) (decodeRefType nullable).
Proof.
  unfold decodeRefType. next. destruct a as [ht k]. pairs.
  eapply (spec_bind _ (fun _ vt => ref_type (if negb nullable then AsNonNullable vt else vt))).
  - assert (forall h vt, pack (TRef true h) = vt -> valid_vt (TRef true h) ->
      ref_type (if negb nullable then AsNonNullable vt else vt)) as Habs.
    { intros h vt <- Hv. exists nullable, h. split; [done|]. destruct nullable; [done|].
      by apply (pack_AsNonNullable true h). }
    repeat (apply spec_if; intros ?); try apply spec_fail; apply spec_ret;
      [by apply (Habs HFunc)|by apply (Habs HExtern)|by apply (Habs HExn)|].
    assert (is_u32 (wrap32 ht)) as Hv by (unfold is_u32, wrap32; apply Z.mod_pos_bound; lia).
    exists nullable, (HIdx (wrap32 ht)). split; [done|]. destruct nullable; [done|].
    by apply (pack_AsNonNullable false (HIdx (wrap32 ht))).
  - intros n' vt Hvt. done_ret.
Qed.

Lemma spec_decodeValueType pan :
  spec pan (fun n v => (1 <= n)%nat /\ value_type v) (decodeValueType enabledFeatures).
Proof.
  unfold decodeValueType. next. pairs. apply spec_if; intros E.
  - apply spec_ret. split; [lia|]. apply one_of_In in E. apply plain_value_type.
    cbn [In] in *. destruct_or! E; subst a; auto 10.
  - apply spec_if; intros E2; [|apply spec_fail]. steps. eapply spec_weaken; [apply spec_decodeRefType|].
    intros k v [? ?]. split; [lia|by apply ref_value_type].
Qed.
#[local] Hint Resolve spec_decodeRefType spec_decodeValueType : readers.

Lemma spec_decodeValueTypes pan num :
  is_u32 num -> spec pan (fun n l => (length l <= n)%nat /\ zlen l = num /\ Forall value_type l)
    (decodeValueTypes num enabledFeatures).
Proof.
  intros Hn. unfold decodeValueTypes. destruct (Z.eqb_spec num 0) as [->|]; [done_ret|]. reader.
Qed.

(** A Go string that is valid UTF-8. *)
Definition utf8 (s : string) : Prop := exists l, bytes_ok l /\ validUTF8 l = true /\ s = bytesToString l.

Lemma spec_decodeUTF8 pan context : spec pan (fun n v => (1 <= n)%nat /\ utf8 v.1 /\ 0 <= v.2) (decodeUTF8 context).
Proof.
  unfold decodeUTF8. next. destruct a as [size k]. pairs. apply spec_if; intros E.
  - done_ret; [by exists []; split_and!; [constructor|..]|]. unfold wrap32. apply Z.mod_pos_bound. lia.
  - steps. done_ret; [unfold utf8; eauto|]. unfold wrap32. apply Z.mod_pos_bound. lia.
Qed.
#[local] Hint Resolve spec_decodeValueTypes spec_decodeUTF8 : readers.

(** ** The type section *)

(** The forward references of a type are below [len]. *)
Definition refs_below (len : Z) (ft : FunctionType) : Prop :=
  refs_in_range len (Params ft) /\ refs_in_range len (Results ft).

Definition plain_type (c : cachedType) : Prop :=
  c = decodedType (theType c) /\ Forall value_type (Params (theType c)) /\ Forall value_type (Results (theType c)).

Lemma spec_decodeFunctionType pan :
  spec pan (fun n c => (1 <= n)%nat /\ plain_type c /\ RecGroupSize (theType c) = 0 /\ RecGroupPosition (theType c) = 0)
    (decodeFunctionType enabledFeatures).
Proof.
  unfold decodeFunctionType. steps.
  apply spec_ret. cbn. split_and!; done || lia.
Qed.
#[local] Hint Resolve spec_decodeFunctionType : readers.

Lemma existsb_negb_Forall {A} (f : A -> bool) l : negb (existsb f l) = true -> Forall (fun x => f x = false) l.
Proof.
  intros H. apply Forall_forall. intros x Hx%list_elem_of_In. apply negb_true_iff in H.
  destruct (f x) eqn:E; [|done]. rewrite <- H. symmetry. apply existsb_exists. eauto.
Qed.

Lemma refs_in_range_spec l len :
  negb (existsb (fun vt => IsConcreteRef vt && (TypeIndex vt >=? len)) l) = true -> refs_in_range len l.
Proof.
  intros H%existsb_negb_Forall. eapply Forall_impl; [exact H|]. cbn beta. intros v Hv Hc. rewrite Hc in Hv. bools.
  simpl in Hv. lia.
Qed.

Lemma spec_validateTypeForwardRefs pan ft len :
  spec pan (fun n _ => n = 0%nat /\ refs_below len ft) (validateTypeForwardRefs ft len).
Proof.
  unfold validateTypeForwardRefs. next. pairs. eapply spec_weaken; [reader|]. intros k u [-> ?].
  split; [done|split; by apply refs_in_range_spec].
Qed.
#[local] Hint Resolve spec_validateTypeForwardRefs : readers.

Lemma spec_checkForwardRefs pan len ts :
  spec pan (fun n _ => n = 0%nat /\ Forall (fun c => refs_below len (theType c)) ts) (checkForwardRefs ts len).
Proof.
  induction ts as [|t ts IH]; cbn [checkForwardRefs]; [by apply spec_ret|]. next. pairs.
  eapply spec_weaken; [apply IH|]. intros k u [-> ?]. split; [done|by constructor].
Qed.
#[local] Hint Resolve spec_checkForwardRefs : readers.

(** The members of a rec group from position [j] on. *)
Definition group_from (size j : Z) (g : list cachedType) : Prop :=
  zlen g = size - j /\
  forall i c, g !! i = Some c ->
    plain_type c /\ RecGroupSize (theType c) = size /\ RecGroupPosition (theType c) = j + Z.of_nat i.

Lemma plain_setRecGroup size pos c : plain_type c -> plain_type (setRecGroup size pos c).
Proof. intros (-> & ? & ?). by split. Qed.

Lemma spec_recGroup pan recCount fuel : forall j r, 0 <= j <= recCount -> reader_ok r -> (length r < fuel)%nat ->
  match recGroupLoop enabledFeatures recCount fuel j r with
  | Ok (g, r') => exists l, r = l ++ r' /\ (length g <= length l)%nat /\ group_from recCount j g
  | Err _ => True
  | Panic e => pan e
  end.
Proof.
  induction fuel as [|fuel IH]; intros j r Hj Hr Hf; [lia|]. cbn [recGroupLoop].
  destruct (Z.geb_spec j recCount); [exists []; split_and!; [done|done|split; [unfold zlen; cbn; lia|done]]|].
  unfold mbind, R_bind, wrapR. pose proof (spec_decodeFunctionType pan r Hr) as Hft.
  destruct (decodeFunctionType enabledFeatures r) as [[ft r1]|e|e]; [|done|done]. destruct Hft as (l & -> & Hl & Hft & _).
  cbn [res_bind]. rewrite length_app in Hf.
  specialize (IH (j + 1) r1 ltac:(lia) (reader_ok_app _ _ Hr) ltac:(lia)).
  destruct (recGroupLoop enabledFeatures recCount fuel (j + 1) r1) as [[g r2]|e|e]; [|done|done]. cbn [res_bind].
  destruct IH as (l' & -> & ? & Hg & Hm). exists (l ++ l'). rewrite app_assoc, length_app. cbn [length].
  split_and!; [done|lia|split; [rewrite zlen_cons; lia|]]. intros [|i] c; cbn [lookup list_lookup].
  - intros [= <-]. split_and!; [by apply plain_setRecGroup|done|cbn; lia].
  - intros Hc. destruct (Hm i c Hc) as (? & ? & ?). split_and!; [done|done|lia].
Qed.

(** The members of [g] are a group of their own, or alone. *)
Definition groups_of (g : list FunctionType) : Prop :=
  exists s, 0 <= s /\ forall i ft, zlookup g i = Some ft ->
    RecGroupSize ft = s /\ (1 < s -> s = zlen g /\ RecGroupPosition ft = i).

Lemma refs_below_mono len len' ft : len <= len' -> refs_below len ft -> refs_below len' ft.
Proof.
  intros Hl [H1 H2]. split; (eapply Forall_impl; [eassumption|]); cbn beta; intros v Hv Hc; specialize (Hv Hc); lia.
Qed.

Lemma wf_types_app ts g :
  wf_types ts -> zlen (ts ++ g) < 2 ^ 32 -> groups_of g ->
  (forall ft, ft ∈ g -> refs_below (zlen (ts ++ g)) ft) -> wf_types (ts ++ g).
Proof.
  intros Hwf Hlen (s & Hs0 & Hg) Hr. pose proof (zlen_nonneg g). pose proof (zlen_nonneg ts). assert (zlen (ts ++ g) = zlen ts + zlen g) as El by apply zlen_app.
  assert (forall t ft, zlookup (ts ++ g) t = Some ft ->
    (t < zlen ts /\ zlookup ts t = Some ft) \/ (zlen ts <= t /\ zlookup g (t - zlen ts) = Some ft)) as Hcase.
  { intros t ft. rewrite zlookup_app. destruct (Z.ltb_spec t (zlen ts)); auto. }
  split; [done|..]; intros t ft.
  - intros [[Ht E]|[Ht E]]%Hcase.
    + apply (refs_below_mono (zlen ts)); [lia|]. by apply (wf_refs ts Hwf t).
    + apply Hr. unfold zlookup in E. destruct (0 <=? _); [|done]. by apply list_elem_of_lookup_2 in E.
  - intros [[Ht E]|[Ht E]]%Hcase; [by apply (wf_size ts Hwf t)|by destruct (Hg _ _ E) as [-> _]].
  - intros [[Ht E]|[Ht E]]%Hcase Hs.
    + destruct (wf_group ts Hwf t ft E Hs) as (? & ? & ?). lia.
    + destruct (Hg _ _ E) as [Es Hp]. rewrite Es in *. destruct (Hp Hs) as [? ->]. apply zlookup_Some_lt in E. lia.
  - intros i Hf Hs Hi. destruct (Hcase _ _ Hf) as [[Ht E]|[Ht E]].
    + destruct (wf_group_members ts Hwf t ft i E Hs Hi) as (ft' & E' & ? & ?). exists ft'. split; [|done].
      rewrite zlookup_app, E'. apply zlookup_Some_lt in E'. by rewrite (proj2 (Z.ltb_lt _ _)) by lia.
    + destruct (Hg _ _ E) as [Es Hp]. rewrite Es in *. destruct (Hp Hs) as [Ez ->].
      destruct (zlookup_lt_is_Some g i) as [ft' E']; [lia|]. exists ft'.
      rewrite zlookup_app. replace (t - (t - zlen ts) + i) with (zlen ts + i) by lia.
      rewrite (proj2 (Z.ltb_ge _ _)) by lia. replace (zlen ts + i - zlen ts) with i by lia. split; [done|].
      destruct (Hg _ _ E') as [-> Hp']. split; [done|]. by apply Hp'.
Qed.

(** An entry adds a group, whose references reach at most to its own end. *)
Definition entry_ok (n : Z) (g : list cachedType) : Prop :=
  Forall plain_type g /\ groups_of (map theType g) /\
  (n + zlen g < 2 ^ 32 -> Forall (fun c => refs_below (n + zlen g) (theType c)) g) /\
  Forall (fun c => RecGroupSize (theType c) = 0 -> refs_below n (theType c)) g.

Lemma group_from_entry n size g :
  0 <= n -> 0 <= size -> group_from size 0 g -> Forall (fun c => refs_below (wrap32 (n + size)) (theType c)) g ->
  entry_ok n g.
Proof.
  intros Hn Hs [Hl Hg] Hr. split_and!.
  - apply Forall_lookup. intros i c Hc. by destruct (Hg i c Hc).
  - exists size. split; [done|]. intros i ft E. pose proof (zlookup_Some_lt _ _ _ E) as Hi.
    rewrite zlookup_nonneg_Some in E by lia. rewrite list_lookup_fmap in E. apply fmap_Some in E as (c & Hc & ->).
    destruct (Hg _ _ Hc) as (_ & ? & ?). rewrite zlen_map in *. split; [done|]. lia.
  - intros Hb. replace (zlen g) with size in * by lia. by rewrite wrap32_small in Hr by (unfold is_u32; lia).
  - apply Forall_lookup. intros i c Hc E. destruct (Hg i c Hc) as (_ & E' & _). apply lookup_lt_Some in Hc.
    unfold zlen in Hl. lia.
Qed.

Lemma spec_decodeRecGroup pan n :
  0 <= n -> spec pan (fun k g => (length g <= k)%nat /\ entry_ok n g) (decodeRecGroup enabledFeatures n).
Proof.
  intros Hn. unfold decodeRecGroup. next. pairs. intros r Hr. unfold mbind, R_bind, lenR. cbn [res_bind].
  pose proof (spec_recGroup pan a (S (Z.to_nat (zlen r))) 0 r) as Hg. unfold is_u32 in *.
  specialize (Hg ltac:(lia) Hr ltac:(unfold zlen; lia)).
  destruct (recGroupLoop _ _ _ _ _) as [[g r2]|e|e]; [|done|done]. cbn [res_bind]. destruct Hg as (l & -> & Hl & Hg).
  pose proof (spec_checkForwardRefs pan (wrap32 (n + a)) g r2 (reader_ok_app _ _ Hr)) as Hc.
  destruct (checkForwardRefs _ _ _) as [[[] r3]|e|e]; [|done|done]. cbn [res_bind]. destruct Hc as (l' & -> & Hl' & Hc).
  apply nil_length_inv in Hl' as ->. exists l. split; [done|]. split; [lia|]. apply (group_from_entry n a); done || lia.
Qed.

Lemma spec_decodeTypeEntry pan n :
  0 <= n < 2 ^ 32 -> spec pan (fun k g => (length g <= k)%nat /\ (1 <= k)%nat /\ entry_ok n g) (decodeTypeEntry enabledFeatures n).
Proof.
  intros Hn r Hr. unfold decodeTypeEntry. destruct r as [|b r1]; [done|]. destruct (b =? 0x4e).
  - apply (reader_ok_app [b]) in Hr. pose proof (spec_decodeRecGroup pan n ltac:(lia) r1 Hr) as H.
    destruct (decodeRecGroup _ _ _) as [[g r']|e|e]; [|done|done]. destruct H as (l & -> & ? & ?).
    exists (b :: l). cbn. split_and!; done || lia.
  - assert (spec pan (fun k g => (length g <= k)%nat /\ (1 <= k)%nat /\ entry_ok n g)
      (ft ← wrapR "read type: " (decodeFunctionType enabledFeatures);
       _ ← validateTypeForwardRefs (theType ft) n;
       mret [ft])) as H; [|by apply H].
    steps. apply spec_ret. cbn [length]. split_and!; [lia|lia|]. split_and!; [by constructor|..].
    + exists 0. split; [lia|]. intros i ft E. split; [|lia].
      apply zlookup_Some_lt in E as Hi. change (zlen _) with 1 in Hi. replace i with 0 in E by lia. by injection E as <-.
    + intros _. constructor; [|done]. eapply refs_below_mono; [|done]. rewrite zlen_cons. change (zlen []) with 0. lia.
    + by constructor.
Qed.

Definition types_ok (ts : list cachedType) : Prop :=
  Forall plain_type ts /\
  (zlen ts < 2 ^ 32 -> wf_types (map theType ts) /\
     forall t c, zlookup ts t = Some c -> RecGroupSize (theType c) = 0 -> refs_below t (theType c)).

Lemma types_ok_nil : types_ok [].
Proof.
  assert (forall A t (x : A), zlookup [] t <> Some x) as Hnone
    by (intros A t x [? Hlt]%zlookup_Some_lt; unfold zlen in Hlt; simpl in Hlt; lia).
  split; [done|]. intros _. split; [|intros t c E; by destruct (Hnone _ _ _ E)].
  split; [done|..]; intros t ft; intros; by destruct (Hnone FunctionType t ft).
Qed.

Lemma types_ok_app ts g : types_ok ts -> entry_ok (wrap32 (zlen ts)) g -> types_ok (ts ++ g).
Proof.
  intros [Hp Hwf] (Hp' & Hg & Hr & Hb). split; [by apply Forall_app|]. intros Hl. rewrite zlen_app in Hl.
  pose proof (zlen_nonneg ts). pose proof (zlen_nonneg g). rewrite wrap32_small in Hr, Hb by (unfold is_u32; lia).
  destruct (Hwf ltac:(lia)) as [Hwf' Hback]. split.
  - rewrite map_app. apply wf_types_app; [done|rewrite zlen_app, !zlen_map; lia|done|].
    intros ft (c & -> & Hc)%list_elem_of_fmap. rewrite zlen_app, !zlen_map. rewrite Forall_forall in Hr. auto.
  - intros t c. rewrite zlookup_app. destruct (Z.ltb_spec t (zlen ts)); [apply Hback|]. intros E Ez.
    unfold zlookup in E. destruct (0 <=? _); [|done]. apply list_elem_of_lookup_2 in E. rewrite Forall_forall in Hb.
    eapply refs_below_mono; [|by apply Hb]. lia.
Qed.

Lemma spec_typeSectionLoop pan fuel : forall vs ts r,
  0 <= vs -> types_ok ts -> reader_ok r -> (length r < fuel)%nat ->
  match typeSectionLoop enabledFeatures fuel vs ts r with
  | Ok (ts', r') => exists l, r = l ++ r' /\ (length ts' <= length ts + length l)%nat /\ types_ok ts'
  | Err _ => True
  | Panic e => pan e
  end.
Proof.
  induction fuel as [|fuel IH]; intros vs ts r Hv Ht Hr Hf; [lia|]. cbn [typeSectionLoop].
  destruct (Z.eqb_spec vs 0); [exists []; split_and!; [done|lia|done]|]. unfold mbind, R_bind.
  assert (0 <= wrap32 (zlen ts) < 2 ^ 32) as Hw by (apply Z.mod_pos_bound; lia).
  pose proof (spec_decodeTypeEntry pan _ Hw r Hr) as He.
  destruct (decodeTypeEntry _ _ r) as [[g r1]|e|e]; [|done|done]. destruct He as (l & -> & Hl & Hl1 & He). cbn [res_bind].
  rewrite length_app in Hf.
  specialize (IH (vs - 1) (ts ++ g) r1 ltac:(lia) (types_ok_app _ _ Ht He) (reader_ok_app _ _ Hr) ltac:(lia)).
  destruct (typeSectionLoop _ _ _ _ r1) as [[ts' r2]|e|e]; [|done|done]. destruct IH as (l' & -> & ? & ?).
  exists (l ++ l'). rewrite length_app in *. rewrite app_assoc. split_and!; [done|lia|done].
Qed.

Lemma spec_decodeTypeSection pan :
  spec pan (fun n ts => (length ts <= n)%nat /\ types_ok ts) (decodeTypeSection enabledFeatures).
Proof.
  unfold decodeTypeSection. next. pairs. intros r Hr. unfold mbind, R_bind, lenR. cbn [res_bind].
  pose proof (spec_typeSectionLoop pan (S (Z.to_nat (zlen r))) a [] r) as Hs. unfold is_u32 in *.
  specialize (Hs ltac:(lia) types_ok_nil Hr ltac:(unfold zlen; lia)).
  destruct (typeSectionLoop _ _ _ _ _) as [[ts r']|e|e]; [|done|done]. destruct Hs as (l & -> & Hl & Ht).
  exists l. simpl in Hl. split_and!; [done|lia|done].
Qed.

(** ** Memories, tables, globals *)

Definition memory_ok (m : Memory) : Prop :=
  0 <= MemMin m <= MemCap m /\ MemCap m <= MemMax m <= memoryLimitPages /\
  (IsShared m = true -> IsMaxEncoded m = true /\ IsEnabled enabledFeatures CoreFeaturesThreads = true).

Definition table_ok (t : Table) : Prop :=
  ref_type (TableRefType t) /\ 0 <= TableMin t <= MaximumFunctionIndex /\
  (forall mx, TableMax t = Some mx -> TableMin t <= mx < 2 ^ 32) /\
  (forall e, TableInitExpr t = Some e -> decodedExpr enabledFeatures e).

Definition global_type_ok (g : GlobalType) : Prop := value_type (ValType g).
Definition global_ok (g : Global) : Prop :=
  global_type_ok (GlobalTypeOf g) /\ decodedExpr enabledFeatures (GlobalInit g).

Lemma spec_decodeLimitsType pan :
  spec pan (fun n v => (1 <= n)%nat /\ is_u32 v.1.1 /\ forall mx, v.1.2 = Some mx -> is_u32 mx) decodeLimitsType.
Proof.
  unfold decodeLimitsType. next. pairs.
  eapply (spec_bind _ (fun _ v => is_u32 v.1 /\ forall mx, v.2 = Some mx -> is_u32 mx)).
  - repeat (apply spec_if; intros ?); [| |apply spec_fail]; steps; done_ret. by intros mx [= <-].
  - intros k [mn mx] ?. done_ret.
Qed.
#[local] Hint Resolve spec_decodeLimitsType : readers.

Lemma memorySizer_ok shared mn maxP :
  is_u32 mn -> let '(mn, capacity, mx) := memorySizer memoryLimitPages memoryCapacityFromMax mn maxP in
  forall enc, validateMemory (mkMemory mn capacity mx enc shared) memoryLimitPages = Ok tt ->
  0 <= mn <= capacity /\ capacity <= mx <= memoryLimitPages.
Proof.
  unfold is_u32, memorySizer, validateMemory. intros Hm. destruct maxP as [mx|], memoryCapacityFromMax;
    repeat case_match; cbn in *; intros enc; repeat (case_match; try done); intros _; bools; simplify_eq; lia.
Qed.

Lemma spec_decodeMemory pan :
  spec pan (fun n m => (1 <= n)%nat /\ memory_ok m) (decodeMemory enabledFeatures memoryLimitPages memoryCapacityFromMax).
Proof.
  unfold decodeMemory. next. destruct a as [[mn maxP] shared]. pairs.
  eapply (spec_bind _ (fun k _ => shared = true -> is_Some maxP /\ IsEnabled enabledFeatures CoreFeaturesThreads = true)).
  { apply spec_if; intros E; [|by apply spec_ret; intros E'; simplify_eq]. next. pairs. eapply spec_weaken; [reader|].
    cbn. intros ? ? [? H2%bool_decide_eq_true] _. done. }
  intros k [] Hs. pose proof (memorySizer_ok shared mn maxP ltac:(done)) as Hm.
  destruct (memorySizer _ _ _ _) as [[mn' capacity] mx]. eapply spec_bind.
  { apply spec_lift. unfold validateMemory. repeat case_match; done. }
  intros j [] [_ Hv]. apply Hm in Hv as [? ?]. apply spec_ret. split; [lia|]. split; [done|]. split; [done|].
  cbn. intros E. apply Hs in E as [E ?]. split; [by apply bool_decide_eq_true|done].
Qed.
#[local] Hint Resolve spec_decodeMemory : readers.

Lemma byte_ref_type b : is_u8 b -> IsRef b = true -> ref_type b.
Proof.
  intros Hb Hr. assert (b = ValueTypeFuncref \/ b = ValueTypeExternref \/ b = ValueTypeExnref) as Hc.
  { apply (byte_forall (fun b => implb (IsRef b)
      ((b =? ValueTypeFuncref) || (b =? ValueTypeExternref) || (b =? ValueTypeExnref)))) in Hb; [|by vm_compute].
    rewrite Hr in Hb. cbn [implb] in Hb. bools. rewrite !Z.eqb_eq in Hb. tauto. }
  destruct Hc as [->|[->| ->]]; [exists true, HFunc|exists true, HExtern|exists true, HExn]; done.
Qed.

Lemma spec_decodeTablePrefix pan : spec pan (fun n v => (1 <= n)%nat /\ is_u8 v.1) decodeTablePrefix.
Proof. unfold decodeTablePrefix. next. pairs. apply spec_if; intros E; steps; done_ret. Qed.
#[local] Hint Resolve spec_decodeTablePrefix : readers.

Lemma spec_decodeTable pan : spec pan (fun n t => (1 <= n)%nat /\ table_ok t) (decodeTable enabledFeatures).
Proof.
  unfold decodeTable. next. destruct a as [b hasInitExpr]. pairs.
  eapply (spec_bind _ (fun k tp => IsRef tp = true -> ref_type tp)).
  { apply spec_if; intros E; [|apply spec_ret; by apply byte_ref_type].
    eapply spec_weaken; [reader|]. intros ? ? [? ?] _. done. }
  intros k tp Htp. steps.
  eapply (spec_bind _ (fun k _ => forall m, o = Some m -> z <= m)).
  { destruct o as [m|]; [|apply spec_ret; done]. eapply spec_weaken; [reader|]. intros ? ? [? ?] ? [= <-]. bools. lia. }
  intros ? [] Hmx. next. pairs.
  eapply (spec_bind _ (fun k init => forall e, init = Some e -> decodedExpr enabledFeatures e)).
  { apply spec_if; intros E; [|by apply spec_ret]. next. pairs. apply spec_ret. by intros e [= <-]. }
  intros ? init Hinit. apply spec_ret. split; [lia|]. unfold is_u32 in *. bools.
  split_and!; [by apply Htp|cbn; lia..| |done]. cbn. intros mx E. specialize (Hmx mx E). naive_solver lia.
Qed.
#[local] Hint Resolve spec_decodeTable : readers.

Lemma spec_decodeGlobalType pan :
  spec pan (fun n g => (1 <= n)%nat /\ global_type_ok g) (decodeGlobalType enabledFeatures).
Proof.
  unfold decodeGlobalType.
  assert (is_u32 1) as H1 by by split. next. pairs. destruct a as [|vt a]; [done|].
  match goal with H : Forall _ _ |- _ => apply Forall_cons in H as [Hv _] end.
  next. pairs. repeat (apply spec_if; intros ?); [..|apply spec_fail]; done_ret.
Qed.
#[local] Hint Resolve spec_decodeGlobalType : readers.

Lemma spec_decodeGlobal pan : spec pan (fun n g => (1 <= n)%nat /\ global_ok g) (decodeGlobal enabledFeatures).
Proof. unfold decodeGlobal. steps. done_ret. Qed.
#[local] Hint Resolve spec_decodeGlobal : readers.

(** ** Imports, exports, segments *)

Definition extern_types : list Z := [ExternTypeFunc; ExternTypeTable; ExternTypeMemory; ExternTypeGlobal; ExternTypeTag].

(** The description that the type of the import selects. *)
Definition import_ok (i : Import) : Prop :=
  utf8 (ImportModule i) /\ utf8 (ImportName i) /\ In (ImportType i) extern_types /\
  (ImportType i = ExternTypeFunc -> is_u32 (DescFunc i)) /\
  (ImportType i = ExternTypeTable -> table_ok (DescTable i)) /\
  (ImportType i = ExternTypeMemory -> exists m, DescMem i = Some m /\ memory_ok m) /\
  (ImportType i = ExternTypeGlobal -> global_type_ok (DescGlobal i)) /\
  (ImportType i = ExternTypeTag -> is_u32 (DescTag i)).

Lemma spec_decodeImportDesc pan b m name :
  utf8 m -> utf8 name ->
  spec pan (fun _ i => import_ok i)
    (decodeImportDesc enabledFeatures memoryLimitPages memoryCapacityFromMax (newImport b m name)).
Proof.
  intros Hm Hn. unfold decodeImportDesc. change (ImportType (newImport b m name)) with b.
  repeat (apply spec_if; intros ?); [..|apply spec_fail]; bools; subst b; steps; apply spec_ret;
    (split_and!; [done|done|cbn; tauto|..]); try done; cbn; eauto.
Qed.
#[local] Hint Resolve spec_decodeImportDesc : readers.

Lemma spec_decodeImport pan :
  spec pan (fun n i => (1 <= n)%nat /\ import_ok i) (decodeImport enabledFeatures memoryLimitPages memoryCapacityFromMax).
Proof.
  unfold decodeImport. next. destruct a as [m k1]. pairs. next. destruct a as [name k2]. pairs. next. pairs.
  eapply spec_weaken; [reader|]. intros k i Hi. split; [lia|done].
Qed.

Definition export_ok (e : Export) : Prop := utf8 (ExportName e) /\ In (ExportType e) extern_types /\ is_u32 (ExportIndex e).

Lemma spec_decodeExport pan : spec pan (fun n e => (1 <= n)%nat /\ export_ok e) decodeExport.
Proof.
  unfold decodeExport. next. destruct a as [name k]. pairs. next. pairs. apply spec_if; intros E; [|apply spec_fail].
  apply one_of_In in E. steps. apply spec_ret. split; [lia|]. by split_and!.
Qed.

(** An initial value of an element segment: a constant expression of the module, or
    the [ref.func] that stands for a function index. *)
Definition element_init_ok (e : list Z) : Prop :=
  decodedExpr enabledFeatures e \/
  exists v, 0 <= v < MaximumFunctionIndex /\ e = NewConstantExpressionFromOpcode OpcodeRefFunc (EncodeUint32 v).

Definition element_ok (e : ElementSegment) : Prop :=
  ref_type (ElementType e) /\ is_u32 (ElementTableIndex e) /\ Forall element_init_ok (ElementInit e) /\
  (Mode e = ElementModeActive -> decodedExpr enabledFeatures (OffsetExpr e)) /\
  (ElementTableIndex e <> 0 -> Mode e = ElementModeActive /\ IsEnabled enabledFeatures CoreFeatureReferenceTypes = true).

Lemma spec_ensureElementKindFuncRef pan : spec pan (fun _ _ => True) ensureElementKindFuncRef.
Proof. unfold ensureElementKindFuncRef. next. pairs. by eapply spec_weaken; [reader|]. Qed.
#[local] Hint Resolve spec_ensureElementKindFuncRef : readers.

Lemma spec_initValues pan : spec pan (fun _ l => Forall element_init_ok l) decodeElementInitValueVector.
Proof.
  assert (spec pan (fun n a => (1 <= n)%nat /\ element_init_ok a) decodeElementInitValue) as H.
  { unfold decodeElementInitValue. steps. apply spec_ret. split; [lia|]. right. unfold is_u32 in *. bools.
    eexists. split; [|reflexivity]. lia. }
  unfold decodeElementInitValueVector. next. pairs. eapply spec_weaken; [reader|]. by intros ? ? (? & ? & ?).
Qed.

Lemma spec_initExprs pan : spec pan (fun _ l => Forall element_init_ok l) (decodeElementConstExprVector enabledFeatures).
Proof.
  unfold decodeElementConstExprVector. next. pairs. eapply spec_weaken; [reader|]. intros ? ? (? & ? & Hf).
  eapply Forall_impl; [exact Hf|]. intros. by left.
Qed.

Lemma spec_decodeElementRefType pan : spec pan (fun _ v => ref_type v) decodeElementRefType.
Proof.
  unfold decodeElementRefType. next. pairs. apply spec_if; intros E.
  - eapply spec_weaken; [reader|]. by intros ? ? [? ?].
  - next. pairs. apply spec_ret. 
    match goal with H : negb (_ && _) = true |- _ => apply negb_true_iff, andb_false_iff in H as [H|H] end; bools; subst;
      [exists true, HFunc|exists true, HExtern]; done.
Qed.

Lemma spec_decodeElementTableIndex pan :
  spec pan (fun _ v => is_u32 v /\ (v <> 0 -> IsEnabled enabledFeatures CoreFeatureReferenceTypes = true))
    (decodeElementTableIndex enabledFeatures).
Proof.
  unfold decodeElementTableIndex. next. pairs.
  eapply (spec_bind _ (fun _ _ => a <> 0 -> IsEnabled enabledFeatures CoreFeatureReferenceTypes = true)).
  - apply spec_if; intros E; [|apply spec_ret; bools; done]. apply spec_wrap.
    eapply spec_weaken; [apply spec_requireEnabled|]. by intros ? ? [].
  - intros k [] ?. by apply spec_ret.
Qed.
#[local] Hint Resolve spec_initValues spec_initExprs spec_decodeElementRefType spec_decodeElementTableIndex : readers.

Lemma funcref_nonnull : ref_type (AsNonNullable ValueTypeFuncref).
Proof. by exists false, HFunc. Qed.
Lemma funcref_null : ref_type ValueTypeFuncref.
Proof. by exists true, HFunc. Qed.

Lemma spec_decodeElementSegment pan :
  spec pan (fun n e => (1 <= n)%nat /\ element_ok e) (decodeElementSegment enabledFeatures).
Proof.
  unfold decodeElementSegment. next. pairs. next. pairs. cbv zeta.
  assert (is_u32 0) by by split.
  repeat (apply spec_if; intros ?); [..|apply spec_fail]; steps; apply spec_ret; (split; [lia|]);
    (split_and!; cbn; try done; auto using funcref_nonnull, funcref_null).
Qed.

Definition data_ok (d : DataSegment) : Prop :=
  bytes_ok (DataInit d) /\ zlen (DataInit d) < 2 ^ 32 /\ (Passive d = false -> decodedExpr enabledFeatures (OffsetExpression d)).

Lemma spec_decodeDataSegment pan :
  spec pan (fun n d => (1 <= n)%nat /\ data_ok d) (decodeDataSegment enabledFeatures).
Proof.
  unfold decodeDataSegment. next. pairs. next. pairs.
  eapply (spec_bind _ (fun _ v => v.2 = false -> decodedExpr enabledFeatures v.1)).
  - repeat (apply spec_if; intros ?); [|by apply spec_ret|apply spec_fail].
    eapply (spec_bind _ (fun _ _ => True)).
    + apply spec_if; intros ?; [|by apply spec_ret]. next. pairs. by eapply spec_weaken; [reader|].
    + intros ? [] _. next. pairs. by apply spec_ret.
  - intros k [offset passive] Ho. steps. apply spec_ret. split; [lia|]. split_and!; [done| |done].
    cbn. unfold zlen, is_u32 in *. lia.
Qed.

(** ** Function bodies *)

Lemma decodeRefType_int33 nullable r v n r1 :
  reader_ok r -> int33n r = Ok ((v, n), r1) ->
  match decodeRefType nullable r with
  | Ok (vt, r2) => r2 = r1 /\ value_type vt
  | Err _ => True
  | Panic _ => False
  end.
Proof.
  intros Hok E. pose proof (spec_decodeRefType never nullable r Hok) as Hs.
  assert (forall vt r2, decodeRefType nullable r = Ok (vt, r2) -> r2 = r1) as Hr.
  { unfold decodeRefType, mbind, R_bind, wrapR. rewrite E. cbn [res_bind]. intros vt r2.
    repeat case_match; try done; by intros [= _ <-]. }
  destruct (decodeRefType nullable r) as [[vt r2]|e|e]; [|done|done]. destruct Hs as (? & _ & _ & Hv).
  split; [by eapply Hr|by apply ref_value_type].
Qed.

(** What the two passes agree on for a group of [num] locals in the bytes [l]. *)
Lemma local_group remaining sum bytesRead r :
  reader_ok r -> 0 <= bytesRead -> bytesRead + zlen r < 2 ^ 64 ->
  match checkLocalGroup remaining sum bytesRead r with
  | Ok ((sum', bytesRead'), r1) => exists l num,
      r = l ++ r1 /\ (1 <= length l)%nat /\ is_u32 num /\ sum' = wrap64 (sum + num) /\ bytesRead' = bytesRead + zlen l /\
      forall remaining2 acc,
        match decodeLocalGroup remaining2 acc r with
        | Ok ((acc', remaining3), r2) => r2 = r1 /\ remaining3 = remaining2 - zlen l /\
            exists vt, value_type vt /\ acc' = acc ++ replicate (Z.to_nat num) vt
        | Err _ => True
        | Panic _ => False
        end
  | Err _ => True
  | Panic _ => False
  end.
Proof.
  intros Hr Hb Hb'. unfold checkLocalGroup, decodeLocalGroup, mbind, R_bind, wrapR.
  pose proof (spec_u32n never r Hr) as Hu. destruct (u32n r) as [[[num n] r1]|e|e]; [|done|done]. cbn [res_bind].
  destruct Hu as (l1 & -> & Hn1 & Hn & Hnum). cbn [fst snd] in *.
  destruct (negb (remaining <? 0)); [|done]. unfold guardR at 1. cbn [mret R_ret res_bind].
  destruct r1 as [|b r1]; [done|]. cbn [ReadByte readByte res_bind].
  assert (wrap64 (bytesRead + (n + 1)) = bytesRead + (n + 1)) as Ew.
  { apply wrap64_small. rewrite zlen_app, zlen_cons in Hb'. pose proof (zlen_nonneg r1). unfold is_u64, zlen in *. lia. }
  destruct (one_of b _) eqn:Eplain.
  - cbn [mret R_ret]. exists (l1 ++ [b]), num. rewrite <- app_assoc, length_app, zlen_app, Ew.
    assert (zlen l1 = n) by (unfold zlen; lia). change (zlen [b]) with 1.
    split_and!; [done|cbn; lia|done..|lia|]. intros rem2 acc.
    unfold guardR. destruct (negb _); [|done]. cbn [mret R_ret res_bind ReadByte readByte].
    apply one_of_In in Eplain. assert (one_of b [RefPrefixNullable; RefPrefixNonNullable] = false) as ->
      by (cbn [In] in Eplain; by destruct_or! Eplain; subst b).
    cbn [mret R_ret res_bind]. split_and!; [done|lia|]. exists b. split; [by apply plain_value_type|done].
  - destruct (one_of b [RefPrefixNullable; RefPrefixNonNullable]) eqn:Eref; [|done].
    assert (reader_ok r1) as Hr1 by (apply reader_ok_app in Hr; by apply (reader_ok_app [b]) in Hr).
    pose proof (spec_int33n never r1 Hr1) as Hi.
    destruct (int33n r1) as [[[ht htNum] r2]|e|e] eqn:Ei; [|done|done]. cbn [res_bind mret R_ret].
    destruct Hi as (l2 & -> & Hh1 & Hh). cbn [fst snd] in *.
    exists (l1 ++ [b] ++ l2), num. rewrite <- !app_assoc, !length_app, !zlen_app, Ew. change (zlen [b]) with 1.
    assert (zlen l1 = n) by (unfold zlen; lia). assert (zlen l2 = htNum) by (unfold zlen; lia).
    rewrite zlen_app, zlen_cons, zlen_app in Hb'. pose proof (zlen_nonneg r2).
    split_and!; [done|cbn; lia|done|done|rewrite wrap64_small by (unfold is_u64; lia); lia|]. intros rem2 acc.
    unfold guardR. destruct (negb _); [|done]. cbn [mret R_ret res_bind ReadByte readByte]. rewrite Eref.
    cbn [lenR res_bind].
    pose proof (decodeRefType_int33 (b =? RefPrefixNullable) (l2 ++ r2) _ _ _ Hr1 Ei) as Hd.
    destruct (decodeRefType _ _) as [[vt r3]|e|e]; [|done|done]. destruct Hd as [-> Hv]. cbn [res_bind mret R_ret].
    rewrite zlen_app. split_and!; [done|lia|]. by exists vt.
Qed.

Lemma local_groups remaining ls fuel : ls < 2 ^ 32 -> forall i sum bytesRead r,
  reader_ok r -> 0 <= i -> 0 <= sum <= i * (2 ^ 32 - 1) -> 0 <= bytesRead -> bytesRead + zlen r < 2 ^ 64 ->
  (length r < fuel)%nat ->
  match checkLocals remaining ls fuel i sum bytesRead r with
  | Ok ((sum', bytesRead'), r1) => exists l, r = l ++ r1 /\ bytesRead' = bytesRead + zlen l /\
      forall remaining2 acc,
        match decodeLocals ls fuel i remaining2 acc r with
        | Ok ((acc', remaining3), r2) => r2 = r1 /\ remaining3 = remaining2 - zlen l /\
            exists more, acc' = acc ++ more /\ Forall value_type more /\ zlen more = sum' - sum
        | Err _ => True
        | Panic _ => False
        end
  | Err _ => True
  | Panic _ => False
  end.
Proof.
  intros Hls. induction fuel as [|fuel IH]; intros i sum bytesRead r Hr Hi Hs Hb Hb' Hf; [lia|].
  cbn [checkLocals decodeLocals]. destruct (Z.geb_spec i ls) as [Hge|Hlt].
  { exists []. change (zlen []) with 0. split_and!; [done|lia|]. intros rem2 acc. split_and!; [done|lia|].
    exists []. rewrite app_nil_r. split_and!; [done|done|]. change (zlen []) with 0. lia. }
  unfold mbind, R_bind. pose proof (local_group remaining sum bytesRead r Hr Hb Hb') as Hg.
  destruct (checkLocalGroup _ _ _ _) as [[[sum1 br1] r1]|e|e]; [|done|done].
  destruct Hg as (l & num & -> & Hl & Hnum & -> & -> & Hd). cbn [res_bind]. unfold is_u32 in Hnum.
  rewrite wrap64_small by (unfold is_u64; nia). rewrite zlen_app in Hb'. pose proof (zlen_nonneg l).
  rewrite length_app in Hf.
  specialize (IH (i + 1) (sum + num) (bytesRead + zlen l) r1 (reader_ok_app _ _ Hr) ltac:(lia) ltac:(lia) ltac:(lia)
    ltac:(lia) ltac:(lia)).
  destruct (checkLocals _ _ _ _ _ _ _) as [[[sum2 br2] r2]|e|e]; [|done|done]. destruct IH as (l2 & -> & -> & Hd2).
  exists (l ++ l2). rewrite <- app_assoc, zlen_app. split_and!; [done|lia|]. intros rem2 acc.
  specialize (Hd rem2 acc). destruct (decodeLocalGroup _ _ _) as [[[acc1 rem3] r3]|e|e]; [|done|done].
  destruct Hd as (-> & -> & vt & Hvt & ->). cbn [res_bind].
  specialize (Hd2 (rem2 - zlen l) (acc ++ replicate (Z.to_nat num) vt)).
  destruct (decodeLocals _ _ _ _ _ _) as [[[acc2 rem4] r4]|e|e]; [|done|done].
  destruct Hd2 as (-> & -> & more & -> & Hm & Hml). split_and!; [done|lia|].
  exists (replicate (Z.to_nat num) vt ++ more). rewrite app_assoc, zlen_app. split_and!; [done| |].
  - apply Forall_app. split; [by apply Forall_replicate|done].
  - unfold zlen at 1. rewrite length_replicate. lia.
Qed.

Definition code_ok (c : Code) : Prop :=
  bytes_ok (Body c) /\ last (Body c) = Some OpcodeEnd /\ Forall value_type (LocalTypes c) /\
  zlen (LocalTypes c) <= maxFunctionLocals.

(** The only panic of the decoder, see [decode_code_panics]. *)
Definition makeslice : string -> Prop := fun e => e = "makeslice: len out of range".

Lemma spec_decodeLocalTypes ls remaining :
  is_u32 ls -> spec never (fun n v => Forall value_type v.1 /\ zlen v.1 <= maxFunctionLocals /\ v.2 = remaining - Z.of_nat n)
    (decodeLocalTypes ls remaining).
Proof.
  unfold is_u32. intros Hls r Hr. unfold decodeLocalTypes, mbind, R_bind, getR. cbn [res_bind].
  pose proof (local_groups remaining ls (S (length r)) ltac:(lia) 0 0 0 r Hr ltac:(lia) ltac:(lia) ltac:(lia)) as Hg.
  destruct Hr as [Hr1 Hr2]. specialize (Hg ltac:(lia) ltac:(lia)).
  destruct (checkLocals _ _ _ _ _ _ _) as [[[sum br] r1]|e|e]; [|done|done]. destruct Hg as (l & Er & -> & Hd).
  cbn [res_bind]. unfold guardR. destruct (negb (sum >? 2 ^ 32 - 1)); [|done]. cbn [mret R_ret res_bind].
  destruct (Z.gtb_spec sum maxFunctionLocals) as [?|Hsum]; [done|]. cbn [negb mret R_ret res_bind]. unfold rewind.
  replace (zlen r - zlen r1 - (0 + zlen l)) with 0 by (rewrite Er, zlen_app; lia). cbn [res_bind]. rewrite drop_0.
  specialize (Hd remaining []). destruct (decodeLocals _ _ _ _ _ _) as [[[ts rem] r2]|e|e]; [|done|done].
  destruct Hd as (-> & -> & more & -> & Hm & Hl). exists l. cbn [fst snd app]. split_and!; [done..|lia|unfold zlen; lia].
Qed.

Lemma spec_decodeCode start : spec makeslice (fun n c => (1 <= n)%nat /\ code_ok c) (decodeCode start).
Proof.
  unfold decodeCode. next. pairs. next. destruct a0 as [ls k]. pairs. next. pairs.
  eapply spec_bind; [eapply spec_mono; [by apply spec_decodeLocalTypes|done|done]|].
  intros n1 [ts rem] Hts. cbn beta in *. pairs. next. pairs.
  eapply spec_bind; [apply spec_wrap, spec_readN_gen; by intros|]. intros n2 body (? & ? & ?). next. pairs.
  apply spec_ret. split; [lia|]. split_and!; [done| |done..]. cbn.
  destruct (last body) as [b|]; [|done]. bools. by subst.
Qed.

(** ** Names *)

Definition assoc_ok (a : NameAssoc) : Prop := is_u32 (NameIndex a) /\ utf8 (AssocName a).
Definition names_ok (n : NameSection) : Prop :=
  utf8 (NameModule n) /\ Forall assoc_ok (FunctionNames n) /\
  Forall (fun a => is_u32 (NameMapIndex a) /\ Forall assoc_ok (NameMap a)) (LocalNames n).

Lemma utf8_empty : utf8 "".
Proof. exists []. split_and!; [constructor|done|done]. Qed.

Lemma spec_decodeFunctionNames pan : spec pan (fun _ l => Forall assoc_ok l) decodeFunctionNames.
Proof.
  assert (spec pan (fun n a => (1 <= n)%nat /\ assoc_ok a)
    (functionIndex ← decodeFunctionIndex; '(name, _) ← decodeUTF8 "function[] name"; mret (mkNameAssoc functionIndex name))) as H.
  { unfold decodeFunctionIndex. next. pairs. next. pairs. apply spec_ret. split; [lia|]. by split. }
  unfold decodeFunctionNames, decodeFunctionCount. next. pairs. eapply spec_weaken; [reader|]. by intros ? ? (? & ? & ?).
Qed.

Lemma spec_decodeLocalNames pan :
  spec pan (fun _ l => Forall (fun a => is_u32 (NameMapIndex a) /\ Forall assoc_ok (NameMap a)) l) decodeLocalNames.
Proof.
  unfold decodeLocalNames, decodeFunctionCount. next. pairs.
  eapply (spec_vector_all _ (fun a => is_u32 (NameMapIndex a) /\ Forall assoc_ok (NameMap a))); [unfold is_u32 in *; lia|].
  unfold decodeFunctionIndex. steps.
  eapply (spec_bind _ (fun _ l => Forall assoc_ok l)).
  - eapply (spec_vector_all _ assoc_ok); [unfold is_u32 in *; lia|]. next. pairs. next. pairs. apply spec_ret. split; [lia|]. by split.
  - intros k l Hl. apply spec_ret. split; [lia|]. by split.
Qed.

Lemma spec_decodeNameSubsection pan id size n :
  names_ok n -> spec pan (fun _ n' => names_ok n') (decodeNameSubsection id size n).
Proof.
  intros (Hm & Hf & Hl). unfold decodeNameSubsection. repeat (apply spec_if; intros ?).
  - next. pairs. apply spec_ret. by split_and!.
  - eapply spec_bind; [apply spec_decodeFunctionNames|]. intros k names ?. apply spec_ret. by split_and!.
  - eapply spec_bind; [apply spec_decodeLocalNames|]. intros k names ?. apply spec_ret. by split_and!.
  - next. by apply spec_ret.
Qed.

Lemma nameSectionLoop_ok pan fuel : forall limit n r, names_ok n -> reader_ok r -> (length r < fuel)%nat ->
  match nameSectionLoop fuel limit n r with
  | Ok (n', r') => exists l, r = l ++ r' /\ names_ok n'
  | Err _ => True
  | Panic e => pan e
  end.
Proof.
  induction fuel as [|fuel IH]; intros limit n r Hn Hr Hf; [lia|]. cbn [nameSectionLoop].
  destruct (limit =? 0); [by exists []|]. destruct r as [|id r]; [by exists []|]. unfold mbind, R_bind, wrapR.
  apply (reader_ok_app [id]) in Hr. cbn [length] in Hf.
  pose proof (spec_u32n pan r Hr) as Hu. destruct (u32n r) as [[[size k] r1]|e|e]; [|done|done]. destruct Hu as (l1 & -> & Hk & Hk').
  cbn [res_bind fst snd] in *. apply reader_ok_app in Hr. rewrite length_app in Hf.
  pose proof (spec_decodeNameSubsection pan id size n Hn r1 Hr) as Hs.
  destruct (decodeNameSubsection id size n r1) as [[n2 r2]|e|e]; [|done|done]. destruct Hs as (l2 & -> & Hn2). cbn [res_bind].
  apply reader_ok_app in Hr. rewrite length_app in Hf.
  specialize (IH (wrap64 (limit - 1 - k - size)) n2 r2 Hn2 Hr ltac:(lia)).
  destruct (nameSectionLoop _ _ _ _) as [[n3 r3]|e|e]; [|done|done]. destruct IH as (l3 & -> & Hn3).
  exists (id :: l1 ++ l2 ++ l3). split; [|done]. cbn. by rewrite !app_assoc.
Qed.

Lemma spec_decodeNameSection pan limit : spec pan (fun _ n => names_ok n) (decodeNameSection limit).
Proof.
  intros r Hr. unfold decodeNameSection.
  assert (names_ok (mkNameSection "" [] [])) as H0 by (split_and!; [apply utf8_empty|constructor..]).
  pose proof (nameSectionLoop_ok pan (S (length r)) limit _ r H0 Hr ltac:(lia)). destruct (nameSectionLoop _ _ _ _) as [[]| |]; done.
Qed.

Definition custom_ok (c : CustomSection) : Prop := utf8 (CustomName c) /\ bytes_ok (CustomData c).

Lemma spec_decodeCustomSection pan name limit :
  utf8 name -> spec pan (fun _ c => custom_ok c) (decodeCustomSection name limit).
Proof.
  intros Hn r [Hr _]. unfold decodeCustomSection. destruct r as [|b r]; [done|].
  exists (take (Z.to_nat limit) (b :: r)). rewrite take_drop. split; [done|]. split; [done|]. cbn [CustomData].
  apply Forall_app. split; [by apply Forall_take|apply Forall_replicate; done].
Qed.

(** ** The import section *)

Definition countOf (tp : Z) (l : list Import) : Z := zlen (filter (fun i => ImportType i = tp) l).

(** The positions of the imports from a module, in order. *)
Definition positionsOf (name : string) (l : list Import) : list nat :=
  filter (fun i => ImportModule <$> l !! i = Some name) (seq 0 (length l)).

Record imports_ok (s : importState) : Prop := {
  io_each : Forall import_ok (is_result s);
  io_func : is_funcCount s = countOf ExternTypeFunc (is_result s);
  io_global : is_globalCount s = countOf ExternTypeGlobal (is_result s);
  io_memory : is_memoryCount s = countOf ExternTypeMemory (is_result s);
  io_table : is_tableCount s = countOf ExternTypeTable (is_result s);
  io_tag : is_tagCount s = countOf ExternTypeTag (is_result s);
  io_index : forall i imp, is_result s !! i = Some imp ->
    IndexPerType imp = countOf (ImportType imp) (take i (is_result s));
  io_per : forall name, default [] (is_perModule s !! name) = positionsOf name (is_result s);
}.

Lemma countOf_snoc tp l i : countOf tp (l ++ [i]) = countOf tp l + (if ImportType i =? tp then 1 else 0).
Proof.
  unfold countOf. rewrite filter_app, zlen_app, filter_cons, filter_nil.
  destruct (Z.eqb_spec (ImportType i) tp) as [E|E]; [rewrite decide_True by done|rewrite decide_False by done]; done.
Qed.

Lemma countOf_bound tp l : 0 <= countOf tp l <= zlen l.
Proof. unfold countOf, zlen. pose proof (length_filter (fun i => ImportType i = tp) l). lia. Qed.

Lemma filter_agree {A} (P Q : A -> Prop) `{!forall x, Decision (P x), !forall x, Decision (Q x)} (l : list A) :
  (forall x, x ∈ l -> P x <-> Q x) -> filter P l = filter Q l.
Proof.
  induction l as [|a l IH]; intros Hl; [done|]. rewrite !filter_cons, IH by (intros; apply Hl; by right).
  pose proof (Hl a ltac:(by left)) as Ha. by destruct (decide (P a)), (decide (Q a)); try tauto.
Qed.

Lemma positionsOf_snoc name l i :
  positionsOf name (l ++ [i]) = positionsOf name l ++ (if bool_decide (ImportModule i = name) then [length l] else []).
Proof.
  unfold positionsOf. rewrite length_app, seq_app, filter_app. f_equal.
  - apply filter_agree. intros k [_ Hk]%elem_of_seq. by rewrite lookup_app_l by lia.
  - cbn [Nat.add length seq]. rewrite filter_cons, filter_nil, list_lookup_middle by done. cbn [fmap option_fmap option_map].
    case_bool_decide as E; [rewrite decide_True by (by f_equal)|rewrite decide_False by (by intros [= ?])]; done.
Qed.

Lemma import_ok_index v i : import_ok i -> import_ok (set_IndexPerType v i).
Proof. done. Qed.

Lemma addImport_ok imp s :
  import_ok imp -> imports_ok s -> zlen (is_result s) + 1 < 2 ^ 32 ->
  imports_ok (addImport imp s) /\ zlen (is_result (addImport imp s)) = zlen (is_result s) + 1.
Proof.
  intros Hi Hs Hl.
  assert (exists c s', countImport imp s = (set_IndexPerType c imp, s') /\ c = countOf (ImportType imp) (is_result s) /\
    is_result s' = is_result s /\ is_perModule s' = is_perModule s /\
    (forall i, ImportType i = ImportType imp ->
      is_funcCount s' = countOf ExternTypeFunc (is_result s ++ [i]) /\
      is_globalCount s' = countOf ExternTypeGlobal (is_result s ++ [i]) /\
      is_memoryCount s' = countOf ExternTypeMemory (is_result s ++ [i]) /\
      is_tableCount s' = countOf ExternTypeTable (is_result s ++ [i]) /\
      is_tagCount s' = countOf ExternTypeTag (is_result s ++ [i]))) as (c & s' & E & Hc & Er & Ep & Hcounts).
  { destruct Hi as (_ & _ & Ht & _). pose proof (fun tp => countOf_bound tp (is_result s)) as Hb.
    destruct Hs as [_ E1 E2 E3 E4 E5 _ _], s as [res per f g m t e]. cbn in *. subst f g m t e.
    unfold countImport. destruct_or! Ht; rewrite <- Ht; cbn [Z.eqb];
      (eexists _, _; split; [reflexivity|]; split_and!; try done; intros i Ei; rewrite !countOf_snoc, Ei; cbn [Z.eqb Pos.eqb];
       rewrite wrap32_small by (specialize (Hb (ImportType imp)); rewrite <- Ht in Hb; unfold is_u32; lia); cbn; split_and!; cbn; lia). }
  unfold addImport. rewrite E. cbn zeta. set (imp' := set_IndexPerType c imp). rewrite Er, Ep.
  destruct (Hcounts imp' eq_refl) as (? & ? & ? & ? & ?).
  cbn [is_result]. split; [|rewrite zlen_app; done].
  split; cbn [is_result is_perModule is_funcCount is_globalCount is_memoryCount is_tableCount is_tagCount]; try done.
  - apply Forall_app. split; [apply Hs|]. by constructor.
  - intros i x. rewrite lookup_app_Some. intros [Hx|[Hge Hx]].
    + rewrite take_app_le by (apply lookup_lt_Some in Hx; lia). by apply Hs.
    + destruct (i - length (is_result s))%nat as [|k] eqn:Ei; [|by destruct k]. injection Hx as <-.
      replace i with (length (is_result s)) by lia. rewrite take_app_length. exact Hc.
  - intros name. rewrite positionsOf_snoc, <- (io_per s Hs). case_bool_decide as En.
    + rewrite <- En. by rewrite lookup_insert_eq.
    + rewrite lookup_insert_ne by done. by rewrite app_nil_r.
Qed.

Lemma importLoop_ok pan fuel : forall n s r,
  imports_ok s -> reader_ok r -> 0 <= n -> zlen (is_result s) + n < 2 ^ 32 -> (length r < fuel)%nat ->
  match importLoop enabledFeatures memoryLimitPages memoryCapacityFromMax fuel n s r with
  | Ok (s', r') => exists l, r = l ++ r' /\ imports_ok s' /\ zlen (is_result s') < 2 ^ 32
  | Err _ => True
  | Panic e => pan e
  end.
Proof.
  induction fuel as [|fuel IH]; intros n s r Hs Hr Hn Hb Hf; [lia|]. cbn [importLoop].
  destruct (Z.eqb_spec n 0); [exists []; split_and!; done || lia|]. unfold mbind, R_bind.
  pose proof (spec_decodeImport pan r Hr) as Hi. destruct (decodeImport _ _ _ r) as [[imp r1]|e|e]; [|done|done].
  destruct Hi as (l & -> & Hl & Hi). cbn [res_bind]. destruct (addImport_ok imp s Hi Hs ltac:(lia)) as [Hs' El].
  rewrite length_app in Hf. specialize (IH (n - 1) _ r1 Hs' (reader_ok_app _ _ Hr) ltac:(lia) ltac:(lia) ltac:(lia)).
  destruct (importLoop _ _ _ _ _ _ r1) as [[s2 r2]|e|e]; [|done|done]. destruct IH as (l2 & -> & ? & ?).
  exists (l ++ l2). by rewrite app_assoc.
Qed.

Lemma spec_decodeImportSection pan :
  spec pan (fun _ s => imports_ok s /\ zlen (is_result s) < 2 ^ 32)
    (decodeImportSection enabledFeatures memoryLimitPages memoryCapacityFromMax).
Proof.
  unfold decodeImportSection. next. pairs. next. subst.
  intros r Hr. unfold mbind, R_bind, lenR. cbn [res_bind].
  assert (imports_ok (mkImportState [] ∅ 0 0 0 0 0)) as Hnil.
  { split; cbn; done. }
  pose proof (importLoop_ok pan (S (Z.to_nat (zlen r))) a _ r Hnil Hr) as Hi. unfold is_u32 in *.
  specialize (Hi ltac:(lia) ltac:(change (zlen _) with 0; lia) ltac:(unfold zlen; lia)).
  destruct (importLoop _ _ _ _ _ _ r) as [[s r']|e|e]; [|done|done]. destruct Hi as (l & ? & ?). by exists l.
Qed.

(** ** The export section *)

Definition exports_ok (l : list Export) (names : gmap string nat) : Prop :=
  Forall export_ok l /\ forall name i, names !! name = Some i <-> exists e, l !! i = Some e /\ ExportName e = name.

Lemma exports_ok_snoc l names e :
  exports_ok l names -> export_ok e -> names !! ExportName e = None ->
  exports_ok (l ++ [e]) (<[ExportName e := length l]> names).
Proof.
  intros [Hl Hn] He Hfresh. split; [apply Forall_app; split; [done|by constructor]|]. intros name i.
  destruct (decide (name = ExportName e)) as [->|Hne].
  - rewrite lookup_insert_eq. split.
    + intros [= <-]. exists e. by rewrite list_lookup_middle.
    + intros (e' & [Hx|[Hge Hx]]%lookup_app_Some & E).
      * exfalso. assert (names !! ExportName e = Some i) as Hs by (apply Hn; eauto). by rewrite Hfresh in Hs.
      * destruct (i - length l)%nat as [|k] eqn:Ei; [|by destruct k]. f_equal. lia.
  - rewrite lookup_insert_ne, Hn by done. split; intros (e' & Hx & E); exists e'; (split; [|done]).
    + by apply lookup_app_l_Some.
    + apply lookup_app_Some in Hx as [Hx|[Hge Hx]]; [done|]. destruct (i - length l)%nat as [|k]; [|by destruct k].
      injection Hx as <-. done.
Qed.

Lemma exportLoop_ok pan fuel : forall n es names r,
  exports_ok es names -> reader_ok r -> (length r < fuel)%nat ->
  match exportLoop fuel n es names r with
  | Ok ((es', names'), r') => exists l, r = l ++ r' /\ exports_ok es' names'
  | Err _ => True
  | Panic e => pan e
  end.
Proof.
  induction fuel as [|fuel IH]; intros n es names r He Hr Hf; [lia|]. cbn [exportLoop].
  destruct (Z.eqb_spec n 0); [by exists []|]. unfold mbind, R_bind, wrapR.
  pose proof (spec_decodeExport pan r Hr) as Hx. destruct (decodeExport r) as [[e r1]|e|e]; [|done|done].
  destruct Hx as (l & -> & Hl & Hx). cbn [res_bind]. unfold guardR. case_bool_decide as Hfresh; [|done]. cbn [mret R_ret res_bind].
  rewrite length_app in Hf.
  specialize (IH (n - 1) _ _ r1 (exports_ok_snoc _ _ _ He Hx Hfresh) (reader_ok_app _ _ Hr) ltac:(lia)).
  destruct (exportLoop _ _ _ _ r1) as [[[es2 names2] r2]|e2|e2]; [|done|done]. destruct IH as (l2 & -> & ?).
  exists (l ++ l2). by rewrite app_assoc.
Qed.

Lemma spec_decodeExportSection pan : spec pan (fun _ v => exports_ok v.1 v.2) decodeExportSection.
Proof.
  unfold decodeExportSection. next. pairs. next. subst.
  intros r Hr. unfold mbind, R_bind, lenR. cbn [res_bind].
  assert (exports_ok [] ∅) as Hnil by (split; [done|]; intros name i; rewrite lookup_empty; split; [done|by intros (? & ? & ?)]).
  pose proof (exportLoop_ok pan (S (Z.to_nat (zlen r))) a _ _ r Hnil Hr ltac:(unfold zlen; lia)) as He.
  destruct (exportLoop _ _ _ _ r) as [[[es names] r']|e|e]; done.
Qed.

(** ** Modules *)

Record module_ok (m : Module) : Prop := {
  mo_types : types_ok (TypeSection m);
  mo_imports : imports_ok (mkImportState (ImportSection m) (ImportPerModule m) (ImportFunctionCount m)
    (ImportGlobalCount m) (ImportMemoryCount m) (ImportTableCount m) (ImportTagCount m));
  mo_functions : Forall is_u32 (FunctionSection m) /\ zlen (FunctionSection m) < 2 ^ 32;
  mo_tables : Forall table_ok (TableSection m);
  mo_memory : forall mem, MemorySection m = Some mem -> memory_ok mem;
  mo_tags : Forall is_u32 (TagSection m);
  mo_globals : Forall global_ok (GlobalSection m);
  mo_exports : exports_ok (ExportSection m) (Exports m);
  mo_start : forall f, StartSection m = Some f -> is_u32 f;
  mo_elements : Forall element_ok (ElementSection m);
  mo_code : Forall code_ok (CodeSection m) /\ zlen (CodeSection m) < 2 ^ 32;
  mo_data : Forall data_ok (DataSection m);
  mo_names : forall n, NameSec m = Some n -> names_ok n;
  mo_custom : Forall custom_ok (CustomSections m);
  mo_dataCount : forall n, DataCountSection m = Some n -> is_u32 n;
  mo_codeSet : CodeSection m <> [] -> CodeSectionSet m = true;
  mo_importCount : zlen (ImportSection m) < 2 ^ 32;
}.

Lemma emptyModule_ok : module_ok emptyModule.
Proof.
  split; cbn; try done; [apply types_ok_nil|].
  split; [done|]. intros name i. rewrite lookup_empty. split; [done|by intros (? & ? & ?)].
Qed.

(** A vector section of elements that satisfy [P]. *)
Lemma spec_section {A} pan (P : A -> Prop) msg msg2 (p : R A) :
  spec pan (fun n a => (1 <= n)%nat /\ P a) p ->
  spec pan (fun _ l => Forall P l /\ zlen l < 2 ^ 32)
    (vs ← wrapR msg u32; _ ← ensureVectorCountFits vs msg2; vector vs p).
Proof.
  intros Hp. next. pairs. next. eapply spec_weaken; [eapply spec_vector; [unfold is_u32 in *; lia|exact Hp]|].
  unfold is_u32 in *. intros ? ? (? & ? & ?). split; [done|lia].
Qed.

Lemma spec_decodeDataCountSection pan : spec pan (fun _ v => forall n, v = Some n -> is_u32 n) decodeDataCountSection.
Proof.
  intros r Hr. unfold decodeDataCountSection. pose proof (spec_u32 pan r Hr) as H.
  destruct (u32 r) as [[v r']|e|e]; [|destruct (String.eqb e io_EOF); [|done]|done].
  - destruct H as (l & -> & _ & ?). exists l. split; [done|]. by intros ? [= <-].
  - exists r. rewrite app_nil_r. split; [done|]. intros ? [= <-]. by split.
Qed.

Lemma spec_decodeCustom pan dwarfEnabled storeCustomSections sectionSize m :
  module_ok m -> spec pan (fun _ m' => module_ok m' /\ TypeSection m' = TypeSection m)
    (decodeCustom dwarfEnabled storeCustomSections sectionSize m).
Proof.
  intros Hm. unfold decodeCustom. cbv zeta. next. destruct a as [name nameSize]. pairs. next. pairs. next. pairs.
  repeat (apply spec_if; intros ?).
  - eapply spec_bind; [by apply spec_wrap, spec_decodeCustomSection|]. intros ? c Hc. apply spec_ret.
    split; [|done]. destruct Hm. split; cbn; try done. apply Forall_app. split; [done|by constructor].
  - next. by apply spec_ret.
  - eapply spec_bind; [apply spec_wrap, spec_decodeNameSection|]. intros ? names Hn. apply spec_ret.
    split; [|done]. destruct Hm. split; cbn; try done. by intros ? [= <-].
Qed.

Lemma spec_decodeFunctionSection pan :
  spec pan (fun _ l => Forall is_u32 l /\ zlen l < 2 ^ 32) decodeFunctionSection.
Proof. apply spec_section. reader. Qed.

Lemma spec_decodeTableSection pan : spec pan (fun _ l => Forall table_ok l) (decodeTableSection enabledFeatures).
Proof.
  unfold decodeTableSection. next. pairs. next. next. pairs. apply spec_vector_all; [unfold is_u32 in *; lia|]. reader.
Qed.

Lemma spec_decodeMemorySection pan :
  spec pan (fun _ v => forall m, v = Some m -> memory_ok m)
    (decodeMemorySection enabledFeatures memoryLimitPages memoryCapacityFromMax).
Proof.
  unfold decodeMemorySection. next. pairs. apply spec_if; intros _; [apply spec_fail|].
  apply spec_if; intros _; [by apply spec_ret|]. next. pairs. apply spec_ret. by intros ? [= <-].
Qed.

Lemma spec_decodeGlobalSection pan :
  spec pan (fun _ l => Forall global_ok l /\ zlen l < 2 ^ 32) (decodeGlobalSection enabledFeatures).
Proof. apply spec_section. reader. Qed.

Lemma spec_decodeStartSection pan : spec pan (fun _ v => forall f, v = Some f -> is_u32 f) decodeStartSection.
Proof. unfold decodeStartSection. next. pairs. apply spec_ret. by intros ? [= <-]. Qed.

Lemma spec_decodeElementSection pan :
  spec pan (fun _ l => Forall element_ok l /\ zlen l < 2 ^ 32) (decodeElementSection enabledFeatures).
Proof. apply spec_section, spec_wrap, spec_decodeElementSegment. Qed.

Lemma spec_decodeCodeSection : spec makeslice (fun _ l => Forall code_ok l /\ zlen l < 2 ^ 32) decodeCodeSection.
Proof.
  unfold decodeCodeSection. next. eapply spec_weaken; [apply spec_section, spec_wrap, spec_decodeCode|]. done.
Qed.

Lemma spec_decodeDataSection pan :
  spec pan (fun _ l => Forall data_ok l /\ zlen l < 2 ^ 32) (decodeDataSection enabledFeatures).
Proof. apply spec_section, spec_wrap, spec_decodeDataSegment. Qed.

Lemma spec_decodeTagSection pan : spec pan (fun _ l => Forall is_u32 l /\ zlen l < 2 ^ 32) decodeTagSection.
Proof.
  apply spec_section. unfold decodeTag. steps. eapply spec_weaken; [reader|]. intros ? ? [? ?]. split; [lia|done].
Qed.

(** A section sets its fields to what its decoder guarantees. *)
Ltac section L :=
  eapply spec_bind; [first [apply spec_wrap, L | apply L]|]; intros ? ? ?; cbn beta in *; pairs; apply spec_ret;
  split; [match goal with H : module_ok _ |- _ => destruct H end; split; cbn; first [done | by intros ? [= <-]]|by right].

Lemma spec_decodeSection dwarfEnabled storeCustomSections sectionID sectionSize m :
  module_ok m ->
  spec makeslice (fun n m' => module_ok m' /\ ((length (TypeSection m') <= n)%nat \/ TypeSection m' = TypeSection m))
    (decodeSection enabledFeatures memoryLimitPages memoryCapacityFromMax dwarfEnabled storeCustomSections sectionID sectionSize m).
Proof.
  intros Hm. unfold decodeSection. cbv zeta.
  apply spec_if; intros _.
  { eapply spec_weaken; [by apply spec_decodeCustom|]. intros ? ? [? ->]. auto. }
  apply spec_if; intros _.
  { eapply spec_bind; [apply spec_wrap, spec_decodeTypeSection|]. intros n ts [Hl Ht]. apply spec_ret.
    split; [destruct Hm; by split|]. left. cbn. lia. }
  apply spec_if; intros _.
  { eapply spec_bind; [apply spec_decodeImportSection|]. intros n s [Hs Hl]. apply spec_ret.
    split; [destruct Hm; by split; destruct s|by right]. }
  apply spec_if; intros _; [section spec_decodeFunctionSection|].
  apply spec_if; intros _; [section spec_decodeTableSection|].
  apply spec_if; intros _; [section spec_decodeMemorySection|].
  apply spec_if; intros _; [next; section spec_decodeTagSection|].
  apply spec_if; intros _; [section spec_decodeGlobalSection|].
  apply spec_if; intros _; [section spec_decodeExportSection|].
  apply spec_if; intros _; [section spec_decodeStartSection|].
  apply spec_if; intros _; [section spec_decodeElementSection|].
  apply spec_if; intros _; [section spec_decodeCodeSection|].
  apply spec_if; intros _; [section spec_decodeDataSection|].
  apply spec_if; intros _; [next; section spec_decodeDataCountSection|].
  apply spec_wrap, spec_fail.
Qed.

(** ** The sequence of sections *)

(** The order of the sections in the binary format; custom sections may be anywhere. *)
Definition section_order : list Z :=
  [SectionIDType; SectionIDImport; SectionIDFunction; SectionIDTable; SectionIDMemory; SectionIDTag; SectionIDGlobal;
   SectionIDExport; SectionIDStart; SectionIDElement; SectionIDDataCount; SectionIDCode; SectionIDData].

Fixpoint indexIn (x : Z) (l : list Z) : Z :=
  match l with [] => 0 | y :: l' => if x =? y then 1 else 1 + indexIn x l' end.

(** 0 for the start of the module. *)
Definition rank (id : Z) : Z := if id =? SectionIDCustom then 0 else indexIn id section_order.

Lemma checkSectionOrder_rank current previous :
  0 <= previous < 14 -> 1 <= current < 14 ->
  checkSectionOrder current previous = (current, rank previous <? rank current).
Proof.
  intros Hp Hc.
  pose (P c p := let '(x, b) := checkSectionOrder c p in (x =? c) && Bool.eqb b (rank p <? rank c)).
  assert (forallb (fun j => P current (0 + Z.of_nat j)) (seq 0 14) = true) as H.
  { apply (range_forall (fun c => forallb (fun j => P c (0 + Z.of_nat j)) (seq 0 14)) 1 13); [by vm_compute|lia]. }
  pose proof (range_forall (P current) 0 14 H previous ltac:(lia)) as E. unfold P in E.
  destruct (checkSectionOrder current previous) as [x b]. bools. subst x.
  by match goal with H : Bool.eqb _ _ = true |- _ => apply eqb_prop in H as -> end.
Qed.

(** A module is a sequence of sections: an identifier, a size, and that many bytes. *)
Inductive sections : list Z -> list (Z * list Z) -> Prop :=
| sections_nil : sections [] []
| sections_cons id size contents rest l :
    u32 size = Ok (zlen contents, []) -> sections rest l ->
    sections (id :: size ++ contents ++ rest) ((id, contents) :: l).

(** The identifiers of the sections that are not custom. *)
Definition known_ids (l : list (Z * list Z)) : list Z := filter (fun id => id <> SectionIDCustom) (map fst l).

Lemma u32_local r v r' : bytes_ok r -> u32 r = Ok (v, r') -> exists l, r = l ++ r' /\ (1 <= length l)%nat /\ is_u32 v /\ forall x, u32 (l ++ x) = Ok (v, x).
Proof.
  intros Hr. unfold u32, u32n, mbind, R_bind. destruct (DecodeUint32 r) as [[[v1 n] r1]|e|e] eqn:E; [|done..].
  cbn [res_bind mret R_ret]. intros [= <- <-].
  pose proof (DecodeUint32_sound _ _ _ _ Hr E) as (l & -> & _ & -> & Hl & _ & Hv). exists l.
  unfold zlen in Hl. split_and!; [done|lia|done|]. intros x.
  apply decodeUint32_loop_local in E as (l' & El & Hx). apply app_inv_tail in El as <-.
  unfold DecodeUint32, decodeUint32. by rewrite Hx.
Qed.

Section Loop.
Context (dwarfEnabled storeCustomSections : bool).
Local Abbreviation decodeSection := (decodeSection enabledFeatures memoryLimitPages memoryCapacityFromMax dwarfEnabled storeCustomSections).
Local Abbreviation sectionStep := (sectionStep enabledFeatures memoryLimitPages memoryCapacityFromMax dwarfEnabled storeCustomSections).
Local Abbreviation sectionsLoop := (sectionsLoop enabledFeatures memoryLimitPages memoryCapacityFromMax dwarfEnabled storeCustomSections).

Definition state_ok (m : Module) : Prop := module_ok m /\ zlen (TypeSection m) < 2 ^ 32.

Lemma decodeSection_known id size m r : ~ 0 <= id < 14 -> forall x, decodeSection id size m r <> Ok x.
Proof.
  intros Hid x. unfold decodeSection, failR, wrapR. cbv zeta.
  unfold SectionIDCustom, SectionIDType, SectionIDImport, SectionIDFunction, SectionIDTable, SectionIDMemory, SectionIDTag,
    SectionIDGlobal, SectionIDExport, SectionIDStart, SectionIDElement, SectionIDCode, SectionIDData, SectionIDDataCount.
  by repeat rewrite (proj2 (Z.eqb_neq id _)) by lia.
Qed.

Lemma sectionStep_ok id last m r :
  state_ok m -> reader_ok r ->
  match sectionStep id last m r with
  | Ok ((last', m'), r') => exists size contents, r = size ++ contents ++ r' /\ u32 size = Ok (zlen contents, []) /\
      (1 <= length size)%nat /\ state_ok m' /\ 0 <= id < 14 /\ checkSectionOrder id last = (last', true)
  | Err _ => True
  | Panic e => makeslice e
  end.
Proof.
  intros [Hm Ht] Hr. unfold sectionStep, mbind, R_bind, wrapR. pose proof (spec_u32 never r Hr) as Hu.
  destruct (u32 r) as [[size r1]|e|e] eqn:Eu; [|done|done]. clear Hu. cbn [res_bind].
  apply u32_local in Eu as (szb & -> & Hsz & Hsize & Hloc); [|apply Hr]. apply reader_ok_app in Hr.
  destruct (checkSectionOrder id last) as [last' [|]]; [|done]. cbn [guardR mret R_ret res_bind lenR].
  pose proof (spec_decodeSection dwarfEnabled storeCustomSections id size m Hm r1 Hr) as Hs.
  pose proof (decodeSection_known id size m r1) as Hid.
  destruct (decodeSection id size m r1) as [[m' r2]|e|e]; [|done|done]. destruct Hs as (l & -> & Hm' & Hl). cbn [res_bind].
  unfold guardR. destruct (Z.eqb_spec size (zlen (l ++ r2) - zlen r2)) as [E|]; [|done]. cbn [mret R_ret res_bind].
  rewrite zlen_app in E. unfold is_u32 in Hsize.
  assert (state_ok m') by (split; [done|]; destruct Hl as [Hl| ->]; [unfold zlen in *; lia|done]).
  assert (0 <= id < 14) by (destruct (decide (0 <= id < 14)) as [|Hn]; [done|by destruct (Hid Hn (m', r2))]).
  exists szb, l. split; [done|]. split; [|done]. rewrite <- (app_nil_r szb), Hloc. f_equal. f_equal. lia.
Qed.

Lemma sectionsLoop_ok fuel : forall last m r,
  state_ok m -> reader_ok r -> 0 <= last < 14 -> (length r < fuel)%nat ->
  match sectionsLoop fuel last m r with
  | Ok (m', r') => state_ok m' /\ exists l, sections r l /\ Forall (fun id => 0 <= id < 14) (map fst l) /\
      StronglySorted (fun a b => rank a < rank b) (last :: known_ids l)
  | Err _ => True
  | Panic e => makeslice e
  end.
Proof.
  induction fuel as [|fuel IH]; intros last m r Hm Hr Hlast Hf; [lia|]. cbn [sectionsLoop].
  destruct r as [|id r]; [split; [done|]; exists []; split_and!; repeat constructor|].
  unfold mbind, R_bind. apply (reader_ok_app [id]) in Hr. cbn [length] in Hf.
  pose proof (sectionStep_ok id last m r Hm Hr) as Hs.
  destruct (sectionStep id last m r) as [[[last' m'] r1]|e|e]; [|done|done].
  destruct Hs as (size & contents & -> & Esize & Hsize & Hm' & Hid & Ho). cbn [res_bind].
  do 2 apply reader_ok_app in Hr. rewrite !length_app in Hf.
  assert (0 <= last' < 14 /\ (id = SectionIDCustom /\ last' = last \/ id <> SectionIDCustom /\ last' = id /\ rank last < rank id))
    as [Hlast' Hrank].
  { destruct (decide (id = SectionIDCustom)) as [->|Hne].
    - injection Ho as ->. auto.
    - unfold SectionIDCustom in Hne. rewrite checkSectionOrder_rank in Ho by lia. injection Ho as <- Hb. bools.
      split; [done|]. right. split_and!; done. }
  specialize (IH last' m' r1 Hm' Hr Hlast' ltac:(lia)).
  destruct (sectionsLoop fuel last' m' r1) as [[m2 r2]|e|e]; [|done|done]. destruct IH as (Hm2 & l & Hl & Hids & Hsort).
  split; [done|]. exists ((id, contents) :: l). split_and!; [by constructor|by constructor|].
  unfold known_ids. cbn [map fst]. rewrite filter_cons.
  destruct Hrank as [[-> ->]|(Hne & -> & Hlt)]; [rewrite decide_False by (intros H; by apply H); done|].
  rewrite decide_True by done. fold (known_ids l). constructor; [done|]. constructor; [done|].
  inversion Hsort as [|? ? _ Hall]; subst. eapply Forall_impl; [exact Hall|]. cbn beta. intros b Hb. lia.
Qed.

End Loop.

End Wf.

(** ** Modules *)

Lemma expect_ok bytes msg r :
  reader_ok r ->
  match expect bytes msg r with
  | Ok (_, r') => r = bytes ++ r'
  | Err _ => True
  | Panic _ => False
  end.
Proof.
  intros Hr. unfold expect, mbind, R_bind, replaceR. pose proof (spec_readN never 4 ltac:(lia) r Hr) as H.
  destruct (readN 4 r) as [[l r']|e|e] eqn:E; [|done|done]. cbn [res_bind]. unfold guardR.
  case_bool_decide as El; [|done]. cbn. subst l. unfold readN in E. cbn [Z.ltb Z.compare] in E.
  destruct (4 <=? zlen r); [|done]. injection E as <- <-. by rewrite take_drop.
Qed.

Section Decode.
Context (enabledFeatures : CoreFeatures) (memoryLimitPages : Z) (memoryCapacityFromMax dwarfEnabled storeCustomSections : bool).

Local Abbreviation Decode binary :=
  (DecodeModule enabledFeatures memoryLimitPages memoryCapacityFromMax binary dwarfEnabled storeCustomSections).

Lemma DecodeModule_ok binary :
  reader_ok binary ->
  match Decode binary with
  | Ok m => state_ok enabledFeatures memoryLimitPages m /\ length (FunctionSection m) = length (CodeSection m) /\
      exists r l, binary = Magic ++ version ++ r /\ sections r l /\ Forall (fun id => 0 <= id < 14) (map fst l) /\
        StronglySorted (fun a b => rank a < rank b) (known_ids l)
  | Err _ => True
  | Panic e => makeslice e
  end.
Proof.
  intros Hr. unfold DecodeModule. pose proof (expect_ok Magic "invalid magic number" binary Hr) as H1.
  destruct (expect Magic _ binary) as [[? r1]|e|e]; [|done|done]. subst binary. apply reader_ok_app in Hr. cbn [res_bind].
  pose proof (expect_ok version "invalid version header" r1 Hr) as H2.
  destruct (expect version _ r1) as [[? r2]|e|e]; [|done|done]. subst r1. apply reader_ok_app in Hr. cbn [res_bind].
  assert (state_ok enabledFeatures memoryLimitPages emptyModule) as H0 by (split; [apply emptyModule_ok|done]).
  pose proof (sectionsLoop_ok enabledFeatures memoryLimitPages memoryCapacityFromMax dwarfEnabled storeCustomSections
    (S (length r2)) 0 emptyModule r2 H0 Hr ltac:(lia) ltac:(lia)) as H.
  destruct (sectionsLoop _ _ _ _ _ _ _ _ r2) as [[m r3]|e|e]; [|done|done]. cbn [res_bind].
  destruct H as ([Hm Ht] & l & Hl & Hids & Hs). unfold SectionElementCount. cbn [Z.eqb Pos.eqb res_bind SectionIDFunction SectionIDCode].
  destruct (mo_functions _ _ _ Hm) as [_ Hf], (mo_code _ _ _ Hm) as [_ Hc].
  cbn. rewrite !wrap32_small by (unfold is_u32; pose proof (zlen_nonneg (FunctionSection m)); pose proof (zlen_nonneg (CodeSection m)); lia).
  destruct (Z.eqb_spec (zlen (FunctionSection m)) (zlen (CodeSection m))) as [E|]; [|done]. cbn.
  split; [done|]. split; [unfold zlen in E; lia|]. exists r2, l. split_and!; try done. by inversion Hs.
Qed.

Lemma value_type_backward t v : value_type v -> (IsConcreteRef v = true -> TypeIndex v < t) -> backward t v.
Proof.
  intros (a & Ha & ->) Hb. exists a. split; [done|]. split; [done|]. intros i Hi.
  destruct (pack_accessors a Ha) as (_ & _ & Hc & Ht & _). rewrite <- (Ht i Hi). apply Hb. rewrite Hc.
  apply bool_decide_eq_true. by exists i.
Qed.

Lemma types_standalone ts :
  types_ok ts -> zlen ts < 2 ^ 32 -> Forall (fun c => RecGroupSize (theType c) = 0) ts ->
  standalone (map theType ts) /\ Forall coherent ts.
Proof.
  intros [Hp Hb] Hl Hz. destruct (Hb Hl) as [_ Hback]. clear Hb. rewrite Forall_forall in Hp, Hz.
  assert (forall t ft, zlookup (map theType ts) t = Some ft -> exists c, zlookup ts t = Some c /\ ft = theType c /\ c ∈ ts) as Hmap.
  { intros t ft E. unfold zlookup in *. destruct (0 <=? t); [|done]. rewrite list_lookup_fmap in E.
    apply fmap_Some in E as (c & Hc & ->). exists c. split_and!; try done. by apply list_elem_of_lookup_2 in Hc. }
  split; [split|].
  - by rewrite zlen_map.
  - intros t ft (c & _ & -> & Hc)%Hmap. rewrite (Hz c Hc). lia.
  - intros t ft (c & E & -> & Hc)%Hmap. destruct (Hback t c E (Hz c Hc)) as [H1 H2], (Hp c Hc) as (_ & H3 & H4).
    unfold refs_in_range in *. rewrite Forall_forall in H1, H2, H3, H4. split; apply Forall_forall; auto using value_type_backward.
  - apply Forall_forall. intros c Hc. destruct (Hp c Hc) as (E & _). right. rewrite E at 1. cbn.
    pose proof (Hz c Hc) as Hs. unfold signatureText, recSuffix. cbn. by rewrite Hs.
Qed.

End Decode.

(** ** Properties *)

(** A function whose only local group says more bytes than the code entry has. *)
Definition short_code : list Z :=
  Magic ++ version ++ [1; 4; 1; 0x60; 0; 0] ++ [3; 2; 1; 0] ++ [10; 6; 1; 3; 1; 1; 0x63; 0x70].

Lemma reader_ok_intro r : forallb (fun b => (0 <=? b) && (b <? 256)) r = true -> zlen r < 2 ^ 63 -> reader_ok r.
Proof.
  intros H Hl. split; [|done]. apply Forall_forall. intros b Hb%list_elem_of_In. rewrite forallb_forall in H.
  apply H in Hb. bools. done.
Qed.

(** C21: What a decoded module satisfies.  Its types are well formed: every
    reference is in range, rec groups are contiguous, and without rec groups
    every reference goes backwards.  The import counts, the index of each import in its
    index space and the positions per module are those of the import section;
    the export map is the export section; memories and tables respect their limits; every
    constant expression is one the decoder accepts; there is a body for each
    function, which ends in the end opcode and has at most a million locals. *)
Theorem decode_wf enabledFeatures memoryLimitPages memoryCapacityFromMax dwarfEnabled storeCustomSections binary m :
  reader_ok binary ->
  DecodeModule enabledFeatures memoryLimitPages memoryCapacityFromMax binary dwarfEnabled storeCustomSections = Ok m ->
  module_ok enabledFeatures memoryLimitPages m /\ wf_types (map theType (TypeSection m)) /\
  length (FunctionSection m) = length (CodeSection m) /\
  (Forall (fun c => RecGroupSize (theType c) = 0) (TypeSection m) ->
    standalone (map theType (TypeSection m)) /\ Forall coherent (TypeSection m)).
Proof.
  intros Hr E. pose proof (DecodeModule_ok enabledFeatures memoryLimitPages memoryCapacityFromMax dwarfEnabled
    storeCustomSections binary Hr) as H. rewrite E in H. destruct H as ([Hm Hl] & Hlen & _).
  pose proof (mo_types _ _ _ Hm) as Ht. split_and!; [done|by apply Ht|done|]. by apply types_standalone.
Qed.

(** An exported function that returns its parameter. *)
Definition identity_module : list Z :=
  Magic ++ version ++ [1; 6; 1; 0x60; 1; 0x7f; 1; 0x7f] ++ [3; 2; 1; 0] ++ [7; 5; 1; 1; 0x66; 0; 0]
  ++ [10; 6; 1; 4; 0; 0x20; 0; 0x0b].

Lemma decode_wf_witness :
  exists m, DecodeModule CoreFeaturesV2 65536 false identity_module false false = Ok m /\
    standalone (map theType (TypeSection m)) /\ Exports m !! "f" = Some 0%nat.
Proof.
  eexists. split; [vm_compute; reflexivity|].
  destruct (decode_wf CoreFeaturesV2 65536 false false false identity_module _ ltac:(by apply reader_ok_intro)
    ltac:(vm_compute; reflexivity)) as (_ & _ & _ & H).
  split; [apply H; by repeat constructor|vm_compute; reflexivity].
Defined.

(** C34: The bytes of a module that the decoder accepts are the header followed by sections,
    each with exactly the number of bytes its size says, with known identifiers, and those that
    are not custom in the order of the binary format without repetition. *)
Theorem decode_sections enabledFeatures memoryLimitPages memoryCapacityFromMax dwarfEnabled storeCustomSections binary m :
  reader_ok binary ->
  DecodeModule enabledFeatures memoryLimitPages memoryCapacityFromMax binary dwarfEnabled storeCustomSections = Ok m ->
  exists r l, binary = Magic ++ version ++ r /\ sections r l /\ Forall (fun id => 0 <= id < 14) (map fst l) /\
    StronglySorted (fun a b => rank a < rank b) (known_ids l).
Proof.
  intros Hr E. pose proof (DecodeModule_ok enabledFeatures memoryLimitPages memoryCapacityFromMax dwarfEnabled
    storeCustomSections binary Hr) as H. rewrite E in H. apply H.
Qed.

Lemma decode_sections_witness :
  exists r l, identity_module = Magic ++ version ++ r /\ sections r l /\ Forall (fun id => 0 <= id < 14) (map fst l) /\
    StronglySorted (fun a b => rank a < rank b) (known_ids l).
Proof.
  eapply (decode_sections CoreFeaturesV2 65536 false false false identity_module);
    [by apply reader_ok_intro|vm_compute; reflexivity].
Defined.

(** The end of the input is handled wrongly in three places.  The bytes of
    a reference type after the last local group are not checked against the
    size of the code entry, so that a short entry makes [decodeCode] panic,
    even without the feature.  A custom section without data at the end of a
    module is refused when custom sections are read, for DWARF or to be kept,
    and accepted otherwise.  A
    data count section whose number is cut off is accepted as 0. *)
Theorem decode_end_of_input :
  DecodeModule CoreFeaturesV2 65536 false short_code false false = Panic "makeslice: len out of range" /\
  (let custom := Magic ++ version ++ [0; 2; 1; 0x61] in
   DecodeModule CoreFeaturesV2 65536 false custom false false = Ok emptyModule /\
   DecodeModule CoreFeaturesV2 65536 false custom true false = Err "failed to read custom section name[a]: EOF") /\
  DecodeModule CoreFeaturesV2 65536 false (Magic ++ version ++ [12; 1; 0x80]) false false
    = Ok (set_DataCountSection (Some 0) emptyModule).
Proof. by vm_compute. Qed.
