(* ===== verification/ModuleValidate.v ===== *)
(** * Validation of modules (Module.Validate of src/internal/wasm/module.go, and table.go)

    [Validate] and the checks it is made of, on the modules of [Binary].  The
    checks read a module through [view], the part of it that the validation of
    function bodies and the type checks of [Types] see.

    The callbacks of [evaluateConstExpr] have effects here: they record the
    indices they are called with.  [constExprCalls] is the sequence of these
    calls; the callbacks themselves are the resolvers of [ConstExpr].  A
    decoded module has no [GoFunc]. *)

From S2P Require Import Prelude Leb128 Features Opcodes Types ValStack Validate ConstExpr TypeIDs Binary.

(** [for i := range l { if err := ...; err != nil { return err } }] *)
Fixpoint rangeLoop {A} (check : Z -> A -> res unit) (i : Z) (l : list A) : res unit :=
  match l with
  | [] => Ok tt
  | a :: l' => let! _ := check i a in rangeLoop check (i + 1) l'
  end.
Definition range {A} (check : Z -> A -> res unit) (l : list A) : res unit := rangeLoop check 0 l.

Definition fail (b : bool) (msg : string) : res unit := if b then Err msg else Ok tt.

(** [l[:n]] *)
Definition zprefix {A} (l : list A) (n : Z) : res (list A) :=
  if n <=? zlen l then Ok (take (Z.to_nat n) l) else Panic "slice bounds out of range".

(** What the validation of function bodies sees of a module. *)
Definition view (m : Module) : Types.Module :=
  Types.mkModule (map theType (TypeSection m)) (FunctionSection m)
    (map (fun c => Types.mkCode (LocalTypes c) (Body c)) (CodeSection m))
    (map ElementType (ElementSection m)) (zlen (DataSection m)) (DataCountSection m).
Definition viewTable (t : Table) : Types.Table := Types.mkTable (TableRefType t).

Definition types (m : Module) : list FunctionType := map theType (TypeSection m).

(** ** Functions *)

(** The loop over the imports: [None] when it ends without returning. *)
Fixpoint importedTypeIndex (typeSectionLength funcIdx cur : Z) (l : list Import) : option (option Z) :=
  match l with
  | [] => None
  | imp :: l' =>
      if negb (ImportType imp =? ExternTypeFunc) then importedTypeIndex typeSectionLength funcIdx cur l'
      else if funcIdx =? cur then Some (if DescFunc imp >=? typeSectionLength then None else Some (DescFunc imp))
      else importedTypeIndex typeSectionLength funcIdx (wrap32 (cur + 1)) l'
  end.

Definition typeIndexOfFunction (m : Module) (funcIdx : Z) : res (option Z) :=
  let typeSectionLength := wrap32 (zlen (TypeSection m)) in
  let definedType :=
    let funcSectionIdx := wrap32 (funcIdx - ImportFunctionCount m) in
    if funcSectionIdx >=? wrap32 (zlen (FunctionSection m)) then Ok None
    else
      let! typeIdx := zindex (FunctionSection m) funcSectionIdx in
      Ok (if typeIdx >=? typeSectionLength then None else Some typeIdx) in
  if funcIdx <? ImportFunctionCount m then
    match importedTypeIndex typeSectionLength funcIdx 0 (ImportSection m) with
    | Some r => Ok r
    | None => definedType
    end
  else definedType.

Definition typeOfFunction (m : Module) (funcIdx : Z) : res (option cachedType) :=
  let! t := typeIndexOfFunction m funcIdx in
  match t with
  | None => Ok None
  | Some typeIdx => let! ft := zindex (TypeSection m) typeIdx in Ok (Some ft)
  end.

(** ** Declarations *)

Record declarations := mkDeclarations {
  d_functions : list Z; d_globals : list GlobalType; d_memory : option Memory; d_tables : list Table; d_tags : list Z;
}.

Definition declareImport (d : declarations) (imp : Import) : declarations :=
  let '(mkDeclarations functions globals memory tables tags) := d in
  if ImportType imp =? ExternTypeFunc then mkDeclarations (functions ++ [DescFunc imp]) globals memory tables tags
  else if ImportType imp =? ExternTypeGlobal then mkDeclarations functions (globals ++ [DescGlobal imp]) memory tables tags
  else if ImportType imp =? ExternTypeMemory then mkDeclarations functions globals (DescMem imp) tables tags
  else if ImportType imp =? ExternTypeTable then mkDeclarations functions globals memory (tables ++ [DescTable imp]) tags
  else if ImportType imp =? ExternTypeTag then mkDeclarations functions globals memory tables (tags ++ [DescTag imp])
  else d.

Definition AllDeclarations (m : Module) : res declarations :=
  let '(mkDeclarations functions globals memory tables tags) :=
    fold_left declareImport (ImportSection m) (mkDeclarations [] [] None [] []) in
  let functions := functions ++ FunctionSection m in
  let globals := globals ++ map GlobalTypeOf (GlobalSection m) in
  let tags := tags ++ TagSection m in
  let! memory :=
    match MemorySection m with
    | Some _ => if memory is Some _ then Err "at most one table allowed in module" else Ok (MemorySection m)
    | None => Ok memory
    end in
  Ok (mkDeclarations functions globals memory (tables ++ TableSection m) tags).

(** ** Calls of the callbacks of a constant expression *)

(** [inl]: of the resolver of globals; [inr]: of the resolver of function references. *)
Definition callAt (data : list Z) (opCode pc : Z) : list (Z + Z) :=
  match (let! buf := zslice data pc in LoadUint32 buf) with
  | Ok (v, _) =>
      if opCode =? OpcodeGlobalGet then [inl v] else if opCode =? OpcodeRefFunc then [inr v] else []
  | _ => []
  end.

Fixpoint callsLoop (globalResolver : Z -> res (ValueType * Z * Z)) (funcRefResolver : Z -> res Z) (data : list Z)
    (fuel : nat) (s : estate) : list (Z + Z) :=
  match fuel with
  | O => []
  | S fuel' =>
      match zlookup data (e_pc s) with
      | None => []
      | Some opCode =>
          let s := mkEstate (e_pc s + 1) (e_stack s) (e_types s) in
          callAt data opCode (e_pc s) ++
          match constInstruction globalResolver funcRefResolver data opCode s with
          | Ok (inr s) => callsLoop globalResolver funcRefResolver data fuel' s
          | _ => []
          end
      end
  end.

Definition constExprCalls globalResolver funcRefResolver (data : list Z) : list (Z + Z) :=
  callsLoop globalResolver funcRefResolver data (length data) (mkEstate 0 [] []).

Definition globalCalls (l : list (Z + Z)) : list Z := omap (fun c => match c with inl i => Some i | inr _ => None end) l.
Definition funcCalls (l : list (Z + Z)) : list Z := omap (fun c => match c with inr i => Some i | inl _ => None end) l.

(** ** The checks *)

Definition unknownType (m : Module) (vt : ValueType) : bool :=
  IsConcreteRef vt && (TypeIndex vt >=? wrap32 (zlen (TypeSection m))).

Definition validateConcreteRefTypes (m : Module) : res unit :=
  let! _ := range (fun _ g => fail (unknownType m (ValType (GlobalTypeOf g))) "unknown type in global") (GlobalSection m) in
  let! _ := range (fun _ t => fail (unknownType m (TableRefType t)) "unknown type in table") (TableSection m) in
  let! _ := range (fun _ c => range (fun _ lt => fail (unknownType m lt) "unknown type in func local") (LocalTypes c))
              (CodeSection m) in
  range (fun _ e => fail (unknownType m (ElementType e)) "unknown type in element") (ElementSection m).

Definition constGlobal (globals : list GlobalType) (globalIndex : Z) : res (ValueType * Z * Z) :=
  if wrap32 (zlen globals) <=? globalIndex then Err "global index out of range"
  else let! g := zindex globals globalIndex in Ok (ValType g, 0, 0).
Definition constFunc (numFuncs funcIndex : Z) : res Z :=
  if funcIndex >=? numFuncs then Err "ref.func index out of range" else Ok 0.

Definition validateConstExpression (m : Module) (globals : list GlobalType) (numFuncs : Z) (expr : list Z)
    (expectedType : ValueType) : res unit :=
  let! (_, typ) := evaluateConstExpr (constGlobal globals) (constFunc numFuncs) expr in
  (** 0, or the last function that the callback has accepted *)
  let lastRefFuncIdx := default 0 (last (funcCalls (constExprCalls (constGlobal globals) (constFunc numFuncs) expr))) in
  let! typ :=
    (if typ =? ValueTypeFuncref then
       let! t := typeIndexOfFunction m lastRefFuncIdx in
       Ok (match t with Some typeIndex => ValueTypeConcreteRef typeIndex false | None => typ end)
     else Ok typ) in
  let! sub := isRefSubtypeOf (view m) typ expectedType in
  fail (negb sub) ("const expression type mismatch expected " +:+ ValueTypeName expectedType +:+ " but got " +:+ ValueTypeName typ).

Definition validateTableInitExprs (m : Module) (globals : list GlobalType) (numFuncs : Z) : res unit :=
  let! importedGlobals := zprefix globals (ImportGlobalCount m) in
  range (fun _ t =>
    let! _ := fail (negb (IsNullable (TableRefType t)) && bool_decide (TableInitExpr t = None))
                "type mismatch: non-nullable table requires an init expression" in
    match TableInitExpr t with
    | Some e => errorf "table init" (validateConstExpression m importedGlobals numFuncs e (TableRefType t))
    | None => Ok tt
    end) (TableSection m).

Definition validateTagSection (m : Module) : res unit :=
  range (fun _ tag =>
    if tag >=? wrap32 (zlen (TypeSection m)) then Err "tag type index out of range"
    else
      let! ft := zindex (types m) tag in
      fail (zlen (Results ft) >? 0) "tag type must have empty results") (TagSection m).

Definition validateStartSection (m : Module) : res unit :=
  match StartSection m with
  | None => Ok tt
  | Some startIndex =>
      let! ft := typeOfFunction m startIndex in
      match ft with
      | None => Err "invalid start function: func has an invalid type"
      | Some ft =>
          fail ((zlen (Params (theType ft)) >? 0) || (zlen (Results (theType ft)) >? 0))
            ("invalid start function: func must have an empty (nullary) signature: " +:+ fst (key ft))
      end
  end.

Definition validateGlobals (m : Module) (globals : list GlobalType) (numFuncs maxGlobals : Z) : res unit :=
  if wrap32 (zlen globals) >? maxGlobals then Err "too many globals in a module"
  else
    let! importedGlobals := zprefix globals (ImportGlobalCount m) in
    range (fun _ g => validateConstExpression m importedGlobals numFuncs (GlobalInit g) (ValType (GlobalTypeOf g)))
      (GlobalSection m).

Definition validateMemory (m : Module) (memory : option Memory) (globals : list GlobalType) : res unit :=
  let active := filter (fun d => Passive d = false) (DataSection m) in
  if (zlen active >? 0) && bool_decide (memory = None) then Err "unknown memory"
  else
    let! importedGlobals := zprefix globals (ImportGlobalCount m) in
    range (fun _ d =>
      if Passive d then Ok tt
      else errorf "calculate offset" (validateConstExpression m importedGlobals 0 (OffsetExpression d) ValueTypeI32))
      (DataSection m).

Definition validateImports (m : Module) (enabledFeatures : CoreFeatures) : res unit :=
  range (fun _ imp =>
    let name := "[" +:+ quoted (ImportModule imp) +:+ "." +:+ quoted (ImportName imp) +:+ "]" in
    if String.eqb (ImportModule imp) "" then Err "import has an empty module name"
    else if ImportType imp =? ExternTypeFunc then
      fail (DescFunc imp >=? zlen (TypeSection m)) ("invalid import" +:+ name +:+ " function: type index out of range")
    else if ImportType imp =? ExternTypeGlobal then
      if negb (Mutable (DescGlobal imp)) then Ok tt
      else errorf ("invalid import" +:+ name +:+ " global") (RequireEnabled enabledFeatures CoreFeatureMutableGlobal)
    else if ImportType imp =? ExternTypeTag then
      if DescTag imp >=? zlen (TypeSection m) then Err ("invalid import" +:+ name +:+ " tag: type index out of range")
      else
        let! ft := zindex (types m) (DescTag imp) in
        fail (zlen (Results ft) >? 0) ("invalid import" +:+ name +:+ " tag: tag types must have no results")
    else Ok tt) (ImportSection m).

Definition validateExports (m : Module) (enabledFeatures : CoreFeatures) (d : declarations) : res unit :=
  range (fun _ exp =>
    let index := ExportIndex exp in
    let name := "[" +:+ quoted (ExportName exp) +:+ "]" in
    if ExportType exp =? ExternTypeFunc then
      fail (index >=? wrap32 (zlen (d_functions d))) ("unknown function for export" +:+ name)
    else if ExportType exp =? ExternTypeGlobal then
      if index >=? wrap32 (zlen (d_globals d)) then Err ("unknown global for export" +:+ name)
      else
        let! g := zindex (d_globals d) index in
        if negb (Mutable g) then Ok tt
        else errorf ("invalid export" +:+ name +:+ " global") (RequireEnabled enabledFeatures CoreFeatureMutableGlobal)
    else if ExportType exp =? ExternTypeMemory then
      fail ((index >? 0) || bool_decide (d_memory d = None)) ("memory for export" +:+ name +:+ " out of range")
    else if ExportType exp =? ExternTypeTable then
      fail (index >=? wrap32 (zlen (d_tables d))) ("table for export" +:+ name +:+ " out of range")
    else if ExportType exp =? ExternTypeTag then
      fail (index >=? wrap32 (zlen (d_tags d))) ("tag for export" +:+ name +:+ " out of range")
    else Ok tt) (ExportSection m).

(** The loop over the imported globals: [None] when it ends without returning. *)
Fixpoint importedGlobalType (place : string) (idx cur : Z) (l : list Import) : option (res ValueType) :=
  match l with
  | [] => None
  | imp :: l' =>
      if negb (ImportType imp =? ExternTypeGlobal) then importedGlobalType place idx cur l'
      else if idx =? cur then
        Some (if Mutable (DescGlobal imp)
              then Err (place +:+ " (global.get): constant expression cannot reference a mutable global")
              else Ok (ValType (DescGlobal imp)))
      else importedGlobalType place idx (wrap32 (cur + 1)) l'
  end.

Definition resolveConstExprGlobalType (m : Module) (enabledFeatures : CoreFeatures) (sectionID sectionIdx idx : Z)
    : res ValueType :=
  let place := SectionIDName sectionID +:+ "[]" in
  if idx <? ImportGlobalCount m then
    match importedGlobalType place idx 0 (ImportSection m) with
    | Some r => r
    | None => Err "index not found in imported globals"
    end
  else if negb (IsEnabled enabledFeatures CoreFeaturesExtendedConst) then
    Err (place +:+ " (global.get): out of range of imported globals")
  else
    let idx := wrap32 (idx - ImportGlobalCount m) in
    if (sectionIdx =? SectionIDGlobal) && (idx >=? sectionIdx) then
      Err (place +:+ " global out of range of initialized globals")
    else if idx >=? wrap32 (zlen (GlobalSection m)) then
      Err (place +:+ " (global.get): out of range of initialized globals")
    else
      let! g := zindex (GlobalSection m) idx in
      if Mutable (GlobalTypeOf g)
      then Err (place +:+ " (global.get): constant expression cannot reference a mutable global")
      else Ok (ValType (GlobalTypeOf g)).

(** The callbacks of [declaredFunctionIndexes]. *)
Definition declaredGlobal (m : Module) (enabledFeatures : CoreFeatures) (sectionID i globalIndex : Z) : res (ValueType * Z * Z) :=
  let! vt := resolveConstExprGlobalType m enabledFeatures sectionID i globalIndex in Ok (vt, 0, 0).
Definition declaredFunc (funcIndex : Z) : res Z := Ok 0.

Definition exportedFunctions (m : Module) : gset Z :=
  list_to_set (omap (fun e => if ExportType e =? ExternTypeFunc then Some (ExportIndex e) else None) (ExportSection m)).

Fixpoint declaredByGlobals (m : Module) (enabledFeatures : CoreFeatures) (i : Z) (l : list Global) (ret : gset Z) : res (gset Z) :=
  match l with
  | [] => Ok ret
  | g :: l' =>
      let resolve := declaredGlobal m enabledFeatures SectionIDGlobal i in
      let ret := ret ∪ list_to_set (funcCalls (constExprCalls resolve declaredFunc (GlobalInit g))) in
      let! _ := errorf (SectionIDName SectionIDGlobal +:+ "[] failed to initialize")
                  (evaluateConstExpr resolve declaredFunc (GlobalInit g)) in
      declaredByGlobals m enabledFeatures (i + 1) l' ret
  end.

(** Errors are ignored, panics are not. *)
Fixpoint declaredByInits (m : Module) (enabledFeatures : CoreFeatures) (i : Z) (inits : list (list Z)) (ret : gset Z) : res (gset Z) :=
  match inits with
  | [] => Ok ret
  | e :: inits' =>
      let resolve := declaredGlobal m enabledFeatures SectionIDElement i in
      match evaluateConstExpr resolve declaredFunc e with
      | Panic msg => Panic msg
      | _ => declaredByInits m enabledFeatures i inits' (ret ∪ list_to_set (funcCalls (constExprCalls resolve declaredFunc e)))
      end
  end.

Fixpoint declaredByElements (m : Module) (enabledFeatures : CoreFeatures) (i : Z) (l : list ElementSegment) (ret : gset Z) : res (gset Z) :=
  match l with
  | [] => Ok ret
  | elem :: l' =>
      let! ret := declaredByInits m enabledFeatures i (ElementInit elem) ret in
      declaredByElements m enabledFeatures (i + 1) l' ret
  end.

Definition declaredFunctionIndexes (m : Module) (enabledFeatures : CoreFeatures) : res (gset Z) :=
  let! ret := declaredByGlobals m enabledFeatures 0 (GlobalSection m) (exportedFunctions m) in
  declaredByElements m enabledFeatures 0 (ElementSection m) ret.

(** [sort.Strings] *)
Fixpoint insertString (x : string) (l : list string) : list string :=
  match l with
  | [] => [x]
  | y :: l' => if String.leb x y then x :: l else y :: insertString x l'
  end.
Definition sortStrings (l : list string) : list string := foldr insertString [] l.

Definition funcDesc (m : Module) (sectionID sectionIndex : Z) : string :=
  let funcIdx := wrap32 (sectionIndex + ImportFunctionCount m) in
  let exportNames :=
    omap (fun e => if (ExportIndex e =? funcIdx) && (ExportType e =? ExternTypeFunc) then Some (quoted (ExportName e)) else None)
      (ExportSection m) in
  if bool_decide (exportNames = []) then SectionIDName sectionID +:+ "[]"
  else SectionIDName sectionID +:+ "[] export[" +:+ String.concat "," (sortStrings exportNames) +:+ "]".

Definition validateFunctions (m : Module) (enabledFeatures : CoreFeatures) (d : declarations) (maximumFunctionIndex : Z) : res unit :=
  if wrap32 (zlen (d_functions d)) >? maximumFunctionIndex then Err "too many functions in a module"
  else
    let! functionCount := SectionElementCount m SectionIDFunction in
    let! codeCount := SectionElementCount m SectionIDCode in
    if (functionCount =? 0) && (codeCount =? 0) then Ok tt
    else
      let! typeCount := SectionElementCount m SectionIDType in
      if negb (codeCount =? functionCount) then Err "code count != function count"
      else
        let! declaredFuncIndexes := declaredFunctionIndexes m enabledFeatures in
        range (fun idx typeIndex =>
          if typeIndex >=? typeCount then
            Err ("invalid " +:+ funcDesc m SectionIDFunction (wrap32 idx) +:+ ": type section index out of range")
          else
            let! _ := zindex (CodeSection m) idx in
            errorf ("invalid " +:+ funcDesc m SectionIDFunction (wrap32 idx))
              (validateFunction (view m) enabledFeatures (wrap32 idx) (d_functions d) (d_globals d) (d_memory d)
                 (map viewTable (d_tables d)) (d_tags d) declaredFuncIndexes)) (FunctionSection m).

Definition RefTypeName (t : ValueType) : string :=
  if t =? ValueTypeFuncref then "funcref" else if t =? ValueTypeExternref then "externref" else "unknown()".

Definition checkSegmentBounds (min requireMin : Z) : res unit :=
  fail (requireMin >? min) (SectionIDName SectionIDElement +:+ "[].init exceeds min table size").

Section Table.
Context (m : Module) (enabledFeatures : CoreFeatures) (tables : list Table) (globalsCount funcCount : Z).

(** The callbacks for the initial values and for the offset of segment [idx]. *)
Definition initGlobal (idx globalIndex : Z) : res (ValueType * Z * Z) :=
  if globalIndex >=? globalsCount then Err (SectionIDName SectionIDElement +:+ "[].init[] global index out of range")
  else let! vt := resolveConstExprGlobalType m enabledFeatures SectionIDElement idx globalIndex in Ok (vt, 0, 0).
Definition initFunc (funcIndex : Z) : res Z :=
  if funcIndex >=? funcCount then Err (SectionIDName SectionIDElement +:+ "[].init[] func index out of range") else Ok 0.
Definition offsetGlobal (idx globalIndex : Z) : res (ValueType * Z * Z) :=
  if globalIndex >=? globalsCount then Err (SectionIDName SectionIDElement +:+ "[] global index out of range")
  else
    let! vt := resolveConstExprGlobalType m enabledFeatures SectionIDElement idx globalIndex in
    if negb (vt =? ValueTypeI32) then Err (SectionIDName SectionIDElement +:+ "[] (global.get): import[].global.ValType != i32")
    else Ok (ValueTypeI32, 0, 0).

Definition validateElementInit (idx : Z) (tp : ValueType) (init : list Z) : res unit :=
  let! (_, initType) := evaluateConstExpr (initGlobal idx) initFunc init in
  let mustBe t := SectionIDName SectionIDElement +:+ "[].init[] must be " +:+ t +:+ " but was " +:+ ValueTypeName initType in
  if tp =? ValueTypeFuncref then fail (negb (initType =? ValueTypeFuncref)) (mustBe "funcref")
  else if tp =? ValueTypeExternref then fail (negb (initType =? ValueTypeExternref)) (mustBe "externref")
  else
    let! sub := isRefSubtypeOf (view m) initType tp in
    fail (negb sub && negb (initType =? ValueTypeFuncref)) (mustBe (ValueTypeName tp)).

Definition validateActiveElement (idx : Z) (elem : ElementSegment) : res unit :=
  if zlen tables <=? ElementTableIndex elem then Err "unknown table as active element target"
  else
    let! t := zindex tables (ElementTableIndex elem) in
    let! sub := isRefSubtypeOf (view m) (ElementType elem) (TableRefType t) in
    if negb sub then
      Err ("element type mismatch: table has " +:+ RefTypeName (TableRefType t) +:+ " but element has " +:+ RefTypeName (ElementType elem))
    else
      let resolve := offsetGlobal idx in
      let hasGlobalRef := bool_decide (globalCalls (constExprCalls resolve declaredFunc (OffsetExpr elem)) <> []) in
      let! (offsetExprResults, offsetExprType) :=
        errorf (SectionIDName SectionIDElement +:+ "[] couldn't evaluate offset expression")
          (evaluateConstExpr resolve declaredFunc (OffsetExpr elem)) in
      if negb (offsetExprType =? ValueTypeI32) then
        Err (SectionIDName SectionIDElement +:+ "[] offset expression must return i32 but was " +:+ ValueTypeName offsetExprType)
      else if negb (IsEnabled enabledFeatures CoreFeatureReferenceTypes) && negb hasGlobalRef
              && (ElementTableIndex elem >=? ImportTableCount m) then
        let! offset := zindex offsetExprResults 0 in
        checkSegmentBounds (TableMin t) (wrap64 (wrap32 (zlen (ElementInit elem)) + wrap32 offset))
      else Ok tt.

Definition validateElement (i : Z) (elem : ElementSegment) : res unit :=
  let idx := wrap32 i in
  let! _ := range (fun _ init => validateElementInit idx (ElementType elem) init) (ElementInit elem) in
  match Mode elem with
  | ElementModeActive => validateActiveElement idx elem
  | _ => Ok tt
  end.

End Table.

Definition validateTable (m : Module) (enabledFeatures : CoreFeatures) (tables : list Table) (maximumTableIndex : Z) : res unit :=
  if zlen tables >? maximumTableIndex then Err "too many tables in a module"
  else
    let! functionCount := SectionElementCount m SectionIDFunction in
    let! globalCount := SectionElementCount m SectionIDGlobal in
    range (validateElement m enabledFeatures tables (wrap32 (ImportGlobalCount m + globalCount))
             (wrap32 (ImportFunctionCount m + functionCount))) (ElementSection m).

Definition validateDataCountSection (m : Module) : res unit :=
  match DataCountSection m with
  | Some n => fail (negb (n =? zlen (DataSection m))) "data count section doesn't match the length of data section"
  | None => Ok tt
  end.

(** ** Validate *)

Definition MaximumGlobals : Z := Z.shiftl 1 27.
Definition MaximumTableIndex : Z := Z.shiftl 1 27.

Definition cacheTypes (m : Module) : Module :=
  set_TypeSection (map (fun c => mkCachedType (CacheNumInUint64 (theType c)) (keyString c)) (TypeSection m)) m.

(** What follows the loop over the types. *)
Definition validateSections (m : Module) (enabledFeatures : CoreFeatures) : res unit :=
  let! _ := validateConcreteRefTypes m in
  let! _ := validateStartSection m in
  let! d := AllDeclarations m in
  let! _ := validateTableInitExprs m (d_globals d) (wrap32 (zlen (d_functions d))) in
  let! _ := validateImports m enabledFeatures in
  let! _ := validateGlobals m (d_globals d) (wrap32 (zlen (d_functions d))) MaximumGlobals in
  let! _ := validateMemory m (d_memory d) (d_globals d) in
  let! _ := validateExports m enabledFeatures d in
  let! _ := validateTagSection m in
  let! _ := (if CodeSectionSet m then validateFunctions m enabledFeatures d MaximumFunctionIndex else Ok tt) in
  let! _ := validateTable m enabledFeatures (d_tables d) MaximumTableIndex in
  validateDataCountSection m.

(** The module with the numbers cached in its types, and the outcome. *)
Definition Validate (m : Module) (enabledFeatures : CoreFeatures) : Module * res unit :=
  let m := cacheTypes m in (m, validateSections m enabledFeatures).

(** ** What uses it *)

(** [CompileModule] up to and including validation. *)
Definition decodeAndValidate (enabledFeatures : CoreFeatures) (memoryLimitPages : Z)
    (memoryCapacityFromMax dwarfEnabled storeCustomSections : bool) (binary : list Z) : res Module :=
  let! internal := DecodeModule enabledFeatures memoryLimitPages memoryCapacityFromMax binary dwarfEnabled storeCustomSections in
  let '(internal, err) := Validate internal enabledFeatures in
  let! _ := err in Ok internal.

(** The value of a constant expression in an instance: the type and the words
    of its globals, and the references to its functions. *)
Definition evaluateConstExprInModuleInstance (e : list Z) (global : Z -> res (ValueType * Z * Z))
    (functionInstanceReference : Z -> Z) : res (list Z) :=
  match evaluateConstExpr global (fun i => Ok (functionInstanceReference i)) e with
  | Ok (v, _) => Ok v
  | Err _ => Ok []
  | Panic msg => Panic msg
  end.
