(* ===== verification/ModuleValidateSafe.v ===== *)
(** * Validation of decoded modules

    That [Validate] returns on what [DecodeModule] accepts, up to the one check
    that comes too late, and what it establishes: the constant expressions of an
    accepted module evaluate in every instance, and its indices are in range. *)

From S2P Require Import Prelude Leb128 Features Opcodes Types ValStack Validate ValidateSafe ConstExpr TypeIDs Binary.
From S2P Require Import BinaryWf ModuleValidate.

(** ** Loops *)

Lemma rangeLoop_no_panic {A} (check : Z -> A -> res unit) l : forall i,
  (forall k a, l !! k = Some a -> no_panic (check (i + Z.of_nat k) a)) -> no_panic (rangeLoop check i l).
Proof.
  induction l as [|a l IH]; intros i H; [done|]. cbn [rangeLoop]. apply res_bind_no_panic.
  - specialize (H 0%nat a eq_refl). by rewrite Z.add_0_r in H.
  - intros _ _. apply IH. intros k b Hk. specialize (H (S k) b Hk). replace (i + 1 + Z.of_nat k) with (i + Z.of_nat (S k)) by lia. done.
Qed.

Lemma range_no_panic {A} (check : Z -> A -> res unit) l :
  (forall k a, l !! k = Some a -> no_panic (check (Z.of_nat k) a)) -> no_panic (range check l).
Proof. intros H. apply rangeLoop_no_panic. intros. rewrite Z.add_0_l. auto. Qed.

Lemma rangeLoop_Ok {A} (check : Z -> A -> res unit) l : forall i,
  rangeLoop check i l = Ok tt -> forall k a, l !! k = Some a -> check (i + Z.of_nat k) a = Ok tt.
Proof.
  induction l as [|a l IH]; intros i H k b Hk; [done|]. cbn [rangeLoop] in H.
  destruct (check i a) as [[]|e|e] eqn:E; [|done..]. cbn [res_bind] in H. destruct k as [|k].
  - injection Hk as <-. by rewrite Z.add_0_r.
  - replace (i + Z.of_nat (S k)) with (i + 1 + Z.of_nat k) by lia. by apply IH.
Qed.

Lemma range_Ok {A} (check : Z -> A -> res unit) l k a :
  range check l = Ok tt -> l !! k = Some a -> check (Z.of_nat k) a = Ok tt.
Proof. intros H Hk. by apply (rangeLoop_Ok check l 0 H). Qed.

Lemma fail_no_panic b msg : no_panic (fail b msg).
Proof. by destruct b. Qed.

Lemma fail_Ok b msg : fail b msg = Ok tt <-> b = false.
Proof. by destruct b. Qed.

Lemma errorf_no_panic {A} msg (r : res A) : no_panic r -> no_panic (errorf msg r).
Proof. intros H. destruct r as [a|e|e]; [done|done|]. by destruct (H e). Qed.

Lemma errorf_Ok {A} msg (r : res A) a : errorf msg r = Ok a <-> r = Ok a.
Proof. by destruct r. Qed.

Lemma Require_no_panic f g : no_panic (RequireEnabled f g).
Proof. unfold RequireEnabled. intros e. by destruct (_ =? _). Qed.

Create HintDb checks.
#[export] Hint Resolve fail_no_panic errorf_no_panic Require_no_panic : checks.

(** ** Constant expressions *)

Definition expr_ok (e : list Z) : Prop := bytes_ok e /\ last e = Some OpcodeEnd.

Lemma decodedExpr_ok f e : decodedExpr f e -> expr_ok e.
Proof.
  intros (r & rest & [Hb _] & E). destruct (decodeLoop_body f r _ r e rest E Hb eq_refl) as [-> Hl].
  apply bytes_ok_app in Hb as [Hb _]. done.
Qed.

(** The resolvers are called with 32-bit indices only. *)
Definition guarded {A} (g : Z -> res A) (i : Z) : res A := if (0 <=? i) && (i <? 2 ^ 32) then g i else Err "".

Lemma guarded_u32 {A} (g : Z -> res A) i : is_u32 i -> guarded g i = g i.
Proof. unfold is_u32, guarded. intros H. by rewrite (proj2 (Z.leb_le _ _)), (proj2 (Z.ltb_lt _ _)) by lia. Qed.

Lemma guarded_no_panic {A} (g : Z -> res A) : (forall i, is_u32 i -> no_panic (g i)) -> forall i, no_panic (guarded g i).
Proof. intros H i. unfold guarded. destruct (_ && _) eqn:E; [|done]. bools. by apply H. Qed.

Lemma instruction_guarded g f data op s :
  bytes_ok data -> constInstruction g f data op s = constInstruction (guarded g) (guarded f) data op s.
Proof.
  intros Hb. unfold constInstruction. cbv zeta.
  assert (forall msg (h h' : Z -> Z -> res (list Z * ValueType + estate)),
    (forall v n, is_u32 v -> h v n = h' v n) ->
    (let! buf := zslice data (e_pc s) in let! (v, n) := errorf msg (LoadUint32 buf) in h v n)
    = (let! buf := zslice data (e_pc s) in let! (v, n) := errorf msg (LoadUint32 buf) in h' v n)) as Hload.
  { intros msg h h' Hh. unfold zslice. destruct (_ && _); [|done]. cbn [res_bind].
    destruct (LoadUint32 _) as [[v n]|e|e] eqn:E; [|done..]. cbn. apply Hh.
    eapply LoadUint32_u32; [|done]. by apply bytes_ok_drop. }
  assert (forall msg (h h' : Z -> Z -> res estate), (forall v n, is_u32 v -> h v n = h' v n) ->
    (let! s := (let! buf := zslice data (e_pc s) in let! (v, n) := errorf msg (LoadUint32 buf) in h v n) in Ok (inr s))
    = (let! s := (let! buf := zslice data (e_pc s) in let! (v, n) := errorf msg (LoadUint32 buf) in h' v n) in
       Ok (@inr (list Z * ValueType) _ s))) as Hgo.
  { intros msg h h' Hh. specialize (Hload msg (fun v n => let! s := h v n in Ok (inr s)) (fun v n => let! s := h' v n in Ok (inr s))
      ltac:(intros v n Hv; cbn beta; by rewrite Hh)).
    destruct (zslice data (e_pc s)); [|done..]. cbn [res_bind] in *. by destruct (errorf _ _) as [[]| |]. }
  repeat (match goal with |- (if ?b then _ else _) = _ => destruct b end; [try done; try (apply Hgo; intros v n Hv; by rewrite guarded_u32)|]).
  done.
Qed.

Lemma evaluateLoop_guarded g f data fuel : bytes_ok data -> forall s,
  evaluateLoop g f data fuel s = evaluateLoop (guarded g) (guarded f) data fuel s.
Proof.
  intros Hb. induction fuel as [|fuel IH]; intros s; cbn [evaluateLoop]; (destruct (_ >=? _); [done|]); [done|].
  destruct (zindex data (e_pc s)) as [op|e|e]; [|done..]. cbn [res_bind]. rewrite instruction_guarded by done.
  destruct (constInstruction _ _ _ _ _) as [[|]| |]; try done. apply IH.
Qed.

Lemma evaluate_guarded g f e : expr_ok e -> evaluateConstExpr g f e = evaluateConstExpr (guarded g) (guarded f) e.
Proof. intros [Hb _]. by apply evaluateLoop_guarded. Qed.

Lemma evaluate_no_panic g f e :
  (forall i, is_u32 i -> no_panic (g i)) -> (forall i, is_u32 i -> no_panic (f i)) -> expr_ok e ->
  no_panic (evaluateConstExpr g f e).
Proof.
  intros Hg Hf He. rewrite evaluate_guarded by done. destruct He as [Hb Hl].
  apply evaluateLoop_safe; try done; by apply guarded_no_panic.
Qed.

(** An imported global may have a subtype of the declared type, which matters to
    an evaluation only if it is not a reference. *)
Definition vt_sim (a b : ValueType) : Prop := a = b \/ (IsRef a = true /\ IsRef b = true).

Lemma vt_sim_num t a b : IsRef t = false -> vt_sim a b -> (a =? t) = (b =? t).
Proof.
  intros Ht [->|[Ha Hb]]; [done|]. rewrite !(proj2 (Z.eqb_neq _ _)) by (intros ->; congruence). done.
Qed.

Definition agree (g1 g2 : Z -> res (ValueType * Z * Z)) : Prop :=
  forall i t lo hi, g1 i = Ok (t, lo, hi) -> exists t' lo' hi', g2 i = Ok (t', lo', hi') /\ vt_sim t t'.
Definition agreeF (f1 f2 : Z -> res Z) : Prop := forall i r, f1 i = Ok r -> exists r', f2 i = Ok r'.

(** Two states that differ in the values on the stack only, and in the types of references. *)
Definition same_types (s1 s2 : estate) : Prop :=
  e_pc s1 = e_pc s2 /\ Forall2 vt_sim (e_types s1) (e_types s2) /\ length (e_stack s1) = length (e_stack s2).

Section Typed.
Context (g1 g2 : Z -> res (ValueType * Z * Z)) (f1 f2 : Z -> res Z) (Hg : agree g1 g2) (Hf : agreeF f1 f2) (data : list Z).

Definition sim (r1 r2 : res (list Z * ValueType + estate)) : Prop :=
  match r1 with
  | Ok (inl (v1, t)) => exists v2 t', r2 = Ok (inl (v2, t')) /\ vt_sim t t' /\ length v1 = length v2
  | Ok (inr s1) => exists s2, r2 = Ok (inr s2) /\ same_types s1 s2
  | _ => True
  end.

Definition simE (r1 r2 : res estate) : Prop :=
  match r1 with Ok s1 => exists s2, r2 = Ok s2 /\ same_types s1 s2 | _ => True end.

Lemma sim_go r1 r2 : simE r1 r2 -> sim (let! s := r1 in Ok (inr s)) (let! s := r2 in Ok (inr s)).
Proof. destruct r1 as [s1|e|e]; [|done..]. intros (s2 & -> & Hs). cbn. eauto. Qed.

Lemma simE_bind {A} (m : res A) k1 k2 : (forall a, m = Ok a -> simE (k1 a) (k2 a)) -> simE (let! a := m in k1 a) (let! a := m in k2 a).
Proof. intros H. destruct m as [a|e|e]; [by apply H|done..]. Qed.

Lemma simE_push1 s1 s2 t t' pc v1 v2 : vt_sim t t' -> same_types s1 s2 -> simE (Ok (push1 v1 t pc s1)) (Ok (push1 v2 t' pc s2)).
Proof. intros Ht (? & ? & ?). eexists. split; [done|]. unfold same_types. cbn. split_and!; [done|by constructor|congruence]. Qed.
Lemma simE_push2 s1 s2 t pc a1 b1 a2 b2 : same_types s1 s2 -> simE (Ok (push2 a1 b1 t pc s1)) (Ok (push2 a2 b2 t pc s2)).
Proof. intros (? & ? & ?). eexists. split; [done|]. unfold same_types. cbn. split_and!; [done|constructor; [by left|done]|congruence]. Qed.

Lemma simE_arith name t f s1 s2 : IsRef t = false -> same_types s1 s2 -> simE (arith name t f s1) (arith name t f s2).
Proof.
  intros Hr (Hp & Ht & Hl). unfold arith.
  destruct Ht as [|v1 w1 ts1 ts2 H1 [|v2 w2 ts1' ts2' H2 Hts]]; [done|done|].
  rewrite (vt_sim_num t v1 w1), (vt_sim_num t v2 w2) by done.
  destruct (_ || _); [done|]. destruct (e_stack s1) as [|b1 [|a1 st1]]; [done|done|].
  destruct (e_stack s2) as [|b2 [|a2 st2]]; [done|done|]. cbn. eexists. split; [reflexivity|]. unfold same_types. cbn in *.
  split_and!; [done|constructor; [by left|done]|lia].
Qed.

Lemma instruction_typed op s1 s2 :
  same_types s1 s2 -> sim (constInstruction g1 f1 data op s1) (constInstruction g2 f2 data op s2).
Proof.
  intros Hs. pose proof Hs as (Hp & Ht & Hl). unfold constInstruction. rewrite <- Hp. cbv zeta.
  assert (forall t, vt_sim t t) as Hrefl by (by left).
  destruct (op =? OpcodeI32Const).
  { apply sim_go, simE_bind. intros buf _. apply simE_bind. intros [v n] _. by apply simE_push1. }
  destruct (op =? OpcodeI64Const).
  { apply sim_go, simE_bind. intros buf _. apply simE_bind. intros [v n] _. by apply simE_push1. }
  destruct (op =? OpcodeF32Const).
  { apply sim_go, simE_bind. intros buf _. destruct (_ <? _); [done|]. apply simE_bind. intros v _. by apply simE_push1. }
  destruct (op =? OpcodeF64Const).
  { apply sim_go, simE_bind. intros buf _. destruct (_ <? _); [done|]. apply simE_bind. intros v _. by apply simE_push1. }
  destruct (op =? OpcodeGlobalGet).
  { apply sim_go, simE_bind. intros buf _. apply simE_bind. intros [v n] _.
    destruct (g1 v) as [[[t lo] hi]|e|e] eqn:E; [|done..]. destruct (Hg v t lo hi E) as (t' & lo' & hi' & -> & Htt). cbn [res_bind].
    rewrite <- (vt_sim_num ValueTypeV128 t t') by done. destruct (Z.eqb_spec t ValueTypeV128) as [->|].
    - destruct Htt as [<-|[Hv _]]; [|done]. by apply simE_push2.
    - by apply simE_push1. }
  destruct (op =? OpcodeRefNull).
  { apply sim_go, simE_bind. intros [t pc] _. by apply simE_push1. }
  destruct (op =? OpcodeRefFunc).
  { apply sim_go, simE_bind. intros buf _. apply simE_bind. intros [v n] _.
    destruct (f1 v) as [r|e|e] eqn:E; [|done..]. destruct (Hf v r E) as (r' & ->). by apply simE_push1. }
  destruct (op =? OpcodeVecPrefix).
  { apply sim_go. unfold vecConst. apply simE_bind. intros b _. destruct (negb _); [done|]. cbv zeta.
    apply simE_bind. intros buf _. destruct (_ <? _); [done|].
    apply simE_bind. intros lo _. apply simE_bind. intros hi _. by apply simE_push2. }
  do 6 (match goal with |- context [if ?b then _ else _] => destruct b end; [by apply sim_go, simE_arith|]).
  destruct (op =? OpcodeEnd); [|done]. destruct Ht as [|t t' ts ts' Htt [|]]; [done| |done].
  cbn. eexists _, _. split; [done|]. split; [done|]. by rewrite !length_reverse.
Qed.

Lemma evaluateLoop_typed fuel : forall s1 s2 v t,
  same_types s1 s2 -> evaluateLoop g1 f1 data fuel s1 = Ok (v, t) ->
  exists v' t', evaluateLoop g2 f2 data fuel s2 = Ok (v', t') /\ vt_sim t t' /\ length v = length v'.
Proof.
  induction fuel as [|fuel IH]; intros s1 s2 v t Hs; cbn [evaluateLoop]; pose proof Hs as (Hp & Ht & Hl); rewrite <- Hp;
    (destruct (_ >=? _); [done|]); [done|].
  destruct (zindex data (e_pc s1)) as [op|e|e]; [|done..]. cbn [res_bind].
  assert (same_types (mkEstate (e_pc s1 + 1) (e_stack s1) (e_types s1)) (mkEstate (e_pc s1 + 1) (e_stack s2) (e_types s2))) as Hs'
    by (by split_and!).
  pose proof (instruction_typed op _ _ Hs') as Hi.
  destruct (constInstruction g1 f1 data op _) as [[[v1 t1]|s1']|e|e]; [..|done|done]; cbn [res_bind sim] in *.
  - destruct Hi as (v2 & t2 & -> & Htt & Hv). intros [= <- <-]. cbn. eauto.
  - destruct Hi as (s2' & -> & Hss). cbn. by apply IH.
Qed.

End Typed.

Lemma evaluate_typed g1 g2 f1 f2 e v t :
  agree g1 g2 -> agreeF f1 f2 -> evaluateConstExpr g1 f1 e = Ok (v, t) ->
  exists v' t', evaluateConstExpr g2 f2 e = Ok (v', t') /\ vt_sim t t' /\ length v = length v'.
Proof. intros Hg Hf. eapply evaluateLoop_typed; [done|done|]. by split_and!. Qed.

(** The slots of a result. *)
Lemma instruction_end g f data op s v t :
  constInstruction g f data op s = Ok (inl (v, t)) -> e_types s = [t] /\ v = reverse (e_stack s).
Proof.
  unfold constInstruction. cbv zeta.
  assert (forall r : res estate, (let! s := r in Ok (inr s)) <> Ok (@inl (list Z * ValueType) estate (v, t))) as Hgo
    by (by intros [s'|e|e]).
  repeat (match goal with |- context [if ?b then _ else _] => destruct b end; [try (intros H; by apply Hgo in H)|]); [|done].
  destruct (e_types s) as [|t' [|]]; [done| |done]. by intros [= <- <-].
Qed.

Lemma evaluateLoop_slots g f data :
  (forall i, no_panic (g i)) -> (forall i, no_panic (f i)) -> expr_ok data -> forall fuel s v t,
  0 <= e_pc s -> balanced s -> evaluateLoop g f data fuel s = Ok (v, t) -> length v = typeSlots [t].
Proof.
  intros Hg Hf [Hb Hlast]. induction fuel as [|fuel IH]; intros s v t Hp Hs; cbn [evaluateLoop];
    (destruct (Z.geb_spec (e_pc s) (zlen data)); [done|]); [done|].
  destruct (zindex_in data (e_pc s)) as (op & -> & Hop); [lia|]. cbn [res_bind].
  set (s1 := mkEstate (e_pc s + 1) (e_stack s) (e_types s)).
  pose proof (instruction_safe g f data Hg Hf Hb Hlast (e_pc s) op s1 Hop eq_refl Hs) as Hi.
  destruct (constInstruction g f data op s1) as [[[v1 t1]|s']|e|e] eqn:E; cbn [res_bind]; [| |done..].
  - intros [= <- <-]. apply instruction_end in E as [Et ->]. unfold balanced in Hs. cbn in Et. rewrite length_reverse. cbn.
    unfold s1. cbn. by rewrite Hs, Et.
  - destruct Hi as [? ?]. apply IH; [lia|done].
Qed.

Lemma evaluate_slots g f e v t :
  (forall i, is_u32 i -> no_panic (g i)) -> (forall i, is_u32 i -> no_panic (f i)) -> expr_ok e ->
  evaluateConstExpr g f e = Ok (v, t) -> length v = typeSlots [t].
Proof.
  intros Hg Hf He. rewrite evaluate_guarded by done.
  by apply (evaluateLoop_slots _ _ _ (guarded_no_panic g Hg) (guarded_no_panic f Hf) He).
Qed.

(** ** What the decoder gives *)

Record input_ok (m : Module) : Prop := {
  in_types : wf_types (types m);
  in_imports : forall imp, imp ∈ ImportSection m -> In (ImportType imp) extern_types /\
    (ImportType imp = ExternTypeFunc -> is_u32 (DescFunc imp)) /\ (ImportType imp = ExternTypeTag -> is_u32 (DescTag imp));
  in_counts : ImportGlobalCount m = countOf ExternTypeGlobal (ImportSection m);
  in_functions : forall t, t ∈ FunctionSection m -> is_u32 t;
  in_tags : forall t, t ∈ TagSection m -> is_u32 t;
  in_exports : forall e, e ∈ ExportSection m -> is_u32 (ExportIndex e);
  in_codes : length (FunctionSection m) = length (CodeSection m);
  in_bodies : forall c, c ∈ CodeSection m -> bytes_ok (Body c) /\ last (Body c) = Some OpcodeEnd;
  in_tables : forall t e, t ∈ TableSection m -> TableInitExpr t = Some e -> expr_ok e;
  in_globals : forall g, g ∈ GlobalSection m -> expr_ok (GlobalInit g);
  in_data : forall d, d ∈ DataSection m -> Passive d = false -> expr_ok (OffsetExpression d);
  in_elements : forall e, e ∈ ElementSection m -> is_u32 (ElementTableIndex e) /\
    (forall i, i ∈ ElementInit e -> expr_ok i) /\ (Mode e = ElementModeActive -> expr_ok (OffsetExpr e));
  in_importCount : zlen (ImportSection m) < 2 ^ 32;
  in_codeSet : CodeSection m <> [] -> CodeSectionSet m = true;
  in_functionCount : zlen (FunctionSection m) < 2 ^ 32;
}.

Lemma wf_types_cache ts : wf_types ts -> wf_types (map CacheNumInUint64 ts).
Proof.
  intros Hwf.
  assert (forall t, zlookup (map CacheNumInUint64 ts) t = CacheNumInUint64 <$> zlookup ts t) as Hl
    by (intros t; unfold zlookup; destruct (0 <=? t); [apply list_lookup_fmap|done]).
  split; rewrite ?zlen_map; [apply Hwf|..]; intros t ft; rewrite Hl; [| | |intros i]; intros (c & E & ->)%fmap_Some.
  - apply (wf_refs ts Hwf t c E).
  - apply (wf_size ts Hwf t c E).
  - apply (wf_group ts Hwf t c E).
  - intros H1 H2. destruct (wf_group_members ts Hwf t c i E H1 H2) as (c' & E' & ? & ?).
    exists (CacheNumInUint64 c'). rewrite Hl. cbn [RecGroupPosition CacheNumInUint64]. rewrite E'. by split_and!.
Qed.

Lemma types_cache m : types (cacheTypes m) = map CacheNumInUint64 (types m).
Proof. unfold types, cacheTypes. cbn. by rewrite !map_map. Qed.

Lemma init_expr_ok f e : element_init_ok f e -> expr_ok e.
Proof.
  intros [He|(v & Hv & ->)]; [by eapply decodedExpr_ok|]. change MaximumFunctionIndex with (2 ^ 27) in Hv.
  unfold NewConstantExpressionFromOpcode. cbn [Z.eqb Pos.eqb app]. split.
  - constructor; [done|]. apply Forall_app. split; [apply EncodeUint32_bytes; lia|by repeat constructor].
  - change (OpcodeRefFunc :: EncodeUint32 v ++ [OpcodeEnd]) with ((OpcodeRefFunc :: EncodeUint32 v) ++ [OpcodeEnd]). apply last_snoc.
Qed.

Lemma decoded_input enabledFeatures memoryLimitPages m :
  module_ok enabledFeatures memoryLimitPages m -> wf_types (map theType (TypeSection m)) ->
  length (FunctionSection m) = length (CodeSection m) -> input_ok (cacheTypes m).
Proof.
  intros Hm Hwf Hlen. pose proof Hm as [_ Himp [Hf Hfl] Htab _ Htag Hglob [Hexp _] _ Hel [Hcode _] Hdata _ _ _ Hset Hcount].
  repeat match goal with H : Forall _ _ |- _ => rewrite Forall_forall in H end.
  split; cbn [cacheTypes set_TypeSection ImportSection ImportGlobalCount FunctionSection TagSection ExportSection CodeSection
    TableSection GlobalSection DataSection ElementSection CodeSectionSet].
  - rewrite types_cache. by apply wf_types_cache.
  - intros imp Hi. pose proof (io_each _ _ _ Himp) as He. cbn in He. rewrite Forall_forall in He.
    destruct (He imp Hi) as (_ & _ & ? & H1 & _ & _ & _ & H2). auto.
  - apply (io_global _ _ _ Himp).
  - done.
  - done.
  - intros e He. apply (Hexp e He).
  - done.
  - intros c Hc. destruct (Hcode c Hc) as (? & ? & _). done.
  - intros t e Ht E. destruct (Htab t Ht) as (_ & _ & _ & Hi). eapply decodedExpr_ok, Hi, E.
  - intros g Hg. destruct (Hglob g Hg) as [_ Hi]. by eapply decodedExpr_ok.
  - intros d Hd Hp. destruct (Hdata d Hd) as [_ Hi]. eapply decodedExpr_ok, Hi, Hp.
  - intros e He. destruct (Hel e He) as (_ & Hi & Hinit & Hoff & _). rewrite Forall_forall in Hinit.
    split; [done|]. split; intros; [eapply init_expr_ok; eauto|eapply decodedExpr_ok; eauto].
  - done.
  - done.
  - done.
Qed.

(** ** Validation returns *)

Lemma wrap32_le z : 0 <= z -> 0 <= wrap32 z <= z.
Proof. intros Hz. unfold wrap32. pose proof (Z.mod_pos_bound z (2 ^ 32)). pose proof (Z.mod_le z (2 ^ 32)). lia. Qed.

Lemma zindex_below {A} (l : list A) i : 0 <= i -> (i >=? wrap32 (zlen l)) = false -> exists a, zindex l i = Ok a /\ a ∈ l.
Proof.
  intros Hi Hw. bools. pose proof (wrap32_le (zlen l) (zlen_nonneg l)).
  destruct (zindex_in l i) as (a & E & Ha); [lia|]. exists a. split; [done|]. unfold zlookup in Ha.
  destruct (0 <=? i); [|done]. by apply list_elem_of_lookup_2 in Ha.
Qed.

Section Total.
Context (m : Module) (enabledFeatures : CoreFeatures) (Hin : input_ok m).

Lemma importedTypeIndex_range funcIdx l : forall cur t,
  (forall imp, imp ∈ l -> ImportType imp = ExternTypeFunc -> is_u32 (DescFunc imp)) ->
  importedTypeIndex (wrap32 (zlen (TypeSection m))) funcIdx cur l = Some (Some t) ->
  0 <= t < zlen (TypeSection m).
Proof.
  induction l as [|imp l IH]; intros cur t Hl; [done|]. cbn [importedTypeIndex].
  assert (forall i, i ∈ l -> ImportType i = ExternTypeFunc -> is_u32 (DescFunc i)) as Hl' by (intros; apply Hl; [by right|done]).
  destruct (Z.eqb_spec (ImportType imp) ExternTypeFunc) as [Et|]; cbn [negb]; [|by apply IH].
  destruct (funcIdx =? cur); [|by apply IH]. destruct (_ >=? _) eqn:E; [done|]. intros [= <-]. bools.
  pose proof (Hl imp ltac:(by left) Et). unfold is_u32 in *. pose proof (wrap32_le _ (zlen_nonneg (TypeSection m))). lia.
Qed.

Lemma typeIndexOfFunction_ok funcIdx :
  exists t, typeIndexOfFunction m funcIdx = Ok t /\ forall i, t = Some i -> 0 <= i < zlen (TypeSection m).
Proof.
  unfold typeIndexOfFunction. cbv zeta.
  assert (exists t, (let funcSectionIdx := wrap32 (funcIdx - ImportFunctionCount m) in
    if funcSectionIdx >=? wrap32 (zlen (FunctionSection m)) then Ok None
    else let! typeIdx := zindex (FunctionSection m) funcSectionIdx in
         Ok (if typeIdx >=? wrap32 (zlen (TypeSection m)) then None else Some typeIdx)) = Ok t /\
    forall i, t = Some i -> 0 <= i < zlen (TypeSection m)) as Hdef.
  { cbv zeta. set (k := wrap32 (funcIdx - ImportFunctionCount m)).
    assert (0 <= k) by (unfold k, wrap32; apply Z.mod_pos_bound; lia).
    destruct (k >=? _) eqn:E; [by eexists|]. apply zindex_below in E as (t & -> & Ht); [|done]. cbn [res_bind].
    eexists. split; [done|]. intros i. destruct (t >=? _) eqn:E; [done|]. intros [= <-]. bools.
    pose proof (in_functions m Hin t Ht) as Hu. unfold is_u32 in Hu.
    pose proof (wrap32_le _ (zlen_nonneg (TypeSection m))). lia. }
  destruct (funcIdx <? _); [|done]. destruct (importedTypeIndex _ _ _ _) as [r|] eqn:E; [|done].
  eexists. split; [done|]. intros i ->. eapply importedTypeIndex_range; [|done].
  intros imp Hi. apply (in_imports m Hin imp Hi).
Qed.

Lemma subtype_no_panic a e : no_panic (isRefSubtypeOf (view m) a e).
Proof. destruct (isRefSubtypeOf_total (view m) a e (in_types m Hin)) as [b ->]. done. Qed.

Lemma constGlobal_no_panic globals i : is_u32 i -> no_panic (constGlobal globals i).
Proof.
  intros [Hi _]. unfold constGlobal. destruct (wrap32 (zlen globals) <=? i) eqn:E; [done|].
  destruct (zindex_below globals i Hi) as (g & -> & _); [|done]. bools. rewrite Z.geb_leb. by apply Z.leb_gt.
Qed.

Lemma constFunc_no_panic n i : no_panic (constFunc n i).
Proof. unfold constFunc. by destruct (_ >=? _). Qed.

Lemma validateConstExpression_no_panic globals numFuncs e t :
  expr_ok e -> no_panic (validateConstExpression m globals numFuncs e t).
Proof.
  intros He. unfold validateConstExpression. apply res_bind_no_panic.
  { apply evaluate_no_panic; [|intros; apply constFunc_no_panic|done]. intros. by apply constGlobal_no_panic. }
  intros [v typ] _. apply res_bind_no_panic.
  { destruct (_ =? _); [|done]. destruct (typeIndexOfFunction_ok (default 0 (last (funcCalls (constExprCalls (constGlobal globals)
      (constFunc numFuncs) e))))) as (t' & -> & _). done. }
  intros typ' _. apply res_bind_no_panic; [apply subtype_no_panic|]. intros. apply fail_no_panic.
Qed.

Lemma validateConcreteRefTypes_no_panic : no_panic (validateConcreteRefTypes m).
Proof.
  unfold validateConcreteRefTypes. repeat (apply res_bind_no_panic; [|intros _ _]); apply range_no_panic; intros; try apply fail_no_panic.
  apply range_no_panic. intros. apply fail_no_panic.
Qed.

Lemma validateStartSection_no_panic : no_panic (validateStartSection m).
Proof.
  unfold validateStartSection, typeOfFunction. destruct (StartSection m) as [i|]; [|done].
  destruct (typeIndexOfFunction_ok i) as (t & -> & Ht). cbn [res_bind]. destruct t as [t|]; [|done].
  destruct (zindex_in (TypeSection m) t) as (c & -> & _); [by apply Ht|]. cbn. apply fail_no_panic.
Qed.

(** The declarations: the imports of a kind, in order, and then the section. *)
Lemma declareImports l d :
  (forall imp, imp ∈ l -> In (ImportType imp) extern_types) ->
  d_functions (fold_left declareImport l d) = d_functions d ++ map DescFunc (filter (fun i => ImportType i = ExternTypeFunc) l) /\
  d_globals (fold_left declareImport l d) = d_globals d ++ map DescGlobal (filter (fun i => ImportType i = ExternTypeGlobal) l) /\
  d_tables (fold_left declareImport l d) = d_tables d ++ map DescTable (filter (fun i => ImportType i = ExternTypeTable) l) /\
  d_tags (fold_left declareImport l d) = d_tags d ++ map DescTag (filter (fun i => ImportType i = ExternTypeTag) l).
Proof.
  revert d. induction l as [|imp l IH]; intros d Hl; [by rewrite !app_nil_r|]. cbn [fold_left].
  destruct (IH (declareImport d imp)) as (-> & -> & -> & ->); [intros; apply Hl; by right|].
  rewrite !filter_cons. pose proof (Hl imp ltac:(by left)) as Ht. cbn [In extern_types] in Ht.
  destruct d as [fs gs mem ts tg]. unfold declareImport. cbn.
  destruct_or! Ht; rewrite <- Ht; cbn; rewrite <- ?app_assoc; done.
Qed.

Lemma AllDeclarations_no_panic : no_panic (AllDeclarations m).
Proof.
  unfold AllDeclarations. destruct (fold_left _ _ _) as [fs gs mem ts tg]. apply res_bind_no_panic; [|done].
  by destruct (MemorySection m), mem.
Qed.

Lemma AllDeclarations_spec d :
  AllDeclarations m = Ok d ->
  d_functions d = map DescFunc (filter (fun i => ImportType i = ExternTypeFunc) (ImportSection m)) ++ FunctionSection m /\
  d_globals d = map DescGlobal (filter (fun i => ImportType i = ExternTypeGlobal) (ImportSection m)) ++
                map GlobalTypeOf (GlobalSection m) /\
  d_tables d = map DescTable (filter (fun i => ImportType i = ExternTypeTable) (ImportSection m)) ++ TableSection m /\
  d_tags d = map DescTag (filter (fun i => ImportType i = ExternTypeTag) (ImportSection m)) ++ TagSection m.
Proof.
  unfold AllDeclarations.
  destruct (declareImports (ImportSection m) (mkDeclarations [] [] None [] [])) as (H1 & H2 & H3 & H4);
    [intros imp Hi; apply (in_imports m Hin imp Hi)|].
  destruct (fold_left _ _ _) as [fs gs mem ts tg]. cbn in H1, H2, H3, H4. subst.
  destruct (MemorySection m), mem; cbn; try done; by intros [= <-].
Qed.

Section Declared.
Context (d : declarations) (Hd : AllDeclarations m = Ok d).

Lemma importedGlobals_ok : exists l, zprefix (d_globals d) (ImportGlobalCount m) = Ok l.
Proof.
  destruct (AllDeclarations_spec d Hd) as (_ & Hg & _). rewrite (in_counts m Hin). unfold zprefix.
  assert (countOf ExternTypeGlobal (ImportSection m) <= zlen (d_globals d)) as H.
  { rewrite Hg, zlen_app, zlen_map. unfold countOf. pose proof (zlen_nonneg (map GlobalTypeOf (GlobalSection m))). lia. }
  rewrite (proj2 (Z.leb_le _ _) H). by eexists.
Qed.

Lemma validateTableInitExprs_no_panic n : no_panic (validateTableInitExprs m (d_globals d) n).
Proof.
  unfold validateTableInitExprs. destruct importedGlobals_ok as [l ->]. cbn [res_bind]. apply range_no_panic. intros k t Ht.
  apply list_elem_of_lookup_2 in Ht. apply res_bind_no_panic; [apply fail_no_panic|]. intros _ _.
  destruct (TableInitExpr t) as [e|] eqn:E; [|done]. apply errorf_no_panic, validateConstExpression_no_panic.
  by apply (in_tables m Hin t).
Qed.

Lemma validateImports_no_panic : no_panic (validateImports m enabledFeatures).
Proof.
  apply range_no_panic. intros k imp Himp. apply list_elem_of_lookup_2 in Himp. cbv zeta.
  destruct (in_imports m Hin imp Himp) as (_ & _ & Htag).
  destruct (String.eqb _ _); [done|]. destruct (_ =? ExternTypeFunc); [apply fail_no_panic|].
  destruct (_ =? ExternTypeGlobal); [destruct (negb _); [done|apply errorf_no_panic, Require_no_panic]|].
  destruct (Z.eqb_spec (ImportType imp) ExternTypeTag) as [Et|]; [|done]. destruct (_ >=? _) eqn:E; [done|]. bools.
  apply Htag in Et as [? _]. destruct (zindex_in (types m) (DescTag imp)) as (ft & -> & _);
    [unfold types; rewrite zlen_map; lia|]. cbn. apply fail_no_panic.
Qed.

Lemma validateGlobals_no_panic n mx : no_panic (validateGlobals m (d_globals d) n mx).
Proof.
  unfold validateGlobals. destruct (_ >? _); [done|]. destruct importedGlobals_ok as [l ->]. cbn [res_bind].
  apply range_no_panic. intros k g Hg. apply list_elem_of_lookup_2 in Hg.
  by apply validateConstExpression_no_panic, (in_globals m Hin).
Qed.

Lemma validateMemory_no_panic : no_panic (validateMemory m (d_memory d) (d_globals d)).
Proof.
  unfold validateMemory. cbv zeta. destruct (_ && _); [done|]. destruct importedGlobals_ok as [l ->]. cbn [res_bind].
  apply range_no_panic. intros k x Hx. apply list_elem_of_lookup_2 in Hx. destruct (Passive x) eqn:E; [done|].
  by apply errorf_no_panic, validateConstExpression_no_panic, (in_data m Hin).
Qed.

Lemma validateExports_no_panic : no_panic (validateExports m enabledFeatures d).
Proof.
  apply range_no_panic. intros k e He. apply list_elem_of_lookup_2 in He. cbv zeta. pose proof (in_exports m Hin e He) as [Hi _].
  repeat (match goal with |- no_panic (if ?b then _ else _) => destruct b eqn:? end; [try apply fail_no_panic; try done|]); try done.
  destruct (zindex_below (d_globals d) (ExportIndex e) Hi) as (g & -> & _); [done|]. cbn.
  destruct (negb _); [done|]. apply errorf_no_panic, Require_no_panic.
Qed.

Lemma validateTagSection_no_panic : no_panic (validateTagSection m).
Proof.
  apply range_no_panic. intros k t Ht. apply list_elem_of_lookup_2 in Ht. destruct (t >=? _) eqn:E; [done|].
  destruct (in_tags m Hin t Ht) as [Hi _]. destruct (zindex_below (types m) t Hi) as (ft & -> & _);
    [unfold types; by rewrite zlen_map|]. cbn. apply fail_no_panic.
Qed.

Lemma importedGlobalType_no_panic place idx l : forall cur r, importedGlobalType place idx cur l = Some r -> no_panic r.
Proof.
  induction l as [|imp l IH]; intros cur r; [done|]. cbn [importedGlobalType].
  destruct (negb _); [by apply IH|]. destruct (idx =? cur); [|by apply IH]. intros [= <-]. by destruct (Mutable _).
Qed.

Lemma resolve_no_panic id sectionIdx i : no_panic (resolveConstExprGlobalType m enabledFeatures id sectionIdx i).
Proof.
  unfold resolveConstExprGlobalType. cbv zeta. destruct (i <? _).
  - destruct (importedGlobalType _ _ _ _) eqn:E; [|done]. by apply importedGlobalType_no_panic in E.
  - destruct (negb _); [done|]. set (k := wrap32 _).
    assert (0 <= k) by (unfold k, wrap32; apply Z.mod_pos_bound; lia).
    destruct (_ && _); [done|]. destruct (k >=? _) eqn:E; [done|]. apply zindex_below in E as (g & -> & _); [|done].
    cbn. by destruct (Mutable _).
Qed.

Lemma declaredGlobal_no_panic id sectionIdx i : no_panic (declaredGlobal m enabledFeatures id sectionIdx i).
Proof. apply res_bind_no_panic; [apply resolve_no_panic|done]. Qed.

Lemma declaredByInits_no_panic i inits : (forall e, e ∈ inits -> expr_ok e) -> forall ret,
  no_panic (declaredByInits m enabledFeatures i inits ret).
Proof.
  induction inits as [|e inits IH]; intros He ret; [done|]. cbn [declaredByInits]. cbv zeta.
  pose proof (evaluate_no_panic (declaredGlobal m enabledFeatures SectionIDElement i) declaredFunc e
    ltac:(intros; apply declaredGlobal_no_panic) ltac:(done) (He e ltac:(by left))) as H.
  destruct (evaluateConstExpr _ _ e) as [a|msg|msg]; [..|by destruct (H msg)]; apply IH; intros; apply He; by right.
Qed.

Lemma declaredFunctionIndexes_no_panic : no_panic (declaredFunctionIndexes m enabledFeatures).
Proof.
  unfold declaredFunctionIndexes. apply res_bind_no_panic.
  - generalize (exportedFunctions m). generalize 0. pose proof (in_globals m Hin) as Hg. revert Hg.
    generalize (GlobalSection m). induction l as [|g l IH]; intros Hg i ret; [done|]. cbn [declaredByGlobals]. cbv zeta.
    apply res_bind_no_panic; [|intros _ _; apply IH; intros; apply Hg; by right].
    apply errorf_no_panic, evaluate_no_panic; [intros; apply declaredGlobal_no_panic|done|apply Hg; by left].
  - intros ret _. revert ret. generalize 0. pose proof (in_elements m Hin) as He. revert He.
    generalize (ElementSection m). induction l as [|e l IH]; intros He i ret; [done|]. cbn [declaredByElements].
    apply res_bind_no_panic; [|intros ret' _; apply IH; intros; apply He; by right].
    apply declaredByInits_no_panic. apply (He e). by left.
Qed.

(** The index spaces of functions and tags, after the imports and the tags have been checked. *)
Lemma functions_in_range :
  (forall t, t ∈ FunctionSection m -> t < zlen (TypeSection m)) -> validateImports m enabledFeatures = Ok tt ->
  Forall (fun t => 0 <= t < zlen (types m)) (d_functions d).
Proof.
  intros Hf Hi. destruct (AllDeclarations_spec d Hd) as (-> & _). unfold types. rewrite zlen_map. apply Forall_app. split; apply Forall_forall.
  - intros t (imp & -> & [Et Himp]%list_elem_of_filter)%list_elem_of_fmap. destruct (in_imports m Hin imp Himp) as (_ & Hu & _).
    specialize (Hu Et). unfold is_u32 in Hu. apply list_elem_of_lookup_1 in Himp as [k Hk].
    pose proof (range_Ok _ _ _ _ Hi Hk) as E. cbv zeta in E; cbn beta in E. destruct (String.eqb (ImportModule imp) ""); [done|].
    rewrite Et in E. cbn [Z.eqb ExternTypeFunc] in E. apply fail_Ok in E. bools. lia.
  - intros t Ht. pose proof (in_functions m Hin t Ht). pose proof (Hf t Ht). unfold is_u32 in *. lia.
Qed.

Lemma tags_in_range :
  validateImports m enabledFeatures = Ok tt -> validateTagSection m = Ok tt ->
  Forall (fun t => 0 <= t < zlen (types m)) (d_tags d).
Proof.
  intros Hi Ht. destruct (AllDeclarations_spec d Hd) as (_ & _ & _ & ->). unfold types. rewrite zlen_map. apply Forall_app. split; apply Forall_forall.
  - intros t (imp & -> & [Et Himp]%list_elem_of_filter)%list_elem_of_fmap. destruct (in_imports m Hin imp Himp) as (_ & _ & Hu).
    specialize (Hu Et). unfold is_u32 in Hu. apply list_elem_of_lookup_1 in Himp as [k Hk].
    pose proof (range_Ok _ _ _ _ Hi Hk) as E. cbv zeta in E; cbn beta in E. destruct (String.eqb (ImportModule imp) ""); [done|].
    rewrite Et in E. cbn [Z.eqb ExternTypeFunc ExternTypeGlobal ExternTypeTag Pos.eqb] in E.
    destruct (_ >=? _) eqn:E2; [done|]. bools. lia.
  - intros t Hx. pose proof (in_tags m Hin t Hx) as Hu. unfold is_u32 in Hu. apply list_elem_of_lookup_1 in Hx as [k Hk].
    pose proof (range_Ok _ _ _ _ Ht Hk) as E. cbn beta in E. destruct (t >=? _) eqn:E2; [done|]. bools.
    pose proof (wrap32_le _ (zlen_nonneg (TypeSection m))). lia.
Qed.

Lemma view_code k c : CodeSection m !! k = Some c ->
  zlookup (Types.CodeSection (view m)) (Z.of_nat k) = Some (Types.mkCode (LocalTypes c) (Body c)).
Proof.
  intros Hk. unfold zlookup. rewrite (proj2 (Z.leb_le 0 _)), Nat2Z.id by lia. cbn. rewrite list_lookup_fmap. by rewrite Hk.
Qed.

Lemma validateFunctions_no_panic mx :
  (forall t, t ∈ FunctionSection m -> t < zlen (TypeSection m)) ->
  IsEnabled enabledFeatures CoreFeaturesExceptionHandling = false \/
    (forall c, c ∈ CodeSection m -> no_nonnull_locals (LocalTypes c)) ->
  validateImports m enabledFeatures = Ok tt -> validateTagSection m = Ok tt ->
  no_panic (validateFunctions m enabledFeatures d mx).
Proof.
  intros Hf Hen Hi Ht. unfold validateFunctions. destruct (_ >? mx); [done|].
  change (SectionElementCount m SectionIDFunction) with (Ok (wrap32 (zlen (FunctionSection m)))).
  change (SectionElementCount m SectionIDCode) with (Ok (wrap32 (zlen (CodeSection m)))).
  change (SectionElementCount m SectionIDType) with (Ok (wrap32 (zlen (TypeSection m)))). cbn [res_bind].
  destruct (_ && _); [done|]. destruct (negb _); [done|].
  apply res_bind_no_panic; [apply declaredFunctionIndexes_no_panic|]. intros decl _. apply range_no_panic. intros k t Hk.
  destruct (t >=? _); [done|]. pose proof (in_codes m Hin) as Hlen. pose proof (lookup_lt_Some _ _ _ Hk) as Hlt.
  destruct (zindex_in (CodeSection m) (Z.of_nat k)) as (c & -> & _); [unfold zlen; lia|]. cbn [res_bind].
  apply errorf_no_panic. unfold validateFunction.
  pose proof (wrap32_le (Z.of_nat k) ltac:(lia)) as Hw. set (k' := Z.to_nat (wrap32 (Z.of_nat k))).
  replace (wrap32 (Z.of_nat k)) with (Z.of_nat k') by (unfold k'; lia).
  destruct (lookup_lt_is_Some_2 (FunctionSection m) k') as [t' Hk']; [unfold k'; lia|].
  destruct (lookup_lt_is_Some_2 (CodeSection m) k') as [c' Hc']; [unfold k'; lia|].
  pose proof (list_elem_of_lookup_2 _ _ _ Hk') as Ht'. pose proof (list_elem_of_lookup_2 _ _ _ Hc') as Hcode.
  destruct (zlookup_lt_is_Some (types m) t') as [ft Hft].
  { unfold types. rewrite zlen_map. pose proof (in_functions m Hin t' Ht'). pose proof (Hf t' Ht'). unfold is_u32 in *. lia. }
  eapply (validateFunction_no_panic (view m) enabledFeatures (Z.of_nat k') t'); [|exact Hft|by apply view_code| |].
  - unfold zlookup. by rewrite (proj2 (Z.leb_le 0 _)), Nat2Z.id by lia.
  - destruct (in_bodies m Hin c' Hcode). split; [apply Hin|by apply functions_in_range|by apply tags_in_range|done|done].
  - destruct Hen as [?|Hen]; [by left|right]. by apply Hen.
Qed.

Lemma initGlobal_no_panic gc idx i : no_panic (initGlobal m enabledFeatures gc idx i).
Proof. unfold initGlobal. destruct (_ >=? _); [done|]. apply res_bind_no_panic; [apply resolve_no_panic|done]. Qed.

Lemma offsetGlobal_no_panic gc idx i : no_panic (offsetGlobal m enabledFeatures gc idx i).
Proof.
  unfold offsetGlobal. destruct (_ >=? _); [done|]. apply res_bind_no_panic; [apply resolve_no_panic|]. intros vt _. by destruct (negb _).
Qed.

Lemma validateElement_no_panic gc fc i e :
  e ∈ ElementSection m -> no_panic (validateElement m enabledFeatures (d_tables d) gc fc i e).
Proof.
  intros He. destruct (in_elements m Hin e He) as (Hu & Hinit & Hoff). unfold validateElement. cbv zeta.
  apply res_bind_no_panic.
  - apply range_no_panic. intros k init Hk. apply list_elem_of_lookup_2 in Hk. unfold validateElementInit.
    apply res_bind_no_panic.
    { apply evaluate_no_panic; [intros; apply initGlobal_no_panic| |by apply Hinit]. intros j _. unfold initFunc. by destruct (_ >=? _). }
    intros [v t] _. destruct (_ =? ValueTypeFuncref); [apply fail_no_panic|].
    destruct (_ =? ValueTypeExternref); [apply fail_no_panic|]. apply res_bind_no_panic; [apply subtype_no_panic|]. intros. apply fail_no_panic.
  - intros _ _. destruct (Mode e) eqn:Em; [|done..]. unfold validateActiveElement.
    destruct (_ <=? _) eqn:E; [done|]. bools. unfold is_u32 in Hu.
    destruct (zindex_in (d_tables d) (ElementTableIndex e)) as (t & -> & _); [lia|]. cbn [res_bind].
    apply res_bind_no_panic; [apply subtype_no_panic|]. intros sub _. destruct (negb sub); [done|]. cbv zeta.
    apply res_bind_no_panic.
    { apply errorf_no_panic, evaluate_no_panic; [intros; apply offsetGlobal_no_panic|done|by apply Hoff]. }
    intros [v vt] Hev. apply errorf_Ok in Hev. destruct (Z.eqb_spec vt ValueTypeI32) as [->|]; [|done]. cbn [negb].
    destruct (_ && _); [|done].
    apply evaluate_slots in Hev; [|intros; apply offsetGlobal_no_panic|done|by apply Hoff].
    destruct v as [|x v]; [done|]. apply fail_no_panic.
Qed.

Lemma validateTable_no_panic mx : no_panic (validateTable m enabledFeatures (d_tables d) mx).
Proof.
  unfold validateTable. destruct (_ >? mx); [done|].
  change (SectionElementCount m SectionIDFunction) with (Ok (wrap32 (zlen (FunctionSection m)))).
  change (SectionElementCount m SectionIDGlobal) with (Ok (wrap32 (zlen (GlobalSection m)))). cbn [res_bind].
  apply range_no_panic. intros k e He. apply list_elem_of_lookup_2 in He. by apply validateElement_no_panic.
Qed.

End Declared.

Lemma validateSections_no_panic :
  (forall t, t ∈ FunctionSection m -> t < zlen (TypeSection m)) ->
  IsEnabled enabledFeatures CoreFeaturesExceptionHandling = false \/
    (forall c, c ∈ CodeSection m -> no_nonnull_locals (LocalTypes c)) ->
  no_panic (validateSections m enabledFeatures).
Proof.
  intros Hf Hen. unfold validateSections.
  apply res_bind_no_panic; [apply validateConcreteRefTypes_no_panic|intros _ _].
  apply res_bind_no_panic; [apply validateStartSection_no_panic|intros _ _].
  apply res_bind_no_panic; [apply AllDeclarations_no_panic|intros d Hd].
  apply res_bind_no_panic; [by apply validateTableInitExprs_no_panic|intros _ _].
  apply res_bind_no_panic; [apply validateImports_no_panic|intros [] Hi].
  apply res_bind_no_panic; [by apply validateGlobals_no_panic|intros _ _].
  apply res_bind_no_panic; [by apply validateMemory_no_panic|intros _ _].
  apply res_bind_no_panic; [apply validateExports_no_panic|intros _ _].
  apply res_bind_no_panic; [apply validateTagSection_no_panic|intros [] Ht].
  apply res_bind_no_panic; [destruct (CodeSectionSet m); [by apply validateFunctions_no_panic|done]|intros _ _].
  apply res_bind_no_panic; [by apply validateTable_no_panic|intros _ _].
  unfold validateDataCountSection. destruct (DataCountSection m); [apply fail_no_panic|done].
Qed.

End Total.

(** ** Evaluation in an instance *)

(** The globals of an instance have the types that the module declares, or subtypes. *)
Definition matches (globals : list GlobalType) (inst : list (ValueType * Z * Z)) : Prop :=
  Forall2 (fun g v => vt_sim (ValType g) v.1.1) globals inst.

Lemma matches_lookup globals inst i g :
  matches globals inst -> zlookup globals i = Some g -> exists t lo hi, zindex inst i = Ok (t, lo, hi) /\ vt_sim (ValType g) t.
Proof.
  intros Hm. unfold zindex, zlookup. destruct (0 <=? i); [|done]. intros Hg.
  destruct (Forall2_lookup_l _ _ _ _ _ Hm Hg) as ([[t lo] hi] & -> & E). eauto 6.
Qed.

Lemma zlookup_cons {A} (x : A) l i : 0 < i -> zlookup (x :: l) i = zlookup l (i - 1).
Proof.
  intros Hi. unfold zlookup. rewrite !(proj2 (Z.leb_le _ _)) by lia. replace (Z.to_nat i) with (S (Z.to_nat (i - 1))) by lia. done.
Qed.

(** The global that an index of an imported global resolves to. *)
Lemma importedGlobalType_lookup place idx l : forall cur vt,
  0 <= cur <= idx -> cur + zlen l < 2 ^ 32 ->
  importedGlobalType place idx cur l = Some (Ok vt) ->
  exists g, zlookup (map DescGlobal (filter (fun i => ImportType i = ExternTypeGlobal) l)) (idx - cur) = Some g /\ ValType g = vt.
Proof.
  induction l as [|imp l IH]; intros cur vt Hc Hb; [done|]. rewrite zlen_cons in Hb. pose proof (zlen_nonneg l).
  cbn [importedGlobalType]. rewrite filter_cons.
  destruct (Z.eqb_spec (ImportType imp) ExternTypeGlobal) as [Et|Et]; cbn [negb];
    [rewrite decide_True by done|rewrite decide_False by done; apply IH; lia].
  destruct (Z.eqb_spec idx cur) as [->|Hne].
  - rewrite Z.sub_diag. destruct (Mutable _); [done|]. intros [= <-]. by eexists.
  - rewrite wrap32_small by (unfold is_u32; lia). intros Hi. apply IH in Hi as (g & E & Hg); [|lia|lia].
    exists g. split; [|done]. cbn [map]. rewrite zlookup_cons by lia. rewrite <- E. f_equal. lia.
Qed.

(** The first [n] globals can be read, with the types that the module declares, or subtypes. *)
Definition readable (globals : list GlobalType) (n : Z) (read : Z -> res (ValueType * Z * Z)) : Prop :=
  forall i g, i < n -> zlookup globals i = Some g -> exists t lo hi, read i = Ok (t, lo, hi) /\ vt_sim (ValType g) t.

Lemma matches_readable globals inst : matches globals inst -> readable globals (zlen globals) (zindex inst).
Proof. intros Hm i g _. by apply matches_lookup. Qed.

Section Evaluation.
Context (m : Module) (enabledFeatures : CoreFeatures) (Hin : input_ok m) (d : declarations) (Hd : AllDeclarations m = Ok d).
Context (read : Z -> res (ValueType * Z * Z)) (n : Z) (Hread : readable (d_globals d) n read) (Hn : ImportGlobalCount m <= n).
Context (fref : Z -> Z).

Local Abbreviation eval e := (evaluateConstExprInModuleInstance e read fref).

Lemma eval_typed g f e v t :
  agree g read -> (forall i, is_u32 i -> no_panic (g i)) -> (forall i, is_u32 i -> no_panic (f i)) -> expr_ok e ->
  evaluateConstExpr g f e = Ok (v, t) -> exists v', eval e = Ok v' /\ length v' = typeSlots [t].
Proof.
  intros Hg Hgp Hfp He E. pose proof (evaluate_slots g f e v t Hgp Hfp He E) as Hs.
  destruct (evaluate_typed g read f (fun i => Ok (fref i)) e v t) as (v' & t' & E' & _ & Hl);
    [done|by intros i r _; eexists|done|]. exists v'. unfold evaluateConstExprInModuleInstance. rewrite E'. split; [done|lia].
Qed.

Lemma prefix_agree l : zprefix (d_globals d) (ImportGlobalCount m) = Ok l -> agree (constGlobal l) read.
Proof.
  unfold zprefix. destruct (_ <=? _) eqn:Ele; [|done]. bools. intros [= <-] i t lo hi. unfold constGlobal.
  destruct (_ <=? i); [done|]. unfold zindex at 1.
  destruct (zlookup (take (Z.to_nat (ImportGlobalCount m)) (d_globals d)) i) as [g|] eqn:E; [|done].
  cbn. intros [= <- <- <-]. pose proof (zlookup_Some_lt _ _ _ E) as Hi. rewrite zlen_take in Hi. apply Hread; [lia|].
  unfold zlookup in *. destruct (0 <=? i); [|done]. by apply lookup_take_Some in E as [E _].
Qed.

Lemma slots_nonempty t v : length v = typeSlots [t] -> v <> (@nil Z).
Proof. intros Hv ->. cbn in Hv. by destruct (t =? _). Qed.

Lemma validated_expr l k e t :
  zprefix (d_globals d) (ImportGlobalCount m) = Ok l -> expr_ok e -> validateConstExpression m l k e t = Ok tt ->
  exists v, eval e = Ok v /\ v <> [].
Proof.
  intros Hl He. unfold validateConstExpression. destruct (evaluateConstExpr _ _ e) as [[v typ]|err|err] eqn:E; [|done..]. intros _.
  destruct (eval_typed _ _ e v typ (prefix_agree l Hl) ltac:(intros; by apply constGlobal_no_panic)
    ltac:(intros; apply constFunc_no_panic) He E) as (v' & Ev & Hv). exists v'. eauto using slots_nonempty.
Qed.

Lemma resolve_lookup id si i vt :
  is_u32 i ->
  resolveConstExprGlobalType m enabledFeatures id si i = Ok vt ->
  (i < ImportGlobalCount m \/ IsEnabled enabledFeatures CoreFeaturesExtendedConst = true) /\
  exists g, zlookup (d_globals d) i = Some g /\ ValType g = vt.
Proof.
  unfold is_u32. intros Hi. pose proof (in_importCount m Hin). unfold resolveConstExprGlobalType. cbv zeta.
  destruct (AllDeclarations_spec m Hin d Hd) as (_ & -> & _).
  assert (zlen (map DescGlobal (filter (fun i => ImportType i = ExternTypeGlobal) (ImportSection m))) = ImportGlobalCount m) as El
    by (rewrite zlen_map; symmetry; apply (in_counts m Hin)).
  rewrite zlookup_app, El. destruct (i <? ImportGlobalCount m) eqn:Elt.
  - destruct (importedGlobalType _ _ _ _) as [r|] eqn:E; [|done]. intros ->. split; [left; lia|].
    apply importedGlobalType_lookup in E; [|lia|lia]. by rewrite Z.sub_0_r in E.
  - destruct (negb _) eqn:Ex; [done|]. bools. rewrite (in_counts m Hin) in *.
    pose proof (countOf_bound ExternTypeGlobal (ImportSection m)). rewrite wrap32_small by (unfold is_u32; lia).
    destruct (_ && _); [done|]. destruct (_ >=? _) eqn:E2; [done|].
    set (k := i - countOf ExternTypeGlobal (ImportSection m)) in *.
    destruct (zindex (GlobalSection m) k) as [g|e|e] eqn:E3; [|done..]. cbn. destruct (Mutable _); [done|]. intros [= <-].
    split; [by right|]. exists (GlobalTypeOf g). split; [|done]. unfold zindex in E3. destruct (zlookup (GlobalSection m) k) eqn:E4; [|done].
    injection E3 as ->. unfold zlookup in *. destruct (0 <=? k); [|done]. rewrite list_lookup_fmap. by rewrite E4.
Qed.

(** The globals that an element segment may refer to can be read. *)
Context (Hall : zlen (d_globals d) <= n \/ IsEnabled enabledFeatures CoreFeaturesExtendedConst = false).

Lemma resolve_read id si i vt :
  is_u32 i -> resolveConstExprGlobalType m enabledFeatures id si i = Ok vt ->
  exists t lo hi, read i = Ok (t, lo, hi) /\ vt_sim vt t.
Proof.
  intros Hi (Hx & g & Hg & <-)%resolve_lookup; [|done]. apply Hread; [|done].
  pose proof (zlookup_Some_lt _ _ _ Hg). destruct Hall as [?|Hf]; [lia|]. destruct Hx as [?|Hx]; [lia|congruence].
Qed.

Lemma validated_inits gc fc i e init :
  e ∈ ElementSection m -> validateElement m enabledFeatures (d_tables d) gc fc i e = Ok tt -> init ∈ ElementInit e ->
  exists v, eval init = Ok v /\ v <> [].
Proof.
  intros He. destruct (in_elements m Hin e He) as (_ & Hinit & _). unfold validateElement. cbv zeta.
  destruct (range _ (ElementInit e)) as [[]|err|err] eqn:Er; [|done..]. intros _ Hi.
  apply list_elem_of_lookup_1 in Hi as [k Hk]. pose proof (range_Ok _ _ _ _ Er Hk) as E. cbn beta in E.
  apply list_elem_of_lookup_2 in Hk. unfold validateElementInit in E.
  destruct (evaluateConstExpr _ _ init) as [[v' vt']|err|err] eqn:Ei; [|done..]. clear E.
  rewrite evaluate_guarded in Ei by auto. eapply eval_typed in Ei as (v2 & E' & Hv); [eauto using slots_nonempty|..|by apply Hinit].
  - intros j t' lo hi. unfold guarded, initGlobal. destruct (_ && _) eqn:Ej; [|done]. destruct (_ >=? _); [done|].
    destruct (resolveConstExprGlobalType _ _ _ _ _) as [vt2|err|err] eqn:Eg; [|done..]. cbn.
    intros [= <- <- <-]. bools. by apply resolve_read in Eg.
  - intros j _. apply guarded_no_panic. intros. apply initGlobal_no_panic.
  - intros j _. apply guarded_no_panic. intros j' _. unfold initFunc. by destruct (_ >=? _).
Qed.

Lemma validated_offset gc fc i e :
  e ∈ ElementSection m -> Mode e = ElementModeActive -> validateElement m enabledFeatures (d_tables d) gc fc i e = Ok tt ->
  (exists v, eval (OffsetExpr e) = Ok v /\ v <> []) /\ ElementTableIndex e < zlen (d_tables d).
Proof.
  intros He Hm. destruct (in_elements m Hin e He) as (_ & _ & Hoff). unfold validateElement. cbv zeta. rewrite Hm.
  destruct (range _ (ElementInit e)) as [[]|err|err]; [|done..]. cbn [res_bind]. unfold validateActiveElement.
  destruct (_ <=? _) eqn:Et; [done|]. bools. destruct (zindex (d_tables d) _) as [t|err|err]; [|done..]. cbn [res_bind].
  destruct (isRefSubtypeOf _ _ _) as [sub|err|err]; [|done..]. cbn [res_bind]. destruct (negb sub); [done|]. cbv zeta.
  destruct (evaluateConstExpr _ _ (OffsetExpr e)) as [[v vt]|err|err] eqn:Ev; [|done..]. intros _. split; [|done].
  rewrite evaluate_guarded in Ev by auto. eapply eval_typed in Ev as (v' & E' & Hv); [eauto using slots_nonempty|..|by apply Hoff].
  - intros j t' lo hi. unfold guarded, offsetGlobal. destruct (_ && _) eqn:Ej; [|done]. destruct (_ >=? _); [done|].
    destruct (resolveConstExprGlobalType _ _ _ _ _) as [vt'|err|err] eqn:Eg; [|done..]. cbn.
    destruct (Z.eqb_spec vt' ValueTypeI32) as [E|]; [|done]. intros [= <- <- <-]. bools.
    rewrite <- E. by apply resolve_read in Eg.
  - intros j _. apply guarded_no_panic. intros. apply offsetGlobal_no_panic.
  - intros j _. by apply guarded_no_panic.
Qed.

End Evaluation.

(** ** What an accepted module satisfies *)

Lemma validateSections_Ok m f :
  validateSections m f = Ok tt ->
  exists d, AllDeclarations m = Ok d /\ validateStartSection m = Ok tt /\
    validateTableInitExprs m (d_globals d) (wrap32 (zlen (d_functions d))) = Ok tt /\ validateImports m f = Ok tt /\
    validateGlobals m (d_globals d) (wrap32 (zlen (d_functions d))) MaximumGlobals = Ok tt /\
    validateMemory m (d_memory d) (d_globals d) = Ok tt /\ validateExports m f d = Ok tt /\ validateTagSection m = Ok tt /\
    (CodeSectionSet m = true -> validateFunctions m f d MaximumFunctionIndex = Ok tt) /\
    validateTable m f (d_tables d) MaximumTableIndex = Ok tt /\ validateDataCountSection m = Ok tt.
Proof.
  unfold validateSections. intros H.
  destruct (validateConcreteRefTypes m) as [[]| |]; [|done..]. destruct (validateStartSection m) as [[]| |]; [|done..].
  cbn [res_bind] in H. destruct (AllDeclarations m) as [d| |] eqn:Ed; [|done..]. cbn [res_bind] in H. exists d.
  destruct (validateTableInitExprs _ _ _) as [[]| |]; [|done..]. destruct (validateImports _ _) as [[]| |]; [|done..].
  cbn [res_bind] in H. destruct (validateGlobals _ _ _ _) as [[]| |]; [|done..]. cbn [res_bind] in H.
  destruct (validateMemory _ _ _) as [[]| |]; [|done..]. destruct (validateExports _ _ _) as [[]| |]; [|done..].
  destruct (validateTagSection _) as [[]| |]; [|done..]. cbn [res_bind] in H.
  destruct (CodeSectionSet m); [destruct (validateFunctions _ _ _ _) as [[]| |]; [|done..]|]; cbn [res_bind] in H;
    (destruct (validateTable _ _ _ _) as [[]| |]; [|done..]; by split_and!).
Qed.

Lemma validateTable_Ok m f tables mx e :
  validateTable m f tables mx = Ok tt -> e ∈ ElementSection m ->
  exists gc fc i, validateElement m f tables gc fc i e = Ok tt.
Proof.
  unfold validateTable. destruct (_ >? mx); [done|].
  change (SectionElementCount m SectionIDFunction) with (Ok (wrap32 (zlen (FunctionSection m)))).
  change (SectionElementCount m SectionIDGlobal) with (Ok (wrap32 (zlen (GlobalSection m)))). cbn [res_bind].
  intros H [k Hk]%list_elem_of_lookup_1. pose proof (range_Ok _ _ _ _ H Hk). eauto.
Qed.

Lemma decodeAndValidate_Ok f lim capMax dwarf store binary m :
  reader_ok binary -> decodeAndValidate f lim capMax dwarf store binary = Ok m ->
  input_ok m /\ validateSections m f = Ok tt.
Proof.
  intros Hr. unfold decodeAndValidate. pose proof (DecodeModule_ok f lim capMax dwarf store binary Hr) as Hd.
  destruct (DecodeModule _ _ _ _ _ _) as [m0|e|e]; [|done..]. cbn [res_bind].
  destruct Hd as ([Hm Hl] & Hlen & _). destruct (Validate m0 f) as [m1 r] eqn:Ev. unfold Validate in Ev. injection Ev as <- <-.
  destruct (validateSections _ f) as [[]|e|e] eqn:Es; [|done..]. cbn [res_bind]. intros [= <-]. split; [|done].
  eapply decoded_input; [done| |done]. by apply (mo_types _ _ _ Hm).
Qed.

(** The index space of an extern type. *)
Definition index_space (d : declarations) (tp : Z) : Z :=
  if tp =? ExternTypeFunc then zlen (d_functions d)
  else if tp =? ExternTypeGlobal then zlen (d_globals d)
  else if tp =? ExternTypeMemory then (if d_memory d is Some _ then 1 else 0)
  else if tp =? ExternTypeTable then zlen (d_tables d)
  else if tp =? ExternTypeTag then zlen (d_tags d)
  else 2 ^ 32.

Lemma validateExports_Ok m f d e :
  validateExports m f d = Ok tt -> e ∈ ExportSection m -> is_u32 (ExportIndex e) -> ExportIndex e < index_space d (ExportType e).
Proof.
  intros H [k Hk]%list_elem_of_lookup_1 [H0 H1]. pose proof (range_Ok _ _ _ _ H Hk) as E. cbn beta zeta in E. unfold index_space.
  pose proof (wrap32_le _ (zlen_nonneg (d_functions d))). pose proof (wrap32_le _ (zlen_nonneg (d_globals d))).
  pose proof (wrap32_le _ (zlen_nonneg (d_tables d))). pose proof (wrap32_le _ (zlen_nonneg (d_tags d))).
  destruct (_ =? ExternTypeFunc); [rewrite fail_Ok in E; lia|].
  destruct (_ =? ExternTypeGlobal); [destruct (_ >=? _) eqn:Eg; [done|lia]|].
  destruct (_ =? ExternTypeMemory).
  { rewrite fail_Ok in E. bools. destruct (d_memory d); [lia|]. by rewrite bool_decide_eq_true_2 in * by done. }
  destruct (_ =? ExternTypeTable); [rewrite fail_Ok in E; lia|].
  destruct (_ =? ExternTypeTag); [rewrite fail_Ok in E; lia|]. unfold wrap32 in *. lia.
Qed.

Lemma validateFunctions_Ok m f d mx t :
  length (FunctionSection m) = length (CodeSection m) -> validateFunctions m f d mx = Ok tt -> t ∈ FunctionSection m ->
  zlen (FunctionSection m) < 2 ^ 32 -> t < zlen (TypeSection m).
Proof.
  intros Hlen H Ht Hs. unfold validateFunctions in H. destruct (_ >? mx); [done|].
  change (SectionElementCount m SectionIDFunction) with (Ok (wrap32 (zlen (FunctionSection m)))) in H.
  change (SectionElementCount m SectionIDCode) with (Ok (wrap32 (zlen (CodeSection m)))) in H.
  change (SectionElementCount m SectionIDType) with (Ok (wrap32 (zlen (TypeSection m)))) in H. cbn [res_bind] in H.
  assert (zlen (FunctionSection m) > 0) by (destruct (FunctionSection m); [by apply not_elem_of_nil in Ht|rewrite zlen_cons; pose proof (zlen_nonneg l); lia]).
  rewrite wrap32_small in H by (unfold is_u32; lia). rewrite (proj2 (Z.eqb_neq (zlen (FunctionSection m)) 0)) in H by lia. cbn [andb] in H.
  destruct (negb _); [done|]. destruct (declaredFunctionIndexes _ _); [|done..]. cbn [res_bind] in H.
  apply list_elem_of_lookup_1 in Ht as [k Hk]. pose proof (range_Ok _ _ _ _ H Hk) as E. cbn beta in E.
  destruct (_ >=? _) eqn:Eg; [done|]. pose proof (wrap32_le _ (zlen_nonneg (TypeSection m))). lia.
Qed.

Lemma accepted_function m f d t :
  input_ok m -> (CodeSectionSet m = true -> validateFunctions m f d MaximumFunctionIndex = Ok tt) -> t ∈ FunctionSection m ->
  t < zlen (TypeSection m).
Proof.
  intros Hin H Ht. apply (validateFunctions_Ok m f d MaximumFunctionIndex t (in_codes m Hin)); [|done|apply (in_functionCount m Hin)].
  apply H, (in_codeSet m Hin). intros E. pose proof (in_codes m Hin) as Hl. rewrite E in Hl. destruct (FunctionSection m); [by apply not_elem_of_nil in Ht|done].
Qed.

Lemma accepted_start m s : validateStartSection m = Ok tt -> StartSection m = Some s ->
  exists ft, typeOfFunction m s = Ok (Some ft) /\ Params (theType ft) = [] /\ Results (theType ft) = [].
Proof.
  unfold validateStartSection. intros H Hs. rewrite Hs in H. destruct (typeOfFunction m s) as [[ft|]| |]; [|done..]. cbn in H.
  rewrite fail_Ok in H. bools. exists ft. split; [done|].
  split; [destruct (Params _)|destruct (Results _)]; try done; rewrite zlen_cons in *;
    match goal with l : list ValueType |- _ => pose proof (zlen_nonneg l) end; lia.
Qed.

(** ** Properties *)

(** C4: Decoding and validating return on every input: the decoder panics in
    [decodeCode] only, on a negative slice length; and the validation of a
    decoded module does not panic when its functions name types that exist, and when
    exception handling is off or no function has locals of a non-nullable type. *)
Theorem compile_total enabledFeatures memoryLimitPages memoryCapacityFromMax dwarfEnabled storeCustomSections binary :
  reader_ok binary ->
  match DecodeModule enabledFeatures memoryLimitPages memoryCapacityFromMax binary dwarfEnabled storeCustomSections with
  | Ok m =>
      (forall t, t ∈ FunctionSection m -> t < zlen (TypeSection m)) ->
      IsEnabled enabledFeatures CoreFeaturesExceptionHandling = false \/
        (forall c, c ∈ CodeSection m -> no_nonnull_locals (LocalTypes c)) ->
      no_panic (snd (Validate m enabledFeatures))
  | Err _ => True
  | Panic e => e = "makeslice: len out of range"
  end.
Proof.
  intros Hr. pose proof (DecodeModule_ok enabledFeatures memoryLimitPages memoryCapacityFromMax dwarfEnabled
    storeCustomSections binary Hr) as H.
  destruct (DecodeModule _ _ _ _ _ _) as [m|e|e]; [|done..]. destruct H as ([Hm Hl] & Hlen & _). intros Hf Hen.
  unfold Validate. cbn [snd]. apply validateSections_no_panic; [|intros t Ht; cbn; rewrite zlen_map; by apply Hf|done].
  eapply decoded_input; [done|by apply (mo_types _ _ _ Hm)|done].
Qed.

Lemma compile_total_witness :
  exists m, DecodeModule CoreFeaturesV2 65536 false identity_module false false = Ok m /\ no_panic (snd (Validate m CoreFeaturesV2)).
Proof.
  eexists. split; [vm_compute; reflexivity|].
  pose proof (compile_total CoreFeaturesV2 65536 false false false identity_module ltac:(by apply reader_ok_intro)) as H.
  vm_compute DecodeModule in H. apply H; [|by left]. intros t ->%list_elem_of_singleton. done.
Defined.

(** C20: The constant expressions of an accepted module can be evaluated in every
    instance whose globals have the declared types, or subtypes of them: the
    initial values of globals and tables, the offsets of active data and element
    segments and the values of element segments all give a value, of at least the
    one word that instantiation takes without looking for an error.  The offsets of
    passive and declarative segments are not among them: they are empty. *)
Theorem accepted_exprs_evaluate f lim capMax dwarf store binary m d inst fref :
  reader_ok binary -> decodeAndValidate f lim capMax dwarf store binary = Ok m ->
  AllDeclarations m = Ok d -> matches (d_globals d) inst ->
  let evaluates e := exists v, evaluateConstExprInModuleInstance e (zindex inst) fref = Ok v /\ v <> [] in
  (forall g, g ∈ GlobalSection m -> evaluates (GlobalInit g)) /\
  (forall t e, t ∈ TableSection m -> TableInitExpr t = Some e -> evaluates e) /\
  (forall s, s ∈ DataSection m -> Passive s = false -> evaluates (OffsetExpression s)) /\
  (forall s, s ∈ ElementSection m -> Forall evaluates (ElementInit s) /\
    (Mode s = ElementModeActive -> evaluates (OffsetExpr s))).
Proof.
  intros Hr Hok Hd Hi. apply decodeAndValidate_Ok in Hok as [Hin Hs]; [|done]. cbv zeta.
  destruct (validateSections_Ok _ _ Hs) as (d' & Hd' & _ & Htab & _ & Hglob & Hmem & _ & _ & _ & Hel & _).
  rewrite Hd in Hd'. injection Hd' as <-. destruct (importedGlobals_ok m Hin d Hd) as [l El].
  pose proof (matches_readable _ _ Hi) as Hread.
  assert (ImportGlobalCount m <= zlen (d_globals d)) as Hn by (unfold zprefix in El; destruct (_ <=? _) eqn:?; [bools; lia|done]).
  unfold validateTableInitExprs in Htab. unfold validateGlobals in Hglob. unfold validateMemory in Hmem. cbv zeta in Hmem.
  destruct (_ >? MaximumGlobals) in Hglob; [done|]. destruct (_ && _) in Hmem; [done|].
  rewrite El in Htab, Hglob, Hmem. cbn [res_bind] in *. split_and!.
  - intros g Hg. pose proof (in_globals m Hin g Hg). apply list_elem_of_lookup_1 in Hg as [k Hk].
    pose proof (range_Ok _ _ _ _ Hglob Hk) as E. cbn beta in E. by eapply (validated_expr m d (zindex inst) _ Hread Hn).
  - intros t e Ht He. pose proof (in_tables m Hin t e Ht He). apply list_elem_of_lookup_1 in Ht as [k Hk].
    pose proof (range_Ok _ _ _ _ Htab Hk) as E. cbn beta in E. rewrite He in E. destruct (fail _ _); [|done..]. cbn [res_bind] in E.
    apply errorf_Ok in E. by eapply (validated_expr m d (zindex inst) _ Hread Hn).
  - intros s Hs' Hp. pose proof (in_data m Hin s Hs' Hp). apply list_elem_of_lookup_1 in Hs' as [k Hk].
    pose proof (range_Ok _ _ _ _ Hmem Hk) as E. cbn beta in E. rewrite Hp in E. apply errorf_Ok in E. by eapply (validated_expr m d (zindex inst) _ Hread Hn).
  - intros s Hs'. destruct (validateTable_Ok _ _ _ _ _ Hel Hs') as (gc & fc & i & E). split.
    + apply Forall_forall. intros e He. by eapply (validated_inits m f Hin d Hd (zindex inst) _ Hread Hn fref (or_introl (Z.le_refl _))).
    + intros Hm. by eapply (validated_offset m f Hin d Hd (zindex inst) _ Hread Hn fref (or_introl (Z.le_refl _))).
Qed.

Definition section (id : Z) (contents : list Z) : list Z := id :: zlen contents :: contents.
Definition module_of (sections : list (list Z)) : list Z := Magic ++ version ++ concat sections.

(** An imported global that gives the initial value of another and the offset
    of a data segment, and a table with an active element segment. *)
Definition init_module : list Z := module_of
  [section 1 [1; 0x60; 0; 0]; section 2 [1; 1; 0x6d; 1; 0x67; 3; 0x7f; 0]; section 3 [1; 0]; section 4 [1; 0x70; 0; 1];
   section 5 [1; 0; 1]; section 6 [1; 0x7f; 0; 0x23; 0; 0x0b]; section 7 [1; 1; 0x66; 0; 0]; section 8 [0];
   section 9 [1; 0; 0x41; 0; 0x0b; 1; 0]; section 10 [1; 2; 0; 0x0b]; section 11 [1; 0; 0x23; 0; 0x0b; 1; 0x61]].

Lemma accepted_exprs_evaluate_witness :
  exists m d s, decodeAndValidate CoreFeaturesV2 65536 false false false init_module = Ok m /\ AllDeclarations m = Ok d /\
    DataSection m = [s] /\ matches (d_globals d) [(ValueTypeI32, 5, 0); (ValueTypeI32, 5, 0)] /\
    exists v, evaluateConstExprInModuleInstance (OffsetExpression s) (zindex [(ValueTypeI32, 5, 0); (ValueTypeI32, 5, 0)]) id = Ok v /\ v <> [].
Proof.
  eexists _, _, _. split; [vm_compute; reflexivity|]. split; [vm_compute; reflexivity|]. split; [cbn; reflexivity|].
  assert (matches [mkGlobalType ValueTypeI32 false; mkGlobalType ValueTypeI32 false] [(ValueTypeI32, 5, 0); (ValueTypeI32, 5, 0)]) as Hm
    by (repeat constructor; by left).
  split; [exact Hm|].
  refine (proj1 (proj2 (proj2 (accepted_exprs_evaluate CoreFeaturesV2 65536 false false false init_module _ _ _ id
    ltac:(by apply reader_ok_intro) ltac:(vm_compute; reflexivity) ltac:(vm_compute; reflexivity) Hm))) _ _ _);
    [by left|done].
Defined.

(** C33: The indices of a module that decoding and validation accept, from any bytes, are in range: each export is in its
    index space, each function has a type, the start function exists and takes
    and returns nothing, each active element segment has a table, imported
    functions have types, and the data count, if any, is that of the data section. *)
Theorem accepted_indices f lim capMax dwarf store binary m :
  reader_ok binary -> decodeAndValidate f lim capMax dwarf store binary = Ok m ->
  exists d, AllDeclarations m = Ok d /\
  (forall e, e ∈ ExportSection m -> ExportIndex e < index_space d (ExportType e)) /\
  (forall t, t ∈ FunctionSection m -> t < zlen (TypeSection m)) /\
  (forall s, StartSection m = Some s ->
    exists ft, typeOfFunction m s = Ok (Some ft) /\ Params (theType ft) = [] /\ Results (theType ft) = []) /\
  (forall e, e ∈ ElementSection m -> Mode e = ElementModeActive -> ElementTableIndex e < zlen (d_tables d)) /\
  (forall i, i ∈ ImportSection m -> ImportType i = ExternTypeFunc -> DescFunc i < zlen (TypeSection m)) /\
  (forall n, DataCountSection m = Some n -> n = zlen (DataSection m)).
Proof.
  intros Hr Hok. apply decodeAndValidate_Ok in Hok as [Hin Hs]; [|done].
  destruct (validateSections_Ok _ _ Hs) as (d & Hd & Hstart & _ & Himp & _ & _ & Hexp & _ & Hfun & Hel & Hcount).
  exists d. split; [done|]. split_and!.
  - intros e He. eapply validateExports_Ok; [done..|]. by apply (in_exports m Hin).
  - intros t Ht. by eapply accepted_function.
  - intros s. by apply accepted_start.
  - intros e He Hm. destruct (validateTable_Ok _ _ _ _ _ Hel He) as (gc & fc & i & E). unfold validateElement in E.
    rewrite Hm in E. destruct (range _ _); [|done..]. cbn [res_bind] in E. unfold validateActiveElement in E.
    destruct (_ <=? _) eqn:El; [done|]. bools. done.
  - intros i [k Hk]%list_elem_of_lookup_1 Ht. pose proof (range_Ok _ _ _ _ Himp Hk) as E. cbn beta zeta in E.
    destruct (String.eqb _ _); [done|]. rewrite Ht in E. cbn [Z.eqb ExternTypeFunc] in E. apply fail_Ok in E. lia.
  - intros n Hn. unfold validateDataCountSection in Hcount. rewrite Hn in Hcount. apply fail_Ok in Hcount. bools. done.
Qed.

Lemma accepted_indices_witness :
  exists m, decodeAndValidate CoreFeaturesV2 65536 false false false init_module = Ok m /\
    exists d, AllDeclarations m = Ok d /\ forall e, e ∈ ExportSection m -> ExportIndex e < index_space d (ExportType e).
Proof.
  eexists. split; [vm_compute; reflexivity|].
  destruct (accepted_indices CoreFeaturesV2 65536 false false false init_module _ ltac:(by apply reader_ok_intro)
    ltac:(vm_compute; reflexivity)) as (d & Hd & He & _). exists d. by split.
Defined.

(** A call to a function whose type index, out of range, is checked later. *)
Definition late_check : list Z := module_of
  [section 1 [1; 0x60; 0; 0]; section 3 [2; 0; 99]; section 10 [2; 4; 0; 0x10; 1; 0x0b; 2; 0; 0x0b]].

(** The type index of a function is checked just before its body, so that
    a body that calls a later function whose type index is out of range makes
    [Validate] panic instead of refusing the module, whatever the features. *)
Theorem validate_late_check :
  decodeAndValidate CoreFeaturesV2 65536 false false false late_check = Panic "index out of range" /\
  decodeAndValidate CoreFeaturesV1 65536 false false false late_check = Panic "index out of range".
Proof. by vm_compute. Qed.

(** A non-nullable global whose value is a null reference. *)
Definition null_global : list Z := module_of
  [section 1 [1; 0x60; 0; 0]; section 3 [1; 0]; section 6 [1; 0x64; 0; 0; 0xd0; 0x70; 0x0b]; section 10 [1; 2; 0; 0x0b]].
(** A function without parameters in a segment of functions that take an i32. *)
Definition wrong_element : list Z := module_of
  [section 1 [2; 0x60; 0; 0; 0x60; 1; 0x7f; 0]; section 3 [1; 0]; section 9 [1; 5; 0x64; 1; 1; 0xd2; 0; 0x0b];
   section 10 [1; 2; 0; 0x0b]].
(** Two imported memories. *)
Definition two_memories : list Z := module_of [section 2 [2; 1; 0x61; 1; 0x61; 2; 0; 1; 1; 0x61; 1; 0x62; 2; 0; 1]].

(** Three invalid modules are accepted.  A constant expression of type
    funcref is given the type of the function of the last ref.func or, without
    one, of function 0, so that a null reference is the value of a non-nullable
    global.  An element segment of a concrete type accepts every ref.func.
    And more than one imported memory is accepted. *)
Theorem validate_accepts_invalid :
  let F := Z.lor CoreFeaturesV2 CoreFeaturesTypedFunctionReferences in
  (exists m g, decodeAndValidate F 65536 false false false null_global = Ok m /\ GlobalSection m = [g] /\
    IsNullable (ValType (GlobalTypeOf g)) = false /\
    evaluateConstExprInModuleInstance (GlobalInit g) (zindex []) id = Ok [0]) /\
  (exists m e ft, decodeAndValidate F 65536 false false false wrong_element = Ok m /\ ElementSection m = [e] /\
    ElementInit e = [[OpcodeRefFunc; 0; OpcodeEnd]] /\ typeOfFunction m 0 = Ok (Some ft) /\
    ElementType e = ValueTypeConcreteRef 1 false /\ zlookup (TypeSection m) 1 <> Some ft) /\
  (exists m, decodeAndValidate CoreFeaturesV2 65536 false false false two_memories = Ok m /\ ImportMemoryCount m = 2).
Proof.
  split; [|split].
  - eexists _, _. split; [vm_compute; reflexivity|]. by split_and!.
  - eexists _, _, _. split; [vm_compute; reflexivity|]. by split_and!.
  - eexists. split; [vm_compute; reflexivity|]. done.
Qed.
