(* ===== verification/Instantiate.v ===== *)
(** * Instantiation (src/internal/wasm/store.go, table.go, module.go)

    An instance refers to its globals, tables, memory and tags by pointers,
    which instances share through imports.  [world] holds the objects of a
    store; a pointer is a [positive] and nil is [None].  A module is an object
    too: tags point to a type of the module that declares them, and types of
    two modules are compared by what the modules are.

    The operations are those of [Store.instantiate] in one goroutine: what
    they write stays when they fail, so the monad [M] keeps the world next to
    the outcome.  The references between instances are taken by
    [Execution.retainImport], names are looked up in the [ModuleList.mstore].
    The engine, a memory allocator, the resolver of imports and the guest code
    of a start function are parameters.  The instance that the deferred
    function closes when instantiation fails is closed as in [ModuleClose]. *)

From S2P Require Import Prelude Leb128 Features Opcodes Types ValStack ConstExpr TypeIDs Execution ModuleList.
From S2P Require Import Memory Binary ModuleValidate.

(** ** Objects *)

Record GlobalInstance := mkGlobalInstance {
  GlobalInstanceType : GlobalType; Val : Z; ValHi : Z;
  (** the instance whose engine keeps the value, and the index there *)
  Me : option positive; GlobalIndex : Z;
}.
Record TableInstance := mkTableInstance {
  References : list Z; TMin : Z; TMax : option Z; TType : ValueType;
  involvingModuleInstances : list positive;
}.
(** The module and the index of the type there. *)
Record TagInstance := mkTagInstance { TagType : positive * Z }.

Record ModuleInstance := mkModuleInstance {
  InstanceName : string;
  InstanceExports : gmap string Export;
  Globals : list (option positive);
  InstanceMemory : option positive;
  Tables : list (option positive);
  Tags : list (option positive);
  DataInstances : list (list Z);
  ElementInstances : list (list Z);
  Source : positive;
  willRunStartFunctions : bool;
}.

Record world := mkWorld {
  instances : gmap positive ModuleInstance;
  modules : gmap positive Module;
  globals : gmap positive GlobalInstance;
  tables : gmap positive TableInstance;
  memories : gmap positive MemoryInstance;
  tags : gmap positive TagInstance;
  graph : Heap;
  names : mstore;
  (** the calls of [ResolveImportedFunction]: the engine, its arguments and the imported engine *)
  imported : list (positive * Z * Z * Z * positive);
}.

Definition set_instances f w := mkWorld (f (instances w)) (modules w) (globals w) (tables w) (memories w) (tags w) (graph w) (names w) (imported w).
Definition set_globals f w := mkWorld (instances w) (modules w) (f (globals w)) (tables w) (memories w) (tags w) (graph w) (names w) (imported w).
Definition set_tables f w := mkWorld (instances w) (modules w) (globals w) (f (tables w)) (memories w) (tags w) (graph w) (names w) (imported w).
Definition set_memories f w := mkWorld (instances w) (modules w) (globals w) (tables w) (f (memories w)) (tags w) (graph w) (names w) (imported w).
Definition set_tags f w := mkWorld (instances w) (modules w) (globals w) (tables w) (memories w) (f (tags w)) (graph w) (names w) (imported w).
Definition set_graph g w := mkWorld (instances w) (modules w) (globals w) (tables w) (memories w) (tags w) g (names w) (imported w).
Definition set_names n w := mkWorld (instances w) (modules w) (globals w) (tables w) (memories w) (tags w) (graph w) n (imported w).
Definition set_imported f w := mkWorld (instances w) (modules w) (globals w) (tables w) (memories w) (tags w) (graph w) (names w) (f (imported w)).

Definition set_Globals l i := mkModuleInstance (InstanceName i) (InstanceExports i) l (InstanceMemory i) (Tables i) (Tags i) (DataInstances i) (ElementInstances i) (Source i) (willRunStartFunctions i).
Definition set_Memory p i := mkModuleInstance (InstanceName i) (InstanceExports i) (Globals i) p (Tables i) (Tags i) (DataInstances i) (ElementInstances i) (Source i) (willRunStartFunctions i).
Definition set_Tables l i := mkModuleInstance (InstanceName i) (InstanceExports i) (Globals i) (InstanceMemory i) l (Tags i) (DataInstances i) (ElementInstances i) (Source i) (willRunStartFunctions i).
Definition set_Tags l i := mkModuleInstance (InstanceName i) (InstanceExports i) (Globals i) (InstanceMemory i) (Tables i) l (DataInstances i) (ElementInstances i) (Source i) (willRunStartFunctions i).
Definition set_DataInstances l i := mkModuleInstance (InstanceName i) (InstanceExports i) (Globals i) (InstanceMemory i) (Tables i) (Tags i) l (ElementInstances i) (Source i) (willRunStartFunctions i).
Definition set_ElementInstances l i := mkModuleInstance (InstanceName i) (InstanceExports i) (Globals i) (InstanceMemory i) (Tables i) (Tags i) (DataInstances i) l (Source i) (willRunStartFunctions i).
Definition set_InstanceExports e i := mkModuleInstance (InstanceName i) e (Globals i) (InstanceMemory i) (Tables i) (Tags i) (DataInstances i) (ElementInstances i) (Source i) (willRunStartFunctions i).
Definition set_References l t := mkTableInstance l (TMin t) (TMax t) (TType t) (involvingModuleInstances t).
Definition set_involving l t := mkTableInstance (References t) (TMin t) (TMax t) (TType t) l.

(** ** The monad *)

Definition M (A : Type) : Type := world -> world * res A.

#[global] Instance M_ret : MRet M := fun A a w => (w, Ok a).
#[global] Instance M_bind : MBind M := fun A B k m w =>
  let (w, r) := m w in
  match r with
  | Ok a => k a w
  | Err e => (w, Err e)
  | Panic e => (w, Panic e)
  end.

Definition liftM {A} (r : res A) : M A := fun w => (w, r).
Definition failM {A} (msg : string) : M A := liftM (Err msg).
Definition guardM (b : bool) (msg : string) : M unit := if b then mret tt else failM msg.
Definition readM {A} (f : world -> res A) : M A := fun w => (w, f w).
Definition modifyM (f : world -> world) : M unit := fun w => (f w, Ok tt).

(** Access through a pointer that may be nil. *)
Definition derefOpt {A} (h : gmap positive A) (p : option positive) : res A :=
  match p with Some p => deref h p | None => Panic "nil pointer dereference" end.
(** [l[i] = a] *)
Definition zset {A} (l : list A) (i : Z) (a : A) : res (list A) :=
  if (0 <=? i) && (i <? zlen l) then Ok (<[Z.to_nat i := a]> l) else Panic "index out of range".
(** A pointer that is not in use: what [&T{}] returns. *)
Definition newPtr {A} (h : gmap positive A) : positive := map_fold (fun k _ p => Pos.max (Pos.succ k) p) 1%positive h.

(** [for i := range l { ... }] *)
Fixpoint forM {A} (f : Z -> A -> M unit) (i : Z) (l : list A) : M unit :=
  match l with
  | [] => mret tt
  | a :: l' => _ ← f i a; forM f (i + 1) l'
  end.

Definition instanceOf (p : positive) : M ModuleInstance := readM (fun w => deref (instances w) p).
Definition moduleOf (p : positive) : M Module := readM (fun w => deref (modules w) p).
Definition updateInstance (p : positive) (f : ModuleInstance -> ModuleInstance) : M unit :=
  i ← instanceOf p; modifyM (set_instances (insert p (f i))).

(** ** Tables *)

Fixpoint fillLoop (fuel : nat) (i : Z) (region : list Z) : res (list Z) :=
  if i >=? zlen region then Ok region
  else match fuel with
  | O => Panic "fill: loop bound"
  | S fuel' =>
      let! region := copyAt region i (take (Z.to_nat i) region) in
      fillLoop fuel' (i * 2) region
  end.

(** [TableInstance.Grow]: the table and the previous length, or [0xffffffff]. *)
Definition TableGrow (t : TableInstance) (delta initialRef : Z) : res (TableInstance * Z) :=
  let currentLen := wrap32 (zlen (References t)) in
  if delta =? 0 then Ok (t, currentLen)
  else
    let newLen := currentLen + delta in
    if (newLen >=? MaximumTableIndex) || (match TMax t with Some mx => newLen >? mx | None => false end)
    then Ok (t, 0xffffffff)
    else
      let references := References t ++ zeros delta in
      if initialRef =? 0 then Ok (set_References references t, currentLen)
      else
        let! newRegion := zslice references currentLen in
        let! newRegion := zset newRegion 0 initialRef in
        let! newRegion := fillLoop (length newRegion) 1 newRegion in
        Ok (set_References (take (Z.to_nat currentLen) references ++ newRegion) t, currentLen).

(** ** Imports *)

Definition getExport (m : ModuleInstance) (name : string) (et : Z) : res Export :=
  match InstanceExports m !! name with
  | None => Err (quoted name +:+ " is not exported in module " +:+ quoted (InstanceName m))
  | Some exp =>
      if negb (ExportType exp =? et) then
        Err ("export " +:+ quoted name +:+ " in module " +:+ quoted (InstanceName m) +:+ " is a " +:+
             ExternTypeName (ExportType exp) +:+ ", not a " +:+ ExternTypeName et)
      else Ok exp
  end.

Definition errorInvalidImport (i : Import) (err : string) : string :=
  "import " +:+ ExternTypeName (ImportType i) +:+ "[" +:+ ImportModule i +:+ "." +:+ ImportName i +:+ "]: " +:+ err.
Definition errorMinSizeMismatch (i : Import) : string := errorInvalidImport i "minimum size mismatch".
Definition errorNoMax (i : Import) : string := errorInvalidImport i "maximum size mismatch, but actual has no max".
Definition errorMaxSizeMismatch (i : Import) : string := errorInvalidImport i "maximum size mismatch".

(** The type as [%s] prints it, [nil] included. *)
Definition typeString (ft : option cachedType) : string :=
  match ft with Some ft => fst (key ft) | None => "<nil>" end.

(** The module that imports, with its object, and the one that exports. *)
Section ImportMatch.
Context (self module src : positive) (importing exporting : Module).

(** [module == src], the fast path of equal types. *)
Definition sameModule : bool := bool_decide (module = src).

Fixpoint typesMatch (xs ys : list ValueType) : res bool :=
  match xs, ys with
  | x :: xs', y :: ys' =>
      let! b := valueTypesEquivalentAcrossModules (view importing) (view exporting) sameModule x y in
      if b then typesMatch xs' ys' else Ok false
  | _, _ => Ok true
  end.

Definition signatureMatches (expected : cachedType) (actual : option cachedType) : res bool :=
  match actual with
  | None => Ok false
  | Some actual =>
      let e := theType expected in let a := theType actual in
      if negb ((zlen (Params a) =? zlen (Params e)) && (zlen (Results a) =? zlen (Results e))) then Ok false
      else
        let! b := typesMatch (Params e) (Params a) in
        if b then typesMatch (Results e) (Results a) else Ok false
  end.

Definition resolveFunction (importedModule : positive) (i : Import) (exp : Export) : M unit :=
  expectedType ← liftM (zindex (TypeSection importing) (DescFunc i));
  actual ← liftM (typeOfFunction exporting (ExportIndex exp));
  matched ← liftM (signatureMatches expectedType actual);
  _ ← guardM matched (errorInvalidImport i ("signature mismatch: " +:+ fst (key expectedType) +:+ " != " +:+ typeString actual));
  modifyM (set_imported (fun l => l ++ [(self, IndexPerType i, DescFunc i, ExportIndex exp, importedModule)])).

Definition retain (m importedModule : positive) : M bool := fun w =>
  match Execution.retainImport (graph w) m importedModule with
  | Ok (h, b) => (set_graph h w, Ok b)
  | Err e => (w, Err e)
  | Panic e => (w, Panic e)
  end.

Definition resolveTable (importedModule : positive) (inst : ModuleInstance) (i : Import) (exp : Export) : M unit :=
  let expected := DescTable i in
  p ← liftM (zindex (Tables inst) (ExportIndex exp));
  importedTable ← readM (fun w => derefOpt (tables w) p);
  equiv ← liftM (valueTypesEquivalentAcrossModules (view importing) (view exporting) sameModule
                   (TableRefType expected) (TType importedTable));
  _ ← guardM equiv (errorInvalidImport i ("table type mismatch: " +:+ RefTypeName (TableRefType expected) +:+ " != " +:+ RefTypeName (TType importedTable)));
  _ ← guardM (negb (TableMin expected >? zlen (References importedTable))) (errorMinSizeMismatch i);
  _ ← (match TableMax expected, TMax importedTable with
       | None, _ => mret tt
       | Some _, None => failM (errorNoMax i)
       | Some expectedMax, Some mx => guardM (negb (expectedMax <? mx)) (errorMaxSizeMismatch i)
       end);
  me ← instanceOf self;
  ts ← liftM (zset (Tables me) (IndexPerType i) p);
  _ ← updateInstance self (set_Tables ts);
  _ ← retain importedModule self;
  t ← readM (fun w => derefOpt (tables w) p);
  _ ← liftM (if bool_decide (involvingModuleInstances t = [])
             then Panic "BUG: involvingModuleInstances must not be nil when it's imported" else Ok tt);
  match p with
  | Some p => modifyM (set_tables (insert p (set_involving (involvingModuleInstances t ++ [self]) t)))
  | None => mret tt
  end.

Definition resolveMemory (inst : ModuleInstance) (i : Import) : M unit :=
  expected ← liftM (match DescMem i with Some m => Ok m | None => Panic "nil pointer dereference" end);
  importedMemory ← readM (fun w => derefOpt (memories w) (InstanceMemory inst));
  _ ← guardM (negb (MemMin expected >? memoryBytesNumToPages (zlen (Buffer importedMemory)))) (errorMinSizeMismatch i);
  _ ← guardM (negb (MemMax expected <? Max importedMemory)) (errorMaxSizeMismatch i);
  _ ← guardM (Bool.eqb (IsShared expected) (Shared importedMemory)) (errorInvalidImport i "shared mismatch");
  _ ← updateInstance self (set_Memory (InstanceMemory inst));
  modifyM (fun w => set_graph (alter (set_instanceMemory (InstanceMemory inst)) self (graph w)) w).

Definition resolveGlobal (inst : ModuleInstance) (i : Import) (exp : Export) : M unit :=
  let expected := DescGlobal i in
  p ← liftM (zindex (Globals inst) (ExportIndex exp));
  importedGlobal ← readM (fun w => derefOpt (globals w) p);
  let actual := GlobalInstanceType importedGlobal in
  _ ← guardM (Bool.eqb (Mutable expected) (Mutable actual)) (errorInvalidImport i "mutability mismatch");
  ok ← liftM (if Mutable expected
              then valueTypesEquivalentAcrossModules (view importing) (view exporting) sameModule (ValType expected) (ValType actual)
              else isRefSubtypeOfAcrossModules (view exporting) (view importing) sameModule (ValType actual) (ValType expected));
  _ ← guardM ok (errorInvalidImport i ("value type mismatch: " +:+ ValueTypeName (ValType expected) +:+ " != " +:+ ValueTypeName (ValType actual)));
  me ← instanceOf self;
  gs ← liftM (zset (Globals me) (IndexPerType i) p);
  updateInstance self (set_Globals gs).

(** The index of a type of the exporter that is the type of the tag; pointers are compared. *)
Definition exporterTypeIdx (t : positive * Z) : option Z :=
  if bool_decide (fst t = src) && between 0 (snd t) (zlen (TypeSection exporting) - 1) then Some (snd t) else None.

Definition resolveTag (inst : ModuleInstance) (i : Import) (exp : Export) : M unit :=
  expected ← liftM (zindex (TypeSection importing) (DescTag i));
  p ← liftM (zindex (Tags inst) (ExportIndex exp));
  importedTag ← readM (fun w => derefOpt (tags w) p);
  equiv ← liftM (match exporterTypeIdx (TagType importedTag) with
                 | None => Ok false
                 | Some j => structurallyEquivalentTypesAcrossModules (types importing) (types exporting) sameModule (DescTag i) j
                 end);
  _ ← (if (equiv : bool) then mret tt
       else
         actual ← readM (fun w => let! m := deref (modules w) (fst (TagType importedTag)) in
                                  zindex (TypeSection m) (snd (TagType importedTag)));
         failM (errorInvalidImport i ("tag type mismatch: " +:+ fst (key expected) +:+ " != " +:+ fst (key actual))));
  me ← instanceOf self;
  ts ← liftM (zset (Tags me) (IndexPerType i) p);
  updateInstance self (set_Tags ts).

Definition resolveImport (importedModule : positive) (i : Import) : M unit :=
  inst ← instanceOf importedModule;
  exp ← liftM (getExport inst (ImportName i) (ImportType i));
  if ImportType i =? ExternTypeFunc then resolveFunction importedModule i exp
  else if ImportType i =? ExternTypeTable then resolveTable importedModule inst i exp
  else if ImportType i =? ExternTypeMemory then resolveMemory inst i
  else if ImportType i =? ExternTypeGlobal then resolveGlobal inst i exp
  else if ImportType i =? ExternTypeTag then resolveTag inst i exp
  else mret tt.

End ImportMatch.

(** What the import resolver of the context returns: nil, a module of another
    kind, or an instance. *)
Inductive resolution := ResolvedNil | ResolvedOther | Resolved (p : positive).

Section Instantiation.
Context (resolver : option (string -> resolution)).
(** The interface of an engine. *)
Context (NewModuleEngine : positive -> res unit) (FunctionInstanceReference : positive -> Z -> Z) (OwnsGlobals : bool).
Context (allocator : option (Z -> Z -> LinearMemory)).
(** [PreappliedDataFor] of a memory that has it. *)
Context (preapplied : positive -> option (positive -> bool)).
(** The call of a start function: nil or an error, and whether that is an exit error. *)
Context (startCall : positive -> Z -> M (option (string * bool))).

Definition findModule (moduleName : string) : M positive :=
  let fromStore := readM (fun w => ModuleList.module (names w) moduleName) in
  match resolver with
  | None => fromStore
  | Some resolveImport =>
      match resolveImport moduleName with
      | ResolvedNil => fromStore
      | ResolvedOther => failM ("import resolver for module[" +:+ moduleName +:+ "] returned an unsupported module type")
      | Resolved mi =>
          i ← readM (fun w => deref (graph w) mi);
          if Execution.Closed i then failM ("import resolver for module[" +:+ moduleName +:+ "] returned a closed module")
          else mret mi
      end
  end.

(** The imports from one module. *)
Definition resolveModule (self module : positive) (importing : Module) (moduleName : string) : M unit :=
  importedModule ← findModule moduleName;
  ok ← retain self importedModule;
  _ ← guardM ok ("module[" +:+ moduleName +:+ "] is closed");
  inst ← instanceOf importedModule;
  exporting ← moduleOf (Source inst);
  forM (fun _ k =>
    match ImportSection importing !! k with
    | Some i => resolveImport self module (Source inst) importing exporting importedModule i
    | None => mret tt
    end) 0 (default [] (ImportPerModule importing !! moduleName)).

(** [order]: the keys of [ImportPerModule] in the order of the iteration. *)
Definition resolveImports (order : list string) (self module : positive) (importing : Module) : M unit :=
  forM (fun _ moduleName => resolveModule self module importing moduleName) 0 order.

(** ** The objects of the instance *)

Definition readGlobal (w : world) (inst : ModuleInstance) (globalIndex : Z) : res (ValueType * Z * Z) :=
  let! p := zindex (Globals inst) globalIndex in
  let! g := derefOpt (globals w) p in
  Ok (ValType (GlobalInstanceType g), Val g, ValHi g).

(** [evaluateConstExprInModuleInstance(e, m)] *)
Definition evaluate (self : positive) (e : list Z) : M (list Z) :=
  inst ← instanceOf self;
  readM (fun w => evaluateConstExprInModuleInstance e (readGlobal w inst) (FunctionInstanceReference self)).

(** [evaluateConstExprInModuleInstance(e, m)[0]] *)
Definition evaluateFirst (self : positive) (e : list Z) : M Z :=
  v ← evaluate self e; liftM (zindex v 0).

Definition buildTable (self module : positive) (idx : Z) (tsec : Table) : M unit :=
  refs ← (match TableInitExpr tsec with
          | None => mret (zeros (TableMin tsec))
          | Some e =>
              initVals ← evaluate self e;
              match initVals with
              | v :: _ => mret (if v =? 0 then zeros (TableMin tsec) else replicate (Z.to_nat (TableMin tsec)) v)
              | [] => mret (zeros (TableMin tsec))
              end
          end);
  inst ← instanceOf self;
  t ← readM (fun w => Ok (newPtr (tables w)));
  _ ← modifyM (set_tables (insert t (mkTableInstance refs (TableMin tsec) (TableMax tsec) (TableRefType tsec) [])));
  ts ← liftM (zset (Tables inst) idx (Some t));
  updateInstance self (set_Tables ts).

Definition checkElement (self : positive) (elem : ElementSegment) : M unit :=
  inst ← instanceOf self;
  p ← liftM (zindex (Tables inst) (ElementTableIndex elem));
  v ← evaluateFirst self (OffsetExpr elem);
  table ← readM (fun w => derefOpt (tables w) p);
  liftM (checkSegmentBounds (TMin table) (wrap64 (wrap32 v + zlen (ElementInit elem)))).

Definition buildTables (self module : positive) (m : Module) (skipBoundCheck : bool) : M unit :=
  _ ← forM (fun i tsec => buildTable self module (ImportTableCount m + i) tsec) 0 (TableSection m);
  if skipBoundCheck then mret tt
  else forM (fun _ elem => checkElement self elem) 0 (ElementSection m).

(** [GlobalInstance.initialize]: the words of the value. *)
Definition initialize (self : positive) (importedGlobals : list (option positive)) (expr : list Z) : M (Z * Z) :=
  readM (fun w =>
    match evaluateConstExpr
            (fun globalIndex =>
              let! p := zindex importedGlobals globalIndex in
              let! g := derefOpt (globals w) p in
              Ok (ValType (GlobalInstanceType g), Val g, ValHi g))
            (fun funcIndex => Ok (FunctionInstanceReference self funcIndex)) expr with
    | Ok ([v], _) => Ok (v, 0)
    | Ok ([lo; hi], _) => Ok (lo, hi)
    | Ok _ | Err _ => Ok (0, 0)
    | Panic e => Panic e
    end).

Definition buildGlobal (self : positive) (importedGlobals : list (option positive)) (importGlobalCount i : Z) (gs : Global) : M unit :=
  inst ← instanceOf self;
  let index := wrap32 (i + importGlobalCount) in
  g ← readM (fun w => Ok (newPtr (globals w)));
  ps ← liftM (zset (Globals inst) index (Some g));
  _ ← updateInstance self (set_Globals ps);
  '(lo, hi) ← initialize self importedGlobals (GlobalInit gs);
  modifyM (set_globals (insert g (mkGlobalInstance (GlobalTypeOf gs) lo hi
    (if OwnsGlobals then Some self else None) (if OwnsGlobals then index else 0)))).

Definition buildGlobals (self : positive) (m : Module) : M unit :=
  inst ← instanceOf self;
  importedGlobals ← liftM (zprefix (Globals inst) (ImportGlobalCount m));
  forM (fun i gs => buildGlobal self importedGlobals (ImportGlobalCount m) i gs) 0 (GlobalSection m).

Definition buildTag (self module : positive) (m : Module) (i tag : Z) : M unit :=
  _ ← liftM (zindex (TypeSection m) tag);
  inst ← instanceOf self;
  t ← readM (fun w => Ok (newPtr (tags w)));
  _ ← modifyM (set_tags (insert t (mkTagInstance (module, tag))));
  ts ← liftM (zset (Tags inst) (i + ImportTagCount m) (Some t));
  updateInstance self (set_Tags ts).

Definition buildTags (self module : positive) (m : Module) : M unit :=
  forM (fun i tag => buildTag self module m i tag) 0 (TagSection m).

Definition buildMemory (self : positive) (m : Module) : M unit :=
  match MemorySection m with
  | None => mret tt
  | Some memSec =>
      mem ← liftM (NewMemoryInstance memSec allocator);
      p ← readM (fun w => Ok (newPtr (memories w)));
      _ ← modifyM (set_memories (insert p mem));
      _ ← updateInstance self (set_Memory (Some p));
      modifyM (fun w => set_graph (alter (set_instanceMemory (Some p)) self (graph w)) w)
  end.

(** [module.Exports], whose pointers are positions of the export section. *)
Definition moduleExports (m : Module) : gmap string Export := omap (fun k => ExportSection m !! k) (Exports m).

Definition exportTable (self : positive) (exp : Export) : M unit :=
  if ExportType exp =? ExternTypeTable then
    inst ← instanceOf self;
    p ← liftM (zindex (Tables inst) (ExportIndex exp));
    t ← readM (fun w => derefOpt (tables w) p);
    match p with
    | Some p => modifyM (set_tables (insert p (set_involving (involvingModuleInstances t ++ [self]) t)))
    | None => mret tt
    end
  else mret tt.

Definition publishExports (self : positive) (m : Module) : M unit :=
  _ ← updateInstance self (set_InstanceExports (moduleExports m));
  forM (fun _ e => exportTable self e.2) 0 (map_to_list (moduleExports m)).

(** ** Segments *)

#[global] Instance ElementMode_eq : EqDecision ElementMode.
Proof. solve_decision. Defined.

(** The callback of [validateData], which checks the index. *)
Definition dataGlobal (w : world) (inst : ModuleInstance) (globalIndex : Z) : res (ValueType * Z * Z) :=
  if globalIndex >=? wrap32 (zlen (Globals inst)) then Err "global index out of range" else readGlobal w inst globalIndex.

Definition validateDataSegment (self : positive) (d : DataSegment) : M unit :=
  if Passive d then mret tt
  else
    inst ← instanceOf self;
    '(results, typ) ← readM (fun w => errorf (SectionIDName SectionIDData +:+ "[] failed to evaluate offset expression")
       (evaluateConstExpr (dataGlobal w inst) (fun i => Ok (FunctionInstanceReference self i)) (OffsetExpression d)));
    _ ← guardM (typ =? ValueTypeI32) (SectionIDName SectionIDData +:+ "[] offset expression must return i32 but was " +:+ ValueTypeName typ);
    v ← liftM (zindex results 0);
    let offset := sgn64 v in
    mem ← readM (fun w => derefOpt (memories w) (InstanceMemory inst));
    guardM (negb ((offset <? 0) || (sgn64 (offset + zlen (DataInit d)) >? zlen (Buffer mem))))
      (SectionIDName SectionIDData +:+ "[]: out of bounds memory access").

Definition validateData (self : positive) (data : list DataSegment) : M unit :=
  forM (fun _ d => validateDataSegment self d) 0 data.

Fixpoint evaluateInits (self : positive) (inits : list (list Z)) : M (list Z) :=
  match inits with
  | [] => mret []
  | e :: inits' => v ← evaluateFirst self e; l ← evaluateInits self inits'; mret (v :: l)
  end.

Definition buildElementInstance (self : positive) (i : Z) (elm : ElementSegment) : M unit :=
  if (Kind (ElementType elm) =? Kind ValueTypeFuncref) && bool_decide (Mode elm = ElementModePassive) then
    l ← evaluateInits self (ElementInit elm);
    inst ← instanceOf self;
    es ← liftM (zset (ElementInstances inst) i l);
    updateInstance self (set_ElementInstances es)
  else mret tt.

Definition buildElementInstances (self : positive) (elements : list ElementSegment) : M unit :=
  _ ← updateInstance self (set_ElementInstances (replicate (length elements) []));
  forM (fun i elm => buildElementInstance self i elm) 0 elements.

(** [references[offset+uint32(i)] = v] in the table [p]. *)
Definition setReference (p : positive) (index v : Z) : M unit :=
  t ← readM (fun w => deref (tables w) p);
  refs ← liftM (zset (References t) index v);
  modifyM (set_tables (insert p (set_References refs t))).

(** Whether the loop goes on: an offset out of bounds ends it. *)
Definition applyElement (self : positive) (elem : ElementSegment) : M bool :=
  if negb (bool_decide (Mode elem = ElementModeActive)) || (zlen (ElementInit elem) =? 0) then mret true
  else
    v ← evaluateFirst self (OffsetExpr elem);
    let offset := wrap32 v in
    inst ← instanceOf self;
    p ← liftM (zindex (Tables inst) (ElementTableIndex elem));
    table ← readM (fun w => derefOpt (tables w) p);
    match p with
    | None => mret true
    | Some p =>
        if offset + zlen (ElementInit elem) >? zlen (References table) then mret false
        else
          _ ← forM (fun i init =>
                      v ← (if TType table =? ValueTypeExternref then mret 0 else evaluateFirst self init);
                      setReference p (wrap32 (offset + i)) v) 0 (ElementInit elem);
          mret true
    end.

Fixpoint applyElements (self : positive) (elems : list ElementSegment) : M unit :=
  match elems with
  | [] => mret tt
  | elem :: elems' => goOn ← applyElement self elem; if (goOn : bool) then applyElements self elems' else mret tt
  end.

Fixpoint hasImportDependentDataOffsets (data : list DataSegment) : res bool :=
  match data with
  | [] => Ok false
  | d :: data' =>
      if Passive d then hasImportDependentDataOffsets data'
      else let! b := constExprReferencesGlobal (OffsetExpression d) in
           if b then Ok true else hasImportDependentDataOffsets data'
  end.

Definition applyDataSegment (self : positive) (skipCopy : bool) (i : Z) (d : DataSegment) : M unit :=
  inst ← instanceOf self;
  ds ← liftM (zset (DataInstances inst) i (DataInit d));
  _ ← updateInstance self (set_DataInstances ds);
  if Passive d then mret tt
  else
    v ← evaluateFirst self (OffsetExpression d);
    let offset := sgn64 v in
    mem ← readM (fun w => derefOpt (memories w) (InstanceMemory inst));
    _ ← guardM (negb ((offset <? 0) || (sgn64 (offset + zlen (DataInit d)) >? zlen (Buffer mem))))
          (SectionIDName SectionIDData +:+ "[]: out of bounds memory access");
    if (skipCopy : bool) then mret tt
    else
      b ← liftM (copyAt (Buffer mem) offset (DataInit d));
      match InstanceMemory inst with
      | Some p => modifyM (set_memories (insert p (set_Buffer b mem)))
      | None => mret tt
      end.

(** Whether the copies are skipped; a memory image that is refused is cleared. *)
Definition preappliedData (self : positive) (m : Module) (data : list DataSegment) : M bool :=
  inst ← instanceOf self;
  match InstanceMemory inst with
  | None => mret false
  | Some p =>
      mem ← readM (fun w => deref (memories w) p);
      if bool_decide (is_Some (expBuffer mem)) && negb (Shared mem) && (ImportMemoryCount m =? 0) then
        match preapplied p with
        | None => mret false
        | Some preappliedDataFor =>
            dependent ← liftM (hasImportDependentDataOffsets data);
            if negb dependent && bool_decide (StartSection m = None)
               && negb (willRunStartFunctions inst) && preappliedDataFor (Source inst) then mret true
            else _ ← modifyM (set_memories (insert p (set_Buffer (zeros (zlen (Buffer mem))) mem))); mret false
        end
      else mret false
  end.

Definition applyData (self : positive) (m : Module) (data : list DataSegment) : M unit :=
  _ ← updateInstance self (set_DataInstances (replicate (length data) []));
  skipCopy ← preappliedData self m data;
  forM (fun i d => applyDataSegment self skipCopy i d) 0 data.

(** ** instantiate *)

(** The pointer that the next instance gets. *)
Definition newInstancePtr (w : world) : positive := Pos.max (newPtr (instances w)) (newPtr (graph w)).

(** The new instance and its node in the graph of imports. *)
Definition newInstance (name : string) (module : positive) (m : Module) (willRun : bool) : M positive :=
  self ← readM (fun w => Ok (newInstancePtr w));
  _ ← modifyM (fun w =>
        set_graph (<[self := mkInstance false false false ∅ [] None]> (graph w))
          (set_instances (insert self (mkModuleInstance name ∅
             (replicate (Z.to_nat (ImportGlobalCount m + zlen (GlobalSection m))) None) None
             (replicate (Z.to_nat (ImportTableCount m + zlen (TableSection m))) None)
             (replicate (Z.to_nat (ImportTagCount m + zlen (TagSection m))) None) [] [] module willRun)) w));
  mret self.

(** Everything up to the start function. *)
Definition build (order : list string) (enabledFeatures : CoreFeatures) (self module : positive) (m : Module) : M unit :=
  _ ← liftM (NewModuleEngine module);
  _ ← resolveImports order self module m;
  _ ← buildTables self module m (IsEnabled enabledFeatures CoreFeatureReferenceTypes);
  _ ← buildGlobals self m;
  _ ← buildTags self module m;
  _ ← buildMemory self m;
  _ ← publishExports self m;
  _ ← (if negb (IsEnabled enabledFeatures CoreFeatureReferenceTypes) then validateData self (DataSection m) else mret tt);
  _ ← buildElementInstances self (ElementSection m);
  _ ← applyElements self (ElementSection m);
  applyData self m (DataSection m).

Definition runStart (self : positive) (m : Module) : M unit :=
  match StartSection m with
  | None => mret tt
  | Some funcIdx =>
      err ← startCall self funcIdx;
      match err with
      | None => mret tt
      | Some (e, true) => failM e
      | Some (e, false) => failM ("start " +:+ funcDesc m SectionIDFunction funcIdx +:+ " failed: " +:+ e)
      end
  end.

Definition instantiate (order : list string) (enabledFeatures : CoreFeatures) (module : positive) (name : string) (willRun : bool)
    : M positive :=
  m ← moduleOf module;
  self ← newInstance name module m willRun;
  _ ← build order enabledFeatures self module m;
  _ ← runStart self m;
  mret self.

End Instantiation.
