(* ===== verification/InstantiateSafe.v ===== *)
(** * Instantiation is typed and returns

    [world_ok] says that every object that an instance exports exists.  The
    rules [post_*] follow an operation of [Instantiate] through the world: it does not
    panic, keeps the invariant [inv] of the instance under construction, and
    only adds to what the world holds ([grows]).  An instance that is built has
    the globals, tables, memory and tags that its module declares. *)

From S2P Require Import Prelude Leb128 Features Opcodes Types ValStack ConstExpr TypeIDs Execution ModuleList.
From S2P Require Import Memory Binary BinaryWf ModuleValidate ModuleValidateSafe Instantiate.

(** ** Lists and pointers *)

Lemma newPtr_fresh {A} (h : gmap positive A) k : is_Some (h !! k) -> (k < newPtr h)%positive.
Proof.
  unfold newPtr. apply (map_fold_weak_ind (fun p h => is_Some (h !! k) -> (k < p)%positive)).
  - intros [? H]. by rewrite lookup_empty in H.
  - intros j a h' p _ IH [b Hb]. destruct (decide (j = k)) as [->|Hne]; [lia|].
    rewrite lookup_insert_ne in Hb by done. specialize (IH (ex_intro _ b Hb)). lia.
Qed.

Lemma newPtr_None {A} (h : gmap positive A) : h !! newPtr h = None.
Proof. destruct (h !! newPtr h) eqn:E; [|done]. pose proof (newPtr_fresh h (newPtr h) (ex_intro _ _ E)). lia. Qed.

Lemma zset_in {A} (l : list A) i a : 0 <= i < zlen l -> zset l i a = Ok (<[Z.to_nat i := a]> l).
Proof. intros Hi. unfold zset. by rewrite (proj2 (Z.leb_le _ _)), (proj2 (Z.ltb_lt _ _)) by lia. Qed.

Lemma zlookup_list_insert {A} (l : list A) i k a : 0 <= i < zlen l ->
  zlookup (<[Z.to_nat i := a]> l) k = if k =? i then Some a else zlookup l k.
Proof.
  intros Hi. unfold zlookup, zlen in *. destruct (Z.leb_spec 0 k), (Z.eqb_spec k i) as [->|]; try done; try lia.
  - apply list_lookup_insert_eq. lia.
  - apply list_lookup_insert_ne. lia.
Qed.

(** ** Growing a table *)

(** The references that are copied in rounds of doubled length. *)
Lemma fillLoop_replicate v fuel : forall i r,
  1 <= i -> (length r <= fuel + Z.to_nat i)%nat -> Forall (eq v) (take (Z.to_nat i) r) ->
  fillLoop fuel i r = Ok (replicate (length r) v).
Proof.
  induction fuel as [|fuel IH]; intros i r Hi Hl Hv; cbn [fillLoop];
    (destruct (i >=? zlen r) eqn:E; bools; [|unfold zlen in *; try lia]).
  1,2: f_equal; rewrite take_ge in Hv by (unfold zlen in *; lia); symmetry; by apply replicate_as_Forall.
  unfold copyAt. rewrite zslice_in by (unfold zlen; lia). cbn [res_bind].
  set (n := Nat.min _ _). set (r' := _ ++ _).
  assert (length r' = length r) as El.
  { unfold r', n. rewrite !length_app, ?length_take, ?length_drop, ?length_take. lia. }
  rewrite <- El. apply IH; [lia|rewrite El; lia|].
  assert (Forall (eq v) (take (Z.to_nat i) r ++ take n (take (Z.to_nat i) r))) as Hf
    by (apply Forall_app; split; [done|by apply Forall_take]).
  unfold r'. rewrite app_assoc. unfold zlen in *.
  destruct (decide (Z.to_nat i * 2 <= length r)%nat) as [Hd|Hd].
  - rewrite take_app_le; [by apply Forall_take|].
    rewrite length_app, !length_take. unfold n. rewrite ?length_take, ?length_drop. lia.
  - rewrite (drop_ge (drop _ r)), app_nil_r; [by apply Forall_take|].
    unfold n. rewrite ?length_take, ?length_drop. lia.
Qed.

(** The previous length is returned and the new references are [initialRef], or
    the table is left as it is. *)
Lemma TableGrow_spec t delta initialRef :
  is_u32 delta -> zlen (References t) < 2 ^ 32 ->
  let len := zlen (References t) in
  let fits := (delta =? 0) || ((len + delta <? MaximumTableIndex) && (match TMax t with Some mx => len + delta <=? mx | None => true end)) in
  TableGrow t delta initialRef =
    Ok (if fits then (set_References (References t ++ replicate (Z.to_nat delta) initialRef) t, len) else (t, 0xffffffff)).
Proof.
  intros [Hd1 Hd2] Hl. cbv zeta. unfold TableGrow. pose proof (zlen_nonneg (References t)).
  rewrite wrap32_small by (unfold is_u32; lia).
  destruct (Z.eqb_spec delta 0) as [->|Hne].
  { cbn. rewrite app_nil_r. by destruct t. }
  cbn [orb]. set (b1 := _ >=? _). set (b2 := match TMax t with Some mx => _ >? mx | None => _ end).
  assert ((_ <? MaximumTableIndex) && _ = negb (b1 || b2)) as ->.
  { unfold b1, b2. rewrite negb_orb, Z.geb_leb, <- Z.ltb_antisym. f_equal.
    destruct (TMax t); [|done]. by rewrite Z.gtb_ltb, <- Z.leb_antisym. }
  destruct (b1 || b2); [done|]. cbn [negb].
  assert (zeros delta = replicate (Z.to_nat delta) 0) as -> by done.
  destruct (Z.eqb_spec initialRef 0) as [->|Hr]; [done|].
  rewrite zslice_in by (rewrite zlen_app; pose proof (zlen_nonneg (replicate (Z.to_nat delta) 0)); lia). cbn [res_bind].
  rewrite drop_app_length' by (unfold zlen; lia).
  destruct (Z.to_nat delta) as [|n] eqn:En; [lia|]. cbn [replicate].
  rewrite zset_in by (rewrite zlen_cons; pose proof (zlen_nonneg (replicate n 0)); lia). cbn [res_bind Z.to_nat insert list_insert].
  rewrite (fillLoop_replicate initialRef); [cbn [res_bind]|lia|cbn; lia|by repeat constructor].
  rewrite take_app_length' by (unfold zlen; lia). cbn [length replicate]. rewrite length_insert. cbn [length replicate]. by rewrite length_replicate.
Qed.

(** ** The world *)

(** A type that does not refer to a type section. *)
Definition plain (v : ValueType) : Prop := IsConcreteRef v = false.

(** What an export promises to an importer. *)
Definition export_live (w : world) (i : ModuleInstance) (e : Export) : Prop :=
  (ExportType e = ExternTypeTable -> exists t T, zlookup (Tables i) (ExportIndex e) = Some (Some t) /\
    tables w !! t = Some T /\ involvingModuleInstances T <> []) /\
  (ExportType e = ExternTypeMemory -> exists p mem, InstanceMemory i = Some p /\ memories w !! p = Some mem) /\
  (ExportType e = ExternTypeGlobal -> exists g G, zlookup (Globals i) (ExportIndex e) = Some (Some g) /\ globals w !! g = Some G) /\
  (ExportType e = ExternTypeTag -> exists t T, zlookup (Tags i) (ExportIndex e) = Some (Some t) /\ tags w !! t = Some T).

Definition exports_live (w : world) (i : ModuleInstance) : Prop :=
  forall name e, InstanceExports i !! name = Some e -> export_live w i e.

Record world_ok (w : world) : Prop := {
  wo_graph : forall p, is_Some (instances w !! p) -> is_Some (graph w !! p);
  wo_source : forall p i, instances w !! p = Some i -> is_Some (modules w !! Source i);
  wo_exports : forall p i, instances w !! p = Some i -> exports_live w i;
  wo_modules : forall mp m, modules w !! mp = Some m -> input_ok m;
  wo_globals : forall g G, globals w !! g = Some G -> plain (ValType (GlobalInstanceType G)) /\
    (ValType (GlobalInstanceType G) = ValueTypeI32 -> is_u32 (Val G));
  wo_tables : forall t T, tables w !! t = Some T -> plain (TType T);
  wo_tags : forall t T, tags w !! t = Some T -> exists m, modules w !! fst (TagType T) = Some m /\
    is_Some (zlookup (TypeSection m) (snd (TagType T)));
  wo_names : forall name p, named (names w) name = Some p -> is_Some (instances w !! p);
}.

(** ** What an object must be for its declaration *)

Section Match.
Context (m : Module) (d : declarations).

Definition gmatch (expected actual : GlobalType) : Prop :=
  Mutable expected = Mutable actual /\
  (ValType expected = ValType actual \/
   (Mutable expected = false /\ isRefSubtypeOf (view m) (ValType actual) (ValType expected) = Ok true)).
Definition tmatch (expected : Table) (t : TableInstance) : Prop :=
  TType t = TableRefType expected /\ TableMin expected <= zlen (References t) /\
  (forall mx, TableMax expected = Some mx -> exists mx', TMax t = Some mx' /\ mx' <= mx).
Definition mmatch (expected : Memory) (mem : MemoryInstance) : Prop :=
  MemMin expected <= memoryBytesNumToPages (zlen (Buffer mem)) /\ Max mem <= MemMax expected /\ Shared mem = IsShared expected.

(** The type of a tag is a type of the module that defines it: the declared one, or
    one that [resolveTag] found to be equivalent. *)
Definition xmatch (w : world) (source : positive) (expected : Index) (T : TagInstance) : Prop :=
  TagType T = (source, expected) \/
  exists m', modules w !! fst (TagType T) = Some m' /\
    structurallyEquivalentTypesAcrossModules (types m) (types m') (sameModule source (fst (TagType T))) expected (snd (TagType T)) = Ok true.

(** The objects of an instance under construction: a slot is nil or holds what is declared for it. *)
Record partial (w : world) (i : ModuleInstance) : Prop := {
  pa_globals_len : zlen (Globals i) = zlen (d_globals d);
  pa_tables_len : zlen (Tables i) = zlen (d_tables d);
  pa_tags_len : zlen (Tags i) = zlen (d_tags d);
  pa_globals : forall k g, zlookup (Globals i) k = Some (Some g) ->
    exists G gt, globals w !! g = Some G /\ zlookup (d_globals d) k = Some gt /\ gmatch gt (GlobalInstanceType G);
  pa_tables : forall k t, zlookup (Tables i) k = Some (Some t) ->
    exists T td, tables w !! t = Some T /\ zlookup (d_tables d) k = Some td /\ tmatch td T;
  pa_tags : forall k t, zlookup (Tags i) k = Some (Some t) ->
    exists T tt, tags w !! t = Some T /\ zlookup (d_tags d) k = Some tt /\ xmatch w (Source i) tt T;
  pa_memory : forall p, InstanceMemory i = Some p ->
    exists mem md, memories w !! p = Some mem /\ d_memory d = Some md /\ mmatch md mem;
}.

(** All slots are filled. *)
Record typed (w : world) (i : ModuleInstance) : Prop := {
  ty_globals : forall k gt, zlookup (d_globals d) k = Some gt -> exists g G,
    zlookup (Globals i) k = Some (Some g) /\ globals w !! g = Some G /\ gmatch gt (GlobalInstanceType G);
  ty_tables : forall k td, zlookup (d_tables d) k = Some td -> exists t T,
    zlookup (Tables i) k = Some (Some t) /\ tables w !! t = Some T /\ tmatch td T;
  ty_tags : forall k tt, zlookup (d_tags d) k = Some tt -> exists t T,
    zlookup (Tags i) k = Some (Some t) /\ tags w !! t = Some T /\ xmatch w (Source i) tt T;
  ty_memory : forall md, d_memory d = Some md -> exists p mem,
    InstanceMemory i = Some p /\ memories w !! p = Some mem /\ mmatch md mem;
}.

End Match.

(** ** What the operations leave as it is *)

Definition same_table (T T' : TableInstance) : Prop :=
  TType T' = TType T /\ TMin T' = TMin T /\ TMax T' = TMax T /\ length (References T') = length (References T) /\
  (involvingModuleInstances T <> [] -> involvingModuleInstances T' <> []).
Definition same_memory (M M' : MemoryInstance) : Prop :=
  length (Buffer M') = length (Buffer M) /\ Max M' = Max M /\ Shared M' = Shared M.

Record keeps (w w' : world) : Prop := {
  ke_modules : modules w' = modules w;
  ke_names : names w' = names w;
  ke_instances : forall p, is_Some (instances w !! p) -> is_Some (instances w' !! p);
  ke_graph : forall p, is_Some (graph w !! p) -> is_Some (graph w' !! p);
  ke_globals : globals w ⊆ globals w';
  ke_tables : forall t T, tables w !! t = Some T -> exists T', tables w' !! t = Some T' /\ same_table T T';
  ke_memories : forall p M, memories w !! p = Some M -> exists M', memories w' !! p = Some M' /\ same_memory M M';
  ke_tags : tags w ⊆ tags w';
}.

Lemma same_table_refl T : same_table T T.
Proof. by repeat split. Qed.
Lemma same_memory_refl M : same_memory M M.
Proof. done. Qed.
#[export] Hint Resolve same_table_refl same_memory_refl : wz.

Lemma keeps_refl w : keeps w w.
Proof. split; eauto with wz. Qed.

Lemma keeps_trans w1 w2 w3 : keeps w1 w2 -> keeps w2 w3 -> keeps w1 w3.
Proof.
  intros [A1 A2 A3 A4 A5 A6 A7 A8] [B1 B2 B3 B4 B5 B6 B7 B8]. split; eauto; try congruence; try (by etrans).
  - intros t T (T' & HT & (? & ? & ? & ? & ?))%A6. apply B6 in HT as (T'' & HT & (? & ? & ? & ? & ?)).
    exists T''. split; [done|]. repeat split; try congruence. auto.
  - intros p M (M' & HM & (? & ? & ?))%A7. apply B7 in HM as (M'' & HM & (? & ? & ?)).
    exists M''. split; [done|]. repeat split; congruence.
Qed.

Lemma export_live_keeps w w' i e : keeps w w' -> export_live w i e -> export_live w' i e.
Proof.
  intros K (H1 & H2 & H3 & H4). pose proof (ke_globals _ _ K). pose proof (ke_tags _ _ K). split_and!; intros Ht.
  - destruct (H1 Ht) as (t & T & ? & HT & Hn). destruct (ke_tables _ _ K t T HT) as (T' & ? & (? & ? & ? & ? & ?)). eauto 10.
  - destruct (H2 Ht) as (p & M & ? & HM). destruct (ke_memories _ _ K p M HM) as (M' & ? & _). eauto 10.
  - destruct (H3 Ht) as (g & G & ? & HG). eauto using lookup_weaken.
  - destruct (H4 Ht) as (t & T & ? & HT). eauto using lookup_weaken.
Qed.

Lemma tmatch_same td T T' : same_table T T' -> tmatch td T -> tmatch td T'.
Proof. intros (H1 & H2 & H3 & H4 & _) (? & ? & Hm). split; [congruence|]. split; [unfold zlen in *; lia|]. by rewrite H3. Qed.

Lemma mmatch_same md M M' : same_memory M M' -> mmatch md M -> mmatch md M'.
Proof. intros (H1 & H2 & H3) (? & ? & ?). unfold mmatch, zlen in *. by rewrite H1, H2, H3. Qed.

Lemma xmatch_keeps m w w' source tt T : modules w ⊆ modules w' -> xmatch m w source tt T -> xmatch m w' source tt T.
Proof. intros K [H|(m' & Hm & H)]; [by left|right]. exists m'. split; [by eapply lookup_weaken|done]. Qed.

Lemma partial_keeps m d w w' i : keeps w w' -> partial m d w i -> partial m d w' i.
Proof.
  intros K [? ? ? Hg Ht Hx Hm]. pose proof (ke_globals _ _ K). pose proof (ke_tags _ _ K). split; try done.
  - intros k g (G & gt & HG & ?)%Hg. exists G, gt. eauto using lookup_weaken.
  - intros k t (T & td & HT & ? & Hm')%Ht. destruct (ke_tables _ _ K t T HT) as (T' & ? & Hs). eauto 10 using tmatch_same.
  - intros k t (T & tt & HT & ? & Hm')%Hx. exists T, tt. split; [by eapply lookup_weaken|]. split; [done|].
    eapply xmatch_keeps, Hm'. by rewrite (ke_modules _ _ K).
  - intros p (M & md & HM & ? & Hm')%Hm. destruct (ke_memories _ _ K p M HM) as (M' & ? & Hs). eauto 10 using mmatch_same.
Qed.

(** ** Rules *)

Definition filled (l : list (option positive)) (k : Z) : Prop := exists p, zlookup l k = Some (Some p).

(** What holds of an instance under construction later on. *)
Definition more (i i' : ModuleInstance) : Prop :=
  InstanceExports i' = InstanceExports i /\ (forall k, filled (Globals i) k -> filled (Globals i') k) /\
  (forall k, filled (Tables i) k -> filled (Tables i') k) /\ (forall k, filled (Tags i) k -> filled (Tags i') k) /\
  (is_Some (InstanceMemory i) -> is_Some (InstanceMemory i')).

Section Rules.
Context (m : Module) (d : declarations) (self module : positive) (published : bool).

Definition inv (w : world) : Prop :=
  world_ok w /\ modules w !! module = Some m /\
  exists i, instances w !! self = Some i /\ Source i = module /\ partial m d w i /\ (published = false -> InstanceExports i = ∅).

Definition grows (w w' : world) : Prop :=
  keeps w w' /\ forall i, instances w !! self = Some i -> exists i', instances w' !! self = Some i' /\ more i i'.

Lemma world_grows_refl w : grows w w.
Proof. split; [apply keeps_refl|]. intros i Hi. exists i. by repeat split. Qed.

Lemma world_grows_trans w1 w2 w3 : grows w1 w2 -> grows w2 w3 -> grows w1 w3.
Proof.
  intros [K1 H1] [K2 H2]. split; [by eapply keeps_trans|]. intros i Hi. destruct (H1 i Hi) as (i' & Hi' & (? & ? & ? & ? & ?)).
  destruct (H2 i' Hi') as (i'' & ? & (? & ? & ? & ? & ?)). exists i''. split; [done|]. repeat split; try congruence; auto.
Qed.

(** The outcome of an operation in a world that satisfies [inv]. *)
Definition post {A} (w : world) (c : M A) (Q : A -> world -> Prop) : Prop :=
  let (w', r) := c w in
  inv w' /\ grows w w' /\ match r with Ok a => Q a w' | Err _ => True | Panic _ => False end.

Lemma post_ret {A} w (a : A) (Q : A -> world -> Prop) : inv w -> Q a w -> post w (mret a) Q.
Proof. intros. split; [done|]. split; [apply world_grows_refl|done]. Qed.

Lemma post_bind {A B} w (c : M A) (k : A -> M B) Q R :
  post w c Q -> (forall a w', inv w' -> grows w w' -> Q a w' -> post w' (k a) R) -> post w (c ≫= k) R.
Proof.
  unfold post, mbind, M_bind. destruct (c w) as [w' [a|e|e]]; intros (Hi & Hg & HQ) Hk; [|done..].
  specialize (Hk a w' Hi Hg HQ). destruct (k a w') as [w'' r]. destruct Hk as (? & Hg' & ?).
  split; [done|]. split; [by eapply world_grows_trans|done].
Qed.

Lemma post_mono {A} w (c : M A) (Q R : A -> world -> Prop) : post w c Q -> (forall a w', grows w w' -> Q a w' -> R a w') -> post w c R.
Proof. unfold post. destruct (c w) as [w' [a|e|e]]; intros (? & ? & ?) HR; split_and!; auto. Qed.

Lemma post_lift {A} w (r : res A) (Q : A -> world -> Prop) :
  inv w -> no_panic r -> (forall a, r = Ok a -> Q a w) -> post w (liftM r) Q.
Proof.
  intros Hi Hn HQ. unfold post, liftM. split; [done|]. split; [apply world_grows_refl|]. destruct r; [by apply HQ|done|by destruct (Hn msg)].
Qed.

Lemma post_Ok {A} w (a : A) (r : res A) (Q : A -> world -> Prop) : inv w -> r = Ok a -> Q a w -> post w (liftM r) Q.
Proof. intros Hi -> HQ. split; [done|]. split; [apply world_grows_refl|done]. Qed.

Lemma post_read {A} w (f : world -> res A) (Q : A -> world -> Prop) :
  inv w -> no_panic (f w) -> (forall a, f w = Ok a -> Q a w) -> post w (readM f) Q.
Proof. apply post_lift. Qed.

Lemma post_fail {A} w msg (Q : A -> world -> Prop) : inv w -> post w (failM msg) Q.
Proof. intros Hi. split; [done|]. split; [apply world_grows_refl|done]. Qed.

Lemma post_guard w b msg (Q : unit -> world -> Prop) : inv w -> (b = true -> Q tt w) -> post w (guardM b msg) Q.
Proof. intros Hi HQ. destruct b; [by apply post_ret, HQ|by apply post_fail]. Qed.

Lemma post_forM {A} (f : Z -> A -> M unit) (J : Z -> world -> Prop) l : forall i w,
  inv w -> J i w ->
  (forall k a w', l !! k = Some a -> inv w' -> grows w w' -> J (i + Z.of_nat k) w' ->
    post w' (f (i + Z.of_nat k) a) (fun _ w'' => J (i + Z.of_nat k + 1) w'')) ->
  post w (forM f i l) (fun _ w' => J (i + zlen l) w').
Proof.
  induction l as [|a l IH]; intros i w Hi HJ Hf; cbn [forM].
  { apply post_ret; [done|]. unfold zlen. cbn. by rewrite Z.add_0_r. }
  eapply post_bind.
  - pose proof (Hf O a w eq_refl Hi (world_grows_refl w)) as H. cbn in H. rewrite !Z.add_0_r in H. by apply H.
  - intros [] w' Hi' Hg' HJ'. cbn beta in HJ'. rewrite zlen_cons, Z.add_assoc. apply (IH (i + 1) w' Hi' HJ').
    intros k b w'' Hk Hi'' Hg'' HJ''. replace (i + 1 + Z.of_nat k) with (i + Z.of_nat (S k)) in * by lia.
    apply Hf; try done. by eapply world_grows_trans.
Qed.

(** Steps that leave the world as it is. *)
Lemma bindM_Ok {A B} w (a : A) (r : res A) (k : A -> M B) R : r = Ok a -> post w (k a) R -> post w (liftM r ≫= k) R.
Proof. by intros ->. Qed.

Lemma bind_read {A B} w (a : A) f (k : A -> M B) R : f w = Ok a -> post w (k a) R -> post w (readM f ≫= k) R.
Proof. unfold post, readM, mbind, M_bind. by intros ->. Qed.

Lemma bindM_lift {A B} w (r : res A) (k : A -> M B) R :
  inv w -> no_panic r -> (forall a, r = Ok a -> post w (k a) R) -> post w (liftM r ≫= k) R.
Proof.
  intros Hi Hn Hk. destruct r as [a|e|e]; [by apply Hk| |by destruct (Hn e)].
  split; [done|]. split; [apply world_grows_refl|done].
Qed.

Lemma bindM_guard {B} w b msg (k : unit -> M B) R : inv w -> (b = true -> post w (k tt) R) -> post w (guardM b msg ≫= k) R.
Proof. intros Hi Hk. destruct b; [by apply Hk|]. split; [done|]. split; [apply world_grows_refl|done]. Qed.

(** A change of the world that keeps the instance. *)
Lemma post_modify w f (Q : unit -> world -> Prop) :
  inv w -> keeps w (f w) -> world_ok (f w) -> instances (f w) = instances w -> Q tt (f w) -> post w (modifyM f) Q.
Proof.
  intros (Hw & Hmod & i & Hi & Hs & Hp & Hx) K Hw' Ei HQ. unfold post, modifyM. split_and!; [|split|done].
  - split; [done|]. split; [by rewrite (ke_modules _ _ K)|]. exists i. rewrite Ei. split_and!; try done. by eapply partial_keeps.
  - done.
  - rewrite Ei. intros j Hj. exists j. by repeat split.
Qed.

Lemma bind_instance {B} w i (k : ModuleInstance -> M B) R :
  instances w !! self = Some i -> post w (k i) R -> post w (instanceOf self ≫= k) R.
Proof. intros Hi. apply bind_read. unfold deref. by rewrite Hi. Qed.

Lemma post_instance w : inv w -> forall Q : ModuleInstance -> world -> Prop,
  (forall i, instances w !! self = Some i -> Source i = module -> partial m d w i -> Q i w) -> post w (instanceOf self) Q.
Proof.
  intros (Hw & Hmod & i & Hi & Hs & Hp & Hx) Q HQ. unfold instanceOf, readM, deref, post. rewrite Hi.
  split; [by split; [|split; [|exists i]]|]. split; [apply world_grows_refl|auto].
Qed.

(** A change of the instance. *)
Lemma post_update w f (Q : unit -> world -> Prop) :
  inv w ->
  (forall i, instances w !! self = Some i -> Source i = module -> partial m d w i ->
    Source (f i) = Source i /\ partial m d w (f i) /\ more i (f i) /\ (published = true -> exports_live w i -> exports_live w (f i)) /\
    Q tt (set_instances (insert self (f i)) w)) ->
  post w (updateInstance self f) Q.
Proof.
  intros Hinv HQ. pose proof Hinv as (Hw & Hmod & i & Hi & Hs & Hp & Hx). unfold updateInstance.
  eapply post_bind; [apply (post_instance w Hinv (fun a w' => a = i /\ w' = w)); by intros j Hj; simplify_eq|].
  intros a w' _ _ [-> ->]. destruct (HQ i Hi Hs Hp) as (Es & Hp' & Hm & Hl & HQ'). destruct Hm as (Ee & Hmore).
  assert (keeps w (set_instances (insert self (f i)) w)) as K.
  { split; cbn; eauto with wz. intros p [j Hj]. destruct (decide (p = self)) as [->|]; [|rewrite lookup_insert_ne by done]; eauto.
    rewrite lookup_insert_eq. eauto. }
  unfold post, modifyM. split_and!; [|split|done].
  - split; [|split; [done|]].
    + destruct Hw as [H1 H2 H3 H4 H5 H6 H7 H8]. split; cbn; try done.
      * intros p Hin. apply H1. destruct (decide (p = self)) as [->|]; [eauto|by rewrite lookup_insert_ne in Hin].
      * intros p j Hj. destruct (decide (p = self)) as [->|]; [rewrite lookup_insert_eq in Hj|rewrite lookup_insert_ne in Hj by done; eauto].
        injection Hj as <-. rewrite Es. eauto.
      * intros p j Hj. destruct (decide (p = self)) as [->|].
        -- rewrite lookup_insert_eq in Hj. injection Hj as <-. intros name e He.
           apply (export_live_keeps w); [done|]. destruct published; [apply (Hl eq_refl (H3 self i Hi) name e He)|].
           rewrite Ee, Hx in He by done. by rewrite lookup_empty in He.
        -- rewrite lookup_insert_ne in Hj by done. intros name e He. apply (export_live_keeps w); [done|]. by eapply H3.
      * intros name p Hn. apply (ke_instances _ _ K). eauto.
    + exists (f i). cbn. rewrite lookup_insert_eq. split_and!; try done; [congruence|by eapply partial_keeps|].
      intros Hpub. rewrite Ee. auto.
  - done.
  - intros j Hj. simplify_eq. exists (f i). cbn. rewrite lookup_insert_eq. split; [done|]. by split.
Qed.

End Rules.

(** ** Changes of the objects *)

Lemma world_ok_step w w' :
  world_ok w -> keeps w w' -> instances w' = instances w ->
  (forall g G, globals w' !! g = Some G -> plain (ValType (GlobalInstanceType G)) /\
    (ValType (GlobalInstanceType G) = ValueTypeI32 -> is_u32 (Val G))) ->
  (forall t T, tables w' !! t = Some T -> plain (TType T)) ->
  (forall t T, tags w' !! t = Some T -> exists m, modules w !! fst (TagType T) = Some m /\ is_Some (zlookup (TypeSection m) (snd (TagType T)))) ->
  world_ok w'.
Proof.
  intros [H1 H2 H3 H4 H5 H6 H7 H8] K Ei Hg Ht Hx. split; rewrite ?Ei, ?(ke_modules _ _ K); try done.
  - intros p Hp. by apply (ke_graph _ _ K), H1.
  - intros p i Hi name e He. eapply export_live_keeps; [done|]. by eapply H3.
  - rewrite (ke_names _ _ K). done.
Qed.

Section Objects.
Context (m : Module) (d : declarations) (self module : positive) (published : bool).
Local Abbreviation inv := (inv m d self module published).
Local Abbreviation post := (post m d self module published).

Lemma post_graph w g (Q : unit -> world -> Prop) :
  inv w -> (forall p, is_Some (graph w !! p) -> is_Some (g w !! p)) -> Q tt (set_graph (g w) w) ->
  post w (modifyM (fun w => set_graph (g w) w)) Q.
Proof.
  intros Hi Hg HQ. assert (keeps w (set_graph (g w) w)) as K by (split; cbn; eauto with wz).
  apply post_modify; try done. destruct Hi as ([] & _). by eapply world_ok_step.
Qed.

(** The contents or the instances of a table, not its type or its length. *)
Lemma post_table w p T T' (Q : unit -> world -> Prop) :
  inv w -> tables w !! p = Some T -> same_table T T' -> Q tt (set_tables (insert p T') w) ->
  post w (modifyM (set_tables (insert p T'))) Q.
Proof.
  intros Hi HT Hs HQ. assert (keeps w (set_tables (insert p T') w)) as K.
  { split; cbn; eauto with wz. intros t U HU. destruct (decide (t = p)) as [->|];
      [rewrite lookup_insert_eq; simplify_eq|rewrite lookup_insert_ne by done]; eauto with wz. }
  apply post_modify; try done. destruct Hi as (Hw & _). pose proof Hw as []. eapply world_ok_step; try done.
  cbn. intros t U HU. destruct (decide (t = p)) as [->|]; [rewrite lookup_insert_eq in HU|rewrite lookup_insert_ne in HU by done; eauto].
  injection HU as <-. destruct Hs as (-> & _). eauto.
Qed.

Lemma post_new_table w T (Q : unit -> world -> Prop) :
  inv w -> plain (TType T) -> Q tt (set_tables (insert (newPtr (tables w)) T) w) ->
  post w (modifyM (set_tables (insert (newPtr (tables w)) T))) Q.
Proof.
  intros Hi HT HQ. pose proof (newPtr_None (tables w)) as Hf.
  assert (keeps w (set_tables (insert (newPtr (tables w)) T) w)) as K.
  { split; cbn; eauto with wz. intros t U HU. exists U. rewrite lookup_insert_ne by congruence. eauto with wz. }
  apply post_modify; try done. destruct Hi as (Hw & _). pose proof Hw as []. eapply world_ok_step; try done.
  cbn. intros t U [[_ <-]|[_ ?]]%lookup_insert_Some; eauto.
Qed.

Lemma post_new_tag w T mt (Q : unit -> world -> Prop) :
  inv w -> modules w !! fst (TagType T) = Some mt -> is_Some (zlookup (TypeSection mt) (snd (TagType T))) ->
  Q tt (set_tags (insert (newPtr (tags w)) T) w) ->
  post w (modifyM (set_tags (insert (newPtr (tags w)) T))) Q.
Proof.
  intros Hi Hm HT HQ. pose proof (newPtr_None (tags w)) as Hf.
  assert (keeps w (set_tags (insert (newPtr (tags w)) T) w)) as K.
  { split; cbn; eauto with wz. by apply insert_subseteq. }
  apply post_modify; try done. destruct Hi as (Hw & _). pose proof Hw as []. eapply world_ok_step; try done.
  cbn. intros t U [[_ <-]|[_ ?]]%lookup_insert_Some; eauto.
Qed.

Lemma post_new_global w g G (Q : unit -> world -> Prop) :
  inv w -> globals w !! g = None -> plain (ValType (GlobalInstanceType G)) ->
  (ValType (GlobalInstanceType G) = ValueTypeI32 -> is_u32 (Val G)) -> Q tt (set_globals (insert g G) w) ->
  post w (modifyM (set_globals (insert g G))) Q.
Proof.
  intros Hi Hf Hp Hv HQ. assert (keeps w (set_globals (insert g G) w)) as K.
  { split; cbn; eauto with wz. by apply insert_subseteq. }
  apply post_modify; try done. destruct Hi as (Hw & _). pose proof Hw as []. eapply world_ok_step; try done.
  cbn. intros t U [[_ <-]|[_ ?]]%lookup_insert_Some; eauto.
Qed.

Lemma post_memory w p mem mem' (Q : unit -> world -> Prop) :
  inv w -> (memories w !! p = None \/ (memories w !! p = Some mem /\ same_memory mem mem')) ->
  Q tt (set_memories (insert p mem') w) -> post w (modifyM (set_memories (insert p mem'))) Q.
Proof.
  intros Hi Hm HQ. assert (keeps w (set_memories (insert p mem') w)) as K.
  { split; cbn; eauto with wz. intros q U HU. destruct (decide (q = p)) as [->|];
      [rewrite lookup_insert_eq|rewrite lookup_insert_ne by done; eauto with wz].
    destruct Hm as [Hn|[Hs ?]]; [congruence|]. simplify_eq. eauto. }
  apply post_modify; try done. destruct Hi as (Hw & _). pose proof Hw as []. eapply world_ok_step; try done.
Qed.

(** A slot of the instance under construction. *)
Lemma filled_insert l i k p : 0 <= i < zlen l -> filled l k \/ k = i -> filled (<[Z.to_nat i := Some p]> l) k.
Proof.
  intros Hi Hk. unfold filled. rewrite zlookup_list_insert by done. destruct (Z.eqb_spec k i); [eauto|]. by destruct Hk.
Qed.

Definition slotG (w : world) (k : Z) : Prop := exists i, instances w !! self = Some i /\ filled (Globals i) k.
Definition slotT (w : world) (k : Z) : Prop := exists i, instances w !! self = Some i /\ filled (Tables i) k.
Definition slotX (w : world) (k : Z) : Prop := exists i, instances w !! self = Some i /\ filled (Tags i) k.
Definition slotM (w : world) : Prop := exists i, instances w !! self = Some i /\ is_Some (InstanceMemory i).

Lemma slots_grow w w' : grows self w w' ->
  (forall k, slotG w k -> slotG w' k) /\ (forall k, slotT w k -> slotT w' k) /\ (forall k, slotX w k -> slotX w' k) /\
  (slotM w -> slotM w').
Proof.
  intros [_ Hg]. split_and!; [intros k (i & Hi & Hk)..|intros (i & Hi & Hk)];
    destruct (Hg i Hi) as (i' & Hi' & (_ & ? & ? & ? & ?)); exists i'; auto.
Qed.

Lemma post_set_table w i k t T td :
  inv w -> published = false -> instances w !! self = Some i -> tables w !! t = Some T -> zlookup (d_tables d) k = Some td ->
  tmatch td T ->
  post w (updateInstance self (set_Tables (<[Z.to_nat k := Some t]> (Tables i)))) (fun _ w' => slotT w' k).
Proof.
  intros Hi Hpub Hself HT Hd Hm. pose proof (zlookup_Some_lt _ _ _ Hd) as Hk.
  apply post_update; [done|]. intros j Hj Hs Hp. simplify_eq. pose proof Hp as [L1 L2 L3 P1 P2 P3 P4].
  rewrite <- L2 in Hk. split_and!; [done| | |intros; congruence|].
  - split; cbn; rewrite ?zlen_insert; try done. intros k' t'. rewrite zlookup_list_insert by done.
    destruct (Z.eqb_spec k' k) as [->|]; [intros [= <-]; eauto|apply P2].
  - split_and!; try done. intros k' ?. apply filled_insert; [done|by left].
  - eexists. cbn. rewrite lookup_insert_eq. split; [done|]. apply filled_insert; [done|by right].
Qed.

Lemma post_set_global w i k g G gt :
  inv w -> published = false -> instances w !! self = Some i -> globals w !! g = Some G -> zlookup (d_globals d) k = Some gt ->
  gmatch m gt (GlobalInstanceType G) ->
  post w (updateInstance self (set_Globals (<[Z.to_nat k := Some g]> (Globals i)))) (fun _ w' => slotG w' k).
Proof.
  intros Hi Hpub Hself HT Hd Hm. pose proof (zlookup_Some_lt _ _ _ Hd) as Hk.
  apply post_update; [done|]. intros j Hj Hs Hp. simplify_eq. pose proof Hp as [L1 L2 L3 P1 P2 P3 P4].
  rewrite <- L1 in Hk. split_and!; [done| | |intros; congruence|].
  - split; cbn; rewrite ?zlen_insert; try done. intros k' t'. rewrite zlookup_list_insert by done.
    destruct (Z.eqb_spec k' k) as [->|]; [intros [= <-]; eauto|apply P1].
  - split_and!; try done. intros k' ?. apply filled_insert; [done|by left].
  - eexists. cbn. rewrite lookup_insert_eq. split; [done|]. apply filled_insert; [done|by right].
Qed.

Lemma post_set_tag w i k t T tt' :
  inv w -> published = false -> instances w !! self = Some i -> tags w !! t = Some T -> zlookup (d_tags d) k = Some tt' ->
  xmatch m w module tt' T ->
  post w (updateInstance self (set_Tags (<[Z.to_nat k := Some t]> (Tags i)))) (fun _ w' => slotX w' k).
Proof.
  intros Hi Hpub Hself HT Hd Hx. pose proof (zlookup_Some_lt _ _ _ Hd) as Hk.
  apply post_update; [done|]. intros j Hj Hs Hp. simplify_eq. pose proof Hp as [L1 L2 L3 P1 P2 P3 P4].
  rewrite <- L3 in Hk. split_and!; [done| | |intros; congruence|].
  - split; cbn; rewrite ?zlen_insert; try done. intros k' t'. rewrite zlookup_list_insert by done.
    destruct (Z.eqb_spec k' k) as [->|]; [intros [= <-]; eauto|apply P3].
  - split_and!; try done. intros k' ?. apply filled_insert; [done|by left].
  - eexists. cbn. rewrite lookup_insert_eq. split; [done|]. apply filled_insert; [done|by right].
Qed.

Lemma post_set_memory w p mem md :
  inv w -> published = false -> memories w !! p = Some mem -> d_memory d = Some md -> mmatch md mem ->
  post w (updateInstance self (set_Memory (Some p))) (fun _ w' => slotM w').
Proof.
  intros Hi Hpub HM Hd Hm. apply post_update; [done|]. intros j Hj Hs Hp. pose proof Hp as [L1 L2 L3 P1 P2 P3 P4].
  split_and!; [done| | |intros; congruence|].
  - split; cbn; try done. intros q [= <-]. eauto.
  - by split_and!.
  - eexists. cbn. rewrite lookup_insert_eq. split; [done|by eexists].
Qed.

End Objects.

(** ** Accepted modules *)

Section Accepted.
Context (enabledFeatures : CoreFeatures) (memoryLimitPages : Z).

(** What decoding and validation give. *)
Record accepted (m : Module) : Prop := {
  ac_in : input_ok m;
  ac_valid : validateSections m enabledFeatures = Ok tt;
  ac_imports : imports_ok enabledFeatures memoryLimitPages (mkImportState (ImportSection m) (ImportPerModule m)
    (ImportFunctionCount m) (ImportGlobalCount m) (ImportMemoryCount m) (ImportTableCount m) (ImportTagCount m));
  ac_memory : forall mem, MemorySection m = Some mem -> memory_ok enabledFeatures memoryLimitPages mem;
  ac_tables : forall t, t ∈ TableSection m -> table_ok enabledFeatures t;
  ac_exports : exports_ok (ExportSection m) (Exports m);
  ac_data : forall s, s ∈ DataSection m -> zlen (DataInit s) < 2 ^ 32;
}.

Lemma decodeAndValidate_accepted capMax dwarf store binary m :
  reader_ok binary -> decodeAndValidate enabledFeatures memoryLimitPages capMax dwarf store binary = Ok m -> accepted m.
Proof.
  intros Hr Hok. destruct (decodeAndValidate_Ok _ _ _ _ _ _ _ Hr Hok) as [Hin Hv].
  pose proof (DecodeModule_ok enabledFeatures memoryLimitPages capMax dwarf store binary Hr) as Hd.
  unfold decodeAndValidate in Hok. destruct (DecodeModule _ _ _ _ _ _) as [m0|e|e]; [|done..]. cbn [res_bind] in Hok.
  destruct Hd as ([Hm _] & _ & _). unfold Validate in Hok. destruct (validateSections _ _) as [[]| |]; [|done..].
  cbn [res_bind] in Hok. injection Hok as <-. split; try done; cbn.
  - apply (mo_imports _ _ _ Hm).
  - apply (mo_memory _ _ _ Hm).
  - apply Forall_forall, (mo_tables _ _ _ Hm).
  - apply (mo_exports _ _ _ Hm).
  - intros s Hs. pose proof (mo_data _ _ _ Hm) as H. rewrite Forall_forall in H. by apply H.
Qed.

Context (m : Module) (Hac : accepted m) (d : declarations) (Hd : AllDeclarations m = Ok d).

Lemma filter_position {A} (P : A -> Prop) `{!forall x, Decision (P x)} (l : list A) j x :
  l !! j = Some x -> P x -> filter P l !! length (filter P (take j l)) = Some x.
Proof.
  intros Hj Hx. assert (filter P l = filter P (take j l ++ x :: drop (S j) l)) as -> by (by rewrite take_drop_middle).
  rewrite filter_app, filter_cons, decide_True by done.
  by rewrite lookup_app_r, Nat.sub_diag by lia.
Qed.

(** The slot of an import in its index space. *)
Lemma import_slot {B} (desc : Import -> B) tp (own : list B) j imp :
  ImportSection m !! j = Some imp -> ImportType imp = tp ->
  zlookup (map desc (filter (fun i => ImportType i = tp) (ImportSection m)) ++ own) (IndexPerType imp) = Some (desc imp).
Proof.
  intros Hj Ht. rewrite (io_index _ _ _ (ac_imports m Hac) j imp Hj). cbn [is_result]. rewrite Ht. unfold countOf.
  unfold zlookup. rewrite (proj2 (Z.leb_le _ _)) by apply zlen_nonneg. unfold zlen. rewrite Nat2Z.id.
  apply lookup_app_l_Some. rewrite list_lookup_fmap. by rewrite (filter_position (fun i => ImportType i = tp) _ _ imp).
Qed.

Lemma import_global j imp : ImportSection m !! j = Some imp -> ImportType imp = ExternTypeGlobal ->
  zlookup (d_globals d) (IndexPerType imp) = Some (DescGlobal imp).
Proof. destruct (AllDeclarations_spec m (ac_in m Hac) d Hd) as (_ & -> & _). apply import_slot. Qed.
Lemma import_table j imp : ImportSection m !! j = Some imp -> ImportType imp = ExternTypeTable ->
  zlookup (d_tables d) (IndexPerType imp) = Some (DescTable imp).
Proof. destruct (AllDeclarations_spec m (ac_in m Hac) d Hd) as (_ & _ & -> & _). apply import_slot. Qed.
Lemma import_tag j imp : ImportSection m !! j = Some imp -> ImportType imp = ExternTypeTag ->
  zlookup (d_tags d) (IndexPerType imp) = Some (DescTag imp).
Proof. destruct (AllDeclarations_spec m (ac_in m Hac) d Hd) as (_ & _ & _ & ->). apply import_slot. Qed.

(** The import that fills a slot. *)
Lemma slot_import {B} (desc : Import -> B) tp (own : list B) k b :
  zlookup (map desc (filter (fun i => ImportType i = tp) (ImportSection m)) ++ own) k = Some b ->
  (exists j imp, ImportSection m !! j = Some imp /\ ImportType imp = tp /\ IndexPerType imp = k /\ desc imp = b) \/
  (countOf tp (ImportSection m) <= k /\ zlookup own (k - countOf tp (ImportSection m)) = Some b).
Proof.
  rewrite zlookup_app, zlen_map. fold (countOf tp (ImportSection m)).
  destruct (Z.ltb_spec k (countOf tp (ImportSection m))) as [Hk|Hk]; [|by right]. intros Hb. left.
  unfold zlookup in Hb. destruct (0 <=? k) eqn:E; [|done]. bools. rewrite list_lookup_fmap in Hb.
  apply fmap_Some in Hb as (imp & Hi & ->).
  assert (exists j, ImportSection m !! j = Some imp /\ ImportType imp = tp /\
            length (filter (fun i => ImportType i = tp) (take j (ImportSection m))) = Z.to_nat k) as (j & Hj & Ht & Hl).
  { clear -Hi. revert Hi. generalize (Z.to_nat k) as n. induction (ImportSection m) as [|x l IH]; [done|]. intros n.
    rewrite filter_cons. destruct (decide (ImportType x = tp)) as [Ht|Ht].
    - destruct n as [|n]; cbn; [intros [= ->]; by exists 0%nat|]. intros (j & Hj & Hi & Hl)%IH. exists (S j). split_and!; [done..|].
      change (take (S j) (x :: l)) with (x :: take j l). rewrite filter_cons, decide_True by done. cbn. by f_equal.
    - intros (j & Hj & Hi & Hl)%IH. exists (S j). split_and!; [done..|].
      change (take (S j) (x :: l)) with (x :: take j l). by rewrite filter_cons, decide_False by done. }
  exists j, imp. split_and!; try done. rewrite (io_index _ _ _ (ac_imports m Hac) j imp Hj). cbn [is_result].
  unfold countOf, zlen. rewrite Ht, Hl. lia.
Qed.

Lemma declared_memory l dd :
  d_memory (fold_left declareImport l dd) =
  match last (filter (fun i => ImportType i = ExternTypeMemory) l) with Some i => DescMem i | None => d_memory dd end.
Proof.
  revert dd. induction l as [|x l IH]; intros dd; [done|]. cbn [fold_left]. rewrite IH, filter_cons.
  destruct dd as [fs gs mem ts xs]. unfold declareImport.
  destruct (decide (ImportType x = ExternTypeMemory)) as [Ht|Ht].
  - rewrite last_cons, Ht. by destruct (last _).
  - destruct (last _); [done|]. rewrite <- Z.eqb_neq in Ht. rewrite Ht. by repeat case_match.
Qed.

Context (Hmem : ImportMemoryCount m <= 1).

Lemma import_memory imp : imp ∈ ImportSection m -> ImportType imp = ExternTypeMemory -> d_memory d = DescMem imp.
Proof.
  intros Hi Ht. pose proof (io_memory _ _ _ (ac_imports m Hac)) as Hc. cbn [is_memoryCount is_result] in Hc.
  assert (imp ∈ filter (fun i => ImportType i = ExternTypeMemory) (ImportSection m)) as Hf by by apply list_elem_of_filter.
  pose proof (declared_memory (ImportSection m) (mkDeclarations [] [] None [] [])) as Hl.
  rewrite Hc in Hmem. unfold countOf, zlen in Hmem.
  destruct (filter _ _) as [|x [|y l]]; [by apply not_elem_of_nil in Hf| |cbn in Hmem; lia].
  apply list_elem_of_singleton in Hf as <-. cbn in Hl. unfold AllDeclarations in Hd.
  destruct (fold_left _ _ _) as [fs gs mem ts xs]. cbn in Hl. subst mem.
  pose proof (io_each _ _ _ (ac_imports m Hac)) as He. cbn in He. rewrite Forall_forall in He.
  destruct (He imp Hi) as (_ & _ & _ & _ & _ & Hx & _). destruct (Hx Ht) as (mm & Em & _). rewrite Em in *.
  destruct (MemorySection m); cbn in Hd; [done|]. injection Hd as <-. cbn. done.
Qed.

Lemma own_memory mem : MemorySection m = Some mem -> d_memory d = Some mem.
Proof.
  intros Hm. unfold AllDeclarations in Hd. destruct (fold_left _ _ _) as [fs gs mm ts xs]. rewrite Hm in Hd.
  destruct mm; [done|]. cbn in Hd. by injection Hd as <-.
Qed.

Lemma memory_from md : d_memory d = Some md ->
  MemorySection m = Some md \/ exists imp, imp ∈ ImportSection m /\ ImportType imp = ExternTypeMemory.
Proof.
  intros Hm. unfold AllDeclarations in Hd.
  pose proof (declared_memory (ImportSection m) (mkDeclarations [] [] None [] [])) as Hl.
  destruct (fold_left _ _ _) as [fs gs mm ts xs]. cbn in Hl.
  destruct (MemorySection m) as [ms|]; [destruct mm; [done|]|]; cbn in Hd; injection Hd as <-; cbn in Hm.
  - by left.
  - right. subst mm. destruct (last _) as [i|] eqn:El; [|done]. exists i.
    apply last_Some_elem_of, list_elem_of_filter in El. tauto.
Qed.

Lemma valid_imports imp : imp ∈ ImportSection m ->
  (ImportType imp = ExternTypeFunc -> 0 <= DescFunc imp < zlen (TypeSection m)) /\
  (ImportType imp = ExternTypeTag -> 0 <= DescTag imp < zlen (TypeSection m)).
Proof.
  intros Hi. destruct (validateSections_Ok _ _ (ac_valid m Hac)) as (_ & _ & _ & _ & Himp & _).
  destruct (in_imports m (ac_in m Hac) imp Hi) as (_ & Hf & Ht). unfold is_u32 in *.
  apply list_elem_of_lookup_1 in Hi as [k Hk]. pose proof (range_Ok _ _ _ _ Himp Hk) as E. cbn beta zeta in E.
  destruct (String.eqb _ _); [done|]. split; intros Et; rewrite Et in E; cbn [Z.eqb ExternTypeFunc ExternTypeGlobal ExternTypeTag Pos.eqb] in E.
  - apply fail_Ok in E. specialize (Hf Et). lia.
  - destruct (_ >=? _) eqn:Eg; [done|]. specialize (Ht Et). lia.
Qed.

End Accepted.

(** ** Types of two modules *)

Lemma equivalentAcross_total mx my same x y :
  wf_types (Types.TypeSection mx) -> wf_types (Types.TypeSection my) ->
  (same = true -> Types.TypeSection mx = Types.TypeSection my) ->
  (IsConcreteRef x = true -> TypeIndex x < zlen (Types.TypeSection mx)) ->
  (IsConcreteRef y = true -> TypeIndex y < zlen (Types.TypeSection my)) ->
  exists b, valueTypesEquivalentAcrossModules mx my same x y = Ok b.
Proof.
  intros Hx Hy Hs Rx Ry. unfold valueTypesEquivalentAcrossModules. destruct (_ || _); [|eauto].
  destruct (vte_outcome (Types.TypeSection mx) (Types.TypeSection my) same
    (equivFuel (Types.TypeSection mx) (Types.TypeSection my)) _ ∅ x y
    (functionTypesEquivalent_good _ _ same Hx Hy Hs _)) as (b & vis & -> & _).
  - set_solver.
  - pose proof (pairs_size (Types.TypeSection mx) (Types.TypeSection my) same Hx Hy Hs). unfold equivFuel.
    lia.
  - done.
  - done.
  - cbn. eauto.
Qed.

Lemma equivalentAcross_plain mx my same x y : plain x -> plain y ->
  valueTypesEquivalentAcrossModules mx my same x y = Ok (x =? y).
Proof. unfold plain, valueTypesEquivalentAcrossModules. by intros -> ->. Qed.

Lemma isRefSubtypeOf_plain m m' x y : plain x -> plain y -> isRefSubtypeOf m x y = isRefSubtypeOf m' x y.
Proof. unfold plain, isRefSubtypeOf. by intros -> ->. Qed.

Lemma subtypeAcross_plain mx my same x y : plain x -> plain y ->
  isRefSubtypeOfAcrossModules mx my same x y = isRefSubtypeOf mx x y.
Proof. unfold plain, isRefSubtypeOfAcrossModules. by intros -> ->. Qed.

Lemma typesMatch_total module src importing exporting xs ys :
  input_ok importing -> input_ok exporting -> (module = src -> importing = exporting) ->
  refs_in_range (zlen (types importing)) xs -> refs_in_range (zlen (types exporting)) ys ->
  exists b, typesMatch module src importing exporting xs ys = Ok b.
Proof.
  intros Hi He Hs. revert ys. induction xs as [|x xs IH]; intros [|y ys] Hx Hy; cbn [typesMatch]; try by eexists.
  inversion Hx; inversion Hy; subst.
  destruct (equivalentAcross_total (view importing) (view exporting) (sameModule module src) x y) as [b ->]; try done.
  - apply (in_types _ Hi).
  - apply (in_types _ He).
  - unfold sameModule. intros E%bool_decide_eq_true. by rewrite Hs.
  - cbn. destruct b; [|by eexists]. by apply IH.
Qed.

Lemma signatureMatches_total module src importing exporting expected actual :
  input_ok importing -> input_ok exporting -> (module = src -> importing = exporting) ->
  expected ∈ TypeSection importing -> (forall a, actual = Some a -> a ∈ TypeSection exporting) ->
  exists b, signatureMatches module src importing exporting expected actual = Ok b.
Proof.
  intros Hi He Hs Hx Ha. unfold signatureMatches. destruct actual as [a|]; [|by eexists]. specialize (Ha a eq_refl).
  destruct (negb _); [by eexists|].
  assert (forall mm, input_ok mm -> forall c, c ∈ TypeSection mm ->
    refs_in_range (zlen (types mm)) (Params (theType c)) /\ refs_in_range (zlen (types mm)) (Results (theType c))) as Hr.
  { intros mm Hmm c [k Hk]%list_elem_of_lookup_1. apply (wf_refs _ (in_types mm Hmm) (Z.of_nat k)).
    unfold zlookup, types. rewrite (proj2 (Z.leb_le _ _)), Nat2Z.id, list_lookup_fmap by lia. by rewrite Hk. }
  destruct (Hr importing Hi expected Hx) as [P1 R1], (Hr exporting He a Ha) as [P2 R2].
  destruct (typesMatch_total module src importing exporting (Params (theType expected)) (Params (theType a))) as [[] ->];
    try done; [|by eexists]. by apply typesMatch_total.
Qed.

Lemma typeOfFunction_ok m funcIdx : input_ok m ->
  exists ft, typeOfFunction m funcIdx = Ok ft /\ forall a, ft = Some a -> a ∈ TypeSection m.
Proof.
  intros Hin. unfold typeOfFunction. destruct (typeIndexOfFunction_ok m Hin funcIdx) as (t & -> & Ht). cbn.
  destruct t as [t|]; [|by eexists; split; [done|]].
  destruct (zindex_in (TypeSection m) t) as (a & -> & Ha); [by apply Ht|]. eexists. split; [done|]. intros b [= <-].
  unfold zlookup in Ha. destruct (0 <=? t); [|done]. by apply list_elem_of_lookup_2 in Ha.
Qed.

(** ** Import resolution *)

Section Resolve.
Context (enabledFeatures : CoreFeatures) (memoryLimitPages : Z) (m : Module) (Hac : accepted enabledFeatures memoryLimitPages m).
Context (d : declarations) (Hd : AllDeclarations m = Ok d) (Hmem : ImportMemoryCount m <= 1).
Context (HplainT : forall td, td ∈ d_tables d -> plain (TableRefType td)) (HplainG : forall gt, gt ∈ d_globals d -> plain (ValType gt)).
Context (self module : positive).
Local Abbreviation inv := (inv m d self module false).
Local Abbreviation post := (post m d self module false).
Local Abbreviation grows := (grows self).

(** The slot that an import fills. *)
Definition resolved (w : world) (imp : Import) : Prop :=
  (ImportType imp = ExternTypeGlobal -> slotG self w (IndexPerType imp)) /\
  (ImportType imp = ExternTypeTable -> slotT self w (IndexPerType imp)) /\
  (ImportType imp = ExternTypeTag -> slotX self w (IndexPerType imp)) /\
  (ImportType imp = ExternTypeMemory -> slotM self w).

Lemma resolved_grows w w' imp : grows w w' -> resolved w imp -> resolved w' imp.
Proof. intros (H1 & H2 & H3 & H4)%slots_grow (? & ? & ? & ?). split_and!; auto. Qed.

Lemma zlookup_elem {A} (l : list A) k a : zlookup l k = Some a -> a ∈ l.
Proof. unfold zlookup. destruct (0 <=? k); [|done]. apply list_elem_of_lookup_2. Qed.

Lemma zindex_Some {A} (l : list A) k a : zlookup l k = Some a -> zindex l k = Ok a.
Proof. unfold zindex. by intros ->. Qed.

Lemma derefs_Some {A} (h : gmap positive A) p a : h !! p = Some a -> deref h p = Ok a.
Proof. unfold deref. by intros ->. Qed.

Lemma post_retain w a b : inv w -> is_Some (instances w !! a) -> is_Some (instances w !! b) ->
  post w (retain a b) (fun _ w' => tables w' = tables w /\ instances w' = instances w).
Proof.
  intros Hi Ha Hb. pose proof Hi as (Hw & _). apply (wo_graph _ Hw) in Ha as [ia Ha], Hb as [ib Hb].
  unfold retain, Execution.retainImport. unfold post. rewrite (derefs_Some _ _ _ Hb). cbn [res_bind].
  assert (forall g, (forall p, is_Some (graph w !! p) -> is_Some (g !! p)) -> forall r : bool,
    post w (fun w => (set_graph g w, Ok r)) (fun _ w' => tables w' = tables w /\ instances w' = instances w)) as Hg.
  { intros g Hg r. pose proof (post_graph m d self module false w (fun _ => g) (fun _ w' => tables w' = tables w /\ instances w' = instances w) Hi Hg) as H.
    unfold post, modifyM in *. cbn in *. by apply H. }
  destruct (_ || _); [refine (Hg (graph w) _ false); auto|].
  set (h := <[b := _]> (graph w)).
  assert (exists ja, h !! a = Some ja) as (ja & Hja).
  { unfold h. destruct (decide (a = b)) as [->|]; [rewrite lookup_insert_eq|rewrite lookup_insert_ne by done]; eauto. }
  rewrite (derefs_Some _ _ _ Hja). refine (Hg (<[a := _]> h) _ true). intros p Hp.
  unfold h. destruct (decide (p = a)) as [->|]; [rewrite lookup_insert_eq; eauto|rewrite lookup_insert_ne by done].
  destruct (decide (p = b)) as [->|]; [rewrite lookup_insert_eq; eauto|by rewrite lookup_insert_ne by done].
Qed.

Section One.
Context (im src : positive) (exporting : Module) (Hsrc : forall w, inv w -> modules w !! src = Some exporting -> module = src -> m = exporting).

Lemma post_function w imp exp k : inv w -> modules w !! src = Some exporting ->
  ImportSection m !! k = Some imp -> ImportType imp = ExternTypeFunc ->
  post w (resolveFunction self module src m exporting im imp exp) (fun _ w' => resolved w' imp).
Proof.
  intros Hi Hs Hk Ht. pose proof Hi as (Hw & _). pose proof (wo_modules _ Hw _ _ Hs) as Hex.
  pose proof (list_elem_of_lookup_2 _ _ _ Hk) as Hel.
  destruct (valid_imports _ _ m Hac imp Hel) as [Hf _]. unfold resolveFunction.
  destruct (zindex_in (TypeSection m) (DescFunc imp)) as (et & Ee & He); [by apply Hf|]. eapply bindM_Ok; [exact Ee|].
  destruct (typeOfFunction_ok exporting (ExportIndex exp) Hex) as (ft & Ef & Hft). eapply bindM_Ok; [exact Ef|].
  destruct (signatureMatches_total module src m exporting et ft) as [b Eb];
    [apply Hac|done|by apply (Hsrc w)|by eapply zlookup_elem|done|].
  eapply bindM_Ok; [exact Eb|]. apply bindM_guard; [done|]. intros _.
  match goal with |- context [set_imported ?f] => assert (keeps w (set_imported f w)) as K by (split; cbn; eauto with wz) end.
  apply post_modify; try done.
  - pose proof Hw as []. by eapply world_ok_step.
  - unfold resolved. rewrite Ht. split_and!; discriminate.
Qed.

Lemma self_slots w : inv w -> exists i, instances w !! self = Some i /\ partial m d w i.
Proof. intros (_ & _ & i & ? & _ & ? & _). eauto. Qed.

Lemma post_resolveTable w inst imp exp k : inv w -> instances w !! im = Some inst -> export_live w inst exp ->
  ExportType exp = ExternTypeTable -> ImportSection m !! k = Some imp -> ImportType imp = ExternTypeTable ->
  post w (resolveTable self module src m exporting im inst imp exp) (fun _ w' => resolved w' imp).
Proof.
  intros Hi Him Hl Hx Hk Ht. destruct Hl as (Hl & _). destruct (Hl Hx) as (t & T & Hs & HT & Hinv).
  pose proof (import_table _ _ m Hac d Hd k imp Hk Ht) as Hslot. unfold resolveTable. cbv zeta.
  eapply bindM_Ok; [by apply zindex_Some|]. eapply bind_read; [by apply derefs_Some|].
  pose proof Hi as (Hw & _).
  eapply bindM_Ok; [apply equivalentAcross_plain; [apply HplainT; by eapply zlookup_elem|by eapply wo_tables]|].
  apply bindM_guard; [done|]. intros E1. apply bindM_guard; [done|]. intros E2. bools.
  eapply (post_bind _ _ _ _ _ w _ _ (fun _ w' => w' = w /\ forall mx, TableMax (DescTable imp) = Some mx -> exists mx', TMax T = Some mx' /\ mx' <= mx)).
  { destruct (TableMax (DescTable imp)) as [mx|]; [|apply post_ret; [exact Hi|split; [reflexivity|discriminate]]].
    destruct (TMax T) as [mx'|]; [|by apply post_fail].
    apply post_guard; [done|]. intros E3. bools. split; [done|]. intros ? [= <-]. eauto. }
  intros _ _ _ _ [-> Hmax]. destruct (self_slots w Hi) as (i & Hself & Hp). eapply bind_instance; [done|].
  eapply bindM_Ok; [apply zset_in; rewrite (pa_tables_len _ _ _ _ Hp); by eapply zlookup_Some_lt|].
  eapply post_bind; [by eapply (post_set_table _ _ _ _ _ w i (IndexPerType imp) t T)|]. intros [] w1 Hi1 Hg1 Hsl1.
  destruct (ke_tables _ _ (proj1 Hg1) t T HT) as (T1 & HT1 & (_ & _ & _ & _ & Hinv1)).
  eapply post_bind.
  { apply post_retain; [done| |]; apply (ke_instances _ _ (proj1 Hg1)); eauto. }
  intros ? w2 Hi2 Hg2 [E2t E2i]. eapply bind_read; [apply derefs_Some; by rewrite E2t|].
  eapply bindM_Ok; [by rewrite bool_decide_eq_false_2 by auto|].
  eapply (post_table _ _ _ _ _ w2 t T1); [done|by rewrite E2t|split_and!; try done; by destruct (involvingModuleInstances T1)|].
  unfold resolved. rewrite Ht. split_and!; try discriminate. intros _. unfold slotT in *. cbn. by rewrite E2i.
Qed.

Lemma post_resolveMemory w inst imp exp k : inv w -> instances w !! im = Some inst -> export_live w inst exp ->
  ExportType exp = ExternTypeMemory -> ImportSection m !! k = Some imp -> ImportType imp = ExternTypeMemory ->
  post w (resolveMemory self inst imp) (fun _ w' => resolved w' imp).
Proof.
  intros Hi Him Hl Hx Hk Ht. destruct Hl as (_ & Hl & _). destruct (Hl Hx) as (p & mem & Hp & HM).
  pose proof (list_elem_of_lookup_2 _ _ _ Hk) as Hel. pose proof (import_memory _ _ m Hac d Hd Hmem imp Hel Ht) as Hdm.
  pose proof (io_each _ _ _ (ac_imports _ _ m Hac)) as He. cbn in He. rewrite Forall_forall in He.
  destruct (He imp Hel) as (_ & _ & _ & _ & _ & Hdesc & _). destruct (Hdesc Ht) as (md & Emd & _). rewrite Emd in Hdm.
  unfold resolveMemory. rewrite Emd. eapply bindM_Ok; [done|]. rewrite Hp. eapply bind_read; [by apply derefs_Some|].
  apply bindM_guard; [done|]. intros E1. apply bindM_guard; [done|]. intros E2. apply bindM_guard; [done|]. intros E3. bools.
  apply eqb_prop in E3. eapply post_bind; [by eapply (post_set_memory _ _ _ _ _ w p mem)|]. intros [] w1 Hi1 Hg1 Hs1.
  apply post_graph; [done| |].
  - intros q Hq. destruct (decide (q = self)) as [->|]; [rewrite lookup_alter_eq|by rewrite lookup_alter_ne].
    destruct Hq as [x ->]. by eexists.
  - unfold resolved. rewrite Ht. by split_and!.
Qed.

Lemma post_resolveGlobal w inst imp exp k : inv w -> instances w !! im = Some inst -> export_live w inst exp ->
  modules w !! src = Some exporting ->
  ExportType exp = ExternTypeGlobal -> ImportSection m !! k = Some imp -> ImportType imp = ExternTypeGlobal ->
  post w (resolveGlobal self module src m exporting inst imp exp) (fun _ w' => resolved w' imp).
Proof.
  intros Hi Him Hl Hs Hx Hk Ht. destruct Hl as (_ & _ & Hl & _). destruct (Hl Hx) as (g & G & Hg & HG).
  pose proof (import_global _ _ m Hac d Hd k imp Hk Ht) as Hslot. unfold resolveGlobal. cbv zeta.
  eapply bindM_Ok; [by apply zindex_Some|]. eapply bind_read; [by apply derefs_Some|]. pose proof Hi as (Hw & _).
  assert (plain (ValType (DescGlobal imp))) as P1 by (apply HplainG; by eapply zlookup_elem).
  destruct (wo_globals _ Hw g G HG) as [P2 _].
  apply bindM_guard; [done|]. intros E1%eqb_prop.
  destruct (isRefSubtypeOf_total (view exporting) (ValType (GlobalInstanceType G)) (ValType (DescGlobal imp))) as [b Eb];
    [apply (in_types _ (wo_modules _ Hw _ _ Hs))|].
  eapply (bindM_lift _ _ _ _ _ w); [done| |].
  { rewrite equivalentAcross_plain, subtypeAcross_plain, Eb by done. by destruct (Mutable _). }
  intros b' Eb'. apply bindM_guard; [done|]. intros ->.
  destruct (self_slots w Hi) as (i & Hself & Hp). eapply bind_instance; [done|].
  eapply bindM_Ok; [apply zset_in; rewrite (pa_globals_len _ _ _ _ Hp); by eapply zlookup_Some_lt|].
  eapply post_mono; [eapply (post_set_global _ _ _ _ _ w i (IndexPerType imp) g G); try done|].
  - split; [done|]. destruct (Mutable (DescGlobal imp)).
    + rewrite equivalentAcross_plain in Eb' by done. injection Eb' as Eb'. bools. by left.
    + rewrite subtypeAcross_plain in Eb' by done. right. split; [done|]. by erewrite isRefSubtypeOf_plain.
  - intros ? w' _ Hs'. unfold resolved. rewrite Ht. by split_and!.
Qed.

Lemma post_resolveTag w inst imp exp k : inv w -> instances w !! im = Some inst -> export_live w inst exp ->
  modules w !! src = Some exporting ->
  ExportType exp = ExternTypeTag -> ImportSection m !! k = Some imp -> ImportType imp = ExternTypeTag ->
  post w (resolveTag self module src m exporting inst imp exp) (fun _ w' => resolved w' imp).
Proof.
  intros Hi Him Hl Hs Hx Hk Ht. destruct Hl as (_ & _ & _ & Hl). destruct (Hl Hx) as (t & T & Htag & HT).
  pose proof (list_elem_of_lookup_2 _ _ _ Hk) as Hel. destruct (valid_imports _ _ m Hac imp Hel) as [_ Hf].
  pose proof (import_tag _ _ m Hac d Hd k imp Hk Ht) as Hslot. unfold resolveTag. pose proof Hi as (Hw & _).
  destruct (zindex_in (TypeSection m) (DescTag imp)) as (et & Ee & _); [by apply Hf|]. eapply bindM_Ok; [exact Ee|].
  eapply bindM_Ok; [by apply zindex_Some|]. eapply bind_read; [by apply derefs_Some|].
  destruct (wo_tags _ Hw t T HT) as (mt & Hmt & [ft Hft]).
  apply bindM_lift; [done| |].
  { unfold exporterTypeIdx. destruct (_ && _) eqn:E; [|done]. bools.
    destruct (structural_equivalence_correct (types m) (types exporting) (sameModule module src)
      (in_types _ (ac_in _ _ _ Hac)) (in_types _ (wo_modules _ Hw _ _ Hs))) with (x := DescTag imp) (y := snd (TagType T)) as (b & -> & _); [..|done].
    - unfold sameModule. intros Es%bool_decide_eq_true. by rewrite (Hsrc w Hi Hs Es).
    - specialize (Hf Ht). pose proof (wf_len _ (in_types _ (ac_in _ _ _ Hac))) as Hlen. unfold types in Hlen. rewrite zlen_map in Hlen. unfold is_u32. lia.
    - pose proof (wf_len _ (in_types _ (wo_modules _ Hw _ _ Hs))) as Hlen. unfold types in Hlen. rewrite zlen_map in Hlen.
      unfold between in *. bools. unfold is_u32. lia. }
  intros equiv Heq. eapply (post_bind _ _ _ _ _ w _ _ (fun _ w' => w' = w /\ equiv = true)).
  { destruct equiv; [by apply post_ret|].
    eapply bind_read; [rewrite (derefs_Some _ _ _ Hmt); cbn [res_bind]; by apply zindex_Some|]. by apply post_fail. }
  intros _ _ _ _ [-> ->]. destruct (self_slots w Hi) as (i & Hself & Hp). eapply bind_instance; [done|].
  eapply bindM_Ok; [apply zset_in; rewrite (pa_tags_len _ _ _ _ Hp); by eapply zlookup_Some_lt|].
  assert (xmatch m w module (DescTag imp) T) as Hxm.
  { right. exists exporting. unfold exporterTypeIdx in Heq. destruct (_ && _) eqn:E in Heq; [|done]. apply andb_true_iff in E as [Es%bool_decide_eq_true _]. by rewrite Es. }
  eapply post_mono; [by eapply (post_set_tag _ _ _ _ _ w i (IndexPerType imp) t T)|].
  intros ? w' _ Hs'. unfold resolved. rewrite Ht. by split_and!.
Qed.

Lemma getExport_no_panic i name et : no_panic (getExport i name et).
Proof. unfold getExport. by repeat case_match. Qed.

Lemma getExport_Ok i name et exp : getExport i name et = Ok exp -> InstanceExports i !! name = Some exp /\ ExportType exp = et.
Proof. unfold getExport. repeat case_match; intros [= <-]. bools. done. Qed.

Lemma post_resolveImport w imp k :
  inv w -> is_Some (instances w !! im) -> modules w !! src = Some exporting -> ImportSection m !! k = Some imp ->
  post w (resolveImport self module src m exporting im imp) (fun _ w' => resolved w' imp).
Proof.
  intros Hi [inst Him] Hs Hk. unfold resolveImport. eapply bind_read; [by apply derefs_Some|]. pose proof Hi as (Hw & _).
  apply bindM_lift; [done|apply getExport_no_panic|]. intros exp [He Het]%getExport_Ok.
  pose proof (wo_exports _ Hw _ _ Him _ _ He) as Hl.
  destruct (Z.eqb_spec (ImportType imp) ExternTypeFunc) as [E|N1]; [by eapply post_function|].
  destruct (Z.eqb_spec (ImportType imp) ExternTypeTable) as [E|N2]; [eapply post_resolveTable; try done; congruence|].
  destruct (Z.eqb_spec (ImportType imp) ExternTypeMemory) as [E|N3]; [eapply post_resolveMemory; try done; congruence|].
  destruct (Z.eqb_spec (ImportType imp) ExternTypeGlobal) as [E|N4]; [eapply post_resolveGlobal; try done; congruence|].
  destruct (Z.eqb_spec (ImportType imp) ExternTypeTag) as [E|N5]; [eapply post_resolveTag; try done; congruence|].
  apply post_ret; [done|]. by split_and!.
Qed.

End One.

Context (resolver : option (string -> resolution)).

(** The resolver returns instances that exist. *)
Definition resolver_ok (w : world) : Prop :=
  forall f name p, resolver = Some f -> f name = Resolved p -> is_Some (instances w !! p).

Lemma resolver_grows w w' : grows w w' -> resolver_ok w -> resolver_ok w'.
Proof. intros [K _] Hr f name p Hf Hp. by eapply (ke_instances _ _ K), Hr. Qed.

Lemma post_findModule w name : inv w -> resolver_ok w ->
  post w (findModule resolver name) (fun p w' => w' = w /\ is_Some (instances w !! p)).
Proof.
  intros Hi Hr. pose proof Hi as (Hw & _). unfold findModule.
  assert (post w (readM (fun w => ModuleList.module (names w) name)) (fun p w' => w' = w /\ is_Some (instances w !! p))) as Hs.
  { apply post_read; [done| |]; unfold ModuleList.module; destruct (named _ _) as [p|] eqn:E; try done.
    intros ? [= <-]. split; [done|]. by eapply (wo_names _ Hw). }
  destruct resolver as [f|] eqn:Ef; [|done]. destruct (f name) as [| |p] eqn:Ep; [done|by apply post_fail|].
  pose proof (Hr f name p Ef Ep) as Hp. destruct (wo_graph _ Hw _ Hp) as [i Hgi].
  eapply bind_read; [by apply derefs_Some|]. destruct (Execution.Closed i); [by apply post_fail|by apply post_ret].
Qed.

Lemma post_resolveModule w name : inv w -> resolver_ok w ->
  post w (resolveModule resolver self module m name)
    (fun _ w' => forall imp, imp ∈ ImportSection m -> ImportModule imp = name -> resolved w' imp).
Proof.
  intros Hi Hr. unfold resolveModule. eapply post_bind; [by apply post_findModule|].
  intros im w1 Hi1 _ [-> Him]. pose proof Hi1 as (Hw & _ & i & Hself & _).
  eapply post_bind; [apply (post_retain w self im); eauto|]. intros ok w2 Hi2 Hg2 [_ Ei2].
  apply bindM_guard; [done|]. intros ->. pose proof Hi2 as (Hw2 & Hm2 & _). rewrite <- Ei2 in Him. destruct Him as [inst Hinst].
  eapply bind_read; [by apply derefs_Some|]. destruct (wo_source _ Hw2 _ _ Hinst) as [exporting Hexp].
  eapply bind_read; [by apply derefs_Some|].
  pose proof (io_per _ _ _ (ac_imports _ _ m Hac) name) as Hper. cbn [is_perModule is_result] in Hper. rewrite Hper.
  eapply post_mono.
  { apply (post_forM _ _ _ _ _ _ (fun n w' => forall k' k imp, Z.of_nat k' < n ->
      positionsOf name (ImportSection m) !! k' = Some k -> ImportSection m !! k = Some imp -> resolved w' imp)); [done|lia|].
    intros k' k w3 Hk Hi3 Hg3 HJ. rewrite Z.add_0_l in *. cbn beta.
    destruct (ImportSection m !! k) as [imp|] eqn:Ek.
    - eapply post_mono.
      + apply (post_resolveImport im (Source inst) exporting) with (k := k); try done.
        * intros w4 (_ & Hm4 & _) Hs4 E4. congruence.
        * apply (ke_instances _ _ (proj1 Hg3)). eauto.
        * by rewrite (ke_modules _ _ (proj1 Hg3)).
      + intros ? w4 Hg4 Hres k'' k4 imp4 Hlt Hk4 Hi4. destruct (decide (k'' = k')) as [->|]; [simplify_eq; done|].
        eapply resolved_grows; [done|]. eapply (HJ k''); [lia|done..].
    - apply post_ret; [done|]. intros k'' k4 imp4 Hlt Hk4 Hi4. destruct (decide (k'' = k')) as [->|]; [simplify_eq|].
      eapply (HJ k''); [lia|done..]. }
  intros ? w' _ HJ imp [k Hk]%list_elem_of_lookup_1 Hname.
  assert (k ∈ positionsOf name (ImportSection m)) as [k' Hk']%list_elem_of_lookup_1.
  { apply list_elem_of_filter. rewrite Hk. split; [by f_equal/=; rewrite Hname|]. apply elem_of_seq. apply lookup_lt_Some in Hk. lia. }
  apply (HJ k' k imp); try done. apply lookup_lt_Some in Hk'. unfold zlen. lia.
Qed.

Lemma post_resolveImports w order : inv w -> resolver_ok w -> (forall imp, imp ∈ ImportSection m -> ImportModule imp ∈ order) ->
  post w (resolveImports resolver order self module m) (fun _ w' => forall imp, imp ∈ ImportSection m -> resolved w' imp).
Proof.
  intros Hi Hr Ho. unfold resolveImports. eapply post_mono.
  { apply (post_forM _ _ _ _ _ _ (fun n w' => forall k name imp, Z.of_nat k < n -> order !! k = Some name ->
      imp ∈ ImportSection m -> ImportModule imp = name -> resolved w' imp)); [done|lia|].
    intros k name w1 Hk Hi1 Hg1 HJ. rewrite Z.add_0_l in *. eapply post_mono.
    - apply post_resolveModule; [done|]. by eapply resolver_grows.
    - intros ? w2 Hg2 Hres k' name' imp Hlt Hk' Himp Hn. destruct (decide (k' = k)) as [->|]; [simplify_eq; auto|].
      eapply resolved_grows; [done|]. eapply (HJ k'); [lia|done..]. }
  intros ? w' _ HJ imp Himp. destruct (list_elem_of_lookup_1 _ _ (Ho imp Himp)) as [k Hk].
  apply (HJ k (ImportModule imp)); try done. apply lookup_lt_Some in Hk. unfold zlen. lia.
Qed.

End Resolve.

(** ** Values of constant expressions *)

Lemma Kind_AsNullable_plain v : Kind (AsNullable v) = Kind v.
Proof.
  unfold Kind, wrap8, AsNullable, flagNonNullable. apply Z.bits_inj'. intros i Hi.
  destruct (Z.lt_decidable i 8); [|by rewrite !Z.mod_pow2_bits_high by lia].
  rewrite !Z.mod_pow2_bits_low, Z.ldiff_spec, Z.shiftl_spec by lia.
  assert (Z.testbit 1 (i - 8) = false) as -> by (apply Z.testbit_neg_r; lia). apply andb_true_r.
Qed.

Lemma IsRef_plain v : plain v -> IsRef v = one_of (Kind v) [Kind ValueTypeFuncref; Kind ValueTypeExternref; Kind ValueTypeExnref].
Proof.
  unfold plain, IsConcreteRef, IsRef. cbv zeta. intros ->. cbn [one_of existsb]. by rewrite !orb_false_r, orb_assoc.
Qed.

Lemma subtype_vt_sim m a e : plain a -> plain e -> isRefSubtypeOf m a e = Ok true -> vt_sim e a.
Proof.
  unfold plain, isRefSubtypeOf. intros Pa Pe. rewrite Pa, Pe. cbn [andb].
  destruct (Z.eqb_spec a e) as [->|]; [by left|]. destruct (_ && _) eqn:E; [|done]. intros _. right. bools.
  unfold IsNullable in *. bools. split; [done|]. rewrite IsRef_plain in * by done.
  rewrite <- (Kind_AsNullable_plain a). match goal with H : AsNullable a = _ |- _ => rewrite H end. by rewrite Kind_AsNullable_plain.
Qed.

Lemma gmatch_sim m expected actual : plain (ValType expected) -> plain (ValType actual) -> gmatch m expected actual ->
  vt_sim (ValType expected) (ValType actual).
Proof. intros P1 P2 [_ [->|[_ H]]]; [by left|]. by eapply subtype_vt_sim. Qed.

(** The last word that was pushed is 32 bits wide when its type is i32. *)
Definition top32 (s : estate) : Prop := match e_types s with t :: _ => t = ValueTypeI32 -> exists x st, e_stack s = x :: st /\ is_u32 x | [] => True end.

Ltac peel := repeat match goal with
  | |- context [res_bind ?x _] => destruct x as [?y|?|?] eqn:?; cbn [res_bind]; [|done|done]
  | p : (_ * _)%type |- _ => destruct p
  | |- context [if ?b then _ else _] => destruct b eqn:?; try done
  end.

Lemma instruction_top g f data op s s' :
  (forall i t lo hi, g i = Ok (t, lo, hi) -> t = ValueTypeI32 -> is_u32 lo) ->
  constInstruction g f data op s = Ok (inr s') -> top32 s'.
Proof.
  intros Hg. unfold constInstruction. cbv zeta.
  assert (forall (r : res estate), (forall s1, r = Ok s1 -> top32 s1) ->
    (let! s := r in Ok (inr s)) = Ok (@inr (list Z * ValueType) estate s') -> top32 s') as Hgo.
  { intros [s1|e|e] Hr; [|done..]. intros [= <-]. by apply Hr. }
  assert (forall name t h s1, (t = ValueTypeI32 -> forall a b, is_u32 (h a b)) -> arith name t h s = Ok s1 -> top32 s1) as Har.
  { intros name t h s1 Hh. unfold arith. destruct (e_types s) as [|v1 [|v2 ts]]; [done..|]. destruct (_ || _); [done|].
    destruct (e_stack s) as [|b [|a st]]; [done..|]. intros [= <-] Et. eexists _, _. split; [done|]. by apply Hh. }
  assert (forall v t pc, (t = ValueTypeI32 -> is_u32 v) -> top32 (push1 v t pc s)) as Hpush by (intros v t pc Hv Et; eauto).
  repeat (match goal with |- context [if ?b then _ else _] => destruct b end; [apply Hgo|]);
    try (intros s1; apply Har; try discriminate; intros _ a b; apply wrap32_range).
  - intros s1. peel.
    intros [= <-]. apply Hpush. intros _. apply wrap32_range.
  - intros s1. peel. intros [= <-]. by apply Hpush.
  - intros s1. peel. intros [= <-]. by apply Hpush.
  - intros s1. peel. intros [= <-]. by apply Hpush.
  - intros s1. peel; intros [= <-]; [|apply Hpush; by eapply Hg].
    intros Et. match goal with E : (_ =? ValueTypeV128) = true |- _ => cbn in Et; subst; discriminate E end.
  - intros s1. peel. intros [= <-]. by apply Hpush.
  - intros s1. peel. intros [= <-]. by apply Hpush.
  - intros s1. unfold vecConst. peel. by intros [= <-].
  - destruct (_ =? _); [|done]. by destruct (e_types s) as [|? [|]].
Qed.

Lemma evaluateLoop_top g f data :
  (forall i t lo hi, g i = Ok (t, lo, hi) -> t = ValueTypeI32 -> is_u32 lo) -> forall fuel s v,
  top32 s -> evaluateLoop g f data fuel s = Ok (v, ValueTypeI32) -> exists x l, v = l ++ [x] /\ is_u32 x.
Proof.
  intros Hg. induction fuel as [|fuel IH]; intros s v Hs; cbn [evaluateLoop]; (destruct (_ >=? _); [done|]); [done|].
  destruct (zindex data (e_pc s)) as [op|e|e]; [|done..]. cbn [res_bind].
  destruct (constInstruction _ _ _ _ _) as [[[v1 t1]|s']|e|e] eqn:E; cbn [res_bind]; [| |done..].
  - intros [= -> ->]. apply instruction_end in E as [Et ->]. cbn in Et. unfold top32 in Hs. rewrite Et in Hs.
    destruct (Hs eq_refl) as (x & st & Ex & Hx). cbn [e_stack]. rewrite Ex, reverse_cons. eauto.
  - intros Hl. eapply IH; [|exact Hl]. by eapply instruction_top.
Qed.

Section I32.
Context (m : Module) (enabledFeatures : CoreFeatures) (Hin : input_ok m) (d : declarations) (Hd : AllDeclarations m = Ok d).
Context (read : Z -> res (ValueType * Z * Z)) (n : Z) (Hread : readable (d_globals d) n read) (Hn : ImportGlobalCount m <= n).
Context (Hwords : forall i t lo hi, read i = Ok (t, lo, hi) -> t = ValueTypeI32 -> is_u32 lo) (fref : Z -> Z).

Lemma concrete_flag t : IsConcreteRef (ValueTypeConcreteRef t false) = true.
Proof.
  unfold IsConcreteRef, ValueTypeConcreteRef. cbv zeta. cbn [negb]. apply negb_true_iff, Z.eqb_neq. intros E.
  apply (f_equal (fun z => Z.testbit z 9)) in E. rewrite Z.land_spec, !Z.lor_spec in E. cbn in E. by rewrite orb_true_l in E.
Qed.

Lemma subtype_i32 a : isRefSubtypeOf (view m) a ValueTypeI32 = Ok true -> a = ValueTypeI32.
Proof.
  unfold isRefSubtypeOf. destruct (Z.eqb_spec a ValueTypeI32); [done|]. rewrite andb_false_r. cbn -[AsNullable].
  by rewrite !andb_false_r.
Qed.

(** An expression that was accepted with type i32 gives one word of 32 bits. *)
Lemma validated_i32 l k e :
  zprefix (d_globals d) (ImportGlobalCount m) = Ok l -> expr_ok e -> validateConstExpression m l k e ValueTypeI32 = Ok tt ->
  exists x, evaluateConstExpr read (fun i => Ok (fref i)) e = Ok ([x], ValueTypeI32) /\ is_u32 x.
Proof.
  intros Hl He. unfold validateConstExpression. destruct (evaluateConstExpr _ _ e) as [[v typ]|err|err] eqn:E; [|done..].
  cbn [res_bind]. intros H.
  assert (typ = ValueTypeI32) as ->.
  { destruct (Z.eqb_spec typ ValueTypeFuncref) as [->|Hne].
    - destruct (typeIndexOfFunction_ok m Hin (default 0 (last (funcCalls (constExprCalls (constGlobal l) (constFunc k) e))))) as (t & Et & _).
      rewrite Et in H. cbn [res_bind] in H.
      destruct (isRefSubtypeOf (view m) _ ValueTypeI32) as [b|err|err] eqn:Es; [|done..]. cbn [res_bind] in H.
      apply fail_Ok in H. destruct b; [|done]. apply subtype_i32 in Es. destruct t as [t|]; [|done].
      assert (IsConcreteRef (ValueTypeConcreteRef t false) = true) as Hc by (apply concrete_flag). rewrite Es in Hc. done.
    - cbn [res_bind] in H. destruct (isRefSubtypeOf (view m) _ ValueTypeI32) as [b|err|err] eqn:Es; [|done..]. cbn [res_bind] in H.
      apply fail_Ok in H. destruct b; [|done]. by apply subtype_i32 in Es. }
  destruct (evaluate_typed (constGlobal l) read (constFunc k) (fun i => Ok (fref i)) e v ValueTypeI32) as (v' & t' & E' & Ht & Hlen);
    [by eapply prefix_agree|by intros i r _; eexists|done|].
  assert (t' = ValueTypeI32) as -> by (destruct Ht as [<-|[? _]]; done).
  pose proof (evaluate_slots _ _ e v ValueTypeI32 ltac:(intros; by apply constGlobal_no_panic) ltac:(intros; apply constFunc_no_panic) He E) as Hs.
  cbn in Hs. destruct (evaluateLoop_top _ _ e Hwords _ (mkEstate 0 [] []) v' I E') as (x & l' & -> & Hx).
  exists x. split; [|done]. rewrite E'. destruct l' as [|y l']; [done|]. rewrite length_app in Hlen. cbn in Hlen. lia.
Qed.

End I32.
