(* ===== verification/InstantiateTyped.v ===== *)
(** * An instance that is built is typed

    The operations of [build] after the resolution of the imports: each fills
    its slots of the instance with the objects that the module declares, and
    the segments are written into tables and memories without a panic.  The
    theorems: an accepted module is instantiated without a panic and the
    instance is [typed]; what the data segments write; how a table grows; and
    the modules on which instantiation goes wrong. *)

From S2P Require Import Prelude Leb128 Features Opcodes Types ValStack ConstExpr TypeIDs Execution ModuleList.
From S2P Require Import Memory Binary BinaryWf ModuleValidate ModuleValidateSafe Instantiate InstantiateSafe.

Lemma sgn64_small z : is_i64 z -> sgn64 z = z.
Proof. intros [? ?]. apply sgn_small; lia. Qed.

(** ** Building the objects *)

Section Build.
Context (enabledFeatures : CoreFeatures) (memoryLimitPages : Z) (m : Module) (Hac : accepted enabledFeatures memoryLimitPages m).
Context (d : declarations) (Hd : AllDeclarations m = Ok d) (Hmem : ImportMemoryCount m <= 1).
Context (HplainT : forall td, td ∈ d_tables d -> plain (TableRefType td)) (HplainG : forall gt, gt ∈ d_globals d -> plain (ValType gt)).
Context (self module : positive) (FunctionInstanceReference : positive -> Z -> Z).
Local Abbreviation grows := (grows self).






(** ** Reading the globals of the instance *)

Section Read.
Context (published : bool).
Local Abbreviation inv := (inv m d self module published).
Local Abbreviation post := (post m d self module published).








End Read.

(** ** Tables *)

Local Abbreviation inv := (inv m d self module false).
Local Abbreviation post := (post m d self module false).





(** ** Globals *)




Context (OwnsGlobals : bool) (Hindex : zlen (d_globals d) < 2 ^ 32).





(** ** Tags and memory *)



Context (allocator : option (Z -> Z -> LinearMemory)).




(** ** Exports *)














(** ** Segments *)

Section Segments.
Local Abbreviation inv := (InstantiateSafe.inv m d self module true).
Local Abbreviation post := (InstantiateSafe.post m d self module true).






(** *** Elements *)








(** *** Data *)





Context (preapplied : positive -> option (positive -> bool)).




End Segments.

(** ** The whole *)

Context (resolver : option (string -> resolution)) (NewModuleEngine : positive -> res unit).
Context (preapplied : positive -> option (positive -> bool)).









End Build.

(** ** Results *)



Section Results.
Context (resolver : option (string -> resolution)) (NewModuleEngine : positive -> res unit).
Context (FunctionInstanceReference : positive -> Z -> Z) (OwnsGlobals : bool) (allocator : option (Z -> Z -> LinearMemory)).
Context (preapplied : positive -> option (positive -> bool)) (startCall : positive -> Z -> M (option (string * bool))).
Local Abbreviation instantiate := (instantiate resolver NewModuleEngine FunctionInstanceReference OwnsGlobals allocator preapplied startCall).


(** The memory after segments at their offsets are written in order (or only
    checked, when [skip]), up to one that is out of bounds, and whether all are
    inside. *)
Fixpoint writes (skip : bool) (buf : list Z) (l : list (DataSegment * Z)) : list Z * bool :=
  match l with
  | [] => (buf, true)
  | (s, x) :: l' =>
      if Passive s then writes skip buf l'
      else if x + zlen (DataInit s) <=? zlen buf then writes skip (if skip then buf else stored buf x (DataInit s)) l'
      else (buf, false)
  end.

(** The image that the memory brings along: [None] when it has none, otherwise whether it is taken for the module. *)
Definition imageTaken (m : Module) (i : ModuleInstance) (p : positive) (mem : MemoryInstance) (dependent : bool) : option bool :=
  if bool_decide (is_Some (expBuffer mem)) && negb (Shared mem) && (ImportMemoryCount m =? 0) then
    (fun preappliedDataFor : positive -> bool => negb dependent && bool_decide (StartSection m = None) && negb (willRunStartFunctions i) && preappliedDataFor (Source i)) <$> preapplied p
  else None.

Section Writes.
Context (self p : positive) (w : world) (i : ModuleInstance) (mem : MemoryInstance).
Context (skip : bool) (Hi : instances w !! self = Some i) (Hp : InstanceMemory i = Some p) (Hmem : memories w !! p = Some mem).

(** The world with the segments [ds] and the memory [buf]. *)
Definition written (ds : list (list Z)) (buf : list Z) : world :=
  set_memories (insert p (set_Buffer buf mem)) (set_instances (insert self (set_DataInstances ds i)) w).

Definition offset_of (s : DataSegment) (x : Z) : Prop :=
  zlen (DataInit s) < 2 ^ 32 /\ is_u32 x /\
  (Passive s = false -> evaluateConstExprInModuleInstance (OffsetExpression s) (readGlobal w i) (FunctionInstanceReference self) = Ok [x]).

Lemma applyDataSegment_written ds buf k s x : 0 <= k < zlen ds -> offset_of s x ->
  let ds' := <[Z.to_nat k := DataInit s]> ds in
  if Passive s then applyDataSegment FunctionInstanceReference self skip k s (written ds buf) = (written ds' buf, Ok tt)
  else if x + zlen (DataInit s) <=? zlen buf
  then applyDataSegment FunctionInstanceReference self skip k s (written ds buf) = (written ds' (if skip then buf else stored buf x (DataInit s)), Ok tt)
  else exists e, applyDataSegment FunctionInstanceReference self skip k s (written ds buf) = (written ds' buf, Err e).
Proof.
  intros Hk (Hlen & Hx & Hoff) ds'. pose proof (zlen_nonneg (DataInit s)).
  assert (forall ds buf, deref (instances (written ds buf)) self = Ok (set_DataInstances ds i)) as Hself
    by (intros; apply derefs_Some; cbn; apply lookup_insert_eq).
  assert (forall ds buf, derefOpt (memories (written ds buf)) (Some p) = Ok (set_Buffer buf mem)) as Hm
    by (intros; apply derefs_Some; cbn; apply lookup_insert_eq).
  assert (forall ds', set_instances (insert self (set_DataInstances ds' (set_DataInstances ds i))) (written ds buf) = written ds' buf) as Hset
    by (intros; unfold written, set_memories, set_instances; cbn; by rewrite insert_insert_eq).
  assert (forall buf', set_memories (insert p (set_Buffer buf' (set_Buffer buf mem))) (written ds' buf) = written ds' buf') as Hstore
    by (intros; unfold written, set_memories, set_instances; cbn; by rewrite insert_insert_eq).
  unfold applyDataSegment, updateInstance, evaluateFirst, evaluate, instanceOf, readM, liftM, modifyM, mbind, M_bind.
  rewrite Hself. cbn [DataInstances set_DataInstances]. rewrite zset_in by done. fold ds'. cbv beta iota.
  rewrite ?Hset. destruct (Passive s); [done|]. cbv beta iota. rewrite Hself. cbv beta iota.
  assert (evaluateConstExprInModuleInstance (OffsetExpression s) (readGlobal (written ds' buf) (set_DataInstances ds' i))
    (FunctionInstanceReference self) = Ok [x]) as -> by by apply Hoff.
  change (zindex [x] 0) with (Ok x). cbv beta iota. cbn [InstanceMemory set_DataInstances]. rewrite Hp, Hm. cbv beta iota. cbn [Buffer set_Buffer].
  unfold is_u32 in Hx. rewrite !(sgn64_small x), sgn64_small by (unfold is_i64; lia).
  rewrite (proj2 (Z.ltb_ge _ _)) by lia. cbn [orb]. rewrite Z.gtb_ltb, <- Z.leb_antisym.
  destruct (Z.leb_spec (x + zlen (DataInit s)) (zlen buf)) as [Hb|Hb]; cbn [guardM failM]; [|by eexists].
  unfold mret, M_ret. destruct skip; [done|]. rewrite copyAt_in by lia. by rewrite Hstore.
Qed.

Lemma applySegments_written segs : forall k ds buf, 0 <= k -> k + zlen segs = zlen ds -> (forall s x, (s, x) ∈ segs -> offset_of s x) ->
  let '(buf', ok) := writes skip buf segs in
  exists ds' r, forM (fun k s => applyDataSegment FunctionInstanceReference self skip k s) k segs.*1 (written ds buf) = (written ds' buf', r) /\
    (if ok : bool then r = Ok tt /\ ds' = take (Z.to_nat k) ds ++ map DataInit segs.*1 else exists e, r = Err e).
Proof.
  induction segs as [|[s x] segs IH]; intros k ds buf Hk Hlen Hoff; cbn [writes].
  { eexists ds, _. split; [done|]. split; [done|]. cbn. rewrite app_nil_r, take_ge; [done|]. unfold zlen in *. cbn in Hlen. lia. }
  pose proof (Hoff s x ltac:(by left)) as Hs. rewrite zlen_cons in Hlen. pose proof (zlen_nonneg segs).
  pose proof (applyDataSegment_written ds buf k s x ltac:(lia) Hs) as Hseg. cbv zeta in Hseg. cbn [fmap list_fmap forM].
  unfold mbind, M_bind.
  assert (forall buf1, let '(buf', ok) := writes skip buf1 segs in
    exists ds' r, forM (fun k s => applyDataSegment FunctionInstanceReference self skip k s) (k + 1) segs.*1
      (written (<[Z.to_nat k := DataInit s]> ds) buf1) = (written ds' buf', r) /\
    (if ok : bool then r = Ok tt /\ ds' = take (Z.to_nat k) ds ++ DataInit s :: map DataInit segs.*1 else exists e, r = Err e)) as Hnext.
  { intros buf1. specialize (IH (k + 1) (<[Z.to_nat k := DataInit s]> ds) buf1). destruct (writes skip buf1 segs) as [b ok].
    destruct IH as (ds' & r & E & Hr); [lia|rewrite zlen_insert; lia|intros; apply Hoff; by right|].
    exists ds', r. split; [done|]. destruct ok; [|done]. destruct Hr as [? ->]. split; [done|].
    rewrite Z2Nat.inj_add by lia. rewrite Nat.add_1_r. erewrite take_S_r by (apply list_lookup_insert_eq; unfold zlen in *; lia).
    rewrite take_insert_ge by lia. by rewrite <- app_assoc. }
  cbn [fst]. destruct (Passive s); [rewrite Hseg; apply Hnext|].
  destruct (_ <=? _); [rewrite Hseg; apply Hnext|]. destruct Hseg as [e ->]. eexists _, _. split; [done|]. by eexists.
Qed.

End Writes.

(** C31: In an instance with a memory, the data segments are written into it in
    their order, each at the offset its expression gives, a number of 32 bits, up
    to the first that is out of bounds: then what was written stays and the outcome
    is an error.  Otherwise the instance keeps a copy of all segments, passive ones
    included, for memory.init.  When the allocator of an own memory that is not
    shared brings an image, this is what happens to it: if it is for this
    module, no offset depends on an import and no start function will run, the
    segments are checked against the bounds but the memory stays as it came; otherwise
    the memory is cleared before the segments are written. *)
Theorem data_segments_written self p m w i mem segs dependent :
  instances w !! self = Some i -> InstanceMemory i = Some p -> memories w !! p = Some mem ->
  (forall s x, (s, x) ∈ segs -> offset_of self w i s x) -> hasImportDependentDataOffsets segs.*1 = Ok dependent ->
  let image := imageTaken m i p mem dependent in
  let '(buf, ok) := writes (bool_decide (image = Some true))
                      (if bool_decide (image = Some false) then zeros (zlen (Buffer mem)) else Buffer mem) segs in
  exists ds r, applyData FunctionInstanceReference preapplied self m segs.*1 w = (written self p w i mem ds buf, r) /\
    if ok : bool then r = Ok tt /\ ds = map DataInit segs.*1 else exists e, r = Err e.
Proof.
  intros Hi Hp Hmem Hoff Hdep image. set (ds := replicate (length segs.*1) ([] : list Z)).
  set (skip := bool_decide (image = Some true)). set (buf0 := if bool_decide (image = Some false) then _ else _).
  pose proof (applySegments_written self p w i mem skip Hp segs 0 ds buf0) as H.
  assert (applyData FunctionInstanceReference preapplied self m segs.*1 w =
    forM (fun k s => applyDataSegment FunctionInstanceReference self skip k s) 0 segs.*1 (written self p w i mem ds buf0)) as ->.
  { assert (set_instances (insert self (set_DataInstances ds i)) w = written self p w i mem ds (Buffer mem)) as E.
    { unfold written, set_memories, set_instances. cbn. rewrite (insert_id (memories w)); [done|]. rewrite Hmem. by destruct mem. }
    assert (preappliedData preapplied self m segs.*1 (written self p w i mem ds (Buffer mem)) = (written self p w i mem ds buf0, Ok skip)) as Ep.
    { unfold preappliedData, instanceOf, readM, liftM, modifyM, mbind, M_bind, mret, M_ret.
      rewrite (derefs_Some (instances (written _ _ _ _ _ _ _)) self (set_DataInstances ds i)) by apply lookup_insert_eq.
      cbn [InstanceMemory set_DataInstances]. rewrite Hp.
      rewrite (derefs_Some (memories (written _ _ _ _ _ _ _)) p (set_Buffer (Buffer mem) mem)) by apply lookup_insert_eq.
      cbn [expBuffer Shared Buffer set_Buffer willRunStartFunctions Source set_DataInstances]. unfold buf0, skip, image, imageTaken.
      destruct (_ && (ImportMemoryCount m =? 0)); [|done]. destruct (preapplied p) as [f|]; [|done]. cbn [fmap option_fmap option_map].
      rewrite Hdep. destruct (_ && f (Source i)); [done|]. cbn. unfold written, set_memories, set_instances. cbn. by rewrite insert_insert_eq. }
    unfold applyData. fold ds. unfold updateInstance, instanceOf, readM, modifyM, mbind, M_bind. rewrite (derefs_Some _ _ _ Hi), E.
    by rewrite Ep. }
  destruct (writes _ _ _) as [buf ok]. apply H; [lia| |done]. unfold ds, zlen. rewrite length_replicate, length_fmap. lia.
Qed.

End Results.

(** [Grow] of a table returns the previous length and appends [delta] copies
    of the reference, unless the new length reaches the limit of tables or exceeds the
    maximum of the table: then it returns [0xffffffff] and leaves the table as it is.
    The copies, made by doubling what is copied, all hold the reference. *)
Theorem table_grow_spec t delta initialRef :
  is_u32 delta -> zlen (References t) < 2 ^ 32 ->
  let len := zlen (References t) in
  let fits := (delta =? 0) || ((len + delta <? MaximumTableIndex) && (match TMax t with Some mx => len + delta <=? mx | None => true end)) in
  TableGrow t delta initialRef =
    Ok (if fits then (set_References (References t ++ replicate (Z.to_nat delta) initialRef) t, len) else (t, 0xffffffff)).
Proof. apply TableGrow_spec. Qed.

Lemma table_grow_spec_witness :
  TableGrow (mkTableInstance [7] 1 (Some 4) ValueTypeFuncref []) 3 9 =
  Ok (mkTableInstance [7; 9; 9; 9] 1 (Some 4) ValueTypeFuncref [], 1).
Proof. apply (table_grow_spec (mkTableInstance [7] 1 (Some 4) ValueTypeFuncref []) 3 9); [done|vm_compute; reflexivity]. Defined.

(** A memory of four bytes and three segments, the last out of bounds. *)
Definition small_world : world :=
  mkWorld {[1%positive := mkModuleInstance "m" ∅ [] (Some 1%positive) [] [] [] [] 1 false]} ∅ ∅ ∅
    {[1%positive := mkMemoryInstance [0; 0; 0; 0] 4 0 0 1 false None]} ∅ ∅ ModuleList.NewStore [].
Definition small_segments : list (DataSegment * Z) :=
  [(mkDataSegment [0x41; 1; 0x0b] [97; 98] false, 1); (mkDataSegment [] [99] true, 0); (mkDataSegment [0x41; 2; 0x0b] [100] false, 2);
   (mkDataSegment [0x41; 3; 0x0b] [101; 102] false, 3)].

(** The same segments without the last, in a memory whose image is for module 1. *)
Definition image_world : world :=
  mkWorld {[1%positive := mkModuleInstance "m" ∅ [] (Some 1%positive) [] [] [] [] 1 false]} ∅ ∅ ∅
    {[1%positive := mkMemoryInstance [9; 9; 9; 9] 4 0 0 1 false (Some (mkLinearMemory (fun _ _ => None)))]} ∅ ∅ ModuleList.NewStore [].

Lemma data_segments_written_witness :
  writes false [0; 0; 0; 0] small_segments = ([0; 97; 100; 0], false) /\
  (exists w e, applyData (fun _ i => i) (fun _ => None) 1 emptyModule small_segments.*1 small_world = (w, Err e)) /\
  (exists ds r, applyData (fun _ i => i) (fun _ => Some (fun m => bool_decide (m = 2%positive))) 1 emptyModule (take 3 small_segments).*1 image_world =
     (written 1 1 image_world (mkModuleInstance "m" ∅ [] (Some 1%positive) [] [] [] [] 1 false)
        (mkMemoryInstance [9; 9; 9; 9] 4 0 0 1 false (Some (mkLinearMemory (fun _ _ => None)))) ds [0; 97; 100; 0], r) /\ r = Ok tt).
Proof.
  assert (Hoff : forall w i s x, Globals i = [] -> (s, x) ∈ small_segments -> offset_of (fun _ i => i) 1 w i s x).
  { intros w i s x Hg Hin. unfold small_segments in Hin.
    repeat (apply elem_of_cons in Hin as [Hin|Hin]; [injection Hin as -> ->; split_and!; vm_compute; done|]).
    by apply not_elem_of_nil in Hin. }
  split; [by vm_compute|]. split.
  - destruct (data_segments_written (fun _ i => i) (fun _ => None) 1 1 emptyModule small_world
      (mkModuleInstance "m" ∅ [] (Some 1%positive) [] [] [] [] 1 false) (mkMemoryInstance [0; 0; 0; 0] 4 0 0 1 false None) small_segments false)
      as (ds & r & H & e & Hr); try done; [intros; by apply Hoff|]. rewrite Hr in H. eauto.
  - destruct (data_segments_written (fun _ i => i) (fun _ => Some (fun m => bool_decide (m = 2%positive))) 1 1 emptyModule image_world
      (mkModuleInstance "m" ∅ [] (Some 1%positive) [] [] [] [] 1 false)
      (mkMemoryInstance [9; 9; 9; 9] 4 0 0 1 false (Some (mkLinearMemory (fun _ _ => None)))) (take 3 small_segments) false)
      as (ds & r & H & Hr & _); try done; [|eauto].
    intros s x Hin. apply Hoff; [done|]. rewrite <- (take_drop 3). apply elem_of_app. by left.
Defined.

(** ** A store with an exporter *)

(** Instantiation with an engine that always succeeds and imports resolved as given. *)
Definition instantiateWith (resolved : string -> resolution) (f : CoreFeatures) (module : positive) (w : world) : world * res positive :=
  instantiate (Some resolved) (fun _ => Ok tt) (fun _ i => i + 1) false None (fun _ => None) (fun _ _ => mret None)
    (elements (dom (ImportPerModule (default emptyModule (modules w !! module))))) f module "m" false w.

Definition accept (f : CoreFeatures) (binary : list Z) : Module :=
  match decodeAndValidate f 65536 false false false binary with Ok m => m | _ => emptyModule end.

Definition store_of (f : CoreFeatures) (binaries : list (list Z)) : world :=
  mkWorld ∅ (list_to_map (zip [1%positive; 2%positive; 3%positive] (map (accept f) binaries))) ∅ ∅ ∅ ∅ ∅ ModuleList.NewStore [].







(** ** Modules that are accepted and on which instantiation goes wrong *)

(** A table of references to the type 0, exported, and an import of a table of references to a type that does not exist. *)
Definition typed_table : list Z := module_of [section 1 [1; 0x60; 0; 0]; section 4 [1; 0x63; 0; 0; 1]; section 7 [1; 1; 0x74; 1; 0]].
Definition unknown_type : list Z := module_of [section 2 [1; 1; 0x61; 1; 0x74; 1; 0x63; 0xe3; 0; 0; 1]].
(** A table of the type 1, and a module that imports it as its type 0 and exports it. *)
Definition table_exporter : list Z :=
  module_of [section 1 [2; 0x60; 1; 0x7f; 0; 0x60; 0; 0]; section 4 [1; 0x63; 1; 0; 1]; section 7 [1; 1; 0x74; 1; 0]].
Definition table_reexporter : list Z :=
  module_of [section 1 [1; 0x60; 0; 0]; section 2 [1; 1; 0x61; 1; 0x74; 1; 0x63; 0; 0; 1]; section 7 [1; 1; 0x74; 1; 0]].
(** The same with a tag. *)
Definition tag_exporter : list Z := module_of [section 1 [1; 0x60; 0; 0]; section 13 [1; 0; 0]; section 7 [1; 1; 0x74; 4; 0]].
Definition tag_reexporter : list Z :=
  module_of [section 1 [1; 0x60; 0; 0]; section 2 [1; 1; 0x61; 1; 0x74; 4; 0; 0]; section 7 [1; 1; 0x74; 4; 0]].
Definition FeaturesEH : CoreFeatures := Z.lor CoreFeaturesV2 CoreFeaturesExceptionHandling.
(** A passive element segment. *)
Definition passive_element : list Z :=
  module_of [section 1 [1; 0x60; 0; 0]; section 3 [1; 0]; section 4 [1; 0x70; 0; 1]; section 9 [1; 1; 0; 1; 0]; section 10 [1; 2; 0; 0x0b]].
Definition FeaturesNoRef : CoreFeatures := SetEnabled CoreFeaturesV2 CoreFeatureReferenceTypes false.
(** Three element segments, the second out of bounds, and a data segment. *)
Definition element_out_of_bounds : list Z :=
  module_of [section 1 [1; 0x60; 0; 0]; section 3 [1; 0]; section 4 [1; 0x70; 0; 2]; section 5 [1; 0; 1];
    section 9 [3; 0; 0x41; 0; 0x0b; 1; 0; 0; 0x41; 9; 0x0b; 1; 0; 0; 0x41; 1; 0x0b; 1; 0]; section 10 [1; 2; 0; 0x0b];
    section 11 [1; 0; 0x41; 0; 0x0b; 1; 0x61]].

(** The outcomes of instantiating the modules of a store in turn, each importing from the one before. *)
Fixpoint instantiateAll (f : CoreFeatures) (l : list positive) (w : world) : world * list (res positive) :=
  match l with
  | [] => (w, [])
  | p :: l' =>
      let (w, r) := instantiateWith (fun _ => if (p =? 1)%positive then ResolvedNil else Resolved (Pos.pred p)) f p w in
      let (w, rs) := instantiateAll f l' w in
      (w, r :: rs)
  end.

(** Five instantiations of modules that [Validate] accepts.  An import of a table whose
    type is an index that does not exist panics, as the types of imports are
    not checked.  A table imported from a module that re-exports it panics,
    as the type index of the module that defines it is looked up in the re-exporter.  A tag from a
    module that re-exports it is refused with a type that is printed as the expected one.  Without the feature reference
    types a passive element segment is taken for an active one and panics.  And an active element
    segment that is out of bounds ends the loop over the segments without an error: the
    third segment is not written while the data segment is. *)
Theorem instantiate_panics :
  snd (instantiateAll CoreFeaturesV2 [1; 2]%positive (store_of CoreFeaturesV2 [typed_table; unknown_type]))
    = [Ok 1%positive; Panic "index out of range"] /\
  snd (instantiateAll CoreFeaturesV2 [1; 2; 3]%positive (store_of CoreFeaturesV2 [table_exporter; table_reexporter; table_reexporter]))
    = [Ok 1%positive; Ok 2%positive; Panic "index out of range"] /\
  snd (instantiateAll FeaturesEH [1; 2; 3]%positive (store_of FeaturesEH [tag_exporter; tag_reexporter; tag_reexporter]))
    = [Ok 1%positive; Ok 2%positive; Err "import tag[a.t]: tag type mismatch: v_v != v_v"] /\
  snd (instantiateAll FeaturesNoRef [1]%positive (store_of FeaturesNoRef [passive_element])) = [Panic "index out of range"] /\
  (let (w, rs) := instantiateAll CoreFeaturesV2 [1]%positive (store_of CoreFeaturesV2 [element_out_of_bounds]) in
   rs = [Ok 1%positive] /\ References <$> tables w !! 1%positive = Some [1; 0] /\
   (fun mem => take 1 (Buffer mem)) <$> memories w !! 1%positive = Some [0x61]).
Proof. split_and!; vm_compute; done. Qed.
