(* ===== verification/Operations.v ===== *)
(** * Operations of the interpreter (src/internal/engine/interpreter/operations.go)

    The intermediate representation that the interpreter executes: the kinds
    of operations, the flat record [unionOperation] with a constructor per
    operation, labels and drop ranges.

    Enumerations of bytes are numbers, as they are stored in the byte fields of
    an operation.  A floating-point constant is the number that its bits are. *)

From stdpp Require Import pretty.
From S2P Require Import Prelude Signature.

(** ** Types of operands *)

Definition unsignedInt : Type := Z.
Definition unsignedInt32 : unsignedInt := 0.
Definition unsignedInt64 : unsignedInt := 1.

Definition signedInt : Type := Z.
Definition signedInt32 : signedInt := 0.
Definition signedInt64 : signedInt := 1.
Definition signedUint32 : signedInt := 2.
Definition signedUint64 : signedInt := 3.

Definition float : Type := Z.
Definition f32 : float := 0.
Definition f64 : float := 1.

Definition signedType : Type := Z.
Definition signedTypeInt32 : signedType := 0.
Definition signedTypeUint32 : signedType := 1.
Definition signedTypeInt64 : signedType := 2.
Definition signedTypeUint64 : signedType := 3.
Definition signedTypeFloat32 : signedType := 4.
Definition signedTypeFloat64 : signedType := 5.

Definition labelKind : Type := Z.
Definition labelKindHeader : labelKind := 0.
Definition labelKindElse : labelKind := 1.
Definition labelKindContinuation : labelKind := 2.
Definition labelKindReturn : labelKind := 3.
Definition labelKindNum : labelKind := 4.

Definition shape : Type := Z.
Definition shapeI8x16 : shape := 0.
Definition shapeI16x8 : shape := 1.
Definition shapeI32x4 : shape := 2.
Definition shapeI64x2 : shape := 3.
Definition shapeF32x4 : shape := 4.
Definition shapeF64x2 : shape := 5.

Definition v128LoadType : Type := Z.
Definition v128LoadType128 : v128LoadType := 0.
Definition v128LoadType8x8s : v128LoadType := 1.
Definition v128LoadType8x8u : v128LoadType := 2.
Definition v128LoadType16x4s : v128LoadType := 3.
Definition v128LoadType16x4u : v128LoadType := 4.
Definition v128LoadType32x2s : v128LoadType := 5.
Definition v128LoadType32x2u : v128LoadType := 6.
Definition v128LoadType8Splat : v128LoadType := 7.
Definition v128LoadType16Splat : v128LoadType := 8.
Definition v128LoadType32Splat : v128LoadType := 9.
Definition v128LoadType64Splat : v128LoadType := 10.
Definition v128LoadType32zero : v128LoadType := 11.
Definition v128LoadType64zero : v128LoadType := 12.

Definition v128CmpType : Type := Z.
Definition v128CmpTypeI8x16Eq : v128CmpType := 0.
Definition v128CmpTypeI8x16Ne : v128CmpType := 1.
Definition v128CmpTypeI8x16LtS : v128CmpType := 2.
Definition v128CmpTypeI8x16LtU : v128CmpType := 3.
Definition v128CmpTypeI8x16GtS : v128CmpType := 4.
Definition v128CmpTypeI8x16GtU : v128CmpType := 5.
Definition v128CmpTypeI8x16LeS : v128CmpType := 6.
Definition v128CmpTypeI8x16LeU : v128CmpType := 7.
Definition v128CmpTypeI8x16GeS : v128CmpType := 8.
Definition v128CmpTypeI8x16GeU : v128CmpType := 9.
Definition v128CmpTypeI16x8Eq : v128CmpType := 10.
Definition v128CmpTypeI16x8Ne : v128CmpType := 11.
Definition v128CmpTypeI16x8LtS : v128CmpType := 12.
Definition v128CmpTypeI16x8LtU : v128CmpType := 13.
Definition v128CmpTypeI16x8GtS : v128CmpType := 14.
Definition v128CmpTypeI16x8GtU : v128CmpType := 15.
Definition v128CmpTypeI16x8LeS : v128CmpType := 16.
Definition v128CmpTypeI16x8LeU : v128CmpType := 17.
Definition v128CmpTypeI16x8GeS : v128CmpType := 18.
Definition v128CmpTypeI16x8GeU : v128CmpType := 19.
Definition v128CmpTypeI32x4Eq : v128CmpType := 20.
Definition v128CmpTypeI32x4Ne : v128CmpType := 21.
Definition v128CmpTypeI32x4LtS : v128CmpType := 22.
Definition v128CmpTypeI32x4LtU : v128CmpType := 23.
Definition v128CmpTypeI32x4GtS : v128CmpType := 24.
Definition v128CmpTypeI32x4GtU : v128CmpType := 25.
Definition v128CmpTypeI32x4LeS : v128CmpType := 26.
Definition v128CmpTypeI32x4LeU : v128CmpType := 27.
Definition v128CmpTypeI32x4GeS : v128CmpType := 28.
Definition v128CmpTypeI32x4GeU : v128CmpType := 29.
Definition v128CmpTypeI64x2Eq : v128CmpType := 30.
Definition v128CmpTypeI64x2Ne : v128CmpType := 31.
Definition v128CmpTypeI64x2LtS : v128CmpType := 32.
Definition v128CmpTypeI64x2GtS : v128CmpType := 33.
Definition v128CmpTypeI64x2LeS : v128CmpType := 34.
Definition v128CmpTypeI64x2GeS : v128CmpType := 35.
Definition v128CmpTypeF32x4Eq : v128CmpType := 36.
Definition v128CmpTypeF32x4Ne : v128CmpType := 37.
Definition v128CmpTypeF32x4Lt : v128CmpType := 38.
Definition v128CmpTypeF32x4Gt : v128CmpType := 39.
Definition v128CmpTypeF32x4Le : v128CmpType := 40.
Definition v128CmpTypeF32x4Ge : v128CmpType := 41.
Definition v128CmpTypeF64x2Eq : v128CmpType := 42.
Definition v128CmpTypeF64x2Ne : v128CmpType := 43.
Definition v128CmpTypeF64x2Lt : v128CmpType := 44.
Definition v128CmpTypeF64x2Gt : v128CmpType := 45.
Definition v128CmpTypeF64x2Le : v128CmpType := 46.
Definition v128CmpTypeF64x2Ge : v128CmpType := 47.

Definition atomicArithmeticOp : Type := Z.
Definition atomicArithmeticOpAdd : atomicArithmeticOp := 0.
Definition atomicArithmeticOpSub : atomicArithmeticOp := 1.
Definition atomicArithmeticOpAnd : atomicArithmeticOp := 2.
Definition atomicArithmeticOpOr : atomicArithmeticOp := 3.
Definition atomicArithmeticOpXor : atomicArithmeticOp := 4.
Definition atomicArithmeticOpNop : atomicArithmeticOp := 5.

Definition unsignedIntString (s : unsignedInt) : string :=
  if s =? unsignedInt32 then "i32"
  else if s =? unsignedInt64 then "i64"
  else "".

Definition signedIntString (s : signedInt) : string :=
  if s =? signedUint32 then "u32"
  else if s =? signedUint64 then "u64"
  else if s =? signedInt32 then "s32"
  else if s =? signedInt64 then "s64"
  else "".

Definition floatString (s : float) : string :=
  if s =? f32 then "f32"
  else if s =? f64 then "f64"
  else "".

Definition signedTypeString (s : signedType) : string :=
  if s =? signedTypeInt32 then "s32"
  else if s =? signedTypeUint32 then "u32"
  else if s =? signedTypeInt64 then "s64"
  else if s =? signedTypeUint64 then "u64"
  else if s =? signedTypeFloat32 then "f32"
  else if s =? signedTypeFloat64 then "f64"
  else "".

Definition shapeName (s : shape) : string :=
  if s =? shapeI8x16 then "I8x16"
  else if s =? shapeI16x8 then "I16x8"
  else if s =? shapeI32x4 then "I32x4"
  else if s =? shapeI64x2 then "I64x2"
  else if s =? shapeF32x4 then "F32x4"
  else if s =? shapeF64x2 then "F64x2"
  else "".

(** ** Kinds *)

Inductive operationKind :=
  | operationKindUnreachable | operationKindLabel | operationKindBr | operationKindBrIf | operationKindBrTable
  | operationKindCall | operationKindCallIndirect | operationKindDrop | operationKindSelect | operationKindPick
  | operationKindSet | operationKindGlobalGet | operationKindGlobalSet | operationKindLoad | operationKindLoad8
  | operationKindLoad16 | operationKindLoad32 | operationKindStore | operationKindStore8 | operationKindStore16
  | operationKindStore32 | operationKindMemorySize | operationKindMemoryGrow | operationKindConstI32
  | operationKindConstI64 | operationKindConstF32 | operationKindConstF64 | operationKindEq | operationKindNe
  | operationKindEqz | operationKindLt | operationKindGt | operationKindLe | operationKindGe | operationKindAdd
  | operationKindSub | operationKindMul | operationKindClz | operationKindCtz | operationKindPopcnt
  | operationKindDiv | operationKindRem | operationKindAnd | operationKindOr | operationKindXor | operationKindShl
  | operationKindShr | operationKindRotl | operationKindRotr | operationKindAbs | operationKindNeg
  | operationKindCeil | operationKindFloor | operationKindTrunc | operationKindNearest | operationKindSqrt
  | operationKindMin | operationKindMax | operationKindCopysign | operationKindI32WrapFromI64
  | operationKindITruncFromF | operationKindFConvertFromI | operationKindF32DemoteFromF64
  | operationKindF64PromoteFromF32 | operationKindI32ReinterpretFromF32 | operationKindI64ReinterpretFromF64
  | operationKindF32ReinterpretFromI32 | operationKindF64ReinterpretFromI64 | operationKindExtend
  | operationKindSignExtend32From8 | operationKindSignExtend32From16 | operationKindSignExtend64From8
  | operationKindSignExtend64From16 | operationKindSignExtend64From32 | operationKindMemoryInit
  | operationKindDataDrop | operationKindMemoryCopy | operationKindMemoryFill | operationKindTableInit
  | operationKindElemDrop | operationKindTableCopy | operationKindRefFunc | operationKindTableGet
  | operationKindTableSet | operationKindTableSize | operationKindTableGrow | operationKindTableFill
  | operationKindV128Const | operationKindV128Add | operationKindV128Sub | operationKindV128Load
  | operationKindV128LoadLane | operationKindV128Store | operationKindV128StoreLane | operationKindV128ExtractLane
  | operationKindV128ReplaceLane | operationKindV128Splat | operationKindV128Shuffle | operationKindV128Swizzle
  | operationKindV128AnyTrue | operationKindV128AllTrue | operationKindV128BitMask | operationKindV128And
  | operationKindV128Not | operationKindV128Or | operationKindV128Xor | operationKindV128Bitselect
  | operationKindV128AndNot | operationKindV128Shl | operationKindV128Shr | operationKindV128Cmp
  | operationKindV128AddSat | operationKindV128SubSat | operationKindV128Mul | operationKindV128Div
  | operationKindV128Neg | operationKindV128Sqrt | operationKindV128Abs | operationKindV128Popcnt
  | operationKindV128Min | operationKindV128Max | operationKindV128AvgrU | operationKindV128Pmin
  | operationKindV128Pmax | operationKindV128Ceil | operationKindV128Floor | operationKindV128Trunc
  | operationKindV128Nearest | operationKindV128Extend | operationKindV128ExtMul | operationKindV128Q15mulrSatS
  | operationKindV128ExtAddPairwise | operationKindV128FloatPromote | operationKindV128FloatDemote
  | operationKindV128FConvertFromI | operationKindV128Dot | operationKindV128Narrow | operationKindV128ITruncSatFromF
  | operationKindBuiltinFunctionCheckExitCode | operationKindAtomicMemoryWait | operationKindAtomicMemoryNotify
  | operationKindAtomicFence | operationKindAtomicLoad | operationKindAtomicLoad8 | operationKindAtomicLoad16
  | operationKindAtomicStore | operationKindAtomicStore8 | operationKindAtomicStore16 | operationKindAtomicRMW
  | operationKindAtomicRMW8 | operationKindAtomicRMW16 | operationKindAtomicRMWCmpxchg
  | operationKindAtomicRMW8Cmpxchg | operationKindAtomicRMW16Cmpxchg | operationKindTailCallReturnCall
  | operationKindTailCallReturnCallIndirect | operationKindThrow | operationKindThrowRef | operationKindCallRef
  | operationKindReturnCallRef | operationKindRefAsNonNull | operationKindBrOnNull | operationKindBrOnNonNull
  | operationKindEnd.

(** The number of a kind. *)
Definition operationKindNum (o : operationKind) : Z :=
  match o with
  | operationKindUnreachable => 0 | operationKindLabel => 1 | operationKindBr => 2 | operationKindBrIf => 3
  | operationKindBrTable => 4 | operationKindCall => 5 | operationKindCallIndirect => 6 | operationKindDrop => 7
  | operationKindSelect => 8 | operationKindPick => 9 | operationKindSet => 10 | operationKindGlobalGet => 11
  | operationKindGlobalSet => 12 | operationKindLoad => 13 | operationKindLoad8 => 14 | operationKindLoad16 => 15
  | operationKindLoad32 => 16 | operationKindStore => 17 | operationKindStore8 => 18 | operationKindStore16 => 19
  | operationKindStore32 => 20 | operationKindMemorySize => 21 | operationKindMemoryGrow => 22
  | operationKindConstI32 => 23 | operationKindConstI64 => 24 | operationKindConstF32 => 25
  | operationKindConstF64 => 26 | operationKindEq => 27 | operationKindNe => 28 | operationKindEqz => 29
  | operationKindLt => 30 | operationKindGt => 31 | operationKindLe => 32 | operationKindGe => 33
  | operationKindAdd => 34 | operationKindSub => 35 | operationKindMul => 36 | operationKindClz => 37
  | operationKindCtz => 38 | operationKindPopcnt => 39 | operationKindDiv => 40 | operationKindRem => 41
  | operationKindAnd => 42 | operationKindOr => 43 | operationKindXor => 44 | operationKindShl => 45
  | operationKindShr => 46 | operationKindRotl => 47 | operationKindRotr => 48 | operationKindAbs => 49
  | operationKindNeg => 50 | operationKindCeil => 51 | operationKindFloor => 52 | operationKindTrunc => 53
  | operationKindNearest => 54 | operationKindSqrt => 55 | operationKindMin => 56 | operationKindMax => 57
  | operationKindCopysign => 58 | operationKindI32WrapFromI64 => 59 | operationKindITruncFromF => 60
  | operationKindFConvertFromI => 61 | operationKindF32DemoteFromF64 => 62 | operationKindF64PromoteFromF32 => 63
  | operationKindI32ReinterpretFromF32 => 64 | operationKindI64ReinterpretFromF64 => 65
  | operationKindF32ReinterpretFromI32 => 66 | operationKindF64ReinterpretFromI64 => 67 | operationKindExtend => 68
  | operationKindSignExtend32From8 => 69 | operationKindSignExtend32From16 => 70
  | operationKindSignExtend64From8 => 71 | operationKindSignExtend64From16 => 72
  | operationKindSignExtend64From32 => 73 | operationKindMemoryInit => 74 | operationKindDataDrop => 75
  | operationKindMemoryCopy => 76 | operationKindMemoryFill => 77 | operationKindTableInit => 78
  | operationKindElemDrop => 79 | operationKindTableCopy => 80 | operationKindRefFunc => 81
  | operationKindTableGet => 82 | operationKindTableSet => 83 | operationKindTableSize => 84
  | operationKindTableGrow => 85 | operationKindTableFill => 86 | operationKindV128Const => 87
  | operationKindV128Add => 88 | operationKindV128Sub => 89 | operationKindV128Load => 90
  | operationKindV128LoadLane => 91 | operationKindV128Store => 92 | operationKindV128StoreLane => 93
  | operationKindV128ExtractLane => 94 | operationKindV128ReplaceLane => 95 | operationKindV128Splat => 96
  | operationKindV128Shuffle => 97 | operationKindV128Swizzle => 98 | operationKindV128AnyTrue => 99
  | operationKindV128AllTrue => 100 | operationKindV128BitMask => 101 | operationKindV128And => 102
  | operationKindV128Not => 103 | operationKindV128Or => 104 | operationKindV128Xor => 105
  | operationKindV128Bitselect => 106 | operationKindV128AndNot => 107 | operationKindV128Shl => 108
  | operationKindV128Shr => 109 | operationKindV128Cmp => 110 | operationKindV128AddSat => 111
  | operationKindV128SubSat => 112 | operationKindV128Mul => 113 | operationKindV128Div => 114
  | operationKindV128Neg => 115 | operationKindV128Sqrt => 116 | operationKindV128Abs => 117
  | operationKindV128Popcnt => 118 | operationKindV128Min => 119 | operationKindV128Max => 120
  | operationKindV128AvgrU => 121 | operationKindV128Pmin => 122 | operationKindV128Pmax => 123
  | operationKindV128Ceil => 124 | operationKindV128Floor => 125 | operationKindV128Trunc => 126
  | operationKindV128Nearest => 127 | operationKindV128Extend => 128 | operationKindV128ExtMul => 129
  | operationKindV128Q15mulrSatS => 130 | operationKindV128ExtAddPairwise => 131
  | operationKindV128FloatPromote => 132 | operationKindV128FloatDemote => 133
  | operationKindV128FConvertFromI => 134 | operationKindV128Dot => 135 | operationKindV128Narrow => 136
  | operationKindV128ITruncSatFromF => 137 | operationKindBuiltinFunctionCheckExitCode => 138
  | operationKindAtomicMemoryWait => 139 | operationKindAtomicMemoryNotify => 140 | operationKindAtomicFence => 141
  | operationKindAtomicLoad => 142 | operationKindAtomicLoad8 => 143 | operationKindAtomicLoad16 => 144
  | operationKindAtomicStore => 145 | operationKindAtomicStore8 => 146 | operationKindAtomicStore16 => 147
  | operationKindAtomicRMW => 148 | operationKindAtomicRMW8 => 149 | operationKindAtomicRMW16 => 150
  | operationKindAtomicRMWCmpxchg => 151 | operationKindAtomicRMW8Cmpxchg => 152
  | operationKindAtomicRMW16Cmpxchg => 153 | operationKindTailCallReturnCall => 154
  | operationKindTailCallReturnCallIndirect => 155 | operationKindThrow => 156 | operationKindThrowRef => 157
  | operationKindCallRef => 158 | operationKindReturnCallRef => 159 | operationKindRefAsNonNull => 160
  | operationKindBrOnNull => 161 | operationKindBrOnNonNull => 162 | operationKindEnd => 163
  end.

(** [operationKindEnd] is not a kind of operation. *)
Definition operationKindString (o : operationKind) : res string :=
  match o with
  | operationKindUnreachable => Ok "Unreachable" | operationKindLabel => Ok "label" | operationKindBr => Ok "Br"
  | operationKindBrIf => Ok "BrIf" | operationKindBrTable => Ok "BrTable" | operationKindCall => Ok "Call"
  | operationKindCallIndirect => Ok "CallIndirect" | operationKindDrop => Ok "Drop"
  | operationKindSelect => Ok "Select" | operationKindPick => Ok "Pick" | operationKindSet => Ok "Swap"
  | operationKindGlobalGet => Ok "GlobalGet" | operationKindGlobalSet => Ok "GlobalSet"
  | operationKindLoad => Ok "Load" | operationKindLoad8 => Ok "Load8" | operationKindLoad16 => Ok "Load16"
  | operationKindLoad32 => Ok "Load32" | operationKindStore => Ok "Store" | operationKindStore8 => Ok "Store8"
  | operationKindStore16 => Ok "Store16" | operationKindStore32 => Ok "Store32"
  | operationKindMemorySize => Ok "MemorySize" | operationKindMemoryGrow => Ok "MemoryGrow"
  | operationKindConstI32 => Ok "ConstI32" | operationKindConstI64 => Ok "ConstI64"
  | operationKindConstF32 => Ok "ConstF32" | operationKindConstF64 => Ok "ConstF64" | operationKindEq => Ok "Eq"
  | operationKindNe => Ok "Ne" | operationKindEqz => Ok "Eqz" | operationKindLt => Ok "Lt"
  | operationKindGt => Ok "Gt" | operationKindLe => Ok "Le" | operationKindGe => Ok "Ge"
  | operationKindAdd => Ok "Add" | operationKindSub => Ok "Sub" | operationKindMul => Ok "Mul"
  | operationKindClz => Ok "Clz" | operationKindCtz => Ok "Ctz" | operationKindPopcnt => Ok "Popcnt"
  | operationKindDiv => Ok "Div" | operationKindRem => Ok "Rem" | operationKindAnd => Ok "And"
  | operationKindOr => Ok "Or" | operationKindXor => Ok "Xor" | operationKindShl => Ok "Shl"
  | operationKindShr => Ok "Shr" | operationKindRotl => Ok "Rotl" | operationKindRotr => Ok "Rotr"
  | operationKindAbs => Ok "Abs" | operationKindNeg => Ok "Neg" | operationKindCeil => Ok "Ceil"
  | operationKindFloor => Ok "Floor" | operationKindTrunc => Ok "Trunc" | operationKindNearest => Ok "Nearest"
  | operationKindSqrt => Ok "Sqrt" | operationKindMin => Ok "Min" | operationKindMax => Ok "Max"
  | operationKindCopysign => Ok "Copysign" | operationKindI32WrapFromI64 => Ok "I32WrapFromI64"
  | operationKindITruncFromF => Ok "ITruncFromF" | operationKindFConvertFromI => Ok "FConvertFromI"
  | operationKindF32DemoteFromF64 => Ok "F32DemoteFromF64" | operationKindF64PromoteFromF32 => Ok "F64PromoteFromF32"
  | operationKindI32ReinterpretFromF32 => Ok "I32ReinterpretFromF32"
  | operationKindI64ReinterpretFromF64 => Ok "I64ReinterpretFromF64"
  | operationKindF32ReinterpretFromI32 => Ok "F32ReinterpretFromI32"
  | operationKindF64ReinterpretFromI64 => Ok "F64ReinterpretFromI64" | operationKindExtend => Ok "Extend"
  | operationKindSignExtend32From8 => Ok "SignExtend32From8"
  | operationKindSignExtend32From16 => Ok "SignExtend32From16"
  | operationKindSignExtend64From8 => Ok "SignExtend64From8"
  | operationKindSignExtend64From16 => Ok "SignExtend64From16"
  | operationKindSignExtend64From32 => Ok "SignExtend64From32" | operationKindMemoryInit => Ok "MemoryInit"
  | operationKindDataDrop => Ok "DataDrop" | operationKindMemoryCopy => Ok "MemoryCopy"
  | operationKindMemoryFill => Ok "MemoryFill" | operationKindTableInit => Ok "TableInit"
  | operationKindElemDrop => Ok "ElemDrop" | operationKindTableCopy => Ok "TableCopy"
  | operationKindRefFunc => Ok "RefFunc" | operationKindTableGet => Ok "TableGet"
  | operationKindTableSet => Ok "TableSet" | operationKindTableSize => Ok "TableSize"
  | operationKindTableGrow => Ok "TableGrow" | operationKindTableFill => Ok "TableFill"
  | operationKindV128Const => Ok "ConstV128" | operationKindV128Add => Ok "V128Add"
  | operationKindV128Sub => Ok "V128Sub" | operationKindV128Load => Ok "V128Load"
  | operationKindV128LoadLane => Ok "V128LoadLane" | operationKindV128Store => Ok "V128Store"
  | operationKindV128StoreLane => Ok "V128StoreLane" | operationKindV128ExtractLane => Ok "V128ExtractLane"
  | operationKindV128ReplaceLane => Ok "V128ReplaceLane" | operationKindV128Splat => Ok "V128Splat"
  | operationKindV128Shuffle => Ok "V128Shuffle" | operationKindV128Swizzle => Ok "V128Swizzle"
  | operationKindV128AnyTrue => Ok "V128AnyTrue" | operationKindV128AllTrue => Ok "V128AllTrue"
  | operationKindV128BitMask => Ok "V128BitMask" | operationKindV128And => Ok "V128And"
  | operationKindV128Not => Ok "V128Not" | operationKindV128Or => Ok "V128Or" | operationKindV128Xor => Ok "V128Xor"
  | operationKindV128Bitselect => Ok "V128Bitselect" | operationKindV128AndNot => Ok "V128AndNot"
  | operationKindV128Shl => Ok "V128Shl" | operationKindV128Shr => Ok "V128Shr"
  | operationKindV128Cmp => Ok "V128Cmp" | operationKindV128AddSat => Ok "V128AddSat"
  | operationKindV128SubSat => Ok "V128SubSat" | operationKindV128Mul => Ok "V128Mul"
  | operationKindV128Div => Ok "V128Div" | operationKindV128Neg => Ok "V128Neg"
  | operationKindV128Sqrt => Ok "V128Sqrt" | operationKindV128Abs => Ok "V128Abs"
  | operationKindV128Popcnt => Ok "V128Popcnt" | operationKindV128Min => Ok "V128Min"
  | operationKindV128Max => Ok "V128Max" | operationKindV128AvgrU => Ok "V128AvgrU"
  | operationKindV128Pmin => Ok "V128Pmin" | operationKindV128Pmax => Ok "V128Pmax"
  | operationKindV128Ceil => Ok "V128Ceil" | operationKindV128Floor => Ok "V128Floor"
  | operationKindV128Trunc => Ok "V128Trunc" | operationKindV128Nearest => Ok "V128Nearest"
  | operationKindV128Extend => Ok "V128Extend" | operationKindV128ExtMul => Ok "V128ExtMul"
  | operationKindV128Q15mulrSatS => Ok "V128Q15mulrSatS" | operationKindV128ExtAddPairwise => Ok "V128ExtAddPairwise"
  | operationKindV128FloatPromote => Ok "V128FloatPromote" | operationKindV128FloatDemote => Ok "V128FloatDemote"
  | operationKindV128FConvertFromI => Ok "V128FConvertFromI" | operationKindV128Dot => Ok "V128Dot"
  | operationKindV128Narrow => Ok "V128Narrow" | operationKindV128ITruncSatFromF => Ok "V128ITruncSatFromF"
  | operationKindBuiltinFunctionCheckExitCode => Ok "BuiltinFunctionCheckExitCode"
  | operationKindAtomicMemoryWait => Ok "operationKindAtomicMemoryWait"
  | operationKindAtomicMemoryNotify => Ok "operationKindAtomicMemoryNotify"
  | operationKindAtomicFence => Ok "operationKindAtomicFence"
  | operationKindAtomicLoad => Ok "operationKindAtomicLoad"
  | operationKindAtomicLoad8 => Ok "operationKindAtomicLoad8"
  | operationKindAtomicLoad16 => Ok "operationKindAtomicLoad16"
  | operationKindAtomicStore => Ok "operationKindAtomicStore"
  | operationKindAtomicStore8 => Ok "operationKindAtomicStore8"
  | operationKindAtomicStore16 => Ok "operationKindAtomicStore16"
  | operationKindAtomicRMW => Ok "operationKindAtomicRMW" | operationKindAtomicRMW8 => Ok "operationKindAtomicRMW8"
  | operationKindAtomicRMW16 => Ok "operationKindAtomicRMW16"
  | operationKindAtomicRMWCmpxchg => Ok "operationKindAtomicRMWCmpxchg"
  | operationKindAtomicRMW8Cmpxchg => Ok "operationKindAtomicRMW8Cmpxchg"
  | operationKindAtomicRMW16Cmpxchg => Ok "operationKindAtomicRMW16Cmpxchg"
  | operationKindTailCallReturnCall => Ok "operationKindTailCallReturnCall"
  | operationKindTailCallReturnCallIndirect => Ok "operationKindTailCallReturnCallIndirect"
  | operationKindThrow => Ok "operationKindThrow" | operationKindThrowRef => Ok "operationKindThrowRef"
  | operationKindCallRef => Ok "operationKindCallRef" | operationKindReturnCallRef => Ok "operationKindReturnCallRef"
  | operationKindRefAsNonNull => Ok "operationKindRefAsNonNull" | operationKindBrOnNull => Ok "operationKindBrOnNull"
  | operationKindBrOnNonNull => Ok "operationKindBrOnNonNull" | operationKindEnd => Panic "unknown operation"
  end.

(** ** Labels *)

(** A label: its kind in the low half, the number of its frame in the high half. *)
Definition label : Type := Z.

Definition LabelKind (l : label) : labelKind := wrap8 (wrap32 l).
Definition FrameID (l : label) : Z := wrap32 (Z.shiftr l 32).
Definition newLabel (kind : labelKind) (frameID : Z) : label := Z.lor kind (wrap64 (Z.shiftl frameID 32)).

Definition labelString (l : label) : string :=
  if LabelKind l =? labelKindHeader then ".L" +:+ pretty (FrameID l)
  else if LabelKind l =? labelKindElse then ".L" +:+ pretty (FrameID l) +:+ "_else"
  else if LabelKind l =? labelKindContinuation then ".L" +:+ pretty (FrameID l) +:+ "_cont"
  else if LabelKind l =? labelKindReturn then ".return"
  else "".

Definition IsReturnTarget (l : label) : bool := LabelKind l =? labelKindReturn.

(** ** Ranges and memory arguments *)

(** Depths from the top of the stack, both included. *)
Record inclusiveRange := mkRange { Start : Z; End : Z }.

Definition AsU64 (i : inclusiveRange) : Z := Z.lor (Z.shiftl (wrap32 (Start i)) 32) (wrap32 (End i)).
Definition inclusiveRangeFromU64 (v : Z) : inclusiveRange := mkRange (sgn32 (wrap32 (Z.shiftr v 32))) (sgn32 (wrap32 v)).
Definition nopinclusiveRange : inclusiveRange := mkRange (-1) (-1).

Record memoryArg := mkMemoryArg { Alignment : Z; ArgOffset : Z }.

(** ** Operations *)

Record unionOperation := mkOperation {
  OpKind : operationKind; B1 : Z; B2 : Z; B3 : bool; U1 : Z; U2 : Z; U3 : Z; Us : list Z;
}.

Definition flag (b : bool) : Z := if b then 1 else 0.

Definition newOperationBuiltinFunctionCheckExitCode : unionOperation := mkOperation operationKindBuiltinFunctionCheckExitCode 0 0 false 0 0 0 [].
Definition newOperationUnreachable : unionOperation := mkOperation operationKindUnreachable 0 0 false 0 0 0 [].
Definition newOperationLabel (l : label) : unionOperation := mkOperation operationKindLabel 0 0 false l 0 0 [].
Definition newOperationBr (target : label) : unionOperation := mkOperation operationKindBr 0 0 false target 0 0 [].
Definition newOperationBrIf (thenTarget : label) (elseTarget : label) (thenDrop : inclusiveRange) : unionOperation := mkOperation operationKindBrIf 0 0 false thenTarget elseTarget (AsU64 thenDrop) [].
Definition newOperationBrTable (targetLabelsAndRanges : list Z) : unionOperation := mkOperation operationKindBrTable 0 0 false 0 0 0 targetLabelsAndRanges.
Definition newOperationCall (functionIndex : Z) : unionOperation := mkOperation operationKindCall 0 0 false functionIndex 0 0 [].
Definition newOperationCallIndirect (typeIndex : Z) (tableIndex : Z) : unionOperation := mkOperation operationKindCallIndirect 0 0 false typeIndex tableIndex 0 [].
Definition newOperationDrop (depth : inclusiveRange) : unionOperation := mkOperation operationKindDrop 0 0 false (AsU64 depth) 0 0 [].
Definition newOperationSelect (isTargetVector : bool) : unionOperation := mkOperation operationKindSelect 0 0 isTargetVector 0 0 0 [].
Definition newOperationPick (depth : Z) (isTargetVector : bool) : unionOperation := mkOperation operationKindPick 0 0 isTargetVector (wrap64 depth) 0 0 [].
Definition newOperationSet (depth : Z) (isTargetVector : bool) : unionOperation := mkOperation operationKindSet 0 0 isTargetVector (wrap64 depth) 0 0 [].
Definition newOperationGlobalGet (index : Z) : unionOperation := mkOperation operationKindGlobalGet 0 0 false index 0 0 [].
Definition newOperationGlobalSet (index : Z) : unionOperation := mkOperation operationKindGlobalSet 0 0 false index 0 0 [].
Definition newOperationLoad (t : unsignedType) (arg : memoryArg) : unionOperation := mkOperation operationKindLoad t 0 false (Alignment arg) (ArgOffset arg) 0 [].
Definition newOperationLoad8 (t : signedInt) (arg : memoryArg) : unionOperation := mkOperation operationKindLoad8 t 0 false (Alignment arg) (ArgOffset arg) 0 [].
Definition newOperationLoad16 (t : signedInt) (arg : memoryArg) : unionOperation := mkOperation operationKindLoad16 t 0 false (Alignment arg) (ArgOffset arg) 0 [].
Definition newOperationStore (t : unsignedType) (arg : memoryArg) : unionOperation := mkOperation operationKindStore t 0 false (Alignment arg) (ArgOffset arg) 0 [].
Definition newOperationStore8 (arg : memoryArg) : unionOperation := mkOperation operationKindStore8 0 0 false (Alignment arg) (ArgOffset arg) 0 [].
Definition newOperationStore16 (arg : memoryArg) : unionOperation := mkOperation operationKindStore16 0 0 false (Alignment arg) (ArgOffset arg) 0 [].
Definition newOperationStore32 (arg : memoryArg) : unionOperation := mkOperation operationKindStore32 0 0 false (Alignment arg) (ArgOffset arg) 0 [].
Definition newOperationMemorySize : unionOperation := mkOperation operationKindMemorySize 0 0 false 0 0 0 [].
Definition newOperationMemoryGrow : unionOperation := mkOperation operationKindMemoryGrow 0 0 false 0 0 0 [].
Definition newOperationConstI32 (value : Z) : unionOperation := mkOperation operationKindConstI32 0 0 false value 0 0 [].
Definition newOperationConstI64 (value : Z) : unionOperation := mkOperation operationKindConstI64 0 0 false value 0 0 [].
Definition newOperationConstF32 (value : Z) : unionOperation := mkOperation operationKindConstF32 0 0 false value 0 0 [].
Definition newOperationConstF64 (value : Z) : unionOperation := mkOperation operationKindConstF64 0 0 false value 0 0 [].
Definition newOperationEq (b : unsignedType) : unionOperation := mkOperation operationKindEq b 0 false 0 0 0 [].
Definition newOperationNe (b : unsignedType) : unionOperation := mkOperation operationKindNe b 0 false 0 0 0 [].
Definition newOperationEqz (b : unsignedInt) : unionOperation := mkOperation operationKindEqz b 0 false 0 0 0 [].
Definition newOperationLt (b : signedType) : unionOperation := mkOperation operationKindLt b 0 false 0 0 0 [].
Definition newOperationGt (b : signedType) : unionOperation := mkOperation operationKindGt b 0 false 0 0 0 [].
Definition newOperationLe (b : signedType) : unionOperation := mkOperation operationKindLe b 0 false 0 0 0 [].
Definition newOperationGe (b : signedType) : unionOperation := mkOperation operationKindGe b 0 false 0 0 0 [].
Definition newOperationAdd (b : unsignedType) : unionOperation := mkOperation operationKindAdd b 0 false 0 0 0 [].
Definition newOperationSub (b : unsignedType) : unionOperation := mkOperation operationKindSub b 0 false 0 0 0 [].
Definition newOperationMul (b : unsignedType) : unionOperation := mkOperation operationKindMul b 0 false 0 0 0 [].
Definition newOperationClz (b : unsignedInt) : unionOperation := mkOperation operationKindClz b 0 false 0 0 0 [].
Definition newOperationCtz (b : unsignedInt) : unionOperation := mkOperation operationKindCtz b 0 false 0 0 0 [].
Definition newOperationPopcnt (b : unsignedInt) : unionOperation := mkOperation operationKindPopcnt b 0 false 0 0 0 [].
Definition newOperationDiv (b : signedType) : unionOperation := mkOperation operationKindDiv b 0 false 0 0 0 [].
Definition newOperationRem (b : signedInt) : unionOperation := mkOperation operationKindRem b 0 false 0 0 0 [].
Definition newOperationAnd (b : unsignedInt) : unionOperation := mkOperation operationKindAnd b 0 false 0 0 0 [].
Definition newOperationOr (b : unsignedInt) : unionOperation := mkOperation operationKindOr b 0 false 0 0 0 [].
Definition newOperationXor (b : unsignedInt) : unionOperation := mkOperation operationKindXor b 0 false 0 0 0 [].
Definition newOperationShl (b : unsignedInt) : unionOperation := mkOperation operationKindShl b 0 false 0 0 0 [].
Definition newOperationShr (b : signedInt) : unionOperation := mkOperation operationKindShr b 0 false 0 0 0 [].
Definition newOperationRotl (b : unsignedInt) : unionOperation := mkOperation operationKindRotl b 0 false 0 0 0 [].
Definition newOperationRotr (b : unsignedInt) : unionOperation := mkOperation operationKindRotr b 0 false 0 0 0 [].
Definition newOperationAbs (b : float) : unionOperation := mkOperation operationKindAbs b 0 false 0 0 0 [].
Definition newOperationNeg (b : float) : unionOperation := mkOperation operationKindNeg b 0 false 0 0 0 [].
Definition newOperationCeil (b : float) : unionOperation := mkOperation operationKindCeil b 0 false 0 0 0 [].
Definition newOperationFloor (b : float) : unionOperation := mkOperation operationKindFloor b 0 false 0 0 0 [].
Definition newOperationTrunc (b : float) : unionOperation := mkOperation operationKindTrunc b 0 false 0 0 0 [].
Definition newOperationNearest (b : float) : unionOperation := mkOperation operationKindNearest b 0 false 0 0 0 [].
Definition newOperationSqrt (b : float) : unionOperation := mkOperation operationKindSqrt b 0 false 0 0 0 [].
Definition newOperationMin (b : float) : unionOperation := mkOperation operationKindMin b 0 false 0 0 0 [].
Definition newOperationMax (b : float) : unionOperation := mkOperation operationKindMax b 0 false 0 0 0 [].
Definition newOperationCopysign (b : float) : unionOperation := mkOperation operationKindCopysign b 0 false 0 0 0 [].
Definition newOperationI32WrapFromI64 : unionOperation := mkOperation operationKindI32WrapFromI64 0 0 false 0 0 0 [].
Definition newOperationITruncFromF (inputType : float) (outputType : signedInt) (nonTrapping : bool) : unionOperation := mkOperation operationKindITruncFromF inputType outputType nonTrapping 0 0 0 [].
Definition newOperationFConvertFromI (inputType : signedInt) (outputType : float) : unionOperation := mkOperation operationKindFConvertFromI inputType outputType false 0 0 0 [].
Definition newOperationF32DemoteFromF64 : unionOperation := mkOperation operationKindF32DemoteFromF64 0 0 false 0 0 0 [].
Definition newOperationF64PromoteFromF32 : unionOperation := mkOperation operationKindF64PromoteFromF32 0 0 false 0 0 0 [].
Definition newOperationI32ReinterpretFromF32 : unionOperation := mkOperation operationKindI32ReinterpretFromF32 0 0 false 0 0 0 [].
Definition newOperationI64ReinterpretFromF64 : unionOperation := mkOperation operationKindI64ReinterpretFromF64 0 0 false 0 0 0 [].
Definition newOperationF32ReinterpretFromI32 : unionOperation := mkOperation operationKindF32ReinterpretFromI32 0 0 false 0 0 0 [].
Definition newOperationF64ReinterpretFromI64 : unionOperation := mkOperation operationKindF64ReinterpretFromI64 0 0 false 0 0 0 [].
Definition newOperationSignExtend32From8 : unionOperation := mkOperation operationKindSignExtend32From8 0 0 false 0 0 0 [].
Definition newOperationSignExtend32From16 : unionOperation := mkOperation operationKindSignExtend32From16 0 0 false 0 0 0 [].
Definition newOperationSignExtend64From8 : unionOperation := mkOperation operationKindSignExtend64From8 0 0 false 0 0 0 [].
Definition newOperationSignExtend64From16 : unionOperation := mkOperation operationKindSignExtend64From16 0 0 false 0 0 0 [].
Definition newOperationSignExtend64From32 : unionOperation := mkOperation operationKindSignExtend64From32 0 0 false 0 0 0 [].
Definition newOperationMemoryInit (dataIndex : Z) : unionOperation := mkOperation operationKindMemoryInit 0 0 false dataIndex 0 0 [].
Definition newOperationDataDrop (dataIndex : Z) : unionOperation := mkOperation operationKindDataDrop 0 0 false dataIndex 0 0 [].
Definition newOperationMemoryCopy : unionOperation := mkOperation operationKindMemoryCopy 0 0 false 0 0 0 [].
Definition newOperationMemoryFill : unionOperation := mkOperation operationKindMemoryFill 0 0 false 0 0 0 [].
Definition newOperationTableInit (elemIndex : Z) (tableIndex : Z) : unionOperation := mkOperation operationKindTableInit 0 0 false elemIndex tableIndex 0 [].
Definition newOperationElemDrop (elemIndex : Z) : unionOperation := mkOperation operationKindElemDrop 0 0 false elemIndex 0 0 [].
Definition newOperationTableCopy (srcTableIndex : Z) (dstTableIndex : Z) : unionOperation := mkOperation operationKindTableCopy 0 0 false srcTableIndex dstTableIndex 0 [].
Definition newOperationRefFunc (functionIndex : Z) : unionOperation := mkOperation operationKindRefFunc 0 0 false functionIndex 0 0 [].
Definition newOperationTableGet (tableIndex : Z) : unionOperation := mkOperation operationKindTableGet 0 0 false tableIndex 0 0 [].
Definition newOperationTableSet (tableIndex : Z) : unionOperation := mkOperation operationKindTableSet 0 0 false tableIndex 0 0 [].
Definition newOperationTableSize (tableIndex : Z) : unionOperation := mkOperation operationKindTableSize 0 0 false tableIndex 0 0 [].
Definition newOperationTableGrow (tableIndex : Z) : unionOperation := mkOperation operationKindTableGrow 0 0 false tableIndex 0 0 [].
Definition newOperationTableFill (tableIndex : Z) : unionOperation := mkOperation operationKindTableFill 0 0 false tableIndex 0 0 [].
Definition newOperationV128Const (lo : Z) (hi : Z) : unionOperation := mkOperation operationKindV128Const 0 0 false lo hi 0 [].
Definition newOperationV128Add (s : shape) : unionOperation := mkOperation operationKindV128Add s 0 false 0 0 0 [].
Definition newOperationV128Sub (s : shape) : unionOperation := mkOperation operationKindV128Sub s 0 false 0 0 0 [].
Definition newOperationV128Load (loadType : v128LoadType) (arg : memoryArg) : unionOperation := mkOperation operationKindV128Load loadType 0 false (Alignment arg) (ArgOffset arg) 0 [].
Definition newOperationV128LoadLane (laneIndex : Z) (laneSize : Z) (arg : memoryArg) : unionOperation := mkOperation operationKindV128LoadLane laneSize laneIndex false (Alignment arg) (ArgOffset arg) 0 [].
Definition newOperationV128Store (arg : memoryArg) : unionOperation := mkOperation operationKindV128Store 0 0 false (Alignment arg) (ArgOffset arg) 0 [].
Definition newOperationV128StoreLane (laneIndex : Z) (laneSize : Z) (arg : memoryArg) : unionOperation := mkOperation operationKindV128StoreLane laneSize laneIndex false (Alignment arg) (ArgOffset arg) 0 [].
Definition newOperationV128ExtractLane (laneIndex : Z) (signed : bool) (s : shape) : unionOperation := mkOperation operationKindV128ExtractLane s laneIndex signed 0 0 0 [].
Definition newOperationV128ReplaceLane (laneIndex : Z) (s : shape) : unionOperation := mkOperation operationKindV128ReplaceLane s laneIndex false 0 0 0 [].
Definition newOperationV128Splat (s : shape) : unionOperation := mkOperation operationKindV128Splat s 0 false 0 0 0 [].
Definition newOperationV128Shuffle (lanes : list Z) : unionOperation := mkOperation operationKindV128Shuffle 0 0 false 0 0 0 lanes.
Definition newOperationV128Swizzle : unionOperation := mkOperation operationKindV128Swizzle 0 0 false 0 0 0 [].
Definition newOperationV128AnyTrue : unionOperation := mkOperation operationKindV128AnyTrue 0 0 false 0 0 0 [].
Definition newOperationV128AllTrue (s : shape) : unionOperation := mkOperation operationKindV128AllTrue s 0 false 0 0 0 [].
Definition newOperationV128BitMask (s : shape) : unionOperation := mkOperation operationKindV128BitMask s 0 false 0 0 0 [].
Definition newOperationV128And : unionOperation := mkOperation operationKindV128And 0 0 false 0 0 0 [].
Definition newOperationV128Not : unionOperation := mkOperation operationKindV128Not 0 0 false 0 0 0 [].
Definition newOperationV128Or : unionOperation := mkOperation operationKindV128Or 0 0 false 0 0 0 [].
Definition newOperationV128Xor : unionOperation := mkOperation operationKindV128Xor 0 0 false 0 0 0 [].
Definition newOperationV128Bitselect : unionOperation := mkOperation operationKindV128Bitselect 0 0 false 0 0 0 [].
Definition newOperationV128AndNot : unionOperation := mkOperation operationKindV128AndNot 0 0 false 0 0 0 [].
Definition newOperationV128Shl (s : shape) : unionOperation := mkOperation operationKindV128Shl s 0 false 0 0 0 [].
Definition newOperationV128Shr (s : shape) (signed : bool) : unionOperation := mkOperation operationKindV128Shr s 0 signed 0 0 0 [].
Definition newOperationV128Cmp (cmpType : v128CmpType) : unionOperation := mkOperation operationKindV128Cmp cmpType 0 false 0 0 0 [].
Definition newOperationV128AddSat (s : shape) (signed : bool) : unionOperation := mkOperation operationKindV128AddSat s 0 signed 0 0 0 [].
Definition newOperationV128SubSat (s : shape) (signed : bool) : unionOperation := mkOperation operationKindV128SubSat s 0 signed 0 0 0 [].
Definition newOperationV128Mul (s : shape) : unionOperation := mkOperation operationKindV128Mul s 0 false 0 0 0 [].
Definition newOperationV128Div (s : shape) : unionOperation := mkOperation operationKindV128Div s 0 false 0 0 0 [].
Definition newOperationV128Neg (s : shape) : unionOperation := mkOperation operationKindV128Neg s 0 false 0 0 0 [].
Definition newOperationV128Sqrt (s : shape) : unionOperation := mkOperation operationKindV128Sqrt s 0 false 0 0 0 [].
Definition newOperationV128Abs (s : shape) : unionOperation := mkOperation operationKindV128Abs s 0 false 0 0 0 [].
Definition newOperationV128Popcnt (s : shape) : unionOperation := mkOperation operationKindV128Popcnt s 0 false 0 0 0 [].
Definition newOperationV128Min (s : shape) (signed : bool) : unionOperation := mkOperation operationKindV128Min s 0 signed 0 0 0 [].
Definition newOperationV128Max (s : shape) (signed : bool) : unionOperation := mkOperation operationKindV128Max s 0 signed 0 0 0 [].
Definition newOperationV128AvgrU (s : shape) : unionOperation := mkOperation operationKindV128AvgrU s 0 false 0 0 0 [].
Definition newOperationV128Pmin (s : shape) : unionOperation := mkOperation operationKindV128Pmin s 0 false 0 0 0 [].
Definition newOperationV128Pmax (s : shape) : unionOperation := mkOperation operationKindV128Pmax s 0 false 0 0 0 [].
Definition newOperationV128Ceil (s : shape) : unionOperation := mkOperation operationKindV128Ceil s 0 false 0 0 0 [].
Definition newOperationV128Floor (s : shape) : unionOperation := mkOperation operationKindV128Floor s 0 false 0 0 0 [].
Definition newOperationV128Trunc (s : shape) : unionOperation := mkOperation operationKindV128Trunc s 0 false 0 0 0 [].
Definition newOperationV128Nearest (s : shape) : unionOperation := mkOperation operationKindV128Nearest s 0 false 0 0 0 [].
Definition newOperationV128Q15mulrSatS : unionOperation := mkOperation operationKindV128Q15mulrSatS 0 0 false 0 0 0 [].
Definition newOperationV128ExtAddPairwise (originshape : shape) (signed : bool) : unionOperation := mkOperation operationKindV128ExtAddPairwise originshape 0 signed 0 0 0 [].
Definition newOperationV128FloatPromote : unionOperation := mkOperation operationKindV128FloatPromote 0 0 false 0 0 0 [].
Definition newOperationV128FloatDemote : unionOperation := mkOperation operationKindV128FloatDemote 0 0 false 0 0 0 [].
Definition newOperationV128FConvertFromI (destinationshape : shape) (signed : bool) : unionOperation := mkOperation operationKindV128FConvertFromI destinationshape 0 signed 0 0 0 [].
Definition newOperationV128Dot : unionOperation := mkOperation operationKindV128Dot 0 0 false 0 0 0 [].
Definition newOperationV128Narrow (originshape : shape) (signed : bool) : unionOperation := mkOperation operationKindV128Narrow originshape 0 signed 0 0 0 [].
Definition newOperationV128ITruncSatFromF (originshape : shape) (signed : bool) : unionOperation := mkOperation operationKindV128ITruncSatFromF originshape 0 signed 0 0 0 [].
Definition newOperationAtomicMemoryWait (t : unsignedType) (arg : memoryArg) : unionOperation := mkOperation operationKindAtomicMemoryWait t 0 false (Alignment arg) (ArgOffset arg) 0 [].
Definition newOperationAtomicMemoryNotify (arg : memoryArg) : unionOperation := mkOperation operationKindAtomicMemoryNotify 0 0 false (Alignment arg) (ArgOffset arg) 0 [].
Definition newOperationAtomicFence : unionOperation := mkOperation operationKindAtomicFence 0 0 false 0 0 0 [].
Definition newOperationAtomicLoad (t : unsignedType) (arg : memoryArg) : unionOperation := mkOperation operationKindAtomicLoad t 0 false (Alignment arg) (ArgOffset arg) 0 [].
Definition newOperationAtomicLoad8 (t : unsignedType) (arg : memoryArg) : unionOperation := mkOperation operationKindAtomicLoad8 t 0 false (Alignment arg) (ArgOffset arg) 0 [].
Definition newOperationAtomicLoad16 (t : unsignedType) (arg : memoryArg) : unionOperation := mkOperation operationKindAtomicLoad16 t 0 false (Alignment arg) (ArgOffset arg) 0 [].
Definition newOperationAtomicStore (t : unsignedType) (arg : memoryArg) : unionOperation := mkOperation operationKindAtomicStore t 0 false (Alignment arg) (ArgOffset arg) 0 [].
Definition newOperationAtomicStore8 (t : unsignedType) (arg : memoryArg) : unionOperation := mkOperation operationKindAtomicStore8 t 0 false (Alignment arg) (ArgOffset arg) 0 [].
Definition newOperationAtomicStore16 (t : unsignedType) (arg : memoryArg) : unionOperation := mkOperation operationKindAtomicStore16 t 0 false (Alignment arg) (ArgOffset arg) 0 [].
Definition newOperationAtomicRMW (t : unsignedType) (arg : memoryArg) (op : atomicArithmeticOp) : unionOperation := mkOperation operationKindAtomicRMW t op false (Alignment arg) (ArgOffset arg) 0 [].
Definition newOperationAtomicRMW8 (t : unsignedType) (arg : memoryArg) (op : atomicArithmeticOp) : unionOperation := mkOperation operationKindAtomicRMW8 t op false (Alignment arg) (ArgOffset arg) 0 [].
Definition newOperationAtomicRMW16 (t : unsignedType) (arg : memoryArg) (op : atomicArithmeticOp) : unionOperation := mkOperation operationKindAtomicRMW16 t op false (Alignment arg) (ArgOffset arg) 0 [].
Definition newOperationAtomicRMWCmpxchg (t : unsignedType) (arg : memoryArg) : unionOperation := mkOperation operationKindAtomicRMWCmpxchg t 0 false (Alignment arg) (ArgOffset arg) 0 [].
Definition newOperationAtomicRMW8Cmpxchg (t : unsignedType) (arg : memoryArg) : unionOperation := mkOperation operationKindAtomicRMW8Cmpxchg t 0 false (Alignment arg) (ArgOffset arg) 0 [].
Definition newOperationAtomicRMW16Cmpxchg (t : unsignedType) (arg : memoryArg) : unionOperation := mkOperation operationKindAtomicRMW16Cmpxchg t 0 false (Alignment arg) (ArgOffset arg) 0 [].
Definition newOperationTailCallReturnCall (functionIndex : Z) : unionOperation := mkOperation operationKindTailCallReturnCall 0 0 false functionIndex 0 0 [].
Definition newOperationTailCallReturnCallIndirect (typeIndex : Z) (tableIndex : Z) (dropDepth : inclusiveRange) (l : label) : unionOperation := mkOperation operationKindTailCallReturnCallIndirect 0 0 false typeIndex tableIndex 0 [(AsU64 dropDepth); l].
Definition newOperationThrow (tagIndex : Z) : unionOperation := mkOperation operationKindThrow 0 0 false tagIndex 0 0 [].
Definition newOperationThrowRef : unionOperation := mkOperation operationKindThrowRef 0 0 false 0 0 0 [].
Definition newOperationCallRef (typeIndex : Z) : unionOperation := mkOperation operationKindCallRef 0 0 false typeIndex 0 0 [].
Definition newOperationReturnCallRef (typeIndex : Z) (dropDepth : inclusiveRange) (l : label) : unionOperation := mkOperation operationKindReturnCallRef 0 0 false typeIndex 0 0 [(AsU64 dropDepth); l].
Definition newOperationRefAsNonNull : unionOperation := mkOperation operationKindRefAsNonNull 0 0 false 0 0 0 [].
Definition newOperationBrOnNull (thenTarget : label) (elseTarget : label) (thenDrop : inclusiveRange) : unionOperation := mkOperation operationKindBrOnNull 0 0 false thenTarget elseTarget (AsU64 thenDrop) [].
Definition newOperationBrOnNonNull (thenTarget : label) (elseTarget : label) (thenDrop : inclusiveRange) : unionOperation := mkOperation operationKindBrOnNonNull 0 0 false thenTarget elseTarget (AsU64 thenDrop) [].
Definition newOperationLoad32 (signed : bool) (arg : memoryArg) : unionOperation :=
  mkOperation operationKindLoad32 (flag signed) 0 false (Alignment arg) (ArgOffset arg) 0 [].
Definition newOperationExtend (signed : bool) : unionOperation := mkOperation operationKindExtend (flag signed) 0 false 0 0 0 [].
Definition newOperationV128Extend (originshape : shape) (signed useLow : bool) : unionOperation :=
  mkOperation operationKindV128Extend originshape (flag signed) useLow 0 0 0 [].
Definition newOperationV128ExtMul (originshape : shape) (signed useLow : bool) : unionOperation :=
  mkOperation operationKindV128ExtMul originshape (flag signed) useLow 0 0 0 [].

(** ** Exception tables *)

Record exceptionTableCatchClause := mkCatchClause {
  catch_kind : Z; catch_tagIndex : Z; catch_targetPC : Z; catch_targetStackDepth : Z;
}.
Record exceptionTableEntry := mkExceptionTableEntry {
  startPC : Z; endPC : Z; entry_clauses : list exceptionTableCatchClause;
}.
(** The same before labels are resolved. *)
Record pendingCatchClause := mkPendingClause {
  pending_kind : Z; pending_tagIndex : Z; pending_targetLabel : label; pending_targetStackDepth : Z;
}.
Record pendingExceptionTableEntry := mkPendingEntry {
  startOpIndex : Z; continuationFrameID : Z; pending_clauses : list pendingCatchClause;
}.
