(* ===== verification/Compiler.v ===== *)
(** * The compiler of the interpreter (src/internal/engine/interpreter/compiler.go)

    [handleInstruction] lowers one Wasm instruction to operations, [compile] a
    function body.  [cstate] holds the fields of the Go compiler that change:
    the operand stack of [Signature.compiler], the control frames, the
    unreachable state and the result.  The rest are parameters of the section.

    Frames are a list whose head is the innermost one; a pointer to a frame is
    its position.  [C] is the state and error monad of the compiler.  The cases
    of the switch that only emit an operation are in tables, one per group. *)

From S2P Require Import Prelude Leb128 Features Opcodes Types ValStack Validate Signature Memory Operations.

(** ** Control frames *)

Inductive controlFrameKind :=
  | controlFrameKindBlockWithContinuationLabel
  | controlFrameKindBlockWithoutContinuationLabel
  | controlFrameKindFunction
  | controlFrameKindLoop
  | controlFrameKindIfWithElse
  | controlFrameKindIfWithoutElse
  | controlFrameKindTryTable.

Record controlFrame := mkFrame {
  frameID : Z;
  originalStackLenWithoutParam : Z;
  originalStackLenWithoutParamUint64 : Z;
  frameType : FunctionType;
  frameKind : controlFrameKind;
}.

Definition set_frameKind (k : controlFrameKind) (f : controlFrame) : controlFrame :=
  mkFrame (frameID f) (originalStackLenWithoutParam f) (originalStackLenWithoutParamUint64 f) (frameType f) k.

Definition ensureContinuation (f : controlFrame) : controlFrame :=
  match frameKind f with
  | controlFrameKindBlockWithoutContinuationLabel => set_frameKind controlFrameKindBlockWithContinuationLabel f
  | _ => f
  end.

Definition asLabel (f : controlFrame) : label :=
  match frameKind f with
  | controlFrameKindBlockWithContinuationLabel | controlFrameKindBlockWithoutContinuationLabel =>
      newLabel labelKindContinuation (frameID f)
  | controlFrameKindLoop => newLabel labelKindHeader (frameID f)
  | controlFrameKindFunction => newLabel labelKindReturn 0
  | controlFrameKindIfWithElse | controlFrameKindIfWithoutElse | controlFrameKindTryTable =>
      newLabel labelKindContinuation (frameID f)
  end.

(** ** State *)

Record cstate := mkState {
  core : compiler;
  currentFrameID : Z;
  controlFrames : list controlFrame;
  (** [unreachableState.depth]; [unreachableState.on] is [c_unreachable] *)
  unreachableDepth : Z;
  currentOpPC : Z;
  Operations : list unionOperation;
  SourceOffsets : list Z;
  LabelCallers : gmap Z Z;
  UsesMemory : bool;
  PendingExceptionTable : list pendingExceptionTableEntry;
}.

Definition set_core x s := mkState x (currentFrameID s) (controlFrames s) (unreachableDepth s) (currentOpPC s) (Operations s) (SourceOffsets s) (LabelCallers s) (UsesMemory s) (PendingExceptionTable s).
Definition set_currentFrameID x s := mkState (core s) x (controlFrames s) (unreachableDepth s) (currentOpPC s) (Operations s) (SourceOffsets s) (LabelCallers s) (UsesMemory s) (PendingExceptionTable s).
Definition set_controlFrames x s := mkState (core s) (currentFrameID s) x (unreachableDepth s) (currentOpPC s) (Operations s) (SourceOffsets s) (LabelCallers s) (UsesMemory s) (PendingExceptionTable s).
Definition set_unreachableDepth x s := mkState (core s) (currentFrameID s) (controlFrames s) x (currentOpPC s) (Operations s) (SourceOffsets s) (LabelCallers s) (UsesMemory s) (PendingExceptionTable s).
Definition set_currentOpPC x s := mkState (core s) (currentFrameID s) (controlFrames s) (unreachableDepth s) x (Operations s) (SourceOffsets s) (LabelCallers s) (UsesMemory s) (PendingExceptionTable s).
Definition set_Operations ops offs s := mkState (core s) (currentFrameID s) (controlFrames s) (unreachableDepth s) (currentOpPC s) ops offs (LabelCallers s) (UsesMemory s) (PendingExceptionTable s).
Definition set_LabelCallers x s := mkState (core s) (currentFrameID s) (controlFrames s) (unreachableDepth s) (currentOpPC s) (Operations s) (SourceOffsets s) x (UsesMemory s) (PendingExceptionTable s).
Definition set_UsesMemory x s := mkState (core s) (currentFrameID s) (controlFrames s) (unreachableDepth s) (currentOpPC s) (Operations s) (SourceOffsets s) (LabelCallers s) x (PendingExceptionTable s).
Definition set_PendingExceptionTable x s := mkState (core s) (currentFrameID s) (controlFrames s) (unreachableDepth s) (currentOpPC s) (Operations s) (SourceOffsets s) (LabelCallers s) (UsesMemory s) x.
Definition set_c_unreachable (b : bool) (c : compiler) : compiler :=
  mkCompiler (c_stack c) (c_stackLenInUint64 c) b (c_pc c) (c_body c) (c_sig c) (c_localTypes c) (c_funcs c) (c_globals c) (c_funcTypeToSigs c).

(** ** The monad *)

Definition C (A : Type) : Type := cstate -> res (A * cstate).

#[global] Instance C_ret : MRet C := fun A a s => Ok (a, s).
#[global] Instance C_bind : MBind C := fun A B k c s => let! (a, s) := c s in k a s.

Definition liftC {A} (r : res A) : C A := fun s => let! a := r in Ok (a, s).
Definition getC {A} (f : cstate -> A) : C A := fun s => Ok (f s, s).
Definition modC (f : cstate -> cstate) : C unit := fun s => Ok (tt, f s).
Definition failC {A} (msg : string) : C A := fun _ => Err msg.
(** An operation of the operand stack. *)
Definition coreC {A} (f : compiler -> res (A * compiler)) : C A := fun s =>
  let! (a, c) := f (core s) in Ok (a, set_core c s).

Definition pcOf (s : cstate) : Z := c_pc (core s).
Definition advanceC (n : Z) : C unit := modC (fun s => set_core (set_c_pc (c_pc (core s) + n) (core s)) s).
Definition isUnreachable (s : cstate) : bool := c_unreachable (core s).
Definition markUnreachable : C unit := modC (fun s => set_core (set_c_unreachable true (core s)) s).
Definition resetUnreachable : C unit := modC (fun s => set_core (set_c_unreachable false (core s)) s).

(** [c.body[c.pc+d:]] and [c.body[c.pc]] *)
Definition bodyFromC (d : Z) : C (list Z) := c ← getC core; liftC (zslice (c_body c) (c_pc c + d)).
Definition bodyAtC : C Z := c ← getC core; liftC (zindex (c_body c) (c_pc c)).

Definition pushC (ts : unsignedType) : C unit := coreC (fun c => Ok (tt, stackPush ts c)).
Definition popC : C unsignedType := coreC stackPop.
Fixpoint popN (n : nat) : C unit :=
  match n with O => mret tt | S n' => _ ← popC; popN n' end.
(** [for _, t := range ts { c.stackPush(wasmValueTypeTounsignedType(t)) }] *)
Fixpoint pushTypes (ts : list ValueType) : C unit :=
  match ts with
  | [] => mret tt
  | t :: ts' => u ← liftC (wasmValueTypeTounsignedType t); _ ← pushC u; pushTypes ts'
  end.

Definition stackPeek : C unsignedType :=
  c ← getC core; liftC (match c_stack c with t :: _ => Ok t | [] => Panic "index out of range" end).

(** [c.stack[:frame.originalStackLenWithoutParam]], the head being the top. *)
Definition stackSwitchAt (f : controlFrame) : C unit :=
  c ← getC core;
  let n := originalStackLenWithoutParam f in
  if (0 <=? n) && (n <=? zlen (c_stack c)) then
    modC (set_core (set_c_stack (drop (Z.to_nat (zlen (c_stack c) - n)) (c_stack c)) (originalStackLenWithoutParamUint64 f) c))
  else liftC (Panic "slice bounds out of range").

(** The frame [n] positions from the top, and its replacement. *)
Definition getFrame (n : Z) : C controlFrame := fs ← getC controlFrames; liftC (zindex fs n).
Definition setFrame (n : Z) (f : controlFrame) : C unit :=
  modC (fun s => set_controlFrames (<[Z.to_nat n := f]> (controlFrames s)) s).
Definition topFrame : C controlFrame := getFrame 0.
Definition functionFrame : C controlFrame :=
  fs ← getC controlFrames; liftC (match last fs with Some f => Ok f | None => Panic "index out of range" end).
Definition pushFrame (f : controlFrame) : C unit := modC (fun s => set_controlFrames (f :: controlFrames s) s).
Definition popFrame : C controlFrame :=
  f ← topFrame; _ ← modC (fun s => set_controlFrames (tail (controlFrames s)) s); mret f.

Definition nextFrameID : C Z :=
  n ← getC currentFrameID;
  let id := wrap32 (n + 1) in
  _ ← modC (set_currentFrameID id); mret id.

(** [c.result.LabelCallers[l] += n] *)
Definition callLabelTimes (n : Z) (l : label) : C unit :=
  modC (fun s => set_LabelCallers (<[l := wrap32 (default 0 (LabelCallers s !! l) + n)]> (LabelCallers s)) s).
Definition callLabel : label -> C unit := callLabelTimes 1.

(** ** Tables of operations *)

Definition compareOperation (op : Z) : option unionOperation :=
  if op =? OpcodeI32Eqz then Some (newOperationEqz unsignedInt32)
  else if op =? OpcodeI32Eq then Some (newOperationEq unsignedTypeI32)
  else if op =? OpcodeI32Ne then Some (newOperationNe unsignedTypeI32)
  else if op =? OpcodeI32LtS then Some (newOperationLt signedTypeInt32)
  else if op =? OpcodeI32LtU then Some (newOperationLt signedTypeUint32)
  else if op =? OpcodeI32GtS then Some (newOperationGt signedTypeInt32)
  else if op =? OpcodeI32GtU then Some (newOperationGt signedTypeUint32)
  else if op =? OpcodeI32LeS then Some (newOperationLe signedTypeInt32)
  else if op =? OpcodeI32LeU then Some (newOperationLe signedTypeUint32)
  else if op =? OpcodeI32GeS then Some (newOperationGe signedTypeInt32)
  else if op =? OpcodeI32GeU then Some (newOperationGe signedTypeUint32)
  else if op =? OpcodeI64Eqz then Some (newOperationEqz unsignedInt64)
  else if op =? OpcodeI64Eq then Some (newOperationEq unsignedTypeI64)
  else if op =? OpcodeI64Ne then Some (newOperationNe unsignedTypeI64)
  else if op =? OpcodeI64LtS then Some (newOperationLt signedTypeInt64)
  else if op =? OpcodeI64LtU then Some (newOperationLt signedTypeUint64)
  else if op =? OpcodeI64GtS then Some (newOperationGt signedTypeInt64)
  else if op =? OpcodeI64GtU then Some (newOperationGt signedTypeUint64)
  else if op =? OpcodeI64LeS then Some (newOperationLe signedTypeInt64)
  else if op =? OpcodeI64LeU then Some (newOperationLe signedTypeUint64)
  else if op =? OpcodeI64GeS then Some (newOperationGe signedTypeInt64)
  else if op =? OpcodeI64GeU then Some (newOperationGe signedTypeUint64)
  else if op =? OpcodeF32Eq then Some (newOperationEq unsignedTypeF32)
  else if op =? OpcodeF32Ne then Some (newOperationNe unsignedTypeF32)
  else if op =? OpcodeF32Lt then Some (newOperationLt signedTypeFloat32)
  else if op =? OpcodeF32Gt then Some (newOperationGt signedTypeFloat32)
  else if op =? OpcodeF32Le then Some (newOperationLe signedTypeFloat32)
  else if op =? OpcodeF32Ge then Some (newOperationGe signedTypeFloat32)
  else if op =? OpcodeF64Eq then Some (newOperationEq unsignedTypeF64)
  else if op =? OpcodeF64Ne then Some (newOperationNe unsignedTypeF64)
  else if op =? OpcodeF64Lt then Some (newOperationLt signedTypeFloat64)
  else if op =? OpcodeF64Gt then Some (newOperationGt signedTypeFloat64)
  else if op =? OpcodeF64Le then Some (newOperationLe signedTypeFloat64)
  else if op =? OpcodeF64Ge then Some (newOperationGe signedTypeFloat64)
  else None.

Definition integerOperation (op : Z) : option unionOperation :=
  if op =? OpcodeI32Clz then Some (newOperationClz unsignedInt32)
  else if op =? OpcodeI32Ctz then Some (newOperationCtz unsignedInt32)
  else if op =? OpcodeI32Popcnt then Some (newOperationPopcnt unsignedInt32)
  else if op =? OpcodeI32Add then Some (newOperationAdd unsignedTypeI32)
  else if op =? OpcodeI32Sub then Some (newOperationSub unsignedTypeI32)
  else if op =? OpcodeI32Mul then Some (newOperationMul unsignedTypeI32)
  else if op =? OpcodeI32DivS then Some (newOperationDiv signedTypeInt32)
  else if op =? OpcodeI32DivU then Some (newOperationDiv signedTypeUint32)
  else if op =? OpcodeI32RemS then Some (newOperationRem signedInt32)
  else if op =? OpcodeI32RemU then Some (newOperationRem signedUint32)
  else if op =? OpcodeI32And then Some (newOperationAnd unsignedInt32)
  else if op =? OpcodeI32Or then Some (newOperationOr unsignedInt32)
  else if op =? OpcodeI32Xor then Some (newOperationXor unsignedInt64)
  else if op =? OpcodeI32Shl then Some (newOperationShl unsignedInt32)
  else if op =? OpcodeI32ShrS then Some (newOperationShr signedInt32)
  else if op =? OpcodeI32ShrU then Some (newOperationShr signedUint32)
  else if op =? OpcodeI32Rotl then Some (newOperationRotl unsignedInt32)
  else if op =? OpcodeI32Rotr then Some (newOperationRotr unsignedInt32)
  else if op =? OpcodeI64Clz then Some (newOperationClz unsignedInt64)
  else if op =? OpcodeI64Ctz then Some (newOperationCtz unsignedInt64)
  else if op =? OpcodeI64Popcnt then Some (newOperationPopcnt unsignedInt64)
  else if op =? OpcodeI64Add then Some (newOperationAdd unsignedTypeI64)
  else if op =? OpcodeI64Sub then Some (newOperationSub unsignedTypeI64)
  else if op =? OpcodeI64Mul then Some (newOperationMul unsignedTypeI64)
  else if op =? OpcodeI64DivS then Some (newOperationDiv signedTypeInt64)
  else if op =? OpcodeI64DivU then Some (newOperationDiv signedTypeUint64)
  else if op =? OpcodeI64RemS then Some (newOperationRem signedInt64)
  else if op =? OpcodeI64RemU then Some (newOperationRem signedUint64)
  else if op =? OpcodeI64And then Some (newOperationAnd unsignedInt64)
  else if op =? OpcodeI64Or then Some (newOperationOr unsignedInt64)
  else if op =? OpcodeI64Xor then Some (newOperationXor unsignedInt64)
  else if op =? OpcodeI64Shl then Some (newOperationShl unsignedInt64)
  else if op =? OpcodeI64ShrS then Some (newOperationShr signedInt64)
  else if op =? OpcodeI64ShrU then Some (newOperationShr signedUint64)
  else if op =? OpcodeI64Rotl then Some (newOperationRotl unsignedInt64)
  else if op =? OpcodeI64Rotr then Some (newOperationRotr unsignedInt64)
  else None.

Definition floatOperation (op : Z) : option unionOperation :=
  if op =? OpcodeF32Abs then Some (newOperationAbs f32)
  else if op =? OpcodeF32Neg then Some (newOperationNeg f32)
  else if op =? OpcodeF32Ceil then Some (newOperationCeil f32)
  else if op =? OpcodeF32Floor then Some (newOperationFloor f32)
  else if op =? OpcodeF32Trunc then Some (newOperationTrunc f32)
  else if op =? OpcodeF32Nearest then Some (newOperationNearest f32)
  else if op =? OpcodeF32Sqrt then Some (newOperationSqrt f32)
  else if op =? OpcodeF32Add then Some (newOperationAdd unsignedTypeF32)
  else if op =? OpcodeF32Sub then Some (newOperationSub unsignedTypeF32)
  else if op =? OpcodeF32Mul then Some (newOperationMul unsignedTypeF32)
  else if op =? OpcodeF32Div then Some (newOperationDiv signedTypeFloat32)
  else if op =? OpcodeF32Min then Some (newOperationMin f32)
  else if op =? OpcodeF32Max then Some (newOperationMax f32)
  else if op =? OpcodeF32Copysign then Some (newOperationCopysign f32)
  else if op =? OpcodeF64Abs then Some (newOperationAbs f64)
  else if op =? OpcodeF64Neg then Some (newOperationNeg f64)
  else if op =? OpcodeF64Ceil then Some (newOperationCeil f64)
  else if op =? OpcodeF64Floor then Some (newOperationFloor f64)
  else if op =? OpcodeF64Trunc then Some (newOperationTrunc f64)
  else if op =? OpcodeF64Nearest then Some (newOperationNearest f64)
  else if op =? OpcodeF64Sqrt then Some (newOperationSqrt f64)
  else if op =? OpcodeF64Add then Some (newOperationAdd unsignedTypeF64)
  else if op =? OpcodeF64Sub then Some (newOperationSub unsignedTypeF64)
  else if op =? OpcodeF64Mul then Some (newOperationMul unsignedTypeF64)
  else if op =? OpcodeF64Div then Some (newOperationDiv signedTypeFloat64)
  else if op =? OpcodeF64Min then Some (newOperationMin f64)
  else if op =? OpcodeF64Max then Some (newOperationMax f64)
  else if op =? OpcodeF64Copysign then Some (newOperationCopysign f64)
  else None.

Definition conversionOperation (op : Z) : option unionOperation :=
  if op =? OpcodeI32WrapI64 then Some newOperationI32WrapFromI64
  else if op =? OpcodeI32TruncF32S then Some (newOperationITruncFromF f32 signedInt32 false)
  else if op =? OpcodeI32TruncF32U then Some (newOperationITruncFromF f32 signedUint32 false)
  else if op =? OpcodeI32TruncF64S then Some (newOperationITruncFromF f64 signedInt32 false)
  else if op =? OpcodeI32TruncF64U then Some (newOperationITruncFromF f64 signedUint32 false)
  else if op =? OpcodeI64ExtendI32S then Some (newOperationExtend true)
  else if op =? OpcodeI64ExtendI32U then Some (newOperationExtend false)
  else if op =? OpcodeI64TruncF32S then Some (newOperationITruncFromF f32 signedInt64 false)
  else if op =? OpcodeI64TruncF32U then Some (newOperationITruncFromF f32 signedUint64 false)
  else if op =? OpcodeI64TruncF64S then Some (newOperationITruncFromF f64 signedInt64 false)
  else if op =? OpcodeI64TruncF64U then Some (newOperationITruncFromF f64 signedUint64 false)
  else if op =? OpcodeF32ConvertI32S then Some (newOperationFConvertFromI signedInt32 f32)
  else if op =? OpcodeF32ConvertI32U then Some (newOperationFConvertFromI signedUint32 f32)
  else if op =? OpcodeF32ConvertI64S then Some (newOperationFConvertFromI signedInt64 f32)
  else if op =? OpcodeF32ConvertI64U then Some (newOperationFConvertFromI signedUint64 f32)
  else if op =? OpcodeF32DemoteF64 then Some newOperationF32DemoteFromF64
  else if op =? OpcodeF64ConvertI32S then Some (newOperationFConvertFromI signedInt32 f64)
  else if op =? OpcodeF64ConvertI32U then Some (newOperationFConvertFromI signedUint32 f64)
  else if op =? OpcodeF64ConvertI64S then Some (newOperationFConvertFromI signedInt64 f64)
  else if op =? OpcodeF64ConvertI64U then Some (newOperationFConvertFromI signedUint64 f64)
  else if op =? OpcodeF64PromoteF32 then Some newOperationF64PromoteFromF32
  else if op =? OpcodeI32ReinterpretF32 then Some newOperationI32ReinterpretFromF32
  else if op =? OpcodeI64ReinterpretF64 then Some newOperationI64ReinterpretFromF64
  else if op =? OpcodeF32ReinterpretI32 then Some newOperationF32ReinterpretFromI32
  else if op =? OpcodeF64ReinterpretI64 then Some newOperationF64ReinterpretFromI64
  else if op =? OpcodeI32Extend8S then Some newOperationSignExtend32From8
  else if op =? OpcodeI32Extend16S then Some newOperationSignExtend32From16
  else if op =? OpcodeI64Extend8S then Some newOperationSignExtend64From8
  else if op =? OpcodeI64Extend16S then Some newOperationSignExtend64From16
  else if op =? OpcodeI64Extend32S then Some newOperationSignExtend64From32
  else None.

Definition loadOperation (op : Z) : option (string * (memoryArg -> unionOperation)) :=
  if op =? OpcodeI32Load then Some ("i32.load", fun arg => newOperationLoad unsignedTypeI32 arg)
  else if op =? OpcodeI64Load then Some ("i64.load", fun arg => newOperationLoad unsignedTypeI64 arg)
  else if op =? OpcodeF32Load then Some ("f32.load", fun arg => newOperationLoad unsignedTypeF32 arg)
  else if op =? OpcodeF64Load then Some ("f64.load", fun arg => newOperationLoad unsignedTypeF64 arg)
  else if op =? OpcodeI32Load8S then Some ("i32.load8_s", fun arg => newOperationLoad8 signedInt32 arg)
  else if op =? OpcodeI32Load8U then Some ("i32.load8_u", fun arg => newOperationLoad8 signedUint32 arg)
  else if op =? OpcodeI32Load16S then Some ("i32.load16_s", fun arg => newOperationLoad16 signedInt32 arg)
  else if op =? OpcodeI32Load16U then Some ("i32.load16_u", fun arg => newOperationLoad16 signedUint32 arg)
  else if op =? OpcodeI64Load8S then Some ("i64.load8_s", fun arg => newOperationLoad8 signedInt64 arg)
  else if op =? OpcodeI64Load8U then Some ("i64.load8_u", fun arg => newOperationLoad8 signedUint64 arg)
  else if op =? OpcodeI64Load16S then Some ("i64.load16_s", fun arg => newOperationLoad16 signedInt64 arg)
  else if op =? OpcodeI64Load16U then Some ("i64.load16_u", fun arg => newOperationLoad16 signedUint64 arg)
  else if op =? OpcodeI64Load32S then Some ("i64.load32_s", fun arg => newOperationLoad32 true arg)
  else if op =? OpcodeI64Load32U then Some ("i64.load32_u", fun arg => newOperationLoad32 false arg)
  else None.

Definition storeOperation (op : Z) : option (string * (memoryArg -> unionOperation)) :=
  if op =? OpcodeI32Store then Some ("i32.store", fun arg => newOperationStore unsignedTypeI32 arg)
  else if op =? OpcodeI64Store then Some ("i64.store", fun arg => newOperationStore unsignedTypeI64 arg)
  else if op =? OpcodeF32Store then Some ("f32.store", fun arg => newOperationStore unsignedTypeF32 arg)
  else if op =? OpcodeF64Store then Some ("f64.store", fun arg => newOperationStore unsignedTypeF64 arg)
  else if op =? OpcodeI32Store8 then Some ("i32.store8", fun arg => newOperationStore8 arg)
  else if op =? OpcodeI32Store16 then Some ("i32.store16", fun arg => newOperationStore16 arg)
  else if op =? OpcodeI64Store8 then Some ("i64.store8", fun arg => newOperationStore8 arg)
  else if op =? OpcodeI64Store16 then Some ("i64.store16", fun arg => newOperationStore16 arg)
  else if op =? OpcodeI64Store32 then Some ("i64.store32", fun arg => newOperationStore32 arg)
  else None.

Definition truncSatOperation (op : Z) : option unionOperation :=
  if op =? OpcodeMiscI32TruncSatF32S then Some (newOperationITruncFromF f32 signedInt32 true)
  else if op =? OpcodeMiscI32TruncSatF32U then Some (newOperationITruncFromF f32 signedUint32 true)
  else if op =? OpcodeMiscI32TruncSatF64S then Some (newOperationITruncFromF f64 signedInt32 true)
  else if op =? OpcodeMiscI32TruncSatF64U then Some (newOperationITruncFromF f64 signedUint32 true)
  else if op =? OpcodeMiscI64TruncSatF32S then Some (newOperationITruncFromF f32 signedInt64 true)
  else if op =? OpcodeMiscI64TruncSatF32U then Some (newOperationITruncFromF f32 signedUint64 true)
  else if op =? OpcodeMiscI64TruncSatF64S then Some (newOperationITruncFromF f64 signedInt64 true)
  else if op =? OpcodeMiscI64TruncSatF64U then Some (newOperationITruncFromF f64 signedUint64 true)
  else None.

Definition vecLoadOperation (op : Z) : option (string * (memoryArg -> unionOperation)) :=
  if op =? OpcodeVecV128Load then Some ("i32.load", fun arg => newOperationV128Load v128LoadType128 arg)
  else if op =? OpcodeVecV128Load8x8s then Some ("v128.load8x8_s", fun arg => newOperationV128Load v128LoadType8x8s arg)
  else if op =? OpcodeVecV128Load8x8u then Some ("v128.load8x8_u", fun arg => newOperationV128Load v128LoadType8x8u arg)
  else if op =? OpcodeVecV128Load16x4s then Some ("v128.load16x4_s", fun arg => newOperationV128Load v128LoadType16x4s arg)
  else if op =? OpcodeVecV128Load16x4u then Some ("v128.load16x4_u", fun arg => newOperationV128Load v128LoadType16x4u arg)
  else if op =? OpcodeVecV128Load32x2s then Some ("v128.load32x2_s", fun arg => newOperationV128Load v128LoadType32x2s arg)
  else if op =? OpcodeVecV128Load32x2u then Some ("v128.load32x2_u", fun arg => newOperationV128Load v128LoadType32x2u arg)
  else if op =? OpcodeVecV128Load8Splat then Some ("v128.load8_splat", fun arg => newOperationV128Load v128LoadType8Splat arg)
  else if op =? OpcodeVecV128Load16Splat then Some ("v128.load16_splat", fun arg => newOperationV128Load v128LoadType16Splat arg)
  else if op =? OpcodeVecV128Load32Splat then Some ("v128.load32_splat", fun arg => newOperationV128Load v128LoadType32Splat arg)
  else if op =? OpcodeVecV128Load64Splat then Some ("v128.load64_splat", fun arg => newOperationV128Load v128LoadType64Splat arg)
  else if op =? OpcodeVecV128Load32zero then Some ("v128.load32_zero", fun arg => newOperationV128Load v128LoadType32zero arg)
  else if op =? OpcodeVecV128Load64zero then Some ("v128.load64_zero", fun arg => newOperationV128Load v128LoadType64zero arg)
  else None.

Definition vecLoadLaneOperation (op : Z) : option (string * (memoryArg -> Z -> unionOperation)) :=
  if op =? OpcodeVecV128Load8Lane then Some ("v128.load8_lane", fun arg laneIndex => newOperationV128LoadLane laneIndex 8 arg)
  else if op =? OpcodeVecV128Load16Lane then Some ("v128.load16_lane", fun arg laneIndex => newOperationV128LoadLane laneIndex 16 arg)
  else if op =? OpcodeVecV128Load32Lane then Some ("v128.load32_lane", fun arg laneIndex => newOperationV128LoadLane laneIndex 32 arg)
  else if op =? OpcodeVecV128Load64Lane then Some ("v128.load64_lane", fun arg laneIndex => newOperationV128LoadLane laneIndex 64 arg)
  else None.

Definition vecStoreLaneOperation (op : Z) : option (string * (memoryArg -> Z -> unionOperation)) :=
  if op =? OpcodeVecV128Store8Lane then Some ("v128.store8_lane", fun arg laneIndex => newOperationV128StoreLane laneIndex 8 arg)
  else if op =? OpcodeVecV128Store16Lane then Some ("v128.store16_lane", fun arg laneIndex => newOperationV128StoreLane laneIndex 16 arg)
  else if op =? OpcodeVecV128Store32Lane then Some ("v128.store32_lane", fun arg laneIndex => newOperationV128StoreLane laneIndex 32 arg)
  else if op =? OpcodeVecV128Store64Lane then Some ("v128.store64_lane", fun arg laneIndex => newOperationV128StoreLane laneIndex 64 arg)
  else None.

Definition vecLaneOperation (op : Z) : option (Z -> unionOperation) :=
  if op =? OpcodeVecI8x16ExtractLaneS then Some (fun laneIndex => newOperationV128ExtractLane laneIndex true shapeI8x16)
  else if op =? OpcodeVecI8x16ExtractLaneU then Some (fun laneIndex => newOperationV128ExtractLane laneIndex false shapeI8x16)
  else if op =? OpcodeVecI16x8ExtractLaneS then Some (fun laneIndex => newOperationV128ExtractLane laneIndex true shapeI16x8)
  else if op =? OpcodeVecI16x8ExtractLaneU then Some (fun laneIndex => newOperationV128ExtractLane laneIndex false shapeI16x8)
  else if op =? OpcodeVecI32x4ExtractLane then Some (fun laneIndex => newOperationV128ExtractLane laneIndex false shapeI32x4)
  else if op =? OpcodeVecI64x2ExtractLane then Some (fun laneIndex => newOperationV128ExtractLane laneIndex false shapeI64x2)
  else if op =? OpcodeVecF32x4ExtractLane then Some (fun laneIndex => newOperationV128ExtractLane laneIndex false shapeF32x4)
  else if op =? OpcodeVecF64x2ExtractLane then Some (fun laneIndex => newOperationV128ExtractLane laneIndex false shapeF64x2)
  else if op =? OpcodeVecI8x16ReplaceLane then Some (fun laneIndex => newOperationV128ReplaceLane laneIndex shapeI8x16)
  else if op =? OpcodeVecI16x8ReplaceLane then Some (fun laneIndex => newOperationV128ReplaceLane laneIndex shapeI16x8)
  else if op =? OpcodeVecI32x4ReplaceLane then Some (fun laneIndex => newOperationV128ReplaceLane laneIndex shapeI32x4)
  else if op =? OpcodeVecI64x2ReplaceLane then Some (fun laneIndex => newOperationV128ReplaceLane laneIndex shapeI64x2)
  else if op =? OpcodeVecF32x4ReplaceLane then Some (fun laneIndex => newOperationV128ReplaceLane laneIndex shapeF32x4)
  else if op =? OpcodeVecF64x2ReplaceLane then Some (fun laneIndex => newOperationV128ReplaceLane laneIndex shapeF64x2)
  else None.

Definition vecBitOperation (op : Z) : option unionOperation :=
  if op =? OpcodeVecI8x16Splat then Some (newOperationV128Splat shapeI8x16)
  else if op =? OpcodeVecI16x8Splat then Some (newOperationV128Splat shapeI16x8)
  else if op =? OpcodeVecI32x4Splat then Some (newOperationV128Splat shapeI32x4)
  else if op =? OpcodeVecI64x2Splat then Some (newOperationV128Splat shapeI64x2)
  else if op =? OpcodeVecF32x4Splat then Some (newOperationV128Splat shapeF32x4)
  else if op =? OpcodeVecF64x2Splat then Some (newOperationV128Splat shapeF64x2)
  else if op =? OpcodeVecI8x16Swizzle then Some newOperationV128Swizzle
  else if op =? OpcodeVecV128AnyTrue then Some newOperationV128AnyTrue
  else if op =? OpcodeVecI8x16AllTrue then Some (newOperationV128AllTrue shapeI8x16)
  else if op =? OpcodeVecI16x8AllTrue then Some (newOperationV128AllTrue shapeI16x8)
  else if op =? OpcodeVecI32x4AllTrue then Some (newOperationV128AllTrue shapeI32x4)
  else if op =? OpcodeVecI64x2AllTrue then Some (newOperationV128AllTrue shapeI64x2)
  else if op =? OpcodeVecI8x16BitMask then Some (newOperationV128BitMask shapeI8x16)
  else if op =? OpcodeVecI16x8BitMask then Some (newOperationV128BitMask shapeI16x8)
  else if op =? OpcodeVecI32x4BitMask then Some (newOperationV128BitMask shapeI32x4)
  else if op =? OpcodeVecI64x2BitMask then Some (newOperationV128BitMask shapeI64x2)
  else if op =? OpcodeVecV128And then Some newOperationV128And
  else if op =? OpcodeVecV128Not then Some newOperationV128Not
  else if op =? OpcodeVecV128Or then Some newOperationV128Or
  else if op =? OpcodeVecV128Xor then Some newOperationV128Xor
  else if op =? OpcodeVecV128Bitselect then Some newOperationV128Bitselect
  else if op =? OpcodeVecV128AndNot then Some newOperationV128AndNot
  else if op =? OpcodeVecI8x16Shl then Some (newOperationV128Shl shapeI8x16)
  else if op =? OpcodeVecI8x16ShrS then Some (newOperationV128Shr shapeI8x16 true)
  else if op =? OpcodeVecI8x16ShrU then Some (newOperationV128Shr shapeI8x16 false)
  else if op =? OpcodeVecI16x8Shl then Some (newOperationV128Shl shapeI16x8)
  else if op =? OpcodeVecI16x8ShrS then Some (newOperationV128Shr shapeI16x8 true)
  else if op =? OpcodeVecI16x8ShrU then Some (newOperationV128Shr shapeI16x8 false)
  else if op =? OpcodeVecI32x4Shl then Some (newOperationV128Shl shapeI32x4)
  else if op =? OpcodeVecI32x4ShrS then Some (newOperationV128Shr shapeI32x4 true)
  else if op =? OpcodeVecI32x4ShrU then Some (newOperationV128Shr shapeI32x4 false)
  else if op =? OpcodeVecI64x2Shl then Some (newOperationV128Shl shapeI64x2)
  else if op =? OpcodeVecI64x2ShrS then Some (newOperationV128Shr shapeI64x2 true)
  else if op =? OpcodeVecI64x2ShrU then Some (newOperationV128Shr shapeI64x2 false)
  else None.

Definition vecCompareNarrowOperation (op : Z) : option unionOperation :=
  if op =? OpcodeVecI8x16Eq then Some (newOperationV128Cmp v128CmpTypeI8x16Eq)
  else if op =? OpcodeVecI8x16Ne then Some (newOperationV128Cmp v128CmpTypeI8x16Ne)
  else if op =? OpcodeVecI8x16LtS then Some (newOperationV128Cmp v128CmpTypeI8x16LtS)
  else if op =? OpcodeVecI8x16LtU then Some (newOperationV128Cmp v128CmpTypeI8x16LtU)
  else if op =? OpcodeVecI8x16GtS then Some (newOperationV128Cmp v128CmpTypeI8x16GtS)
  else if op =? OpcodeVecI8x16GtU then Some (newOperationV128Cmp v128CmpTypeI8x16GtU)
  else if op =? OpcodeVecI8x16LeS then Some (newOperationV128Cmp v128CmpTypeI8x16LeS)
  else if op =? OpcodeVecI8x16LeU then Some (newOperationV128Cmp v128CmpTypeI8x16LeU)
  else if op =? OpcodeVecI8x16GeS then Some (newOperationV128Cmp v128CmpTypeI8x16GeS)
  else if op =? OpcodeVecI8x16GeU then Some (newOperationV128Cmp v128CmpTypeI8x16GeU)
  else if op =? OpcodeVecI16x8Eq then Some (newOperationV128Cmp v128CmpTypeI16x8Eq)
  else if op =? OpcodeVecI16x8Ne then Some (newOperationV128Cmp v128CmpTypeI16x8Ne)
  else if op =? OpcodeVecI16x8LtS then Some (newOperationV128Cmp v128CmpTypeI16x8LtS)
  else if op =? OpcodeVecI16x8LtU then Some (newOperationV128Cmp v128CmpTypeI16x8LtU)
  else if op =? OpcodeVecI16x8GtS then Some (newOperationV128Cmp v128CmpTypeI16x8GtS)
  else if op =? OpcodeVecI16x8GtU then Some (newOperationV128Cmp v128CmpTypeI16x8GtU)
  else if op =? OpcodeVecI16x8LeS then Some (newOperationV128Cmp v128CmpTypeI16x8LeS)
  else if op =? OpcodeVecI16x8LeU then Some (newOperationV128Cmp v128CmpTypeI16x8LeU)
  else if op =? OpcodeVecI16x8GeS then Some (newOperationV128Cmp v128CmpTypeI16x8GeS)
  else if op =? OpcodeVecI16x8GeU then Some (newOperationV128Cmp v128CmpTypeI16x8GeU)
  else None.

Definition vecCompareOperation (op : Z) : option unionOperation :=
  if op =? OpcodeVecI32x4Eq then Some (newOperationV128Cmp v128CmpTypeI32x4Eq)
  else if op =? OpcodeVecI32x4Ne then Some (newOperationV128Cmp v128CmpTypeI32x4Ne)
  else if op =? OpcodeVecI32x4LtS then Some (newOperationV128Cmp v128CmpTypeI32x4LtS)
  else if op =? OpcodeVecI32x4LtU then Some (newOperationV128Cmp v128CmpTypeI32x4LtU)
  else if op =? OpcodeVecI32x4GtS then Some (newOperationV128Cmp v128CmpTypeI32x4GtS)
  else if op =? OpcodeVecI32x4GtU then Some (newOperationV128Cmp v128CmpTypeI32x4GtU)
  else if op =? OpcodeVecI32x4LeS then Some (newOperationV128Cmp v128CmpTypeI32x4LeS)
  else if op =? OpcodeVecI32x4LeU then Some (newOperationV128Cmp v128CmpTypeI32x4LeU)
  else if op =? OpcodeVecI32x4GeS then Some (newOperationV128Cmp v128CmpTypeI32x4GeS)
  else if op =? OpcodeVecI32x4GeU then Some (newOperationV128Cmp v128CmpTypeI32x4GeU)
  else if op =? OpcodeVecI64x2Eq then Some (newOperationV128Cmp v128CmpTypeI64x2Eq)
  else if op =? OpcodeVecI64x2Ne then Some (newOperationV128Cmp v128CmpTypeI64x2Ne)
  else if op =? OpcodeVecI64x2LtS then Some (newOperationV128Cmp v128CmpTypeI64x2LtS)
  else if op =? OpcodeVecI64x2GtS then Some (newOperationV128Cmp v128CmpTypeI64x2GtS)
  else if op =? OpcodeVecI64x2LeS then Some (newOperationV128Cmp v128CmpTypeI64x2LeS)
  else if op =? OpcodeVecI64x2GeS then Some (newOperationV128Cmp v128CmpTypeI64x2GeS)
  else if op =? OpcodeVecF32x4Eq then Some (newOperationV128Cmp v128CmpTypeF32x4Eq)
  else if op =? OpcodeVecF32x4Ne then Some (newOperationV128Cmp v128CmpTypeF32x4Ne)
  else if op =? OpcodeVecF32x4Lt then Some (newOperationV128Cmp v128CmpTypeF32x4Lt)
  else if op =? OpcodeVecF32x4Gt then Some (newOperationV128Cmp v128CmpTypeF32x4Gt)
  else if op =? OpcodeVecF32x4Le then Some (newOperationV128Cmp v128CmpTypeF32x4Le)
  else if op =? OpcodeVecF32x4Ge then Some (newOperationV128Cmp v128CmpTypeF32x4Ge)
  else if op =? OpcodeVecF64x2Eq then Some (newOperationV128Cmp v128CmpTypeF64x2Eq)
  else if op =? OpcodeVecF64x2Ne then Some (newOperationV128Cmp v128CmpTypeF64x2Ne)
  else if op =? OpcodeVecF64x2Lt then Some (newOperationV128Cmp v128CmpTypeF64x2Lt)
  else if op =? OpcodeVecF64x2Gt then Some (newOperationV128Cmp v128CmpTypeF64x2Gt)
  else if op =? OpcodeVecF64x2Le then Some (newOperationV128Cmp v128CmpTypeF64x2Le)
  else if op =? OpcodeVecF64x2Ge then Some (newOperationV128Cmp v128CmpTypeF64x2Ge)
  else None.

Definition vecArithOperation (op : Z) : option unionOperation :=
  if op =? OpcodeVecI8x16Neg then Some (newOperationV128Neg shapeI8x16)
  else if op =? OpcodeVecI16x8Neg then Some (newOperationV128Neg shapeI16x8)
  else if op =? OpcodeVecI32x4Neg then Some (newOperationV128Neg shapeI32x4)
  else if op =? OpcodeVecI64x2Neg then Some (newOperationV128Neg shapeI64x2)
  else if op =? OpcodeVecF32x4Neg then Some (newOperationV128Neg shapeF32x4)
  else if op =? OpcodeVecF64x2Neg then Some (newOperationV128Neg shapeF64x2)
  else if op =? OpcodeVecI8x16Add then Some (newOperationV128Add shapeI8x16)
  else if op =? OpcodeVecI16x8Add then Some (newOperationV128Add shapeI16x8)
  else if op =? OpcodeVecI32x4Add then Some (newOperationV128Add shapeI32x4)
  else if op =? OpcodeVecI64x2Add then Some (newOperationV128Add shapeI64x2)
  else if op =? OpcodeVecF32x4Add then Some (newOperationV128Add shapeF32x4)
  else if op =? OpcodeVecF64x2Add then Some (newOperationV128Add shapeF64x2)
  else if op =? OpcodeVecI8x16Sub then Some (newOperationV128Sub shapeI8x16)
  else if op =? OpcodeVecI16x8Sub then Some (newOperationV128Sub shapeI16x8)
  else if op =? OpcodeVecI32x4Sub then Some (newOperationV128Sub shapeI32x4)
  else if op =? OpcodeVecI64x2Sub then Some (newOperationV128Sub shapeI64x2)
  else if op =? OpcodeVecF32x4Sub then Some (newOperationV128Sub shapeF32x4)
  else if op =? OpcodeVecF64x2Sub then Some (newOperationV128Sub shapeF64x2)
  else if op =? OpcodeVecI8x16AddSatS then Some (newOperationV128AddSat shapeI8x16 true)
  else if op =? OpcodeVecI8x16AddSatU then Some (newOperationV128AddSat shapeI8x16 false)
  else if op =? OpcodeVecI16x8AddSatS then Some (newOperationV128AddSat shapeI16x8 true)
  else if op =? OpcodeVecI16x8AddSatU then Some (newOperationV128AddSat shapeI16x8 false)
  else if op =? OpcodeVecI8x16SubSatS then Some (newOperationV128SubSat shapeI8x16 true)
  else if op =? OpcodeVecI8x16SubSatU then Some (newOperationV128SubSat shapeI8x16 false)
  else if op =? OpcodeVecI16x8SubSatS then Some (newOperationV128SubSat shapeI16x8 true)
  else if op =? OpcodeVecI16x8SubSatU then Some (newOperationV128SubSat shapeI16x8 false)
  else if op =? OpcodeVecI16x8Mul then Some (newOperationV128Mul shapeI16x8)
  else if op =? OpcodeVecI32x4Mul then Some (newOperationV128Mul shapeI32x4)
  else if op =? OpcodeVecI64x2Mul then Some (newOperationV128Mul shapeI64x2)
  else if op =? OpcodeVecF32x4Mul then Some (newOperationV128Mul shapeF32x4)
  else if op =? OpcodeVecF64x2Mul then Some (newOperationV128Mul shapeF64x2)
  else if op =? OpcodeVecF32x4Sqrt then Some (newOperationV128Sqrt shapeF32x4)
  else if op =? OpcodeVecF64x2Sqrt then Some (newOperationV128Sqrt shapeF64x2)
  else if op =? OpcodeVecF32x4Div then Some (newOperationV128Div shapeF32x4)
  else if op =? OpcodeVecF64x2Div then Some (newOperationV128Div shapeF64x2)
  else None.

Definition vecMinMaxOperation (op : Z) : option unionOperation :=
  if op =? OpcodeVecI8x16Abs then Some (newOperationV128Abs shapeI8x16)
  else if op =? OpcodeVecI8x16Popcnt then Some (newOperationV128Popcnt shapeI8x16)
  else if op =? OpcodeVecI16x8Abs then Some (newOperationV128Abs shapeI16x8)
  else if op =? OpcodeVecI32x4Abs then Some (newOperationV128Abs shapeI32x4)
  else if op =? OpcodeVecI64x2Abs then Some (newOperationV128Abs shapeI64x2)
  else if op =? OpcodeVecF32x4Abs then Some (newOperationV128Abs shapeF32x4)
  else if op =? OpcodeVecF64x2Abs then Some (newOperationV128Abs shapeF64x2)
  else if op =? OpcodeVecI8x16MinS then Some (newOperationV128Min shapeI8x16 true)
  else if op =? OpcodeVecI8x16MinU then Some (newOperationV128Min shapeI8x16 false)
  else if op =? OpcodeVecI8x16MaxS then Some (newOperationV128Max shapeI8x16 true)
  else if op =? OpcodeVecI8x16MaxU then Some (newOperationV128Max shapeI8x16 false)
  else if op =? OpcodeVecI8x16AvgrU then Some (newOperationV128AvgrU shapeI8x16)
  else if op =? OpcodeVecI16x8MinS then Some (newOperationV128Min shapeI16x8 true)
  else if op =? OpcodeVecI16x8MinU then Some (newOperationV128Min shapeI16x8 false)
  else if op =? OpcodeVecI16x8MaxS then Some (newOperationV128Max shapeI16x8 true)
  else if op =? OpcodeVecI16x8MaxU then Some (newOperationV128Max shapeI16x8 false)
  else if op =? OpcodeVecI16x8AvgrU then Some (newOperationV128AvgrU shapeI16x8)
  else if op =? OpcodeVecI32x4MinS then Some (newOperationV128Min shapeI32x4 true)
  else if op =? OpcodeVecI32x4MinU then Some (newOperationV128Min shapeI32x4 false)
  else if op =? OpcodeVecI32x4MaxS then Some (newOperationV128Max shapeI32x4 true)
  else if op =? OpcodeVecI32x4MaxU then Some (newOperationV128Max shapeI32x4 false)
  else if op =? OpcodeVecF32x4Min then Some (newOperationV128Min shapeF32x4 false)
  else if op =? OpcodeVecF32x4Max then Some (newOperationV128Max shapeF32x4 false)
  else if op =? OpcodeVecF64x2Min then Some (newOperationV128Min shapeF64x2 false)
  else if op =? OpcodeVecF64x2Max then Some (newOperationV128Max shapeF64x2 false)
  else if op =? OpcodeVecF32x4Pmin then Some (newOperationV128Pmin shapeF32x4)
  else if op =? OpcodeVecF32x4Pmax then Some (newOperationV128Pmax shapeF32x4)
  else if op =? OpcodeVecF64x2Pmin then Some (newOperationV128Pmin shapeF64x2)
  else if op =? OpcodeVecF64x2Pmax then Some (newOperationV128Pmax shapeF64x2)
  else if op =? OpcodeVecF32x4Ceil then Some (newOperationV128Ceil shapeF32x4)
  else if op =? OpcodeVecF32x4Floor then Some (newOperationV128Floor shapeF32x4)
  else if op =? OpcodeVecF32x4Trunc then Some (newOperationV128Trunc shapeF32x4)
  else if op =? OpcodeVecF32x4Nearest then Some (newOperationV128Nearest shapeF32x4)
  else if op =? OpcodeVecF64x2Ceil then Some (newOperationV128Ceil shapeF64x2)
  else if op =? OpcodeVecF64x2Floor then Some (newOperationV128Floor shapeF64x2)
  else if op =? OpcodeVecF64x2Trunc then Some (newOperationV128Trunc shapeF64x2)
  else if op =? OpcodeVecF64x2Nearest then Some (newOperationV128Nearest shapeF64x2)
  else None.

Definition vecExtendOperation (op : Z) : option unionOperation :=
  if op =? OpcodeVecI16x8ExtendLowI8x16S then Some (newOperationV128Extend shapeI8x16 true true)
  else if op =? OpcodeVecI16x8ExtendHighI8x16S then Some (newOperationV128Extend shapeI8x16 true false)
  else if op =? OpcodeVecI16x8ExtendLowI8x16U then Some (newOperationV128Extend shapeI8x16 false true)
  else if op =? OpcodeVecI16x8ExtendHighI8x16U then Some (newOperationV128Extend shapeI8x16 false false)
  else if op =? OpcodeVecI32x4ExtendLowI16x8S then Some (newOperationV128Extend shapeI16x8 true true)
  else if op =? OpcodeVecI32x4ExtendHighI16x8S then Some (newOperationV128Extend shapeI16x8 true false)
  else if op =? OpcodeVecI32x4ExtendLowI16x8U then Some (newOperationV128Extend shapeI16x8 false true)
  else if op =? OpcodeVecI32x4ExtendHighI16x8U then Some (newOperationV128Extend shapeI16x8 false false)
  else if op =? OpcodeVecI64x2ExtendLowI32x4S then Some (newOperationV128Extend shapeI32x4 true true)
  else if op =? OpcodeVecI64x2ExtendHighI32x4S then Some (newOperationV128Extend shapeI32x4 true false)
  else if op =? OpcodeVecI64x2ExtendLowI32x4U then Some (newOperationV128Extend shapeI32x4 false true)
  else if op =? OpcodeVecI64x2ExtendHighI32x4U then Some (newOperationV128Extend shapeI32x4 false false)
  else if op =? OpcodeVecI16x8Q15mulrSatS then Some newOperationV128Q15mulrSatS
  else if op =? OpcodeVecI16x8ExtMulLowI8x16S then Some (newOperationV128ExtMul shapeI8x16 true true)
  else if op =? OpcodeVecI16x8ExtMulHighI8x16S then Some (newOperationV128ExtMul shapeI8x16 true false)
  else if op =? OpcodeVecI16x8ExtMulLowI8x16U then Some (newOperationV128ExtMul shapeI8x16 false true)
  else if op =? OpcodeVecI16x8ExtMulHighI8x16U then Some (newOperationV128ExtMul shapeI8x16 false false)
  else if op =? OpcodeVecI32x4ExtMulLowI16x8S then Some (newOperationV128ExtMul shapeI16x8 true true)
  else if op =? OpcodeVecI32x4ExtMulHighI16x8S then Some (newOperationV128ExtMul shapeI16x8 true false)
  else if op =? OpcodeVecI32x4ExtMulLowI16x8U then Some (newOperationV128ExtMul shapeI16x8 false true)
  else if op =? OpcodeVecI32x4ExtMulHighI16x8U then Some (newOperationV128ExtMul shapeI16x8 false false)
  else if op =? OpcodeVecI64x2ExtMulLowI32x4S then Some (newOperationV128ExtMul shapeI32x4 true true)
  else if op =? OpcodeVecI64x2ExtMulHighI32x4S then Some (newOperationV128ExtMul shapeI32x4 true false)
  else if op =? OpcodeVecI64x2ExtMulLowI32x4U then Some (newOperationV128ExtMul shapeI32x4 false true)
  else if op =? OpcodeVecI64x2ExtMulHighI32x4U then Some (newOperationV128ExtMul shapeI32x4 false false)
  else if op =? OpcodeVecI16x8ExtaddPairwiseI8x16S then Some (newOperationV128ExtAddPairwise shapeI8x16 true)
  else if op =? OpcodeVecI16x8ExtaddPairwiseI8x16U then Some (newOperationV128ExtAddPairwise shapeI8x16 false)
  else if op =? OpcodeVecI32x4ExtaddPairwiseI16x8S then Some (newOperationV128ExtAddPairwise shapeI16x8 true)
  else if op =? OpcodeVecI32x4ExtaddPairwiseI16x8U then Some (newOperationV128ExtAddPairwise shapeI16x8 false)
  else None.

Definition vecConvertOperation (op : Z) : option unionOperation :=
  if op =? OpcodeVecF64x2PromoteLowF32x4Zero then Some newOperationV128FloatPromote
  else if op =? OpcodeVecF32x4DemoteF64x2Zero then Some newOperationV128FloatDemote
  else if op =? OpcodeVecF32x4ConvertI32x4S then Some (newOperationV128FConvertFromI shapeF32x4 true)
  else if op =? OpcodeVecF32x4ConvertI32x4U then Some (newOperationV128FConvertFromI shapeF32x4 false)
  else if op =? OpcodeVecF64x2ConvertLowI32x4S then Some (newOperationV128FConvertFromI shapeF64x2 true)
  else if op =? OpcodeVecF64x2ConvertLowI32x4U then Some (newOperationV128FConvertFromI shapeF64x2 false)
  else if op =? OpcodeVecI32x4DotI16x8S then Some newOperationV128Dot
  else if op =? OpcodeVecI8x16NarrowI16x8S then Some (newOperationV128Narrow shapeI16x8 true)
  else if op =? OpcodeVecI8x16NarrowI16x8U then Some (newOperationV128Narrow shapeI16x8 false)
  else if op =? OpcodeVecI16x8NarrowI32x4S then Some (newOperationV128Narrow shapeI32x4 true)
  else if op =? OpcodeVecI16x8NarrowI32x4U then Some (newOperationV128Narrow shapeI32x4 false)
  else if op =? OpcodeVecI32x4TruncSatF32x4S then Some (newOperationV128ITruncSatFromF shapeF32x4 true)
  else if op =? OpcodeVecI32x4TruncSatF32x4U then Some (newOperationV128ITruncSatFromF shapeF32x4 false)
  else if op =? OpcodeVecI32x4TruncSatF64x2SZero then Some (newOperationV128ITruncSatFromF shapeF64x2 true)
  else if op =? OpcodeVecI32x4TruncSatF64x2UZero then Some (newOperationV128ITruncSatFromF shapeF64x2 false)
  else None.

Definition atomicAccessOperation (op : Z) : option (string * (memoryArg -> unionOperation)) :=
  if op =? OpcodeAtomicMemoryWait32 then Some ("memory.atomic.wait32", fun arg => newOperationAtomicMemoryWait unsignedTypeI32 arg)
  else if op =? OpcodeAtomicMemoryWait64 then Some ("memory.atomic.wait64", fun arg => newOperationAtomicMemoryWait unsignedTypeI64 arg)
  else if op =? OpcodeAtomicMemoryNotify then Some ("memory.atomic.notify", fun arg => newOperationAtomicMemoryNotify arg)
  else if op =? OpcodeAtomicI32Load then Some ("i32.atomic.load", fun arg => newOperationAtomicLoad unsignedTypeI32 arg)
  else if op =? OpcodeAtomicI64Load then Some ("i64.atomic.load", fun arg => newOperationAtomicLoad unsignedTypeI64 arg)
  else if op =? OpcodeAtomicI32Load8U then Some ("i32.atomic.load8_u", fun arg => newOperationAtomicLoad8 unsignedTypeI32 arg)
  else if op =? OpcodeAtomicI32Load16U then Some ("i32.atomic.load16_u", fun arg => newOperationAtomicLoad16 unsignedTypeI32 arg)
  else if op =? OpcodeAtomicI64Load8U then Some ("i64.atomic.load8_u", fun arg => newOperationAtomicLoad8 unsignedTypeI64 arg)
  else if op =? OpcodeAtomicI64Load16U then Some ("i64.atomic.load16_u", fun arg => newOperationAtomicLoad16 unsignedTypeI64 arg)
  else if op =? OpcodeAtomicI64Load32U then Some ("i64.atomic.load32_u", fun arg => newOperationAtomicLoad unsignedTypeI32 arg)
  else if op =? OpcodeAtomicI32Store then Some ("i32.atomic.store", fun arg => newOperationAtomicStore unsignedTypeI32 arg)
  else if op =? OpcodeAtomicI32Store8 then Some ("i32.atomic.store8", fun arg => newOperationAtomicStore8 unsignedTypeI32 arg)
  else if op =? OpcodeAtomicI32Store16 then Some ("i32.atomic.store16", fun arg => newOperationAtomicStore16 unsignedTypeI32 arg)
  else if op =? OpcodeAtomicI64Store then Some ("i64.atomic.store", fun arg => newOperationAtomicStore unsignedTypeI64 arg)
  else if op =? OpcodeAtomicI64Store8 then Some ("i64.atomic.store8", fun arg => newOperationAtomicStore8 unsignedTypeI64 arg)
  else if op =? OpcodeAtomicI64Store16 then Some ("i64.atomic.store16", fun arg => newOperationAtomicStore16 unsignedTypeI64 arg)
  else if op =? OpcodeAtomicI64Store32 then Some ("i64.atomic.store32", fun arg => newOperationAtomicStore unsignedTypeI32 arg)
  else None.

Definition atomicAddSubOperation (op : Z) : option (string * (memoryArg -> unionOperation)) :=
  if op =? OpcodeAtomicI32RmwAdd then Some ("i32.atomic.rmw.add", fun arg => newOperationAtomicRMW unsignedTypeI32 arg atomicArithmeticOpAdd)
  else if op =? OpcodeAtomicI64RmwAdd then Some ("i64.atomic.rmw.add", fun arg => newOperationAtomicRMW unsignedTypeI64 arg atomicArithmeticOpAdd)
  else if op =? OpcodeAtomicI32Rmw8AddU then Some ("i32.atomic.rmw8.add_u", fun arg => newOperationAtomicRMW8 unsignedTypeI32 arg atomicArithmeticOpAdd)
  else if op =? OpcodeAtomicI64Rmw8AddU then Some ("i64.atomic.rmw8.add_u", fun arg => newOperationAtomicRMW8 unsignedTypeI64 arg atomicArithmeticOpAdd)
  else if op =? OpcodeAtomicI32Rmw16AddU then Some ("i32.atomic.rmw16.add_u", fun arg => newOperationAtomicRMW16 unsignedTypeI32 arg atomicArithmeticOpAdd)
  else if op =? OpcodeAtomicI64Rmw16AddU then Some ("i64.atomic.rmw16.add_u", fun arg => newOperationAtomicRMW16 unsignedTypeI64 arg atomicArithmeticOpAdd)
  else if op =? OpcodeAtomicI64Rmw32AddU then Some ("i64.atomic.rmw32.add_u", fun arg => newOperationAtomicRMW unsignedTypeI32 arg atomicArithmeticOpAdd)
  else if op =? OpcodeAtomicI32RmwSub then Some ("i32.atomic.rmw.sub", fun arg => newOperationAtomicRMW unsignedTypeI32 arg atomicArithmeticOpSub)
  else if op =? OpcodeAtomicI64RmwSub then Some ("i64.atomic.rmw.sub", fun arg => newOperationAtomicRMW unsignedTypeI64 arg atomicArithmeticOpSub)
  else if op =? OpcodeAtomicI32Rmw8SubU then Some ("i32.atomic.rmw8.sub_u", fun arg => newOperationAtomicRMW8 unsignedTypeI32 arg atomicArithmeticOpSub)
  else if op =? OpcodeAtomicI64Rmw8SubU then Some ("i64.atomic.rmw8.sub_u", fun arg => newOperationAtomicRMW8 unsignedTypeI64 arg atomicArithmeticOpSub)
  else if op =? OpcodeAtomicI32Rmw16SubU then Some ("i32.atomic.rmw16.sub_u", fun arg => newOperationAtomicRMW16 unsignedTypeI32 arg atomicArithmeticOpSub)
  else if op =? OpcodeAtomicI64Rmw16SubU then Some ("i64.atomic.rmw16.sub_u", fun arg => newOperationAtomicRMW16 unsignedTypeI64 arg atomicArithmeticOpSub)
  else if op =? OpcodeAtomicI64Rmw32SubU then Some ("i64.atomic.rmw32.sub_u", fun arg => newOperationAtomicRMW unsignedTypeI32 arg atomicArithmeticOpSub)
  else None.

Definition atomicAndOrOperation (op : Z) : option (string * (memoryArg -> unionOperation)) :=
  if op =? OpcodeAtomicI32RmwAnd then Some ("i32.atomic.rmw.and", fun arg => newOperationAtomicRMW unsignedTypeI32 arg atomicArithmeticOpAnd)
  else if op =? OpcodeAtomicI64RmwAnd then Some ("i64.atomic.rmw.and", fun arg => newOperationAtomicRMW unsignedTypeI64 arg atomicArithmeticOpAnd)
  else if op =? OpcodeAtomicI32Rmw8AndU then Some ("i32.atomic.rmw8.and_u", fun arg => newOperationAtomicRMW8 unsignedTypeI32 arg atomicArithmeticOpAnd)
  else if op =? OpcodeAtomicI64Rmw8AndU then Some ("i64.atomic.rmw8.and_u", fun arg => newOperationAtomicRMW8 unsignedTypeI64 arg atomicArithmeticOpAnd)
  else if op =? OpcodeAtomicI32Rmw16AndU then Some ("i32.atomic.rmw16.and_u", fun arg => newOperationAtomicRMW16 unsignedTypeI32 arg atomicArithmeticOpAnd)
  else if op =? OpcodeAtomicI64Rmw16AndU then Some ("i64.atomic.rmw16.and_u", fun arg => newOperationAtomicRMW16 unsignedTypeI64 arg atomicArithmeticOpAnd)
  else if op =? OpcodeAtomicI64Rmw32AndU then Some ("i64.atomic.rmw32.and_u", fun arg => newOperationAtomicRMW unsignedTypeI32 arg atomicArithmeticOpAnd)
  else if op =? OpcodeAtomicI32RmwOr then Some ("i32.atomic.rmw.or", fun arg => newOperationAtomicRMW unsignedTypeI32 arg atomicArithmeticOpOr)
  else if op =? OpcodeAtomicI64RmwOr then Some ("i64.atomic.rmw.or", fun arg => newOperationAtomicRMW unsignedTypeI64 arg atomicArithmeticOpOr)
  else if op =? OpcodeAtomicI32Rmw8OrU then Some ("i32.atomic.rmw8.or_u", fun arg => newOperationAtomicRMW8 unsignedTypeI32 arg atomicArithmeticOpOr)
  else if op =? OpcodeAtomicI64Rmw8OrU then Some ("i64.atomic.rmw8.or_u", fun arg => newOperationAtomicRMW8 unsignedTypeI64 arg atomicArithmeticOpOr)
  else if op =? OpcodeAtomicI32Rmw16OrU then Some ("i32.atomic.rmw16.or_u", fun arg => newOperationAtomicRMW16 unsignedTypeI32 arg atomicArithmeticOpOr)
  else if op =? OpcodeAtomicI64Rmw16OrU then Some ("i64.atomic.rmw16.or_u", fun arg => newOperationAtomicRMW16 unsignedTypeI64 arg atomicArithmeticOpOr)
  else if op =? OpcodeAtomicI64Rmw32OrU then Some ("i64.atomic.rmw32.or_u", fun arg => newOperationAtomicRMW unsignedTypeI32 arg atomicArithmeticOpOr)
  else None.

Definition atomicXorXchgOperation (op : Z) : option (string * (memoryArg -> unionOperation)) :=
  if op =? OpcodeAtomicI32RmwXor then Some ("i32.atomic.rmw.xor", fun arg => newOperationAtomicRMW unsignedTypeI32 arg atomicArithmeticOpXor)
  else if op =? OpcodeAtomicI64RmwXor then Some ("i64.atomic.rmw.xor", fun arg => newOperationAtomicRMW unsignedTypeI64 arg atomicArithmeticOpXor)
  else if op =? OpcodeAtomicI32Rmw8XorU then Some ("i32.atomic.rmw8.xor_u", fun arg => newOperationAtomicRMW8 unsignedTypeI32 arg atomicArithmeticOpXor)
  else if op =? OpcodeAtomicI64Rmw8XorU then Some ("i64.atomic.rmw8.xor_u", fun arg => newOperationAtomicRMW8 unsignedTypeI64 arg atomicArithmeticOpXor)
  else if op =? OpcodeAtomicI32Rmw16XorU then Some ("i32.atomic.rmw16.xor_u", fun arg => newOperationAtomicRMW16 unsignedTypeI32 arg atomicArithmeticOpXor)
  else if op =? OpcodeAtomicI64Rmw16XorU then Some ("i64.atomic.rmw16.xor_u", fun arg => newOperationAtomicRMW16 unsignedTypeI64 arg atomicArithmeticOpXor)
  else if op =? OpcodeAtomicI64Rmw32XorU then Some ("i64.atomic.rmw32.xor_u", fun arg => newOperationAtomicRMW unsignedTypeI32 arg atomicArithmeticOpXor)
  else if op =? OpcodeAtomicI32RmwXchg then Some ("i32.atomic.rmw.xchg", fun arg => newOperationAtomicRMW unsignedTypeI32 arg atomicArithmeticOpNop)
  else if op =? OpcodeAtomicI64RmwXchg then Some ("i64.atomic.rmw.xchg", fun arg => newOperationAtomicRMW unsignedTypeI64 arg atomicArithmeticOpNop)
  else if op =? OpcodeAtomicI32Rmw8XchgU then Some ("i32.atomic.rmw8.xchg_u", fun arg => newOperationAtomicRMW8 unsignedTypeI32 arg atomicArithmeticOpNop)
  else if op =? OpcodeAtomicI64Rmw8XchgU then Some ("i64.atomic.rmw8.xchg_u", fun arg => newOperationAtomicRMW8 unsignedTypeI64 arg atomicArithmeticOpNop)
  else if op =? OpcodeAtomicI32Rmw16XchgU then Some ("i32.atomic.rmw16.xchg_u", fun arg => newOperationAtomicRMW16 unsignedTypeI32 arg atomicArithmeticOpNop)
  else if op =? OpcodeAtomicI64Rmw16XchgU then Some ("i64.atomic.rmw16.xchg_u", fun arg => newOperationAtomicRMW16 unsignedTypeI64 arg atomicArithmeticOpNop)
  else if op =? OpcodeAtomicI64Rmw32XchgU then Some ("i64.atomic.rmw32.xchg_u", fun arg => newOperationAtomicRMW unsignedTypeI32 arg atomicArithmeticOpNop)
  else None.

Definition atomicCmpxchgOperation (op : Z) : option (string * (memoryArg -> unionOperation)) :=
  if op =? OpcodeAtomicI32RmwCmpxchg then Some ("i32.atomic.rmw.cmpxchg", fun arg => newOperationAtomicRMWCmpxchg unsignedTypeI32 arg)
  else if op =? OpcodeAtomicI64RmwCmpxchg then Some ("i64.atomic.rmw.cmpxchg", fun arg => newOperationAtomicRMWCmpxchg unsignedTypeI64 arg)
  else if op =? OpcodeAtomicI32Rmw8CmpxchgU then Some ("i32.atomic.rmw8.cmpxchg_u", fun arg => newOperationAtomicRMW8Cmpxchg unsignedTypeI32 arg)
  else if op =? OpcodeAtomicI64Rmw8CmpxchgU then Some ("i64.atomic.rmw8.cmpxchg_u", fun arg => newOperationAtomicRMW8Cmpxchg unsignedTypeI64 arg)
  else if op =? OpcodeAtomicI32Rmw16CmpxchgU then Some ("i32.atomic.rmw16.cmpxchg_u", fun arg => newOperationAtomicRMW16Cmpxchg unsignedTypeI32 arg)
  else if op =? OpcodeAtomicI64Rmw16CmpxchgU then Some ("i64.atomic.rmw16.cmpxchg_u", fun arg => newOperationAtomicRMW16Cmpxchg unsignedTypeI64 arg)
  else if op =? OpcodeAtomicI64Rmw32CmpxchgU then Some ("i64.atomic.rmw32.cmpxchg_u", fun arg => newOperationAtomicRMWCmpxchg unsignedTypeI32 arg)
  else None.

(** The first table that has the opcode. *)
Definition orElse {A} (o1 o2 : option A) : option A := match o1 with Some _ => o1 | None => o2 end.

Definition vecOperation (op : Z) : option unionOperation :=
  orElse (vecBitOperation op) (orElse (vecCompareNarrowOperation op) (orElse (vecCompareOperation op)
    (orElse (vecArithOperation op) (orElse (vecMinMaxOperation op) (orElse (vecExtendOperation op) (vecConvertOperation op)))))).
Definition atomicOperation (op : Z) : option (string * (memoryArg -> unionOperation)) :=
  orElse (atomicAccessOperation op) (orElse (atomicAddSubOperation op) (orElse (atomicAndOrOperation op)
    (orElse (atomicXorXchgOperation op) (atomicCmpxchgOperation op)))).
Definition simpleOperation (op : Z) : option unionOperation :=
  orElse (compareOperation op) (orElse (integerOperation op) (orElse (floatOperation op) (conversionOperation op))).
Definition memoryOperation (op : Z) : option (string * (memoryArg -> unionOperation)) :=
  orElse (loadOperation op) (storeOperation op).

(** ** Instructions *)

Section Compile.
Context (enabledFeatures : CoreFeatures) (types : list FunctionType) (tags : list Index).
(** [ImportFunctionCount], and the number of functions of the module *)
Context (importFunctionCount functionCount : Z).
(** [c.next], the function that is compiled *)
Context (next : Z).
Context (ensureTermination needSourceOffset : bool) (bodyOffsetInCodeSection : Z) (callFrameStackSizeInUint64 : Z).
(** [localIndexToStackHeightInUint64] *)
Context (heights : list Z).

Definition emit (op : unionOperation) : C unit :=
  s ← getC id;
  if isUnreachable s then mret tt
  else
    match OpKind op with
    | operationKindDrop =>
        if sgn64 (U1 op) =? -1 then mret tt
        else modC (set_Operations (Operations s ++ [op])
               (if needSourceOffset then SourceOffsets s ++ [wrap64 (currentOpPC s + bodyOffsetInCodeSection)] else SourceOffsets s))
    | _ =>
        modC (set_Operations (Operations s ++ [op])
          (if needSourceOffset then SourceOffsets s ++ [wrap64 (currentOpPC s + bodyOffsetInCodeSection)] else SourceOffsets s))
    end.

Definition emitDefaultValue (t : ValueType) : C unit :=
  if t =? ValueTypeI32 then _ ← pushC unsignedTypeI32; emit (newOperationConstI32 0)
  else if one_of t [ValueTypeI64; ValueTypeExternref; ValueTypeFuncref; ValueTypeExnref] then
    _ ← pushC unsignedTypeI64; emit (newOperationConstI64 0)
  else if t =? ValueTypeF32 then _ ← pushC unsignedTypeF32; emit (newOperationConstF32 0)
  else if t =? ValueTypeF64 then _ ← pushC unsignedTypeF64; emit (newOperationConstF64 0)
  else if t =? ValueTypeV128 then _ ← pushC unsignedTypeV128; emit (newOperationV128Const 0 0)
  else if IsRef t then _ ← pushC unsignedTypeI64; emit (newOperationConstI64 0)
  else liftC (Panic "bug: unsupported value type for default value").

Definition localDepth (index : Z) : C Z :=
  height ← liftC (zindex heights index);
  c ← getC core;
  mret (c_stackLenInUint64 c - 1 - height).

Definition compilerLocalType (index : Z) : C ValueType :=
  c ← getC core;
  let params := wrap32 (zlen (Params (c_sig c))) in
  liftC (if index <? params then zindex (Params (c_sig c)) index else zindex (c_localTypes c) (wrap32 (index - params))).

Definition getFrameDropRange (f : controlFrame) (isEnd : bool) : C inclusiveRange :=
  c ← getC core;
  let start :=
    match frameKind f with
    | controlFrameKindLoop => if isEnd then ResultNumInUint64 (frameType f) else ParamNumInUint64 (frameType f)
    | _ => ResultNumInUint64 (frameType f)
    end in
  let end_ := c_stackLenInUint64 c - 1 - originalStackLenWithoutParamUint64 f in
  mret (if start <=? end_ then mkRange (sgn32 start) (sgn32 end_) else nopinclusiveRange).

(** [leb128.LoadUint32(c.body[c.pc+1:])] followed by [c.pc += num] *)
Definition readIndex (msg : string) : C Z :=
  b ← bodyFromC 1;
  '(v, num) ← liftC (errorf msg (LoadUint32 b));
  _ ← advanceC num; mret v.

Definition readMemoryArg (tag : string) : C memoryArg :=
  _ ← modC (set_UsesMemory true);
  alignment ← readIndex ("reading alignment for " +:+ tag);
  offset ← readIndex ("reading offset for " +:+ tag);
  mret (mkMemoryArg alignment offset).

(** The same, from [c.pc] after [c.pc++]: [c.pc += num - 1]. *)
Definition readIndexNext (msg : string) : C Z :=
  _ ← advanceC 1;
  b ← bodyFromC 0;
  '(v, num) ← liftC (errorf msg (LoadUint32 b));
  _ ← advanceC (num - 1); mret v.

Definition parseCatchClause : C (Z * Z * Z) :=
  _ ← advanceC 1;
  kind ← bodyAtC;
  tagIdx ← (if one_of kind [CatchKindCatch; CatchKindCatchRef] then readIndexNext "reading catch tag index" else mret 0);
  labelIdx ← readIndexNext "reading catch label index";
  mret (kind, tagIdx, labelIdx).

(** *** Structured control *)

Definition readBlockTypeC (name : string) : C FunctionType :=
  b ← bodyFromC 1;
  '(bt, num) ← liftC (errorf ("reading block type for " +:+ name +:+ " instruction") (DecodeBlockType types b enabledFeatures));
  _ ← advanceC num; mret bt.

(** In unreachable code the whole block is removed. *)
Definition skipBlock : C unit := modC (fun s => set_unreachableDepth (unreachableDepth s + 1) s).

Definition newFrame (kind : controlFrameKind) (bt : FunctionType) (id : Z) : C controlFrame :=
  c ← getC core;
  mret (mkFrame id (zlen (c_stack c) - zlen (Params bt)) (c_stackLenInUint64 c - ParamNumInUint64 bt) bt kind).

Definition compileBlock : C unit :=
  bt ← readBlockTypeC "block";
  un ← getC isUnreachable;
  if (un : bool) then skipBlock
  else
    id ← nextFrameID;
    f ← newFrame controlFrameKindBlockWithoutContinuationLabel bt id;
    pushFrame f.

Definition compileLoop : C unit :=
  bt ← readBlockTypeC "loop";
  un ← getC isUnreachable;
  if (un : bool) then skipBlock
  else
    id ← nextFrameID;
    f ← newFrame controlFrameKindLoop bt id;
    _ ← pushFrame f;
    let loopLabel := newLabel labelKindHeader (frameID f) in
    _ ← callLabel loopLabel;
    _ ← emit (newOperationBr loopLabel);
    _ ← emit (newOperationLabel loopLabel);
    if ensureTermination then emit newOperationBuiltinFunctionCheckExitCode else mret tt.

Definition compileIf : C unit :=
  bt ← readBlockTypeC "if";
  un ← getC isUnreachable;
  if (un : bool) then skipBlock
  else
    id ← nextFrameID;
    f ← newFrame controlFrameKindIfWithoutElse bt id;
    _ ← pushFrame f;
    let thenLabel := newLabel labelKindHeader (frameID f) in
    let elseLabel := newLabel labelKindElse (frameID f) in
    _ ← callLabel thenLabel;
    _ ← callLabel elseLabel;
    _ ← emit (newOperationBrIf thenLabel elseLabel nopinclusiveRange);
    emit (newOperationLabel thenLabel).

Definition compileElse : C unit :=
  f ← topFrame;
  s ← getC id;
  if isUnreachable s && (unreachableDepth s >? 0) then mret tt
  else if isUnreachable s then
    _ ← stackSwitchAt f;
    _ ← setFrame 0 (set_frameKind controlFrameKindIfWithElse f);
    _ ← pushTypes (Params (frameType f));
    _ ← resetUnreachable;
    emit (newOperationLabel (newLabel labelKindElse (frameID f)))
  else
    let f := set_frameKind controlFrameKindIfWithElse f in
    _ ← setFrame 0 f;
    r ← getFrameDropRange f false;
    _ ← stackSwitchAt f;
    _ ← pushTypes (Params (frameType f));
    let continuationLabel := newLabel labelKindContinuation (frameID f) in
    _ ← callLabel continuationLabel;
    _ ← emit (newOperationDrop r);
    _ ← emit (newOperationBr continuationLabel);
    emit (newOperationLabel (newLabel labelKindElse (frameID f))).

(** The end of a frame whose code is reachable up to there. *)
Definition endFrame (f : controlFrame) (dropOp : unionOperation) : C unit :=
  let continuationLabel := newLabel labelKindContinuation (frameID f) in
  match frameKind f with
  | controlFrameKindFunction =>
      fs ← getC controlFrames;
      _ ← liftC (match fs with [] => Ok tt | _ => Panic "bug: found more function control frames" end);
      _ ← emit dropOp;
      emit (newOperationBr (newLabel labelKindReturn 0))
  | controlFrameKindIfWithoutElse =>
      _ ← callLabelTimes 2 continuationLabel;
      _ ← emit dropOp;
      _ ← emit (newOperationBr continuationLabel);
      _ ← emit (newOperationLabel (newLabel labelKindElse (frameID f)));
      _ ← emit (newOperationBr continuationLabel);
      emit (newOperationLabel continuationLabel)
  | controlFrameKindBlockWithContinuationLabel | controlFrameKindIfWithElse | controlFrameKindTryTable =>
      _ ← callLabel continuationLabel;
      _ ← emit dropOp;
      _ ← emit (newOperationBr continuationLabel);
      emit (newOperationLabel continuationLabel)
  | controlFrameKindLoop | controlFrameKindBlockWithoutContinuationLabel => emit dropOp
  end.

(** Whether [handleInstruction] returns here, without advancing [pc]. *)
Definition compileEnd : C bool :=
  s ← getC id;
  if isUnreachable s && (unreachableDepth s >? 0) then
    _ ← modC (set_unreachableDepth (unreachableDepth s - 1)); mret false
  else if isUnreachable s then
    _ ← resetUnreachable;
    f ← popFrame;
    fs ← getC controlFrames;
    match fs with
    | [] => mret true
    | _ =>
        _ ← stackSwitchAt f;
        _ ← pushTypes (Results (frameType f));
        let continuationLabel := newLabel labelKindContinuation (frameID f) in
        _ ← (match frameKind f with
             | controlFrameKindIfWithoutElse =>
                 _ ← callLabel continuationLabel;
                 _ ← emit (newOperationLabel (newLabel labelKindElse (frameID f)));
                 _ ← emit (newOperationBr continuationLabel);
                 emit (newOperationLabel continuationLabel)
             | _ => emit (newOperationLabel continuationLabel)
             end);
        mret false
    end
  else
    f ← popFrame;
    r ← getFrameDropRange f true;
    _ ← stackSwitchAt f;
    _ ← pushTypes (Results (frameType f));
    _ ← endFrame f (newOperationDrop r);
    mret false.

(** *** Branches *)

(** The frame that a branch targets, which gets a continuation; its drop range and label. *)
Definition branchTarget (n : Z) : C (inclusiveRange * label) :=
  f ← getFrame n;
  let f := ensureContinuation f in
  _ ← setFrame n f;
  r ← getFrameDropRange f false;
  mret (r, asLabel f).

Definition compileBr : C unit :=
  targetIndex ← readIndex "read the target for br_if";
  un ← getC isUnreachable;
  if (un : bool) then mret tt
  else
    '(r, target) ← branchTarget targetIndex;
    _ ← callLabel target;
    _ ← emit (newOperationDrop r);
    _ ← emit (newOperationBr target);
    markUnreachable.

(** A conditional branch, by [op], to the target or to the next instruction. *)
Definition branchOrContinue (op : label -> label -> inclusiveRange -> unionOperation) (targetIndex : Z) : C unit :=
  '(r, target) ← branchTarget targetIndex;
  _ ← callLabel target;
  id ← nextFrameID;
  let continuationLabel := newLabel labelKindHeader id in
  _ ← callLabel continuationLabel;
  _ ← emit (op target continuationLabel r);
  emit (newOperationLabel continuationLabel).

Definition compileBrIf : C unit :=
  targetIndex ← readIndex "read the target for br_if";
  un ← getC isUnreachable;
  if (un : bool) then mret tt else branchOrContinue newOperationBrIf targetIndex.

Definition compileBrOnNull : C unit :=
  targetIndex ← readIndex "read the target for br_on_null";
  un ← getC isUnreachable;
  if (un : bool) then mret tt
  else _ ← branchOrContinue newOperationBrOnNull targetIndex; pushC unsignedTypeI64.

Definition compileBrOnNonNull : C unit :=
  targetIndex ← readIndex "read the target for br_on_non_null";
  un ← getC isUnreachable;
  if (un : bool) then mret tt else branchOrContinue newOperationBrOnNonNull targetIndex.

(** One label of a br_table: [leb128.DecodeUint32(r)] and [c.pc += n]. *)
Definition tableLabel (r : list Z) : C (Z * list Z) :=
  '(l, n, r) ← liftC (errorf "error reading target in br_table" (DecodeUint32 r));
  _ ← advanceC n; mret (l, r).

(** [for i := uint32(0); i <= numTargets; i++]: labels that are skipped. *)
Fixpoint skipLabels (fuel : nat) (n : Z) (r : list Z) : C unit :=
  if n <=? 0 then mret tt
  else match fuel with
  | O => liftC (Panic "skipLabels: loop bound")
  | S fuel' => '(_, r) ← tableLabel r; skipLabels fuel' (n - 1) r
  end.

Definition tableTarget (l : Z) : C (list Z) :=
  '(rg, target) ← branchTarget l;
  _ ← callLabel target;
  mret [target; AsU64 rg].

(** The targets of a br_table, the default one last. *)
Fixpoint tableTargets (fuel : nat) (n : Z) (r : list Z) : C (list Z) :=
  if n <=? 0 then mret []
  else match fuel with
  | O => liftC (Panic "tableTargets: loop bound")
  | S fuel' =>
      '(l, r) ← tableLabel r;
      t ← tableTarget l;
      ts ← tableTargets fuel' (n - 1) r;
      mret (t ++ ts)
  end.

Definition compileBrTable : C unit :=
  b ← bodyFromC 1;
  '(numTargets, n, r) ← liftC (errorf "error reading number of targets in br_table" (DecodeUint32 b));
  _ ← advanceC n;
  un ← getC isUnreachable;
  if (un : bool) then skipLabels (S (length b)) (numTargets + 1) r
  else
    ts ← tableTargets (S (length b)) (numTargets + 1) r;
    _ ← emit (newOperationBrTable ts);
    markUnreachable.

Definition compileReturn : C unit :=
  f ← functionFrame;
  r ← getFrameDropRange f false;
  _ ← emit (newOperationDrop r);
  _ ← emit (newOperationBr (asLabel f));
  markUnreachable.

(** *** Exceptions *)

Definition compileThrow (index : Z) : C unit :=
  un ← getC isUnreachable;
  if (un : bool) then mret tt
  else
    _ ← (if index <? wrap32 (zlen tags) then
           tag ← liftC (zindex tags index);
           tagType ← liftC (zindex types tag);
           popN (length (Params tagType))
         else mret tt);
    _ ← emit (newOperationThrow index);
    markUnreachable.

Definition compileThrowRef : C unit :=
  un ← getC isUnreachable;
  if (un : bool) then mret tt
  else _ ← popC; _ ← emit newOperationThrowRef; markUnreachable.

Fixpoint skipClauses (fuel : nat) (n : Z) : C unit :=
  if n <=? 0 then mret tt
  else match fuel with
  | O => liftC (Panic "skipClauses: loop bound")
  | S fuel' => _ ← parseCatchClause; skipClauses fuel' (n - 1)
  end.

Definition catchClause : C pendingCatchClause :=
  '(kind, tagIdx, labelIdx) ← parseCatchClause;
  f ← getFrame labelIdx;
  let f := ensureContinuation f in
  _ ← setFrame labelIdx f;
  _ ← callLabel (asLabel f);
  mret (mkPendingClause kind tagIdx (asLabel f) (originalStackLenWithoutParamUint64 f)).

Fixpoint catchClauses (fuel : nat) (n : Z) : C (list pendingCatchClause) :=
  if n <=? 0 then mret []
  else match fuel with
  | O => liftC (Panic "catchClauses: loop bound")
  | S fuel' => x ← catchClause; xs ← catchClauses fuel' (n - 1); mret (x :: xs)
  end.

Definition compileTryTable : C unit :=
  bt ← readBlockTypeC "try_table";
  un ← getC isUnreachable;
  if (un : bool) then
    _ ← skipBlock;
    catchCount ← readIndexNext "reading catch count for try_table";
    fuel ← getC (fun s => S (length (c_body (core s))));
    skipClauses fuel catchCount
  else
    catchCount ← readIndexNext "reading catch count for try_table";
    fuel ← getC (fun s => S (length (c_body (core s))));
    pendingClauses ← catchClauses fuel catchCount;
    id ← nextFrameID;
    _ ← modC (fun s => set_PendingExceptionTable (PendingExceptionTable s ++ [mkPendingEntry (zlen (Operations s)) id pendingClauses]) s);
    f ← newFrame controlFrameKindTryTable bt id;
    pushFrame f.

(** *** Calls *)

Definition compileCallIndirect (index : Z) : C unit :=
  tableIndex ← readIndex "read target for br_table";
  emit (newOperationCallIndirect index tableIndex).

(** [c.module.FunctionDefinition(index).Import()] *)
Definition isImport (index : Z) : res bool :=
  if index <? functionCount then Ok (index <? importFunctionCount) else Panic "index out of range".

Definition compileReturnCall (index : Z) : C unit :=
  import ← liftC (isImport index);
  f ← functionFrame;
  _ ← (if (import : bool) then
         _ ← emit (newOperationCall index);
         r ← getFrameDropRange f false;
         _ ← emit (newOperationDrop r);
         emit (newOperationBr (asLabel f))
       else
         _ ← (if ensureTermination && (index =? wrap32 (importFunctionCount + wrap32 next))
              then emit newOperationBuiltinFunctionCheckExitCode else mret tt);
         emit (newOperationTailCallReturnCall index));
  markUnreachable.

Definition compileReturnCallIndirect (index : Z) : C unit :=
  tableIndex ← readIndex "read target for br_table";
  f ← functionFrame;
  r ← getFrameDropRange f false;
  _ ← emit (newOperationTailCallReturnCallIndirect index tableIndex r (asLabel f));
  markUnreachable.

Definition compileReturnCallRef (index : Z) : C unit :=
  f ← functionFrame;
  r ← getFrameDropRange f false;
  _ ← emit (newOperationReturnCallRef index r (asLabel f));
  markUnreachable.

(** *** Parametric and variable instructions *)

Definition compileSelect : C unit :=
  un ← getC isUnreachable;
  if (un : bool) then mret tt
  else t ← stackPeek; emit (newOperationSelect (t =? unsignedTypeV128)).

Definition compileTypedSelect : C unit :=
  _ ← advanceC 2;
  c ← getC core;
  b ← liftC (zindex (c_body c) (c_pc c - 1));
  _ ← (if one_of b [RefPrefixNullable; RefPrefixNonNullable] then
         r ← bodyFromC 0;
         '(_, num, _) ← liftC (errorf "read heap type for typed_select" (DecodeInt33AsInt64 r));
         advanceC num
       else mret tt);
  compileSelect.

Definition compileLocalGet (index : Z) : C unit :=
  depth ← localDepth index;
  t ← compilerLocalType index;
  if negb (t =? ValueTypeV128) then emit (newOperationPick (depth - 1) false) else emit (newOperationPick (depth - 2) true).

Definition compileLocalSet (index : Z) : C unit :=
  depth ← localDepth index;
  t ← compilerLocalType index;
  if t =? ValueTypeV128 then emit (newOperationSet (depth + 2) true) else emit (newOperationSet (depth + 1) false).

Definition compileLocalTee (index : Z) : C unit :=
  depth ← localDepth index;
  t ← compilerLocalType index;
  if t =? ValueTypeV128 then _ ← emit (newOperationPick 1 true); emit (newOperationSet (depth + 2) true)
  else _ ← emit (newOperationPick 0 false); emit (newOperationSet (depth + 1) false).

(** *** Constants and references *)

Definition compileConst (op : Z) : C unit :=
  b ← bodyFromC 1;
  if op =? OpcodeI32Const then
    '(val, num) ← liftC (errorf "reading i32.const value" (LoadInt32 b));
    _ ← advanceC num; emit (newOperationConstI32 (wrap32 val))
  else if op =? OpcodeI64Const then
    '(val, num) ← liftC (errorf "reading i64.const value" (LoadInt64 b));
    _ ← advanceC num; emit (newOperationConstI64 (wrap64 val))
  else if op =? OpcodeF32Const then
    v ← liftC (leUint 4 b);
    _ ← advanceC 4; emit (newOperationConstF32 v)
  else
    v ← liftC (leUint 8 b);
    _ ← advanceC 8; emit (newOperationConstF64 v).

Definition compileRefNull : C unit :=
  _ ← advanceC 1;
  reftype ← bodyAtC;
  _ ← (if one_of reftype [ValueTypeFuncref; ValueTypeExternref; ValueTypeExnref] then mret tt
       else
         b ← bodyFromC 0;
         '(_, num) ← liftC (errorf "failed to read type index for ref.null" (LoadUint32 b));
         advanceC (num - 1));
  emit (newOperationConstI64 0).

(** *** Prefixed instructions *)

Definition compileMisc : C unit :=
  miscOp ← readIndexNext "failed to read misc opcode";
  let op := wrap8 miscOp in
  match truncSatOperation op with
  | Some o => emit o
  | None =>
      let read := readIndex "reading i32.const value" in
      if op =? OpcodeMiscMemoryInit then
        _ ← modC (set_UsesMemory true);
        dataIndex ← read; _ ← advanceC 1; emit (newOperationMemoryInit dataIndex)
      else if op =? OpcodeMiscDataDrop then dataIndex ← read; emit (newOperationDataDrop dataIndex)
      else if op =? OpcodeMiscMemoryCopy then
        _ ← modC (set_UsesMemory true); _ ← advanceC 2; emit newOperationMemoryCopy
      else if op =? OpcodeMiscMemoryFill then
        _ ← modC (set_UsesMemory true); _ ← advanceC 1; emit newOperationMemoryFill
      else if op =? OpcodeMiscTableInit then
        elemIndex ← read; tableIndex ← read; emit (newOperationTableInit elemIndex tableIndex)
      else if op =? OpcodeMiscElemDrop then elemIndex ← read; emit (newOperationElemDrop elemIndex)
      else if op =? OpcodeMiscTableCopy then
        dst ← read; src ← read; emit (newOperationTableCopy src dst)
      else if op =? OpcodeMiscTableGrow then tableIndex ← read; emit (newOperationTableGrow tableIndex)
      else if op =? OpcodeMiscTableSize then tableIndex ← read; emit (newOperationTableSize tableIndex)
      else if op =? OpcodeMiscTableFill then tableIndex ← read; emit (newOperationTableFill tableIndex)
      else failC "unsupported misc instruction in interpreterir"
  end.

Definition emitMemory (o : string * (memoryArg -> unionOperation)) : C unit :=
  arg ← readMemoryArg (fst o); emit (snd o arg).

Definition readLaneC : C Z := _ ← advanceC 1; bodyAtC.

(** [binary.LittleEndian.Uint64(c.body[c.pc : c.pc+8])] *)
Definition uint64At : C Z := c ← getC core; b ← liftC (slice2 (c_body c) (c_pc c) (c_pc c + 8)); liftC (leUint 8 b).

Fixpoint readLanes (n : nat) (i : Z) : C (list Z) :=
  match n with
  | O => mret []
  | S n' => c ← getC core; b ← liftC (zindex (c_body c) (c_pc c + i)); l ← readLanes n' (i + 1); mret (b :: l)
  end.

Definition compileVec : C unit :=
  _ ← advanceC 1;
  vecOp ← bodyAtC;
  if vecOp =? OpcodeVecV128Const then
    _ ← advanceC 1; lo ← uint64At; _ ← advanceC 8; hi ← uint64At;
    _ ← emit (newOperationV128Const lo hi); advanceC 7
  else if vecOp =? OpcodeVecV128Store then emitMemory ("v128.store", fun arg => newOperationV128Store arg)
  else if vecOp =? OpcodeVecV128i8x16Shuffle then
    _ ← advanceC 1; lanes ← readLanes 16 0; _ ← emit (newOperationV128Shuffle lanes); advanceC 15
  else
    match vecLoadOperation vecOp with
    | Some o => emitMemory o
    | None =>
        match orElse (vecLoadLaneOperation vecOp) (vecStoreLaneOperation vecOp) with
        | Some (tag, o) => arg ← readMemoryArg tag; laneIndex ← readLaneC; emit (o arg laneIndex)
        | None =>
            match vecLaneOperation vecOp with
            | Some o => laneIndex ← readLaneC; emit (o laneIndex)
            | None =>
                match vecOperation vecOp with
                | Some o => emit o
                | None => failC ("unsupported vector instruction in interpreterir: " +:+ VectorInstructionName vecOp)
                end
            end
        end
    end.

Definition compileAtomic : C unit :=
  _ ← advanceC 1;
  atomicOp ← bodyAtC;
  if atomicOp =? OpcodeAtomicFence then _ ← advanceC 1; _ ← bodyAtC; emit newOperationAtomicFence
  else
    match atomicOperation atomicOp with
    | Some o => emitMemory o
    | None => failC ("unsupported atomic instruction in interpreterir: " +:+ AtomicInstructionName atomicOp)
    end.

(** *** The switch *)

Definition operatorSwitch (op index : Z) (peekValueType : unsignedType) : C unit :=
  if op =? OpcodeUnreachable then _ ← emit newOperationUnreachable; markUnreachable
  else if op =? OpcodeNop then mret tt
  else if op =? OpcodeBlock then compileBlock
  else if op =? OpcodeLoop then compileLoop
  else if op =? OpcodeIf then compileIf
  else if op =? OpcodeElse then compileElse
  else if op =? OpcodeBr then compileBr
  else if op =? OpcodeBrIf then compileBrIf
  else if op =? OpcodeBrTable then compileBrTable
  else if op =? OpcodeReturn then compileReturn
  else if op =? OpcodeThrow then compileThrow index
  else if op =? OpcodeThrowRef then compileThrowRef
  else if op =? OpcodeTryTable then compileTryTable
  else if op =? OpcodeCall then emit (newOperationCall index)
  else if op =? OpcodeCallIndirect then compileCallIndirect index
  else if op =? OpcodeDrop then emit (newOperationDrop (mkRange 0 (if peekValueType =? unsignedTypeV128 then 1 else 0)))
  else if op =? OpcodeSelect then compileSelect
  else if op =? OpcodeTypedSelect then compileTypedSelect
  else if op =? OpcodeLocalGet then compileLocalGet index
  else if op =? OpcodeLocalSet then compileLocalSet index
  else if op =? OpcodeLocalTee then compileLocalTee index
  else if op =? OpcodeGlobalGet then emit (newOperationGlobalGet index)
  else if op =? OpcodeGlobalSet then emit (newOperationGlobalSet index)
  else if op =? OpcodeMemorySize then _ ← modC (set_UsesMemory true); _ ← advanceC 1; emit newOperationMemorySize
  else if op =? OpcodeMemoryGrow then _ ← modC (set_UsesMemory true); _ ← advanceC 1; emit newOperationMemoryGrow
  else if one_of op [OpcodeI32Const; OpcodeI64Const; OpcodeF32Const; OpcodeF64Const] then compileConst op
  else if op =? OpcodeRefFunc then
    i ← readIndexNext "failed to read function index for ref.func"; emit (newOperationRefFunc i)
  else if op =? OpcodeRefNull then compileRefNull
  else if op =? OpcodeRefIsNull then emit (newOperationEqz unsignedInt64)
  else if op =? OpcodeTableGet then
    i ← readIndexNext "failed to read function index for table.get"; emit (newOperationTableGet i)
  else if op =? OpcodeTableSet then
    i ← readIndexNext "failed to read function index for table.set"; emit (newOperationTableSet i)
  else if op =? OpcodeMiscPrefix then compileMisc
  else if op =? OpcodeVecPrefix then compileVec
  else if op =? OpcodeAtomicPrefix then compileAtomic
  else if op =? OpcodeTailCallReturnCall then compileReturnCall index
  else if op =? OpcodeTailCallReturnCallIndirect then compileReturnCallIndirect index
  else if op =? OpcodeCallRef then emit (newOperationCallRef index)
  else if op =? OpcodeReturnCallRef then compileReturnCallRef index
  else if op =? OpcodeRefAsNonNull then emit newOperationRefAsNonNull
  else if op =? OpcodeBrOnNull then compileBrOnNull
  else if op =? OpcodeBrOnNonNull then compileBrOnNonNull
  else
    match memoryOperation op with
    | Some o => emitMemory o
    | None =>
        match simpleOperation op with
        | Some o => emit o
        | None => failC "unsupported instruction in interpreterir"
        end
    end.

Definition handleInstruction : C unit :=
  op ← bodyAtC;
  _ ← modC (fun s => set_currentOpPC (pcOf s) s);
  c ← getC core;
  let peekValueType := match c_stack c with t :: _ => t | [] => unsignedTypeI32 end in
  index ← coreC (fun c => errorf ("apply stack failed for " +:+ InstructionName op) (applyToStack c op));
  returned ← (if op =? OpcodeEnd then compileEnd else _ ← operatorSwitch op index peekValueType; mret false);
  if (returned : bool) then mret tt else advanceC 1.

(** [for !c.controlFrames.empty() && c.pc < len(c.body)]; every round takes a byte or ends the loop. *)
Fixpoint bodyLoop (fuel : nat) : C unit :=
  s ← getC id;
  if bool_decide (controlFrames s = []) || (pcOf s >=? zlen (c_body (core s))) then mret tt
  else match fuel with
  | O => liftC (Panic "bodyLoop: loop bound")
  | S fuel' => _ ← (fun s => errorf "handling instruction" (handleInstruction s)); bodyLoop fuel'
  end.

Fixpoint emitDefaults (ts : list ValueType) : C unit :=
  match ts with [] => mret tt | t :: ts' => _ ← emitDefaultValue t; emitDefaults ts' end.

(** The second half of [initializeStack]. *)
Definition initializeStack (sig : FunctionType) : C unit :=
  _ ← pushTypes (Params sig);
  if callFrameStackSizeInUint64 >? 0 then
    _ ← modC (fun s => set_core (Nat.iter (Z.to_nat (ResultNumInUint64 sig - ParamNumInUint64 sig)) (stackPush unsignedTypeI64) (core s)) s);
    modC (fun s => set_core (Nat.iter (Z.to_nat callFrameStackSizeInUint64) (stackPush unsignedTypeI64) (core s)) s)
  else mret tt.

Definition compile : C unit :=
  c ← getC core;
  _ ← initializeStack (c_sig c);
  _ ← emitDefaults (c_localTypes c);
  id ← nextFrameID;
  _ ← pushFrame (mkFrame id 0 0 (c_sig c) controlFrameKindFunction);
  bodyLoop (S (length (c_body c))).

End Compile.

(** ** Stack heights of the locals *)

(** The heights of values of these types from [current], and the height after them. *)
Fixpoint localHeights (current : Z) (ts : list ValueType) : list Z * Z :=
  match ts with
  | [] => ([], current)
  | t :: ts' =>
      let (l, n) := localHeights (if t =? ValueTypeV128 then current + 2 else current + 1) ts' in
      (current :: l, n)
  end.

(** The first half of [initializeStack]: [localIndexToStackHeightInUint64]. *)
Definition localIndexToStackHeight (callFrameStackSizeInUint64 : Z) (sig : FunctionType) (localTypes : list ValueType) : list Z :=
  let (l, current) := localHeights 0 (Params sig) in
  let current := if (callFrameStackSizeInUint64 >? 0) && (ResultNumInUint64 sig - ParamNumInUint64 sig >? 0)
                 then current + (ResultNumInUint64 sig - ParamNumInUint64 sig) else current in
  l ++ fst (localHeights (current + callFrameStackSizeInUint64) localTypes).
