(* ===== verification/Lower.v ===== *)
(** * From compiled operations to code of the interpreter

    [newCompiler] and [Next] of src/internal/engine/interpreter/compiler.go: the
    compiler of a module, which is reused for all its functions.  [lowerIR] of
    src/internal/engine/interpreter/interpreter.go: the labels of a compiled
    function become positions in its code.  [CompileModule] and the cache of
    compiled functions of the engine.

    The DWARF lines of a module and its function listeners are outside the
    model: [needSourceOffset] and [listeners] are arguments.  [goFuncs] has the
    Go function of every entry of the code section that is one. *)

From S2P Require Import Prelude Leb128 Features Opcodes Types ValStack Validate Signature Memory Operations Compiler.
From S2P Require Import TypeIDs Binary ModuleValidate.

(** ** The compiler of a module *)

Inductive memoryType := memoryTypeNone | memoryTypeStandard | memoryTypeShared.

(** The part of [compilationResult] that belongs to the module. *)
Record moduleResult := mkModuleResult {
  r_Globals : list GlobalType; r_Functions : list Index; r_Types : list FunctionType; r_Memory : memoryType;
  r_HasTable : bool; r_HasDataInstances : bool; r_HasElementInstances : bool;
}.

(** The part that belongs to the function. *)
Record compilationResult := mkCompilationResult {
  r_Operations : list unionOperation;
  r_SourceOffsets : list Z;
  r_LabelCallers : gmap Z Z;
  r_UsesMemory : bool;
  r_PendingExceptionTable : list pendingExceptionTableEntry;
}.

Record moduleCompiler := mkModuleCompiler {
  mc_module : Module;
  mc_features : CoreFeatures;
  mc_result : moduleResult;
  mc_tags : list Index;
  mc_ensureTermination : bool;
  mc_needSourceOffset : bool;
  mc_callFrameStackSize : Z;
  mc_state : cstate;
  mc_next : Z;
}.

Definition noSignatures (types : list FunctionType) : funcTypeToIRSignatures :=
  let none := repeat None (length types) in mkSigCache none none none types.

Definition newCompiler (enabledFeatures : CoreFeatures) (callFrameStackSizeInUint64 : Z) (module : Module)
    (ensureTermination needSourceOffset : bool) : res moduleCompiler :=
  let! d := AllDeclarations module in
  let mt := match d_memory d with
            | None => memoryTypeNone
            | Some mem => if IsShared mem then memoryTypeShared else memoryTypeStandard
            end in
  let ts := types module in
  let c := mkCompiler [] 0 false 0 [] (mkFunctionType [] [] 0 0 0 0) [] (d_functions d) (d_globals d) (noSignatures ts) in
  Ok (mkModuleCompiler module enabledFeatures
        (mkModuleResult (d_globals d) (d_functions d) ts mt (zlen (d_tables d) >? 0)
           (zlen (DataSection module) >? 0) (zlen (ElementSection module) >? 0))
        (d_tags d) ensureTermination needSourceOffset callFrameStackSizeInUint64
        (mkState c 0 [] 0 0 [] [] ∅ false []) 0).

(** Clears the entries of [LabelCallers] of the frames up to [currentFrameID]. *)
Definition clearLabelCallers (currentFrameID : Z) (m : gmap Z Z) : gmap Z Z :=
  foldr (fun frameID m => foldr (fun k m => delete (newLabel k frameID) m) m [0; 1; 2; 3]) m (seqZ 0 (currentFrameID + 1)).

(** The compiler before the next function: results and state reset; the stack of
    the last function is cut to length zero by [compile]. *)
Definition resetCompiler (s : cstate) (sig : FunctionType) (code : Code) : cstate :=
  let c := core s in
  mkState
    (mkCompiler [] 0 false 0 (Body code) sig (LocalTypes code) (c_funcs c) (c_globals c) (c_funcTypeToSigs c))
    0 [] 0 0 [] [] (clearLabelCallers (currentFrameID s) (LabelCallers s)) false [].

Definition resultOf (s : cstate) : compilationResult :=
  mkCompilationResult (Operations s) (SourceOffsets s) (LabelCallers s) (UsesMemory s) (PendingExceptionTable s).

Definition Next (mc : moduleCompiler) : res (compilationResult * moduleCompiler) :=
  let m := mc_module mc in
  let! code := zindex (CodeSection m) (mc_next mc) in
  let! typeIndex := zindex (FunctionSection m) (mc_next mc) in
  let! sig := zindex (r_Types (mc_result mc)) typeIndex in
  let! (_, s) := compile (mc_features mc) (r_Types (mc_result mc)) (mc_tags mc) (ImportFunctionCount m)
                   (ImportFunctionCount m + zlen (FunctionSection m)) (mc_next mc) (mc_ensureTermination mc)
                   (mc_needSourceOffset mc) (BodyOffsetInCodeSection code) (mc_callFrameStackSize mc)
                   (localIndexToStackHeight (mc_callFrameStackSize mc) sig (LocalTypes code))
                   (resetCompiler (mc_state mc) sig code) in
  Ok (resultOf s, mkModuleCompiler m (mc_features mc) (mc_result mc) (mc_tags mc) (mc_ensureTermination mc)
                    (mc_needSourceOffset mc) (mc_callFrameStackSize mc) s (mc_next mc + 1)).

(** ** lowerIR *)

(** [labelAddressResolutions]: per kind of label, the address for every frame. *)
Definition addresses : Type := list (list Z).

(** The address of one label; the slice is expanded if necessary. *)
Definition resolveLabel (a : addresses) (l : label) (address : Z) : res addresses :=
  let fid := FrameID l in
  let! frameToAddresses := zindex a (LabelKind l) in
  let diff := fid - zlen frameToAddresses + 1 in
  let frameToAddresses := if diff >? 0 then frameToAddresses ++ zeros diff else frameToAddresses in
  Ok (<[Z.to_nat (LabelKind l) := <[Z.to_nat fid := address]> frameToAddresses]> a).

Fixpoint resolveLabels (a : addresses) (i : Z) (body : list unionOperation) : res addresses :=
  match body with
  | [] => Ok a
  | op :: body' =>
      match OpKind op with
      | operationKindLabel => let! a := resolveLabel a (U1 op) i in resolveLabels a (i + 1) body'
      | _ => resolveLabels a (i + 1) body'
      end
  end.

Definition maxUint64 : Z := 2 ^ 64 - 1.

Definition setLabelAddress (a : addresses) (l : label) : res Z :=
  if IsReturnTarget l then Ok maxUint64
  else let! frameToAddresses := zindex a (LabelKind l) in zindex frameToAddresses (FrameID l).

Definition set_U1 (u : Z) (op : unionOperation) : unionOperation :=
  mkOperation (OpKind op) (B1 op) (B2 op) (B3 op) u (U2 op) (U3 op) (Us op).
Definition set_U2 (u : Z) (op : unionOperation) : unionOperation :=
  mkOperation (OpKind op) (B1 op) (B2 op) (B3 op) (U1 op) u (U3 op) (Us op).
Definition set_Us (us : list Z) (op : unionOperation) : unionOperation :=
  mkOperation (OpKind op) (B1 op) (B2 op) (B3 op) (U1 op) (U2 op) (U3 op) us.

(** [for j := 0; j < len(op.Us); j += 2] *)
Fixpoint setTargets (a : addresses) (us : list Z) : res (list Z) :=
  match us with
  | [] => Ok []
  | [target] => let! t := setLabelAddress a target in Ok [t]
  | target :: d :: us' => let! t := setLabelAddress a target in let! us' := setTargets a us' in Ok (t :: d :: us')
  end.

Definition lowerOperation (a : addresses) (op : unionOperation) : res unionOperation :=
  match OpKind op with
  | operationKindBr => let! t := setLabelAddress a (U1 op) in Ok (set_U1 t op)
  | operationKindBrIf | operationKindBrOnNull | operationKindBrOnNonNull =>
      let! t := setLabelAddress a (U1 op) in
      let! e := setLabelAddress a (U2 op) in
      Ok (set_U2 e (set_U1 t op))
  | operationKindBrTable => let! us := setTargets a (Us op) in Ok (set_Us us op)
  | operationKindTailCallReturnCallIndirect | operationKindReturnCallRef =>
      let! l := zindex (Us op) 1 in
      let! t := setLabelAddress a l in
      Ok (set_Us (<[1%nat := t]> (Us op)) op)
  | _ => Ok op
  end.

Fixpoint mapRes {A B} (f : A -> res B) (l : list A) : res (list B) :=
  match l with
  | [] => Ok []
  | x :: l' => let! y := f x in let! ys := mapRes f l' in Ok (y :: ys)
  end.

Definition lowerClause (a : addresses) (c : pendingCatchClause) : res exceptionTableCatchClause :=
  let! targetPC := setLabelAddress a (pending_targetLabel c) in
  Ok (mkCatchClause (pending_kind c) (pending_tagIndex c) targetPC (pending_targetStackDepth c)).

Definition lowerEntry (a : addresses) (pe : pendingExceptionTableEntry) : res exceptionTableEntry :=
  let! endPC := setLabelAddress a (newLabel labelKindContinuation (continuationFrameID pe)) in
  let! clauses := mapRes (lowerClause a) (pending_clauses pe) in
  Ok (mkExceptionTableEntry (startOpIndex pe) endPC clauses).

Record loweredFunction := mkLowered {
  body : list unionOperation;
  exceptionTable : list exceptionTableEntry;
  offsetsInWasmBinary : list Z;
}.

Definition lowerIR (ir : compilationResult) : res loweredFunction :=
  let! a := resolveLabels (repeat [] 4) 0 (r_Operations ir) in
  let! ops := mapRes (lowerOperation a) (r_Operations ir) in
  let! table := mapRes (lowerEntry a) (r_PendingExceptionTable ir) in
  Ok (mkLowered ops table (r_SourceOffsets ir)).

(** ** The engine *)

Record compiledFunction := mkCompiledFunction {
  lowered : loweredFunction;
  hostFn : option positive;
  listener : option positive;
  source : Z;
  compiledEnsureTermination : bool;
  index : Z;
}.

(** [compiledFunctions]: by the identifier of the module, with the number of references. *)
Definition engine : Type := gmap Z (list compiledFunction * Z).

Definition NewEngine : engine := ∅.
Definition Close (e : engine) : engine := ∅.
Definition CompiledModuleCount (e : engine) : Z := wrap32 (Z.of_nat (size e)).

Definition deleteCompiledFunctions (id : Z) (e : engine) : engine :=
  match e !! id with
  | None => e
  | Some (funcs, refCount) => if refCount - 1 >? 0 then <[id := (funcs, refCount - 1)]> e else delete id e
  end.

Definition addCompiledFunctions (id : Z) (fs : list compiledFunction) (e : engine) : engine :=
  match e !! id with
  | Some (funcs, refCount) => <[id := (funcs, refCount + 1)]> e
  | None => <[id := (fs, 1)]> e
  end.

Definition getCompiledFunctions (id : Z) (increaseRefCount : bool) (e : engine) : option (list compiledFunction) * engine :=
  match e !! id with
  | Some (funcs, refCount) => (Some funcs, if increaseRefCount then <[id := (funcs, refCount + 1)]> e else e)
  | None => (None, e)
  end.

(** The interpreter keeps no call frames in the stack. *)
Definition callFrameStackSize : Z := 0.

(** The body of the loop over the code section. *)
Definition compileFunction (id imported : Z) (ensureTermination : bool) (goFunc lsn : option positive) (i : Z)
    (irCompiler : moduleCompiler) : res (compiledFunction * moduleCompiler) :=
  match goFunc with
  | Some fn => Ok (mkCompiledFunction (mkLowered [] [] []) (Some fn) lsn id ensureTermination (wrap32 (imported + wrap32 i)), irCompiler)
  | None =>
      let! (ir, irCompiler) := Next irCompiler in
      let! l := errorf "failed to lower func to interpreterir" (lowerIR ir) in
      Ok (mkCompiledFunction l None lsn id ensureTermination (wrap32 (imported + wrap32 i)), irCompiler)
  end.

Fixpoint compileFunctions (id imported : Z) (ensureTermination : bool) (goFuncs listeners : list (option positive))
    (i : Z) (n : nat) (irCompiler : moduleCompiler) : res (list compiledFunction) :=
  match n with
  | O => Ok []
  | S n' =>
      let at_ l := default None (zlookup l i) in
      let! (f, irCompiler) := compileFunction id imported ensureTermination (at_ goFuncs) (at_ listeners) i irCompiler in
      let! fs := compileFunctions id imported ensureTermination goFuncs listeners (i + 1) n' irCompiler in
      Ok (f :: fs)
  end.

Definition CompileModule (enabledFeatures : CoreFeatures) (id : Z) (module : Module) (goFuncs listeners : list (option positive))
    (ensureTermination needSourceOffset : bool) (e : engine) : engine * res unit :=
  match getCompiledFunctions id true e with
  | (Some _, e) => (e, Ok tt)
  | (None, e) =>
      match (let! irCompiler := newCompiler enabledFeatures callFrameStackSize module ensureTermination needSourceOffset in
             compileFunctions id (ImportFunctionCount module) ensureTermination goFuncs listeners 0
               (length (CodeSection module)) irCompiler) with
      | Ok funcs => (addCompiledFunctions id funcs e, Ok tt)
      | Err msg => (e, Err msg)
      | Panic msg => (e, Panic msg)
      end
  end.
