(* ===== verification/LowerSafe.v ===== *)
(** * Every branch of compiled code has a target

    While a function is compiled, every label that an emitted branch, or a
    clause of the exception table, refers to is the return label, is emitted
    already, or is owed by a control frame that is still open.  Hence [lowerIR]
    finds an address for every label when the function is complete, and every
    branch of the lowered code goes to the label it names or leaves the
    function. *)

From S2P Require Import Prelude Leb128 Features Opcodes Types ValStack Validate Signature Memory Operations Compiler.
From S2P Require Import TypeIDs Binary ModuleValidate Lower.

(** ** Labels *)

Lemma newLabel_add k id : 0 <= k < 2 ^ 32 -> 0 <= id < 2 ^ 32 -> newLabel k id = k + id * 2 ^ 32.
Proof.
  intros Hk Hid. unfold newLabel. rewrite wrap64_small.
  - apply lor_shiftl_add; lia.
  - unfold is_u64. rewrite Z.shiftl_mul_pow2 by lia. lia.
Qed.

Lemma LabelKind_newLabel k id : 0 <= k < 2 ^ 8 -> 0 <= id < 2 ^ 32 -> LabelKind (newLabel k id) = k.
Proof.
  intros Hk Hid. rewrite newLabel_add by lia. unfold LabelKind, wrap8, wrap32.
  rewrite Z.mod_add by lia. rewrite (Z.mod_small k) by lia. apply Z.mod_small. lia.
Qed.

Lemma FrameID_newLabel k id : 0 <= k < 2 ^ 32 -> 0 <= id < 2 ^ 32 -> FrameID (newLabel k id) = id.
Proof.
  intros Hk Hid. rewrite newLabel_add by lia. unfold FrameID, wrap32.
  rewrite Z.shiftr_div_pow2, Z.div_add, (Z.div_small k) by lia. apply Z.mod_small. lia.
Qed.

(** The labels that the compiler makes. *)
Definition proper (l : label) : Prop := exists k id, l = newLabel k id /\ 0 <= k < 4 /\ 0 <= id < 2 ^ 32.

Lemma proper_newLabel k id : 0 <= k < 4 -> 0 <= id < 2 ^ 32 -> proper (newLabel k id).
Proof. intros. by exists k, id. Qed.

Lemma proper_fields l : proper l -> 0 <= LabelKind l < 4 /\ 0 <= FrameID l < 2 ^ 32.
Proof. intros (k & id & -> & Hk & Hid). rewrite LabelKind_newLabel, FrameID_newLabel; lia. Qed.

Lemma proper_inj l l' : proper l -> proper l' -> LabelKind l = LabelKind l' -> FrameID l = FrameID l' -> l = l'.
Proof.
  intros (k & id & -> & Hk & Hid) (k' & id' & -> & Hk' & Hid').
  rewrite !LabelKind_newLabel, !FrameID_newLabel by lia. by intros -> ->.
Qed.

(** ** The labels of operations *)

Fixpoint evens {A} (l : list A) : list A :=
  match l with [] => [] | [x] => [x] | x :: _ :: l' => x :: evens l' end.

(** The labels an operation refers to, and the one it defines. *)
Definition refs (op : unionOperation) : list label :=
  match OpKind op with
  | operationKindBr => [U1 op]
  | operationKindBrIf | operationKindBrOnNull | operationKindBrOnNonNull => [U1 op; U2 op]
  | operationKindBrTable => evens (Us op)
  | operationKindTailCallReturnCallIndirect | operationKindReturnCallRef => match Us op with [_; l] => [l] | _ => [] end
  | _ => []
  end.
Definition defs (op : unionOperation) : list label :=
  match OpKind op with operationKindLabel => [U1 op] | _ => [] end.

Definition twoUs (op : unionOperation) : Prop :=
  match OpKind op with
  | operationKindTailCallReturnCallIndirect | operationKindReturnCallRef => exists d l, Us op = [d; l]
  | _ => True
  end.
Definition op_ok (op : unionOperation) : Prop := Forall proper (refs op) /\ Forall proper (defs op) /\ twoUs op.

(** An operation that has nothing to do with labels. *)
Definition plainOp (op : unionOperation) : Prop := refs op = [] /\ defs op = [] /\ twoUs op.

Definition clauseRefs (pe : pendingExceptionTableEntry) : list label :=
  newLabel labelKindContinuation (continuationFrameID pe) :: map pending_targetLabel (pending_clauses pe).

Definition given (ops : list unionOperation) : list label := flat_map defs ops.
Definition wanted (ops : list unionOperation) (ps : list pendingExceptionTableEntry) : list label :=
  flat_map refs ops ++ flat_map clauseRefs ps.

(** The labels that the end of a frame, or its else, will define. *)
Definition owed (f : controlFrame) : list label :=
  match frameKind f with
  | controlFrameKindBlockWithContinuationLabel | controlFrameKindIfWithElse | controlFrameKindTryTable =>
      [newLabel labelKindContinuation (frameID f)]
  | controlFrameKindIfWithoutElse => [newLabel labelKindElse (frameID f); newLabel labelKindContinuation (frameID f)]
  | _ => []
  end.
Definition due (fs : list controlFrame) : list label := flat_map owed fs.

(** ** The invariant *)

Definition returnLabel : label := newLabel labelKindReturn 0.

Definition covered (ops : list unionOperation) (fs : list controlFrame) (l : label) : Prop :=
  l = returnLabel \/ l ∈ given ops \/ l ∈ due fs.

Definition frame_ok (ops : list unionOperation) (f : controlFrame) : Prop :=
  0 <= frameID f < 2 ^ 32 /\
  (frameKind f = controlFrameKindLoop -> newLabel labelKindHeader (frameID f) ∈ given ops).

Record labels_ok (s : cstate) : Prop := {
  lo_ops : Forall op_ok (Operations s);
  lo_pending : Forall proper (flat_map clauseRefs (PendingExceptionTable s));
  lo_frames : Forall (frame_ok (Operations s)) (controlFrames s);
  lo_function : forall f, last (controlFrames s) = Some f -> frameKind f = controlFrameKindFunction;
  lo_wanted : Forall (covered (Operations s) (controlFrames s)) (wanted (Operations s) (PendingExceptionTable s));
}.

Lemma given_app ops l : given (ops ++ l) = given ops ++ given l.
Proof. apply flat_map_app. Qed.

Lemma covered_app ops l fs x : covered ops fs x -> covered (ops ++ l) fs x.
Proof. unfold covered. rewrite given_app. set_solver. Qed.

Lemma frame_ok_app ops l f : frame_ok ops f -> frame_ok (ops ++ l) f.
Proof. unfold frame_ok. rewrite given_app. set_solver. Qed.

Lemma wanted_app ops l ps p x : x ∈ wanted (ops ++ l) (ps ++ p) -> x ∈ wanted ops ps \/ x ∈ wanted l p.
Proof. unfold wanted. rewrite !flat_map_app. set_solver. Qed.

(** One step: the operations [l] and the entries [p] are added, and what the
    old frames owed is covered by the new ones. *)
Lemma labels_step s s' l p :
  labels_ok s -> Operations s' = Operations s ++ l -> PendingExceptionTable s' = PendingExceptionTable s ++ p ->
  Forall op_ok l -> Forall proper (flat_map clauseRefs p) ->
  Forall (frame_ok (Operations s')) (controlFrames s') ->
  (forall f, last (controlFrames s') = Some f -> frameKind f = controlFrameKindFunction) ->
  (forall x, x ∈ due (controlFrames s) -> covered (Operations s') (controlFrames s') x) ->
  Forall (covered (Operations s') (controlFrames s')) (wanted l p) -> labels_ok s'.
Proof.
  intros [Ho Hp Hf Hl Hw] Hops Hps Hok Hpok Hfs Hlast Hdue Hnew. split.
  - rewrite Hops. by apply Forall_app.
  - rewrite Hps, flat_map_app. by apply Forall_app.
  - done.
  - done.
  - apply Forall_forall. intros x Hx. rewrite Hops, Hps in Hx.
    apply wanted_app in Hx as [Hx|Hx]; [|by eapply Forall_forall in Hnew].
    eapply Forall_forall in Hw as [->|[Hg|Hd]]; [by left| | |exact Hx].
    + right; left. rewrite Hops, given_app. set_solver.
    + by apply Hdue.
Qed.

(** ** Steps without labels *)

Record plainStep (s s' : cstate) : Prop := {
  ps_frames : controlFrames s' = controlFrames s;
  ps_pending : PendingExceptionTable s' = PendingExceptionTable s;
  ps_ops : exists l, Operations s' = Operations s ++ l /\ Forall plainOp l;
}.

#[global] Instance plainStep_preorder : PreOrder plainStep.
Proof.
  split.
  - intros s. split; [done..|]. exists []. by rewrite app_nil_r.
  - intros s1 s2 s3 [F1 P1 (l1 & O1 & H1)] [F2 P2 (l2 & O2 & H2)]. split; [congruence..|].
    exists (l1 ++ l2). rewrite O2, O1, app_assoc. split; [done|]. by apply Forall_app.
Qed.

Lemma plainOp_ok op : plainOp op -> op_ok op.
Proof. intros (Hr & Hd & Ht). unfold op_ok. rewrite Hr, Hd. by repeat constructor. Qed.

Lemma plain_wanted l : Forall plainOp l -> wanted l [] = [].
Proof. intros H. unfold wanted. rewrite app_nil_r. induction H as [|op l (Hr & _) _ IH]; simpl; [done|]. by rewrite Hr, IH. Qed.

Lemma plainStep_labels s s' : plainStep s s' -> labels_ok s -> labels_ok s'.
Proof.
  intros [HF HP (l & HO & Hl)] Hok. apply (labels_step s s' l []); [done|done|by rewrite app_nil_r| |constructor| | | |].
  - eapply Forall_impl; [exact Hl|apply plainOp_ok].
  - rewrite HF, HO. eapply Forall_impl; [apply (lo_frames _ Hok)|intros; by apply frame_ok_app].
  - rewrite HF. apply (lo_function _ Hok).
  - intros x Hx. right; right. by rewrite HF.
  - rewrite plain_wanted by done. constructor.
Qed.

(** ** Runs of the monad *)

Definition plain {A} (m : C A) : Prop := forall s a s', m s = Ok (a, s') -> plainStep s s'.

Lemma bindC_Ok {A B} (m : C A) (k : A -> C B) s b s' :
  mbind k m s = Ok (b, s') -> exists a s1, m s = Ok (a, s1) /\ k a s1 = Ok (b, s').
Proof. unfold mbind, C_bind. intros H. apply res_bind_Ok in H as ([a s1] & ? & ?). eauto. Qed.

Lemma bindC_run {A B} (m : C A) (k : A -> C B) s a s1 : m s = Ok (a, s1) -> mbind k m s = k a s1.
Proof. unfold mbind, C_bind. by intros ->. Qed.

Lemma plain_bind {A B} (m : C A) (k : A -> C B) : plain m -> (forall a, plain (k a)) -> plain (mbind k m).
Proof. intros Hm Hk s b s' H. apply bindC_Ok in H as (a & s1 & H1 & H2). etrans; [by eapply Hm|by eapply Hk]. Qed.

Lemma plain_ret {A} (a : A) : plain (mret a).
Proof. intros s b s' [= <- <-]. reflexivity. Qed.

Lemma plain_getC {A} (f : cstate -> A) : plain (getC f).
Proof. intros s b s' [= <- <-]. reflexivity. Qed.

Lemma plain_liftC {A} (r : res A) : plain (liftC r).
Proof. intros s b s' H. unfold liftC in H. apply res_bind_Ok in H as (a & _ & [= <- <-]). reflexivity. Qed.

Lemma plain_failC {A} msg : plain (failC (A := A) msg).
Proof. intros s b s' H. discriminate. Qed.

Lemma plain_coreC {A} (f : compiler -> res (A * compiler)) : plain (coreC f).
Proof.
  intros s b s' H. unfold coreC in H. apply res_bind_Ok in H as ([a c] & _ & [= <- <-]).
  split; [done..|]. exists []. by rewrite app_nil_r.
Qed.

(** A change of the state that leaves operations, frames and exception table alone. *)
Definition apart (g : cstate -> cstate) : Prop := forall s,
  Operations (g s) = Operations s /\ controlFrames (g s) = controlFrames s /\ PendingExceptionTable (g s) = PendingExceptionTable s.

Lemma plain_modC g : apart g -> plain (modC g).
Proof. intros Hg s b s' [= <- <-]. destruct (Hg s) as (HO & HF & HP). split; [done..|]. exists []. by rewrite app_nil_r. Qed.

Lemma plain_emit nso off op : plainOp op -> plain (emit nso off op).
Proof.
  intros Hop s b s' H. unfold emit in H. apply bindC_Ok in H as (s1 & s2 & [= <- <-] & H). unfold id in H.
  assert (Hdo : forall s1, modC (set_Operations (Operations s ++ [op]) s1) s = Ok (b, s') -> plainStep s s').
  { intros s1 [= <- <-]. split; [done..|]. exists [op]. split; [done|]. by constructor. }
  destruct (isUnreachable s); [injection H as <- <-; reflexivity|].
  destruct (OpKind op); try by eapply Hdo.
  destruct (sgn64 (U1 op) =? -1); [injection H as <- <-; reflexivity|by eapply Hdo].
Qed.

(** ** The instructions without labels *)

Definition yields {A} (P : A -> Prop) (o : option A) : Prop := match o with Some a => P a | None => True end.

Lemma yields_Some {A} (P : A -> Prop) o a : yields P o -> o = Some a -> P a.
Proof. by intros H ->. Qed.

Lemma yields_orElse {A} (P : A -> Prop) o1 o2 : yields P o1 -> yields P o2 -> yields P (orElse o1 o2).
Proof. by destruct o1. Qed.

Definition plainMemOp (o : string * (memoryArg -> unionOperation)) : Prop := forall arg, plainOp (snd o arg).
Definition plainLaneMemOp (o : string * (memoryArg -> Z -> unionOperation)) : Prop := forall arg i, plainOp (snd o arg i).
Definition plainLaneOp (o : Z -> unionOperation) : Prop := forall i, plainOp (o i).

Ltac plain_op := repeat first [progress intros ? | apply conj]; first [reflexivity | exact I].
Ltac plain_table := repeat match goal with |- context [if ?b then _ else _] => destruct b; [plain_op|] end; exact I.

Lemma compareOperation_plain op : yields plainOp (compareOperation op).
Proof. unfold compareOperation. plain_table. Qed.
Lemma integerOperation_plain op : yields plainOp (integerOperation op).
Proof. unfold integerOperation. plain_table. Qed.
Lemma floatOperation_plain op : yields plainOp (floatOperation op).
Proof. unfold floatOperation. plain_table. Qed.
Lemma conversionOperation_plain op : yields plainOp (conversionOperation op).
Proof. unfold conversionOperation. plain_table. Qed.
Lemma truncSatOperation_plain op : yields plainOp (truncSatOperation op).
Proof. unfold truncSatOperation. plain_table. Qed.
Lemma memoryOperation_plain op : yields plainMemOp (memoryOperation op).
Proof. apply yields_orElse; [unfold loadOperation | unfold storeOperation]; plain_table. Qed.
Lemma vecLoadOperation_plain op : yields plainMemOp (vecLoadOperation op).
Proof. unfold vecLoadOperation. plain_table. Qed.
Lemma vecLaneMem_plain op : yields plainLaneMemOp (orElse (vecLoadLaneOperation op) (vecStoreLaneOperation op)).
Proof. apply yields_orElse; [unfold vecLoadLaneOperation | unfold vecStoreLaneOperation]; plain_table. Qed.
Lemma vecLaneOperation_plain op : yields plainLaneOp (vecLaneOperation op).
Proof. unfold vecLaneOperation. plain_table. Qed.
Lemma vecOperation_plain op : yields plainOp (vecOperation op).
Proof.
  apply yields_orElse; [unfold vecBitOperation; plain_table|].
  apply yields_orElse; [unfold vecCompareNarrowOperation; plain_table|].
  apply yields_orElse; [unfold vecCompareOperation; plain_table|].
  apply yields_orElse; [unfold vecArithOperation; plain_table|].
  apply yields_orElse; [unfold vecMinMaxOperation; plain_table|].
  apply yields_orElse; [unfold vecExtendOperation; plain_table|unfold vecConvertOperation; plain_table].
Qed.
Lemma atomicOperation_plain op : yields plainMemOp (atomicOperation op).
Proof.
  apply yields_orElse; [unfold atomicAccessOperation; plain_table|].
  apply yields_orElse; [unfold atomicAddSubOperation; plain_table|].
  apply yields_orElse; [unfold atomicAndOrOperation; plain_table|].
  apply yields_orElse; [unfold atomicXorXchgOperation; plain_table|unfold atomicCmpxchgOperation; plain_table].
Qed.
Lemma simpleOperation_plain op : yields plainOp (simpleOperation op).
Proof.
  apply yields_orElse; [apply compareOperation_plain|]. apply yields_orElse; [apply integerOperation_plain|].
  apply yields_orElse; [apply floatOperation_plain|apply conversionOperation_plain].
Qed.

Create HintDb plain.

(** A program without labels, from the programs it is made of. *)
Ltac plain_step :=
  match goal with
  | |- plain (mbind _ _) => apply plain_bind; [|intros ?]
  | |- plain (mret _) => apply plain_ret
  | |- plain (getC _) => apply plain_getC
  | |- plain (liftC _) => apply plain_liftC
  | |- plain (failC _) => apply plain_failC
  | |- plain (coreC _) => apply plain_coreC
  | |- plain (modC _) => apply plain_modC; intros ?; by repeat split
  | |- plain (emit _ _ _) => apply plain_emit; by repeat split
  | |- plain (match ?x with _ => _ end) => destruct x
  | |- plain (let _ := _ in _) => cbv zeta
  | |- plain _ => solve [eauto with plain]
  end.
Ltac plain_run := repeat plain_step.

Section Labels.
Context (enabledFeatures : CoreFeatures) (types : list FunctionType) (tags : list Index).
Context (importFunctionCount functionCount next : Z).
Context (ensureTermination needSourceOffset : bool) (bodyOffsetInCodeSection callFrameStackSizeInUint64 : Z) (heights : list Z).

Lemma plain_readIndex msg : plain (readIndex msg).
Proof. unfold readIndex, bodyFromC, advanceC. plain_run. Qed.
Lemma plain_bodyAtC : plain bodyAtC.
Proof. unfold bodyAtC. plain_run. Qed.
Lemma plain_bodyFromC d : plain (bodyFromC d).
Proof. unfold bodyFromC. plain_run. Qed.
Lemma plain_advanceC n : plain (advanceC n).
Proof. unfold advanceC. plain_run. Qed.
Lemma plain_readIndexNext msg : plain (readIndexNext msg).
Proof. unfold readIndexNext, bodyFromC, advanceC. plain_run. Qed.
Lemma plain_stackSwitchAt f : plain (stackSwitchAt f).
Proof. unfold stackSwitchAt. plain_run. Qed.
Lemma plain_pushC u : plain (pushC u).
Proof. apply plain_coreC. Qed.
Lemma plain_popC : plain popC.
Proof. apply plain_coreC. Qed.
Lemma plain_markUnreachable : plain markUnreachable.
Proof. unfold markUnreachable. plain_run. Qed.
Lemma plain_resetUnreachable : plain resetUnreachable.
Proof. unfold resetUnreachable. plain_run. Qed.
Lemma plain_callLabelTimes n l : plain (callLabelTimes n l).
Proof. unfold callLabelTimes. plain_run. Qed.
Lemma plain_callLabel l : plain (callLabel l).
Proof. apply plain_callLabelTimes. Qed.
Lemma plain_nextFrameID : plain nextFrameID.
Proof. unfold nextFrameID. plain_run. Qed.
Lemma plain_getFrame n : plain (getFrame n).
Proof. unfold getFrame. plain_run. Qed.
Lemma plain_topFrame : plain topFrame.
Proof. apply plain_getFrame. Qed.
Lemma plain_functionFrame : plain functionFrame.
Proof. unfold functionFrame. plain_run. Qed.
Lemma plain_getFrameDropRange f b : plain (getFrameDropRange f b).
Proof. unfold getFrameDropRange. plain_run. Qed.
Lemma plain_skipBlock : plain skipBlock.
Proof. unfold skipBlock. plain_run. Qed.
Hint Resolve plain_readIndex plain_bodyAtC plain_bodyFromC plain_advanceC plain_readIndexNext plain_stackSwitchAt plain_pushC
  plain_popC plain_markUnreachable plain_resetUnreachable plain_callLabelTimes plain_callLabel plain_nextFrameID plain_getFrame
  plain_topFrame plain_functionFrame plain_getFrameDropRange plain_skipBlock : plain.

Lemma plain_pushTypes ts : plain (pushTypes ts).
Proof. induction ts; simpl; plain_run. Qed.
Lemma plain_popN n : plain (popN n).
Proof. induction n; simpl; plain_run. Qed.
Lemma plain_readMemoryArg tag : plain (readMemoryArg tag).
Proof. unfold readMemoryArg. plain_run. Qed.
Lemma plain_readBlockTypeC name : plain (readBlockTypeC enabledFeatures types name).
Proof. unfold readBlockTypeC. plain_run. Qed.
Lemma plain_newFrame k bt id : plain (newFrame k bt id).
Proof. unfold newFrame. plain_run. Qed.
Lemma plain_parseCatchClause : plain parseCatchClause.
Proof. unfold parseCatchClause. plain_run. Qed.
Lemma plain_tableLabel r : plain (tableLabel r).
Proof. unfold tableLabel. plain_run. Qed.
Hint Resolve plain_pushTypes plain_popN plain_readMemoryArg plain_readBlockTypeC plain_newFrame plain_parseCatchClause
  plain_tableLabel : plain.

Lemma plain_skipLabels fuel n r : plain (skipLabels fuel n r).
Proof. revert n r. induction fuel; simpl; intros; plain_run. Qed.
Lemma plain_skipClauses fuel n : plain (skipClauses fuel n).
Proof. revert n. induction fuel; simpl; intros; plain_run. Qed.
Lemma plain_compileSelect : plain (compileSelect needSourceOffset bodyOffsetInCodeSection).
Proof. unfold compileSelect, stackPeek. plain_run. Qed.
Lemma plain_readLanes n i : plain (readLanes n i).
Proof. revert i. induction n; simpl; intros; plain_run. Qed.
Hint Resolve plain_skipLabels plain_skipClauses plain_compileSelect plain_readLanes : plain.

Lemma plain_compileTypedSelect : plain (compileTypedSelect needSourceOffset bodyOffsetInCodeSection).
Proof. unfold compileTypedSelect. plain_run. Qed.
Lemma plain_compileConst op : plain (compileConst needSourceOffset bodyOffsetInCodeSection op).
Proof. unfold compileConst. plain_run. Qed.
Lemma plain_compileRefNull : plain (compileRefNull needSourceOffset bodyOffsetInCodeSection).
Proof. unfold compileRefNull. plain_run. Qed.
Lemma plain_compileLocalGet i : plain (compileLocalGet needSourceOffset bodyOffsetInCodeSection heights i).
Proof. unfold compileLocalGet, localDepth, compilerLocalType. plain_run. Qed.
Lemma plain_compileLocalSet i : plain (compileLocalSet needSourceOffset bodyOffsetInCodeSection heights i).
Proof. unfold compileLocalSet, localDepth, compilerLocalType. plain_run. Qed.
Lemma plain_compileLocalTee i : plain (compileLocalTee needSourceOffset bodyOffsetInCodeSection heights i).
Proof. unfold compileLocalTee, localDepth, compilerLocalType. plain_run. Qed.
Lemma plain_compileThrow i : plain (compileThrow types tags needSourceOffset bodyOffsetInCodeSection i).
Proof. unfold compileThrow. plain_run. Qed.
Lemma plain_compileThrowRef : plain (compileThrowRef needSourceOffset bodyOffsetInCodeSection).
Proof. unfold compileThrowRef. plain_run. Qed.
Lemma plain_compileCallIndirect i : plain (compileCallIndirect needSourceOffset bodyOffsetInCodeSection i).
Proof. unfold compileCallIndirect. plain_run. Qed.

Lemma plain_emitMemory o : plainMemOp o -> plain (emitMemory needSourceOffset bodyOffsetInCodeSection o).
Proof. intros Ho. unfold emitMemory. apply plain_bind; [apply plain_readMemoryArg|]. intros arg. apply plain_emit, Ho. Qed.

Lemma plain_compileMisc : plain (compileMisc needSourceOffset bodyOffsetInCodeSection).
Proof.
  unfold compileMisc. apply plain_bind; [apply plain_readIndexNext|]. intros miscOp. cbv zeta.
  destruct (truncSatOperation _) eqn:Ho; [apply plain_emit; exact (yields_Some _ _ _ (truncSatOperation_plain _) Ho)|].
  plain_run.
Qed.

Lemma plain_compileVec : plain (compileVec needSourceOffset bodyOffsetInCodeSection).
Proof.
  unfold compileVec, readLaneC, uint64At. apply plain_bind; [apply plain_advanceC|]. intros _.
  apply plain_bind; [apply plain_bodyAtC|]. intros vecOp.
  destruct (vecOp =? _); [plain_run|].
  destruct (vecOp =? _); [apply plain_emitMemory; by repeat split|].
  destruct (vecOp =? _); [plain_run|].
  destruct (vecLoadOperation vecOp) eqn:Ho; [apply plain_emitMemory; exact (yields_Some _ _ _ (vecLoadOperation_plain _) Ho)|].
  clear Ho. destruct (orElse _ _) as [[tag o]|] eqn:Ho.
  { plain_run. apply plain_emit. exact (yields_Some _ _ _ (vecLaneMem_plain _) Ho _ _). }
  clear Ho. destruct (vecLaneOperation vecOp) eqn:Ho.
  { plain_run. apply plain_emit. exact (yields_Some _ _ _ (vecLaneOperation_plain _) Ho _). }
  clear Ho. destruct (vecOperation vecOp) eqn:Ho; [|plain_run].
  apply plain_emit. exact (yields_Some _ _ _ (vecOperation_plain _) Ho).
Qed.

Lemma plain_compileAtomic : plain (compileAtomic needSourceOffset bodyOffsetInCodeSection).
Proof.
  unfold compileAtomic. apply plain_bind; [apply plain_advanceC|]. intros _.
  apply plain_bind; [apply plain_bodyAtC|]. intros atomicOp.
  destruct (atomicOp =? _); [plain_run|].
  destruct (atomicOperation atomicOp) eqn:Ho; [|plain_run].
  apply plain_emitMemory. exact (yields_Some _ _ _ (atomicOperation_plain _) Ho).
Qed.

(** ** Steps that only concern operands, and emitted operations *)

Definition seen (s : cstate) := (Operations s, controlFrames s, PendingExceptionTable s, isUnreachable s).
Definition calm {A} (m : C A) : Prop := forall s a s', m s = Ok (a, s') -> seen s' = seen s.

Lemma calm_bind {A B} (m : C A) (k : A -> C B) : calm m -> (forall a, calm (k a)) -> calm (mbind k m).
Proof. intros Hm Hk s b s' H. apply bindC_Ok in H as (a & s1 & H1 & H2). by rewrite (Hk _ _ _ _ H2), (Hm _ _ _ H1). Qed.
Lemma calm_ret {A} (a : A) : calm (mret a).
Proof. by intros s b s' [= <- <-]. Qed.
Lemma calm_getC {A} (f : cstate -> A) : calm (getC f).
Proof. by intros s b s' [= <- <-]. Qed.
Lemma calm_liftC {A} (r : res A) : calm (liftC r).
Proof. intros s b s' H. unfold liftC in H. by apply res_bind_Ok in H as (a & _ & [= <- <-]). Qed.
Lemma calm_modC g : (forall s, seen (g s) = seen s) -> calm (modC g).
Proof. by intros Hg s b s' [= <- <-]. Qed.

Ltac calm_step :=
  match goal with
  | |- calm (mbind _ _) => apply calm_bind; [|intros ?]
  | |- calm (mret _) => apply calm_ret
  | |- calm (getC _) => apply calm_getC
  | |- calm (liftC _) => apply calm_liftC
  | |- calm (modC _) => apply calm_modC; reflexivity
  | |- calm (match ?x with _ => _ end) => destruct x
  | |- calm (let _ := _ in _) => cbv zeta
  | |- calm _ => solve [eauto]
  end.
Ltac calm_run := repeat calm_step.

Lemma calm_pushC u : calm (pushC u).
Proof. intros s a s' H. unfold pushC, coreC in H. by injection H as <- <-. Qed.
Lemma calm_pushTypes ts : calm (pushTypes ts).
Proof. induction ts; simpl; calm_run. apply calm_pushC. Qed.
Lemma calm_stackSwitchAt f : calm (stackSwitchAt f).
Proof.
  intros s a s' H. unfold stackSwitchAt in H. apply bindC_Ok in H as (c & s1 & [= <- <-] & H). cbv zeta in H.
  destruct (_ && _) in H; [by injection H as <- <-|discriminate].
Qed.
Lemma calm_callLabelTimes n l : calm (callLabelTimes n l).
Proof. unfold callLabelTimes. calm_run. Qed.
Lemma calm_getFrameDropRange f b : calm (getFrameDropRange f b).
Proof. unfold getFrameDropRange. calm_run. Qed.

Lemma nextFrameID_run s id s' : nextFrameID s = Ok (id, s') -> seen s' = seen s /\ 0 <= id < 2 ^ 32.
Proof.
  intros H. unfold nextFrameID in H. injection H as <- <-. split; [done|].
  unfold wrap32. pose proof (Z.mod_pos_bound (currentFrameID s + 1) (2 ^ 32)). lia.
Qed.

Lemma newFrame_run k bt id s f s' : newFrame k bt id s = Ok (f, s') -> seen s' = seen s /\ frameID f = id /\ frameKind f = k.
Proof. intros H. unfold newFrame in H. by injection H as <- <-. Qed.

Abbreviation emit' := (emit needSourceOffset bodyOffsetInCodeSection).

(** [op] is added to the operations. *)
Definition added (op : unionOperation) (s s' : cstate) : Prop :=
  seen s' = (Operations s ++ [op], controlFrames s, PendingExceptionTable s, isUnreachable s).

Lemma emit_run op s a s' : emit' op s = Ok (a, s') ->
  (seen s' = seen s /\ (isUnreachable s = true \/ OpKind op = operationKindDrop)) \/ (isUnreachable s = false /\ added op s s').
Proof.
  intros H. unfold emit in H. apply bindC_Ok in H as (s1 & s2 & [= <- <-] & H). unfold id in H.
  destruct (isUnreachable s) eqn:Hu; [left; injection H as <- <-; by auto|].
  assert (Hdo : forall o, modC (set_Operations (Operations s ++ [op]) o) s = Ok (a, s') -> added op s s').
  { by intros o [= <- <-]. }
  destruct (OpKind op) eqn:Hk; try (right; split; [done|by eapply Hdo]).
  destruct (sgn64 (U1 op) =? -1); [left; injection H as <- <-; by auto|right; split; [done|by eapply Hdo]].
Qed.

Lemma emit_added op s a s' : isUnreachable s = false -> OpKind op <> operationKindDrop -> emit' op s = Ok (a, s') -> added op s s'.
Proof. intros Hu Hk H. apply emit_run in H as [[_ [?|?]]|[_ ?]]; congruence. Qed.

(** What [emit (newOperationDrop r)] adds. *)
Lemma emit_drop r s a s' : emit' (newOperationDrop r) s = Ok (a, s') ->
  exists l, seen s' = (Operations s ++ l, controlFrames s, PendingExceptionTable s, isUnreachable s) /\ Forall plainOp l.
Proof.
  intros H. apply emit_run in H as [[Hs _]|[_ Hs]].
  - exists []. rewrite app_nil_r. by split.
  - exists [newOperationDrop r]. split; [done|]. by repeat constructor.
Qed.

(** An operation whose labels are covered. *)
Lemma emit_covered op s a s' :
  labels_ok s -> op_ok op -> Forall (covered (Operations s) (controlFrames s)) (refs op) ->
  emit' op s = Ok (a, s') -> labels_ok s'.
Proof.
  intros Hok Hop Hrefs H. apply emit_run in H as [[Hs _]|[_ Hs]].
  - injection Hs as HO HF HP _. apply (plainStep_labels s); [|done]. split; [done..|]. exists []. by rewrite app_nil_r.
  - injection Hs as HO HF HP _. apply (labels_step s s' [op] []); rewrite ?HO, ?HF, ?HP, ?app_nil_r; auto.
    + eapply Forall_impl; [apply (lo_frames _ Hok)|intros; by apply frame_ok_app].
    + apply (lo_function _ Hok).
    + intros x Hx. by right; right.
    + unfold wanted. simpl. rewrite !app_nil_r. eapply Forall_impl; [exact Hrefs|intros; by apply covered_app].
Qed.

(** ** Branch targets *)

Lemma ensure_idempotent f : ensureContinuation (ensureContinuation f) = ensureContinuation f.
Proof. unfold ensureContinuation at 2 3. destruct (frameKind f) eqn:Hk; unfold ensureContinuation; simpl; by rewrite ?Hk. Qed.

Lemma ensure_kind f k : frameKind f = k -> k <> controlFrameKindBlockWithoutContinuationLabel -> ensureContinuation f = f.
Proof. intros <- Hk. unfold ensureContinuation. by destruct (frameKind f). Qed.

(** A frame may have got a continuation label. *)
Definition continued (f f' : controlFrame) : Prop := f' = f \/ f' = ensureContinuation f.

#[local] Instance continued_preorder : PreOrder continued.
Proof.
  split; [by left|]. intros f g h [->| ->] [->| ->]; unfold continued; auto using ensure_idempotent.
Qed.

(** Frames may have got continuation labels; nothing else has changed. *)
Record grows (s s' : cstate) : Prop := {
  gr_ops : Operations s' = Operations s;
  gr_pending : PendingExceptionTable s' = PendingExceptionTable s;
  gr_unreachable : isUnreachable s' = isUnreachable s;
  gr_frames : Forall2 continued (controlFrames s) (controlFrames s');
}.

#[local] Instance grows_preorder : PreOrder grows.
Proof.
  split; [intros s; by split|].
  intros s1 s2 s3 [O1 P1 U1 F1] [O2 P2 U2 F2]. split; [congruence..|]. by etrans.
Qed.

Lemma seen_grows s s' : seen s' = seen s -> grows s s'.
Proof. intros [= HO HF HP HU]. split; [done..|]. rewrite HF. apply (gr_frames s s). reflexivity. Qed.

Lemma owed_ensure f : owed f ⊆ owed (ensureContinuation f).
Proof. unfold owed, ensureContinuation. destruct (frameKind f) eqn:Hk; simpl; rewrite ?Hk; set_solver. Qed.

Lemma due_grows fs fs' :
  Forall2 continued fs fs' -> due fs ⊆ due fs'.
Proof.
  induction 1 as [|f f' fs fs' Hf _ IH]; [done|]. unfold due in *. simpl.
  assert (owed f ⊆ owed f') by (destruct Hf as [->| ->]; [done|apply owed_ensure]). set_solver.
Qed.

Lemma covered_grows s s' x : grows s s' ->
  covered (Operations s) (controlFrames s) x -> covered (Operations s') (controlFrames s') x.
Proof.
  intros [HO _ _ HF] [->|[Hg|Hd]]; [by left|right; left; by rewrite HO|right; right]. by eapply due_grows.
Qed.

Lemma frame_ok_ensure ops f : frame_ok ops f -> frame_ok ops (ensureContinuation f).
Proof. unfold frame_ok, ensureContinuation. destruct (frameKind f) eqn:Hk; simpl; rewrite ?Hk; naive_solver. Qed.

Lemma last_grows fs fs' f' :
  Forall2 continued fs fs' ->
  (forall f, last fs = Some f -> frameKind f = controlFrameKindFunction) ->
  last fs' = Some f' -> frameKind f' = controlFrameKindFunction.
Proof.
  intros HF Hl Hf'. rewrite last_lookup in Hf'. rewrite <- (Forall2_length _ _ _ HF) in Hf'.
  destruct (Forall2_lookup_r _ _ _ _ _ HF Hf') as (f & Hf & Hff').
  assert (Hk : frameKind f = controlFrameKindFunction) by (apply Hl; by rewrite last_lookup).
  destruct Hff' as [->| ->]; [done|]. by rewrite (ensure_kind f _ Hk).
Qed.

Lemma labels_grows s s' : labels_ok s -> grows s s' -> labels_ok s'.
Proof.
  intros Hok Hg. apply (labels_step s s' [] []); rewrite ?app_nil_r; [done|apply Hg|apply Hg|constructor|constructor| | | |constructor].
  - rewrite (gr_ops _ _ Hg). apply Forall_forall. intros f' Hf'. apply list_elem_of_lookup_1 in Hf' as (i & Hf').
    destruct (Forall2_lookup_r _ _ _ _ _ (gr_frames _ _ Hg) Hf') as (f & Hf & Hff').
    assert (Hfo : frame_ok (Operations s) f) by (eapply Forall_lookup_1; [apply (lo_frames _ Hok)|done]).
    destruct Hff' as [->| ->]; [done|]. by apply frame_ok_ensure.
  - intros f'. eapply last_grows; [apply Hg|apply (lo_function _ Hok)].
  - intros x Hx. eapply covered_grows; [done|]. by right; right.
Qed.

(** The label of a frame that has its continuation. *)
Lemma asLabel_covered ops fs f :
  f ∈ fs -> frame_ok ops f -> frameKind f <> controlFrameKindBlockWithoutContinuationLabel ->
  proper (asLabel f) /\ covered ops fs (asLabel f).
Proof.
  intros Hf [Hid Hloop] Hk.
  assert (Howed : forall l, l ∈ owed f -> covered ops fs l).
  { intros l Hl. right; right. unfold due. apply list_elem_of_In, in_flat_map. exists f. by rewrite <- !list_elem_of_In. }
  unfold asLabel. unfold owed in Howed.
  destruct (frameKind f) eqn:Hkind; try done;
    (split; [apply proper_newLabel; [unfold labelKindReturn, labelKindHeader, labelKindContinuation|]; lia|]);
    try (apply Howed; set_solver).
  - by left.
  - right; left. by apply Hloop.
Qed.

Lemma getFrame_run n s f s' : getFrame n s = Ok (f, s') -> s' = s /\ 0 <= n < zlen (controlFrames s) /\ controlFrames s !! Z.to_nat n = Some f.
Proof.
  intros H. unfold getFrame in H. apply bindC_Ok in H as (fs & s1 & [= <- <-] & H). unfold liftC in H.
  apply res_bind_Ok in H as (g & Hg & [= <- <-]). split; [done|]. unfold zindex, zlookup in Hg.
  destruct (0 <=? n) eqn:Hn; [|done]. destruct (controlFrames s !! Z.to_nat n) eqn:Hl; simplify_eq/=. bools.
  apply lookup_lt_Some in Hl as Hlt. unfold zlen. split; [lia|done].
Qed.

(** The frame [n] gets its continuation, and its label may be used. *)
Lemma target_run n f s s' a :
  labels_ok s -> controlFrames s !! Z.to_nat n = Some f -> setFrame n (ensureContinuation f) s = Ok (a, s') ->
  grows s s' /\ proper (asLabel (ensureContinuation f)) /\
  covered (Operations s') (controlFrames s') (asLabel (ensureContinuation f)).
Proof.
  intros Hok Hf H. unfold setFrame, modC in H. injection H as _ <-.
  assert (Hg : grows s (set_controlFrames (<[Z.to_nat n := ensureContinuation f]> (controlFrames s)) s)).
  { split; [done..|]. simpl. apply Forall2_same_length_lookup_2; [by rewrite length_insert|].
    intros i x y Hx Hy. destruct (decide (i = Z.to_nat n)) as [->|Hi].
    - rewrite list_lookup_insert_eq in Hy by (by eapply lookup_lt_Some). simplify_eq. by right.
    - rewrite list_lookup_insert_ne in Hy by done. simplify_eq. by left. }
  split; [done|]. apply asLabel_covered.
  - simpl. eapply list_elem_of_lookup_2, list_lookup_insert_eq. by eapply lookup_lt_Some.
  - apply frame_ok_ensure. eapply Forall_lookup_1; [apply (lo_frames _ Hok)|done].
  - unfold ensureContinuation. destruct (frameKind f) eqn:Hk; simpl; congruence.
Qed.

Lemma branchTarget_run n s r l s' :
  labels_ok s -> branchTarget n s = Ok ((r, l), s') ->
  grows s s' /\ proper l /\ covered (Operations s') (controlFrames s') l.
Proof.
  intros Hok H. unfold branchTarget in H. apply bindC_Ok in H as (f & s1 & H1 & H).
  apply getFrame_run in H1 as (-> & _ & Hf). cbv zeta in H. apply bindC_Ok in H as ([] & s2 & H2 & H).
  apply bindC_Ok in H as (r' & s3 & H3 & [= <- <- <-]). apply calm_getFrameDropRange in H3.
  destruct (target_run _ _ _ _ _ Hok Hf H2) as (Hg & Hp & Hc). apply seen_grows in H3.
  split; [by etrans|]. split; [done|]. by eapply covered_grows.
Qed.

(** ** Structured control *)

Definition keeps {A} (m : C A) : Prop := forall s a s', labels_ok s -> controlFrames s <> [] -> m s = Ok (a, s') -> labels_ok s'.

Lemma plain_keeps {A} (m : C A) : plain m -> keeps m.
Proof. intros Hm s a s' Hok _ H. apply Hm in H. by eapply plainStep_labels. Qed.

Lemma plain_nonempty {A} (m : C A) s a s' : plain m -> m s = Ok (a, s') -> controlFrames s <> [] -> controlFrames s' <> [].
Proof. intros Hm H. apply Hm in H. by rewrite (ps_frames _ _ H). Qed.

(** After a prefix without labels. *)
Lemma keeps_bind {A B} (m : C A) (k : A -> C B) : plain m -> (forall a, keeps (k a)) -> keeps (mbind k m).
Proof.
  intros Hm Hk s b s' Hok Hne H. apply bindC_Ok in H as (a & s1 & H1 & H2).
  eapply Hk; [|by eapply plain_nonempty|exact H2]. eapply plainStep_labels; [by eapply Hm|done].
Qed.

(** The rest of a handler runs in reachable code. *)
Lemma keeps_reachable {A} (m k : C A) :
  keeps m -> (forall s a s', labels_ok s -> controlFrames s <> [] -> isUnreachable s = false -> k s = Ok (a, s') -> labels_ok s') ->
  keeps (un ← getC isUnreachable; if (un : bool) then m else k).
Proof.
  intros Hm Hk s a s' Hok Hne H. apply bindC_Ok in H as (un & s1 & [= <- <-] & H).
  destruct (isUnreachable s) eqn:Hu; [by eapply Hm|by eapply Hk].
Qed.

(** A new frame [f] on top, after the operations [l] and the entries [p]. *)
Lemma push_ok s s' f l p :
  labels_ok s -> controlFrames s <> [] ->
  Operations s' = Operations s ++ l -> controlFrames s' = f :: controlFrames s ->
  PendingExceptionTable s' = PendingExceptionTable s ++ p ->
  Forall op_ok l -> Forall proper (flat_map clauseRefs p) -> frame_ok (Operations s') f ->
  Forall (covered (Operations s') (controlFrames s')) (wanted l p) -> labels_ok s'.
Proof.
  intros Hok Hne HO HF HP Hl Hp Hf Hw. apply (labels_step s s' l p); auto.
  - rewrite HF. constructor; [done|]. rewrite HO.
    eapply Forall_impl; [apply (lo_frames _ Hok)|intros; by apply frame_ok_app].
  - rewrite HF. destruct (controlFrames s) as [|g fs] eqn:Hfs; [done|]. intros h Hh. apply (lo_function _ Hok).
    by rewrite Hfs.
  - intros x Hx. right; right. rewrite HF. unfold due. simpl. set_solver.
Qed.

Lemma pushFrame_run f s a s' : pushFrame f s = Ok (a, s') ->
  seen s' = (Operations s, f :: controlFrames s, PendingExceptionTable s, isUnreachable s).
Proof. by intros [= <- <-]. Qed.

(** The frame that a block starts with. *)
Lemma newBlock_run {A} kind bt (k : Z -> controlFrame -> C A) s a s' :
  (id ← nextFrameID; f ← newFrame kind bt id; k id f) s = Ok (a, s') ->
  exists f s1, k (frameID f) f s1 = Ok (a, s') /\ seen s1 = seen s /\ 0 <= frameID f < 2 ^ 32 /\ frameKind f = kind.
Proof.
  intros H. apply bindC_Ok in H as (id & s1 & H1 & H). apply nextFrameID_run in H1 as [H1 Hid].
  apply bindC_Ok in H as (f & s2 & H2 & H). apply newFrame_run in H2 as (H2 & <- & Hk).
  exists f, s2. by rewrite H2.
Qed.

Lemma compileBlock_keeps : keeps (compileBlock enabledFeatures types).
Proof.
  apply keeps_bind; [apply plain_readBlockTypeC|]. intros bt. apply keeps_reachable; [apply plain_keeps, plain_skipBlock|].
  intros s a s' Hok Hne Hu H. apply newBlock_run in H as (f & s1 & H & [= HO HF HP HU] & Hid & Hk).
  apply pushFrame_run in H as [= HO' HF' HP' _].
  apply (push_ok s s' f [] []); rewrite ?app_nil_r; try congruence; try by constructor.
  split; [done|]. by rewrite Hk.
Qed.

Lemma compileLoop_keeps : keeps (compileLoop enabledFeatures types ensureTermination needSourceOffset bodyOffsetInCodeSection).
Proof.
  apply keeps_bind; [apply plain_readBlockTypeC|]. intros bt. apply keeps_reachable; [apply plain_keeps, plain_skipBlock|].
  intros s a s' Hok Hne Hu H. apply newBlock_run in H as (f & s1 & H & [= HO HF HP HU] & Hid & Hk).
  apply bindC_Ok in H as ([] & s2 & H2 & H). apply pushFrame_run in H2 as [= HO2 HF2 HP2 HU2]. cbv zeta in H.
  apply bindC_Ok in H as ([] & s3 & H3 & H). apply calm_callLabelTimes in H3 as [= HO3 HF3 HP3 HU3].
  apply bindC_Ok in H as ([] & s4 & H4 & H). apply emit_added in H4 as [= HO4 HF4 HP4 HU4]; [|congruence|done].
  apply bindC_Ok in H as ([] & s5 & H5 & H). apply emit_added in H5 as [= HO5 HF5 HP5 HU5]; [|congruence|done].
  set (l := newLabel labelKindHeader (frameID f)) in *.
  assert (Hl : proper l) by (apply proper_newLabel; [unfold labelKindHeader|]; lia).
  assert (H5 : labels_ok s5).
  { assert (HO5' : Operations s5 = Operations s ++ [newOperationBr l; newOperationLabel l]).
    { rewrite HO5, HO4, HO3, HO2, HO. by rewrite <- app_assoc. }
    assert (Hg : l ∈ given (Operations s5)) by (rewrite HO5', given_app; set_solver).
    apply (push_ok s s5 f [newOperationBr l; newOperationLabel l] []); rewrite ?app_nil_r; try congruence.
    - by repeat constructor.
    - constructor.
    - by split.
    - constructor; [|constructor]. by right; left. }
  destruct ensureTermination; [|by injection H as <- <-].
  eapply plainStep_labels; [|exact H5]. eapply plain_emit; [|exact H]. by repeat split.
Qed.

Lemma compileIf_keeps : keeps (compileIf enabledFeatures types needSourceOffset bodyOffsetInCodeSection).
Proof.
  apply keeps_bind; [apply plain_readBlockTypeC|]. intros bt. apply keeps_reachable; [apply plain_keeps, plain_skipBlock|].
  intros s a s' Hok Hne Hu H. apply newBlock_run in H as (f & s1 & H & [= HO HF HP HU] & Hid & Hk).
  apply bindC_Ok in H as ([] & s2 & H2 & H). apply pushFrame_run in H2 as [= HO2 HF2 HP2 HU2]. cbv zeta in H.
  apply bindC_Ok in H as ([] & s3 & H3 & H). apply calm_callLabelTimes in H3 as [= HO3 HF3 HP3 HU3].
  apply bindC_Ok in H as ([] & s4 & H4 & H). apply calm_callLabelTimes in H4 as [= HO4 HF4 HP4 HU4].
  apply bindC_Ok in H as ([] & s5 & H5 & H). apply emit_added in H5 as [= HO5 HF5 HP5 HU5]; [|congruence|done].
  apply emit_added in H as [= HO6 HF6 HP6 HU6]; [|congruence|done].
  set (t := newLabel labelKindHeader (frameID f)) in *. set (e := newLabel labelKindElse (frameID f)) in *.
  assert (Ht : proper t) by (apply proper_newLabel; [unfold labelKindHeader|]; lia).
  assert (He : proper e) by (apply proper_newLabel; [unfold labelKindElse|]; lia).
  assert (HO6' : Operations s' = Operations s ++ [newOperationBrIf t e nopinclusiveRange; newOperationLabel t]).
  { rewrite HO6, HO5, HO4, HO3, HO2, HO. by rewrite <- app_assoc. }
  apply (push_ok s s' f [newOperationBrIf t e nopinclusiveRange; newOperationLabel t] []); rewrite ?app_nil_r; try congruence.
  - by repeat constructor.
  - constructor.
  - split; [done|]. by rewrite Hk.
  - constructor; [|constructor; [|constructor]].
    + right; left. rewrite HO6', given_app. set_solver.
    + right; right. rewrite HF6, HF5, HF4, HF3, HF2. unfold due, owed. simpl. rewrite Hk. set_solver.
Qed.

(** The innermost frame [f] replaced by [fs] (none or one frame), after the operations [l]. *)
Lemma replace_top_ok s s' f rest fs l :
  labels_ok s -> controlFrames s = f :: rest -> controlFrames s' = fs ++ rest ->
  Operations s' = Operations s ++ l -> PendingExceptionTable s' = PendingExceptionTable s ->
  Forall op_ok l -> Forall (frame_ok (Operations s')) fs ->
  (rest = [] -> fs = []) ->
  Forall (covered (Operations s') (controlFrames s')) (owed f) ->
  Forall (covered (Operations s') (controlFrames s')) (flat_map refs l) -> labels_ok s'.
Proof.
  intros Hok Hf HF HO HP Hl Hfs Hrest Howed Hrefs.
  apply (labels_step s s' l []); rewrite ?app_nil_r; auto.
  - rewrite HF. apply Forall_app. split; [done|]. pose proof (lo_frames _ Hok) as Hall. rewrite Hf in Hall. rewrite HO.
    eapply Forall_impl; [by inversion Hall|intros; by apply frame_ok_app].
  - rewrite HF. intros g Hg. apply (lo_function _ Hok). rewrite Hf.
    destruct rest as [|h rest]; [by rewrite Hrest in Hg by done|]. rewrite last_cons_cons.
    by rewrite last_app_cons in Hg.
  - intros x Hx. rewrite Hf in Hx. unfold due in Hx. simpl in Hx. apply elem_of_app in Hx as [Hx|Hx].
    + by eapply Forall_forall in Howed.
    + right; right. rewrite HF. unfold due. rewrite flat_map_app. set_solver.
  - unfold wanted. by rewrite app_nil_r.
Qed.

Lemma topFrame_run s f s' : topFrame s = Ok (f, s') -> s' = s /\ exists rest, controlFrames s = f :: rest.
Proof.
  intros H. apply getFrame_run in H as (-> & _ & Hf). split; [done|].
  destruct (controlFrames s) as [|g rest]; [done|]. injection Hf as ->. by exists rest.
Qed.

Lemma popFrame_run s f s' : popFrame s = Ok (f, s') ->
  exists rest, controlFrames s = f :: rest /\ seen s' = (Operations s, rest, PendingExceptionTable s, isUnreachable s).
Proof.
  intros H. apply bindC_Ok in H as (g & s1 & H1 & H). apply topFrame_run in H1 as (-> & rest & Hf).
  injection H as <- <-. exists rest. split; [done|]. unfold seen. simpl. by rewrite Hf.
Qed.

Lemma frame_of_top s f rest : labels_ok s -> controlFrames s = f :: rest -> 0 <= frameID f < 2 ^ 32.
Proof. intros Hok Hf. pose proof (lo_frames _ Hok) as H. rewrite Hf in H. by inversion H as [|? ? [? ?]]. Qed.

Lemma proper_frame k s f rest : labels_ok s -> controlFrames s = f :: rest -> 0 <= k < 4 -> proper (newLabel k (frameID f)).
Proof. intros Hok Hf Hk. apply proper_newLabel; [done|]. by eapply frame_of_top. Qed.

Ltac each := repeat first [apply Forall_nil_2 | apply Forall_cons_2].

(** What an else adds, in the two cases: the labels are covered. *)
Lemma else_ok s s' f rest l :
  labels_ok s -> controlFrames s = f :: rest -> rest <> [] ->
  controlFrames s' = set_frameKind controlFrameKindIfWithElse f :: rest ->
  Operations s' = Operations s ++ l ++ [newOperationLabel (newLabel labelKindElse (frameID f))] ->
  PendingExceptionTable s' = PendingExceptionTable s -> Forall op_ok l ->
  Forall (fun x => x = newLabel labelKindContinuation (frameID f)) (flat_map refs l) -> labels_ok s'.
Proof.
  intros Hok Hf Hne HF HO HP Hl Hrefs.
  assert (Helse : covered (Operations s') (controlFrames s') (newLabel labelKindElse (frameID f))).
  { right; left. rewrite HO, !given_app. set_solver. }
  assert (Hcont : covered (Operations s') (controlFrames s') (newLabel labelKindContinuation (frameID f))).
  { right; right. rewrite HF. unfold due, owed. simpl. set_solver. }
  eapply (replace_top_ok s s' f rest [_] _ Hok Hf HF HO HP).
  - apply Forall_app. split; [done|]. constructor; [|constructor].
    split; [constructor|]. split; [|done]. constructor; [|constructor].
    eapply proper_frame; [done..|]. unfold labelKindElse. lia.
  - constructor; [|constructor]. split; [exact (frame_of_top s f rest Hok Hf)|done].
  - by intros ->.
  - unfold owed. destruct (frameKind f); each; done.
  - rewrite flat_map_app. apply Forall_app. split; [|constructor].
    eapply Forall_impl; [exact Hrefs|]. by intros x ->.
Qed.

Lemma compileElse_keeps s a s' : labels_ok s -> (2 <= length (controlFrames s))%nat ->
  compileElse needSourceOffset bodyOffsetInCodeSection s = Ok (a, s') -> labels_ok s'.
Proof.
  intros Hok Hlen H. apply bindC_Ok in H as (f & s1 & H1 & H). apply topFrame_run in H1 as (-> & rest & Hf).
  apply bindC_Ok in H as (s1 & s2 & [= <- <-] & H). unfold id in H.
  assert (Hne : rest <> []) by (intros ->; rewrite Hf in Hlen; simpl in Hlen; lia).
  destruct (isUnreachable s && _); [by injection H as <- <-|].
  destruct (isUnreachable s) eqn:Hu.
  - apply bindC_Ok in H as ([] & s2 & H2 & H). apply calm_stackSwitchAt in H2 as [= HO2 HF2 HP2 HU2].
    apply bindC_Ok in H as ([] & s3 & [= <-] & H).
    apply bindC_Ok in H as ([] & s4 & H4 & H). apply calm_pushTypes in H4 as [= HO4 HF4 HP4 HU4]. simpl in *.
    apply bindC_Ok in H as ([] & s5 & [= <-] & H).
    apply emit_added in H as [= HO6 HF6 HP6 HU6]; [|done|done]. simpl in *.
    apply (else_ok s s' f rest []); try done; try congruence.
    + by rewrite HF6, HF4, HF2, Hf.
    + simpl. congruence.
  - cbv zeta in H. apply bindC_Ok in H as ([] & s3 & [= <-] & H).
    apply bindC_Ok in H as (r & s4 & H4 & H). apply calm_getFrameDropRange in H4 as [= HO4 HF4 HP4 HU4].
    apply bindC_Ok in H as ([] & s5 & H5 & H). apply calm_stackSwitchAt in H5 as [= HO5 HF5 HP5 HU5].
    apply bindC_Ok in H as ([] & s6 & H6 & H). apply calm_pushTypes in H6 as [= HO6 HF6 HP6 HU6].
    apply bindC_Ok in H as ([] & s7 & H7 & H). apply calm_callLabelTimes in H7 as [= HO7 HF7 HP7 HU7]. simpl in *.
    apply bindC_Ok in H as ([] & s8 & H8 & H). apply emit_drop in H8 as (dl & [= HO8 HF8 HP8 HU8] & Hdl).
    apply bindC_Ok in H as ([] & s9 & H9 & H).
    apply emit_added in H9 as [= HO9 HF9 HP9 HU9]; [|unfold isUnreachable in *; simpl in *; congruence|done].
    apply emit_added in H as [= HO10 HF10 HP10 HU10]; [|unfold isUnreachable in *; simpl in *; congruence|done].
    apply (else_ok s s' f rest (dl ++ [newOperationBr (newLabel labelKindContinuation (frameID f))])); try done; try congruence.
    + rewrite HF10, HF9, HF8, HF7, HF6, HF5, HF4, Hf. done.
    + rewrite HO10, HO9, HO8, HO7, HO6, HO5, HO4, <- !app_assoc. done.
    + apply Forall_app. split; [eapply Forall_impl; [exact Hdl|apply plainOp_ok]|]. constructor; [|constructor].
      split; [|by repeat constructor]. constructor; [|constructor].
      eapply proper_frame; [done..|]. unfold labelKindContinuation. lia.
    + rewrite flat_map_app. apply Forall_app. split; [|by repeat constructor].
      pose proof (plain_wanted _ Hdl) as Hw. unfold wanted in Hw. rewrite app_nil_r in Hw. by rewrite Hw.
Qed.

(** The innermost frame [f] is closed: the operations [l] define what it owes. *)
Lemma close_ok s s' f rest l :
  labels_ok s -> controlFrames s = f :: rest -> controlFrames s' = rest ->
  Operations s' = Operations s ++ l -> PendingExceptionTable s' = PendingExceptionTable s ->
  Forall op_ok l -> Forall (fun x => x ∈ given l) (owed f) ->
  Forall (fun x => x = returnLabel \/ x ∈ given l) (flat_map refs l) -> labels_ok s'.
Proof.
  intros Hok Hf HF HO HP Hl Howed Hrefs.
  assert (Hc : forall x, x = returnLabel \/ x ∈ given l -> covered (Operations s') (controlFrames s') x).
  { intros x [->|Hx]; [by left|]. right; left. rewrite HO, given_app. set_solver. }
  apply (replace_top_ok s s' f rest [] l); try done.
  - eapply Forall_impl; [exact Howed|auto].
  - eapply Forall_impl; [exact Hrefs|auto].
Qed.

(** The labels of the frame [f] in the operations that close it. *)
Lemma labelOps_ok s f rest (ks : list (unionOperation * Z)) :
  labels_ok s -> controlFrames s = f :: rest ->
  Forall (fun p => 0 <= snd p < 4 /\
                   (fst p = newOperationBr (newLabel (snd p) (frameID f)) \/ fst p = newOperationLabel (newLabel (snd p) (frameID f)))) ks ->
  Forall op_ok (map fst ks).
Proof.
  intros Hok Hf Hks. apply Forall_map. eapply Forall_impl; [exact Hks|]. intros [op k] [Hk Hop]. simpl in *.
  assert (Hp : proper (newLabel k (frameID f))) by (by eapply proper_frame).
  destruct Hop as [->| ->]; split_and!; by repeat constructor.
Qed.

Abbreviation Br_ f k := (newOperationBr (newLabel k (frameID f))).
Abbreviation Label_ f k := (newOperationLabel (newLabel k (frameID f))).
Abbreviation Else_ := labelKindElse.
Abbreviation Cont_ := labelKindContinuation.

Lemma label_ops1_ok s f rest : labels_ok s -> controlFrames s = f :: rest ->
  Forall op_ok [Br_ f Cont_; Label_ f Else_; Br_ f Cont_; Label_ f Cont_].
Proof.
  intros Hok Hf. apply (labelOps_ok s f rest [(_, Cont_); (_, Else_); (_, Cont_); (_, Cont_)] Hok Hf).
  each; unfold labelKindElse, labelKindContinuation; simpl; (split; [lia|auto]).
Qed.

(** Solves the side conditions of [close_ok]. *)
Ltac close_side :=
  each; first [done | set_solver | right; set_solver | left; done].

Lemma drops_ok dl : Forall plainOp dl -> Forall op_ok dl /\ flat_map refs dl = [].
Proof.
  intros Hdl. split; [eapply Forall_impl; [exact Hdl|apply plainOp_ok]|].
  pose proof (plain_wanted _ Hdl) as Hw. unfold wanted in Hw. by rewrite app_nil_r in Hw.
Qed.

(** Reachable code ends in the frame [f], which has been popped. *)
Section Close.
Context (f : controlFrame) (r : inclusiveRange) (s0 s : cstate) (rest : list controlFrame).
Hypothesis Hok : labels_ok s0.
Hypothesis Hf : controlFrames s0 = f :: rest.
Hypothesis Hs : seen s = (Operations s0, rest, PendingExceptionTable s0, false).

Lemma endDrop_run a s' : owed f = [] -> emit' (newOperationDrop r) s = Ok (a, s') -> labels_ok s'.
Proof.
  intros Ho H. injection Hs as HO HF HP HU. apply emit_drop in H as (dl & [= HO2 HF2 HP2 HU2] & Hdl).
  destruct (drops_ok dl Hdl) as [Hd1 Hd2]. apply (close_ok s0 s' f rest dl); try done; try congruence.
  - by rewrite Ho.
  - by rewrite Hd2.
Qed.

Lemma endContinuation_run a s' : owed f = [newLabel Cont_ (frameID f)] ->
  (_ ← callLabel (newLabel Cont_ (frameID f)); _ ← emit' (newOperationDrop r); _ ← emit' (Br_ f Cont_); emit' (Label_ f Cont_)) s = Ok (a, s') ->
  labels_ok s'.
Proof.
  intros Ho H. injection Hs as HO HF HP HU.
  pose proof (label_ops1_ok _ _ _ Hok Hf) as Hl. rewrite !Forall_cons in Hl. destruct Hl as (HbC & _ & _ & HlC & _).
  apply bindC_Ok in H as ([] & s1 & H1 & H). apply calm_callLabelTimes in H1 as [= HO1 HF1 HP1 HU1].
  apply bindC_Ok in H as ([] & s2 & H2 & H). apply emit_drop in H2 as (dl & [= HO2 HF2 HP2 HU2] & Hdl).
  apply bindC_Ok in H as ([] & s3 & H3 & H). apply emit_added in H3 as [= HO3 HF3 HP3 HU3]; [|congruence|done].
  apply emit_added in H as [= HO4 HF4 HP4 HU4]; [|congruence|done]. destruct (drops_ok dl Hdl) as [Hd1 Hd2].
  apply (close_ok s0 s' f rest (dl ++ [Br_ f Cont_; Label_ f Cont_])); try done; try congruence.
  - by rewrite HO4, HO3, HO2, HO1, HO, <- !app_assoc.
  - apply Forall_app. split; [done|]. by each.
  - rewrite Ho, given_app. close_side.
  - rewrite flat_map_app, Hd2, given_app. close_side.
Qed.

Lemma endFunction_run a s' : owed f = [] ->
  (_ ← emit' (newOperationDrop r); emit' (newOperationBr returnLabel)) s = Ok (a, s') -> labels_ok s'.
Proof.
  intros Ho H. injection Hs as HO HF HP HU.
  apply bindC_Ok in H as ([] & s3 & H3 & H). apply emit_drop in H3 as (dl & [= HO3 HF3 HP3 HU3] & Hdl).
  apply emit_added in H as [= HO4 HF4 HP4 HU4]; [|congruence|done]. destruct (drops_ok dl Hdl) as [Hd1 Hd2].
  apply (close_ok s0 s' f rest (dl ++ [newOperationBr returnLabel])); try done; try congruence.
  - by rewrite HO4, HO3, HO, <- !app_assoc.
  - apply Forall_app. split; [done|]. each. split; [|done]. each. apply proper_newLabel; [unfold labelKindReturn|]; lia.
  - by rewrite Ho.
  - rewrite flat_map_app, Hd2. close_side.
Qed.

Lemma endIf_run a s' : frameKind f = controlFrameKindIfWithoutElse ->
  (_ ← callLabelTimes 2 (newLabel Cont_ (frameID f)); _ ← emit' (newOperationDrop r); _ ← emit' (Br_ f Cont_);
   _ ← emit' (Label_ f Else_); _ ← emit' (Br_ f Cont_); emit' (Label_ f Cont_)) s = Ok (a, s') ->
  labels_ok s'.
Proof.
  intros Hk H. injection Hs as HO HF HP HU.
  apply bindC_Ok in H as ([] & s1 & H1 & H). apply calm_callLabelTimes in H1 as [= HO1 HF1 HP1 HU1].
  apply bindC_Ok in H as ([] & s2 & H2 & H). apply emit_drop in H2 as (dl & [= HO2 HF2 HP2 HU2] & Hdl).
  apply bindC_Ok in H as ([] & s3 & H3 & H). apply emit_added in H3 as [= HO3 HF3 HP3 HU3]; [|congruence|done].
  apply bindC_Ok in H as ([] & s4 & H4 & H). apply emit_added in H4 as [= HO4 HF4 HP4 HU4]; [|congruence|done].
  apply bindC_Ok in H as ([] & s5 & H5 & H). apply emit_added in H5 as [= HO5 HF5 HP5 HU5]; [|congruence|done].
  apply emit_added in H as [= HO6 HF6 HP6 HU6]; [|congruence|done]. destruct (drops_ok dl Hdl) as [Hd1 Hd2].
  apply (close_ok s0 s' f rest (dl ++ [Br_ f Cont_; Label_ f Else_; Br_ f Cont_; Label_ f Cont_])); try done; try congruence.
  - by rewrite HO6, HO5, HO4, HO3, HO2, HO1, HO, <- !app_assoc.
  - apply Forall_app. split; [done|]. by eapply label_ops1_ok.
  - unfold owed. rewrite Hk, given_app. close_side.
  - rewrite flat_map_app, Hd2, given_app. close_side.
Qed.

Lemma endFrame_run a s' : endFrame needSourceOffset bodyOffsetInCodeSection f (newOperationDrop r) s = Ok (a, s') -> labels_ok s'.
Proof.
  intros H. unfold endFrame in H. cbv zeta in H. destruct (frameKind f) eqn:Hk; [| | | | | |].
  - eapply endContinuation_run; [|exact H]. unfold owed. by rewrite Hk.
  - eapply endDrop_run; [|exact H]. unfold owed. by rewrite Hk.
  - apply bindC_Ok in H as (fs & s1 & [= <- <-] & H). apply bindC_Ok in H as ([] & s2 & H2 & H).
    assert (s2 = s) as -> by (destruct (controlFrames s); [by injection H2|discriminate]).
    eapply endFunction_run; [|exact H]. unfold owed. by rewrite Hk.
  - eapply endDrop_run; [|exact H]. unfold owed. by rewrite Hk.
  - eapply endContinuation_run; [|exact H]. unfold owed. by rewrite Hk.
  - by eapply endIf_run.
  - eapply endContinuation_run; [|exact H]. unfold owed. by rewrite Hk.
Qed.
End Close.

(** The labels that the end of unreachable code defines. *)
Lemma endLabels_run f s a s' l0 fs ps :
  seen s = (l0, fs, ps, false) ->
  (match frameKind f with
   | controlFrameKindIfWithoutElse =>
       _ ← callLabel (newLabel Cont_ (frameID f)); _ ← emit' (Label_ f Else_); _ ← emit' (Br_ f Cont_); emit' (Label_ f Cont_)
   | _ => emit' (Label_ f Cont_)
   end) s = Ok (a, s') ->
  exists l, seen s' = (l0 ++ l, fs, ps, false) /\
    (l = [Label_ f Cont_] /\ frameKind f <> controlFrameKindIfWithoutElse \/ l = [Label_ f Else_; Br_ f Cont_; Label_ f Cont_]).
Proof.
  intros [= <- <- <- HU] H.
  assert (Hother : emit' (Label_ f Cont_) s = Ok (a, s') ->
            seen s' = (Operations s ++ [Label_ f Cont_], controlFrames s, PendingExceptionTable s, false)).
  { intros H'. apply emit_added in H'; [|done|done]. by rewrite H', HU. }
  destruct (frameKind f) eqn:Hk; try (exists [Label_ f Cont_]; split; [by apply Hother|by left]).
  apply bindC_Ok in H as ([] & s1 & H1 & H). apply calm_callLabelTimes in H1 as [= HO1 HF1 HP1 HU1].
  apply bindC_Ok in H as ([] & s3 & H3 & H). apply emit_added in H3 as [= HO3 HF3 HP3 HU3]; [|congruence|done].
  apply bindC_Ok in H as ([] & s4 & H4 & H). apply emit_added in H4 as [= HO4 HF4 HP4 HU4]; [|congruence|done].
  apply emit_added in H as [= HO6 HF6 HP6 HU6]; [|congruence|done].
  exists [Label_ f Else_; Br_ f Cont_; Label_ f Cont_]. split; [|by right].
  unfold seen. rewrite HO6, HO4, HO3, HO1, <- !app_assoc, HF6, HF4, HF3, HF1, HP6, HP4, HP3, HP1, HU6, HU4, HU3, HU1, HU. done.
Qed.

Lemma compileEnd_keeps : keeps (compileEnd needSourceOffset bodyOffsetInCodeSection).
Proof.
  intros s a s' Hok Hne H. apply bindC_Ok in H as (s1 & s2 & [= <- <-] & H). unfold id in H.
  destruct (isUnreachable s && _).
  { apply bindC_Ok in H as ([] & s2 & [= <-] & [= <- <-]). eapply plainStep_labels; [|exact Hok].
    split; [done..|]. exists []. by rewrite app_nil_r. }
  destruct (isUnreachable s) eqn:Hu.
  - apply bindC_Ok in H as ([] & s2 & [= <-] & H).
    apply bindC_Ok in H as (f & s3 & H3 & H). apply popFrame_run in H3 as (rest & Hf & [= HO3 HF3 HP3 HU3]). simpl in *.
    apply bindC_Ok in H as (fs & s4 & [= <- <-] & H). rewrite HF3 in H.
    destruct rest as [|g rest].
    { injection H as <- <-. apply (close_ok s s3 f [] []); rewrite ?app_nil_r; try done.
      unfold owed. by rewrite (lo_function _ Hok f) by (by rewrite Hf). }
    apply bindC_Ok in H as ([] & s4 & H4 & H). apply calm_stackSwitchAt in H4 as [= HO4 HF4 HP4 HU4].
    apply bindC_Ok in H as ([] & s5 & H5 & H). apply calm_pushTypes in H5 as [= HO5 HF5 HP5 HU5].
    apply bindC_Ok in H as ([] & s6 & H6 & [= <- <-]).
    eapply (endLabels_run f s5 _ s6 (Operations s) (g :: rest) (PendingExceptionTable s)) in H6 as (l & [= HO6 HF6 HP6 _] & Hl).
    2:{ unfold seen. rewrite HO5, HO4, HO3, HF5, HF4, HF3, HP5, HP4, HP3, HU5, HU4, HU3. done. }
    pose proof (label_ops1_ok _ _ _ Hok Hf) as Hops. rewrite !Forall_cons in Hops. destruct Hops as (HbC & HlE & _ & HlC & _).
    apply (close_ok s s6 f (g :: rest) l); try done; destruct Hl as [[-> Hk]| ->]; try (by each).
    + unfold owed. destruct (frameKind f); try done; close_side.
    + unfold owed. destruct (frameKind f); close_side.
    + close_side.
  - apply bindC_Ok in H as (f & s3 & H3 & H). apply popFrame_run in H3 as (rest & Hf & [= HO3 HF3 HP3 HU3]).
    apply bindC_Ok in H as (r & s4 & H4 & H). apply calm_getFrameDropRange in H4 as [= HO4 HF4 HP4 HU4].
    apply bindC_Ok in H as ([] & s5 & H5 & H). apply calm_stackSwitchAt in H5 as [= HO5 HF5 HP5 HU5].
    apply bindC_Ok in H as ([] & s6 & H6 & H). apply calm_pushTypes in H6 as [= HO6 HF6 HP6 HU6].
    apply bindC_Ok in H as ([] & s7 & H7 & [= <- <-]). eapply (endFrame_run f r s s6 rest Hok Hf); [|exact H7].
    unfold seen. congruence.
Qed.

(** ** Branches and calls that leave the function *)

Lemma grows_nonempty s s' : grows s s' -> controlFrames s <> [] -> controlFrames s' <> [].
Proof. intros [_ _ _ HF] Hne Hnil. rewrite Hnil in HF. by inversion HF. Qed.

Lemma plain_then {A B} (m : C A) (k : A -> C B) s b s' : plain m -> labels_ok s -> mbind k m s = Ok (b, s') ->
  exists a s1, labels_ok s1 /\ plainStep s s1 /\ k a s1 = Ok (b, s').
Proof.
  intros Hm Hok H. apply bindC_Ok in H as (a & s1 & H1 & H). apply Hm in H1. exists a, s1. split; [|done]. by eapply plainStep_labels.
Qed.

Lemma plain_drop r : plain (emit' (newOperationDrop r)).
Proof. apply plain_emit. by repeat split. Qed.

Lemma covered_plain s s' x : plainStep s s' -> covered (Operations s) (controlFrames s) x -> covered (Operations s') (controlFrames s') x.
Proof. intros [HF _ (l & HO & _)] H. rewrite HF, HO. by apply covered_app. Qed.

Lemma br_ok l : proper l -> op_ok (newOperationBr l).
Proof. intros Hl. split_and!; [by each|constructor|done]. Qed.

Lemma compileBr_keeps : keeps (compileBr needSourceOffset bodyOffsetInCodeSection).
Proof.
  apply keeps_bind; [apply plain_readIndex|]. intros n. apply keeps_reachable; [apply plain_keeps, plain_ret|].
  intros s a s' Hok Hne Hu H. apply bindC_Ok in H as ([r l] & s1 & H1 & H).
  apply branchTarget_run in H1 as (Hg & Hp & Hc); [|done]. assert (Hok1 : labels_ok s1) by (by eapply labels_grows).
  eapply plain_then in H as (? & s2 & Hok2 & Hs2 & H); [|apply plain_callLabel|done].
  eapply plain_then in H as (? & s3 & Hok3 & Hs3 & H); [|apply plain_drop|done].
  apply bindC_Ok in H as ([] & s4 & H4 & H). apply emit_covered in H4; [|done|by apply br_ok|].
  - eapply plainStep_labels; [|exact H4]. by eapply plain_markUnreachable.
  - each. eapply covered_plain; [done|]. by eapply covered_plain.
Qed.

(** The operations of a conditional branch. *)
Definition twoWay (op : label -> label -> inclusiveRange -> unionOperation) : Prop := forall t e r,
  refs (op t e r) = [t; e] /\ defs (op t e r) = [] /\ twoUs (op t e r) /\ OpKind (op t e r) <> operationKindDrop.

Lemma branchOrContinue_run op n s a s' : twoWay op -> labels_ok s -> isUnreachable s = false ->
  branchOrContinue needSourceOffset bodyOffsetInCodeSection op n s = Ok (a, s') -> labels_ok s'.
Proof.
  intros Hop Hok Hu H. apply bindC_Ok in H as ([r l] & s1 & H1 & H).
  apply branchTarget_run in H1 as (Hg & Hp & Hc); [|done]. assert (Hok1 : labels_ok s1) by (by eapply labels_grows).
  apply bindC_Ok in H as ([] & s2 & H2 & H). apply calm_callLabelTimes in H2 as [= HO2 HF2 HP2 HU2].
  apply bindC_Ok in H as (id & s3 & H3 & H). apply nextFrameID_run in H3 as [[= HO3 HF3 HP3 HU3] Hid]. cbv zeta in H.
  set (c := newLabel labelKindHeader id) in *. destruct (Hop l c r) as (Hr & Hd & Ht & Hk).
  apply bindC_Ok in H as ([] & s4 & H4 & H). apply calm_callLabelTimes in H4 as [= HO4 HF4 HP4 HU4].
  pose proof (gr_unreachable _ _ Hg) as HU1.
  apply bindC_Ok in H as ([] & s5 & H5 & H). apply emit_added in H5 as [= HO5 HF5 HP5 HU5]; [|congruence|done].
  apply emit_added in H as [= HO6 HF6 HP6 HU6]; [|congruence|done].
  assert (Hpc : proper c) by (apply proper_newLabel; [unfold labelKindHeader|]; lia).
  assert (HO' : Operations s' = Operations s1 ++ [op l c r; newOperationLabel c]).
  { rewrite HO6, HO5, HO4, HO3, HO2. by rewrite <- app_assoc. }
  assert (HF' : controlFrames s' = controlFrames s1) by congruence.
  apply (labels_step s1 s' [op l c r; newOperationLabel c] []); rewrite ?app_nil_r; try done; try congruence.
  - each; split_and!; rewrite ?Hr, ?Hd; by each.
  - rewrite HF', HO'. eapply Forall_impl; [apply (lo_frames _ Hok1)|intros; by apply frame_ok_app].
  - rewrite HF'. apply (lo_function _ Hok1).
  - intros x Hx. right; right. by rewrite HF'.
  - unfold wanted. simpl. rewrite Hr. simpl. each; rewrite HF', HO'; [by apply covered_app|].
    right; left. rewrite given_app. set_solver.
Qed.

Lemma compileBrIf_keeps : keeps (compileBrIf needSourceOffset bodyOffsetInCodeSection).
Proof.
  apply keeps_bind; [apply plain_readIndex|]. intros n. apply keeps_reachable; [apply plain_keeps, plain_ret|].
  intros s a s' Hok Hne Hu H. eapply branchOrContinue_run; [|exact Hok|exact Hu|exact H]. intros t e r. by split_and!.
Qed.
Lemma compileBrOnNonNull_keeps : keeps (compileBrOnNonNull needSourceOffset bodyOffsetInCodeSection).
Proof.
  apply keeps_bind; [apply plain_readIndex|]. intros n. apply keeps_reachable; [apply plain_keeps, plain_ret|].
  intros s a s' Hok Hne Hu H. eapply branchOrContinue_run; [|exact Hok|exact Hu|exact H]. intros t e r. by split_and!.
Qed.
Lemma compileBrOnNull_keeps : keeps (compileBrOnNull needSourceOffset bodyOffsetInCodeSection).
Proof.
  apply keeps_bind; [apply plain_readIndex|]. intros n. apply keeps_reachable; [apply plain_keeps, plain_ret|].
  intros s a s' Hok Hne Hu H. apply bindC_Ok in H as ([] & s1 & H1 & H). apply branchOrContinue_run in H1; [|intros t e r; by split_and!|done..].
  eapply plainStep_labels; [|exact H1]. by eapply plain_pushC.
Qed.

Lemma evens_pair {A} (x y : A) l : evens ([x; y] ++ l) = x :: evens l.
Proof. done. Qed.

Lemma tableTargets_run fuel n r s ts s' : labels_ok s -> tableTargets fuel n r s = Ok (ts, s') ->
  labels_ok s' /\ isUnreachable s' = isUnreachable s /\ (controlFrames s <> [] -> controlFrames s' <> []) /\
  (forall x, covered (Operations s) (controlFrames s) x -> covered (Operations s') (controlFrames s') x) /\
  Forall (fun x => proper x /\ covered (Operations s') (controlFrames s') x) (evens ts).
Proof.
  revert n r s ts s'. induction fuel as [|fuel IH]; intros n r s ts s' Hok H; simpl in H.
  { destruct (n <=? 0); [|discriminate]. injection H as <- <-. by split_and!; auto. }
  destruct (n <=? 0); [injection H as <- <-; by split_and!; auto|].
  apply bindC_Ok in H as ([l r'] & s1 & H1 & H).
  assert (Hs1 : seen s1 = seen s).
  { unfold tableLabel in H1. apply bindC_Ok in H1 as ([[v k] b] & s0 & H0 & H1). apply calm_liftC in H0.
    apply bindC_Ok in H1 as ([] & s3 & H3 & [= _ _ <-]). unfold advanceC in H3. injection H3 as <-. rewrite <- H0. done. }
  apply bindC_Ok in H as (t & s2 & H2 & H). unfold tableTarget in H2.
  apply bindC_Ok in H2 as ([rg target] & s3 & H3 & H2). assert (Hok1 : labels_ok s1).
  { eapply labels_grows; [exact Hok|by apply seen_grows]. }
  apply branchTarget_run in H3 as (Hg & Hp & Hc); [|done].
  apply bindC_Ok in H2 as ([] & s4 & H4 & [= <- <-]). apply calm_callLabelTimes in H4.
  assert (Hg' : grows s s4) by (transitivity s1; [by apply seen_grows|]; transitivity s3; [done|by apply seen_grows]).
  assert (Hok4 : labels_ok s4) by exact (labels_grows s s4 Hok Hg').
  apply bindC_Ok in H as (ts' & s5 & H5 & [= <- <-]). apply IH in H5 as (Hok5 & HU5 & Hne5 & Hmono & Hall); [|done].
  split_and!; [done|rewrite HU5; apply Hg'| | |].
  - intros Hne. by apply Hne5, (grows_nonempty s).
  - intros x Hx. apply Hmono. by eapply covered_grows.
  - simpl. each; [|done]. split; [done|]. apply Hmono. eapply covered_grows; [by apply seen_grows|done].
Qed.

Lemma compileBrTable_keeps : keeps (compileBrTable needSourceOffset bodyOffsetInCodeSection).
Proof.
  apply keeps_bind; [apply plain_bodyFromC|]. intros b. apply keeps_bind; [apply plain_liftC|]. intros [[numTargets n] r].
  apply keeps_bind; [apply plain_advanceC|]. intros _. apply keeps_reachable; [apply plain_keeps, plain_skipLabels|].
  intros s a s' Hok Hne Hu H. apply bindC_Ok in H as (ts & s1 & H1 & H).
  apply tableTargets_run in H1 as (Hok1 & _ & _ & _ & Hall); [|done].
  apply bindC_Ok in H as ([] & s2 & H2 & H). apply emit_covered in H2; [|done| |].
  - eapply plainStep_labels; [|exact H2]. by eapply plain_markUnreachable.
  - split_and!; [|constructor|done]. eapply Forall_impl; [exact Hall|]. by intros x [? ?].
  - eapply Forall_impl; [exact Hall|]. by intros x [? ?].
Qed.

(** [functionFrame] is the frame of the function, so its label is the return label. *)
Lemma functionFrame_run s f s' : labels_ok s -> functionFrame s = Ok (f, s') -> s' = s /\ asLabel f = returnLabel.
Proof.
  intros Hok H. unfold functionFrame in H. apply bindC_Ok in H as (fs & s1 & [= <- <-] & H). unfold liftC in H.
  destruct (last (controlFrames s)) as [g|] eqn:Hg; [|discriminate]. injection H as <- <-. split; [done|].
  unfold asLabel. by rewrite (lo_function _ Hok g Hg).
Qed.

Lemma proper_return : proper returnLabel.
Proof. apply proper_newLabel; [unfold labelKindReturn|]; lia. Qed.

Lemma emit_return_keeps op s a s' : labels_ok s -> refs op = [returnLabel] -> defs op = [] -> twoUs op ->
  emit' op s = Ok (a, s') -> labels_ok s'.
Proof.
  intros Hok Hr Hd Ht H. eapply emit_covered; [exact Hok| | |exact H].
  - split_and!; rewrite ?Hr, ?Hd; [|constructor|done]. each. apply proper_return.
  - rewrite Hr. each. by left.
Qed.

Lemma mark_keeps s a s' : labels_ok s -> markUnreachable s = Ok (a, s') -> labels_ok s'.
Proof. intros Hok H. eapply plainStep_labels; [|exact Hok]. by eapply plain_markUnreachable. Qed.

Lemma compileReturn_keeps : keeps (compileReturn needSourceOffset bodyOffsetInCodeSection).
Proof.
  intros s a s' Hok Hne H. apply bindC_Ok in H as (f & s1 & H1 & H). apply functionFrame_run in H1 as [-> Hl]; [|done].
  eapply plain_then in H as (r & s2 & Hok2 & _ & H); [|apply plain_getFrameDropRange|done].
  eapply plain_then in H as (? & s3 & Hok3 & _ & H); [|apply plain_drop|done]. rewrite Hl in H.
  apply bindC_Ok in H as ([] & s4 & H4 & H). apply emit_return_keeps in H4; [|done..]. by eapply mark_keeps.
Qed.

Lemma compileReturnCall_keeps index :
  keeps (compileReturnCall importFunctionCount functionCount next ensureTermination needSourceOffset bodyOffsetInCodeSection index).
Proof.
  apply keeps_bind; [apply plain_liftC|]. intros import s a s' Hok Hne H.
  apply bindC_Ok in H as (f & s1 & H1 & H). apply functionFrame_run in H1 as [-> Hl]; [|done].
  apply bindC_Ok in H as ([] & s2 & H2 & H). eapply mark_keeps; [|exact H]. destruct import.
  - eapply plain_then in H2 as (? & s3 & Hok3 & _ & H2); [|apply plain_emit; by repeat split|done].
    eapply plain_then in H2 as (r & s4 & Hok4 & _ & H2); [|apply plain_getFrameDropRange|done].
    eapply plain_then in H2 as (? & s5 & Hok5 & _ & H2); [|apply plain_drop|done]. rewrite Hl in H2.
    by eapply emit_return_keeps in H2.
  - eapply plain_then in H2 as (? & s3 & Hok3 & _ & H2); [|destruct (_ && _); plain_run|done].
    eapply plainStep_labels; [|exact Hok3]. eapply plain_emit; [|exact H2]. by repeat split.
Qed.

Lemma compileReturnCallIndirect_keeps index : keeps (compileReturnCallIndirect needSourceOffset bodyOffsetInCodeSection index).
Proof.
  apply keeps_bind; [apply plain_readIndex|]. intros t s a s' Hok Hne H.
  apply bindC_Ok in H as (f & s1 & H1 & H). apply functionFrame_run in H1 as [-> Hl]; [|done].
  eapply plain_then in H as (r & s2 & Hok2 & _ & H); [|apply plain_getFrameDropRange|done]. rewrite Hl in H.
  apply bindC_Ok in H as ([] & s3 & H3 & H). eapply emit_return_keeps in H3; [by eapply mark_keeps|done..|]. by eexists _, _.
Qed.

Lemma compileReturnCallRef_keeps index : keeps (compileReturnCallRef needSourceOffset bodyOffsetInCodeSection index).
Proof.
  intros s a s' Hok Hne H.
  apply bindC_Ok in H as (f & s1 & H1 & H). apply functionFrame_run in H1 as [-> Hl]; [|done].
  eapply plain_then in H as (r & s2 & Hok2 & _ & H); [|apply plain_getFrameDropRange|done]. rewrite Hl in H.
  apply bindC_Ok in H as ([] & s3 & H3 & H). eapply emit_return_keeps in H3; [by eapply mark_keeps|done..|]. by eexists _, _.
Qed.

(** ** Exception tables *)

Lemma calm_advanceC n : calm (advanceC n).
Proof. unfold advanceC. calm_run. Qed.
Lemma calm_bodyFromC d : calm (bodyFromC d).
Proof. unfold bodyFromC. calm_run. Qed.
Lemma calm_bodyAtC : calm bodyAtC.
Proof. unfold bodyAtC. calm_run. Qed.
Lemma calm_readIndexNext msg : calm (readIndexNext msg).
Proof.
  unfold readIndexNext. apply calm_bind; [apply calm_advanceC|]. intros _. apply calm_bind; [apply calm_bodyFromC|].
  intros b. apply calm_bind; [apply calm_liftC|]. intros [v num]. apply calm_bind; [apply calm_advanceC|]. intros _. apply calm_ret.
Qed.
Lemma calm_parseCatchClause : calm parseCatchClause.
Proof.
  unfold parseCatchClause. apply calm_bind; [apply calm_advanceC|]. intros _. apply calm_bind; [apply calm_bodyAtC|]. intros kind.
  apply calm_bind; [destruct (one_of _ _); [apply calm_readIndexNext|apply calm_ret]|]. intros tagIdx.
  apply calm_bind; [apply calm_readIndexNext|]. intros l. apply calm_ret.
Qed.

Lemma catchClause_run s c s' : labels_ok s -> catchClause s = Ok (c, s') ->
  grows s s' /\ proper (pending_targetLabel c) /\ covered (Operations s') (controlFrames s') (pending_targetLabel c).
Proof.
  intros Hok H. apply bindC_Ok in H as ([[kind tagIdx] labelIdx] & s1 & H1 & H). apply calm_parseCatchClause in H1.
  assert (Hok1 : labels_ok s1) by (eapply labels_grows; [exact Hok|by apply seen_grows]).
  apply bindC_Ok in H as (f & s2 & H2 & H). apply getFrame_run in H2 as (-> & _ & Hf). cbv zeta in H.
  apply bindC_Ok in H as ([] & s3 & H3 & H). destruct (target_run _ _ _ _ _ Hok1 Hf H3) as (Hg & Hp & Hc).
  apply bindC_Ok in H as ([] & s4 & H4 & [= <- <-]). apply calm_callLabelTimes in H4. simpl.
  split_and!; [|done|].
  - transitivity s1; [by apply seen_grows|]. transitivity s3; [done|by apply seen_grows].
  - eapply covered_grows; [by apply seen_grows|done].
Qed.

Lemma catchClauses_run fuel n s cs s' : labels_ok s -> catchClauses fuel n s = Ok (cs, s') ->
  grows s s' /\ Forall (fun c => proper (pending_targetLabel c) /\ covered (Operations s') (controlFrames s') (pending_targetLabel c)) cs.
Proof.
  revert n s cs s'. induction fuel as [|fuel IH]; intros n s cs s' Hok H; simpl in H.
  { destruct (n <=? 0); [|discriminate]. injection H as <- <-. by split. }
  destruct (n <=? 0); [injection H as <- <-; by split|].
  apply bindC_Ok in H as (c & s1 & H1 & H). apply catchClause_run in H1 as (Hg & Hp & Hc); [|done].
  apply bindC_Ok in H as (cs' & s2 & H2 & [= <- <-]). apply IH in H2 as (Hg2 & Hall); [|by eapply labels_grows].
  split; [by etrans|]. constructor; [|done]. split; [done|]. by eapply covered_grows.
Qed.

Lemma compileTryTable_keeps : keeps (compileTryTable enabledFeatures types).
Proof.
  apply keeps_bind; [apply plain_readBlockTypeC|]. intros bt. apply keeps_reachable.
  { apply plain_keeps. plain_run. }
  intros s a s' Hok Hne Hu H. eapply plain_then in H as (n & s1 & Hok1 & Hs1 & H); [|apply plain_readIndexNext|done].
  apply bindC_Ok in H as (fuel & s2 & [= <- <-] & H). apply bindC_Ok in H as (cs & s2 & H2 & H).
  apply catchClauses_run in H2 as (Hg & Hall); [|done].
  assert (Hok2 : labels_ok s2) by (by eapply labels_grows).
  assert (Hne2 : controlFrames s2 <> []) by (eapply grows_nonempty; [done|]; by rewrite (ps_frames _ _ Hs1)).
  apply bindC_Ok in H as (id & s3 & H3 & H). apply nextFrameID_run in H3 as [[= HO3 HF3 HP3 HU3] Hid].
  apply bindC_Ok in H as ([] & s4 & [= <-] & H). apply bindC_Ok in H as (f & s5 & H5 & H).
  apply newFrame_run in H5 as ([= HO5 HF5 HP5 HU5] & Hfid & Hk). apply pushFrame_run in H as [= HO6 HF6 HP6 HU6]. simpl in *.
  apply (push_ok s2 s' f [] [mkPendingEntry (zlen (Operations s3)) id cs]); rewrite ?app_nil_r; try done; try congruence.
  - simpl. rewrite app_nil_r. constructor; [apply proper_newLabel; [unfold labelKindContinuation|]; lia|].
    apply Forall_map. eapply Forall_impl; [exact Hall|]. by intros c [? ?].
  - split; [by rewrite Hfid|]. by rewrite Hk.
  - unfold wanted. simpl. rewrite app_nil_r. constructor.
    + right; right. rewrite HF6. unfold due, owed. simpl. rewrite Hk, Hfid. set_solver.
    + apply Forall_map. eapply Forall_impl; [exact Hall|]. intros c [_ [->|[Hc|Hc]]]; [by left| |].
      * right; left. by rewrite HO6, HO5, HO3.
      * right; right. rewrite HF6, HF5, HF3. unfold due. simpl. set_solver.
Qed.

(** ** Instructions *)

Create HintDb keeps.
Hint Resolve compileBlock_keeps compileLoop_keeps compileIf_keeps compileBr_keeps compileBrIf_keeps compileBrTable_keeps
  compileReturn_keeps compileTryTable_keeps compileReturnCall_keeps compileReturnCallIndirect_keeps compileReturnCallRef_keeps
  compileBrOnNull_keeps compileBrOnNonNull_keeps : keeps.
Hint Resolve plain_compileThrow plain_compileThrowRef plain_compileCallIndirect plain_compileSelect plain_compileTypedSelect
  plain_compileLocalGet plain_compileLocalSet plain_compileLocalTee plain_compileConst plain_compileRefNull plain_compileMisc
  plain_compileVec plain_compileAtomic : plain.

Abbreviation switch_ := (operatorSwitch enabledFeatures types tags importFunctionCount functionCount next ensureTermination
  needSourceOffset bodyOffsetInCodeSection heights).

Lemma operatorSwitch_keeps op index t : op <> OpcodeElse -> keeps (switch_ op index t).
Proof.
  intros Helse%Z.eqb_neq. unfold operatorSwitch. rewrite Helse.
  repeat match goal with
  | |- keeps (if ?b then _ else _) => destruct b; [solve [auto with keeps nocore | apply plain_keeps; plain_run]|]
  end.
  apply plain_keeps. destruct (memoryOperation op) eqn:Ho.
  - apply plain_emitMemory. exact (yields_Some _ _ _ (memoryOperation_plain _) Ho).
  - clear Ho. destruct (simpleOperation op) eqn:Ho; [|plain_run].
    apply plain_emit. exact (yields_Some _ _ _ (simpleOperation_plain _) Ho).
Qed.

Abbreviation handle_ := (handleInstruction enabledFeatures types tags importFunctionCount functionCount next ensureTermination
  needSourceOffset bodyOffsetInCodeSection heights).

(** An else is in a block of the function. *)
Definition nestedAt (s : cstate) : bool :=
  match zindex (c_body (core s)) (pcOf s) with
  | Ok op => negb (op =? OpcodeElse) || bool_decide (2 <= length (controlFrames s))%nat
  | _ => true
  end.

Lemma handleInstruction_keeps s a s' : labels_ok s -> controlFrames s <> [] -> nestedAt s = true ->
  handle_ s = Ok (a, s') -> labels_ok s'.
Proof.
  intros Hok Hne Hnest H. apply bindC_Ok in H as (op & s1 & H1 & H).
  unfold bodyAtC in H1. apply bindC_Ok in H1 as (c & s2 & [= <- <-] & H1). unfold liftC in H1.
  apply res_bind_Ok in H1 as (op' & Hop & [= -> ->]). unfold nestedAt, pcOf in Hnest. rewrite Hop in Hnest.
  eapply plain_then in H as (? & s2 & Hok2 & Hs2 & H); [|plain_run|done].
  eapply plain_then in H as (c & s3 & Hok3 & Hs3 & H); [|plain_run|done]. cbv zeta in H.
  eapply plain_then in H as (index & s4 & Hok4 & Hs4 & H); [|plain_run|done].
  assert (HF : controlFrames s4 = controlFrames s1) by (rewrite (ps_frames _ _ Hs4), (ps_frames _ _ Hs3); apply Hs2).
  apply bindC_Ok in H as (ret & s5 & H5 & H). assert (Hok5 : labels_ok s5).
  { destruct (op =? OpcodeEnd); [eapply compileEnd_keeps; [exact Hok4|by rewrite HF|exact H5]|].
    apply bindC_Ok in H5 as (? & s6 & H6 & [= <- <-]). destruct (op =? OpcodeElse) eqn:He.
    - apply Z.eqb_eq in He as ->. eapply compileElse_keeps; [exact Hok4| |exact H6].
      rewrite HF. simpl in Hnest. by apply bool_decide_eq_true in Hnest.
    - eapply operatorSwitch_keeps; [by apply Z.eqb_neq|exact Hok4|by rewrite HF|exact H6]. }
  destruct ret; [by injection H as <- <-|]. eapply plainStep_labels; [|exact Hok5]. by eapply plain_advanceC.
Qed.

(** The check of [nestedAt] before every instruction of a body. *)
Fixpoint nested (fuel : nat) (s : cstate) : bool :=
  if bool_decide (controlFrames s = []) || (pcOf s >=? zlen (c_body (core s))) then true
  else match fuel with
  | O => true
  | S fuel' => nestedAt s && match handle_ s with Ok (_, s') => nested fuel' s' | _ => true end
  end.

Lemma bodyLoop_keeps fuel s a s' : labels_ok s -> nested fuel s = true ->
  bodyLoop enabledFeatures types tags importFunctionCount functionCount next ensureTermination needSourceOffset
    bodyOffsetInCodeSection heights fuel s = Ok (a, s') -> labels_ok s'.
Proof.
  revert s. induction fuel as [|fuel IH]; intros s Hok Hn H; simpl in H, Hn;
    apply bindC_Ok in H as (s1 & s2 & [= <- <-] & H); unfold id in H.
  { destruct (_ || _); [by injection H as <- <-|discriminate]. }
  destruct (_ || _) eqn:Hstop; [by injection H as <- <-|].
  apply bindC_Ok in H as ([] & s1 & H1 & H). destruct (handle_ s) as [[[] s2]| |] eqn:Hh; simplify_eq/=.
  apply andb_true_iff in Hn as [Hn1 Hn2]. apply orb_false_iff in Hstop as [Hne _]. apply bool_decide_eq_false in Hne.
  eapply IH; [|exact Hn2|exact H]. by eapply handleInstruction_keeps.
Qed.

(** ** The whole function *)

(** [compile] up to the loop over the body. *)
Definition enterFunction : C unit :=
  c ← getC core;
  _ ← initializeStack callFrameStackSizeInUint64 (c_sig c);
  _ ← emitDefaults needSourceOffset bodyOffsetInCodeSection (c_localTypes c);
  id ← nextFrameID;
  pushFrame (mkFrame id 0 0 (c_sig c) controlFrameKindFunction).

Definition wellNested (s : cstate) : bool :=
  match enterFunction s with
  | Ok (_, s1) => nested (S (length (c_body (core s)))) s1
  | _ => true
  end.

Abbreviation compile_ := (compile enabledFeatures types tags importFunctionCount functionCount next ensureTermination
  needSourceOffset bodyOffsetInCodeSection callFrameStackSizeInUint64 heights).

Lemma plain_initializeStack sig : plain (initializeStack callFrameStackSizeInUint64 sig).
Proof. unfold initializeStack. plain_run. Qed.
Lemma plain_emitDefaults ts : plain (emitDefaults needSourceOffset bodyOffsetInCodeSection ts).
Proof. induction ts; simpl; plain_run. unfold emitDefaultValue. plain_run. Qed.

Lemma enterFunction_ok s a s' :
  Operations s = [] -> controlFrames s = [] -> PendingExceptionTable s = [] -> enterFunction s = Ok (a, s') -> labels_ok s'.
Proof.
  intros HO HF HP H. assert (Hok : labels_ok s).
  { split; rewrite ?HO, ?HF, ?HP; by try constructor. }
  apply bindC_Ok in H as (c & s1 & [= <- <-] & H).
  eapply plain_then in H as (? & s2 & Hok2 & Hs2 & H); [|apply plain_initializeStack|done].
  eapply plain_then in H as (? & s3 & Hok3 & Hs3 & H); [|apply plain_emitDefaults|done].
  apply bindC_Ok in H as (id & s4 & H4 & H). apply nextFrameID_run in H4 as [[= HO4 HF4 HP4 _] Hid].
  apply pushFrame_run in H as [= HO5 HF5 HP5 _].
  assert (HF3 : controlFrames s3 = []) by (rewrite (ps_frames _ _ Hs3), (ps_frames _ _ Hs2); done).
  apply (labels_step s3 s' [] []); rewrite ?app_nil_r; try done; try congruence.
  - rewrite HF5, HF4, HF3. each. by split.
  - rewrite HF5, HF4, HF3. by intros f [= <-].
  - intros l Hl. rewrite HF3 in Hl. by apply not_elem_of_nil in Hl.
Qed.

Lemma compile_enter s a s' : compile_ s = Ok (a, s') ->
  exists s1, enterFunction s = Ok (tt, s1) /\
    bodyLoop enabledFeatures types tags importFunctionCount functionCount next ensureTermination needSourceOffset
      bodyOffsetInCodeSection heights (S (length (c_body (core s)))) s1 = Ok (a, s').
Proof.
  intros H. apply bindC_Ok in H as (c & s1 & [= <- <-] & H).
  apply bindC_Ok in H as ([] & s2 & H2 & H). apply bindC_Ok in H as ([] & s3 & H3 & H).
  apply bindC_Ok in H as (id & s4 & H4 & H). apply bindC_Ok in H as ([] & s5 & H5 & H). exists s5. split; [|exact H].
  unfold enterFunction. rewrite (bindC_run (getC core) _ s (core s) s eq_refl), (bindC_run _ _ _ _ _ H2), (bindC_run _ _ _ _ _ H3).
  by rewrite (bindC_run _ _ _ _ _ H4).
Qed.

Lemma compile_labels s a s' :
  Operations s = [] -> controlFrames s = [] -> PendingExceptionTable s = [] -> wellNested s = true ->
  compile_ s = Ok (a, s') -> labels_ok s'.
Proof.
  intros HO HF HP Hn H. apply compile_enter in H as (s1 & H1 & H). unfold wellNested in Hn. rewrite H1 in Hn.
  eapply bodyLoop_keeps; [|exact Hn|exact H]. by eapply enterFunction_ok.
Qed.

End Labels.

(** ** Resolution *)

Definition addressOf (a : addresses) (l : label) : res Z :=
  let! frameToAddresses := zindex a (LabelKind l) in zindex frameToAddresses (FrameID l).

Lemma zindex_Ok {A} (l : list A) i x : zindex l i = Ok x <-> zlookup l i = Some x.
Proof. unfold zindex. destruct (zlookup l i); split; congruence. Qed.

Lemma zindex_insert_eq {A} (l : list A) i x : 0 <= i < zlen l -> zindex (<[Z.to_nat i := x]> l) i = Ok x.
Proof.
  intros Hi. apply zindex_Ok. unfold zlookup. rewrite (proj2 (Z.leb_le _ _)) by lia. apply list_lookup_insert_eq.
  unfold zlen in Hi. lia.
Qed.

Lemma zindex_insert_ne {A} (l : list A) i j x : 0 <= i -> 0 <= j -> i <> j -> zindex (<[Z.to_nat i := x]> l) j = zindex l j.
Proof.
  intros Hi Hj Hne. unfold zindex, zlookup. rewrite (proj2 (Z.leb_le _ _)) by lia. rewrite list_lookup_insert_ne by lia. done.
Qed.

Lemma zindex_app_l {A} (l k : list A) i x : zindex l i = Ok x -> zindex (l ++ k) i = Ok x.
Proof.
  rewrite !zindex_Ok. unfold zlookup. destruct (0 <=? i); [|done]. intros H. by apply lookup_app_l_Some.
Qed.

Lemma resolveLabel_spec a l addr : proper l -> length a = 4%nat ->
  exists a', resolveLabel a l addr = Ok a' /\ length a' = 4%nat /\ addressOf a' l = Ok addr /\
    forall l' v, proper l' -> l' <> l -> addressOf a l' = Ok v -> addressOf a' l' = Ok v.
Proof.
  intros Hl Ha. destruct (proper_fields l Hl) as [Hk Hf]. unfold resolveLabel.
  assert (Hin : 0 <= LabelKind l < zlen a) by (unfold zlen; lia).
  destruct (zindex_in a _ Hin) as (fs & Hfs & _). rewrite Hfs. cbn [res_bind].
  set (fs' := if FrameID l - zlen fs + 1 >? 0 then fs ++ zeros (FrameID l - zlen fs + 1) else fs).
  assert (Hlen : FrameID l < zlen fs').
  { unfold fs'. destruct (_ >? 0) eqn:Hd; bools; [|lia]. rewrite zlen_app. unfold zeros, zlen. rewrite length_replicate. lia. }
  assert (Hext : forall i v, zindex fs i = Ok v -> zindex fs' i = Ok v).
  { intros i v Hv. unfold fs'. destruct (_ >? 0); [by apply zindex_app_l|done]. }
  exists (<[Z.to_nat (LabelKind l) := <[Z.to_nat (FrameID l) := addr]> fs']> a). split; [reflexivity|].
  split; [by rewrite length_insert|]. split.
  - unfold addressOf. rewrite zindex_insert_eq by done. cbn [res_bind]. apply zindex_insert_eq. lia.
  - intros l' v Hl' Hne Hv. destruct (proper_fields l' Hl') as [Hk' Hf']. unfold addressOf in *.
    destruct (decide (LabelKind l = LabelKind l')) as [He|He].
    + rewrite <- He in *. rewrite Hfs in Hv. cbn [res_bind] in Hv. rewrite zindex_insert_eq by done. cbn [res_bind].
      rewrite zindex_insert_ne; [by apply Hext|lia|lia|]. intros Hid. apply Hne. by apply proper_inj.
    + rewrite zindex_insert_ne by lia. done.
Qed.

(** Where a label is in a body. *)
Definition labelAt (ops : list unionOperation) (t : Z) (l : label) : Prop :=
  exists op, zlookup ops t = Some op /\ OpKind op = operationKindLabel /\ U1 op = l.

Lemma defs_label op l : l ∈ defs op -> OpKind op = operationKindLabel /\ U1 op = l.
Proof. unfold defs. destruct (OpKind op); set_solver. Qed.

(** The table [a] has the address of every label of [ops]. *)
Definition resolves (a : addresses) (ops : list unionOperation) : Prop :=
  length a = 4%nat /\ forall l, l ∈ given ops -> exists t, addressOf a l = Ok t /\ labelAt ops t l.

Lemma labelAt_app ops k t l : labelAt ops t l -> labelAt (ops ++ k) t l.
Proof.
  intros (op & Hop & H). exists op. split; [|done]. unfold zlookup in *. destruct (0 <=? t); [|done]. by apply lookup_app_l_Some.
Qed.

Lemma resolveLabels_spec ops done_ a :
  Forall op_ok (done_ ++ ops) -> resolves a done_ ->
  exists a', resolveLabels a (zlen done_) ops = Ok a' /\ resolves a' (done_ ++ ops).
Proof.
  revert done_ a. induction ops as [|op ops IH]; intros dn a Hok Hr; simpl; [exists a; by rewrite app_nil_r|].
  assert (Hlen : zlen dn + 1 = zlen (dn ++ [op])) by (rewrite zlen_app; done).
  assert (Happ : dn ++ op :: ops = (dn ++ [op]) ++ ops) by (by rewrite <- app_assoc).
  assert (Hmore : (defs op = [] -> resolves a (dn ++ [op]))).
  { intros Hd. destruct Hr as [Ha Hr]. split; [done|]. intros l. rewrite given_app. simpl. rewrite Hd. simpl.
    rewrite app_nil_r. intros Hl. destruct (Hr l Hl) as (t & Ht & Hat). exists t. split; [done|]. by apply labelAt_app. }
  destruct (OpKind op) eqn:Hk;
    try (rewrite Hlen, Happ; apply IH; [by rewrite <- Happ|apply Hmore; unfold defs; by rewrite Hk]).
  assert (Hop : op_ok op) by (apply Forall_app in Hok as [_ Hok]; by inversion Hok).
  assert (Hp : proper (U1 op)).
  { destruct Hop as (_ & Hd & _). unfold defs in Hd. rewrite Hk in Hd. by inversion Hd. }
  destruct Hr as [Ha Hr]. destruct (resolveLabel_spec a (U1 op) (zlen dn) Hp Ha) as (a' & -> & Ha' & Hnew & Hold). cbn [res_bind].
  rewrite Hlen, Happ. apply IH; [by rewrite <- Happ|]. split; [done|]. intros l Hl. destruct (decide (l = U1 op)) as [->|Hne].
  - exists (zlen dn). split; [done|]. exists op. split; [|done]. unfold zlookup, zlen.
    rewrite (proj2 (Z.leb_le _ _)) by lia. rewrite lookup_app_r by lia. by rewrite Nat2Z.id, Nat.sub_diag.
  - rewrite given_app in Hl. apply elem_of_app in Hl as [Hl|Hl].
    2:{ simpl in Hl. rewrite app_nil_r in Hl. by apply defs_label in Hl as [_ ?]. }
    destruct (Hr l Hl) as (t & Ht & Hat). exists t. split; [|by apply labelAt_app]. apply Hold; [|done|done].
    unfold given in Hl. apply list_elem_of_In, in_flat_map in Hl as (o & Ho & Hlo). rewrite <- list_elem_of_In in Ho; rewrite <- list_elem_of_In in Hlo.
    apply Forall_app in Hok as [Hok _]. eapply Forall_forall in Hok as (_ & Hd & _); [|exact Ho]. by eapply Forall_forall in Hd.
Qed.

(** The target [t] of a branch that named the label [l]. *)
Definition goes (ops : list unionOperation) (l : label) (t : Z) : Prop :=
  if IsReturnTarget l then t = maxUint64 else labelAt ops t l.

(** An operation with its labels replaced, and no other field *)
Fixpoint putEvens {A} (us ts : list A) : list A :=
  match us, ts with
  | _ :: d :: us', t :: ts' => t :: d :: putEvens us' ts'
  | [_], t :: _ => [t]
  | _, _ => us
  end.
Definition retarget (op : unionOperation) (ts : list Z) : unionOperation :=
  match OpKind op, ts with
  | operationKindBr, [t] => set_U1 t op
  | (operationKindBrIf | operationKindBrOnNull | operationKindBrOnNonNull), [t; e] => set_U2 e (set_U1 t op)
  | operationKindBrTable, _ => set_Us (putEvens (Us op) ts) op
  | (operationKindTailCallReturnCallIndirect | operationKindReturnCallRef), [t] => set_Us (<[1%nat := t]> (Us op)) op
  | _, _ => op
  end.

(** What lowering makes of one operation: each label becomes where it goes, and the operation is otherwise the same. *)
Definition lowersTo (ops : list unionOperation) (op op' : unionOperation) : Prop :=
  exists ts, Forall2 (goes ops) (refs op) ts /\ op' = retarget op ts.

Definition entryLowersTo (ops : list unionOperation) (pe : pendingExceptionTableEntry) (e : exceptionTableEntry) : Prop :=
  startPC e = startOpIndex pe /\ goes ops (newLabel labelKindContinuation (continuationFrameID pe)) (endPC e) /\
  Forall2 (fun pc c => catch_kind c = pending_kind pc /\ catch_tagIndex c = pending_tagIndex pc /\
             catch_targetStackDepth c = pending_targetStackDepth pc /\ goes ops (pending_targetLabel pc) (catch_targetPC c))
    (pending_clauses pe) (entry_clauses e).

Section Lowering.
Context (ops : list unionOperation) (a : addresses).
Hypothesis Ha : resolves a ops.

Lemma setLabelAddress_goes l : l = returnLabel \/ l ∈ given ops -> exists t, setLabelAddress a l = Ok t /\ goes ops l t.
Proof.
  intros Hl. unfold setLabelAddress, goes. destruct (IsReturnTarget l) eqn:Hr; [by eexists|].
  destruct Hl as [->|Hl]; [discriminate|]. destruct Ha as [_ Hres]. apply Hres in Hl as (t & Ht & Hat). by exists t.
Qed.

Lemma setTargets_goes us :
  Forall (fun l => l = returnLabel \/ l ∈ given ops) (evens us) ->
  exists ts, setTargets a us = Ok (putEvens us ts) /\ Forall2 (goes ops) (evens us) ts.
Proof.
  induction us as [us IH] using (induction_ltof1 _ (@length Z)). unfold ltof in IH.
  destruct us as [|x [|d us]]; intros H; simpl in H.
  - by exists [].
  - inversion H as [|? ? Hx _]; subst. destruct (setLabelAddress_goes x Hx) as (t & Ht & Hg). exists [t]. simpl. rewrite Ht.
    split; [done|]. by repeat constructor.
  - inversion H as [|? ? Hx Hus]; subst. destruct (setLabelAddress_goes x Hx) as (t & Ht & Hg).
    destruct (IH us) as (ts & Hts & Hall); [simpl; lia|done|]. exists (t :: ts). simpl. rewrite Ht, Hts. simpl. split; [done|by constructor].
Qed.

Lemma lowerOperation_goes op : twoUs op -> Forall (fun l => l = returnLabel \/ l ∈ given ops) (refs op) ->
  exists op', lowerOperation a op = Ok op' /\ lowersTo ops op op'.
Proof.
  intros Ht Hr. unfold lowerOperation, lowersTo, refs, retarget in *.
  assert (Hone : forall l, Forall (fun l => l = returnLabel \/ l ∈ given ops) [l] -> exists t, setLabelAddress a l = Ok t /\ goes ops l t).
  { intros l Hl. inversion Hl; subst. by apply setLabelAddress_goes. }
  assert (Htwo : forall l k, Forall (fun l => l = returnLabel \/ l ∈ given ops) [l; k] ->
            exists t u, setLabelAddress a l = Ok t /\ setLabelAddress a k = Ok u /\ Forall2 (goes ops) [l; k] [t; u]).
  { intros l k Hl. inversion Hl as [|? ? H1 H2]; subst. inversion H2; subst.
    destruct (setLabelAddress_goes l H1) as (t & ? & ?), (setLabelAddress_goes k) as (u & ? & ?); [done|]. exists t, u. by repeat constructor. }
  assert (Hus : forall d l t, Us op = [d; l] -> setLabelAddress a l = Ok t ->
            (let! l := zindex (Us op) 1 in let! t := setLabelAddress a l in Ok (set_Us (<[1%nat := t]> (Us op)) op)) = Ok (set_Us (<[1%nat := t]> (Us op)) op)).
  { intros d l t E Hl. rewrite E. change (zindex [d; l] 1) with (Ok (A := Z) l). cbn [res_bind]. by rewrite Hl. }
  unfold twoUs in Ht. destruct (OpKind op) eqn:Hk; try (exists op; split; [done|by exists []]).
  1: destruct (Hone _ Hr) as (t & -> & Hg); eexists; (split; [reflexivity|]); exists [t]; by repeat constructor.
  2: destruct (setTargets_goes _ Hr) as (ts & -> & Hall); eexists; (split; [reflexivity|]); by exists ts.
  2, 3: destruct Ht as (d & l & E); rewrite E in Hr; destruct (Hone _ Hr) as (t & Ht & Hg); eexists; rewrite (Hus d l t E Ht);
    (split; [done|]); exists [t]; rewrite E; by repeat constructor.
  all: destruct (Htwo _ _ Hr) as (t & u & -> & -> & Hg); eexists; (split; [reflexivity|]); by exists [t; u].
Qed.

Lemma mapRes_Forall2 {A B} (f : A -> res B) (R : A -> B -> Prop) l :
  Forall (fun x => exists y, f x = Ok y /\ R x y) l -> exists ys, mapRes f l = Ok ys /\ Forall2 R l ys.
Proof.
  induction 1 as [|x l (y & Hy & HR) _ (ys & Hys & Hall)]; [by exists []|]. exists (y :: ys). simpl. rewrite Hy, Hys. split; [done|by constructor].
Qed.

Lemma lowerEntry_goes pe : Forall (fun l => l = returnLabel \/ l ∈ given ops) (clauseRefs pe) ->
  exists e, lowerEntry a pe = Ok e /\ entryLowersTo ops pe e.
Proof.
  unfold clauseRefs. intros H. inversion H as [|? ? H1 H2]; subst. destruct (setLabelAddress_goes _ H1) as (t & Ht & Hg).
  unfold lowerEntry. rewrite Ht. cbn [res_bind].
  destruct (mapRes_Forall2 (lowerClause a) (fun pc c => catch_kind c = pending_kind pc /\ catch_tagIndex c = pending_tagIndex pc /\
             catch_targetStackDepth c = pending_targetStackDepth pc /\ goes ops (pending_targetLabel pc) (catch_targetPC c)) (pending_clauses pe)) as (cs & Hcs & Hall).
  { apply Forall_map in H2. eapply Forall_impl; [exact H2|]. intros c Hc. destruct (setLabelAddress_goes _ Hc) as (u & Hu & Hgu).
    unfold lowerClause. rewrite Hu. cbn [res_bind]. eexists. split; [reflexivity|]. by split_and!. }
  rewrite Hcs. cbn [res_bind]. eexists. split; [reflexivity|]. by split_and!.
Qed.
End Lowering.

(** The labels of a complete function are resolved. *)
Lemma lowerIR_goes s : labels_ok s -> controlFrames s = [] ->
  exists l, lowerIR (resultOf s) = Ok l /\ Forall2 (lowersTo (Operations s)) (Operations s) (body l) /\
    Forall2 (entryLowersTo (Operations s)) (PendingExceptionTable s) (exceptionTable l) /\ offsetsInWasmBinary l = r_SourceOffsets (resultOf s).
Proof.
  intros [Ho _ _ _ Hw] HF. unfold lowerIR, resultOf. cbn [r_Operations r_PendingExceptionTable r_SourceOffsets].
  destruct (resolveLabels_spec (Operations s) [] (repeat [] 4) Ho) as (a & Ha & Hres).
  { split; [done|]. intros l Hl. by apply not_elem_of_nil in Hl. }
  rewrite app_nil_l in Hres. change (zlen []) with 0 in Ha. rewrite Ha. cbn [res_bind].
  assert (Hcov : forall l, l ∈ wanted (Operations s) (PendingExceptionTable s) -> l = returnLabel \/ l ∈ given (Operations s)).
  { intros l Hl. eapply Forall_forall in Hw as [->|[Hg|Hd]]; [by left|by right| |exact Hl]. rewrite HF in Hd. by apply not_elem_of_nil in Hd. }
  destruct (mapRes_Forall2 (lowerOperation a) (lowersTo (Operations s)) (Operations s)) as (ops' & -> & Hops).
  { apply Forall_forall. intros op Hop. apply (lowerOperation_goes _ _ Hres); [by eapply Forall_forall in Ho as (_ & _ & ?)|].
    apply Forall_forall. intros l Hl. apply Hcov. unfold wanted. apply elem_of_app. left.
    apply list_elem_of_In, in_flat_map. exists op. by rewrite <- !list_elem_of_In. }
  cbn [res_bind].
  destruct (mapRes_Forall2 (lowerEntry a) (entryLowersTo (Operations s)) (PendingExceptionTable s)) as (es & -> & Hes).
  { apply Forall_forall. intros pe Hpe. apply (lowerEntry_goes _ _ Hres). apply Forall_forall. intros l Hl. apply Hcov.
    unfold wanted. apply elem_of_app. right. apply list_elem_of_In, in_flat_map. exists pe. by rewrite <- !list_elem_of_In. }
  cbn [res_bind]. eexists. split; [reflexivity|]. by split_and!.
Qed.

(** C6: every label of a compiled function is resolved.  When the compiler ends with no control frame open, [lowerIR] does
    not fail; every branch, every target of a br_table and every catch clause goes to the operation that defines the label
    it named, or out of the function when that is the return label; every other field of an operation, the ranges that
    branches and the targets of a br_table drop, the other fields of catch clauses and the source offsets are those that
    the compiler gave.  The only assumption on the body is that no else is outside a block, which validation checks. *)
Theorem labels_resolved (enabledFeatures : CoreFeatures) (types : list FunctionType) (tags : list Index)
    (importFunctionCount functionCount next : Z) (ensureTermination needSourceOffset : bool)
    (bodyOffset frameSize : Z) (heights : list Z) (s s' : cstate) :
  Operations s = [] -> controlFrames s = [] -> PendingExceptionTable s = [] ->
  wellNested enabledFeatures types tags importFunctionCount functionCount next ensureTermination needSourceOffset bodyOffset
    frameSize heights s = true ->
  compile enabledFeatures types tags importFunctionCount functionCount next ensureTermination needSourceOffset bodyOffset
    frameSize heights s = Ok (tt, s') ->
  controlFrames s' = [] ->
  exists l, lowerIR (resultOf s') = Ok l /\
    Forall2 (lowersTo (Operations s')) (Operations s') (body l) /\
    Forall2 (entryLowersTo (Operations s')) (PendingExceptionTable s') (exceptionTable l) /\
    offsetsInWasmBinary l = r_SourceOffsets (resultOf s').
Proof. intros HO HF HP Hn H HF'. apply lowerIR_goes; [|done]. by eapply compile_labels. Qed.

(** A body with a loop, a br_table, an if with else, a br_if and a try_table. *)
Definition example_body : list Z :=
  [OpcodeBlock; 64; OpcodeLoop; 64; OpcodeLocalGet; 0; OpcodeBrTable; 2; 0; 1; 2; OpcodeEnd; OpcodeEnd;
   OpcodeLocalGet; 0; OpcodeIf; 64; OpcodeNop; OpcodeElse; OpcodeLocalGet; 0; OpcodeBrIf; 0; OpcodeEnd;
   OpcodeBlock; 64; OpcodeTryTable; 64; 1; CatchKindCatchAll; 0; OpcodeNop; OpcodeEnd; OpcodeEnd; OpcodeReturn; OpcodeEnd].
Definition example_sig : FunctionType := mkFunctionType [ValueTypeI32] [] 1 0 1 0.
Definition example_state (b : list Z) : cstate :=
  mkState (mkCompiler [] 0 false 0 b example_sig [] [0] [] (noSignatures [example_sig])) 0 [] 0 0 [] [] ∅ false [].
Definition example_features : CoreFeatures := 2 ^ 40 - 1.

Definition example_compiled : cstate :=
  match compile example_features [example_sig] [] 0 1 0 false false 0 0 [0] (example_state example_body) with
  | Ok (_, s) => s
  | _ => example_state []
  end.

Lemma labels_resolved_witness :
  exists l, lowerIR (resultOf example_compiled) = Ok l /\
    Forall2 (lowersTo (Operations example_compiled)) (Operations example_compiled) (body l) /\
    Forall2 (entryLowersTo (Operations example_compiled)) (PendingExceptionTable example_compiled) (exceptionTable l) /\
    offsetsInWasmBinary l = r_SourceOffsets (resultOf example_compiled).
Proof.
  apply (labels_resolved example_features [example_sig] [] 0 1 0 false false 0 0 [0] (example_state example_body));
    vm_compute; reflexivity.
Defined.
