(* ===== verification/GoFloat.v ===== *)
(** * Floating-point numbers (src/internal/moremath and the float operations of the interpreter)

    A Go float32 or float64 is its IEEE 754 representation, a word.  Arithmetic
    decodes it to the [spec_float] of the Standard Library, whose operations
    round to nearest even, and encodes the result.  [spec_float] has one NaN:
    the payload that hardware gives a NaN result is the parameter [NaNs], whose
    law is what IEEE 754 says of it.  Functions of package math that return a
    NaN operand as it is keep the word. *)

From Stdlib Require Import Floats.SpecFloat.
From S2P Require Import Prelude.

(** ** Formats *)

Record format := mkFormat { f_prec : Z; f_emax : Z; f_ebits : Z }.
Definition F32 : format := mkFormat 24 128 8.
Definition F64 : format := mkFormat 53 1024 11.

(** Bits of the mantissa without the implicit one, and of the whole word. *)
Definition mbits (fm : format) : Z := f_prec fm - 1.
Definition fbits (fm : format) : Z := mbits fm + f_ebits fm + 1.
Definition femin (fm : format) : Z := 3 - f_emax fm - f_prec fm.

(** [math.Float64frombits] *)
Definition frombits (fm : format) (b : Z) : spec_float :=
  let s := Z.testbit b (fbits fm - 1) in
  let e := Z.shiftr b (mbits fm) mod 2 ^ f_ebits fm in
  let m := b mod 2 ^ mbits fm in
  if e =? 2 ^ f_ebits fm - 1 then if m =? 0 then S754_infinity s else S754_nan
  else if e =? 0 then match m with Zpos p => S754_finite s p (femin fm) | _ => S754_zero s end
  else match m + 2 ^ mbits fm with Zpos p => S754_finite s p (e + femin fm - 1) | _ => S754_nan end.

Definition signWord (fm : format) (s : bool) : Z := if s then 2 ^ (fbits fm - 1) else 0.
Definition infBits (fm : format) (s : bool) : Z := signWord fm s + (2 ^ f_ebits fm - 1) * 2 ^ mbits fm.

(** [math.Float64bits], with the word of a NaN given. *)
Definition tobits (fm : format) (nan : Z) (x : spec_float) : Z :=
  match x with
  | S754_zero s => signWord fm s
  | S754_infinity s => infBits fm s
  | S754_nan => nan
  | S754_finite s m e =>
      signWord fm s + (if Zpos m <? 2 ^ mbits fm then Zpos m else (e - femin fm + 1) * 2 ^ mbits fm + (Zpos m - 2 ^ mbits fm))
  end.

Definition isNaN (fm : format) (b : Z) : bool := match frombits fm b with S754_nan => true | _ => false end.
(** The most significant bit of the payload is set. *)
Definition quiet (fm : format) (b : Z) : bool := isNaN fm b && Z.testbit b (mbits fm - 1).

(** ** NaN results *)

(** The word of the NaN that an arithmetic instruction, or a conversion, returns for these operands. *)
Class NaNs := {
  arithmeticNaN : format -> list Z -> Z;
  convertedNaN : format -> Z -> Z;
}.
Class NaNLaws (N : NaNs) : Prop := {
  arithmeticNaN_quiet : forall fm l, (fm = F32 \/ fm = F64) -> quiet fm (arithmeticNaN fm l) = true;
  convertedNaN_quiet : forall fm b, (fm = F32 \/ fm = F64) -> quiet fm (convertedNaN fm b) = true;
}.

(** [F32CanonicalNaNBits] and [F64CanonicalNaNBits] *)
Definition canonicalNaN (fm : format) : Z := (2 ^ f_ebits fm - 1) * 2 ^ mbits fm + 2 ^ (mbits fm - 1).

(** Hardware that returns the canonical NaN. *)
#[local] Instance canonicalNaNs : NaNs := {
  arithmeticNaN fm _ := canonicalNaN fm;
  convertedNaN fm _ := canonicalNaN fm;
}.
#[local] Instance canonicalNaNs_laws : NaNLaws canonicalNaNs.
Proof. split; intros fm ? [->| ->]; vm_compute; reflexivity. Qed.

Section Floats.
Context `{N : NaNs}.

(** ** Operators of Go *)

Definition arith (fm : format) (f : spec_float -> spec_float -> spec_float) (x y : Z) : Z :=
  tobits fm (arithmeticNaN fm [x; y]) (f (frombits fm x) (frombits fm y)).
Definition fadd (fm : format) : Z -> Z -> Z := arith fm (SFadd (f_prec fm) (f_emax fm)).
Definition fsub (fm : format) : Z -> Z -> Z := arith fm (SFsub (f_prec fm) (f_emax fm)).
Definition fmul (fm : format) : Z -> Z -> Z := arith fm (SFmul (f_prec fm) (f_emax fm)).
Definition fdiv (fm : format) : Z -> Z -> Z := arith fm (SFdiv (f_prec fm) (f_emax fm)).
Definition fneg (fm : format) (x : Z) : Z := Z.lxor x (2 ^ (fbits fm - 1)).

Definition feq (fm : format) (x y : Z) : bool := SFeqb (frombits fm x) (frombits fm y).
Definition flt (fm : format) (x y : Z) : bool := SFltb (frombits fm x) (frombits fm y).
Definition fle (fm : format) (x y : Z) : bool := SFleb (frombits fm x) (frombits fm y).

(** [float64(x)] of a float32, and back; of an integer. *)
Definition convert (from to : format) (x : Z) : Z :=
  tobits to (convertedNaN to x)
    (match frombits from x with S754_finite s m e => binary_round (f_prec to) (f_emax to) s m e | y => y end).
Definition promote : Z -> Z := convert F32 F64.
Definition demote : Z -> Z := convert F64 F32.
Definition ofInt (fm : format) (z : Z) : Z := tobits fm 0 (binary_normalize (f_prec fm) (f_emax fm) z 0 false).

(** ** Package math, on float64 *)

Definition signbit (fm : format) (x : Z) : bool := Z.testbit x (fbits fm - 1).
Definition isInf (fm : format) (x : Z) (s : bool) : bool :=
  match frombits fm x with S754_infinity s' => Bool.eqb s' s | _ => false end.
Definition mathAbs (x : Z) : Z := x mod 2 ^ 63.

(** [round s m k]: the integer that a float of sign [s] and magnitude [m / 2^k] becomes. *)
Definition mathRound (round : bool -> Z -> Z -> Z) (x : Z) : Z :=
  match frombits F64 x with
  | S754_finite s m e =>
      if 0 <=? e then x
      else tobits F64 0 (binary_normalize 53 1024 (round s (Zpos m) (- e)) 0 s)
  | _ => x
  end.
Definition mathTrunc : Z -> Z := mathRound (fun s m k => let q := m / 2 ^ k in if s then - q else q).
Definition mathFloor : Z -> Z := mathRound (fun s m k => if s then - ((m + 2 ^ k - 1) / 2 ^ k) else m / 2 ^ k).
Definition mathCeil : Z -> Z := mathRound (fun s m k => if s then - (m / 2 ^ k) else (m + 2 ^ k - 1) / 2 ^ k).
Definition mathSqrt (x : Z) : Z := tobits F64 (arithmeticNaN F64 [x]) (SFsqrt 53 1024 (frombits F64 x)).

(** [int64(x)], for an [x] that is an integer in range. *)
Definition toInt (x : Z) : Z :=
  match frombits F64 x with
  | S754_finite s m e => let q := if 0 <=? e then Zpos m * 2 ^ e else Zpos m / 2 ^ (- e) in if s then - q else q
  | _ => 0
  end.

(** ** moremath *)

Definition returnUniOp (fm : format) (original result : Z) : Z :=
  if negb (isNaN fm result) then result
  else if negb (isNaN fm original) then canonicalNaN fm
  else Z.lor original (canonicalNaN fm).
Definition returnNaNBinOp (fm : format) (x y : Z) : Z :=
  if isNaN fm x then Z.lor x (canonicalNaN fm) else Z.lor y (canonicalNaN fm).

Definition isZero (fm : format) (x : Z) : bool := feq fm x 0.

Definition WasmCompatMin (fm : format) (x y : Z) : Z :=
  if isNaN fm x || isNaN fm y then returnNaNBinOp fm x y
  else if isInf fm x true || isInf fm y true then infBits fm true
  else if isZero fm x && feq fm x y then if signbit fm x then x else y
  else if flt fm x y then x else y.
Definition WasmCompatMin64 : Z -> Z -> Z := WasmCompatMin F64.
Definition WasmCompatMin32 : Z -> Z -> Z := WasmCompatMin F32.

Definition WasmCompatMax (fm : format) (x y : Z) : Z :=
  if isNaN fm x || isNaN fm y then returnNaNBinOp fm x y
  else if isInf fm x false || isInf fm y false then infBits fm false
  else if isZero fm x && feq fm x y then if signbit fm x then y else x
  else if flt fm y x then x else y.
Definition WasmCompatMax64 : Z -> Z -> Z := WasmCompatMax F64.
Definition WasmCompatMax32 : Z -> Z -> Z := WasmCompatMax F32.

Definition WasmCompatCeilF32 (f : Z) : Z := returnUniOp F32 f (demote (mathCeil (promote f))).
Definition WasmCompatCeilF64 (f : Z) : Z := returnUniOp F64 f (mathCeil f).
Definition WasmCompatFloorF32 (f : Z) : Z := returnUniOp F32 f (demote (mathFloor (promote f))).
Definition WasmCompatFloorF64 (f : Z) : Z := returnUniOp F64 f (mathFloor f).
Definition WasmCompatTruncF32 (f : Z) : Z := returnUniOp F32 f (demote (mathTrunc (promote f))).
Definition WasmCompatTruncF64 (f : Z) : Z := returnUniOp F64 f (mathTrunc f).

Definition WasmCompatNearestF32 (f : Z) : Z :=
  returnUniOp F32 f
    (if negb (isZero F32 f) then
       let ceil := demote (mathCeil (promote f)) in
       let floor := demote (mathFloor (promote f)) in
       let distToCeil := mathAbs (promote (fsub F32 f ceil)) in
       let distToFloor := mathAbs (promote (fsub F32 f floor)) in
       let h := fdiv F32 ceil (ofInt F32 2) in
       if flt F64 distToCeil distToFloor then ceil
       else if feq F64 distToCeil distToFloor && feq F32 (demote (mathFloor (promote h))) h then ceil
       else floor
     else f).

Definition WasmCompatNearestF64 (f : Z) : Z :=
  returnUniOp F64 f
    (if negb (isZero F64 f) then
       let ceil := mathCeil f in
       let floor := mathFloor f in
       let distToCeil := mathAbs (fsub F64 f ceil) in
       let distToFloor := mathAbs (fsub F64 f floor) in
       let h := fdiv F64 ceil (ofInt F64 2) in
       if flt F64 distToCeil distToFloor then ceil
       else if feq F64 distToCeil distToFloor && feq F64 (mathFloor h) h then ceil
       else floor
     else f).

(** ** The interpreter's helpers *)

Definition addFloat32bits : Z -> Z -> Z := fadd F32.
Definition subFloat32bits : Z -> Z -> Z := fsub F32.
Definition mulFloat32bits : Z -> Z -> Z := fmul F32.
Definition divFloat32bits : Z -> Z -> Z := fdiv F32.
Definition wasmCompatMax32bits : Z -> Z -> Z := WasmCompatMax32.
Definition wasmCompatMin32bits : Z -> Z -> Z := WasmCompatMin32.

Definition flt_ (fm : format) (z1 z2 : Z) : bool :=
  if isNaN fm z1 || isNaN fm z2 then false
  else if feq fm z1 z2 then false
  else if isInf fm z1 false then false
  else if isInf fm z1 true then true
  else if isInf fm z2 false then true
  else if isInf fm z2 true then false
  else flt fm z1 z2.
Definition flt32 : Z -> Z -> bool := flt_ F32.
Definition flt64 : Z -> Z -> bool := flt_ F64.

(** [float32(math.Sqrt(float64(x)))] *)
Definition sqrtF32 (x : Z) : Z := demote (mathSqrt (promote x)).

End Floats.
