(* ===== verification/Numeric.v ===== *)
(** * Scalar instructions of the interpreter (callNativeFunc of src/internal/engine/interpreter/interpreter.go)

    What the cases of the loop do with the values they pop: a stack slot is a
    64-bit word.  A trap is [Err] with the message of wasmruntime.  The switch
    over the operand type has no default: [None] is the case in which nothing
    is pushed. *)

From S2P Require Import Prelude Signature Operations GoFloat.

(** ** Traps (src/internal/wasmruntime/errors.go) *)

Definition ErrRuntimeStackOverflow : string := "stack overflow".
Definition ErrRuntimeInvalidConversionToInteger : string := "invalid conversion to integer".
Definition ErrRuntimeIntegerOverflow : string := "integer overflow".
Definition ErrRuntimeIntegerDivideByZero : string := "integer divide by zero".
Definition ErrRuntimeUnreachable : string := "unreachable".
Definition ErrRuntimeOutOfBoundsMemoryAccess : string := "out of bounds memory access".
Definition ErrRuntimeInvalidTableAccess : string := "invalid table access".
Definition ErrRuntimeIndirectCallTypeMismatch : string := "indirect call type mismatch".
Definition ErrRuntimeUnalignedAtomic : string := "unaligned atomic".
Definition ErrRuntimeExpectedSharedMemory : string := "expected shared memory".
Definition ErrRuntimeTooManyWaiters : string := "too many waiters".
Definition ErrRuntimeUncaughtException : string := "uncaught exception".
Definition ErrRuntimeNullReference : string := "null reference".

(** ** Words *)

Definition bit (b : bool) : Z := if b then 1 else 0.
(** [x &^ y] and [^x] on 64-bit words *)
Definition andNot (x y : Z) : Z := Z.ldiff x y.
Definition not64 (x : Z) : Z := Z.lxor x (2 ^ 64 - 1).
Definition shl64 (x s : Z) : Z := wrap64 (Z.shiftl x s).

(** Package math/bits, on words of [w] bits *)
Definition LeadingZeros (w x : Z) : Z := if x =? 0 then w else w - 1 - Z.log2 x.
Fixpoint countTrailing (n : nat) (x : Z) : Z :=
  match n with O => 0 | S n' => if Z.odd x then 0 else 1 + countTrailing n' (Z.div2 x) end.
Definition TrailingZeros (w x : Z) : Z := countTrailing (Z.to_nat w) x.
Fixpoint countOnes (n : nat) (x : Z) : Z :=
  match n with O => 0 | S n' => Z.b2z (Z.odd x) + countOnes n' (Z.div2 x) end.
Definition OnesCount (w x : Z) : Z := countOnes (Z.to_nat w) x.
(** [s := uint(k) & (w - 1); return x<<s | x>>(w-s)]; a shift by [w] is zero. *)
Definition RotateLeft (w x k : Z) : Z :=
  let s := k mod w in Z.lor (Z.shiftl x s mod 2 ^ w) (Z.shiftr x (w - s)).

Section Numeric.
Context `{N : NaNs}.

(** ** Comparisons *)

Definition evalEq (t v1 v2 : Z) : bool :=
  if t =? unsignedTypeI32 then wrap32 v1 =? wrap32 v2
  else if t =? unsignedTypeI64 then v1 =? v2
  else if t =? unsignedTypeF32 then feq F32 (wrap32 v2) (wrap32 v1)
  else if t =? unsignedTypeF64 then feq F64 v2 v1
  else false.
Definition evalNe (t v1 v2 : Z) : bool :=
  if t =? unsignedTypeI32 then negb (wrap32 v1 =? wrap32 v2)
  else if t =? unsignedTypeI64 then negb (v1 =? v2)
  else if t =? unsignedTypeF32 then negb (feq F32 (wrap32 v2) (wrap32 v1))
  else if t =? unsignedTypeF64 then negb (feq F64 v2 v1)
  else false.
Definition evalEqz (t v : Z) : bool := (if t =? unsignedInt32 then wrap32 v else v) =? 0.

(** The four orderings, by the comparison of integers and that of floats. *)
Definition evalOrder (int : Z -> Z -> bool) (float : format -> Z -> Z -> bool) (t v1 v2 : Z) : bool :=
  if t =? signedTypeInt32 then int (sgn32 v1) (sgn32 v2)
  else if t =? signedTypeInt64 then int (sgn64 v1) (sgn64 v2)
  else if t =? signedTypeUint32 then int (wrap32 v1) (wrap32 v2)
  else if t =? signedTypeUint64 then int v1 v2
  else if t =? signedTypeFloat32 then float F32 (wrap32 v1) (wrap32 v2)
  else if t =? signedTypeFloat64 then float F64 v1 v2
  else false.
Definition evalLt : Z -> Z -> Z -> bool := evalOrder Z.ltb flt.
Definition evalGt : Z -> Z -> Z -> bool := evalOrder Z.gtb (fun fm x y => flt fm y x).
Definition evalLe : Z -> Z -> Z -> bool := evalOrder Z.leb fle.
Definition evalGe : Z -> Z -> Z -> bool := evalOrder Z.geb (fun fm x y => fle fm y x).

(** ** Arithmetic *)

Definition evalArith (int : Z -> Z -> Z) (float : format -> Z -> Z -> Z) (t v1 v2 : Z) : option Z :=
  if t =? unsignedTypeI32 then Some (wrap32 (int (wrap32 v1) (wrap32 v2)))
  else if t =? unsignedTypeI64 then Some (wrap64 (int v1 v2))
  else if t =? unsignedTypeF32 then Some (float F32 (wrap32 v1) (wrap32 v2))
  else if t =? unsignedTypeF64 then Some (float F64 v1 v2)
  else None.
Definition evalAdd : Z -> Z -> Z -> option Z := evalArith Z.add fadd.
Definition evalSub : Z -> Z -> Z -> option Z := evalArith Z.sub fsub.
(** Float64 operands are multiplied in the other order. *)
Definition evalMul : Z -> Z -> Z -> option Z :=
  evalArith Z.mul (fun fm x y => if f_prec fm =? 24 then fmul fm x y else fmul fm y x).

Definition evalClz (t v : Z) : Z := if t =? 0 then LeadingZeros 32 (wrap32 v) else LeadingZeros 64 v.
Definition evalCtz (t v : Z) : Z := if t =? 0 then TrailingZeros 32 (wrap32 v) else TrailingZeros 64 v.
Definition evalPopcnt (t v : Z) : Z := if t =? 0 then OnesCount 32 (wrap32 v) else OnesCount 64 v.

Definition evalDiv (t v1 v2 : Z) : res (option Z) :=
  let! _ := (if one_of t [signedTypeFloat32; signedTypeFloat64] then Ok tt
             else if one_of t [signedTypeInt32; signedTypeUint32] then
               if wrap32 v2 =? 0 then Err ErrRuntimeIntegerDivideByZero else Ok tt
             else if v2 =? 0 then Err ErrRuntimeIntegerDivideByZero else Ok tt) in
  if t =? signedTypeInt32 then
    let d := sgn32 v2 in let n := sgn32 v1 in
    if (n =? - 2 ^ 31) && (d =? -1) then Err ErrRuntimeIntegerOverflow else Ok (Some (wrap32 (Z.quot n d)))
  else if t =? signedTypeInt64 then
    let d := sgn64 v2 in let n := sgn64 v1 in
    if (n =? - 2 ^ 63) && (d =? -1) then Err ErrRuntimeIntegerOverflow else Ok (Some (wrap64 (Z.quot n d)))
  else if t =? signedTypeUint32 then Ok (Some (wrap32 v1 / wrap32 v2))
  else if t =? signedTypeUint64 then Ok (Some (v1 / v2))
  else if t =? signedTypeFloat32 then Ok (Some (fdiv F32 (wrap32 v1) (wrap32 v2)))
  else if t =? signedTypeFloat64 then Ok (Some (fdiv F64 v1 v2))
  else Ok None.

Definition evalRem (t v1 v2 : Z) : res (option Z) :=
  let! _ := (if one_of t [signedInt32; signedUint32] then
               if wrap32 v2 =? 0 then Err ErrRuntimeIntegerDivideByZero else Ok tt
             else if v2 =? 0 then Err ErrRuntimeIntegerDivideByZero else Ok tt) in
  Ok (if t =? signedInt32 then Some (wrap32 (Z.rem (sgn32 v1) (sgn32 v2)))
      else if t =? signedInt64 then Some (wrap64 (Z.rem (sgn64 v1) (sgn64 v2)))
      else if t =? signedUint32 then Some (wrap32 v1 mod wrap32 v2)
      else if t =? signedUint64 then Some (v1 mod v2)
      else None).

(** ** Bits *)

Definition evalBits (f : Z -> Z -> Z) (t v1 v2 : Z) : Z := if t =? 0 then f (wrap32 v2) (wrap32 v1) else f v2 v1.
Definition evalAnd : Z -> Z -> Z -> Z := evalBits Z.land.
Definition evalOr : Z -> Z -> Z -> Z := evalBits Z.lor.
Definition evalXor : Z -> Z -> Z -> Z := evalBits Z.lxor.
Definition evalShl (t v1 v2 : Z) : Z :=
  if t =? 0 then wrap32 (Z.shiftl (wrap32 v1) (wrap32 v2 mod 32)) else wrap64 (Z.shiftl v1 (v2 mod 64)).
Definition evalShr (t v1 v2 : Z) : option Z :=
  if t =? signedInt32 then Some (wrap32 (Z.shiftr (sgn32 v1) (wrap32 v2 mod 32)))
  else if t =? signedInt64 then Some (wrap64 (Z.shiftr (sgn64 v1) (v2 mod 64)))
  else if t =? signedUint32 then Some (Z.shiftr (wrap32 v1) (wrap32 v2 mod 32))
  else if t =? signedUint64 then Some (Z.shiftr v1 (v2 mod 64))
  else None.
Definition evalRotl (t v1 v2 : Z) : Z := if t =? 0 then RotateLeft 32 (wrap32 v1) (sgn64 v2) else RotateLeft 64 v1 (sgn64 v2).
Definition evalRotr (t v1 v2 : Z) : Z :=
  if t =? 0 then RotateLeft 32 (wrap32 v1) (sgn64 (- sgn64 v2)) else RotateLeft 64 v1 (sgn64 (- sgn64 v2)).

(** ** Floats *)

Definition evalAbs (t v : Z) : Z := if t =? 0 then andNot (wrap32 v) (2 ^ 31) else andNot v (2 ^ 63).
(** The unary operations of both widths. *)
Definition evalFloat (f32 f64 : Z -> Z) (t v : Z) : Z := if t =? 0 then f32 (wrap32 v) else f64 v.
Definition evalNeg : Z -> Z -> Z := evalFloat (fneg F32) (fneg F64).
Definition evalCeil : Z -> Z -> Z := evalFloat WasmCompatCeilF32 WasmCompatCeilF64.
Definition evalFloor : Z -> Z -> Z := evalFloat WasmCompatFloorF32 WasmCompatFloorF64.
Definition evalTrunc : Z -> Z -> Z := evalFloat WasmCompatTruncF32 WasmCompatTruncF64.
Definition evalNearest : Z -> Z -> Z := evalFloat WasmCompatNearestF32 WasmCompatNearestF64.
Definition evalSqrt : Z -> Z -> Z := evalFloat sqrtF32 mathSqrt.
(** The float32 operands are passed in the order they are popped. *)
Definition evalMin (t v1 v2 : Z) : Z := if t =? 0 then wasmCompatMin32bits (wrap32 v2) (wrap32 v1) else WasmCompatMin64 v1 v2.
Definition evalMax (t v1 v2 : Z) : Z := if t =? 0 then wasmCompatMax32bits (wrap32 v2) (wrap32 v1) else WasmCompatMax64 v1 v2.
Definition evalCopysign (t v1 v2 : Z) : Z :=
  if t =? 0 then Z.lor (andNot (wrap32 v1) (2 ^ 31)) (Z.land (wrap32 v2) (2 ^ 31))
  else Z.lor (andNot v1 (2 ^ 63)) (Z.land v2 (2 ^ 63)).

(** ** Conversions *)

(** [min] and [max] as float64, and as the integers of the result; [above]: [v > max] or [v >= max]. *)
Definition truncTo (lo hi : Z) (above : Z -> Z -> bool) (nonTrapping : bool) (v : Z) : res Z :=
  if isNaN F64 v then if nonTrapping then Ok 0 else Err ErrRuntimeInvalidConversionToInteger
  else if flt F64 v (ofInt F64 lo) || above v (ofInt F64 hi) then
    if nonTrapping then Ok (if flt F64 v 0 then lo else hi) else Err ErrRuntimeIntegerOverflow
  else Ok (toInt v).

Definition fgt64 (x y : Z) : bool := flt F64 y x.
Definition fge64 (x y : Z) : bool := fle F64 y x.

Definition evalITruncFromF (inputType outputType : Z) (nonTrapping : bool) (v : Z) : res (option Z) :=
  let v := mathTrunc (if inputType =? 0 then promote (wrap32 v) else v) in
  if outputType =? signedInt32 then let! r := truncTo (- 2 ^ 31) (2 ^ 31 - 1) fgt64 nonTrapping v in Ok (Some (wrap32 r))
  else if outputType =? signedInt64 then let! r := truncTo (- 2 ^ 63) (2 ^ 63 - 1) fge64 nonTrapping v in Ok (Some (wrap64 r))
  else if outputType =? signedUint32 then let! r := truncTo 0 (2 ^ 32 - 1) fgt64 nonTrapping v in Ok (Some (wrap32 r))
  else if outputType =? signedUint64 then let! r := truncTo 0 (2 ^ 64 - 1) fge64 nonTrapping v in Ok (Some (wrap64 r))
  else Ok None.

Definition evalFConvertFromI (inputType outputType v : Z) : option Z :=
  let fm := if outputType =? 0 then F32 else F64 in
  if inputType =? signedInt32 then Some (ofInt fm (sgn32 v))
  else if inputType =? signedInt64 then Some (ofInt fm (sgn64 v))
  else if inputType =? signedUint32 then Some (ofInt fm (wrap32 v))
  else if inputType =? signedUint64 then Some (ofInt fm v)
  else None.

Definition evalExtend (signed v : Z) : Z := if signed =? 1 then wrap64 (sgn32 v) else wrap32 v.

(** ** By operation *)

Definition pushed (z : Z) : res (option Z) := Ok (Some z).

(** The operations that pop one value. *)
Definition unaryOperation (op : unionOperation) : option (Z -> res (option Z)) :=
  match OpKind op with
  | operationKindEqz => Some (fun v => pushed (bit (evalEqz (B1 op) v)))
  | operationKindClz => Some (fun v => pushed (evalClz (B1 op) v))
  | operationKindCtz => Some (fun v => pushed (evalCtz (B1 op) v))
  | operationKindPopcnt => Some (fun v => pushed (evalPopcnt (B1 op) v))
  | operationKindAbs => Some (fun v => pushed (evalAbs (B1 op) v))
  | operationKindNeg => Some (fun v => pushed (evalNeg (B1 op) v))
  | operationKindCeil => Some (fun v => pushed (evalCeil (B1 op) v))
  | operationKindFloor => Some (fun v => pushed (evalFloor (B1 op) v))
  | operationKindTrunc => Some (fun v => pushed (evalTrunc (B1 op) v))
  | operationKindNearest => Some (fun v => pushed (evalNearest (B1 op) v))
  | operationKindSqrt => Some (fun v => pushed (evalSqrt (B1 op) v))
  | operationKindI32WrapFromI64 => Some (fun v => pushed (wrap32 v))
  | operationKindITruncFromF => Some (evalITruncFromF (B1 op) (B2 op) (B3 op))
  | operationKindFConvertFromI => Some (fun v => Ok (evalFConvertFromI (B1 op) (B2 op) v))
  | operationKindF32DemoteFromF64 => Some (fun v => pushed (demote v))
  | operationKindF64PromoteFromF32 => Some (fun v => pushed (promote (wrap32 v)))
  | operationKindExtend => Some (fun v => pushed (evalExtend (B1 op) v))
  | operationKindSignExtend32From8 => Some (fun v => pushed (wrap32 (sgn 8 v)))
  | operationKindSignExtend32From16 => Some (fun v => pushed (wrap32 (sgn 16 v)))
  | operationKindSignExtend64From8 => Some (fun v => pushed (wrap64 (sgn 8 v)))
  | operationKindSignExtend64From16 => Some (fun v => pushed (wrap64 (sgn 16 v)))
  | operationKindSignExtend64From32 => Some (fun v => pushed (wrap64 (sgn 32 v)))
  | _ => None
  end.

(** The operations that pop two values, the second operand first. *)
Definition binaryOperation (op : unionOperation) : option (Z -> Z -> res (option Z)) :=
  match OpKind op with
  | operationKindEq => Some (fun v1 v2 => pushed (bit (evalEq (B1 op) v1 v2)))
  | operationKindNe => Some (fun v1 v2 => pushed (bit (evalNe (B1 op) v1 v2)))
  | operationKindLt => Some (fun v1 v2 => pushed (bit (evalLt (B1 op) v1 v2)))
  | operationKindGt => Some (fun v1 v2 => pushed (bit (evalGt (B1 op) v1 v2)))
  | operationKindLe => Some (fun v1 v2 => pushed (bit (evalLe (B1 op) v1 v2)))
  | operationKindGe => Some (fun v1 v2 => pushed (bit (evalGe (B1 op) v1 v2)))
  | operationKindAdd => Some (fun v1 v2 => Ok (evalAdd (B1 op) v1 v2))
  | operationKindSub => Some (fun v1 v2 => Ok (evalSub (B1 op) v1 v2))
  | operationKindMul => Some (fun v1 v2 => Ok (evalMul (B1 op) v1 v2))
  | operationKindDiv => Some (evalDiv (B1 op))
  | operationKindRem => Some (evalRem (B1 op))
  | operationKindAnd => Some (fun v1 v2 => pushed (evalAnd (B1 op) v1 v2))
  | operationKindOr => Some (fun v1 v2 => pushed (evalOr (B1 op) v1 v2))
  | operationKindXor => Some (fun v1 v2 => pushed (evalXor (B1 op) v1 v2))
  | operationKindShl => Some (fun v1 v2 => pushed (evalShl (B1 op) v1 v2))
  | operationKindShr => Some (fun v1 v2 => Ok (evalShr (B1 op) v1 v2))
  | operationKindRotl => Some (fun v1 v2 => pushed (evalRotl (B1 op) v1 v2))
  | operationKindRotr => Some (fun v1 v2 => pushed (evalRotr (B1 op) v1 v2))
  | operationKindMin => Some (fun v1 v2 => pushed (evalMin (B1 op) v1 v2))
  | operationKindMax => Some (fun v1 v2 => pushed (evalMax (B1 op) v1 v2))
  | operationKindCopysign => Some (fun v1 v2 => pushed (evalCopysign (B1 op) v1 v2))
  | _ => None
  end.

End Numeric.
