(* ===== verification/Vector.v ===== *)
(** * Vector instructions of the interpreter (callNativeFunc of src/internal/engine/interpreter/interpreter.go)

    A v128 is the pair of its low and high words, which are pushed in this
    order.  The source writes out, or loops over, the lanes of both words: a
    lane is cut out by a shift and a conversion, and the results are joined by
    shifts and [|].  [join] is that expression for the lanes of one word. *)

From S2P Require Import Prelude Signature Operations GoFloat Numeric.

Definition v128 : Type := Z * Z.

(** ** Lanes of a word *)

(** [uint8(x >> (i*8))] and the like *)
Definition lane (w x i : Z) : Z := Z.shiftr x (i * w) mod 2 ^ w.
(** [f(0) | f(1)<<8 | f(2)<<16 | ...], up to the width of a word *)
Definition join (w : Z) (f : Z -> Z) : Z :=
  foldr (fun i acc => Z.lor (Z.shiftl (f i) (i * w)) acc) 0 (seqZ 0 (64 / w)).

Definition each1 (w : Z) (f : Z -> Z) (x : Z) : Z := join w (fun i => f (lane w x i)).
Definition each2 (w : Z) (f : Z -> Z -> Z) (x y : Z) : Z := join w (fun i => f (lane w x i) (lane w y i)).
Definition lanes1 (w : Z) (f : Z -> Z) (x : v128) : v128 := (each1 w f (fst x), each1 w f (snd x)).
Definition lanes2 (w : Z) (f : Z -> Z -> Z) (x y : v128) : v128 := (each2 w f (fst x) (fst y), each2 w f (snd x) (snd y)).

(** A result of [w] bits. *)
Definition word (w z : Z) : Z := z mod 2 ^ w.

Section Vector.
Context `{N : NaNs}.

(** ** Arithmetic *)

(** [x] is the first operand, [y] the second.  With another shape nothing is pushed. *)
Definition v128Add (shape : Z) (x y : v128) : option v128 :=
  if shape =? shapeI8x16 then Some (lanes2 8 (fun a b => word 8 (a + b)) x y)
  else if shape =? shapeI16x8 then Some (lanes2 16 (fun a b => word 16 (a + b)) x y)
  else if shape =? shapeI32x4 then Some (lanes2 32 (fun a b => word 32 (a + b)) x y)
  else if shape =? shapeI64x2 then Some (wrap64 (fst x + fst y), wrap64 (snd x + snd y))
  else if shape =? shapeF32x4 then Some (lanes2 32 addFloat32bits x y)
  else if shape =? shapeF64x2 then Some (fadd F64 (fst x) (fst y), fadd F64 (snd x) (snd y))
  else None.

Definition v128Sub (shape : Z) (x y : v128) : option v128 :=
  if shape =? shapeI8x16 then Some (lanes2 8 (fun a b => word 8 (a - b)) x y)
  else if shape =? shapeI16x8 then Some (lanes2 16 (fun a b => word 16 (a - b)) x y)
  else if shape =? shapeI32x4 then Some (lanes2 32 (fun a b => word 32 (a - b)) x y)
  else if shape =? shapeI64x2 then Some (wrap64 (fst x - fst y), wrap64 (snd x - snd y))
  else if shape =? shapeF32x4 then Some (lanes2 32 subFloat32bits x y)
  else if shape =? shapeF64x2 then Some (fsub F64 (fst x) (fst y), fsub F64 (snd x) (snd y))
  else None.

(** [var retLo, retHi uint64] where no case applies. *)
Definition zero128 : v128 := (0, 0).

Definition v128Mul (shape : Z) (x y : v128) : v128 :=
  if shape =? shapeI16x8 then lanes2 16 (fun a b => word 16 (a * b)) x y
  else if shape =? shapeI32x4 then lanes2 32 (fun a b => word 32 (a * b)) x y
  else if shape =? shapeI64x2 then (wrap64 (fst x * fst y), wrap64 (snd x * snd y))
  else if shape =? shapeF32x4 then lanes2 32 mulFloat32bits x y
  else if shape =? shapeF64x2 then (fmul F64 (fst x) (fst y), fmul F64 (snd x) (snd y))
  else zero128.

Definition v128Div (shape : Z) (x y : v128) : v128 :=
  if shape =? shapeF64x2 then (fdiv F64 (fst x) (fst y), fdiv F64 (snd x) (snd y)) else lanes2 32 divFloat32bits x y.

(** Lane-wise addition and subtraction with saturation: [lo] and [hi] are the bounds of the lane type. *)
Definition saturate (w lo hi z : Z) : Z := if z <? lo then word w lo else if z >? hi then word w hi else word w z.
Definition satLane (w : Z) (signed : bool) (f : Z -> Z -> Z) (v u : Z) : Z :=
  if signed then saturate w (- 2 ^ (w - 1)) (2 ^ (w - 1) - 1) (f (sgn w v) (sgn w u)) else saturate w 0 (2 ^ w - 1) (f v u).

Definition v128AddSat (shape : Z) (signed : bool) (x y : v128) : v128 :=
  if shape =? shapeI8x16 then lanes2 8 (satLane 8 signed Z.add) x y
  else if shape =? shapeI16x8 then lanes2 16 (satLane 16 signed Z.add) x y
  else zero128.
Definition v128SubSat (shape : Z) (signed : bool) (x y : v128) : v128 :=
  if shape =? shapeI8x16 then lanes2 8 (satLane 8 signed Z.sub) x y
  else if shape =? shapeI16x8 then lanes2 16 (satLane 16 signed Z.sub) x y
  else zero128.

Definition v128Neg (shape : Z) (x : v128) : v128 :=
  if shape =? shapeI8x16 then lanes1 8 (fun a => word 8 (- a)) x
  else if shape =? shapeI16x8 then lanes1 16 (fun a => word 16 (- a)) x
  else if shape =? shapeI32x4 then lanes1 32 (fun a => word 32 (- a)) x
  else if shape =? shapeI64x2 then (wrap64 (- fst x), wrap64 (- snd x))
  else if shape =? shapeF32x4 then lanes1 32 (fneg F32) x
  else if shape =? shapeF64x2 then (fneg F64 (fst x), fneg F64 (snd x))
  else x.

(** [i8Abs], [i16Abs] and [i32Abs] *)
Definition laneAbs (w v : Z) : Z := let i := sgn w v in if i <? 0 then word w (- i) else word w i.

Definition v128Abs (shape : Z) (x : v128) : v128 :=
  if shape =? shapeI8x16 then lanes1 8 (laneAbs 8) x
  else if shape =? shapeI16x8 then lanes1 16 (laneAbs 16) x
  else if shape =? shapeI32x4 then lanes1 32 (laneAbs 32) x
  else if shape =? shapeI64x2 then
    (if sgn64 (fst x) <? 0 then wrap64 (- fst x) else fst x, if sgn64 (snd x) <? 0 then wrap64 (- snd x) else snd x)
  else if shape =? shapeF32x4 then (andNot (fst x) (2 ^ 31 + 2 ^ 63), andNot (snd x) (2 ^ 31 + 2 ^ 63))
  else if shape =? shapeF64x2 then (andNot (fst x) (2 ^ 63), andNot (snd x) (2 ^ 63))
  else x.

(** The unary float operations: [F32x4] or else [F64x2]. *)
Definition v128Float (f32 f64 : Z -> Z) (shape : Z) (x : v128) : v128 :=
  if shape =? shapeF32x4 then lanes1 32 f32 x else (f64 (fst x), f64 (snd x)).
Definition v128Sqrt (shape : Z) (x : v128) : v128 :=
  if shape =? shapeF64x2 then (mathSqrt (fst x), mathSqrt (snd x)) else lanes1 32 sqrtF32 x.
Definition v128Ceil : Z -> v128 -> v128 := v128Float WasmCompatCeilF32 WasmCompatCeilF64.
Definition v128Floor : Z -> v128 -> v128 := v128Float WasmCompatFloorF32 WasmCompatFloorF64.
Definition v128Trunc : Z -> v128 -> v128 := v128Float WasmCompatTruncF32 WasmCompatTruncF64.
Definition v128Nearest : Z -> v128 -> v128 := v128Float WasmCompatNearestF32 WasmCompatNearestF64.

Definition v128Popcnt (x : v128) : v128 := lanes1 8 (OnesCount 8) x.

(** [i8MinS], [i8MinU] and so on for the widths 8, 16 and 32 *)
Definition laneMinS (w v1 v2 : Z) : Z := if sgn w v1 >? sgn w v2 then v2 else v1.
Definition laneMinU (v1 v2 : Z) : Z := if v1 >? v2 then v2 else v1.
Definition laneMaxS (w v1 v2 : Z) : Z := if sgn w v1 <? sgn w v2 then v2 else v1.
Definition laneMaxU (v1 v2 : Z) : Z := if v1 <? v2 then v2 else v1.

Definition v128Min (shape : Z) (signed : bool) (x y : v128) : v128 :=
  if shape =? shapeI8x16 then lanes2 8 (if signed then laneMinS 8 else laneMinU) x y
  else if shape =? shapeI16x8 then lanes2 16 (if signed then laneMinS 16 else laneMinU) x y
  else if shape =? shapeI32x4 then lanes2 32 (if signed then laneMinS 32 else laneMinU) x y
  else if shape =? shapeF32x4 then lanes2 32 wasmCompatMin32bits x y
  else if shape =? shapeF64x2 then (WasmCompatMin64 (fst x) (fst y), WasmCompatMin64 (snd x) (snd y))
  else zero128.
Definition v128Max (shape : Z) (signed : bool) (x y : v128) : v128 :=
  if shape =? shapeI8x16 then lanes2 8 (if signed then laneMaxS 8 else laneMaxU) x y
  else if shape =? shapeI16x8 then lanes2 16 (if signed then laneMaxS 16 else laneMaxU) x y
  else if shape =? shapeI32x4 then lanes2 32 (if signed then laneMaxS 32 else laneMaxU) x y
  else if shape =? shapeF32x4 then lanes2 32 wasmCompatMax32bits x y
  else if shape =? shapeF64x2 then (WasmCompatMax64 (fst x) (fst y), WasmCompatMax64 (snd x) (snd y))
  else zero128.

(** [i8RoundingAverage] and [i16RoundingAverage]: the sum is in a wider type. *)
Definition roundingAverage (w v1 v2 : Z) : Z := word w (word (2 * w) (v1 + v2 + 1) / 2).
Definition v128AvgrU (shape : Z) (x y : v128) : v128 :=
  if shape =? shapeI8x16 then lanes2 8 (roundingAverage 8) x y
  else if shape =? shapeI16x8 then lanes2 16 (roundingAverage 16) x y
  else zero128.

Definition v128Pmin (shape : Z) (x y : v128) : v128 :=
  if shape =? shapeF32x4 then lanes2 32 (fun a b => if flt32 b a then b else a) x y
  else (if flt64 (fst y) (fst x) then fst y else fst x, if flt64 (snd y) (snd x) then snd y else snd x).
Definition v128Pmax (shape : Z) (x y : v128) : v128 :=
  if shape =? shapeF32x4 then lanes2 32 (fun a b => if flt32 a b then b else a) x y
  else (if flt64 (fst x) (fst y) then fst y else fst x, if flt64 (snd x) (snd y) then snd y else snd x).

(** ** Bits *)

Definition v128And (x y : v128) : v128 := (Z.land (fst x) (fst y), Z.land (snd x) (snd y)).
Definition v128Or (x y : v128) : v128 := (Z.lor (fst x) (fst y), Z.lor (snd x) (snd y)).
Definition v128Xor (x y : v128) : v128 := (Z.lxor (fst x) (fst y), Z.lxor (snd x) (snd y)).
Definition v128Not (x : v128) : v128 := (not64 (fst x), not64 (snd x)).
Definition v128AndNot (x y : v128) : v128 := (Z.land (fst x) (not64 (fst y)), Z.land (snd x) (not64 (snd y))).
Definition v128Bitselect (x y c : v128) : v128 :=
  (Z.lor (Z.land (fst x) (fst c)) (Z.land (fst y) (not64 (fst c))),
   Z.lor (Z.land (snd x) (snd c)) (Z.land (snd y) (not64 (snd c)))).

(** The shift count is taken modulo the width of a lane. *)
Definition v128Shl (shape : Z) (x : v128) (s : Z) : v128 :=
  if shape =? shapeI8x16 then lanes1 8 (fun a => word 8 (Z.shiftl a (s mod 8))) x
  else if shape =? shapeI16x8 then lanes1 16 (fun a => word 16 (Z.shiftl a (s mod 16))) x
  else if shape =? shapeI32x4 then lanes1 32 (fun a => word 32 (Z.shiftl a (s mod 32))) x
  else if shape =? shapeI64x2 then (wrap64 (Z.shiftl (fst x) (s mod 64)), wrap64 (Z.shiftl (snd x) (s mod 64)))
  else x.
Definition shrLane (w : Z) (signed : bool) (s a : Z) : Z :=
  if signed then word w (Z.shiftr (sgn w a) s) else Z.shiftr a s.
Definition v128Shr (shape : Z) (signed : bool) (x : v128) (s : Z) : v128 :=
  if shape =? shapeI8x16 then lanes1 8 (shrLane 8 signed (s mod 8)) x
  else if shape =? shapeI16x8 then lanes1 16 (shrLane 16 signed (s mod 16)) x
  else if shape =? shapeI32x4 then lanes1 32 (shrLane 32 signed (s mod 32)) x
  else if shape =? shapeI64x2 then (shrLane 64 signed (s mod 64) (fst x), shrLane 64 signed (s mod 64) (snd x))
  else x.

(** ** Tests *)

Definition v128AnyTrue (x : v128) : bool := negb (snd x =? 0) || negb (fst x =? 0).
Definition lanesOf (w x : Z) : list Z := map (lane w x) (seqZ 0 (64 / w)).
Definition allLanes (w : Z) (x : v128) : bool := forallb (fun a => negb (a =? 0)) (lanesOf w (fst x) ++ lanesOf w (snd x)).
Definition v128AllTrue (shape : Z) (x : v128) : bool :=
  if shape =? shapeI8x16 then allLanes 8 x
  else if shape =? shapeI16x8 then allLanes 16 x
  else if shape =? shapeI32x4 then allLanes 32 x
  else if shape =? shapeI64x2 then negb (fst x =? 0) && negb (snd x =? 0)
  else false.

(** The loops that set the bit [i] for every negative lane [i]. *)
Definition bitMask (w : Z) (x : v128) : Z :=
  let n := 64 / w in
  foldl (fun r i => Z.lor r (Z.shiftl 1 i)) 0
    (filter (fun i => sgn w (if i <? n then lane w (fst x) i else lane w (snd x) (i - n)) < 0) (seqZ 0 (2 * n))).
Definition v128BitMask (shape : Z) (x : v128) : Z :=
  if shape =? shapeI8x16 then bitMask 8 x
  else if shape =? shapeI16x8 then bitMask 16 x
  else if shape =? shapeI32x4 then bitMask 32 x
  else if shape =? shapeI64x2 then
    Z.lor (if sgn64 (fst x) <? 0 then 1 else 0) (if sgn64 (snd x) <? 0 then 2 else 0)
  else 0.

(** ** Comparisons *)

Definition fgt (fm : format) (x y : Z) : bool := flt fm y x.
Definition fge (fm : format) (x y : Z) : bool := fle fm y x.
Definition signed (w : Z) (f : Z -> Z -> bool) (x y : Z) : bool := f (sgn w x) (sgn w y).
Definition neqb (x y : Z) : bool := negb (x =? y).

(** The width of the lanes and the comparison: the list [result] of the source. *)
Definition cmpLane (t : Z) : option (Z * (Z -> Z -> bool)) :=
  if t =? v128CmpTypeI8x16Eq then Some (8, Z.eqb)
  else if t =? v128CmpTypeI8x16Ne then Some (8, neqb)
  else if t =? v128CmpTypeI8x16LtS then Some (8, (signed 8 Z.ltb))
  else if t =? v128CmpTypeI8x16LtU then Some (8, Z.ltb)
  else if t =? v128CmpTypeI8x16GtS then Some (8, (signed 8 Z.gtb))
  else if t =? v128CmpTypeI8x16GtU then Some (8, Z.gtb)
  else if t =? v128CmpTypeI8x16LeS then Some (8, (signed 8 Z.leb))
  else if t =? v128CmpTypeI8x16LeU then Some (8, Z.leb)
  else if t =? v128CmpTypeI8x16GeS then Some (8, (signed 8 Z.geb))
  else if t =? v128CmpTypeI8x16GeU then Some (8, Z.geb)
  else if t =? v128CmpTypeI16x8Eq then Some (16, Z.eqb)
  else if t =? v128CmpTypeI16x8Ne then Some (16, neqb)
  else if t =? v128CmpTypeI16x8LtS then Some (16, (signed 16 Z.ltb))
  else if t =? v128CmpTypeI16x8LtU then Some (16, Z.ltb)
  else if t =? v128CmpTypeI16x8GtS then Some (16, (signed 16 Z.gtb))
  else if t =? v128CmpTypeI16x8GtU then Some (16, Z.gtb)
  else if t =? v128CmpTypeI16x8LeS then Some (16, (signed 16 Z.leb))
  else if t =? v128CmpTypeI16x8LeU then Some (16, Z.leb)
  else if t =? v128CmpTypeI16x8GeS then Some (16, (signed 16 Z.geb))
  else if t =? v128CmpTypeI16x8GeU then Some (16, Z.geb)
  else if t =? v128CmpTypeI32x4Eq then Some (32, Z.eqb)
  else if t =? v128CmpTypeI32x4Ne then Some (32, neqb)
  else if t =? v128CmpTypeI32x4LtS then Some (32, (signed 32 Z.ltb))
  else if t =? v128CmpTypeI32x4LtU then Some (32, Z.ltb)
  else if t =? v128CmpTypeI32x4GtS then Some (32, (signed 32 Z.gtb))
  else if t =? v128CmpTypeI32x4GtU then Some (32, Z.gtb)
  else if t =? v128CmpTypeI32x4LeS then Some (32, (signed 32 Z.leb))
  else if t =? v128CmpTypeI32x4LeU then Some (32, Z.leb)
  else if t =? v128CmpTypeI32x4GeS then Some (32, (signed 32 Z.geb))
  else if t =? v128CmpTypeI32x4GeU then Some (32, Z.geb)
  else if t =? v128CmpTypeI64x2Eq then Some (64, Z.eqb)
  else if t =? v128CmpTypeI64x2Ne then Some (64, neqb)
  else if t =? v128CmpTypeI64x2LtS then Some (64, (signed 64 Z.ltb))
  else if t =? v128CmpTypeI64x2GtS then Some (64, (signed 64 Z.gtb))
  else if t =? v128CmpTypeI64x2LeS then Some (64, (signed 64 Z.leb))
  else if t =? v128CmpTypeI64x2GeS then Some (64, (signed 64 Z.geb))
  else if t =? v128CmpTypeF32x4Eq then Some (32, (feq F32))
  else if t =? v128CmpTypeF32x4Ne then Some (32, (fun x y => negb (feq F32 x y)))
  else if t =? v128CmpTypeF32x4Lt then Some (32, (flt F32))
  else if t =? v128CmpTypeF32x4Gt then Some (32, (fgt F32))
  else if t =? v128CmpTypeF32x4Le then Some (32, (fle F32))
  else if t =? v128CmpTypeF32x4Ge then Some (32, (fge F32))
  else if t =? v128CmpTypeF64x2Eq then Some (64, (feq F64))
  else if t =? v128CmpTypeF64x2Ne then Some (64, (fun x y => negb (feq F64 x y)))
  else if t =? v128CmpTypeF64x2Lt then Some (64, (flt F64))
  else if t =? v128CmpTypeF64x2Gt then Some (64, (fgt F64))
  else if t =? v128CmpTypeF64x2Le then Some (64, (fle F64))
  else if t =? v128CmpTypeF64x2Ge then Some (64, (fge F64))
  else None.

(** A lane of the result is all ones or zero. *)
Definition maskLane (w : Z) (b : bool) : Z := if b then 2 ^ w - 1 else 0.
Definition v128Cmp (t : Z) (x y : v128) : v128 :=
  match cmpLane t with
  | Some (w, f) => lanes2 w (fun a b => maskLane w (f a b)) x y
  | None => zero128
  end.

(** ** Lanes *)

Definition byte (z : Z) : Z := wrap8 z.

(** [(x & ^(mask << s)) | v<<s] *)
Definition putLane (w x s v : Z) : Z := Z.lor (Z.land x (not64 (shl64 (2 ^ w - 1) s))) (shl64 v s).

(** The lane [i] of [w] bits is replaced; [i] is a byte, and so is the shift. *)
Definition replaceLane (w : Z) (x : v128) (i v : Z) : v128 :=
  let n := 64 / w in
  if i <? n then (putLane w (fst x) (byte (i * w)) (word w v), snd x)
  else (fst x, putLane w (snd x) (byte ((i - n) * w)) (word w v)).
Definition v128ReplaceLane (shape i : Z) (x : v128) (v : Z) : v128 :=
  if shape =? shapeI8x16 then replaceLane 8 x i v
  else if shape =? shapeI16x8 then replaceLane 16 x i v
  else if one_of shape [shapeI32x4; shapeF32x4] then replaceLane 32 x i v
  else if one_of shape [shapeI64x2; shapeF64x2] then if i =? 0 then (v, snd x) else (fst x, v)
  else x.

Definition extractLane (w : Z) (x : v128) (i : Z) : Z :=
  let n := 64 / w in
  if i <? n then word w (Z.shiftr (fst x) (byte (i * w))) else word w (Z.shiftr (snd x) (byte ((i - n) * w))).
Definition v128ExtractLane (shape i : Z) (signed : bool) (x : v128) : Z :=
  if shape =? shapeI8x16 then let u := extractLane 8 x i in if signed then wrap32 (sgn 8 u) else u
  else if shape =? shapeI16x8 then let u := extractLane 16 x i in if signed then wrap32 (sgn 16 u) else u
  else if one_of shape [shapeI32x4; shapeF32x4] then extractLane 32 x i
  else if one_of shape [shapeI64x2; shapeF64x2] then if i =? 0 then fst x else snd x
  else 0.

Definition splat (w v : Z) : v128 := let u := join w (fun _ => word w v) in (u, u).
Definition v128Splat (shape v : Z) : v128 :=
  if shape =? shapeI8x16 then splat 8 v
  else if shape =? shapeI16x8 then splat 16 v
  else if one_of shape [shapeI32x4; shapeF32x4] then splat 32 v
  else if one_of shape [shapeI64x2; shapeF64x2] then (v, v)
  else zero128.

(** [binary.LittleEndian.Uint64] of both halves of [newVal] *)
Definition ofBytes (newVal : list Z) : v128 := (le_decode (take 8 newVal), le_decode (drop 8 newVal)).
Definition byteAt (x : v128) (i : Z) : Z := if i <? 8 then lane 8 (fst x) i else lane 8 (snd x) (i - 8).

Definition v128Swizzle (base idx : v128) : v128 :=
  ofBytes (map (fun i => let id := byteAt idx i in if id <? 16 then byteAt base id else 0) (seqZ 0 16)).

(** [x] is the first operand: the lanes 0 to 15 of the concatenation. *)
Definition v128Shuffle (us : list Z) (x y : v128) : res v128 :=
  if zlen us >? 16 then Panic "index out of range"
  else
    let newVal := map (fun l => if l <? 16 then byteAt x l else if l <? 32 then byteAt y (l - 16) else 0) us in
    Ok (ofBytes (newVal ++ replicate (16 - length newVal) 0)).

(** ** Conversions *)

(** The lanes of one word, widened: [f] is applied to the lanes of [w] bits. *)
Definition widen (w : Z) (f : Z -> Z) (origin : Z) : v128 :=
  (join (2 * w) (fun i => f (lane w origin i)), join (2 * w) (fun i => f (lane w origin (i + 32 / w)))).
Definition extendLane (w : Z) (signed : bool) (a : Z) : Z := if signed then word (2 * w) (sgn w a) else a.

Definition v128Extend (shape : Z) (signed useLow : bool) (x : v128) : v128 :=
  let origin := if useLow then fst x else snd x in
  if shape =? shapeI8x16 then widen 8 (extendLane 8 signed) origin
  else if shape =? shapeI16x8 then widen 16 (extendLane 16 signed) origin
  else if shape =? shapeI32x4 then (extendLane 32 signed (wrap32 origin), extendLane 32 signed (wrap32 (Z.shiftr origin 32)))
  else zero128.

Definition mulLane (w : Z) (signed : bool) (a b : Z) : Z :=
  if signed then word (2 * w) (sgn w a * sgn w b) else word (2 * w) (a * b).
Definition widen2 (w : Z) (f : Z -> Z -> Z) (x y : Z) : v128 :=
  (join (2 * w) (fun i => f (lane w x i) (lane w y i)),
   join (2 * w) (fun i => f (lane w x (i + 32 / w)) (lane w y (i + 32 / w)))).
Definition v128ExtMul (shape : Z) (signed useLow : bool) (x y : v128) : v128 :=
  let x1 := if useLow then fst x else snd x in
  let x2 := if useLow then fst y else snd y in
  if shape =? shapeI8x16 then widen2 8 (mulLane 8 signed) x1 x2
  else if shape =? shapeI16x8 then widen2 16 (mulLane 16 signed) x1 x2
  else if shape =? shapeI32x4 then
    (mulLane 32 signed (wrap32 x1) (wrap32 x2), mulLane 32 signed (wrap32 (Z.shiftr x1 32)) (wrap32 (Z.shiftr x2 32)))
  else zero128.

Definition q15mulr (v u : Z) : Z :=
  saturate 16 (- 2 ^ 15) (2 ^ 15 - 1) (Z.shiftr (sgn32 (sgn32 (sgn 16 v * sgn 16 u) + 0x4000)) 15).
Definition v128Q15mulrSatS (x y : v128) : v128 := lanes2 16 q15mulr x y.

Definition pairwise (w : Z) (signed : bool) (x : Z) : Z :=
  join (2 * w) (fun i =>
    let v1 := lane w x (i * 2) in let v2 := lane w x (i * 2 + 1) in
    if signed then word (2 * w) (sgn w v1 + sgn w v2) else word (2 * w) (v1 + v2)).
Definition v128ExtAddPairwise (shape : Z) (signed : bool) (x : v128) : v128 :=
  if shape =? shapeI8x16 then (pairwise 8 signed (fst x), pairwise 8 signed (snd x))
  else if shape =? shapeI16x8 then (pairwise 16 signed (fst x), pairwise 16 signed (snd x))
  else zero128.

Definition v128FloatPromote (x : v128) : v128 := (promote (wrap32 (fst x)), promote (wrap32 (Z.shiftr (fst x) 32))).
Definition v128FloatDemote (x : v128) : v128 := (Z.lor (demote (fst x)) (Z.shiftl (demote (snd x)) 32), 0).

Definition v128FConvertFromI (shape : Z) (signed : bool) (x : v128) : v128 :=
  let int v := if signed then sgn32 v else v in
  if shape =? shapeF32x4 then lanes1 32 (fun v => ofInt F32 (int v)) x
  else if shape =? shapeF64x2 then (ofInt F64 (int (wrap32 (fst x))), ofInt F64 (int (wrap32 (Z.shiftr (fst x) 32))))
  else zero128.

(** The lanes of [w] bits of both words of [x], narrowed into one word. *)
Definition narrowLane (w : Z) (signed : bool) (v : Z) : Z :=
  let h := w / 2 in
  let s := sgn w v in
  if signed then if s >? 2 ^ (h - 1) - 1 then 2 ^ (h - 1) - 1 else if s <? - 2 ^ (h - 1) then word h (- 2 ^ (h - 1)) else word h v
  else if s >? 2 ^ h - 1 then 2 ^ h - 1 else if s <? 0 then 0 else word h v.
Definition narrow (w : Z) (signed : bool) (x : v128) : Z :=
  let n := 64 / w in
  join (w / 2) (fun i => narrowLane w signed (if i <? n then lane w (fst x) i else lane w (snd x) (i - n))).
Definition v128Narrow (shape : Z) (signed : bool) (x y : v128) : v128 :=
  if shape =? shapeI16x8 then (narrow 16 signed x, narrow 16 signed y)
  else if shape =? shapeI32x4 then (narrow 32 signed x, narrow 32 signed y)
  else zero128.

Definition dotWord (x y : Z) : Z :=
  let r i := sgn 16 (lane 16 x i) * sgn 16 (lane 16 y i) in join 32 (fun i => wrap32 (r (2 * i) + r (2 * i + 1))).
Definition v128Dot (x y : v128) : v128 := (dotWord (fst x) (fst y), dotWord (snd x) (snd y)).

(** [v] has been truncated. *)
Definition truncSat32 (signed : bool) (v : Z) : Z :=
  if isNaN F64 v then 0
  else if signed then
    if flt F64 v (ofInt F64 (- 2 ^ 31)) then word 32 (- 2 ^ 31)
    else if fgt F64 v (ofInt F64 (2 ^ 31 - 1)) then 2 ^ 31 - 1 else wrap32 (toInt v)
  else if flt F64 v 0 then 0 else if fgt F64 v (ofInt F64 (2 ^ 32 - 1)) then 2 ^ 32 - 1 else wrap32 (toInt v).
Definition v128ITruncSatFromF (shape : Z) (signed : bool) (x : v128) : v128 :=
  if shape =? shapeF32x4 then lanes1 32 (fun v => truncSat32 signed (mathTrunc (promote v))) x
  else if shape =? shapeF64x2 then
    (Z.lor (truncSat32 signed (mathTrunc (fst x))) (Z.shiftl (truncSat32 signed (mathTrunc (snd x))) 32), 0)
  else zero128.

(** ** By operation *)

Definition vectorUnary (op : unionOperation) : option (v128 -> v128) :=
  match OpKind op with
  | operationKindV128Not => Some v128Not
  | operationKindV128Neg => Some (v128Neg (B1 op))
  | operationKindV128Abs => Some (v128Abs (B1 op))
  | operationKindV128Sqrt => Some (v128Sqrt (B1 op))
  | operationKindV128Popcnt => Some v128Popcnt
  | operationKindV128Ceil => Some (v128Ceil (B1 op))
  | operationKindV128Floor => Some (v128Floor (B1 op))
  | operationKindV128Trunc => Some (v128Trunc (B1 op))
  | operationKindV128Nearest => Some (v128Nearest (B1 op))
  | operationKindV128Extend => Some (v128Extend (B1 op) (B2 op =? 1) (B3 op))
  | operationKindV128ExtAddPairwise => Some (v128ExtAddPairwise (B1 op) (B3 op))
  | operationKindV128FloatPromote => Some v128FloatPromote
  | operationKindV128FloatDemote => Some v128FloatDemote
  | operationKindV128FConvertFromI => Some (v128FConvertFromI (B1 op) (B3 op))
  | operationKindV128ITruncSatFromF => Some (v128ITruncSatFromF (B1 op) (B3 op))
  | _ => None
  end.

Definition vectorBinary (op : unionOperation) : option (v128 -> v128 -> res (option v128)) :=
  let pure f := Some (fun x y => Ok (Some (f x y))) in
  match OpKind op with
  | operationKindV128Add => Some (fun x y => Ok (v128Add (B1 op) x y))
  | operationKindV128Sub => Some (fun x y => Ok (v128Sub (B1 op) x y))
  | operationKindV128Swizzle => pure v128Swizzle
  | operationKindV128Shuffle => Some (fun x y => let! r := v128Shuffle (Us op) x y in Ok (Some r))
  | operationKindV128And => pure v128And
  | operationKindV128Or => pure v128Or
  | operationKindV128Xor => pure v128Xor
  | operationKindV128AndNot => pure v128AndNot
  | operationKindV128Cmp => pure (v128Cmp (B1 op))
  | operationKindV128AddSat => pure (v128AddSat (B1 op) (B3 op))
  | operationKindV128SubSat => pure (v128SubSat (B1 op) (B3 op))
  | operationKindV128Mul => pure (v128Mul (B1 op))
  | operationKindV128Div => pure (v128Div (B1 op))
  | operationKindV128Min => pure (v128Min (B1 op) (B3 op))
  | operationKindV128Max => pure (v128Max (B1 op) (B3 op))
  | operationKindV128AvgrU => pure (v128AvgrU (B1 op))
  | operationKindV128Pmin => pure (v128Pmin (B1 op))
  | operationKindV128Pmax => pure (v128Pmax (B1 op))
  | operationKindV128ExtMul => pure (v128ExtMul (B1 op) (B2 op =? 1) (B3 op))
  | operationKindV128Q15mulrSatS => pure v128Q15mulrSatS
  | operationKindV128Narrow => pure (v128Narrow (B1 op) (B3 op))
  | operationKindV128Dot => pure v128Dot
  | _ => None
  end.

End Vector.
