(* ===== verification/Machine.v ===== *)
(** * The state of the interpreter (src/internal/engine/interpreter/interpreter.go)

    A [callEngine] has a stack of words and a stack of call frames; both lists
    have their top first.  Guest code also works on the objects of the store:
    the [world] of [Instantiate], the functions of the module engines, the
    queues of waiters and the exceptions.

    Go code that panics leaves what it wrote: an action of the monad [X]
    returns the machine also when it raises.  A trap is the panic with a value
    of wasmruntime, a thrown exception one with a [thrownException]; [GoPanic]
    is a run-time error of Go itself.  Slices are cut within their length (Go
    allows it up to the capacity).  A function reference or an exnref is an
    address: [Pointers] relates addresses and objects.

    Listeners only observe: their calls are logged.  The experimental snapshots
    are left out. *)

From S2P Require Import Prelude Leb128 Features Opcodes Types ValStack Validate Signature ConstExpr TypeIDs ModuleClose Execution ModuleList.
From S2P Require Import Memory Waiters Binary ModuleValidate Operations Compiler Lower GoFloat Numeric Vector Instantiate.

(** ** Objects *)

Record function := mkFunction {
  funcType : FunctionType;
  moduleInstance : positive;
  typeID : Z;
  parent : compiledFunction;
}.

Record callFrame := mkCallFrame { framePC : Z; frameF : function; base : Z }.

Record Exception := mkException { ExceptionTag : positive; ExceptionParams : list Z }.

Class Pointers := {
  functionPtr : positive -> Z -> Z;
  functionAt : Z -> option (positive * Z);
  exceptionPtr : positive -> Z;
  exceptionAt : Z -> option positive;
}.
(** Addresses of live objects are not nil and identify the object. *)
Class PointerLaws (P : Pointers) : Prop := {
  functionAt_ptr : forall p i, 0 <= i -> functionAt (functionPtr p i) = Some (p, i);
  functionPtr_nonzero : forall p i, functionPtr p i <> 0;
  exceptionAt_ptr : forall e, exceptionAt (exceptionPtr e) = Some e;
  exceptionPtr_nonzero : forall e, exceptionPtr e <> 0;
}.

(** Addresses made of the names of the objects. *)
#[local] Instance namedPointers : Pointers := {
  functionPtr p i := Zpos (encode (p, Z.to_nat i));
  functionAt z := match z with Zpos q => prod_map id Z.of_nat <$> decode q | _ => None end;
  exceptionPtr := Zpos;
  exceptionAt z := match z with Zpos q => Some q | _ => None end;
}.
#[local] Instance namedPointers_laws : PointerLaws namedPointers.
Proof.
  split; try done; intros p i Hi; cbn [functionAt functionPtr namedPointers].
  rewrite decode_encode. cbn. by rewrite Z2Nat.id.
Qed.

(** The calls of a function listener: the index of the function, and the values. *)
Inductive listenerEvent :=
| Before (listener : positive) (fn : Z) (params : list Z)
| After (listener : positive) (fn : Z) (results : list Z)
| Aborted (listener : positive) (fn : Z).

(** What guest code shares: [engines] are the functions of the module engine of
    an instance ([None] until an import is resolved), [TypeIDsOf] its type identifiers, [waiters] the queues of a memory. *)
Record store := mkEngineStore {
  heap : world;
  engines : gmap positive (list (option function));
  TypeIDsOf : gmap positive (list Z);
  waiters : gmap positive waitState;
  exceptions : gmap positive Exception;
  events : list listenerEvent;
}.

Record machine := mkMachine { stack : list Z; frames : list callFrame; shared : store }.

Definition set_heap w s := mkEngineStore w (engines s) (TypeIDsOf s) (waiters s) (exceptions s) (events s).
Definition set_waiters f s := mkEngineStore (heap s) (engines s) (TypeIDsOf s) (f (waiters s)) (exceptions s) (events s).
Definition set_exceptions f s := mkEngineStore (heap s) (engines s) (TypeIDsOf s) (waiters s) (f (exceptions s)) (events s).
Definition set_events f s := mkEngineStore (heap s) (engines s) (TypeIDsOf s) (waiters s) (exceptions s) (f (events s)).
Definition set_stack l s := mkMachine l (frames s) (shared s).
Definition set_frames l s := mkMachine (stack s) l (shared s).
Definition set_shared x s := mkMachine (stack s) (frames s) x.

(** ** The monad *)

Inductive panic :=
| Trap (msg : string)
| Thrown (exn : positive)
| ExitError (code : Z)
| GoPanic (msg : string)
| HostPanic (v : Z).

Inductive outcome (A : Type) :=
| Done (a : A)
| Raised (p : panic)
| OutOfFuel.
Arguments Done {A} a.
Arguments Raised {A} p.
Arguments OutOfFuel {A}.

Definition X (A : Type) : Type := machine -> machine * outcome A.

#[global] Instance X_ret : MRet X := fun A a s => (s, Done a).
#[global] Instance X_bind : MBind X := fun A B k m s =>
  let (s, r) := m s in
  match r with
  | Done a => k a s
  | Raised p => (s, Raised p)
  | OutOfFuel => (s, OutOfFuel)
  end.

Definition raise {A} (p : panic) : X A := fun s => (s, Raised p).
Definition trap {A} (msg : string) : X A := raise (Trap msg).
Definition liftX {A} (r : res A) : X A := fun s =>
  (s, match r with Ok a => Done a | Err e => Raised (Trap e) | Panic e => Raised (GoPanic e) end).
Definition trapUnless (b : bool) (msg : string) : X unit := if b then mret tt else trap msg.
Definition readX {A} (f : machine -> res A) : X A := fun s => liftX (f s) s.
Definition modifyX (f : machine -> machine) : X unit := fun s => (f s, Done tt).
Definition getsX {A} (f : machine -> A) : X A := fun s => (s, Done (f s)).
Definition modifyHeap (f : world -> world) : X unit := modifyX (fun s => set_shared (set_heap (f (heap (shared s))) (shared s)) s).
Definition world_ {A} (f : world -> res A) : X A := readX (fun s => f (heap (shared s))).

(** ** The stack *)

(** [stack[:k]] and [stack[k:]] *)
Definition sliceTo (l : list Z) (k : Z) : res (list Z) :=
  if (0 <=? k) && (k <=? zlen l) then Ok (drop (Z.to_nat (zlen l - k)) l) else Panic "slice bounds out of range".
Definition sliceFrom (l : list Z) (k : Z) : res (list Z) :=
  if (0 <=? k) && (k <=? zlen l) then Ok (take (Z.to_nat (zlen l - k)) l) else Panic "slice bounds out of range".
(** [stack[i]] and [stack[i] = v] *)
Definition stackAt (l : list Z) (i : Z) : res Z := zindex l (zlen l - 1 - i).
Definition setStackAt (l : list Z) (i v : Z) : res (list Z) := zset l (zlen l - 1 - i) v.

Definition pushValue (v : Z) : X unit := modifyX (fun s => set_stack (v :: stack s) s).
(** The first value is pushed first. *)
Definition pushValues (v : list Z) : X unit := modifyX (fun s => set_stack (rev_append v (stack s)) s).

Definition popValue : X Z := fun s =>
  match stack s with
  | v :: l => (set_stack l s, Done v)
  | [] => (s, Raised (GoPanic "index out of range"))
  end.

Definition popValues (n : Z) : X (list Z) := fun s =>
  (let stackTopIndex := zlen (stack s) - n in
   v ← liftX (sliceFrom (stack s) stackTopIndex);
   l ← liftX (sliceTo (stack s) stackTopIndex);
   _ ← modifyX (set_stack l);
   mret (rev v)) s.

Definition peekValues (count : Z) : X (list Z) :=
  if count =? 0 then mret [] else v ← readX (fun s => sliceFrom (stack s) (zlen (stack s) - count)); mret (rev v).

Definition maskUint32 : Z := 0xFFFFFFFF.
(** [ce.popValue() & maskUint32] *)
Definition popMasked : X Z := v ← popValue; mret (Z.land v maskUint32).

(** [drop], on the stack *)
Definition dropStack (raw : Z) (l : list Z) : res (list Z) :=
  let r := inclusiveRangeFromU64 raw in
  let n := sgn32 (zlen l) in
  if Start r =? -1 then Ok l
  else if Start r =? 0 then sliceTo l (sgn32 (n - 1 - End r))
  else
    let! newStack := sliceTo l (sgn32 (n - 1 - End r)) in
    let! top := sliceFrom l (sgn32 (n - Start r)) in
    Ok (top ++ newStack).
Definition dropRange (raw : Z) : X unit :=
  l ← readX (fun s => dropStack raw (stack s)); modifyX (set_stack l).

Definition popMemoryOffset (op : unionOperation) : X Z :=
  v ← popValue;
  let offset := wrap64 (U2 op + wrap32 v) in
  if offset >? 2 ^ 32 - 1 then trap ErrRuntimeOutOfBoundsMemoryAccess else mret (wrap32 offset).

(** ** Frames *)

Definition callStackCeiling : Z := 2000.

Definition pushFrame (frame : callFrame) : X unit := fun s =>
  if callStackCeiling <=? zlen (frames s) then trap ErrRuntimeStackOverflow s
  else (set_frames (frame :: frames s) s, Done tt).

Definition popFrame : X callFrame := fun s =>
  match frames s with
  | fr :: l => (set_frames l s, Done fr)
  | [] => (s, Raised (GoPanic "index out of range"))
  end.

(** [ce.frames[len(ce.frames)-1]] *)
Definition topFrame : X callFrame := readX (fun s => match frames s with fr :: _ => Ok fr | [] => Panic "index out of range" end).
Definition set_framePC (pc : Z) (fr : callFrame) : callFrame := mkCallFrame pc (frameF fr) (base fr).
(** A write to the frame that is on top. *)
Definition updateFrame (f : callFrame -> callFrame) : X unit :=
  modifyX (fun s => match frames s with fr :: l => set_frames (f fr :: l) s | [] => s end).
Definition setPC (pc : Z) : X unit := updateFrame (set_framePC pc).
(** [frame.pc++] *)
Definition advance : X unit := updateFrame (fun fr => set_framePC (framePC fr + 1) fr).

(** ** Objects reached from an instance *)

Definition instanceX (p : positive) : X ModuleInstance := world_ (fun w => deref (instances w) p).
(** [functions[i]] of the module engine of an instance *)
Definition functionIn (es : gmap positive (list (option function))) (p : positive) (i : Z) : res function :=
  let! fs := deref es p in
  let! f := zindex fs i in
  match f with Some f => Ok f | None => Panic "nil pointer dereference" end.
Definition functionX (p : positive) (i : Z) : X function := readX (fun s => functionIn (engines (shared s)) p i).
Definition memoryPtr (mi : positive) : X positive :=
  inst ← instanceX mi;
  liftX (match InstanceMemory inst with Some p => Ok p | None => Panic "nil pointer dereference" end).
(** [memoryInst] with its address. *)
Definition memoryX (mi : positive) : X (positive * MemoryInstance) :=
  p ← memoryPtr mi; mem ← world_ (fun w => deref (memories w) p); mret (p, mem).
Definition setMemory (p : positive) (mem : MemoryInstance) : X unit := modifyHeap (set_memories (insert p mem)).

Definition tableX (mi : positive) (i : Z) : X (positive * TableInstance) :=
  inst ← instanceX mi;
  p ← liftX (let! o := zindex (Tables inst) i in match o with Some p => Ok p | None => Panic "nil pointer dereference" end);
  t ← world_ (fun w => deref (tables w) p); mret (p, t).
Definition setTable (p : positive) (refs : list Z) (t : TableInstance) : X unit :=
  modifyHeap (set_tables (insert p (set_References refs t))).

Definition globalX (mi : positive) (i : Z) : X (positive * GlobalInstance) :=
  inst ← instanceX mi;
  p ← liftX (let! o := zindex (Globals inst) i in match o with Some p => Ok p | None => Panic "nil pointer dereference" end);
  g ← world_ (fun w => deref (globals w) p); mret (p, g).

(** What [FailIfClosed] of an instance returns: the exit code when it is closed. *)
Definition exitCode (p : positive) (w : world) : option Z :=
  match nodes (names w) !! p with
  | Some n => if ModuleList.Closed n =? 0 then None else Some (exitCodeOf (ModuleList.Closed n))
  | None => None
  end.
Definition failIfClosed (p : positive) : X unit :=
  c ← getsX (fun s => exitCode p (heap (shared s)));
  match c with Some code => raise (ExitError code) | None => mret tt end.

Section WithPointers.
Context `{P : Pointers}.

(** [functionFromUintptr] *)
Definition functionFromUintptr (ptr : Z) : X function :=
  match functionAt ptr with
  | Some (p, i) => functionX p i
  | None => raise (GoPanic "invalid memory address")
  end.

Definition exceptionFromPtr (ptr : Z) : X positive :=
  match exceptionAt ptr with
  | Some e => mret e
  | None => raise (GoPanic "invalid memory address")
  end.

Definition functionForOffset (table : TableInstance) (offset expectedTypeID : Z) : X function :=
  if offset >=? zlen (References table) then trap ErrRuntimeInvalidTableAccess
  else
    rawPtr ← liftX (zindex (References table) offset);
    if rawPtr =? 0 then trap ErrRuntimeInvalidTableAccess
    else
      tf ← functionFromUintptr rawPtr;
      if negb (typeID tf =? expectedTypeID) then trap ErrRuntimeIndirectCallTypeMismatch else mret tf.

(** ** Exceptions *)

(** The values to push when the clause matches. *)
Definition matchCatchClause (kind : Z) (clauseTag : option positive) (e : positive) (exn : Exception) : option (list Z) :=
  if kind =? CatchKindCatch then
    if bool_decide (clauseTag = Some (ExceptionTag exn)) then Some (ExceptionParams exn) else None
  else if kind =? CatchKindCatchRef then
    if bool_decide (clauseTag = Some (ExceptionTag exn)) then Some (ExceptionParams exn ++ [exceptionPtr e]) else None
  else if kind =? CatchKindCatchAll then Some []
  else if kind =? CatchKindCatchAllRef then Some [exceptionPtr e]
  else None.

Abbreviation handler := (option (exceptionTableCatchClause * list Z)).

Fixpoint searchClauses (tags : list (option positive)) (e : positive) (exn : Exception)
    (clauses : list exceptionTableCatchClause) : res handler :=
  match clauses with
  | [] => Ok None
  | clause :: clauses' =>
      let! clauseTag := if one_of (catch_kind clause) [CatchKindCatch; CatchKindCatchRef]
                        then zindex tags (catch_tagIndex clause) else Ok None in
      match matchCatchClause (catch_kind clause) clauseTag e exn with
      | Some values => Ok (Some (clause, values))
      | None => searchClauses tags e exn clauses'
      end
  end.

(** Over the table from its last entry. *)
Fixpoint searchEntries (tags : list (option positive)) (e : positive) (exn : Exception) (pc : Z)
    (entries : list exceptionTableEntry) : res handler :=
  match entries with
  | [] => Ok None
  | entry :: entries' =>
      if (pc <? startPC entry) || (pc >=? endPC entry) then searchEntries tags e exn pc entries'
      else
        let! h := searchClauses tags e exn (entry_clauses entry) in
        match h with Some _ => Ok h | None => searchEntries tags e exn pc entries' end
  end.

(** The tags of the instance are read only for a clause that names one. *)
Definition searchExceptionTable (tags : list (option positive)) (e : positive) (exn : Exception) (frame : callFrame) : res handler :=
  searchEntries tags e exn (framePC frame) (rev (exceptionTable (lowered (parent (frameF frame))))).

Definition searchX (e : positive) (frame : callFrame) : X handler :=
  exn ← readX (fun s => deref (exceptions (shared s)) e);
  inst ← instanceX (moduleInstance (frameF frame));
  liftX (searchExceptionTable (Tags inst) e exn frame).

Definition applyExceptionHandler (frame : callFrame) (clause : exceptionTableCatchClause) (values : list Z) : X unit :=
  l ← readX (fun s => sliceTo (stack s) (base frame - ParamNumInUint64 (funcType (frameF frame)) + catch_targetStackDepth clause));
  _ ← modifyX (set_stack (rev_append values l));
  setPC (catch_targetPC clause).

(** The end of [throw] and [throw_ref]. *)
Definition throwException (e : positive) : X unit :=
  frame ← topFrame;
  h ← searchX e frame;
  match h with
  | Some (clause, values) => applyExceptionHandler frame clause values
  | None => raise (Thrown e)
  end.

(** [ce.frames = ce.frames[:n]] *)
Definition truncateFrames (n : Z) : X unit :=
  modifyX (fun s => set_frames (drop (Z.to_nat (zlen (frames s) - n)) (frames s)) s).

(** [callWithUnwind]: whether the frame was unwound. *)
Definition callWithUnwind (callee : X unit) : X bool := fun s =>
  (frame ← topFrame;
   if zlen (exceptionTable (lowered (parent (frameF frame)))) =? 0 then _ ← callee; mret false
   else fun s =>
     let callerFrameCount := zlen (frames s) in
     match callee s with
     | (s', Done _) => (s', Done false)
     | (s', Raised (Thrown e)) =>
         (_ ← truncateFrames callerFrameCount;
          frame ← topFrame;
          h ← searchX e frame;
          match h with
          | Some (clause, values) => _ ← applyExceptionHandler frame clause values; mret true
          | None => raise (Thrown e)
          end) s'
     | (s', Raised p) => (s', Raised p)
     | (s', OutOfFuel) => (s', OutOfFuel)
     end) s.

End WithPointers.
