(* ===== verification/Interp.v ===== *)
(** * The execution of guest code (src/internal/engine/interpreter/interpreter.go)

    [execute] is the body of the loop of [callNativeFunc]: one operation of the
    frame on top.  A call runs the callee's loop to its end, so the loop takes
    fuel, which bounds the operations along a chain of calls; [Call] is the
    entry from the embedder.

    Parameters: the Go function of a host module ([hostCall], which may change
    the store and panic) and what other threads do while one is parked in
    memory.atomic.wait ([park]).  A context is a flag: whether it is done when
    the call starts, with the exit code of its error. *)

From S2P Require Import Prelude Leb128 Features Opcodes Types ValStack Validate Signature ConstExpr TypeIDs ModuleClose Execution ModuleList.
From S2P Require Import Memory Waiters Binary ModuleValidate Operations Compiler Lower GoFloat Numeric Vector Instantiate Machine.

Abbreviation OOB := ErrRuntimeOutOfBoundsMemoryAccess.

(** A read of memory, which traps when it is out of bounds. *)
Definition checked {A} (r : res (A * bool)) : X A :=
  '(v, ok) ← liftX r; if (ok : bool) then mret v else trap OOB.
Definition pushBool (b : bool) : X unit := pushValue (bit b).
Definition popVector : X v128 := hi ← popValue; lo ← popValue; mret (lo, hi).
Definition pushVector (x : v128) : X unit := _ ← pushValue (fst x); pushValue (snd x).
Definition pushOption (o : option Z) : X unit := match o with Some v => pushValue v | None => mret tt end.

(** ** Stack and variables *)

Definition execSelect (op : unionOperation) : X unit :=
  c ← popMasked;
  if B3 op then
    x2 ← popVector;
    if c =? 0 then _ ← popVector; pushVector x2 else mret tt
  else
    v2 ← popValue;
    if c =? 0 then _ ← popValue; pushValue v2 else mret tt.

Definition execPick (op : unionOperation) : X unit :=
  index ← getsX (fun s => zlen (stack s) - 1 - sgn64 (U1 op));
  v ← readX (fun s => stackAt (stack s) index);
  _ ← pushValue v;
  if B3 op then v ← readX (fun s => stackAt (stack s) (index + 1)); pushValue v else mret tt.

Definition execSet (op : unionOperation) : X unit :=
  index ← getsX (fun s => zlen (stack s) - 1 - sgn64 (U1 op));
  if B3 op then
    x ← popVector;
    l ← readX (fun s => let! l := setStackAt (stack s) index (fst x) in setStackAt l (index + 1) (snd x));
    modifyX (set_stack l)
  else
    v ← popValue;
    l ← readX (fun s => setStackAt (stack s) index v);
    modifyX (set_stack l).

Definition execGlobalGet (mi : positive) (op : unionOperation) : X unit :=
  '(_, g) ← globalX mi (U1 op);
  _ ← pushValue (Val g);
  if ValType (GlobalInstanceType g) =? ValueTypeV128 then pushValue (ValHi g) else mret tt.

Definition execGlobalSet (mi : positive) (op : unionOperation) : X unit :=
  '(p, g) ← globalX mi (U1 op);
  hi ← (if ValType (GlobalInstanceType g) =? ValueTypeV128 then popValue else mret (ValHi g));
  v ← popValue;
  modifyHeap (set_globals (insert p (mkGlobalInstance (GlobalInstanceType g) v hi (Me g) (GlobalIndex g)))).

(** ** Memory *)

(** [memoryInst.F(offset)], which traps out of bounds. *)
Definition readMemory {A} (mi : positive) (f : MemoryInstance -> res (A * bool)) : X A :=
  '(_, mem) ← memoryX mi; checked (f mem).
Definition writeMemory (mi : positive) (f : MemoryInstance -> res (bool * MemoryInstance)) : X unit :=
  '(p, mem) ← memoryX mi;
  '(ok, mem') ← liftX (f mem);
  _ ← setMemory p mem';
  trapUnless ok OOB.

Definition is32 (t : Z) : bool := one_of t [unsignedTypeI32; unsignedTypeF32].
Definition is64 (t : Z) : bool := one_of t [unsignedTypeI64; unsignedTypeF64].

Definition execLoad (mi : positive) (op : unionOperation) : X unit :=
  offset ← popMemoryOffset op;
  if is32 (B1 op) then v ← readMemory mi (fun m => ReadUint32Le m offset); pushValue v
  else if is64 (B1 op) then v ← readMemory mi (fun m => ReadUint64Le m offset); pushValue v
  else mret tt.

(** A loaded value of [w] bits, extended as the operation says. *)
Definition extendLoaded (w : Z) (b1 v : Z) : option Z :=
  if b1 =? signedInt32 then Some (wrap32 (sgn w v))
  else if b1 =? signedInt64 then Some (wrap64 (sgn w v))
  else if one_of b1 [signedUint32; signedUint64] then Some v
  else None.

Definition execLoad8 (mi : positive) (op : unionOperation) : X unit :=
  offset ← popMemoryOffset op;
  v ← readMemory mi (fun m => Memory.ReadByte m offset);
  pushOption (extendLoaded 8 (B1 op) v).
Definition execLoad16 (mi : positive) (op : unionOperation) : X unit :=
  offset ← popMemoryOffset op;
  v ← readMemory mi (fun m => ReadUint16Le m offset);
  pushOption (extendLoaded 16 (B1 op) v).
Definition execLoad32 (mi : positive) (op : unionOperation) : X unit :=
  offset ← popMemoryOffset op;
  v ← readMemory mi (fun m => ReadUint32Le m offset);
  pushValue (if B1 op =? 1 then wrap64 (sgn32 v) else v).

Definition execStore (mi : positive) (op : unionOperation) : X unit :=
  val ← popValue;
  offset ← popMemoryOffset op;
  if is32 (B1 op) then writeMemory mi (fun m => WriteUint32Le m offset (wrap32 val))
  else if is64 (B1 op) then writeMemory mi (fun m => WriteUint64Le m offset val)
  else mret tt.
Definition execStore8 (mi : positive) (op : unionOperation) : X unit :=
  val ← popValue; offset ← popMemoryOffset op; writeMemory mi (fun m => WriteByte m offset (wrap8 val)).
Definition execStore16 (mi : positive) (op : unionOperation) : X unit :=
  val ← popValue; offset ← popMemoryOffset op; writeMemory mi (fun m => WriteUint16Le m offset (wrap16 val)).
Definition execStore32 (mi : positive) (op : unionOperation) : X unit :=
  val ← popValue; offset ← popMemoryOffset op; writeMemory mi (fun m => WriteUint32Le m offset (wrap32 val)).

Definition execMemorySize (mi : positive) : X unit := '(_, mem) ← memoryX mi; pushValue (Pages mem).
Definition execMemoryGrow (mi : positive) : X unit :=
  n ← popValue;
  '(p, mem) ← memoryX mi;
  '(r, ok, mem') ← liftX (Grow mem (wrap32 n));
  _ ← setMemory p mem';
  pushValue (if (ok : bool) then r else 0xffffffff).

Definition execMemoryInit (mi : positive) (op : unionOperation) : X unit :=
  inst ← instanceX mi;
  dataInstance ← liftX (zindex (DataInstances inst) (U1 op));
  copySize ← popMasked; inDataOffset ← popMasked; inMemoryOffset ← popMasked;
  '(p, mem) ← memoryX mi;
  if (inDataOffset + copySize >? zlen dataInstance) || (inMemoryOffset + copySize >? zlen (Buffer mem)) then trap OOB
  else if negb (copySize =? 0) then
    source ← liftX (zslice dataInstance inDataOffset);
    region ← liftX (slice2 (Buffer mem) inMemoryOffset (inMemoryOffset + copySize));
    b ← liftX (copyAt (Buffer mem) inMemoryOffset (take (length region) source));
    setMemory p (set_Buffer b mem)
  else mret tt.

Definition updateInstanceX (mi : positive) (f : ModuleInstance -> ModuleInstance) : X unit :=
  inst ← instanceX mi; modifyHeap (set_instances (insert mi (f inst))).

Definition execDataDrop (mi : positive) (op : unionOperation) : X unit :=
  inst ← instanceX mi;
  ds ← liftX (zset (DataInstances inst) (U1 op) []);
  updateInstanceX mi (set_DataInstances ds).

Definition execMemoryCopy (mi : positive) : X unit :=
  '(p, mem) ← memoryX mi;
  let memLen := zlen (Buffer mem) in
  copySize ← popMasked; sourceOffset ← popMasked; destinationOffset ← popMasked;
  if (sourceOffset + copySize >? memLen) || (destinationOffset + copySize >? memLen) then trap OOB
  else if negb (copySize =? 0) then
    source ← liftX (slice2 (Buffer mem) sourceOffset (sourceOffset + copySize));
    b ← liftX (copyAt (Buffer mem) destinationOffset source);
    setMemory p (set_Buffer b mem)
  else mret tt.

(** [for i := 1; i < len(buf); { i += copy(buf[i:], buf[:min(i, 8192)]) }] *)
Fixpoint memoryFillLoop (fuel : nat) (i : Z) (buf : list Z) : res (list Z) :=
  if i >=? zlen buf then Ok buf
  else match fuel with
  | O => Panic "fill: loop bound"
  | S fuel' =>
      let chunk := Z.min i 8192 in
      let! tl := zslice buf i in
      let! buf := copyAt buf i (take (Z.to_nat chunk) buf) in
      memoryFillLoop fuel' (i + Z.min chunk (zlen tl)) buf
  end.

(** The region that the instruction fills. *)
Definition fillBuffer (buf : list Z) (value : Z) : res (list Z) :=
  if value =? 0 then Ok (zeros (zlen buf))
  else let! buf := zset buf 0 value in memoryFillLoop (length buf) 1 buf.

(** [buf := b[offset : offset+n]] is written in place. *)
Definition inRegion (b : list Z) (offset n : Z) (f : list Z -> res (list Z)) : res (list Z) :=
  let! buf := slice2 b offset (offset + n) in
  let! buf := f buf in
  copyAt b offset buf.

Definition execMemoryFill (mi : positive) : X unit :=
  fillSize ← popMasked; v ← popValue; offset ← popMasked;
  let value := wrap8 v in
  '(p, mem) ← memoryX mi;
  if fillSize + offset >? zlen (Buffer mem) then trap OOB
  else if negb (fillSize =? 0) then
    b ← liftX (inRegion (Buffer mem) offset fillSize (fun buf => fillBuffer buf value));
    setMemory p (set_Buffer b mem)
  else mret tt.

(** ** Tables *)

Definition execTableInit (mi : positive) (op : unionOperation) : X unit :=
  inst ← instanceX mi;
  elementInstance ← liftX (zindex (ElementInstances inst) (U1 op));
  copySize ← popMasked; inElementOffset ← popMasked; inTableOffset ← popMasked;
  '(p, table) ← tableX mi (U2 op);
  if (inElementOffset + copySize >? zlen elementInstance) || (inTableOffset + copySize >? zlen (References table))
  then trap ErrRuntimeInvalidTableAccess
  else if negb (copySize =? 0) then
    source ← liftX (zslice elementInstance inElementOffset);
    region ← liftX (slice2 (References table) inTableOffset (inTableOffset + copySize));
    refs ← liftX (copyAt (References table) inTableOffset (take (length region) source));
    setTable p refs table
  else mret tt.

Definition execElemDrop (mi : positive) (op : unionOperation) : X unit :=
  inst ← instanceX mi;
  es ← liftX (zset (ElementInstances inst) (U1 op) []);
  updateInstanceX mi (set_ElementInstances es).

Definition execTableCopy (mi : positive) (op : unionOperation) : X unit :=
  '(_, srcTable) ← tableX mi (U1 op);
  '(p, dstTable) ← tableX mi (U2 op);
  copySize ← popMasked; sourceOffset ← popMasked; destinationOffset ← popMasked;
  if (sourceOffset + copySize >? zlen (References srcTable)) || (destinationOffset + copySize >? zlen (References dstTable))
  then trap ErrRuntimeInvalidTableAccess
  else if negb (copySize =? 0) then
    source ← liftX (slice2 (References srcTable) sourceOffset (sourceOffset + copySize));
    refs ← liftX (copyAt (References dstTable) destinationOffset source);
    setTable p refs dstTable
  else mret tt.

Definition execTableGet (mi : positive) (op : unionOperation) : X unit :=
  '(_, table) ← tableX mi (U1 op);
  offset ← popMasked;
  if offset >=? zlen (References table) then trap ErrRuntimeInvalidTableAccess
  else r ← liftX (zindex (References table) offset); pushValue r.

Definition execTableSet (mi : positive) (op : unionOperation) : X unit :=
  '(p, table) ← tableX mi (U1 op);
  ref ← popValue;
  offset ← popMasked;
  if offset >=? zlen (References table) then trap ErrRuntimeInvalidTableAccess
  else refs ← liftX (zset (References table) offset ref); setTable p refs table.

Definition execTableSize (mi : positive) (op : unionOperation) : X unit :=
  '(_, table) ← tableX mi (U1 op); pushValue (zlen (References table)).

Definition execTableGrow (mi : positive) (op : unionOperation) : X unit :=
  '(p, table) ← tableX mi (U1 op);
  num ← popMasked; ref ← popValue;
  '(table', ret) ← liftX (TableGrow table (wrap32 num) ref);
  _ ← modifyHeap (set_tables (insert p table'));
  pushValue ret.

(** [targetRegion[0] = ref] and the loop that doubles the filled part *)
Definition fillReferences (region : list Z) (ref : Z) : res (list Z) :=
  let! region := zset region 0 ref in fillLoop (length region) 1 region.

Definition execTableFill (mi : positive) (op : unionOperation) : X unit :=
  '(p, table) ← tableX mi (U1 op);
  num ← popMasked; ref ← popValue; offset ← popMasked;
  if num + offset >? zlen (References table) then trap ErrRuntimeInvalidTableAccess
  else if num >? 0 then
    refs ← liftX (inRegion (References table) offset num (fun region => fillReferences region ref));
    setTable p refs table
  else mret tt.

(** ** Vectors in memory *)

Definition byteOf (data : list Z) (i : Z) : Z := default 0 (zlookup data i).
Definition uint16At (data : list Z) (i : Z) : Z := le_decode (take 2 (drop (Z.to_nat i) data)).
Definition uint32At (data : list Z) (i : Z) : Z := le_decode (take 4 (drop (Z.to_nat i) data)).

(** The eight bytes that a widening load reads, extended. *)
Definition widenLoaded (b1 : Z) (data : list Z) : v128 :=
  if b1 =? v128LoadType8x8s then
    (join 16 (fun i => wrap16 (sgn 8 (byteOf data i))), join 16 (fun i => wrap16 (sgn 8 (byteOf data (i + 4)))))
  else if b1 =? v128LoadType8x8u then (join 16 (byteOf data), join 16 (fun i => byteOf data (i + 4)))
  else if b1 =? v128LoadType16x4s then
    (join 32 (fun i => wrap32 (sgn 16 (uint16At data (2 * i)))), join 32 (fun i => wrap32 (sgn 16 (uint16At data (2 * i + 4)))))
  else if b1 =? v128LoadType16x4u then (join 32 (fun i => uint16At data (2 * i)), join 32 (fun i => uint16At data (2 * i + 4)))
  else if b1 =? v128LoadType32x2s then (wrap64 (sgn32 (uint32At data 0)), wrap64 (sgn32 (uint32At data 4)))
  else (uint32At data 0, uint32At data 4).

Definition execV128Load (mi : positive) (op : unionOperation) : X unit :=
  offset ← popMemoryOffset op;
  let t := B1 op in
  if t =? v128LoadType128 then
    lo ← readMemory mi (fun m => ReadUint64Le m offset);
    _ ← pushValue lo;
    hi ← readMemory mi (fun m => ReadUint64Le m (wrap32 (offset + 8)));
    pushValue hi
  else if between v128LoadType8x8s t v128LoadType32x2u then
    data ← readMemory mi (fun m => Read m offset 8); pushVector (widenLoaded t data)
  else if t =? v128LoadType8Splat then v ← readMemory mi (fun m => Memory.ReadByte m offset); pushVector (splat 8 v)
  else if t =? v128LoadType16Splat then v ← readMemory mi (fun m => ReadUint16Le m offset); pushVector (splat 16 v)
  else if t =? v128LoadType32Splat then v ← readMemory mi (fun m => ReadUint32Le m offset); pushVector (splat 32 v)
  else if t =? v128LoadType64Splat then v ← readMemory mi (fun m => ReadUint64Le m offset); pushVector (v, v)
  else if t =? v128LoadType32zero then v ← readMemory mi (fun m => ReadUint32Le m offset); pushVector (v, 0)
  else if t =? v128LoadType64zero then v ← readMemory mi (fun m => ReadUint64Le m offset); pushVector (v, 0)
  else mret tt.

Definition execV128LoadLane (mi : positive) (op : unionOperation) : X unit :=
  x ← popVector;
  offset ← popMemoryOffset op;
  let i := B2 op in
  x ← (if B1 op =? 8 then b ← readMemory mi (fun m => Memory.ReadByte m offset); mret (replaceLane 8 x i b)
       else if B1 op =? 16 then b ← readMemory mi (fun m => ReadUint16Le m offset); mret (replaceLane 16 x i b)
       else if B1 op =? 32 then b ← readMemory mi (fun m => ReadUint32Le m offset); mret (replaceLane 32 x i b)
       else if B1 op =? 64 then
         b ← readMemory mi (fun m => ReadUint64Le m offset); mret (if i =? 0 then (b, snd x) else (fst x, b))
       else mret x);
  pushVector x.

Definition execV128Store (mi : positive) (op : unionOperation) : X unit :=
  x ← popVector;
  offset ← popMemoryOffset op;
  if offset + 8 >? 2 ^ 32 - 1 then trap OOB
  else
    _ ← writeMemory mi (fun m => WriteUint64Le m (wrap32 (offset + 8)) (snd x));
    writeMemory mi (fun m => WriteUint64Le m offset (fst x)).

Definition execV128StoreLane (mi : positive) (op : unionOperation) : X unit :=
  x ← popVector;
  offset ← popMemoryOffset op;
  let i := B2 op in
  if B1 op =? 8 then writeMemory mi (fun m => WriteByte m offset (extractLane 8 x i))
  else if B1 op =? 16 then writeMemory mi (fun m => WriteUint16Le m offset (extractLane 16 x i))
  else if B1 op =? 32 then writeMemory mi (fun m => WriteUint32Le m offset (extractLane 32 x i))
  else if B1 op =? 64 then writeMemory mi (fun m => WriteUint64Le m offset (if i =? 0 then fst x else snd x))
  else trap OOB.

(** ** Atomic operations *)

Definition aligned (offset n : Z) : X unit := trapUnless (offset mod n =? 0) ErrRuntimeUnalignedAtomic.

(** [newVal], in [w] bits *)
Definition atomicArithmetic (w b2 old val : Z) : Z :=
  let arg := word w val in
  if b2 =? atomicArithmeticOpAdd then word w (old + arg)
  else if b2 =? atomicArithmeticOpSub then word w (old - arg)
  else if b2 =? atomicArithmeticOpAnd then Z.land old arg
  else if b2 =? atomicArithmeticOpOr then Z.lor old arg
  else if b2 =? atomicArithmeticOpXor then Z.lxor old arg
  else if b2 =? atomicArithmeticOpNop then arg
  else 0.

(** The accessors of [n] bytes. *)
Definition readN (n : Z) (m : MemoryInstance) (offset : Z) : res (Z * bool) :=
  if n =? 1 then Memory.ReadByte m offset
  else if n =? 2 then ReadUint16Le m offset
  else if n =? 4 then ReadUint32Le m offset
  else ReadUint64Le m offset.
Definition writeN (n : Z) (m : MemoryInstance) (offset v : Z) : res (bool * MemoryInstance) :=
  if n =? 1 then WriteByte m offset v
  else if n =? 2 then WriteUint16Le m offset v
  else if n =? 4 then WriteUint32Le m offset v
  else WriteUint64Le m offset v.

(** The cases of the three widths share their text: [n] is the width in bytes. *)
Definition atomicLoadN (mi : positive) (n offset : Z) : X unit :=
  _ ← aligned offset n; v ← readMemory mi (fun m => readN n m offset); pushValue v.
Definition atomicStoreN (mi : positive) (n offset val : Z) : X unit :=
  _ ← aligned offset n; writeMemory mi (fun m => writeN n m offset (word (8 * n) val)).
Definition atomicRMWN (mi : positive) (n offset b2 val : Z) : X unit :=
  _ ← aligned offset n;
  old ← readMemory mi (fun m => readN n m offset);
  '(p, mem) ← memoryX mi;
  '(_, mem') ← liftX (writeN n mem offset (atomicArithmetic (8 * n) b2 old val));
  _ ← setMemory p mem';
  pushValue old.
Definition atomicCmpxchgN (mi : positive) (n offset exp rep : Z) : X unit :=
  _ ← aligned offset n;
  old ← readMemory mi (fun m => readN n m offset);
  _ ← (if old =? word (8 * n) exp then
         '(p, mem) ← memoryX mi;
         '(_, mem') ← liftX (writeN n mem offset (word (8 * n) rep));
         setMemory p mem'
       else mret tt);
  pushValue old.

(** The width that the operand type of an operation selects. *)
Definition atomicWidth (t : Z) : option Z :=
  if t =? unsignedTypeI32 then Some 4 else if t =? unsignedTypeI64 then Some 8 else None.
Definition withWidth (o : option Z) (f : Z -> X unit) : X unit := match o with Some n => f n | None => mret tt end.

Definition execAtomicLoad (mi : positive) (width : option Z) (op : unionOperation) : X unit :=
  offset ← popMemoryOffset op; withWidth width (fun n => atomicLoadN mi n offset).
Definition execAtomicStore (mi : positive) (width : option Z) (op : unionOperation) : X unit :=
  val ← popValue; offset ← popMemoryOffset op; withWidth width (fun n => atomicStoreN mi n offset val).
Definition execAtomicRMW (mi : positive) (width : option Z) (op : unionOperation) : X unit :=
  val ← popValue; offset ← popMemoryOffset op; withWidth width (fun n => atomicRMWN mi n offset (B2 op) val).
Definition execAtomicCmpxchg (mi : positive) (width : option Z) (op : unionOperation) : X unit :=
  rep ← popValue; exp ← popValue; offset ← popMemoryOffset op; withWidth width (fun n => atomicCmpxchgN mi n offset exp rep).

Definition execNotify (mi : positive) (op : unionOperation) : X unit :=
  count ← popValue;
  offset ← popMemoryOffset op;
  _ ← aligned offset 4;
  '(p, mem) ← memoryX mi;
  if offset >=? Size mem then trap OOB
  else
    '(n, st) ← getsX (fun s => Notify offset (wrap32 count) (default initial (waiters (shared s) !! p)));
    _ ← modifyX (fun s => set_shared (set_waiters (insert p st) (shared s)) s);
    pushValue n.

(** ** The loop *)

Section Interpreter.
Context `{P : Pointers} `{N : NaNs}.
(** Of the Go function [fn], called for the module [m] with a slice of the stack:
    the store and the contents of the slice, or the panic. *)
Context (hostCall : positive -> positive -> list Z -> store -> store * (list Z + panic)).
(** The channel of a new waiter, and what happens until the wait on it returns. *)
Context (newChannel : waitState -> Z) (park : positive -> Z -> X Z).

(** [Wait32] and [Wait64] *)
Definition waitN (mi : positive) (n offset exp timeout : Z) : X unit :=
  _ ← aligned offset n;
  '(p, mem) ← memoryX mi;
  if offset >? zlen (Buffer mem) - n then trap OOB
  else
    '(cur, _) ← liftX (readN n mem offset);
    st ← getsX (fun s => default initial (waiters (shared s) !! p));
    let id := newChannel st in
    match Wait offset (word (8 * n) exp) cur timeout id st with
    | Ok st' =>
        _ ← modifyX (fun s => set_shared (set_waiters (insert p st') (shared s)) s);
        r ← (match returned st' !! id with Some r => mret r | None => park p id end);
        pushValue r
    | _ => trap ErrRuntimeTooManyWaiters
    end.

Definition execWait (mi : positive) (op : unionOperation) : X unit :=
  timeout ← popValue;
  exp ← popValue;
  offset ← popMemoryOffset op;
  '(_, mem) ← memoryX mi;
  if negb (Shared mem) then trap ErrRuntimeExpectedSharedMemory
  else withWidth (atomicWidth (B1 op)) (fun n => waitN mi n offset exp (sgn64 timeout)).

(** The parameters of an exception, from the last; [acc] are the words after it. *)
Fixpoint popParams (reversed : list ValueType) (acc : list Z) : X (list Z) :=
  match reversed with
  | [] => mret acc
  | p :: reversed' =>
      if p =? ValueTypeV128 then hi ← popValue; lo ← popValue; popParams reversed' (lo :: hi :: acc)
      else v ← popValue; popParams reversed' (v :: acc)
  end.

Definition execThrow (mi : positive) (op : unionOperation) : X unit :=
  inst ← instanceX mi;
  tag ← liftX (let! o := zindex (Tags inst) (wrap32 (U1 op)) in match o with Some p => Ok p | None => Panic "nil pointer dereference" end);
  ft ← world_ (fun w => let! t := deref (tags w) tag in
                        let! m := deref (modules w) (fst (TagType t)) in
                        zindex (types m) (snd (TagType t)));
  params ← popParams (rev (Params ft)) [];
  e ← getsX (fun s => newPtr (exceptions (shared s)));
  _ ← modifyX (fun s => set_shared (set_exceptions (insert e (mkException tag params)) (shared s)) s);
  throwException e.

Definition execThrowRef : X unit :=
  v ← popValue;
  if v =? 0 then trap ErrRuntimeNullReference
  else e ← exceptionFromPtr v; throwException e.

(** The address of [functions[i]]. *)
Definition execRefFunc (mi : positive) (op : unionOperation) : X unit :=
  _ ← readX (fun s => let! fs := deref (engines (shared s)) mi in zindex fs (U1 op));
  pushValue (functionPtr mi (U1 op)).

(** *** Branches *)

Definition execBrIf (op : unionOperation) : X unit :=
  c ← popMasked;
  if c >? 0 then _ ← dropRange (U3 op); setPC (U1 op) else setPC (U2 op).

Definition execBrTable (op : unionOperation) : X unit :=
  v ← popMasked;
  let defaultAt := wrap64 (zlen (Us op) / 2 - 1) in
  let v := if v >? defaultAt then defaultAt else v in
  let v := v * 2 in
  raw ← liftX (zindex (Us op) (v + 1));
  _ ← dropRange raw;
  pc ← liftX (zindex (Us op) v);
  setPC pc.

Definition execBrOnNull (op : unionOperation) : X unit :=
  ref ← popValue;
  if ref =? 0 then _ ← dropRange (U3 op); setPC (U1 op) else _ ← pushValue ref; setPC (U2 op).

Definition execBrOnNonNull (op : unionOperation) : X unit :=
  ref ← popValue;
  if negb (ref =? 0) then _ ← dropRange (U3 op); _ ← pushValue ref; setPC (U1 op) else setPC (U2 op).

Definition execRefAsNonNull : X unit :=
  ref ← popValue;
  if ref =? 0 then trap ErrRuntimeNullReference else pushValue ref.

(** *** Calls *)

Definition dropForTailCall (frame : callFrame) (f : function) : X unit :=
  let b := base frame - ParamNumInUint64 (funcType (frameF frame)) in
  let paramCount := ParamNumInUint64 (funcType f) in
  l ← readX (fun s => let! below := sliceTo (stack s) b in
                      let! top := sliceFrom (stack s) (zlen (stack s) - paramCount) in
                      Ok (top ++ below));
  modifyX (set_stack l).

Definition resetPc (f : function) : X unit :=
  n ← getsX (fun s => zlen (stack s)); updateFrame (fun _ => mkCallFrame 0 f n).

Definition tailCall (tf : function) : X unit :=
  frame ← topFrame; _ ← dropForTailCall frame tf; resetPc tf.

Section Body.
(** [callee tf] is [callFunction(ctx, f.moduleInstance, tf)]; [m] is the module
    that the caller passed, [mi] is [f.moduleInstance]. *)
Context (callee : function -> X unit) (m mi : positive).

Definition invoke (tf : function) : X unit :=
  frameUnwound ← callWithUnwind (callee tf);
  if (frameUnwound : bool) then mret tt else advance.

(** A tail call to a function of another module: a normal call, and a return. *)
Definition invokeAndReturn (tf : function) (op : unionOperation) : X unit :=
  frameUnwound ← callWithUnwind (callee tf);
  if (frameUnwound : bool) then mret tt
  else
    raw ← liftX (zindex (Us op) 0);
    _ ← dropRange raw;
    pc ← liftX (zindex (Us op) 1);
    setPC pc.

Definition indirectTarget (op : unionOperation) (offset : Z) : X function :=
  '(_, table) ← tableX mi (U2 op);
  typeId ← readX (fun s => let! ids := deref (TypeIDsOf (shared s)) mi in zindex ids (U1 op));
  functionForOffset table offset typeId.

Definition execCallIndirect (op : unionOperation) : X unit :=
  offset ← popMasked; tf ← indirectTarget op offset; invoke tf.

Definition returnTo (tf : function) (op : unionOperation) : X unit :=
  if negb (bool_decide (moduleInstance tf = mi)) then invokeAndReturn tf op else tailCall tf.

Definition execReturnCallIndirect (op : unionOperation) : X unit :=
  offset ← popValue; tf ← indirectTarget op (Z.land offset maskUint32); returnTo tf op.

(** The function of a reference that must not be null. *)
Definition popFunction : X function :=
  ref ← popValue;
  if ref =? 0 then trap ErrRuntimeNullReference else functionFromUintptr ref.

Definition thenNext (x : X unit) : X unit := _ ← x; advance.

(** The vector operations that neither [vectorUnary] nor [vectorBinary] has. *)
Definition execVector (op : unionOperation) : X unit :=
  match OpKind op with
  | operationKindV128Const => pushVector (U1 op, U2 op)
  | operationKindV128ReplaceLane => v ← popValue; x ← popVector; pushVector (v128ReplaceLane (B1 op) (B2 op) x v)
  | operationKindV128ExtractLane => x ← popVector; pushValue (v128ExtractLane (B1 op) (B2 op) (B3 op) x)
  | operationKindV128Splat => v ← popValue; pushVector (v128Splat (B1 op) v)
  | operationKindV128AnyTrue => x ← popVector; pushBool (v128AnyTrue x)
  | operationKindV128AllTrue => x ← popVector; pushBool (v128AllTrue (B1 op) x)
  | operationKindV128BitMask => x ← popVector; pushValue (v128BitMask (B1 op) x)
  | operationKindV128Bitselect => c ← popVector; y ← popVector; x ← popVector; pushVector (v128Bitselect x y c)
  | operationKindV128Shl => s ← popValue; x ← popVector; pushVector (v128Shl (B1 op) x s)
  | operationKindV128Shr => s ← popValue; x ← popVector; pushVector (v128Shr (B1 op) (B3 op) x s)
  | _ => mret tt
  end.

(** The operations on values only. *)
Definition execValues (op : unionOperation) : X unit :=
  match unaryOperation op, binaryOperation op, vectorUnary op, vectorBinary op with
  | Some f, _, _, _ => v ← popValue; r ← liftX (f v); pushOption r
  | _, Some f, _, _ => v2 ← popValue; v1 ← popValue; r ← liftX (f v1 v2); pushOption r
  | _, _, Some f, _ => x ← popVector; pushVector (f x)
  | _, _, _, Some f =>
      x2 ← popVector; x1 ← popVector; r ← liftX (f x1 x2);
      match r with Some r => pushVector r | None => mret tt end
  | _, _, _, _ => execVector op
  end.

Definition execute (op : unionOperation) : X unit :=
  match OpKind op with
  | operationKindBuiltinFunctionCheckExitCode => thenNext (failIfClosed m)
  | operationKindUnreachable => trap ErrRuntimeUnreachable
  | operationKindBr => setPC (U1 op)
  | operationKindBrIf => execBrIf op
  | operationKindBrTable => execBrTable op
  | operationKindCall => tf ← functionX mi (U1 op); invoke tf
  | operationKindCallIndirect => execCallIndirect op
  | operationKindDrop => thenNext (dropRange (U1 op))
  | operationKindSelect => thenNext (execSelect op)
  | operationKindPick => thenNext (execPick op)
  | operationKindSet => thenNext (execSet op)
  | operationKindGlobalGet => thenNext (execGlobalGet mi op)
  | operationKindGlobalSet => thenNext (execGlobalSet mi op)
  | operationKindLoad => thenNext (execLoad mi op)
  | operationKindLoad8 => thenNext (execLoad8 mi op)
  | operationKindLoad16 => thenNext (execLoad16 mi op)
  | operationKindLoad32 => thenNext (execLoad32 mi op)
  | operationKindStore => thenNext (execStore mi op)
  | operationKindStore8 => thenNext (execStore8 mi op)
  | operationKindStore16 => thenNext (execStore16 mi op)
  | operationKindStore32 => thenNext (execStore32 mi op)
  | operationKindMemorySize => thenNext (execMemorySize mi)
  | operationKindMemoryGrow => thenNext (execMemoryGrow mi)
  | operationKindConstI32 | operationKindConstI64 | operationKindConstF32 | operationKindConstF64 =>
      thenNext (pushValue (U1 op))
  | operationKindMemoryInit => thenNext (execMemoryInit mi op)
  | operationKindDataDrop => thenNext (execDataDrop mi op)
  | operationKindMemoryCopy => thenNext (execMemoryCopy mi)
  | operationKindMemoryFill => thenNext (execMemoryFill mi)
  | operationKindTableInit => thenNext (execTableInit mi op)
  | operationKindElemDrop => thenNext (execElemDrop mi op)
  | operationKindTableCopy => thenNext (execTableCopy mi op)
  | operationKindRefFunc => thenNext (execRefFunc mi op)
  | operationKindTableGet => thenNext (execTableGet mi op)
  | operationKindTableSet => thenNext (execTableSet mi op)
  | operationKindTableSize => thenNext (execTableSize mi op)
  | operationKindTableGrow => thenNext (execTableGrow mi op)
  | operationKindTableFill => thenNext (execTableFill mi op)
  | operationKindV128Load => thenNext (execV128Load mi op)
  | operationKindV128LoadLane => thenNext (execV128LoadLane mi op)
  | operationKindV128Store => thenNext (execV128Store mi op)
  | operationKindV128StoreLane => thenNext (execV128StoreLane mi op)
  | operationKindAtomicMemoryWait => thenNext (execWait mi op)
  | operationKindAtomicMemoryNotify => thenNext (execNotify mi op)
  | operationKindAtomicFence => advance
  | operationKindAtomicLoad => thenNext (execAtomicLoad mi (atomicWidth (B1 op)) op)
  | operationKindAtomicLoad8 => thenNext (execAtomicLoad mi (Some 1) op)
  | operationKindAtomicLoad16 => thenNext (execAtomicLoad mi (Some 2) op)
  | operationKindAtomicStore => thenNext (execAtomicStore mi (atomicWidth (B1 op)) op)
  | operationKindAtomicStore8 => thenNext (execAtomicStore mi (Some 1) op)
  | operationKindAtomicStore16 => thenNext (execAtomicStore mi (Some 2) op)
  | operationKindAtomicRMW => thenNext (execAtomicRMW mi (atomicWidth (B1 op)) op)
  | operationKindAtomicRMW8 => thenNext (execAtomicRMW mi (Some 1) op)
  | operationKindAtomicRMW16 => thenNext (execAtomicRMW mi (Some 2) op)
  | operationKindAtomicRMWCmpxchg => thenNext (execAtomicCmpxchg mi (atomicWidth (B1 op)) op)
  | operationKindAtomicRMW8Cmpxchg => thenNext (execAtomicCmpxchg mi (Some 1) op)
  | operationKindAtomicRMW16Cmpxchg => thenNext (execAtomicCmpxchg mi (Some 2) op)
  | operationKindThrow => execThrow mi op
  | operationKindThrowRef => execThrowRef
  | operationKindTailCallReturnCall => tf ← functionX mi (U1 op); tailCall tf
  | operationKindTailCallReturnCallIndirect => execReturnCallIndirect op
  | operationKindCallRef => tf ← popFunction; invoke tf
  | operationKindReturnCallRef => tf ← popFunction; returnTo tf op
  | operationKindRefAsNonNull => thenNext execRefAsNonNull
  | operationKindBrOnNull => execBrOnNull op
  | operationKindBrOnNonNull => execBrOnNonNull op
  | _ => thenNext (execValues op)
  end.

End Body.

Definition bodyOf (fr : callFrame) : list unionOperation := Lower.body (lowered (parent (frameF fr))).

Definition logEvent (e : listenerEvent) : X unit := modifyX (fun s => set_shared (set_events (fun l => l ++ [e]) (shared s)) s).
Definition logWith (lsn : option positive) (e : positive -> listenerEvent) : X unit :=
  match lsn with Some l => logEvent (e l) | None => mret tt end.

(** [callNativeFunc] up to its loop, and its loop. *)
Definition callNativeFunc (loop : positive -> positive -> X unit) (m : positive) (f : function) : X unit :=
  n ← getsX (fun s => zlen (stack s));
  _ ← pushFrame (mkCallFrame 0 f n);
  loop m (moduleInstance f).

Definition callNativeFuncWithListener (loop : positive -> positive -> X unit) (m : positive) (f : function) (fnl : positive) : X unit :=
  params ← peekValues (ParamNumInUint64 (funcType f));
  _ ← logEvent (Before fnl (index (parent f)) params);
  _ ← callNativeFunc loop m f;
  results ← peekValues (ResultNumInUint64 (funcType f));
  logEvent (After fnl (index (parent f)) results).

(** The call of the Go function: [slice] is the part of the stack it is given,
    which it may overwrite. *)
Definition runHost (fn m : positive) (slice : list Z) : X (list Z) := fun s =>
  match hostCall fn m slice (shared s) with
  | (sh, inl r) => (set_shared sh s, Done (take (length slice) r ++ drop (length r) slice))
  | (sh, inr p) => (set_shared sh s, Raised p)
  end.

Definition callGoFunc (fn m : positive) (f : function) (slice : list Z) : X (list Z) :=
  let lsn := listener (parent f) in
  let typ := funcType f in
  _ ← logWith lsn (fun l => Before l (index (parent f)) (take (Z.to_nat (ParamNumInUint64 typ)) slice));
  n ← getsX (fun s => zlen (stack s));
  _ ← pushFrame (mkCallFrame 0 f n);
  slice ← runHost fn m slice;
  _ ← popFrame;
  _ ← logWith lsn (fun l => After l (index (parent f)) (take (Z.to_nat (ResultNumInUint64 typ)) slice));
  mret slice.

Definition callGoFuncWithStack (fn m : positive) (f : function) : X unit :=
  let paramLen := ParamNumInUint64 (funcType f) in
  let resultLen := ResultNumInUint64 (funcType f) in
  let growLen := resultLen - paramLen in
  _ ← (if growLen >? 0 then pushValues (zeros growLen) else mret tt);
  let stackLen := if growLen >? 0 then paramLen + growLen else paramLen in
  slice ← readX (fun s => sliceFrom (stack s) (zlen (stack s) - stackLen));
  slice ← callGoFunc fn m f (rev slice);
  _ ← modifyX (fun s => set_stack (rev_append slice (drop (length slice) (stack s))) s);
  let shrinkLen := paramLen - resultLen in
  if shrinkLen >? 0 then l ← readX (fun s => sliceTo (stack s) (zlen (stack s) - shrinkLen)); modifyX (set_stack l)
  else mret tt.

Definition callFunction (loop : positive -> positive -> X unit) (m : positive) (f : function) : X unit :=
  match hostFn (parent f), listener (parent f) with
  | Some fn, _ => callGoFuncWithStack fn m f
  | None, Some lsn => callNativeFuncWithListener loop m f lsn
  | None, None => callNativeFunc loop m f
  end.

(** [for frame.pc < bodyLen { ... }; ce.popFrame()] *)
Fixpoint nativeLoop (fuel : nat) (m mi : positive) : X unit := fun s =>
  match fuel with
  | O => (s, OutOfFuel)
  | S fuel' =>
      (frame ← topFrame;
       if framePC frame <? zlen (bodyOf frame) then
         op ← liftX (zindex (bodyOf frame) (framePC frame));
         _ ← execute (callFunction (nativeLoop fuel') mi) m mi op;
         nativeLoop fuel' m mi
       else _ ← popFrame; mret tt) s
  end.

(** ** Calls from the embedder *)

Inductive callError :=
| ParamCount
| StackSize
| Exited (code : Z)
| Recovered (p : panic).

Definition MaxFrames : nat := 30.

(** The listeners of the frames that are reported. *)
Definition abortEvents (l : list callFrame) : list listenerEvent :=
  omap (fun fr => (fun lsn => Aborted lsn (index (parent (frameF fr)))) <$> listener (parent (frameF fr))) (take MaxFrames l).

(** The error for the panic, and the call engine ready for another call. *)
Definition recoverOnCall (p : panic) (s : machine) : machine * callError :=
  let p := match p with Thrown _ => Trap ErrRuntimeUncaughtException | p => p end in
  (mkMachine [] [] (set_events (fun l => l ++ abortEvents (frames s)) (shared s)),
   match p with ExitError c => Exited c | p => Recovered p end).

(** The call of the function and the copy of its results. *)
Definition callAndPop (fuel : nat) (f : function) (params : list Z) : X (list Z) :=
  _ ← pushValues params;
  _ ← callFunction (nativeLoop fuel) (moduleInstance f) f;
  popValues (ResultNumInUint64 (funcType f)).

(** With the deferred function: results and error, or no fuel. *)
Definition runCall (fuel : nat) (f : function) (params : list Z) (s : machine) : machine * option (list Z * option callError) :=
  match callAndPop fuel f params s with
  | (s', Done results) => (s', Some (results, Exited <$> exitCode (moduleInstance f) (heap (shared s'))))
  | (s', Raised p) => let (s'', e) := recoverOnCall p s' in (s'', Some ([], Some e))
  | (s', OutOfFuel) => (s', None)
  end.

(** [CloseWithCtxErr]: the exit code and the deletion from the store; resources are released as in [ModuleClose]. *)
Definition closeWithCtxErr (m : positive) (code : Z) (w : world) : world :=
  match setExitCode (names w) m code exitCodeFlagResourceClosed with
  | Some n => set_names (deleteModule n m) w
  | None => w
  end.

(** [call]; [ctxErr] is the exit code for a context that is already done. *)
Definition call (fuel : nat) (f : function) (ctxErr : option Z) (params : list Z) (s : machine)
    : machine * option (list Z * option callError) :=
  let m := moduleInstance f in
  match exitCode m (heap (shared s)), ctxErr with
  | Some c, _ => (s, Some ([], Some (Exited c)))
  | None, Some code =>
      if compiledEnsureTermination (parent f) then
        let w := closeWithCtxErr m code (heap (shared s)) in
        (set_shared (set_heap w (shared s)) s, Some ([], Exited <$> exitCode m w))
      else runCall fuel f params s
  | None, None => runCall fuel f params s
  end.

Definition Call (fuel : nat) (f : function) (ctxErr : option Z) (params : list Z) (s : machine)
    : machine * option (list Z * option callError) :=
  if negb (ParamNumInUint64 (funcType f) =? zlen params) then (s, Some ([], Some ParamCount))
  else call fuel f ctxErr params s.

(** [SplitCallStack] gives the parameters; the results overwrite the start of the slice. *)
Definition CallWithStack (fuel : nat) (f : function) (ctxErr : option Z) (callStack : list Z) (s : machine)
    : machine * option (list Z * option callError) :=
  let n := ParamNumInUint64 (funcType f) in
  if (n >? zlen callStack) || (ResultNumInUint64 (funcType f) >? zlen callStack) then (s, Some (callStack, Some StackSize))
  else
    match call fuel f ctxErr (take (Z.to_nat n) callStack) s with
    | (s', Some (results, err)) => (s', Some (results ++ drop (length results) callStack, err))
    | (s', None) => (s', None)
    end.

(** ** The module engine *)

Definition newFunction (instance : positive) (m : Module) (ids : list Z) (i : Z) (c : compiledFunction) : res (option function) :=
  let! typeIndex := zindex (FunctionSection m) i in
  let! id := zindex ids typeIndex in
  let! ft := zindex (types m) typeIndex in
  Ok (Some (mkFunction ft instance id c)).

Fixpoint newFunctions (instance : positive) (m : Module) (ids : list Z) (i : Z) (codes : list compiledFunction) : res (list (option function)) :=
  match codes with
  | [] => Ok []
  | c :: codes' =>
      let! f := newFunction instance m ids i c in
      let! fs := newFunctions instance m ids (i + 1) codes' in
      Ok (f :: fs)
  end.

(** [me.functions[offset] = function{...}] for every code. *)
Definition NewModuleEngine (e : engine) (id : Z) (m : Module) (instance : positive) (ids : list Z) : res (list (option function)) :=
  let functions := replicate (Z.to_nat (zlen (FunctionSection m) + ImportFunctionCount m)) None in
  match fst (getCompiledFunctions id false e) with
  | None => Err "source module must be compiled before instantiation"
  | Some codes =>
      let! fs := newFunctions instance m ids 0 codes in
      if ImportFunctionCount m + zlen codes >? zlen functions then Panic "index out of range"
      else Ok (take (Z.to_nat (ImportFunctionCount m)) functions ++ fs
               ++ drop (Z.to_nat (ImportFunctionCount m + zlen codes)) functions)
  end.

Definition ResolveImportedFunction (self : positive) (i indexInImportedModule : Z) (importedModule : positive)
    (es : gmap positive (list (option function))) : res (gmap positive (list (option function))) :=
  let! imported := deref es importedModule in
  let! f := zindex imported indexInImportedModule in
  let! functions := deref es self in
  let! functions := zset functions i f in
  Ok (<[self := functions]> es).

(** The calls that the resolution of imports made, in order. *)
Fixpoint resolveAll (l : list (positive * Z * Z * Z * positive)) (es : gmap positive (list (option function)))
    : res (gmap positive (list (option function))) :=
  match l with
  | [] => Ok es
  | (self, i, _, indexInImportedModule, importedModule) :: l' =>
      let! es := ResolveImportedFunction self i indexInImportedModule importedModule es in resolveAll l' es
  end.

Definition FunctionInstanceReference (self : positive) (funcIndex : Z) : Z := functionPtr self funcIndex.

Definition NewFunction (self : positive) (i : Z) : X function := functionX self i.

Definition LookupFunction (t : TableInstance) (typeId tableOffset : Z) : X (positive * Z) :=
  if tableOffset >=? wrap32 (zlen (References t)) then trap ErrRuntimeInvalidTableAccess
  else
    rawPtr ← liftX (zindex (References t) tableOffset);
    if rawPtr =? 0 then trap ErrRuntimeInvalidTableAccess
    else
      tf ← functionFromUintptr rawPtr;
      if negb (typeID tf =? typeId) then trap ErrRuntimeIndirectCallTypeMismatch
      else mret (moduleInstance tf, index (parent tf)).

End Interpreter.
