(* ===== verification/InterpBase.v ===== *)
(** * Reasoning about the interpreter's actions

    Two relations that the loop is proved with: [below c c'], when [c'] does
    what [c] does wherever [c] has enough fuel, and [within R c], when [c] moves
    the machine along the preorder [R] whatever its outcome.  The tactics
    follow the structure of an action.

    First results: more fuel does not change the outcome of a call, and the
    frames of the caller are intact after a call, however it ends. *)

From S2P Require Import Prelude Leb128 Features Opcodes Types ValStack Validate Signature ConstExpr TypeIDs ModuleClose Execution ModuleList.
From S2P Require Import Memory Waiters Binary ModuleValidate Operations Compiler Lower GoFloat Numeric Vector Instantiate Machine Interp.

(** ** Fuel *)

Definition below {A} (c c' : X A) : Prop := forall s, snd (c s) = OutOfFuel \/ c' s = c s.

#[global] Instance below_refl {A} : Reflexive (@below A).
Proof. intros c s. by right. Qed.

Lemma below_bind {A B} (c c' : X A) (k k' : A -> X B) :
  below c c' -> (forall a, below (k a) (k' a)) -> below (c ≫= k) (c' ≫= k').
Proof.
  intros Hc Hk s. unfold mbind, X_bind. specialize (Hc s). destruct (c s) as [s1 r]. cbn in Hc.
  destruct r as [a|p|].
  - destruct Hc as [[=]| ->]. apply Hk.
  - destruct Hc as [[=]| ->]. by right.
  - by left.
Qed.

(** An action that differs from another only where it calls. *)
Ltac below :=
  repeat lazymatch goal with
  | |- below (mbind _ _) (mbind _ _) => apply below_bind; [|intros ?]
  | |- below (match ?x with _ => _ end) _ => destruct x
  | |- below ?c ?c => reflexivity
  end; eauto.

Lemma below_unwind `{P : Pointers} (c c' : X unit) : below c c' -> below (callWithUnwind c) (callWithUnwind c').
Proof.
  intros Hc s. unfold callWithUnwind. apply below_bind; [reflexivity|]. intros frame.
  destruct (zlen _ =? 0); [by apply below_bind|].
  intros s'. destruct (Hc s') as [Ho| ->]; [|by right].
  left. destruct (c s') as [s1 r]. cbn in Ho. by subst r.
Qed.

Section Fuel.
Context `{P : Pointers} `{N : NaNs}.
Context (hostCall : positive -> positive -> list Z -> store -> store * (list Z + panic)).
Context (newChannel : waitState -> Z) (park : positive -> Z -> X Z).

Abbreviation execute := (execute newChannel park).
Abbreviation nativeLoop := (nativeLoop hostCall newChannel park).
Abbreviation callFunction := (callFunction hostCall).

Lemma below_execute callee callee' m mi op :
  (forall f, below (callee f) (callee' f)) -> below (execute callee m mi op) (execute callee' m mi op).
Proof.
  intros Hc.
  assert (Hi : forall tf, below (invoke callee tf) (invoke callee' tf)).
  { intros tf. unfold invoke. apply below_bind; [by apply below_unwind|reflexivity]. }
  assert (Hr : forall tf, below (returnTo callee mi tf op) (returnTo callee' mi tf op)).
  { intros tf. unfold returnTo. destruct (negb _); [|reflexivity]. unfold invokeAndReturn.
    apply below_bind; [by apply below_unwind|reflexivity]. }
  unfold Interp.execute. destruct (OpKind op); try reflexivity;
    unfold execCallIndirect, execReturnCallIndirect; below.
Qed.

Lemma below_callFunction (loop loop' : positive -> positive -> X unit) m f :
  (forall m mi, below (loop m mi) (loop' m mi)) -> below (callFunction loop m f) (callFunction loop' m f).
Proof.
  intros Hl. unfold Interp.callFunction.
  assert (Hn : below (callNativeFunc loop m f) (callNativeFunc loop' m f)) by (unfold callNativeFunc; below).
  destruct (hostFn _); [reflexivity|]. destruct (listener _); [|done].
  unfold callNativeFuncWithListener. below.
Qed.

Lemma below_nativeLoop n m mi : below (nativeLoop n m mi) (nativeLoop (S n) m mi).
Proof.
  revert m mi. induction n as [|n IH]; intros m mi; [by left|].
  intros s. change (snd (nativeLoop (S n) m mi s) = OutOfFuel \/ nativeLoop (S (S n)) m mi s = nativeLoop (S n) m mi s).
  cbn [Interp.nativeLoop]. revert s.
  enough (H : below (A := unit)
    (frame ← topFrame; if framePC frame <? zlen (bodyOf frame) then
       op ← liftX (zindex (bodyOf frame) (framePC frame));
       _ ← execute (callFunction (nativeLoop n) mi) m mi op; nativeLoop n m mi
     else _ ← popFrame; mret tt)
    (frame ← topFrame; if framePC frame <? zlen (bodyOf frame) then
       op ← liftX (zindex (bodyOf frame) (framePC frame));
       _ ← execute (callFunction (nativeLoop (S n)) mi) m mi op; nativeLoop (S n) m mi
     else _ ← popFrame; mret tt)) by exact H.
  apply below_bind; [reflexivity|]. intros frame. destruct (_ <? _); [|reflexivity].
  apply below_bind; [reflexivity|]. intros op. apply below_bind; [|intros _; apply IH].
  apply below_execute. intros f. by apply below_callFunction.
Qed.

Lemma nativeLoop_more n k m mi s :
  snd (nativeLoop n m mi s) <> OutOfFuel -> nativeLoop (n + k) m mi s = nativeLoop n m mi s.
Proof.
  intros H. induction k as [|k IH]; [by rewrite Nat.add_0_r|].
  rewrite Nat.add_succ_r. destruct (below_nativeLoop (n + k) m mi s) as [Ho|E]; [by rewrite IH in Ho|].
  by rewrite E, IH.
Qed.

Lemma below_more n k m mi : below (nativeLoop n m mi) (nativeLoop (n + k) m mi).
Proof.
  intros s. destruct (snd (nativeLoop n m mi s)) eqn:E; [right|right|by left]; apply nativeLoop_more; by rewrite E.
Qed.

End Fuel.

(** ** Moves along a preorder *)

Definition within {A} (R : relation machine) (c : X A) : Prop := forall s, R s (fst (c s)).

Section Within.
Context (R : relation machine) `{HR : !PreOrder R}.

Lemma within_ret {A} (a : A) : within R (mret a).
Proof. intros s. cbn. reflexivity. Qed.
Lemma within_raise {A} p : within R (raise (A := A) p).
Proof. intros s. cbn. reflexivity. Qed.
Lemma within_liftX {A} (r : res A) : within R (liftX r).
Proof. intros s. cbn. reflexivity. Qed.
Lemma within_readX {A} (f : machine -> res A) : within R (readX f).
Proof. intros s. cbn. reflexivity. Qed.
Lemma within_getsX {A} (f : machine -> A) : within R (getsX f).
Proof. intros s. cbn. reflexivity. Qed.
Lemma within_modifyX f : (forall s, R s (f s)) -> within R (modifyX f).
Proof. intros H s. apply H. Qed.
Lemma within_bind {A B} (c : X A) (k : A -> X B) : within R c -> (forall a, within R (k a)) -> within R (c ≫= k).
Proof.
  intros Hc Hk s. unfold mbind, X_bind. specialize (Hc s). destruct (c s) as [s1 [a|p|]]; cbn in *; [|done|done].
  etrans; [exact Hc|apply Hk].
Qed.
Lemma within_popValue : (forall s l, R s (set_stack l s)) -> within R popValue.
Proof. intros H s. unfold popValue. destruct (stack s); [cbn; reflexivity|apply H]. Qed.

End Within.

(** Actions that change neither frames nor the store, and those that do not change the frames. *)
Definition sameFrames (s s' : machine) : Prop := frames s' = frames s.
#[global] Instance sameFrames_order : PreOrder sameFrames.
Proof. split; [done|]. intros s1 s2 s3 H1 H2. by unfold sameFrames in *; rewrite H2. Qed.

(** Follows binds and case distinctions, and unfolds the definitions it meets;
    lemmas come from the hint database [within]. *)
Create HintDb within discriminated.

Ltac head_of t := lazymatch t with ?f _ => head_of f | _ => t end.
Ltac within_step :=
  lazymatch goal with
  | |- within _ (mbind _ _) => apply within_bind; [exact _|..|intros ?]
  | |- within _ (match ?x with _ => _ end) => destruct x
  | |- within _ (modifyX _) => apply within_modifyX; intros ?
  | |- within _ (readX _) => apply within_readX; exact _
  | |- within _ (getsX _) => apply within_getsX; exact _
  | |- within _ (liftX _) => apply within_liftX; exact _
  | |- within _ (raise _) => apply within_raise; exact _
  | |- within _ (mret _) => apply within_ret; exact _
  | |- within _ popValue => apply within_popValue; [exact _|intros ? ?]
  | |- within _ ?c => first [solve [eauto 1 with within] | let h := head_of c in unfold h]
  end.
Ltac within_tac := repeat within_step; try solve [reflexivity | split; reflexivity].

(** ** Frames *)

Abbreviation quiet := (within sameFrames).

Lemma quiet_popParams l acc : quiet (popParams l acc).
Proof. revert acc. induction l as [|p l IH]; intros acc; cbn [popParams]; [within_tac|]. destruct (p =? ValueTypeV128); within_tac; apply IH. Qed.
Lemma quiet_popValues n : quiet (popValues n).
Proof.
  intros s. unfold popValues. cbn zeta.
  enough (H : quiet (v ← liftX (sliceFrom (stack s) (zlen (stack s) - n)); l ← liftX (sliceTo (stack s) (zlen (stack s) - n));
    _ ← modifyX (set_stack l); mret (rev v))) by apply H.
  within_tac.
Qed.
#[export] Hint Resolve quiet_popParams quiet_popValues : within.


(** Only the frame on top is changed. *)
Definition topOnly (s s' : machine) : Prop := tl (frames s') = tl (frames s) /\ length (frames s') = length (frames s).
#[global] Instance topOnly_order : PreOrder topOnly.
Proof.
  split; [done|]. intros s1 s2 s3 [H1 L1] [H2 L2]. unfold topOnly. by rewrite H2, L2, H1, L1.
Qed.
Lemma within_popParams l acc : within topOnly (popParams l acc).
Proof. intros s. unfold topOnly. by rewrite (quiet_popParams l acc s). Qed.
Lemma within_updateFrame f : within topOnly (updateFrame f).
Proof. intros s. unfold updateFrame, modifyX. cbn. by destruct (frames s) eqn:E; cbn; unfold topOnly; rewrite E. Qed.
#[export] Hint Resolve within_popParams within_updateFrame : within.

(** The frames [l] are still there, under the ceiling. *)
Definition held (l : list callFrame) (s : machine) : Prop := l `suffix_of` frames s /\ zlen (frames s) <= callStackCeiling.
Definition spec {A} (l : list callFrame) (c : X A) (Q : A -> machine -> Prop) (s : machine) : Prop :=
  match c s with
  | (s', Done a) => Q a s'
  | (s', _) => held l s'
  end.
(** One frame on top of [l]. *)
Definition on (l : list callFrame) (s : machine) : Prop :=
  (exists fr, frames s = fr :: l) /\ zlen l < callStackCeiling.

Lemma on_held l s : on l s -> held l s.
Proof. intros [[fr E] H]. split; [exists [fr]; by rewrite E|]. rewrite E, zlen_cons. lia. Qed.
Lemma on_top l s s' : on l s -> topOnly s s' -> on l s'.
Proof.
  intros [[fr E] Hl] [Ht Hn]. split; [|done]. rewrite E in *. destruct (frames s') as [|fr' l']; [done|].
  cbn in Ht. subst l'. by exists fr'.
Qed.
Lemma returns_bind {A B} l (c : X A) (k : A -> X B) Q s : spec l c (fun a => spec l (k a) Q) s -> spec l (c ≫= k) Q s.
Proof. unfold spec, mbind, X_bind. by destruct (c s) as [s' [a|p|]]. Qed.
Lemma returns_mono {A} l (c : X A) (Q Q' : A -> machine -> Prop) s : spec l c Q s -> (forall a s', Q a s' -> Q' a s') -> spec l c Q' s.
Proof. unfold spec. intros H HQ. destruct (c s) as [s' [a|p|]]; auto. Qed.
Lemma spec_within {A} l (c : X A) s : within topOnly c -> on l s -> spec l c (fun _ => on l) s.
Proof.
  intros Hc Hs. pose proof (on_top l _ _ Hs (Hc s)) as H. unfold spec.
  destruct (c s) as [s' [a|p|]]; [done|by apply on_held..].
Qed.

Section Frames.
Context `{P : Pointers} `{N : NaNs}.
Context (hostCall : positive -> positive -> list Z -> store -> store * (list Z + panic)).
Context (newChannel : waitState -> Z) (park : positive -> Z -> X Z).
(** Another thread does not touch the frames of this call engine. *)
Context (park_quiet : forall p id, quiet (park p id)).

Abbreviation execute := (execute newChannel park).
Abbreviation nativeLoop := (nativeLoop hostCall newChannel park).
Abbreviation callFunction := (callFunction hostCall).

Lemma within_park p id : within topOnly (park p id).
Proof using park_quiet. intros s. unfold topOnly. by rewrite (park_quiet p id s). Qed.
Hint Resolve within_park : within.

Definition calls (c : X unit) : Prop := forall s, zlen (frames s) <= callStackCeiling ->
  spec (frames s) c (fun _ s' => frames s' = frames s) s.

Lemma on_calls l c s : calls c -> on l s -> spec l c (fun _ => on l) s.
Proof.
  intros Hc Hs. destruct (on_held l s Hs) as [_ Hb]. specialize (Hc s Hb). destruct Hs as [[fr E] Hl].
  unfold spec in *. destruct (c s) as [s' [a|p|]].
  - split; [|done]. exists fr. by rewrite Hc.
  - destruct Hc as [[k Ek] Hk]. split; [|done]. exists (k ++ [fr]). by rewrite Ek, E, <- app_assoc.
  - destruct Hc as [[k Ek] Hk]. split; [|done]. exists (k ++ [fr]). by rewrite Ek, E, <- app_assoc.
Qed.

Lemma truncate_back s l : l `suffix_of` frames s ->
  truncateFrames (zlen l) s = (set_frames l s, Done tt).
Proof.
  intros [k E]. unfold truncateFrames, modifyX. rewrite E, zlen_app.
  replace (zlen k + zlen l - zlen l) with (zlen k) by lia. unfold zlen. by rewrite Nat2Z.id, drop_app_length.
Qed.

Lemma unwind_spec l c s : calls c -> on l s -> spec l (callWithUnwind c) (fun _ => on l) s.
Proof.
  intros Hc Hs. unfold callWithUnwind. apply returns_bind.
  unfold topFrame, readX, spec at 1. destruct Hs as [[fr E] Hl]. rewrite E. cbn [liftX].
  assert (Hs : on l s) by (split; [by exists fr|done]).
  destruct (zlen _ =? 0).
  { apply returns_bind. eapply returns_mono; [by apply on_calls|]. intros a s' H. exact H. }
  pose proof (on_held l s Hs) as [_ Hb]. specialize (Hc s Hb).
  unfold spec in Hc |- *. destruct (c s) as [s' [a|p|]].
  - split; [|done]. exists fr. by rewrite Hc.
  - destruct Hc as [Hsuf Hk].
    assert (Hh : held l s'). { split; [|done]. etrans; [|exact Hsuf]. exists [fr]. by rewrite E. }
    destruct p as [msg|e|code|msg|v]; try exact Hh.
    unfold mbind at 1, X_bind at 1. rewrite (truncate_back s' (frames s)); [|exact Hsuf].
    assert (Hon : on l (set_frames (frames s) s')) by (split; [by exists fr|done]).
    change (spec l (frame ← topFrame; h ← searchX e frame;
      match h with
      | Some (clause, values) => _ ← applyExceptionHandler frame clause values; mret true
      | None => raise (Thrown e)
      end) (fun _ => on l) (set_frames (frames s) s')).
    apply spec_within; [|exact Hon]. within_tac.
  - destruct Hc as [Hsuf Hk]. split; [|done]. etrans; [|exact Hsuf]. exists [fr]. by rewrite E.
Qed.

Lemma returns_ret {A} l (a : A) (Q : A -> machine -> Prop) s : Q a s -> spec l (mret a) Q s.
Proof. done. Qed.

(** An operation leaves the frames under the top as they are. *)
Lemma execute_spec l callee m mi op s :
  (forall f, calls (callee f)) -> on l s -> spec l (execute callee m mi op) (fun _ => on l) s.
Proof.
  intros Hc Hs.
  assert (Hi : forall tf s, on l s -> spec l (invoke callee tf) (fun _ => on l) s).
  { intros tf s' Hs'. apply returns_bind. eapply returns_mono; [by apply unwind_spec|].
    intros b s1 H1. apply spec_within; [|exact H1]. within_tac. }
  assert (Hr : forall tf s, on l s -> spec l (returnTo callee mi tf op) (fun _ => on l) s).
  { intros tf s' Hs'. unfold returnTo. destruct (negb _); [|apply spec_within; [within_tac|done]].
    apply returns_bind. eapply returns_mono; [by apply unwind_spec|].
    intros b s1 H1. apply spec_within; [|exact H1]. within_tac. }
  unfold Interp.execute.
  destruct (OpKind op); try (apply spec_within; [by within_tac|exact Hs]);
    unfold execCallIndirect, execReturnCallIndirect;
    repeat first [solve [eauto 2] |
      apply returns_bind; eapply returns_mono; [apply spec_within; [within_tac|eassumption]|intros ? ? ?; cbn beta]].
Qed.

Lemma pushFrame_spec l fr s : frames s = l -> zlen l <= callStackCeiling -> spec l (pushFrame fr) (fun _ => on l) s.
Proof.
  intros E Hb. unfold spec, pushFrame. rewrite E. destruct (callStackCeiling <=? zlen l) eqn:Hc.
  - unfold held. cbn. rewrite E. by split.
  - apply Z.leb_gt in Hc. split; [|done]. exists fr. reflexivity.
Qed.

Lemma popFrame_spec l s : on l s -> spec l popFrame (fun _ s' => frames s' = l) s.
Proof. intros [[fr E] _]. unfold spec, popFrame. by rewrite E. Qed.

Definition back (l : list callFrame) (s : machine) : Prop := frames s = l /\ zlen l <= callStackCeiling.

Lemma spec_quiet {A} l (c : X A) s : quiet c -> back l s -> spec l c (fun _ => back l) s.
Proof.
  intros Hc [E Hb]. pose proof (Hc s) as H. unfold sameFrames in H. unfold spec.
  destruct (c s) as [s' [a|p|]]; cbn in H; rewrite <- E in *; [by split; [rewrite H|]|..];
    (split; [by rewrite H|by rewrite H]).
Qed.

Lemma callGoFunc_spec l fn m f slice s : back l s -> spec l (callGoFunc hostCall fn m f slice) (fun _ => back l) s.
Proof.
  intros Hs. unfold callGoFunc. apply returns_bind. eapply returns_mono; [apply spec_quiet; [within_tac|exact Hs]|].
  intros ? s1 H1. cbn beta. apply returns_bind. eapply returns_mono; [apply spec_quiet; [within_tac|exact H1]|].
  intros n s2 [E2 Hb]. cbn beta. apply returns_bind. eapply returns_mono; [by apply pushFrame_spec|].
  intros ? s3 H3. cbn beta. apply returns_bind. eapply returns_mono with (Q := fun _ => on l).
  { unfold spec, runHost. destruct (hostCall _ _ _ _) as [sh [r|p]]; [exact H3|exact (on_held _ _ H3)]. }
  intros r s4 H4. cbn beta. apply returns_bind. eapply returns_mono; [by apply popFrame_spec|].
  intros ? s5 H5. cbn beta. apply returns_bind. eapply returns_mono; [apply spec_quiet; [within_tac|by split]|].
  intros ? s6 H6. exact H6.
Qed.

Lemma callNativeFunc_spec l loop m f s :
  (forall m mi s, on l s -> spec l (loop m mi) (fun _ => back l) s) -> back l s ->
  spec l (callNativeFunc loop m f) (fun _ => back l) s.
Proof.
  intros Hl Hs. unfold callNativeFunc. apply returns_bind. eapply returns_mono; [apply spec_quiet; [within_tac|exact Hs]|].
  intros n s1 [E1 Hb]. cbn beta. apply returns_bind. eapply returns_mono; [by apply pushFrame_spec|].
  intros ? s2 H2. by apply Hl.
Qed.

Lemma callFunction_spec l loop m f s :
  (forall m mi s, on l s -> spec l (loop m mi) (fun _ => back l) s) -> back l s ->
  spec l (callFunction loop m f) (fun _ => back l) s.
Proof.
  intros Hl Hs. unfold Interp.callFunction. destruct (hostFn _) as [fn|].
  - unfold callGoFuncWithStack. apply returns_bind. eapply returns_mono; [apply spec_quiet; [within_tac|exact Hs]|].
    intros ? s1 H1. cbn beta zeta. apply returns_bind. eapply returns_mono; [apply spec_quiet; [within_tac|exact H1]|].
    intros r s2 H2. cbn beta. apply returns_bind. eapply returns_mono; [by apply callGoFunc_spec|].
    intros r' s3 H3. cbn beta. apply spec_quiet; [within_tac|exact H3].
  - destruct (listener _) as [lsn|]; [|by apply callNativeFunc_spec].
    unfold callNativeFuncWithListener. apply returns_bind. eapply returns_mono; [apply spec_quiet; [within_tac|exact Hs]|].
    intros r s1 H1. cbn beta. apply returns_bind. eapply returns_mono; [apply spec_quiet; [within_tac|exact H1]|].
    intros ? s2 H2. cbn beta. apply returns_bind. eapply returns_mono; [by apply callNativeFunc_spec|].
    intros ? s3 H3. cbn beta. apply spec_quiet; [within_tac|exact H3].
Qed.

(** The loop pops its frame when it ends, and leaves those of the callers when it does not. *)
Lemma nativeLoop_spec n l m mi s : on l s -> spec l (nativeLoop n m mi) (fun _ => back l) s.
Proof.
  revert l m mi s. induction n as [|n IH]; intros l m mi s Hs; [by apply on_held|].
  cbn [Interp.nativeLoop]. unfold spec at 1.
  change (spec l (frame ← topFrame; if framePC frame <? zlen (bodyOf frame) then
       op ← liftX (zindex (bodyOf frame) (framePC frame));
       _ ← execute (callFunction (nativeLoop n) mi) m mi op; nativeLoop n m mi
     else _ ← popFrame; mret tt) (fun _ => back l) s).
  apply returns_bind. eapply returns_mono; [apply spec_within; [within_tac|exact Hs]|].
  intros frame s1 H1. cbn beta. destruct (_ <? _).
  - apply returns_bind. eapply returns_mono; [apply spec_within; [within_tac|exact H1]|].
    intros op s2 H2. cbn beta. apply returns_bind. eapply returns_mono; [apply execute_spec; [|exact H2]|].
    + intros f s3 H3. eapply returns_mono; [apply callFunction_spec; [apply IH|by split]|]. by intros ? s4 [-> _].
    + intros ? s3 H3. by apply IH.
  - apply returns_bind. eapply returns_mono; [by apply popFrame_spec|]. intros fr s2 E2.
    apply returns_ret. split; [done|]. destruct H1 as [_ Hlt]. lia.
Qed.

Lemma callFunction_frames n m f s : zlen (frames s) <= callStackCeiling ->
  spec (frames s) (callFunction (nativeLoop n) m f) (fun _ s' => frames s' = frames s) s.
Proof using park_quiet.
  intros Hb. eapply returns_mono; [apply callFunction_spec; [intros; by apply nativeLoop_spec|by split]|]. by intros ? s' [-> _].
Qed.

End Frames.
