(* ===== verification/Runtime.v ===== *)
(** * The runtime (src/runtime.go, src/config.go, and Store.Instantiate of src/internal/wasm/store.go)

    [CompileModule] and [InstantiateModule] with the interpreter as the engine:
    they compose the decoder, the validator, the identifiers of function types,
    the compiler, the instantiation and, for start functions, the execution.

    Parameters: the checksum that names a compiled module, the order in which
    Go iterates over the map of imports, host functions, and what the context
    may carry (a resolver of imports, an allocator, preapplied memories).
    Listeners, the close notifier and the file system are left out.  Closing an
    instance sets its exit code, deletes it from the store and retires its
    memory; the allocations are freed as in [Execution]. *)

From S2P Require Import Prelude Leb128 Features Opcodes Types ValStack Validate Signature ConstExpr TypeIDs ModuleClose Execution ModuleList.
From S2P Require Import Memory Waiters Binary ModuleValidate Operations Compiler Lower GoFloat Numeric Vector Instantiate Machine Interp.

Record runtimeConfig := mkRuntimeConfig {
  enabledFeatures : CoreFeatures;
  memoryLimitPages : Z;
  memoryCapacityFromMax : bool;
  dwarfDisabled : bool;
  storeCustomSections : bool;
  ensureTermination : bool;
}.

(** [compiledStore]: the store whose identifiers [typeIDs] are. *)
Record compiledModule := mkCompiledModule {
  module : positive;
  moduleID : Z;
  compiledStore : positive;
  compiledConfig : runtimeConfig;
  typeIDs : list Z;
  closeWithModule : bool;
}.

(** [self] names the store: a pointer that is compared. *)
Record runtime := mkRuntime {
  self : positive;
  config : runtimeConfig;
  closedWord_ : Z;
  storeTypes : typeStore;
  storeEngine : engine;
  storeState : store;
  (** the handles of compiled modules whose [closeOnce] has run, by their module *)
  closedHandles : gset positive;
  (** [CodeCloser] of the instances that have one *)
  codeClosers : gmap positive compiledModule;
}.

Definition set_storeTypes t r := mkRuntime (self r) (config r) (closedWord_ r) t (storeEngine r) (storeState r) (closedHandles r) (codeClosers r).
Definition set_storeEngine e r := mkRuntime (self r) (config r) (closedWord_ r) (storeTypes r) e (storeState r) (closedHandles r) (codeClosers r).
Definition set_storeState s r := mkRuntime (self r) (config r) (closedWord_ r) (storeTypes r) (storeEngine r) s (closedHandles r) (codeClosers r).
Definition set_closedWord w r := mkRuntime (self r) (config r) w (storeTypes r) (storeEngine r) (storeState r) (closedHandles r) (codeClosers r).
Definition set_closedHandles h r := mkRuntime (self r) (config r) (closedWord_ r) (storeTypes r) (storeEngine r) (storeState r) h (codeClosers r).
Definition set_codeClosers c r := mkRuntime (self r) (config r) (closedWord_ r) (storeTypes r) (storeEngine r) (storeState r) (closedHandles r) c.

Definition emptyWorld : world := mkWorld ∅ ∅ ∅ ∅ ∅ ∅ ∅ (mkStore ∅ None (Some ∅) nameToModuleShrinkThreshold) [].
Definition emptyState : store := mkEngineStore emptyWorld ∅ ∅ ∅ ∅ [].
Definition NewRuntimeWithConfig (p : positive) (c : runtimeConfig) : runtime := mkRuntime p c 0 newTypeStore NewEngine emptyState ∅ ∅.

(** What the operations return; an [ExitError] is an error of its own type. *)
Inductive returned (A : Type) :=
| Ret (a : A)
| Fail (msg : string)
| Exit (code : Z)
| Crash (msg : string)
| Diverge.
Arguments Ret {A} a.
Arguments Fail {A} msg.
Arguments Exit {A} code.
Arguments Crash {A} msg.
Arguments Diverge {A}.

Definition RT (A : Type) : Type := runtime -> runtime * returned A.
#[global] Instance RT_ret : MRet RT := fun A a r => (r, Ret a).
#[global] Instance RT_bind : MBind RT := fun A B k m r =>
  let (r, x) := m r in
  match x with
  | Ret a => k a r
  | Fail e => (r, Fail e)
  | Exit c => (r, Exit c)
  | Crash e => (r, Crash e)
  | Diverge => (r, Diverge)
  end.
Definition ofRes {A} (x : res A) : returned A := match x with Ok a => Ret a | Err e => Fail e | Panic e => Crash e end.
Definition liftRT {A} (x : res A) : RT A := fun r => (r, ofRes x).
Definition getRT {A} (f : runtime -> A) : RT A := fun r => (r, Ret (f r)).
Definition modRT (f : runtime -> runtime) : RT unit := fun r => (f r, Ret tt).

Definition failIfClosedRT : RT unit := fun r =>
  if negb (closedWord_ r =? 0) then (r, Fail "runtime closed with exit_code") else (r, Ret tt).

(** An operation of the store. *)
Definition worldRT {A} (c : M A) : RT A := fun r =>
  let (w, x) := c (heap (storeState r)) in (set_storeState (set_heap w (storeState r)) r, ofRes x).

Section Runtime.
Context `{P : Pointers} `{N : NaNs}.
Context (hostCall : positive -> positive -> list Z -> store -> store * (list Z + panic)).
Context (newChannel : waitState -> Z) (park : positive -> Z -> X Z).
(** sha256 of the binary and of what else distinguishes the code. *)
Context (checksum : list Z -> bool -> Z).
Context (iterate : gmap string (list nat) -> list string) (importerKeys : gmap positive Z -> list positive).
Context (resolver : option (string -> resolution)) (allocator : option (Z -> Z -> LinearMemory)).
Context (preapplied : positive -> option (positive -> bool)).
(** Bounds the operations of a call. *)
Context (fuel : nat).

(** ** CompileModule *)

Definition getFunctionTypeIDs (m : Module) : RT (list Z) := fun r =>
  let '(t, _, x) := GetFunctionTypeIDs (storeTypes r) (TypeSection m) in (set_storeTypes t r, ofRes x).

Definition engineCompile (id : Z) (m : Module) : RT unit := fun r =>
  let c := config r in
  let (e, x) := Lower.CompileModule (enabledFeatures c) id m [] [] (ensureTermination c) false (storeEngine r) in
  (set_storeEngine e r, ofRes x).

(** The module becomes an object of the heap. *)
Definition newModule (m : Module) : RT positive := fun r =>
  let w := heap (storeState r) in
  let p := newPtr (modules w) in
  (set_storeState (set_heap (mkWorld (instances w) (<[p := m]> (modules w)) (globals w) (tables w) (memories w) (tags w)
     (graph w) (names w) (imported w)) (storeState r)) r, Ret p).

Definition CompileModule (binary : list Z) : RT compiledModule :=
  _ ← failIfClosedRT;
  c ← getRT config;
  internal ← liftRT (decodeAndValidate (enabledFeatures c) (memoryLimitPages c) (memoryCapacityFromMax c)
                       (negb (dwarfDisabled c)) (storeCustomSections c) binary);
  p ← newModule internal;
  ids ← getFunctionTypeIDs internal;
  let id := checksum binary (ensureTermination c) in
  _ ← engineCompile id internal;
  st ← getRT self;
  mret (mkCompiledModule p id st c ids false).

(** [compiledModule.Close], whose [closeOnce] makes it idempotent. *)
Definition closeCompiled (code : compiledModule) : RT unit := modRT (fun r =>
  if bool_decide (module code ∈ closedHandles r) then r
  else set_closedHandles ({[module code]} ∪ closedHandles r)
         (set_storeEngine (deleteCompiledFunctions (moduleID code) (storeEngine r)) r)).

(** ** Closing an instance *)

(** [retireMemory] on the graph of imports; allocations are not tracked here. *)
Definition retireGraph (inst : positive) : M unit := fun w =>
  match retireInstances importerKeys (graph w) ((fun _ => mkMemoryObject inst None) <$> memories w) inst with
  | Ok (g, _) => (set_graph g w, Ok tt)
  | Err e => (w, Err e)
  | Panic e => (w, Panic e)
  end.

(** [ensureResourcesClosed] *)
Definition ensureResourcesClosed (inst : positive) : RT unit :=
  _ ← worldRT (retireGraph inst);
  c ← getRT codeClosers;
  match c !! inst with
  | Some code => _ ← closeCompiled code; modRT (fun r => set_codeClosers (delete inst (codeClosers r)) r)
  | None => mret tt
  end.

(** [setExitCode]: whether this call closes the instance. *)
Definition closeWord (inst : positive) (code : Z) : RT bool := fun r =>
  let w := heap (storeState r) in
  match setExitCode (names w) inst code exitCodeFlagResourceClosed with
  | None => (r, Ret false)
  | Some st => (set_storeState (set_heap (set_graph (alter (Execution.set_Closed true) inst (graph w)) (set_names st w)) (storeState r)) r, Ret true)
  end.

(** [closeWithExitCode], which leaves the instance in the list of the store. *)
Definition closeListed (inst : positive) (code : Z) : RT unit :=
  first ← closeWord inst code;
  if first : bool then ensureResourcesClosed inst else mret tt.

(** [ModuleInstance.Close] *)
Definition closeInstance (inst : positive) : RT unit :=
  first ← closeWord inst 0;
  if first : bool then
    _ ← worldRT (modifyM (fun w => set_names (deleteModule (names w) inst) w));
    ensureResourcesClosed inst
  else mret tt.

(** ** InstantiateModule *)

(** The configuration that the compiled code depends on must be that of this runtime. *)
Definition compatible (code : compiledModule) : RT (list Z) :=
  st ← getRT self;
  c ← getRT config;
  let k := compiledConfig code in
  if bool_decide (compiledStore code = st) then mret (typeIDs code)
  else
    _ ← (if memoryLimitPages c =? memoryLimitPages k then mret tt else liftRT (Err "module was compiled by another Runtime with WithMemoryLimitPages"));
    _ ← (if Bool.eqb (memoryCapacityFromMax c) (memoryCapacityFromMax k) then mret tt else liftRT (Err "module was compiled by another Runtime with WithMemoryCapacityFromMax"));
    _ ← (if enabledFeatures c =? enabledFeatures k then mret tt else liftRT (Err "module was compiled by another Runtime with different core features"));
    _ ← (if Bool.eqb (ensureTermination c) (ensureTermination k) then mret tt else liftRT (Err "module was compiled by another Runtime with WithCloseOnContextDone"));
    m ← worldRT (moduleOf (module code));
    getFunctionTypeIDs m.

(** [NewModuleEngine] and [ResolveImportedFunction], which instantiation calls. *)
Definition attachEngine (inst : positive) (m : Module) (id : Z) (ids : list Z) : RT unit := fun r =>
  let st := storeState r in
  match (let! fs := NewModuleEngine (storeEngine r) id m inst ids in
         resolveAll (filter (fun x => fst (fst (fst (fst x))) = inst) (imported (heap st))) (<[inst := fs]> (engines st))) with
  | Ok es => (set_storeState (mkEngineStore (heap st) es (<[inst := ids]> (TypeIDsOf st)) (waiters st) (exceptions st) (events st)) r, Ret tt)
  | Err e => (r, Fail e)
  | Panic e => (r, Crash e)
  end.

(** A call of a function of an instance, with a call engine of its own. *)
Definition callRT (f : function) (params : list Z) : RT (list Z * option callError) := fun r =>
  match Call hostCall newChannel park fuel f None params (mkMachine [] [] (storeState r)) with
  | (s, Some x) => (set_storeState (shared s) r, Ret x)
  | (s, None) => (set_storeState (shared s) r, Diverge)
  end.

Definition functionRT (inst : positive) (i : Z) : RT function := fun r => (r, ofRes (functionIn (engines (storeState r)) inst i)).

(** The start section: an exit error is returned as it is. *)
Definition callStart (inst : positive) (m : Module) : RT unit :=
  match StartSection m with
  | None => mret tt
  | Some i =>
      f ← functionRT inst i;
      '(_, err) ← callRT f [];
      match err with
      | None => mret tt
      | Some (Exited c) => fun r => (r, Exit c)
      | Some _ => liftRT (Err ("start " +:+ funcDesc m SectionIDFunction i +:+ " failed"))
      end
  end.

Definition register (inst : positive) : RT unit :=
  worldRT (fun w => let (st, x) := registerModule (names w) inst in (set_names st w, x)).

(** What [c] fails with, after [cleanup]; a panic is not an error. *)
Definition onError {A} (cleanup : RT unit) (c : RT A) : RT A := fun r =>
  match c r with
  | (r, Fail e) => let (r, x) := cleanup r in (r, match x with Crash m => Crash m | _ => Fail e end)
  | (r, Exit n) => let (r, x) := cleanup r in (r, match x with Crash m => Crash m | _ => Exit n end)
  | (r, x) => (r, x)
  end.

(** [Store.instantiate], whose instance is closed when it fails. *)
Definition instantiateRT (code : compiledModule) (ids : list Z) (name : string) (willRun : bool) : RT positive :=
  c ← getRT config;
  e ← getRT storeEngine;
  m ← worldRT (moduleOf (module code));
  inst ← getRT (fun r => newInstancePtr (heap (storeState r)));
  _ ← worldRT (modifyM (fun w => set_names (set_nodes (<[inst := mkNode name None None 0 false None None]> (nodes (names w))) (names w)) w));
  let compiled := match fst (getCompiledFunctions (moduleID code) false e) with
                  | Some _ => Ok tt | None => Err "source module must be compiled before instantiation" end in
  onError (closeInstance inst)
    (inst ← worldRT (instantiate resolver (fun _ => compiled) FunctionInstanceReference false allocator preapplied
                       (fun _ _ => mret None) (iterate (ImportPerModule m)) (enabledFeatures c) (module code) name willRun);
     _ ← attachEngine inst m (moduleID code) ids;
     _ ← callStart inst m;
     mret inst).

(** [Store.Instantiate] *)
Definition storeInstantiate (code : compiledModule) (ids : list Z) (name : string) (willRun : bool) : RT positive :=
  st ← getRT (fun r => names (heap (storeState r)));
  _ ← (if negb (String.eqb name "") && bool_decide (is_Some (nameToModule st ≫= lookup name))
       then liftRT (Err ("module[" +:+ name +:+ "] has already been instantiated")) else mret tt);
  inst ← instantiateRT code ids name willRun;
  _ ← modRT (fun r => if closeWithModule code then set_codeClosers (<[inst := code]> (codeClosers r)) r else r);
  _ ← onError (closeInstance inst) (register inst);
  mret inst.

(** [ExportedFunction] *)
Definition exportedFunction (inst : positive) (fn : string) : RT (option function) :=
  i ← worldRT (instanceOf inst);
  match getExport i fn ExternTypeFunc with
  | Ok e => f ← functionRT inst (ExportIndex e); mret (Some f)
  | Err _ => mret None
  | Panic e => liftRT (Panic e)
  end.

(** The start functions of the configuration, failing at the first error. *)
Fixpoint callStartFunctions (inst : positive) (name : string) (fns : list string) : RT positive :=
  match fns with
  | [] => mret inst
  | fn :: fns' =>
      start ← exportedFunction inst fn;
      match start with
      | None => callStartFunctions inst name fns'
      | Some f =>
          '(_, err) ← callRT f [];
          match err with
          | None => callStartFunctions inst name fns'
          | Some err =>
              _ ← closeInstance inst;
              match err with
              | Exited 0 => mret inst
              | Exited c => fun r => (r, Exit c)
              | _ => liftRT (Err ("module[" +:+ name +:+ "] function[" +:+ fn +:+ "] failed"))
              end
          end
      end
  end.

(** [name]: the name of the configuration, when it is set. *)
Definition InstantiateModule (code : compiledModule) (name : option string) (startFunctions : list string) : RT positive :=
  _ ← failIfClosedRT;
  m ← worldRT (moduleOf (module code));
  let name := match name, NameSec m with
              | Some n, _ => n
              | None, Some ns => NameModule ns
              | None, None => ""
              end in
  ids ← compatible code;
  let willRun := existsb (fun fn => bool_decide (is_Some (Exports m !! fn))) startFunctions in
  inst ← onError (if closeWithModule code then closeCompiled code else mret tt) (storeInstantiate code ids name willRun);
  callStartFunctions inst name startFunctions.

(** The handle that is closed with the module. *)
Definition InstantiateWithConfig (binary : list Z) (name : option string) (startFunctions : list string) : RT positive :=
  code ← CompileModule binary;
  InstantiateModule (mkCompiledModule (module code) (moduleID code) (compiledStore code) (compiledConfig code) (typeIDs code) true)
    name startFunctions.

(** ** Close *)

(** The loop of [Store.CloseWithExitCode] over its snapshot. *)
Fixpoint closeAll (l : list positive) (code : Z) : RT unit :=
  match l with
  | [] => mret tt
  | inst :: l => _ ← closeListed inst code; closeAll l code
  end.

(** [Store.CloseWithExitCode] *)
Definition storeClose (code : Z) : RT unit :=
  l ← worldRT (fun w => let (st, l) := closeStore (names w) in (set_names st w, Ok l));
  _ ← modRT (fun r => set_storeTypes (closeTypes (storeTypes r)) r);
  closeAll l code.

(** [cached]: whether the engine is that of a cache. *)
Definition CloseWithExitCode (cached : bool) (code : Z) : RT unit :=
  w ← getRT closedWord_;
  if negb (w =? 0) then mret tt
  else
    _ ← modRT (set_closedWord (wrap64 (1 + wrap64 (Z.shiftl code 32))));
    _ ← storeClose code;
    if cached then mret tt else modRT (fun r => set_storeEngine (Lower.Close (storeEngine r)) r).

End Runtime.
