(* ===== verification/InterpSafe.v ===== *)
(** * Calls, frames and exceptions

    The fuel of the loop does not influence results; a call gives the frames of
    its callers back; an exception goes to the innermost handler. *)

From S2P Require Import Prelude Leb128 Features Opcodes Types ValStack Validate Signature ConstExpr TypeIDs ModuleClose Execution ModuleList.
From S2P Require Import Memory Waiters Binary ModuleValidate Operations Compiler Lower GoFloat Numeric Vector Instantiate Machine Interp.
From S2P Require Import Runtime InterpBase.

(** ** A guest to run *)

(** [fac], recursive, in the binary format. *)
Definition factorial : list Z :=
  [0; 97; 115; 109; 1; 0; 0; 0] ++ [1; 6; 1; 0x60; 1; 0x7f; 1; 0x7f] ++ [3; 2; 1; 0] ++ [7; 7; 1; 3; 102; 97; 99; 0; 0]
  ++ [10; 23; 1; 21; 0] ++ [OpcodeLocalGet; 0; OpcodeI32Eqz; OpcodeIf; 0x7f; OpcodeI32Const; 1; OpcodeElse]
  ++ [OpcodeLocalGet; 0; OpcodeLocalGet; 0; OpcodeI32Const; 1; OpcodeI32Sub; OpcodeCall; 0; OpcodeI32Mul; OpcodeEnd; OpcodeEnd].

(** A function that throws 42, and one that catches it. *)
Definition catching : list Z :=
  [0; 97; 115; 109; 1; 0; 0; 0] ++ [1; 12; 3; 0x60; 0; 0; 0x60; 1; 0x7f; 0; 0x60; 0; 1; 0x7f] ++ [3; 3; 2; 0; 2] ++ [13; 3; 1; 0; 1]
  ++ [10; 25; 2] ++ [6; 0; OpcodeI32Const; 42; OpcodeThrow; 0; OpcodeEnd]
  ++ [16; 0; OpcodeBlock; 0x7f; OpcodeTryTable; 0x40; 1; CatchKindCatch; 0; 0; OpcodeCall; 0; OpcodeEnd; OpcodeI32Const; 7; OpcodeEnd; OpcodeEnd].

Definition plainConfig : runtimeConfig :=
  mkRuntimeConfig (Z.lor CoreFeaturesV2 CoreFeaturesExceptionHandling) 65536 false true false false.
(** No host functions, and no threads. *)
Definition noHost (fn m : positive) (slice : list Z) (s : store) : store * (list Z + panic) := (s, inr (HostPanic 0)).
Definition noChannel (st : waitState) : Z := 0.
Definition noPark (p : positive) (id : Z) : X Z := mret 2.

Section Guest.
#[local] Existing Instance namedPointers.
#[local] Existing Instance canonicalNaNs.

Definition instantiateGuest (binary : list Z) : runtime * returned positive :=
  InstantiateWithConfig noHost noChannel noPark (fun _ _ => 7) (fun m => (map_to_list m).*1) (fun m => (map_to_list m).*1) None None (fun _ => None) 2000
    binary None [] (NewRuntimeWithConfig 1 plainConfig).

(** The function [i] of the only instance, and the machine to call it in. *)
Definition guestFunction (binary : list Z) (i : Z) : option (function * machine) :=
  match instantiateGuest binary with
  | (r, Ret inst) =>
      match functionIn (engines (storeState r)) inst i with
      | Ok f => Some (f, mkMachine [] [] (storeState r))
      | _ => None
      end
  | _ => None
  end.

Definition guestCall (binary : list Z) (i : Z) (fuel : nat) (params : list Z) : option (list Z * option callError) :=
  f ← guestFunction binary i; snd (Call noHost noChannel noPark fuel f.1 None params f.2).

(** From the binary to the result: decoded, validated, compiled, instantiated and run. *)
Example factorial_runs : guestCall factorial 0 200 [5] = Some ([120], None).
Proof. vm_compute. reflexivity. Qed.
Example factorial_wraps : guestCall factorial 0 200 [13] = Some ([1932053504], None).
Proof. vm_compute. reflexivity. Qed.
(** 2000 frames are the limit. *)
Example factorial_overflows : guestCall factorial 0 (100 * 200) [2000] = Some ([], Some (Recovered (Trap ErrRuntimeStackOverflow))).
Proof. vm_compute. reflexivity. Qed.
Example catching_runs : guestCall catching 1 200 [] = Some ([42], None).
Proof. vm_compute. reflexivity. Qed.
Example throwing_runs : guestCall catching 0 200 [] = Some ([], Some (Recovered (Trap ErrRuntimeUncaughtException))).
Proof. vm_compute. reflexivity. Qed.
End Guest.

(** ** Fuel and frames *)

Section Calls.
Context `{P : Pointers} `{N : NaNs}.
Context (hostCall : positive -> positive -> list Z -> store -> store * (list Z + panic)).
Context (newChannel : waitState -> Z) (park : positive -> Z -> X Z).

Abbreviation nativeLoop := (nativeLoop hostCall newChannel park).
Abbreviation callFunction := (callFunction hostCall).
Abbreviation callAndPop := (callAndPop hostCall newChannel park).
Abbreviation runCall := (runCall hostCall newChannel park).
Abbreviation Call := (Call hostCall newChannel park).

Lemma below_callAndPop n k f params : below (callAndPop n f params) (callAndPop (n + k) f params).
Proof.
  unfold Interp.callAndPop. apply below_bind; [reflexivity|]. intros ?.
  apply below_bind; [|reflexivity]. apply below_callFunction. intros. apply below_more.
Qed.

Lemma runCall_more n k f params s x : snd (runCall n f params s) = Some x -> runCall (n + k) f params s = runCall n f params s.
Proof.
  unfold Interp.runCall. destruct (below_callAndPop n k f params s) as [Ho| ->]; [|done].
  destruct (callAndPop n f params s) as [s' r]. cbn in Ho. by subst r.
Qed.

(** The fuel is enough whenever a call from the embedder returns, with results or
    with an error: every larger amount gives the same results, the same error and
    the same machine. *)
Lemma fuel_irrelevant n k f ctxErr params s x :
  snd (Call n f ctxErr params s) = Some x -> Call (n + k) f ctxErr params s = Call n f ctxErr params s.
Proof.
  unfold Interp.Call, call. destruct (negb _); [done|]. destruct (exitCode _ _), ctxErr; try done; [|apply runCall_more].
  destruct (compiledEnsureTermination _); [done|apply runCall_more].
Qed.

Lemma runCall_frames n f params s s' r : (forall p id, quiet (park p id)) ->
  frames s = [] -> runCall n f params s = (s', Some r) -> frames s' = [].
Proof.
  intros Hp Hs. unfold Interp.runCall.
  assert (H : spec [] (callAndPop n f params) (fun _ s' => back [] s') s).
  { assert (H0 : back [] s) by (split; [done|by vm_compute]).
    unfold Interp.callAndPop. apply returns_bind. eapply returns_mono; [apply spec_quiet; [within_tac|exact H0]|].
    intros ? s1 H1. cbn beta. apply returns_bind. destruct H1 as [E1 Hb]. eapply returns_mono.
    - rewrite <- E1. apply callFunction_frames; [done|by rewrite E1].
    - intros ? s2 E2. cbn beta. rewrite E1 in E2. apply spec_quiet; [apply quiet_popValues|by split]. }
  unfold spec in H. destruct (callAndPop n f params s) as [s1 [a|p|]]; [|..|done].
  - intros [= <- _]. apply H.
  - unfold recoverOnCall. by intros [= <- _].
Qed.

(** C8: Every call gives back the frames it found: when it returns, the frames
    are those of the callers, unchanged; when it traps, throws or is cut off,
    the frames of the callers are still under those it added, and there are
    never more than callStackCeiling.  After a call from the embedder, whatever
    its result, no frame is left and the call engine can be used again. *)
Theorem calls_restore_frames n m f s :
  (forall p id s, frames (fst (park p id s)) = frames s) ->
  zlen (frames s) <= callStackCeiling ->
  match callFunction (nativeLoop n) m f s with
  | (s', Done _) => frames s' = frames s
  | (s', _) => frames s `suffix_of` frames s' /\ zlen (frames s') <= callStackCeiling
  end /\
  (forall ctxErr params s' r, frames s = [] -> Call n f ctxErr params s = (s', Some r) -> frames s' = []).
Proof.
  intros Hp Hb. split; [exact (callFunction_frames hostCall newChannel park Hp n m f s Hb)|].
  intros ctxErr params s' r Hs. unfold Interp.Call, call.
  destruct (negb _); [by intros [= <- _]|]. destruct (exitCode _ _), ctxErr; try (by intros [= <- _]).
  - destruct (compiledEnsureTermination _); [by intros [= <- _]|]. by apply runCall_frames.
  - by apply runCall_frames.
Qed.

End Calls.

Lemma calls_restore_frames_witness : exists f s, guestFunction factorial 0 = Some (f, s) /\
  forall s' r, Call (P := namedPointers) (N := canonicalNaNs) noHost noChannel noPark 200 f None [5] s = (s', Some r) -> frames s' = [].
Proof.
  eexists _, _. split; [vm_compute; reflexivity|]. intros s' r.
  eapply (calls_restore_frames (P := namedPointers) (N := canonicalNaNs) noHost noChannel noPark 200 1);
    [done|by vm_compute|done].
Defined.

(** ** Exceptions *)

Section Exceptions.
Context `{P : Pointers}.
Context (tags : list (option positive)) (e : positive) (exn : Exception).

(** The range of the entry has the position, and the clause takes the exception. *)
Definition covers (pc : Z) (entry : exceptionTableEntry) : bool := (startPC entry <=? pc) && (pc <? endPC entry).
Definition catches (clause : exceptionTableCatchClause) : bool :=
  if one_of (catch_kind clause) [CatchKindCatch; CatchKindCatchRef]
  then bool_decide (zlookup tags (catch_tagIndex clause) = Some (Some (ExceptionTag exn)))
  else one_of (catch_kind clause) [CatchKindCatchAll; CatchKindCatchAllRef].
(** The values the handler is given: the parameters, and the exception itself. *)
Definition payload (clause : exceptionTableCatchClause) : list Z :=
  (if one_of (catch_kind clause) [CatchKindCatch; CatchKindCatchRef] then ExceptionParams exn else [])
  ++ (if one_of (catch_kind clause) [CatchKindCatchRef; CatchKindCatchAllRef] then [exceptionPtr e] else []).

(** The tags that clauses name exist. *)
Definition clause_ok (clause : exceptionTableCatchClause) : Prop :=
  one_of (catch_kind clause) [CatchKindCatch; CatchKindCatchRef] = true -> is_Some (zlookup tags (catch_tagIndex clause)).

(** The first clause that takes the exception. *)
Definition firstClause (clauses : list exceptionTableCatchClause) (clause : exceptionTableCatchClause) : Prop :=
  exists before after, clauses = before ++ clause :: after /\ catches clause = true /\ Forall (fun c => catches c = false) before.
Definition unhandled (pc : Z) (entry : exceptionTableEntry) : Prop :=
  covers pc entry = true -> Forall (fun c => catches c = false) (entry_clauses entry).
(** The clause of the last entry, the innermost try_table, that takes it. *)
Definition innermost (pc : Z) (table : list exceptionTableEntry) (clause : exceptionTableCatchClause) : Prop :=
  exists outer entry inner, table = outer ++ entry :: inner /\ covers pc entry = true /\
    firstClause (entry_clauses entry) clause /\ Forall (unhandled pc) inner.

Lemma matchCatchClause_spec clause tag :
  (one_of (catch_kind clause) [CatchKindCatch; CatchKindCatchRef] = true -> zlookup tags (catch_tagIndex clause) = Some tag) ->
  (one_of (catch_kind clause) [CatchKindCatch; CatchKindCatchRef] = false -> tag = None) ->
  matchCatchClause (catch_kind clause) tag e exn = if catches clause then Some (payload clause) else None.
Proof.
  unfold catches, payload, matchCatchClause, one_of. cbn [existsb].
  destruct (catch_kind clause =? CatchKindCatch) eqn:E0, (catch_kind clause =? CatchKindCatchRef) eqn:E1,
    (catch_kind clause =? CatchKindCatchAll) eqn:E2, (catch_kind clause =? CatchKindCatchAllRef) eqn:E3;
    cbn [orb]; intros H1 H2; rewrite ?H1 by done; try done;
    try (exfalso; rewrite ?Z.eqb_eq in *; unfold CatchKindCatch, CatchKindCatchRef, CatchKindCatchAll, CatchKindCatchAllRef in *; lia);
    rewrite ?app_nil_r; repeat case_bool_decide; simplify_eq; done.
Qed.

Lemma searchClauses_spec clauses : Forall clause_ok clauses ->
  exists h, searchClauses tags e exn clauses = Ok h /\
    match h with
    | Some (clause, values) => firstClause clauses clause /\ values = payload clause
    | None => Forall (fun c => catches c = false) clauses
    end.
Proof.
  induction 1 as [|clause clauses Hc _ IH]; [by exists None|]. cbn [searchClauses]. destruct IH as (h & E & Hh).
  assert (Ht : exists tag, (if one_of (catch_kind clause) [CatchKindCatch; CatchKindCatchRef]
      then zindex tags (catch_tagIndex clause) else Ok None) = Ok tag /\
      matchCatchClause (catch_kind clause) tag e exn = if catches clause then Some (payload clause) else None).
  { destruct (one_of _ _) eqn:Ek.
    - destruct (Hc Ek) as [tag Et]. exists tag. split; [by unfold zindex; rewrite Et|]. apply matchCatchClause_spec; by rewrite Ek.
    - exists None. split; [done|]. apply matchCatchClause_spec; by rewrite Ek. }
  destruct Ht as (tag & -> & Em). cbn [res_bind]. rewrite Em. destruct (catches clause) eqn:Ec.
  - exists (Some (clause, payload clause)). split; [done|]. split; [|done]. by exists [], clauses.
  - exists h. split; [done|]. destruct h as [[c v]|]; [|by constructor].
    destruct Hh as [(b & a & -> & Hc1 & Hb) Hv]. split; [|done]. exists (clause :: b), a. split; [done|]. split; [done|]. by constructor.
Qed.

Lemma searchEntries_spec pc entries : Forall (fun en => Forall clause_ok (entry_clauses en)) entries ->
  exists h, searchEntries tags e exn pc entries = Ok h /\
    match h with
    | Some (clause, values) => innermost pc (rev entries) clause /\ values = payload clause
    | None => Forall (unhandled pc) (rev entries)
    end.
Proof.
  induction 1 as [|entry entries Hc _ IH]; [by exists None|]. cbn [searchEntries rev]. destruct IH as (h & E & Hh).
  assert (Hcov : (pc <? startPC entry) || (pc >=? endPC entry) = negb (covers pc entry)).
  { unfold covers. rewrite negb_andb, Z.geb_leb, Z.ltb_antisym. f_equal. by rewrite Z.ltb_antisym, negb_involutive. }
  rewrite Hcov.
  assert (Hskip : Forall (fun c => catches c = false) (entry_clauses entry) \/ covers pc entry = false ->
    match h with
    | Some (clause, values) => innermost pc (rev entries ++ [entry]) clause /\ values = payload clause
    | None => Forall (unhandled pc) (rev entries ++ [entry])
    end).
  { intros Hs. assert (Hu : unhandled pc entry) by (intros Hcv; destruct Hs; [done|congruence]).
    destruct h as [[c v]|].
    - destruct Hh as [(o & en & i & -> & H1 & H2 & H3) ->]. split; [|done]. exists o, en, (i ++ [entry]).
      rewrite <- app_assoc. cbn. split; [done|]. do 2 (split; [done|]). rewrite Forall_app. by repeat constructor.
    - rewrite Forall_app. by repeat constructor. }
  destruct (covers pc entry) eqn:Hcv; cbn [negb]; [|exists h; split; [exact E|apply Hskip; by right]].
  destruct (searchClauses_spec (entry_clauses entry) Hc) as (h1 & -> & H1). cbn [res_bind].
  destruct h1 as [[c v]|]; [|exists h; split; [exact E|apply Hskip; by left]].
  exists (Some (c, v)). split; [done|]. destruct H1 as [H1 ->]. split; [|done]. by exists (rev entries), entry, [].
Qed.

End Exceptions.

(** The call engine after the handler [clause] of the frame [fr] was entered. *)
Definition handledState (fr : callFrame) (l : list callFrame) (clause : exceptionTableCatchClause) (values : list Z) (s : machine) : machine :=
  let k := base fr - ParamNumInUint64 (funcType (frameF fr)) + catch_targetStackDepth clause in
  mkMachine (rev_append values (drop (Z.to_nat (zlen (stack s) - k)) (stack s)))
    (set_framePC (catch_targetPC clause) fr :: l) (shared s).

Section Unwinding.
Context `{P : Pointers}.

Lemma applyHandler_run fr l clause values s :
  frames s = fr :: l ->
  0 <= base fr - ParamNumInUint64 (funcType (frameF fr)) + catch_targetStackDepth clause <= zlen (stack s) ->
  applyExceptionHandler fr clause values s = (handledState fr l clause values s, Done tt).
Proof.
  intros Hf Hk. unfold applyExceptionHandler, mbind, X_bind, readX, liftX, sliceTo.
  rewrite (proj2 (andb_true_iff _ _)) by (rewrite !Z.leb_le; lia).
  unfold modifyX, setPC, updateFrame, modifyX. cbn [frames set_stack]. by rewrite Hf.
Qed.

(** C7: An exception that a callee lets out goes to the innermost handler of
    the frame that called it: to the first clause that takes it of the last
    entry of the exception table whose range has the position of the call.  The
    frames of the callee are gone, the operand stack is cut to the depth of the
    handler and holds the values of the clause, and execution goes on at its
    target; when no clause takes the exception it is thrown on, from the frame
    of the caller. *)
Theorem exception_innermost_handler callee s s1 fr l e exn inst :
  frames s = fr :: l -> exceptionTable (lowered (parent (frameF fr))) <> [] ->
  callee s = (s1, Raised (Thrown e)) -> frames s `suffix_of` frames s1 ->
  exceptions (shared s1) !! e = Some exn -> instances (heap (shared s1)) !! moduleInstance (frameF fr) = Some inst ->
  Forall (fun en => Forall (clause_ok (Tags inst)) (entry_clauses en)) (exceptionTable (lowered (parent (frameF fr)))) ->
  (exists clause, innermost (Tags inst) exn (framePC fr) (exceptionTable (lowered (parent (frameF fr)))) clause /\
    (0 <= base fr - ParamNumInUint64 (funcType (frameF fr)) + catch_targetStackDepth clause <= zlen (stack s1) ->
     callWithUnwind callee s = (handledState fr l clause (payload e exn clause) s1, Done true))) \/
  (Forall (unhandled (Tags inst) exn (framePC fr)) (exceptionTable (lowered (parent (frameF fr)))) /\
   callWithUnwind callee s = (set_frames (frames s) s1, Raised (Thrown e))).
Proof.
  intros Hf Ht Hc Hsuf He Hi Hok. set (table := exceptionTable _) in *.
  assert (Hz : (zlen table =? 0) = false) by (apply Z.eqb_neq; destruct table; [done|rewrite zlen_cons; pose proof (zlen_nonneg table); lia]).
  destruct (searchEntries_spec (Tags inst) e exn (framePC fr) (rev table)) as (h & Es & Hh); [by apply Forall_rev|].
  rewrite rev_involutive in Hh.
  assert (Hrun : callWithUnwind callee s = ((match h with
      | Some (clause, values) => _ ← applyExceptionHandler fr clause values; mret true
      | None => raise (Thrown e) end) : X bool) (set_frames (frames s) s1)).
  { unfold callWithUnwind, mbind at 1, X_bind at 1, topFrame, readX. rewrite Hf at 1. cbn [liftX].
    fold table. rewrite Hz, Hc. unfold mbind at 1, X_bind at 1. rewrite truncate_back by done.
    unfold mbind at 1, X_bind at 1, topFrame, readX. cbn [frames set_frames]. rewrite Hf. cbn [liftX].
    unfold mbind at 1, X_bind at 1, searchX. unfold mbind at 1, X_bind at 1, readX, deref. cbn [shared set_frames]. rewrite He.
    cbn [liftX]. unfold mbind at 1, X_bind at 1, instanceX, world_, readX, deref. cbn [shared set_frames]. rewrite Hi. cbn [liftX].
    unfold searchExceptionTable. fold table. rewrite Es. by destruct h as [[c v]|]. }
  destruct h as [[c v]|]; [left|right; by split].
  destruct Hh as [Hin ->]. exists c. split; [done|]. intros Hk. rewrite Hrun. unfold mbind, X_bind.
  by rewrite (applyHandler_run fr l).
Qed.

End Unwinding.

(** The first function of [catching], and the second at its call of the first. *)
Definition catchingCall : option (function * machine) :=
  thrower ← guestFunction catching 0;
  catcher ← guestFunction catching 1;
  Some (thrower.1, mkMachine [] [mkCallFrame 0 catcher.1 0] (shared catcher.2)).
Definition callThrower (f : function) : X unit :=
  callFunction noHost (nativeLoop (P := namedPointers) (N := canonicalNaNs) noHost noChannel noPark 100) (moduleInstance f) f.

Lemma exception_innermost_handler_witness : exists f s s1 fr e exn inst,
  catchingCall = Some (f, s) /\ frames s = [fr] /\
  ((exists clause, innermost (Tags inst) exn (framePC fr) (exceptionTable (lowered (parent (frameF fr)))) clause /\
    (0 <= base fr - ParamNumInUint64 (funcType (frameF fr)) + catch_targetStackDepth clause <= zlen (stack s1) ->
     callWithUnwind (P := namedPointers) (callThrower f) s = (handledState fr [] clause (payload (P := namedPointers) e exn clause) s1, Done true))) \/
   (Forall (unhandled (Tags inst) exn (framePC fr)) (exceptionTable (lowered (parent (frameF fr)))) /\
    callWithUnwind (P := namedPointers) (callThrower f) s = (set_frames (frames s) s1, Raised (Thrown e)))).
Proof.
  eexists _, _, _, _, 1%positive, _, _. split; [vm_compute; reflexivity|]. split; [reflexivity|].
  eapply (exception_innermost_handler (P := namedPointers)); [reflexivity|done|vm_compute; reflexivity|..].
  - eexists [_]. reflexivity.
  - vm_compute. reflexivity.
  - vm_compute. reflexivity.
  - repeat constructor. by eexists.
Defined.
