(* ===== verification/InterpMem.v ===== *)
(** * Memory and table instructions of the interpreter

    What a load, a store and the bulk operations do, against references on
    lists of bytes and of references: where they trap, and that they change
    nothing else.  On a memory of 4 GiB two instructions go wrong. *)

From S2P Require Import Prelude Leb128 Features Opcodes Types ValStack Validate Signature ConstExpr TypeIDs ModuleClose Execution ModuleList.
From S2P Require Import Memory Waiters Binary ModuleValidate Operations Compiler Lower GoFloat Numeric Vector Instantiate Machine Interp.
From S2P Require Import InstantiateSafe.

(** ** Running actions *)

Lemma bindX_done {A B} (c : X A) (k : A -> X B) s s' a : c s = (s', Done a) -> (c ≫= k) s = k a s'.
Proof. intros E. unfold mbind, X_bind. by rewrite E. Qed.
Lemma bindX_raise {A B} (c : X A) (k : A -> X B) s s' p : c s = (s', Raised p) -> (c ≫= k) s = (s', Raised p).
Proof. intros E. unfold mbind, X_bind. by rewrite E. Qed.

Lemma popValue_run v st s : stack s = v :: st -> popValue s = (set_stack st s, Done v).
Proof. intros E. unfold popValue. by rewrite E. Qed.
Lemma popMasked_run v st s : stack s = v :: st -> popMasked s = (set_stack st s, Done (wrap32 v)).
Proof.
  intros E. unfold popMasked. erewrite bindX_done by (by apply popValue_run). unfold mret, X_ret.
  do 2 f_equal. exact (Z.land_ones v 32 ltac:(lia)).
Qed.

(** The memory of an instance. *)
Definition hasMemory (s : machine) (mi p : positive) (mem : MemoryInstance) : Prop :=
  exists inst, instances (heap (shared s)) !! mi = Some inst /\ InstanceMemory inst = Some p /\
    memories (heap (shared s)) !! p = Some mem.
Lemma memoryX_run s mi p mem : hasMemory s mi p mem -> memoryX mi s = (s, Done (p, mem)).
Proof.
  intros (inst & Hi & Hp & Hm). unfold memoryX, memoryPtr.
  erewrite bindX_done.
  2:{ erewrite bindX_done; [|unfold instanceX, world_, readX, deref; by rewrite Hi]. by rewrite Hp. }
  erewrite bindX_done; [|unfold world_, readX, deref; by rewrite Hm]. done.
Qed.

(** The machine after memory [p] was written. *)
Definition withMemory (p : positive) (mem : MemoryInstance) (s : machine) : machine :=
  set_shared (set_heap (set_memories (insert p mem) (heap (shared s))) (shared s)) s.
(** The machine after the operation at the top frame, with this stack. *)
Definition stepped (st : list Z) (s : machine) : machine :=
  mkMachine st (match frames s with fr :: l => set_framePC (framePC fr + 1) fr :: l | [] => [] end) (shared s).

Lemma thenNext_done c s s' : c s = (s', Done tt) -> thenNext c s = (stepped (stack s') s', Done tt).
Proof.
  intros E. unfold thenNext. erewrite bindX_done by done. unfold advance, updateFrame, modifyX, stepped.
  destruct s' as [st fs sh]. cbn. by destruct fs.
Qed.
Lemma thenNext_raise c s s' p : c s = (s', Raised p) -> thenNext c s = (s', Raised p).
Proof. apply bindX_raise. Qed.

(** ** Loads and stores *)

(** The address that an operation accesses. *)
Definition effective (op : unionOperation) (v : Z) : Z := U2 op + wrap32 v.

Lemma popMemoryOffset_run op v st s :
  stack s = v :: st -> is_u32 (U2 op) ->
  popMemoryOffset op s = (set_stack st s, if effective op v <? 2 ^ 32 then Done (effective op v) else Raised (Trap OOB)).
Proof.
  intros E Hu. unfold popMemoryOffset. erewrite bindX_done by (by apply popValue_run).
  pose proof (wrap32_range v). unfold effective, is_u32 in *. cbn zeta. rewrite wrap64_small by (unfold is_u64; lia).
  rewrite Z.gtb_ltb. destruct (Z.ltb_spec (2 ^ 32 - 1) (U2 op + wrap32 v)), (Z.ltb_spec (U2 op + wrap32 v) (2 ^ 32)); try lia; try done.
  unfold mret, X_ret. by rewrite wrap32_small by (unfold is_u32; lia).
Qed.

(** The number of bytes and the extension of a load. *)
Definition loadWidth (op : unionOperation) : option nat :=
  match OpKind op with
  | operationKindLoad => if is32 (B1 op) then Some 4%nat else if is64 (B1 op) then Some 8%nat else None
  | operationKindLoad8 => if between signedInt32 (B1 op) signedUint64 then Some 1%nat else None
  | operationKindLoad16 => if between signedInt32 (B1 op) signedUint64 then Some 2%nat else None
  | operationKindLoad32 => Some 4%nat
  | _ => None
  end.
(** A number of [w] bits, read as signed, in a stack slot of an i32 or an i64. *)
Definition signExtend (w slot v : Z) : Z := (if v <? 2 ^ (w - 1) then v else v - 2 ^ w) mod 2 ^ slot.
Definition loaded (op : unionOperation) (v : Z) : Z :=
  match OpKind op with
  | operationKindLoad8 => if B1 op =? signedInt32 then signExtend 8 32 v else if B1 op =? signedInt64 then signExtend 8 64 v else v
  | operationKindLoad16 => if B1 op =? signedInt32 then signExtend 16 32 v else if B1 op =? signedInt64 then signExtend 16 64 v else v
  | operationKindLoad32 => if B1 op =? 1 then signExtend 32 64 v else v
  | _ => v
  end.
Definition storeWidth (op : unionOperation) : option nat :=
  match OpKind op with
  | operationKindStore => if is32 (B1 op) then Some 4%nat else if is64 (B1 op) then Some 8%nat else None
  | operationKindStore8 => Some 1%nat
  | operationKindStore16 => Some 2%nat
  | operationKindStore32 => Some 4%nat
  | _ => None
  end.

Lemma sgn_spec w v : 0 < w -> 0 <= v < 2 ^ w -> sgn w v = if v <? 2 ^ (w - 1) then v else v - 2 ^ w.
Proof.
  intros Hw Hv. assert (E : 2 ^ w = 2 * 2 ^ (w - 1)) by (rewrite <- Z.pow_succ_r by lia; f_equal; lia).
  unfold sgn. destruct (Z.ltb_spec v (2 ^ (w - 1))).
  - rewrite Z.mod_small by lia. lia.
  - replace (v + 2 ^ (w - 1)) with (v - 2 ^ (w - 1) + 1 * 2 ^ w) by lia. rewrite Z.mod_add by lia. rewrite Z.mod_small by lia. lia.
Qed.

(** A load of 16 bits that ends at the last byte of 65536 pages: the end of its slice wraps to 0. *)
Definition lastHalf (n : nat) (o : Z) : bool := (n =? 2)%nat && (o + 2 =? 2 ^ 32).
Definition sliceBounds : string := "slice bounds out of range".

Lemma readUint16_spec m o : is_u32 o -> zlen (Buffer m) <= 2 ^ 32 ->
  ReadUint16Le m o = if lastHalf 2 o && (2 ^ 32 <=? zlen (Buffer m)) then Panic sliceBounds else Ok (leRead m o 2).
Proof.
  intros Ho Hl. destruct (Z.leb_spec (2 ^ 32) (zlen (Buffer m))) as [Hf|Hf]; [|rewrite andb_false_r; by apply ReadUint16Le_spec].
  rewrite andb_true_r. unfold lastHalf. cbn [Nat.eqb andb]. destruct (Z.eqb_spec (o + 2) (2 ^ 32)) as [E|N].
  - replace o with (2 ^ 32 - 2) by lia. unfold ReadUint16Le. rewrite hasSize_spec by (unfold is_u32; lia).
    rewrite (proj2 (Z.leb_le _ _)) by lia. cbn [negb]. change (wrap32 (2 ^ 32 - 2 + 2)) with 0. unfold slice2.
    rewrite (proj2 (Z.leb_gt _ 0)) by lia. by rewrite andb_false_r.
  - rewrite <- readUint_spec by (done || lia). unfold ReadUint16Le. change (Z.of_nat 2) with 2.
    unfold is_u32 in *. rewrite hasSize_spec by (unfold is_u32; lia).
    destruct (Z.leb_spec (o + 2) (zlen (Buffer m))); [|done]. cbn [negb].
    rewrite wrap32_small by (unfold is_u32; lia). unfold slice2. rewrite !(proj2 (Z.leb_le _ _)) by lia.
    rewrite zslice_in by lia. cbn [res_bind andb]. unfold leUint.
    rewrite !(proj2 (Z.leb_le _ _)) by (rewrite ?zlen_take, zlen_drop; lia).
    replace (Z.to_nat (o + 2 - o)) with 2%nat by lia. by rewrite take_take.
Qed.
Lemma readN_spec n m o : is_u32 o -> zlen (Buffer m) <= 2 ^ 32 -> (n = 1 \/ n = 2 \/ n = 4 \/ n = 8)%nat ->
  bytes_ok (Buffer m) -> readN (Z.of_nat n) m o = if lastHalf n o && (2 ^ 32 <=? zlen (Buffer m)) then Panic sliceBounds else Ok (leRead m o n).
Proof.
  intros Ho Hl Hn Hb. destruct Hn as [->|[->|[->| ->]]]; unfold readN; cbn [Z.eqb Z.of_nat Pos.eqb Pos.of_succ_nat Pos.succ].
  - change (lastHalf 1 o) with false. cbn [andb]. unfold Memory.ReadByte, leRead. rewrite hasSize_spec by (done || lia). change (Z.of_nat 1) with 1.
    unfold is_u32 in *. destruct (Z.leb_spec (o + 1) (zlen (Buffer m))); [|done]. cbn [negb].
    destruct (zindex_in (Buffer m) o) as (b & -> & Hz); [lia|]. cbn [res_bind]. do 2 f_equal.
    unfold bytesAt. change (Z.to_nat 1) with 1%nat.
    unfold zlookup in Hz. rewrite (proj2 (Z.leb_le 0 o)) in Hz by lia. cbn in Hz.
    rewrite (drop_S _ _ _ Hz). cbn. rewrite take_0. cbn. lia.
  - by apply readUint16_spec.
  - apply (readUint_spec 4); [done|lia].
  - apply (readUint_spec 8); [done|lia].
Qed.

Lemma readMemory_run {A} mi p mem s (f : MemoryInstance -> res (A * bool)) v ok :
  hasMemory s mi p mem -> f mem = Ok (v, ok) ->
  readMemory mi f s = (s, if ok then Done v else Raised (Trap OOB)).
Proof.
  intros Hm Hf. unfold readMemory. erewrite bindX_done by (by apply memoryX_run). cbn beta iota.
  unfold checked. erewrite bindX_done; [|unfold liftX; by rewrite Hf]. by destruct ok.
Qed.

Lemma writeMemory_run mi p mem s (f : MemoryInstance -> res (bool * MemoryInstance)) ok mem' :
  hasMemory s mi p mem -> f mem = Ok (ok, mem') ->
  writeMemory mi f s = (withMemory p mem' s, if ok then Done tt else Raised (Trap OOB)).
Proof.
  intros Hm Hf. unfold writeMemory. erewrite bindX_done by (by apply memoryX_run). cbn beta iota.
  erewrite bindX_done; [|unfold liftX; by rewrite Hf]. cbn beta iota.
  erewrite bindX_done by reflexivity. by destruct ok.
Qed.

Lemma hasMemory_stack s mi p mem st : hasMemory s mi p mem -> hasMemory (set_stack st s) mi p mem.
Proof. done. Qed.

(** Memory that is not changed. *)
Lemma withMemory_same p mem s : memories (heap (shared s)) !! p = Some mem -> withMemory p mem s = s.
Proof.
  intros E. unfold withMemory, set_shared, set_heap, set_memories. destruct s as [st fs sh]. cbn in *.
  rewrite insert_id by done. by destruct sh as [w]; destruct w.
Qed.

Lemma bytesAt_range l o n : bytes_ok l -> 0 <= le_decode (bytesAt l o (Z.of_nat n)) < 2 ^ (8 * Z.of_nat n).
Proof.
  intros Hb. assert (Hb' : bytes_ok (bytesAt l o (Z.of_nat n))) by (apply Forall_take, Forall_drop, Hb).
  pose proof (le_decode_range _ Hb') as [H1 H2]. split; [done|]. eapply Z.lt_le_trans; [exact H2|].
  apply Z.pow_le_mono_r; [lia|]. unfold bytesAt. rewrite zlen_take. lia.
Qed.

Lemma extendLoaded_spec n b1 v : (n = 1 \/ n = 2)%nat -> 0 <= v < 2 ^ (8 * Z.of_nat n) -> between signedInt32 b1 signedUint64 = true ->
  extendLoaded (8 * Z.of_nat n) b1 v =
  Some (if b1 =? signedInt32 then signExtend (8 * Z.of_nat n) 32 v
        else if b1 =? signedInt64 then signExtend (8 * Z.of_nat n) 64 v else v).
Proof.
  intros Hn Hv Hb. unfold between in Hb. apply andb_true_iff in Hb as [H1 H2]. rewrite Z.leb_le in *.
  unfold extendLoaded, signExtend. rewrite <- sgn_spec by (destruct Hn as [-> | ->]; lia).
  destruct (b1 =? signedInt32) eqn:E1; [done|]. destruct (b1 =? signedInt64) eqn:E2; [done|].
  rewrite Z.eqb_neq in *. unfold signedInt32, signedInt64, signedUint64 in *.
  unfold one_of, signedUint32, signedUint64. cbn [existsb].
  destruct (Z.eqb_spec b1 2), (Z.eqb_spec b1 3); cbn; try done. lia.
Qed.

Section Memory.
Context `{P : Pointers} `{N : NaNs}.
Context (newChannel : waitState -> Z) (park : positive -> Z -> X Z) (callee : function -> X unit) (m mi : positive).
Abbreviation execute := (execute newChannel park callee m mi).

(** The outcome of a load of [n] bytes at [ea] that leaves the machine [s'] when it succeeds. *)
Definition loadOutcome (n : nat) (ea : Z) (mem : MemoryInstance) (st : list Z) (s s' : machine) : machine * outcome unit :=
  if negb (ea + Z.of_nat n <=? zlen (Buffer mem)) then (set_stack st s, Raised (Trap OOB))
  else if lastHalf n ea then (set_stack st s, Raised (GoPanic sliceBounds))
  else (s', Done tt).

(** What the loads share: an offset, a read of [n] bytes, and a value to push. *)
Lemma load_run n op v st s p mem (f : MemoryInstance -> Z -> res (Z * bool)) (k : Z -> X unit) r :
  (n = 1 \/ n = 2 \/ n = 4 \/ n = 8)%nat -> is_u32 (U2 op) -> stack s = v :: st -> hasMemory s mi p mem ->
  bytes_ok (Buffer mem) -> zlen (Buffer mem) <= 2 ^ 32 -> (forall o, f mem o = readN (Z.of_nat n) mem o) ->
  (effective op v + Z.of_nat n <= zlen (Buffer mem) ->
   k (le_decode (bytesAt (Buffer mem) (effective op v) (Z.of_nat n))) (set_stack st s) = (set_stack (r :: st) s, Done tt)) ->
  (offset ← popMemoryOffset op; x ← readMemory mi (fun m => f m offset); k x) s =
  loadOutcome n (effective op v) mem st s (set_stack (r :: st) s).
Proof.
  intros Hn Hu Hst Hm Hb Hl Hf Hk. pose proof (wrap32_range v) as Hv. unfold loadOutcome, is_u32 in *.
  destruct (Z.ltb_spec (effective op v) (2 ^ 32)) as [He|He].
  - erewrite bindX_done; [|rewrite (popMemoryOffset_run _ _ _ _ Hst Hu), (proj2 (Z.ltb_lt _ _) He); reflexivity].
    pose proof (readN_spec n mem (effective op v) ltac:(unfold effective, is_u32 in *; lia) Hl Hn Hb) as Hr. rewrite <- Hf in Hr.
    destruct (lastHalf n (effective op v) && (2 ^ 32 <=? zlen (Buffer mem))) eqn:Ef.
    + apply andb_true_iff in Ef as [Ef Hfull%Z.leb_le]. rewrite Ef. unfold lastHalf in Ef. apply andb_true_iff in Ef as [->%Nat.eqb_eq E%Z.eqb_eq].
      rewrite (proj2 (Z.leb_le _ _)) by lia. cbn [negb]. apply bindX_raise. unfold readMemory. erewrite bindX_done by (by apply memoryX_run). cbn beta iota.
      unfold checked. erewrite bindX_raise; [done|]. unfold liftX. by rewrite Hr.
    + pose proof (readMemory_run mi p mem (set_stack st s) (fun m => f m (effective op v)) (fst (leRead mem (effective op v) n))
        (snd (leRead mem (effective op v) n)) Hm ltac:(cbn beta; rewrite Hr; by destruct (leRead _ _ _))) as Er.
      unfold leRead in Er. destruct (Z.leb_spec (effective op v + Z.of_nat n) (zlen (Buffer mem))) as [Hle|Hle]; cbn [negb].
      * assert (lastHalf n (effective op v) = false) as ->.
        { unfold lastHalf in *. destruct (Nat.eqb_spec n 2) as [->|]; [|done]. cbn [andb] in *. destruct (Z.eqb_spec (effective op v + 2) (2 ^ 32)) as [E|]; [|done].
          cbn [andb] in Ef. apply Z.leb_gt in Ef. lia. }
        erewrite bindX_done by exact Er. by apply Hk.
      * by erewrite bindX_raise by exact Er.
  - erewrite bindX_raise; [|rewrite (popMemoryOffset_run _ _ _ _ Hst Hu), (proj2 (Z.ltb_ge _ _) He); reflexivity].
    rewrite (proj2 (Z.leb_gt _ _)) by lia. done.
Qed.

Lemma load_ok op n v st s p mem :
  loadWidth op = Some n -> is_u32 (U2 op) -> stack s = v :: st -> hasMemory s mi p mem ->
  bytes_ok (Buffer mem) -> zlen (Buffer mem) <= 2 ^ 32 ->
  execute op s = loadOutcome n (effective op v) mem st s
    (stepped (loaded op (le_decode (bytesAt (Buffer mem) (effective op v) (Z.of_nat n))) :: st) s).
Proof.
  intros Hw Hu Hst Hm Hb Hl.
  enough (H : exists c, execute op s = thenNext c s /\
    c s = loadOutcome n (effective op v) mem st s (set_stack (loaded op (le_decode (bytesAt (Buffer mem) (effective op v) (Z.of_nat n))) :: st) s)).
  { destruct H as (c & -> & Hc). unfold loadOutcome in *. destruct (negb _); [by erewrite thenNext_raise by exact Hc|].
    destruct (lastHalf _ _); [by erewrite thenNext_raise by exact Hc|by erewrite thenNext_done by exact Hc]. }
  unfold loadWidth, loaded in *. unfold Interp.execute.
  destruct (OpKind op) eqn:Ek; try discriminate; eexists; (split; [reflexivity|]).
  - unfold execLoad. destruct (is32 (B1 op)) eqn:E32; [injection Hw as <-|destruct (is64 (B1 op)); [injection Hw as <-|done]];
      eapply load_run; eauto.
  - unfold execLoad8. destruct (between _ _ _) eqn:Eb; [|done]. injection Hw as <-. eapply load_run; eauto.
    intros _. unfold pushOption. change 8 with (8 * Z.of_nat 1) at 1.
    rewrite (extendLoaded_spec 1); auto using bytesAt_range.
  - unfold execLoad16. destruct (between _ _ _) eqn:Eb; [|done]. injection Hw as <-. eapply load_run; eauto.
    intros _. unfold pushOption. change 16 with (8 * Z.of_nat 2) at 1.
    rewrite (extendLoaded_spec 2); auto using bytesAt_range.
  - unfold execLoad32. injection Hw as <-. eapply load_run; eauto. intros _.
    destruct (B1 op =? 1); [|done]. unfold signExtend. rewrite <- sgn_spec; [done|lia|].
    exact (bytesAt_range (Buffer mem) (effective op v) 4 Hb).
Qed.

Lemma writeN_spec n mem o v : is_u32 o -> (n = 1 \/ n = 2 \/ n = 4 \/ n = 8)%nat -> 0 <= v < 2 ^ (8 * Z.of_nat n) ->
  zlen (Buffer mem) <= 2 ^ 32 ->
  writeN (Z.of_nat n) mem o v = if o + Z.of_nat n <=? zlen (Buffer mem)
    then Ok (true, set_Buffer (stored (Buffer mem) o (le_encode n v)) mem) else Ok (false, mem).
Proof.
  intros Ho Hn Hv Hl.
  assert (Hz : zlen (le_encode n v) = Z.of_nat n) by (unfold zlen; by rewrite length_le_encode).
  rewrite <- Hz at 2. rewrite <- Write_spec by (destruct Hn as [->|[->|[->| ->]]]; rewrite ?Hz; try done; lia).
  destruct Hn as [->|[->|[->| ->]]]; unfold writeN; cbn [Z.eqb Z.of_nat Pos.eqb Pos.of_succ_nat Pos.succ];
    [|by rewrite <- (putUint_Write _ _ _ _ Ho) by lia..].
  unfold WriteByte, Write, writeWith. rewrite Hz. change (Z.of_nat 1) with 1. rewrite hasSize_spec by (done || lia).
  unfold is_u32 in *. destruct (Z.leb_spec (o + 1) (zlen (Buffer mem))); [|done]. cbn [negb].
  rewrite (proj2 (Z.ltb_lt _ _)) by lia. rewrite copyAt_in by (rewrite ?Hz; lia). do 3 f_equal. cbn.
  rewrite Z.mod_small by lia. rewrite insert_take_drop by (unfold zlen in *; lia).
  do 3 f_equal. unfold zlen. cbn. lia.
Qed.

(** What the stores share. *)
Lemma store_run n op val v st s p mem (f : Z -> MemoryInstance -> Z -> res (bool * MemoryInstance)) :
  (n = 1 \/ n = 2 \/ n = 4 \/ n = 8)%nat -> is_u32 (U2 op) -> stack s = val :: v :: st -> hasMemory s mi p mem ->
  zlen (Buffer mem) <= 2 ^ 32 -> (forall o, f val mem o = writeN (Z.of_nat n) mem o (val mod 2 ^ (8 * Z.of_nat n))) ->
  (x ← popValue; offset ← popMemoryOffset op; writeMemory mi (fun m => f x m offset)) s =
  if effective op v + Z.of_nat n <=? zlen (Buffer mem)
  then (withMemory p (set_Buffer (stored (Buffer mem) (effective op v) (le_encode n (val mod 2 ^ (8 * Z.of_nat n)))) mem) (set_stack st s), Done tt)
  else (set_stack st s, Raised (Trap OOB)).
Proof.
  intros Hn Hu Hst Hm Hl Hf. pose proof (wrap32_range v) as Hv. unfold is_u32 in *.
  erewrite bindX_done by (by apply popValue_run).
  assert (Hp : 0 < 2 ^ (8 * Z.of_nat n)) by (apply Z.pow_pos_nonneg; lia).
  pose proof (Z.mod_pos_bound val _ Hp) as Hr.
  destruct (Z.ltb_spec (effective op v) (2 ^ 32)) as [He|He].
  - erewrite bindX_done; [|rewrite (popMemoryOffset_run _ v st) by done; rewrite (proj2 (Z.ltb_lt _ _) He); reflexivity].
    assert (Hw : f val mem (effective op v) = if effective op v + Z.of_nat n <=? zlen (Buffer mem)
      then Ok (true, set_Buffer (stored (Buffer mem) (effective op v) (le_encode n (val mod 2 ^ (8 * Z.of_nat n)))) mem) else Ok (false, mem)).
    { rewrite Hf. apply writeN_spec; try done. unfold effective, is_u32 in *. lia. }
    destruct (effective op v + Z.of_nat n <=? zlen (Buffer mem)).
    + by rewrite (writeMemory_run mi p mem (set_stack st (set_stack (v :: st) s)) (fun m => f val m (effective op v)) _ _ Hm Hw).
    + rewrite (writeMemory_run mi p mem (set_stack st (set_stack (v :: st) s)) (fun m => f val m (effective op v)) _ _ Hm Hw). destruct Hm as (inst & _ & _ & Hm). by rewrite withMemory_same.
  - erewrite bindX_raise; [|rewrite (popMemoryOffset_run _ v st) by done; rewrite (proj2 (Z.ltb_ge _ _) He); reflexivity].
    rewrite (proj2 (Z.leb_gt _ _)) by lia. done.
Qed.

Lemma store_ok op n val v st s p mem :
  storeWidth op = Some n -> is_u32 (U2 op) -> is_u64 val -> stack s = val :: v :: st -> hasMemory s mi p mem ->
  zlen (Buffer mem) <= 2 ^ 32 ->
  execute op s =
    if effective op v + Z.of_nat n <=? zlen (Buffer mem)
    then (stepped st (withMemory p (set_Buffer (stored (Buffer mem) (effective op v) (le_encode n (val mod 2 ^ (8 * Z.of_nat n)))) mem) s), Done tt)
    else (set_stack st s, Raised (Trap OOB)).
Proof.
  intros Hw Hu H64 Hst Hm Hl.
  enough (H : exists c, execute op s = thenNext c s /\
    c s = if effective op v + Z.of_nat n <=? zlen (Buffer mem)
          then (withMemory p (set_Buffer (stored (Buffer mem) (effective op v) (le_encode n (val mod 2 ^ (8 * Z.of_nat n)))) mem) (set_stack st s), Done tt)
          else (set_stack st s, Raised (Trap OOB))).
  { destruct H as (c & -> & Hc). destruct (_ <=? _).
    - by erewrite thenNext_done by exact Hc.
    - by erewrite thenNext_raise by exact Hc. }
  unfold storeWidth in *. unfold Interp.execute.
  destruct (OpKind op) eqn:Ek; try discriminate; eexists; (split; [reflexivity|]).
  - unfold execStore. destruct (is32 (B1 op)) eqn:E32; [injection Hw as <-|destruct (is64 (B1 op)); [injection Hw as <-|done]];
      eapply store_run; eauto.
    intros o. unfold writeN. cbn [Z.eqb Z.of_nat Pos.eqb Pos.of_succ_nat Pos.succ]. by rewrite Z.mod_small.
  - injection Hw as <-. eapply store_run; eauto.
  - injection Hw as <-. eapply store_run; eauto.
  - injection Hw as <-. eapply store_run; eauto.
Qed.

(** C18: A load or a store of any width accesses the address that is the sum of
    its offset and the low 32 bits of its operand, in a memory of any size up to
    65536 pages.  When not all the bytes are inside the memory it traps, and
    memory is as before.  Otherwise a load pushes the little-endian number they
    make, sign extended where the operation says so, and a store replaces them by
    those of the operand, which a load of the same width then reads back.  Nothing
    else changes.  The one exception is a load of 16 bits at 2^32-2, the end of a
    memory of 65536 pages: it is inside, but the reader panics. *)
Theorem load_store_spec op n v st s p mem :
  is_u32 (U2 op) -> hasMemory s mi p mem -> bytes_ok (Buffer mem) -> zlen (Buffer mem) <= 2 ^ 32 ->
  let ea := effective op v in
  let inside := ea + Z.of_nat n <=? zlen (Buffer mem) in
  (loadWidth op = Some n -> stack s = v :: st ->
   execute op s = if inside then
                    if (n =? 2)%nat && (ea + 2 =? 2 ^ 32) then (set_stack st s, Raised (GoPanic sliceBounds))
                    else (stepped (loaded op (le_decode (bytesAt (Buffer mem) ea (Z.of_nat n))) :: st) s, Done tt)
                  else (set_stack st s, Raised (Trap OOB))) /\
  (forall val, is_u64 val -> storeWidth op = Some n -> stack s = val :: v :: st ->
   let buffer := stored (Buffer mem) ea (le_encode n (val mod 2 ^ (8 * Z.of_nat n))) in
   execute op s = (if inside then (stepped st (withMemory p (set_Buffer buffer mem) s), Done tt)
                   else (set_stack st s, Raised (Trap OOB))) /\
   (inside = true -> le_decode (bytesAt buffer ea (Z.of_nat n)) = val mod 2 ^ (8 * Z.of_nat n))).
Proof.
  intros Hu Hm Hb Hl ea inside. split; [intros Hw Hst; erewrite load_ok by done; unfold loadOutcome; by destruct (_ <=? _)|].
  intros val Hv Hw Hst buffer. split; [eapply store_ok; eauto; lia|]. intros Hi.
  unfold inside in Hi. apply Z.leb_le in Hi. pose proof (wrap32_range v). unfold is_u32 in Hu.
  assert (Hz : forall w, zlen (le_encode n w) = Z.of_nat n) by (intros w; unfold zlen; by rewrite length_le_encode).
  pose proof (stored_same (Buffer mem) ea (le_encode n (val mod 2 ^ (8 * Z.of_nat n)))) as Hs. rewrite Hz in Hs.
  unfold buffer. rewrite Hs; [|unfold ea, effective, is_u32 in *; lia|lia].
  apply le_decode_encode, Z.mod_pos_bound, Z.pow_pos_nonneg; lia.
Qed.

(** ** Bulk operations *)

Lemma set_Buffer_same mem : set_Buffer (Buffer mem) mem = mem.
Proof. by destruct mem. Qed.

(** The copy trick fills the buffer with the byte. *)
Lemma memoryFillLoop_spec fuel i buf v :
  1 <= i -> (Z.of_nat (length buf) - i <= Z.of_nat fuel) -> take (Z.to_nat i) buf = replicate (Nat.min (Z.to_nat i) (length buf)) v ->
  memoryFillLoop fuel i buf = Ok (replicate (length buf) v).
Proof.
  revert i buf. induction fuel as [|fuel IH]; intros i buf Hi Hf Ht; cbn [memoryFillLoop];
    (destruct (Z.geb_spec i (zlen buf)) as [Hge|Hlt];
     [unfold zlen in Hge; rewrite Nat.min_r, take_ge in Ht by lia; by rewrite Ht at 1; rewrite ?length_replicate|]).
  - unfold zlen in Hlt. lia.
  - unfold zlen in Hlt. set (chunk := Z.min i 8192).
    rewrite zslice_in by (unfold zlen; lia). cbn [res_bind]. unfold copyAt. rewrite zslice_in by (unfold zlen; lia). cbn [res_bind].
    set (n := Nat.min _ _). assert (Hn : (n = Nat.min (Z.to_nat chunk) (length buf - Z.to_nat i))%nat).
    { unfold n. rewrite length_take, length_drop. unfold chunk. lia. }
    set (buf' := take (Z.to_nat i) buf ++ _).
    assert (Hl : length buf' = length buf).
    { unfold buf'. rewrite !length_app, !length_take, !length_drop. unfold chunk in *. lia. }
    rewrite Nat.min_l in Ht by lia.
    assert (Hc : take n (take (Z.to_nat chunk) buf) = replicate n v).
    { rewrite take_take. replace (take (n `min` Z.to_nat chunk) buf) with (take n (take (Z.to_nat i) buf)).
      - rewrite Ht, take_replicate. f_equal. unfold chunk in *. lia.
      - rewrite take_take. f_equal. unfold chunk in *. lia. }
    rewrite <- Hl. replace (i + Z.min chunk (zlen (drop (Z.to_nat i) buf))) with (i + Z.of_nat n)
      by (rewrite zlen_drop; unfold zlen; rewrite Hn; unfold chunk; lia).
    apply IH; [lia|rewrite Hl; unfold chunk in *; lia|].
    rewrite Hl, Nat.min_l by lia. unfold buf'. rewrite Ht, Hc. rewrite app_assoc, <- replicate_add.
    rewrite take_app_length'; [f_equal; lia|rewrite length_replicate; lia].
Qed.

Lemma fillBuffer_spec buf v : buf <> [] -> 0 <= v < 256 -> fillBuffer buf v = Ok (replicate (length buf) v).
Proof.
  intros Hb Hv. unfold fillBuffer. destruct (Z.eqb_spec v 0) as [->|Hv0].
  - unfold zeros, zlen. by rewrite Nat2Z.id.
  - destruct buf as [|b buf]; [done|]. unfold zset. rewrite zlen_cons. pose proof (zlen_nonneg buf).
    rewrite (proj2 (Z.ltb_lt _ _)) by lia. cbn [Z.leb andb res_bind Z.to_nat Z.compare insert list_insert].
    rewrite (memoryFillLoop_spec _ _ _ v); [done|lia|cbn [length]; lia|done].
Qed.

Lemma fillReferences_spec region ref : region <> [] -> fillReferences region ref = Ok (replicate (length region) ref).
Proof.
  intros Hb. destruct region as [|b region]; [done|]. unfold fillReferences, zset. rewrite zlen_cons. pose proof (zlen_nonneg region).
  rewrite (proj2 (Z.ltb_lt _ _)) by lia. cbn [Z.leb andb res_bind Z.to_nat Z.compare insert list_insert].
  rewrite (fillLoop_replicate ref); [done|lia|cbn [length]; lia|by repeat constructor].
Qed.

Lemma bytesAt_len l o n : 0 <= o -> 0 <= n -> o + n <= zlen l -> zlen (bytesAt l o n) = n.
Proof. intros. unfold bytesAt. rewrite zlen_take, zlen_drop. lia. Qed.

Lemma slice2_in l o n : 0 <= o -> 0 <= n -> o + n <= zlen l -> slice2 l o (o + n) = Ok (bytesAt l o n).
Proof.
  intros. unfold slice2. rewrite !(proj2 (Z.leb_le _ _)) by lia. cbn. unfold bytesAt. by replace (o + n - o) with n by lia.
Qed.

Lemma copyAt_stored l o val : 0 <= o -> o + zlen val <= zlen l -> copyAt l o val = Ok (stored l o val).
Proof. intros. by rewrite copyAt_in. Qed.

Lemma inRegion_spec b o n f r : 0 <= o -> 0 <= n -> o + n <= zlen b -> f (bytesAt b o n) = Ok r -> zlen r = n ->
  inRegion b o n f = Ok (stored b o r).
Proof. intros Ho Hn Hl Hf Hr. unfold inRegion. rewrite slice2_in by done. cbn [res_bind]. rewrite Hf. cbn [res_bind]. apply copyAt_stored; lia. Qed.

(** The slice [n] elements long that a copy into a region of [n] elements takes. *)
Lemma take_slice d o n k : 0 <= o -> k = Z.to_nat n -> take k (drop (Z.to_nat o) d) = bytesAt d o n.
Proof. by intros _ ->. Qed.

(** Three operands of 32 bits. *)
Lemma popThree_run {A} (k : Z -> Z -> Z -> X A) a b c st s : stack s = a :: b :: c :: st ->
  (x ← popMasked; y ← popMasked; z ← popMasked; k x y z) s = k (wrap32 a) (wrap32 b) (wrap32 c) (set_stack st s).
Proof.
  intros E. erewrite bindX_done by (by apply popMasked_run). cbn beta. erewrite bindX_done by (by apply popMasked_run). cbn beta.
  by erewrite bindX_done by (by apply popMasked_run).
Qed.

(** What a bulk operation on memory comes to: [val] is written at [o]. *)
Definition bulkMemory (p : positive) (mem : MemoryInstance) (o : Z) (val : list Z) (s : machine) : machine :=
  withMemory p (set_Buffer (stored (Buffer mem) o val) mem) s.

Lemma bulkMemory_nil p mem o s : memories (heap (shared s)) !! p = Some mem -> 0 <= o <= zlen (Buffer mem) -> bulkMemory p mem o [] s = s.
Proof. intros Hm Ho. unfold bulkMemory. rewrite stored_nil, set_Buffer_same by done. by apply withMemory_same. Qed.

Lemma memoryFill_run size val o st s p mem :
  stack s = size :: val :: o :: st -> hasMemory s mi p mem ->
  execMemoryFill mi s = if wrap32 o + wrap32 size <=? zlen (Buffer mem)
    then (bulkMemory p mem (wrap32 o) (replicate (Z.to_nat (wrap32 size)) (wrap8 val)) (set_stack st s), Done tt)
    else (set_stack st s, Raised (Trap OOB)).
Proof.
  intros Hst Hm. unfold execMemoryFill. erewrite bindX_done by (by apply popMasked_run). cbn beta.
  erewrite bindX_done by (by apply popValue_run). cbn beta. erewrite bindX_done by (by apply popMasked_run). cbn beta zeta.
  erewrite bindX_done by (by apply (memoryX_run (set_stack st s))). cbn beta iota.
  pose proof (wrap32_range size). pose proof (wrap32_range o). unfold is_u32 in *.
  rewrite Z.gtb_ltb. destruct (Z.leb_spec (wrap32 o + wrap32 size) (zlen (Buffer mem))) as [Hle|Hle].
  - rewrite (proj2 (Z.ltb_ge _ _)) by lia. destruct (Z.eqb_spec (wrap32 size) 0) as [E|E]; cbn [negb].
    + rewrite E. cbn [Z.to_nat replicate]. destruct Hm as (inst & _ & _ & Hm). by rewrite bulkMemory_nil by (done || lia).
    + erewrite bindX_done; [reflexivity|]. unfold liftX. erewrite inRegion_spec; [reflexivity|lia..| |].
      * rewrite fillBuffer_spec; [|intros Hn; apply (f_equal zlen) in Hn; rewrite bytesAt_len in Hn by lia; by cbn in Hn|apply Z.mod_pos_bound; lia].
        do 2 f_equal. pose proof (bytesAt_len (Buffer mem) (wrap32 o) (wrap32 size)). unfold zlen in *. lia.
      * unfold zlen. rewrite length_replicate. lia.
  - rewrite (proj2 (Z.ltb_lt _ _)) by lia. done.
Qed.

(** The bounds of a copy of [n] elements, and the copy of none. *)
Ltac bulk_bounds n src dst H lem :=
  pose proof (wrap32_range n); pose proof (wrap32_range src); pose proof (wrap32_range dst); unfold is_u32 in *;
  rewrite !Z.gtb_ltb, !Z.ltb_antisym, <- negb_andb;
  (lazymatch goal with |- context [wrap32 src + wrap32 n <=? ?k] => destruct (Z.leb_spec (wrap32 src + wrap32 n) k) end; cbn [andb negb]; [|done]);
  (lazymatch goal with |- context [wrap32 dst + wrap32 n <=? ?k] => destruct (Z.leb_spec (wrap32 dst + wrap32 n) k) end; cbn [andb negb]; [|done]);
  let E := fresh "E" in
  destruct (Z.eqb_spec (wrap32 n) 0) as [E|E]; cbn [negb];
  [rewrite E; unfold bytesAt; cbn [Z.to_nat]; rewrite take_0; destruct H as (? & _ & _ & H); by rewrite lem by (done || lia)|].

Lemma memoryCopy_run n src dst st s p mem :
  stack s = n :: src :: dst :: st -> hasMemory s mi p mem ->
  execMemoryCopy mi s = if (wrap32 src + wrap32 n <=? zlen (Buffer mem)) && (wrap32 dst + wrap32 n <=? zlen (Buffer mem))
    then (bulkMemory p mem (wrap32 dst) (bytesAt (Buffer mem) (wrap32 src) (wrap32 n)) (set_stack st s), Done tt)
    else (set_stack st s, Raised (Trap OOB)).
Proof.
  intros Hst Hm. unfold execMemoryCopy. erewrite bindX_done by (by apply memoryX_run). cbn beta iota zeta.
  erewrite popThree_run by done. cbn beta.
  bulk_bounds n src dst Hm bulkMemory_nil.
  erewrite bindX_done; [|unfold liftX; by rewrite slice2_in by lia].
  erewrite bindX_done; [|unfold liftX; rewrite copyAt_stored; [reflexivity|lia|rewrite bytesAt_len; lia]]. done.
Qed.

Lemma instanceX_run s inst : instances (heap (shared s)) !! mi = Some inst -> instanceX mi s = (s, Done inst).
Proof. intros E. unfold instanceX, world_, readX, deref. by rewrite E. Qed.

Lemma memoryInit_run op n src dst st s p mem inst d :
  stack s = n :: src :: dst :: st -> hasMemory s mi p mem ->
  instances (heap (shared s)) !! mi = Some inst -> zlookup (DataInstances inst) (U1 op) = Some d ->
  execMemoryInit mi op s = if (wrap32 src + wrap32 n <=? zlen d) && (wrap32 dst + wrap32 n <=? zlen (Buffer mem))
    then (bulkMemory p mem (wrap32 dst) (bytesAt d (wrap32 src) (wrap32 n)) (set_stack st s), Done tt)
    else (set_stack st s, Raised (Trap OOB)).
Proof.
  intros Hst Hm Hi Hd. unfold execMemoryInit. erewrite bindX_done by (by apply instanceX_run). cbn beta.
  erewrite bindX_done; [|unfold liftX, zindex; by rewrite Hd]. erewrite popThree_run by done. cbn beta.
  erewrite bindX_done by (by apply (memoryX_run (set_stack st s))). cbn beta iota.
  bulk_bounds n src dst Hm bulkMemory_nil.
  erewrite bindX_done; [|unfold liftX; by rewrite zslice_in by lia].
  erewrite bindX_done; [|unfold liftX; by rewrite slice2_in by lia].
  rewrite (take_slice d (wrap32 src) (wrap32 n)); [|lia|].
  2:{ pose proof (bytesAt_len (Buffer mem) (wrap32 dst) (wrap32 n)). unfold zlen in *. lia. }
  erewrite bindX_done; [|unfold liftX; rewrite copyAt_stored; [reflexivity|lia|rewrite bytesAt_len; lia]]. done.
Qed.

(** *** Tables *)

Definition hasTable (s : machine) (i : Z) (p : positive) (t : TableInstance) : Prop :=
  exists inst, instances (heap (shared s)) !! mi = Some inst /\ zlookup (Tables inst) i = Some (Some p) /\
    tables (heap (shared s)) !! p = Some t.
Lemma tableX_run s i p t : hasTable s i p t -> tableX mi i s = (s, Done (p, t)).
Proof.
  intros (inst & Hi & Hp & Ht). unfold tableX. erewrite bindX_done by (by apply instanceX_run). cbn beta.
  erewrite bindX_done; [|unfold liftX, zindex; by rewrite Hp].
  erewrite bindX_done; [|unfold world_, readX, deref; by rewrite Ht]. done.
Qed.

(** [refs] are written at [o] of the table [p]. *)
Definition bulkTable (p : positive) (t : TableInstance) (o : Z) (refs : list Z) (s : machine) : machine :=
  set_shared (set_heap (set_tables (insert p (set_References (stored (References t) o refs) t)) (heap (shared s))) (shared s)) s.

Lemma bulkTable_nil p t o s : tables (heap (shared s)) !! p = Some t -> 0 <= o <= zlen (References t) -> bulkTable p t o [] s = s.
Proof.
  intros Ht Ho. unfold bulkTable. rewrite stored_nil by done. assert (set_References (References t) t = t) as -> by (by destruct t).
  unfold set_shared, set_heap, set_tables. destruct s as [st fs sh]. cbn in *. rewrite insert_id by done.
  by destruct sh as [w]; destruct w.
Qed.

Abbreviation TA := ErrRuntimeInvalidTableAccess.

Lemma tableFill_run op n ref o st s p t :
  stack s = n :: ref :: o :: st -> hasTable s (U1 op) p t ->
  execTableFill mi op s = if wrap32 o + wrap32 n <=? zlen (References t)
    then (bulkTable p t (wrap32 o) (replicate (Z.to_nat (wrap32 n)) ref) (set_stack st s), Done tt)
    else (set_stack st s, Raised (Trap TA)).
Proof.
  intros Hst Ht. unfold execTableFill. erewrite bindX_done by (by apply tableX_run). cbn beta iota.
  erewrite bindX_done by (by apply popMasked_run). cbn beta.
  erewrite bindX_done by (by apply popValue_run). cbn beta. erewrite bindX_done by (by apply popMasked_run). cbn beta.
  pose proof (wrap32_range n). pose proof (wrap32_range o). unfold is_u32 in *.
  rewrite Z.gtb_ltb. destruct (Z.leb_spec (wrap32 o + wrap32 n) (zlen (References t))) as [Hle|Hle].
  - rewrite (proj2 (Z.ltb_ge _ _)) by lia. rewrite Z.gtb_ltb. destruct (Z.ltb_spec 0 (wrap32 n)) as [E|E].
    + erewrite bindX_done; [reflexivity|]. unfold liftX. erewrite inRegion_spec; [reflexivity|lia..| |].
      * rewrite fillReferences_spec; [|intros Hn; apply (f_equal zlen) in Hn; rewrite bytesAt_len in Hn by lia; change (zlen (@nil Z)) with 0 in Hn; lia].
        do 2 f_equal. pose proof (bytesAt_len (References t) (wrap32 o) (wrap32 n)). unfold zlen in *. lia.
      * unfold zlen. rewrite length_replicate. lia.
    + replace (wrap32 n) with 0 by lia. cbn [Z.to_nat replicate]. destruct Ht as (inst & _ & _ & Ht).
      by rewrite bulkTable_nil by (done || lia).
  - rewrite (proj2 (Z.ltb_lt _ _)) by lia. done.
Qed.

Lemma tableCopy_run op n src dst st s ps ts pd td :
  stack s = n :: src :: dst :: st -> hasTable s (U1 op) ps ts -> hasTable s (U2 op) pd td ->
  execTableCopy mi op s = if (wrap32 src + wrap32 n <=? zlen (References ts)) && (wrap32 dst + wrap32 n <=? zlen (References td))
    then (bulkTable pd td (wrap32 dst) (bytesAt (References ts) (wrap32 src) (wrap32 n)) (set_stack st s), Done tt)
    else (set_stack st s, Raised (Trap TA)).
Proof.
  intros Hst Hs Hd. unfold execTableCopy. erewrite bindX_done by (by apply tableX_run). cbn beta iota.
  erewrite bindX_done by (by apply tableX_run). cbn beta iota. erewrite popThree_run by done. cbn beta.
  bulk_bounds n src dst Hd bulkTable_nil.
  erewrite bindX_done; [|unfold liftX; by rewrite slice2_in by lia].
  erewrite bindX_done; [|unfold liftX; rewrite copyAt_stored; [reflexivity|lia|rewrite bytesAt_len; lia]]. done.
Qed.

Lemma tableInit_run op n src dst st s p t inst es :
  stack s = n :: src :: dst :: st -> hasTable s (U2 op) p t ->
  instances (heap (shared s)) !! mi = Some inst -> zlookup (ElementInstances inst) (U1 op) = Some es ->
  execTableInit mi op s = if (wrap32 src + wrap32 n <=? zlen es) && (wrap32 dst + wrap32 n <=? zlen (References t))
    then (bulkTable p t (wrap32 dst) (bytesAt es (wrap32 src) (wrap32 n)) (set_stack st s), Done tt)
    else (set_stack st s, Raised (Trap TA)).
Proof.
  intros Hst Ht Hi Hd. unfold execTableInit. erewrite bindX_done by (by apply instanceX_run). cbn beta.
  erewrite bindX_done; [|unfold liftX, zindex; by rewrite Hd]. erewrite popThree_run by done. cbn beta.
  erewrite bindX_done by (by apply (tableX_run (set_stack st s))). cbn beta iota.
  bulk_bounds n src dst Ht bulkTable_nil.
  erewrite bindX_done; [|unfold liftX; by rewrite zslice_in by lia].
  erewrite bindX_done; [|unfold liftX; by rewrite slice2_in by lia].
  rewrite (take_slice es (wrap32 src) (wrap32 n)); [|lia|].
  2:{ pose proof (bytesAt_len (References t) (wrap32 dst) (wrap32 n)). unfold zlen in *. lia. }
  erewrite bindX_done; [|unfold liftX; rewrite copyAt_stored; [reflexivity|lia|rewrite bytesAt_len; lia]]. done.
Qed.

(** The end of an operation that pops its operands, leaving [st]: [f] is applied,
    or it traps and nothing else changes. *)
Definition bulkResult (inside : bool) (msg : string) (f : machine -> machine) (st : list Z) (s : machine) : machine * outcome unit :=
  if inside then (stepped st (f s), Done tt) else (set_stack st s, Raised (Trap msg)).

Lemma thenNext_bulk c (inside : bool) msg f st s :
  c s = (if inside then (f (set_stack st s), Done tt) else (set_stack st s, Raised (Trap msg))) ->
  stepped (stack (f (set_stack st s))) (f (set_stack st s)) = stepped st (f s) ->
  thenNext c s = bulkResult inside msg f st s.
Proof.
  intros Hc Hs. unfold bulkResult. destruct inside; [by erewrite thenNext_done by exact Hc; rewrite Hs|].
  by erewrite thenNext_raise by exact Hc.
Qed.

(** C19: memory.fill, memory.copy, memory.init and their table counterparts
    against reference operations on lists, although the code fills by copying
    what is already filled: when source and destination are in bounds the
    region gets exactly the repeated value, or the elements that the source had
    before the operation, also when the two overlap; otherwise the operation
    traps and nothing is written.  Nothing else changes. *)
Theorem bulk_operations_spec op a b c st s :
  stack s = a :: b :: c :: st ->
  let n := wrap32 a in let x := wrap32 b in let y := wrap32 c in
  (forall p mem, hasMemory s mi p mem ->
    (OpKind op = operationKindMemoryFill ->
     execute op s = bulkResult (y + n <=? zlen (Buffer mem)) OOB (bulkMemory p mem y (replicate (Z.to_nat n) (wrap8 b))) st s) /\
    (OpKind op = operationKindMemoryCopy ->
     execute op s = bulkResult ((x + n <=? zlen (Buffer mem)) && (y + n <=? zlen (Buffer mem))) OOB
                      (bulkMemory p mem y (bytesAt (Buffer mem) x n)) st s) /\
    (forall inst d, instances (heap (shared s)) !! mi = Some inst -> zlookup (DataInstances inst) (U1 op) = Some d ->
     OpKind op = operationKindMemoryInit ->
     execute op s = bulkResult ((x + n <=? zlen d) && (y + n <=? zlen (Buffer mem))) OOB (bulkMemory p mem y (bytesAt d x n)) st s)) /\
  (forall p t, hasTable s (U1 op) p t -> OpKind op = operationKindTableFill ->
     execute op s = bulkResult (y + n <=? zlen (References t)) TA (bulkTable p t y (replicate (Z.to_nat n) b)) st s) /\
  (forall p t, hasTable s (U2 op) p t ->
    (forall ps ts, hasTable s (U1 op) ps ts -> OpKind op = operationKindTableCopy ->
     execute op s = bulkResult ((x + n <=? zlen (References ts)) && (y + n <=? zlen (References t))) TA
                      (bulkTable p t y (bytesAt (References ts) x n)) st s) /\
    (forall inst es, instances (heap (shared s)) !! mi = Some inst -> zlookup (ElementInstances inst) (U1 op) = Some es ->
     OpKind op = operationKindTableInit ->
     execute op s = bulkResult ((x + n <=? zlen es) && (y + n <=? zlen (References t))) TA (bulkTable p t y (bytesAt es x n)) st s)).
Proof.
  intros Hst n x y. unfold Interp.execute.
  split; [|split].
  - intros p mem Hm. split; [|split].
    + intros ->. apply thenNext_bulk; [by apply memoryFill_run|done].
    + intros ->. apply thenNext_bulk; [by apply memoryCopy_run|done].
    + intros inst d Hi Hd ->. apply thenNext_bulk; [by eapply memoryInit_run|done].
  - intros p t Ht ->. apply thenNext_bulk; [by apply tableFill_run|done].
  - intros p t Ht. split.
    + intros ps ts Hs ->. apply thenNext_bulk; [by eapply tableCopy_run|done].
    + intros inst es Hi Hd ->. apply thenNext_bulk; [by eapply tableInit_run|done].
Qed.

(** ** A memory of 4 GiB *)

(** C40: On a memory of 65536 pages v128.load at 2^32-8 does not trap although
    the last eight of its sixteen bytes are outside: the address of the upper
    half wraps to 0, and the first bytes of the memory are loaded; v128.store
    traps there.  memory.atomic.notify traps at every aligned address, since
    the size of such a memory does not fit in 32 bits. *)
Theorem full_memory_accesses op v st s p mem :
  is_u32 (U2 op) -> hasMemory s mi p mem -> zlen (Buffer mem) = 2 ^ 32 ->
  (OpKind op = operationKindV128Load -> B1 op = v128LoadType128 -> effective op v = 2 ^ 32 - 8 -> stack s = v :: st ->
   execute op s = (stepped (le_decode (bytesAt (Buffer mem) 0 8) :: le_decode (bytesAt (Buffer mem) (2 ^ 32 - 8) 8) :: st) s, Done tt)) /\
  (forall lo hi, OpKind op = operationKindV128Store -> effective op v = 2 ^ 32 - 8 -> stack s = hi :: lo :: v :: st ->
   execute op s = (set_stack st s, Raised (Trap OOB))) /\
  (forall count, OpKind op = operationKindAtomicMemoryNotify -> effective op v < 2 ^ 32 -> effective op v mod 4 = 0 ->
   stack s = count :: v :: st -> execute op s = (set_stack st s, Raised (Trap OOB))).
Proof.
  intros Hu Hm Hl. unfold Interp.execute. split; [|split].
  - intros -> HB He Hst.
    assert (Hread : forall o st', is_u32 o -> o + 8 <= 2 ^ 32 ->
      readMemory mi (fun m => ReadUint64Le m o) (set_stack st' s) = (set_stack st' s, Done (le_decode (bytesAt (Buffer mem) o 8)))).
    { intros o st' Ho H8. apply (readMemory_run mi p mem (set_stack st' s) _ _ true Hm).
      pose proof (readUint_spec 8 mem o Ho ltac:(lia)) as Hr. unfold leRead in Hr.
      rewrite (proj2 (Z.leb_le _ _)) in Hr by (rewrite Hl; lia). exact Hr. }
    rewrite (thenNext_done _ s (set_stack (le_decode (bytesAt (Buffer mem) 0 8) :: le_decode (bytesAt (Buffer mem) (2 ^ 32 - 8) 8) :: st) s));
      [reflexivity|]. unfold execV128Load.
    erewrite bindX_done; [|rewrite (popMemoryOffset_run _ v st) by done; rewrite He; reflexivity]. cbn zeta. rewrite HB.
    cbn [Z.eqb]. change (v128LoadType128 =? v128LoadType128) with true. cbn iota.
    erewrite bindX_done by (apply Hread; unfold is_u32; lia). cbn beta. erewrite bindX_done by reflexivity. cbn beta.
    erewrite bindX_done by (apply (Hread 0 (_ :: st)); unfold is_u32; lia). reflexivity.
  - intros lo hi -> He Hst. apply thenNext_raise. unfold execV128Store, popVector.
    erewrite bindX_done.
    2:{ erewrite bindX_done by (by apply popValue_run). cbn beta. by erewrite bindX_done by (by apply popValue_run). }
    cbn beta. erewrite bindX_done; [|rewrite (popMemoryOffset_run _ v st) by done; rewrite He; reflexivity]. reflexivity.
  - intros count -> He Ha Hst. apply thenNext_raise. unfold execNotify.
    erewrite bindX_done by (by apply popValue_run). cbn beta.
    erewrite bindX_done; [|rewrite (popMemoryOffset_run _ v st) by done; rewrite (proj2 (Z.ltb_lt _ _) He); reflexivity]. cbn beta.
    erewrite bindX_done; [|unfold aligned; rewrite Ha; reflexivity]. cbn beta.
    erewrite bindX_done by (by apply (memoryX_run (set_stack st s))). cbn beta iota.
    pose proof (wrap32_range v). unfold Size. rewrite Hl. change (wrap32 (2 ^ 32)) with 0.
    destruct (Z.geb_spec (effective op v) 0); [done|]. unfold effective, is_u32 in *. lia.
Qed.

End Memory.

(** ** Witnesses *)

(** One instance with the memory [mem] and a table of two references. *)
Definition memoryMachine (mem : MemoryInstance) (st : list Z) : machine :=
  mkMachine st []
    (mkEngineStore (mkWorld {[1%positive := mkModuleInstance "" ∅ [] (Some 1%positive) [Some 1%positive] [] [[1; 2; 3]] [[5]] 1 false]}
       ∅ ∅ {[1%positive := mkTableInstance [0; 0] 2 None ValueTypeFuncref []]} {[1%positive := mem]} ∅ ∅ (mkStore ∅ None (Some ∅) 0) [])
       ∅ ∅ ∅ ∅ []).
Definition smallMemory : MemoryInstance := mkMemoryInstance [0; 1; 2; 3; 4; 5; 6; 7; 8; 9] 10 1 1 1 false None.

Lemma memoryMachine_has mem st : hasMemory (memoryMachine mem st) 1 1 mem.
Proof. eexists. split_and!; reflexivity. Qed.

Section Witnesses.
#[local] Existing Instance namedPointers.
#[local] Existing Instance canonicalNaNs.
Abbreviation executeAlone := (execute (fun _ => 0) (fun _ _ => mret 2) (fun _ => mret tt) 1 1).

Lemma load_store_spec_witness :
  let op := newOperationLoad16 signedInt32 (mkMemoryArg 0 3) in
  let s := memoryMachine smallMemory [2 ^ 40 + 4; 77] in
  executeAlone op s = (stepped [7 + 256 * 8; 77] s, Done tt).
Proof.
  intros op s.
  refine (proj1 (load_store_spec (fun _ => 0) (fun _ _ => mret 2) (fun _ => mret tt) 1 1 op 2 (2 ^ 40 + 4) [77] s 1 smallMemory
    _ (memoryMachine_has _ _) _ _) _ _); [by vm_compute|by repeat constructor|by vm_compute|reflexivity|reflexivity].
Defined.

Lemma bulk_operations_spec_witness :
  let op := newOperationMemoryCopy in
  let s := memoryMachine smallMemory [4; 0; 2] in
  executeAlone op s = (stepped [] (withMemory 1 (set_Buffer [0; 1; 0; 1; 2; 3; 6; 7; 8; 9] smallMemory) s), Done tt).
Proof.
  intros op s.
  destruct (bulk_operations_spec (fun _ => 0) (fun _ _ => mret 2) (fun _ => mret tt) 1 1 op 4 0 2 [] s eq_refl) as [H _].
  destruct (H 1%positive smallMemory (memoryMachine_has _ _)) as (_ & Hc & _). rewrite (Hc eq_refl). vm_compute. reflexivity.
Defined.

Definition fullMemory : MemoryInstance := mkMemoryInstance (zeros (2 ^ 32)) (2 ^ 32) 65536 65536 65536 false None.

Lemma full_memory_accesses_witness :
  let op := newOperationV128Load v128LoadType128 (mkMemoryArg 0 0) in
  let s := memoryMachine fullMemory [2 ^ 32 - 8] in
  executeAlone op s = (stepped [le_decode (bytesAt (Buffer fullMemory) 0 8); le_decode (bytesAt (Buffer fullMemory) (2 ^ 32 - 8) 8)] s, Done tt).
Proof.
  intros op s.
  refine (proj1 (full_memory_accesses (fun _ => 0) (fun _ _ => mret 2) (fun _ => mret tt) 1 1 op (2 ^ 32 - 8) [] s 1 fullMemory
    _ (memoryMachine_has _ _) _) _ _ _ _); [by split|by apply zlen_zeros|reflexivity..].
Defined.
End Witnesses.
