(* ===== verification/InterpGuest.v ===== *)
(** * Whole guests: decoded, validated, compiled, instantiated and run

    Modules in the binary format for which execution differs from what it is
    meant to be: an instruction that is compiled wrongly, and loops that do not
    notice that their context is done. *)

From S2P Require Import Prelude Leb128 Features Opcodes Types ValStack Validate Signature ConstExpr TypeIDs ModuleClose Execution ModuleList.
From S2P Require Import Memory Waiters Binary ModuleValidate Operations Compiler Lower GoFloat Numeric Vector Instantiate Machine Interp.
From S2P Require Import Runtime InterpBase InterpSafe.

#[local] Existing Instance namedPointers.
#[local] Existing Instance canonicalNaNs.

Definition allFeatures : CoreFeatures :=
  Z.lor CoreFeaturesV2 (Z.lor CoreFeaturesTailCall (Z.lor CoreFeaturesExceptionHandling CoreFeaturesTypedFunctionReferences)).

Definition instantiateWith (ensureTermination : bool) (binary : list Z) : runtime * returned positive :=
  InstantiateWithConfig noHost noChannel noPark (fun _ _ => 7) (fun m => (map_to_list m).*1) (fun m => (map_to_list m).*1) None None (fun _ => None) 2000
    binary None [] (NewRuntimeWithConfig 1 (mkRuntimeConfig allFeatures 65536 false true false ensureTermination)).

Definition runGuest (binary : list Z) (i : Z) (params : list Z) : returned (list Z * option callError) :=
  match instantiateWith false binary with
  | (r, Ret inst) =>
      match functionIn (engines (storeState r)) inst i with
      | Ok f =>
          match snd (Call noHost noChannel noPark 500 f None params (mkMachine [] [] (storeState r))) with
          | Some x => Ret x
          | None => Diverge
          end
      | Err e => Fail e
      | Panic e => Crash e
      end
  | (_, Fail e) => Fail e
  | (_, Exit c) => Exit c
  | (_, Crash e) => Crash e
  | (_, Diverge) => Diverge
  end.

Definition header : list Z := [0; 97; 115; 109; 1; 0; 0; 0].

(** (func (result i32) (local i32)
      (local.set 0 (i32.const 42))
      (drop (block (result funcref) (i32.const 7) (br_on_non_null 0 (ref.func 0)) (unreachable)))
      (local.get 0)) *)
Definition brOnNonNull : list Z :=
  header ++ [1; 8; 2; 0x60; 0; 0; 0x60; 0; 1; 0x7f] ++ [3; 3; 2; 0; 1] ++ [7; 5; 1; 1; 102; 0; 0] ++ [10; 26; 2]
  ++ [2; 0; OpcodeEnd]
  ++ [21; 1; 1; 0x7f; OpcodeI32Const; 42; OpcodeLocalSet; 0; OpcodeBlock; 0x70; OpcodeI32Const; 7; OpcodeRefFunc; 0; OpcodeBrOnNonNull; 0;
      OpcodeUnreachable; OpcodeEnd; OpcodeDrop; OpcodeLocalGet; 0; OpcodeEnd].

(** (func (param i32) (result i32)
      (ref.is_null (select (result (ref null 0)) (ref.null 0) (ref.null 0) (local.get 0)))) *)
Definition typedSelect : list Z :=
  header ++ [1; 9; 2; 0x60; 0; 0; 0x60; 1; 0x7f; 1; 0x7f] ++ [3; 2; 1; 1] ++ [10; 15; 1]
  ++ [13; 0; OpcodeRefNull; 0; OpcodeRefNull; 0; OpcodeLocalGet; 0; OpcodeTypedSelect; 1; RefPrefixNullable; 0; OpcodeRefIsNull; OpcodeEnd].

(** Two valid modules that the interpreter miscompiles.  The range that
    br_on_non_null drops keeps one value too many, so that the function returns
    a leftover of the block, 7, instead of its local, 42.  The compiler does
    not skip the heap type of a typed select, whose byte 0 is then compiled as
    unreachable: the function traps instead of returning 1. *)
Theorem references_miscompiled :
  runGuest brOnNonNull 1 [] = Ret ([7], None) /\
  runGuest typedSelect 0 [1] = Ret ([], Some (Recovered (Trap ErrRuntimeUnreachable))).
Proof. split; vm_compute; reflexivity. Qed.

(** ** Contexts that are done *)

(** [f] calls [g], and [g] loops for ever. *)
Definition looping : list Z :=
  header ++ [1; 4; 1; 0x60; 0; 0] ++ [3; 3; 2; 0; 0] ++ [10; 14; 2]
  ++ [4; 0; OpcodeCall; 1; OpcodeEnd] ++ [7; 0; OpcodeLoop; 0x40; OpcodeBr; 0; OpcodeEnd; OpcodeEnd].
(** Two functions that are each other's tail call. *)
Definition tailCalling : list Z :=
  header ++ [1; 4; 1; 0x60; 0; 0] ++ [3; 3; 2; 0; 0] ++ [10; 11; 2]
  ++ [4; 0; OpcodeTailCallReturnCall; 1; OpcodeEnd] ++ [4; 0; OpcodeTailCallReturnCall; 0; OpcodeEnd].

(** The instance [p] is closed by the goroutine that watches the context. *)
Definition closedBy (p : positive) (s : store) : store :=
  let w := heap s in
  set_heap (mkWorld (instances w) (modules w) (globals w) (tables w) (memories w) (tags w) (graph w)
    (mkStore (<[p := mkNode "" None None (closedWord 0xefffffff exitCodeFlagResourceNotClosed) false None None]> (nodes (names w)))
       (moduleList (names w)) (nameToModule (names w)) (nameToModuleCap (names w))) (imported w)) s.

(** The function [i] of a guest compiled with termination checks, and the store. *)
Definition checkedFunction (binary : list Z) (i : Z) : option (positive * function * store) :=
  match instantiateWith true binary with
  | (r, Ret inst) => match functionIn (engines (storeState r)) inst i with Ok f => Some (inst, f, storeState r) | _ => None end
  | _ => None
  end.
Definition callWith (fuel : nat) (m : positive) (f : function) (s : store) : machine * outcome unit :=
  callFunction noHost (nativeLoop noHost noChannel noPark fuel) m f (mkMachine [] [] s).

(** One turn of the loop, with [loop] for what follows and for the callees. *)
Definition oneTurn (loop : positive -> positive -> X unit) (m mi : positive) : X unit := fun s =>
  (frame ← topFrame;
   if framePC frame <? zlen (bodyOf frame) then
     op ← liftX (zindex (bodyOf frame) (framePC frame));
     _ ← execute noChannel noPark (callFunction noHost loop mi) m mi op;
     loop m mi
   else _ ← popFrame; mret tt) s.
Abbreviation loopOf := (nativeLoop noHost noChannel noPark).

Lemma nativeLoop_turn n : loopOf (S n) = oneTurn (loopOf n).
Proof. reflexivity. Qed.

(** A machine to which [k] turns of the loop lead back. *)
Lemma cycle_diverges k m mi s :
  (forall loop, Nat.iter (S k) oneTurn loop m mi s = loop m mi s) ->
  (forall j, (j <= k)%nat -> snd (loopOf j m mi s) = OutOfFuel) ->
  forall n, snd (loopOf n m mi s) = OutOfFuel.
Proof.
  intros Hc Hb n. induction (Nat.lt_wf_0 n) as [n _ IH]. destruct (decide (n <= k)%nat) as [Hn|Hn]; [by apply Hb|].
  replace n with (S k + (n - S k))%nat by lia.
  assert (Hi : forall j, loopOf (j + (n - S k)) = Nat.iter j oneTurn (loopOf (n - S k))).
  { induction j as [|j IHj]; [done|]. cbn [Nat.add Nat.iter]. by rewrite nativeLoop_turn, IHj. }
  rewrite Hi, Hc. apply IH. lia.
Qed.

(** The functions of a guest and its store, named for the statements below. *)
Definition noFunction : function :=
  mkFunction (mkFunctionType [] [] 0 0 0 0) 1 0 (mkCompiledFunction (mkLowered [] [] []) None None 0 false 0).
Definition functionOf (binary : list Z) (i : Z) : function := match checkedFunction binary i with Some (_, f, _) => f | None => noFunction end.
Definition storeOf (binary : list Z) : store := match checkedFunction binary 0 with Some (_, _, s) => s | None => emptyState end.

(** The machine at position [pc] of [g], which was called by [callers]. *)
Definition inCall (pc : Z) (g : function) (callers : list callFrame) (s : store) : machine := mkMachine [] (mkCallFrame pc g 0 :: callers) s.

Lemma bind_out {A B} (c : X A) (k : A -> X B) s : snd (c s) = OutOfFuel -> snd ((c ≫= k) s) = OutOfFuel.
Proof. unfold mbind, X_bind. by destruct (c s) as [s' [a|p|]]. Qed.
Lemma bind_run {A B} (c : X A) (k : A -> X B) s s' a : c s = (s', Done a) -> (c ≫= k) s = k a s'.
Proof. intros E. unfold mbind, X_bind. by rewrite E. Qed.

(** A turn whose call does not return. *)
Lemma turn_call_out loop m mi s fr l op tf :
  frames s = fr :: l -> zindex (bodyOf fr) (framePC fr) = Ok op -> (framePC fr <? zlen (bodyOf fr)) = true ->
  OpKind op = operationKindCall -> functionIn (engines (shared s)) mi (U1 op) = Ok tf ->
  exceptionTable (lowered (parent (frameF fr))) = [] ->
  snd (callFunction noHost loop mi tf s) = OutOfFuel -> snd (oneTurn loop m mi s) = OutOfFuel.
Proof.
  intros Hf Hop Hpc Hk Hfn Ht Hc. unfold oneTurn. erewrite bind_run by (unfold topFrame, readX; by rewrite Hf). rewrite Hpc.
  erewrite bind_run by (unfold liftX; by rewrite Hop). apply bind_out. unfold execute. rewrite Hk.
  erewrite bind_run by (unfold functionX, readX; by rewrite Hfn). unfold invoke. apply bind_out.
  unfold callWithUnwind. erewrite bind_run by (unfold topFrame, readX; by rewrite Hf). rewrite Ht.
  by apply bind_out.
Qed.

Lemma looping_cycle (callers := [mkCallFrame 0 (functionOf looping 0) 0]) n :
  snd (loopOf n 1 1 (inCall 1 (functionOf looping 1) callers (closedBy 99 (storeOf looping)))) = OutOfFuel.
Proof.
  apply (cycle_diverges 2); [intros loop; vm_compute; reflexivity|].
  intros j Hj. assert (H : (j = 0 \/ j = 1 \/ j = 2)%nat) by lia. destruct H as [->|[->| ->]]; vm_compute; reflexivity.
Qed.

Lemma looping_diverges n : snd (callWith n 99 (functionOf looping 0) (closedBy 99 (storeOf looping))) = OutOfFuel.
Proof.
  assert (Hcall : forall loop, callFunction noHost loop 99 (functionOf looping 0) (mkMachine [] [] (closedBy 99 (storeOf looping))) =
    loop 99%positive 1%positive (inCall 0 (functionOf looping 0) [] (closedBy 99 (storeOf looping)))) by (intros; vm_compute; reflexivity).
  unfold callWith. rewrite Hcall. destruct n as [|n]; [done|]. rewrite nativeLoop_turn.
  eapply turn_call_out with (tf := functionOf looping 1); [vm_compute; reflexivity..|].
  assert (Hcall' : forall loop, callFunction noHost loop 1 (functionOf looping 1) (inCall 0 (functionOf looping 0) [] (closedBy 99 (storeOf looping))) =
    loop 1%positive 1%positive (inCall 0 (functionOf looping 1) [mkCallFrame 0 (functionOf looping 0) 0] (closedBy 99 (storeOf looping))))
    by (intros; vm_compute; reflexivity).
  rewrite Hcall'. destruct n as [|n]; [done|]. rewrite nativeLoop_turn, <- (looping_cycle n).
  generalize (loopOf n). intros loop. vm_compute. reflexivity.
Qed.

Lemma tail_cycle n : snd (loopOf n 1 1 (inCall 0 (functionOf tailCalling 0) [] (closedBy 1 (storeOf tailCalling)))) = OutOfFuel.
Proof.
  apply (cycle_diverges 1); [intros loop; vm_compute; reflexivity|].
  intros j Hj. assert (H : (j = 0 \/ j = 1)%nat) by lia. destruct H as [->| ->]; vm_compute; reflexivity.
Qed.

Lemma tail_diverges n : snd (callWith n 1 (functionOf tailCalling 0) (closedBy 1 (storeOf tailCalling))) = OutOfFuel.
Proof. rewrite <- (tail_cycle n). unfold callWith. generalize (loopOf n). intros loop. vm_compute. reflexivity. Qed.

(** C39: Checks for the end of the context are compiled into these guests, but
    calls do not end.  A function whose caller is an instance that the context
    has closed calls a function of its own module, which loops: the loop asks
    whether the module of its caller, not the one that was called, is closed.
    And two functions that tail call each other make no check at all, although
    their own module is closed.  A loop in the function that was called itself
    is stopped with the exit code. *)
Theorem closed_module_keeps_running :
  (forall i, i = 0 \/ i = 1 ->
    checkedFunction looping i = Some (1%positive, functionOf looping i, storeOf looping) /\
    checkedFunction tailCalling i = Some (1%positive, functionOf tailCalling i, storeOf tailCalling) /\
    compiledEnsureTermination (parent (functionOf looping i)) = true /\
    compiledEnsureTermination (parent (functionOf tailCalling i)) = true) /\
  exitCode 99 (heap (closedBy 99 (storeOf looping))) = Some 0xefffffff /\
  (forall fuel, snd (callWith fuel 99 (functionOf looping 0) (closedBy 99 (storeOf looping))) = OutOfFuel) /\
  snd (callWith 10 99 (functionOf looping 1) (closedBy 99 (storeOf looping))) = Raised (ExitError 0xefffffff) /\
  exitCode 1 (heap (closedBy 1 (storeOf tailCalling))) = Some 0xefffffff /\
  (forall fuel, snd (callWith fuel 1 (functionOf tailCalling 0) (closedBy 1 (storeOf tailCalling))) = OutOfFuel).
Proof.
  split; [intros i [-> | ->]; split_and!; vm_compute; reflexivity|].
  split_and!; [vm_compute; reflexivity|apply looping_diverges|vm_compute; reflexivity|vm_compute; reflexivity|apply tail_diverges].
Qed.
