(* ===== verification/InterpStore.v ===== *)
(** * What guests cannot do to a store

    [evolves] relates a store to what it may become while guests run: memories
    and tables only grow, within their limits; globals keep their types;
    instances keep what they hold, except that segments are dropped; functions,
    modules, tags and exceptions stay.  Every instruction, every call and every
    recovery from a panic keeps to it, provided that host functions do, so that
    a typed instance stays typed. *)

From S2P Require Import Prelude Leb128 Features Opcodes Types ValStack Validate Signature ConstExpr TypeIDs ModuleClose Execution ModuleList.
From S2P Require Import Memory Waiters Binary BinaryWf ModuleValidate ModuleValidateSafe Operations Compiler Lower GoFloat Numeric Vector Instantiate Machine Interp.
From S2P Require Import InstantiateSafe Runtime InterpBase InterpMem InterpSafe.

(** ** The relation *)

(** An allocator that gives the size that it is asked for, or nothing. *)
Definition exact (e : LinearMemory) : Prop := forall b n b' c same, Reallocate e b n = Some (b', c, same) -> zlen b' = n.
(** A memory of [n] pages within its limit. *)
Definition sized (n : Z) (M : MemoryInstance) : Prop :=
  zlen (Buffer M) = n * MemoryPageSize /\ n <= Max M /\ Max M <= MemoryLimitPages /\ forall e, expBuffer M = Some e -> exact e.
Definition memory_step (M M' : MemoryInstance) : Prop :=
  Min M' = Min M /\ Max M' = Max M /\ Shared M' = Shared M /\
  forall n, sized n M -> exists n', n <= n' /\ sized n' M'.

Definition within_limits (T : TableInstance) : Prop :=
  zlen (References T) < MaximumTableIndex /\ forall mx, TMax T = Some mx -> zlen (References T) <= mx.
Definition table_step (T T' : TableInstance) : Prop :=
  TType T' = TType T /\ TMin T' = TMin T /\ TMax T' = TMax T /\ involvingModuleInstances T' = involvingModuleInstances T /\
  (within_limits T -> within_limits T' /\ zlen (References T) <= zlen (References T')).

(** A segment is there or dropped. *)
Definition dropped (l l' : list Z) : Prop := l' = l \/ l' = [].
Definition instance_step (i i' : ModuleInstance) : Prop :=
  exists ds es, Forall2 dropped (DataInstances i) ds /\ Forall2 dropped (ElementInstances i) es /\
    i' = set_DataInstances ds (set_ElementInstances es i).

Record evolves (s s' : store) : Prop := {
  ev_instances : forall p i, instances (heap s) !! p = Some i -> exists i', instances (heap s') !! p = Some i' /\ instance_step i i';
  ev_globals : forall p g, globals (heap s) !! p = Some g ->
    exists g', globals (heap s') !! p = Some g' /\ GlobalInstanceType g' = GlobalInstanceType g;
  ev_tables : forall p T, tables (heap s) !! p = Some T -> exists T', tables (heap s') !! p = Some T' /\ table_step T T';
  ev_memories : forall p M, memories (heap s) !! p = Some M -> exists M', memories (heap s') !! p = Some M' /\ memory_step M M';
  ev_modules : modules (heap s) ⊆ modules (heap s');
  ev_tags : tags (heap s) ⊆ tags (heap s');
  ev_engines : engines s ⊆ engines s';
  ev_exceptions : exceptions s ⊆ exceptions s';
}.

Lemma memory_step_refl M : memory_step M M.
Proof. split_and!; try done. intros n Hn. by exists n. Qed.
Lemma memory_step_trans M1 M2 M3 : memory_step M1 M2 -> memory_step M2 M3 -> memory_step M1 M3.
Proof.
  intros (? & ? & ? & S1) (? & ? & ? & S2). split_and!; try congruence. intros n (n' & ? & Hn)%S1.
  destruct (S2 n' Hn) as (n'' & ? & ?). exists n''. split; [lia|done].
Qed.
Lemma table_step_refl T : table_step T T.
Proof. by split_and!. Qed.
Lemma table_step_trans T1 T2 T3 : table_step T1 T2 -> table_step T2 T3 -> table_step T1 T3.
Proof.
  intros (? & ? & ? & ? & S1) (? & ? & ? & ? & S2). split_and!; try congruence. intros [W1 L1]%S1.
  destruct (S2 W1) as [W2 L2]. split; [done|lia].
Qed.
#[global] Instance dropped_refl : Reflexive dropped.
Proof. by left. Qed.
#[global] Instance dropped_trans : Transitive dropped.
Proof. intros l1 l2 l3 [->| ->] H; [done|right; by destruct H]. Qed.
Lemma instance_step_refl i : instance_step i i.
Proof. exists (DataInstances i), (ElementInstances i). split; [reflexivity|]. split; [reflexivity|]. by destruct i. Qed.
Lemma instance_step_trans i1 i2 i3 : instance_step i1 i2 -> instance_step i2 i3 -> instance_step i1 i3.
Proof.
  intros (ds & es & Hd & He & ->) (ds' & es' & Hd' & He' & ->). exists ds', es'. cbn in *.
  split; [by etrans|]. by split; [etrans|].
Qed.

(** Two steps of an object of a map. *)
Lemma lookup_steps {A} (R : A -> A -> Prop) (m1 m2 m3 : gmap positive A) p a :
  (forall a1 a2 a3, R a1 a2 -> R a2 a3 -> R a1 a3) ->
  (forall p a, m1 !! p = Some a -> exists a', m2 !! p = Some a' /\ R a a') ->
  (forall p a, m2 !! p = Some a -> exists a', m3 !! p = Some a' /\ R a a') ->
  m1 !! p = Some a -> exists a', m3 !! p = Some a' /\ R a a'.
Proof. intros Ht H1 H2 Ha. destruct (H1 p a Ha) as (a' & Ha' & ?). destruct (H2 p a' Ha') as (a'' & ? & ?). eauto. Qed.
(** One object of a map takes a step. *)
Lemma insert_step {A} (R : A -> A -> Prop) (m : gmap positive A) p0 a0 a0' p a :
  (forall a, R a a) -> m !! p0 = Some a0 -> R a0 a0' -> m !! p = Some a -> exists a', <[p0 := a0']> m !! p = Some a' /\ R a a'.
Proof.
  intros Hr H0 HR Ha. destruct (decide (p0 = p)) as [<-|Hne]; [|rewrite lookup_insert_ne by done; eauto].
  rewrite lookup_insert_eq. assert (a = a0) as -> by congruence. eauto.
Qed.

#[global] Instance evolves_order : PreOrder evolves.
Proof.
  split.
  - intros s. split; eauto using instance_step_refl, table_step_refl, memory_step_refl.
  - intros s1 s2 s3 H1 H2. split.
    + intros p i. apply lookup_steps with (instances (heap s2)); [apply instance_step_trans|apply H1|apply H2].
    + intros p g. apply (lookup_steps (fun g g' => GlobalInstanceType g' = GlobalInstanceType g)) with (globals (heap s2));
        [congruence|apply H1|apply H2].
    + intros p T. apply lookup_steps with (tables (heap s2)); [apply table_step_trans|apply H1|apply H2].
    + intros p M. apply lookup_steps with (memories (heap s2)); [apply memory_step_trans|apply H1|apply H2].
    + etrans; [apply H1|apply H2].
    + etrans; [apply H1|apply H2].
    + etrans; [apply H1|apply H2].
    + etrans; [apply H1|apply H2].
Qed.

Definition evolve (s s' : machine) : Prop := evolves (shared s) (shared s').
#[global] Instance evolve_order : PreOrder evolve.
Proof. split; [intros s; unfold evolve; reflexivity|]. intros s1 s2 s3 H1 H2. unfold evolve in *. by etrans. Qed.

(** ** Objects *)

Lemma copyAt_zlen l o val r : copyAt l o val = Ok r -> zlen r = zlen l.
Proof.
  unfold copyAt, zslice. destruct (0 <=? o) eqn:E1; [|done]. destruct (o <=? zlen l) eqn:E2; [|done]. cbn.
  intros [= <-]. unfold zlen in *. rewrite !length_app, !length_take, !length_drop. lia.
Qed.
Lemma zset_zlen {A} (l : list A) i a r : zset l i a = Ok r -> zlen r = zlen l.
Proof. unfold zset. destruct (_ && _); [|done]. intros [= <-]. unfold zlen. by rewrite length_insert. Qed.
Lemma inRegion_zlen b o n f r : inRegion b o n f = Ok r -> zlen r = zlen b.
Proof.
  unfold inRegion. destruct (slice2 _ _ _) as [x| |]; [|done..]. cbn. destruct (f x) as [y| |]; [|done..]. cbn. apply copyAt_zlen.
Qed.

(** The contents change. *)
Lemma memory_step_buffer b M : zlen b = zlen (Buffer M) -> memory_step M (set_Buffer b M).
Proof. intros Hb. split_and!; try done. intros n Hn. exists n. split; [lia|]. unfold sized in *. cbn. by rewrite Hb. Qed.
Lemma table_step_references l T : zlen l = zlen (References T) -> table_step T (set_References l T).
Proof. intros Hl. split_and!; try done. unfold within_limits. cbn. rewrite Hl. intros H. by split; [|lia]. Qed.

Lemma writeWith_step M o n f ok M' :
  (forall r, f (Buffer M) = Ok r -> zlen r = zlen (Buffer M)) -> writeWith M o n f = Ok (ok, M') -> memory_step M M'.
Proof.
  intros Hf. unfold writeWith. destruct (negb _); [intros [= <- <-]; apply memory_step_refl|].
  destruct (f _) as [r| |]; [|done..]. cbn. intros [= <- <-]. by apply memory_step_buffer, Hf.
Qed.
Lemma putUint_zlen n l o v r : putUint n l o v = Ok r -> zlen r = zlen l.
Proof. unfold putUint. destruct (zslice l o) as [t| |]; [|done..]. cbn. destruct (_ <=? _); [apply copyAt_zlen|done]. Qed.

(** The accessors that write. *)
Definition writes (f : MemoryInstance -> res (bool * MemoryInstance)) : Prop :=
  forall M ok M', f M = Ok (ok, M') -> memory_step M M'.
Lemma writes_byte o v : writes (fun m => WriteByte m o v).
Proof.
  intros M ok M'. apply writeWith_step. intros r. destruct (_ <? _); [|done]. intros [= <-]. unfold zlen. by rewrite length_insert.
Qed.
Lemma writes_16 o v : writes (fun m => WriteUint16Le m o v).
Proof. intros M ok M'. apply writeWith_step, putUint_zlen. Qed.
Lemma writes_32 o v : writes (fun m => WriteUint32Le m o v).
Proof. intros M ok M'. apply writeWith_step, putUint_zlen. Qed.
Lemma writes_64 o v : writes (fun m => WriteUint64Le m o v).
Proof. intros M ok M'. apply writeWith_step, putUint_zlen. Qed.
Lemma writes_N n o v : writes (fun m => writeN n m o v).
Proof.
  intros M ok M'. unfold writeN. destruct (n =? 1); [apply writes_byte|]. destruct (n =? 2); [apply writes_16|].
  destruct (n =? 4); [apply writes_32|apply writes_64].
Qed.


Lemma grow_step M delta r ok M' : is_u32 delta -> Grow M delta = Ok (r, ok, M') -> memory_step M M'.
Proof.
  intros [Hd1 Hd2]. unfold Grow. destruct (delta =? 0); [intros [= _ _ <-]; apply memory_step_refl|].
  destruct ((_ >? Max M) || (sgn32 delta <? 0)) eqn:Eg; [intros [= _ _ <-]; apply memory_step_refl|].
  apply orb_false_iff in Eg as [Eg Es]. rewrite Z.gtb_ltb in Eg. apply Z.ltb_ge in Eg, Es.
  assert (Hd : 0 <= delta < 2 ^ 31).
  { unfold sgn32 in Es. rewrite sgn_spec in Es by lia. change (2 ^ (32 - 1)) with (2 ^ 31) in Es. destruct (Z.ltb_spec delta (2 ^ 31)); lia. }
  assert (Hn : forall n, sized n M -> 0 <= n <= 65536 /\ Pages M = n).
  { intros n (Hb & Hx & Hl & _). unfold MemoryLimitPages, MemoryPageSize in *. pose proof (zlen_nonneg (Buffer M)).
    split; [lia|]. unfold Pages. rewrite Hb. apply bytes_pages. lia. }
  assert (Hw : forall n, sized n M -> wrap32 (Pages M + delta) = n + delta /\ n + delta <= Max M /\
    MemoryPagesToBytesNum (n + delta) = (n + delta) * MemoryPageSize /\ MemoryPagesToBytesNum delta = delta * MemoryPageSize).
  { intros n H. destruct (Hn n H) as [Hr Hp]. rewrite Hp in *. rewrite wrap32_small in * by (unfold is_u32; lia).
    destruct H as (_ & _ & Hl & _). unfold MemoryLimitPages in *. rewrite !pages_bytes by (unfold MemoryLimitPages; lia). by split_and!. }
  destruct (expBuffer M) as [e|] eqn:Ee.
  { destruct (Reallocate _ _ _) as [[[b c] sa]|] eqn:Er; [|intros [= _ _ <-]; apply memory_step_refl].
    assert (forall c k, memory_step M (mkMemoryInstance b c (Min M) k (Max M) (Shared M) (Some e))) as Hs.
    { intros c' k. split_and!; try done. intros n H. destruct (Hw n H) as (E1 & E2 & E3 & E4). exists (n + delta). split; [lia|].
      destruct H as (Hb & Hx & Hl & He). split_and!; cbn; try done; [|by rewrite <- Ee]. rewrite <- E3, <- E1. by eapply He. }
    destruct (Shared M); [destruct (negb sa); [done|]|]; intros [= _ _ <-]; apply Hs. }
  destruct (_ >? Cap M).
  - destruct (Shared M) eqn:Es'; [done|]. intros [= _ _ <-]. split_and!; try done. intros n H.
    destruct (Hw n H) as (E1 & E2 & E3 & E4). exists (n + delta). split; [lia|]. destruct H as (Hb & Hx & Hl & _).
    split_and!; cbn; try done. rewrite zlen_app, E4, zlen_zeros by (unfold MemoryPageSize; lia). lia.
  - destruct (_ || _) eqn:Ec; [|done]. intros [= _ _ <-]. split_and!; try done. intros n H.
    destruct (Hw n H) as (E1 & E2 & E3 & E4). exists (n + delta). split; [lia|]. destruct H as (Hb & Hx & Hl & _).
    split_and!; cbn; try done; [|by rewrite Ee]. rewrite E1, E3, zlen_app, zlen_zeros by (unfold MemoryPageSize in *; lia). lia.
Qed.

Lemma tableGrow_step T delta ref T' r : is_u32 delta -> TableGrow T delta ref = Ok (T', r) -> table_step T T'.
Proof.
  intros Hd HG. assert (HT : TType T' = TType T /\ TMin T' = TMin T /\ TMax T' = TMax T /\ involvingModuleInstances T' = involvingModuleInstances T).
  { revert HG. unfold TableGrow. destruct (delta =? 0); [by intros [= <- _]|]. destruct (_ || _); [by intros [= <- _]|].
    destruct (ref =? 0); [by intros [= <- _]|]. destruct (zslice _ _); cbn; [|done..]. destruct (zset _ _ _); cbn; [|done..].
    destruct (fillLoop _ _ _); cbn; [|done..]. by intros [= <- _]. }
  destruct HT as (? & ? & Hm & ?). split_and!; try done. intros [L1 L2]. change MaximumTableIndex with (2 ^ 27) in *.
  rewrite TableGrow_spec in HG by (done || lia). cbv zeta in HG. pose proof Hd as [Hd1 Hd2].
  destruct (_ || _) eqn:E; injection HG as <- _; [|split; [by split|lia]]. unfold within_limits. cbn.
  assert (Hz : zlen (replicate (Z.to_nat delta) ref) = delta) by (unfold zlen; rewrite length_replicate; lia).
  rewrite !zlen_app, Hz. apply orb_prop in E as [E|E].
  - apply Z.eqb_eq in E. subst delta. rewrite Z.add_0_r. split; [by split|lia].
  - apply andb_prop in E as [E1 E2]. apply Z.ltb_lt in E1. split; [split; [exact E1|]|lia].
    intros mx Hmx. rewrite Hmx in E2. by apply Z.leb_le in E2.
Qed.

(** ** Actions that write what they have read *)

(** From a heap that is known. *)
Definition from (w : world) {A} (c : X A) : Prop := forall s, heap (shared s) = w -> evolve s (fst (c s)).

Lemma from_within {A} (c : X A) : (forall w, from w c) -> within evolve c.
Proof. intros H s. by apply (H (heap (shared s))). Qed.

Section From.
Context (w : world).

(** An action that leaves the store as it is, and what is known of its result. *)
Lemma from_bind {A B} (c : X A) (k : A -> X B) (Q : A -> Prop) :
  (forall s, heap (shared s) = w -> shared (fst (c s)) = shared s /\ forall a, snd (c s) = Done a -> Q a) ->
  (forall a, Q a -> from w (k a)) -> from w (c ≫= k).
Proof.
  intros Hc Hk s Hs. destruct (Hc s Hs) as [E HQ]. unfold mbind, X_bind.
  destruct (c s) as [s1 [a|p|]]; cbn in *; [|unfold evolve; by rewrite E..].
  specialize (Hk a (HQ a eq_refl) s1). unfold evolve in *. rewrite <- E. apply Hk. by rewrite E.
Qed.
Lemma from_then {A B} (c : X A) (k : A -> X B) : from w c -> (forall a, within evolve (k a)) -> from w (c ≫= k).
Proof.
  intros Hc Hk s Hs. specialize (Hc s Hs). unfold mbind, X_bind. destruct (c s) as [s1 [a|p|]]; cbn in *; [|done..].
  etrans; [exact Hc|apply Hk].
Qed.
Lemma from_ret {A} (a : A) : from w (mret a).
Proof. intros s _. cbn. reflexivity. Qed.
Lemma from_raise {A} p : from w (raise (A := A) p).
Proof. intros s _. cbn. reflexivity. Qed.

Lemma from_lift {A B} (r : res A) (k : A -> X B) : (forall a, r = Ok a -> from w (k a)) -> from w (liftX r ≫= k).
Proof.
  intros Hk. apply (from_bind _ _ (fun a => r = Ok a)); [|done].
  intros s _. unfold liftX. destruct r; cbn; split; try done. by intros a' [= <-].
Qed.
Lemma from_popMasked {B} (k : Z -> X B) : (forall v, is_u32 v -> from w (k v)) -> from w (popMasked ≫= k).
Proof.
  intros Hk. apply (from_bind _ _ is_u32); [|done]. intros s _. unfold popMasked, popValue, mbind, X_bind.
  destruct (stack s) as [|z l]; split; try done. intros a [= <-].
  change maskUint32 with (Z.ones 32). rewrite Z.land_ones by lia. apply wrap32_range.
Qed.
Lemma from_popValue {B} (k : Z -> X B) : (forall v, from w (k v)) -> from w (popValue ≫= k).
Proof.
  intros Hk. apply (from_bind _ _ (fun _ => True)); [|by intros]. intros s _. unfold popValue. by destruct (stack s).
Qed.
Lemma from_instance {B} mi (k : ModuleInstance -> X B) :
  (forall i, instances w !! mi = Some i -> from w (k i)) -> from w (instanceX mi ≫= k).
Proof.
  intros Hk. apply (from_bind _ _ (fun i => instances w !! mi = Some i)); [|done].
  intros s <-. unfold instanceX, world_, readX, deref. destruct (_ !! mi) eqn:E; cbn; split; try done. by intros a [= <-].
Qed.
Lemma from_memory {B} mi (k : positive * MemoryInstance -> X B) :
  (forall p M, memories w !! p = Some M -> from w (k (p, M))) -> from w (memoryX mi ≫= k).
Proof.
  intros Hk. apply (from_bind _ _ (fun x => memories w !! x.1 = Some x.2)); [|intros [p M]; apply Hk].
  intros s <-. unfold memoryX, memoryPtr, instanceX, world_, readX, deref, mbind, X_bind, liftX, mret, X_ret.
  destruct (instances _ !! mi) as [i|]; cbn; [|by split]. destruct (InstanceMemory i) as [p|]; cbn; [|by split].
  destruct (memories _ !! p) as [M|] eqn:E; cbn; [|by split]. split; [done|]. by intros a [= <-].
Qed.
Lemma from_table {B} mi j (k : positive * TableInstance -> X B) :
  (forall p T, tables w !! p = Some T -> from w (k (p, T))) -> from w (tableX mi j ≫= k).
Proof.
  intros Hk. apply (from_bind _ _ (fun x => tables w !! x.1 = Some x.2)); [|intros [p T]; apply Hk].
  intros s <-. unfold tableX, instanceX, world_, readX, deref, mbind, X_bind, liftX, mret, X_ret.
  destruct (instances _ !! mi) as [i|]; cbn; [|by split]. destruct (zindex _ _) as [[p|]| |]; cbn; try by split.
  destruct (tables _ !! p) as [T|] eqn:E; cbn; [|by split]. split; [done|]. by intros a [= <-].
Qed.
Lemma from_global {B} mi j (k : positive * GlobalInstance -> X B) :
  (forall p g, globals w !! p = Some g -> from w (k (p, g))) -> from w (globalX mi j ≫= k).
Proof.
  intros Hk. apply (from_bind _ _ (fun x => globals w !! x.1 = Some x.2)); [|intros [p g]; apply Hk].
  intros s <-. unfold globalX, instanceX, world_, readX, deref, mbind, X_bind, liftX, mret, X_ret.
  destruct (instances _ !! mi) as [i|]; cbn; [|by split]. destruct (zindex _ _) as [[p|]| |]; cbn; try by split.
  destruct (globals _ !! p) as [g|] eqn:E; cbn; [|by split]. split; [done|]. by intros a [= <-].
Qed.

Lemma from_setMemory p M M' : memories w !! p = Some M -> memory_step M M' -> from w (setMemory p M').
Proof.
  intros HM Hs s <-. split; cbn; eauto using instance_step_refl, table_step_refl.
  intros q Q. by apply insert_step with M; [apply memory_step_refl|..].
Qed.
Lemma from_tables p T T' : tables w !! p = Some T -> table_step T T' -> from w (modifyHeap (set_tables (insert p T'))).
Proof.
  intros HT Hs s <-. split; cbn; eauto using instance_step_refl, memory_step_refl.
  intros q Q. by apply insert_step with T; [apply table_step_refl|..].
Qed.
Lemma from_globals p g g' : globals w !! p = Some g -> GlobalInstanceType g' = GlobalInstanceType g ->
  from w (modifyHeap (set_globals (insert p g'))).
Proof.
  intros Hg Hs s <-. split; cbn; eauto using instance_step_refl, memory_step_refl, table_step_refl.
  intros q Q. by apply (insert_step (fun g g' => GlobalInstanceType g' = GlobalInstanceType g)) with g.
Qed.
Lemma from_instances p i i' : instances w !! p = Some i -> instance_step i i' -> from w (modifyHeap (set_instances (insert p i'))).
Proof.
  intros Hi Hs s <-. split; cbn; eauto using memory_step_refl, table_step_refl.
  intros q Q. by apply insert_step with i; [apply instance_step_refl|..].
Qed.

End From.

(** Follows an action from a known heap; the caller finishes what is left. *)
Ltac from_step :=
  lazymatch goal with
  | |- from _ (liftX _ ≫= _) => apply from_lift; intros ? ?
  | |- from _ (popMasked ≫= _) => apply from_popMasked; intros ? ?
  | |- from _ (popValue ≫= _) => apply from_popValue; intros ?
  | |- from _ (instanceX _ ≫= _) => apply from_instance; intros ? ?
  | |- from _ (memoryX _ ≫= _) => apply from_memory; intros ? ? ?
  | |- from _ (tableX _ _ ≫= _) => apply from_table; intros ? ? ?
  | |- from _ (globalX _ _ ≫= _) => apply from_global; intros ? ? ?
  | |- from _ (mret _) => apply from_ret
  | |- from _ (raise _) => apply from_raise
  | |- from _ (trap _) => apply from_raise
  | |- from _ (match ?x with _ => _ end) => destruct x
  | |- from _ (let _ := _ in _) => cbv zeta
  end; cbn beta iota.
Ltac from_tac := apply from_within; intros w; repeat from_step.

Lemma evolve_same s s' : heap (shared s') = heap (shared s) -> engines (shared s') = engines (shared s) ->
  exceptions (shared s') = exceptions (shared s) -> evolve s s'.
Proof.
  intros E1 E2 E3. pose proof (reflexivity (R := evolves) (shared s)) as [F1 F2 F3 F4 F5 F6 F7 F8].
  by split; rewrite ?E1, ?E2, ?E3.
Qed.
(** An action that does not write what it has read. *)
Ltac evolve_tac := repeat within_step; try solve [reflexivity | repeat case_match; by apply evolve_same].

Section Writes.
Context (mi : positive).

Lemma evolve_writeMemory f : writes f -> within evolve (writeMemory mi f).
Proof.
  intros Hf. unfold writeMemory. from_tac. apply from_then; [by eapply from_setMemory; [|eapply Hf]|].
  intros ?. by evolve_tac.
Qed.
Lemma evolve_memoryGrow : within evolve (execMemoryGrow mi).
Proof.
  unfold execMemoryGrow. from_tac. apply from_then; [|intros ?; by evolve_tac].
  eapply from_setMemory; [done|]. eapply grow_step; [|done]. apply wrap32_range.
Qed.
Lemma evolve_memoryInit op : within evolve (execMemoryInit mi op).
Proof. unfold execMemoryInit. from_tac. eapply from_setMemory; [done|]. by eapply memory_step_buffer, copyAt_zlen. Qed.
Lemma evolve_memoryCopy : within evolve (execMemoryCopy mi).
Proof. unfold execMemoryCopy. from_tac. eapply from_setMemory; [done|]. by eapply memory_step_buffer, copyAt_zlen. Qed.
Lemma evolve_memoryFill : within evolve (execMemoryFill mi).
Proof. unfold execMemoryFill. from_tac. eapply from_setMemory; [done|]. by eapply memory_step_buffer, inRegion_zlen. Qed.
Lemma evolve_tableInit op : within evolve (execTableInit mi op).
Proof. unfold execTableInit, setTable. from_tac. eapply from_tables; [done|]. by eapply table_step_references, copyAt_zlen. Qed.
Lemma evolve_tableCopy op : within evolve (execTableCopy mi op).
Proof. unfold execTableCopy, setTable. from_tac. eapply from_tables; [done|]. by eapply table_step_references, copyAt_zlen. Qed.
Lemma evolve_tableFill op : within evolve (execTableFill mi op).
Proof. unfold execTableFill, setTable. from_tac. eapply from_tables; [done|]. by eapply table_step_references, inRegion_zlen. Qed.
Lemma evolve_tableSet op : within evolve (execTableSet mi op).
Proof. unfold execTableSet, setTable. from_tac. eapply from_tables; [done|]. by eapply table_step_references, zset_zlen. Qed.
Lemma evolve_tableGrow op : within evolve (execTableGrow mi op).
Proof.
  unfold execTableGrow. from_tac. apply from_then; [|intros ?; by evolve_tac].
  eapply from_tables; [done|]. eapply tableGrow_step; [|done]. apply wrap32_range.
Qed.
Lemma zset_dropped l j r : zset l j [] = Ok r -> Forall2 dropped l r.
Proof.
  unfold zset. destruct (_ && _); [|done]. intros [= <-]. apply Forall2_same_length_lookup_2.
  { by rewrite length_insert. }
  intros n x y Hx Hy. destruct (decide (n = Z.to_nat j)) as [->|Hne].
  - rewrite list_lookup_insert_eq in Hy by (by eapply lookup_lt_Some). injection Hy as <-. by right.
  - rewrite list_lookup_insert_ne in Hy by done. left. congruence.
Qed.
Lemma evolve_dataDrop op : within evolve (execDataDrop mi op).
Proof.
  unfold execDataDrop, updateInstanceX. from_tac. eapply from_instances; [done|].
  match goal with H : zset _ _ _ = Ok ?ds, H1 : instances w !! mi = Some ?i, H2 : instances w !! mi = Some ?i' |- _ =>
    assert (i' = i) as -> by congruence; exists ds, (ElementInstances i) end.
  split; [by eapply zset_dropped|]. split; [reflexivity|]. by destruct a.
Qed.
Lemma evolve_elemDrop op : within evolve (execElemDrop mi op).
Proof.
  unfold execElemDrop, updateInstanceX. from_tac. eapply from_instances; [done|].
  match goal with H : zset _ _ _ = Ok ?es, H1 : instances w !! mi = Some ?i, H2 : instances w !! mi = Some ?i' |- _ =>
    assert (i' = i) as -> by congruence; exists (DataInstances i), es end.
  split; [reflexivity|]. split; [by eapply zset_dropped|]. by destruct a.
Qed.
Lemma evolve_globalSet op : within evolve (execGlobalSet mi op).
Proof.
  unfold execGlobalSet. from_tac. apply (from_bind _ _ _ (fun _ => True)).
  { intros s _. destruct (_ =? _); [|by split]. unfold popValue. by destruct (stack s). }
  intros hi _. apply from_popValue. intros v. by eapply from_globals.
Qed.
Lemma evolve_atomicWrite n o v :
  within evolve ('(p, mem) ← memoryX mi; '(_, mem') ← liftX (writeN n mem o v); setMemory p mem').
Proof. from_tac. eapply from_setMemory; [done|]. by eapply writes_N. Qed.
Lemma evolve_rmw n o b v : within evolve (atomicRMWN mi n o b v).
Proof.
  unfold atomicRMWN. apply within_bind; [exact _|evolve_tac|]. intros _. apply within_bind; [exact _|evolve_tac|]. intros old.
  from_tac. apply from_then; [|intros ?; by evolve_tac]. eapply from_setMemory; [done|]. by eapply writes_N.
Qed.
Lemma evolve_cmpxchg n o e r : within evolve (atomicCmpxchgN mi n o e r).
Proof.
  unfold atomicCmpxchgN. apply within_bind; [exact _|evolve_tac|]. intros _. apply within_bind; [exact _|evolve_tac|]. intros old.
  apply within_bind; [exact _| |intros ?; by evolve_tac]. destruct (_ =? _); [apply evolve_atomicWrite|evolve_tac].
Qed.
Lemma evolve_throw `{P : Pointers} op : within evolve (execThrow mi op).
Proof.
  unfold execThrow. apply within_bind; [exact _|evolve_tac|]. intros i. apply within_bind; [exact _|evolve_tac|]. intros tag.
  apply within_bind; [exact _|evolve_tac|]. intros ft. apply within_bind; [exact _| |].
  { intros s. unfold evolve. assert (forall l acc s, shared (fst (popParams l acc s)) = shared s) as ->; [|reflexivity].
    clear. induction l as [|t l IH]; intros acc s; [done|]. cbn [popParams]. unfold mbind, X_bind, popValue.
    destruct (t =? _); destruct s as [[|v [|v' st]] fr sh]; cbn; try done; by rewrite IH. }
  intros params s. set (e := newPtr (exceptions (shared s))).
  set (s1 := set_shared (set_exceptions (insert e (mkException tag params)) (shared s)) s).
  change (evolve s (fst (throwException e s1))). assert (H : within evolve (throwException e)) by evolve_tac.
  etrans; [|apply H]. clear H.
  pose proof (reflexivity (R := evolves) (shared s)) as [E1 E2 E3 E4 E5 E6 E7 E8].
  split; cbn; [exact E1|exact E2|exact E3|exact E4|exact E5|exact E6|exact E7|].
  apply insert_subseteq, eq_None_not_Some. intros Hp%newPtr_fresh. lia.
Qed.
End Writes.
#[export] Hint Resolve evolve_memoryGrow evolve_memoryInit evolve_memoryCopy evolve_memoryFill evolve_tableInit evolve_tableCopy
  evolve_tableFill evolve_tableSet evolve_tableGrow evolve_dataDrop evolve_elemDrop evolve_globalSet evolve_rmw evolve_cmpxchg evolve_throw : within.
#[export] Hint Extern 1 (within evolve (writeMemory _ _)) =>
  apply evolve_writeMemory; first [apply writes_byte|apply writes_16|apply writes_32|apply writes_64|apply writes_N] : within.

(** ** Instructions and calls *)

Section Calls.
Context `{P : Pointers} `{N : NaNs}.
Context (hostCall : positive -> positive -> list Z -> store -> store * (list Z + panic)).
Context (newChannel : waitState -> Z) (park : positive -> Z -> X Z).
(** Host functions, and other threads while this one waits, do not destroy objects of the store. *)
Context (host_evolves : forall fn m params s, evolves s (fst (hostCall fn m params s))).
Context (park_evolves : forall p id, within evolve (park p id)).

Abbreviation execute := (Interp.execute newChannel park).
Abbreviation nativeLoop := (Interp.nativeLoop hostCall newChannel park).
Abbreviation callFunction := (Interp.callFunction hostCall).

Lemma evolve_popParams l acc : within evolve (popParams l acc).
Proof. revert acc. induction l as [|t l IH]; intros acc; cbn [popParams]; [evolve_tac|]. destruct (t =? _); evolve_tac; apply IH. Qed.
Lemma evolve_popValues n : within evolve (popValues n).
Proof.
  intros s. unfold popValues. cbn zeta.
  enough (H : within evolve (v ← liftX (sliceFrom (stack s) (zlen (stack s) - n)); l ← liftX (sliceTo (stack s) (zlen (stack s) - n));
    _ ← modifyX (set_stack l); mret (rev v))) by apply H.
  evolve_tac.
Qed.
Hint Resolve evolve_popParams evolve_popValues park_evolves : within.

Lemma evolve_unwind c : within evolve c -> within evolve (callWithUnwind c).
Proof.
  intros Hc. unfold callWithUnwind. apply within_bind; [exact _|evolve_tac|]. intros fr. destruct (_ =? 0); [evolve_tac; apply Hc|].
  intros s. specialize (Hc s). destruct (c s) as [s1 [a|[]|]]; cbn in Hc |- *; try exact Hc.
  etrans; [exact Hc|]. match goal with |- evolve s1 (fst (?x s1)) => enough (H : within evolve x) by apply H end. evolve_tac.
Qed.

Lemma evolve_values op : within evolve (execValues op).
Proof. by evolve_tac. Qed.
Hint Resolve evolve_values : within.

Lemma evolve_execute callee m mi op : (forall f, within evolve (callee f)) -> within evolve (execute callee m mi op).
Proof.
  intros Hc.
  assert (Hi : forall tf, within evolve (invoke callee tf)).
  { intros tf. apply within_bind; [exact _|by apply evolve_unwind|intros b; by evolve_tac]. }
  assert (Hr : forall tf, within evolve (returnTo callee mi tf op)).
  { intros tf. unfold returnTo. destruct (negb _); [|by evolve_tac].
    apply within_bind; [exact _|by apply evolve_unwind|intros b; by evolve_tac]. }
  unfold Interp.execute. destruct (OpKind op); try (by evolve_tac).
  all: unfold execCallIndirect, execReturnCallIndirect;
    repeat first [solve [eauto 2] | apply within_bind; [exact _|by evolve_tac|intros ?]].
Qed.
Lemma evolve_callFunction loop m f : (forall m mi, within evolve (loop m mi)) -> within evolve (callFunction loop m f).
Proof.
  intros Hl. assert (Hn : within evolve (callNativeFunc loop m f)).
  { unfold callNativeFunc. apply within_bind; [exact _|by evolve_tac|]. intros n. apply within_bind; [exact _| |by intros ?].
    intros s. unfold pushFrame. destruct (_ <=? _); by apply evolve_same. }
  unfold Interp.callFunction. destruct (hostFn _) as [fn|]; [|destruct (listener _); [|done]].
  - assert (Hg : forall slice, within evolve (callGoFunc hostCall fn m f slice)).
    { intros slice. unfold callGoFunc. apply within_bind; [exact _|by evolve_tac|]. intros _.
      apply within_bind; [exact _|by evolve_tac|]. intros n. apply within_bind; [exact _| |intros _].
      { intros s. unfold pushFrame. destruct (_ <=? _); by apply evolve_same. }
      apply within_bind; [exact _| |intros r].
      { intros s. unfold runHost. pose proof (host_evolves fn m slice (shared s)) as H. by destruct (hostCall _ _ _ _) as [sh [r|p]]. }
      apply within_bind; [exact _| |intros _; by evolve_tac]. intros s. unfold popFrame. destruct (frames s); by apply evolve_same. }
    unfold callGoFuncWithStack. evolve_tac; apply Hg.
  - unfold callNativeFuncWithListener. evolve_tac; apply Hn.
Qed.

Lemma evolve_nativeLoop n m mi : within evolve (nativeLoop n m mi).
Proof.
  revert m mi. induction n as [|n IH]; intros m mi; [intros s; cbn; reflexivity|].
  intros s. revert s. change (within evolve (frame ← topFrame; if framePC frame <? zlen (bodyOf frame) then
       op ← liftX (zindex (bodyOf frame) (framePC frame));
       _ ← execute (callFunction (nativeLoop n) mi) m mi op; nativeLoop n m mi
     else _ ← popFrame; mret tt)).
  apply within_bind; [exact _|by evolve_tac|]. intros fr. destruct (_ <? _).
  - apply within_bind; [exact _|by evolve_tac|]. intros op. apply within_bind; [exact _| |intros _; apply IH].
    apply evolve_execute. intros f. by apply evolve_callFunction.
  - apply within_bind; [exact _| |intros ?; by evolve_tac]. intros s. unfold popFrame. destruct (frames s); by apply evolve_same.
Qed.

Lemma evolve_runCall n f params s : evolve s (fst (runCall hostCall newChannel park n f params s)).
Proof.
  unfold runCall. assert (H : within evolve (callAndPop hostCall newChannel park n f params)).
  { unfold callAndPop. apply within_bind; [exact _|by evolve_tac|]. intros _. apply within_bind; [exact _| |intros _; apply evolve_popValues].
    apply evolve_callFunction, evolve_nativeLoop. }
  specialize (H s). destruct (callAndPop _ _ _ n f params s) as [s1 [a|p|]]; cbn in H |- *; [done| |done].
  etrans; [exact H|]. by apply evolve_same.
Qed.

Lemma evolve_Call n f ctxErr params s : evolve s (fst (Call hostCall newChannel park n f ctxErr params s)).
Proof.
  unfold Call, call. destruct (negb _); [cbn; reflexivity|]. destruct (exitCode _ _), ctxErr; try (cbn; reflexivity); [|apply evolve_runCall].
  destruct (compiledEnsureTermination _); [|apply evolve_runCall]. unfold closeWithCtxErr.
  destruct (setExitCode _ _ _ _); unfold evolve; cbn; [|by destruct (shared s) as [[] ? ? ? ? ?]].
  pose proof (reflexivity (R := evolves) (shared s)) as [F1 F2 F3 F4 F5 F6 F7 F8]. by split.
Qed.
End Calls.

(** ** Typed instances stay typed *)

(** The memory and the tables of an instance are within their limits. *)
Definition bounded (w : world) (i : ModuleInstance) : Prop :=
  (forall k t, zlookup (Tables i) k = Some (Some t) -> exists T, tables w !! t = Some T /\ within_limits T) /\
  (forall p, InstanceMemory i = Some p -> exists M n, memories w !! p = Some M /\ sized n M).
Lemma bounded_step s s' i i' : evolves s s' -> instance_step i i' -> bounded (heap s) i -> bounded (heap s') i'.
Proof.
  intros E (ds & es & _ & _ & ->) [Bt Bm]. split; cbn.
  - intros k t (T & HT & Hl)%Bt. destruct (ev_tables _ _ E t T HT) as (T' & HT' & (_ & _ & _ & _ & Hs)). exists T'. split; [done|]. by apply Hs.
  - intros p (M & n & HM & Hn)%Bm. destruct (ev_memories _ _ E p M HM) as (M' & HM' & (_ & _ & _ & Hs)).
    destruct (Hs n Hn) as (n' & _ & Hn'). by exists M', n'.
Qed.

Lemma tmatch_step td T T' : within_limits T -> table_step T T' -> tmatch td T -> tmatch td T'.
Proof.
  intros Hw (E1 & E2 & E3 & E4 & Hs) (H1 & H2 & H3). destruct (Hs Hw) as [_ Hl]. unfold tmatch. rewrite E1, E3. split_and!; [done|lia|done].
Qed.
Lemma sized_pages n M : sized n M -> memoryBytesNumToPages (zlen (Buffer M)) = n.
Proof.
  intros (Hb & Hx & Hl & _). rewrite Hb. pose proof (zlen_nonneg (Buffer M)). unfold MemoryLimitPages, MemoryPageSize in *.
  apply bytes_pages. lia.
Qed.
Lemma mmatch_step md M M' n : sized n M -> memory_step M M' -> mmatch md M -> mmatch md M'.
Proof.
  intros Hn (E1 & E2 & E3 & Hs) (H1 & H2 & H3). destruct (Hs n Hn) as (n' & Hle & Hn').
  rewrite (sized_pages n M) in H1 by done. split_and!; [rewrite (sized_pages n' M') by done; lia|congruence..].
Qed.

Lemma typed_step m d s s' i i' : evolves s s' -> bounded (heap s) i -> instance_step i i' ->
  typed m d (heap s) i -> typed m d (heap s') i'.
Proof.
  intros E [Bt Bm] (ds & es & _ & _ & ->) [H1 H2 H3 H4]. split; cbn.
  - intros k gt (g & G & ? & HG & ?)%H1. destruct (ev_globals _ _ E g G HG) as (G' & HG' & Et). exists g, G'. by rewrite Et.
  - intros k td (t & T & Hk & HT & ?)%H2. destruct (ev_tables _ _ E t T HT) as (T' & HT' & Hs). exists t, T'.
    split_and!; [done|done|]. destruct (Bt k t Hk) as (T0 & HT0 & Hw). simplify_eq. by eapply tmatch_step.
  - intros k tt (t & T & ? & HT & Hx)%H3. exists t, T. split; [done|]. split; [by eapply lookup_weaken; [|apply E]|].
    eapply xmatch_keeps, Hx. apply E.
  - intros md (p & M & Hp & HM & ?)%H4. destruct (ev_memories _ _ E p M HM) as (M' & HM' & Hs). exists p, M'.
    destruct (Bm p Hp) as (M0 & n & HM0 & Hn). simplify_eq. split_and!; [done|done|]. by eapply mmatch_step.
Qed.

(** C10: Guests cannot break the store.  However a call ends, with results, an
    error or out of fuel, every memory and table is still there, with the limits it
    had; one that was within them has only grown, and is within them still (for a memory:
    it has a whole number of pages, at most its maximum, which is at most 65536, and its
    allocator, if it has one, gives the sizes that it is asked for); globals keep their types,
    functions, modules and tags are unchanged, and instances lose at most the
    contents of segments that were dropped.  So an instance that has what its module
    declares, within the limits, still has it, within the limits and with the same
    exports, after any call of any function.  Host functions and other threads are
    assumed to keep to the same. *)
Theorem guests_preserve_typing `{P : Pointers} `{N : NaNs} hostCall newChannel park fuel f ctxErr params s :
  (forall fn m slice st, evolves st (fst (hostCall fn m slice st))) ->
  (forall p id s, evolves (shared s) (shared (fst (park p id s)))) ->
  let s' := fst (Call hostCall newChannel park fuel f ctxErr params s) in
  evolves (shared s) (shared s') /\
  forall p i m d, instances (heap (shared s)) !! p = Some i -> bounded (heap (shared s)) i -> typed m d (heap (shared s)) i ->
    exists i', instances (heap (shared s')) !! p = Some i' /\ InstanceExports i' = InstanceExports i /\
      bounded (heap (shared s')) i' /\ typed m d (heap (shared s')) i'.
Proof.
  intros Hh Hp s'. pose proof (evolve_Call hostCall newChannel park Hh Hp fuel f ctxErr params s) as E. fold s' in E. split; [exact E|].
  intros p i m d Hi Hb Ht. destruct (ev_instances _ _ E p i Hi) as (i' & Hi' & Hs). exists i'.
  split_and!; [done|by destruct Hs as (ds & es & _ & _ & ->)|by eapply bounded_step|by eapply typed_step].
Qed.

(** A memory without pages that may have two, and a function that grows and fills it. *)
Definition growing : list Z :=
  [0; 97; 115; 109; 1; 0; 0; 0] ++ [1; 4; 1; 0x60; 0; 0] ++ [3; 2; 1; 0] ++ [5; 4; 1; 1; 0; 2]
  ++ [10; 21; 1; 19; 0] ++ [OpcodeI32Const; 1; OpcodeMemoryGrow; 0; OpcodeDrop]
  ++ [OpcodeI32Const; 0; OpcodeI32Const; 7; OpcodeI32Const; 9; OpcodeMiscPrefix; OpcodeMiscMemoryFill; 0]
  ++ [OpcodeI32Const; 1; OpcodeDrop; OpcodeEnd].

Definition guestOf (binary : list Z) (i : Z) : function * machine :=
  default (mkFunction (mkFunctionType [] [] 0 0 0 0) 1 0 (mkCompiledFunction (mkLowered [] [] []) None None 0 false 0),
           mkMachine [] [] emptyState) (guestFunction (binary) i).
Definition oneMemory : declarations := mkDeclarations [] [] (Some (mkMemory 0 0 2 true false)) [] [].

Lemma guests_preserve_typing_witness (s := (guestOf growing 0).2)
    (s' := fst (Call (P := namedPointers) (N := canonicalNaNs) noHost noChannel noPark 100 (guestOf growing 0).1 None [] s)) :
  exists i i', instances (heap (shared s)) !! xH = Some i /\ typed emptyModule oneMemory (heap (shared s)) i /\
    instances (heap (shared s')) !! xH = Some i' /\ InstanceExports i' = InstanceExports i /\ typed emptyModule oneMemory (heap (shared s')) i'.
Proof.
  assert (Hi : exists i, instances (heap (shared s)) !! xH = Some i) by (vm_compute; eauto). destruct Hi as [i Hi].
  assert (Hm : InstanceMemory i = Some xH /\ Tables i = []) by (revert Hi; vm_compute; by intros [= <-]). destruct Hm as [Hm Htab].
  assert (Hn : forall A k (a : A), zlookup [] k = Some a -> False) by (clear; intros A k a; unfold zlookup; by case_match).
  assert (HM : memories (heap (shared s)) !! xH = Some (mkMemoryInstance [] 0 0 0 2 false None)) by (vm_compute; reflexivity).
  assert (Hb : bounded (heap (shared s)) i).
  { split; [rewrite Htab; intros k t Hk; exfalso; exact (Hn _ _ _ Hk)|]. intros p Hp. exists (mkMemoryInstance [] 0 0 0 2 false None), 0.
    split; [congruence|]. clear. split_and!; [reflexivity|by vm_compute|by vm_compute|]. intros e He. discriminate He. }
  assert (Ht : typed emptyModule oneMemory (heap (shared s)) i).
  { split; [intros k a Hk; exfalso; exact (Hn _ _ _ Hk)..|]. intros md E. injection E as <-. exists xH, (mkMemoryInstance [] 0 0 0 2 false None). split; [exact Hm|].
    split; [exact HM|]. clear. split_and!; by vm_compute. }
  destruct (guests_preserve_typing (P := namedPointers) (N := canonicalNaNs) noHost noChannel noPark 100 (guestOf growing 0).1 None [] s)
    as [_ H]; [intros; unfold noHost; cbn [fst]; reflexivity|intros; cbn; reflexivity|].
  destruct (H xH i emptyModule oneMemory Hi Hb Ht) as (i' & H1 & H2 & _ & H3). exists i, i'. exact (conj Hi (conj Ht (conj H1 (conj H2 H3)))).
Defined.
