(* ===== verification/NumericSpec.v ===== *)
(** * Integer instructions, from opcode to result

    A reference for the integer instructions of Wasm in the terms of its
    specification: words are numbers modulo [2^n] or lists of bits, shifts and
    rotations move bits, counts count them.  The operation that the
    interpreter's compiler emits for an opcode computes, when it is executed,
    what the reference says, traps included; slots of the stack have 64 bits, of
    which an i32 takes the lower half. *)

From S2P Require Import Prelude Leb128 Features Opcodes Types ValStack Validate Signature ConstExpr TypeIDs ModuleClose Execution ModuleList.
From S2P Require Import Memory Waiters Binary ModuleValidate Operations Compiler Lower GoFloat Numeric Vector Instantiate Machine Interp.
From S2P Require Import InterpMem.

(** ** Bits *)

(** The least significant bit first. *)
Fixpoint bitsOf (n : nat) (x : Z) : list bool :=
  match n with O => [] | S n' => Z.odd x :: bitsOf n' (Z.div2 x) end.
Fixpoint ofBits (l : list bool) : Z := match l with [] => 0 | b :: l' => Z.b2z b + 2 * ofBits l' end.
(** The number of [false] before the first [true]. *)
Fixpoint falses (l : list bool) : Z := match l with [] => 0 | b :: l' => if b then 0 else 1 + falses l' end.
Fixpoint trues (l : list bool) : Z := match l with [] => 0 | b :: l' => Z.b2z b + trues l' end.

Lemma length_bitsOf n x : length (bitsOf n x) = n.
Proof. revert x. induction n as [|n IH]; intros x; [done|]. cbn. by rewrite IH. Qed.
Lemma testbit_div2 x j : 0 <= j -> Z.testbit (Z.div2 x) j = Z.testbit x (j + 1).
Proof. intros Hj. by rewrite Z.div2_spec, Z.shiftr_spec. Qed.
Lemma lookup_bitsOf n x j : (j < n)%nat -> bitsOf n x !! j = Some (Z.testbit x (Z.of_nat j)).
Proof.
  revert x j. induction n as [|n IH]; intros x j Hj; [lia|]. destruct j as [|j]; cbn [bitsOf lookup list_lookup].
  - by rewrite Z.bit0_odd.
  - change (bitsOf n (Z.div2 x) !! j = Some (Z.testbit x (Z.of_nat (S j)))). rewrite IH by lia. rewrite testbit_div2 by lia. do 2 f_equal. lia.
Qed.
Lemma ofBits_nonneg l : 0 <= ofBits l.
Proof. induction l as [|b l IH]; cbn; [lia|]. destruct b; cbn; lia. Qed.
Lemma testbit_ofBits l j : Z.testbit (ofBits l) (Z.of_nat j) = default false (l !! j).
Proof.
  revert j. induction l as [|b l IH]; intros j; cbn [ofBits]; [by rewrite Z.bits_0, lookup_nil|].
  destruct j as [|j].
  - cbn [lookup list_lookup default from_option id Z.of_nat]. rewrite Z.add_comm. apply Z.testbit_0_r.
  - rewrite Nat2Z.inj_succ, Z.add_comm, Z.testbit_succ_r by lia. apply IH.
Qed.
(** Equality of numbers, bit by bit. *)
Lemma ofBits_eq l z : 0 <= z -> (forall j, Z.testbit z (Z.of_nat j) = default false (l !! j)) -> ofBits l = z.
Proof.
  intros Hz H. apply Z.bits_inj'. intros n Hn. replace n with (Z.of_nat (Z.to_nat n)) by lia. by rewrite testbit_ofBits, H.
Qed.
Lemma ofBits_bitsOf n x : ofBits (bitsOf n x) = x mod 2 ^ Z.of_nat n.
Proof.
  apply ofBits_eq; [apply Z.mod_pos_bound; lia|]. intros j. destruct (decide (j < n)%nat) as [Hj|Hj].
  - rewrite lookup_bitsOf by done. cbn. apply Z.mod_pow2_bits_low. lia.
  - rewrite lookup_ge_None_2 by (rewrite length_bitsOf; lia). apply Z.mod_pow2_bits_high. lia.
Qed.

(** ** The reference *)

Section Reference.
(** Words of [n] bits. *)
Context (n : nat).
Abbreviation N := (Z.of_nat n).
Abbreviation bits := (bitsOf n).

Definition signed (a : Z) : Z := if a <? 2 ^ (N - 1) then a else a - 2 ^ N.
Definition unsigned (a : Z) : Z := a mod 2 ^ N.
Definition amount (b : Z) : nat := Z.to_nat (b mod N).

Definition iclz (a : Z) : Z := falses (rev (bits a)).
Definition ictz (a : Z) : Z := falses (bits a).
Definition ipopcnt (a : Z) : Z := trues (bits a).
Definition ieqz (a : Z) : Z := Z.b2z (a =? 0).
(** The lower [m] bits, the last of them repeated. *)
Definition iextend (m : nat) (a : Z) : Z := ofBits (bitsOf m a ++ replicate (n - m) (Z.testbit a (Z.of_nat m - 1))).

Definition iadd (a b : Z) : res Z := Ok ((a + b) mod 2 ^ N).
Definition isub (a b : Z) : res Z := Ok ((a - b) mod 2 ^ N).
Definition imul (a b : Z) : res Z := Ok ((a * b) mod 2 ^ N).
Definition idiv_u (a b : Z) : res Z := if b =? 0 then Err ErrRuntimeIntegerDivideByZero else Ok (a / b).
Definition irem_u (a b : Z) : res Z := if b =? 0 then Err ErrRuntimeIntegerDivideByZero else Ok (a - b * (a / b)).
Definition idiv_s (a b : Z) : res Z :=
  if b =? 0 then Err ErrRuntimeIntegerDivideByZero
  else let q := Z.quot (signed a) (signed b) in
       if q =? 2 ^ (N - 1) then Err ErrRuntimeIntegerOverflow else Ok (unsigned q).
Definition irem_s (a b : Z) : res Z :=
  if b =? 0 then Err ErrRuntimeIntegerDivideByZero
  else Ok (unsigned (signed a - signed b * Z.quot (signed a) (signed b))).
Definition bitwise (f : bool -> bool -> bool) (a b : Z) : res Z := Ok (ofBits (zip_with f (bits a) (bits b))).
Definition ishl (a b : Z) : res Z := let k := amount b in Ok (ofBits (replicate k false ++ take (n - k) (bits a))).
Definition ishr_u (a b : Z) : res Z := let k := amount b in Ok (ofBits (drop k (bits a) ++ replicate k false)).
Definition ishr_s (a b : Z) : res Z := let k := amount b in Ok (ofBits (drop k (bits a) ++ replicate k (Z.testbit a (N - 1)))).
Definition irotl (a b : Z) : res Z := let k := amount b in Ok (ofBits (drop (n - k) (bits a) ++ take (n - k) (bits a))).
Definition irotr (a b : Z) : res Z := let k := amount b in Ok (ofBits (drop k (bits a) ++ take k (bits a))).
Definition irel (r : Z -> Z -> bool) (a b : Z) : res Z := Ok (Z.b2z (r a b)).
Definition irel_s (r : Z -> Z -> bool) (a b : Z) : res Z := Ok (Z.b2z (r (signed a) (signed b))).
End Reference.

(** ** Lists of bits as numbers *)

Lemma ofBits_app l l' : ofBits (l ++ l') = ofBits l + 2 ^ Z.of_nat (length l) * ofBits l'.
Proof.
  induction l as [|b l IH]; [cbn [app ofBits length Z.of_nat]; lia|].
  cbn [app ofBits length]. rewrite IH, Nat2Z.inj_succ, Z.pow_succ_r by lia. lia.
Qed.
Lemma ofBits_replicate k b : ofBits (replicate k b) = if b then 2 ^ Z.of_nat k - 1 else 0.
Proof.
  induction k as [|k IH]; [by destruct b|]. cbn [replicate ofBits]. rewrite IH, Nat2Z.inj_succ, Z.pow_succ_r by lia.
  destruct b; cbn [Z.b2z]; lia.
Qed.
Lemma take_bitsOf k n x : (k <= n)%nat -> take k (bitsOf n x) = bitsOf k x.
Proof.
  revert n x. induction k as [|k IH]; intros n x Hk; [done|]. destruct n as [|n]; [lia|]. cbn. by rewrite IH by lia.
Qed.
Lemma drop_bitsOf k n x : (k <= n)%nat -> drop k (bitsOf n x) = bitsOf (n - k) (x / 2 ^ Z.of_nat k).
Proof.
  revert n x. induction k as [|k IH]; intros n x Hk; [by rewrite Nat.sub_0_r, Z.div_1_r|].
  destruct n as [|n]; [lia|]. cbn [bitsOf drop]. rewrite IH by lia. f_equal.
  rewrite Z.div2_div, Z.div_div by lia. f_equal. rewrite Nat2Z.inj_succ, Z.pow_succ_r by lia. done.
Qed.

Lemma div2_range n x : 0 <= x < 2 ^ Z.of_nat (S n) -> 0 <= Z.div2 x < 2 ^ Z.of_nat n.
Proof. rewrite Nat2Z.inj_succ, Z.pow_succ_r by lia. intros H. rewrite Z.div2_div. split; [apply Z.div_pos; lia|apply Z.div_lt_upper_bound; lia]. Qed.

(** *** Counts *)

Lemma ctz_spec n x : countTrailing n x = falses (bitsOf n x).
Proof. revert x. induction n as [|n IH]; intros x; [done|]. cbn. destruct (Z.odd x); [done|]. by rewrite IH. Qed.
Lemma popcnt_spec n x : countOnes n x = trues (bitsOf n x).
Proof. revert x. induction n as [|n IH]; intros x; [done|]. cbn. by rewrite IH. Qed.

Lemma falses_app l l' : falses (l ++ l') = if existsb id l then falses l else Z.of_nat (length l) + falses l'.
Proof.
  induction l as [|b l IH]; [cbn; lia|]. destruct b; [done|]. cbn [app falses existsb id orb length]. rewrite IH.
  destruct (existsb id l); lia.
Qed.
Lemma existsb_rev l : existsb id (rev l) = existsb id l.
Proof. induction l as [|b l IH]; [done|]. cbn. rewrite existsb_app, IH. cbn. by rewrite orb_false_r, orb_comm. Qed.
Lemma bits_zero n x : 0 <= x < 2 ^ Z.of_nat n -> existsb id (bitsOf n x) = negb (x =? 0).
Proof.
  revert x. induction n as [|n IH]; intros x Hx; [cbn in *; by replace x with 0 by lia|].
  cbn [bitsOf existsb id]. rewrite IH by by apply div2_range. rewrite (Zdiv2_odd_eqn x) at 3.
  destruct (Z.odd x); cbn [orb]; [destruct (Z.eqb_spec (2 * Z.div2 x + 1) 0); lia|].
  destruct (Z.eqb_spec (Z.div2 x) 0), (Z.eqb_spec (2 * Z.div2 x + 0) 0); lia || done.
Qed.
Lemma log2_div2 x : 2 <= x -> Z.log2 x = 1 + Z.log2 (Z.div2 x).
Proof.
  intros Hx. assert (0 < Z.div2 x) by (rewrite Z.div2_div; apply Z.div_str_pos; lia).
  rewrite (Zdiv2_odd_eqn x) at 1. destruct (Z.odd x); [rewrite Z.log2_succ_double by lia|rewrite Z.add_0_r, Z.log2_double by lia]; lia.
Qed.
Lemma clz_spec n x : 0 <= x < 2 ^ Z.of_nat n -> LeadingZeros (Z.of_nat n) x = falses (rev (bitsOf n x)).
Proof.
  revert x. induction n as [|n IH]; intros x Hx; [cbn in *; by replace x with 0 by lia|].
  pose proof (div2_range n x Hx) as Hd. cbn [bitsOf rev]. rewrite falses_app, existsb_rev, bits_zero, length_rev, length_bitsOf, <- IH by done.
  unfold LeadingZeros. destruct (Z.eqb_spec x 0) as [->|Hx0]; [cbn; lia|].
  destruct (Z.eqb_spec (Z.div2 x) 0) as [E|E]; cbn [negb].
  - assert (x = 1) as -> by (pose proof (Zdiv2_odd_eqn x); destruct (Z.odd x); lia). cbn [falses Z.odd Z.log2]. lia.
  - rewrite (log2_div2 x); [lia|]. pose proof (Zdiv2_odd_eqn x). destruct (Z.odd x); lia.
Qed.

(** *** Shifts, rotations, extensions *)

Section Shifts.
Context (n : nat) (Hn : (0 < n)%nat).
Abbreviation N := (Z.of_nat n).

Lemma amount_lt b : (amount n b < n)%nat.
Proof using Hn. unfold amount. pose proof (Z.mod_pos_bound b N). lia. Qed.
Lemma amount_Z b : Z.of_nat (amount n b) = b mod N.
Proof using Hn. unfold amount. pose proof (Z.mod_pos_bound b N). lia. Qed.

Lemma pow_split k : (k <= n)%nat -> 2 ^ N = 2 ^ Z.of_nat k * 2 ^ Z.of_nat (n - k).
Proof. intros Hk. rewrite <- Z.pow_add_r by lia. f_equal. lia. Qed.

(** The upper part of a word, and the lower part. *)
Lemma bits_high a k : 0 <= a < 2 ^ N -> (k <= n)%nat -> ofBits (drop k (bitsOf n a)) = a / 2 ^ Z.of_nat k.
Proof.
  intros Ha Hk. rewrite drop_bitsOf, ofBits_bitsOf by done. apply Z.mod_small. rewrite (pow_split k) in Ha by done.
  split; [apply Z.div_pos; lia|]. apply Z.div_lt_upper_bound; lia.
Qed.
Lemma bits_low a k : (k <= n)%nat -> ofBits (take k (bitsOf n a)) = a mod 2 ^ Z.of_nat k.
Proof. intros Hk. by rewrite take_bitsOf, ofBits_bitsOf. Qed.

Lemma shl_spec a b : 0 <= a < 2 ^ N -> Ok (Z.shiftl a (b mod N) mod 2 ^ N) = ishl n a b.
Proof using Hn.
  intros Ha. unfold ishl. pose proof (amount_lt b) as Hk. rewrite <- amount_Z. set (k := amount n b) in *. f_equal.
  rewrite ofBits_app, ofBits_replicate, length_replicate, bits_low by lia. rewrite Z.shiftl_mul_pow2 by lia.
  rewrite (pow_split k) by lia. rewrite Z.mul_comm, Z.mul_mod_distr_l by lia. lia.
Qed.
Lemma shr_u_spec a b : 0 <= a < 2 ^ N -> Ok (Z.shiftr a (b mod N)) = ishr_u n a b.
Proof using Hn.
  intros Ha. unfold ishr_u. pose proof (amount_lt b) as Hk. rewrite <- amount_Z. set (k := amount n b) in *. f_equal.
  rewrite ofBits_app, ofBits_replicate, bits_high by lia. rewrite Z.shiftr_div_pow2 by lia. lia.
Qed.

Lemma top_bit m a : (0 < m)%nat -> 0 <= a < 2 ^ Z.of_nat m -> Z.testbit a (Z.of_nat m - 1) = negb (a <? 2 ^ (Z.of_nat m - 1)).
Proof.
  intros Hm Ha. rewrite Z.testbit_odd, Z.shiftr_div_pow2 by lia.
  assert (2 ^ Z.of_nat m = 2 * 2 ^ (Z.of_nat m - 1)) as E by (rewrite <- Z.pow_succ_r by lia; f_equal; lia).
  destruct (Z.ltb_spec a (2 ^ (Z.of_nat m - 1))); cbn [negb].
  - by rewrite Z.div_small by lia.
  - replace (a / 2 ^ (Z.of_nat m - 1)) with 1; [done|]. apply (Z.div_unique _ _ _ (a - 2 ^ (Z.of_nat m - 1))); lia.
Qed.
Lemma signed_sgn a : 0 <= a < 2 ^ N -> sgn N a = signed n a.
Proof using Hn. intros Ha. unfold signed. by rewrite sgn_spec by lia. Qed.

Lemma shr_s_spec a b : 0 <= a < 2 ^ N -> Ok (Z.shiftr (sgn N a) (b mod N) mod 2 ^ N) = ishr_s n a b.
Proof using Hn.
  intros Ha. unfold ishr_s. pose proof (amount_lt b) as Hk. rewrite <- amount_Z. set (k := amount n b) in *. f_equal.
  rewrite ofBits_app, ofBits_replicate, bits_high, length_drop, length_bitsOf, top_bit by lia.
  rewrite Z.shiftr_div_pow2, sgn_spec by lia. pose proof (pow_split k ltac:(lia)) as E.
  assert (0 <= a / 2 ^ Z.of_nat k < 2 ^ Z.of_nat (n - k)).
  { split; [apply Z.div_pos; lia|]. apply Z.div_lt_upper_bound; lia. }
  assert (2 ^ Z.of_nat (n - k) <= 2 ^ N) by (apply Z.pow_le_mono_r; lia).
  destruct (a <? 2 ^ (N - 1)); cbn [negb]; [rewrite Z.mod_small; lia|].
  replace (a - 2 ^ N) with (a + - 2 ^ Z.of_nat (n - k) * 2 ^ Z.of_nat k) by (rewrite E; lia).
  rewrite Z.div_add by lia. symmetry. apply (Z.mod_unique_pos _ _ (-1)); lia.
Qed.

Lemma rotate_spec a k : 0 <= a < 2 ^ N -> (k <= n)%nat ->
  Z.lor (Z.shiftl a (Z.of_nat k) mod 2 ^ N) (Z.shiftr a (Z.of_nat (n - k))) = ofBits (drop (n - k) (bitsOf n a) ++ take (n - k) (bitsOf n a)).
Proof.
  intros Ha Hk. rewrite ofBits_app, length_drop, length_bitsOf, bits_high, bits_low by lia.
  replace (n - (n - k))%nat with k by lia. rewrite Z.shiftl_mul_pow2, Z.shiftr_div_pow2 by lia.
  rewrite (pow_split k) by lia. rewrite (Z.mul_comm a), Z.mul_mod_distr_l, Z.lor_comm, (Z.mul_comm (2 ^ _)) by lia.
  rewrite <- Z.shiftl_mul_pow2 by lia. rewrite lor_shiftl_add; [|lia|]; [by rewrite Z.shiftl_mul_pow2 by lia|].
  rewrite (pow_split k) in Ha by lia. split; [apply Z.div_pos; lia|]. apply Z.div_lt_upper_bound; lia.
Qed.
Lemma rotl_spec a b : 0 <= a < 2 ^ N -> Ok (RotateLeft N a b) = irotl n a b.
Proof using Hn.
  intros Ha. unfold irotl, RotateLeft. pose proof (amount_lt b) as Hk. rewrite <- amount_Z. set (k := amount n b) in *. f_equal.
  rewrite <- rotate_spec by lia. do 2 f_equal. lia.
Qed.
Lemma rotr_spec a b : 0 <= a < 2 ^ N -> Ok (RotateLeft N a (- b)) = irotr n a b.
Proof using Hn.
  intros Ha. unfold irotr, RotateLeft. pose proof (amount_lt b) as Hk. f_equal.
  destruct (decide (b mod N = 0)) as [E|E].
  - rewrite Z.mod_opp_l_z by (done || lia). unfold amount. rewrite E, Z.sub_0_r, Z.shiftl_0_r, Z.mod_small by done.
    change (Z.to_nat 0) with 0%nat. rewrite drop_0, take_0, app_nil_r, ofBits_bitsOf, Z.mod_small, Z.shiftr_div_pow2, Z.div_small, Z.lor_0_r by lia. done.
  - rewrite Z.mod_opp_l_nz by (done || lia). pose proof (amount_Z b) as Ek. set (k := amount n b) in *. rewrite <- Ek.
    replace (N - Z.of_nat k) with (Z.of_nat (n - k)) by lia. replace (N - Z.of_nat (n - k)) with (Z.of_nat (n - (n - k))) by lia.
    rewrite rotate_spec by lia. by replace (n - (n - k))%nat with k by lia.
Qed.

Lemma extend_spec m a : (0 < m <= n)%nat -> sgn (Z.of_nat m) a mod 2 ^ N = iextend n m a.
Proof.
  intros Hm. unfold iextend. rewrite ofBits_app, ofBits_bitsOf, ofBits_replicate, length_bitsOf.
  pose proof (Z.mod_pos_bound a (2 ^ Z.of_nat m) ltac:(lia)) as Hr.
  assert (Z.testbit a (Z.of_nat m - 1) = negb (a mod 2 ^ Z.of_nat m <? 2 ^ (Z.of_nat m - 1))) as ->.
  { rewrite <- (top_bit m) by lia. by rewrite Z.mod_pow2_bits_low by lia. }
  rewrite (sgn_mod _ a (a mod 2 ^ Z.of_nat m)) by (try lia; by rewrite Z.mod_mod by lia). rewrite sgn_spec by lia.
  pose proof (pow_split m ltac:(lia)) as E. assert (2 ^ Z.of_nat m <= 2 ^ N) by (apply Z.pow_le_mono_r; lia).
  destruct (_ <? _); cbn [negb]; [rewrite Z.mod_small; lia|]. symmetry. apply (Z.mod_unique_pos _ _ (-1)); [nia|lia].
Qed.

Lemma bitwise_spec (f : bool -> bool -> bool) (g : Z -> Z -> Z) a b : 0 <= a < 2 ^ N -> 0 <= b < 2 ^ N ->
  (forall x y j, 0 <= j -> Z.testbit (g x y) j = f (Z.testbit x j) (Z.testbit y j)) -> f false false = false -> 0 <= g a b ->
  Ok (g a b) = bitwise n f a b.
Proof.
  intros Ha Hb Hg Hf Hp. unfold bitwise. f_equal. symmetry. apply ofBits_eq; [done|]. intros j. rewrite Hg by lia.
  destruct (decide (j < n)%nat) as [Hj|Hj].
  - by rewrite lookup_zip_with, !lookup_bitsOf by done.
  - rewrite lookup_ge_None_2 by (rewrite length_zip_with, !length_bitsOf; lia).
    assert (H0 : forall x, 0 <= x < 2 ^ N -> Z.testbit x (Z.of_nat j) = false).
    { intros x Hx. rewrite <- (Z.mod_small x (2 ^ N)) by done. apply Z.mod_pow2_bits_high. lia. }
    by rewrite !H0.
Qed.

(** *** Division *)

Lemma signed_range a : 0 <= a < 2 ^ N -> - 2 ^ (N - 1) <= signed n a < 2 ^ (N - 1).
Proof using Hn. intros Ha. rewrite <- signed_sgn by done. apply sgn_range. lia. Qed.
Lemma signed_zero a : 0 <= a < 2 ^ N -> (signed n a = 0 <-> a = 0).
Proof using Hn.
  intros Ha. unfold signed. assert (0 < 2 ^ (N - 1)) by lia. destruct (Z.ltb_spec a (2 ^ (N - 1))); lia.
Qed.
End Shifts.

(** The only quotient that overflows. *)
Lemma quot_overflow M x d : - M <= x < M -> d <> 0 -> (Z.quot x d =? M) = (x =? - M) && (d =? -1).
Proof.
  intros Hx Hd. destruct (Z.eqb_spec x (- M)) as [->|Hxm]; cbn [andb].
  - destruct (Z.eqb_spec d (-1)) as [->|Hd1].
    + replace (Z.quot (- M) (-1)) with M; [apply Z.eqb_refl|]. rewrite Z.quot_opp_l by lia.
      change (-1) with (- (1)). rewrite Z.quot_opp_r, Z.quot_1_r by lia. lia.
    + apply Z.eqb_neq. intros E. pose proof (Z.quot_rem' (- M) d) as Q. pose proof (Z.rem_bound_abs (- M) d Hd).
      pose proof (Z.rem_nonpos (- M) d Hd ltac:(lia)). rewrite E in Q. destruct (Z.lt_ge_cases 0 d); nia.
  - apply Z.eqb_neq. intros E. pose proof (Z.quot_rem' x d) as Q. pose proof (Z.rem_bound_abs x d Hd). rewrite E in Q.
    destruct (Z.le_gt_cases 0 x); [pose proof (Z.rem_nonneg x d Hd ltac:(lia))|pose proof (Z.rem_nonpos x d Hd ltac:(lia))];
      destruct (Z.lt_ge_cases 0 d); nia.
Qed.

(** ** The instructions *)

(** Of operands of [n] bits: the result, or the trap. *)
Inductive instruction :=
| Unary (n : nat) (f : Z -> Z)
| Binary (n : nat) (f : Z -> Z -> res Z).

Definition comparisons (n : nat) : list instruction :=
  [Unary n ieqz; Binary n (irel Z.eqb); Binary n (irel (fun a b => negb (a =? b)));
   Binary n (irel_s n Z.ltb); Binary n (irel Z.ltb); Binary n (irel_s n (fun a b => b <? a)); Binary n (irel (fun a b => b <? a));
   Binary n (irel_s n Z.leb); Binary n (irel Z.leb); Binary n (irel_s n (fun a b => b <=? a)); Binary n (irel (fun a b => b <=? a))].
Definition arithmetic (n : nat) : list instruction :=
  [Unary n (iclz n); Unary n (ictz n); Unary n (ipopcnt n);
   Binary n (iadd n); Binary n (isub n); Binary n (imul n); Binary n (idiv_s n); Binary n idiv_u; Binary n (irem_s n); Binary n irem_u;
   Binary n (bitwise n andb); Binary n (bitwise n orb); Binary n (bitwise n xorb);
   Binary n (ishl n); Binary n (ishr_s n); Binary n (ishr_u n); Binary n (irotl n); Binary n (irotr n)].

Definition integerInstructions : list (Z * instruction) :=
  zip [OpcodeI32Eqz; OpcodeI32Eq; OpcodeI32Ne; OpcodeI32LtS; OpcodeI32LtU; OpcodeI32GtS; OpcodeI32GtU; OpcodeI32LeS; OpcodeI32LeU;
       OpcodeI32GeS; OpcodeI32GeU] (comparisons 32)
  ++ zip [OpcodeI64Eqz; OpcodeI64Eq; OpcodeI64Ne; OpcodeI64LtS; OpcodeI64LtU; OpcodeI64GtS; OpcodeI64GtU; OpcodeI64LeS; OpcodeI64LeU;
          OpcodeI64GeS; OpcodeI64GeU] (comparisons 64)
  ++ zip [OpcodeI32Clz; OpcodeI32Ctz; OpcodeI32Popcnt; OpcodeI32Add; OpcodeI32Sub; OpcodeI32Mul; OpcodeI32DivS; OpcodeI32DivU;
          OpcodeI32RemS; OpcodeI32RemU; OpcodeI32And; OpcodeI32Or; OpcodeI32Xor; OpcodeI32Shl; OpcodeI32ShrS; OpcodeI32ShrU;
          OpcodeI32Rotl; OpcodeI32Rotr] (arithmetic 32)
  ++ zip [OpcodeI64Clz; OpcodeI64Ctz; OpcodeI64Popcnt; OpcodeI64Add; OpcodeI64Sub; OpcodeI64Mul; OpcodeI64DivS; OpcodeI64DivU;
          OpcodeI64RemS; OpcodeI64RemU; OpcodeI64And; OpcodeI64Or; OpcodeI64Xor; OpcodeI64Shl; OpcodeI64ShrS; OpcodeI64ShrU;
          OpcodeI64Rotl; OpcodeI64Rotr] (arithmetic 64)
  ++ [(OpcodeI32WrapI64, Unary 64 (unsigned 32)); (OpcodeI64ExtendI32S, Unary 32 (iextend 64 32)); (OpcodeI64ExtendI32U, Unary 32 (unsigned 64));
      (OpcodeI32Extend8S, Unary 32 (iextend 32 8)); (OpcodeI32Extend16S, Unary 32 (iextend 32 16));
      (OpcodeI64Extend8S, Unary 64 (iextend 64 8)); (OpcodeI64Extend16S, Unary 64 (iextend 64 16)); (OpcodeI64Extend32S, Unary 64 (iextend 64 32))].

Section Execution.
Context `{NN : NaNs}.

(** The operation [o] pops slots of 64 bits, takes the lower bits of them for
    its operands, and pushes the result; [exact] when the bits of the slot above
    those of the result are zero. *)
Definition computes (exact : bool) (o : unionOperation) (i : instruction) : Prop := forall s st,
  match i with
  | Unary n f => forall v, is_u64 v -> stack s = v :: st ->
      execValues o s = (set_stack (f (v mod 2 ^ Z.of_nat n) :: st) s, Done tt)
  | Binary n f => forall v1 v2, is_u64 v1 -> is_u64 v2 -> stack s = v2 :: v1 :: st ->
      match f (v1 mod 2 ^ Z.of_nat n) (v2 mod 2 ^ Z.of_nat n) with
      | Ok x => exists r, (exact = true -> r = x) /\ r mod 2 ^ Z.of_nat n = x /\ execValues o s = (set_stack (r :: st) s, Done tt)
      | Err e => execValues o s = (set_stack st s, Raised (Trap e))
      | Panic _ => False
      end
  end.

Lemma unary_run o f v r st s : unaryOperation o = Some f -> f v = Ok (Some r) -> stack s = v :: st ->
  execValues o s = (set_stack (r :: st) s, Done tt).
Proof.
  intros Ho Hf Hs. unfold execValues. rewrite Ho. erewrite bindX_done by (by apply popValue_run). cbn beta.
  erewrite bindX_done by (unfold liftX; by rewrite Hf). by destruct s.
Qed.
Lemma binary_run o f v1 v2 r st s : unaryOperation o = None -> binaryOperation o = Some f -> stack s = v2 :: v1 :: st ->
  f v1 v2 = r ->
  match r with
  | Ok (Some x) => execValues o s = (set_stack (x :: st) s, Done tt)
  | Err e => execValues o s = (set_stack st s, Raised (Trap e))
  | _ => True
  end.
Proof.
  intros Hu Ho Hs Hf. unfold execValues. rewrite Hu, Ho.
  destruct r as [[x|]|e|e]; [|done| |done]; erewrite bindX_done by (by apply popValue_run); cbn beta;
    erewrite bindX_done by (by apply popValue_run); cbn beta.
  - erewrite bindX_done by (unfold liftX; by rewrite Hf). by destruct s.
  - erewrite bindX_raise; [|unfold liftX; by rewrite Hf]. by destruct s.
Qed.

(** An operation that returns what the reference returns. *)
Lemma computes_unary o n f g : unaryOperation o = Some g ->
  (forall v, is_u64 v -> g v = Ok (Some (f (v mod 2 ^ Z.of_nat n)))) -> computes true o (Unary n f).
Proof. intros Ho Hg s st v Hv Hs. eapply unary_run; eauto. Qed.
Lemma computes_binary o n f g : unaryOperation o = None -> binaryOperation o = Some g ->
  (forall a b, 0 <= a < 2 ^ Z.of_nat n -> 0 <= b < 2 ^ Z.of_nat n ->
    match f a b with Ok x => 0 <= x < 2 ^ Z.of_nat n | Err _ => True | Panic _ => False end) ->
  (forall v1 v2, is_u64 v1 -> is_u64 v2 -> g v1 v2 = let! x := f (v1 mod 2 ^ Z.of_nat n) (v2 mod 2 ^ Z.of_nat n) in Ok (Some x)) ->
  computes true o (Binary n f).
Proof.
  intros Hu Ho Hf Hg s st v1 v2 H1 H2 Hs. specialize (Hg v1 v2 H1 H2).
  specialize (Hf (v1 mod 2 ^ Z.of_nat n) (v2 mod 2 ^ Z.of_nat n)
    ltac:(apply Z.mod_pos_bound; lia) ltac:(apply Z.mod_pos_bound; lia)).
  pose proof (binary_run o g v1 v2 _ st s Hu Ho Hs Hg) as H. destruct (f _ _) as [x|e|e]; cbn in H; [|done|done].
  exists x. split_and!; [done|by rewrite Z.mod_small|done].
Qed.
End Execution.

(** *** Results are words *)

Lemma ofBits_lt l : 0 <= ofBits l < 2 ^ Z.of_nat (length l).
Proof.
  split; [apply ofBits_nonneg|]. induction l as [|b l IH]; [cbn; lia|]. cbn [ofBits length]. rewrite Nat2Z.inj_succ, Z.pow_succ_r by lia.
  destruct b; cbn [Z.b2z]; lia.
Qed.
Lemma ofBits_word n l : length l = n -> 0 <= ofBits l < 2 ^ Z.of_nat n.
Proof. intros <-. apply ofBits_lt. Qed.

Definition word_result (n : nat) (f : Z -> Z -> res Z) : Prop :=
  forall a b, 0 <= a < 2 ^ Z.of_nat n -> 0 <= b < 2 ^ Z.of_nat n ->
    match f a b with Ok x => 0 <= x < 2 ^ Z.of_nat n | Err _ => True | Panic _ => False end.

Section Words.
Context (n : nat) (Hn : (0 < n)%nat).
Lemma words_mod g : word_result n (fun a b => Ok (g a b mod 2 ^ Z.of_nat n)).
Proof. intros a b _ _. apply Z.mod_pos_bound. lia. Qed.
Lemma words_rel g : word_result n (fun a b => Ok (Z.b2z (g a b))).
Proof using Hn. intros a b _ _. assert (2 ^ 1 <= 2 ^ Z.of_nat n) by (apply Z.pow_le_mono_r; lia). destruct (g a b); cbn; lia. Qed.
Lemma words_bits g : (forall a b, length (g a b) = n) -> word_result n (fun a b => Ok (ofBits (g a b))).
Proof. intros H a b _ _. by apply ofBits_word. Qed.
Lemma words_div_u : word_result n idiv_u.
Proof.
  intros a b Ha Hb. unfold idiv_u. destruct (Z.eqb_spec b 0); [done|]. split; [apply Z.div_pos; lia|].
  apply Z.div_lt_upper_bound; nia.
Qed.
Lemma words_rem_u : word_result n irem_u.
Proof.
  intros a b Ha Hb. unfold irem_u. destruct (Z.eqb_spec b 0); [done|]. rewrite <- Z.mod_eq by done.
  pose proof (Z.mod_pos_bound a b). lia.
Qed.
Lemma words_div_s : word_result n (idiv_s n).
Proof. intros a b Ha Hb. unfold idiv_s. destruct (b =? 0); [done|]. cbv zeta. destruct (_ =? _); [done|]. apply Z.mod_pos_bound. lia. Qed.
Lemma words_rem_s : word_result n (irem_s n).
Proof. intros a b Ha Hb. unfold irem_s. destruct (b =? 0); [done|]. apply Z.mod_pos_bound. lia. Qed.
Lemma words_bitwise f : word_result n (bitwise n f).
Proof. apply words_bits. intros a b. rewrite length_zip_with, !length_bitsOf. lia. Qed.
Lemma words_shift f : In f [ishl n; ishr_s n; ishr_u n; irotl n; irotr n] -> word_result n f.
Proof using Hn.
  intros Hf a b _ _. pose proof (amount_lt n Hn b).
  destruct Hf as [<-|[<-|[<-|[<-|[<-|[]]]]]]; apply ofBits_word;
    rewrite ?length_app, ?length_drop, ?length_take, ?length_replicate, ?length_bitsOf; lia.
Qed.
End Words.

(** *** Evaluation *)

(** Decides the cases on types, which are constants. *)
Ltac decide_types :=
  repeat match goal with
  | |- context [if ?b then _ else _] => first [change b with true | change b with false]; cbv iota
  end; cbn [res_bind].

Lemma mod32_small v : is_u64 v -> v mod 2 ^ Z.of_nat 64 = v.
Proof. intros H. apply Z.mod_small. exact H. Qed.
Lemma sgn_signed n v : (0 < n)%nat -> sgn (Z.of_nat n) v = signed n (v mod 2 ^ Z.of_nat n).
Proof.
  intros Hn. rewrite <- signed_sgn by (done || (apply Z.mod_pos_bound; lia)). apply sgn_mod; [lia|]. by rewrite Z.mod_mod by lia.
Qed.

(** Division and remainder of words, in the order of the checks of the code. *)
Lemma div_signed n v1 v2 (w1 := v1 mod 2 ^ Z.of_nat n) (w2 := v2 mod 2 ^ Z.of_nat n) : (0 < n)%nat ->
  (let! _ := (if w2 =? 0 then Err ErrRuntimeIntegerDivideByZero else Ok tt) in
   if (sgn (Z.of_nat n) v1 =? - 2 ^ (Z.of_nat n - 1)) && (sgn (Z.of_nat n) v2 =? -1) then Err ErrRuntimeIntegerOverflow
   else Ok (Some (Z.quot (sgn (Z.of_nat n) v1) (sgn (Z.of_nat n) v2) mod 2 ^ Z.of_nat n))) =
  let! x := idiv_s n w1 w2 in Ok (Some x).
Proof.
  intros Hn. unfold idiv_s. pose proof (Z.mod_pos_bound v1 (2 ^ Z.of_nat n) ltac:(lia)) as H1.
  pose proof (Z.mod_pos_bound v2 (2 ^ Z.of_nat n) ltac:(lia)) as H2. fold w1 in H1. fold w2 in H2.
  destruct (Z.eqb_spec w2 0) as [E|E]; [done|]. cbn [res_bind]. rewrite !sgn_signed by done. fold w1 w2. cbv zeta.
  rewrite quot_overflow by first [by apply signed_range|by intros ?%signed_zero].
  by destruct (_ && _).
Qed.
Lemma rem_signed n v1 v2 (w1 := v1 mod 2 ^ Z.of_nat n) (w2 := v2 mod 2 ^ Z.of_nat n) : (0 < n)%nat ->
  (let! _ := (if w2 =? 0 then Err ErrRuntimeIntegerDivideByZero else Ok tt) in
   Ok (Some (Z.rem (sgn (Z.of_nat n) v1) (sgn (Z.of_nat n) v2) mod 2 ^ Z.of_nat n))) =
  let! x := irem_s n w1 w2 in Ok (Some x).
Proof.
  intros Hn. unfold irem_s. pose proof (Z.mod_pos_bound v2 (2 ^ Z.of_nat n) ltac:(lia)) as H2. fold w2 in H2.
  destruct (Z.eqb_spec w2 0) as [E|E]; [done|]. cbn [res_bind]. rewrite !sgn_signed by done. fold w1 w2. unfold unsigned.
  rewrite Z.rem_eq; [done|]. by intros ?%signed_zero.
Qed.

Section Rows.
Context `{NN : NaNs}.

Definition implements (row : Z * instruction) : Prop :=
  exists o, simpleOperation (fst row) = Some o /\ computes (negb (fst row =? OpcodeI32Xor)) o (snd row).

(** A row whose operation is [o]: what is left is what the operation evaluates to. *)
Lemma implements_unary op n f o g : simpleOperation op = Some o -> unaryOperation o = Some g -> (op =? OpcodeI32Xor) = false ->
  (forall v, is_u64 v -> g v = Ok (Some (f (v mod 2 ^ Z.of_nat n)))) -> implements (op, Unary n f).
Proof. intros Ho Hu Hx Hg. exists o. split; [done|]. cbn [fst snd]. rewrite Hx. by eapply computes_unary. Qed.
Lemma implements_binary op n f o g : simpleOperation op = Some o -> unaryOperation o = None -> binaryOperation o = Some g ->
  (op =? OpcodeI32Xor) = false -> word_result n f ->
  (forall v1 v2, is_u64 v1 -> is_u64 v2 -> g v1 v2 = let! x := f (v1 mod 2 ^ Z.of_nat n) (v2 mod 2 ^ Z.of_nat n) in Ok (Some x)) ->
  implements (op, Binary n f).
Proof. intros Ho Hu Hb Hx Hf Hg. exists o. split; [done|]. cbn [fst snd]. rewrite Hx. by eapply computes_binary. Qed.

Ltac unary_row := eapply implements_unary; [reflexivity|reflexivity|reflexivity|intros v Hv; cbv beta; unfold pushed].
Ltac binary_row := eapply implements_binary; [reflexivity|reflexivity|reflexivity|reflexivity| |intros v1 v2 H1 H2; cbv beta; unfold pushed].

Lemma compare32 : Forall implements (zip [OpcodeI32Eqz; OpcodeI32Eq; OpcodeI32Ne; OpcodeI32LtS; OpcodeI32LtU; OpcodeI32GtS; OpcodeI32GtU;
  OpcodeI32LeS; OpcodeI32LeU; OpcodeI32GeS; OpcodeI32GeU] (comparisons 32)).
Proof.
  cbn [zip zip_with comparisons]. repeat apply Forall_cons_2; [unary_row; reflexivity|..|by constructor];
    (binary_row; [apply words_rel; lia|]); unfold irel, irel_s; rewrite <- ?sgn_signed by lia;
    unfold bit, evalEq, evalNe, evalLt, evalGt, evalLe, evalGe, evalOrder, sgn32; decide_types; rewrite ?Z.gtb_ltb, ?Z.geb_leb; reflexivity.
Qed.
Lemma compare64 : Forall implements (zip [OpcodeI64Eqz; OpcodeI64Eq; OpcodeI64Ne; OpcodeI64LtS; OpcodeI64LtU; OpcodeI64GtS; OpcodeI64GtU;
  OpcodeI64LeS; OpcodeI64LeU; OpcodeI64GeS; OpcodeI64GeU] (comparisons 64)).
Proof.
  cbn [zip zip_with comparisons]. repeat apply Forall_cons_2; [unary_row; rewrite mod32_small by done; reflexivity|..|by constructor];
    (binary_row; [apply words_rel; lia|]); unfold irel, irel_s; rewrite <- ?sgn_signed by lia; rewrite ?mod32_small by done;
    unfold bit, evalEq, evalNe, evalLt, evalGt, evalLe, evalGe, evalOrder, sgn64; decide_types; rewrite ?Z.gtb_ltb, ?Z.geb_leb; reflexivity.
Qed.

(** Only the lower bits of an amount count. *)
Lemma amount_mod n b b' : b mod Z.of_nat n = b' mod Z.of_nat n -> amount n b = amount n b'.
Proof. unfold amount. by intros ->. Qed.
Lemma rotate_mod w a b b' : b mod w = b' mod w -> RotateLeft w a b = RotateLeft w a b'.
Proof. unfold RotateLeft. by intros ->. Qed.
Lemma mod_mod_pow v j k : 0 <= j <= k -> (v mod 2 ^ k) mod 2 ^ j = v mod 2 ^ j.
Proof.
  intros H. apply Z.bits_inj'. intros i Hi. destruct (Z.lt_ge_cases i j); [|by rewrite !Z.mod_pow2_bits_high by lia].
  by rewrite !Z.mod_pow2_bits_low by lia.
Qed.
Lemma sgn_mod_pow v j k : 0 < j <= k -> sgn k v mod 2 ^ j = v mod 2 ^ j.
Proof. intros H. rewrite <- (mod_mod_pow _ j k), sgn_mod_eq, mod_mod_pow by lia. done. Qed.
Lemma opp_mod_pow v j k : 0 < j <= k -> sgn k (- sgn k v) mod 2 ^ j = (- (v mod 2 ^ k)) mod 2 ^ j.
Proof.
  intros H. rewrite sgn_mod_pow by lia. assert (0 < 2 ^ j) by (apply Z.pow_pos_nonneg; lia).
  rewrite <- !Z.sub_0_l. rewrite Zminus_mod, sgn_mod_pow, <- (mod_mod_pow v j k), <- Zminus_mod by lia. done.
Qed.

Lemma mod_opp_pow v j k : 0 <= j <= k -> (- (v mod 2 ^ k)) mod 2 ^ j = (- v) mod 2 ^ j.
Proof.
  intros H. assert (0 < 2 ^ j) by (apply Z.pow_pos_nonneg; lia).
  rewrite <- !Z.sub_0_l. by rewrite Zminus_mod, mod_mod_pow, <- Zminus_mod by lia.
Qed.

Lemma bits_nonneg (g : Z -> Z -> Z) : (g = Z.land \/ g = Z.lor \/ g = Z.lxor) -> forall a b, 0 <= a -> 0 <= b -> 0 <= g a b.
Proof.
  intros [->|[->| ->]] a b Ha Hb; [apply Z.land_nonneg|apply Z.lor_nonneg|apply Z.lxor_nonneg]; tauto.
Qed.
Lemma eval_bits n f g a b : (0 < n)%nat -> 0 <= a < 2 ^ Z.of_nat n -> 0 <= b < 2 ^ Z.of_nat n ->
  (g = Z.land /\ f = andb) \/ (g = Z.lor /\ f = orb) \/ (g = Z.lxor /\ f = xorb) ->
  Ok (Some (g b a)) = let! x := bitwise n f a b in Ok (Some x).
Proof.
  intros Hn Ha Hb H. rewrite <- (bitwise_spec n Hn f (fun x y => g y x)); [done..| | |].
  - intros x y j Hj. destruct H as [[-> ->]|[[-> ->]|[-> ->]]]; [rewrite Z.land_spec; apply andb_comm|rewrite Z.lor_spec; apply orb_comm|
      rewrite Z.lxor_spec; apply xorb_comm].
  - by destruct H as [[-> ->]|[[-> ->]|[-> ->]]].
  - apply bits_nonneg; [tauto|lia|lia].
Qed.

Lemma range32 v : 0 <= v mod 2 ^ Z.of_nat 32 < 2 ^ Z.of_nat 32.
Proof. apply Z.mod_pos_bound. lia. Qed.
Lemma range64 v : 0 <= v mod 2 ^ Z.of_nat 64 < 2 ^ Z.of_nat 64.
Proof. apply Z.mod_pos_bound. lia. Qed.

Lemma rem_u_eq a b : b <> 0 -> a - b * (a / b) = a mod b.
Proof. intros Hb. by rewrite Z.mod_eq. Qed.

Lemma arith32 : Forall implements (zip [OpcodeI32Clz; OpcodeI32Ctz; OpcodeI32Popcnt; OpcodeI32Add; OpcodeI32Sub; OpcodeI32Mul; OpcodeI32DivS; OpcodeI32DivU;
  OpcodeI32RemS; OpcodeI32RemU; OpcodeI32And; OpcodeI32Or] (take 12 (arithmetic 32))).
Proof.
  cbn [zip zip_with arithmetic take]. repeat apply Forall_cons_2.
  - unary_row. unfold evalClz. decide_types. unfold iclz. by rewrite <- clz_spec by apply range32.
  - unary_row. unfold evalCtz. decide_types. unfold ictz. by rewrite <- ctz_spec.
  - unary_row. unfold evalPopcnt. decide_types. unfold ipopcnt. by rewrite <- popcnt_spec.
  - binary_row; [apply words_mod; try lia|]. reflexivity.
  - binary_row; [apply words_mod; try lia|]. reflexivity.
  - binary_row; [apply words_mod; try lia|]. reflexivity.
  - binary_row; [apply words_div_s; try lia|]. rewrite <- div_signed by lia. unfold evalDiv. decide_types. reflexivity.
  - binary_row; [apply words_div_u; try lia|]. unfold evalDiv, idiv_u. decide_types. change (Z.of_nat 32) with 32. unfold wrap32. by destruct (_ =? 0).
  - binary_row; [apply words_rem_s; try lia|]. rewrite <- rem_signed by lia. unfold evalRem. decide_types. reflexivity.
  - binary_row; [apply words_rem_u; try lia|]. unfold evalRem, irem_u. decide_types. change (Z.of_nat 32) with 32. unfold wrap32.
    destruct (Z.eqb_spec (v2 mod 2 ^ 32) 0); [done|]. cbn [res_bind]. by rewrite rem_u_eq.
  - binary_row; [apply words_bitwise; try lia|]. exact (eval_bits 32 andb Z.land _ _ ltac:(lia) (range32 v1) (range32 v2) ltac:(tauto)).
  - binary_row; [apply words_bitwise; try lia|]. exact (eval_bits 32 orb Z.lor _ _ ltac:(lia) (range32 v1) (range32 v2) ltac:(tauto)).
  - constructor.
Qed.

(** The operands of i32.xor are not cut to 32 bits. *)
Lemma xor32 : implements (OpcodeI32Xor, Binary 32 (bitwise 32 xorb)).
Proof.
  eexists. split; [reflexivity|]. cbn [fst snd]. change (negb _) with false. intros s st v1 v2 H1 H2 Hs.
  pose proof (bitwise_spec 32 ltac:(lia) xorb Z.lxor (v1 mod 2 ^ Z.of_nat 32) (v2 mod 2 ^ Z.of_nat 32) (range32 v1) (range32 v2)
    ltac:(intros; apply Z.lxor_spec) eq_refl) as E. rewrite <- E; clear E.
  2: { apply Z.lxor_nonneg. pose proof (range32 v1). pose proof (range32 v2). lia. }
  exists (Z.lxor v2 v1). split_and!; [done| |].
  - rewrite <- !Z.land_ones by lia. apply Z.bits_inj'. intros j Hj. rewrite ?Z.lxor_spec, ?Z.land_spec, ?Z.lxor_spec.
    destruct (Z.testbit v1 j), (Z.testbit v2 j), (Z.testbit (Z.ones (Z.of_nat 32)) j); done.
  - exact (binary_run (newOperationXor unsignedInt64) _ v1 v2 _ st s eq_refl eq_refl Hs eq_refl).
Qed.

Lemma shift32 : Forall implements [(OpcodeI32Shl, Binary 32 (ishl 32)); (OpcodeI32ShrS, Binary 32 (ishr_s 32));
  (OpcodeI32ShrU, Binary 32 (ishr_u 32)); (OpcodeI32Rotl, Binary 32 (irotl 32)); (OpcodeI32Rotr, Binary 32 (irotr 32))].
Proof.
  repeat apply Forall_cons_2; [..|by apply Forall_nil_2];
    (binary_row; [apply words_shift; [lia|cbn; tauto]|]).
  - rewrite <- shl_spec by (lia || apply range32). reflexivity.
  - rewrite <- shr_s_spec by (lia || apply range32). unfold evalShr. decide_types. cbn [res_bind]. do 2 f_equal. unfold wrap32, sgn32. do 2 f_equal.
    apply sgn_mod; [lia|]. by rewrite Z.mod_mod by lia.
  - rewrite <- shr_u_spec by (lia || apply range32). reflexivity.
  - rewrite <- rotl_spec by (lia || apply range32). unfold evalRotl. decide_types. do 2 f_equal. apply rotate_mod.
    change (sgn 64 v2 mod 2 ^ 5 = (v2 mod 2 ^ 32) mod 2 ^ 5). by rewrite sgn_mod_pow, mod_mod_pow by lia.
  - rewrite <- rotr_spec by (lia || apply range32). unfold evalRotr. decide_types. do 2 f_equal. apply rotate_mod.
    change (sgn 64 (- sgn 64 v2) mod 2 ^ 5 = (- (v2 mod 2 ^ 32)) mod 2 ^ 5). by rewrite opp_mod_pow, !(mod_opp_pow _ 5) by lia.
Qed.

Lemma arith64 : Forall implements (zip [OpcodeI64Clz; OpcodeI64Ctz; OpcodeI64Popcnt; OpcodeI64Add; OpcodeI64Sub; OpcodeI64Mul; OpcodeI64DivS; OpcodeI64DivU;
  OpcodeI64RemS; OpcodeI64RemU; OpcodeI64And; OpcodeI64Or; OpcodeI64Xor] (take 13 (arithmetic 64))).
Proof.
  cbn [zip zip_with arithmetic take]. repeat apply Forall_cons_2.
  - unary_row. unfold evalClz. decide_types. unfold iclz. rewrite <- clz_spec by apply range64. by rewrite mod32_small.
  - unary_row. unfold evalCtz. decide_types. unfold ictz. rewrite <- ctz_spec. by rewrite mod32_small.
  - unary_row. unfold evalPopcnt. decide_types. unfold ipopcnt. rewrite <- popcnt_spec. by rewrite mod32_small.
  - binary_row; [apply words_mod; try lia|]. rewrite !mod32_small by done. reflexivity.
  - binary_row; [apply words_mod; try lia|]. rewrite !mod32_small by done. reflexivity.
  - binary_row; [apply words_mod; try lia|]. rewrite !mod32_small by done. reflexivity.
  - binary_row; [apply words_div_s; try lia|]. rewrite <- div_signed, mod32_small by (lia || done). unfold evalDiv. decide_types. reflexivity.
  - binary_row; [apply words_div_u; try lia|]. rewrite !mod32_small by done. unfold evalDiv, idiv_u. decide_types. by destruct (_ =? 0).
  - binary_row; [apply words_rem_s; try lia|]. rewrite <- rem_signed, mod32_small by (lia || done). unfold evalRem. decide_types. reflexivity.
  - binary_row; [apply words_rem_u; try lia|]. rewrite !mod32_small by done. unfold evalRem, irem_u. decide_types.
    destruct (Z.eqb_spec v2 0); [done|]. cbn [res_bind]. by rewrite rem_u_eq.
  - binary_row; [apply words_bitwise; try lia|]. rewrite !mod32_small by done. exact (eval_bits 64 andb Z.land _ _ ltac:(lia) H1 H2 ltac:(tauto)).
  - binary_row; [apply words_bitwise; try lia|]. rewrite !mod32_small by done. exact (eval_bits 64 orb Z.lor _ _ ltac:(lia) H1 H2 ltac:(tauto)).
  - binary_row; [apply words_bitwise; try lia|]. rewrite !mod32_small by done. exact (eval_bits 64 xorb Z.lxor _ _ ltac:(lia) H1 H2 ltac:(tauto)).
  - constructor.
Qed.

Lemma shift64 : Forall implements [(OpcodeI64Shl, Binary 64 (ishl 64)); (OpcodeI64ShrS, Binary 64 (ishr_s 64));
  (OpcodeI64ShrU, Binary 64 (ishr_u 64)); (OpcodeI64Rotl, Binary 64 (irotl 64)); (OpcodeI64Rotr, Binary 64 (irotr 64))].
Proof.
  repeat apply Forall_cons_2; [..|by apply Forall_nil_2];
    (binary_row; [apply words_shift; [lia|cbn; tauto]|]); rewrite !mod32_small by done.
  - rewrite <- shl_spec by (lia || done). reflexivity.
  - rewrite <- shr_s_spec by (lia || done). reflexivity.
  - rewrite <- shr_u_spec by (lia || done). reflexivity.
  - rewrite <- rotl_spec by (lia || done). unfold evalRotl. decide_types. do 2 f_equal. apply rotate_mod.
    change (sgn 64 v2 mod 2 ^ 6 = v2 mod 2 ^ 6). by rewrite sgn_mod_pow by lia.
  - rewrite <- rotr_spec by (lia || done). unfold evalRotr. decide_types. do 2 f_equal. apply rotate_mod.
    change (sgn 64 (- sgn 64 v2) mod 2 ^ 6 = (- v2) mod 2 ^ 6). rewrite opp_mod_pow by lia. by rewrite (Z.mod_small v2) by exact H2.
Qed.

Lemma extensions : Forall implements [(OpcodeI32WrapI64, Unary 64 (unsigned 32)); (OpcodeI64ExtendI32S, Unary 32 (iextend 64 32));
  (OpcodeI64ExtendI32U, Unary 32 (unsigned 64)); (OpcodeI32Extend8S, Unary 32 (iextend 32 8)); (OpcodeI32Extend16S, Unary 32 (iextend 32 16));
  (OpcodeI64Extend8S, Unary 64 (iextend 64 8)); (OpcodeI64Extend16S, Unary 64 (iextend 64 16)); (OpcodeI64Extend32S, Unary 64 (iextend 64 32))].
Proof.
  assert (He : forall n m k v, (0 < m <= k)%nat -> (m <= n)%nat ->
    sgn (Z.of_nat m) v mod 2 ^ Z.of_nat n = iextend n m (v mod 2 ^ Z.of_nat k)).
  { intros n m k v Hm Hmn. rewrite <- extend_spec by lia. f_equal. apply sgn_mod; [lia|]. by rewrite mod_mod_pow by lia. }
  repeat apply Forall_cons_2; [..|by apply Forall_nil_2]; unary_row.
  - rewrite mod32_small by done. reflexivity.
  - rewrite <- (He 64 32 32)%nat by lia. reflexivity.
  - unfold unsigned. rewrite Z.mod_small; [reflexivity|]. pose proof (range32 v). lia.
  - rewrite <- (He 32 8 32)%nat by lia. reflexivity.
  - rewrite <- (He 32 16 32)%nat by lia. reflexivity.
  - rewrite <- (He 64 8 64)%nat by lia. reflexivity.
  - rewrite <- (He 64 16 64)%nat by lia. reflexivity.
  - rewrite <- (He 64 32 64)%nat by lia. reflexivity.
Qed.

(** C11: For each of the 66 integer instructions, the operation that the compiler
    emits pops its operands and pushes the result that the Wasm specification
    defines on words and lists of bits, or traps where it says so, for every
    content of the slots: of an i32 operand only the lower half counts.  The
    upper half of the result is zero, except after i32.xor, which is compiled to
    the operation on 64 bits. *)
Theorem integer_instructions op i : (op, i) ∈ integerInstructions ->
  exists o, simpleOperation op = Some o /\ computes (negb (op =? OpcodeI32Xor)) o i.
Proof.
  intros H. assert (HF : Forall implements integerInstructions).
  { unfold integerInstructions. rewrite !Forall_app. split_and!; [apply compare32|apply compare64| | |apply extensions].
    - exact (Forall_app_2 _ _ _ arith32 (Forall_cons_2 _ _ _ xor32 shift32)).
    - exact (Forall_app_2 _ _ _ arith64 shift64). }
  rewrite Forall_forall in HF. exact (HF (op, i) H).
Qed.
End Rows.

Lemma integer_instructions_witness : exists o, simpleOperation OpcodeI32Rotl = Some o /\
  forall s st, stack s = 4 :: (7 * 2 ^ 32 + 0xf0000001) :: st ->
    execValues (N := canonicalNaNs) o s = (set_stack (0x1f :: st) s, Done tt).
Proof.
  destruct (integer_instructions (NN := canonicalNaNs) OpcodeI32Rotl (Binary 32 (irotl 32))) as (o & Ho & Hc).
  { apply list_elem_of_lookup_2 with 38%nat. reflexivity. }
  exists o. split; [exact Ho|]. intros s st Hs.
  destruct (Hc s st (7 * 2 ^ 32 + 0xf0000001) 4 ltac:(done) ltac:(done) Hs) as (r & Hr & _ & Hx).
  rewrite Hx. cbn in Hr. by rewrite (Hr eq_refl).
Defined.
