(* ===== verification/StackEffect.v ===== *)
(** * Operations and their signatures

    Three tables are written by hand and must agree: the signature that the
    compiler applies to its own stack for an opcode (signature.go), the
    operation it emits (compiler.go), and what the interpreter does with the
    operation (interpreter.go).  For every opcode of the numeric, memory, vector
    and atomic tables, executing the operation takes exactly the slots of the
    signature's inputs off the stack and puts those of its outputs on it, or
    traps; it never runs into the checks of Go. *)

From S2P Require Import Prelude Leb128 Features Opcodes Types ValStack Validate Signature ConstExpr TypeIDs ModuleClose Execution ModuleList.
From S2P Require Import Memory Waiters Binary ModuleValidate Operations Compiler Lower GoFloat Numeric Vector Instantiate Machine Interp.
From S2P Require Import InterpBase InterpMem InterpStore.

(** ** Actions on the top of the stack *)

Section Top.
Context (mi : positive).

(** The instance has a memory of less than 4 GiB. *)
Definition ready (s : machine) : Prop := exists p mem, hasMemory s mi p mem /\ zlen (Buffer mem) < 2 ^ 32.

(** From a stack with [top] on it the action returns and leaves a top for which
    [Q] holds, or traps; what is below [top] stays. *)
Definition acts {A} (top : list Z) (c : X A) (Q : A -> list Z -> Prop) : Prop := forall s st,
  ready s -> stack s = top ++ st ->
  match c s with
  | (s', Done a) => ready s' /\ exists top', stack s' = top' ++ st /\ Q a top'
  | (_, Raised (Trap _)) => True
  | _ => False
  end.

Lemma acts_bind {A B} top (c : X A) (k : A -> X B) Q R :
  acts top c Q -> (forall a top', Q a top' -> acts top' (k a) R) -> acts top (c ≫= k) R.
Proof.
  intros Hc Hk s st Hr Hs. specialize (Hc s st Hr Hs). unfold mbind, X_bind.
  destruct (c s) as [s' [a|p|]]; [|done|done]. destruct Hc as (Hr' & top' & Hs' & HQ). by apply (Hk a top' HQ).
Qed.
Lemma acts_mono {A} top (c : X A) (Q Q' : A -> list Z -> Prop) : acts top c Q -> (forall a t, Q a t -> Q' a t) -> acts top c Q'.
Proof.
  intros Hc HQ s st Hr Hs. specialize (Hc s st Hr Hs). destruct (c s) as [s' [a|p|]]; [|done|done].
  destruct Hc as (Hr' & top' & ? & ?). eauto.
Qed.
Lemma ready_same s s' : heap (shared s') = heap (shared s) -> ready s -> ready s'.
Proof. intros E. unfold ready, hasMemory. by rewrite E. Qed.

Lemma acts_ret {A} top (a : A) : acts top (mret a) (fun b t => b = a /\ t = top).
Proof. intros s st Hr Hs. split; [done|]. by exists top. Qed.
Lemma acts_trap {A} top msg Q : acts top (trap (A := A) msg) Q.
Proof. by intros s st _ _. Qed.
Lemma acts_pop v top : acts (v :: top) popValue (fun a t => a = v /\ t = top).
Proof. intros s st Hr Hs. unfold popValue. rewrite Hs. cbn. split; [by eapply ready_same; [|exact Hr]|]. by exists top. Qed.
Lemma acts_push v top : acts top (pushValue v) (fun _ t => t = v :: top).
Proof. intros s st Hr Hs. cbn. split; [by eapply ready_same; [|exact Hr]|]. exists (v :: top). by rewrite Hs. Qed.
Lemma acts_lift {A} top (r : res A) : (forall e, r <> Panic e) -> acts top (liftX r) (fun a t => r = Ok a /\ t = top).
Proof. intros Hn s st Hr Hs. destruct r as [a|e|e]; cbn; [|done|by destruct (Hn e)]. split; [done|]. by exists top. Qed.
Lemma acts_gets {A} top (f : machine -> A) : acts top (getsX f) (fun _ t => t = top).
Proof. intros s st Hr Hs. split; [done|]. by exists top. Qed.
Lemma acts_shared top f : (forall s, heap (f s) = heap s) -> acts top (modifyX (fun s => set_shared (f (shared s)) s)) (fun _ t => t = top).
Proof. intros Hf s st Hr Hs. split; [by eapply ready_same; [apply Hf|]|]. by exists top. Qed.
Lemma acts_memory top : acts top (memoryX mi) (fun x t => zlen (Buffer (snd x)) < 2 ^ 32 /\ t = top).
Proof.
  intros s st (p & mem & Hm & Hl) Hs. rewrite (memoryX_run s mi p mem Hm). split; [by exists p, mem|]. by exists top.
Qed.
Lemma acts_offset v top op : acts (v :: top) (popMemoryOffset op) (fun o t => is_u32 o /\ t = top).
Proof.
  unfold popMemoryOffset. eapply acts_bind; [apply acts_pop|]. intros a t [-> ->]. cbn zeta. destruct (_ >? _); [apply acts_trap|].
  eapply acts_mono; [apply acts_ret|]. intros ? ? [-> ->]. split; [apply wrap32_range|done].
Qed.
Lemma acts_read {A} top (f : MemoryInstance -> res (A * bool)) :
  (forall mem e, zlen (Buffer mem) < 2 ^ 32 -> f mem <> Panic e) -> acts top (readMemory mi f) (fun _ t => t = top).
Proof.
  intros Hf. unfold readMemory. eapply acts_bind; [apply acts_memory|]. intros [p mem] t [Hl ->]. unfold checked.
  eapply acts_bind; [apply acts_lift; by intros e; apply Hf|]. intros [v b] t [_ ->]. destruct b; [|apply acts_trap].
  eapply acts_mono; [apply acts_ret|]. by intros ? ? [_ ->].
Qed.

(** A write into the memory that was read, of the same length. *)
Lemma acts_write top (f : MemoryInstance -> res (bool * MemoryInstance)) (k : bool -> X unit) Q :
  (forall mem e, f mem <> Panic e) ->
  (forall mem ok mem', f mem = Ok (ok, mem') -> zlen (Buffer mem') = zlen (Buffer mem)) ->
  (forall ok, acts top (k ok) Q) ->
  acts top ('(p, mem) ← memoryX mi; '(ok, mem') ← liftX (f mem); _ ← setMemory p mem'; k ok) Q.
Proof.
  intros Hn Hlen Hk s st (p & mem & Hm & Hl) Hs. rewrite (bindX_done _ _ _ _ _ (memoryX_run s mi p mem Hm)). cbn beta iota.
  destruct (f mem) as [[ok mem']|e|e] eqn:E; [|done|by destruct (Hn mem e)].
  erewrite bindX_done by (unfold liftX; reflexivity). cbn beta iota. erewrite bindX_done by reflexivity. apply Hk; [|exact Hs].
  destruct Hm as (i & Hi & Hp & HM). exists p, mem'. split; [|by rewrite (Hlen mem ok mem' E)].
  exists i. cbn. split_and!; [done|done|apply lookup_insert_eq].
Qed.
Lemma acts_set top (f : MemoryInstance -> res (bool * MemoryInstance)) :
  (forall mem e, f mem <> Panic e) -> (forall mem ok mem', f mem = Ok (ok, mem') -> zlen (Buffer mem') = zlen (Buffer mem)) ->
  acts top ('(p, mem) ← memoryX mi; '(_, mem') ← liftX (f mem); setMemory p mem') (fun _ t => t = top).
Proof.
  intros Hn Hl s st Hr Hs. pose proof (acts_write top f (fun _ => mret tt) (fun _ t => t = top) Hn Hl) as H.
  specialize (H ltac:(intros ok; eapply acts_mono; [apply acts_ret|by intros ? ? [_ ->]]) s st Hr Hs).
  revert H. unfold mbind, X_bind. destruct (memoryX mi s) as [s1 [[p mem]|?|]]; [|done|done]. unfold liftX.
  by destruct (f mem) as [[ok mem']|e|e].
Qed.
End Top.

(** ** Accessors *)

Lemma read_byte_ok m o e : is_u32 o -> Memory.ReadByte m o <> Panic e.
Proof.
  intros [Ho1 Ho2]. unfold Memory.ReadByte. rewrite hasSize_spec by (unfold is_u32; lia). destruct (Z.leb_spec (o + 1) (zlen (Buffer m))); [|done].
  cbn [negb]. by destruct (zindex_in (Buffer m) o) as (b & -> & _); [lia|].
Qed.
Lemma read_uint_ok n m o e : is_u32 o -> 0 <= Z.of_nat n < 2 ^ 32 ->
  (if negb (hasSize m o (Z.of_nat n)) then Ok (0, false)
   else let! b := zslice (Buffer m) o in let! v := leUint n b in Ok (v, true)) <> Panic e.
Proof.
  intros [Ho1 Ho2] Hn. rewrite hasSize_spec by (unfold is_u32; lia). destruct (Z.leb_spec (o + Z.of_nat n) (zlen (Buffer m))); [|done].
  cbn [negb]. rewrite zslice_in by lia. cbn [res_bind]. unfold leUint. rewrite (proj2 (Z.leb_le _ _)); [done|]. rewrite zlen_drop. lia.
Qed.
Lemma read_ok m o n e : is_u32 o -> 0 <= n < 2 ^ 31 -> zlen (Buffer m) < 2 ^ 32 -> Read m o n <> Panic e.
Proof.
  intros [Ho1 Ho2] Hn Hl. unfold Read. rewrite hasSize_spec by (unfold is_u32; lia). destruct (Z.leb_spec (o + n) (zlen (Buffer m))); [|done].
  cbn [negb]. rewrite wrap32_small by (unfold is_u32; lia). by rewrite slice2_in by lia.
Qed.
Lemma write_with_ok m o n f e : (o + n <= zlen (Buffer m) -> forall e', f (Buffer m) <> Panic e') -> is_u32 o -> 0 <= n < 2 ^ 31 ->
  writeWith m o n f <> Panic e.
Proof.
  intros Hf [Ho1 Ho2] Hn. unfold writeWith. rewrite hasSize_spec by (unfold is_u32; lia).
  destruct (Z.leb_spec (o + n) (zlen (Buffer m))); [|done]. cbn [negb]. destruct (f _) eqn:E; [done..|]. by destruct (Hf ltac:(lia) msg).
Qed.
Lemma put_ok n l o v e : 0 <= o -> o + Z.of_nat n <= zlen l -> putUint n l o v <> Panic e.
Proof.
  intros Ho Hl. unfold putUint. rewrite zslice_in by lia. cbn [res_bind]. rewrite (proj2 (Z.leb_le _ _)) by (rewrite zlen_drop; lia).
  unfold copyAt. by rewrite zslice_in by lia.
Qed.
Lemma write_uint_ok n m o v e : is_u32 o -> 0 <= Z.of_nat n < 2 ^ 31 ->
  writeWith m o (Z.of_nat n) (fun l => putUint n l o v) <> Panic e.
Proof. intros Ho Hn. apply write_with_ok; [|done|lia]. intros Hl e'. apply put_ok; [unfold is_u32 in *; lia|lia]. Qed.
Lemma write_byte_ok m o v e : is_u32 o -> WriteByte m o v <> Panic e.
Proof. intros Ho. apply write_with_ok; [|done|lia]. intros Hl e'. rewrite (proj2 (Z.ltb_lt _ _)) by lia. done. Qed.
Lemma read_16_ok m o e : is_u32 o -> zlen (Buffer m) < 2 ^ 32 -> ReadUint16Le m o <> Panic e.
Proof.
  intros [Ho1 Ho2] Hl. unfold ReadUint16Le. rewrite hasSize_spec by (unfold is_u32; lia).
  destruct (Z.leb_spec (o + 2) (zlen (Buffer m))); [|done]. cbn [negb]. rewrite wrap32_small by (unfold is_u32; lia).
  rewrite slice2_in by lia. cbn [res_bind]. unfold leUint. rewrite (proj2 (Z.leb_le _ _)); [done|]. rewrite bytesAt_len; lia.
Qed.
Lemma readN_ok n m o e : is_u32 o -> zlen (Buffer m) < 2 ^ 32 -> readN n m o <> Panic e.
Proof.
  intros Ho Hl. unfold readN. destruct (n =? 1); [by apply read_byte_ok|]. destruct (n =? 2); [|destruct (n =? 4)].
  - by apply read_16_ok.
  - by apply (read_uint_ok 4).
  - by apply (read_uint_ok 8).
Qed.
Lemma writeN_ok n m o v e : is_u32 o -> writeN n m o v <> Panic e.
Proof.
  intros Ho. unfold writeN. destruct (n =? 1); [by apply write_byte_ok|]. destruct (n =? 2); [|destruct (n =? 4)].
  - by apply (write_uint_ok 2).
  - by apply (write_uint_ok 4).
  - by apply (write_uint_ok 8).
Qed.
Lemma writeWith_len M o n f ok M' : (forall r, f (Buffer M) = Ok r -> zlen r = zlen (Buffer M)) -> writeWith M o n f = Ok (ok, M') ->
  zlen (Buffer M') = zlen (Buffer M).
Proof.
  intros Hf. unfold writeWith. destruct (negb _); [by intros [= <- <-]|]. destruct (f _) as [r| |]; [|done..]. cbn.
  intros [= <- <-]. by apply Hf.
Qed.
Lemma writeByte_len M o v ok M' : WriteByte M o v = Ok (ok, M') -> zlen (Buffer M') = zlen (Buffer M).
Proof. apply writeWith_len. intros r. destruct (_ <? _); [|done]. intros [= <-]. unfold zlen. by rewrite length_insert. Qed.
Lemma writeN_len n M o v ok M' : writeN n M o v = Ok (ok, M') -> zlen (Buffer M') = zlen (Buffer M).
Proof.
  unfold writeN. destruct (n =? 1); [apply writeByte_len|]. destruct (n =? 2); [|destruct (n =? 4)];
    apply writeWith_len; intros r; apply putUint_zlen.
Qed.

(** ** The slots an operation takes and gives *)

Definition arity (o : unionOperation) : option (nat * nat) :=
  let when (b : bool) (a r : nat) := if b then Some (a, r) else None in
  match OpKind o with
  | operationKindEqz | operationKindClz | operationKindCtz | operationKindPopcnt | operationKindAbs | operationKindNeg
  | operationKindCeil | operationKindFloor | operationKindTrunc | operationKindNearest | operationKindSqrt
  | operationKindI32WrapFromI64 | operationKindF32DemoteFromF64 | operationKindF64PromoteFromF32
  | operationKindExtend | operationKindSignExtend32From8 | operationKindSignExtend32From16
  | operationKindSignExtend64From8 | operationKindSignExtend64From16 | operationKindSignExtend64From32
  | operationKindI32ReinterpretFromF32 | operationKindI64ReinterpretFromF64 | operationKindF32ReinterpretFromI32
  | operationKindF64ReinterpretFromI64 => Some (1, 1)%nat
  | operationKindITruncFromF => when (between 0 (B2 o) 3) 1%nat 1%nat
  | operationKindFConvertFromI => when (between 0 (B1 o) 3) 1%nat 1%nat
  | operationKindEq | operationKindNe | operationKindLt | operationKindGt | operationKindLe | operationKindGe
  | operationKindAnd | operationKindOr | operationKindXor | operationKindShl | operationKindRotl | operationKindRotr
  | operationKindMin | operationKindMax | operationKindCopysign => Some (2, 1)%nat
  | operationKindAdd | operationKindSub | operationKindMul | operationKindRem | operationKindShr => when (between 0 (B1 o) 3) 2%nat 1%nat
  | operationKindDiv => when (between 0 (B1 o) 5) 2%nat 1%nat
  | operationKindLoad => when (between 0 (B1 o) 3) 1%nat 1%nat
  | operationKindLoad8 | operationKindLoad16 => when (between 0 (B1 o) 3) 1%nat 1%nat
  | operationKindLoad32 => Some (1, 1)%nat
  | operationKindStore => when (between 0 (B1 o) 3) 2%nat 0%nat
  | operationKindStore8 | operationKindStore16 | operationKindStore32 => Some (2, 0)%nat
  | operationKindV128Not | operationKindV128Neg | operationKindV128Abs | operationKindV128Sqrt | operationKindV128Popcnt
  | operationKindV128Ceil | operationKindV128Floor | operationKindV128Trunc | operationKindV128Nearest | operationKindV128Extend
  | operationKindV128ExtAddPairwise | operationKindV128FloatPromote | operationKindV128FloatDemote | operationKindV128FConvertFromI
  | operationKindV128ITruncSatFromF => Some (2, 2)%nat
  | operationKindV128Add | operationKindV128Sub => when (between 0 (B1 o) 5) 4%nat 2%nat
  | operationKindV128Swizzle | operationKindV128And | operationKindV128Or | operationKindV128Xor | operationKindV128AndNot
  | operationKindV128Cmp | operationKindV128AddSat | operationKindV128SubSat | operationKindV128Mul | operationKindV128Div
  | operationKindV128Min | operationKindV128Max | operationKindV128AvgrU | operationKindV128Pmin | operationKindV128Pmax
  | operationKindV128ExtMul | operationKindV128Q15mulrSatS | operationKindV128Narrow | operationKindV128Dot => Some (4, 2)%nat
  | operationKindV128Const => Some (0, 2)%nat
  | operationKindV128ReplaceLane | operationKindV128Shl | operationKindV128Shr => Some (3, 2)%nat
  | operationKindV128ExtractLane | operationKindV128AnyTrue | operationKindV128AllTrue | operationKindV128BitMask => Some (2, 1)%nat
  | operationKindV128Splat => Some (1, 2)%nat
  | operationKindV128Bitselect => Some (6, 2)%nat
  | operationKindV128Load => when (between v128LoadType128 (B1 o) v128LoadType64zero) 1%nat 2%nat
  | operationKindV128LoadLane => Some (3, 2)%nat
  | operationKindV128Store | operationKindV128StoreLane => Some (3, 0)%nat
  | operationKindAtomicMemoryNotify => Some (2, 1)%nat
  | operationKindAtomicMemoryWait => when (between 0 (B1 o) 1) 3%nat 1%nat
  | operationKindAtomicLoad => when (between 0 (B1 o) 1) 1%nat 1%nat
  | operationKindAtomicLoad8 | operationKindAtomicLoad16 => Some (1, 1)%nat
  | operationKindAtomicStore => when (between 0 (B1 o) 1) 2%nat 0%nat
  | operationKindAtomicStore8 | operationKindAtomicStore16 => Some (2, 0)%nat
  | operationKindAtomicRMW => when (between 0 (B1 o) 1) 2%nat 1%nat
  | operationKindAtomicRMW8 | operationKindAtomicRMW16 => Some (2, 1)%nat
  | operationKindAtomicRMWCmpxchg => when (between 0 (B1 o) 1) 3%nat 1%nat
  | operationKindAtomicRMW8Cmpxchg | operationKindAtomicRMW16Cmpxchg => Some (3, 1)%nat
  | operationKindAtomicFence => Some (0, 0)%nat
  | operationKindConstI32 | operationKindConstI64 | operationKindConstF32 | operationKindConstF64 => Some (0, 1)%nat
  | _ => None
  end.

(** The slots of the types of a signature. *)
Definition slotsOf (l : list unsignedType) : nat := Z.to_nat (foldr (fun t n => slots t + n) 0 l).
Definition agrees (o : unionOperation) (sig : res signature) : bool :=
  match sig with
  | Ok sg => bool_decide (arity o = Some (slotsOf (sig_in sg), slotsOf (sig_out sg)))
  | _ => false
  end.

(** The operations that the compiler emits for an opcode, in the order of its
    switch, with the signature that it applies to its own stack. *)
Inductive emitted : res signature -> unionOperation -> Prop :=
  | emitted_memory op tag mk arg : 0 <= op < 256 -> memoryOperation op = Some (tag, mk) -> emitted (fixedSignature op) (mk arg)
  | emitted_simple op o : 0 <= op < 256 -> memoryOperation op = None -> simpleOperation op = Some o -> emitted (fixedSignature op) o
  | emitted_i32 v : emitted (fixedSignature OpcodeI32Const) (newOperationConstI32 v)
  | emitted_i64 v : emitted (fixedSignature OpcodeI64Const) (newOperationConstI64 v)
  | emitted_f32 v : emitted (fixedSignature OpcodeF32Const) (newOperationConstF32 v)
  | emitted_f64 v : emitted (fixedSignature OpcodeF64Const) (newOperationConstF64 v)
  | emitted_truncSat op o : 0 <= op < 256 -> truncSatOperation op = Some o -> emitted (miscSignature op) o
  | emitted_v128 lo hi : emitted (vecSignature OpcodeVecV128Const) (newOperationV128Const lo hi)
  | emitted_vecStore arg : emitted (vecSignature OpcodeVecV128Store) (newOperationV128Store arg)
  | emitted_vecLoad op tag mk arg : 0 <= op < 256 -> vecLoadOperation op = Some (tag, mk) -> emitted (vecSignature op) (mk arg)
  | emitted_vecMemoryLane op tag mk arg lane : 0 <= op < 256 -> orElse (vecLoadLaneOperation op) (vecStoreLaneOperation op) = Some (tag, mk) ->
      emitted (vecSignature op) (mk arg lane)
  | emitted_vecLane op mk lane : 0 <= op < 256 -> vecLaneOperation op = Some mk -> emitted (vecSignature op) (mk lane)
  | emitted_vec op o : 0 <= op < 256 -> vecLaneOperation op = None -> vecOperation op = Some o -> emitted (vecSignature op) o
  | emitted_fence : emitted (atomicSignature OpcodeAtomicFence) newOperationAtomicFence
  | emitted_atomic op tag mk arg : 0 <= op < 256 -> atomicOperation op = Some (tag, mk) -> emitted (atomicSignature op) (mk arg).

(** The rows of the tables: an opcode that has an operation has its signature. *)
Definition checkRow {A} (table : Z -> option A) (mk : A -> unionOperation) (sig : Z -> res signature) (op : Z) : bool :=
  match table op with Some a => agrees (mk a) (sig op) | None => true end.
Definition checkTable {A} (table : Z -> option A) (mk : A -> unionOperation) (sig : Z -> res signature) : bool :=
  forallb (checkRow table mk sig) (seqZ 0 256).
Lemma tables_agree arg lane :
  (checkTable memoryOperation (fun x => snd x arg) fixedSignature = true /\
   checkTable (fun op => match memoryOperation op with Some _ => None | None => simpleOperation op end) id fixedSignature = true) /\
  checkTable truncSatOperation id miscSignature = true /\
  (checkTable vecLoadOperation (fun x => snd x arg) vecSignature = true /\
   checkTable (fun op => orElse (vecLoadLaneOperation op) (vecStoreLaneOperation op)) (fun x => snd x arg lane) vecSignature = true /\
   checkTable vecLaneOperation (fun mk => mk lane) vecSignature = true /\
   checkTable (fun op => match vecLaneOperation op with Some _ => None | None => vecOperation op end) id vecSignature = true) /\
  checkTable atomicOperation (fun x => snd x arg) atomicSignature = true.
Proof. split_and!; vm_compute; reflexivity. Qed.
Lemma checkTable_row {A} (table : Z -> option A) mk sig op a :
  checkTable table mk sig = true -> 0 <= op < 256 -> table op = Some a -> agrees (mk a) (sig op) = true.
Proof.
  unfold checkTable. rewrite forallb_forall. intros H Hop Ha. specialize (H op). unfold checkRow in H. rewrite Ha in H. apply H.
  apply list_elem_of_In, elem_of_seqZ. lia.
Qed.
Lemma emitted_agrees sig o : emitted sig o -> agrees o sig = true.
Proof.
  intros [op tag mk arg Hop Ht|op o' Hop Hm Ht| | | | |op o' Hop Ht| | |op tag mk arg Hop Ht|op tag mk arg lane Hop Ht|op mk lane Hop Ht|
    op o' Hop Hm Ht| |op tag mk arg Hop Ht]; try reflexivity.
  - exact (checkTable_row _ (fun x => snd x arg) _ op (tag, mk) (proj1 (proj1 (tables_agree arg 0))) Hop Ht).
  - eapply (checkTable_row _ id _ op o' (proj2 (proj1 (tables_agree (mkMemoryArg 0 0) 0))) Hop). by rewrite Hm.
  - exact (checkTable_row _ id _ op o' (proj1 (proj2 (tables_agree (mkMemoryArg 0 0) 0))) Hop Ht).
  - destruct (tables_agree arg 0) as (_ & _ & (H & _) & _). exact (checkTable_row _ (fun x => snd x arg) _ op (tag, mk) H Hop Ht).
  - destruct (tables_agree arg lane) as (_ & _ & (_ & H & _) & _). exact (checkTable_row _ (fun x => snd x arg lane) _ op (tag, mk) H Hop Ht).
  - destruct (tables_agree (mkMemoryArg 0 0) lane) as (_ & _ & (_ & _ & H & _) & _).
    exact (checkTable_row _ (fun mk => mk lane) _ op mk H Hop Ht).
  - destruct (tables_agree (mkMemoryArg 0 0) 0) as (_ & _ & (_ & _ & _ & H) & _).
    eapply (checkTable_row _ id _ op o' H Hop). by rewrite Hm.
  - destruct (tables_agree arg 0) as (_ & _ & _ & H). exact (checkTable_row _ (fun x => snd x arg) _ op (tag, mk) H Hop Ht).
Qed.

(** ** Execution follows the arity *)

Section Execute.
Context `{P : Pointers} `{N : NaNs}.
Context (newChannel : waitState -> Z) (park : positive -> Z -> X Z) (callee : function -> X unit) (m mi : positive).
(** Waiting leaves the stack and the memory as they are. *)
Context (park_acts : forall p id top, acts mi top (park p id) (fun _ t => t = top)).

Abbreviation acts := (acts mi).
Definition leaves (r : nat) (_ : unit) (t : list Z) : Prop := length t = r.

Lemma acts_advance t r : length t = r -> acts t advance (leaves r).
Proof.
  intros Ht s st Hr Hs. unfold advance, updateFrame, modifyX.
  destruct s as [sk fr sh]. cbn in *. destruct fr as [|f l]; cbn; (split; [by eapply ready_same; [|exact Hr]|by exists t]).
Qed.
Lemma acts_next top c r : acts top c (leaves r) -> acts top (thenNext c) (leaves r).
Proof. intros Hc. unfold thenNext. eapply acts_bind; [exact Hc|]. intros ? t Ht. by apply acts_advance. Qed.
Lemma acts_popVector hi lo top : acts (hi :: lo :: top) popVector (fun _ t => t = top).
Proof.
  unfold popVector. eapply acts_bind; [apply acts_pop|]. intros ? ? [-> ->]. eapply acts_bind; [apply acts_pop|]. intros ? ? [-> ->].
  eapply acts_mono; [apply acts_ret|]. by intros ? ? [_ ->].
Qed.
Lemma acts_pushes v top r : length top = r -> acts top (pushValue v) (leaves (S r)).
Proof. intros <-. eapply acts_mono; [apply acts_push|]. by intros ? ? ->. Qed.
Lemma acts_pushVector x top r : length top = r -> acts top (pushVector x) (leaves (S (S r))).
Proof. intros Hr. unfold pushVector. eapply acts_bind; [apply acts_push|]. intros ? ? ->. apply acts_pushes. cbn. by rewrite Hr. Qed.
Lemma acts_done top r : length top = r -> acts top (mret tt) (leaves r).
Proof. intros <-. eapply acts_mono; [apply acts_ret|]. by intros ? ? [_ ->]. Qed.
Lemma acts_unless b msg top r : length top = r -> acts top (trapUnless b msg) (leaves r).
Proof. intros Hr. unfold trapUnless. destruct b; [by apply acts_done|apply acts_trap]. Qed.
Lemma acts_writeMemory f top r : length top = r ->
  (forall mem e, f mem <> Panic e) -> (forall mem ok mem', f mem = Ok (ok, mem') -> zlen (Buffer mem') = zlen (Buffer mem)) ->
  acts top (writeMemory mi f) (leaves r).
Proof. intros Hr Hn Hl. unfold writeMemory. apply acts_write; [done|done|]. intros ok. by apply acts_unless. Qed.

(** Follows an action on a top of known length. *)
Ltac act_step :=
  lazymatch goal with
  | |- acts _ (popValue ≫= _) _ => eapply acts_bind; [apply acts_pop|intros ? ? [-> ->]; cbn beta]
  | |- acts _ (popVector ≫= _) _ => eapply acts_bind; [apply acts_popVector|intros ? ? ->; cbn beta]
  | |- acts _ (popMemoryOffset _ ≫= _) _ => eapply acts_bind; [apply acts_offset|intros ? ? [? ->]; cbn beta zeta]
  | |- acts _ (readMemory _ _ ≫= _) _ =>
      eapply acts_bind; [apply acts_read; intros ? ? ?; first [by apply read_byte_ok|by apply (read_uint_ok 4)|by apply (read_uint_ok 8)|
        by apply read_16_ok|by apply read_ok|by apply readN_ok]|intros ? ? ->; cbn beta]
  | |- acts _ (pushValue _) _ => by apply acts_pushes
  | |- acts _ (pushBool _) _ => by apply acts_pushes
  | |- acts _ (pushVector _) _ => by apply acts_pushVector
  | |- acts _ (mret tt) _ => by apply acts_done
  | |- acts _ (trap _) _ => apply acts_trap
  | |- acts _ (writeMemory _ _) _ =>
      apply acts_writeMemory; [done|intros ? ?; first [by apply write_byte_ok|by apply (write_uint_ok 2)|by apply (write_uint_ok 4)|
        by apply (write_uint_ok 8)|by apply writeN_ok]|intros ? ? ?; first [by apply writeByte_len|by apply (writeN_len 2)|by apply (writeN_len 4)|
        by apply (writeN_len 8)|by apply writeN_len]]
  | |- acts _ (aligned _ _ ≫= _) _ =>
      eapply acts_bind; [apply (acts_unless _ _ _ _ eq_refl)|]
  | |- acts _ (if ?b then _ else _) _ => destruct b
  end.
Ltac act := repeat act_step.

Lemma acts_unary o f v : unaryOperation o = Some f -> (forall e, f v <> Panic e) -> f v <> Ok None ->
  acts [v] (execValues o) (leaves 1).
Proof.
  intros Ho Hn Hs. unfold execValues. rewrite Ho. act_step. eapply acts_bind; [by apply acts_lift|].
  intros [r|] t [E ->]; [by apply acts_pushes|done].
Qed.
Lemma acts_binary o f v1 v2 : unaryOperation o = None -> binaryOperation o = Some f -> (forall e, f v1 v2 <> Panic e) -> f v1 v2 <> Ok None ->
  acts [v2; v1] (execValues o) (leaves 1).
Proof.
  intros Hu Ho Hn Hs. unfold execValues. rewrite Hu, Ho. do 2 act_step. eapply acts_bind; [by apply acts_lift|].
  intros [r|] t [E ->]; [by apply acts_pushes|done].
Qed.

(** *** Evaluations that have a result *)

Lemma trunc_ok lo hi above b v e : truncTo lo hi above b v <> Panic e.
Proof. unfold truncTo. by repeat case_match. Qed.
Lemma itrunc_ok a t b v : between 0 t 3 = true -> (forall e, evalITruncFromF a t b v <> Panic e) /\ evalITruncFromF a t b v <> Ok None.
Proof.
  intros Ht. unfold between in Ht. unfold evalITruncFromF, signedInt32, signedInt64, signedUint32, signedUint64. cbn zeta.
  set (x := mathTrunc _). clearbody x.
  destruct (Z.eqb_spec t 0); [|destruct (Z.eqb_spec t 2); [|destruct (Z.eqb_spec t 1); [|destruct (Z.eqb_spec t 3); [|lia]]]];
    repeat case_match; try lia;
    match goal with |- context [truncTo ?lo ?hi ?ab ?b ?x] => pose proof (trunc_ok lo hi ab b x); destruct (truncTo lo hi ab b x) eqn:E end;
    cbn; split; try done; congruence.
Qed.
Lemma fconvert_ok t o v : between 0 t 3 = true -> evalFConvertFromI t o v <> None.
Proof.
  intros Ht. unfold between in Ht. unfold evalFConvertFromI, signedInt32, signedInt64, signedUint32, signedUint64. cbn zeta.
  repeat case_match; try done; lia.
Qed.
Lemma arith_ok f g t v1 v2 : between 0 t 3 = true -> evalArith f g t v1 v2 <> None.
Proof.
  intros Ht. unfold between in Ht. unfold evalArith, unsignedTypeI32, unsignedTypeI64, unsignedTypeF32, unsignedTypeF64.
  repeat case_match; try done; lia.
Qed.
Lemma shr_ok t v1 v2 : between 0 t 3 = true -> evalShr t v1 v2 <> None.
Proof.
  intros Ht. unfold between in Ht. unfold evalShr, signedInt32, signedInt64, signedUint32, signedUint64. repeat case_match; try done; lia.
Qed.
Lemma rem_ok t v1 v2 : between 0 t 3 = true -> (forall e, evalRem t v1 v2 <> Panic e) /\ evalRem t v1 v2 <> Ok None.
Proof.
  intros Ht. unfold between in Ht. unfold evalRem, signedInt32, signedInt64, signedUint32, signedUint64.
  split; [intros e|]; repeat case_match; cbn in *; try done; try congruence; simplify_eq; lia.
Qed.
Lemma div_ok t v1 v2 : between 0 t 5 = true -> (forall e, evalDiv t v1 v2 <> Panic e) /\ evalDiv t v1 v2 <> Ok None.
Proof.
  intros Ht. unfold between in Ht.
  unfold evalDiv, signedTypeInt32, signedTypeInt64, signedTypeUint32, signedTypeUint64, signedTypeFloat32, signedTypeFloat64.
  split; [intros e|]; repeat case_match; cbn in *; try done; try congruence; simplify_eq; lia.
Qed.
Lemma vadd_ok t x y : between 0 t 5 = true -> v128Add t x y <> None.
Proof.
  intros Ht. unfold between in Ht. unfold v128Add, shapeI8x16, shapeI16x8, shapeI32x4, shapeI64x2, shapeF32x4, shapeF64x2.
  repeat case_match; try done; lia.
Qed.
Lemma vsub_ok t x y : between 0 t 5 = true -> v128Sub t x y <> None.
Proof.
  intros Ht. unfold between in Ht. unfold v128Sub, shapeI8x16, shapeI16x8, shapeI32x4, shapeI64x2, shapeF32x4, shapeF64x2.
  repeat case_match; try done; lia.
Qed.

(** *** Vectors, memory and atomics *)

Lemma acts_vunary o f top : unaryOperation o = None -> binaryOperation o = None -> vectorUnary o = Some f -> length top = 2%nat ->
  acts top (execValues o) (leaves 2).
Proof. intros Hu Hb Ho Hl. destruct top as [|a [|b [|]]]; try done. unfold execValues. rewrite Hu, Hb, Ho. act. Qed.
Lemma acts_vbinary o f top : unaryOperation o = None -> binaryOperation o = None -> vectorUnary o = None -> vectorBinary o = Some f ->
  (forall x y, exists r, f x y = Ok (Some r)) -> length top = 4%nat -> acts top (execValues o) (leaves 2).
Proof.
  intros Hu Hb Hv Ho Hf Hl. destruct top as [|a [|b [|c [|d [|]]]]]; try done. unfold execValues. rewrite Hu, Hb, Hv, Ho. do 2 act_step.
  match goal with |- acts _ (liftX (f ?x ?y) ≫= _) _ => destruct (Hf x y) as [r ->] end.
  eapply acts_bind; [by apply acts_lift|]. intros [r'|] t [E ->]; [by apply acts_pushVector|done].
Qed.

Lemma acts_withWidth (n : option Z) top f r : n <> None -> (forall k, acts top (f k) r) -> acts top (withWidth n f) r.
Proof. intros Hn Hf. unfold withWidth. destruct n; [apply Hf|done]. Qed.
Lemma width_ok t : between 0 t 1 = true -> atomicWidth t <> None.
Proof. unfold between, atomicWidth, unsignedTypeI32, unsignedTypeI64. intros H. repeat case_match; try done; lia. Qed.

Lemma acts_rmw n o b v top r : is_u32 o -> length top = r -> acts top (atomicRMWN mi n o b v) (leaves (S r)).
Proof.
  intros Ho Hr. unfold atomicRMWN. act_step. intros ? t Ht. act_step.
  apply (acts_write mi t (fun mem => writeN n mem o (atomicArithmetic (8 * n) b a0 v)) (fun _ => pushValue a0)).
  - intros mem e. by apply writeN_ok.
  - intros mem ok mem'. apply writeN_len.
  - intros ok. apply acts_pushes. unfold leaves in Ht. congruence.
Qed.
Lemma acts_cmpxchg n o e rep top r : is_u32 o -> length top = r -> acts top (atomicCmpxchgN mi n o e rep) (leaves (S r)).
Proof.
  intros Ho Hr. unfold atomicCmpxchgN. act_step. intros ? t Ht. act_step. unfold leaves in Ht.
  eapply acts_bind with (Q := fun _ t' => length t' = r).
  - destruct (_ =? _); [|by apply acts_done; congruence].
    eapply acts_mono; [apply (acts_set mi t (fun mem => writeN n mem o (word (8 * n) rep)))|].
    + intros mem e'. by apply writeN_ok.
    + intros mem ok mem'. apply writeN_len.
    + intros ? ? ->. congruence.
  - intros ? t' Ht'. by apply acts_pushes.
Qed.

Lemma acts_wait n o e tm top r : is_u32 o -> length top = r -> acts top (waitN newChannel park mi n o e tm) (leaves (S r)).
Proof using park_acts.
  intros Ho Hr. unfold waitN. act_step. intros ? t Ht. unfold leaves in Ht. eapply acts_bind; [apply acts_memory|].
  intros [p mem] t' [Hl ->]. destruct (_ >? _); [apply acts_trap|]. eapply acts_bind; [apply acts_lift; intros ?; by apply readN_ok|].
  intros [cur b] t' [_ ->]. eapply acts_bind; [apply acts_gets|]. intros ws ? ->. cbn zeta. destruct (Wait _ _ _ _ _ _); [|apply acts_trap..].
  eapply acts_bind; [apply acts_shared; by intros ?|]. intros ? ? ->.
  eapply acts_bind with (Q := fun _ t' => t' = t).
  - destruct (_ !! _); [|apply park_acts]. eapply acts_mono; [apply acts_ret|]. by intros ? ? [_ ->].
  - intros ? ? ->. apply acts_pushes. congruence.
Qed.

(** *** The operations on the memory *)

Lemma four_types t : between 0 t 3 = true -> one_of t [0; 2] || one_of t [1; 3] = true.
Proof. unfold between, one_of. cbn. intros H. destruct (Z.eqb_spec t 0), (Z.eqb_spec t 1), (Z.eqb_spec t 2), (Z.eqb_spec t 3); cbn; lia || done. Qed.

Lemma acts_load o v : between 0 (B1 o) 3 = true -> acts [v] (execLoad mi o) (leaves 1).
Proof.
  intros Hb%four_types. unfold execLoad. act_step. change (is32 (B1 o)) with (one_of (B1 o) [0; 2]). change (is64 (B1 o)) with (one_of (B1 o) [1; 3]).
  destruct (one_of _ [0; 2]); [act|]. rewrite orb_false_l in Hb. rewrite Hb. act.
Qed.
Lemma extend_ok w t v : between 0 t 3 = true -> extendLoaded w t v <> None.
Proof. intros Ht. unfold between in Ht. unfold extendLoaded, one_of, signedInt32, signedInt64, signedUint32, signedUint64. cbn [existsb]. repeat case_match; try done; lia. Qed.
Lemma acts_pushOption x top r : x <> None -> length top = r -> acts top (pushOption x) (leaves (S r)).
Proof. intros Hx Hr. destruct x; [by apply acts_pushes|done]. Qed.
Lemma acts_load8 o v : between 0 (B1 o) 3 = true -> acts [v] (execLoad8 mi o) (leaves 1).
Proof. intros Hb. unfold execLoad8. act. by apply acts_pushOption; [apply extend_ok|]. Qed.
Lemma acts_load16 o v : between 0 (B1 o) 3 = true -> acts [v] (execLoad16 mi o) (leaves 1).
Proof. intros Hb. unfold execLoad16. act. by apply acts_pushOption; [apply extend_ok|]. Qed.
Lemma acts_load32 o v : acts [v] (execLoad32 mi o) (leaves 1).
Proof. unfold execLoad32. act. Qed.
Lemma acts_store o v a : between 0 (B1 o) 3 = true -> acts [v; a] (execStore mi o) (leaves 0).
Proof.
  intros Hb%four_types. unfold execStore. do 2 act_step. change (is32 (B1 o)) with (one_of (B1 o) [0; 2]). change (is64 (B1 o)) with (one_of (B1 o) [1; 3]).
  destruct (one_of _ [0; 2]); [act|]. rewrite orb_false_l in Hb. rewrite Hb. act.
Qed.
Lemma acts_store8 o v a : acts [v; a] (execStore8 mi o) (leaves 0).
Proof. unfold execStore8. act. Qed.
Lemma acts_store16 o v a : acts [v; a] (execStore16 mi o) (leaves 0).
Proof. unfold execStore16. act. Qed.
Lemma acts_store32 o v a : acts [v; a] (execStore32 mi o) (leaves 0).
Proof. unfold execStore32. act. Qed.

Lemma acts_vload o v : between v128LoadType128 (B1 o) v128LoadType64zero = true -> acts [v] (execV128Load mi o) (leaves 2).
Proof.
  intros Hb. unfold execV128Load. act_step. cbn zeta. destruct (Z.eqb_spec (B1 o) v128LoadType128).
  - act_step. eapply acts_bind; [apply acts_push|]. intros ? ? ->. pose proof (wrap32_range (a + 8)). act.
  - destruct (between v128LoadType8x8s _ _) eqn:E1; [act; apply read_ok; done || lia|].
    destruct (Z.eqb_spec (B1 o) v128LoadType8Splat); [act|]. destruct (Z.eqb_spec (B1 o) v128LoadType16Splat); [act|].
    destruct (Z.eqb_spec (B1 o) v128LoadType32Splat); [act|]. destruct (Z.eqb_spec (B1 o) v128LoadType64Splat); [act|].
    destruct (Z.eqb_spec (B1 o) v128LoadType32zero); [act|]. destruct (Z.eqb_spec (B1 o) v128LoadType64zero); [act|].
    exfalso. unfold between, v128LoadType8x8s, v128LoadType32x2u, v128LoadType128, v128LoadType64zero, v128LoadType8Splat, v128LoadType16Splat,
      v128LoadType32Splat, v128LoadType64Splat, v128LoadType32zero in *. lia.
Qed.
Lemma acts_vloadLane o hi lo v : acts [hi; lo; v] (execV128LoadLane mi o) (leaves 2).
Proof.
  unfold execV128LoadLane. do 2 act_step. eapply acts_bind with (Q := fun _ t => t = []); [|intros ? ? ->; act].
  act; eapply acts_mono; try apply acts_ret; by intros ? ? [_ ->].
Qed.
Lemma acts_vstore o hi lo v : acts [hi; lo; v] (execV128Store mi o) (leaves 0).
Proof.
  unfold execV128Store. act. pose proof (wrap32_range (a0 + 8)). eapply acts_bind with (Q := leaves 0); [act|].
  intros ? t ->%nil_length_inv. act.
Qed.
Lemma acts_vstoreLane o hi lo v : acts [hi; lo; v] (execV128StoreLane mi o) (leaves 0).
Proof. unfold execV128StoreLane. act. Qed.

Lemma acts_atomicLoad n o v : n <> None -> acts [v] (execAtomicLoad mi n o) (leaves 1).
Proof.
  intros Hn. unfold execAtomicLoad. act_step. apply acts_withWidth; [done|]. intros k. unfold atomicLoadN. act_step.
  intros ? t ->%nil_length_inv. act.
Qed.
Lemma acts_atomicStore n o v a : n <> None -> acts [v; a] (execAtomicStore mi n o) (leaves 0).
Proof.
  intros Hn. unfold execAtomicStore. do 2 act_step. apply acts_withWidth; [done|]. intros k. unfold atomicStoreN. act_step.
  intros ? t ->%nil_length_inv. act.
Qed.
Lemma acts_atomicRMW n o v a : n <> None -> acts [v; a] (execAtomicRMW mi n o) (leaves 1).
Proof. intros Hn. unfold execAtomicRMW. do 2 act_step. apply acts_withWidth; [done|]. intros k. by apply acts_rmw. Qed.
Lemma acts_atomicCmpxchg n o v w a : n <> None -> acts [v; w; a] (execAtomicCmpxchg mi n o) (leaves 1).
Proof. intros Hn. unfold execAtomicCmpxchg. do 3 act_step. apply acts_withWidth; [done|]. intros k. by apply acts_cmpxchg. Qed.
Lemma acts_notify o c a : acts [c; a] (execNotify mi o) (leaves 1).
Proof.
  unfold execNotify. do 3 act_step. intros ? t ->%nil_length_inv. eapply acts_bind; [apply acts_memory|]. intros [p mem] t [_ ->].
  destruct (_ >=? _); [apply acts_trap|]. eapply acts_bind; [apply acts_gets|]. intros [k st] ? ->.
  eapply acts_bind; [apply acts_shared; by intros ?|]. intros ? ? ->. act.
Qed.
Lemma acts_memoryWait o t e a : between 0 (B1 o) 1 = true -> acts [t; e; a] (execWait newChannel park mi o) (leaves 1).
Proof using park_acts.
  intros Hb%width_ok. unfold execWait. do 3 act_step. eapply acts_bind; [apply acts_memory|]. intros [p mem] t' [_ ->].
  destruct (negb _); [apply acts_trap|]. apply acts_withWidth; [done|]. intros k. by apply acts_wait.
Qed.

(** *** The operations on values *)

(** Runs the operation of a known kind. *)
Ltac known := unfold Interp.execute; cbn [OpKind]; apply acts_next.
Ltac unary := eapply acts_unary; [reflexivity|intros ?; cbn beta|cbn beta].
Ltac binary := eapply acts_binary; [reflexivity|reflexivity|intros ?; cbn beta|cbn beta].
Ltac vector :=
  unfold execValues; cbn [unaryOperation binaryOperation vectorUnary vectorBinary OpKind]; unfold execVector; cbn [OpKind]; act.

Lemma arity_acts o a r top : arity o = Some (a, r) -> length top = a -> acts top (Interp.execute newChannel park callee m mi o) (leaves r).
Proof using park_acts.
  destruct o as [k b1 b2 b3 u1 u2 u3 us]. intros Ha Hl. destruct k; try discriminate Ha; cbn [arity OpKind B1 B2 B3] in Ha.
  all: try (destruct (between _ _ _) eqn:Eb; [|discriminate Ha]); injection Ha as <- <-.
  all: destruct top as [|x1 [|x2 [|x3 [|x4 [|x5 [|x6 [|x7 l]]]]]]]; try discriminate Hl; clear Hl.
  all: try (known; unary; discriminate).
  all: try (known; binary; discriminate).
  all: try (known; eapply acts_vunary; reflexivity).
  all: try (known; vector; fail).
  all: try (known; first [by apply acts_load|by apply acts_load8|by apply acts_load16|apply acts_load32|by apply acts_store|apply acts_store8|
    apply acts_store16|apply acts_store32|by apply acts_vload|apply acts_vloadLane|apply acts_vstore|apply acts_vstoreLane|
    by apply acts_memoryWait|apply acts_notify]; fail).
  all: try (known; first [apply acts_atomicLoad|apply acts_atomicStore|apply acts_atomicRMW|apply acts_atomicCmpxchg]; first [discriminate|by apply width_ok]).
  all: try (known; eapply acts_vbinary; [reflexivity..|intros ? ?; eexists; reflexivity|reflexivity]).
  - known. binary; [discriminate|]. intros [= Hx]. revert Hx. by apply arith_ok.
  - known. binary; [discriminate|]. intros [= Hx]. revert Hx. by apply arith_ok.
  - known. binary; [discriminate|]. intros [= Hx]. revert Hx. by apply arith_ok.
  - known. binary; [by apply div_ok|by apply div_ok].
  - known. binary; [by apply rem_ok|by apply rem_ok].
  - known. binary; [discriminate|]. intros [= Hx]. revert Hx. by apply shr_ok.
  - known. unary; [by apply itrunc_ok|by apply itrunc_ok].
  - known. unary; [discriminate|]. intros [= Hx]. revert Hx. by apply fconvert_ok.
  - known. eapply acts_vbinary; [reflexivity..|intros x y|reflexivity]. pose proof (vadd_ok b1 x y Eb). destruct (v128Add b1 x y) eqn:E; [|done].
    eexists. cbn. by rewrite E.
  - known. eapply acts_vbinary; [reflexivity..|intros x y|reflexivity]. pose proof (vsub_ok b1 x y Eb). destruct (v128Sub b1 x y) eqn:E; [|done].
    eexists. cbn. by rewrite E.
  - unfold Interp.execute. cbn [OpKind]. by apply acts_advance.
Qed.

(** C9: the signatures of signature.go, the operations that compiler.go emits and
    the interpreter agree.  For every opcode of the numeric, conversion, memory,
    constant, vector and atomic tables the compiler has a signature [sg], and
    executing the operation it emits, with the slots of the inputs of [sg] on the
    top of the stack, leaves the slots of its outputs in their place and the rest
    of the stack as it was, or ends in a trap: never in a panic of Go.  The
    instance has a memory of less than 4 GiB; waiting ([park]) keeps the stack. *)
Theorem operations_follow_signatures sig o :
  emitted sig o ->
  exists sg, sig = Ok sg /\ forall top st s,
    length top = slotsOf (sig_in sg) -> ready mi s -> stack s = top ++ st ->
    match Interp.execute newChannel park callee m mi o s with
    | (s', Done _) => exists top', stack s' = top' ++ st /\ length top' = slotsOf (sig_out sg)
    | (_, Raised (Trap _)) => True
    | _ => False
    end.
Proof using park_acts.
  intros He%emitted_agrees. unfold agrees in He. destruct sig as [sg|e|e]; [|done..]. apply bool_decide_eq_true in He.
  exists sg. split; [done|]. intros top st s Hl Hr Hs. pose proof (arity_acts o _ _ top He Hl s st Hr Hs) as H.
  destruct (Interp.execute _ _ _ _ _ _ _) as [s' [a|p|]]; [|done|done]. destruct H as (_ & top' & ? & ?). by exists top'.
Qed.
End Execute.

(** [v128.load8_lane] on an instance with a memory of ten bytes: the address and the vector give the vector. *)
Lemma operations_follow_signatures_witness (s := memoryMachine smallMemory [1; 2; 3; 99]) :
  exists o sg, emitted (vecSignature OpcodeVecV128Load8Lane) o /\ vecSignature OpcodeVecV128Load8Lane = Ok sg /\
    let '(s', r) := Interp.execute (P := namedPointers) (N := canonicalNaNs) (fun _ => 0) (fun _ _ => mret 2) (fun _ => mret tt) 1 1 o s in
    r = Done tt /\ exists top', stack s' = top' ++ [99] /\ length top' = 2%nat.
Proof.
  assert (He : emitted (vecSignature OpcodeVecV128Load8Lane) (newOperationV128LoadLane 5 8 (mkMemoryArg 0 0))).
  { eapply (emitted_vecMemoryLane OpcodeVecV128Load8Lane _ (fun arg lane => newOperationV128LoadLane lane 8 arg) _ 5); [by vm_compute|reflexivity]. }
  assert (Hp : forall (p : positive) (id : Z) (top : list Z), acts 1 top (mret 2 : X Z) (fun _ t => t = top)).
  { intros p id top. eapply acts_mono; [apply acts_ret|by intros ? ? [_ ->]]. }
  destruct (operations_follow_signatures (P := namedPointers) (N := canonicalNaNs) (fun _ => 0) (fun _ _ => mret 2) (fun _ => mret tt) 1 1 Hp
    (vecSignature OpcodeVecV128Load8Lane) (newOperationV128LoadLane 5 8 (mkMemoryArg 0 0)) He) as (sg & Hsg & H).
  exists (newOperationV128LoadLane 5 8 (mkMemoryArg 0 0)), sg. split; [exact He|]. split; [exact Hsg|].
  specialize (H [1; 2; 3] [99] s). injection Hsg as <-.
  specialize (H eq_refl ltac:(by exists 1%positive, smallMemory; split; [apply memoryMachine_has|vm_compute]) eq_refl).
  revert H. clear. destruct (Interp.execute _ _ _ _ _ _ _) as [s' r] eqn:E. assert (Hr : r = Done tt) by (by vm_compute in E; injection E as _ <-).
  subst r. intros (top' & ? & ?). split; [done|]. by exists top'.
Defined.
