(* ===== verification/GoPath.v ===== *)
(** * Paths (src/imports/wasi_snapshot_preview1/fs.go, internal/sys/fs.go, internal/sysfs/dirfs.go)

    The checks that the WASI functions make on the paths of a guest, with what
    they use of Go's [path], [io/fs] and [strings].  Strings are lists of bytes.
    A path that passes [atPath] has no element [..]: what [path.Clean] leaves of
    a relative path has one only when the path climbs above its start. *)

From S2P Require Import Prelude Binary.

Definition path : Type := list Z.
Definition slash : Z := 47.
Definition dot : path := [46].
Definition dotdot : path := [46; 46].

(** ** strings *)

(** [strings.Split(s, sep)] for a separator of one byte *)
Fixpoint Split (sep : Z) (s : path) : list path :=
  match s with
  | [] => [[]]
  | c :: s' =>
      if c =? sep then [] :: Split sep s'
      else match Split sep s' with e :: es => (c :: e) :: es | [] => [[c]] end
  end.
(** [strings.Join] *)
Fixpoint Join (sep : Z) (l : list path) : path :=
  match l with
  | [] => []
  | [e] => e
  | e :: l' => e ++ sep :: Join sep l'
  end.
Definition HasSuffixSlash (s : path) : bool := match rev s with c :: _ => c =? slash | [] => false end.
(** [strings.ToUpper], on ASCII *)
Definition ToUpper (s : path) : path := map (fun c => if between 97 c 122 then c - 32 else c) s.
(** The part before the first [sep], as of [strings.Cut] *)
Fixpoint Cut (sep : Z) (s : path) : path :=
  match s with [] => [] | c :: s' => if c =? sep then [] else c :: Cut sep s' end.

(** ** path and io/fs *)

(** One element of [path.Clean]; the elements kept so far are in reverse order. *)
Definition cleanElement (rooted : bool) (out : list path) (e : path) : list path :=
  if bool_decide (e = []) || bool_decide (e = dot) then out
  else if bool_decide (e = dotdot) then
    match out with
    | x :: out' => if bool_decide (x = dotdot) then (if rooted then out else e :: out) else out'
    | [] => if rooted then [] else [e]
    end
  else e :: out.

Definition rootedPath (p : path) : bool := match p with c :: _ => c =? slash | [] => false end.

(** [path.Clean] *)
Definition Clean (p : path) : path :=
  let rooted := rootedPath p in
  let out := rev (fold_left (cleanElement rooted) (Split slash p) []) in
  if rooted then slash :: Join slash out
  else match out with [] => dot | _ => Join slash out end.

Definition validElement (e : path) : bool :=
  negb (bool_decide (e = []) || bool_decide (e = dot) || bool_decide (e = dotdot)).
(** [fs.ValidPath] *)
Definition ValidPath (p : path) : bool :=
  validUTF8 p && (bool_decide (p = dot) || forallb validElement (Split slash p)).

(** ** The repository's own functions *)

Definition reservedNames : list path :=
  let digits := map (fun d => 48 + d) (seqZ 1 9) in
  [[67; 79; 78]; [80; 82; 78]; [65; 85; 88]; [78; 85; 76]]
  ++ map (fun d => [67; 79; 77; d]) digits ++ map (fun d => [76; 80; 84; d]) digits.
Definition isWindowsReservedDeviceName (name : path) : bool := bool_decide (ToUpper name ∈ reservedNames).
Definition windowsPathNeedsEscape (pathName : path) : bool :=
  existsb (fun c => one_of c [92; 58]) pathName
  || existsb (fun elem => isWindowsReservedDeviceName (Cut 46 elem)) (Split slash pathName).
Definition pathEscapesOnWindows (windows : bool) (pathName : path) : bool :=
  if negb windows then false else windowsPathNeedsEscape pathName.

(** The loop of [StripPrefixesAndTrailingSlash] over the bytes that are left. *)
Fixpoint stripPrefixes (s : path) : path :=
  match s with
  | [] => []
  | c :: s' =>
      if c =? slash then stripPrefixes s'
      else if c =? 46 then
        match s' with
        | [] => []
        | d :: s'' => if d =? slash then stripPrefixes s'' else s
        end
      else s
  end.
Fixpoint dropSlashes (s : path) : path :=
  match s with c :: s' => if c =? slash then dropSlashes s' else s | [] => [] end.
Definition StripPrefixesAndTrailingSlash (p : path) : path := stripPrefixes (rev (dropSlashes (rev p))).

(** [dirFS.join] for the directory [cleanedDir], which ends in a separator *)
Definition dirFS_join (cleanedDir p : path) : path :=
  if bool_decide (p ∈ [[]; dot; [slash]]) then
    if bool_decide (cleanedDir = [slash]) then [slash] else take (length cleanedDir - 1) cleanedDir
  else cleanedDir ++ p.

(** ** Elements *)

Lemma Split_nonempty sep s : Split sep s <> [].
Proof. destruct s as [|c s]; [done|]. cbn. destruct (c =? sep); [done|]. by destruct (Split sep s). Qed.
Lemma Split_app sep s t : Split sep (s ++ sep :: t) = Split sep s ++ Split sep t.
Proof.
  induction s as [|c s IH]; cbn.
  - by rewrite Z.eqb_refl.
  - destruct (c =? sep); [by rewrite IH|]. rewrite IH. pose proof (Split_nonempty sep s). by destruct (Split sep s).
Qed.
Lemma Split_element sep e : Forall (fun c => c <> sep) e -> Split sep e = [e].
Proof.
  induction e as [|c e IH]; [done|]. intros [Hc He]%Forall_cons. cbn. rewrite (proj2 (Z.eqb_neq _ _) Hc). by rewrite IH.
Qed.
Lemma Split_elements sep s : Forall (fun e => Forall (fun c => c <> sep) e) (Split sep s).
Proof.
  induction s as [|c s IH]; cbn; [by repeat constructor|]. destruct (Z.eqb_spec c sep).
  - by apply Forall_cons.
  - destruct (Split sep s) as [|e es]; [by repeat constructor|]. inversion IH; subst. apply Forall_cons; split; [|done]. by apply Forall_cons.
Qed.
Lemma Split_Join sep l : l <> [] -> Forall (fun e => Forall (fun c => c <> sep) e) l -> Split sep (Join sep l) = l.
Proof.
  induction l as [|e [|e' l] IH]; [done|intros _ [He _]%Forall_cons; by apply Split_element|].
  intros _ [He Hl]%Forall_cons. change (Join sep (e :: e' :: l)) with (e ++ sep :: Join sep (e' :: l)).
  rewrite Split_app, Split_element by done. by rewrite IH.
Qed.
Lemma Join_Split sep s : Join sep (Split sep s) = s.
Proof.
  induction s as [|c s IH]; [done|]. cbn. destruct (Z.eqb_spec c sep) as [->|].
  - pose proof (Split_nonempty sep s). destruct (Split sep s) eqn:E; [done|]. cbn. by rewrite <- IH.
  - destruct (Split sep s) as [|e es] eqn:E; [by destruct (Split_nonempty sep s)|]. destruct es; cbn in *; by rewrite <- IH.
Qed.

(** ** Paths that stay inside *)

(** No element climbs. *)
Definition inside (p : path) : Prop := Forall (fun e => e <> dotdot) (Split slash p).

Lemma inside_join p q : inside p -> inside q -> inside (p ++ slash :: q).
Proof. unfold inside. rewrite Split_app. apply Forall_app_2. Qed.
Lemma inside_suffix p : inside p -> inside (p ++ [slash]).
Proof. intros Hp. apply (inside_join p []); [done|]. by repeat constructor. Qed.
Lemma valid_inside p : ValidPath p = true -> inside p.
Proof.
  unfold ValidPath, inside. rewrite andb_true_iff, orb_true_iff. intros [_ [->%bool_decide_eq_true|H]]; [by repeat constructor|].
  rewrite forallb_forall in H. apply Forall_forall. intros e He ->. specialize (H dotdot ltac:(by apply list_elem_of_In)). done.
Qed.

(** The walk from the start: [..] goes up, which is not possible at the start. *)
Fixpoint staysFrom (depth : nat) (es : list path) : bool :=
  match es with
  | [] => true
  | e :: es' =>
      if bool_decide (e = []) || bool_decide (e = dot) then staysFrom depth es'
      else if bool_decide (e = dotdot) then match depth with O => false | S d => staysFrom d es' end
      else staysFrom (S depth) es'
  end.
Definition stays (p : path) : bool := staysFrom 0 (Split slash p).

(** What [Clean] keeps of a relative path: names only, or first an element that climbs. *)
Lemma clean_names es out :
  Forall (fun e => validElement e = true) out ->
  if staysFrom (length out) es then Forall (fun e => validElement e = true) (fold_left (cleanElement false) es out)
  else exists out', fold_left (cleanElement false) es out = out' ++ [dotdot].
Proof.
  assert (Hd : forall es out', exists out'', fold_left (cleanElement false) es (out' ++ [dotdot]) = out'' ++ [dotdot]).
  { clear. induction es as [|e es IH]; intros out'; [by exists out'|]. cbn [fold_left]. unfold cleanElement at 2.
    destruct (_ || _); [apply IH|]. destruct (bool_decide (e = dotdot)) eqn:E.
    - destruct out' as [|x out']; cbn [app].
      + rewrite (bool_decide_eq_true_2 (dotdot = dotdot)) by done. apply (IH [e]).
      + destruct (bool_decide (x = dotdot)); [apply (IH (e :: x :: out'))|apply IH].
    - apply (IH (e :: out')). }
  revert out. induction es as [|e es IH]; intros out Ho; [exact Ho|]. cbn [staysFrom fold_left]. unfold cleanElement at 2 4.
  destruct (bool_decide (e = []) || bool_decide (e = dot)) eqn:E1; [by apply IH|].
  destruct (bool_decide (e = dotdot)) eqn:E2.
  - apply bool_decide_eq_true in E2 as ->. destruct out as [|x out]; cbn [length].
    + apply (Hd es []).
    + apply Forall_cons in Ho as [Hx Ho]. rewrite (bool_decide_eq_false_2 (x = dotdot)); [by apply IH|]. by intros ->.
  - apply (IH (e :: out)). apply Forall_cons. split; [|done]. unfold validElement. by rewrite E1, E2.
Qed.
Lemma clean_elements rooted es out : Forall (fun e => Forall (fun c => c <> slash) e) es -> Forall (fun e => Forall (fun c => c <> slash) e) out ->
  Forall (fun e => Forall (fun c => c <> slash) e) (fold_left (cleanElement rooted) es out).
Proof.
  revert out. induction es as [|e es IH]; intros out Hes Ho; [exact Ho|]. apply Forall_cons in Hes as [He Hes]. cbn. apply IH; [done|].
  unfold cleanElement. repeat case_match; try done; try (by apply Forall_cons); subst; by apply Forall_cons in Ho as [_ ?].
Qed.

(** A path is accepted exactly when it is relative and never climbs above its start. *)
Lemma ValidPath_Clean p : ValidPath (Clean p) = validUTF8 (Clean p) && negb (rootedPath p) && stays p.
Proof.
  unfold ValidPath. rewrite <- andb_assoc. f_equal. unfold Clean. destruct (rootedPath p) eqn:Er; cbn [negb andb].
  { cbn. destruct (rev _); by cbn. }
  unfold stays. pose proof (clean_names (Split slash p) [] (Forall_nil_2 _)) as H. cbn [length] in H.
  pose proof (clean_elements false (Split slash p) [] (Split_elements slash p) (Forall_nil_2 _)) as Hs.
  set (out := fold_left _ _ _) in *. destruct (staysFrom 0 _).
  - destruct (rev out) as [|x l] eqn:E; [done|]. apply orb_true_intro. right. rewrite <- E. rewrite Split_Join; [|by rewrite E|by apply Forall_rev].
    apply forallb_forall. intros e He. rewrite Forall_forall in H. apply H, list_elem_of_In, in_rev, He.
  - destruct H as [out' H]. rewrite H in *. rewrite rev_app_distr. cbn [rev app].
    apply Forall_app in Hs as [Hs _]. rewrite Split_Join; [|done|apply Forall_cons; split; [by repeat constructor|by apply Forall_rev]].
    cbn [forallb]. rewrite (proj2 (andb_false_iff _ _)); [|by left]. rewrite orb_false_r.
    apply bool_decide_eq_false_2. by destruct (rev out').
Qed.
