(* ===== verification/WasiSys.v ===== *)
(** * Files of a guest (src/internal/sys/fs.go, sys.go, experimental/sys, internal/wasip1)

    The descriptor table of a guest with its entries, the cache behind
    fd_readdir, and the context of the WASI functions.  Files and file systems
    are implemented on the operating system, or by the embedder: their
    interfaces are the class [Host], over a state of the world.  [hostState] is
    what a WASI function works on: the memory of the guest, its descriptor
    table, the world, and the calls made so far on file systems, which the
    theorems about paths look at.  A function returns, fails with an errno,
    panics, or exits. *)

From S2P Require Import Prelude Types Memory Descriptor GoPath.

(** ** Numbers *)

(** experimental/sys/errno.go; zero is no error *)
Definition Errno : Type := Z.
Definition EACCES : Errno := 1.
Definition EAGAIN : Errno := 2.
Definition EBADF : Errno := 3.
Definition EEXIST : Errno := 4.
Definition EFAULT : Errno := 5.
Definition EINTR : Errno := 6.
Definition EINVAL : Errno := 7.
Definition EIO : Errno := 8.
Definition EISDIR : Errno := 9.
Definition ELOOP : Errno := 10.
Definition ENAMETOOLONG : Errno := 11.
Definition ENOENT : Errno := 12.
Definition ENOSYS : Errno := 13.
Definition ENOTDIR : Errno := 14.
Definition ERANGE : Errno := 15.
Definition ENOTEMPTY : Errno := 16.
Definition ENOTSOCK : Errno := 17.
Definition ENOTSUP : Errno := 18.
Definition EPERM : Errno := 19.
Definition EROFS : Errno := 20.
Definition EMFILE : Errno := 21.
Definition ESPIPE : Errno := 22.

(** experimental/sys/oflag.go: [O_APPEND] is the fourth of the block *)
Definition O_RDONLY : Z := 0.
Definition O_RDWR : Z := 1.
Definition O_WRONLY : Z := 2.
Definition O_APPEND : Z := 2 ^ 3.
Definition O_CREAT : Z := 2 ^ 4.
Definition O_DIRECTORY : Z := 2 ^ 5.
Definition O_DSYNC : Z := 2 ^ 6.
Definition O_EXCL : Z := 2 ^ 7.
Definition O_NOFOLLOW : Z := 2 ^ 8.
Definition O_NONBLOCK : Z := 2 ^ 9.
Definition O_RSYNC : Z := 2 ^ 10.
Definition O_SYNC : Z := 2 ^ 11.
Definition O_TRUNC : Z := 2 ^ 12.

(** internal/wasip1: errno.go *)
Definition ErrnoSuccess : Z := 0.
Definition ErrnoAcces : Z := 2.
Definition ErrnoAgain : Z := 6.
Definition ErrnoBadf : Z := 8.
Definition ErrnoExist : Z := 20.
Definition ErrnoFault : Z := 21.
Definition ErrnoIntr : Z := 27.
Definition ErrnoInval : Z := 28.
Definition ErrnoIo : Z := 29.
Definition ErrnoIsdir : Z := 31.
Definition ErrnoLoop : Z := 32.
Definition ErrnoMfile : Z := 33.
Definition ErrnoNametoolong : Z := 37.
Definition ErrnoNoent : Z := 44.
Definition ErrnoNosys : Z := 52.
Definition ErrnoNotdir : Z := 54.
Definition ErrnoNotempty : Z := 55.
Definition ErrnoNotsock : Z := 57.
Definition ErrnoNotsup : Z := 58.
Definition ErrnoPerm : Z := 63.
Definition ErrnoRange : Z := 68.
Definition ErrnoRofs : Z := 69.
Definition ErrnoEmfile : Z := 70.
Definition ErrnoSpipe : Z := 71.

Definition errnoToString : list string :=
  ["ESUCCESS"; "E2BIG"; "EACCES"; "EADDRINUSE"; "EADDRNOTAVAIL"; "EAFNOSUPPORT"; "EAGAIN"; "EALREADY"; "EBADF"; "EBADMSG"; "EBUSY";
   "ECANCELED"; "ECHILD"; "ECONNABORTED"; "ECONNREFUSED"; "ECONNRESET"; "EDEADLK"; "EDESTADDRREQ"; "EDOM"; "EDQUOT"; "EEXIST";
   "EFAULT"; "EFBIG"; "EHOSTUNREACH"; "EIDRM"; "EILSEQ"; "EINPROGRESS"; "EINTR"; "EINVAL"; "EIO"; "EISCONN"; "EISDIR"; "ELOOP";
   "EMFILE"; "EMLINK"; "EMSGSIZE"; "EMULTIHOP"; "ENAMETOOLONG"; "ENETDOWN"; "ENETRESET"; "ENETUNREACH"; "ENFILE"; "ENOBUFS"; "ENODEV";
   "ENOENT"; "ENOEXEC"; "ENOLCK"; "ENOLINK"; "ENOMEM"; "ENOMSG"; "ENOPROTOOPT"; "ENOSPC"; "ENOSYS"; "ENOTCONN"; "ENOTDIR"; "ENOTEMPTY";
   "ENOTRECOVERABLE"; "ENOTSOCK"; "ENOTSUP"; "ENOTTY"; "ENXIO"; "EOVERFLOW"; "EOWNERDEAD"; "EPERM"; "EPIPE"; "EPROTO"; "EPROTONOSUPPORT";
   "EPROTOTYPE"; "ERANGE"; "EROFS"; "ESPIPE"; "ESRCH"; "ESTALE"; "ETIMEDOUT"; "ETXTBSY"; "EXDEV"; "ENOTCAPABLE"].
Definition ErrnoName (errno : Z) : string := match zlookup errnoToString errno with Some s => s | None => "errno" end.

Definition ToErrno (errno : Errno) : Z :=
  if errno =? 0 then ErrnoSuccess
  else if errno =? EACCES then ErrnoAcces
  else if errno =? EAGAIN then ErrnoAgain
  else if errno =? EBADF then ErrnoBadf
  else if errno =? EEXIST then ErrnoExist
  else if errno =? EFAULT then ErrnoFault
  else if errno =? EINTR then ErrnoIntr
  else if errno =? EINVAL then ErrnoInval
  else if errno =? EIO then ErrnoIo
  else if errno =? EISDIR then ErrnoIsdir
  else if errno =? ELOOP then ErrnoLoop
  else if errno =? ENAMETOOLONG then ErrnoNametoolong
  else if errno =? ENOENT then ErrnoNoent
  else if errno =? ENOSYS then ErrnoNosys
  else if errno =? ENOTDIR then ErrnoNotdir
  else if errno =? ERANGE then ErrnoRange
  else if errno =? ENOTEMPTY then ErrnoNotempty
  else if errno =? ENOTSOCK then ErrnoNotsock
  else if errno =? ENOTSUP then ErrnoNotsup
  else if errno =? EPERM then ErrnoPerm
  else if errno =? EROFS then ErrnoRofs
  else if errno =? EMFILE then ErrnoEmfile
  else if errno =? ESPIPE then ErrnoSpipe
  else ErrnoIo.

(** ** Data of files *)

(** [fs.FileMode] *)
Definition ModeDir : Z := 2 ^ 31.
Definition ModeSymlink : Z := 2 ^ 27.
Definition ModeDevice : Z := 2 ^ 26.
Definition ModeNamedPipe : Z := 2 ^ 25.
Definition ModeSocket : Z := 2 ^ 24.
Definition ModeCharDevice : Z := 2 ^ 21.
Definition ModeIrregular : Z := 2 ^ 19.
Definition ModeType : Z := ModeDir + ModeSymlink + ModeNamedPipe + ModeSocket + ModeDevice + ModeCharDevice + ModeIrregular.
Definition has (flags bit : Z) : bool := negb (Z.land flags bit =? 0).
Definition IsRegular (mode : Z) : bool := negb (has mode ModeType).
Definition ModeIsDir (mode : Z) : bool := has mode ModeDir.

Record Stat_t := mkStat { Dev : Z; Ino : Z; Mode : Z; Nlink : Z; StatSize : Z; Atim : Z; Mtim : Z; Ctim : Z }.
Record Dirent := mkDirent { DirentIno : Z; DirentName : path; DirentType : Z }.

(** ** Interfaces *)

(** [sys.File], [sys.PollableFile], [sys.Pollable], [sock.TCPSock],
    [sock.TCPConn] and [sys.FS], over a state of the world.  A call gives its
    results with an errno.  [Read] and the like give the contents of the whole
    buffer after the call, from those before. *)
Class Host := {
  World : Type;
  File : Type;
  FS : Type;
  FS_eq :: EqDecision FS;
  File_Ino : File -> World -> World * (Z * Errno);
  File_IsDir : File -> World -> World * (bool * Errno);
  File_IsAppend : File -> World -> bool;
  File_SetAppend : File -> bool -> World -> World * Errno;
  File_Stat : File -> World -> World * (Stat_t * Errno);
  File_Read : File -> list Z -> World -> World * (list Z * Z * Errno);
  File_Pread : File -> list Z -> Z -> World -> World * (list Z * Z * Errno);
  File_Seek : File -> Z -> Z -> World -> World * (Z * Errno);
  File_Readdir : File -> Z -> World -> World * (list Dirent * Errno);
  File_Write : File -> list Z -> World -> World * (Z * Errno);
  File_Pwrite : File -> list Z -> Z -> World -> World * (Z * Errno);
  File_Truncate : File -> Z -> World -> World * Errno;
  File_Sync : File -> World -> World * Errno;
  File_Datasync : File -> World -> World * Errno;
  File_Utimens : File -> Z -> Z -> World -> World * Errno;
  File_Close : File -> World -> World * Errno;
  (** The type assertions *)
  isPollableFile : File -> bool;
  isPollable : File -> bool;
  isTCPSock : File -> bool;
  isTCPConn : File -> bool;
  File_IsNonblock : File -> World -> bool;
  File_SetNonblock : File -> bool -> World -> World * Errno;
  File_Poll : File -> Z -> Z -> World -> World * (bool * Errno);
  Sock_Accept : File -> World -> World * (File * Errno);
  Conn_Recvfrom : File -> list Z -> Z -> World -> World * (list Z * Z * Errno);
  Conn_Shutdown : File -> Z -> World -> World * Errno;
  FS_OpenFile : FS -> path -> Z -> Z -> World -> World * (File * Errno);
  FS_Lstat : FS -> path -> World -> World * (Stat_t * Errno);
  FS_Stat : FS -> path -> World -> World * (Stat_t * Errno);
  FS_Mkdir : FS -> path -> Z -> World -> World * Errno;
  FS_Rename : FS -> path -> path -> World -> World * Errno;
  FS_Rmdir : FS -> path -> World -> World * Errno;
  FS_Unlink : FS -> path -> World -> World * Errno;
  FS_Link : FS -> path -> path -> World -> World * Errno;
  FS_Symlink : FS -> path -> path -> World -> World * Errno;
  FS_Readlink : FS -> path -> World -> World * (path * Errno);
  FS_Utimens : FS -> path -> Z -> Z -> World -> World * Errno;
  (** The clocks and the source of random bytes of the context *)
  walltime : World -> World * (Z * Z);
  nanotime : World -> World * Z;
  nanosleep : Z -> World -> World;
  osyield : World -> World;
  (** [io.ReadAtLeast(randSource, buf, len(buf))]: the bytes it put into the buffer, and whether it filled it *)
  readRandom : Z -> World -> World * (list Z * bool);
  (** [time.Since(start)] at the end of a poll *)
  timeSince : World -> World * Z;
}.

(** ** State *)

Section Sys.
Context `{HO : Host}.

(** [dirents] is nil until the first read; [direntFile] is [f]. *)
Record DirentCache := mkDirentCache {
  direntFile : File; dotEntries : list Dirent; dirents : option (list Dirent); countRead : Z; eof : bool;
}.
(** [FS] is nil for the standard streams and for sockets. *)
Record FileEntry := mkFileEntry {
  Name : path; IsPreopen : bool; EntryFS : option FS; EntryFile : File; direntCache : option DirentCache;
}.

(** A call on a file system, with its paths. *)
Inductive fsCall :=
  | CallOpenFile (p : path)
  | CallLstat (p : path)
  | CallStat (p : path)
  | CallMkdir (p : path)
  | CallRename (from to : path)
  | CallRmdir (p : path)
  | CallUnlink (p : path)
  | CallLink (oldName newName : path)
  | CallSymlink (oldName newName : path)
  | CallReadlink (p : path)
  | CallUtimens (p : path).

(** The descriptor table holds pointers, each in one slot: [None] is nil. *)
Record hostState := mkHostState {
  mem : MemoryInstance; openedFiles : @Table (option FileEntry); world : World; calls : list (FS * fsCall);
}.
Definition set_mem (m : MemoryInstance) (h : hostState) : hostState := mkHostState m (openedFiles h) (world h) (calls h).
Definition set_files t (h : hostState) : hostState := mkHostState (mem h) t (world h) (calls h).
Definition set_world (w : World) (h : hostState) : hostState := mkHostState (mem h) (openedFiles h) w (calls h).
Definition log_call (c : FS * fsCall) (h : hostState) : hostState := mkHostState (mem h) (openedFiles h) (world h) (calls h ++ [c]).

Inductive result (A : Type) :=
  | Returns (a : A)
  | Fails (errno : Errno)
  | Panics (msg : string)
  | Exits (code : Z).
#[global] Arguments Returns {A} _.
#[global] Arguments Fails {A} _.
#[global] Arguments Panics {A} _.
#[global] Arguments Exits {A} _.

Definition H (A : Type) : Type := hostState -> hostState * result A.
#[global] Instance H_ret : MRet H := fun A a s => (s, Returns a).
#[global] Instance H_bind : MBind H := fun A B k c s =>
  match c s with
  | (s', Returns a) => k a s'
  | (s', Fails e) => (s', Fails e)
  | (s', Panics m) => (s', Panics m)
  | (s', Exits c) => (s', Exits c)
  end.

Definition failH {A} (errno : Errno) : H A := fun s => (s, Fails errno).
Definition panicH {A} (msg : string) : H A := fun s => (s, Panics msg).
Definition getH {A} (f : hostState -> A) : H A := fun s => (s, Returns (f s)).
Definition liftH {A} (r : res A) : H A := fun s =>
  (s, match r with Ok a => Returns a | Err m | Panic m => Panics m end).
(** The value of the table, which may panic *)
Definition tableH {A} (f : @Table (option FileEntry) -> res (A * @Table (option FileEntry))) : H A := fun s =>
  match f (openedFiles s) with
  | Ok (a, t) => (set_files t s, Returns a)
  | Err m | Panic m => (s, Panics m)
  end.
(** A call into the world. *)
Definition worldH {A} (f : World -> World * A) : H A := fun s =>
  let '(w, a) := f (world s) in (set_world w s, Returns a).
Definition checkErrno (errno : Errno) : H unit := if errno =? 0 then mret tt else failH errno.
(** A call whose errno is returned *)
Definition errnoH (f : World -> World * Errno) : H unit := e ← worldH f; checkErrno e.
Definition checkedH {A} (f : World -> World * (A * Errno)) : H A := '(a, e) ← worldH f; _ ← checkErrno e; mret a.
(** [_ = c]: the errno is dropped. *)
Definition ignoreH (c : H unit) : H unit := fun s =>
  match c s with (s', Fails _) => (s', Returns tt) | r => r end.

(** A call on a file system that may be nil. *)
Definition onFS {A} (fs : option FS) (c : fsCall) (f : FS -> World -> World * A) : H A :=
  match fs with
  | None => panicH "nil pointer dereference"
  | Some fs => fun s => worldH (f fs) (log_call (fs, c) s)
  end.

(** ** FSContext *)

Definition maxFileDescriptor : Z := 2 ^ 20.

Definition LookupFile (fd : Z) : H (option FileEntry) :=
  r ← tableH (fun t => let! r := Lookup t fd in Ok (r, t));
  match r with
  | None => mret None
  | Some (Some e) => mret (Some e)
  | Some None => panicH "nil pointer dereference"
  end.
(** [if f, ok := fsc.LookupFile(fd); !ok { return EBADF }] *)
Definition lookupOr (errno : Errno) (fd : Z) : H FileEntry :=
  r ← LookupFile fd; match r with Some e => mret e | None => failH errno end.
(** The entry is changed through its pointer. *)
Definition updateEntry (fd : Z) (e : FileEntry) : H unit := fun s =>
  (set_files (mkTable (masks (openedFiles s)) (<[Z.to_nat fd := Some e]> (items (openedFiles s)))) s, Returns tt).

Definition insertFile (e : FileEntry) : H Z :=
  '(newFD, ok) ← tableH (fun t => let! (k, ok, t) := Insert None (Some e) t in Ok ((k, ok), t));
  if ok : bool then mret newFD else failH EBADF.

Definition OpenFile (fs : option FS) (p : path) (flag perm : Z) : H Z :=
  n ← getH (fun s => Len (openedFiles s));
  if n >=? maxFileDescriptor then failH EMFILE
  else
    '(f, errno) ← onFS fs (CallOpenFile p) (fun fs => FS_OpenFile fs p flag perm);
    _ ← checkErrno errno;
    let name := if bool_decide (p ∈ [[slash]; dot]) then [] else p in
    insertFile (mkFileEntry name false fs f None).

Definition Renumber (from to : Z) : H unit :=
  fromFile ← LookupFile from;
  match fromFile with
  | None => failH EBADF
  | Some fromFile =>
      if (to <? 0) || (to >? maxFileDescriptor) then failH EBADF
      else if IsPreopen fromFile then failH ENOTSUP
      else
        toFile ← LookupFile to;
        _ ← (match toFile with
             | Some toFile =>
                 if to =? from then mret tt
                 else if IsPreopen toFile then failH ENOTSUP
                 else ignoreH (errnoH (File_Close (EntryFile toFile)))
             | None => mret tt
             end);
        _ ← tableH (fun t => let! t := Delete None from t in Ok (tt, t));
        ok ← tableH (fun t => InsertAt None (Some fromFile) to t);
        if ok : bool then mret tt else failH EBADF
  end.

Definition SockAccept (sockFD : Z) (nonblock : bool) : H Z :=
  e ← LookupFile sockFD;
  match e with
  | None => failH EBADF
  | Some e =>
      if negb (IsPreopen e) then failH EBADF
      else if negb (isTCPSock (EntryFile e)) then failH EBADF
      else
        conn ← checkedH (Sock_Accept (EntryFile e));
        n ← getH (fun s => Len (openedFiles s));
        if n >=? maxFileDescriptor then _ ← ignoreH (errnoH (File_Close conn)); failH EMFILE
        else
          _ ← (if nonblock && isPollableFile conn then
                 errno ← worldH (File_SetNonblock conn true);
                 if errno =? 0 then mret tt else _ ← ignoreH (errnoH (File_Close conn)); failH errno
               else mret tt);
          insertFile (mkFileEntry [] false None conn None)
  end.

Definition CloseFile (fd : Z) : H unit :=
  f ← lookupOr EBADF fd;
  _ ← errnoH (File_Close (EntryFile f));
  tableH (fun t => let! t := Delete None fd t in Ok (tt, t)).

(** [FSContext.Close]: the last error; the table is dropped. *)
Definition closeEntries (t : @Table (option FileEntry)) (w : World) : res (World * Errno) :=
  Range (fun _ item '(w, err) =>
           match item with
           | Some e => let '(w, errno) := File_Close (EntryFile e) w in (true, (w, if errno =? 0 then err else errno))
           | None => (true, (w, err))
           end) t (w, 0).
Definition CloseFS : H unit := fun s =>
  match closeEntries (openedFiles s) (world s) with
  | Ok (w, err) => checkErrno err (set_files (mkTable [] []) (set_world w s))
  | Err m | Panic m => (s, Panics m)
  end.

(** [InitFSContext], from the entries of the standard streams on; [lazyDir] and the
    listeners are files. *)
Definition guestName (guestPath : path) : path :=
  if bool_decide (StripPrefixesAndTrailingSlash guestPath = []) then [slash] else guestPath.
Definition insertAll (es : list FileEntry) : H unit :=
  foldr (fun e rest => _ ← tableH (fun t => let! (k, ok, t) := Insert None (Some e) t in Ok ((k, ok), t)); rest) (mret tt) es.
Definition InitFSContext (stdio : list FileEntry) (preopens : list (FS * path * File)) (listeners : list File) : H unit :=
  insertAll (stdio ++ map (fun '(fs, p, f) => mkFileEntry (guestName p) true (Some fs) f None) preopens
             ++ map (fun f => mkFileEntry [] true None f None) listeners).

(** ** DirentCache *)

(** [f.DirentCache()] of the entry [e] at [fd] *)
Definition synthesizeDotEntries (e : FileEntry) : H (list Dirent) :=
  dotIno ← checkedH (File_Ino (EntryFile e));
  mret [mkDirent dotIno dot ModeDir; mkDirent 0 dotdot ModeDir].
Definition getDirentCache (fd : Z) (e : FileEntry) : H DirentCache :=
  match direntCache e with
  | Some dir => mret dir
  | None =>
      isDir ← checkedH (File_IsDir (EntryFile e));
      if negb isDir then failH ENOTDIR
      else
        dots ← synthesizeDotEntries e;
        let dir := mkDirentCache (EntryFile e) dots None 0 false in
        _ ← updateEntry fd (mkFileEntry (Name e) (IsPreopen e) (EntryFS e) (EntryFile e) (Some dir));
        mret dir
  end.

Definition cachedDirents (d : DirentCache) (n : Z) : list Dirent :=
  let l := default [] (dirents d) in
  let direntCount := wrap32 (zlen l) in
  if direntCount =? 0 then []
  else if direntCount >? n then take (Z.to_nat n) l
  else l.

(** The cache after [Read] and what it gives: the errno is apart, as the cache changes
    also when there is one.  It runs against the world only. *)
Definition DirentCache_Read (d : DirentCache) (pos n : Z) (w : World) : World * (DirentCache * res (list Dirent * Errno)) :=
  let with_ ds c e := mkDirentCache (direntFile d) (dotEntries d) ds c e in
  if pos >? countRead d then (w, (d, Ok ([], ENOENT)))
  else
    let '(w, d, errno) :=
      if (pos =? 0) && bool_decide (is_Some (dirents d)) then
        let '(w, (_, errno)) := File_Seek (direntFile d) 0 0 w in
        if errno =? 0 then (w, with_ None 0 (eof d), 0) else (w, d, errno)
      else (w, d, 0) in
    if negb (errno =? 0) then (w, (d, Ok ([], errno)))
    else if n =? 0 then (w, (d, Ok ([], 0)))
    else
      match dirents d with
      | None =>
          let d := with_ (Some (dotEntries d)) 2 false in
          let countToRead := wrap32 (n - 2) in
          if countToRead <=? 0 then (w, (d, Ok ([], 0)))
          else
            let '(w, (l, errno)) := File_Readdir (direntFile d) countToRead w in
            if negb (errno =? 0) then (w, (d, Ok ([], errno)))
            else
              let d := if zlen l >? 0 then with_ (Some (dotEntries d ++ l)) (wrap64 (2 + zlen l)) (zlen l <? countToRead) else d in
              (w, (d, Ok (cachedDirents d n, 0)))
      | Some ds =>
          let cacheStart := wrap64 (countRead d - zlen ds) in
          if pos <? cacheStart then (w, (d, Ok ([], ENOENT)))
          else
            match zslice ds (pos - cacheStart) with
            | Ok ds =>
                let d := with_ (Some ds) (countRead d) (eof d) in
                let countToRead := n - zlen ds in
                if (countToRead >? 0) && negb (eof d) then
                  let '(w, (l, errno)) := File_Readdir (direntFile d) countToRead w in
                  if negb (errno =? 0) then (w, (d, Ok ([], errno)))
                  else
                    let d := if zlen l >? 0 then with_ (Some (ds ++ l)) (wrap64 (countRead d + zlen l)) (zlen l <? countToRead) else d in
                    (w, (d, Ok (cachedDirents d n, 0)))
                else (w, (d, Ok (cachedDirents d n, 0)))
            | Err m | Panic m => (w, (d, Panic m))
            end
      end.

(** ** Context *)

Record sysContext := mkSysContext {
  args : list (list Z); environ : list (list Z); argsSize : Z; environSize : Z;
  walltimeResolution : Z; nanotimeResolution : Z;
}.

Fixpoint byteCountLoop (maxSize bufSize : Z) (elements : list (list Z)) : res Z :=
  match elements with
  | [] => Ok bufSize
  | e :: elements' =>
      if existsb (fun c => c =? 0) e then Err "contains NUL character"
      else
        let nextSize := wrap64 (bufSize + zlen e) in
        if nextSize >? maxSize then Err "exceeds maximum size" else byteCountLoop maxSize nextSize elements'
  end.
Definition nullTerminatedByteCount (max : Z) (elements : list (list Z)) : res Z :=
  let count := wrap32 (zlen elements) in
  if count >? max then Err "exceeds maximum count"
  else let! bufSize := byteCountLoop max count elements in Ok (wrap32 bufSize).

Definition clockResolutionInvalid (resolution : Z) : bool := (resolution <? 1) || (resolution >? 3600 * 10 ^ 9).

(** [NewContext] with the clocks and the streams given: what it checks, in order. *)
Definition NewContext (max : Z) (args environ : list (list Z)) (walltimeResolution nanotimeResolution : Z) : res sysContext :=
  let! argsSize := errorf "args invalid" (nullTerminatedByteCount max args) in
  let! environSize := errorf "environ invalid" (nullTerminatedByteCount max environ) in
  if clockResolutionInvalid walltimeResolution then Err "invalid Walltime resolution"
  else if clockResolutionInvalid nanotimeResolution then Err "invalid Nanotime resolution"
  else Ok (mkSysContext args environ argsSize environSize walltimeResolution nanotimeResolution).

(** [WalltimeNanos], on 64-bit integers *)
Definition WalltimeNanos : H Z := '(sec, nsec) ← worldH walltime; mret (sgn64 (sgn64 (sec * 10 ^ 9) + nsec)).
End Sys.
