(* ===== verification/Wasi.v ===== *)
(** * WASI functions (src/imports/wasi_snapshot_preview1)

    Every function that the module wasi_snapshot_preview1 exports, on the state
    of [WasiSys].  A slice that [mem.Read] returns is a view: a part of the
    memory of the guest, so that what is written through it is seen by later
    reads, of iovecs and subscriptions too.  An index outside of it panics. *)

From S2P Require Import Prelude Types Memory Descriptor GoPath WasiSys.

(** ** Numbers (internal/wasip1) *)

Module wasip1.
Definition O_CREAT : Z := 1.
Definition O_DIRECTORY : Z := 2.
Definition O_EXCL : Z := 4.
Definition O_TRUNC : Z := 8.
Definition FD_APPEND : Z := 1.
Definition FD_DSYNC : Z := 2.
Definition FD_NONBLOCK : Z := 4.
Definition FD_RSYNC : Z := 8.
Definition FD_SYNC : Z := 16.
Definition LOOKUP_SYMLINK_FOLLOW : Z := 1.
Definition FILETYPE_UNKNOWN : Z := 0.
Definition FILETYPE_BLOCK_DEVICE : Z := 1.
Definition FILETYPE_CHARACTER_DEVICE : Z := 2.
Definition FILETYPE_DIRECTORY : Z := 3.
Definition FILETYPE_REGULAR_FILE : Z := 4.
Definition FILETYPE_SOCKET_STREAM : Z := 6.
Definition FILETYPE_SYMBOLIC_LINK : Z := 7.
Definition FstflagsAtim : Z := 1.
Definition FstflagsAtimNow : Z := 2.
Definition FstflagsMtim : Z := 4.
Definition FstflagsMtimNow : Z := 8.
Definition FdAdviceNoReuse : Z := 5.
Definition EventTypeClock : Z := 0.
Definition EventTypeFdRead : Z := 1.
Definition EventTypeFdWrite : Z := 2.
Definition ClockIDRealtime : Z := 0.
Definition ClockIDMonotonic : Z := 1.
Definition SD_RD : Z := 1.
Definition SD_WR : Z := 2.
Definition RI_RECV_PEEK : Z := 1.
Definition RI_RECV_WAITALL : Z := 2.
End wasip1.

Definition DirentSize : Z := 24.
Definition UTIME_OMIT : Z := - 2 ^ 63.
Definition POLLIN : Z := 1.
Definition MSG_PEEK : Z := 2.
(** internal/sock/sock_supported.go: the constants of [syscall] *)
Definition SHUT_RD : Z := 0.
Definition SHUT_WR : Z := 1.
Definition SHUT_RDWR : Z := 2.
Definition FdStdin : Z := 0.
Definition FdStderr : Z := 2.

(** The rights, in the order of rights.go *)
Definition right (i : Z) : Z := Z.shiftl 1 i.
Definition rightsOf (l : list Z) : Z := fold_left (fun r i => Z.lor r (right i)) l 0.
Definition RIGHT_FD_READ : Z := right 1.
Definition RIGHT_FD_SEEK : Z := right 2.
Definition RIGHT_FD_TELL : Z := right 5.
Definition RIGHT_FD_WRITE : Z := right 6.
Definition fileRightsBase : Z := rightsOf [0; 1; 2; 3; 4; 5; 6; 7; 8; 21; 22; 23; 27].
Definition dirRightsBase : Z := rightsOf [0; 3; 4; 9; 10; 11; 12; 13; 14; 15; 16; 17; 18; 19; 20; 21; 23; 24; 25; 26].

Section Wasi.
Context `{HO : Host} (windows : bool) (ctx : sysContext).

(** ** Memory of the guest *)

Record view := mkView { lo : Z; vlen : Z }.

(** [buf, ok := mem.Read(offset, n); if !ok { return errno }] *)
Definition readView (errno : Errno) (offset n : Z) : H view := fun s =>
  match Read (mem s) offset n with
  | Ok (_, true) => (s, Returns (mkView offset n))
  | Ok (_, false) => (s, Fails errno)
  | Err m | Panic m => (s, Panics m)
  end.
(** [if !mem.WriteX(...) { return errno }] *)
Definition writeMem (errno : Errno) (f : MemoryInstance -> res (bool * MemoryInstance)) : H unit := fun s =>
  match f (mem s) with
  | Ok (true, m) => (set_mem m s, Returns tt)
  | Ok (false, m) => (set_mem m s, Fails errno)
  | Err m | Panic m => (s, Panics m)
  end.
Definition bufferH (f : list Z -> res (list Z)) : H unit := fun s =>
  match f (Buffer (mem s)) with
  | Ok l => (set_mem (set_Buffer l (mem s)) s, Returns tt)
  | Err m | Panic m => (s, Panics m)
  end.
(** [n] bytes from index [i] of the view *)
Definition fits (n : Z) (v : view) (i : Z) : bool := (0 <=? i) && (i + n <=? vlen v).
Definition bytesV (v : view) : H (list Z) := getH (fun s => bytesAt (Buffer (mem s)) (lo v) (vlen v)).
Definition getV (n : nat) (v : view) (i : Z) : H Z :=
  if fits (Z.of_nat n) v i then getH (fun s => le_decode (bytesAt (Buffer (mem s)) (lo v + i) (Z.of_nat n)))
  else panicH "index out of range".
Definition putV (n : nat) (v : view) (i x : Z) : H unit :=
  if fits (Z.of_nat n) v i then bufferH (fun l => putUint n l (lo v + i) x) else panicH "index out of range".
(** [copy(buf[i:], b)] *)
Definition copyV (v : view) (i : Z) (b : list Z) : H unit :=
  if fits 0 v i then bufferH (fun l => copyAt l (lo v + i) (take (Z.to_nat (vlen v - i)) b)) else panicH "slice bounds out of range".

Definition param (params : list Z) (i : Z) : H Z := liftH (zindex params i).
Definition u32 (v : Z) : Z := wrap32 v.
Definition u16 (v : Z) : Z := wrap16 v.
Definition i32 (v : Z) : Z := sgn32 v.
Definition i64 (v : Z) : Z := sgn64 v.

(** ** wasi.go, args.go, environ.go *)

Fixpoint writeValues (offsetsBuf bytesBuf : view) (values : list (list Z)) (oI bI : Z) : H unit :=
  match values with
  | [] => mret tt
  | value :: values' =>
      let bytesOffset := u32 (lo bytesBuf + bI) in
      _ ← putV 1 offsetsBuf oI (wrap8 bytesOffset);
      _ ← putV 1 offsetsBuf (u32 (oI + 1)) (wrap8 (Z.shiftr bytesOffset 8));
      _ ← putV 1 offsetsBuf (u32 (oI + 2)) (wrap8 (Z.shiftr bytesOffset 16));
      _ ← putV 1 offsetsBuf (u32 (oI + 3)) (wrap8 (Z.shiftr bytesOffset 24));
      _ ← copyV bytesBuf bI value;
      let bI := u32 (bI + zlen value) in
      _ ← putV 1 bytesBuf bI 0;
      writeValues offsetsBuf bytesBuf values' (u32 (oI + 4)) (u32 (bI + 1))
  end.
Definition writeOffsetsAndNullTerminatedValues (values : list (list Z)) (offsets bytes bytesLen : Z) : H unit :=
  offsetsBuf ← readView EFAULT offsets (u32 (zlen values * 4));
  bytesBuf ← readView EFAULT bytes bytesLen;
  writeValues offsetsBuf bytesBuf values 0 0.

Definition valuesGet (values : list (list Z)) (size : Z) (params : list Z) : H unit :=
  a ← param params 0; b ← param params 1;
  writeOffsetsAndNullTerminatedValues values (u32 a) (u32 b) size.
Definition sizesGet (values : list (list Z)) (size : Z) (params : list Z) : H unit :=
  a ← param params 0; b ← param params 1;
  _ ← writeMem EFAULT (fun m => WriteUint32Le m (u32 a) (u32 (zlen values)));
  writeMem EFAULT (fun m => WriteUint32Le m (u32 b) size).
Definition argsGetFn : list Z -> H unit := valuesGet (args ctx) (argsSize ctx).
Definition argsSizesGetFn : list Z -> H unit := sizesGet (args ctx) (argsSize ctx).
Definition environGetFn : list Z -> H unit := valuesGet (environ ctx) (environSize ctx).
Definition environSizesGetFn : list Z -> H unit := sizesGet (environ ctx) (environSize ctx).

(** ** clock.go, random.go, sched.go *)

Definition clockResGetFn (params : list Z) : H unit :=
  id ← param params 0; r ← param params 1;
  resolution ← (if u32 id =? wasip1.ClockIDRealtime then mret (walltimeResolution ctx)
                else if u32 id =? wasip1.ClockIDMonotonic then mret (nanotimeResolution ctx)
                else failH EINVAL);
  writeMem EFAULT (fun m => WriteUint64Le m (u32 r) (wrap64 resolution)).
Definition clockTimeGetFn (params : list Z) : H unit :=
  id ← param params 0; r ← param params 2;
  val ← (if u32 id =? wasip1.ClockIDRealtime then WalltimeNanos
         else if u32 id =? wasip1.ClockIDMonotonic then worldH nanotime
         else failH EINVAL);
  writeMem EFAULT (fun m => WriteUint64Le m (u32 r) (wrap64 val)).
Definition randomGetFn (params : list Z) : H unit :=
  b ← param params 0; n ← param params 1;
  buf ← readView EFAULT (u32 b) (u32 n);
  '(bytes, ok) ← worldH (readRandom (u32 n));
  _ ← copyV buf 0 bytes;
  if ok : bool then mret tt else failH EIO.
Definition schedYieldFn (params : list Z) : H unit := worldH (fun w => (osyield w, tt)).

(** ** fs.go: descriptors *)

Definition fdOf (params : list Z) : H Z := p ← param params 0; mret (i32 p).

Definition fdAdviseFn (params : list Z) : H unit :=
  fd ← fdOf params; a ← param params 3;
  _ ← lookupOr EBADF fd;
  if between 0 (wrap8 a) wasip1.FdAdviceNoReuse then mret tt else failH EINVAL.

Definition fdAllocateFn (params : list Z) : H unit :=
  fd ← fdOf params; offset ← param params 1; length ← param params 2;
  f ← lookupOr EBADF fd;
  let tail := i64 (wrap64 (offset + length)) in
  if tail <? 0 then failH EINVAL
  else
    st ← checkedH (File_Stat (EntryFile f));
    if StatSize st >=? tail then mret tt else errnoH (File_Truncate (EntryFile f) tail).

Definition fdCloseFn (params : list Z) : H unit := fd ← fdOf params; CloseFile fd.
Definition fdDatasyncFn (params : list Z) : H unit :=
  fd ← fdOf params; f ← lookupOr EBADF fd; errnoH (File_Datasync (EntryFile f)).
Definition fdSyncFn (params : list Z) : H unit :=
  fd ← fdOf params; f ← lookupOr EBADF fd; errnoH (File_Sync (EntryFile f)).

Definition getWasiFiletype (fm : Z) : Z :=
  if IsRegular fm then wasip1.FILETYPE_REGULAR_FILE
  else if ModeIsDir fm then wasip1.FILETYPE_DIRECTORY
  else if has fm ModeSymlink then wasip1.FILETYPE_SYMBOLIC_LINK
  else if has fm ModeDevice then
    if has fm ModeCharDevice then wasip1.FILETYPE_CHARACTER_DEVICE else wasip1.FILETYPE_BLOCK_DEVICE
  else wasip1.FILETYPE_UNKNOWN.
Definition getExtendedWasiFiletype (file : File) (fm : Z) : Z :=
  let ftype := getWasiFiletype fm in
  if (ftype =? wasip1.FILETYPE_UNKNOWN) && (isTCPSock file || isTCPConn file) then wasip1.FILETYPE_SOCKET_STREAM else ftype.

Definition isNonblock (f : File) (w : World) : bool := isPollableFile f && File_IsNonblock f w.

(** The conversion to an array of 24 bytes panics on a shorter slice. *)
Definition writeFdstat (buf : view) (fileType fdflags fsRightsBase fsRightsInheriting : Z) : H unit :=
  if vlen buf <? 24 then panicH "cannot convert slice to array"
  else
    _ ← putV 2 buf 0 fileType; _ ← putV 2 buf 2 fdflags; _ ← putV 4 buf 4 0;
    _ ← putV 8 buf 8 fsRightsBase; putV 8 buf 16 fsRightsInheriting.

Definition fdFdstatGetFn (params : list Z) : H unit :=
  fd ← fdOf params; r ← param params 1;
  buf ← readView EFAULT (u32 r) 24;
  f ← lookupOr EBADF fd;
  st ← checkedH (File_Stat (EntryFile f));
  w ← getH world;
  let fdflags := (if File_IsAppend (EntryFile f) w then wasip1.FD_APPEND else 0) in
  let fdflags := Z.lor fdflags (if isNonblock (EntryFile f) w then wasip1.FD_NONBLOCK else 0) in
  let fileType := getExtendedWasiFiletype (EntryFile f) (Mode st) in
  let '(base, inheriting) :=
    if fileType =? wasip1.FILETYPE_DIRECTORY then (dirRightsBase, Z.lor fileRightsBase dirRightsBase)
    else if fileType =? wasip1.FILETYPE_CHARACTER_DEVICE then (Z.ldiff (Z.ldiff fileRightsBase RIGHT_FD_SEEK) RIGHT_FD_TELL, 0)
    else (fileRightsBase, 0) in
  writeFdstat buf fileType fdflags base inheriting.

Definition fdFdstatSetFlagsFn (params : list Z) : H unit :=
  fd ← fdOf params; p ← param params 1;
  let wasiFlag := u16 p in
  if has wasip1.FD_DSYNC wasiFlag || has wasip1.FD_RSYNC wasiFlag || has wasip1.FD_SYNC wasiFlag then failH EINVAL
  else
    f ← lookupOr EBADF fd;
    let nonblock := has wasip1.FD_NONBLOCK wasiFlag in
    _ ← (if isPollableFile (EntryFile f) then errnoH (File_SetNonblock (EntryFile f) nonblock)
         else
           '(isDir, errno) ← worldH (File_IsDir (EntryFile f));
           if (errno =? 0) && (isDir : bool) then failH EISDIR
           else if nonblock then failH ENOSYS
           else mret tt);
    '(stat, err) ← worldH (File_Stat (EntryFile f));
    if (err =? 0) && IsRegular (Mode stat) then errnoH (File_SetAppend (EntryFile f) (has wasip1.FD_APPEND wasiFlag))
    else mret tt.

Definition writeFilestat (buf : view) (st : Stat_t) (ftype : Z) : H unit :=
  _ ← putV 8 buf 0 (Dev st); _ ← putV 8 buf 8 (Ino st); _ ← putV 8 buf 16 ftype; _ ← putV 8 buf 24 (Nlink st);
  _ ← putV 8 buf 32 (wrap64 (StatSize st)); _ ← putV 8 buf 40 (wrap64 (Atim st)); _ ← putV 8 buf 48 (wrap64 (Mtim st));
  putV 8 buf 56 (wrap64 (Ctim st)).

Definition fdFilestatGetFn (params : list Z) : H unit :=
  fd ← fdOf params; r ← param params 1;
  buf ← readView EFAULT (u32 r) 64;
  f ← lookupOr EBADF fd;
  st ← checkedH (File_Stat (EntryFile f));
  writeFilestat buf st (getExtendedWasiFiletype (EntryFile f) (Mode st)).

Definition fdFilestatSetSizeFn (params : list Z) : H unit :=
  fd ← fdOf params; p ← param params 1;
  f ← lookupOr EBADF fd; errnoH (File_Truncate (EntryFile f) (i64 p)).

Definition toTimes (atim mtim fstFlags : Z) : H (Z * Z) :=
  let setA := has fstFlags wasip1.FstflagsAtim in
  let nowA := has fstFlags wasip1.FstflagsAtimNow in
  '(atim, nowTim) ← (if setA && nowA then failH EINVAL
                      else if setA then mret (atim, 0)
                      else if nowA then t ← WalltimeNanos; mret (t, t)
                      else mret (UTIME_OMIT, 0));
  let setM := has fstFlags wasip1.FstflagsMtim in
  let nowM := has fstFlags wasip1.FstflagsMtimNow in
  mtim ← (if setM && nowM then failH EINVAL
          else if setM then mret mtim
          else if nowM then if negb (nowTim =? 0) then mret nowTim else WalltimeNanos
          else mret UTIME_OMIT);
  mret (atim, mtim).

Definition fdFilestatSetTimesFn (params : list Z) : H unit :=
  fd ← fdOf params; a ← param params 1; t ← param params 2; fl ← param params 3;
  f ← lookupOr EBADF fd;
  '(atim, mtim) ← toTimes (i64 a) (i64 t) (u16 fl);
  errno ← worldH (File_Utimens (EntryFile f) atim mtim);
  if one_of errno [EPERM; ENOSYS] then
    match EntryFS f with
    | None => failH errno
    | Some _ => e ← onFS (EntryFS f) (CallUtimens (Name f)) (fun fs => FS_Utimens fs (Name f) atim mtim); checkErrno e
    end
  else checkErrno errno.

Definition preopenPath (fd : Z) : H path :=
  f ← lookupOr EBADF fd;
  if negb (IsPreopen f) then failH EBADF
  else
    '(isDir, errno) ← worldH (File_IsDir (EntryFile f));
    if negb (errno =? 0) || negb isDir then failH EBADF else mret (Name f).
Definition fdPrestatGetFn (params : list Z) : H unit :=
  fd ← fdOf params; r ← param params 1;
  name ← preopenPath fd;
  writeMem EFAULT (fun m => WriteUint64Le m (u32 r) (wrap64 (Z.shiftl (zlen name) 32))).
Definition fdPrestatDirNameFn (params : list Z) : H unit :=
  fd ← fdOf params; p ← param params 1; n ← param params 2;
  name ← preopenPath fd;
  if u32 (zlen name) <? u32 n then failH ENAMETOOLONG
  else
    b ← liftH (slice2 name 0 (u32 n));
    writeMem EFAULT (fun m => Write m (u32 p) b).

Definition fdRenumberFn (params : list Z) : H unit :=
  from ← fdOf params; p ← param params 1; Renumber from (i32 p).

Definition fdSeek (fd offset whence resultNewoffset : Z) : H unit :=
  f ← lookupOr EBADF (i32 fd);
  '(isDir, _) ← worldH (File_IsDir (EntryFile f));
  if isDir : bool then failH EISDIR
  else
    newOffset ← checkedH (File_Seek (EntryFile f) (i64 offset) (u32 whence));
    writeMem EFAULT (fun m => WriteUint64Le m (u32 resultNewoffset) (wrap64 newOffset)).
Definition fdSeekFn (params : list Z) : H unit :=
  fd ← param params 0; offset ← param params 1; whence ← param params 2; r ← param params 3; fdSeek fd offset whence r.
Definition fdTellFn (params : list Z) : H unit :=
  fd ← param params 0; r ← param params 1; fdSeek fd 0 1 r.

(** ** fs.go: reading and writing *)

(** A function that fills, or takes, the bytes of a view, with the offset of a
    [preader] or [pwriter]: the count, the errno and the next offset. *)
Definition transfer : Type := Z -> view -> H (Z * Errno * Z).
(** [f.File.Read], and [preader.Read] *)
Definition fileRead (f : File) : transfer := fun off v =>
  b ← bytesV v; '(b', n, errno) ← worldH (File_Read f b); _ ← copyV v 0 b'; mret (n, errno, off).
Definition preaderRead (f : File) : transfer := fun off v =>
  if vlen v =? 0 then mret (0, 0, off)
  else b ← bytesV v; '(b', n, errno) ← worldH (File_Pread f b off); _ ← copyV v 0 b'; mret (n, errno, sgn64 (off + n)).
Definition fileWrite (f : File) : transfer := fun off v =>
  b ← bytesV v; '(n, errno) ← worldH (File_Write f b); mret (n, errno, off).
Definition pwriterWrite (f : File) : transfer := fun off v =>
  if vlen v =? 0 then mret (0, 0, off)
  else b ← bytesV v; '(n, errno) ← worldH (File_Pwrite f b off); mret (n, errno, sgn64 (off + n)).

(** After a transfer of [n] bytes for [l], with [total] so far: the result, or go on. *)
Definition accumulate (total n errno l : Z) : H (Z * bool) :=
  let total := if n >? 0 then u32 (total + n) else total in
  if negb (errno =? 0) then
    if total >? 0 then mret (total, false)
    else failH (if errno =? ENOSYS then EBADF else errno)
  else mret (total, negb (n <? l)).

(** The loops of [readv], which skips empty iovecs, and [writev]. *)
Fixpoint iovLoop (fuel : nat) (skipEmpty : bool) (t : transfer) (iovsBuf : view) (iovsPos total off : Z) : H Z :=
  match fuel with
  | O => panicH "out of fuel"
  | S fuel' =>
      if negb (iovsPos <? vlen iovsBuf) then mret total
      else
        offset ← getV 4 iovsBuf iovsPos;
        l ← getV 4 iovsBuf (u32 (iovsPos + 4));
        if skipEmpty && (l =? 0) then iovLoop fuel' skipEmpty t iovsBuf (u32 (iovsPos + 8)) total off
        else
          b ← readView EFAULT offset l;
          '(n, errno, off) ← t off b;
          '(total, more) ← accumulate total n errno l;
          if more : bool then iovLoop fuel' skipEmpty t iovsBuf (u32 (iovsPos + 8)) total off else mret total
  end.
Definition iov (skipEmpty : bool) (iovs iovsCount : Z) (t : transfer) (off : Z) : H Z :=
  let iovsStop := u32 (Z.shiftl iovsCount 3) in
  iovsBuf ← readView EFAULT iovs iovsStop;
  iovLoop (S (Z.to_nat (iovsStop / 8))) skipEmpty t iovsBuf 0 0 off.
Definition readv : Z -> Z -> transfer -> Z -> H Z := iov true.
Definition writev : Z -> Z -> transfer -> Z -> H Z := iov false.

Definition fdReadOrPread (isPread : bool) (params : list Z) : H unit :=
  fd ← fdOf params; iovs ← param params 1; n ← param params 2;
  f ← lookupOr EBADF fd;
  '(t, off, r) ← (if isPread then off ← param params 3; r ← param params 4; mret (preaderRead (EntryFile f), i64 off, u32 r)
                  else r ← param params 3; mret (fileRead (EntryFile f), 0, u32 r));
  nread ← readv (u32 iovs) (u32 n) t off;
  writeMem EFAULT (fun m => WriteUint32Le m r nread).
Definition fdReadFn : list Z -> H unit := fdReadOrPread false.
Definition fdPreadFn : list Z -> H unit := fdReadOrPread true.

Definition fdWriteOrPwrite (isPwrite : bool) (params : list Z) : H unit :=
  fd ← fdOf params; iovs ← param params 1; n ← param params 2;
  f ← lookupOr EBADF fd;
  '(t, off, r) ← (if isPwrite then off ← param params 3; r ← param params 4; mret (pwriterWrite (EntryFile f), i64 off, u32 r)
                  else r ← param params 3; mret (fileWrite (EntryFile f), 0, u32 r));
  nwritten ← writev (u32 iovs) (u32 n) t off;
  writeMem EFAULT (fun m => WriteUint32Le m r nwritten).
Definition fdWriteFn : list Z -> H unit := fdWriteOrPwrite false.
Definition fdPwriteFn : list Z -> H unit := fdWriteOrPwrite true.

(** ** fs.go: fd_readdir *)

Definition largestDirent : Z := 2 ^ 32 - 1 - DirentSize.

(** [bufToWrite], [direntCount] and [truncatedLen] *)
Fixpoint maxDirentsLoop (ds : list Dirent) (lenRemaining bufToWrite direntCount : Z) : res (Z * Z * Z) :=
  match ds with
  | [] => Ok (bufToWrite, direntCount, 0)
  | d :: ds' =>
      if lenRemaining =? 0 then Ok (bufToWrite, direntCount, 0)
      else
        let direntCount := direntCount + 1 in
        let el := DirentSize + zlen (DirentName d) in
        if (el <? 0) || (el >? largestDirent) then Panic "invalid filename: too large"
        else
          let entryLen := u32 el in
          if entryLen >? lenRemaining then
            let truncatedLen := if lenRemaining >=? DirentSize then DirentSize else lenRemaining in
            Ok (u32 (bufToWrite + truncatedLen), direntCount, truncatedLen)
          else maxDirentsLoop ds' (u32 (lenRemaining - entryLen)) (u32 (bufToWrite + entryLen)) direntCount
  end.
Definition maxDirents (ds : list Dirent) (bufLen : Z) : res (Z * Z * Z) := maxDirentsLoop ds bufLen 0 0.

Definition writeDirent (buf : view) (pos dNext ino dNamlen dType : Z) : H unit :=
  _ ← putV 8 buf pos dNext; _ ← putV 8 buf (pos + 8) ino; _ ← putV 4 buf (pos + 16) dNamlen;
  putV 4 buf (pos + 20) (getWasiFiletype dType).
(** The entries from index [i] on, up to [direntCount]. *)
Fixpoint writeDirentsLoop (n : nat) (buf : view) (ds : list Dirent) (i d_next pos skipNameI : Z) : H unit :=
  match n with
  | O => mret tt
  | S n' =>
      e ← liftH (zindex ds i);
      let nameLen := u32 (zlen (DirentName e)) in
      _ ← writeDirent buf pos d_next (DirentIno e) nameLen (DirentType e);
      let d_next := wrap64 (d_next + 1) in
      let pos := u32 (pos + DirentSize) in
      if negb (i =? skipNameI) then
        _ ← copyV buf pos (DirentName e); writeDirentsLoop n' buf ds (i + 1) d_next (u32 (pos + nameLen)) skipNameI
      else writeDirentsLoop n' buf ds (i + 1) d_next pos skipNameI
  end.
Definition writeDirents (buf : view) (ds : list Dirent) (d_next direntCount truncatedLen : Z) : H unit :=
  let '(direntCount, skipNameI) :=
    if truncatedLen >? 0 then
      if truncatedLen <? DirentSize then (direntCount - 1, -1) else (direntCount, direntCount - 1)
    else (direntCount, -1) in
  writeDirentsLoop (Z.to_nat direntCount) buf ds 0 d_next 0 skipNameI.

(** [direntCache(fsc, fd)] *)
Definition openDirentCache (fd : Z) (e : FileEntry) : H DirentCache := fun s =>
  match getDirentCache fd e s with
  | (s', Fails errno) => (s', Fails (if errno =? ENOTDIR then EBADF else errno))
  | r => r
  end.

Definition withCache (e : FileEntry) (d : DirentCache) : FileEntry :=
  mkFileEntry (Name e) (IsPreopen e) (EntryFS e) (EntryFile e) (Some d).

Definition fdReaddirFn (params : list Z) : H unit :=
  fd ← fdOf params; b ← param params 1; l ← param params 2; cookie ← param params 3; r ← param params 4;
  let bufLen := u32 l in
  if bufLen <? DirentSize then failH EINVAL
  else
    e ← lookupOr EBADF fd;
    dir ← openDirentCache fd e;
    let maxDirEntries := u32 (bufLen / DirentSize + 1 + 1) in
    '(dir, read) ← worldH (DirentCache_Read dir cookie maxDirEntries);
    _ ← updateEntry fd (withCache e dir);
    '(ds, errno) ← liftH read;
    _ ← checkErrno errno;
    '(bufToWrite, direntCount, truncatedLen) ← liftH (maxDirents ds bufLen);
    _ ← (if bufToWrite >? 0 then
           buf ← readView EFAULT (u32 b) bufToWrite;
           writeDirents buf ds (wrap64 (cookie + 1)) direntCount truncatedLen
         else mret tt);
    writeMem EFAULT (fun m => WriteUint32Le m (u32 r) (if truncatedLen >? 0 then bufLen else bufToWrite)).

(** ** fs.go: paths *)

Definition atPath (fd p pathLen : Z) : H (option FS * path) :=
  v ← readView EFAULT p pathLen;
  b ← bytesV v;
  let hasTrailingSlash := HasSuffixSlash b in
  let pathName := Clean b in
  if negb (ValidPath pathName) || pathEscapesOnWindows windows pathName then failH EPERM
  else
    let pathName := if hasTrailingSlash then pathName ++ [slash] else pathName in
    f ← lookupOr EBADF fd;
    isDir ← checkedH (File_IsDir (EntryFile f));
    if negb isDir then failH ENOTDIR
    else if IsPreopen f then mret (EntryFS f, pathName)
    else mret (EntryFS f, Name f ++ slash :: pathName).

(** The path at the parameters [i], [i+1] and [i+2] *)
Definition atParams (params : list Z) (fd p n : Z) : H (option FS * path) :=
  fd ← param params fd; p ← param params p; n ← param params n; atPath (i32 fd) (u32 p) (u32 n).
Definition errnoFS (fs : option FS) (c : fsCall) (f : FS -> World -> World * Errno) : H unit := e ← onFS fs c f; checkErrno e.

Definition pathCreateDirectoryFn (params : list Z) : H unit :=
  '(preopen, p) ← atParams params 0 1 2; errnoFS preopen (CallMkdir p) (fun fs => FS_Mkdir fs p 448).
Definition pathFilestatGetFn (params : list Z) : H unit :=
  flags ← param params 1;
  '(preopen, p) ← atParams params 0 2 3;
  '(st, errno) ← (if Z.land (u16 flags) wasip1.LOOKUP_SYMLINK_FOLLOW =? 0
                  then onFS preopen (CallLstat p) (fun fs => FS_Lstat fs p)
                  else onFS preopen (CallStat p) (fun fs => FS_Stat fs p));
  _ ← checkErrno errno;
  r ← param params 4;
  buf ← readView EFAULT (u32 r) 64;
  writeFilestat buf st (getWasiFiletype (Mode st)).
Definition pathFilestatSetTimesFn (params : list Z) : H unit :=
  flags ← param params 1; a ← param params 4; t ← param params 5; fl ← param params 6;
  '(atim, mtim) ← toTimes (i64 a) (i64 t) (u16 fl);
  '(preopen, p) ← atParams params 0 2 3;
  if has (u16 flags) wasip1.LOOKUP_SYMLINK_FOLLOW then errnoFS preopen (CallUtimens p) (fun fs => FS_Utimens fs p atim mtim)
  else
    '(f, errno) ← onFS preopen (CallOpenFile p) (fun fs => FS_OpenFile fs p O_WRONLY 0);
    _ ← checkErrno errno;
    errno ← worldH (File_Utimens f atim mtim);
    _ ← ignoreH (errnoH (File_Close f));
    checkErrno errno.
Definition pathLinkFn (params : list Z) : H unit :=
  '(oldFS, oldName) ← atParams params 0 2 3;
  '(newFS, newName) ← atParams params 4 5 6;
  if negb (bool_decide (oldFS = newFS)) then failH ENOSYS
  else errnoFS oldFS (CallLink oldName newName) (fun fs => FS_Link fs oldName newName).

Definition openFlags (dirflags oflags fdflags rights : Z) : Z :=
  let add (b : bool) (f flags : Z) := if b then Z.lor flags f else flags in
  let flags := add (Z.land dirflags wasip1.LOOKUP_SYMLINK_FOLLOW =? 0) O_NOFOLLOW 0 in
  let flags := if has oflags wasip1.O_DIRECTORY then Z.lor flags O_DIRECTORY else add (has oflags wasip1.O_EXCL) O_EXCL flags in
  let flags := add (has oflags wasip1.O_TRUNC) O_TRUNC flags in
  let flags := add (has oflags wasip1.O_CREAT) O_CREAT flags in
  let flags := add (has fdflags wasip1.FD_NONBLOCK) O_NONBLOCK flags in
  let flags := add (has fdflags wasip1.FD_APPEND) O_APPEND flags in
  let defaultMode := if has oflags wasip1.O_TRUNC || has oflags wasip1.O_CREAT || has fdflags wasip1.FD_APPEND then O_RDWR else O_RDONLY in
  let flags := add (has fdflags wasip1.FD_DSYNC) O_DSYNC flags in
  let flags := add (has fdflags wasip1.FD_RSYNC) O_RSYNC flags in
  let flags := add (has fdflags wasip1.FD_SYNC) O_SYNC flags in
  let rw := Z.lor RIGHT_FD_READ RIGHT_FD_WRITE in
  if Z.land rights rw =? rw then Z.lor flags O_RDWR
  else if Z.land rights RIGHT_FD_WRITE =? RIGHT_FD_WRITE then Z.lor flags O_WRONLY
  else if Z.land rights RIGHT_FD_READ =? RIGHT_FD_READ then Z.lor flags O_RDONLY
  else Z.lor flags defaultMode.

(** [_ = fsc.CloseFile(fd); return errno] *)
Definition closeAndFail {A} (fd : Z) (errno : Errno) : H A := _ ← ignoreH (CloseFile fd); failH errno.

(** The new descriptor is written to [offset], or closed. *)
Definition writeFD (fd offset : Z) : H unit := fun s =>
  match writeMem EFAULT (fun m => WriteUint32Le m offset (wrap32 fd)) s with
  | (s', Fails _) => closeAndFail fd EFAULT s'
  | r => r
  end.

Definition pathOpenFn (params : list Z) : H unit :=
  dirflags ← param params 1; pathLen ← param params 3; oflags ← param params 4; rights ← param params 5;
  fdflags ← param params 7; r ← param params 8;
  '(preopen, p) ← atParams params 0 2 3;
  if u32 pathLen =? 0 then failH EINVAL
  else
    let flags := openFlags (u16 dirflags) (u16 oflags) (u16 fdflags) (u32 rights) in
    let isDir := has flags O_DIRECTORY in
    if isDir && has (u16 oflags) wasip1.O_CREAT then failH EINVAL
    else
      newFD ← OpenFile preopen p flags 384;
      _ ← (if isDir then
             f ← lookupOr EBADF newFD;
             '(isDir, errno) ← worldH (File_IsDir (EntryFile f));
             if negb (errno =? 0) then closeAndFail newFD errno
             else if negb isDir then closeAndFail newFD ENOTDIR
             else mret tt
           else mret tt);
      writeFD newFD (u32 r).

Definition pathReadlinkFn (params : list Z) : H unit :=
  pathLen ← param params 2; b ← param params 3; l ← param params 4; r ← param params 5;
  if (u32 pathLen =? 0) || (u32 l =? 0) then failH EINVAL
  else
    '(preopen, p) ← atParams params 0 1 2;
    '(dst, errno) ← onFS preopen (CallReadlink p) (fun fs => FS_Readlink fs p);
    _ ← checkErrno errno;
    if zlen dst >? u32 l then failH ERANGE
    else
      _ ← writeMem EFAULT (fun m => WriteString m (u32 b) dst);
      writeMem EFAULT (fun m => WriteUint32Le m (u32 r) (u32 (zlen dst))).
Definition pathRemoveDirectoryFn (params : list Z) : H unit :=
  '(preopen, p) ← atParams params 0 1 2; errnoFS preopen (CallRmdir p) (fun fs => FS_Rmdir fs p).
Definition pathRenameFn (params : list Z) : H unit :=
  '(oldFS, oldName) ← atParams params 0 1 2;
  '(newFS, newName) ← atParams params 3 4 5;
  if negb (bool_decide (oldFS = newFS)) then failH ENOSYS
  else errnoFS oldFS (CallRename oldName newName) (fun fs => FS_Rename fs oldName newName).
Definition pathSymlinkFn (params : list Z) : H unit :=
  oldPath ← param params 0; oldPathLen ← param params 1; fd ← param params 2; newPathLen ← param params 4;
  dir ← lookupOr EBADF (i32 fd);
  isDir ← checkedH (File_IsDir (EntryFile dir));
  if negb isDir then failH ENOTDIR
  else if (u32 oldPathLen =? 0) || (u32 newPathLen =? 0) then failH EINVAL
  else
    v ← readView EFAULT (u32 oldPath) (u32 oldPathLen);
    '(_, newName) ← atParams params 2 3 4;
    oldName ← bytesV v;
    errnoFS (EntryFS dir) (CallSymlink oldName newName) (fun fs => FS_Symlink fs oldName newName).
Definition pathUnlinkFileFn (params : list Z) : H unit :=
  '(preopen, p) ← atParams params 0 1 2; errnoFS preopen (CallUnlink p) (fun fs => FS_Unlink fs p).

(** ** poll.go *)

(** The user data is a part of the subscriptions. *)
Record event := mkEvent { eventType : Z; userData : view; eventErrno : Z }.

Definition writeEvent (outBuf : view) (outOffset : Z) (evt : event) : H unit :=
  user ← bytesV (userData evt);
  _ ← copyV outBuf outOffset user;
  _ ← putV 1 outBuf (outOffset + 8) (wrap8 (eventErrno evt));
  _ ← putV 1 outBuf (outOffset + 9) 0;
  putV 4 outBuf (outOffset + 10) (eventType evt).

(** The argument starts at [argOffset] of the subscriptions. *)
Definition processClockEvent (inBuf : view) (argOffset : Z) : H Z :=
  _ ← getV 8 inBuf argOffset;
  timeout ← getV 8 inBuf (argOffset + 8);
  _ ← getV 8 inBuf (argOffset + 16);
  _ ← getV 8 inBuf (argOffset + 24);
  flags ← getV 2 inBuf (argOffset + 24);
  if flags =? 0 then mret (sgn64 timeout) else if flags =? 1 then failH ENOTSUP else failH EINVAL.

(** The state of the loop: timeout, events written, and the subscriptions to poll. *)
Definition pollState : Type := Z * Z * list (event * File).
Definition pollSubscription (inBuf outBuf : view) (i : Z) (st : pollState) : H pollState :=
  let '(timeout, nevents, subs) := st in
  let inOffset := u32 (i * 48) in
  let outOffset := u32 (nevents * 32) in
  eventType ← getV 1 inBuf (u32 (inOffset + 8));
  let argOffset := u32 (inOffset + 8 + 8) in
  _ ← (if fits 0 inBuf argOffset then mret tt else panicH "slice bounds out of range");
  _ ← (if fits 8 inBuf inOffset then mret tt else panicH "slice bounds out of range");
  let evt errno := mkEvent eventType (mkView (lo inBuf + inOffset) 8) errno in
  if eventType =? wasip1.EventTypeClock then
    newTimeout ← processClockEvent inBuf argOffset;
    _ ← writeEvent outBuf outOffset (evt ErrnoSuccess);
    mret (if newTimeout <? timeout then newTimeout else timeout, u32 (nevents + 1), subs)
  else if eventType =? wasip1.EventTypeFdRead then
    p ← getV 4 inBuf argOffset;
    if i32 p <? 0 then failH EBADF
    else
      file ← LookupFile (i32 p);
      match file with
      | None => _ ← writeEvent outBuf outOffset (evt ErrnoBadf); mret (timeout, u32 (nevents + 1), subs)
      | Some file =>
          w ← getH world;
          if negb (i32 p =? FdStdin) && isNonblock (EntryFile file) w then
            _ ← writeEvent outBuf outOffset (evt ErrnoSuccess); mret (timeout, u32 (nevents + 1), subs)
          else mret (timeout, nevents, subs ++ [(evt ErrnoSuccess, EntryFile file)])
      end
  else if eventType =? wasip1.EventTypeFdWrite then
    p ← getV 4 inBuf argOffset;
    if i32 p <? 0 then failH EBADF
    else
      file ← LookupFile (i32 p);
      _ ← writeEvent outBuf outOffset (evt (match file with Some _ => ErrnoNotsup | None => ErrnoBadf end));
      mret (timeout, u32 (nevents + 1), subs)
  else failH EINVAL.
Fixpoint pollLoop (n : nat) (inBuf outBuf : view) (i : Z) (st : pollState) : H pollState :=
  match n with
  | O => mret st
  | S n' => st ← pollSubscription inBuf outBuf i st; pollLoop n' inBuf outBuf (i + 1) st
  end.

(** The polls of the files that block: the events written after them. *)
Fixpoint pollFiles (outBuf : view) (subs : list (event * File)) (remaining nevents : Z) : H Z :=
  match subs with
  | [] => mret nevents
  | (evt, file) :: subs' =>
      let ack errno := writeEvent outBuf (u32 (nevents * 32)) (mkEvent (eventType evt) (userData evt) errno) in
      if negb (isPollable file) then _ ← ack ErrnoNotsup; pollFiles outBuf subs' remaining (u32 (nevents + 1))
      else
        let ms := Z.quot remaining (10 ^ 6) in
        let ms := if ms >? 2 ^ 31 - 1 then 2 ^ 31 - 1 else ms in
        '(ready, errno) ← worldH (File_Poll file POLLIN (sgn32 ms));
        nevents ← (if errno =? 0 then
                     if ready : bool then _ ← ack 0; mret (u32 (nevents + 1)) else mret nevents
                   else if one_of errno [ENOSYS; ENOTSUP] then _ ← ack ErrnoNotsup; mret (u32 (nevents + 1))
                   else failH errno);
        elapsed ← worldH timeSince;
        pollFiles outBuf subs' (if elapsed <? remaining then remaining - elapsed else 0) nevents
  end.

Definition pollOneoffFn (params : list Z) : H unit :=
  a ← param params 0; b ← param params 1; n ← param params 2; r ← param params 3;
  let nsubscriptions := u32 n in
  if nsubscriptions =? 0 then failH EINVAL
  else if nsubscriptions >? (2 ^ 32 - 1) / 48 then failH EINVAL
  else
    inBuf ← readView EFAULT (u32 a) (u32 (nsubscriptions * 48));
    outBuf ← readView EFAULT (u32 b) (u32 (nsubscriptions * 32));
    _ ← copyV outBuf 0 (zeros (vlen outBuf));
    _ ← writeMem EFAULT (fun m => WriteUint32Le m (u32 r) nsubscriptions);
    '(timeout, nevents, subs) ← pollLoop (Z.to_nat nsubscriptions) inBuf outBuf 0 (2 ^ 63 - 1, 0, []);
    if nevents =? nsubscriptions then
      if timeout >? 0 then worldH (fun w => (nanosleep timeout w, tt)) else mret tt
    else
      nevents ← pollFiles outBuf subs timeout nevents;
      if negb (nevents =? nsubscriptions) then writeMem EFAULT (fun m => WriteUint32Le m (u32 r) nevents) else mret tt.

(** ** sock.go *)

Definition connOf (fd : Z) : H File :=
  e ← lookupOr EBADF fd; if isTCPConn (EntryFile e) then mret (EntryFile e) else failH EBADF.
(** A write whose result is ignored *)
Definition ignoreWrite (f : MemoryInstance -> res (bool * MemoryInstance)) : H unit := ignoreH (writeMem EFAULT f).

Definition sockAcceptFn (params : list Z) : H unit :=
  fd ← fdOf params; flags ← param params 1; r ← param params 2;
  connFD ← SockAccept fd (has (u32 flags) wasip1.FD_NONBLOCK);
  writeFD connFD (u32 r).
Definition sockRecvFn (params : list Z) : H unit :=
  fd ← fdOf params; d ← param params 1; n ← param params 2; fl ← param params 3; rl ← param params 4; rf ← param params 5;
  let riFlags := wrap8 fl in
  conn ← connOf fd;
  if negb (Z.ldiff riFlags (Z.lor wasip1.RI_RECV_PEEK wasip1.RI_RECV_WAITALL) =? 0) then failH ENOTSUP
  else if has riFlags wasip1.RI_RECV_PEEK then
    v ← readView EINVAL (u32 d) 4; addr ← getV 4 v 0;
    v ← readView EINVAL (u32 (u32 d + 4)) 4; len ← getV 4 v 0;
    buf ← readView EINVAL addr len;
    b ← bytesV buf;
    '(b', n, err) ← worldH (Conn_Recvfrom conn b MSG_PEEK);
    _ ← copyV buf 0 b';
    _ ← checkErrno err;
    _ ← ignoreWrite (fun m => WriteUint32Le m (u32 rl) (wrap32 n));
    ignoreWrite (fun m => WriteUint16Le m (u32 rf) 0)
  else
    bufSize ← readv (u32 d) (u32 n) (fileRead conn) 0;
    _ ← ignoreWrite (fun m => WriteUint32Le m (u32 rl) bufSize);
    ignoreWrite (fun m => WriteUint16Le m (u32 rf) 0).
Definition sockSendFn (params : list Z) : H unit :=
  fd ← fdOf params; d ← param params 1; n ← param params 2; fl ← param params 3; rl ← param params 4;
  if negb (u32 fl =? 0) then failH ENOTSUP
  else
    conn ← connOf fd;
    bufSize ← writev (u32 d) (u32 n) (fileWrite conn) 0;
    ignoreWrite (fun m => WriteUint32Le m (u32 rl) bufSize).
Definition sockShutdownFn (params : list Z) : H unit :=
  fd ← fdOf params; p ← param params 1;
  let how := wrap8 p in
  conn ← connOf fd;
  sysHow ← (if how =? Z.lor wasip1.SD_RD wasip1.SD_WR then mret (Z.lor SHUT_RD SHUT_WR)
            else if how =? wasip1.SD_RD then mret SHUT_RD
            else if how =? wasip1.SD_WR then mret SHUT_WR
            else failH EINVAL);
  errnoH (Conn_Shutdown conn sysHow).

(** ** proc.go and the exports *)

(** [procExitFn] closes the module and panics with an exit error. *)
Definition exitH (code : Z) : H unit := fun s => (s, Exits code).
Definition procExitFn (params : list Z) : H unit := p ← param params 0; exitH (u32 p).

Inductive goFunc := WasiFunc (f : list Z -> H unit) | StubFunction | ExitFunc (f : list Z -> H unit).
Record HostFunc := mkHostFunc { ExportName : string; ParamTypes : list ValueType; GoFunc : goFunc }.

Definition I32 : ValueType := ValueTypeI32.
Definition I64 : ValueType := ValueTypeI64.
Definition newHostFunc (name : string) (f : list Z -> H unit) (params : list ValueType) : HostFunc := mkHostFunc name params (WasiFunc f).
Definition stubFunction (name : string) (params : list ValueType) : HostFunc := mkHostFunc name params StubFunction.

Definition exportFunctions : list HostFunc :=
  [ newHostFunc "args_get" argsGetFn [I32; I32];
    newHostFunc "args_sizes_get" argsSizesGetFn [I32; I32];
    newHostFunc "environ_get" environGetFn [I32; I32];
    newHostFunc "environ_sizes_get" environSizesGetFn [I32; I32];
    newHostFunc "clock_res_get" clockResGetFn [I32; I32];
    newHostFunc "clock_time_get" clockTimeGetFn [I32; I64; I32];
    newHostFunc "fd_advise" fdAdviseFn [I32; I64; I64; I32];
    newHostFunc "fd_allocate" fdAllocateFn [I32; I64; I64];
    newHostFunc "fd_close" fdCloseFn [I32];
    newHostFunc "fd_datasync" fdDatasyncFn [I32];
    newHostFunc "fd_fdstat_get" fdFdstatGetFn [I32; I32];
    newHostFunc "fd_fdstat_set_flags" fdFdstatSetFlagsFn [I32; I32];
    stubFunction "fd_fdstat_set_rights" [I32; I64; I64];
    newHostFunc "fd_filestat_get" fdFilestatGetFn [I32; I32];
    newHostFunc "fd_filestat_set_size" fdFilestatSetSizeFn [I32; I64];
    newHostFunc "fd_filestat_set_times" fdFilestatSetTimesFn [I32; I64; I64; I32];
    newHostFunc "fd_pread" fdPreadFn [I32; I32; I32; I64; I32];
    newHostFunc "fd_prestat_get" fdPrestatGetFn [I32; I32];
    newHostFunc "fd_prestat_dir_name" fdPrestatDirNameFn [I32; I32; I32];
    newHostFunc "fd_pwrite" fdPwriteFn [I32; I32; I32; I64; I32];
    newHostFunc "fd_read" fdReadFn [I32; I32; I32; I32];
    newHostFunc "fd_readdir" fdReaddirFn [I32; I32; I32; I64; I32];
    newHostFunc "fd_renumber" fdRenumberFn [I32; I32];
    newHostFunc "fd_seek" fdSeekFn [I32; I64; I32; I32];
    newHostFunc "fd_sync" fdSyncFn [I32];
    newHostFunc "fd_tell" fdTellFn [I32; I32];
    newHostFunc "fd_write" fdWriteFn [I32; I32; I32; I32];
    newHostFunc "path_create_directory" pathCreateDirectoryFn [I32; I32; I32];
    newHostFunc "path_filestat_get" pathFilestatGetFn [I32; I32; I32; I32; I32];
    newHostFunc "path_filestat_set_times" pathFilestatSetTimesFn [I32; I32; I32; I32; I64; I64; I32];
    newHostFunc "path_link" pathLinkFn [I32; I32; I32; I32; I32; I32; I32];
    newHostFunc "path_open" pathOpenFn [I32; I32; I32; I32; I32; I64; I64; I32; I32];
    newHostFunc "path_readlink" pathReadlinkFn [I32; I32; I32; I32; I32; I32];
    newHostFunc "path_remove_directory" pathRemoveDirectoryFn [I32; I32; I32];
    newHostFunc "path_rename" pathRenameFn [I32; I32; I32; I32; I32; I32];
    newHostFunc "path_symlink" pathSymlinkFn [I32; I32; I32; I32; I32];
    newHostFunc "path_unlink_file" pathUnlinkFileFn [I32; I32; I32];
    newHostFunc "poll_oneoff" pollOneoffFn [I32; I32; I32; I32];
    mkHostFunc "proc_exit" [I32] (ExitFunc procExitFn);
    stubFunction "proc_raise" [I32];
    newHostFunc "sched_yield" schedYieldFn [];
    newHostFunc "random_get" randomGetFn [I32; I32];
    newHostFunc "sock_accept" sockAcceptFn [I32; I32; I32];
    newHostFunc "sock_recv" sockRecvFn [I32; I32; I32; I32; I32; I32];
    newHostFunc "sock_send" sockSendFn [I32; I32; I32; I32; I32];
    newHostFunc "sock_shutdown" sockShutdownFn [I32; I32] ].

(** [stack[0] = v] *)
Definition setResult (stack : list Z) (v : Z) : H (list Z) :=
  match stack with [] => panicH "index out of range" | _ :: rest => mret (v :: rest) end.
(** [wasiFunc.Call], and the functions of the stubs and of [proc_exit] *)
Definition Call (f : goFunc) (stack : list Z) : H (list Z) := fun s =>
  match f with
  | WasiFunc f =>
      match f stack s with
      | (s', Returns _) => setResult stack 0 s'
      | (s', Fails errno) => setResult stack (ToErrno errno) s'
      | (s', Panics m) => (s', Panics m)
      | (s', Exits c) => (s', Exits c)
      end
  | StubFunction => setResult stack ErrnoNosys s
  | ExitFunc f => (_ ← f stack; mret stack) s
  end.
End Wasi.
