(* ===== verification/WasiSafe.v ===== *)
(** * WASI: what every call of a guest preserves

    Whatever a guest passes to the functions of wasi_snapshot_preview1, they do
    not panic, they leave the size of its memory, keep the descriptor table
    within its bound, and call file systems only with paths that do not climb
    out of them.  The file systems and files may do anything else that their
    interface allows. *)

From S2P Require Import Prelude Types Memory Descriptor GoPath WasiSys Wasi.

(** ** The table stays small *)

Section Table.
Context {Item : Type} (zero : Item).
Implicit Types t : @Table Item.

Lemma store_masks i mask key (item : Item) t t' : store i mask key item t = Ok t' -> zlen (masks t') = zlen (masks t).
Proof. unfold store. destruct (_ && _); [|done]. intros [= <-]. unfold zlen. cbn. by rewrite length_insert. Qed.
Lemma insertIn_masks i mask (item : Item) t k b t' : insertIn i mask item t = Ok (k, b, t') -> zlen (masks t') = zlen (masks t).
Proof.
  unfold insertIn. destruct (store _ _ _ _ _) as [t1| |] eqn:E; cbn; [|done..]. intros [= _ _ <-]. by eapply store_masks.
Qed.
Lemma grow_masks n t : 0 <= n -> zlen (masks (grow zero n t)) = zlen (masks t) + n.
Proof. intros Hn. unfold grow. cbn. rewrite zlen_app. unfold zlen at 2. rewrite length_replicate. lia. Qed.

Lemma full_Len t : wf t -> findFree 0 (masks t) = None -> 64 * zlen (masks t) <= Len t.
Proof.
  intros Hw Hf. rewrite Len_keys. pose proof (zlen_nonneg (masks t)).
  assert (Hs : seqZ 0 (64 * zlen (masks t)) ⊆+ keys t).
  { apply NoDup_submseteq; [apply NoDup_seqZ|]. intros k Hk%elem_of_seqZ. apply elem_of_keys; [done|].
    assert (Hd : 0 <= k / 64 < zlen (masks t)) by (split; [apply Z.div_pos|apply Z.div_lt_upper_bound]; lia).
    destruct (zlookup_lt_is_Some (masks t) (k / 64)) as [x Hx]; [lia|]. pose proof (Z.mod_pos_bound k 64 ltac:(lia)) as Hm.
    pose proof (findFree_None 0 (masks t) x (k / 64) Hf Hx) as Hx0.
    pose proof (at_key_Some t (k / 64) (k mod 64) x Hw Hx Hm (proj1 (not64_full x (mask_u64 _ _ _ Hw Hx)) Hx0 _ Hm)) as [_ Ha].
    pose proof (Z.div_mod k 64 ltac:(lia)). by replace (k / 64 * 64 + k mod 64) with k in Ha by lia. }
  apply submseteq_length in Hs. rewrite length_seqZ in Hs. unfold zlen in *. lia.
Qed.
Lemma Insert_masks (item : Item) t k b t' : wf t -> Insert zero item t = Ok (k, b, t') ->
  zlen (masks t') <= Z.max (zlen (masks t)) (Len t / 64 + 1).
Proof.
  intros Hw. unfold Insert. destruct (findFree 0 (masks t)) as [[i mask]|] eqn:E.
  - intros H%insertIn_masks. lia.
  - pose proof (full_Len t Hw E). cbn zeta.
    destruct (findFree (zlen (masks t)) _) as [[i mask]|]; [|discriminate]. intros Hi%insertIn_masks.
    rewrite grow_masks in Hi by lia. pose proof (Z.div_le_lower_bound (Len t) 64 (zlen (masks t)) ltac:(lia) ltac:(lia)). lia.
Qed.
Lemma InsertAt_masks (item : Item) key t b t' : 0 <= key -> InsertAt zero item key t = Ok (b, t') ->
  zlen (masks t') <= Z.max (zlen (masks t)) (key / 64 + 1).
Proof.
  intros Hk. unfold InsertAt. rewrite (proj2 (Z.ltb_ge _ _)) by lia. cbn zeta.
  set (t1 := if _ >? _ then _ else _). assert (Ht : zlen (masks t1) <= Z.max (zlen (masks t)) (key / 64 + 1)).
  { unfold t1. destruct (Z.gtb_spec (key / 64 - zlen (masks t) + 1) 0); [rewrite grow_masks by lia|]; lia. }
  destruct (zindex _ _); cbn; [|done..]. destruct (store _ _ _ _ _) eqn:E; cbn; [|done..]. intros [= _ <-].
  rewrite (store_masks _ _ _ _ _ _ E). exact Ht.
Qed.
Lemma Delete_masks key t t' : Delete zero key t = Ok t' -> zlen (masks t') = zlen (masks t).
Proof.
  unfold Delete. destruct (key <? 0); [by intros [= <-]|]. cbn zeta. destruct (_ <? _); [|by intros [= <-]].
  destruct (zindex _ _); cbn; [|done..]. destruct (isSet _ _); [apply store_masks|by intros [= <-]].
Qed.

(** A slot that is changed through its pointer. *)
Lemma at_key_update t k (x : Item) k' : wf t -> 0 <= k -> is_Some (at_key t k) ->
  at_key (mkTable (masks t) (<[Z.to_nat k := x]> (items t))) k' = if decide (k' = k) then Some x else at_key t k'.
Proof.
  intros Hw Hk [y Hy]. unfold at_key in *. cbn. destruct (zlookup (masks t) (k / 64)) as [mask|] eqn:Em; [|done]. cbn in Hy.
  destruct (Z.testbit mask (k mod 64)) eqn:Et; [|done]. apply zlookup_Some_lt in Hy as Hr.
  destruct (decide (k' = k)) as [->|Hne].
  - rewrite Em. cbn. rewrite Et, zlookup_insert by lia. by rewrite decide_True.
  - destruct (zlookup (masks t) (k' / 64)); [|done]. cbn. destruct (Z.testbit _ _); [|done]. rewrite zlookup_insert by lia. by rewrite decide_False.
Qed.
Lemma wf_update t k (x : Item) : wf t -> wf (mkTable (masks t) (<[k := x]> (items t))).
Proof. intros [H1 H2 H3]. constructor; cbn; [done| |done]. unfold zlen in *. by rewrite length_insert. Qed.
End Table.

(** ** The invariant *)

(** The paths of a call that the file system resolves: the target of a symbolic link is not one. *)
Definition callPaths (c : fsCall) : list path :=
  match c with
  | CallOpenFile p | CallLstat p | CallStat p | CallMkdir p | CallRmdir p | CallUnlink p | CallReadlink p | CallUtimens p => [p]
  | CallRename p q | CallLink p q => [p; q]
  | CallSymlink _ q => [q]
  end.

Section Safe.
Context `{HO : Host} (windows : bool) (ctx : sysContext) (memorySize : Z).

Definition neverDir (f : File) : Prop := forall w, fst (snd (File_IsDir f w)) = false.
Definition dirent_ok (d : Dirent) : Prop := bytes_ok (DirentName d) /\ zlen (DirentName d) < 2 ^ 31.
Definition cache_ok (d : DirentCache) : Prop :=
  Forall dirent_ok (dotEntries d) /\ zlen (dotEntries d) = 2 /\ is_u64 (countRead d) /\
  forall ds, dirents d = Some ds -> Forall dirent_ok ds /\ zlen ds <= 2 ^ 32 + 1.
(** An entry without a file system is not a directory. *)
Definition entry_ok (e : FileEntry) : Prop :=
  inside (Name e) /\ (EntryFS e = None -> neverDir (EntryFile e)) /\ bytes_ok (Name e) /\
  forall d, direntCache e = Some d -> cache_ok d.

Record safe (h : hostState) : Prop := {
  safe_memory : zlen (Buffer (mem h)) = memorySize;
  safe_bytes : bytes_ok (Buffer (mem h));
  safe_table : wf (openedFiles h);
  safe_size : zlen (masks (openedFiles h)) <= 2 ^ 14 + 1;
  safe_entries : forall k x, at_key (openedFiles h) k = Some x -> exists e, x = Some e /\ entry_ok e;
  safe_calls : Forall (fun c => Forall inside (callPaths (snd c))) (calls h);
}.

(** What the interfaces document: reads give bytes, [Readdir] at most as many
    entries as asked for, with names of a possible length; accepted connections
    are not directories. *)
Record hostLaws : Prop := {
  law_Read : forall f b w, bytes_ok b -> bytes_ok (fst (fst (snd (File_Read f b w))));
  law_Pread : forall f b o w, bytes_ok b -> bytes_ok (fst (fst (snd (File_Pread f b o w))));
  law_Recvfrom : forall f b n w, bytes_ok b -> bytes_ok (fst (fst (snd (Conn_Recvfrom f b n w))));
  law_random : forall n w, bytes_ok (fst (snd (readRandom n w)));
  law_Readdir : forall f n w, 0 < n -> Forall dirent_ok (fst (snd (File_Readdir f n w))) /\ zlen (fst (snd (File_Readdir f n w))) <= n;
  law_Readlink : forall fs p w, bytes_ok (fst (snd (FS_Readlink fs p w)));
  law_Accept : forall f w, neverDir (fst (snd (Sock_Accept f w)));
}.
Context (laws : hostLaws) (small : memorySize < 2 ^ 32).

(** ** Triples *)

Definition triple {A} (P : hostState -> Prop) (c : H A) (Q : A -> hostState -> Prop) : Prop := forall h, safe h -> P h ->
  match c h with
  | (h', Returns a) => safe h' /\ Q a h'
  | (h', Fails _) | (h', Exits _) => safe h'
  | (_, Panics _) => False
  end.
Definition ok {A} (c : H A) (Q : A -> Prop) : Prop := triple (fun _ => True) c (fun a _ => Q a).

Lemma host_bind {A B} P (c : H A) Q (k : A -> H B) R :
  triple P c Q -> (forall a, triple (Q a) (k a) R) -> triple P (c ≫= k) R.
Proof.
  intros Hc Hk h Hs HP. specialize (Hc h Hs HP). unfold mbind, H_bind. destruct (c h) as [h' [a|e|m|x]]; [|done..].
  destruct Hc as [Hs' HQ]. by apply Hk.
Qed.
Lemma ok_bind {A B} (c : H A) Q (k : A -> H B) R : ok c Q -> (forall a, Q a -> ok (k a) R) -> ok (c ≫= k) R.
Proof. intros Hc Hk. eapply host_bind; [exact Hc|]. intros a h Hs HQ. by apply (Hk a HQ). Qed.
Lemma ok_mono {A} (c : H A) (Q Q' : A -> Prop) : ok c Q -> (forall a, Q a -> Q' a) -> ok c Q'.
Proof.
  intros Hc HQ h Hs HP. specialize (Hc h Hs HP). destruct (c h) as [h' [a|e|m|x]]; [|done..]. destruct Hc. split; [done|by apply HQ].
Qed.
Lemma ok_ret {A} (a : A) (Q : A -> Prop) : Q a -> ok (mret a) Q.
Proof. by intros HQ h Hs _. Qed.
Lemma ok_fail {A} e (Q : A -> Prop) : ok (failH e) Q.
Proof. by intros h Hs _. Qed.
Lemma ok_get {A} (f : hostState -> A) : ok (getH f) (fun _ => True).
Proof. by intros h Hs _. Qed.
Lemma ok_exit c (Q : unit -> Prop) : ok (exitH c) Q.
Proof. by intros h Hs _. Qed.

Lemma safe_world w h : safe h -> safe (set_world w h).
Proof. by intros [? ? ? ? ? ?]. Qed.
Lemma ok_world {A} (f : World -> World * A) : ok (worldH f) (fun a => exists w, snd (f w) = a).
Proof. intros h Hs _. unfold worldH. destruct (f (world h)) as [w a] eqn:E. split; [by apply safe_world|]. exists (world h). by rewrite E. Qed.
Lemma ok_errno e (Q : unit -> Prop) : Q tt -> ok (checkErrno e) Q.
Proof. intros HQ. unfold checkErrno. destruct (e =? 0); [by apply ok_ret|apply ok_fail]. Qed.
Lemma ok_errnoH f : ok (errnoH f) (fun _ => True).
Proof. unfold errnoH. eapply ok_bind; [apply ok_world|]. intros e _. by apply ok_errno. Qed.
Lemma ok_checked {A} (f : World -> World * (A * Errno)) : ok (checkedH f) (fun a => exists w, fst (snd (f w)) = a).
Proof.
  unfold checkedH. eapply ok_bind; [apply ok_world|]. intros [a e] [w Hw]. eapply ok_bind; [by apply (ok_errno e (fun _ => True))|].
  intros _ _. apply ok_ret. exists w. by rewrite Hw.
Qed.
Lemma ok_ignore (c : H unit) Q : ok c Q -> ok (ignoreH c) (fun _ => True).
Proof. intros Hc h Hs HP. specialize (Hc h Hs HP). unfold ignoreH. destruct (c h) as [h' [a|e|m|x]]; [by destruct Hc|done..]. Qed.
Lemma ok_param params i : 0 <= i < zlen params -> Forall is_u64 params -> ok (param params i) is_u64.
Proof.
  intros Hi Hp h Hs _. unfold param, liftH. destruct (zindex_in params i Hi) as (a & -> & Ha). split; [done|].
  unfold zlookup in Ha. rewrite (proj2 (Z.leb_le _ _)) in Ha by lia. by eapply Forall_lookup_1.
Qed.

Definition resolvable (fs : option FS) : Prop := fs <> None.
Lemma ok_onFS {A} fs c (f : FS -> World -> World * A) : fs <> None -> Forall inside (callPaths c) ->
  ok (onFS fs c f) (fun a => exists fs w, snd (f fs w) = a).
Proof.
  intros Hfs Hc. destruct fs as [fs|]; [|done]. intros h Hs _. unfold onFS, worldH. cbn.
  destruct (f fs (world h)) as [w a] eqn:E. split; [|exists fs, (world h); by rewrite E].
  destruct Hs as [H1 H2 H3 H4 H5 H6]. constructor; cbn; try done. apply Forall_app_2; [done|]. by apply Forall_cons_2.
Qed.
Lemma ok_errnoFS fs c f : fs <> None -> Forall inside (callPaths c) -> ok (errnoFS fs c f) (fun _ => True).
Proof. intros Hfs Hc. unfold errnoFS. eapply ok_bind; [by apply ok_onFS|]. intros e _. by apply ok_errno. Qed.

(** ** The descriptor table *)

Lemma ok_LookupFile fd : ok (LookupFile fd) (fun r => forall e, r = Some e -> entry_ok e).
Proof.
  intros h Hs _. unfold LookupFile, mbind, H_bind, tableH. rewrite (Lookup_spec _ _ (safe_table h Hs)). cbn [res_bind].
  assert (Hh : safe (set_files (openedFiles h) h)) by by destruct h.
  destruct (at_key (openedFiles h) fd) as [x|] eqn:E; [|done].
  destruct (safe_entries h Hs fd x E) as (e & -> & He). split; [done|]. by intros e' [= <-].
Qed.
Lemma ok_lookupOr e fd : ok (lookupOr e fd) entry_ok.
Proof. unfold lookupOr. eapply ok_bind; [apply ok_LookupFile|]. intros [x|] Hx; [apply ok_ret; by apply Hx|apply ok_fail]. Qed.

Lemma safe_files h t : safe h -> wf t -> zlen (masks t) <= 2 ^ 14 + 1 ->
  (forall k x, at_key t k = Some x -> exists e, x = Some e /\ entry_ok e) -> safe (set_files t h).
Proof. intros [H1 H2 H3 H4 H5 H6] Hw Hm He. by constructor. Qed.

Definition room (h : hostState) : Prop := Len (openedFiles h) < maxFileDescriptor.
Lemma ok_insertFile e : entry_ok e -> triple room (insertFile e) (fun _ _ => True).
Proof.
  intros He h Hs Hr. unfold insertFile, mbind, H_bind, tableH. pose proof (safe_size h Hs) as Hsz.
  destruct (Insert_spec None (openedFiles h) (Some e) (safe_table h Hs)) as (k & t & E & _ & _ & _ & Hw & Ha); [lia|].
  rewrite E. cbn. split; [|done]. pose proof (Insert_masks None _ _ _ _ _ (safe_table h Hs) E) as Hm.
  apply safe_files; [done|done| |].
  - unfold room, maxFileDescriptor in Hr. assert (Len (openedFiles h) / 64 < 2 ^ 14) by (apply Z.div_lt_upper_bound; lia). lia.
  - intros k' x. rewrite Ha. destruct (decide _); [intros [= <-]; by exists e|]. by apply (safe_entries h Hs).
Qed.

Lemma ok_CloseFile fd : ok (CloseFile fd) (fun _ => True).
Proof.
  unfold CloseFile. eapply ok_bind; [apply ok_lookupOr|]. intros f _. eapply ok_bind; [apply ok_errnoH|]. intros _ _ h Hs _.
  unfold tableH. destruct (Delete_spec None (openedFiles h) fd (safe_table h Hs)) as (t & E & Hw & Ha). rewrite E. cbn. split; [|done].
  apply safe_files; [done|done|rewrite (Delete_masks None _ _ _ E); by apply safe_size|].
  intros k x. rewrite Ha. destruct (decide _); [done|]. by apply (safe_entries h Hs).
Qed.

Lemma ok_OpenFile fs p flag perm : fs <> None -> inside p -> bytes_ok p -> ok (OpenFile fs p flag perm) (fun _ => True).
Proof.
  intros Hfs Hp Hb. unfold OpenFile. eapply host_bind with (Q := fun n h => n = Len (openedFiles h)); [by intros h Hs _|].
  intros n h Hs ->. destruct (Z.geb_spec (Len (openedFiles h)) maxFileDescriptor) as [|Hn]; [done|].
  revert h Hs Hn. change (triple room ('(f, errno) ← onFS fs (CallOpenFile p) (λ fs0, FS_OpenFile fs0 p flag perm);
    _ ← checkErrno errno; insertFile (mkFileEntry (if bool_decide (p ∈ [[slash]; dot]) then [] else p) false fs f None)) (fun _ _ => True)).
  eapply host_bind with (Q := fun _ => room).
  { intros h Hs Hr. pose proof (ok_onFS fs (CallOpenFile p) (λ fs0, FS_OpenFile fs0 p flag perm) Hfs (Forall_cons_2 _ _ _ Hp (Forall_nil_2 _)) h Hs I) as Ho.
    destruct fs as [fs|]; [|done]. unfold onFS, worldH in *. cbn in *. destruct (FS_OpenFile _ _ _ _ _) as [w [f e]]. by split; [apply Ho|]. }
  intros [f errno]. eapply host_bind with (Q := fun _ => room).
  { intros h Hs Hr. unfold checkErrno. by destruct (errno =? 0). }
  intros _. apply ok_insertFile. unfold entry_ok. cbn. split_and!; try done.
  - destruct (bool_decide _); [by repeat constructor|done].
  - destruct (bool_decide _); [by constructor|done].
Qed.

Lemma ok_Renumber from to : ok (Renumber from to) (fun _ => True).
Proof.
  unfold Renumber. eapply ok_bind; [apply ok_LookupFile|]. intros [e|] He; [|apply ok_fail]. specialize (He e eq_refl).
  destruct ((to <? 0) || (to >? maxFileDescriptor)) eqn:Eb; [apply ok_fail|]. destruct (IsPreopen e); [apply ok_fail|].
  eapply ok_bind; [apply ok_LookupFile|]. intros toFile _. eapply ok_bind with (Q := fun _ => True).
  { destruct toFile; [|by apply ok_ret]. destruct (to =? from); [by apply ok_ret|]. destruct (IsPreopen _); [apply ok_fail|].
    eapply ok_ignore, ok_errnoH. }
  intros _ _. eapply ok_bind with (Q := fun _ => True).
  { intros h Hs _. unfold tableH. destruct (Delete_spec None (openedFiles h) from (safe_table h Hs)) as (t & E & Hw & Ha). rewrite E. cbn. split; [|done].
    apply safe_files; [done|done|rewrite (Delete_masks None _ _ _ E); by apply safe_size|].
    intros k x. rewrite Ha. destruct (decide _); [done|]. by apply (safe_entries h Hs). }
  intros _ _. eapply ok_bind with (Q := fun _ => True); [|intros [] _; [by apply ok_ret|apply ok_fail]].
  unfold maxFileDescriptor in Eb. rewrite Z.gtb_ltb, orb_false_iff, !Z.ltb_ge in Eb. intros h Hs _. unfold tableH.
  destruct (InsertAt_spec None (openedFiles h) (Some e) to (safe_table h Hs)) as (t & E & Hw & Ha); [lia|]. rewrite E. split; [|done].
  apply safe_files; [done|done| |].
  - pose proof (InsertAt_masks None (Some e) to _ _ _ ltac:(lia) E) as Hm. pose proof (safe_size h Hs).
    assert (to / 64 < 2 ^ 14 + 1) by (apply Z.div_lt_upper_bound; lia). lia.
  - intros k x. rewrite Ha. destruct (decide _); [intros [= <-]; by exists e|]. by apply (safe_entries h Hs).
Qed.

(** Steps on the world keep the table. *)
Lemma keep_room {A} (f : World -> World * A) Q : ok (worldH f) Q -> triple room (worldH f) (fun a h => room h /\ Q a).
Proof.
  intros Ho h Hs Hr. specialize (Ho h Hs I). unfold worldH in *. destruct (f (world h)) as [w a]. destruct Ho as [Ho1 Ho2]. by split.
Qed.
Lemma closing_fails {A} f e (P : hostState -> Prop) (Q : A -> hostState -> Prop) :
  triple P (_ ← ignoreH (errnoH (File_Close f)); failH e) Q.
Proof. eapply host_bind; [intros h Hs _; apply (ok_ignore _ _ (ok_errnoH (File_Close f)) h Hs I)|]. by intros _ h Hs _. Qed.
Lemma ok_SockAccept fd nb : ok (SockAccept fd nb) (fun _ => True).
Proof using laws.
  unfold SockAccept. eapply ok_bind; [apply ok_LookupFile|]. intros [e|] He; [|apply ok_fail].
  destruct (negb (IsPreopen e)); [apply ok_fail|]. destruct (negb (isTCPSock _)); [apply ok_fail|].
  eapply ok_bind; [apply ok_checked|]. intros conn [w0 Hc]. assert (Hn : neverDir conn) by (rewrite <- Hc; by apply (law_Accept laws)).
  eapply host_bind with (Q := fun n h => n = Len (openedFiles h)); [by intros h Hs _|].
  intros n h Hs ->. destruct (Z.geb_spec (Len (openedFiles h)) maxFileDescriptor) as [|Hr].
  { by apply (closing_fails conn EMFILE (fun _ => True)). }
  revert h Hs Hr. match goal with |- forall h, safe h -> Len _ < _ -> match ?c h with _ => _ end => change (triple room c (fun _ _ => True)) end.
  eapply host_bind with (Q := fun _ => room).
  - destruct (nb && isPollableFile conn); [|by intros h Hs Hr].
    eapply host_bind; [apply keep_room, ok_world|]. intros errno. destruct (errno =? 0); [by intros h Hs [Hr _]|]. apply closing_fails.
  - intros _. apply ok_insertFile. unfold entry_ok. cbn. split_and!; try done; [by repeat constructor|by constructor].
Qed.

(** ** The memory *)

Definition view_ok (v : view) : Prop := 0 <= lo v /\ 0 <= vlen v /\ lo v + vlen v <= memorySize.

Lemma safe_buffer h l : safe h -> zlen l = memorySize -> bytes_ok l -> safe (set_mem (set_Buffer l (mem h)) h).
Proof. intros [H1 H2 H3 H4 H5 H6] Hl Hb. by constructor. Qed.
Lemma ok_readView e o n : is_u32 o -> is_u32 n -> ok (readView e o n) (fun v => v = mkView o n /\ view_ok v).
Proof using small.
  intros Ho Hn h Hs _. unfold readView. rewrite Read_spec by done. rewrite (safe_memory h Hs).
  destruct (Z.leb_spec (o + n) memorySize); [|done]. cbn [negb]. rewrite (proj2 (Z.ltb_lt _ _)) by lia. split; [done|].
  split; [done|]. unfold is_u32, view_ok in *. cbn. lia.
Qed.
Lemma ok_bytesV v : view_ok v -> ok (bytesV v) (fun b => bytes_ok b /\ zlen b = vlen v).
Proof.
  intros (H1 & H2 & H3) h Hs _. split; [done|]. split; [apply Forall_take, Forall_drop, (safe_bytes h Hs)|].
  unfold bytesAt. rewrite zlen_take, zlen_drop, (safe_memory h Hs). lia.
Qed.
Lemma ok_getV n v i : view_ok v -> 0 <= i -> i + Z.of_nat n <= vlen v -> ok (getV n v i) (fun x => 0 <= x < 2 ^ (8 * Z.of_nat n)).
Proof.
  intros (H1 & H2 & H3) Hi Hn h Hs _. unfold getV, fits. rewrite !(proj2 (Z.leb_le _ _)) by lia. cbn. split; [done|].
  assert (Hz : zlen (bytesAt (Buffer (mem h)) (lo v + i) (Z.of_nat n)) = Z.of_nat n).
  { unfold bytesAt. rewrite zlen_take, zlen_drop, (safe_memory h Hs). lia. }
  rewrite <- Hz at 3. apply le_decode_range, Forall_take, Forall_drop, (safe_bytes h Hs).
Qed.
Lemma stored_ok l o b : bytes_ok l -> bytes_ok b -> bytes_ok (stored l o b).
Proof. intros Hl Hb. unfold stored. apply Forall_app_2; [by apply Forall_take|]. apply Forall_app_2; [done|by apply Forall_drop]. Qed.
Lemma ok_stored f o b : 0 <= o -> o + zlen b <= memorySize -> bytes_ok b ->
  (forall l, zlen l = memorySize -> f l = Ok (stored l o b)) -> ok (bufferH f) (fun _ => True).
Proof.
  intros Ho Hl Hb Hf h Hs _. unfold bufferH. rewrite Hf by apply (safe_memory h Hs). split; [|done].
  apply safe_buffer; [done|rewrite zlen_stored; by rewrite ?(safe_memory h Hs)|]. apply stored_ok; [apply (safe_bytes h Hs)|done].
Qed.
Lemma ok_putV n v i x : view_ok v -> 0 <= i -> i + Z.of_nat n <= vlen v -> ok (putV n v i x) (fun _ => True).
Proof.
  intros (H1 & H2 & H3) Hi Hn. unfold putV, fits. rewrite !(proj2 (Z.leb_le _ _)) by lia. cbn [andb].
  assert (Hz : zlen (le_encode n x) = Z.of_nat n) by (unfold zlen; by rewrite length_le_encode).
  apply (ok_stored _ (lo v + i) (le_encode n x)); [lia|lia|apply le_encode_ok|]. intros l Hl. unfold putUint.
  rewrite zslice_in by lia. cbn [res_bind]. rewrite (proj2 (Z.leb_le _ _)) by (rewrite zlen_drop; lia). apply copyAt_in; lia.
Qed.
Lemma ok_copyV v i b : view_ok v -> 0 <= i <= vlen v -> bytes_ok b -> ok (copyV v i b) (fun _ => True).
Proof.
  intros (H1 & H2 & H3) Hi Hb. unfold copyV, fits. rewrite !(proj2 (Z.leb_le _ _)) by lia. cbn [andb].
  apply (ok_stored _ (lo v + i) (take (Z.to_nat (vlen v - i)) b)); [lia|rewrite zlen_take; lia|by apply Forall_take|].
  intros l Hl. apply copyAt_in; [lia|]. rewrite zlen_take. lia.
Qed.
Lemma ok_Write e o b : is_u32 o -> bytes_ok b -> zlen b < 2 ^ 63 -> ok (writeMem e (fun m => Write m o b)) (fun _ => True).
Proof.
  intros Ho Hb Hl h Hs _. unfold writeMem. rewrite Write_spec by done. rewrite (safe_memory h Hs).
  destruct (Z.leb_spec (o + zlen b) memorySize).
  - split; [|done]. unfold is_u32 in *. apply safe_buffer; [done|rewrite zlen_stored; rewrite ?(safe_memory h Hs); lia|].
    apply stored_ok; [apply (safe_bytes h Hs)|done].
  - by destruct h.
Qed.
Lemma ok_writeUint n e o x f : is_u32 o -> (n <= 8)%nat -> (forall m, f m = writeWith m o (Z.of_nat n) (fun l => putUint n l o x)) ->
  ok (writeMem e f) (fun _ => True).
Proof.
  intros Ho Hn Hf h Hs _. pose proof (ok_Write e o (le_encode n x) Ho (le_encode_ok n x)) as Hw.
  specialize (Hw ltac:(unfold zlen; rewrite length_le_encode; lia) h Hs I). unfold writeMem in *. by rewrite Hf, putUint_Write.
Qed.

Lemma ok_writeU16 e o x : is_u32 o -> ok (writeMem e (fun m => WriteUint16Le m o x)) (fun _ => True).
Proof. intros Ho. by apply (ok_writeUint 2 e o x); [done|lia|]. Qed.
Lemma ok_writeU32 e o x : is_u32 o -> ok (writeMem e (fun m => WriteUint32Le m o x)) (fun _ => True).
Proof. intros Ho. by apply (ok_writeUint 4 e o x); [done|lia|]. Qed.
Lemma ok_writeU64 e o x : is_u32 o -> ok (writeMem e (fun m => WriteUint64Le m o x)) (fun _ => True).
Proof. intros Ho. by apply (ok_writeUint 8 e o x); [done|lia|]. Qed.
Lemma u32_ok v : is_u32 (u32 v).
Proof. apply wrap32_range. Qed.
Lemma u32_small v : is_u32 v -> u32 v = v.
Proof. apply wrap32_small. Qed.

Definition stack_ok (n : Z) (params : list Z) : Prop := n <= zlen params /\ Forall is_u64 params.
Lemma ok_fdOf params : stack_ok 1 params -> ok (fdOf params) (fun _ => True).
Proof. intros [? ?]. unfold fdOf. eapply ok_bind; [apply ok_param; [lia|done]|]. intros. by apply ok_ret. Qed.

(** ** One step of a function *)

Ltac is32 := solve [apply u32_ok | unfold is_u32 in *; lia].
Ltac okstep :=
  lazymatch goal with
  | |- ok (param _ _ ≫= _) _ => eapply ok_bind; [apply ok_param; [lia|done]|intros ? ?]
  | |- ok (fdOf _ ≫= _) _ => eapply ok_bind; [apply ok_fdOf; split; [lia|done]|intros ? _]
  | |- ok (putV _ _ _ _ ≫= _) _ => eapply ok_bind; [apply ok_putV; [done|cbn; lia|cbn; lia]|intros ? _]
  | |- ok (putV _ _ _ _) _ => apply ok_putV; [done|cbn; lia|cbn; lia]
  | |- ok (lookupOr _ _ ≫= _) _ => eapply ok_bind; [apply ok_lookupOr|intros ? ?]
  | |- ok (LookupFile _ ≫= _) _ => eapply ok_bind; [apply ok_LookupFile|intros ? ?]
  | |- ok (checkedH _ ≫= _) _ => eapply ok_bind; [apply ok_checked|intros ? [? ?]]
  | |- ok (checkErrno _ ≫= _) _ => eapply ok_bind; [by apply (ok_errno _ (fun _ => True))|intros ? _]
  | |- ok (errnoH _ ≫= _) _ => eapply ok_bind; [apply ok_errnoH|intros ? _]
  | |- ok (worldH _ ≫= _) _ => eapply ok_bind; [apply ok_world|intros ? [? ?]]
  | |- ok (getH _ ≫= _) _ => eapply ok_bind; [apply ok_get|intros ? _]
  | |- ok (readView _ _ _ ≫= _) _ => eapply ok_bind; [apply ok_readView; is32|intros ? [? ?]]
  | |- ok (bytesV _ ≫= _) _ => eapply ok_bind; [by apply ok_bytesV|intros ? [? ?]]
  | |- ok (writeMem _ (fun m => WriteUint32Le m _ _) ≫= _) _ => eapply ok_bind; [apply ok_writeU32; is32|intros ? _]
  | |- ok (match ?x with _ => _ end) _ => destruct x
  | |- ok (errnoH _) _ => apply ok_errnoH
  | |- ok (failH _) _ => apply ok_fail
  | |- ok (mret _) _ => by apply ok_ret
  | |- ok (checkErrno _) _ => by apply ok_errno
  | |- ok (writeMem _ (fun m => WriteUint32Le m _ _)) _ => apply ok_writeU32; is32
  | |- ok (writeMem _ (fun m => WriteUint64Le m _ _)) _ => apply ok_writeU64; is32
  end; cbn beta zeta iota.
Ltac oks := repeat okstep.

Lemma ok_sizesGet values size params : stack_ok 2 params -> ok (sizesGet values size params) (fun _ => True).
Proof. intros [? ?]. unfold sizesGet. oks. Qed.
Lemma ok_clockResGet params : stack_ok 2 params -> ok (clockResGetFn ctx params) (fun _ => True).
Proof. intros [? ?]. unfold clockResGetFn. do 2 okstep. eapply ok_bind with (Q := fun _ => True); [oks|]. intros r _. oks. Qed.
Lemma ok_Walltime : ok WalltimeNanos (fun _ => True).
Proof. unfold WalltimeNanos. oks. Qed.
Lemma ok_clockTimeGet params : stack_ok 3 params -> ok (clockTimeGetFn params) (fun _ => True).
Proof.
  intros [? ?]. unfold clockTimeGetFn. do 2 okstep. eapply ok_bind with (Q := fun _ => True); [|intros; oks].
  destruct (_ =? _); [apply ok_Walltime|]. destruct (_ =? _); [eapply ok_mono; [apply ok_world|done]|apply ok_fail].
Qed.
Lemma ok_randomGet params : stack_ok 2 params -> ok (randomGetFn params) (fun _ => True).
Proof using laws small.
  intros [? ?]. unfold randomGetFn. do 4 okstep. destruct a2 as [bytes b]. eapply ok_bind; [|intros ? _; oks].
  apply ok_copyV; [done| |]. { match goal with H : view_ok _ |- _ => destruct H as (? & ? & ?) end. lia. }
  match goal with H : snd (readRandom ?n ?w) = _ |- _ => pose proof (law_random laws n w) as Hr; rewrite H in Hr end. done.
Qed.
Lemma ok_fdAdvise params : stack_ok 4 params -> ok (fdAdviseFn params) (fun _ => True).
Proof. intros [? ?]. unfold fdAdviseFn. oks. Qed.
Lemma ok_fdAllocate params : stack_ok 3 params -> ok (fdAllocateFn params) (fun _ => True).
Proof. intros [? ?]. unfold fdAllocateFn. oks. Qed.
Lemma ok_fdClose params : stack_ok 1 params -> ok (fdCloseFn params) (fun _ => True).
Proof. intros [? ?]. unfold fdCloseFn. oks. apply ok_CloseFile. Qed.
Lemma ok_fdDatasync params : stack_ok 1 params -> ok (fdDatasyncFn params) (fun _ => True).
Proof. intros [? ?]. unfold fdDatasyncFn. oks. Qed.
Lemma ok_fdSync params : stack_ok 1 params -> ok (fdSyncFn params) (fun _ => True).
Proof. intros [? ?]. unfold fdSyncFn. oks. Qed.
Lemma ok_writeFdstat o a b c d : view_ok (mkView o 24) -> ok (writeFdstat (mkView o 24) a b c d) (fun _ => True).
Proof. intros Hv. unfold writeFdstat. cbn [vlen]. change (24 <? 24) with false. cbv iota. oks. Qed.
Lemma ok_fdFdstatGet params : stack_ok 2 params -> ok (fdFdstatGetFn params) (fun _ => True).
Proof using small. intros [? ?]. unfold fdFdstatGetFn. do 6 okstep. subst. case_match. by apply ok_writeFdstat. Qed.
Lemma ok_fdFdstatSetFlags params : stack_ok 2 params -> ok (fdFdstatSetFlagsFn params) (fun _ => True).
Proof.
  intros [? ?]. unfold fdFdstatSetFlagsFn. do 2 okstep. destruct (_ || _); [oks|]. okstep.
  eapply ok_bind with (Q := fun _ => True); [oks|]. intros ? _. oks.
Qed.
Lemma ok_writeFilestat o st t : view_ok (mkView o 64) -> ok (writeFilestat (mkView o 64) st t) (fun _ => True).
Proof. intros Hv. unfold writeFilestat. oks. Qed.
Lemma ok_fdFilestatGet params : stack_ok 2 params -> ok (fdFilestatGetFn params) (fun _ => True).
Proof using small. intros [? ?]. unfold fdFilestatGetFn. do 5 okstep. subst. by apply ok_writeFilestat. Qed.
Lemma ok_fdFilestatSetSize params : stack_ok 2 params -> ok (fdFilestatSetSizeFn params) (fun _ => True).
Proof. intros [? ?]. unfold fdFilestatSetSizeFn. oks. Qed.
Lemma ok_toTimes a m f : ok (toTimes a m f) (fun _ => True).
Proof.
  unfold toTimes. eapply ok_bind with (Q := fun _ => True).
  { destruct (_ && _); [oks|]. destruct (has _ _); [oks|]. destruct (has _ _); [|oks]. eapply ok_bind; [apply ok_Walltime|]. intros. oks. }
  intros [t n] _. cbn beta iota. eapply ok_bind with (Q := fun _ => True); [|intros; oks].
  destruct (_ && _); [oks|]. destruct (has _ _); [oks|]. destruct (has _ _); [|oks]. destruct (negb _); [oks|apply ok_Walltime].
Qed.
Lemma ok_fdFilestatSetTimes params : stack_ok 4 params -> ok (fdFilestatSetTimesFn params) (fun _ => True).
Proof.
  intros [? ?]. unfold fdFilestatSetTimesFn. do 5 okstep. eapply ok_bind; [apply ok_toTimes|]. intros [at_ mt] _. cbn beta iota. okstep.
  destruct (one_of _ _); [|oks]. match goal with |- context [EntryFS ?e] => destruct (EntryFS e); [|oks]; assert (He : entry_ok e) by done end.
  eapply ok_bind; [apply ok_onFS; [done|]|intros; oks]. apply Forall_cons_2; [apply He|by constructor].
Qed.
Lemma ok_preopenPath fd : ok (preopenPath fd) bytes_ok.
Proof. unfold preopenPath. oks. apply ok_ret. by match goal with He : entry_ok _ |- _ => destruct He as (_ & _ & ? & _) end. Qed.
Lemma ok_fdPrestatGet params : stack_ok 2 params -> ok (fdPrestatGetFn params) (fun _ => True).
Proof. intros [? ?]. unfold fdPrestatGetFn. do 2 okstep. eapply ok_bind; [apply ok_preopenPath|]. intros. oks. Qed.
Lemma ok_fdPrestatDirName params : stack_ok 3 params -> ok (fdPrestatDirNameFn params) (fun _ => True).
Proof.
  intros [? ?]. unfold fdPrestatDirNameFn. do 3 okstep. eapply ok_bind; [apply ok_preopenPath|]. intros name Hb.
  destruct (Z.ltb_spec (u32 (zlen name)) (u32 a1)) as [|Hn]; [oks|]. pose proof (u32_ok a1) as Hu.
  assert (u32 (zlen name) <= zlen name) by (apply Z.mod_le; [apply zlen_nonneg|lia]).
  unfold slice2. rewrite !(proj2 (Z.leb_le _ _)) by (unfold is_u32 in *; lia). cbn [andb].
  eapply ok_bind with (Q := fun b => b = take (Z.to_nat (u32 a1 - 0)) (drop (Z.to_nat 0) name)); [by intros h Hs _|]. intros b ->.
  apply ok_Write; [apply u32_ok|by apply Forall_take, Forall_drop|]. rewrite zlen_take. unfold is_u32 in *. lia.
Qed.
Lemma ok_fdRenumber params : stack_ok 2 params -> ok (fdRenumberFn params) (fun _ => True).
Proof. intros [? ?]. unfold fdRenumberFn. oks. apply ok_Renumber. Qed.
Lemma ok_fdSeek a b c d : ok (fdSeek a b c d) (fun _ => True).
Proof. unfold fdSeek. oks. Qed.
Lemma ok_fdSeekFn params : stack_ok 4 params -> ok (fdSeekFn params) (fun _ => True).
Proof. intros [? ?]. unfold fdSeekFn. oks. apply ok_fdSeek. Qed.
Lemma ok_fdTellFn params : stack_ok 2 params -> ok (fdTellFn params) (fun _ => True).
Proof. intros [? ?]. unfold fdTellFn. oks. apply ok_fdSeek. Qed.

(** ** Reading and writing *)

Definition transfer_ok (t : transfer) : Prop := forall off v, view_ok v -> ok (t off v) (fun _ => True).
Lemma view_len v : view_ok v -> 0 <= 0 <= vlen v.
Proof. intros (? & ? & ?). lia. Qed.
Lemma ok_fill v (g : list Z -> World -> World * (list Z * Z * Errno)) (k : Z -> Z) :
  (forall b w, bytes_ok b -> bytes_ok (fst (fst (snd (g b w))))) -> view_ok v ->
  ok (b ← bytesV v; '(b', n, errno) ← worldH (g b); _ ← copyV v 0 b'; mret (n, errno, k n)) (fun _ => True).
Proof.
  intros Hg Hv. okstep. eapply ok_bind; [apply ok_world|]. intros [[b' n] e] [w Hw]. cbn beta iota.
  eapply ok_bind; [apply ok_copyV; [done|by apply view_len|]|intros; oks]. pose proof (Hg a w ltac:(done)) as Hb. by rewrite Hw in Hb.
Qed.
Lemma ok_fileRead f : transfer_ok (fileRead f).
Proof using laws. intros off v Hv. apply (ok_fill v (File_Read f) (fun _ => off)); [apply (law_Read laws)|done]. Qed.
Lemma ok_preader f : transfer_ok (preaderRead f).
Proof using laws.
  intros off v Hv. unfold preaderRead. destruct (_ =? 0); [oks|].
  apply (ok_fill v (fun b => File_Pread f b off) (fun n => sgn64 (off + n))); [|done]. intros. by apply (law_Pread laws).
Qed.
Lemma ok_fileWrite f : transfer_ok (fileWrite f).
Proof. intros off v Hv. unfold fileWrite. oks. Qed.
Lemma ok_pwriter f : transfer_ok (pwriterWrite f).
Proof. intros off v Hv. unfold pwriterWrite. oks. Qed.
Lemma ok_accumulate total n errno l : ok (accumulate total n errno l) (fun _ => True).
Proof. unfold accumulate. destruct (negb _); oks. Qed.

(** The loop has an iovec per round. *)
Lemma ok_iovLoop fuel skip t v pos total off : transfer_ok t -> view_ok v -> is_u32 (vlen v) -> 0 <= pos <= vlen v -> vlen v mod 8 = 0 -> pos mod 8 = 0 ->
  vlen v - pos < 8 * Z.of_nat fuel -> ok (iovLoop fuel skip t v pos total off) (fun _ => True).
Proof using small.
  intros Ht Hv Hl. revert pos total off. induction fuel as [|fuel IH]; intros pos total off Hp Hm Hpm Hf.
  { exfalso. lia. }
  cbn [iovLoop]. destruct (Z.ltb_spec pos (vlen v)) as [Hlt|]; cbn [negb]; [|by apply ok_ret].
  assert (Hlt8 : pos + 8 <= vlen v).
  { pose proof (Z.div_mod pos 8 ltac:(lia)). pose proof (Z.div_mod (vlen v) 8 ltac:(lia)).
    assert (pos / 8 < vlen v / 8) by (apply Z.div_lt_upper_bound; lia). lia. }
  assert (Hp4 : u32 (pos + 4) = pos + 4) by (apply u32_small; unfold is_u32 in *; lia).
  assert (Hp8 : u32 (pos + 8) = pos + 8) by (apply u32_small; unfold is_u32 in *; lia).
  assert (Hpm8 : (pos + 8) mod 8 = 0) by (rewrite Z.add_mod, Hpm by lia; done).
  rewrite Hp4, Hp8.
  eapply ok_bind; [apply (ok_getV 4); [done|lia|lia]|]. intros o Ho. eapply ok_bind; [apply (ok_getV 4); [done|lia|lia]|]. intros l Hll.
  change (8 * Z.of_nat 4) with 32 in *. cbn beta. destruct (skip && (l =? 0)); [apply IH; lia|].
  okstep. eapply ok_bind; [by apply Ht|]. intros [[n e] off'] _. cbn beta iota. eapply ok_bind; [apply ok_accumulate|]. intros [tot more] _. cbn beta iota.
  destruct more; [apply IH; lia|oks].
Qed.
Lemma ok_iov skip iovs n t off : is_u32 iovs -> transfer_ok t -> ok (iov skip iovs n t off) (fun _ => True).
Proof using small.
  intros Hi Ht. unfold iov. okstep. subst. pose proof (u32_ok (Z.shiftl n 3)) as Hu.
  assert (Hm : u32 (Z.shiftl n 3) mod 8 = 0).
  { unfold u32, wrap32. rewrite Z.shiftl_mul_pow2 by lia. change (2 ^ 3) with 8.
    change (2 ^ 32) with (2 ^ 29 * 8). rewrite Z.mul_mod_distr_r by lia. apply Z.mod_mul. lia. }
  pose proof (Z.div_mod (u32 (Z.shiftl n 3)) 8 ltac:(lia)). unfold is_u32 in Hu.
  apply ok_iovLoop; cbn [vlen]; try done; try lia.
Qed.
Lemma ok_fdReadOrPread (p : bool) params : stack_ok (if p then 5 else 4) params -> ok (fdReadOrPread p params) (fun _ => True).
Proof using laws small.
  intros [? ?]. unfold fdReadOrPread. assert (4 <= zlen params) by (destruct p; lia). do 4 okstep.
  eapply ok_bind with (Q := fun x : transfer * Z * Z => transfer_ok (fst (fst x)) /\ is_u32 (snd x)).
  { destruct p; oks; apply ok_ret; (split; [first [apply ok_preader|apply ok_fileRead]|apply u32_ok]). }
  intros [[t off] r] [Ht Hr]. cbn in Ht, Hr. cbn beta iota. eapply ok_bind; [apply ok_iov; [apply u32_ok|done]|]. intros. oks.
Qed.
Lemma ok_fdWriteOrPwrite (p : bool) params : stack_ok (if p then 5 else 4) params -> ok (fdWriteOrPwrite p params) (fun _ => True).
Proof using small.
  intros [? ?]. unfold fdWriteOrPwrite. assert (4 <= zlen params) by (destruct p; lia). do 4 okstep.
  eapply ok_bind with (Q := fun x : transfer * Z * Z => transfer_ok (fst (fst x)) /\ is_u32 (snd x)).
  { destruct p; oks; apply ok_ret; (split; [first [apply ok_pwriter|apply ok_fileWrite]|apply u32_ok]). }
  intros [[t off] r] [Ht Hr]. cbn in Ht, Hr. cbn beta iota. eapply ok_bind; [apply ok_iov; [apply u32_ok|done]|]. intros. oks.
Qed.

(** ** Paths *)

Lemma Split_bytes sep p : bytes_ok p -> Forall bytes_ok (Split sep p).
Proof.
  intros Hp. induction Hp as [|c p Hc Hp IH]; [by repeat constructor|]. cbn. destruct (c =? sep); [by apply Forall_cons_2; [constructor|]|].
  destruct (Split sep p) as [|e es]; [apply Forall_cons_2; [by apply Forall_cons_2; [|constructor]|constructor]|].
  apply Forall_cons in IH as [He Hes].
  apply Forall_cons_2; [|done]. by apply Forall_cons_2.
Qed.
Lemma Join_bytes sep l : is_u8 sep -> Forall bytes_ok l -> bytes_ok (Join sep l).
Proof.
  intros Hs Hl. induction Hl as [|e l He Hl IH]; [constructor|]. destruct l as [|e' l]; [done|].
  apply Forall_app_2; [done|]. by apply Forall_cons_2.
Qed.
Lemma clean_bytes rooted es out : Forall bytes_ok es -> Forall bytes_ok out -> Forall bytes_ok (fold_left (cleanElement rooted) es out).
Proof.
  intros Hes. revert out. induction Hes as [|e es He Hes IH]; intros out Ho; [exact Ho|]. cbn. apply IH.
  unfold cleanElement. repeat case_match; try done; try (by apply Forall_cons_2); subst; by apply Forall_cons in Ho as [_ ?].
Qed.
Lemma Clean_bytes p : bytes_ok p -> bytes_ok (Clean p).
Proof.
  intros Hp. assert (Hf : Forall bytes_ok (rev (fold_left (cleanElement (rootedPath p)) (Split slash p) []))).
  { apply Forall_rev, clean_bytes; [by apply Split_bytes|constructor]. }
  assert (Hs : is_u8 slash) by (unfold is_u8, slash; lia). unfold Clean. destruct (rootedPath p).
  - apply Forall_cons_2; [done|]. by apply Join_bytes.
  - destruct (rev _); [|by apply Join_bytes]. apply Forall_cons_2; [unfold is_u8; lia|constructor].
Qed.

Definition resolved (x : option FS * path) : Prop := fst x <> None /\ inside (snd x) /\ bytes_ok (snd x).
Lemma dir_has_fs e w : entry_ok e -> fst (snd (File_IsDir (EntryFile e) w)) = true -> EntryFS e <> None.
Proof. intros (_ & Hn & _) Hd E. specialize (Hn E w). congruence. Qed.
Lemma ok_atPath fd p n : is_u32 p -> is_u32 n -> ok (atPath windows fd p n) resolved.
Proof using small.
  intros Hp Hn. unfold atPath. do 2 okstep.
  destruct (negb (ValidPath (Clean a0)) || _) eqn:E; [oks|]. apply orb_false_iff in E as [E _]. apply negb_false_iff in E.
  set (q := if HasSuffixSlash a0 then Clean a0 ++ [slash] else Clean a0).
  assert (Hq : inside q /\ bytes_ok q).
  { pose proof (Clean_bytes a0 ltac:(done)). apply valid_inside in E. unfold q. destruct (HasSuffixSlash a0); [|done]. split; [by apply inside_suffix|].
    apply Forall_app_2; [done|]. apply Forall_cons_2; [unfold is_u8, slash; lia|constructor]. }
  destruct Hq as [Hi Hb]. eapply ok_bind; [apply ok_lookupOr|]. intros f Hf. eapply ok_bind; [apply ok_checked|]. intros isDir [w Hd].
  destruct isDir; cbn [negb]; [|apply ok_fail]. pose proof (dir_has_fs f w Hf Hd). destruct (IsPreopen f); [by apply ok_ret|].
  destruct Hf as (Hin & _ & Hfb & _). apply ok_ret. split_and!; [done|by apply inside_join|].
  apply Forall_app_2; [done|]. apply Forall_cons_2; [unfold is_u8, slash; lia|done].
Qed.
Lemma ok_atParams params i j k : 0 <= i < zlen params -> 0 <= j < zlen params -> 0 <= k < zlen params -> Forall is_u64 params ->
  ok (atParams windows params i j k) resolved.
Proof using small. intros. unfold atParams. do 3 okstep. apply ok_atPath; apply u32_ok. Qed.
Ltac at_params := eapply ok_bind; [apply ok_atParams; [lia..|done]|intros [? ?] (? & ? & ?); cbn beta iota].
Ltac calls_ok := first [done | by repeat apply Forall_cons_2].
Ltac on_fs := eapply ok_bind; [apply ok_onFS; [done|calls_ok]|intros ? (? & ? & ?)].
Ltac on_errno := apply ok_errnoFS; [done|calls_ok].

Lemma ok_pathCreateDirectory params : stack_ok 3 params -> ok (pathCreateDirectoryFn windows params) (fun _ => True).
Proof using small. intros [? ?]. unfold pathCreateDirectoryFn. at_params. on_errno. Qed.
Lemma ok_pathRemoveDirectory params : stack_ok 3 params -> ok (pathRemoveDirectoryFn windows params) (fun _ => True).
Proof using small. intros [? ?]. unfold pathRemoveDirectoryFn. at_params. on_errno. Qed.
Lemma ok_pathUnlinkFile params : stack_ok 3 params -> ok (pathUnlinkFileFn windows params) (fun _ => True).
Proof using small. intros [? ?]. unfold pathUnlinkFileFn. at_params. on_errno. Qed.
Lemma ok_pathRename params : stack_ok 6 params -> ok (pathRenameFn windows params) (fun _ => True).
Proof using small. intros [? ?]. unfold pathRenameFn. do 2 at_params. destruct (negb _); [oks|on_errno]. Qed.
Lemma ok_pathLink params : stack_ok 7 params -> ok (pathLinkFn windows params) (fun _ => True).
Proof using small. intros [? ?]. unfold pathLinkFn. do 2 at_params. destruct (negb _); [oks|on_errno]. Qed.
Lemma ok_pathFilestatGet params : stack_ok 5 params -> ok (pathFilestatGetFn windows params) (fun _ => True).
Proof using small.
  intros [? ?]. unfold pathFilestatGetFn. okstep. at_params. eapply ok_bind with (Q := fun _ => True).
  { destruct (_ =? 0); (eapply ok_mono; [apply ok_onFS; [done|calls_ok]|done]). }
  intros [st e] _. cbn beta iota. do 3 okstep. subst. by apply ok_writeFilestat.
Qed.
Lemma ok_pathFilestatSetTimes params : stack_ok 7 params -> ok (pathFilestatSetTimesFn windows params) (fun _ => True).
Proof using small.
  intros [? ?]. unfold pathFilestatSetTimesFn. do 4 okstep. eapply ok_bind; [apply ok_toTimes|]. intros [at_ mt] _. cbn beta iota. at_params.
  destruct (has _ _); [on_errno|]. on_fs. destruct a3 as [f e]. cbn beta iota. do 2 okstep.
  eapply ok_bind; [eapply ok_ignore, ok_errnoH|]. intros. oks.
Qed.
Lemma ok_closeAndFail {A} fd e (Q : A -> Prop) : ok (closeAndFail fd e) Q.
Proof. unfold closeAndFail. eapply ok_bind; [eapply ok_ignore, ok_CloseFile|]. intros. apply ok_fail. Qed.
Lemma ok_writeFD fd o : is_u32 o -> ok (writeFD fd o) (fun _ => True).
Proof.
  intros Ho h Hs _. unfold writeFD. pose proof (ok_writeU32 EFAULT o (wrap32 fd) Ho h Hs I) as Hw.
  destruct (writeMem _ _ h) as [h' [a|e|m|x]]; try done. by apply (ok_closeAndFail fd EFAULT (fun _ => True)).
Qed.
Lemma ok_pathOpen params : stack_ok 9 params -> ok (pathOpenFn windows params) (fun _ => True).
Proof using small.
  intros [? ?]. unfold pathOpenFn. do 6 okstep. at_params. destruct (_ =? 0); [oks|]. cbn zeta. destruct (_ && _); [oks|].
  eapply ok_bind; [by apply ok_OpenFile|]. intros fd _. eapply ok_bind with (Q := fun _ => True); [|intros; apply ok_writeFD, u32_ok].
  destruct (has _ O_DIRECTORY); [|oks]. do 2 okstep. destruct a6 as [d e]. destruct (negb _); [apply ok_closeAndFail|].
  destruct (negb d); [apply ok_closeAndFail|oks].
Qed.
Lemma ok_pathReadlink params : stack_ok 6 params -> ok (pathReadlinkFn windows params) (fun _ => True).
Proof using laws small.
  intros [? ?]. unfold pathReadlinkFn. do 4 okstep. destruct (_ || _); [oks|]. at_params. on_fs. destruct a3 as [dst e]. cbn beta iota. okstep.
  destruct (Z.gtb_spec (zlen dst) (u32 a1)); [oks|]. pose proof (u32_ok a1) as Hu.
  eapply ok_bind; [apply (ok_Write EFAULT (u32 a0) dst); [apply u32_ok| |unfold is_u32 in *; lia]|intros; oks].
  match goal with E : context [FS_Readlink ?fs ?q ?w] |- _ => 
    pose proof (law_Readlink laws fs q w) as Hl; destruct (FS_Readlink fs q w) as [w' [d' e']]; cbn in E, Hl; by injection E as <- <- end.
Qed.
Lemma ok_pathSymlink params : stack_ok 5 params -> ok (pathSymlinkFn windows params) (fun _ => True).
Proof using small.
  intros [? ?]. unfold pathSymlinkFn. do 4 okstep. eapply ok_bind; [apply ok_lookupOr|]. intros dir Hdir.
  eapply ok_bind; [apply ok_checked|]. intros isDir [w Hd]. destruct isDir; cbn [negb]; [|oks]. pose proof (dir_has_fs dir w Hdir Hd).
  destruct (_ || _); [oks|]. okstep. at_params. okstep. on_errno.
Qed.

(** ** fd_readdir *)

Lemma ok_lookup_fd e fd : ok (lookupOr e fd) (fun f => entry_ok f /\ 0 <= fd).
Proof.
  intros h Hs _. unfold lookupOr, LookupFile, mbind, H_bind, tableH. rewrite (Lookup_spec _ _ (safe_table h Hs)). cbn [res_bind].
  assert (Hh : safe (set_files (openedFiles h) h)) by by destruct h.
  destruct (at_key (openedFiles h) fd) as [x|] eqn:E; [|done].
  destruct (safe_entries h Hs fd x E) as (f & -> & Hf). split; [done|]. split; [done|].
  unfold at_key in E. destruct (zlookup (masks (openedFiles h)) (fd / 64)) eqn:El; [|done]. apply zlookup_Some_lt in El.
  pose proof (Z.div_mod fd 64 ltac:(lia)). pose proof (Z.mod_pos_bound fd 64 ltac:(lia)). lia.
Qed.
Lemma ok_updateEntry fd e : 0 <= fd -> entry_ok e -> ok (updateEntry fd e) (fun _ => True).
Proof.
  intros Hfd He h Hs _. unfold updateEntry. split; [|done]. apply safe_files; [done|apply wf_update, (safe_table h Hs)|apply (safe_size h Hs)|].
  intros k x Hk. assert (Hx : x = Some e \/ at_key (openedFiles h) k = Some x).
  { unfold at_key in *. cbn in Hk. destruct (zlookup (masks _) _); [|done]. cbn in *. destruct (Z.testbit _ _); [|done].
    destruct (Z_lt_dec fd (zlen (items (openedFiles h)))).
    - rewrite zlookup_insert in Hk by lia. destruct (decide _); [left; congruence|by right].
    - rewrite list_insert_ge in Hk by (unfold zlen in *; lia). by right. }
  destruct Hx as [->|Hx]; [by exists e|by apply (safe_entries h Hs k)].
Qed.
Lemma ok_getDirentCache fd e : 0 <= fd -> entry_ok e -> ok (getDirentCache fd e) cache_ok.
Proof.
  intros Hfd He. destruct He as (H1 & H2 & H3 & H4). unfold getDirentCache. destruct (direntCache e) as [d|] eqn:Ed; [apply ok_ret; by apply H4|].
  okstep. destruct (negb _); [oks|]. unfold synthesizeDotEntries. eapply ok_bind with (Q := fun l => Forall dirent_ok l /\ zlen l = 2).
  { okstep. apply ok_ret. split; [|done]. apply Forall_cons_2; [|apply Forall_cons_2; [|constructor]].
    - split; [apply Forall_cons_2; [unfold is_u8; lia|apply Forall_nil_2]|by vm_compute].
    - split; [|by vm_compute]. do 2 (apply Forall_cons_2; [unfold is_u8; lia|]). apply Forall_nil_2. }
  intros l [Hl Hz]. assert (Hc : cache_ok (mkDirentCache (EntryFile e) l None 0 false)) by (split_and!; cbn; try done; unfold is_u64; lia).
  eapply ok_bind; [apply ok_updateEntry; [done|]|].
  - split_and!; cbn; try done. by intros d [= <-].
  - intros _ _. by apply ok_ret.
Qed.
Lemma ok_openDirentCache fd e : 0 <= fd -> entry_ok e -> ok (openDirentCache fd e) cache_ok.
Proof.
  intros Hfd He h Hs _. pose proof (ok_getDirentCache fd e Hfd He h Hs I) as Ho. unfold openDirentCache.
  by destruct (getDirentCache fd e h) as [h' [a|x|x|x]].
Qed.

Lemma cached_ok d n ds : dirents d = Some ds -> Forall dirent_ok ds -> Forall dirent_ok (cachedDirents d n).
Proof. intros Hd Hf. unfold cachedDirents. rewrite Hd. cbn. repeat case_match; [constructor|by apply Forall_take|done]. Qed.
Lemma wrap64_ok v : is_u64 (wrap64 v).
Proof. apply wrap64_range. Qed.
(** A cache with the entries [ds]. *)
Definition entriesCache (d : DirentCache) (ds : list Dirent) (c : Z) (e : bool) : DirentCache :=
  mkDirentCache (direntFile d) (dotEntries d) (Some ds) c e.
Lemma entries_ok d ds c e : cache_ok d -> Forall dirent_ok ds -> zlen ds <= 2 ^ 32 + 1 -> is_u64 c -> cache_ok (entriesCache d ds c e).
Proof. intros (H1 & H2 & _) Hds Hl Hc. split_and!; cbn; try done. by intros ds' [= <-]. Qed.

(** Reading more entries after [ds]. *)
Definition readMore (d : DirentCache) (ds : list Dirent) (c : Z) (e : bool) (countToRead n : Z) (w : World) : World * (DirentCache * res (list Dirent * Errno)) :=
  let '(w, (l, errno)) := File_Readdir (direntFile d) countToRead w in
  if negb (errno =? 0) then (w, (entriesCache d ds c e, Ok ([], errno)))
  else
    let d := if zlen l >? 0 then entriesCache d (ds ++ l) (wrap64 (c + zlen l)) (zlen l <? countToRead) else entriesCache d ds c e in
    (w, (d, Ok (cachedDirents d n, 0))).
Lemma readMore_ok d ds c e k n w : cache_ok d -> Forall dirent_ok ds -> is_u64 c -> 0 < k -> zlen ds + k <= 2 ^ 32 + 1 ->
  let '(_, (d', r)) := readMore d ds c e k n w in
  cache_ok d' /\ direntFile d' = direntFile d /\ exists l e, r = Ok (l, e) /\ Forall dirent_ok l.
Proof using laws.
  intros Hd Hds Hc Hk Hl. unfold readMore. destruct (law_Readdir laws (direntFile d) k w Hk) as [Hf Hz].
  destruct (File_Readdir (direntFile d) k w) as [w' [l errno]]. cbn in Hf, Hz. pose proof (zlen_nonneg ds).
  assert (H0 : cache_ok (entriesCache d ds c e)) by (apply entries_ok; try done; lia).
  destruct (negb _); [split_and!; try done; eexists _, _; split; [done|apply Forall_nil_2]|].
  destruct (zlen l >? 0).
  - assert (Hf' : Forall dirent_ok (ds ++ l)) by by apply Forall_app_2.
    split_and!; [apply entries_ok; try done; [rewrite zlen_app; lia|apply wrap64_ok]|done|]. eexists _, _. split; [done|]. by eapply cached_ok.
  - split_and!; try done. eexists _, _. split; [done|]. by eapply cached_ok.
Qed.

Lemma DirentCache_Read_ok d pos n w : cache_ok d -> is_u64 pos -> 0 < n < 2 ^ 32 ->
  let '(_, (d', r)) := DirentCache_Read d pos n w in
  cache_ok d' /\ direntFile d' = direntFile d /\ exists l e, r = Ok (l, e) /\ Forall dirent_ok l.
Proof using laws.
  intros Hd Hp Hn. unfold DirentCache_Read. cbn zeta.
  assert (Hstop : forall d' (e : Errno), cache_ok d' -> direntFile d' = direntFile d ->
    cache_ok d' /\ direntFile d' = direntFile d /\ exists l e', Ok (@nil Dirent, e) = Ok (l, e') /\ Forall dirent_ok l).
  { intros d' e ? ?. split_and!; [done|done|]. exists [], e. split; [done|apply Forall_nil_2]. }
  rewrite Z.gtb_ltb. destruct (Z.ltb_spec (countRead d) pos) as [|Hpos]; [by apply Hstop|].
  set (x := if (pos =? 0) && _ then _ else _).
  assert (Hx : exists w1 d1 e1, x = (w1, d1, e1) /\ direntFile d1 = direntFile d /\ dotEntries d1 = dotEntries d /\ cache_ok d1 /\
    (dirents d1 = None \/ d1 = d)).
  { unfold x. destruct (_ && _); [|exists w, d, 0; split_and!; auto]. destruct (File_Seek _ _ _ _) as [w1 [o e]].
    destruct (e =? 0); [|exists w1, d, e; split_and!; auto]. eexists w1, _, 0.
    destruct Hd as (? & ? & _). split_and!; [done..| |by left]. by split_and!. }
  clearbody x. destruct Hx as (w1 & d1 & e1 & -> & Hf1 & Hdots & Hd1 & Hsame). destruct (negb (e1 =? 0)); [by apply Hstop|].
  rewrite (proj2 (Z.eqb_neq n 0)) by lia. rewrite <- Hf1, <- Hdots in *. destruct (dirents d1) as [ds|] eqn:Eds.
  - destruct Hsame as [|<-]; [done|]. pose proof Hd1 as (_ & _ & Hc & Hds1). destruct (Hds1 ds Eds) as [Hok Hl].
    destruct (Z.ltb_spec pos (wrap64 (countRead d1 - zlen ds))) as [|Hge]; [by apply Hstop|]. pose proof (zlen_nonneg ds).
    assert (Hin : 0 <= pos - wrap64 (countRead d1 - zlen ds) <= zlen ds).
    { split; [lia|]. unfold is_u64 in *. destruct (Z_le_dec (zlen ds) (countRead d1)).
      - rewrite wrap64_small in * by (unfold is_u64; lia). lia.
      - assert (wrap64 (countRead d1 - zlen ds) = countRead d1 - zlen ds + 2 ^ 64)
          by (unfold wrap64; symmetry; apply (Z.mod_unique_pos _ _ (-1)); lia). lia. }
    rewrite zslice_in by done. set (ds' := drop _ ds). assert (Hok' : Forall dirent_ok ds') by by apply Forall_drop.
    assert (Hl' : zlen ds' <= 2 ^ 32 + 1) by (unfold ds'; rewrite zlen_drop; lia). cbn [eof].
    destruct (_ && _) eqn:Em.
    + apply andb_true_iff in Em as [Em _]. apply (readMore_ok d1 ds' (countRead d1) (eof d1) (n - zlen ds') n w1); try done; lia.
    + assert (Hcache : cache_ok (entriesCache d1 ds' (countRead d1) (eof d1))) by by apply entries_ok.
      split_and!; [exact Hcache|done|]. eexists _, _. split; [done|]. by eapply cached_ok.
  - pose proof Hd1 as (Hdot & Hz & _). destruct (Z.leb_spec (wrap32 (n - 2)) 0) as [|Hk].
    { apply Hstop; [|done]. apply (entries_ok d1 (dotEntries d1) 2 false); try done. lia. }
    assert (Hk' : wrap32 (n - 2) <= 2 ^ 32 - 1) by (pose proof (wrap32_range (n - 2)); unfold is_u32 in *; lia).
    apply (readMore_ok d1 (dotEntries d1) 2 false (wrap32 (n - 2)) n w1); try done. lia.
Qed.

(** The bytes of entries in the buffer. *)
Definition entryLen (d : Dirent) : Z := DirentSize + zlen (DirentName d).
Fixpoint sizeOf (ds : list Dirent) : Z := match ds with [] => 0 | d :: ds' => entryLen d + sizeOf ds' end.

Lemma sizeOf_nonneg ds : 0 <= sizeOf ds.
Proof. induction ds as [|d ds IH]; [done|]. cbn. unfold entryLen, DirentSize. pose proof (zlen_nonneg (DirentName d)). lia. Qed.

(** [k] entries fit; then all were written or the buffer is full, or the next one is cut off. *)
Lemma maxDirentsLoop_spec ds rem w c : Forall dirent_ok ds -> 0 <= rem -> 0 <= w -> w + rem < 2 ^ 32 ->
  exists k : nat, (k <= length ds)%nat /\ sizeOf (take k ds) <= rem /\
    let left := rem - sizeOf (take k ds) in let tr := Z.min DirentSize left in
    (maxDirentsLoop ds rem w c = Ok (w + sizeOf (take k ds), c + Z.of_nat k, 0) /\ (k = length ds \/ left = 0)) \/
    (maxDirentsLoop ds rem w c = Ok (w + sizeOf (take k ds) + tr, c + Z.of_nat k + 1, tr) /\ 0 < left /\
      exists d, ds !! k = Some d /\ left < entryLen d).
Proof.
  intros Hds. revert rem w c. induction Hds as [|d ds [Hb Hd] Hds IH]; intros rem w c Hr Hw Hs.
  { exists 0%nat. cbn. split_and!; [lia|lia|]. left. split; [|by left]. by rewrite !Z.add_0_r. }
  cbn [maxDirentsLoop]. destruct (Z.eqb_spec rem 0) as [->|Hne].
  { exists 0%nat. cbn. split_and!; [lia|lia|]. left. split; [|by right]. by rewrite !Z.add_0_r. }
  pose proof (zlen_nonneg (DirentName d)). unfold largestDirent. fold (entryLen d). assert (He : 24 <= entryLen d < 2 ^ 31 + 24) by (unfold entryLen, DirentSize; lia).
  rewrite (proj2 (Z.ltb_ge _ _)), Z.gtb_ltb, (proj2 (Z.ltb_ge _ _)) by (unfold DirentSize; lia). cbn [orb].
  assert (Hu : u32 (entryLen d) = entryLen d) by (apply u32_small; unfold is_u32; lia). rewrite Hu, Z.gtb_ltb.
  destruct (Z.ltb_spec rem (entryLen d)) as [Hlt|Hge].
  - exists 0%nat. cbn [take sizeOf]. split_and!; [lia|lia|]. right. split_and!; [|lia|exists d; split; [done|lia]].
    assert (Htr : (if rem >=? DirentSize then DirentSize else rem) = Z.min DirentSize (rem - 0))
      by (unfold DirentSize; destruct (Z.geb_spec rem 24); lia).
    rewrite Htr, !Z.add_0_r. assert (Hw' : u32 (w + Z.min DirentSize (rem - 0)) = w + Z.min DirentSize (rem - 0))
      by (apply u32_small; unfold is_u32, DirentSize; lia). rewrite Hw'. do 3 f_equal; lia.
  - rewrite (u32_small (rem - entryLen d)) by (unfold is_u32; lia).
    rewrite (u32_small (w + entryLen d)) by (unfold is_u32; lia).
    destruct (IH (rem - entryLen d) (w + entryLen d) (c + 1)) as (k & Hk & Hsz & Hres); [lia..|]. exists (S k). cbn [take sizeOf length].
    split_and!; [lia|lia|]. cbn zeta in *. replace (rem - (entryLen d + sizeOf (take k ds))) with (rem - entryLen d - sizeOf (take k ds)) by lia.
    destruct Hres as [[E Hend]|(E & Hleft & d' & Hd' & Hlt)]; [left|right]; rewrite E.
    + split; [do 3 f_equal; lia|destruct Hend; [left; lia|by right]].
    + split_and!; [do 3 f_equal; lia|done|by exists d'].
Qed.

(** The bytes that writing [n] entries takes; the name of entry [skip] is left out. *)
Fixpoint need (n : nat) (l : list Dirent) (i skip : Z) : Z :=
  match n, l with
  | S n', d :: l' => DirentSize + (if i =? skip then 0 else zlen (DirentName d)) + need n' l' (i + 1) skip
  | _, _ => 0
  end.
Lemma need_nonneg n l i skip : 0 <= need n l i skip.
Proof.
  revert l i. induction n as [|n IH]; intros [|d l] i; try done. cbn. specialize (IH l (i + 1)). pose proof (zlen_nonneg (DirentName d)).
  unfold DirentSize. destruct (_ =? _); lia.
Qed.
Lemma need_full n l i skip : skip < i -> need n l i skip = sizeOf (take n l).
Proof.
  revert l i. induction n as [|n IH]; intros [|d l] i Hi; try done. cbn. rewrite (proj2 (Z.eqb_neq _ _)), IH by lia. done.
Qed.
Lemma need_last n l i d : l !! n = Some d -> need (S n) l i (i + Z.of_nat n) = sizeOf (take n l) + DirentSize.
Proof.
  revert l i. induction n as [|n IH]; intros [|d' l] i Hl; try done.
  - cbn [need take sizeOf]. replace (i + Z.of_nat 0) with i by lia. rewrite Z.eqb_refl. lia.
  - cbn in Hl. change (need (S (S n)) (d' :: l) i (i + Z.of_nat (S n)))
      with (DirentSize + (if i =? i + Z.of_nat (S n) then 0 else zlen (DirentName d')) + need (S n) l (i + 1) (i + Z.of_nat (S n))).
    rewrite (proj2 (Z.eqb_neq _ _)) by lia. replace (i + Z.of_nat (S n)) with (i + 1 + Z.of_nat n) by lia. rewrite IH by done. cbn. unfold entryLen. lia.
Qed.

Lemma ok_writeDirentsLoop n buf ds i dn pos skip : view_ok buf -> is_u32 (vlen buf) -> Forall dirent_ok ds -> 0 <= i -> 0 <= pos ->
  (n <= length (drop (Z.to_nat i) ds))%nat -> pos + need n (drop (Z.to_nat i) ds) i skip <= vlen buf ->
  ok (writeDirentsLoop n buf ds i dn pos skip) (fun _ => True).
Proof.
  intros Hv Hu Hds. revert i dn pos. induction n as [|n IH]; intros i dn pos Hi Hp Hn Hneed; [by apply ok_ret|].
  cbn [writeDirentsLoop]. destruct (drop (Z.to_nat i) ds) as [|d l] eqn:Ed; [cbn in Hn; lia|].
  assert (Hd : zlookup ds i = Some d).
  { unfold zlookup. rewrite (proj2 (Z.leb_le _ _)) by lia. rewrite <- (Nat.add_0_r (Z.to_nat i)), <- lookup_drop, Ed. done. }
  unfold zindex. rewrite Hd. eapply ok_bind with (Q := fun e => e = d); [by intros h Hs _|]. intros e ->. cbn [need] in Hneed.
  assert (Hok : dirent_ok d). { unfold zlookup in Hd. destruct (0 <=? i); [|done]. by eapply Forall_lookup_1. }
  destruct Hok as [Hb Hl]. pose proof (need_nonneg n l (i + 1) skip) as Hnn. pose proof (zlen_nonneg (DirentName d)). unfold DirentSize in *.
  assert (Hl32 : u32 (zlen (DirentName d)) = zlen (DirentName d)) by (apply u32_small; unfold is_u32; lia).
  assert (Ep : u32 (pos + 24) = pos + 24) by (apply u32_small; unfold is_u32 in *; destruct (_ =? _); lia).
  assert (El : drop (Z.to_nat (i + 1)) ds = l).
  { replace (Z.to_nat (i + 1)) with (Z.to_nat i + 1)%nat by lia. by rewrite <- drop_drop, Ed. }
  assert (Hpos : pos + 24 <= vlen buf) by (destruct (_ =? _); lia).
  eapply ok_bind with (Q := fun _ => True).
  { unfold writeDirent. repeat (first [eapply ok_bind; [apply ok_putV; [done|lia|cbn; lia]|intros ? _]|apply ok_putV; [done|lia|cbn; lia]]). }
  intros _ _. rewrite Hl32, Ep. destruct (i =? skip); cbn [negb].
  - apply IH; [lia|lia|by rewrite El; cbn in Hn; lia|rewrite El; lia].
  - eapply ok_bind; [apply ok_copyV; [done|lia|done]|]. intros _ _.
    rewrite (u32_small (pos + 24 + zlen (DirentName d))) by (unfold is_u32 in *; lia).
    apply IH; [lia|lia|by rewrite El; cbn in Hn; lia|rewrite El; lia].
Qed.

Lemma ok_writeDirents lo ds bufLen dn w c tr : Forall dirent_ok ds -> is_u32 bufLen -> maxDirents ds bufLen = Ok (w, c, tr) ->
  view_ok (mkView lo w) -> is_u32 w -> ok (writeDirents (mkView lo w) ds dn c tr) (fun _ => True).
Proof.
  intros Hds Hu Hm Hv Hw. unfold maxDirents in Hm. unfold is_u32 in Hu.
  destruct (maxDirentsLoop_spec ds bufLen 0 0 Hds) as (k & Hk & Hsz & Hres); [lia..|]. cbn zeta in Hres. unfold writeDirents.
  destruct Hres as [[E _]|(E & Hleft & d & Hd & _)]; rewrite E in Hm; injection Hm as <- <- <-.
  - cbn [Z.gtb Z.compare]. replace (Z.to_nat (0 + Z.of_nat k)) with k by lia.
    apply ok_writeDirentsLoop; try done; cbn [Z.to_nat]; rewrite ?drop_0; try lia. rewrite need_full by lia. cbn [vlen]. lia.
  - set (left := bufLen - _) in *. rewrite Z.gtb_ltb, (proj2 (Z.ltb_lt _ _)) by (unfold DirentSize; lia).
    apply lookup_lt_Some in Hd as Hlt. destruct (Z.ltb_spec (Z.min DirentSize left) DirentSize).
    + replace (Z.to_nat (0 + Z.of_nat k + 1 - 1)) with k by lia.
      apply ok_writeDirentsLoop; try done; cbn [Z.to_nat]; rewrite ?drop_0; try lia. rewrite need_full by lia. cbn [vlen]. lia.
    + replace (Z.to_nat (0 + Z.of_nat k + 1)) with (S k) by lia. replace (0 + Z.of_nat k + 1 - 1) with (0 + Z.of_nat k) by lia.
      apply ok_writeDirentsLoop; try done; cbn [Z.to_nat]; rewrite ?drop_0; try lia. rewrite (need_last k ds 0 d Hd). cbn [vlen]. lia.
Qed.

Lemma maxDirents_ok ds bufLen : Forall dirent_ok ds -> is_u32 bufLen -> exists w c tr, maxDirents ds bufLen = Ok (w, c, tr) /\ is_u32 w.
Proof.
  intros Hds Hu. unfold is_u32 in *. destruct (maxDirentsLoop_spec ds bufLen 0 0 Hds) as (k & Hk & Hsz & Hres); [lia..|]. cbn zeta in Hres.
  pose proof (sizeOf_nonneg (take k ds)). unfold maxDirents, DirentSize in *.
  destruct Hres as [[E _]|(E & Hleft & _)]; rewrite E; eexists _, _, _; (split; [done|lia]).
Qed.
Lemma ok_lift {A} (r : res A) a : r = Ok a -> ok (liftH r) (fun x => x = a).
Proof. by intros -> h Hs _. Qed.
Lemma ok_fdReaddir params : stack_ok 5 params -> ok (fdReaddirFn params) (fun _ => True).
Proof using laws small.
  intros [? ?]. unfold fdReaddirFn. eapply ok_bind; [apply ok_fdOf; split; [lia|done]|]. intros fd _. do 3 okstep. eapply ok_bind; [apply ok_param; [lia|done]|].
  intros r _. cbn beta zeta. destruct (Z.ltb_spec (u32 a0) DirentSize) as [|Hbl]; [oks|]. pose proof (u32_ok a0) as Hu.
  eapply ok_bind; [apply ok_lookup_fd|]. intros e [He Hfd]. eapply ok_bind; [by apply ok_openDirentCache|]. intros dir Hdir.
  set (n := u32 (u32 a0 / DirentSize + 1 + 1)). assert (Hn : 0 < n < 2 ^ 32).
  { unfold n, DirentSize, is_u32 in *. assert (0 <= u32 a0 / 24 <= 2 ^ 32 / 24) by (split; [apply Z.div_pos|apply Z.div_le_mono]; lia).
    change (2 ^ 32 / 24) with 178956970 in *. rewrite u32_small by (unfold is_u32; lia). lia. }
  eapply ok_bind with (Q := fun x => cache_ok (fst x) /\ exists l er, snd x = Ok (l, er) /\ Forall dirent_ok l).
  { eapply ok_mono; [apply ok_world|]. intros [d r'] [w Hw]. pose proof (DirentCache_Read_ok dir a1 n w Hdir ltac:(done) Hn) as Hr.
    destruct (DirentCache_Read dir a1 n w) as [w' [d' r'']]. cbn in Hw. injection Hw as -> ->. by destruct Hr as (? & _ & ?). }
  intros [d rd] [Hd (l & er & Hrd & Hl)]. cbn in Hd, Hrd. cbn beta iota. eapply ok_bind; [apply ok_updateEntry; [done|]|].
  { destruct He as (? & ? & ? & ?). split_and!; cbn; try done. by intros d0 [= <-]. }
  intros _ _. eapply ok_bind; [by apply (ok_lift rd (l, er))|]. intros x ->. cbn beta iota. okstep.
  destruct (maxDirents_ok l (u32 a0) Hl Hu) as (w & c & tr & Hm & Hw). eapply ok_bind; [by apply (ok_lift _ (w, c, tr))|]. intros x ->. cbn beta iota.
  eapply ok_bind with (Q := fun _ => True); [|intros; oks]. destruct (w >? 0); [|oks].
  eapply ok_bind; [apply ok_readView; [apply u32_ok|done]|]. intros v [-> Hv]. by apply (ok_writeDirents (u32 a) l (u32 a0)).
Qed.

(** ** poll_oneoff *)

Lemma ok_writeEvent out o evt : view_ok out -> view_ok (userData evt) -> 0 <= o -> o + 32 <= vlen out ->
  ok (writeEvent out o evt) (fun _ => True).
Proof.
  intros Hv Hu Ho Hl. unfold writeEvent. okstep. eapply ok_bind; [apply ok_copyV; [done|lia|done]|]. intros _ _.
  do 2 (eapply ok_bind; [apply ok_putV; [done|lia|lia]|intros _ _]). apply ok_putV; [done|lia|lia].
Qed.
Lemma ok_processClock inb o : view_ok inb -> 0 <= o -> o + 32 <= vlen inb -> ok (processClockEvent inb o) (fun _ => True).
Proof.
  intros Hv Ho Hl. unfold processClockEvent.
  do 5 (eapply ok_bind; [apply ok_getV; [done|lia|lia]|intros ? _]). oks.
Qed.

(** Before subscription [i] of [n], at most [i] events are written or waiting. *)
Definition poll_ok (inb : view) (i : Z) (st : pollState) : Prop :=
  let '(_, nevents, subs) := st in
  0 <= nevents /\ nevents + zlen subs = i /\ Forall (fun x => view_ok (userData (fst x))) subs.
Lemma ok_pollSubscription inb out n i st : view_ok inb -> view_ok out -> vlen inb = n * 48 -> vlen out = n * 32 -> 0 <= i < n -> n * 48 < 2 ^ 32 ->
  poll_ok inb i st -> ok (pollSubscription inb out i st) (poll_ok inb (i + 1)).
Proof.
  intros Hi Ho Hli Hlo Hin Hn. destruct st as [[timeout nev] subs]. intros (Hnev & Hsum & Hsubs). pose proof (zlen_nonneg subs). unfold pollSubscription.
  rewrite (u32_small (i * 48)) by (unfold is_u32; lia). rewrite (u32_small (nev * 32)) by (unfold is_u32; lia).
  rewrite (u32_small (i * 48 + 8)) by (unfold is_u32; lia). rewrite (u32_small (i * 48 + 8 + 8)) by (unfold is_u32; lia).
  rewrite (u32_small (nev + 1)) by (unfold is_u32; lia).
  eapply ok_bind; [apply ok_getV; [done|lia|lia]|]. intros ty _. unfold fits. rewrite !(proj2 (Z.leb_le _ _)) by lia. cbn [andb].
  eapply ok_bind; [by apply (ok_ret tt (fun _ => True))|]. intros _ _. eapply ok_bind; [by apply (ok_ret tt (fun _ => True))|]. intros _ _.
  assert (Hu : view_ok (mkView (lo inb + i * 48) 8)) by (unfold view_ok in *; cbn; lia).
  assert (Hack : forall e t, poll_ok inb (i + 1) (t, nev + 1, subs) -> ok (_ ← writeEvent out (nev * 32) (mkEvent ty (mkView (lo inb + i * 48) 8) e);
    mret (t, nev + 1, subs)) (poll_ok inb (i + 1))).
  { intros e t Hp. eapply ok_bind; [apply ok_writeEvent; [done|done|lia|lia]|]. intros _ _. by apply ok_ret. }
  assert (Hnext : forall t, poll_ok inb (i + 1) (t, nev + 1, subs)) by (intros t; split_and!; [lia|lia|done]).
  destruct (ty =? _); [|destruct (ty =? _); [|destruct (ty =? _); [|apply ok_fail]]].
  - eapply ok_bind; [apply ok_processClock; [done|lia|lia]|]. intros t _. by apply Hack.
  - eapply ok_bind; [apply ok_getV; [done|lia|lia]|]. intros p _. destruct (i32 p <? 0); [apply ok_fail|].
    eapply ok_bind; [apply ok_LookupFile|]. intros [f|] _; [|by apply Hack]. eapply ok_bind; [apply ok_get|]. intros w _.
    destruct (negb _ && _); [by apply Hack|]. apply ok_ret. split_and!; [done|rewrite zlen_app; change (zlen [_]) with 1; lia|]. apply Forall_app_2; [done|].
    by apply Forall_cons_2; [|apply Forall_nil_2].
  - eapply ok_bind; [apply ok_getV; [done|lia|lia]|]. intros p _. destruct (i32 p <? 0); [apply ok_fail|].
    eapply ok_bind; [apply ok_LookupFile|]. intros f _. by apply Hack.
Qed.
Lemma ok_pollLoop k inb out n i st : view_ok inb -> view_ok out -> vlen inb = n * 48 -> vlen out = n * 32 -> 0 <= i -> i + Z.of_nat k = n -> n * 48 < 2 ^ 32 ->
  poll_ok inb i st -> ok (pollLoop k inb out i st) (poll_ok inb n).
Proof.
  intros Hi Ho Hli Hlo. revert i st. induction k as [|k IH]; intros i st H0 Hn H32 Hp.
  - apply ok_ret. by replace n with i by lia.
  - cbn [pollLoop]. eapply ok_bind; [eapply ok_pollSubscription; try done; lia|]. intros st' Hp'. apply IH; [lia|lia|done|done].
Qed.
Lemma ok_pollFiles out subs rem nev n : view_ok out -> vlen out = n * 32 -> n * 32 < 2 ^ 32 -> 0 <= nev -> nev + zlen subs <= n ->
  Forall (fun x => view_ok (userData (fst x))) subs -> ok (pollFiles out subs rem nev) (fun _ => True).
Proof.
  intros Ho Hlo H32. revert rem nev. induction subs as [|[evt f] subs IH]; intros rem nev Hn Hs Hv; [by apply ok_ret|].
  apply Forall_cons in Hv as [Hve Hv]. rewrite zlen_cons in Hs. pose proof (zlen_nonneg subs). cbn [pollFiles].
  assert (Hack : forall e, ok (writeEvent out (u32 (nev * 32)) (mkEvent (eventType evt) (userData evt) e)) (fun _ => True)).
  { intros e. rewrite u32_small by (unfold is_u32; lia). apply ok_writeEvent; [done|done|lia|lia]. }
  rewrite (u32_small (nev + 1)) by (unfold is_u32; lia).
  destruct (negb _). { eapply ok_bind; [apply Hack|]. intros _ _. apply IH; [lia|lia|done]. }
  eapply ok_bind; [apply ok_world|]. intros [ready errno] _. cbn beta iota.
  eapply ok_bind with (Q := fun m => m = nev \/ m = nev + 1).
  { destruct (errno =? 0); [destruct ready; [|apply ok_ret; by left]|destruct (one_of _ _); [|apply ok_fail]];
      (eapply ok_bind; [apply Hack|]; intros _ _; apply ok_ret; by right). }
  intros m Hm. eapply ok_bind; [apply ok_world|]. intros el _. apply IH; [lia|lia|done].
Qed.
Lemma ok_pollOneoff params : stack_ok 4 params -> ok (pollOneoffFn params) (fun _ => True).
Proof using small.
  intros [? ?]. unfold pollOneoffFn. do 4 okstep. pose proof (u32_ok a1) as Hu. set (n := u32 a1) in *. unfold is_u32 in Hu.
  destruct (Z.eqb_spec n 0); [oks|]. rewrite Z.gtb_ltb. change ((2 ^ 32 - 1) / 48) with 89478485. destruct (Z.ltb_spec 89478485 n); [oks|].
  rewrite (u32_small (n * 48)), (u32_small (n * 32)) by (unfold is_u32; lia).
  eapply ok_bind; [apply ok_readView; [apply u32_ok|unfold is_u32; lia]|]. intros inb [-> Hi].
  eapply ok_bind; [apply ok_readView; [apply u32_ok|unfold is_u32; lia]|]. intros out [-> Ho].
  eapply ok_bind; [apply ok_copyV; [done|cbn; lia|apply zeros_ok]|]. intros _ _. okstep.
  eapply ok_bind; [apply (ok_pollLoop (Z.to_nat n) _ _ n 0); try done; lia|]. intros [[timeout nev] subs] (Hnev & Hsum & Hsubs). cbn beta iota.
  destruct (nev =? n); [destruct (timeout >? 0); [eapply ok_mono; [apply ok_world|done]|oks]|].
  eapply ok_bind; [eapply (ok_pollFiles _ _ _ _ n); try done; lia|]. intros m _. destruct (negb _); oks.
Qed.

(** ** Sockets *)

Lemma ok_connOf fd : ok (connOf fd) (fun _ => True).
Proof. unfold connOf. oks. Qed.
Lemma ok_ignoreU32 o x : is_u32 o -> ok (ignoreWrite (fun m => WriteUint32Le m o x)) (fun _ => True).
Proof. intros Ho. eapply ok_ignore. by apply ok_writeU32. Qed.
Lemma ok_ignoreU16 o x : is_u32 o -> ok (ignoreWrite (fun m => WriteUint16Le m o x)) (fun _ => True).
Proof. intros Ho. eapply ok_ignore. by apply ok_writeU16. Qed.
Lemma ok_sockAccept params : stack_ok 3 params -> ok (sockAcceptFn params) (fun _ => True).
Proof using laws. intros [? ?]. unfold sockAcceptFn. oks. eapply ok_bind; [apply ok_SockAccept|]. intros. apply ok_writeFD, u32_ok. Qed.
Lemma ok_sockRecv params : stack_ok 6 params -> ok (sockRecvFn params) (fun _ => True).
Proof using laws small.
  intros [? ?]. unfold sockRecvFn. do 6 okstep. eapply ok_bind; [apply ok_connOf|]. intros conn _. destruct (negb _); [oks|].
  destruct (has _ _).
  - eapply ok_bind; [apply ok_readView; is32|]. intros v [-> Hv]. eapply ok_bind; [apply (ok_getV 4); [done|lia|cbn; lia]|]. intros addr Ha.
    eapply ok_bind; [apply ok_readView; is32|]. intros v [-> Hv']. eapply ok_bind; [apply (ok_getV 4); [done|lia|cbn; lia]|]. intros len Hl.
    change (8 * Z.of_nat 4) with 32 in *. eapply ok_bind; [apply ok_readView; is32|]. intros buf [-> Hbuf]. okstep.
    eapply ok_bind; [apply ok_world|]. intros [[b' n'] err] [w Hw]. cbn beta iota.
    eapply ok_bind; [apply ok_copyV; [done|by apply view_len|]|].
    { pose proof (law_Recvfrom laws conn a5 MSG_PEEK w ltac:(done)) as Hb. by rewrite Hw in Hb. }
    intros _ _. okstep. eapply ok_bind; [apply ok_ignoreU32, u32_ok|]. intros. apply ok_ignoreU16, u32_ok.
  - eapply ok_bind; [apply ok_iov; [apply u32_ok|apply ok_fileRead]|]. intros.
    eapply ok_bind; [apply ok_ignoreU32, u32_ok|]. intros. apply ok_ignoreU16, u32_ok.
Qed.
Lemma ok_sockSend params : stack_ok 5 params -> ok (sockSendFn params) (fun _ => True).
Proof using small.
  intros [? ?]. unfold sockSendFn. do 5 okstep. destruct (negb _); [oks|]. eapply ok_bind; [apply ok_connOf|]. intros conn _.
  eapply ok_bind; [apply ok_iov; [apply u32_ok|apply ok_fileWrite]|]. intros. apply ok_ignoreU32, u32_ok.
Qed.
Lemma ok_sockShutdown params : stack_ok 2 params -> ok (sockShutdownFn params) (fun _ => True).
Proof.
  intros [? ?]. unfold sockShutdownFn. do 2 okstep. eapply ok_bind; [apply ok_connOf|]. intros conn _.
  eapply ok_bind with (Q := fun _ => True); [oks|]. intros. oks.
Qed.

(** ** Arguments and environment *)

Definition valuesSize (values : list (list Z)) : Z := foldr (fun v n => zlen v + 1 + n) 0 values.
(** What [NewContext] checks. *)
Definition values_ok (values : list (list Z)) (size : Z) : Prop :=
  size = valuesSize values /\ size < 2 ^ 32 /\ Forall bytes_ok values /\ zlen values * 4 < 2 ^ 32.
Definition ctx_ok : Prop := values_ok (args ctx) (argsSize ctx) /\ values_ok (environ ctx) (environSize ctx).

Lemma valuesSize_cons v values : valuesSize (v :: values) = zlen v + 1 + valuesSize values.
Proof. done. Qed.
Lemma valuesSize_nonneg values : 0 <= valuesSize values.
Proof. induction values as [|v values IH]; [done|]. rewrite valuesSize_cons. pose proof (zlen_nonneg v). lia. Qed.
Lemma ok_writeValues ov bv values oI bI : view_ok ov -> view_ok bv -> is_u32 (vlen ov) -> is_u32 (vlen bv) -> Forall bytes_ok values -> 0 <= oI -> 0 <= bI ->
  oI + 4 * zlen values = vlen ov -> bI + valuesSize values = vlen bv -> ok (writeValues ov bv values oI bI) (fun _ => True).
Proof.
  intros Ho Hb Huo Hub Hv. revert oI bI. unfold is_u32 in *.
  induction Hv as [|v values Hv Hvs IH]; intros oI bI HoI HbI Hol Hbl; [by apply ok_ret|].
  rewrite zlen_cons in Hol. rewrite valuesSize_cons in Hbl. pose proof (zlen_nonneg v). pose proof (zlen_nonneg values). pose proof (valuesSize_nonneg values).
  cbn [writeValues]. do 4 rewrite (u32_small (oI + _)) by (unfold is_u32; lia).
  rewrite (u32_small (bI + zlen v)) by (unfold is_u32; lia).
  do 4 (eapply ok_bind; [apply ok_putV; [done|lia|lia]|intros _ _]). eapply ok_bind; [apply ok_copyV; [done|lia|done]|]. intros _ _.
  eapply ok_bind; [apply ok_putV; [done|lia|lia]|]. intros _ _.
  destruct values as [|v' values']; [by apply ok_ret|]. rewrite valuesSize_cons in *. pose proof (zlen_nonneg v').
  pose proof (valuesSize_nonneg values').
  rewrite (u32_small (bI + zlen v + 1)) by (unfold is_u32; lia). apply IH; lia.
Qed.
Lemma ok_valuesGet values size params : values_ok values size -> stack_ok 2 params -> ok (valuesGet values size params) (fun _ => True).
Proof using small.
  intros (-> & Hs & Hv & Hl) [? ?]. unfold valuesGet. do 2 okstep. unfold writeOffsetsAndNullTerminatedValues. pose proof (zlen_nonneg values).
  pose proof (valuesSize_nonneg values). rewrite (u32_small (zlen values * 4)) by (unfold is_u32; lia).
  eapply ok_bind; [apply ok_readView; is32|]. intros ov [-> Ho]. eapply ok_bind; [apply ok_readView; is32|]. intros bv [-> Hb].
  apply ok_writeValues; try done; cbn [vlen]; try (unfold is_u32; lia); lia.
Qed.

(** ** Every function *)

Lemma ok_exported f params : ctx_ok -> f ∈ exportFunctions windows ctx -> stack_ok (Z.max 1 (zlen (ParamTypes f))) params ->
  ok (Call (GoFunc f) params) (fun _ => True).
Proof using laws small.
  intros [Hargs Henv] Hf Hst. destruct params as [|p0 rest].
  { destruct Hst as [Hl _]. change (zlen []) with 0 in Hl. lia. }
  set (params := p0 :: rest) in *.
  assert (Hw : forall g, ok (g params) (fun _ => True) -> ok (Call (WasiFunc g) params) (fun _ => True)).
  { intros g Hg h Hs _. specialize (Hg h Hs I). cbn [Call]. destruct (g params h) as [h' [a|e|m|c]]; [by destruct Hg|done..]. }
  revert f Hf Hst.
  apply (proj1 (Forall_forall (fun f => stack_ok (Z.max 1 (zlen (ParamTypes f))) params -> ok (Call (GoFunc f) params) (fun _ => True)) _)).
  unfold exportFunctions. repeat apply Forall_cons_2; [..|apply Forall_nil_2];
    cbn [GoFunc newHostFunc stubFunction ParamTypes]; intros Hst; try (by intros h Hs _); try apply Hw;
    match type of Hst with stack_ok ?n _ => let m := eval vm_compute in n in change (stack_ok m params) in Hst end;
  [ by apply ok_valuesGet | by apply ok_sizesGet | by apply ok_valuesGet | by apply ok_sizesGet | by apply ok_clockResGet
  | by apply ok_clockTimeGet | by apply ok_fdAdvise | by apply ok_fdAllocate | by apply ok_fdClose | by apply ok_fdDatasync
  | by apply ok_fdFdstatGet | by apply ok_fdFdstatSetFlags | by apply ok_fdFilestatGet | by apply ok_fdFilestatSetSize
  | by apply ok_fdFilestatSetTimes | by apply (ok_fdReadOrPread true) | by apply ok_fdPrestatGet | by apply ok_fdPrestatDirName
  | by apply (ok_fdWriteOrPwrite true) | by apply (ok_fdReadOrPread false) | by apply ok_fdReaddir | by apply ok_fdRenumber
  | by apply ok_fdSeekFn | by apply ok_fdSync | by apply ok_fdTellFn | by apply (ok_fdWriteOrPwrite false)
  | by apply ok_pathCreateDirectory | by apply ok_pathFilestatGet | by apply ok_pathFilestatSetTimes | by apply ok_pathLink
  | by apply ok_pathOpen | by apply ok_pathReadlink | by apply ok_pathRemoveDirectory | by apply ok_pathRename
  | by apply ok_pathSymlink | by apply ok_pathUnlinkFile | by apply ok_pollOneoff | eapply ok_mono; [apply ok_world|done]
  | by apply ok_randomGet | by apply ok_sockAccept | by apply ok_sockRecv | by apply ok_sockSend | by apply ok_sockShutdown ].
Qed.
End Safe.
