(* ===== verification/WasiGuest.v ===== *)
(** * WASI: the calls of a guest

    A guest calls the functions of wasi_snapshot_preview1 in any order and with any
    operands, and changes its memory between the calls.  From the state that
    [InitFSContext] gives, no call panics and what [WasiSafe] keeps is kept. *)

From S2P Require Import Prelude Types Memory Descriptor GoPath WasiSys Wasi WasiSafe.

Section Guest.
Context `{HO : Host}.

(** ** The context *)

Definition lengths (values : list (list Z)) : Z := foldr (fun v n => zlen v + n) 0 values.
Lemma lengths_cons v values : lengths (v :: values) = zlen v + lengths values.
Proof. done. Qed.
Lemma lengths_nonneg values : 0 <= lengths values.
Proof. induction values as [|v values IH]; [done|]. rewrite lengths_cons. pose proof (zlen_nonneg v). lia. Qed.
Lemma valuesSize_lengths values : valuesSize values = lengths values + zlen values.
Proof. induction values as [|v values IH]; [done|]. rewrite valuesSize_cons, lengths_cons, zlen_cons, IH. lia. Qed.

Lemma byteCountLoop_spec max size values s : 0 <= size <= max -> max < 2 ^ 32 -> Forall (fun v => zlen v < 2 ^ 63) values ->
  byteCountLoop max size values = Ok s -> s = size + lengths values /\ s <= max.
Proof.
  intros Hs Hmax Hv. revert size Hs. induction Hv as [|v values Hv Hvs IH]; intros size Hs; cbn [byteCountLoop].
  { intros [= <-]. unfold lengths. cbn. lia. }
  destruct (existsb _ _); [done|]. pose proof (zlen_nonneg v). rewrite (wrap64_small (size + zlen v)) by (unfold is_u64; lia).
  rewrite Z.gtb_ltb. destruct (Z.ltb_spec max (size + zlen v)); [done|]. intros [-> ?]%IH; [|lia]. rewrite lengths_cons. lia.
Qed.
(** The sizes that [NewContext] computes are those of what [args_get] and [environ_get] write. *)
Lemma nullTerminated_ok max values size : max < 2 ^ 32 -> zlen values < 2 ^ 30 -> Forall (fun v => bytes_ok v /\ zlen v < 2 ^ 63) values ->
  nullTerminatedByteCount max values = Ok size -> values_ok values size.
Proof.
  intros Hmax Hn Hv. unfold nullTerminatedByteCount. pose proof (zlen_nonneg values). rewrite wrap32_small by (unfold is_u32; lia). rewrite Z.gtb_ltb.
  destruct (Z.ltb_spec max (zlen values)); [done|]. destruct (byteCountLoop _ _ _) as [s| |] eqn:E; cbn; [|done..]. intros [= <-].
  apply byteCountLoop_spec in E as [-> ?]; [|lia|lia|by eapply Forall_impl; [exact Hv|intros v [_ ?]]].
  pose proof (lengths_nonneg values). rewrite wrap32_small by (unfold is_u32; lia). unfold values_ok. rewrite valuesSize_lengths. split_and!; try lia.
  eapply Forall_impl; [exact Hv|]. by intros v [? _].
Qed.

Definition values_given (values : list (list Z)) : Prop := zlen values < 2 ^ 30 /\ Forall (fun v => bytes_ok v /\ zlen v < 2 ^ 63) values.
Lemma NewContext_ok max a e r1 r2 ctx : max < 2 ^ 32 -> values_given a -> values_given e -> NewContext max a e r1 r2 = Ok ctx -> ctx_ok ctx.
Proof.
  intros Hm [Ha Ha'] [He He']. unfold NewContext, errorf. destruct (nullTerminatedByteCount max a) as [n1| |] eqn:E1; cbn; [|done..].
  destruct (nullTerminatedByteCount max e) as [n2| |] eqn:E2; cbn; [|done..]. repeat (destruct (clockResolutionInvalid _); [done|]).
  intros [= <-]. split; cbn; by eapply nullTerminated_ok.
Qed.

(** ** The first entries *)

Lemma keys_NoDup {Item} (t : @Table Item) : NoDup (keys t).
Proof.
  pose proof (proj1 (keysFrom_sorted 0 (masks t))) as Hs. unfold keys. induction Hs as [|k ks Hs IH Hk]; constructor; [|exact IH].
  intros Hin. rewrite Forall_forall in Hk. specialize (Hk k Hin). lia.
Qed.
Lemma Len_Insert (t : @Table (option FileEntry)) e k b t' : wf t -> zlen (masks t) < 2 ^ 25 - 1 -> Insert None e t = Ok (k, b, t') -> Len t' <= Len t + 1.
Proof.
  intros Hw Hm E. destruct (Insert_spec None t e Hw) as (k' & t'' & E' & _ & _ & _ & Hw' & Ha); [lia|]. rewrite E in E'. injection E' as <- -> <-.
  rewrite !Len_keys. assert (Hs : keys t' ⊆+ k :: keys t).
  { apply NoDup_submseteq; [apply keys_NoDup|]. intros x Hx%elem_of_keys; [|done]. rewrite Ha in Hx. apply elem_of_cons.
    destruct (decide (x = k)); [by left|right]. by apply elem_of_keys. }
  apply submseteq_length in Hs. cbn in Hs. unfold zlen. lia.
Qed.
Lemma insertAll_ok ms es h : safe ms h -> Forall entry_ok es -> Len (openedFiles h) + zlen es <= maxFileDescriptor ->
  exists h', insertAll es h = (h', Returns tt) /\ safe ms h'.
Proof.
  intros Hs Hes. revert h Hs. induction Hes as [|e es He Hes IH]; intros h Hs Hl; [by exists h|]. rewrite zlen_cons in Hl.
  pose proof (safe_size _ h Hs) as Hsz. pose proof (zlen_nonneg es). assert (Hr : room h) by (unfold room; lia).
  pose proof (ok_insertFile ms e He h Hs Hr) as Hi. unfold insertFile in Hi. unfold insertAll in *. cbn [foldr].
  unfold mbind, H_bind, tableH in *.
  destruct (Insert_spec None (openedFiles h) (Some e) (safe_table _ h Hs)) as (k & t & E & _); [lia|]. rewrite E in *. cbn in *.
  apply IH; [by apply Hi|]. cbn. pose proof (Len_Insert _ _ _ _ _ (safe_table _ h Hs) ltac:(lia) E). lia.
Qed.

Definition started (m : MemoryInstance) (w : World) : hostState := mkHostState m (mkTable [] []) w [].
Definition preopen_given (p : FS * path * File) : Prop := inside (snd (fst p)) /\ bytes_ok (snd (fst p)).
(** What the host configures: the streams and the listeners are not directories, the guest
    paths of its mounts have no [..], and all of them fit the descriptor table. *)
Definition config_ok (stdio : list FileEntry) (preopens : list (FS * path * File)) (listeners : list File) : Prop :=
  Forall entry_ok stdio /\ Forall preopen_given preopens /\ Forall neverDir listeners /\
  zlen stdio + zlen preopens + zlen listeners <= maxFileDescriptor.

Lemma InitFSContext_ok stdio preopens listeners m w : config_ok stdio preopens listeners -> bytes_ok (Buffer m) ->
  exists h, InitFSContext stdio preopens listeners (started m w) = (h, Returns tt) /\ safe (zlen (Buffer m)) h.
Proof.
  intros (Hst & Hp & Hl & Hn) Hb. apply insertAll_ok.
  - constructor; cbn; try done. intros k x. unfold at_key. cbn.
    destruct (zlookup [] (k / 64)) eqn:E; [apply zlookup_Some_lt in E; change (zlen []) with 0 in E; lia|done].
  - repeat apply Forall_app_2; [done|apply Forall_map; eapply Forall_impl; [exact Hp|]|apply Forall_map; eapply Forall_impl; [exact Hl|]].
    + intros [[fs p] f] [Hi Hpb]. cbn in *. unfold entry_ok, guestName. cbn. split_and!; try done; destruct (bool_decide _); try done; by repeat constructor.
    + intros f Hf. unfold entry_ok. cbn. split_and!; try done; by repeat constructor.
  - rewrite !zlen_app. change (Len _) with 0. unfold zlen in *. rewrite !length_map. lia.
Qed.

Lemma safe_Len ms h : safe ms h -> Len (openedFiles h) <= 2 ^ 20 + 64.
Proof.
  intros Hs. pose proof (safe_table _ _ Hs) as Hw. pose proof (safe_size _ _ Hs). pose proof (zlen_nonneg (masks (openedFiles h))).
  rewrite Len_keys. assert (Hk : keys (openedFiles h) ⊆+ seqZ 0 (64 * zlen (masks (openedFiles h)))).
  { apply NoDup_submseteq; [apply keys_NoDup|]. intros k Hk%elem_of_keys; [|done]. apply elem_of_seqZ.
    destruct Hk as [x Hx]. unfold at_key in Hx. destruct (zlookup (masks _) _) as [mask|] eqn:E; [|done]. cbn in Hx.
    destruct (Z.testbit _ _); [|done]. apply zlookup_Some_lt in Hx. pose proof (wf_items _ Hw). lia. }
  apply submseteq_length in Hk. rewrite length_seqZ in Hk. unfold zlen in *. lia.
Qed.

(** ** The calls *)

Section Calls.
Context (windows : bool) (ctx : sysContext) (h0 : hostState).

Inductive reachable : hostState -> Prop :=
  | reachable_start : reachable h0
  | reachable_call h f stack h' stack' : reachable h ->
      f ∈ exportFunctions windows ctx -> stack_ok (Z.max 1 (zlen (ParamTypes f))) stack ->
      Call (GoFunc f) stack h = (h', Returns stack') -> reachable h'
  | reachable_guest h m : reachable h -> bytes_ok (Buffer m) -> zlen (Buffer m) < 2 ^ 32 -> reachable (set_mem m h).

Lemma reachable_safe h : hostLaws -> ctx_ok ctx -> safe (zlen (Buffer (mem h0))) h0 -> zlen (Buffer (mem h0)) < 2 ^ 32 ->
  reachable h -> safe (zlen (Buffer (mem h))) h /\ zlen (Buffer (mem h)) < 2 ^ 32.
Proof.
  intros Hlaws Hctx H0 Hn. induction 1 as [|h f stack h' stack' Hh [IH IHn] Hf Hst Hc|h m Hh [IH IHn] Hb Hm]; [done| |].
  - pose proof (ok_exported windows ctx _ Hlaws IHn f stack Hctx Hf Hst h IH I) as Hok. rewrite Hc in Hok. destruct Hok as [Hok _].
    pose proof (safe_memory _ _ Hok) as Hmem. by rewrite Hmem.
  - split; [|done]. destruct IH as [_ _ H3 H4 H5 H6]. by constructor.
Qed.

(** C13: whatever a guest passes to the functions of wasi_snapshot_preview1, whatever it calls
    before and however it changes its memory between the calls, the next call does not panic;
    it leaves the size of the memory, keeps at most 2^20 + 64 descriptors open, and every
    path that any call so far gave to a file system to resolve has no [..] element.  The one
    text from the guest that is passed on as it is, and may have them, is the target of
    [path_symlink], which is stored and not resolved.  The memory is below 4 GiB (at the end of
    65536 pages reads do panic); the context is one that [NewContext] accepts, with fewer than
    2^30 arguments and as many variables; the first descriptors are those of [InitFSContext],
    for streams and listeners that are not directories (a stream that is one does panic) and
    mounts whose guest paths have no [..], together at most 2^20 of them; files and file systems are
    any that keep to what their interface documents. *)
Theorem guest_calls_safe max a e r1 r2 stdio preopens listeners m w h f stack :
  hostLaws -> max < 2 ^ 32 -> values_given a -> values_given e -> NewContext max a e r1 r2 = Ok ctx ->
  config_ok stdio preopens listeners -> bytes_ok (Buffer m) -> zlen (Buffer m) < 2 ^ 32 ->
  fst (InitFSContext stdio preopens listeners (started m w)) = h0 -> reachable h ->
  f ∈ exportFunctions windows ctx -> stack_ok (Z.max 1 (zlen (ParamTypes f))) stack ->
  let '(h', r) := Call (GoFunc f) stack h in
  (forall msg, r <> Panics msg) /\ zlen (Buffer (mem h')) = zlen (Buffer (mem h)) /\ Len (openedFiles h') <= 2 ^ 20 + 64 /\
  Forall (fun c => Forall inside (callPaths (snd c))) (calls h').
Proof.
  intros Hlaws Hmax Ha He Hc Hcfg Hb Hm Hi Hh Hf Hst. pose proof (NewContext_ok _ _ _ _ _ _ Hmax Ha He Hc) as Hctx.
  destruct (InitFSContext_ok stdio preopens listeners m w Hcfg Hb) as (h1 & E & H0). rewrite E in Hi. cbn in Hi. subst h1.
  pose proof (safe_memory _ _ H0) as Hmem. rewrite <- Hmem in H0, Hm. destruct (reachable_safe h Hlaws Hctx H0 Hm Hh) as [Hs Hn].
  pose proof (ok_exported windows ctx _ Hlaws Hn f stack Hctx Hf Hst h Hs I) as Hok.
  destruct (Call (GoFunc f) stack h) as [h' [r|err|msg|c]]; [destruct Hok as [Hok _]| |done|]; (split; [done|]);
    split_and!; [apply (safe_memory _ _ Hok)|apply (safe_Len _ _ Hok)|apply (safe_calls _ _ Hok)|
                 apply (safe_memory _ _ Hok)|apply (safe_Len _ _ Hok)|apply (safe_calls _ _ Hok)|
                 apply (safe_memory _ _ Hok)|apply (safe_Len _ _ Hok)|apply (safe_calls _ _ Hok)].
Qed.
End Calls.
End Guest.

(** ** A host

    Files of four kinds: the directory has two entries, the others are empty, and the file
    system opens any path as an empty file.  The world is what they were told, latest first,
    and the position in the directory. *)

Module Demo.
Inductive file := Stream | Directory | Regular | Connection.
Definition isDirectory (f : file) : bool := match f with Directory => true | _ => false end.
Definition isConnection (f : file) : bool := match f with Connection => true | _ => false end.
Definition world : Type := list Z * nat.
Definition done {A} (a : A) (w : world) : world * A := (w, a).
Definition noted (z : Z) (w : world) : world * Z := ((z :: fst w, snd w), 0).
Definition contents : list Dirent := [mkDirent 2 [97] 0; mkDirent 3 [98; 99] ModeDir].
Definition left (w : world) : list Dirent := drop (snd w) contents.
Definition readdir (f : file) (n : Z) (w : world) : world * (list Dirent * Errno) :=
  match f with
  | Directory => ((fst w, snd w + Z.to_nat n)%nat, (take (Z.to_nat n) (left w), 0))
  | _ => done ([], ENOTDIR) w
  end.
Definition seek (f : file) (offset whence : Z) (w : world) : world * (Z * Errno) :=
  match f with
  | Stream => done (0, ESPIPE) w
  | Directory => ((fst w, 0%nat), (0, 0))
  | _ => done (0, 0) w
  end.
Definition stat (f : file) : Stat_t := mkStat 0 1 (if isDirectory f then ModeDir else 0) 1 0 0 0 0.
#[local] Instance fs_eq : EqDecision unit := _.
#[export] Instance host : Host := {|
  World := world; File := file; FS := unit; FS_eq := fs_eq;
  File_Ino f := done (1, 0);
  File_IsDir f := done (isDirectory f, 0);
  File_IsAppend f w := false;
  File_SetAppend f b := done 0;
  File_Stat f := done (stat f, 0);
  File_Read f b := done (b, 0, 0);
  File_Pread f b o := done (b, 0, 0);
  File_Seek := seek;
  File_Readdir := readdir;
  File_Write f b := done (zlen b, 0);
  File_Pwrite f b o := done (zlen b, 0);
  File_Truncate f n := noted n;
  File_Sync f := done 0;
  File_Datasync f := done 0;
  File_Utimens f a m := done ENOSYS;
  File_Close f := done 0;
  isPollableFile f := false;
  isPollable f := false;
  isTCPSock f := false;
  isTCPConn f := isConnection f;
  File_IsNonblock f w := false;
  File_SetNonblock f b := done 0;
  File_Poll f fl t := done (false, 0);
  Sock_Accept f := done (Connection, 0);
  Conn_Recvfrom f b fl := done (b, 0, 0);
  Conn_Shutdown f how := noted how;
  FS_OpenFile fs p fl m := done (Regular, 0);
  FS_Lstat fs p := done (stat Regular, 0);
  FS_Stat fs p := done (stat Regular, 0);
  FS_Mkdir fs p m := done 0;
  FS_Rename fs p q := done 0;
  FS_Rmdir fs p := done 0;
  FS_Unlink fs p := done 0;
  FS_Link fs p q := done 0;
  FS_Symlink fs p q := done 0;
  FS_Readlink fs p := done ([], EINVAL);
  FS_Utimens fs p a m := done 0;
  walltime := done (0, 0);
  nanotime := done 0;
  nanosleep n w := (n :: fst w, snd w);
  osyield w := w;
  readRandom n := done (replicate (Z.to_nat n) 0, true);
  timeSince := done 0;
|}.

Lemma laws : hostLaws.
Proof.
  constructor; try done.
  - intros n w. cbn. by apply Forall_replicate.
  - intros f n w Hn. cbn. destruct f; cbn; try (split; [by constructor|change (zlen []) with 0; lia]).
    split; [|rewrite zlen_take; lia]. apply Forall_take, Forall_drop. repeat apply Forall_cons_2; try apply Forall_nil_2; split; try by vm_compute.
    + apply Forall_cons_2; [unfold is_u8; lia|apply Forall_nil_2].
    + do 2 (apply Forall_cons_2; [unfold is_u8; lia|]). apply Forall_nil_2.
  - intros fs p w. by constructor.
Qed.
Definition stdio : list FileEntry := replicate 3 (mkFileEntry [] true None Stream None).
(** 3 is the mount of a directory at [/]. *)
Definition preopens : list (FS * path * File) := [(tt, [slash], Directory)].
Definition ctx : sysContext := mkSysContext [[97]] [] 2 0 1 1.
Definition memory (l : list Z) : MemoryInstance := mkMemoryInstance l (zlen l) 0 0 0 false None.
Definition start (l : list Z) : hostState := fst (InitFSContext stdio preopens [] (started (memory l) ([], 0%nat))).

(** The path [a/../b] at 0 *)
Definition openMemory : list Z := [97; 47; 46; 46; 47; 98] ++ replicate 26 0.
Definition path_open : HostFunc := newHostFunc "path_open" (pathOpenFn false) [I32; I32; I32; I32; I32; I64; I64; I32; I32].
Definition opened : hostState := fst (Call (GoFunc path_open) [3; 0; 0; 6; 0; 0; 0; 0; 8] (start openMemory)).

Lemma config : config_ok stdio preopens [].
Proof. split_and!; [by repeat constructor|by repeat constructor|constructor|vm_compute; congruence]. Qed.

(** Descriptor 4 is a file that the guest opened; it is closed next. *)
Lemma guest_calls_safe_witness :
  let '(h', r) := Call (GoFunc (newHostFunc "fd_close" fdCloseFn [I32])) [4] opened in
  (forall msg, r <> Panics msg) /\ zlen (Buffer (mem h')) = zlen (Buffer (mem opened)) /\ Len (openedFiles h') <= 2 ^ 20 + 64 /\
  Forall (fun c => Forall inside (callPaths (snd c))) (calls h').
Proof.
  apply (guest_calls_safe false ctx (start openMemory) 100 [[97]] [] 1 1 stdio preopens [] (memory openMemory) ([], 0%nat)).
  - exact laws.
  - lia.
  - split; [done|]. apply Forall_cons_2; [split; [by repeat constructor|done]|apply Forall_nil_2].
  - split; [done|apply Forall_nil_2].
  - reflexivity.
  - exact config.
  - by repeat constructor.
  - reflexivity.
  - reflexivity.
  - eapply (reachable_call _ _ _ (start openMemory) path_open [3; 0; 0; 6; 0; 0; 0; 0; 8] opened [0; 0; 0; 6; 0; 0; 0; 0; 8]); [constructor| |split|].
    + unfold path_open, exportFunctions. repeat first [apply list_elem_of_here|apply list_elem_of_further].
    + vm_compute; congruence.
    + repeat (apply Forall_cons_2; [unfold is_u64; lia|]). apply Forall_nil_2.
    + vm_compute. reflexivity.
  - unfold exportFunctions. repeat first [apply list_elem_of_here|apply list_elem_of_further].
  - split; [vm_compute; congruence|]. apply Forall_cons_2; [unfold is_u64; lia|apply Forall_nil_2].
Defined.

(** A subscription to a relative timeout of [n] at 0 *)
Definition pollMemory (n : Z) : list Z := replicate 24 0 ++ le_encode 8 n ++ replicate 56 0.
Definition withStdin (f : File) : hostState :=
  fst (InitFSContext (mkFileEntry [] true None f None :: stdio) preopens [] (started (memory openMemory) ([], 0%nat))).
Definition errnos : list (Errno * string) :=
  [(EACCES, "EACCES"); (EAGAIN, "EAGAIN"); (EBADF, "EBADF"); (EEXIST, "EEXIST"); (EFAULT, "EFAULT"); (EINTR, "EINTR"); (EINVAL, "EINVAL"); (EIO, "EIO");
   (EISDIR, "EISDIR"); (ELOOP, "ELOOP"); (ENAMETOOLONG, "ENAMETOOLONG"); (ENOENT, "ENOENT"); (ENOSYS, "ENOSYS"); (ENOTDIR, "ENOTDIR"); (ERANGE, "ERANGE");
   (ENOTEMPTY, "ENOTEMPTY"); (ENOTSOCK, "ENOTSOCK"); (ENOTSUP, "ENOTSUP"); (EPERM, "EPERM"); (EROFS, "EROFS"); (EMFILE, "EMFILE"); (ESPIPE, "ESPIPE")].
Definition misnumbered : list string := snd <$> filter (fun e => ErrnoName (ToErrno (fst e)) <> snd e) errnos.

(** where the functions differ from what WASI or their comments say.  Of all errnos only EMFILE and ESPIPE
    have numbers of another name: [fd_seek] on a stream gives 71, which is ESRCH.  The end of [fd_allocate] wraps, so that 2^63
    bytes at 2^63 succeed on an empty file.  A count of 2^29 vectors wraps, and [fd_write] succeeds with nothing written.  A
    relative timeout of 2^63 is negative, and [poll_oneoff] does not sleep, while it sleeps for 2^62.  [sock_shutdown]
    of both directions shuts only the writes.  [fd_filestat_set_times] on a mount passes its guest path to its file system.
    Paths under a stream that is a directory panic, since streams have no file system. *)
Theorem wasi_deviations :
  misnumbered = ["EMFILE"; "ESPIPE"] /\ ErrnoName (ToErrno EMFILE) = "ESPIPE" /\ ErrnoName (ToErrno ESPIPE) = "ESRCH" /\
  snd (Call (WasiFunc fdSeekFn) [0; 0; 0; 8] opened) = Returns [71; 0; 0; 8] /\
  Call (WasiFunc fdAllocateFn) [4; 2 ^ 63; 2 ^ 63] opened = (opened, Returns [0; 2 ^ 63; 2 ^ 63]) /\
  snd (Call (WasiFunc fdWriteFn) [4; 0; 2 ^ 29; 8] opened) = Returns [0; 0; 2 ^ 29; 8] /\
  (let '(h, r) := Call (WasiFunc pollOneoffFn) [0; 48; 1; 80] (start (pollMemory (2 ^ 63))) in r = Returns [0; 48; 1; 80] /\ fst (WasiSys.world h) = []) /\
  fst (WasiSys.world (fst (Call (WasiFunc pollOneoffFn) [0; 48; 1; 80] (start (pollMemory (2 ^ 62)))))) = [2 ^ 62] /\
  (let '(h, r) := Call (WasiFunc sockShutdownFn) [0; Z.lor wasip1.SD_RD wasip1.SD_WR] (withStdin Connection) in
   r = Returns [0; 3] /\ fst (WasiSys.world h) = [SHUT_WR]) /\
  calls (fst (Call (WasiFunc fdFilestatSetTimesFn) [3; 0; 0; 0] (start openMemory))) = [(tt, CallUtimens [slash])] /\
  snd (Call (GoFunc path_open) [0; 0; 0; 6; 0; 0; 0; 0; 8] (withStdin Directory)) = Panics "nil pointer dereference".
Proof. split_and!; vm_compute; done. Qed.
End Demo.
