(* ===== verification/WasiSpec.v ===== *)
(** * WASI: what single functions do

    [atPath] against the walk that a path describes, [args_get] and [environ_get]
    against reading the strings back. *)

From S2P Require Import Prelude Types Memory Descriptor Binary GoPath WasiSys Wasi WasiSafe WasiGuest.

(** ** Paths *)

(** The walk from a directory: where the elements lead, [None] when [..] leaves the start. *)
Fixpoint walk (loc : list path) (es : list path) : option (list path) :=
  match es with
  | [] => Some (rev loc)
  | e :: es' =>
      if bool_decide (e = []) || bool_decide (e = dot) then walk loc es'
      else if bool_decide (e = dotdot) then match loc with [] => None | _ :: loc' => walk loc' es' end
      else walk (e :: loc) es'
  end.
Definition pathOf (names : list path) : path := match names with [] => dot | _ => Join slash names end.

Lemma walk_stays loc es : staysFrom (length loc) es = bool_decide (is_Some (walk loc es)).
Proof.
  revert loc. induction es as [|e es IH]; intros loc; cbn [staysFrom walk]; [by rewrite bool_decide_eq_true_2|].
  destruct (_ || _); [apply IH|]. destruct (bool_decide (e = dotdot)).
  - destruct loc as [|x loc]; cbn [length]; [rewrite bool_decide_eq_false_2; [done|by intros [? ?]]|apply IH].
  - apply (IH (e :: loc)).
Qed.
Lemma walk_clean loc es names : Forall (fun e => validElement e = true) loc -> walk loc es = Some names ->
  rev (fold_left (cleanElement false) es loc) = names /\ Forall (fun e => validElement e = true) names.
Proof.
  revert loc. induction es as [|e es IH]; intros loc Hl; cbn [walk fold_left]; [intros [= <-]; split; [done|by apply Forall_rev]|].
  unfold cleanElement at 2. destruct (bool_decide (e = []) || bool_decide (e = dot)) eqn:E1; [by apply IH|].
  destruct (bool_decide (e = dotdot)) eqn:E2.
  - destruct loc as [|x loc]; [done|]. apply Forall_cons in Hl as [Hx Hl]. intros Hw.
    rewrite (bool_decide_eq_false_2 (x = dotdot)); [by apply IH|]. by intros ->.
  - apply IH. apply Forall_cons_2; [|done]. unfold validElement. by rewrite E1, E2.
Qed.
Lemma Clean_walk p : ValidPath (Clean p) =
  match (if rootedPath p then None else walk [] (Split slash p)) with Some names => validUTF8 (pathOf names) | None => false end.
Proof.
  rewrite ValidPath_Clean. destruct (rootedPath p) eqn:Er; cbn [negb]; [by rewrite andb_false_r|]. rewrite andb_true_r.
  unfold stays. rewrite (walk_stays []). destruct (walk [] (Split slash p)) as [names|] eqn:Ew.
  - rewrite bool_decide_eq_true_2, andb_true_r by done. destruct (walk_clean _ _ _ (Forall_nil_2 _) Ew) as [<- _].
    unfold Clean. by rewrite Er.
  - rewrite bool_decide_eq_false_2, andb_false_r; [done|by intros [? ?]].
Qed.
Lemma Clean_pathOf p names : rootedPath p = false -> walk [] (Split slash p) = Some names -> Clean p = pathOf names.
Proof. intros Er Ew. destruct (walk_clean _ _ _ (Forall_nil_2 _) Ew) as [<- _]. unfold Clean. by rewrite Er. Qed.

Section Spec.
Context `{HO : Host}.

Definition withSlash (b q : path) : path := if HasSuffixSlash b then q ++ [slash] else q.
(** Where a path of the guest leads. *)
Definition resolve (windows : bool) (fd p n : Z) (h : hostState) : hostState * result (option FS * path) :=
  if zlen (Buffer (mem h)) <? p + n then (h, Fails EFAULT)
  else if p + n =? 2 ^ 32 then (h, Panics "slice bounds out of range")
  else
    let b := bytesAt (Buffer (mem h)) p n in
    match (if rootedPath b then None else walk [] (Split slash b)) with
    | None => (h, Fails EPERM)
    | Some names =>
        if negb (validUTF8 (pathOf names)) || pathEscapesOnWindows windows (pathOf names) then (h, Fails EPERM)
        else
          match at_key (openedFiles h) fd with
          | Some (Some e) =>
              let '(w, (isDir, errno)) := File_IsDir (EntryFile e) (world h) in
              (set_world w h,
               if negb (errno =? 0) then Fails errno
               else if negb isDir then Fails ENOTDIR
               else Returns (EntryFS e, if IsPreopen e then withSlash b (pathOf names) else Name e ++ slash :: withSlash b (pathOf names)))
          | _ => (h, Fails EBADF)
          end
    end.

Lemma LookupFile_spec fd h e : wf (openedFiles h) -> at_key (openedFiles h) fd = e -> e <> Some None ->
  LookupFile fd h = (h, Returns (default None e)).
Proof.
  intros Hw Ha He. unfold LookupFile, mbind, H_bind, tableH. rewrite Lookup_spec by done. rewrite Ha. cbn. destruct h. by destruct e as [[e|]|].
Qed.
Lemma readView_spec errno o n h : is_u32 o -> is_u32 n -> zlen (Buffer (mem h)) <= 2 ^ 32 ->
  readView errno o n h = if zlen (Buffer (mem h)) <? o + n then (h, Fails errno)
                         else if o + n =? 2 ^ 32 then (h, Panics "slice bounds out of range") else (h, Returns (mkView o n)).
Proof.
  intros Ho Hn Hs. unfold readView. rewrite Read_spec by done. destruct (Z.leb_spec (o + n) (zlen (Buffer (mem h)))).
  - rewrite (proj2 (Z.ltb_ge (zlen _) _)) by lia. cbn [negb]. destruct (Z.eqb_spec (o + n) (2 ^ 32)) as [->|]; [done|].
    by rewrite (proj2 (Z.ltb_lt (o + n) _)) by lia.
  - cbn [negb]. by rewrite (proj2 (Z.ltb_lt _ _)) by lia.
Qed.

(** The table of descriptors: well formed, and without nil entries.  Every function keeps it so. *)
Definition table_ok (h : hostState) : Prop := wf (openedFiles h) /\ forall k, at_key (openedFiles h) k <> Some None.
Lemma safe_table_ok n h : safe n h -> table_ok h.
Proof. intros Hs. split; [apply (safe_table _ h Hs)|]. intros k Hk. by destruct (safe_entries _ h Hs k _ Hk) as (e & ? & _). Qed.

(** C14: [atPath] resolves a path as the walk it describes, from the directory of its
    descriptor: it is refused exactly when it starts at the root or its [..] leave the
    directory at any point, or when the path that the walk leads to is not UTF-8 or means a
    device on Windows; otherwise the file system of the descriptor gets the names that the walk
    passes, none of which is [.] or [..], under the name of the directory unless it is a mount.
    It fails before it looks at the descriptor when the path is not in the memory or climbs.
    The memory may have any size up to 65536 pages: a path that ends at the last byte of such a
    memory makes the read panic, and no other does.  The descriptor table is well formed, as
    every function leaves it. *)
Theorem path_resolution (windows : bool) (fd p n : Z) (h : hostState) :
  table_ok h -> zlen (Buffer (mem h)) <= 2 ^ 32 -> is_u32 p -> is_u32 n ->
  atPath windows fd p n h = resolve windows fd p n h /\
  forall b names, walk [] (Split slash b) = Some names -> Forall (fun e => e <> [] /\ e <> dot /\ e <> dotdot) names.
Proof.
  intros [Hw Hne] Hm Hp Hn. split.
  2: { intros b names Hb. destruct (walk_clean _ _ _ (Forall_nil_2 _) Hb) as [_ Hv]. eapply Forall_impl; [exact Hv|].
       intros e He. split_and!; intros ->; done. }
  unfold atPath, resolve, mbind, H_bind at 1. rewrite readView_spec by done. destruct (_ <? _); [done|]. destruct (p + n =? 2 ^ 32); [done|].
  unfold H_bind at 1. cbn [bytesV getH lo vlen].
  set (b := bytesAt _ _ _). pose proof (Clean_walk b) as Hc. destruct (rootedPath b) eqn:Er; [by rewrite Hc|].
  destruct (walk [] (Split slash b)) as [names|] eqn:Ew; [|by rewrite Hc]. rewrite (Clean_pathOf b names Er Ew) in *. rewrite Hc.
  destruct (negb _ || _); [done|]. unfold H_bind at 1, lookupOr. unfold mbind, H_bind at 1.
  destruct (at_key (openedFiles h) fd) as [e|] eqn:Ek.
  - destruct e as [x|]; [|by destruct (Hne fd)]. rewrite (LookupFile_spec fd h _ Hw Ek) by done. cbn.
    unfold checkedH, checkErrno, H_bind, mbind, worldH, H_bind. destruct (File_IsDir _ _) as [w [isDir errno]].
    destruct (errno =? 0); [|done]. destruct isDir; [|done]. by destruct (IsPreopen x).
  - by rewrite (LookupFile_spec fd h _ Hw Ek).
Qed.

(** ** Arguments and environment *)

Definition withBuffer (l : list Z) (h : hostState) : hostState := set_mem (set_Buffer l (mem h)) h.

Lemma stored_stored l o a b : 0 <= o -> o + zlen a + zlen b <= zlen l -> stored (stored l o a) (o + zlen a) b = stored l o (a ++ b).
Proof.
  intros Ho Hl. pose proof (zlen_nonneg a). pose proof (zlen_nonneg b). unfold stored at 1 3. rewrite zlen_app. unfold stored.
  assert (Ht : length (take (Z.to_nat o) l ++ a) = Z.to_nat (o + zlen a)) by (rewrite length_app, length_take; unfold zlen in *; lia).
  rewrite (app_assoc _ a), take_app_length' by done. rewrite <- !app_assoc. do 3 f_equal.
  rewrite app_assoc, drop_app_ge by (rewrite Ht; lia). rewrite Ht, drop_drop. f_equal. unfold zlen in *. lia.
Qed.
Lemma putV_spec n v i x h : 0 <= lo v -> 0 <= i -> i + Z.of_nat n <= vlen v -> lo v + vlen v <= zlen (Buffer (mem h)) ->
  putV n v i x h = (withBuffer (stored (Buffer (mem h)) (lo v + i) (le_encode n x)) h, Returns tt).
Proof.
  intros Ho Hi Hn Hl. unfold putV, fits. rewrite !(proj2 (Z.leb_le _ _)) by lia. cbn [andb]. unfold bufferH, putUint.
  rewrite zslice_in by lia. cbn [res_bind]. rewrite (proj2 (Z.leb_le _ _)) by (rewrite zlen_drop; lia).
  rewrite copyAt_in; [done|lia|]. unfold zlen at 1. rewrite length_le_encode. lia.
Qed.
Lemma copyV_spec v i b h : 0 <= lo v -> 0 <= i -> i + zlen b <= vlen v -> lo v + vlen v <= zlen (Buffer (mem h)) ->
  copyV v i b h = (withBuffer (stored (Buffer (mem h)) (lo v + i) b) h, Returns tt).
Proof.
  intros Ho Hi Hn Hl. pose proof (zlen_nonneg b). unfold copyV, fits. rewrite !(proj2 (Z.leb_le _ _)) by lia. cbn [andb]. unfold bufferH.
  rewrite take_ge by (unfold zlen in *; lia). rewrite copyAt_in; [done|lia|lia].
Qed.
Lemma le_encode_4 x : le_encode 4 x = le_encode 1 (wrap8 x) ++ le_encode 1 (wrap8 (Z.shiftr x 8)) ++ le_encode 1 (wrap8 (Z.shiftr x 16)) ++
  le_encode 1 (wrap8 (Z.shiftr x 24)).
Proof.
  unfold wrap8. cbn [le_encode app]. change (2 ^ 8) with 256. rewrite !Z.mod_mod by lia. rewrite !Z.shiftr_div_pow2 by lia.
  rewrite !Z.div_div by lia. done.
Qed.

(** What the two loops leave: pointers from [p], the strings from [q]. *)
Fixpoint encodeValues (l : list Z) (p q : Z) (values : list (list Z)) : list Z :=
  match values with
  | [] => l
  | v :: values' => encodeValues (stored (stored l p (le_encode 4 q)) q (v ++ [0])) (p + 4) (q + zlen v + 1) values'
  end.

Lemma zlen_le n x : zlen (le_encode n x) = Z.of_nat n.
Proof. unfold zlen. by rewrite length_le_encode. Qed.
Lemma Buffer_with l h : Buffer (mem (withBuffer l h)) = l.
Proof. done. Qed.
Lemma with_with l l' h : withBuffer l (withBuffer l' h) = withBuffer l h.
Proof. done. Qed.
Lemma putV_4 {A} v i x (k : H A) h : 0 <= lo v -> 0 <= i -> i + 4 <= vlen v -> lo v + vlen v <= zlen (Buffer (mem h)) ->
  (_ ← putV 1 v i (wrap8 x); _ ← putV 1 v (i + 1) (wrap8 (Z.shiftr x 8)); _ ← putV 1 v (i + 2) (wrap8 (Z.shiftr x 16));
   _ ← putV 1 v (i + 3) (wrap8 (Z.shiftr x 24)); k) h = k (withBuffer (stored (Buffer (mem h)) (lo v + i) (le_encode 4 x)) h).
Proof.
  intros H1 H2 H3 H4. unfold mbind, H_bind. set (l := Buffer (mem h)) in *. rewrite putV_spec by (try fold l; lia). fold l.
  set (b0 := le_encode 1 _). assert (E0 : zlen b0 = 1) by apply zlen_le.
  assert (Hs : forall b, lo v + i + zlen b <= zlen l -> zlen (stored l (lo v + i) b) = zlen l) by (intros; apply zlen_stored; lia).
  rewrite putV_spec; rewrite ?Buffer_with, ?Hs by lia; try lia. rewrite with_with. set (b1 := le_encode 1 _). assert (E1 : zlen b1 = 1) by apply zlen_le.
  replace (lo v + (i + 1)) with (lo v + i + zlen b0) by lia. rewrite stored_stored by lia.
  assert (E01 : zlen (b0 ++ b1) = 2) by (rewrite zlen_app; lia).
  rewrite putV_spec; rewrite ?Buffer_with, ?Hs by lia; try lia. rewrite with_with. set (b2 := le_encode 1 _). assert (E2 : zlen b2 = 1) by apply zlen_le.
  replace (lo v + (i + 2)) with (lo v + i + zlen (b0 ++ b1)) by lia. rewrite stored_stored by lia.
  assert (E02 : zlen ((b0 ++ b1) ++ b2) = 3) by (rewrite zlen_app; lia).
  rewrite putV_spec; rewrite ?Buffer_with, ?Hs by lia; try lia. rewrite with_with. set (b3 := le_encode 1 _). assert (E3 : zlen b3 = 1) by apply zlen_le.
  replace (lo v + (i + 3)) with (lo v + i + zlen ((b0 ++ b1) ++ b2)) by lia. rewrite stored_stored by lia.
  rewrite le_encode_4. by rewrite <- !app_assoc.
Qed.
Lemma writeValue_spec ov bv v h oI bI : 0 <= lo ov -> 0 <= oI -> oI + 4 <= vlen ov -> lo ov + vlen ov <= zlen (Buffer (mem h)) ->
  0 <= lo bv -> 0 <= bI -> bI + zlen v + 1 <= vlen bv -> lo bv + vlen bv <= zlen (Buffer (mem h)) -> zlen (Buffer (mem h)) <= 2 ^ 32 ->
  vlen ov < 2 ^ 32 -> vlen bv < 2 ^ 32 -> forall values, writeValues ov bv (v :: values) oI bI h =
    writeValues ov bv values (oI + 4) (bI + zlen v + 1)
      (withBuffer (stored (stored (Buffer (mem h)) (lo ov + oI) (le_encode 4 (lo bv + bI))) (lo bv + bI) (v ++ [0])) h).
Proof.
  intros H1 H2 H3 H4 H5 H6 H7 H8 H9 H10 H11 values. pose proof (zlen_nonneg v). cbn [writeValues].
  do 4 rewrite (u32_small (oI + _)) by (unfold is_u32; lia). rewrite (u32_small (bI + zlen v)) by (unfold is_u32; lia).
  rewrite (u32_small (bI + zlen v + 1)), (u32_small (lo bv + bI)) by (unfold is_u32; lia).
  rewrite putV_4 by lia. set (l := stored (Buffer (mem h)) _ _).
  assert (Hl : zlen l = zlen (Buffer (mem h))) by (apply zlen_stored; rewrite ?zlen_le; lia).
  unfold mbind, H_bind. rewrite copyV_spec; rewrite ?Buffer_with; try lia. rewrite with_with.
  rewrite putV_spec; rewrite ?Buffer_with, ?zlen_stored; try lia. rewrite with_with, Z.add_assoc. change (le_encode 1 0) with [0].
  rewrite stored_stored; [done|lia|]. change (zlen [0]) with 1. lia.
Qed.
Lemma writeValues_spec ov bv values oI bI h : 0 <= lo ov -> 0 <= lo bv -> 0 <= oI -> 0 <= bI ->
  oI + 4 * zlen values = vlen ov -> bI + valuesSize values = vlen bv -> lo ov + vlen ov <= zlen (Buffer (mem h)) ->
  lo bv + vlen bv <= zlen (Buffer (mem h)) -> zlen (Buffer (mem h)) <= 2 ^ 32 -> vlen ov < 2 ^ 32 -> vlen bv < 2 ^ 32 ->
  writeValues ov bv values oI bI h = (withBuffer (encodeValues (Buffer (mem h)) (lo ov + oI) (lo bv + bI) values) h, Returns tt).
Proof.
  intros H1 H2. revert oI bI h. induction values as [|v values IH]; intros oI bI h HoI HbI Ho Hb Hlo Hlb Hm Hov Hbv; [by destruct h as [[] ? ? ?]|].
  rewrite zlen_cons in Ho. rewrite valuesSize_cons in Hb. pose proof (zlen_nonneg v). pose proof (zlen_nonneg values). pose proof (valuesSize_nonneg values).
  rewrite writeValue_spec by lia. set (l1 := stored (Buffer (mem h)) _ _). set (l := stored l1 _ _).
  assert (Hl1 : zlen l1 = zlen (Buffer (mem h))) by (apply zlen_stored; rewrite ?zlen_le; lia).
  assert (Hl : zlen l = zlen l1) by (apply zlen_stored; rewrite ?zlen_app; change (zlen [0]) with 1; lia).
  rewrite IH; rewrite ?Buffer_with; try lia. rewrite with_with. cbn [encodeValues]. by rewrite !Z.add_assoc.
Qed.

Fixpoint cString (l : list Z) : list Z :=
  match l with [] => [] | c :: l' => if c =? 0 then [] else c :: cString l' end.
(** The strings at [n] pointers from [p]. *)
Fixpoint readStrings (l : list Z) (p : Z) (n : nat) : list (list Z) :=
  match n with
  | O => []
  | S n' => cString (drop (Z.to_nat (le_decode (bytesAt l p 4))) l) :: readStrings l (p + 4) n'
  end.
Definition apart (o n o' n' : Z) : Prop := o + n <= o' \/ o' + n' <= o.

Lemma cString_nul v l : existsb (fun c => c =? 0) v = false -> cString (v ++ 0 :: l) = v.
Proof. induction v as [|c v IH]; [done|]. cbn. intros [-> Hv]%orb_false_iff. by rewrite IH. Qed.
Lemma bytesAt_split l o v : bytesAt l o (zlen v) = v -> exists rest, drop (Z.to_nat o) l = v ++ rest.
Proof.
  intros Hb. exists (drop (length v) (drop (Z.to_nat o) l)). unfold bytesAt, zlen in Hb. rewrite Nat2Z.id in Hb.
  rewrite <- Hb at 1. by rewrite take_drop.
Qed.
Lemma zlen_encode l p q values : 0 <= p -> 0 <= q -> p + 4 * zlen values <= zlen l -> q + valuesSize values <= zlen l -> zlen (encodeValues l p q values) = zlen l.
Proof.
  revert l p q. induction values as [|v values IH]; intros l p q Hp Hq Hpl Hql; [done|]. rewrite zlen_cons in Hpl. rewrite valuesSize_cons in Hql.
  pose proof (zlen_nonneg v). pose proof (zlen_nonneg values). pose proof (valuesSize_nonneg values). cbn [encodeValues].
  set (l1 := stored l _ _). set (l2 := stored l1 _ _).
  assert (Hl1 : zlen l1 = zlen l) by (apply zlen_stored; rewrite ?zlen_le; lia).
  assert (Hl2 : zlen l2 = zlen l1) by (apply zlen_stored; rewrite ?zlen_app; change (zlen [0]) with 1; lia).
  rewrite IH; lia.
Qed.
Lemma encode_other l p q values o n : 0 <= p -> 0 <= q -> p + 4 * zlen values <= zlen l -> q + valuesSize values <= zlen l -> 0 <= o -> 0 <= n ->
  apart p (4 * zlen values) o n -> apart q (valuesSize values) o n -> bytesAt (encodeValues l p q values) o n = bytesAt l o n.
Proof.
  unfold apart. revert l p q. induction values as [|v values IH]; intros l p q Hp Hq Hpl Hql Ho Hn Ap Aq; [done|].
  rewrite zlen_cons in *. rewrite valuesSize_cons in *.
  pose proof (zlen_nonneg v). pose proof (zlen_nonneg values). pose proof (valuesSize_nonneg values). cbn [encodeValues].
  set (l1 := stored l _ _). set (l2 := stored l1 _ _).
  assert (Hl1 : zlen l1 = zlen l) by (apply zlen_stored; rewrite ?zlen_le; lia).
  assert (Hz : zlen (v ++ [0]) = zlen v + 1) by (by rewrite zlen_app).
  assert (Hl2 : zlen l2 = zlen l1) by (apply zlen_stored; lia).
  rewrite IH by lia. unfold l2. rewrite stored_other by lia. unfold l1. apply stored_other; rewrite ?zlen_le; lia.
Qed.
Lemma encode_reads l p q values : 0 <= p -> 0 <= q -> p + 4 * zlen values <= zlen l -> q + valuesSize values <= zlen l -> zlen l <= 2 ^ 32 ->
  apart p (4 * zlen values) q (valuesSize values) -> Forall (fun v => existsb (fun c => c =? 0) v = false) values ->
  readStrings (encodeValues l p q values) p (length values) = values.
Proof.
  intros Hp Hq Hpl Hql Hm Ha Hv. revert l p q Hp Hq Hpl Hql Hm Ha. unfold apart.
  induction Hv as [|v values Hv Hvs IH]; intros l p q Hp Hq Hpl Hql Hm Ha; [done|]. rewrite zlen_cons in *. rewrite valuesSize_cons in *.
  pose proof (zlen_nonneg v). pose proof (zlen_nonneg values). pose proof (valuesSize_nonneg values). cbn [length readStrings].
  set (l1 := stored l p (le_encode 4 q)). set (l2 := stored l1 q (v ++ [0])).
  change (encodeValues l p q (v :: values)) with (encodeValues l2 (p + 4) (q + zlen v + 1) values).
  assert (Hl1 : zlen l1 = zlen l) by (apply zlen_stored; rewrite ?zlen_le; lia).
  assert (Hz : zlen (v ++ [0]) = zlen v + 1) by (by rewrite zlen_app).
  assert (Hl2 : zlen l2 = zlen l1) by (apply zlen_stored; lia).
  rewrite IH by lia. f_equal. set (l3 := encodeValues _ _ _ _).
  assert (E4 : bytesAt l3 p 4 = le_encode 4 q).
  { unfold l3. rewrite encode_other by (unfold apart; lia). unfold l2. rewrite stored_other by lia. apply (stored_same l p (le_encode 4 q)); rewrite ?zlen_le; lia. }
  assert (Ev : bytesAt l3 q (zlen (v ++ [0])) = v ++ [0]).
  { unfold l3. rewrite encode_other by (unfold apart; lia). apply stored_same; lia. }
  rewrite E4, le_decode_encode by lia. destruct (bytesAt_split l3 q (v ++ [0]) Ev) as [rest ->].
  rewrite <- app_assoc. by apply cString_nul.
Qed.

Lemma byteCount_nonul max size values s : byteCountLoop max size values = Ok s -> Forall (fun v => existsb (fun c => c =? 0) v = false) values.
Proof.
  revert size. induction values as [|v values IH]; intros size; cbn [byteCountLoop]; [by constructor|].
  destruct (existsb _ v) eqn:E; [done|]. destruct (_ >? _); [done|]. intros H. apply Forall_cons_2; [done|]. by eapply IH.
Qed.
Lemma nullTerminated_nonul max values size : nullTerminatedByteCount max values = Ok size ->
  Forall (fun v => existsb (fun c => c =? 0) v = false) values.
Proof.
  unfold nullTerminatedByteCount. destruct (_ >? _); [done|]. destruct (byteCountLoop _ _ _) eqn:E; cbn; [|done..]. intros _. by eapply byteCount_nonul.
Qed.

(** C17: [args_get] and [environ_get] give the guest the strings that the context accepted,
    of which there are fewer than 2^30.  With the pointers at [p] and the strings at [q], in two
    parts of the memory that do not overlap and of the sizes that [args_sizes_get] reports, the
    strings at the pointers, up to their NUL, are the values again, and no other byte changes;
    when a part is not in the memory the call gives EFAULT and writes nothing.  The memory may
    have any size up to 65536 pages: when a part ends at the last byte of such a memory the
    read of it panics. *)
Theorem arguments_roundtrip (max : Z) (values : list (list Z)) (size p q : Z) (h : hostState) :
  max < 2 ^ 32 -> values_given values -> nullTerminatedByteCount max values = Ok size -> is_u32 p -> is_u32 q ->
  zlen (Buffer (mem h)) <= 2 ^ 32 ->
  if zlen (Buffer (mem h)) <? p + 4 * zlen values then valuesGet values size [p; q] h = (h, Fails EFAULT)
  else if p + 4 * zlen values =? 2 ^ 32 then valuesGet values size [p; q] h = (h, Panics "slice bounds out of range")
  else if zlen (Buffer (mem h)) <? q + size then valuesGet values size [p; q] h = (h, Fails EFAULT)
  else if q + size =? 2 ^ 32 then valuesGet values size [p; q] h = (h, Panics "slice bounds out of range")
  else
    apart p (4 * zlen values) q size ->
    exists h', valuesGet values size [p; q] h = (h', Returns tt) /\
      readStrings (Buffer (mem h')) p (length values) = values /\
      zlen (Buffer (mem h')) = zlen (Buffer (mem h)) /\
      forall o n, 0 <= o -> 0 <= n -> apart p (4 * zlen values) o n -> apart q size o n ->
        bytesAt (Buffer (mem h')) o n = bytesAt (Buffer (mem h)) o n.
Proof.
  intros Hmax [Hn Hv] Hsize Hp Hq Hm. pose proof (nullTerminated_nonul _ _ _ Hsize) as Hnul.
  destruct (nullTerminated_ok max values size Hmax Hn Hv Hsize) as (-> & Hs & _ & Hl). pose proof (zlen_nonneg values). pose proof (valuesSize_nonneg values).
  assert (E : valuesGet values (valuesSize values) [p; q] h = writeOffsetsAndNullTerminatedValues values p q (valuesSize values) h).
  { change (valuesGet values (valuesSize values) [p; q]) with (writeOffsetsAndNullTerminatedValues values (u32 p) (u32 q) (valuesSize values)).
    by rewrite !u32_small. }
  rewrite E. unfold writeOffsetsAndNullTerminatedValues, mbind, H_bind. rewrite (u32_small (zlen values * 4)) by (unfold is_u32; lia).
  rewrite readView_spec by (try unfold is_u32 in *; lia). unfold is_u32 in Hp, Hq. rewrite (Z.mul_comm (zlen values)).
  destruct (Z.ltb_spec (zlen (Buffer (mem h))) (p + 4 * zlen values)); [done|]. destruct (Z.eqb_spec (p + 4 * zlen values) (2 ^ 32)) as [|Hpe]; [done|].
  rewrite readView_spec by (try unfold is_u32 in *; lia).
  destruct (Z.ltb_spec (zlen (Buffer (mem h))) (q + valuesSize values)); [done|]. destruct (Z.eqb_spec (q + valuesSize values) (2 ^ 32)) as [|Hqe]; [done|].
  intros Ha. eexists. split; [apply writeValues_spec; cbn [lo vlen]; lia|]. cbn [lo vlen].
  rewrite Buffer_with, !Z.add_0_r. split_and!; [apply encode_reads; try done; lia|apply zlen_encode; lia|]. intros o n Ho Hn' A1 A2. apply encode_other; try done; lia.
Qed.
End Spec.

(** ** Witnesses *)

Module SpecWitness.
Import Demo.
(** The directory at 3 and [a/../b/] at 0 *)
Lemma path_resolution_witness :
  let h := start ([97; 47; 46; 46; 47; 98; 47] ++ replicate 9 0) in
  atPath false 3 0 7 h = (h, Returns (Some tt, [98; 47])) /\
  forall b names, walk [] (Split slash b) = Some names -> Forall (fun e => e <> [] /\ e <> dot /\ e <> dotdot) names.
Proof.
  cbv zeta. assert (Hs : exists h, InitFSContext stdio preopens [] (started (memory ([97; 47; 46; 46; 47; 98; 47] ++ replicate 9 0)) ([], 0%nat)) = (h, Returns tt) /\
    safe 16 h).
  { apply InitFSContext_ok; [|by repeat constructor]. split_and!; [by repeat constructor|by repeat constructor|constructor|vm_compute; congruence]. }
  destruct Hs as (h & E & Hs). assert (Eh : start ([97; 47; 46; 46; 47; 98; 47] ++ replicate 9 0) = h) by (unfold start; by rewrite E).
  destruct (path_resolution false 3 0 7 (start ([97; 47; 46; 46; 47; 98; 47] ++ replicate 9 0))) as [Ep Hw];
    [rewrite Eh; by apply (safe_table_ok 16)|vm_compute; done|unfold is_u32; lia|unfold is_u32; lia|].
  split; [rewrite Ep; by vm_compute|exact Hw].
Defined.

Lemma arguments_roundtrip_witness : exists h',
  valuesGet [[97; 98]; []] 4 [0; 8] (start (replicate 12 7)) = (h', Returns tt) /\ readStrings (Buffer (mem h')) 0 2 = [[97; 98]; []].
Proof.
  assert (Hv : values_given [[97; 98]; []]).
  { split; [done|]. repeat (apply Forall_cons_2; [split; [by repeat constructor|done]|]). apply Forall_nil_2. }
  assert (Hm : zlen (Buffer (mem (start (replicate 12 7)))) = 12) by (vm_compute; reflexivity).
  pose proof (arguments_roundtrip 4 [[97; 98]; []] 4 0 8 (start (replicate 12 7)) ltac:(lia) Hv ltac:(reflexivity)
    ltac:(unfold is_u32; lia) ltac:(unfold is_u32; lia) ltac:(lia)) as Ht.
  rewrite Hm in Ht. change (zlen [[97; 98]; []]) with 2 in Ht. cbn [Z.ltb Z.eqb Z.compare Z.add Z.mul Pos.compare Pos.compare_cont Pos.add Pos.mul] in Ht.
  destruct Ht as (h' & E & Hr & _); [left; vm_compute; congruence|]. exists h'. by split.
Defined.
End SpecWitness.
