(* ===== verification/WasiReaddir.v ===== *)
(** * WASI: reading a directory (src/internal/sys/fs.go, imports/wasi_snapshot_preview1/fs.go)

    [DirentCache] keeps a window of the entries of a directory, because files
    can only be read forwards; [fd_readdir] serves cookies from it.  For a file
    whose [Readdir] is a cursor over a list, the cache answers reads as the list
    would, and a guest that follows the cookies sees every entry once, in order. *)

From S2P Require Import Prelude Types Memory Descriptor GoPath WasiSys Wasi WasiSafe WasiGuest.

(** What is left to read moves with [Readdir], and [Seek] to the start restores it. *)
Record directory `{HO : Host} (f : File) (entries : list Dirent) (left : World -> list Dirent) : Prop := {
  dir_Readdir : forall n w, 0 < n -> exists w', File_Readdir f n w = (w', (take (Z.to_nat n) (left w), 0)) /\ left w' = drop (Z.to_nat n) (left w);
  dir_Seek : forall w, exists w', File_Seek f 0 0 w = (w', (0, 0)) /\ left w' = entries;
}.

Section Readdir.
Context `{HO : Host} (f : File) (entries : list Dirent) (left : World -> list Dirent) (dots : list Dirent).
Context (dir : directory f entries left) (twoDots : zlen dots = 2).

Definition listing : list Dirent := dots ++ entries.

(** The cache holds the entries from [start] up to where the file is. *)
Record window (start : Z) (d : DirentCache) (ds : list Dirent) (w : World) : Prop := {
  win_start : 0 <= start;
  win_count : countRead d = start + zlen ds;
  win_range : 2 <= countRead d <= zlen listing;
  win_entries : ds = take (length ds) (drop (Z.to_nat start) listing);
  win_left : left w = drop (Z.to_nat (countRead d)) listing;
  win_eof : eof d = true -> countRead d = zlen listing;
}.
Definition cached (d : DirentCache) (w : World) : Prop :=
  direntFile d = f /\ dotEntries d = dots /\
  match dirents d with
  | None => countRead d = 0 /\ left w = entries
  | Some ds => exists start, window start d ds w
  end.
(** The positions that can be read: the start, and those in the window. *)
Definition readable (d : DirentCache) (pos : Z) : Prop :=
  pos = 0 \/ (exists ds, dirents d = Some ds /\ countRead d - zlen ds <= pos <= countRead d).

Lemma zlen_0_nil {A} (l : list A) : zlen l = 0 -> l = [].
Proof. unfold zlen. destruct l; [done|cbn; lia]. Qed.
Lemma take_len {A} n (l : list A) : take n l = take (length (take n l)) l.
Proof.
  rewrite length_take. destruct (Nat.le_ge_cases n (length l)); [by rewrite Nat.min_l by lia|]. rewrite Nat.min_r by lia. by rewrite !take_ge by lia.
Qed.
Lemma take_more (l : list Dirent) (a b n : nat) : n = (a + b)%nat -> take a l ++ take b (drop a l) = take n l.
Proof. intros ->. by rewrite take_take_drop. Qed.

(** After [ds], read [n - len(ds)] more. *)
Lemma readMore_spec d ds pos e n w :
  direntFile d = f -> dotEntries d = dots -> window pos (entriesCache d ds (pos + zlen ds) e) ds w -> zlen ds < n -> n < 2 ^ 32 -> zlen listing < 2 ^ 32 ->
  exists w' d', readMore d ds (pos + zlen ds) e (n - zlen ds) n w = (w', (d', Ok (take (Z.to_nat n) (drop (Z.to_nat pos) listing), 0))) /\
    cached d' w' /\ dirents d' = Some (take (Z.to_nat n) (drop (Z.to_nat pos) listing)) /\
    countRead d' = pos + zlen (take (Z.to_nat n) (drop (Z.to_nat pos) listing)).
Proof.
  intros Hf Hd [Hp _ [Hr1 Hr2] Hds Hl He] Hn Hn' Hsz. cbn in Hr1, Hr2, Hl. pose proof (zlen_nonneg ds).
  unfold readMore. rewrite Hf. destruct (dir_Readdir _ _ _ dir (n - zlen ds) w ltac:(lia)) as (w' & E & Hw'). rewrite E. clear E. cbn [negb Z.eqb].
  set (k := Z.to_nat (n - zlen ds)) in *. set (l := take k (left w)) in *.
  assert (Hl2 : left w = drop (length ds) (drop (Z.to_nat pos) listing)) by (rewrite Hl, drop_drop; f_equal; unfold zlen; lia).
  assert (Hall : ds ++ l = take (Z.to_nat n) (drop (Z.to_nat pos) listing)).
  { unfold l. rewrite Hl2. rewrite Hds at 1. apply take_more. unfold k, zlen in *. lia. }
  assert (Hlen : zlen l = Z.min (n - zlen ds) (zlen listing - (pos + zlen ds))).
  { unfold l. rewrite Hl. unfold zlen at 1. rewrite length_take, length_drop. unfold k, zlen in *. lia. }
  assert (Hleft : left w' = drop (Z.to_nat (pos + zlen ds + zlen l)) listing).
  { rewrite Hw', Hl, drop_drop. destruct (Z_le_dec (n - zlen ds) (zlen listing - (pos + zlen ds))).
    - f_equal. unfold k. lia.
    - rewrite !drop_ge; [done| |]; unfold k, zlen in *; lia. }
  set (R := take (Z.to_nat n) _) in *. assert (HR : zlen R = zlen ds + zlen l) by (rewrite <- Hall; apply zlen_app).
  assert (HRn : zlen R <= n) by lia. pose proof (zlen_nonneg l).
  assert (Hc : forall c e', cachedDirents (entriesCache d R c e') n = R).
  { intros c e'. unfold cachedDirents. cbn [dirents entriesCache default from_option id]. rewrite wrap32_small by (unfold is_u32; lia).
    destruct (Z.eqb_spec (zlen R) 0) as [E0|]; [by apply zlen_0_nil in E0|]. by rewrite Z.gtb_ltb, (proj2 (Z.ltb_ge _ _)) by lia. }
  assert (HRl : R = take (length R) (drop (Z.to_nat pos) listing)) by apply take_len.
  rewrite Z.gtb_ltb. destruct (Z.ltb_spec 0 (zlen l)) as [Hpos|Hnone].
  - rewrite Hall, wrap64_small by (unfold is_u64; lia). eexists w', _. rewrite Hc. split; [done|]. split_and!; [|done|cbn; lia].
    split_and!; [done|done|]. cbn. exists pos. constructor; cbn; try done; lia.
  - assert (l = []) as El by (apply zlen_0_nil; lia). rewrite El, app_nil_r in Hall. replace (entriesCache d ds (pos + zlen ds) e) with (entriesCache d R (pos + zlen ds) e) by (by rewrite <- Hall). eexists w', _. rewrite Hc. split; [done|].
    split_and!; [|done|cbn; lia]. split_and!; [done|done|]. cbn. exists pos. constructor; cbn; try done; try lia. rewrite Hleft. do 2 f_equal. lia.
Qed.

(** The window after a read at [pos] of [n] entries. *)
Definition served (pos n : Z) (d : DirentCache) (w : World) : Prop :=
  cached d w /\ exists ds, dirents d = Some ds /\ countRead d = pos + zlen ds /\ take (Z.to_nat n) ds = take (Z.to_nat n) (drop (Z.to_nat pos) listing).
Definition reads (d : DirentCache) (pos n : Z) (w : World) : Prop :=
  exists w' d', DirentCache_Read d pos n w = (w', (d', Ok (take (Z.to_nat n) (drop (Z.to_nat pos) listing), 0))) /\ served pos n d' w'.

Lemma zlen_listing : zlen listing = 2 + zlen entries.
Proof. unfold listing. by rewrite zlen_app, twoDots. Qed.
Lemma drop_dots : drop 2 listing = entries.
Proof. unfold listing. rewrite drop_app_length'; [done|]. unfold zlen in twoDots. lia. Qed.
Lemma served_more d' w' pos n : cached d' w' -> dirents d' = Some (take (Z.to_nat n) (drop (Z.to_nat pos) listing)) ->
  countRead d' = pos + zlen (take (Z.to_nat n) (drop (Z.to_nat pos) listing)) -> served pos n d' w'.
Proof. intros Hc Hd Hn. split; [done|]. eexists. split_and!; [done|done|]. by rewrite take_take, Nat.min_id. Qed.

(** The first read, from the dot entries *)
Lemma read_first d n w : direntFile d = f -> dotEntries d = dots -> left w = entries -> 3 <= n < 2 ^ 32 -> zlen listing < 2 ^ 32 ->
  exists w' d', readMore d dots 2 false (wrap32 (n - 2)) n w = (w', (d', Ok (take (Z.to_nat n) listing, 0))) /\ served 0 n d' w'.
Proof.
  intros Hf Hd Hl Hn Hs. pose proof zlen_listing as Hz. pose proof (zlen_nonneg entries). rewrite wrap32_small by (unfold is_u32; lia).
  destruct (readMore_spec d dots 0 false n w) as (w' & d' & E & Hc & Hd' & Hn'); try done; try lia.
  - constructor; cbn; try lia; try done; [|rewrite Hl, <- drop_dots; f_equal; lia].
    unfold listing. rewrite drop_0. by rewrite take_app_length.
  - exists w', d'. rewrite twoDots in E. split; [exact E|by apply served_more].
Qed.
(** A read in the window *)
Lemma read_window d ds pos n w : direntFile d = f -> dotEntries d = dots -> window pos (entriesCache d ds (countRead d) (eof d)) ds w ->
  3 <= n < 2 ^ 32 -> zlen listing < 2 ^ 32 ->
  exists w' d', (if (n - zlen ds >? 0) && negb (eof d) then readMore d ds (countRead d) (eof d) (n - zlen ds) n w
                 else (w, (entriesCache d ds (countRead d) (eof d), Ok (cachedDirents (entriesCache d ds (countRead d) (eof d)) n, 0)))) =
    (w', (d', Ok (take (Z.to_nat n) (drop (Z.to_nat pos) listing), 0))) /\ served pos n d' w'.
Proof.
  intros Hf Hd Hw Hn Hs. pose proof (win_count _ _ _ _ Hw) as Hc. cbn in Hc. destruct ((_ >? _) && _) eqn:Em.
  - apply andb_true_iff in Em as [Em _]. rewrite Hc in *. destruct (readMore_spec d ds pos (eof d) n w) as (w' & d' & E & Hc' & Hd' & Hn'); try done; try lia.
    exists w', d'. split; [done|]. by apply served_more.
  - pose proof Hw as [Hp _ [Hr1 Hr2] Hds Hl He]. cbn in Hr1, Hr2, He. pose proof (zlen_nonneg ds).
    assert (Ht : take (Z.to_nat n) ds = take (Z.to_nat n) (drop (Z.to_nat pos) listing)).
    { apply andb_false_iff in Em as [Em|Em].
      - rewrite Z.gtb_ltb in Em. apply Z.ltb_ge in Em. rewrite Hds, take_take. f_equal. unfold zlen in *. lia.
      - apply negb_false_iff in Em. specialize (He Em). f_equal. rewrite Hds. apply take_ge. rewrite length_drop. unfold zlen in *. lia. }
    eexists w, _. split.
    + do 4 f_equal. rewrite <- Ht. unfold cachedDirents. cbn. rewrite wrap32_small by (unfold is_u32; lia).
      destruct (Z.eqb_spec (zlen ds) 0) as [E0|]; [apply zlen_0_nil in E0; rewrite E0; by rewrite take_nil|].
      rewrite Z.gtb_ltb. destruct (Z.ltb_spec n (zlen ds)); [done|]. rewrite take_ge; [done|unfold zlen in *; lia].
    + split; [split_and!; try done; by exists pos|]. exists ds. by split_and!.
Qed.
Lemma window_drop start d ds w pos : window start d ds w -> start <= pos <= countRead d ->
  window pos (entriesCache d (drop (Z.to_nat (pos - start)) ds) (countRead d) (eof d)) (drop (Z.to_nat (pos - start)) ds) w.
Proof.
  intros [H1 H2 H3 H4 H5 H6] Hp. pose proof (zlen_nonneg ds). constructor; cbn; try done; try lia; [rewrite zlen_drop; lia|].
  rewrite H4 at 1. rewrite length_drop, skipn_firstn_comm, drop_drop. do 2 f_equal. lia.
Qed.
Lemma window_readable d ds w pos : dirents d = Some ds -> cached d w -> pos <> 0 -> readable d pos ->
  window (countRead d - zlen ds) d ds w /\ countRead d - zlen ds <= pos <= countRead d.
Proof.
  intros Hds (_ & _ & Hc) Hp [->|(ds' & Hds' & Hr)]; [done|]. rewrite Hds in *. injection Hds' as <-. destruct Hc as [start Hw].
  pose proof (win_count _ _ _ _ Hw). split; [|done]. by replace (countRead d - zlen ds) with start by lia.
Qed.

Lemma Read_readable d pos n w : cached d w -> readable d pos -> 0 <= pos -> 3 <= n < 2 ^ 32 -> zlen listing < 2 ^ 32 -> reads d pos n w.
Proof.
  intros Hc Hr Hp Hn Hs. pose proof Hc as (Hf & Hd & Hds). unfold reads, DirentCache_Read. cbn zeta.
  assert (Hle : pos <= countRead d).
  { destruct Hr as [->|(ds & _ & ?)]; [|lia]. destruct (dirents d) as [ds|]; [|lia]. destruct Hds as [start Hw]. pose proof (win_range _ _ _ _ Hw). lia. }
  rewrite Z.gtb_ltb, (proj2 (Z.ltb_ge _ _)) by lia. destruct (Z.eqb_spec pos 0) as [->|Hne]; cbn [andb].
  - change (drop (Z.to_nat 0) listing) with listing. destruct (dirents d) as [ds|] eqn:Eds.
    + rewrite bool_decide_eq_true_2 by done. rewrite Hf. destruct (dir_Seek _ _ _ dir w) as (w' & -> & Hl). cbn [Z.eqb negb].
      rewrite (proj2 (Z.eqb_neq n 0)) by lia. cbn [dirents]. rewrite (proj2 (Z.leb_gt _ _)) by (rewrite wrap32_small; unfold is_u32; lia).
      rewrite Hd. destruct (read_first d n w' Hf Hd Hl Hn Hs) as (w2 & d2 & E & Hsv). exists w2, d2. split; [|exact Hsv]. rewrite <- E.
      unfold readMore, entriesCache. cbn. by rewrite Hf, Hd.
    + rewrite bool_decide_eq_false_2 by (by intros [? ?]). cbn [Z.eqb negb]. rewrite (proj2 (Z.eqb_neq n 0)) by lia. rewrite Eds.
      rewrite (proj2 (Z.leb_gt _ _)) by (rewrite wrap32_small; unfold is_u32; lia). destruct Hds as [_ Hl]. rewrite Hd.
      destruct (read_first d n w Hf Hd Hl Hn Hs) as (w2 & d2 & E & Hsv). exists w2, d2. split; [|exact Hsv]. rewrite <- E.
      unfold readMore, entriesCache. cbn. by rewrite Hf, Hd.
  - cbn [Z.eqb negb]. rewrite (proj2 (Z.eqb_neq n 0)) by lia. destruct (dirents d) as [ds|] eqn:Eds; [|lia].
    destruct (window_readable d ds w pos Eds Hc Hne Hr) as [Hw Hpos]. pose proof (win_start _ _ _ _ Hw). pose proof (win_range _ _ _ _ Hw). pose proof (zlen_nonneg ds).
    rewrite wrap64_small by (unfold is_u64; lia). rewrite (proj2 (Z.ltb_ge _ _)) by lia. rewrite zslice_in by lia.
    pose proof (window_drop _ _ _ _ pos Hw Hpos) as Hw'. destruct (read_window d _ pos n w Hf Hd Hw' Hn Hs) as (w2 & d2 & E & Hsv).
    exists w2, d2. split; [|exact Hsv]. rewrite <- E. unfold readMore, entriesCache. cbn [eof direntFile dotEntries]. by rewrite Hf, Hd.
Qed.
Lemma Read_refused d pos n w : cached d w -> ~ readable d pos -> 0 <= pos -> 0 < n -> zlen listing < 2 ^ 32 ->
  DirentCache_Read d pos n w = (w, (d, Ok ([], ENOENT))).
Proof.
  intros (Hf & Hd & Hds) Hr Hp Hn Hs. unfold DirentCache_Read. cbn zeta. rewrite Z.gtb_ltb. destruct (Z.ltb_spec (countRead d) pos) as [|Hle]; [done|].
  destruct (Z.eqb_spec pos 0) as [->|Hne]; [destruct Hr; by left|]. cbn [andb Z.eqb negb]. rewrite (proj2 (Z.eqb_neq n 0)) by lia.
  destruct (dirents d) as [ds|] eqn:Eds; [|lia]. destruct Hds as [start Hw]. pose proof (win_count _ _ _ _ Hw). pose proof (win_start _ _ _ _ Hw).
  pose proof (win_range _ _ _ _ Hw). pose proof (zlen_nonneg ds). rewrite wrap64_small by (unfold is_u64; lia).
  rewrite (proj2 (Z.ltb_lt _ _)); [done|].
  destruct (Z_lt_dec pos (countRead d - zlen ds)); [done|]. destruct Hr. right. exists ds. split; [done|lia].
Qed.

(** ** A guest that lists the directory *)

(** What [fd_readdir] serves for a cookie: the entries that are whole in the buffer, and the size that it reports.  This is
    the part of [fdReaddirFn] before it writes; [fdReaddir_page] of [WasiDirents] shows that [fdReaddirFn] serves just this,
    with the bytes it writes. *)
Definition page (bufLen pos : Z) (d : DirentCache) (w : World) : World * (DirentCache * res (list Dirent * Z)) :=
  let '(w, (d, r)) := DirentCache_Read d pos (u32 (bufLen / DirentSize + 1 + 1)) w in
  (w, (d, let! (ds, errno) := r in
          if negb (errno =? 0) then Err "errno"
          else
            let! (bufToWrite, direntCount, truncatedLen) := maxDirents ds bufLen in
            Ok (take (Z.to_nat (if truncatedLen >? 0 then direntCount - 1 else direntCount)) ds,
                if truncatedLen >? 0 then bufLen else bufToWrite))).
(** The loop of a guest: read at the cookie after the last whole entry, until the buffer is not full. *)
Fixpoint listAll (fuel : nat) (bufLen pos : Z) (d : DirentCache) (w : World) : option (list Dirent) :=
  match fuel with
  | O => None
  | S fuel' =>
      match page bufLen pos d w with
      | (w, (d, Ok (whole, bufused))) =>
          if bufused <? bufLen then Some whole
          else (fun rest => whole ++ rest) <$> listAll fuel' bufLen (pos + zlen whole) d w
      | _ => None
      end
  end.

Lemma sizeOf_app l l' : sizeOf (l ++ l') = sizeOf l + sizeOf l'.
Proof. induction l as [|x l IH]; [done|]. cbn. lia. Qed.
Lemma sizeOf_length l : 24 * zlen l <= sizeOf l.
Proof. induction l as [|x l IH]; [done|]. rewrite zlen_cons. cbn [sizeOf]. unfold entryLen, DirentSize. pose proof (zlen_nonneg (DirentName x)). lia. Qed.

(** [rest] are all entries from the cookie: a page is the whole rest when it leaves room in the buffer; otherwise it is not
    empty when entries fit the buffer. *)
Lemma page_spec bufLen pos d w : cached d w -> readable d pos -> 0 <= pos -> 24 <= bufLen < 2 ^ 32 -> zlen listing < 2 ^ 32 -> Forall dirent_ok listing ->
  let rest := drop (Z.to_nat pos) listing in
  exists w' d' k bufused, page bufLen pos d w = (w', (d', Ok (take k rest, bufused))) /\
    cached d' w' /\ (k <= length rest)%nat /\ readable d' (pos + Z.of_nat k) /\ (bufused < bufLen -> k = length rest) /\
    (bufused < bufLen \/ k <> 0%nat \/ exists x, rest !! k = Some x /\ bufLen < entryLen x).
Proof.
  intros Hc Hr Hp Hb Hs Hok rest. unfold page. set (n := u32 (bufLen / DirentSize + 1 + 1)).
  assert (Hdiv : bufLen / 24 <= bufLen) by (apply Z.div_le_upper_bound; lia). assert (1 <= bufLen / 24) by (apply Z.div_le_lower_bound; lia).
  pose proof (Z.div_mod bufLen 24 ltac:(lia)). pose proof (Z.mod_pos_bound bufLen 24 ltac:(lia)).
  assert (En : n = bufLen / 24 + 2) by (unfold n; rewrite u32_small; unfold is_u32, DirentSize; lia).
  destruct (Read_readable d pos n w Hc Hr Hp ltac:(lia) Hs) as (w' & d' & E & Hc' & ds & Hds & Hcnt & Hpre). fold rest in E, Hpre. rewrite E. cbn [res_bind Z.eqb negb].
  set (l := take (Z.to_nat n) rest) in *.
  assert (Hl : Forall dirent_ok l) by by apply Forall_take, Forall_drop.
  destruct (maxDirentsLoop_spec l bufLen 0 0 Hl) as (k & Hk & Hsz & Hres); [lia..|]. unfold maxDirents. cbn zeta in Hres.
  assert (Hll : (length l <= length rest)%nat) by (unfold l; rewrite length_take; lia).
  assert (Htk : take k l = take k rest) by (unfold l; rewrite take_take; f_equal; unfold l in Hk; rewrite length_take in Hk; lia).
  assert (Hread : readable d' (pos + Z.of_nat k)).
  { right. exists ds. split; [done|]. assert (length l <= length ds)%nat by (rewrite <- Hpre, length_take; lia). unfold zlen in *. lia. }
  assert (Hz : 24 * Z.of_nat k <= sizeOf (take k l)).
  { pose proof (sizeOf_length (take k l)) as Hz. unfold zlen in Hz. rewrite length_take in Hz. lia. }
  destruct Hres as [[-> Hend]|(-> & Hleft & x & Hx & Hlt)].
  - cbn [res_bind]. change (0 >? 0) with false. cbv iota. rewrite !Z.add_0_l, Nat2Z.id, Htk. rewrite Htk in *. eexists w', d', k, _.
    split; [done|]. split_and!; [done|lia|done| |].
    + intros Hlt. destruct Hend as [Hend|]; [|lia]. subst k. unfold l in *. rewrite length_take in *. lia.
    + destruct Hend as [->|Hend]; [|right; left; intros ->; change (sizeOf (take 0 rest)) with 0 in Hend; lia].
      destruct (Z_lt_dec (sizeOf (take (length l) rest)) bufLen) as [|Hge]; [by left|].
      right; left. intros E0. rewrite E0 in Hge. change (sizeOf (take 0 rest)) with 0 in Hge. lia.
  - cbn [res_bind]. set (tr := Z.min DirentSize _) in *. assert (Htr : 0 < tr) by (unfold tr, DirentSize; lia).
    rewrite Z.gtb_ltb, (proj2 (Z.ltb_lt _ _)) by lia. replace (0 + Z.of_nat k + 1 - 1) with (Z.of_nat k) by lia. rewrite Nat2Z.id, Htk.
    eexists w', d', k, bufLen. split; [done|]. split_and!; [done|lia|done|lia|]. right. destruct k; [right|by left]. exists x. split; [|change (sizeOf (take 0 l)) with 0 in Hlt; lia].
    unfold l in Hx. by apply lookup_take_Some in Hx as [? _].
Qed.

Lemma listAll_from fuel bufLen pos d w : cached d w -> readable d pos -> 0 <= pos -> 24 <= bufLen < 2 ^ 32 -> zlen listing < 2 ^ 32 ->
  Forall (fun x => dirent_ok x /\ entryLen x <= bufLen) listing -> (length (drop (Z.to_nat pos) listing) < fuel)%nat ->
  listAll fuel bufLen pos d w = Some (drop (Z.to_nat pos) listing).
Proof.
  intros Hc Hr Hp Hb Hs Hok. revert pos d w Hc Hr Hp. induction fuel as [|fuel IH]; intros pos d w Hc Hr Hp Hf; [lia|]. cbn [listAll].
  assert (Hok1 : Forall dirent_ok listing) by (eapply Forall_impl; [exact Hok|]; by intros x [? _]).
  destruct (page_spec bufLen pos d w Hc Hr Hp Hb Hs Hok1) as (w' & d' & k & used & -> & Hc' & Hk & Hr' & Hend & Hprog).
  set (rest := drop (Z.to_nat pos) listing) in *. destruct (Z.ltb_spec used bufLen) as [Hlt|Hge].
  - rewrite (Hend Hlt). by rewrite firstn_all.
  - assert (Hk0 : k <> 0%nat).
    { destruct Hprog as [|[|(x & Hx & Hlt)]]; [lia|done|]. apply (Forall_drop _ (Z.to_nat pos)) in Hok. fold rest in Hok.
      pose proof (Forall_lookup_1 _ _ _ _ Hok Hx) as [_ ?]. lia. }
    assert (Ek : zlen (take k rest) = Z.of_nat k) by (unfold zlen; rewrite length_take; lia). rewrite Ek.
    assert (Ed : drop (Z.to_nat (pos + Z.of_nat k)) listing = drop k rest) by (unfold rest; rewrite drop_drop; f_equal; lia).
    rewrite (IH _ _ _ Hc' Hr'); [|lia|rewrite Ed, length_drop; lia]. cbn. rewrite Ed. by rewrite take_drop.
Qed.
End Readdir.

(** C15: reading a directory through [DirentCache] and the pages of [fd_readdir] implements reading its list.  At
    the start or at a cookie in the window a read of three entries or more, as [fd_readdir] always asks for, gives the
    next entries of the list that begins with [.] and [..], of fewer than 2^32 entries, and keeps them as its window; at any other cookie it gives ENOENT and changes nothing.  A guest that reads
    pages of any size of at least 24 bytes, each at the cookie after the last whole entry, until one does not fill
    its buffer, ends after at most one page per entry and one more, and has every entry once, in order, when each fits
    the buffer. *)
Theorem readdir_lists `{HO : Host} (f : File) (entries : list Dirent) (left : World -> list Dirent) (dots : list Dirent) (d : DirentCache) (w : World) :
  directory f entries left -> zlen dots = 2 -> cached f entries left dots d w -> zlen (dots ++ entries) < 2 ^ 32 ->
  (forall pos n, 0 <= pos -> 3 <= n < 2 ^ 32 ->
    (readable d pos -> exists w' d', DirentCache_Read d pos n w = (w', (d', Ok (take (Z.to_nat n) (drop (Z.to_nat pos) (dots ++ entries)), 0))) /\
      served f entries left dots pos n d' w') /\
    (~ readable d pos -> DirentCache_Read d pos n w = (w, (d, Ok ([], ENOENT))))) /\
  (forall bufLen fuel, 24 <= bufLen < 2 ^ 32 -> Forall (fun x => dirent_ok x /\ entryLen x <= bufLen) (dots ++ entries) ->
    (length (dots ++ entries) < fuel)%nat -> listAll fuel bufLen 0 d w = Some (dots ++ entries)).
Proof.
  intros Hdir Hdots Hc Hs. split.
  - intros pos n Hp Hn. split; intros Hr; [by apply (Read_readable f entries left dots Hdir Hdots)|].
    apply (Read_refused f entries left dots); try done. lia.
  - intros bufLen fuel Hb Hok Hf. apply (listAll_from f entries left dots Hdir Hdots); try done. by left.
Qed.

(** ** A directory of two entries *)

Lemma demo_directory : directory (HO := Demo.host) Demo.Directory Demo.contents Demo.left.
Proof. constructor; [intros n w Hn; eexists; split; [done|]; unfold Demo.left; cbn; by rewrite drop_drop|intros w; by eexists]. Qed.

Lemma readdir_lists_witness :
  let dots := [mkDirent 1 dot ModeDir; mkDirent 0 dotdot ModeDir] in
  listAll (HO := Demo.host) 5 26 0 (mkDirentCache (HO := Demo.host) Demo.Directory dots None 0 false) ([], 0%nat) = Some (dots ++ Demo.contents).
Proof.
  cbv zeta. apply (readdir_lists (HO := Demo.host) Demo.Directory Demo.contents Demo.left); [exact demo_directory|done|by split_and!|done|lia| |cbn; lia].
  repeat (apply Forall_cons_2; [split; [split; [by repeat constructor|by vm_compute]|vm_compute; congruence]|]). apply Forall_nil_2.
Defined.
