(* ===== verification/WasiDirents.v ===== *)
(** * WASI: the bytes of fd_readdir (src/imports/wasi_snapshot_preview1/fs.go)

    [fd_readdir] writes directory entries into the memory of the guest: a header of 24
    bytes with the cookie of the next entry, the inode, the length of the name and the
    type, then the name.  The guest parses them back, drops an entry that is cut off, and
    asks for more at the cookie of the last whole one.  This file follows the bytes through
    the memory, on top of the pages of [WasiReaddir]. *)

From S2P Require Import Prelude Types Memory Descriptor GoPath WasiSys Wasi WasiSafe WasiGuest WasiSpec WasiReaddir.

(** ** The encoding *)

Definition direntHeader (dNext : Z) (e : Dirent) : list Z :=
  le_encode 8 dNext ++ le_encode 8 (DirentIno e) ++ le_encode 4 (zlen (DirentName e)) ++ le_encode 4 (getWasiFiletype (DirentType e)).
Fixpoint direntBytes (dNext : Z) (es : list Dirent) : list Z :=
  match es with
  | [] => []
  | e :: es' => direntHeader dNext e ++ DirentName e ++ direntBytes (wrap64 (dNext + 1)) es'
  end.

(** What a guest reads back: [d_next], [d_ino], [d_type] and the name. *)
Record guestDirent := mkGuestDirent { d_next : Z; d_ino : Z; d_type : Z; d_name : list Z }.
Definition toGuest (dNext : Z) (e : Dirent) : guestDirent :=
  mkGuestDirent dNext (DirentIno e) (getWasiFiletype (DirentType e)) (DirentName e).
Fixpoint guestDirents (dNext : Z) (es : list Dirent) : list guestDirent :=
  match es with [] => [] | e :: es' => toGuest dNext e :: guestDirents (dNext + 1) es' end.

(** The parser of a guest: it stops at an entry whose header or name is cut off. *)
Fixpoint parseDirents (fuel : nat) (l : list Z) : list guestDirent :=
  match fuel with
  | O => []
  | S fuel' =>
      if zlen l <? 24 then []
      else
        let n := le_decode (bytesAt l 16 4) in
        if zlen l - 24 <? n then []
        else mkGuestDirent (le_decode (bytesAt l 0 8)) (le_decode (bytesAt l 8 8)) (le_decode (bytesAt l 20 4)) (bytesAt l 24 n)
             :: parseDirents fuel' (drop (Z.to_nat (24 + n)) l)
  end.

(** An entry as the file system gives it; [d_ino] is a [uint64]. *)
Definition entryGiven (e : Dirent) : Prop := dirent_ok e /\ is_u64 (DirentIno e).

Lemma zlen_header dn e : zlen (direntHeader dn e) = 24.
Proof. unfold direntHeader. rewrite !zlen_app, !zlen_le. done. Qed.
Lemma getWasiFiletype_range m : 0 <= getWasiFiletype m < 2 ^ 32.
Proof.
  unfold getWasiFiletype. destruct (IsRegular m); [done|]. destruct (ModeIsDir m); [done|]. destruct (has m ModeSymlink); [done|].
  destruct (has m ModeDevice); [|done]. by destruct (has m ModeCharDevice).
Qed.
Lemma zlen_direntBytes dn es : zlen (direntBytes dn es) = sizeOf es.
Proof.
  revert dn. induction es as [|e es IH]; intros dn; [done|]. cbn [direntBytes sizeOf]. rewrite !zlen_app, zlen_header, IH. unfold entryLen, DirentSize. lia.
Qed.

(** A field of the header, [a] bytes from its start *)
Lemma bytesAt_app l1 v l2 : bytesAt (l1 ++ v ++ l2) (zlen l1) (zlen v) = v.
Proof. unfold bytesAt, zlen. rewrite !Nat2Z.id, drop_app_length. apply take_app_length. Qed.
Lemma parse_header dn e t : entryGiven e -> is_u64 dn ->
  let l := direntHeader dn e ++ t in
  le_decode (bytesAt l 0 8) = dn /\ le_decode (bytesAt l 8 8) = DirentIno e /\ le_decode (bytesAt l 16 4) = zlen (DirentName e) /\
  le_decode (bytesAt l 20 4) = getWasiFiletype (DirentType e).
Proof.
  intros [[_ Hn] Hi] Hd l. pose proof (zlen_nonneg (DirentName e)). pose proof (getWasiFiletype_range (DirentType e)) as Ht. unfold is_u64 in *.
  assert (Hfield : forall l1 n x l2 o m, l = l1 ++ le_encode n x ++ l2 -> o = zlen l1 -> m = Z.of_nat n -> 0 <= x < 2 ^ (8 * Z.of_nat n) -> le_decode (bytesAt l o m) = x).
  { intros l1 n x l2 o m -> -> -> Hx. rewrite <- (zlen_le n x), bytesAt_app. by apply le_decode_encode. }
  unfold l, direntHeader in *. split_and!.
  - eapply (Hfield [] 8%nat dn _ 0 8); [by rewrite <- !app_assoc|done|done|by change (8 * Z.of_nat 8) with 64].
  - eapply (Hfield (le_encode 8 dn) 8%nat (DirentIno e) _ 8 8); [by rewrite <- !app_assoc|by rewrite zlen_le|done|by change (8 * Z.of_nat 8) with 64].
  - eapply (Hfield (le_encode 8 dn ++ le_encode 8 (DirentIno e)) 4%nat (zlen (DirentName e)) _ 16 4);
      [by rewrite <- !app_assoc|by rewrite zlen_app, !zlen_le|done|change (8 * Z.of_nat 4) with 32; lia].
  - eapply (Hfield (le_encode 8 dn ++ le_encode 8 (DirentIno e) ++ le_encode 4 (zlen (DirentName e))) 4%nat (getWasiFiletype (DirentType e)) _ 20 4);
      [by rewrite <- !app_assoc|by rewrite !zlen_app, !zlen_le|done|by change (8 * Z.of_nat 4) with 32].
Qed.
Lemma parse_entry fuel dn e t : entryGiven e -> is_u64 dn ->
  parseDirents (S fuel) (direntHeader dn e ++ DirentName e ++ t) = toGuest dn e :: parseDirents fuel t.
Proof.
  intros He Hd. destruct (parse_header dn e (DirentName e ++ t) He Hd) as (E1 & E2 & E3 & E4). pose proof (zlen_header dn e) as Hh.
  cbn [parseDirents]. rewrite E1, E2, E3, E4. pose proof (zlen_nonneg (DirentName e)). pose proof (zlen_nonneg t).
  rewrite !zlen_app, Hh, !(proj2 (Z.ltb_ge _ _)) by lia. f_equal.
  - unfold toGuest. f_equal. rewrite <- Hh. apply bytesAt_app.
  - f_equal. rewrite app_assoc. rewrite drop_app_length'; [done|]. rewrite length_app. unfold zlen in *. lia.
Qed.
(** A header whose name does not follow *)
Lemma parse_cut fuel dn e t : entryGiven e -> is_u64 dn -> zlen t < zlen (DirentName e) -> parseDirents fuel (direntHeader dn e ++ t) = [].
Proof.
  intros He Hd Ht. destruct fuel; [done|]. destruct (parse_header dn e t He Hd) as (_ & _ & E3 & _). cbn [parseDirents]. rewrite E3, !zlen_app, zlen_header.
  pose proof (zlen_nonneg t). rewrite (proj2 (Z.ltb_ge (24 + _) _)), (proj2 (Z.ltb_lt _ _)) by lia. done.
Qed.
Lemma parse_short fuel l : zlen l < 24 -> parseDirents fuel l = [].
Proof. intros Hl. destruct fuel; [done|]. cbn [parseDirents]. by rewrite (proj2 (Z.ltb_lt _ _)). Qed.
Lemma parse_entries fuel dn es t : Forall entryGiven es -> 0 <= dn -> dn + zlen es < 2 ^ 64 -> (length es <= fuel)%nat ->
  parseDirents fuel (direntBytes dn es ++ t) = guestDirents dn es ++ parseDirents (fuel - length es) t.
Proof.
  intros Hes. revert fuel dn. induction Hes as [|e es He Hes IH]; intros fuel dn Hd Hs Hf; [by rewrite Nat.sub_0_r|].
  rewrite zlen_cons in Hs. pose proof (zlen_nonneg es). destruct fuel as [|fuel]; [cbn in Hf; lia|]. cbn [direntBytes guestDirents length app].
  rewrite <- !app_assoc, parse_entry by (try done; unfold is_u64; lia). f_equal. rewrite wrap64_small by (unfold is_u64; lia).
  rewrite IH by (cbn in Hf; lia). f_equal.
Qed.

(** ** Writing the entries *)

Section Dirents.
Context `{HO : Host}.

Lemma bindH_done {A B} (c : H A) (k : A -> H B) h h' a : c h = (h', Returns a) -> (c ≫= k) h = k a h'.
Proof. unfold mbind, H_bind. by intros ->. Qed.
Lemma withBuffer_id h : withBuffer (Buffer (mem h)) h = h.
Proof. by destruct h as [[] ? ? ?]. Qed.

Lemma writeDirent_spec buf pos dn e h : 0 <= lo buf -> 0 <= pos -> pos + 24 <= vlen buf -> lo buf + vlen buf <= zlen (Buffer (mem h)) ->
  writeDirent buf pos dn (DirentIno e) (zlen (DirentName e)) (DirentType e) h =
  (withBuffer (stored (Buffer (mem h)) (lo buf + pos) (direntHeader dn e)) h, Returns tt).
Proof.
  intros Hlo Hp Hv Hm. unfold writeDirent, mbind, H_bind. set (l := Buffer (mem h)) in *.
  assert (Hs : forall b, lo buf + pos + zlen b <= zlen l -> zlen (stored l (lo buf + pos) b) = zlen l) by (intros; apply zlen_stored; lia).
  rewrite putV_spec by (try fold l; lia). fold l. set (b0 := le_encode 8 dn). assert (E0 : zlen b0 = 8) by apply zlen_le.
  rewrite putV_spec; rewrite ?Buffer_with, ?Hs by lia; try lia. rewrite with_with. set (b1 := le_encode 8 _). assert (E1 : zlen b1 = 8) by apply zlen_le.
  replace (lo buf + (pos + 8)) with (lo buf + pos + zlen b0) by lia. rewrite stored_stored by lia.
  assert (E01 : zlen (b0 ++ b1) = 16) by (rewrite zlen_app; lia).
  rewrite putV_spec; rewrite ?Buffer_with, ?Hs by lia; try lia. rewrite with_with. set (b2 := le_encode 4 (zlen _)). assert (E2 : zlen b2 = 4) by apply zlen_le.
  replace (lo buf + (pos + 16)) with (lo buf + pos + zlen (b0 ++ b1)) by lia. rewrite stored_stored by lia.
  assert (E02 : zlen ((b0 ++ b1) ++ b2) = 20) by (rewrite zlen_app; lia).
  rewrite putV_spec; rewrite ?Buffer_with, ?Hs by lia; try lia. rewrite with_with. set (b3 := le_encode 4 _). assert (E3 : zlen b3 = 4) by apply zlen_le.
  replace (lo buf + (pos + 20)) with (lo buf + pos + zlen ((b0 ++ b1) ++ b2)) by lia. rewrite stored_stored by lia.
  unfold direntHeader. fold b0 b1 b2 b3. by rewrite <- !app_assoc.
Qed.

(** The bytes of the loop; the name of entry [skip] is left out. *)
Fixpoint loopBytes (n : nat) (l : list Dirent) (i dn skip : Z) : list Z :=
  match n, l with
  | S n', d :: l' => direntHeader dn d ++ (if i =? skip then [] else DirentName d) ++ loopBytes n' l' (i + 1) (wrap64 (dn + 1)) skip
  | _, _ => []
  end.
Lemma zlen_loopBytes n l i dn skip : zlen (loopBytes n l i dn skip) = need n l i skip.
Proof.
  revert l i dn. induction n as [|n IH]; intros [|d l] i dn; try done. cbn [loopBytes need]. rewrite !zlen_app, zlen_header, IH. unfold DirentSize.
  destruct (i =? skip); [change (zlen []) with 0|]; lia.
Qed.
Lemma loopBytes_full n l i dn skip : skip < i -> loopBytes n l i dn skip = direntBytes dn (take n l).
Proof.
  revert l i dn. induction n as [|n IH]; intros [|d l] i dn Hi; try done. cbn [loopBytes take direntBytes]. rewrite (proj2 (Z.eqb_neq _ _)) by lia.
  by rewrite IH by lia.
Qed.
Lemma loopBytes_last n l i dn d : 0 <= dn -> dn + Z.of_nat n < 2 ^ 64 -> l !! n = Some d ->
  loopBytes (S n) l i dn (i + Z.of_nat n) = direntBytes dn (take n l) ++ direntHeader (dn + Z.of_nat n) d.
Proof.
  revert l i dn. induction n as [|n IH]; intros [|d' l] i dn Hd Hs Hl; try done.
  - cbn in Hl. injection Hl as ->. cbn [loopBytes take direntBytes app]. replace (i + Z.of_nat 0) with i by lia. rewrite Z.eqb_refl.
    replace (dn + Z.of_nat 0) with dn by lia. by rewrite !app_nil_r.
  - cbn in Hl. change (loopBytes (S (S n)) (d' :: l) i dn (i + Z.of_nat (S n))) with
      (direntHeader dn d' ++ (if i =? i + Z.of_nat (S n) then [] else DirentName d') ++ loopBytes (S n) l (i + 1) (wrap64 (dn + 1)) (i + Z.of_nat (S n))).
    rewrite (proj2 (Z.eqb_neq _ _)) by lia. rewrite wrap64_small by (unfold is_u64; lia).
    replace (i + Z.of_nat (S n)) with (i + 1 + Z.of_nat n) by lia. rewrite IH by (try done; lia). cbn [take direntBytes].
    rewrite wrap64_small by (unfold is_u64; lia). rewrite <- !app_assoc. do 4 f_equal. lia.
Qed.

Lemma writeDirentsLoop_spec n buf ds i dn pos skip h : 0 <= lo buf -> vlen buf < 2 ^ 32 -> lo buf + vlen buf <= zlen (Buffer (mem h)) ->
  Forall dirent_ok ds -> 0 <= i -> 0 <= pos -> (n <= length (drop (Z.to_nat i) ds))%nat -> pos + need n (drop (Z.to_nat i) ds) i skip <= vlen buf ->
  writeDirentsLoop n buf ds i dn pos skip h =
  (withBuffer (stored (Buffer (mem h)) (lo buf + pos) (loopBytes n (drop (Z.to_nat i) ds) i dn skip)) h, Returns tt).
Proof.
  intros Hlo Hu Hm Hds. revert i dn pos h Hm. induction n as [|n IH]; intros i dn pos h Hm Hi Hp Hn Hneed.
  { cbn [loopBytes]. rewrite stored_nil. by rewrite withBuffer_id. }
  cbn [writeDirentsLoop]. destruct (drop (Z.to_nat i) ds) as [|d l] eqn:Ed; [cbn in Hn; lia|].
  assert (Hd : zlookup ds i = Some d).
  { unfold zlookup. rewrite (proj2 (Z.leb_le _ _)) by lia. rewrite <- (Nat.add_0_r (Z.to_nat i)), <- lookup_drop, Ed. done. }
  unfold zindex. rewrite Hd. cbn [need loopBytes] in *.
  assert (Hok : dirent_ok d). { unfold zlookup in Hd. destruct (0 <=? i); [|done]. by eapply Forall_lookup_1. }
  destruct Hok as [Hb Hl]. pose proof (need_nonneg n l (i + 1) skip) as Hnn. pose proof (zlen_nonneg (DirentName d)). unfold DirentSize in *.
  assert (Hl32 : u32 (zlen (DirentName d)) = zlen (DirentName d)) by (apply u32_small; unfold is_u32; lia).
  assert (Ep : u32 (pos + 24) = pos + 24) by (apply u32_small; unfold is_u32 in *; destruct (_ =? _); lia).
  assert (El : drop (Z.to_nat (i + 1)) ds = l).
  { replace (Z.to_nat (i + 1)) with (Z.to_nat i + 1)%nat by lia. by rewrite <- drop_drop, Ed. }
  assert (Hpos : pos + 24 <= vlen buf) by (destruct (_ =? _); lia).
  unfold mbind, H_bind at 1. cbn [liftH]. unfold H_bind at 1. rewrite Hl32, writeDirent_spec by lia. rewrite Ep.
  set (l1 := stored (Buffer (mem h)) _ _). pose proof (zlen_header dn d) as Hh.
  assert (Hl1 : zlen l1 = zlen (Buffer (mem h))) by (apply zlen_stored; lia).
  assert (Hn' : (n <= length (drop (Z.to_nat (i + 1)) ds))%nat) by (rewrite El; cbn in Hn; lia). rewrite <- El in Hneed, Hnn |- *.
  pose proof (zlen_loopBytes n (drop (Z.to_nat (i + 1)) ds) (i + 1) (wrap64 (dn + 1)) skip) as Hlb.
  destruct (i =? skip); cbn [negb].
  - rewrite IH; rewrite ?Buffer_with; try lia. rewrite with_with. unfold l1. replace (lo buf + (pos + 24)) with (lo buf + pos + zlen (direntHeader dn d)) by lia.
    rewrite stored_stored by lia. done.
  - unfold H_bind. rewrite copyV_spec; rewrite ?Buffer_with; try lia. rewrite with_with. unfold l1.
    replace (lo buf + (pos + 24)) with (lo buf + pos + zlen (direntHeader dn d)) by lia. rewrite stored_stored by lia.
    rewrite (u32_small (pos + 24 + zlen (DirentName d))) by (unfold is_u32 in *; lia).
    assert (Hl2 : zlen (direntHeader dn d ++ DirentName d) = 24 + zlen (DirentName d)) by (rewrite zlen_app; lia).
    rewrite IH; rewrite ?Buffer_with, ?zlen_stored; try lia. rewrite with_with.
    replace (lo buf + (pos + 24 + zlen (DirentName d))) with (lo buf + pos + zlen (direntHeader dn d ++ DirentName d)) by lia.
    rewrite stored_stored by lia. by rewrite <- app_assoc.
Qed.

(** The image of the entries in the buffer of [bufLen] bytes, as the guest parses it: the whole entries. *)
Lemma writeDirents_spec b ds bufLen dn w c tr h : Forall entryGiven ds -> is_u32 bufLen -> maxDirents ds bufLen = Ok (w, c, tr) ->
  0 <= b -> b + bufLen <= zlen (Buffer (mem h)) -> 0 <= dn -> dn + zlen ds < 2 ^ 64 ->
  let used := if tr >? 0 then bufLen else w in
  let whole := take (Z.to_nat (if tr >? 0 then c - 1 else c)) ds in
  0 <= w <= used /\ used <= bufLen /\ sizeOf whole <= used /\
  exists img, writeDirents (mkView b w) ds dn c tr h = (withBuffer (stored (Buffer (mem h)) b img) h, Returns tt) /\ zlen img <= w /\
    forall t fuel, zlen t = used - zlen img -> (length whole <= fuel)%nat -> parseDirents fuel (img ++ t) = guestDirents dn whole.
Proof.
  intros Hnd Hu Hm Hb Hmem Hd Hs. assert (Hds : Forall dirent_ok ds) by (eapply Forall_impl; [exact Hnd|]; by intros x [? _]).
  unfold maxDirents in Hm. unfold is_u32 in Hu. pose proof (zlen_nonneg ds).
  destruct (maxDirentsLoop_spec ds bufLen 0 0 Hds) as (k & Hk & Hsz & Hres); [lia..|]. cbn zeta in Hres. unfold writeDirents.
  pose proof (sizeOf_nonneg (take k ds)) as Hsz0. assert (Hlen : length (take k ds) = k) by (rewrite length_take; lia).
  assert (Hw : Forall entryGiven (take k ds)) by by apply Forall_take.
  assert (Hkd : dn + zlen (take k ds) < 2 ^ 64) by (unfold zlen in *; lia).
  pose proof (zlen_direntBytes dn (take k ds)) as Hz.
  destruct Hres as [[E _]|(E & Hleft & d & Hd' & Hlt)]; rewrite E in Hm; injection Hm as <- <- <-.
  - cbn [Z.gtb Z.compare]. cbv zeta. replace (Z.to_nat (0 + Z.of_nat k)) with k by lia. split_and!; try lia.
    exists (direntBytes dn (take k ds)). rewrite writeDirentsLoop_spec; cbn [lo vlen Z.to_nat]; rewrite ?drop_0, ?need_full; try done; try lia.
    rewrite Z.add_0_r, loopBytes_full by lia. split_and!; [done|lia|]. intros t fuel Ht Hf.
    rewrite parse_entries by (try done; lia). rewrite parse_short by lia. apply app_nil_r.
  - set (lft := bufLen - _) in *. rewrite Z.gtb_ltb, (proj2 (Z.ltb_lt _ _)) by (unfold DirentSize; lia). cbv zeta.
    apply lookup_lt_Some in Hd' as Hlk. replace (Z.to_nat (0 + Z.of_nat k + 1 - 1)) with k by lia. unfold DirentSize in *. split_and!; try lia.
    destruct (Z.ltb_spec (Z.min 24 lft) 24).
    + exists (direntBytes dn (take k ds)). replace (Z.to_nat (0 + Z.of_nat k + 1 - 1)) with k by lia.
      rewrite writeDirentsLoop_spec; cbn [lo vlen Z.to_nat]; rewrite ?drop_0, ?need_full; try done; try lia.
      rewrite Z.add_0_r, loopBytes_full by lia. split_and!; [done|lia|]. intros t fuel Ht Hf.
      rewrite parse_entries by (try done; lia). rewrite parse_short by lia. apply app_nil_r.
    + exists (direntBytes dn (take k ds) ++ direntHeader (dn + Z.of_nat k) d). pose proof (zlen_header (dn + Z.of_nat k) d) as Hh.
      replace (Z.to_nat (0 + Z.of_nat k + 1)) with (S k) by lia. replace (0 + Z.of_nat k + 1 - 1) with (0 + Z.of_nat k) by lia.
      pose proof (need_last k ds 0 d Hd') as Hnl. unfold DirentSize in Hnl.
      rewrite writeDirentsLoop_spec; cbn [lo vlen Z.to_nat]; rewrite ?drop_0; try done; try lia.
      rewrite Z.add_0_r, (loopBytes_last k ds 0 dn d) by (try done; unfold zlen in *; lia). split_and!; [done|rewrite zlen_app; lia|].
      intros t fuel Ht Hf. rewrite zlen_app in Ht. rewrite <- app_assoc, parse_entries by (try done; lia).
      rewrite parse_cut; [apply app_nil_r|exact (Forall_lookup_1 _ _ _ _ Hnd Hd')|unfold is_u64, zlen in *; lia|]. unfold entryLen, DirentSize in Hlt. lia.
Qed.

(** [n] bytes where [img] was stored start with it. *)
Lemma bytesAt_stored l b img n : 0 <= b -> zlen img <= n -> b + n <= zlen l ->
  exists t, bytesAt (stored l b img) b n = img ++ t /\ zlen t = n - zlen img.
Proof.
  intros Hb Hi Hl. pose proof (zlen_nonneg img). exists (take (Z.to_nat (n - zlen img)) (drop (Z.to_nat (b + zlen img)) l)). split.
  - unfold bytesAt, stored. rewrite drop_app_length' by (rewrite length_take; unfold zlen in *; lia).
    rewrite take_app_ge by (unfold zlen in *; lia). do 2 f_equal. unfold zlen. lia.
  - rewrite zlen_take, zlen_drop. lia.
Qed.

(** The buffer of [bufLen] bytes at [b] and the four bytes at [r] are two parts of the memory,
    and the buffer does not end at the last byte of 65536 pages. *)
Definition buffers (h : hostState) (b bufLen r : Z) : Prop :=
  zlen (Buffer (mem h)) <= 2 ^ 32 /\ 0 <= b /\ b + bufLen <= zlen (Buffer (mem h)) /\ b + bufLen < 2 ^ 32 /\
  0 <= r /\ r + 4 <= zlen (Buffer (mem h)) /\ apart b bufLen r 4.

Lemma writeUint32_spec r v h : 0 <= r -> r + 4 <= zlen (Buffer (mem h)) -> zlen (Buffer (mem h)) <= 2 ^ 32 ->
  writeMem EFAULT (fun m => WriteUint32Le m r v) h = (withBuffer (stored (Buffer (mem h)) r (le_encode 4 v)) h, Returns tt).
Proof.
  intros Hr Hl Hm. unfold writeMem, WriteUint32Le, writeUint32Le, writeWith. rewrite hasSize_spec by (unfold is_u32; lia).
  rewrite (proj2 (Z.leb_le _ _)) by lia. cbn [negb]. unfold putUint. rewrite zslice_in by lia. cbn [res_bind].
  rewrite (proj2 (Z.leb_le _ _)) by (rewrite zlen_drop; lia). rewrite copyAt_in by (rewrite ?zlen_le; lia). done.
Qed.

(** What the guest finds after a page. *)
Record shown (h h' : hostState) (b bufLen r cookie : Z) (whole : list Dirent) (used : Z) : Prop := {
  shown_size : zlen (Buffer (mem h')) = zlen (Buffer (mem h));
  shown_used : le_decode (bytesAt (Buffer (mem h')) r 4) = used;
  shown_entries : parseDirents (Z.to_nat used) (bytesAt (Buffer (mem h')) b used) = guestDirents (cookie + 1) whole;
  shown_frame : forall o n, 0 <= o -> 0 <= n -> apart b bufLen o n -> apart r 4 o n ->
    bytesAt (Buffer (mem h')) o n = bytesAt (Buffer (mem h)) o n;
}.

Lemma shown_stored h h0 b bufLen r cookie img whole used : buffers h b bufLen r -> zlen img <= used -> used <= bufLen -> 0 <= used < 2 ^ 32 ->
  mem h0 = mem h -> sizeOf whole <= used ->
  (forall t fuel, zlen t = used - zlen img -> (length whole <= fuel)%nat -> parseDirents fuel (img ++ t) = guestDirents (cookie + 1) whole) ->
  shown h (withBuffer (stored (stored (Buffer (mem h)) b img) r (le_encode 4 used)) h0) b bufLen r cookie whole used.
Proof.
  intros (Hm & Hb & Hbl & Hb32 & Hr & Hrl & Ha) Hi Hu Hu32 E Hw Hp. unfold apart in Ha. pose proof (zlen_nonneg img). pose proof (zlen_le 4 used) as E4. pose proof (sizeOf_length whole).
  assert (Hs : zlen (stored (Buffer (mem h)) b img) = zlen (Buffer (mem h))) by (apply zlen_stored; lia).
  constructor; rewrite Buffer_with.
  - rewrite zlen_stored; lia.
  - pose proof (stored_same (stored (Buffer (mem h)) b img) r (le_encode 4 used)) as Es. rewrite E4 in Es. change (Z.of_nat 4) with 4 in *. rewrite Es by lia. apply le_decode_encode. change (8 * Z.of_nat 4) with 32. lia.
  - rewrite stored_other by lia. destruct (bytesAt_stored (Buffer (mem h)) b img used) as (t & -> & Ht); [lia..|]. apply Hp; [done|unfold zlen in *; lia].
  - unfold apart. intros o n Ho Hn A1 A2. rewrite stored_other by lia. apply stored_other; lia.
Qed.

Lemma fdReaddir_page fd b bufLen cookie r h h1 e d w' d' ds :
  wf (openedFiles h) -> 0 <= fd < 2 ^ 31 -> at_key (openedFiles h) fd = Some (Some e) ->
  openDirentCache fd e h = (h1, Returns d) -> mem h1 = mem h -> 24 <= bufLen < 2 ^ 32 -> 0 <= cookie -> cookie + 1 + zlen ds < 2 ^ 64 ->
  DirentCache_Read d cookie (u32 (bufLen / DirentSize + 1 + 1)) (world h1) = (w', (d', Ok (ds, 0))) -> Forall entryGiven ds -> buffers h b bufLen r ->
  exists whole used h', page bufLen cookie d (world h1) = (w', (d', Ok (whole, used))) /\
    fdReaddirFn [fd; b; bufLen; cookie; r] h = (h', Returns tt) /\ world h' = w' /\
    openedFiles h' = mkTable (masks (openedFiles h1)) (<[Z.to_nat fd := Some (withCache e d')]> (items (openedFiles h1))) /\
    shown h h' b bufLen r cookie whole used.
Proof.
  intros Hwf Hfd He Ho Em Hbl Hc Hcs HR Hds Hbuf. pose proof Hbuf as (Hm & Hb & Hb1 & Hb32 & Hr & Hr4 & _). pose proof (zlen_nonneg ds).
  assert (Hok : Forall dirent_ok ds) by (eapply Forall_impl; [exact Hds|]; by intros x [? _]).
  destruct (maxDirents_ok ds bufLen Hok) as (w & c & tr & Hmax & Hw32); [unfold is_u32; lia|].
  set (h2 := set_files (mkTable (masks (openedFiles h1)) (<[Z.to_nat fd := Some (withCache e d')]> (items (openedFiles h1)))) (set_world w' h1)).
  assert (Em2 : mem h2 = mem h) by done.
  destruct (writeDirents_spec b ds bufLen (cookie + 1) w c tr h2 Hds) as (Hwu & Hub & Hsz & img & Hwr & Himg & Hparse);
    [unfold is_u32; lia|done|done|by rewrite Em2|lia|lia|]. rewrite Em2 in Hwr.
  set (used := if tr >? 0 then bufLen else w) in *. set (whole := take _ ds) in *.
  exists whole, used, (withBuffer (stored (stored (Buffer (mem h)) b img) r (le_encode 4 used)) h2). split_and!; try done.
  - unfold page. rewrite HR. cbn [Z.eqb negb res_bind]. by rewrite Hmax.
  - assert (Efd : i32 fd = fd) by (apply sgn_small; cbn; lia).
    assert (E : forall n, fdReaddirFn [fd; b; n; cookie; r] h =
      (if u32 n <? DirentSize then failH EINVAL
       else e ← lookupOr EBADF (i32 fd); dir ← openDirentCache (i32 fd) e;
         '(dir, read) ← worldH (DirentCache_Read dir cookie (u32 (u32 n / DirentSize + 1 + 1)));
         _ ← updateEntry (i32 fd) (withCache e dir); '(ds, errno) ← liftH read; _ ← checkErrno errno;
         '(bufToWrite, direntCount, truncatedLen) ← liftH (maxDirents ds (u32 n));
         _ ← (if bufToWrite >? 0 then buf ← readView EFAULT (u32 b) bufToWrite; writeDirents buf ds (wrap64 (cookie + 1)) direntCount truncatedLen
              else mret tt);
         writeMem EFAULT (fun m => WriteUint32Le m (u32 r) (if truncatedLen >? 0 then u32 n else bufToWrite))) h) by done.
    rewrite E, Efd, !u32_small by (unfold is_u32; lia). clear E. unfold DirentSize at 1. rewrite (proj2 (Z.ltb_ge _ _)) by lia.
    erewrite bindH_done by (unfold lookupOr; erewrite bindH_done by (by apply (LookupFile_spec fd h _ Hwf He)); reflexivity).
    erewrite bindH_done by exact Ho. erewrite bindH_done by (unfold worldH; rewrite HR; reflexivity). cbn beta iota.
    erewrite bindH_done by reflexivity. erewrite bindH_done by reflexivity. cbn beta iota. erewrite bindH_done by reflexivity.
    rewrite Hmax. erewrite bindH_done by reflexivity. cbn beta iota. fold h2. fold used. rewrite wrap64_small by (unfold is_u64; lia).
    erewrite (bindH_done _ _ h2 (withBuffer (stored (Buffer (mem h)) b img) h2) tt).
    + rewrite writeUint32_spec; rewrite ?Buffer_with, ?zlen_stored; try lia. by rewrite with_with.
    + rewrite Z.gtb_ltb. destruct (Z.ltb_spec 0 w) as [Hpos|Hz].
      * erewrite bindH_done; [exact Hwr|]. rewrite readView_spec by (rewrite ?Em2; unfold is_u32; lia). rewrite Em2.
        by rewrite (proj2 (Z.ltb_ge _ _)), (proj2 (Z.eqb_neq _ _)) by lia.
      * assert (Ei : img = []) by (apply zlen_0_nil; pose proof (zlen_nonneg img); lia). rewrite Ei, stored_nil, <- Em2. by rewrite withBuffer_id.
  - apply shown_stored; try done; lia.
Qed.
End Dirents.

(** ** A guest that lists a directory through its memory *)

(** A directory whose kind and inode can be asked without moving it. *)
Record listable `{HO : Host} (f : File) (entries : list Dirent) (left : World -> list Dirent) (ino : Z) : Prop := {
  ls_dir : directory f entries left;
  ls_IsDir : forall w, exists w', File_IsDir f w = (w', (true, 0)) /\ left w' = left w;
  ls_Ino : forall w, exists w', File_Ino f w = (w', (ino, 0)) /\ left w' = left w;
}.

(** Call [fd_readdir], parse the bytes that it reports, and go on at the cookie of the last whole entry while the buffer is full. *)
Fixpoint guestList `{HO : Host} (fuel : nat) (fd b bufLen r cookie : Z) (h : hostState) : option (hostState * list guestDirent) :=
  match fuel with
  | O => None
  | S fuel' =>
      match fdReaddirFn [fd; b; bufLen; cookie; r] h with
      | (h', Returns _) =>
          let used := le_decode (bytesAt (Buffer (mem h')) r 4) in
          let es := parseDirents (Z.to_nat used) (bytesAt (Buffer (mem h')) b used) in
          if used <? bufLen then Some (h', es)
          else prod_map id (fun rest => es ++ rest) <$> guestList fuel' fd b bufLen r (match last es with Some x => d_next x | None => cookie end) h'
      | _ => None
      end
  end.

Lemma guestDirents_app c l l' : guestDirents c (l ++ l') = guestDirents c l ++ guestDirents (c + zlen l) l'.
Proof.
  revert c. induction l as [|x l IH]; intros c; [cbn; f_equal; change (zlen []) with 0; lia|]. rewrite zlen_cons. cbn. rewrite IH. do 3 f_equal. lia.
Qed.
Lemma last_next c l k : l <> [] -> match last (guestDirents (c + 1) l) with Some x => d_next x | None => k end = c + zlen l.
Proof.
  intros Hl. destruct (exists_last Hl) as (l' & x & ->). rewrite guestDirents_app, zlen_app. cbn [guestDirents]. rewrite last_snoc. cbn.
  change (zlen [x]) with 1. lia.
Qed.

Section Guest.
Context `{HO : Host} (f : File) (entries : list Dirent) (left : World -> list Dirent) (ino : Z) (dir : listable f entries left ino).
Context (fd b bufLen r : Z) (fdRange : 0 <= fd < 2 ^ 31) (bufRange : 24 <= bufLen < 2 ^ 32).

Definition dotsOf : list Dirent := [mkDirent ino dot ModeDir; mkDirent 0 dotdot ModeDir].
Definition all : list Dirent := dotsOf ++ entries.
Context (few : zlen all < 2 ^ 32) (fit : Forall (fun x => entryGiven x /\ entryLen x <= bufLen) all).

(** The descriptor is the directory; it is at its start, or its cache can be read at the cookie. *)
Definition serving (h : hostState) (cookie : Z) : Prop :=
  wf (openedFiles h) /\ 0 <= cookie <= zlen all /\ buffers h b bufLen r /\
  exists e, at_key (openedFiles h) fd = Some (Some e) /\ EntryFile e = f /\
    match direntCache e with
    | None => left (world h) = entries /\ cookie = 0
    | Some d => cached f entries left dotsOf d (world h) /\ readable d cookie
    end.

Lemma serving_opens h cookie : serving h cookie -> exists e h1 d, at_key (openedFiles h) fd = Some (Some e) /\ EntryFile e = f /\
  openDirentCache fd e h = (h1, Returns d) /\ mem h1 = mem h /\ wf (openedFiles h1) /\ is_Some (at_key (openedFiles h1) fd) /\
  cached f entries left dotsOf d (world h1) /\ readable d cookie.
Proof using dir fdRange.
  intros (Hw & _ & _ & e & He & Hf & Hc). unfold openDirentCache, getDirentCache. exists e. destruct (direntCache e) as [d|] eqn:Ed.
  - exists h, d. split_and!; try done; [apply Hc|apply Hc].
  - destruct Hc as [Hl ->]. destruct (ls_IsDir _ _ _ _ dir (world h)) as (w1 & E1 & Hl1). destruct (ls_Ino _ _ _ _ dir w1) as (w2 & E2 & Hl2).
    rewrite Hf. erewrite bindH_done by (unfold checkedH; erewrite bindH_done by (unfold worldH; rewrite E1; reflexivity); reflexivity). cbn [negb].
    erewrite bindH_done. 2: { unfold synthesizeDotEntries. rewrite Hf. erewrite bindH_done; [reflexivity|].
      unfold checkedH; erewrite bindH_done by (unfold worldH; cbn; rewrite E2; reflexivity); reflexivity. }
    eexists _, _. split_and!; try done; cbn.
    + by apply wf_update.
    + rewrite at_key_update; [|done|lia|by eexists]. rewrite decide_True by done. by eexists.
    + split_and!; try done. cbn. split; [done|congruence].
    + by left.
Qed.

(** One call: the whole entries, and the state in which the next one is made. *)
Lemma serving_step h cookie : serving h cookie ->
  let rest := drop (Z.to_nat cookie) all in
  exists k used h', fdReaddirFn [fd; b; bufLen; cookie; r] h = (h', Returns tt) /\ shown h h' b bufLen r cookie (take k rest) used /\
    serving h' (cookie + Z.of_nat k) /\ (k <= length rest)%nat /\ (used < bufLen -> k = length rest) /\ (used < bufLen \/ k <> 0%nat).
Proof using dir fdRange bufRange few fit.
  intros Hs rest. destruct (serving_opens h cookie Hs) as (e & h1 & d & He & Hf & Ho & Em & Hw1 & H1 & Hc & Hr).
  pose proof Hs as (Hw & Hck & Hbuf & _). pose proof (ls_dir _ _ _ _ dir) as Hdir.
  assert (Hdiv : bufLen / 24 <= bufLen) by (apply Z.div_le_upper_bound; lia). assert (1 <= bufLen / 24) by (apply Z.div_le_lower_bound; lia).
  assert (bufLen / 24 <= 2 ^ 32 / 24) by (apply Z.div_le_mono; lia). change (2 ^ 32 / 24) with 178956970 in *.
  assert (Hn : u32 (bufLen / DirentSize + 1 + 1) = bufLen / 24 + 2) by (rewrite u32_small; unfold is_u32, DirentSize; lia).
  assert (Hgiven : Forall entryGiven all) by (eapply Forall_impl; [exact fit|]; by intros x [? _]).
  assert (Hdok : Forall dirent_ok all) by (eapply Forall_impl; [exact Hgiven|]; by intros x [? _]).
  destruct (Read_readable f entries left dotsOf Hdir eq_refl d cookie (u32 (bufLen / DirentSize + 1 + 1)) (world h1) Hc Hr ltac:(lia) ltac:(lia) few)
    as (w' & d' & ER & Hc' & _). set (ds := take _ _) in ER.
  assert (Hds : Forall entryGiven ds) by by apply Forall_take, Forall_drop. assert (zlen ds <= zlen all) by (unfold ds, zlen; rewrite length_take, length_drop; unfold listing, all; lia).
  destruct (fdReaddir_page fd b bufLen cookie r h h1 e d w' d' ds Hw fdRange He Ho Em bufRange ltac:(lia) ltac:(lia) ER Hds Hbuf)
    as (whole & used & h' & Ep & Ef & Ew & Et & Hsh).
  destruct (page_spec f entries left dotsOf Hdir eq_refl bufLen cookie d (world h1) Hc Hr ltac:(lia) bufRange few Hdok)
    as (w2 & d2 & k & used2 & Ep2 & Hc2 & Hk & Hr2 & Hend & Hprog). rewrite Ep in Ep2. injection Ep2 as <- <- -> <-.
  change (listing entries dotsOf) with all in Hk, Hend, Hprog, Hsh. fold rest in Hk, Hend, Hprog, Hsh. exists k, used, h'. split_and!; try done.
  - assert (Hz : Z.of_nat k <= zlen rest) by (unfold zlen; lia). unfold rest, zlen in Hz. rewrite length_drop in Hz. unfold zlen in Hck.
    split_and!; [rewrite Et; by apply wf_update|lia|unfold zlen; lia| |].
    + destruct Hbuf as (B1 & B2 & B3 & B4 & B5 & B6 & B7). unfold buffers. by rewrite (shown_size _ _ _ _ _ _ _ _ Hsh).
    + exists (withCache e d'). rewrite Et, at_key_update by (done || lia). rewrite decide_True by done. split_and!; try done. cbn. by rewrite Ew.
  - destruct Hprog as [?|[?|(x & Hx & Hlt)]]; [by left|by right|]. exfalso. unfold rest in Hx. rewrite lookup_drop in Hx.
    pose proof (Forall_lookup_1 _ _ _ _ fit Hx) as [_ ?]. lia.
Qed.

Lemma guestList_from fuel h cookie : serving h cookie -> (length (drop (Z.to_nat cookie) all) < fuel)%nat ->
  exists h', guestList fuel fd b bufLen r cookie h = Some (h', guestDirents (cookie + 1) (drop (Z.to_nat cookie) all)) /\
    forall o n, 0 <= o -> 0 <= n -> apart b bufLen o n -> apart r 4 o n -> bytesAt (Buffer (mem h')) o n = bytesAt (Buffer (mem h)) o n.
Proof using dir fdRange bufRange few fit.
  revert h cookie. induction fuel as [|fuel IH]; intros h cookie Hs Hf; [lia|]. cbn [guestList].
  destruct (serving_step h cookie Hs) as (k & used & h' & -> & Hsh & Hs' & Hk & Hend & Hprog). cbv zeta.
  rewrite (shown_used _ _ _ _ _ _ _ _ Hsh), (shown_entries _ _ _ _ _ _ _ _ Hsh). set (rest := drop _ all) in *.
  destruct (Z.ltb_spec used bufLen) as [Hlt|Hge].
  - exists h'. rewrite (Hend Hlt), firstn_all. split; [done|]. apply (shown_frame _ _ _ _ _ _ _ _ Hsh).
  - destruct Hprog as [|Hk0]; [lia|]. assert (Ek : zlen (take k rest) = Z.of_nat k) by (unfold zlen; rewrite length_take; lia).
    assert (Hne : take k rest <> []) by (intros E; rewrite E in Ek; change (zlen []) with 0 in Ek; lia).
    rewrite last_next, Ek by done. destruct Hs as (_ & Hck & _).
    assert (Ed : drop (Z.to_nat (cookie + Z.of_nat k)) all = drop k rest) by (unfold rest; rewrite drop_drop; f_equal; lia).
    destruct (IH h' (cookie + Z.of_nat k) Hs') as (h2 & E & Hfr); [rewrite Ed, length_drop; lia|]. exists h2. rewrite E, Ed. split.
    + cbn. do 2 f_equal. rewrite <- (take_drop k rest) at 3. rewrite guestDirents_app, Ek. do 2 f_equal. lia.
    + intros o n Ho Hn A1 A2. rewrite Hfr by done. by apply (shown_frame _ _ _ _ _ _ _ _ Hsh).
Qed.
End Guest.

(** C16: a guest that lists a directory with [fd_readdir] through its memory sees it whole.  It calls
    [fd_readdir] from cookie 0 with a buffer of at least 24 bytes, parses the bytes that are reported as used,
    drops an entry that is cut off, and calls again at the [d_next] of the last whole entry until the buffer is
    not full.  It then has [.] with the inode of the directory, [..] and every entry of the directory, once and
    in order, with its inode, its type and its name, each with the cookie of the next, after at most one call
    per entry and one more; and no byte outside the buffer and the four bytes of the reported size changes.
    The descriptor is a directory that was not read before, whose [Readdir] is a cursor over fewer than 2^32
    entries, each of which fits the buffer; the two parts of the memory are in bounds and apart, and the buffer
    does not end at the last byte of 65536 pages. *)
Theorem readdir_through_memory `{HO : Host} (f : File) (entries : list Dirent) (left : World -> list Dirent) (ino : Z)
    (fd b bufLen r : Z) (e : FileEntry) (h : hostState) (fuel : nat) :
  listable f entries left ino -> wf (openedFiles h) -> 0 <= fd < 2 ^ 31 -> at_key (openedFiles h) fd = Some (Some e) ->
  EntryFile e = f -> direntCache e = None -> left (world h) = entries -> 24 <= bufLen -> buffers h b bufLen r ->
  zlen (all entries ino) < 2 ^ 32 -> Forall (fun x => entryGiven x /\ entryLen x <= bufLen) (all entries ino) ->
  (length (all entries ino) < fuel)%nat ->
  exists h', guestList fuel fd b bufLen r 0 h = Some (h', guestDirents 1 (all entries ino)) /\
    forall o n, 0 <= o -> 0 <= n -> apart b bufLen o n -> apart r 4 o n -> bytesAt (Buffer (mem h')) o n = bytesAt (Buffer (mem h)) o n.
Proof.
  intros Hdir Hw Hfd He Hf Hc Hl Hb Hbuf Hfew Hfit Hfuel. pose proof Hbuf as (_ & ? & ? & ? & _).
  apply (guestList_from f entries left ino Hdir fd b bufLen r Hfd ltac:(lia) Hfew Hfit fuel h 0); [|done].
  pose proof (zlen_nonneg (all entries ino)). split_and!; try done; try lia. exists e. by rewrite Hc.
Qed.

Module DirentsWitness.
Import Demo.
Lemma demo_listable : listable (HO := host) Directory contents left 1.
Proof. constructor; [exact demo_directory|intros w; by exists w..]. Qed.

(** The directory at 3, with a buffer of 30 bytes *)
Lemma readdir_through_memory_witness : exists h',
  guestList 5 3 0 30 32 0 (start (replicate 40 7)) = Some (h', guestDirents 1 (all contents 1)) /\
  bytesAt (Buffer (mem h')) 36 4 = [7; 7; 7; 7].
Proof.
  assert (Hs : exists h, InitFSContext stdio preopens [] (started (memory (replicate 40 7)) ([], 0%nat)) = (h, Returns tt) /\ safe 40 h).
  { apply InitFSContext_ok; [|by apply Forall_replicate]. split_and!; [by repeat constructor|by repeat constructor|constructor|vm_compute; congruence]. }
  destruct Hs as (h & E & Hs). assert (Eh : start (replicate 40 7) = h) by (unfold start; by rewrite E).
  destruct (readdir_through_memory (HO := host) Directory contents left 1 3 0 30 32
    (mkFileEntry (HO := host) (guestName [slash]) true (Some tt) Directory None) (start (replicate 40 7)) 5) as (h' & El & Hfr);
    [exact demo_listable|rewrite Eh; apply (safe_table_ok 40 h Hs)|lia|by vm_compute|done|done|by vm_compute|lia| |by vm_compute| |cbn; lia|].
  - assert (Em : zlen (Buffer (mem (start (replicate 40 7)))) = 40) by (by vm_compute). unfold buffers, apart. rewrite Em. lia.
  - repeat (apply Forall_cons_2; [split; [split; [split; [by repeat constructor|by vm_compute]|unfold is_u64; cbn; lia]|vm_compute; congruence]|]). apply Forall_nil_2.
  - exists h'. split; [exact El|]. rewrite Hfr by (unfold apart; lia). by vm_compute.
Defined.
End DirentsWitness.
