(* ===== verification/Arm64.v ===== *)
(** * Constants of the arm64 back end (src/internal/engine/wazevo/backend/isa/arm64)

    How the optimising compiler loads an integer constant: [insertLoadConstant]
    chooses among a move of the zero register, MOVZ, MOVN, MOVK and ORR with a
    bit-mask immediate (lower_constant.go), and the encoder turns them into
    machine words (instr_encoding.go).  The words are then given the meaning
    that the architecture defines for them. *)

From S2P Require Import Prelude.

(** ** Words *)

(** [^x] of a uint64 *)
Definition inv64 (x : Z) : Z := wrap64 (Z.lnot x).
(** [x>>n | x<<(64-n)] *)
Definition rotated (x n : Z) : Z := Z.lor (Z.shiftr x n) (wrap64 (Z.shiftl x (64 - n))).

(** ** lower_constant.go *)

Definition getLowestBit (x : Z) : Z := Z.land x (wrap64 (inv64 x + 1)).
Definition sequenceOfSetbits (x : Z) : bool :=
  let y := wrap64 (getLowestBit x + x) in Z.land (wrap64 (y - 1)) y =? 0.

Definition isBitMaskImmediate (x : Z) (b64 : bool) : bool :=
  let runs x := sequenceOfSetbits x || sequenceOfSetbits (inv64 x) in
  if (x =? 0) || (b64 && (x =? 2 ^ 64 - 1)) || (negb b64 && (x =? 2 ^ 32 - 1)) then false
  else if negb (x =? rotated x 32) then runs x
  else if negb (x =? rotated x 16) then runs (wrap64 (sgn 32 x))
  else if negb (x =? rotated x 8) then runs (wrap64 (sgn 16 x))
  else if negb (x =? rotated x 4) then runs (wrap64 (sgn 8 x))
  else true.

(** The shift by 16 that leaves nothing else, or -1. *)
Definition const16bitAligned (v : Z) : Z :=
  let fits s := Z.ldiff (wrap64 v) (Z.shiftl 65535 s) =? 0 in
  if fits 0 then 0 else if fits 16 then 1 else if fits 32 then 2 else if fits 48 then 3 else -1.

Inductive aluOp := aluOpAnd | aluOpOrr | aluOpEor | aluOpAnds.
(** Registers by their number in the encoding. *)
Definition xzr : Z := 31.
Inductive instruction :=
  | movZ (rd imm shift : Z) (dst64 : bool)
  | movN (rd imm shift : Z) (dst64 : bool)
  | movK (rd imm shift : Z) (dst64 : bool)
  | mov64 (rd rn : Z)
  | aluRRBitmaskImm (op : aluOp) (rd rn imm : Z) (dst64 : bool).

Definition lowerConstViaBitMaskImmediate (c dst : Z) (b64 : bool) : list instruction := [aluRRBitmaskImm aluOpOrr dst xzr c b64].

(** [c] is an int32. *)
Definition lowerConstantI32 (dst c : Z) : list instruction :=
  let ic := wrap32 c in
  let imm12 := (0 <=? ic) && ((ic <=? 4095) || ((Z.land ic 4095 =? 0) && (Z.shiftr ic 12 <=? 4095))) in
  if imm12 && isBitMaskImmediate (wrap64 c) false then lowerConstViaBitMaskImmediate (wrap32 c) dst false
  else
    let t := const16bitAligned (wrap32 c) in
    if t >=? 0 then [movZ dst (Z.shiftr (wrap32 c) (16 * t)) t false]
    else
      let t := const16bitAligned (Z.lnot c) in
      if t >=? 0 then [movN dst (wrap64 (Z.shiftr (Z.lnot c) (16 * t))) t false]
      else if isBitMaskImmediate (wrap32 c) false then lowerConstViaBitMaskImmediate (wrap64 c) dst false
      else [movZ dst (wrap16 c) 0 false; movK dst (wrap16 (Z.shiftr (wrap32 c) 16)) 1 false].

Definition bits16 (c : Z) : list (Z * Z) := map (fun i => (i, Z.land (Z.shiftr (wrap64 c) (i * 16)) 65535)) [0; 1; 2; 3].
Definition countBits (v : Z) (bits : list (Z * Z)) : Z := zlen (filter (fun b => snd b = v) bits).
(** One MOVZ, then MOVK, for the parts that are not 0; one MOVN, then MOVK, for those that are not 0xffff. *)
Fixpoint movzThenMovk (dst : Z) (bits : list (Z * Z)) (movz : bool) : list instruction :=
  match bits with
  | [] => []
  | (i, v) :: bits' =>
      if negb movz && negb (v =? 0) then movZ dst v i true :: movzThenMovk dst bits' true
      else if negb (v =? 0) then movK dst v i true :: movzThenMovk dst bits' movz
      else movzThenMovk dst bits' movz
  end.
Fixpoint movnThenMovk (dst : Z) (bits : list (Z * Z)) (movn : bool) : list instruction :=
  match bits with
  | [] => []
  | (i, v) :: bits' =>
      if negb movn && negb (v =? 65535) then movN dst (inv64 v) i true :: movnThenMovk dst bits' true
      else if negb (v =? 65535) then movK dst v i true :: movnThenMovk dst bits' movn
      else movnThenMovk dst bits' movn
  end.
Definition load64bitConst (c dst : Z) : list instruction :=
  let bits := bits16 c in
  let zeros := countBits 0 bits in
  let negs := countBits 65535 bits in
  if zeros =? 3 then flat_map (fun '(i, v) => if negb (v =? 0) then [movZ dst v i true] else []) bits
  else if negs =? 3 then flat_map (fun '(i, v) => if negb (v =? 65535) then [movN dst (inv64 v) i true] else []) bits
  else if zeros =? 2 then movzThenMovk dst bits false
  else if negs =? 2 then movnThenMovk dst bits false
  else if zeros =? 1 then movzThenMovk dst bits false
  else if negs =? 1 then movnThenMovk dst bits false
  else movzThenMovk dst bits false.

(** [c] is an int64. *)
Definition lowerConstantI64 (dst c : Z) : list instruction :=
  let imm12 := (0 <=? c) && ((c <=? 4095) || ((Z.land c 4095 =? 0) && (wrap64 (Z.shiftr c 12) <=? 4095))) in
  if imm12 && isBitMaskImmediate (wrap64 c) true then lowerConstViaBitMaskImmediate (wrap64 c) dst true
  else
    let t := const16bitAligned c in
    if t >=? 0 then [movZ dst (Z.shiftr (wrap64 c) (16 * t)) t true]
    else
      let t := const16bitAligned (Z.lnot c) in
      if t >=? 0 then [movN dst (Z.shiftr (wrap64 (Z.lnot c)) (16 * t)) t true]
      else if isBitMaskImmediate (wrap64 c) true then lowerConstViaBitMaskImmediate (wrap64 c) dst true
      else load64bitConst c dst.

(** [insertLoadConstant] for the integer types; [InsertMove] of the zero register is a 64-bit move. *)
Definition insertLoadConstant (v : Z) (i64 : bool) (vr : Z) : list instruction :=
  let v := if i64 then v else Z.land v (2 ^ 32 - 1) in
  if v =? 0 then [mov64 vr xzr]
  else if i64 then lowerConstantI64 vr (sgn64 v) else lowerConstantI32 vr (sgn32 v).

(** ** instr_encoding.go *)

(** The loop ends only when one bit is set: [None] when it does not. *)
Fixpoint setBitPosLoop (fuel : nat) (x ret : Z) : option Z :=
  match fuel with
  | O => None
  | S fuel' => if x =? 1 then Some ret else setBitPosLoop fuel' (Z.shiftr x 1) (wrap32 (ret + 1))
  end.
Definition setBitPos (x : Z) : option Z := setBitPosLoop 64 x 0.
Definition getOnesSequenceSize (x : Z) : option (Z * Z) :=
  let y := getLowestBit x in
  nonZeroPos ← setBitPos y;
  top ← setBitPos (wrap64 (x + y));
  Some (wrap32 (top - nonZeroPos), nonZeroPos).

Definition bitmaskImmediate (c : Z) (is64bit : bool) : option (Z * Z * Z) :=
  let '(size, c) :=
    if negb (c =? rotated c 32) then (64, c)
    else if negb (c =? rotated c 16) then (32, wrap64 (sgn 32 c))
    else if negb (c =? rotated c 8) then (16, wrap64 (sgn 16 c))
    else if negb (c =? rotated c 4) then (8, wrap64 (sgn 8 c))
    else if negb (c =? rotated c 2) then (4, wrap64 (Z.shiftr (sgn64 (Z.shiftl c 60)) 60))
    else (2, wrap64 (Z.shiftr (sgn64 (Z.shiftl c 62)) 62)) in
  let neg := sgn64 c <? 0 in
  let c := if neg then inv64 c else c in
  '(onesSize, nonZeroPos) ← getOnesSequenceSize c;
  let '(onesSize, nonZeroPos) := if neg then (wrap32 (size - onesSize), wrap32 (onesSize + nonZeroPos)) else (onesSize, nonZeroPos) in
  let '(N, mode) := if is64bit && (size =? 64) then (1, 64) else (0, 32) in
  let immr := wrap8 (Z.land (Z.land (wrap32 (size - nonZeroPos)) (size - 1)) (mode - 1)) in
  let imms := wrap8 (Z.lor (wrap32 (onesSize - 1)) (Z.ldiff 63 (size * 2 - 1))) in
  Some (immr, imms, N).

Definition encodeAluBitmaskImmediate (op : aluOp) (rd rn imm : Z) (b64 : bool) : option Z :=
  let _31to23 := match op with aluOpAnd => 36 | aluOpOrr => 100 | aluOpEor => 164 | aluOpAnds => 228 end in
  let _31to23 := if b64 then Z.lor _31to23 (Z.shiftl 1 8) else _31to23 in
  '(immr, imms, N) ← bitmaskImmediate imm b64;
  Some (Z.lor (Z.lor (Z.lor (Z.lor (Z.lor (Z.shiftl _31to23 23) (Z.shiftl N 22)) (Z.shiftl immr 16)) (Z.shiftl imms 10)) (Z.shiftl rn 5)) rd).
Definition encodeMoveWideImmediate (opc rd imm shift b64 : Z) : Z :=
  Z.lor (Z.lor (Z.lor (Z.lor (Z.lor rd (Z.shiftl (Z.land imm 65535) 5)) (Z.shiftl shift 21)) (Z.shiftl 37 23)) (Z.shiftl opc 29)) (Z.shiftl b64 31).
Definition encodeLogicalShiftedRegister (sf_opc shift_N rm imm6 rn rd : Z) : Z :=
  Z.lor (Z.lor (Z.lor (Z.lor (Z.lor (Z.lor (Z.shiftl sf_opc 29) (Z.shiftl 10 24)) (Z.shiftl shift_N 21)) (Z.shiftl rm 16)) (Z.shiftl imm6 10)) (Z.shiftl rn 5)) rd.
(** [encodeMov64] between registers that are not the stack pointer *)
Definition encodeMov64 (rd rn : Z) : Z := encodeLogicalShiftedRegister 5 0 rn 0 xzr rd.

(** The cases [movN], [movZ], [movK], [mov64] and [aluRRBitmaskImm] of [instruction.encode] *)
Definition encode (i : instruction) : option Z :=
  match i with
  | movN rd imm shift b => Some (encodeMoveWideImmediate 0 rd imm shift (if b then 1 else 0))
  | movZ rd imm shift b => Some (encodeMoveWideImmediate 2 rd imm shift (if b then 1 else 0))
  | movK rd imm shift b => Some (encodeMoveWideImmediate 3 rd imm shift (if b then 1 else 0))
  | mov64 rd rn => Some (encodeMov64 rd rn)
  | aluRRBitmaskImm op rd rn imm b => encodeAluBitmaskImmediate op rd rn imm b
  end.

(** ** The architecture *)

Definition field (w lo len : Z) : Z := (w / 2 ^ lo) mod 2 ^ len.

Definition HighestSetBit (x : Z) : Z := if x =? 0 then -1 else Z.log2 x.
Definition ROR (size x n : Z) : Z := (x / 2 ^ n + x * 2 ^ (size - n)) mod 2 ^ size.
(** [count] copies of the low [size] bits *)
Fixpoint Replicate (count : nat) (size x : Z) : Z :=
  match count with O => 0 | S n => x + 2 ^ size * Replicate n size x end.
(** DecodeBitMasks of the architecture reference, for an immediate of [M] bits *)
Definition DecodeBitMasks (M immN imms immr : Z) : option Z :=
  let len := HighestSetBit (immN * 64 + (63 - imms)) in
  let levels := 2 ^ len - 1 in
  if (len <? 1) || (M <? 2 ^ len) then None
  else if Z.land imms levels =? levels then None
  else
    let S := Z.land imms levels in
    let R := Z.land immr levels in
    Some (Replicate (Z.to_nat (M / 2 ^ len)) (2 ^ len) (ROR (2 ^ len) (2 ^ (S + 1) - 1) R)).

(** A register file; register 31 reads as 0. *)
Definition regs : Type := Z -> Z.
Definition readReg (r : regs) (n : Z) : Z := if n =? 31 then 0 else r n.
Definition writeReg (r : regs) (n v : Z) : regs := fun m => if m =? n then v else r m.
(** The low bits, for the 32-bit form *)
Definition low (sf v : Z) : Z := if sf =? 1 then v mod 2 ^ 64 else v mod 2 ^ 32.

(** The meaning of a word; [None] for the words that are not described here, and for register 31 as a destination. *)
Definition execWord (w : Z) (r : regs) : option regs :=
  let sf := field w 31 1 in
  let opc := field w 29 2 in
  let rd := field w 0 5 in
  if rd =? 31 then None
  else if field w 23 6 =? 37 then
    let hw := field w 21 2 in
    let imm := field w 5 16 * 2 ^ (16 * hw) in
    if (sf =? 0) && (2 <=? hw) then None
    else if opc =? 0 then Some (writeReg r rd (low sf (Z.lnot imm)))
    else if opc =? 2 then Some (writeReg r rd imm)
    else if opc =? 3 then
      let old := low sf (r rd) in
      Some (writeReg r rd (old - field old (16 * hw) 16 * 2 ^ (16 * hw) + imm))
    else None
  else if field w 23 6 =? 36 then
    if (sf =? 0) && (field w 22 1 =? 1) then None
    else
      match DecodeBitMasks (if sf =? 1 then 64 else 32) (field w 22 1) (field w 10 6) (field w 16 6) with
      | None => None
      | Some imm =>
          let x := low sf (readReg r (field w 5 5)) in
          if opc =? 0 then Some (writeReg r rd (Z.land x imm))
          else if opc =? 1 then Some (writeReg r rd (Z.lor x imm))
          else if opc =? 2 then Some (writeReg r rd (Z.lxor x imm))
          else None
      end
  else if (field w 24 5 =? 10) && (opc =? 1) && (field w 21 3 =? 0) && (field w 10 6 =? 0) then
    Some (writeReg r rd (low sf (Z.lor (readReg r (field w 5 5)) (readReg r (field w 16 5)))))
  else None.
Fixpoint execWords (ws : list Z) (r : regs) : option regs :=
  match ws with [] => Some r | w :: ws' => r' ← execWord w r; execWords ws' r' end.
(** Instructions as they are encodeAll and run. *)
Definition encodeAll (l : list instruction) : option (list Z) := mapM encode l.
Definition runAll (l : list instruction) (r : regs) : option regs := ws ← encodeAll l; execWords ws r.
