(* ===== verification/Arm64Mask.v ===== *)
(** * Bit-mask immediates of the arm64 back end

    The constants that [isBitMaskImmediate] takes for bit masks are copies of a
    rotated run of ones: there are finitely many, and the architecture decodes
    each from the fields that [bitmaskImmediate] gives for it. *)

From S2P Require Import Prelude Arm64.

(** ** Runs of ones *)

Lemma pow2_land_pred y : 0 < y -> Z.land (y - 1) y = 0 -> y = 2 ^ Z.log2 y.
Proof.
  intros Hy Hl. pose proof (Z.log2_spec y Hy) as [H1 H2]. destruct (Z.eq_dec y (2 ^ Z.log2 y)); [done|].
  assert (Hb : Z.testbit (Z.land (y - 1) y) (Z.log2 y) = true).
  { rewrite Z.land_spec, Z.bit_log2 by lia. rewrite andb_true_r.
    assert (E : Z.log2 (y - 1) = Z.log2 y).
    { apply Z.log2_unique; [apply Z.log2_nonneg|]. lia. }
    rewrite <- E. apply Z.bit_log2. pose proof (Z.pow_pos_nonneg 2 (Z.log2 y) ltac:(lia) (Z.log2_nonneg y)). lia. }
  by rewrite Hl, Z.bits_0 in Hb.
Qed.
Lemma odd_part x : 0 < x -> exists p m, 0 <= p /\ 0 <= m /\ x = 2 ^ p * (2 * m + 1).
Proof.
  intros Hx. destruct x as [|x|x]; [lia| |lia]. clear Hx. induction x as [x _|x (p & m & Hp & Hm & E)|].
  - exists 0, (Z.pos x). lia.
  - exists (p + 1), m. split_and!; try lia. rewrite Z.pow_add_r by lia. lia.
  - exists 0, 0. lia.
Qed.
Lemma land_complement j m : 0 <= j -> 0 <= m < 2 ^ j -> Z.land m (2 ^ j - 1 - m) = 0.
Proof.
  intros Hj Hm. assert (Hsub : 2 ^ j - 1 - m = Z.ldiff (Z.ones j) m).
  { rewrite <- Z.sub_nocarry_ldiff; [by rewrite Z.ones_equiv, Z.sub_1_r|]. apply Z.bits_inj'. intros n Hn. rewrite Z.ldiff_spec, Z.bits_0.
    destruct (Z.lt_ge_cases n j); [rewrite Z.ones_spec_low by lia; apply andb_false_r|].
    rewrite <- (Z.mod_small m (2 ^ j)), Z.mod_pow2_bits_high by lia.
    done. }
  rewrite Hsub. apply Z.bits_inj'. intros n Hn. rewrite Z.land_spec, Z.ldiff_spec, Z.bits_0. by destruct (Z.testbit m n), (Z.testbit _ n).
Qed.
Lemma land_scale p a b : 0 <= p -> Z.land (2 ^ p * a) (2 ^ p * b) = 2 ^ p * Z.land a b.
Proof. intros Hp. rewrite !(Z.mul_comm (2 ^ p)), <- !Z.shiftl_mul_pow2 by lia. symmetry. apply Z.shiftl_land. Qed.
Lemma land_odd a b : Z.land (2 * a + 1) (2 * b + 1) = 2 * Z.land a b + 1.
Proof.
  apply Z.bits_inj'. intros n Hn. rewrite Z.land_spec. destruct (Z.eq_dec n 0) as [->|].
  - by rewrite !Z.testbit_odd_0.
  - replace n with (Z.succ (n - 1)) by lia. rewrite !Z.testbit_odd_succ, Z.land_spec by lia. done.
Qed.

Lemma inv64_spec x : is_u64 x -> inv64 x = 2 ^ 64 - 1 - x.
Proof. intros Hx. unfold inv64, is_u64, wrap64 in *. unfold Z.lnot. symmetry. apply (Z.mod_unique_pos _ _ (-1)); lia. Qed.
Lemma lowest_bit p m : 0 <= p -> 0 <= m -> is_u64 (2 ^ p * (2 * m + 1)) -> getLowestBit (2 ^ p * (2 * m + 1)) = 2 ^ p.
Proof.
  intros Hp Hm Hx. set (x := 2 ^ p * (2 * m + 1)) in *. assert (Hx0 : 0 < 2 ^ p) by (apply Z.pow_pos_nonneg; lia).
  assert (Hp64 : p < 64). { destruct (Z_lt_dec p 64); [done|]. pose proof (Z.pow_le_mono_r 2 64 p ltac:(lia) ltac:(lia)). unfold is_u64 in Hx. nia. }
  unfold getLowestBit. rewrite inv64_spec by done. replace (2 ^ 64 - 1 - x + 1) with (2 ^ 64 - x) by lia.
  assert (E64 : 2 ^ 64 = 2 ^ p * (2 * 2 ^ (63 - p))) by (rewrite <- (Z.pow_succ_r 2 (63 - p)), <- Z.pow_add_r by lia; f_equal; lia).
  assert (Hlt : m < 2 ^ (63 - p)) by (unfold is_u64 in Hx; rewrite E64 in Hx; unfold x in Hx; nia).
  rewrite wrap64_small by (unfold is_u64, x in *; nia). unfold x. rewrite E64.
  replace (2 ^ p * (2 * 2 ^ (63 - p)) - 2 ^ p * (2 * m + 1)) with (2 ^ p * (2 * (2 ^ (63 - p) - 1 - m) + 1)) by lia.
  rewrite land_scale, land_odd, land_complement by lia. lia.
Qed.

(** The differences of powers of two, of [n] bits *)
Definition runsUpTo (n : Z) : list Z := 0 :: flat_map (fun p => map (fun q => 2 ^ q - 2 ^ p) (seqZ (p + 1) (n - p))) (seqZ 0 n).
Lemma elem_of_runs n v : v ∈ runsUpTo n <-> v = 0 \/ exists p q, 0 <= p < q /\ q <= n /\ v = 2 ^ q - 2 ^ p.
Proof.
  unfold runsUpTo. rewrite elem_of_cons, list_elem_of_In, in_flat_map. split; (intros [->|H]; [by left|right]).
  - destruct H as (p & Hp%list_elem_of_In%elem_of_seqZ & (q & <- & Hq%list_elem_of_In%elem_of_seqZ)%in_map_iff). exists p, q. split_and!; lia || done.
  - destruct H as (p & q & Hp & Hq & ->). exists p. split; [apply list_elem_of_In, elem_of_seqZ; lia|]. apply in_map_iff. exists q.
    split; [done|]. apply list_elem_of_In, elem_of_seqZ. lia.
Qed.
Lemma run_listed p q : 0 <= p < q -> q <= 64 -> 2 ^ q - 2 ^ p ∈ runsUpTo 64.
Proof. intros Hp Hq. apply elem_of_runs. right. by exists p, q. Qed.
Lemma run_mod n v : 0 < n <= 64 -> v ∈ runsUpTo 64 -> v mod 2 ^ n ∈ runsUpTo n.
Proof.
  intros Hn. rewrite !elem_of_runs. intros [->|(p & q & Hp & Hq & ->)]; [left; by rewrite Z.mod_0_l by lia|].
  assert (H2 : forall a, n <= a -> 2 ^ a = 2 ^ n * 2 ^ (a - n)) by (intros a Ha; rewrite <- Z.pow_add_r by lia; f_equal; lia).
  assert (0 < 2 ^ n) by (apply Z.pow_pos_nonneg; lia). assert (0 < 2 ^ p) by (apply Z.pow_pos_nonneg; lia).
  pose proof (Z.pow_lt_mono_r 2 p q ltac:(lia) ltac:(lia) ltac:(lia)). destruct (Z_le_dec n p) as [|Hpn].
  - left. rewrite (H2 p), (H2 q) by lia. rewrite <- Z.mul_sub_distr_l, Z.mul_comm. apply Z.mod_mul. lia.
  - right. pose proof (Z.pow_lt_mono_r 2 p n ltac:(lia) ltac:(lia) ltac:(lia)). destruct (Z_le_dec q n).
    + exists p, q. split_and!; try lia. apply Z.mod_small. pose proof (Z.pow_le_mono_r 2 q n ltac:(lia) ltac:(lia)). lia.
    + exists p, n. split_and!; try lia. symmetry. rewrite (H2 q) by lia. apply (Z.mod_unique_pos _ _ (2 ^ (q - n) - 1)); lia.
Qed.
Lemma sequence_run x : is_u64 x -> sequenceOfSetbits x = true -> x ∈ runsUpTo 64.
Proof.
  intros Hx Hs. destruct (Z.eq_dec x 0) as [->|Hne]; [apply list_elem_of_here|].
  destruct (odd_part x) as (p & m & Hp & Hm & E); [unfold is_u64 in Hx; lia|]. unfold sequenceOfSetbits in Hs. rewrite E in Hs, Hx.
  rewrite lowest_bit in Hs by done. rewrite <- E in *. assert (Hx0 : 0 < 2 ^ p) by (apply Z.pow_pos_nonneg; lia).
  assert (Hp64 : p < 64). { destruct (Z_lt_dec p 64); [done|]. pose proof (Z.pow_le_mono_r 2 64 p ltac:(lia) ltac:(lia)). unfold is_u64 in Hx. nia. }
  assert (E64 : 2 ^ 64 = 2 ^ p * (2 * 2 ^ (63 - p))) by (rewrite <- (Z.pow_succ_r 2 (63 - p)), <- Z.pow_add_r by lia; f_equal; lia).
  assert (Hle : 2 ^ p + x <= 2 ^ 64) by (unfold is_u64 in Hx; rewrite E64 in *; nia).
  destruct (Z.eq_dec (2 ^ p + x) (2 ^ 64)) as [E2|N2].
  - replace x with (2 ^ 64 - 2 ^ p) by lia. apply run_listed; lia.
  - rewrite (wrap64_small (2 ^ p + x)) in Hs by (unfold is_u64 in *; lia). rewrite wrap64_small in Hs by (unfold is_u64 in *; lia).
    apply Z.eqb_eq, pow2_land_pred in Hs; [|unfold is_u64 in *; lia]. set (q := Z.log2 (2 ^ p + x)) in *.
    replace x with (2 ^ q - 2 ^ p) by lia. assert (Hq : p < q). { apply (Z.pow_lt_mono_r_iff 2); [lia|apply Z.log2_nonneg|]. unfold is_u64 in Hx. lia. }
    apply run_listed; [lia|]. assert (q < 64); [|lia]. apply (Z.pow_lt_mono_r_iff 2); [lia|lia|]. unfold is_u64 in *. lia.
Qed.

(** ** Bit masks *)

Lemma rotated_spec x n : is_u64 x -> 0 < n < 64 -> rotated x n = x / 2 ^ n + (x mod 2 ^ n) * 2 ^ (64 - n).
Proof.
  intros Hx Hn. unfold rotated. assert (E : 2 ^ 64 = 2 ^ n * 2 ^ (64 - n)) by (rewrite <- Z.pow_add_r by lia; f_equal; lia).
  assert (0 < 2 ^ n) by (apply Z.pow_pos_nonneg; lia). assert (0 < 2 ^ (64 - n)) by (apply Z.pow_pos_nonneg; lia).
  assert (Hw : wrap64 (Z.shiftl x (64 - n)) = Z.shiftl (x mod 2 ^ n) (64 - n)).
  { unfold wrap64. rewrite !Z.shiftl_mul_pow2 by lia. rewrite E. apply Z.mul_mod_distr_r; lia. }
  rewrite Hw, Z.shiftr_div_pow2 by lia. apply lor_shiftl_add; [lia|]. unfold is_u64 in Hx. rewrite E in Hx.
  split; [apply Z.div_pos; lia|apply Z.div_lt_upper_bound; lia].
Qed.
Lemma rotated_copies x n k : is_u64 x -> 0 < n < 64 -> k * (2 ^ n - 1) = 2 ^ 64 - 1 -> x = rotated x n -> x = (x mod 2 ^ n) * k.
Proof.
  intros Hx Hn Hk E. rewrite rotated_spec in E by done. assert (E64 : 2 ^ 64 = 2 ^ n * 2 ^ (64 - n)) by (rewrite <- Z.pow_add_r by lia; f_equal; lia).
  assert (1 < 2 ^ n) by (apply Z.pow_gt_1; lia). pose proof (Z.div_mod x (2 ^ n) ltac:(lia)) as Hd.
  set (a := x / 2 ^ n) in *. set (b := x mod 2 ^ n) in *. rewrite E64 in Hk. set (P := 2 ^ n) in *. set (Q := 2 ^ (64 - n)) in *.
  apply (Z.mul_reg_l _ _ (P - 1)); [lia|]. replace ((P - 1) * (b * k)) with (b * (k * (P - 1))) by lia. rewrite Hk. nia.
Qed.

Definition copies (n : Z) : Z := (2 ^ 64 - 1) / (2 ^ n - 1).
(** Runs and their complements *)
Definition masksUpTo (n : Z) : list Z := runsUpTo n ++ map (fun v => 2 ^ n - 1 - v) (runsUpTo n).
Definition maskCandidates : list Z :=
  flat_map (fun n => map (fun v => v * copies n) (masksUpTo n)) [64; 32; 16; 8] ++ map (fun v => v * copies 4) (seqZ 0 16).

Lemma inv64_inv64 x : is_u64 x -> inv64 (inv64 x) = x.
Proof. intros Hx. rewrite (inv64_spec x) by done. rewrite inv64_spec by (unfold is_u64 in *; lia). lia. Qed.
Lemma run_or_inverse v n : is_u64 v -> 0 < n <= 64 -> sequenceOfSetbits v || sequenceOfSetbits (inv64 v) = true -> v mod 2 ^ n ∈ masksUpTo n.
Proof.
  intros Hv Hn [H|H]%orb_true_iff; apply elem_of_app; [left; by apply run_mod, sequence_run|right].
  apply sequence_run in H; [|apply wrap64_range]. apply list_elem_of_In, in_map_iff. exists (inv64 v mod 2 ^ n).
  split; [|by apply list_elem_of_In, run_mod]. rewrite inv64_spec by done. assert (0 < 2 ^ n) by (apply Z.pow_pos_nonneg; lia).
  assert (E64 : 2 ^ 64 = 2 ^ n * 2 ^ (64 - n)) by (rewrite <- Z.pow_add_r by lia; f_equal; lia). rewrite E64.
  pose proof (Z.mod_pos_bound v (2 ^ n) ltac:(lia)). pose proof (Z.div_mod v (2 ^ n) ltac:(lia)).
  rewrite <- (Z.mod_unique_pos (2 ^ n * 2 ^ (64 - n) - 1 - v) (2 ^ n) (2 ^ (64 - n) - 1 - v / 2 ^ n) (2 ^ n - 1 - v mod 2 ^ n)); lia.
Qed.
Lemma copies_listed n v : n ∈ [64; 32; 16; 8] -> v ∈ masksUpTo n -> v * copies n ∈ maskCandidates.
Proof.
  intros Hn Hv. apply elem_of_app. left. apply list_elem_of_In, in_flat_map. exists n. split; [by apply list_elem_of_In|].
  apply in_map_iff. exists v. split; [done|by apply list_elem_of_In].
Qed.
Lemma run_copies x n : is_u64 x -> n ∈ [32; 16; 8] -> x = rotated x n ->
  sequenceOfSetbits (wrap64 (sgn n x)) || sequenceOfSetbits (inv64 (wrap64 (sgn n x))) = true -> x ∈ maskCandidates.
Proof.
  intros Hx Hn E H. assert (Hn' : 0 < n < 64 /\ copies n * (2 ^ n - 1) = 2 ^ 64 - 1).
  { clear - Hn. repeat (apply elem_of_cons in Hn as [->|Hn]; [split; [lia|reflexivity]|]). by apply elem_of_nil in Hn. }
  destruct Hn' as [Hn0 Hk]. apply (run_or_inverse _ n) in H; [|apply wrap64_range|lia]. set (v := wrap64 (sgn n x)) in *.
  assert (Hv : v mod 2 ^ n = x mod 2 ^ n).
  { unfold v, wrap64. rewrite <- (sgn_mod_eq n x) by lia. assert (E64 : 2 ^ 64 = 2 ^ n * 2 ^ (64 - n)) by (rewrite <- Z.pow_add_r by lia; f_equal; lia).
    rewrite E64. apply Z.mod_mod_divide. exists (2 ^ (64 - n)). lia. }
  rewrite Hv in H. rewrite (rotated_copies x n (copies n)) by done. apply copies_listed; [set_solver|done].
Qed.
Lemma mask_listed x b : is_u64 x -> isBitMaskImmediate x b = true -> x ∈ maskCandidates.
Proof.
  intros Hx. unfold isBitMaskImmediate. destruct (_ || _ || _); [done|].
  destruct (Z.eqb_spec x (rotated x 32)) as [E32|]; cbn [negb].
  2: { intros H. apply (run_or_inverse x 64) in H; [|done|lia]. rewrite Z.mod_small in H by done. apply (copies_listed 64) in H; [|set_solver].
       change (copies 64) with 1 in H. by rewrite Z.mul_1_r in H. }
  destruct (Z.eqb_spec x (rotated x 16)) as [E16|]; cbn [negb]; [|intros H; apply (run_copies x 32); try done; set_solver].
  destruct (Z.eqb_spec x (rotated x 8)) as [E8|]; cbn [negb]; [|intros H; apply (run_copies x 16); try done; set_solver].
  destruct (Z.eqb_spec x (rotated x 4)) as [E4|]; cbn [negb]; [|intros H; apply (run_copies x 8); try done; set_solver].
  intros _. apply elem_of_app. right. apply list_elem_of_In, in_map_iff. exists (x mod 2 ^ 4).
  split; [symmetry; apply rotated_copies; try done; lia|]. apply list_elem_of_In, elem_of_seqZ. pose proof (Z.mod_pos_bound x (2 ^ 4)). lia.
Qed.

Definition decodes (M x : Z) (b64 : bool) : bool :=
  match bitmaskImmediate x b64 with
  | Some (immr, imms, N) =>
      between 0 immr 63 && between 0 imms 63 && between 0 N 1 && (b64 || (N =? 0)) &&
      bool_decide (DecodeBitMasks M N imms immr = Some x)
  | None => false
  end.
(** A value of 32 bits with the top bit clear, or that one part of 16 bits gives, as it is or inverted *)
Definition maskedApart (x : Z) : bool :=
  (x <? 2 ^ 31) || (0 <=? const16bitAligned x) || (0 <=? const16bitAligned (2 ^ 32 - 1 - x)).
(** The decoding comes first: it rarely fails, and then the constant has to be one that is not taken for a mask. *)
Definition candidateOk (x : Z) : bool :=
  (decodes 64 x true || negb (isBitMaskImmediate x true)) &&
  ((2 ^ 32 <=? x) || ((decodes 32 x false && maskedApart x) || negb (isBitMaskImmediate x false))).
Lemma candidates_decode : forallb candidateOk maskCandidates = true.
Proof. vm_cast_no_check (eq_refl true). Qed.
Lemma candidate_ok x (b64 : bool) : is_u64 x -> isBitMaskImmediate x b64 = true -> candidateOk x = true.
Proof.
  intros Hx Hm. pose proof (mask_listed x b64 Hx Hm) as Hl. pose proof candidates_decode as Hc. rewrite forallb_forall in Hc.
  by apply Hc, list_elem_of_In.
Qed.
Lemma mask_decodes x (b64 : bool) : is_u64 x -> (b64 = false -> x < 2 ^ 32) -> isBitMaskImmediate x b64 = true ->
  decodes (if b64 then 64 else 32) x b64 = true.
Proof.
  intros Hx H32 Hm. pose proof (candidate_ok x b64 Hx Hm) as [H1 H2]%andb_true_iff. destruct b64; rewrite Hm, orb_false_r in *; [done|].
  rewrite (proj2 (Z.leb_gt _ _)) in H2 by auto. by apply andb_true_iff in H2 as [? _].
Qed.
(** A negative int32 that reaches the test for bit masks is not one. *)
Lemma mask_apart x : 2 ^ 31 <= x < 2 ^ 32 -> isBitMaskImmediate x false = true -> 0 <= const16bitAligned x \/ 0 <= const16bitAligned (2 ^ 32 - 1 - x).
Proof.
  intros Hx Hm. assert (Hu : is_u64 x) by (unfold is_u64; lia). pose proof (candidate_ok x false Hu Hm) as [_ H2]%andb_true_iff.
  rewrite Hm, orb_false_r, (proj2 (Z.leb_gt _ _)) in H2 by lia. apply andb_true_iff in H2 as [_ H2]. unfold maskedApart in H2.
  rewrite (proj2 (Z.ltb_ge _ _)) in H2 by lia. apply orb_true_iff in H2 as [H2|H2]; apply Z.leb_le in H2; auto.
Qed.
