(* ===== verification/Arm64Spec.v ===== *)
(** * Constants of the arm64 back end: what the encodeAll words compute

    The words that [insertLoadConstant] emits, run as the architecture defines,
    leave the constant in the destination and change no other register. *)

From S2P Require Import Prelude Arm64 Arm64Mask.

(** ** The words *)

Lemma moveWide_word opc rd imm shift sf : 0 <= opc < 4 -> 0 <= rd < 31 -> 0 <= shift < 4 -> 0 <= sf < 2 ->
  let w := encodeMoveWideImmediate opc rd imm shift sf in
  field w 31 1 = sf /\ field w 29 2 = opc /\ field w 0 5 = rd /\ field w 23 6 = 37 /\ field w 21 2 = shift /\ field w 5 16 = imm mod 2 ^ 16.
Proof.
  intros Ho Hr Hs Hf w. pose proof (Z.mod_pos_bound imm (2 ^ 16) ltac:(lia)) as Hi.
  assert (Ew : w = rd + (imm mod 2 ^ 16) * 2 ^ 5 + shift * 2 ^ 21 + 37 * 2 ^ 23 + opc * 2 ^ 29 + sf * 2 ^ 31).
  { unfold w, encodeMoveWideImmediate. change 65535 with (Z.ones 16). rewrite Z.land_ones by lia. rewrite (lor_shiftl_add rd), (lor_shiftl_add _ shift), (lor_shiftl_add _ 37), (lor_shiftl_add _ opc), (lor_shiftl_add _ sf) by lia. done. }
  rewrite Ew. clear Ew w. set (i := imm mod 2 ^ 16) in *. unfold field. change (2 ^ 0) with 1. rewrite Z.div_1_r.
  change (2 ^ 16) with 65536 in *. change (2 ^ 5) with 32. change (2 ^ 21) with 2097152. change (2 ^ 23) with 8388608.
  change (2 ^ 29) with 536870912. change (2 ^ 31) with 2147483648. change (2 ^ 1) with 2. change (2 ^ 2) with 4. change (2 ^ 6) with 64.
  split_and!; Z.div_mod_to_equations; lia.
Qed.

(** A field below those that are there. *)
Lemma lor_below k b s m a : a = s + m -> 0 <= s -> 0 <= m -> 0 <= b < 2 ^ m -> Z.lor (Z.shiftl k a) (Z.shiftl b s) = Z.shiftl (k * 2 ^ m + b) s.
Proof.
  intros -> Hs Hm Hb. rewrite (Z.add_comm s m), <- Z.shiftl_shiftl, <- Z.shiftl_lor by lia. f_equal. rewrite Z.lor_comm, lor_shiftl_add by lia. lia.
Qed.
Lemma logicalImm_word op rd rn immr imms N (b64 : bool) : 0 <= rd < 31 -> 0 <= rn < 32 -> 0 <= immr < 64 -> 0 <= imms < 64 -> 0 <= N < 2 ->
  let _31to23 := match op with aluOpAnd => 36 | aluOpOrr => 100 | aluOpEor => 164 | aluOpAnds => 228 end in
  let _31to23 := if b64 then Z.lor _31to23 (Z.shiftl 1 8) else _31to23 in
  let w := Z.lor (Z.lor (Z.lor (Z.lor (Z.lor (Z.shiftl _31to23 23) (Z.shiftl N 22)) (Z.shiftl immr 16)) (Z.shiftl imms 10)) (Z.shiftl rn 5)) rd in
  field w 31 1 = (if b64 then 1 else 0) /\ field w 29 2 = match op with aluOpAnd => 0 | aluOpOrr => 1 | aluOpEor => 2 | aluOpAnds => 3 end /\
  field w 0 5 = rd /\ field w 23 6 = 36 /\ field w 22 1 = N /\ field w 16 6 = immr /\ field w 10 6 = imms /\ field w 5 5 = rn.
Proof.
  intros Hrd Hrn Hr Hs HN h t w. assert (Ht : t = match op with aluOpAnd => 36 | aluOpOrr => 100 | aluOpEor => 164 | aluOpAnds => 228 end + (if b64 then 256 else 0))
    by (unfold t, h; by destruct op, b64).
  clearbody t. assert (Ew : w = rd + rn * 2 ^ 5 + imms * 2 ^ 10 + immr * 2 ^ 16 + N * 2 ^ 22 + t * 2 ^ 23).
  { unfold w. rewrite (lor_below t N 22 1 23), (lor_below _ immr 16 6 22), (lor_below _ imms 10 6 16), (lor_below _ rn 5 5 10) by lia.
    rewrite Z.lor_comm, lor_shiftl_add by lia. lia. }
  rewrite Ew. clear Ew w. unfold field. change (2 ^ 0) with 1. rewrite Z.div_1_r.
  change (2 ^ 5) with 32. change (2 ^ 10) with 1024. change (2 ^ 16) with 65536. change (2 ^ 22) with 4194304. change (2 ^ 23) with 8388608.
  change (2 ^ 29) with 536870912. change (2 ^ 31) with 2147483648. change (2 ^ 1) with 2. change (2 ^ 2) with 4. change (2 ^ 6) with 64.
  subst t. destruct op, b64; split_and!; Z.div_mod_to_equations; lia.
Qed.

(** ** Single instructions *)

(** The instruction is encoded, and its word changes [rd] by [f] and nothing else. *)
Definition stepsTo (i : instruction) (rd : Z) (f : Z -> Z) : Prop := forall r, exists w r',
  encode i = Some w /\ execWord w r = Some r' /\ r' rd = f (r rd) /\ forall m, m <> rd -> r' m = r m.

Lemma written_back r rd v : writeReg r rd v rd = v /\ forall m, m <> rd -> writeReg r rd v m = r m.
Proof. unfold writeReg. split; [by rewrite Z.eqb_refl|]. intros m Hm. by rewrite (proj2 (Z.eqb_neq m rd)). Qed.

Definition sfOf (b : bool) : Z := if b then 1 else 0.
Definition part (imm shift : Z) : Z := imm mod 2 ^ 16 * 2 ^ (16 * shift).
Definition keep (b : bool) (shift imm o : Z) : Z := low (sfOf b) o - field (low (sfOf b) o) (16 * shift) 16 * 2 ^ (16 * shift) + part imm shift.

Section Moves.
Context (rd imm shift : Z) (b : bool) (Hrd : 0 <= rd < 31) (Hs : 0 <= shift < if b then 4 else 2).

Lemma moveWide_exec opc f : (opc = 0 /\ f = fun _ => low (sfOf b) (Z.lnot (part imm shift))) \/ (opc = 2 /\ f = fun _ => part imm shift) \/ (opc = 3 /\ f = keep b shift imm) ->
  forall r, exists r', execWord (encodeMoveWideImmediate opc rd imm shift (sfOf b)) r = Some r' /\ r' rd = f (r rd) /\ forall m, m <> rd -> r' m = r m.
Proof.
  intros Hf r. destruct (moveWide_word opc rd imm shift (sfOf b)) as (E1 & E2 & E3 & E4 & E5 & E6); [destruct Hf as [[-> _]|[[-> _]|[-> _]]]; lia|lia|destruct b; lia|destruct b; cbn; lia|].
  unfold execWord. rewrite E1, E2, E3, E4, E5, E6. rewrite (proj2 (Z.eqb_neq rd 31)) by lia. change (37 =? 37) with true. cbv iota.
  assert (Hz : (sfOf b =? 0) && (2 <=? shift) = false) by (destruct b; [done|]; cbn; apply Z.leb_gt; lia). rewrite Hz.
  destruct Hf as [[-> ->]|[[-> ->]|[-> ->]]]; cbn [Z.eqb Pos.eqb]; cbv iota; eexists; (split; [done|]); apply written_back.
Qed.
Lemma steps_movZ : stepsTo (movZ rd imm shift b) rd (fun _ => part imm shift).
Proof using Hrd Hs. intros r. destruct (moveWide_exec 2 (fun _ => part imm shift) ltac:(by right; left) r) as (r' & E & H). by exists (encodeMoveWideImmediate 2 rd imm shift (sfOf b)), r'. Qed.
Lemma steps_movN : stepsTo (movN rd imm shift b) rd (fun _ => low (sfOf b) (Z.lnot (part imm shift))).
Proof using Hrd Hs. intros r. destruct (moveWide_exec 0 _ (or_introl (conj eq_refl eq_refl)) r) as (r' & E & H). by exists (encodeMoveWideImmediate 0 rd imm shift (sfOf b)), r'. Qed.
Lemma steps_movK : stepsTo (movK rd imm shift b) rd (keep b shift imm).
Proof using Hrd Hs. intros r. destruct (moveWide_exec 3 _ (or_intror (or_intror (conj eq_refl eq_refl))) r) as (r' & E & H). by exists (encodeMoveWideImmediate 3 rd imm shift (sfOf b)), r'. Qed.
End Moves.

Lemma steps_mov64 rd : 0 <= rd < 31 -> stepsTo (mov64 rd xzr) rd (fun _ => 0).
Proof.
  intros Hrd r. assert (H : forallb (fun rd => bool_decide (field (encodeMov64 rd xzr) 31 1 = 1) && bool_decide (field (encodeMov64 rd xzr) 29 2 = 1) &&
    bool_decide (field (encodeMov64 rd xzr) 0 5 = rd) && negb (field (encodeMov64 rd xzr) 23 6 =? 37) && negb (field (encodeMov64 rd xzr) 23 6 =? 36) &&
    bool_decide (field (encodeMov64 rd xzr) 24 5 = 10) && bool_decide (field (encodeMov64 rd xzr) 21 3 = 0) && bool_decide (field (encodeMov64 rd xzr) 10 6 = 0) &&
    bool_decide (field (encodeMov64 rd xzr) 5 5 = 31) && bool_decide (field (encodeMov64 rd xzr) 16 5 = 31)) (seqZ 0 31) = true) by (vm_compute; reflexivity).
  rewrite forallb_forall in H. specialize (H rd ltac:(apply list_elem_of_In, elem_of_seqZ; lia)). rewrite !andb_true_iff, !bool_decide_eq_true, !negb_true_iff in H.
  destruct H as [[[[[[[[[E1 E2] E3] E4] E5] E6] E7] E8] E9] E10]. exists (encodeMov64 rd xzr). unfold execWord.
  rewrite E1, E2, E3, E4, E5, E6, E7, E8, E9, E10. rewrite (proj2 (Z.eqb_neq rd 31)) by lia. cbn. eexists. split; [done|]. split; [done|]. apply written_back.
Qed.
(** [ORR] of the zero register and a mask *)
Lemma steps_mask rd x (b : bool) : 0 <= rd < 31 -> is_u64 x -> (b = false -> x < 2 ^ 32) -> isBitMaskImmediate x b = true ->
  stepsTo (aluRRBitmaskImm aluOpOrr rd xzr x b) rd (fun _ => x).
Proof.
  intros Hrd Hx H32 Hm r. pose proof (mask_decodes x b Hx H32 Hm) as Hd. unfold decodes in Hd.
  destruct (bitmaskImmediate x b) as [[[immr imms] N]|] eqn:E; [|done]. unfold between in Hd.
  rewrite !andb_true_iff, bool_decide_eq_true, !Z.leb_le in Hd. destruct Hd as [[[[Hr Hs] HN] Hb] Hdec].
  destruct (logicalImm_word aluOpOrr rd xzr immr imms N b) as (E1 & E2 & E3 & E4 & E5 & E6 & E7 & E8); [done|unfold xzr; lia|lia..|].
  cbn [encode]. unfold encodeAluBitmaskImmediate. rewrite E. cbn [mbind option_bind]. eexists. unfold execWord. rewrite E1, E2, E3, E4, E5, E6, E7, E8.
  rewrite (proj2 (Z.eqb_neq rd 31)) by lia. change (36 =? 37) with false. change (36 =? 36) with true. cbv iota.
  assert (Hz : ((if b then 1 else 0) =? 0) && (N =? 1) = false).
  { destruct b; [done|]. cbn in *. apply Z.eqb_eq in Hb as ->. done. }
  rewrite Hz. assert (Hd' : DecodeBitMasks (if (if b then 1 else 0) =? 1 then 64 else 32) N imms immr = Some x) by (by destruct b). rewrite Hd'.
  eexists. split; [done|]. split; [done|]. unfold readReg, low, xzr. cbn [Z.eqb Pos.eqb]. cbv iota. destruct b; cbn; apply written_back.
Qed.

(** ** Parts of 16 bits *)

Lemma aligned_part x s : 0 <= x -> 0 <= s -> Z.ldiff x (Z.shiftl 65535 s) = 0 -> x = (x / 2 ^ s) mod 2 ^ 16 * 2 ^ s.
Proof.
  intros Hx Hs H. rewrite <- Z.shiftr_div_pow2, <- Z.land_ones, <- Z.shiftl_mul_pow2 by lia. change 65535 with (Z.ones 16) in H.
  apply Z.bits_inj'. intros n Hn. assert (Hb : Z.testbit (Z.ldiff x (Z.shiftl (Z.ones 16) s)) n = false) by (rewrite H; apply Z.bits_0).
  rewrite Z.ldiff_spec in Hb. destruct (Z.lt_ge_cases n s).
  - rewrite Z.shiftl_spec_low in * by lia. by destruct (Z.testbit x n).
  - rewrite Z.shiftl_spec_high in * by lia. rewrite Z.land_spec, Z.shiftr_spec by lia. replace (n - s + s) with n by lia.
    by destruct (Z.testbit x n), (Z.testbit (Z.ones 16) (n - s)).
Qed.
Lemma const16bitAligned_spec v t : const16bitAligned v = t -> 0 <= t -> t < 4 /\ part (Z.shiftr (wrap64 v) (16 * t)) t = wrap64 v.
Proof.
  intros Ht H0. unfold const16bitAligned in Ht. pose proof (wrap64_range v) as Hv. unfold is_u64 in Hv.
  assert (Hp : forall s, 0 <= s -> (Z.ldiff (wrap64 v) (Z.shiftl 65535 (16 * s)) =? 0) = true -> part (Z.shiftr (wrap64 v) (16 * s)) s = wrap64 v).
  { intros s Hs E%Z.eqb_eq. unfold part. rewrite Z.shiftr_div_pow2 by lia. symmetry. apply aligned_part; lia. }
  destruct (Z.eqb_spec (Z.ldiff (wrap64 v) (Z.shiftl 65535 0)) 0) as [E|_]; [subst t; split; [lia|]; apply (Hp 0); [lia|by apply Z.eqb_eq]|].
  destruct (Z.eqb_spec (Z.ldiff (wrap64 v) (Z.shiftl 65535 16)) 0) as [E|_]; [subst t; split; [lia|]; apply (Hp 1); [lia|by apply Z.eqb_eq]|].
  destruct (Z.eqb_spec (Z.ldiff (wrap64 v) (Z.shiftl 65535 32)) 0) as [E|_]; [subst t; split; [lia|]; apply (Hp 2); [lia|by apply Z.eqb_eq]|].
  destruct (Z.eqb_spec (Z.ldiff (wrap64 v) (Z.shiftl 65535 48)) 0) as [E|_]; [subst t; split; [lia|]; apply (Hp 3); [lia|by apply Z.eqb_eq]|lia].
Qed.
(** The parts from index [k] on *)
Fixpoint indexed (k : Z) (vs : list Z) : list (Z * Z) := match vs with [] => [] | v :: vs' => (k, v) :: indexed (k + 1) vs' end.
Fixpoint value (k : Z) (vs : list Z) : Z := match vs with [] => 0 | v :: vs' => v * 2 ^ (16 * k) + value (k + 1) vs' end.
Definition u16s (vs : list Z) : Prop := Forall (fun v => 0 <= v < 2 ^ 16) vs.

Lemma pow16 k : 0 <= k -> 2 ^ (16 * (k + 1)) = 2 ^ 16 * 2 ^ (16 * k) /\ 0 < 2 ^ (16 * k).
Proof. intros Hk. split; [rewrite <- Z.pow_add_r by lia; f_equal; lia|apply Z.pow_pos_nonneg; lia]. Qed.
Lemma pow16_le k : 0 <= k <= 4 -> 2 ^ (16 * k) <= 2 ^ 64.
Proof. intros Hk. apply Z.pow_le_mono_r; lia. Qed.
Lemma part_u16 v k : 0 <= v < 2 ^ 16 -> part v k = v * 2 ^ (16 * k).
Proof. intros Hv. unfold part. by rewrite Z.mod_small. Qed.
Lemma keep_spec k v lo x c : 0 <= k < 4 -> 0 <= v < 2 ^ 16 -> 0 <= lo < 2 ^ (16 * k) -> 0 <= x < 2 ^ 16 -> 0 <= c ->
  lo + x * 2 ^ (16 * k) + c * 2 ^ (16 * (k + 1)) < 2 ^ 64 ->
  keep true k v (lo + x * 2 ^ (16 * k) + c * 2 ^ (16 * (k + 1))) = lo + v * 2 ^ (16 * k) + c * 2 ^ (16 * (k + 1)).
Proof.
  intros Hk Hv Hlo Hx Hc Hlt. unfold keep, low. cbn [sfOf Z.eqb Pos.eqb]. cbv iota. destruct (pow16 k ltac:(lia)) as [E H0].
  rewrite Z.mod_small by (rewrite E in *; nia). rewrite part_u16 by done.
  assert (Hf : field (lo + x * 2 ^ (16 * k) + c * 2 ^ (16 * (k + 1))) (16 * k) 16 = x).
  { unfold field. rewrite E. replace (lo + x * 2 ^ (16 * k) + c * (2 ^ 16 * 2 ^ (16 * k))) with (lo + (x + c * 2 ^ 16) * 2 ^ (16 * k)) by lia.
    rewrite Z.div_add, Z.div_small, Z.add_0_l, Z.mod_add by lia. by apply Z.mod_small. }
  rewrite Hf. lia.
Qed.

(** ** Sequences of moves *)

(** Run on a register file that holds [o] in [rd], the instructions leave [v] there and change nothing else. *)
Definition takes (l : list instruction) (rd o v : Z) : Prop := forall r, r rd = o -> exists r',
  runAll l r = Some r' /\ r' rd = v /\ forall m, m <> rd -> r' m = r m.

Lemma takes_nil rd o v : o = v -> takes [] rd o v.
Proof. intros -> r Hr. by exists r. Qed.
Lemma takes_cons i l rd f o v : stepsTo i rd f -> takes l rd (f o) v -> takes (i :: l) rd o v.
Proof.
  intros Hi Hl r Hr. destruct (Hi r) as (w & r1 & Ew & E1 & Hf & Ho). destruct (Hl r1) as (r2 & E2 & Hg & Ho2); [by rewrite Hf, Hr|].
  exists r2. split_and!; [|done|intros m Hm; by rewrite Ho2, Ho].
  unfold runAll, encodeAll in *. cbn. rewrite Ew. cbn. destruct (mapM encode l) as [ws|]; [|done]. cbn in *. by rewrite E1.
Qed.
Lemma takes_one i rd f o v : stepsTo i rd f -> f o = v -> takes [i] rd o v.
Proof. intros Hi <-. eapply takes_cons; [done|]. by apply takes_nil. Qed.

Section Sequences.
Context (rd : Z) (Hrd : 0 <= rd < 31).

(** Once a part is written, the rest replace zeros. *)
Lemma movk_after_movz vs : forall k o, u16s vs -> 0 <= k -> k + zlen vs <= 4 -> 0 <= o < 2 ^ (16 * k) ->
  takes (movzThenMovk rd (indexed k vs) true) rd o (o + value k vs).
Proof using Hrd.
  induction vs as [|v vs IH]; intros k o Hu Hk Hl Ho; cbn [indexed movzThenMovk value]; [apply takes_nil; lia|].
  apply Forall_cons in Hu as [Hv Hu]. unfold zlen in *. cbn [length] in Hl. destruct (pow16 k Hk) as [E H0].
  rewrite Z.add_assoc. destruct (Z.eqb_spec v 0) as [->|Hne]; cbn [negb andb].
  - rewrite Z.mul_0_l, Z.add_0_r. apply IH; try done; lia || (rewrite E; nia).
  - eapply takes_cons; [apply steps_movK; [done|lia]|]. pose proof (keep_spec k v o 0 0) as Hs.
    rewrite !Z.mul_0_l, !Z.add_0_r in Hs. rewrite Hs; [|lia..|pose proof (pow16_le k ltac:(lia)); lia]. apply IH; try done; lia || (rewrite E; nia).
Qed.
Lemma movz_first vs : forall k o, u16s vs -> 0 <= k -> k + zlen vs <= 4 -> Exists (fun v => v <> 0) vs ->
  takes (movzThenMovk rd (indexed k vs) false) rd o (value k vs).
Proof using Hrd.
  induction vs as [|v vs IH]; intros k o Hu Hk Hl He; [by apply Exists_nil in He|]. cbn [indexed movzThenMovk value].
  apply Forall_cons in Hu as [Hv Hu]. unfold zlen in *. cbn [length] in Hl. destruct (pow16 k Hk) as [E H0].
  destruct (Z.eqb_spec v 0) as [->|Hne]; cbn [negb andb].
  - apply IH; try done; [lia..|]. by apply Exists_cons in He as [?|?].
  - eapply takes_cons; [apply steps_movZ; [done|lia]|]. cbv beta. rewrite part_u16 by done. apply movk_after_movz; unfold zlen; try done; lia || (rewrite E; nia).
Qed.

(** Ones above the parts that are written *)
Lemma ones_above k : 0 <= k < 4 -> 2 ^ 64 - 2 ^ (16 * k) = 65535 * 2 ^ (16 * k) + (2 ^ (16 * (3 - k)) - 1) * 2 ^ (16 * (k + 1)) /\ 0 < 2 ^ (16 * (3 - k)).
Proof.
  intros Hk. destruct (pow16 k ltac:(lia)) as [E H0]. assert (E64 : 2 ^ 64 = 2 ^ (16 * (3 - k)) * 2 ^ (16 * (k + 1))) by (rewrite <- Z.pow_add_r by lia; f_equal; lia).
  rewrite E64, E. split; [lia|apply Z.pow_pos_nonneg; lia].
Qed.
Lemma movk_after_movn vs : forall k lo, u16s vs -> 0 <= k -> k + zlen vs = 4 -> 0 <= lo < 2 ^ (16 * k) ->
  takes (movnThenMovk rd (indexed k vs) true) rd (lo + (2 ^ 64 - 2 ^ (16 * k))) (lo + value k vs).
Proof using Hrd.
  induction vs as [|v vs IH]; intros k lo Hu Hk Hl Ho; cbn [indexed movnThenMovk value].
  { unfold zlen in Hl. cbn in Hl. replace k with 4 by lia. apply takes_nil. lia. }
  apply Forall_cons in Hu as [Hv Hu]. unfold zlen in *. cbn [length] in Hl. destruct (pow16 k Hk) as [E H0]. destruct (ones_above k ltac:(lia)) as [E1 H1].
  assert (Hn : forall v, 0 <= v < 2 ^ 16 -> takes (movnThenMovk rd (indexed (k + 1) vs) true) rd (lo + v * 2 ^ (16 * k) + (2 ^ 64 - 2 ^ (16 * (k + 1)))) (lo + (v * 2 ^ (16 * k) + value (k + 1) vs))).
  { intros v' Hv'. rewrite Z.add_assoc. apply IH; try done; lia || (rewrite E; nia). }
  destruct (Z.eqb_spec v 65535) as [->|Hne]; cbn [negb andb].
  - specialize (Hn 65535 ltac:(lia)). replace (lo + (2 ^ 64 - 2 ^ (16 * k))) with (lo + 65535 * 2 ^ (16 * k) + (2 ^ 64 - 2 ^ (16 * (k + 1)))) by (rewrite E; lia). done.
  - eapply takes_cons; [apply steps_movK; [done|lia]|]. rewrite E1, Z.add_assoc, keep_spec; [|lia..].
    specialize (Hn v Hv). replace ((2 ^ (16 * (3 - k)) - 1) * 2 ^ (16 * (k + 1))) with (2 ^ 64 - 2 ^ (16 * (k + 1))) by (rewrite E in *; lia). done.
Qed.
Lemma movn_first vs : forall k o, u16s vs -> 0 <= k -> k + zlen vs = 4 -> Exists (fun v => v <> 65535) vs ->
  takes (movnThenMovk rd (indexed k vs) false) rd o (2 ^ (16 * k) - 1 + value k vs).
Proof using Hrd.
  induction vs as [|v vs IH]; intros k o Hu Hk Hl He; [by apply Exists_nil in He|]. cbn [indexed movnThenMovk value].
  apply Forall_cons in Hu as [Hv Hu]. unfold zlen in *. cbn [length] in Hl. destruct (pow16 k Hk) as [E H0]. destruct (ones_above k ltac:(lia)) as [E1 H1].
  destruct (Z.eqb_spec v 65535) as [->|Hne]; cbn [negb andb].
  - replace (2 ^ (16 * k) - 1 + (65535 * 2 ^ (16 * k) + value (k + 1) vs)) with (2 ^ (16 * (k + 1)) - 1 + value (k + 1) vs) by (rewrite E; lia).
    apply IH; try done; [lia..|]. by apply Exists_cons in He as [?|?].
  - eapply takes_cons; [apply steps_movN; [done|lia]|]. cbv beta. rewrite Z.add_assoc.
    assert (Ep : part (inv64 v) k = (65535 - v) * 2 ^ (16 * k)).
    { unfold part. rewrite inv64_spec by (unfold is_u64; lia). f_equal. symmetry. apply (Z.mod_unique_pos _ _ (2 ^ 48 - 1)); lia. }
    assert (El : low (sfOf true) (Z.lnot (part (inv64 v) k)) = 2 ^ (16 * k) - 1 + v * 2 ^ (16 * k) + (2 ^ 64 - 2 ^ (16 * (k + 1)))).
    { rewrite Ep. unfold low, Z.lnot. cbn [sfOf Z.eqb Pos.eqb]. cbv iota. symmetry. apply (Z.mod_unique_pos _ _ (-1)); [|rewrite E; lia].
      pose proof (pow16_le (k + 1) ltac:(lia)). rewrite E in *. nia. }
    rewrite El. apply movk_after_movn; unfold zlen; try done; lia || (rewrite E; nia).
Qed.
End Sequences.

(** ** 64-bit constants *)

Definition parts (c : Z) : list Z := map (fun i => field (wrap64 c) (i * 16) 16) [0; 1; 2; 3].
Lemma bits16_parts c : bits16 c = indexed 0 (parts c).
Proof.
  unfold bits16, parts, field. cbn [map indexed]. change 65535 with (Z.ones 16). rewrite !Z.land_ones, !Z.shiftr_div_pow2 by lia. done.
Qed.
Lemma parts_u16 c : u16s (parts c).
Proof. unfold u16s, parts, field. cbn [map]. repeat (apply Forall_cons; split; [apply Z.mod_pos_bound; lia|]). apply Forall_nil. done. Qed.
Lemma parts_value c : value 0 (parts c) = wrap64 c.
Proof.
  unfold parts, field. cbn [map value]. pose proof (wrap64_range c) as Hc. unfold is_u64 in Hc. set (x := wrap64 c) in *.
  change (2 ^ (0 * 16)) with 1. change (2 ^ (1 * 16)) with 65536. change (2 ^ (2 * 16)) with 4294967296. change (2 ^ (3 * 16)) with 281474976710656.
  change (2 ^ (16 * 0)) with 1. change (2 ^ (16 * (0 + 1))) with 65536. change (2 ^ (16 * (0 + 1 + 1))) with 4294967296.
  change (2 ^ (16 * (0 + 1 + 1 + 1))) with 281474976710656. change (2 ^ 16) with 65536. change (2 ^ 64) with 18446744073709551616 in Hc.
  Z.div_mod_to_equations; lia.
Qed.
Lemma load64_cases dst a b c d : let bits := indexed 0 [a; b; c; d] in
  forall l, l = (let zeros := countBits 0 bits in let negs := countBits 65535 bits in
    if zeros =? 3 then flat_map (fun '(i, v) => if negb (v =? 0) then [movZ dst v i true] else []) bits
    else if negs =? 3 then flat_map (fun '(i, v) => if negb (v =? 65535) then [movN dst (inv64 v) i true] else []) bits
    else if zeros =? 2 then movzThenMovk dst bits false
    else if negs =? 2 then movnThenMovk dst bits false
    else if zeros =? 1 then movzThenMovk dst bits false
    else if negs =? 1 then movnThenMovk dst bits false
    else movzThenMovk dst bits false) ->
  l = movzThenMovk dst bits false \/ (l = movnThenMovk dst bits false /\ Exists (fun v => v <> 65535) [a; b; c; d]).
Proof.
  intros bits l ->. assert (Hz : countBits 0 bits = 3 -> flat_map (fun '(i, v) => if negb (v =? 0) then [movZ dst v i true] else []) bits = movzThenMovk dst bits false).
  { unfold bits, countBits. cbn [indexed flat_map movzThenMovk]. rewrite !filter_cons. cbn [snd].
    destruct (decide (a = 0)) as [->|Ha], (decide (b = 0)) as [->|Hb], (decide (c = 0)) as [->|Hc], (decide (d = 0)) as [->|Hd];
      repeat match goal with H : ?v <> 0 |- _ => apply Z.eqb_neq in H; rewrite H; clear H end; done. }
  assert (Hn : countBits 65535 bits = 3 -> flat_map (fun '(i, v) => if negb (v =? 65535) then [movN dst (inv64 v) i true] else []) bits = movnThenMovk dst bits false).
  { unfold bits, countBits. cbn [indexed flat_map movnThenMovk]. rewrite !filter_cons. cbn [snd].
    destruct (decide (a = 65535)) as [->|Ha], (decide (b = 65535)) as [->|Hb], (decide (c = 65535)) as [->|Hc], (decide (d = 65535)) as [->|Hd];
      repeat match goal with H : ?v <> 65535 |- _ => apply Z.eqb_neq in H; rewrite H; clear H end; done. }
  assert (He : countBits 65535 bits <> 4 -> Exists (fun v => v <> 65535) [a; b; c; d]).
  { intros H. apply Exists_exists. destruct (decide (a = 65535)) as [->|]; [|exists a; set_solver]. destruct (decide (b = 65535)) as [->|]; [|exists b; set_solver].
    destruct (decide (c = 65535)) as [->|]; [|exists c; set_solver]. destruct (decide (d = 65535)) as [->|]; [done|exists d; set_solver]. }
  cbv zeta. destruct (Z.eqb_spec (countBits 0 bits) 3) as [E|]; [left; by apply Hz|].
  destruct (Z.eqb_spec (countBits 65535 bits) 3) as [E|]; [right; rewrite E in *; split; [by apply Hn|by apply He]|].
  destruct (countBits 0 bits =? 2); [by left|]. destruct (Z.eqb_spec (countBits 65535 bits) 2) as [E|]; [right; rewrite E in *; split; [done|by apply He]|].
  destruct (countBits 0 bits =? 1); [by left|]. destruct (Z.eqb_spec (countBits 65535 bits) 1) as [E|]; [right; rewrite E in *; split; [done|by apply He]|by left].
Qed.
Lemma load64_takes rd c o : 0 <= rd < 31 -> wrap64 c <> 0 -> takes (load64bitConst c rd) rd o (wrap64 c).
Proof.
  intros Hrd Hc. pose proof (load64_cases rd (field (wrap64 c) (0 * 16) 16) (field (wrap64 c) (1 * 16) 16) (field (wrap64 c) (2 * 16) 16) (field (wrap64 c) (3 * 16) 16)
    (load64bitConst c rd)) as Hl.
  change [field _ _ _; _; _; _] with (parts c) in Hl. unfold load64bitConst in *. rewrite bits16_parts in *. specialize (Hl eq_refl).
  rewrite <- (parts_value c). destruct Hl as [E|[E He]]; rewrite E.
  - apply movz_first; [done|apply parts_u16|lia|done|]. apply Exists_exists. assert (Hd : ~ Forall (fun v => v = 0) (parts c)).
    { intros Hf. apply Hc. rewrite <- (parts_value c). unfold parts in *. cbn [map] in *. rewrite !Forall_cons in Hf. destruct Hf as (E0 & E1 & E2 & E3 & _).
      by rewrite E0, E1, E2, E3. }
    by apply not_Forall_Exists, Exists_exists in Hd; [|apply _].
  - pose proof (movn_first rd Hrd (parts c) 0 o (parts_u16 c) ltac:(lia) eq_refl He) as Ht. change (2 ^ (16 * 0) - 1) with 0 in Ht. by rewrite Z.add_0_l in Ht.
Qed.
Lemma lnot64 c : Z.lnot (wrap64 (Z.lnot c)) mod 2 ^ 64 = wrap64 c.
Proof. unfold wrap64, Z.lnot. Z.div_mod_to_equations; lia. Qed.
Lemma lowerConstantI64_takes rd c o : 0 <= rd < 31 -> - 2 ^ 63 <= c < 2 ^ 63 -> c <> 0 -> takes (lowerConstantI64 rd c) rd o (wrap64 c).
Proof.
  intros Hrd Hc H0. unfold lowerConstantI64, lowerConstViaBitMaskImmediate.
  assert (Hmask : isBitMaskImmediate (wrap64 c) true = true -> takes [aluRRBitmaskImm aluOpOrr rd xzr (wrap64 c) true] rd o (wrap64 c)).
  { intros Hm. eapply takes_one; [apply steps_mask; [done|apply wrap64_range|done|done]|done]. }
  destruct (_ && isBitMaskImmediate _ _) eqn:E; [apply Hmask; by apply andb_true_iff in E as [_ ?]|]. clear E.
  destruct (Z.geb_spec (const16bitAligned c) 0) as [Ht|_].
  { destruct (const16bitAligned_spec c _ eq_refl Ht) as [Hlt Hp]. eapply takes_one; [apply steps_movZ; [done|lia]|done]. }
  destruct (Z.geb_spec (const16bitAligned (Z.lnot c)) 0) as [Ht|_].
  { destruct (const16bitAligned_spec _ _ eq_refl Ht) as [Hlt Hp]. eapply takes_one; [apply steps_movN; [done|lia]|]. cbv beta. rewrite Hp. apply lnot64. }
  destruct (isBitMaskImmediate _ _) eqn:E; [by apply Hmask|]. apply load64_takes; [done|]. unfold wrap64. Z.div_mod_to_equations; lia.
Qed.

(** ** 32-bit constants *)

Lemma aligned32 x : 0 <= x < 2 ^ 32 -> 0 <= const16bitAligned x -> const16bitAligned x < 2 /\ part (Z.shiftr x (16 * const16bitAligned x)) (const16bitAligned x) = x.
Proof.
  intros Hx Ht. destruct (const16bitAligned_spec x _ eq_refl Ht) as [Hlt Hp]. rewrite wrap64_small in Hp by (unfold is_u64; lia). split; [|done].
  destruct (Z.lt_ge_cases (const16bitAligned x) 2) as [|Hge]; [done|]. unfold part in Hp. set (t := const16bitAligned x) in *.
  assert (E : 2 ^ (16 * t) = 2 ^ 32 * 2 ^ (16 * (t - 2))) by (rewrite <- Z.pow_add_r by lia; f_equal; lia).
  assert (0 < 2 ^ (16 * (t - 2))) by (apply Z.pow_pos_nonneg; lia). rewrite E in Hp. set (a := _ mod 2 ^ 16) in Hp.
  pose proof (Z.mod_pos_bound (Z.shiftr x (16 * t)) (2 ^ 16) ltac:(lia)) as Ha. fold a in Ha. assert (a = 0) by nia. assert (Ex : x = 0) by nia.
  unfold t in Hge. by rewrite Ex in Hge.
Qed.
(** The complement of an int32 that is not negative has its high parts set. *)
Lemma lnot_unaligned c : 0 <= c < 2 ^ 31 -> const16bitAligned (Z.lnot c) < 0.
Proof.
  intros Hc. destruct (Z.lt_ge_cases (const16bitAligned (Z.lnot c)) 0) as [|Ht]; [done|exfalso].
  destruct (const16bitAligned_spec _ _ eq_refl Ht) as [Hlt Hp]. set (t := const16bitAligned (Z.lnot c)) in *. unfold part in Hp. set (a := _ mod 2 ^ 16) in Hp.
  assert (Ha : 0 <= a < 2 ^ 16) by (apply Z.mod_pos_bound; lia). clearbody a.
  assert (E : wrap64 (Z.lnot c) = 2 ^ 64 - 1 - c) by (unfold wrap64, Z.lnot; symmetry; apply (Z.mod_unique_pos _ _ (-1)); lia). rewrite E in Hp.
  assert (Hcs : t = 0 \/ t = 1 \/ t = 2 \/ t = 3) by lia. destruct Hcs as [->|[->|[->| ->]]]; cbn in Hp; lia.
Qed.
Lemma keep32 a o : 0 <= o < 2 ^ 16 -> 0 <= a < 2 ^ 16 -> keep false 1 a o = o + a * 2 ^ 16.
Proof.
  intros Ho Ha. unfold keep, low, field. rewrite part_u16 by done. cbn [sfOf Z.eqb]. cbv iota. rewrite (Z.mod_small o) by lia.
  change (16 * 1) with 16. rewrite Z.div_small by lia. rewrite Z.mod_0_l by lia. lia.
Qed.
Lemma lowerConstantI32_takes rd c o : 0 <= rd < 31 -> - 2 ^ 31 <= c < 2 ^ 31 -> takes (lowerConstantI32 rd c) rd o (wrap32 c).
Proof.
  intros Hrd Hc. unfold lowerConstantI32, lowerConstViaBitMaskImmediate. cbv zeta.
  assert (H32 : 0 <= wrap32 c < 2 ^ 32) by (apply Z.mod_pos_bound; lia).
  assert (Hpos : 0 <= c -> wrap32 c = c /\ wrap64 c = c) by (intros; unfold wrap32, wrap64; rewrite !Z.mod_small by lia; done).
  assert (Hneg : c < 0 -> wrap32 c = 2 ^ 32 + c) by (intros; unfold wrap32; symmetry; apply (Z.mod_unique_pos _ _ (-1)); lia).
  assert (Hmask : isBitMaskImmediate (wrap32 c) false = true -> takes [aluRRBitmaskImm aluOpOrr rd xzr (wrap32 c) false] rd o (wrap32 c)).
  { intros Hm. eapply takes_one; [apply steps_mask; [done|unfold is_u64; lia|intros; lia|done]|done]. }
  destruct (_ && isBitMaskImmediate (wrap64 c) _) eqn:E.
  { apply andb_true_iff in E as [E1 E2]. apply Hmask. rewrite !andb_true_iff, orb_true_iff, !andb_true_iff, !Z.leb_le in E1.
    assert (Hlt : wrap32 c < 2 ^ 24). { destruct E1 as [_ [?|[_ Hs]]]; [lia|]. rewrite Z.shiftr_div_pow2 in Hs by lia. Z.div_mod_to_equations; lia. }
    destruct (Z.lt_ge_cases c 0) as [Hl|Hl]; [specialize (Hneg Hl); lia|]. destruct (Hpos ltac:(lia)) as [Ea Eb]. by rewrite Ea, <- Eb. }
  clear E. destruct (Z.geb_spec (const16bitAligned (wrap32 c)) 0) as [Ht|Ht].
  { destruct (aligned32 _ H32 Ht) as [Hlt Hp]. eapply takes_one; [apply steps_movZ; [done|lia]|done]. }
  destruct (Z.geb_spec (const16bitAligned (Z.lnot c)) 0) as [Hn|Hn].
  { destruct (Z.lt_ge_cases c 0) as [Hl|Hl]; [|pose proof (lnot_unaligned c ltac:(lia)); lia].
    assert (Hr : 0 <= Z.lnot c < 2 ^ 32) by (unfold Z.lnot; lia). destruct (aligned32 _ Hr Hn) as [Hlt Hp].
    eapply takes_one; [apply steps_movN; [done|lia]|]. cbv beta. rewrite (wrap64_small (Z.shiftr _ _)), Hp, Z.lnot_involutive; [done|].
    unfold is_u64. rewrite Z.shiftr_div_pow2 by lia. assert (0 < 2 ^ (16 * const16bitAligned (Z.lnot c))) by (apply Z.pow_pos_nonneg; lia).
    split; [apply Z.div_pos; lia|]. apply Z.div_lt_upper_bound; [lia|nia]. }
  destruct (isBitMaskImmediate (wrap32 c) false) eqn:E.
  { destruct (Z.lt_ge_cases c 0) as [Hl|Hl]; [exfalso|by destruct (Hpos ltac:(lia)) as [Ea Eb]; rewrite Ea in *; rewrite Eb; apply Hmask].
    specialize (Hneg Hl). destruct (mask_apart (wrap32 c) ltac:(lia) E) as [Hm|Hm]; [lia|].
    replace (2 ^ 32 - 1 - wrap32 c) with (Z.lnot c) in Hm by (unfold Z.lnot; lia). lia. }
  assert (Hw : forall x, 0 <= wrap16 x < 2 ^ 16) by (intros x; apply Z.mod_pos_bound; lia).
  eapply takes_cons; [apply steps_movZ; [done|lia]|]. cbv beta. eapply takes_one; [apply steps_movK; [done|lia]|].
  rewrite part_u16 by done. change (2 ^ (16 * 0)) with 1. rewrite Z.mul_1_r, keep32 by done. rewrite Z.shiftr_div_pow2 by lia.
  unfold wrap16, wrap32 in *. Z.div_mod_to_equations; lia.
Qed.

(** ** Constants *)

(** At most one instruction for each part *)
Lemma one_each (f : Z * Z -> list instruction) bits : (forall b, length (f b) <= 1)%nat -> (length (flat_map f bits) <= length bits)%nat.
Proof. intros Hf. induction bits as [|b bits IH]; cbn; [lia|]. rewrite length_app. specialize (Hf b). lia. Qed.
Lemma movz_length dst bits : forall m, (length (movzThenMovk dst bits m) <= length bits)%nat.
Proof. induction bits as [|[i v] bits IH]; intros m; cbn; [lia|]. pose proof (IH m). pose proof (IH true). repeat case_match; cbn; lia. Qed.
Lemma movn_length dst bits : forall m, (length (movnThenMovk dst bits m) <= length bits)%nat.
Proof. induction bits as [|[i v] bits IH]; intros m; cbn; [lia|]. pose proof (IH m). pose proof (IH true). repeat case_match; cbn; lia. Qed.
Lemma load64_length c dst : (length (load64bitConst c dst) <= 4)%nat.
Proof.
  unfold load64bitConst. change 4%nat with (length (bits16 c)).
  repeat case_match; apply movz_length || apply movn_length || (apply one_each; intros [i v]; case_match; cbn; lia).
Qed.
Lemma insert_length v i64 rd : (length (insertLoadConstant v i64 rd) <= if i64 then 4 else 2)%nat.
Proof.
  unfold insertLoadConstant, lowerConstantI64, lowerConstantI32, lowerConstViaBitMaskImmediate. cbv zeta. pose proof (load64_length (sgn64 v) rd).
  destruct i64; repeat case_match; cbn; lia.
Qed.

Lemma insert_takes v (i64 : bool) rd o : is_u64 v -> 0 <= rd < 31 -> takes (insertLoadConstant v i64 rd) rd o (if i64 then v else v mod 2 ^ 32).
Proof.
  intros Hv Hrd. unfold insertLoadConstant. change (2 ^ 32 - 1) with (Z.ones 32). rewrite Z.land_ones by lia. set (x := if i64 then v else v mod 2 ^ 32).
  destruct (Z.eqb_spec x 0) as [E|Hne].
  { rewrite E. eapply takes_one; [by apply steps_mov64|done]. }
  destruct i64; unfold x in *.
  - pose proof (sgn_range 64 v ltac:(lia)) as Hr. pose proof (sgn_mod_eq 64 v ltac:(lia)) as He. pose proof (lowerConstantI64_takes rd (sgn64 v) o Hrd) as Ht.
    unfold sgn64, wrap64 in *. rewrite He, Z.mod_small in Ht by done. apply Ht; [done|]. intros E. rewrite E, (Z.mod_small v), Z.mod_0_l in He by (done || lia). by apply Hne.
  - pose proof (sgn_range 32 (v mod 2 ^ 32) ltac:(lia)) as Hr. pose proof (sgn_mod_eq 32 (v mod 2 ^ 32) ltac:(lia)) as He.
    pose proof (lowerConstantI32_takes rd (sgn32 (v mod 2 ^ 32)) o Hrd) as Ht. unfold sgn32, wrap32 in *. rewrite He, Z.mod_mod in Ht by lia. by apply Ht.
Qed.

(** C12: the constants of compiled code.  For every constant of 64 bits, as an i64 or as an i32 (whose upper bits are dropped), and every general
    register, the instructions that [insertLoadConstant] chooses are encoded (the loops over bit positions end), in at most four words (two for an
    i32); run as the architecture defines, the words leave the constant, zero-extended, in the register, whatever it held, and change no other register. *)
Theorem arm64_constants v (i64 : bool) rd r : is_u64 v -> 0 <= rd < 31 -> exists ws r',
  encodeAll (insertLoadConstant v i64 rd) = Some ws /\ (length ws <= if i64 then 4 else 2)%nat /\
  execWords ws r = Some r' /\ r' rd = (if i64 then v else v mod 2 ^ 32) /\ forall m, m <> rd -> r' m = r m.
Proof.
  intros Hv Hrd. destruct (insert_takes v i64 rd (r rd) Hv Hrd r eq_refl) as (r' & Hr & Hd & Ho). unfold runAll in Hr.
  destruct (encodeAll (insertLoadConstant v i64 rd)) as [ws|] eqn:E; [|done]. exists ws, r'. split_and!; try done.
  unfold encodeAll in E. apply length_mapM in E. rewrite <- E. apply insert_length.
Qed.
(** A mask of four copies of a run that wraps around, in one word; and a constant that takes four. *)
Lemma arm64_constants_witness :
  encodeAll (insertLoadConstant 17298308644996116495 true 3) = Some [2986647523] /\
  (exists ws r', encodeAll (insertLoadConstant 17298308644996116495 true 3) = Some ws /\ (length ws <= 4)%nat /\
    execWords ws (fun _ => 7) = Some r' /\ r' 3 = 17298308644996116495 /\ forall m, m <> 3 -> r' m = 7) /\
  (encodeAll (insertLoadConstant 81985529216486895 true 3) = Some [3533290979; 4071699811; 4073237731; 4074775651]).
Proof.
  split; [vm_compute; reflexivity|]. split; [|vm_compute; reflexivity].
  apply (arm64_constants 17298308644996116495 true 3 (fun _ => 7)); [unfold is_u64; lia|lia].
Defined.
